(* ===== verification/_CoqProject ===== *)
-Q . S2P
Prelude.v
FrameTable.v
RefCache.v
FibBuddy.v
FibPmm.v
Cgroup.v
FrameCache.v
BitmapPmm.v
FileLock.v
Pipe.v
MsgQueue.v
Semaphore.v
EventFd.v
TtyBuffer.v
LineDisc.v
Timer.v
Deque.v
Scheduler.v
Futex.v
Checksum.v
Seccomp.v
Signals.v
Eevdf.v
Routing.v
Capability.v
RtSched.v
Crc.v
Ext4Journal.v
Dcache.v
PageCache.v
Namei.v
Vma.v
Heap.v
Ebpf.v
EbpfMaps.v
EbpfLoader.v
Tmpfs.v
Ipv4.v
TcpWire.v
Tcp.v
Link.v
Udp.v
