(* ===== verification/Prelude.v ===== *)
(** * A verification development for the echOS-x64 kernel core

    echOS is a [no_std] x86-64 kernel in Rust.  This library models the parts
    of it that keep the state other parts depend on: who owns a physical
    frame, where the next task runs and when it wakes, and the IPC objects
    behind the POSIX system calls.  Every definition is a translation of code
    under [src/src/] and is executable; the theorems are about those
    definitions.

    ** The parts and how they interact

    - Physical memory.  The UEFI memory map is cut into zone regions
      ([fibonacci_pmm.rs]), each managed by a Fibonacci buddy allocator
      ([fibonacci_buddy.rs]); the memory manager serves single frames from a
      per-CPU cache ([per_cpu_frame_cache.rs]) that refills from and drains to
      the zones, and uncharges the memory cgroup of the caller ([cgroup.rs]).
      A second manager is a bitmap of frames ([pmm.rs]).  Frames in use are
      counted in the frame table ([frame_ownership/mod.rs]), either at once or
      through per-CPU delta caches ([refcache.rs]); an address space is a map of
      areas in a skip list ([vma.rs]), read without locks by [cils.rs]; handles ([unique.rs],
      [shared_atomic.rs], [shared_refcache.rs]) call it when created, cloned and
      dropped, and give frames back to the memory manager.  The kernel's own
      data comes from the heap ([allocator/tlsf.rs]) with its per-CPU slabs
      ([slab.rs]).
    - Tasks.  A woken or new task is placed on the run queue of a CPU
      ([scheduler.rs]); run queues are work-stealing deques ([deque.rs]); tasks
      that sleep live in a hierarchical timing wheel ([timer.rs]) that the timer
      interrupt advances; blocked tasks wait in the wait queues of the objects
      they block on, or at a user address in the futex tables ([futex.rs]).
      Signals and alarms ([signal.rs]) become pending in a task and are
      delivered when the scheduler switches to it.  [eevdf.rs] is a run queue
      ordered by virtual deadlines, [rt_scheduler.rs] one of real-time
      priorities with round-robin time slices.
    - IPC and files.  Pipes and FIFOs ([pipe.rs]), message queues ([msgq.rs]),
      semaphores ([semaphore.rs]), event descriptors ([event_fd.rs]) and file
      locks ([file_lock.rs]) are tables of shared objects behind system calls.
    - Terminal.  The keyboard interrupt feeds the line discipline ([ldisc.rs]),
      which edits lines in a lock-free ring ([tty/buffer.rs]).
    - Security.  Seccomp filters ([seccomp.rs]) judge system calls; capabilities
      ([capability.rs]) are what a process holds to use a service, a shared
      region or a request, and can be derived, transferred and revoked.
    - Network.  [net/checksum.rs] computes and verifies the checksums of packets,
      [net/routing.rs] finds the route of a packet.  A received frame
      ([net/ethernet.rs]) goes to [net/arp.rs], which learns addresses and sends
      what waited for them, or to [net/ip.rs], which puts fragments together and
      answers pings, and on to the sockets of [net/udp.rs] or the connections and
      listeners of [net/tcp.rs].  Programs in eBPF
      ([net/ebpf.rs]) are verified when loaded and run on packets and events;
      they keep their data in maps ([net/ebpf_maps.rs]).
    - File systems.  ext4 groups the blocks it changes into transactions of a
      journal ([ext4_journal.rs]) whose blocks carry checksums (shared with
      [fs/journal.rs]); mounting replays the journal.  Path names are resolved
      component by component ([namei.rs]) below the mount points of
      [vfs_unified.rs]; what is found goes into the dentry cache ([dcache.rs]),
      file contents into the page cache ([page_cache.rs]).  [tmpfs.rs] keeps whole
      file systems in memory.

    ** Files

    - [Prelude] (this file): machine integers, pages, list, sum and ordered-map
      lemmas, the tactics [mlia], [simplify_bool], [split_code] and the hint
      database [echos].
    - [FrameTable] models [frame_ownership/mod.rs]: the table as a finite map
      from page addresses to entries (flag word, order, 32-bit count), one
      function per method.  [ft_accounting] refines an abstract owner map;
      [ft_balanced], [ft_pin_never_freed], [ft_step_invariant] and
      [ft_refcache_sum] are its consequences for traces.
    - [RefCache] models [refcache.rs] and the three handle types over the
      interface [FrameSink] (where freed frames go): 256 CPUs with delta cache,
      review queue and epoch.  [rc_conservation]: deferred counting loses no
      reference; [rc_tick_frees_zero]: a tick frees only unreferenced frames.
    - [FibBuddy] models [fibonacci_buddy.rs]: 32 free lists of at most 64 blocks.
      Coverage of an address by free blocks is the invariant from which
      disjointness of allocations follows.
    - [FibPmm] models [fibonacci_pmm.rs]: zones, fallback, contiguous requests.
    - [Cgroup] models [cgroup.rs] with groups as objects of a heap, so that the
      clone made by [get_cgroup] is visible.
    - [FrameCache] models [per_cpu_frame_cache.rs] and the frame functions of
      [memory/mod.rs] over the interface [FramePool], discharged by [FibPmm].
    - [BitmapPmm] models [pmm.rs] on 64-bit words.
    - [FileLock] models [file_lock.rs]; a blocking system call is one pass of its
      loop, and histories interleave passes of different processes
      ([fl_posix_exclusion]); the deadlock search decides reachability in the graph
      it keeps ([fl_deadlock_exact]), which is not who really waits
      ([deadlock_missed]).
    - [Pipe] models [posix/pipe.rs] and the wait queue of [scheduler.rs]: read and
      write are cut where the lock is released, so lost wake-ups are visible.
    - [MsgQueue], [Semaphore], [EventFd] model [posix/msgq.rs],
      [posix/semaphore.rs], [ipc/event_fd.rs]; the compare-and-swap loops of
      semaphores and the atomic accesses of eventfds are interleaved steps.
    - [TtyBuffer] models [tty/buffer.rs] and states the interface [ByteQueue];
      for one producer and one
      consumer the ring is a queue at every interleaving ([tty_spsc_fifo]);
      [LineDisc] models [tty/ldisc.rs] against the interface.
    - [Timer] models [task/timer.rs] and the functions that drive it: a task wakes
      at its documented tick, one later at most where that is a multiple of 256,
      and never before ([wheel_exact]).
    - [Deque] models [task/deque.rs] as a machine of one owner and any number of
      stealers whose steps are the accesses to shared words.
    - [Scheduler] models placement, load publication, victim search and time
      accounting of [task/scheduler.rs] on run queues as lists; [Deque] shows
      that an undisturbed deque is such a list.
    - [Futex] models [task/futex.rs]: the address-wait manager and the futex
      queues, with the system calls cut where they drop the manager's lock.
      [futex_no_lost_task], [futex_wake_fifo], [futex_timeout_exact] and
      [futex_pi_exclusion] are its contract over all histories;
      [futex_lost_wakeup] and [futex_requeue_inert] delimit it.
    - [Signals] models [task/signal.rs] and what [scheduler.rs] does with
      signals: [signals_delivered_in_order], [signal_state_wf],
      [sigaction_roundtrip], [alarms_exact]; [signals_never_act] shows what the
      order of delivery and installation of a task amounts to.
    - [Eevdf] models [task/eevdf.rs] with tasks as shared objects:
      [eevdf_picks_earliest_eligible], [eevdf_work_conserving].
    - [Checksum] models [net/checksum.rs] on byte lists: the loops equal one's
      complement sums ([internet_checksum_spec]), incremental update equals
      recomputation ([update_checksum_correct]), computed checksums verify
      ([tcp_checksum_roundtrip], [udp_checksum_valid]) and damage to a byte is
      detected ([verify_detects_byte]).
    - [Seccomp] models [security/seccomp.rs]: interpreter, filters, contexts,
      registry, audit logs and policy compiler.
    - [Routing] models [net/routing.rs]: the prefix trie answers with the longest
      matching prefix of the routes inserted ([fib_longest_prefix]), the manager
      with its cache answers what evaluating the rules afresh gives, the best route
      of the first matching rule's table where that has one
      ([routing_lookup_correct]), a dump lists the routes ([fib_dump_exact]).
    - [Capability] models [security/capability.rs]: no sequence of operations
      gives a process rights to a resource beyond those granted for that resource
      ([cap_no_forgery]);
      revocation removes the derived capabilities and nothing else
      ([revoke_exact]) for good ([revoked_stays_revoked]); [transfer_clobbers]
      shows where transfers break this.
    - [RtSched] models [task/rt_scheduler.rs]: the bitmap and lists refine a
      queue ordered by priority and arrival ([rt_queue_refines]); time slices
      are exact ([rr_slice_exact]); [setscheduler_roundtrip].
    - [Crc] models the two checksums of the file systems as shift registers:
      [crc32c_table_correct], [crc_detects_burst].
    - [Ext4Journal] models [fs/ext4_journal.rs] over the class [BlockDevice]:
      [journal_block_protected], [superblock_roundtrip], [commit_write_ahead] (the
      order of writes whatever the disk refuses), and the limits
      [full_blocks_wedge] and [recover_stops_at_data].
    - [Dcache] models [fs/dcache.rs]: the hash table with its LRU list and
      compaction refines a finite map of names while renames go to free names
      ([dcache_refines]); [rename_keeps_existing] is the other case.
    - [PageCache] models [fs/page_cache.rs] over a class of block devices:
      [page_cache_invariant], [writeback_all_exact], [writeback_durable];
      [worker_discards_writes] shows what the periodic worker does instead.
    - [Vma] models [memory/vma.rs]: the skip list of raw pointers refines a map of
      addresses as long as a removal or change of flags meets one area at most, a
      removal all of it ([vma_map_refines]); [insert_effect] says when an insertion
      succeeds and what lookups see; its examples delimit removal and overlap.
    - [Heap] models [allocator/tlsf.rs], [slab.rs] and [mod.rs] over the class
      [Tlsf] of the crate rlsf: [heap_disjoint], [heap_free_reuses].
    - [Ebpf] models the interpreter and the verifier of [net/ebpf.rs]: the states the
      verifier computes cover every edge ([verifier_post_fixpoint]), accepted
      programs end ([verified_terminates]), their stack accesses do not fail
      ([verifier_sound], [verified_returns]); examples show why both
      conditions of these theorems are needed.
    - [EbpfMaps] models [net/ebpf_maps.rs]: the map types behind the trait refine
      finite functions and, while the ring is not filled to the last byte, a queue
      ([maps_refine]), the LRU map a queue ([lru_refines]); with
      [Ebpf], [programs_keep_maps].
    - [EbpfLoader] models the loader, the ELF reader and the attach points of
      [net/ebpf.rs]: [loaded_run_ends].
    - [Namei] models [fs/namei.rs] and the mount table of [fs/vfs_unified.rs]:
      [normalize_canonical], [resolve_sound], [resolve_terminates],
      [mounts_refine], and with [Dcache] [resolve_cached].
    - [Tmpfs] models [fs/tmpfs.rs]: inodes linked by numbers refine a finite function
      from paths for names and writes within the documented limits
      ([tmpfs_refines]); its examples show what the code does outside them.
    - [Ipv4] models [net/ip.rs]: fragments in any order give the datagram back
      ([reassembly_exact]), a ping comes back with its round trip time
      ([ping_roundtrip]); filter, link and upper protocols are parameters.
    - [TcpWire] models the formats of [net/tcp.rs]: [segment_roundtrip],
      [sack_gaps_exact], [syn_cookie_exact].
    - [Tcp] models the connections and tables of [net/tcp.rs] as computations that
      fail and send packets, over [Ipv4] and [TcpWire]: [tcp_stream] for two
      connected hosts, [connect_gives_up], [accept_once] for accepts cut at their
      locks and not overlapping ([accepted_twice] is what overlapping ones do); its examples run a
      handshake and show what acknowledgement numbers do to it.
    - [Link] models [net/ethernet.rs], [net/arp.rs], the loopback interface and the
      entry points of [net/mod.rs]: with its handlers cut at the
      locks they take, every packet is sent, waiting or in the hands of a handler
      ([arp_conserves]); handlers one at a time keep the order ([arp_fifo]),
      otherwise not ([waits_though_known]); a request and its reply send them ([arp_resolves]).
    - [Udp] models [net/udp.rs]: what a socket sends the UDP input takes
      ([udp_delivers]); [ephemeral_port_exact].

    ** Conventions

    A [w]-bit integer is a [Z] with its wrap-around written out.  State is
    passed explicitly; errors are values of a sum or option type; a call that
    never returns or panics is [None] where the code can do so.  Concurrent
    code is a step function on explicit thread states, run on an arbitrary
    list of events; memory is sequentially consistent.  How fine the steps are is
    said at each definition: single accesses in [Deque], [TtyBuffer], [EventFd],
    [Semaphore] and the priority-inheritance lock of [Futex], pieces between lock
    operations in [Pipe], the other calls of [Futex], [Tcp.accept_step] and
    [Link.proceed]; elsewhere an operation is one step.  Clocks, CPU numbers,
    user memory, topology and reclaim are arguments.

    ** Fuel

    - [FibBuddy.place_loop] gets the number of pages: every block takes at least
      one ([place_loop_fuel]); [try_coalesce] the number of levels, one per
      recursive call ([try_coalesce_fuel]).
    - [FibPmm.fallback_loop] gets 3: the fallback chain has three zones.
    - [BitmapPmm.contiguous_loop] gets the number of frames: the candidate start
      grows in each round.
    - [FileLock.dfs] gets stack plus edges plus one: a process is expanded once.
    - [Cgroup.charge_loop] gets the identifier plus one: parents are older.
    - [LineDisc.kill_loop] gets the queue capacity plus one.
    - [Deque.finish] gets 6 and [EventFd.finish] 2: the longest call.
    - [Checksum.carry_fold] needs two turns for a 32-bit sum
      ([internet_checksum_spec]); [Seccomp.execute] as many steps as the program
      has instructions ([seccomp_filter_inert]); [Signals.deliver_seq] 31.
    - [Capability.revoke_rec] gets the number of capabilities plus one: every
      nested call has removed one ([revoke_exact]).
    - [Ext4Journal.scan] gets the blocks left in the journal, [scan_tags] the block
      size and [replay_loop] the length of the image: positions grow.
    - The walks of [Vma] get the number of nodes plus one; that they end is part
      of [vma_map_refines].
    - [Ebpf.turns] runs the verifier's loop 1000001 times, one more than its
      own limit ([work_ends]); [Ebpf.run] one turn per instruction
      ([verified_terminates]); [Ebpf.mark_loop] the edges plus one
      ([mark_loop_spec]).  [EbpfLoader.trim_start_fuel] and [chunks8] get the length of
      what they shorten.
    - [Dcache.shrink_loop] gets the length of the LRU list plus one;
      [Namei.resolve_inner] 41: one unit per link followed, forty at most
      ([resolve_terminates]).
    - [Ipv4.source_routed] and [TcpWire.parse_loop] get the length of the options:
      the position grows ([source_routed_fuel]).

    ** What is not modelled

    The context switch, fork, exec, clone and exit of the scheduler, page
    tables, kernel stacks, the file systems on disk, drivers, the
    other network protocols (IPv6, the packet filter, the application protocols), congestion control other than Reno, the eBPF code generator, graphics, the other security modules, cryptography and
    boot code.  They work on hardware state, raw memory or device protocols, or
    are whole subsystems of their own.  Natural next parts: page
    reclaim lists, the ext4 extent and allocation code, access
    control lists, sockets and the packet filter. *)

From Stdlib Require Export ZArith Lia.
From stdpp Require Export prelude gmap sorting strings.

#[global] Open Scope Z_scope.
#[global] Set Warnings "-clear-no-such-hyp".

(** ** Machine integers

    A [w]-bit Rust integer is a [Z] in [0, 2^w) (unsigned) or
    [-2^(w-1), 2^(w-1)) (signed).  Atomic read-modify-write operations and, in
    the release profile ([src/Cargo.toml], no [overflow-checks]), the plain
    operators wrap around; [saturating_*] operators clamp. *)

Declare Scope mach_scope.
Delimit Scope mach_scope with mach.

Definition u8_mod : Z := 2 ^ 8.
Definition u16_mod : Z := 2 ^ 16.
Definition u32_mod : Z := 2 ^ 32.
Definition u64_mod : Z := 2 ^ 64.
Definition u32_max : Z := u32_mod - 1.
Definition u64_max : Z := u64_mod - 1.

Definition is_u8 (x : Z) : Prop := 0 <= x < u8_mod.
Definition is_u32 (x : Z) : Prop := 0 <= x < u32_mod.
Definition is_u64 (x : Z) : Prop := 0 <= x < u64_mod.

(** Wrapping operators: [fetch_add], [fetch_sub], [wrapping_*], and the plain
    operators of a release build. *)
Definition u32_add (a b : Z) : Z := (a + b) mod u32_mod.
Definition u32_sub (a b : Z) : Z := (a - b) mod u32_mod.
Definition u64_add (a b : Z) : Z := (a + b) mod u64_mod.
Definition u64_sub (a b : Z) : Z := (a - b) mod u64_mod.
Definition u64_mul (a b : Z) : Z := (a * b) mod u64_mod.

(** Saturating operators. *)
Definition u32_sat_add (a b : Z) : Z := Z.min (a + b) u32_max.
Definition u64_sat_add (a b : Z) : Z := Z.min (a + b) u64_max.
Definition u64_sat_mul (a b : Z) : Z := Z.min (a * b) u64_max.
Definition sat_sub (a b : Z) : Z := Z.max 0 (a - b).

(** [x as u32] on any integer and [x as i64] on a [u64]. *)
Definition as_u32 (x : Z) : Z := x mod u32_mod.
Definition as_i64 (x : Z) : Z :=
  let y := x mod u64_mod in if decide (y < 2 ^ 63) then y else y - u64_mod.

Notation "a +₆₄ b" := (u64_add a b) (at level 50, left associativity) : mach_scope.
Notation "a -₆₄ b" := (u64_sub a b) (at level 50, left associativity) : mach_scope.
Notation "a ×₆₄ b" := (u64_mul a b) (at level 40, left associativity) : mach_scope.

(** The development's arithmetic tactic: expose the widths, then [lia]. *)
Ltac unfold_mach :=
  unfold is_u8, is_u32, is_u64, u32_add, u32_sub, u64_add, u64_sub, u64_mul,
    u32_sat_add, u64_sat_add, u64_sat_mul, sat_sub, as_u32, as_i64,
    u32_max, u64_max, u8_mod, u16_mod, u32_mod, u64_mod in *;
  change (2 ^ 8) with 256 in *; change (2 ^ 16) with 65536 in *;
  change (2 ^ 32) with 4294967296 in *;
  change (2 ^ 63) with 9223372036854775808 in *;
  change (2 ^ 64) with 18446744073709551616 in *.
Ltac mlia := unfold_mach; Z.div_mod_to_equations; lia.

(** Reduce boolean tests of the code to propositions and split on them. *)
Ltac simplify_bool :=
  repeat match goal with
  | H : _ && _ = true |- _ => apply andb_true_iff in H as [??]
  | H : _ || _ = false |- _ => apply orb_false_iff in H as [??]
  | H : negb _ = true |- _ => apply negb_true_iff in H
  | H : negb _ = false |- _ => apply negb_false_iff in H
  | H : (_ =? _) = true |- _ => apply Z.eqb_eq in H
  | H : (_ =? _) = false |- _ => apply Z.eqb_neq in H
  | H : (_ <? _) = true |- _ => apply Z.ltb_lt in H
  | H : (_ <? _) = false |- _ => apply Z.ltb_ge in H
  | H : (_ <=? _) = true |- _ => apply Z.leb_le in H
  | H : (_ <=? _) = false |- _ => apply Z.leb_gt in H
  end.
(** Case analysis on every [if] and [match] of the goal, in order. *)
Ltac split_code := repeat (case_match; simplify_bool; simplify_eq/=).

Create HintDb echos.

Lemma u32_add_small a b : 0 <= a + b < u32_mod -> u32_add a b = a + b.
Proof. intros; unfold u32_add; by apply Z.mod_small. Qed.
Lemma u32_sub_small a b : 0 <= a - b < u32_mod -> u32_sub a b = a - b.
Proof. intros; unfold u32_sub; by apply Z.mod_small. Qed.
Lemma u64_add_small a b : 0 <= a + b < u64_mod -> u64_add a b = a + b.
Proof. intros; unfold u64_add; by apply Z.mod_small. Qed.
Lemma u64_sub_small a b : 0 <= a - b < u64_mod -> u64_sub a b = a - b.
Proof. intros; unfold u64_sub; by apply Z.mod_small. Qed.
Lemma u64_mul_small a b : 0 <= a * b < u64_mod -> u64_mul a b = a * b.
Proof. intros; unfold u64_mul; by apply Z.mod_small. Qed.
Lemma u32_add_range a b : is_u32 (u32_add a b).
Proof. unfold is_u32, u32_add. apply Z.mod_pos_bound. done. Qed.
Lemma u32_sub_range a b : is_u32 (u32_sub a b).
Proof. unfold is_u32, u32_sub. apply Z.mod_pos_bound. done. Qed.
Lemma u64_add_range a b : is_u64 (u64_add a b).
Proof. unfold is_u64, u64_add. apply Z.mod_pos_bound. done. Qed.
#[export] Hint Resolve u32_add_range u32_sub_range u64_add_range : echos.

(** ** Pages

    [phys & !0xFFF] on a [u64]: the start of the 4 KiB page that holds the
    address.  It is also [PhysFrame::containing_address(a).start_address()]. *)
Definition PAGE_SIZE : Z := 4096.
Definition page_of (phys : Z) : Z := Z.land phys (u64_max - 4095).

Lemma page_of_spec p : is_u64 p -> page_of p = p - p mod 4096.
Proof.
  intros [H0 H1]. unfold page_of.
  replace (u64_max - 4095) with (Z.ldiff (Z.ones 64) (Z.ones 12)) by reflexivity.
  rewrite Z.ldiff_land, Z.land_assoc, Z.land_ones, <-Z.ldiff_land by lia.
  rewrite (Z.mod_small p) by (unfold u64_mod in *; lia).
  rewrite Z.ldiff_ones_r, Z.shiftl_mul_pow2, Z.shiftr_div_pow2 by lia.
  change (2 ^ 12) with 4096. pose proof (Z.div_mod p 4096). lia.
Qed.
Lemma page_of_aligned p : is_u64 p -> page_of p mod 4096 = 0.
Proof. intros H. rewrite page_of_spec by done. mlia. Qed.
Lemma page_of_u64 p : is_u64 p -> is_u64 (page_of p).
Proof. intros H. rewrite page_of_spec by done. mlia. Qed.
Lemma page_of_id p : is_u64 p -> p mod 4096 = 0 -> page_of p = p.
Proof. intros H Ha. rewrite page_of_spec by done. lia. Qed.
Lemma page_of_idemp p : is_u64 p -> page_of (page_of p) = page_of p.
Proof. intros H. apply page_of_id; auto using page_of_u64, page_of_aligned. Qed.
#[export] Hint Resolve page_of_aligned page_of_u64 page_of_idemp : echos.

(** A [w]-bit value is one that the mask of [w] ones leaves alone. *)
Lemma mask_range a n : 0 <= n -> 0 <= a < 2 ^ n <-> Z.land a (Z.ones n) = a.
Proof.
  intros Hn. rewrite Z.land_ones by done. split; intros H.
  - by apply Z.mod_small.
  - rewrite <-H. apply Z.mod_pos_bound. by apply Z.pow_pos_nonneg.
Qed.
Lemma lor_range a b n :
  0 <= n -> 0 <= a < 2 ^ n -> 0 <= b < 2 ^ n -> 0 <= Z.lor a b < 2 ^ n.
Proof.
  intros Hn Ha Hb. apply mask_range in Ha, Hb; try done. apply mask_range; [done|].
  by rewrite Z.land_lor_distr_l, Ha, Hb.
Qed.
Lemma ldiff_range a b n : 0 <= n -> 0 <= a < 2 ^ n -> 0 <= Z.ldiff a b < 2 ^ n.
Proof.
  intros Hn Ha. apply mask_range in Ha; try done. apply mask_range; [done|].
  rewrite !Z.ldiff_land, <-Z.land_assoc, (Z.land_comm (Z.lnot b)), Z.land_assoc, Ha.
  done.
Qed.

(** Constants are in range by computation. *)
Lemma is_u8_bool c : (0 <=? c) && (c <? 256) = true -> is_u8 c.
Proof. intros; simplify_bool. mlia. Qed.
Lemma is_u32_bool c : (0 <=? c) && (c <? 4294967296) = true -> is_u32 c.
Proof. intros; simplify_bool. mlia. Qed.
#[export] Hint Extern 3 (is_u8 _) => (apply is_u8_bool; reflexivity) : echos.
#[export] Hint Extern 3 (is_u32 _) => (apply is_u32_bool; reflexivity) : echos.

(** ** Sums over lists *)
Definition sumZ {A} (f : A -> Z) (l : list A) : Z := foldr (fun x acc => f x + acc) 0 l.
Lemma sumZ_app {A} (f : A -> Z) l k : sumZ f (l ++ k) = sumZ f l + sumZ f k.
Proof. induction l; simpl; lia. Qed.
Lemma sumZ_insert {A} (f : A -> Z) (l : list A) i x y :
  l !! i = Some y -> sumZ f (<[i := x]> l) = sumZ f l - f y + f x.
Proof.
  revert i; induction l as [|z l IH]; intros [|i] Hi; simplify_eq/=; [lia|].
  rewrite (IH _ Hi). lia.
Qed.
Lemma sumZ_ext {A} (f g : A -> Z) l : (forall x, x ∈ l -> f x = g x) -> sumZ f l = sumZ g l.
Proof.
  induction l as [|x l IH]; intros H; simpl; [done|].
  rewrite (H x), IH; set_solver.
Qed.

Lemma sumZ_nonneg {A} (f : A -> Z) l : (forall x, 0 <= f x) -> 0 <= sumZ f l.
Proof. intros Hf. induction l as [|x l IH]; simpl; [lia|]. specialize (Hf x). lia. Qed.
Lemma sumZ_elem {A} (f : A -> Z) l i x : (forall x, 0 <= f x) -> l !! i = Some x -> f x <= sumZ f l.
Proof.
  intros Hf. revert i. induction l as [|z l IH]; intros [|i] Hi; simplify_eq/=.
  - pose proof (sumZ_nonneg f l Hf). lia.
  - specialize (IH _ Hi). specialize (Hf z). lia.
Qed.
Lemma sumZ_two {A} (f : A -> Z) l i j x y : (forall x, 0 <= f x) ->
  i <> j -> l !! i = Some x -> l !! j = Some y -> f x + f y <= sumZ f l.
Proof.
  intros Hf. revert i j. induction l as [|z l IH]; intros [|i] [|j] Hij Hi Hj; simplify_eq/=.
  - pose proof (sumZ_elem f l j y Hf Hj). lia.
  - pose proof (sumZ_elem f l i x Hf Hi). lia.
  - assert (i <> j) as Hne by congruence. specialize (IH i j Hne Hi Hj). specialize (Hf z). lia.
Qed.

(** [iter().position(pred)] *)
Fixpoint position {A} (f : A -> bool) (l : list A) : option nat :=
  match l with [] => None | x :: l' => if f x then Some O else S <$> position f l' end.

Lemma position_spec {A} (f : A -> bool) l i : position f l = Some i ->
  (exists x, l !! i = Some x /\ f x = true) /\ forall j y, (j < i)%nat -> l !! j = Some y -> f y = false.
Proof.
  revert i. induction l as [|x l IH]; intros i H; simpl in H; [done|].
  destruct (f x) eqn:E; simplify_eq/=.
  - split; [eauto|]. intros; lia.
  - destruct (position f l) as [k|]; simplify_eq/=. destruct (IH k eq_refl) as [H1 H2].
    split; [done|]. intros [|j] y Hj Hy; simplify_eq/=; [done|]. eapply H2; [|done]. lia.
Qed.
Lemma position_None {A} (f : A -> bool) l : position f l = None -> Forall (fun x => f x = false) l.
Proof.
  induction l as [|x l IH]; simpl; intros H; [constructor|]. destruct (f x) eqn:E; [done|].
  destruct (position f l); [done|]. auto.
Qed.

(** [containing_address] always yields a page-aligned 64-bit address. *)
Lemma page_of_mod p : page_of p = page_of (p mod u64_mod).
Proof.
  unfold page_of, u64_mod. rewrite <-Z.land_ones by lia. rewrite <-Z.land_assoc. f_equal.
Qed.
Lemma page_of_frame p : is_u64 (page_of p) /\ page_of p mod 4096 = 0.
Proof.
  rewrite page_of_mod. assert (is_u64 (p mod u64_mod)) by (apply Z.mod_pos_bound; done).
  split; auto with echos.
Qed.

(** ** Counting occurrences *)
Definition cnt {A} `{EqDecision A} (x : A) (l : list A) : Z := sumZ (fun y => if decide (x = y) then 1 else 0) l.
#[global] Arguments cnt : simpl never.
Lemma cnt_app {A} `{EqDecision A} (x : A) l k : cnt x (l ++ k) = cnt x l + cnt x k.
Proof. apply sumZ_app. Qed.
Lemma cnt_cons {A} `{EqDecision A} (x y : A) l : cnt x (y :: l) = cnt x [y] + cnt x l.
Proof. apply (cnt_app x [y] l). Qed.
Lemma cnt_nil {A} `{EqDecision A} (x : A) : cnt x [] = 0.
Proof. done. Qed.

(** ** Filters *)
Lemma filter_none {A} (P : A -> Prop) `{forall x, Decision (P x)} l :
  (forall x, x ∈ l -> ~ P x) -> filter P l = [].
Proof.
  induction l as [|a l IH]; intros Hn; [done|]. rewrite filter_cons_False.
  - apply IH. intros x Hx. apply Hn. by right.
  - apply Hn. by left.
Qed.

Lemma filter_all {A} (P : A -> Prop) `{forall x, Decision (P x)} (l : list A) :
  (forall x, x ∈ l -> P x) -> filter P l = l.
Proof.
  induction l as [|a l IH]; intros Hn; [done|]. rewrite filter_cons_True.
  - f_equal. apply IH. intros x Hx. apply Hn. by right.
  - apply Hn. by left.
Qed.
Lemma filter_ext_in {A} (P Q : A -> Prop) `{forall x, Decision (P x)} `{forall x, Decision (Q x)} (l : list A) :
  (forall x, x ∈ l -> P x <-> Q x) -> filter P l = filter Q l.
Proof.
  induction l as [|a l IH]; intros Hn; [done|]. rewrite !filter_cons, IH by (intros; apply Hn; by right).
  assert (P a <-> Q a) by (apply Hn; by left). repeat case_decide; tauto.
Qed.
Lemma filter_twice {A} (P : A -> Prop) `{forall x, Decision (P x)} (l : list A) : filter P (filter P l) = filter P l.
Proof. apply filter_all. intros x Hx. by apply list_elem_of_filter in Hx as [? _]. Qed.
Lemma sorted_filter {A} (R : A -> A -> Prop) (P : A -> Prop) `{forall x, Decision (P x)} l : StronglySorted R l -> StronglySorted R (filter P l).
Proof.
  induction 1 as [|x l Hs IH Hf]; [constructor|]. rewrite filter_cons. case_decide; [|done]. constructor; [done|].
  rewrite Forall_forall in *. intros y Hy. apply list_elem_of_filter in Hy as [_ Hy]. by apply Hf.
Qed.
Lemma filter_replicate {A} (P : A -> Prop) `{forall x, Decision (P x)} n (x : A) :
  filter P (replicate n x) = if decide (P x) then replicate n x else [].
Proof. induction n as [|n IH]; simpl; [by case_decide|]. rewrite filter_cons, IH. by case_decide. Qed.

(** ** Ordered maps

    [BTreeMap::values] visits the entries in ascending order of their keys. *)
Definition btree_values {A} (m : gmap Z A) : list A := omap (fun i => m !! i) (merge_sort Z.le (elements (dom m))).
Lemma elem_of_btree_values {A} (x : A) m : x ∈ btree_values m <-> exists i, m !! i = Some x.
Proof.
  unfold btree_values. rewrite list_elem_of_omap. split.
  - intros (i & _ & Hi). eauto.
  - intros [i Hi]. exists i. split; [|done]. rewrite merge_sort_Permutation. apply elem_of_elements.
    by apply elem_of_dom_2 in Hi.
Qed.
(** [BTreeMap::iter] *)
Definition btree_iter {A} (m : gmap Z A) : list (Z * A) :=
  omap (fun i => (fun x => (i, x)) <$> m !! i) (merge_sort Z.le (elements (dom m))).
Lemma elem_of_btree_iter {A} (m : gmap Z A) i x : (i, x) ∈ btree_iter m <-> m !! i = Some x.
Proof.
  unfold btree_iter. rewrite list_elem_of_omap. split.
  - intros (j & _ & Hj). destruct (m !! j) eqn:E; simplify_eq/=. done.
  - intros Hi. exists i. rewrite Hi. split; [|done]. rewrite merge_sort_Permutation. apply elem_of_elements.
    by apply elem_of_dom_2 in Hi.
Qed.
Lemma NoDup_btree_iter {A} (m : gmap Z A) : NoDup (btree_iter m).*1.
Proof.
  assert ((btree_iter m).*1 `sublist_of` merge_sort Z.le (elements (dom m))) as Hs.
  { unfold btree_iter. induction (merge_sort _ _) as [|i l IH]; simpl; [constructor|].
    destruct (m !! i); simpl; by constructor. }
  eapply sublist_NoDup; [|exact Hs]. rewrite merge_sort_Permutation. apply NoDup_elements.
Qed.
Lemma NoDup_btree_pairs {A} (m : gmap Z A) : NoDup (btree_iter m).
Proof. apply (NoDup_fmap_1 fst), NoDup_btree_iter. Qed.
Definition key_lt {A} (p q : Z * A) : Prop := p.1 < q.1.
#[export] Instance key_lt_antisymm {A} : AntiSymm (=) (@key_lt A).
Proof. unfold key_lt. intros p q H1 H2. lia. Qed.
Lemma btree_iter_sorted {A} (m : gmap Z A) : StronglySorted key_lt (btree_iter m).
Proof.
  unfold btree_iter.
  assert (StronglySorted Z.le (merge_sort Z.le (elements (dom m)))) as Hs by (apply Sorted_StronglySorted, Sorted_merge_sort; apply _).
  assert (NoDup (merge_sort Z.le (elements (dom m)))) as Hn by (rewrite merge_sort_Permutation; apply NoDup_elements).
  induction Hs as [|i l Hs IH Hall]; simpl; [constructor|]. apply NoDup_cons in Hn as [Hni Hn].
  destruct (m !! i) as [x|]; simpl; [|auto]. constructor; [auto|].
  apply Forall_forall. intros [j y] Hj. apply list_elem_of_omap in Hj as (j' & Hj' & Hy).
  destruct (m !! j'); simplify_eq/=. rewrite Forall_forall in Hall. unfold key_lt; cbn.
  assert (i <> j) by set_solver. specialize (Hall j Hj'). lia.
Qed.
Lemma btree_iter_unique {A} (m : gmap Z A) l : StronglySorted key_lt l ->
  (forall i x, (i, x) ∈ l <-> m !! i = Some x) -> btree_iter m = l.
Proof.
  intros Hs He. apply (StronglySorted_unique key_lt); [apply btree_iter_sorted|done|].
  assert (NoDup l).
  { clear He. induction Hs as [|p l Hs IH Hp]; [by apply NoDup_nil_2|]. apply NoDup_cons. split; [|done].
    intros Hin. rewrite Forall_forall in Hp. specialize (Hp _ Hin). unfold key_lt in Hp. lia. }
  apply NoDup_Permutation; [apply NoDup_btree_pairs|done|]. intros [i x]. by rewrite elem_of_btree_iter, He.
Qed.
(** A new largest key goes to the end, a removed key disappears. *)
Lemma btree_iter_insert_last {A} (m : gmap Z A) k x : (forall i y, m !! i = Some y -> i < k) ->
  btree_iter (<[k := x]> m) = btree_iter m ++ [(k, x)].
Proof.
  intros Hk. apply btree_iter_unique.
  - pose proof (btree_iter_sorted m) as Hs. pose proof (fun i y => proj1 (elem_of_btree_iter m i y)) as He.
    induction Hs as [|[i y] l Hs IH Hp]; simpl; [by repeat constructor|].
    constructor; [apply IH; intros; apply He; by right|].
    apply Forall_app. split; [done|]. apply Forall_singleton. unfold key_lt; cbn. apply (Hk i y), He. by left.
  - intros i y. rewrite elem_of_app, elem_of_btree_iter, list_elem_of_singleton. destruct (decide (i = k)) as [->|Hne].
    + rewrite lookup_insert_eq. split; [|intros; right; congruence]. intros [H|H]; [|congruence]. specialize (Hk _ _ H). lia.
    + rewrite lookup_insert_ne by done. split; [intros [H|H]; congruence|auto].
Qed.
Lemma btree_iter_delete {A} (m : gmap Z A) k : btree_iter (delete k m) = filter (fun p => p.1 <> k) (btree_iter m).
Proof.
  apply btree_iter_unique.
  - pose proof (btree_iter_sorted m) as Hs. induction Hs as [|p l Hs IH Hp]; [constructor|].
    rewrite filter_cons. case_decide; [|done]. constructor; [done|].
    rewrite Forall_forall in Hp |- *. intros q [_ Hq]%list_elem_of_filter. auto.
  - intros i y. rewrite list_elem_of_filter, elem_of_btree_iter. cbn. destruct (decide (i = k)) as [->|Hne].
    + rewrite lookup_delete_eq. split; [by intros [? _]|done].
    + rewrite lookup_delete_ne by done. split; [by intros [_ ?]|done].
Qed.
