(* ===== verification/FrameTable.v ===== *)
(** * Typed physical-frame ownership: the frame table

    Models [src/src/memory/frame_ownership/mod.rs]: the [FrameTable] that maps
    every tracked 4 KiB frame to a flag word and a 32-bit reference count, one
    definition per method, and the accounting contract that module's
    documentation calls normative.  The [BTreeMap] is a [gmap]; each method
    takes the table and returns the new table with its result. *)

From S2P Require Import Prelude.

Module FrameTable.

(** ** [FrameFlags], a [bitflags] byte *)
Definition UNIQUE : Z := 1.
Definition SHARED : Z := 2.
Definition ZOMBIE : Z := 4.
Definition REFCACHE : Z := 8.
Definition FOLIO_HEAD : Z := 16.
Definition FOLIO_TAIL : Z := 32.

Definition flags_contains (f g : Z) : bool := Z.land f g =? g.
Definition flags_insert (f g : Z) : Z := Z.lor f g.
Definition flags_remove (f g : Z) : Z := Z.ldiff f g.

Record FrameEntry := mkEntry {
  e_flags : Z;
  e_order : Z;
  e_refcount : Z
}.
#[export] Instance FrameEntry_eq_dec : EqDecision FrameEntry.
Proof. solve_decision. Defined.

Definition new_unique : FrameEntry := mkEntry UNIQUE 0 0.
Definition new_shared : FrameEntry := mkEntry SHARED 0 1.
Definition set_flags (e : FrameEntry) (f : Z) : FrameEntry :=
  mkEntry f (e_order e) (e_refcount e).
Definition set_refcount (e : FrameEntry) (n : Z) : FrameEntry :=
  mkEntry (e_flags e) (e_order e) n.
Definition set_order (e : FrameEntry) (o : Z) : FrameEntry :=
  mkEntry (e_flags e) o (e_refcount e).
Definition promote (e : FrameEntry) : FrameEntry := mkEntry SHARED (e_order e) 1.

Abbreviation table := (gmap Z FrameEntry).

(** [entries.entry(key).or_insert_with(e)] *)
Definition or_insert (key : Z) (e : FrameEntry) (t : table) : table :=
  match t !! key with Some _ => t | None => <[key := e]> t end.

Definition init_unique (phys : Z) (t : table) : table :=
  or_insert (page_of phys) new_unique t.

Definition share (phys : Z) (t : table) : table * Z :=
  let key := page_of phys in
  match t !! key with
  | Some e =>
      if e_flags e =? UNIQUE then (<[key := promote e]> t, 1)
      else if e_flags e =? SHARED then
        let n := u32_add (e_refcount e) 1 in (<[key := set_refcount e n]> t, n)
      else if e_flags e =? ZOMBIE then
        (<[key := set_refcount (set_flags e SHARED) 2]> t, 2)
      else (t, e_refcount e)
  | None => (<[key := new_shared]> t, 1)
  end.

Definition unshare (phys : Z) (t : table) : table * Z :=
  let key := page_of phys in
  match t !! key with
  | Some e =>
      if e_flags e =? UNIQUE then (delete key t, 0)
      else if e_flags e =? SHARED then
        let prev := e_refcount e in
        if prev <=? 1 then (delete key t, 0)
        else (<[key := set_refcount e (u32_sub prev 1)]> t, prev - 1)
      else if e_flags e =? ZOMBIE then (delete key t, 0)
      else (t, 0)
  | None => (t, 0)
  end.

Definition refcount (phys : Z) (t : table) : Z :=
  match t !! page_of phys with Some e => e_refcount e | None => 0 end.
Definition flags (phys : Z) (t : table) : Z :=
  match t !! page_of phys with Some e => e_flags e | None => 0 end.
Definition is_unique (phys : Z) (t : table) : bool :=
  match t !! page_of phys with Some e => e_flags e =? UNIQUE | None => false end.
Definition is_shared (phys : Z) (t : table) : bool :=
  match t !! page_of phys with Some e => e_flags e =? SHARED | None => false end.

Definition try_upgrade_unique (phys : Z) (t : table) : table * bool :=
  let key := page_of phys in
  match t !! key with
  | Some e =>
      if (e_flags e =? SHARED) && (e_refcount e =? 1) then
        (<[key := set_refcount (set_flags e UNIQUE) 0]> t, true)
      else if (e_flags e =? SHARED) && (e_refcount e =? 0) then (delete key t, true)
      else (t, false)
  | None => (t, false)
  end.

Definition mark_zombie (phys : Z) (t : table) : table :=
  let key := page_of phys in
  match t !! key with Some e => <[key := set_flags e ZOMBIE]> t | None => t end.

(** [u32::MAX / 2] *)
Definition PIN_COUNT : Z := u32_max / 2.
Definition pin (phys : Z) (t : table) : table :=
  let key := page_of phys in
  match t !! key with
  | Some e => <[key := set_refcount (set_flags e SHARED) PIN_COUNT]> t
  | None => <[key := mkEntry SHARED 0 PIN_COUNT]> t
  end.

Definition remove (phys : Z) (t : table) : table := delete (page_of phys) t.

Definition folio_mark_head (phys order : Z) (t : table) : table :=
  let key := page_of phys in
  match t !! key with
  | Some e => <[key := set_order (set_flags e (flags_insert (e_flags e) FOLIO_HEAD)) order]> t
  | None => t
  end.
Definition folio_mark_tail (phys : Z) (t : table) : table :=
  let key := page_of phys in
  match t !! key with
  | Some e => <[key := set_flags e (flags_insert (e_flags e) FOLIO_TAIL)]> t
  | None => t
  end.
Definition folio_clear (phys : Z) (t : table) : table :=
  let key := page_of phys in
  match t !! key with
  | Some e =>
      let f := flags_remove (flags_remove (e_flags e) FOLIO_HEAD) FOLIO_TAIL in
      <[key := set_order (set_flags e f) 0]> t
  | None => t
  end.
Definition is_folio_head (phys : Z) (t : table) : bool :=
  match t !! page_of phys with Some e => flags_contains (e_flags e) FOLIO_HEAD | None => false end.
Definition is_folio_tail (phys : Z) (t : table) : bool :=
  match t !! page_of phys with Some e => flags_contains (e_flags e) FOLIO_TAIL | None => false end.
Definition folio_order (phys : Z) (t : table) : Z :=
  match t !! page_of phys with Some e => e_order e | None => 0 end.

Definition refcache_init (phys : Z) (t : table) : table :=
  or_insert (page_of phys) (mkEntry REFCACHE 0 0) t.

(** [delta] is an [i32]; [delta as u32] and [(-delta) as u32] are [as_u32]. *)
Definition refcache_global_add (phys delta : Z) (t : table) : table * Z :=
  let key := page_of phys in
  let fresh := if 0 <? delta then as_u32 delta else 0 in
  match t !! key with
  | Some e =>
      if e_flags e =? UNIQUE then
        let n := if 0 <? delta then 1 else 0 in
        (<[key := set_refcount (set_flags e REFCACHE) n]> t, n)
      else if (e_flags e =? REFCACHE) || (e_flags e =? SHARED) then
        let old := e_refcount e in
        let n := if 0 <? delta then u32_sat_add old (as_u32 delta)
                 else sat_sub old (as_u32 (- delta)) in
        (<[key := set_refcount (set_flags e REFCACHE) n]> t, n)
      else if e_flags e =? ZOMBIE then
        (<[key := set_refcount (set_flags e REFCACHE) fresh]> t, fresh)
      else (<[key := mkEntry REFCACHE 0 fresh]> t, fresh)
  | None => (<[key := mkEntry REFCACHE 0 fresh]> t, fresh)
  end.

Definition refcache_try_remove (phys : Z) (t : table) : table * bool :=
  let key := page_of phys in
  match t !! key with
  | Some e =>
      if (e_flags e =? REFCACHE) || (e_flags e =? SHARED) then
        if e_refcount e =? 0 then (delete key t, true) else (t, false)
      else (t, false)
  | None => (t, false)
  end.

(** ** All mutating methods as one step function *)
Inductive op :=
| OInitUnique (p : Z) | OShare (p : Z) | OUnshare (p : Z) | OUpgrade (p : Z)
| OZombie (p : Z) | OPin (p : Z) | ORemove (p : Z) | OHead (p o : Z) | OTail (p : Z)
| OClear (p : Z) | ORcInit (p : Z) | ORcAdd (p d : Z) | ORcRemove (p : Z).

Definition op_phys (o : op) : Z :=
  match o with
  | OInitUnique p | OShare p | OUnshare p | OUpgrade p | OZombie p | OPin p | ORemove p
  | OHead p _ | OTail p | OClear p | ORcInit p | ORcAdd p _ | ORcRemove p => p
  end.

Definition step (o : op) (t : table) : table * Z :=
  match o with
  | OInitUnique p => (init_unique p t, 0)
  | OShare p => share p t
  | OUnshare p => unshare p t
  | OUpgrade p => let '(t', b) := try_upgrade_unique p t in (t', Z.b2z b)
  | OZombie p => (mark_zombie p t, 0)
  | OPin p => (pin p t, 0)
  | ORemove p => (remove p t, 0)
  | OHead p o => (folio_mark_head p o t, 0)
  | OTail p => (folio_mark_tail p t, 0)
  | OClear p => (folio_clear p t, 0)
  | ORcInit p => (refcache_init p t, 0)
  | ORcAdd p d => refcache_global_add p d t
  | ORcRemove p => let '(t', b) := refcache_try_remove p t in (t', Z.b2z b)
  end.

Fixpoint run (os : list op) (t : table) : table * list Z :=
  match os with
  | [] => (t, [])
  | o :: os' =>
      let '(t1, r) := step o t in let '(t2, rs) := run os' t1 in (t2, r :: rs)
  end.

(** ** Well-formedness *)
Definition entry_wf (e : FrameEntry) : Prop := is_u32 (e_refcount e) /\ is_u8 (e_flags e).
Definition wf (t : table) : Prop :=
  map_Forall (fun k e => is_u64 k /\ k mod 4096 = 0 /\ entry_wf e) t.

(** ** The accounting contract as an abstract machine

    A tracked frame is either exclusively owned or referenced by [n] holders.
    [spec_step] is partial: it has no step for a release nobody holds, nor for
    the 2^32-th reference. *)
Inductive owner := Owned | Refs (n : Z).
Abbreviation spec := (gmap Z owner).

Definition spec_step (o : op) (s : spec) : option (spec * Z) :=
  match o with
  | OInitUnique p =>
      match s !! page_of p with None => Some (<[page_of p := Owned]> s, 0) | _ => None end
  | OShare p =>
      match s !! page_of p with
      | None | Some Owned => Some (<[page_of p := Refs 1]> s, 1)
      | Some (Refs n) =>
          if decide (n + 1 < u32_mod) then Some (<[page_of p := Refs (n + 1)]> s, n + 1)
          else None
      end
  | OUnshare p =>
      match s !! page_of p with
      | None => None
      | Some Owned => Some (delete (page_of p) s, 0)
      | Some (Refs n) =>
          if decide (n = 1) then Some (delete (page_of p) s, 0)
          else Some (<[page_of p := Refs (n - 1)]> s, n - 1)
      end
  | OUpgrade p =>
      match s !! page_of p with
      | Some (Refs n) =>
          if decide (n = 1) then Some (<[page_of p := Owned]> s, 1) else Some (s, 0)
      | _ => Some (s, 0)
      end
  | _ => None
  end.

Fixpoint spec_run (os : list op) (s : spec) : option (spec * list Z) :=
  match os with
  | [] => Some (s, [])
  | o :: os' =>
      '(s1, r) ← spec_step o s; '(s2, rs) ← spec_run os' s1; Some (s2, r :: rs)
  end.

Definition repr_owner (w : owner) : FrameEntry :=
  match w with Owned => new_unique | Refs n => mkEntry SHARED 0 n end.
Definition repr (s : spec) : table := repr_owner <$> s.
Definition owner_ok (w : owner) : Prop :=
  match w with Owned => True | Refs n => 1 <= n < u32_mod end.
Definition spec_ok (s : spec) : Prop := map_Forall (fun _ => owner_ok) s.

(** References to page [k] a trace leaves behind: shares minus unshares. *)
Fixpoint net (k : Z) (os : list op) : Z :=
  match os with
  | [] => 0
  | OShare p :: os' => (if decide (page_of p = k) then 1 else 0) + net k os'
  | OUnshare p :: os' => (if decide (page_of p = k) then -1 else 0) + net k os'
  | _ :: os' => net k os'
  end.
Definition is_ref_op (o : op) : bool :=
  match o with OShare _ | OUnshare _ => true | _ => false end.
Definition is_holder_op (o : op) : bool :=
  match o with OShare _ | OUnshare _ | OUpgrade _ => true | _ => false end.

(** ** Lemmas and properties *)

Ltac ft_unfold :=
  unfold step, init_unique, share, unshare, try_upgrade_unique, mark_zombie, pin,
    remove, folio_mark_head, folio_mark_tail, folio_clear, refcache_init,
    refcache_global_add, refcache_try_remove, or_insert in *; simpl in *.

Lemma wf_insert t k e :
  wf t -> is_u64 k -> k mod 4096 = 0 -> entry_wf e -> wf (<[k := e]> t).
Proof. intros. by apply map_Forall_insert_2. Qed.
Lemma wf_delete t k : wf t -> wf (delete k t).
Proof. intros. by apply map_Forall_delete. Qed.
Lemma entry_wf_mk f o n : is_u8 f -> is_u32 n -> entry_wf (mkEntry f o n).
Proof. by split. Qed.
Lemma flags_insert_u8 f g : is_u8 f -> is_u8 g -> is_u8 (flags_insert f g).
Proof. by apply lor_range. Qed.
Lemma flags_remove_u8 f g : is_u8 f -> is_u8 (flags_remove f g).
Proof. by apply ldiff_range. Qed.
Lemma sat_add_range a b : is_u32 a -> 0 <= b -> is_u32 (u32_sat_add a b).
Proof. mlia. Qed.
Lemma sat_sub_range a b : is_u32 a -> 0 <= b -> is_u32 (sat_sub a b).
Proof. mlia. Qed.
Lemma as_u32_range a : is_u32 (as_u32 a).
Proof. unfold is_u32, as_u32. by apply Z.mod_pos_bound. Qed.
#[local] Hint Resolve wf_insert wf_delete entry_wf_mk flags_insert_u8 flags_remove_u8
  sat_add_range sat_sub_range as_u32_range : echos.
#[local] Hint Extern 2 (0 <= as_u32 _) => apply as_u32_range : echos.

Lemma wf_lookup t k e : wf t -> t !! k = Some e -> is_u32 (e_refcount e) /\ is_u8 (e_flags e).
Proof. intros H Hk. apply H in Hk. apply Hk. Qed.

Lemma step_wf o t : is_u64 (op_phys o) -> wf t -> wf (step o t).1.
Proof.
  intros Hp Hwf. destruct o; ft_unfold;
    repeat (case_match; simplify_eq/=);
    repeat match goal with
    | E : t !! _ = Some _ |- _ => destruct (wf_lookup _ _ _ Hwf E); revert E
    end; intros;
    unfold set_flags, set_refcount, set_order, promote, new_unique, new_shared, PIN_COUNT; simpl;
    eauto 9 with echos.
Qed.

Lemma step_other o t k : k <> page_of (op_phys o) -> (step o t).1 !! k = t !! k.
Proof.
  intros Hk. destruct o; ft_unfold; repeat (case_match; simplify_eq/=);
    rewrite ?lookup_insert_ne, ?lookup_delete_ne by done; done.
Qed.

(** Every operation keeps the table well formed (page-aligned 64-bit keys,
    32-bit counts, 8-bit flags) and touches the entry of its own frame only. *)
Theorem ft_step_invariant o t :
  is_u64 (op_phys o) -> wf t ->
  wf (step o t).1 /\ forall k, k <> page_of (op_phys o) -> (step o t).1 !! k = t !! k.
Proof. split; auto using step_wf, step_other. Qed.

Lemma repr_lookup s k : repr s !! k = repr_owner <$> s !! k.
Proof. apply lookup_fmap. Qed.
Lemma repr_insert s k w : repr (<[k := w]> s) = <[k := repr_owner w]> (repr s).
Proof. apply fmap_insert. Qed.
Lemma repr_delete s k : repr (delete k s) = delete k (repr s).
Proof. apply fmap_delete. Qed.

Lemma spec_step_ok o s s' r : spec_ok s -> spec_step o s = Some (s', r) -> spec_ok s'.
Proof.
  intros Hok Hs. destruct o; simpl in Hs; try done;
    repeat case_match; simplify_eq; try apply map_Forall_delete; try done;
    apply map_Forall_insert_2; try done; simpl;
    try match goal with H : s !! _ = Some _ |- _ => apply Hok in H; simpl in H end; mlia.
Qed.

Lemma step_refines o s s' r :
  spec_ok s -> spec_step o s = Some (s', r) -> step o (repr s) = (repr s', r).
Proof.
  intros Hok Hs. destruct o; simpl in Hs; try done; ft_unfold;
    rewrite !repr_lookup; repeat (case_match; simplify_eq/=);
    rewrite ?repr_insert, ?repr_delete;
    repeat match goal with
    | H : _ !! _ = Some (Refs _) |- _ => apply Hok in H; simpl in H
    end;
    unfold set_refcount, promote; simpl;
    rewrite ?u32_add_small, ?u32_sub_small by mlia; simplify_bool; simpl;
    try done; try mlia.
Qed.

Lemma run_refines os : forall s s' rs,
  spec_ok s -> spec_run os s = Some (s', rs) -> run os (repr s) = (repr s', rs).
Proof.
  induction os as [|o os IH]; intros s s' rs Hok Hr; simplify_eq/=; [done|].
  destruct (spec_step o s) as [[s1 r]|] eqn:E1; simplify_eq/=.
  destruct (spec_run os s1) as [[s2 rs2]|] eqn:E2; simplify_eq/=.
  erewrite step_refines by done.
  by erewrite IH by eauto using spec_step_ok.
Qed.

(** The reference count a spec state gives page [k]. *)
Definition held (k : Z) (s : spec) : Z :=
  match s !! k with Some (Refs n) => n | _ => 0 end.
Definition unowned (s : spec) : Prop := map_Forall (fun _ w => w <> Owned) s.

Lemma held_insert k j w s :
  held k (<[j := w]> s) =
    if decide (j = k) then match w with Refs n => n | Owned => 0 end else held k s.
Proof. unfold held. rewrite lookup_insert. by case_decide. Qed.
Lemma held_delete k j s : held k (delete j s) = if decide (j = k) then 0 else held k s.
Proof. unfold held. rewrite lookup_delete. by case_decide. Qed.
Lemma held_eq k j s w :
  s !! j = w -> j = k -> held k s = match w with Some (Refs n) => n | _ => 0 end.
Proof. by intros <- ->. Qed.

Lemma spec_step_net o s s' r k :
  unowned s -> is_ref_op o = true -> spec_step o s = Some (s', r) ->
  unowned s' /\ held k s' = held k s + net k [o].
Proof.
  intros Hs Ho Hst. destruct o; simpl in *; try done;
    destruct (s !! page_of p) as [[|n]|] eqn:E; repeat (case_match; simplify_eq/=);
    try (exfalso; by eapply Hs);
    (split; [by repeat first [apply map_Forall_insert_2 | apply map_Forall_delete]|]);
    rewrite ?held_insert, ?held_delete; case_decide;
    try rewrite (held_eq _ _ _ _ E) by done; lia.
Qed.

Lemma net_cons k o os : net k (o :: os) = net k [o] + net k os.
Proof. destruct o; simpl; lia. Qed.

Lemma spec_run_net k os : forall s s' rs,
  unowned s -> forallb is_ref_op os = true -> spec_run os s = Some (s', rs) ->
  unowned s' /\ held k s' = held k s + net k os.
Proof.
  induction os as [|o os IH]; intros s s' rs Hu Hos Hr; [simplify_eq/=; split; [done|lia]|].
  rewrite net_cons. simpl in Hos, Hr. apply andb_true_iff in Hos as [Ho Hos].
  destruct (spec_step o s) as [[s1 r]|] eqn:E1; simpl in Hr; [|done].
  destruct (spec_run os s1) as [[s2 rs2]|] eqn:E2; simpl in Hr; [|done]. injection Hr as -> <-.
  destruct (spec_step_net o s s1 r k) as [Hu1 Hn1]; try done.
  destruct (IH s1 s' rs2) as [Hu2 Hn2]; try done.
  split; [done|]. rewrite Hn2, Hn1. lia.
Qed.

Lemma spec_ok_empty : spec_ok ∅.
Proof. apply map_Forall_empty. Qed.
Lemma spec_run_ok os : forall s s' rs, spec_ok s -> spec_run os s = Some (s', rs) -> spec_ok s'.
Proof.
  induction os as [|o os IH]; intros s s' rs Hok Hr; simplify_eq/=; [done|].
  destruct (spec_step o s) as [[s1 r]|] eqn:E1; simplify_eq/=.
  destruct (spec_run os s1) as [[s2 rs2]|] eqn:E2; simplify_eq/=.
  eauto using spec_step_ok.
Qed.

(** C3: the frame table implements the accounting contract: on every trace of
    allocations, shares, releases and uniqueness upgrades that the contract
    allows (nothing is released that is not held, fewer than 2^32 references to
    a frame), every call returns the contract's count and the final table is the
    contract's state. *)
Theorem ft_accounting os s rs :
  spec_run os ∅ = Some (s, rs) -> run os ∅ = (repr s, rs).
Proof.
  intros H. rewrite <-(run_refines os ∅ s rs) by (done || apply spec_ok_empty).
  unfold repr. by rewrite fmap_empty.
Qed.

(** No leak and no premature free: after a bracketed trace of shares and
    releases, the refcount of every frame is its shares minus its releases, and
    the frame is still tracked exactly when that difference is positive. *)
Theorem ft_balanced os s rs p :
  forallb is_ref_op os = true -> spec_run os ∅ = Some (s, rs) ->
  refcount p (run os ∅).1 = net (page_of p) os /\
  (is_Some ((run os ∅).1 !! page_of p) <-> 0 < net (page_of p) os).
Proof.
  intros Ho Hr. destruct (spec_run_net (page_of p) os ∅ s rs) as [Hu Hn]; try done.
  assert (spec_ok s) as Hok by (eapply spec_run_ok; [apply spec_ok_empty|done]).
  pose proof (run_refines os ∅ s rs spec_ok_empty Hr) as E.
  unfold repr in E; rewrite fmap_empty in E; rewrite E; cbn [fst].
  unfold held in Hn; rewrite lookup_empty in Hn; simpl in Hn.
  replace (net (page_of p) os) with (0 + net (page_of p) os) by lia.
  rewrite <-Hn; clear Hn.
  unfold refcount; fold (repr s); rewrite repr_lookup.
  destruct (s !! page_of p) as [[|n]|] eqn:Es; simpl.
  - by apply Hu in Es.
  - apply Hok in Es; simpl in Es. split; [done|]. split; intros; [lia|by eexists].
  - split; [done|]. split; [by intros [??]|lia].
Qed.

(** A frame pinned at [PIN_COUNT] loses at most one reference per operation. *)
Definition pinned (lo hi : Z) (k : Z) (t : table) : Prop :=
  exists e, t !! k = Some e /\ e_flags e = SHARED /\ lo <= e_refcount e <= hi.

Lemma pinned_step lo hi k o t :
  1 < lo -> hi + 1 < u32_mod -> is_holder_op o = true -> pinned lo hi k t ->
  pinned (lo - 1) (hi + 1) k (step o t).1.
Proof.
  intros Hlo Hhi Ho (e & He & Hf & Hr).
  destruct (decide (k = page_of (op_phys o))) as [->|Hk].
  2: { exists e. rewrite step_other by done. split_and!; auto; lia. }
  destruct o; simpl in *; try done; ft_unfold; rewrite He, Hf; simpl;
    unfold pinned, set_refcount.
  - rewrite lookup_insert_eq. eexists; split_and!; [done|done|..]; simpl;
      rewrite u32_add_small by mlia; lia.
  - replace (e_refcount e <=? 1) with false by lia. simpl.
    rewrite lookup_insert_eq. eexists; split_and!; [done|done|..]; simpl;
      rewrite u32_sub_small by mlia; lia.
  - replace (e_refcount e =? 1) with false by lia.
    replace (e_refcount e =? 0) with false by lia. simpl.
    exists e; split_and!; auto; lia.
Qed.

Lemma pinned_run os : forall lo hi k t,
  Z.of_nat (length os) < lo -> hi + Z.of_nat (length os) < u32_mod ->
  forallb is_holder_op os = true -> pinned lo hi k t ->
  pinned (lo - Z.of_nat (length os)) (hi + Z.of_nat (length os)) k (run os t).1.
Proof.
  induction os as [|o os IH]; intros lo hi k t Hlo Hhi Ho Hp; simpl in *.
  { destruct Hp as (e & ? & ? & ?). exists e; split_and!; auto; lia. }
  apply andb_true_iff in Ho as [Ho Hos].
  pose proof (pinned_step lo hi k o t ltac:(lia) ltac:(lia) Ho Hp) as H1.
  destruct (step o t) as [t1 r]; simpl in H1.
  specialize (IH (lo - 1) (hi + 1) k t1 ltac:(lia) ltac:(lia) Hos H1).
  destruct (run os t1) as [t2 rs]; simpl in *.
  destruct IH as (e & ? & ? & ?). exists e; split_and!; auto; lia.
Qed.

Lemma pin_pinned p t : pinned PIN_COUNT PIN_COUNT (page_of p) (pin p t).
Proof.
  unfold pin, pinned. destruct (t !! page_of p);
    rewrite lookup_insert_eq; eexists; split_and!; done.
Qed.

(** A pinned frame is never freed: after [pin], any fewer than [PIN_COUNT]
    shares, releases and upgrade attempts (on this or other frames) leave it
    tracked, the next release returns a positive count, and an upgrade to
    exclusive ownership is refused. *)
Theorem ft_pin_never_freed p t os :
  forallb is_holder_op os = true -> Z.of_nat (length os) < PIN_COUNT - 1 ->
  let t' := (run os (pin p t)).1 in
  is_Some (t' !! page_of p) /\ 0 < (unshare p t').2 /\ (try_upgrade_unique p t').2 = false.
Proof.
  intros Ho Hl t'.
  destruct (pinned_run os PIN_COUNT PIN_COUNT (page_of p) (pin p t))
    as (e & He & Hf & Hr); [lia|unfold PIN_COUNT in *; mlia|done|apply pin_pinned|].
  fold t' in He. split; [by eexists|]. unfold unshare, try_upgrade_unique.
  rewrite He, Hf; simpl.
  replace (e_refcount e <=? 1) with false by lia.
  replace (e_refcount e =? 1) with false by lia.
  replace (e_refcount e =? 0) with false by lia. simpl. split; [lia|done].
Qed.

(** Marking a shared frame as a folio head switches its reference counting
    off: the flag word is then neither [SHARED] nor any other tag the methods
    compare with, so [share] no longer counts and [unshare] reports zero
    remaining references although the count is unchanged. *)
Theorem ft_folio_head_not_counted p order t e :
  t !! page_of p = Some e -> e_flags e = SHARED ->
  let t' := folio_mark_head p order t in
  share p t' = (t', e_refcount e) /\ unshare p t' = (t', 0) /\
  refcount p t' = e_refcount e.
Proof.
  intros He Hf t'. subst t'.
  unfold share, unshare, refcount, folio_mark_head. rewrite He, lookup_insert_eq; simpl.
  by rewrite Hf.
Qed.

Lemma refcache_add_entry p d t o n :
  t !! page_of p = Some (mkEntry REFCACHE o n) -> 0 <= n < u32_mod -> 0 <= n + d < u32_mod ->
  refcache_global_add p d t = (<[page_of p := mkEntry REFCACHE o (n + d)]> t, n + d).
Proof.
  intros He Hn Hd. unfold refcache_global_add. rewrite He; simpl.
  unfold set_refcount; simpl. case_match; simplify_bool.
  - assert (u32_sat_add n (as_u32 d) = n + d) as -> by mlia. done.
  - assert (sat_sub n (as_u32 (- d)) = n + d) as -> by mlia. done.
Qed.

(** Every partial sum of the deltas, from [n], stays a [u32]. *)
Fixpoint deltas_ok (n : Z) (ds : list Z) : bool :=
  match ds with
  | [] => true
  | d :: ds' => (0 <=? n + d) && (n + d <? u32_mod) && deltas_ok (n + d) ds'
  end.

Lemma refcache_run p ds : forall t o n,
  t !! page_of p = Some (mkEntry REFCACHE o n) -> 0 <= n < u32_mod ->
  deltas_ok n ds = true ->
  (run (ORcAdd p <$> ds) t).1 !! page_of p =
    Some (mkEntry REFCACHE o (n + foldr Z.add 0 ds)).
Proof.
  induction ds as [|d ds IH]; intros t o n He Hn Hd; simpl in *.
  { by rewrite Z.add_0_r. }
  simplify_bool. erewrite refcache_add_entry by (done || lia).
  specialize (IH (<[page_of p := mkEntry REFCACHE o (n + d)]> t) o (n + d)).
  destruct (run _ _) as [t2 rs]; simpl in *.
  rewrite IH by (rewrite ?lookup_insert_eq; done || lia). do 2 f_equal. lia.
Qed.

(** The global count of a refcache frame is the sum of the deltas flushed
    into it, as long as no partial sum leaves the 32-bit range, and
    [refcache_try_remove] frees the frame exactly when that sum is zero. *)
Theorem ft_refcache_sum p ds t :
  t !! page_of p = None -> deltas_ok 0 ds = true ->
  let t' := (run (ORcInit p :: (ORcAdd p <$> ds)) t).1 in
  refcount p t' = foldr Z.add 0 ds /\
  (refcache_try_remove p t').2 = (foldr Z.add 0 ds =? 0).
Proof.
  intros Hn Hd t'.
  assert (t' !! page_of p = Some (mkEntry REFCACHE 0 (0 + foldr Z.add 0 ds))) as E.
  { subst t'. simpl. unfold refcache_init, or_insert; rewrite Hn.
    pose proof (refcache_run p ds (<[page_of p := mkEntry REFCACHE 0 0]> t) 0 0) as R.
    destruct (run _ _) as [t2 rs]; simpl in *.
    apply R; [apply lookup_insert_eq|done|done]. }
  unfold refcount, refcache_try_remove. rewrite E; simpl.
  split; [done|]. by case_match.
Qed.

(** ** Witnesses *)

Definition demo_trace : list op :=
  [OShare 0x1000; OShare 0x1234; OShare 0x2000; OUnshare 0x1000; OUnshare 0x2fff].
Definition demo_spec : spec := {[ 0x1000 := Refs 1 ]}.

Lemma ft_accounting_witness :
  exists rs, run (OInitUnique 0x7000 :: OShare 0x7000 :: OUpgrade 0x7000 :: demo_trace) ∅ =
    (repr (<[0x7000 := Owned]> demo_spec), rs).
Proof.
  exists [0; 1; 1; 1; 2; 1; 1; 0].
  apply (ft_accounting _ (<[0x7000 := Owned]> demo_spec)). vm_compute. reflexivity.
Defined.

Lemma ft_balanced_witness :
  refcount 0x1fff (run demo_trace ∅).1 = 1 /\ net 0x1000 demo_trace = 1.
Proof.
  split; [|reflexivity].
  apply (ft_balanced demo_trace demo_spec [1; 2; 1; 1; 0] 0x1fff);
    vm_compute; reflexivity.
Defined.

Lemma ft_step_invariant_witness :
  wf (step (OShare 0x3456) (repr demo_spec)).1 /\
  (step (OShare 0x3456) (repr demo_spec)).1 !! 0x1000 = Some new_shared.
Proof.
  destruct (ft_step_invariant (OShare 0x3456) (repr demo_spec)) as [Hwf Hk].
  - split; by compute.
  - unfold repr, demo_spec. rewrite map_fmap_singleton.
    apply map_Forall_singleton. split; [|split; [reflexivity|]]; split; by compute.
  - split; [exact Hwf|]. rewrite Hk; vm_compute; [reflexivity|discriminate].
Defined.

Lemma ft_pin_never_freed_witness :
  0 < (unshare 0xd000 (run [OUnshare 0xd000; OUpgrade 0xd000; OUnshare 0xd000] (pin 0xd000 ∅)).1).2.
Proof.
  apply (ft_pin_never_freed 0xd000 ∅ [OUnshare 0xd000; OUpgrade 0xd000; OUnshare 0xd000]);
    vm_compute; reflexivity.
Defined.

Lemma ft_folio_head_not_counted_witness :
  let t := folio_mark_head 0x1000 9 (repr demo_spec) in
  share 0x1000 t = (t, 1) /\ unshare 0x1000 t = (t, 0) /\ refcount 0x1000 t = 1.
Proof.
  apply (ft_folio_head_not_counted 0x1000 9 (repr demo_spec) new_shared);
    vm_compute; reflexivity.
Defined.

Lemma ft_refcache_sum_witness :
  let t' := (run (ORcInit 0x1000 :: (ORcAdd 0x1000 <$> [5; -3; -2])) ∅).1 in
  refcount 0x1000 t' = 0 /\ (refcache_try_remove 0x1000 t').2 = true.
Proof. apply (ft_refcache_sum 0x1000 [5; -3; -2] ∅); vm_compute; reflexivity. Defined.

End FrameTable.
