(* ===== verification/RefCache.v ===== *)
(** * Per-CPU deferred reference counts and the frame handles

    Models [src/src/memory/frame_ownership/refcache.rs] (per-CPU delta cache,
    epoch-based review queue, drain list), the owning handles of [unique.rs],
    [shared_atomic.rs] and [shared_refcache.rs], and [dec_frame_ref] of
    [src/src/memory/mod.rs].  The CPU an operation runs on is an argument. *)

From S2P Require Import Prelude FrameTable.
Import FrameTable.

(** What the handles need from the memory manager: give one frame back. *)
Class FrameSink (M : Type) := free_frame : Z -> M -> M.

Module RefCache.
Section RefCache.
Context {M : Type} `{FrameSink M}.

Definition MAX_CPU_SLOTS : nat := 256.
Definition REFCACHE_LOG2_SIZE : Z := 6.
Definition REFCACHE_SIZE : nat := 64.
Definition REFCACHE_MASK : Z := 63.
Definition REVIEW_QUEUE_SIZE : nat := 32.

Record DeltaEntry := mkDelta { d_phys : Z; d_delta : Z }.
Record ReviewEntry := mkReview { r_phys : Z; r_added_epoch : Z; r_dirty : bool }.
Record RefCacheCpuState := mkCpu {
  cache : list DeltaEntry;
  review : list (option ReviewEntry);
  review_count : nat;
  epoch : Z
}.

Definition cpu_new : RefCacheCpuState :=
  mkCpu (replicate REFCACHE_SIZE (mkDelta 0 0)) (replicate REVIEW_QUEUE_SIZE None) 0 0.

(** The statics [FRAME_TABLE], [REFCACHE_CPU], [REFCACHE_GLOBAL_EPOCH],
    [DRAIN_LIST] and the memory manager. *)
Record world := mkWorld {
  w_table : table;
  w_cpus : list RefCacheCpuState;
  w_epoch : Z;
  w_drain : list Z;
  w_mem : M
}.

Definition world_new (m : M) : world :=
  mkWorld ∅ (replicate MAX_CPU_SLOTS cpu_new) 0 [] m.

Definition cpu_at (c : nat) (w : world) : RefCacheCpuState := default cpu_new (w_cpus w !! c).
Definition set_cpu (c : nat) (s : RefCacheCpuState) (w : world) : world :=
  mkWorld (w_table w) (<[c := s]> (w_cpus w)) (w_epoch w) (w_drain w) (w_mem w).
Definition set_table (t : table) (w : world) : world :=
  mkWorld t (w_cpus w) (w_epoch w) (w_drain w) (w_mem w).
Definition set_mem (m : M) (w : world) : world :=
  mkWorld (w_table w) (w_cpus w) (w_epoch w) (w_drain w) m.
Definition set_cache (s : RefCacheCpuState) (k : nat) (d : DeltaEntry) : RefCacheCpuState :=
  mkCpu (<[k := d]> (cache s)) (review s) (review_count s) (epoch s).

Definition current_cpu_slot (cpu : nat) : nat :=
  if (MAX_CPU_SLOTS <=? cpu)%nat then (MAX_CPU_SLOTS - 1)%nat else cpu.
Definition cache_slot (phys : Z) : nat :=
  Z.to_nat (Z.land (Z.shiftr phys 12) REFCACHE_MASK).

Definition enqueue_review (c : nat) (phys current_epoch : Z) (w : world) : world :=
  let s := cpu_at c w in
  if (review_count s <? REVIEW_QUEUE_SIZE)%nat then
    set_cpu c (mkCpu (cache s)
      (<[review_count s := Some (mkReview phys current_epoch false)]> (review s))
      (S (review_count s)) (epoch s)) w
  else w.

Definition remove_review_cpu (idx : nat) (s : RefCacheCpuState) : RefCacheCpuState :=
  let last := (review_count s - 1)%nat in
  let r := if (idx =? last)%nat then review s
           else <[last := None]> (<[idx := default None (review s !! last)]> (review s)) in
  mkCpu (cache s) r (review_count s - 1)%nat (epoch s).

(** [refcache_flush_delta] then, when the global count reached zero,
    [enqueue_review]. *)
Definition flush_delta (c : nat) (e : DeltaEntry) (w : world) : world :=
  let '(t, new_global) := refcache_global_add (d_phys e) (d_delta e) (w_table w) in
  let w1 := set_table t w in
  if new_global =? 0 then enqueue_review c (d_phys e) (epoch (cpu_at c w)) w1 else w1.

Definition i32_max : Z := 2 ^ 31 - 1.
Definition i32_min : Z := - 2 ^ 31.
Definition i32_sat (x : Z) : Z := Z.max i32_min (Z.min x i32_max).

(** [inc] and [dec] differ in the sign only. *)
Definition bump (sign : Z) (cpu : nat) (phys : Z) (w : world) : world :=
  let c := current_cpu_slot cpu in
  let slot := cache_slot phys in
  let entry := default (mkDelta 0 0) (cache (cpu_at c w) !! slot) in
  if d_phys entry =? page_of phys then
    set_cpu c (set_cache (cpu_at c w) slot
                 (mkDelta (d_phys entry) (i32_sat (d_delta entry + sign)))) w
  else
    let w1 := if negb (d_phys entry =? 0) && negb (d_delta entry =? 0)
              then flush_delta c entry w else w in
    set_cpu c (set_cache (cpu_at c w1) slot (mkDelta (page_of phys) sign)) w1.

Definition inc : nat -> Z -> world -> world := bump 1.
Definition dec : nat -> Z -> world -> world := bump (-1).

Definition flush_slot (c : nat) (w : world) (slot : nat) : world :=
  let entry := default (mkDelta 0 0) (cache (cpu_at c w) !! slot) in
  if d_phys entry =? 0 then w
  else
    let w1 := if negb (d_delta entry =? 0) then flush_delta c entry w else w in
    set_cpu c (set_cache (cpu_at c w1) slot (mkDelta (d_phys entry) 0)) w1.

Definition flush (cpu : nat) (w : world) : world :=
  fold_left (flush_slot (current_cpu_slot cpu)) (seq 0 REFCACHE_SIZE) w.

(** The review loop of [tick]: every iteration advances [i] or shrinks the
    queue, so [review_count] iterations are enough. *)
Fixpoint review_loop (fuel : nat) (c : nat) (global_epoch : Z) (i : nat) (w : world) : world :=
  match fuel with
  | O => w
  | S fuel' =>
      let s := cpu_at c w in
      if (i <? review_count s)%nat then
        match default None (review s !! i) with
        | None => review_loop fuel' c global_epoch (S i) w
        | Some e =>
            if u64_sub global_epoch (r_added_epoch e) <? 2 then
              review_loop fuel' c global_epoch (S i) w
            else
              let '(t, freed) := refcache_try_remove (r_phys e) (w_table w) in
              let w1 := set_table t w in
              if freed then
                let w2 := mkWorld (w_table w1) (w_cpus w1) (w_epoch w1)
                            (w_drain w1 ++ [r_phys e]) (w_mem w1) in
                review_loop fuel' c global_epoch i (set_cpu c (remove_review_cpu i s) w2)
              else if r_dirty e then
                review_loop fuel' c global_epoch (S i)
                  (set_cpu c (mkCpu (cache s)
                     (<[i := Some (mkReview (r_phys e) global_epoch false)]> (review s))
                     (review_count s) (epoch s)) w1)
              else review_loop fuel' c global_epoch i (set_cpu c (remove_review_cpu i s) w1)
        end
      else w
  end.

(** The CPU observes the global epoch and advances it. *)
Definition tick_epoch (c : nat) (w : world) : world :=
  let s := cpu_at c w in
  let w1 := set_cpu c (mkCpu (cache s) (review s) (review_count s) (w_epoch w)) w in
  mkWorld (w_table w1) (w_cpus w1) (u64_add (w_epoch w) 1) (w_drain w1) (w_mem w1).

Definition tick (cpu : nat) (w : world) : world :=
  let c := current_cpu_slot cpu in
  let w1 := flush cpu w in
  review_loop (review_count (cpu_at c w1)) c (w_epoch w1) 0 (tick_epoch c w1).

Definition drain (w : world) : world :=
  mkWorld (w_table w) (w_cpus w) (w_epoch w) []
    (fold_left (fun m phys => free_frame (page_of phys) m) (w_drain w) (w_mem w)).

(** The count as this CPU sees it. *)
Definition rc_refcount (cpu : nat) (phys : Z) (w : world) : Z :=
  let cached := default (mkDelta 0 0) (cache (cpu_at (current_cpu_slot cpu) w) !! cache_slot phys) in
  let local_delta := if d_phys cached =? page_of phys then d_delta cached else 0 in
  let global := refcount phys (w_table w) in
  if 0 <=? local_delta then u32_add global (as_u32 local_delta)
  else sat_sub global (as_u32 (- local_delta)).

(** ** Handles

    A handle is its [phys] field; [core::mem::forget] drops nothing. *)
Definition unique_from_phys (phys : Z) (w : world) : world * Z :=
  (set_table (init_unique phys (w_table w)) w, page_of phys).
Definition unique_into_shared (h : Z) (w : world) : world * Z :=
  (set_table (share h (w_table w)).1 w, page_of h).
Definition unique_leak_as_shared (h : Z) (w : world) : world :=
  set_table (share h (w_table w)).1 w.
Definition refcache_from_phys (phys : Z) (w : world) : world * Z :=
  (set_table (refcache_init phys (w_table w)) w, page_of phys).
Definition unique_into_shared_refcache (cpu : nat) (h : Z) (w : world) : world * Z :=
  refcache_from_phys h (inc cpu h (set_table (refcache_init h (w_table w)) w)).
Definition unique_drop (h : Z) (w : world) : world :=
  set_mem (free_frame (page_of h) (w_mem w)) (set_table (mark_zombie h (w_table w)) w).

Definition shared_from_phys (phys : Z) (w : world) : world * Z :=
  (set_table (share phys (w_table w)).1 w, page_of phys).
Definition shared_incref (phys : Z) (w : world) : world :=
  set_table (share (page_of phys) (w_table w)).1 w.
Definition shared_decref (phys : Z) (w : world) : world * Z :=
  let '(t, n) := unshare (page_of phys) (w_table w) in (set_table t w, n).
Definition shared_clone (h : Z) (w : world) : world * Z :=
  (set_table (share h (w_table w)).1 w, h).
Definition shared_drop (h : Z) (w : world) : world :=
  let '(t, remaining) := unshare h (w_table w) in
  let w1 := set_table t w in
  if remaining =? 0 then set_mem (free_frame (page_of h) (w_mem w1)) w1 else w1.

Definition refcache_clone (cpu : nat) (h : Z) (w : world) : world * Z := (inc cpu h w, h).
Definition refcache_drop (cpu : nat) (h : Z) (w : world) : world := dec cpu h w.

(** [memory::dec_frame_ref]: the release an unmap path performs. *)
Definition dec_frame_ref (cpu : nat) (phys : Z) (w : world) : world * Z :=
  if flags_contains (flags phys (w_table w)) REFCACHE then (dec cpu phys w, 1)
  else let '(t, n) := unshare phys (w_table w) in (set_table t w, n).

(** ** Invariant: a cached page sits in the slot its address hashes to *)
Definition slot_ok (j : nat) (e : DeltaEntry) : Prop :=
  d_phys e = 0 \/ (is_u64 (d_phys e) /\ d_phys e mod 4096 = 0 /\ cache_slot (d_phys e) = j).
Definition cpu_ok (s : RefCacheCpuState) : Prop :=
  length (cache s) = REFCACHE_SIZE /\ (forall j e, cache s !! j = Some e -> slot_ok j e) /\
  length (review s) = REVIEW_QUEUE_SIZE /\ (review_count s <= REVIEW_QUEUE_SIZE)%nat.
Definition world_ok (w : world) : Prop :=
  length (w_cpus w) = MAX_CPU_SLOTS /\ forall c s, w_cpus w !! c = Some s -> cpu_ok s.

(** What CPU state [s] still owes the global count of page [k]. *)
Definition local (k : Z) (s : RefCacheCpuState) : Z :=
  match cache s !! cache_slot k with
  | Some e => if d_phys e =? k then d_delta e else 0
  | None => 0
  end.
(** The real number of references: global count plus every CPU's delta. *)
Definition true_count (k : Z) (w : world) : Z :=
  refcount k (w_table w) + sumZ (local k) (w_cpus w).

(** A flush of [e] that neither saturates nor meets a frame the table does not
    yet manage by reference count. *)
Definition exact_add (t : table) (e : DeltaEntry) : Prop :=
  match t !! page_of (d_phys e) with
  | Some x => (e_flags x = REFCACHE \/ e_flags x = SHARED) /\
              0 <= e_refcount x < u32_mod /\ 0 <= e_refcount x + d_delta e < u32_mod
  | None => 0 <= d_delta e < u32_mod
  end.

(** *** Lemmas *)
Lemma current_cpu_slot_lt cpu : (current_cpu_slot cpu < MAX_CPU_SLOTS)%nat.
Proof. unfold current_cpu_slot, MAX_CPU_SLOTS. destruct (256 <=? cpu)%nat eqn:E; [lia|].
  apply Nat.leb_gt in E. lia. Qed.
Lemma cache_slot_lt p : (cache_slot p < REFCACHE_SIZE)%nat.
Proof.
  unfold cache_slot, REFCACHE_SIZE, REFCACHE_MASK. change 63 with (Z.ones 6).
  rewrite Z.land_ones by lia. pose proof (Z.mod_pos_bound (Z.shiftr p 12) (2 ^ 6)). lia.
Qed.
Lemma cache_slot_page p : is_u64 p -> cache_slot (page_of p) = cache_slot p.
Proof.
  intros Hp. unfold cache_slot. do 2 f_equal. rewrite !Z.shiftr_div_pow2 by lia.
  change (2 ^ 12) with 4096. rewrite page_of_spec by done. mlia.
Qed.

Lemma cpu_at_lookup w c : world_ok w -> (c < MAX_CPU_SLOTS)%nat -> w_cpus w !! c = Some (cpu_at c w).
Proof.
  intros [Hl _] Hc. unfold cpu_at. destruct (w_cpus w !! c) eqn:E; [done|].
  apply lookup_ge_None in E. lia.
Qed.
Lemma cpu_at_ok w c : world_ok w -> (c < MAX_CPU_SLOTS)%nat -> cpu_ok (cpu_at c w).
Proof. intros Hw Hc. eapply Hw. by apply cpu_at_lookup. Qed.
Lemma cpu_at_set_cpu w c s : world_ok w -> (c < MAX_CPU_SLOTS)%nat -> cpu_at c (set_cpu c s w) = s.
Proof. intros [Hl _] Hc. unfold cpu_at; simpl. by rewrite list_lookup_insert_eq by lia. Qed.
Lemma set_cpu_ok w c s : world_ok w -> cpu_ok s -> world_ok (set_cpu c s w).
Proof.
  intros [Hl Hw] Hs. split; simpl; [by rewrite length_insert|].
  intros c' s' [(_ & <- & _)|[_ ?]]%list_lookup_insert_Some; eauto.
Qed.
Lemma set_table_ok w t : world_ok w -> world_ok (set_table t w).
Proof. done. Qed.
Lemma set_cache_ok s k d : cpu_ok s -> slot_ok k d -> cpu_ok (set_cache s k d).
Proof.
  intros (H1 & H2 & H3 & H4) Hd. split_and!; simpl; try done; [by rewrite length_insert|].
  intros j e [(<- & <- & _)|[_ ?]]%list_lookup_insert_Some; eauto.
Qed.
#[local] Hint Resolve set_cpu_ok set_table_ok set_cache_ok current_cpu_slot_lt cache_slot_lt
  cpu_at_ok : echos.

Lemma cache_entry w c p : world_ok w -> (c < MAX_CPU_SLOTS)%nat ->
  cache (cpu_at c w) !! cache_slot p = Some (default (mkDelta 0 0) (cache (cpu_at c w) !! cache_slot p)).
Proof.
  intros Hw Hc. destruct (cache (cpu_at c w) !! cache_slot p) eqn:E; [done|].
  apply lookup_ge_None in E. destruct (cpu_at_ok w c Hw Hc) as [Hl _].
  pose proof (cache_slot_lt p). lia.
Qed.

Lemma local_set_cache k s j d :
  (j < length (cache s))%nat ->
  local k (set_cache s j d) =
    if decide (cache_slot k = j) then (if d_phys d =? k then d_delta d else 0) else local k s.
Proof.
  intros Hj. unfold local; simpl. rewrite list_lookup_insert.
  destruct (decide (cache_slot k = j)) as [<-|Hne].
  - by rewrite decide_True.
  - by rewrite decide_False by (intros [??]; congruence).
Qed.
Lemma true_count_set_cpu k c s w : world_ok w -> (c < MAX_CPU_SLOTS)%nat ->
  true_count k (set_cpu c s w) = true_count k w - local k (cpu_at c w) + local k s.
Proof.
  intros Hw Hc. unfold true_count; simpl.
  rewrite (sumZ_insert _ _ _ _ (cpu_at c w)) by by apply cpu_at_lookup. lia.
Qed.
Lemma true_count_set_table k t w :
  true_count k (set_table t w) = true_count k w - refcount k (w_table w) + refcount k t.
Proof. unfold true_count; simpl. lia. Qed.

Lemma enqueue_review_ok c p ep w :
  world_ok w -> (c < MAX_CPU_SLOTS)%nat -> world_ok (enqueue_review c p ep w).
Proof.
  intros Hw Hc. unfold enqueue_review. case_match eqn:E; [|done].
  apply set_cpu_ok; [done|]. destruct (cpu_at_ok w c Hw Hc) as (H1 & H2 & H3 & H4).
  apply Nat.ltb_lt in E. split_and!; simpl; rewrite ?length_insert; try done; lia.
Qed.
Lemma enqueue_review_cache c p ep w :
  world_ok w -> (c < MAX_CPU_SLOTS)%nat ->
  cache (cpu_at c (enqueue_review c p ep w)) = cache (cpu_at c w).
Proof.
  intros Hw Hc. unfold enqueue_review. case_match; [|done]. by rewrite cpu_at_set_cpu.
Qed.
Lemma enqueue_review_count k c p ep w :
  world_ok w -> (c < MAX_CPU_SLOTS)%nat ->
  true_count k (enqueue_review c p ep w) = true_count k w.
Proof.
  intros Hw Hc. unfold enqueue_review. case_match; [|done].
  rewrite true_count_set_cpu by done. unfold local; simpl. lia.
Qed.

Lemma global_add_exact t e k :
  is_u64 k -> k mod 4096 = 0 -> exact_add t e ->
  refcount k (refcache_global_add (d_phys e) (d_delta e) t).1 =
    refcount k t + (if decide (page_of (d_phys e) = k) then d_delta e else 0).
Proof.
  intros Hk Ha He. unfold refcount. rewrite (page_of_id k) by done.
  destruct (decide (page_of (d_phys e) = k)) as [<-|Hne].
  - unfold exact_add in He. unfold refcache_global_add.
    destruct (t !! page_of (d_phys e)) as [x|] eqn:E.
    + destruct He as (Hf & Hr & Hs).
      replace (e_flags x =? UNIQUE) with false by (destruct Hf as [-> | ->]; done).
      replace ((e_flags x =? REFCACHE) || (e_flags x =? SHARED)) with true
        by (destruct Hf as [-> | ->]; done).
      cbn [fst]. rewrite lookup_insert_eq; simpl. case_match; simplify_bool; mlia.
    + simpl. rewrite lookup_insert_eq; simpl. case_match; simplify_bool; mlia.
  - pose proof (step_other (ORcAdd (d_phys e) (d_delta e)) t k) as Hl; simpl in Hl.
    rewrite Hl by congruence. lia.
Qed.

Lemma flush_delta_ok c e w :
  world_ok w -> (c < MAX_CPU_SLOTS)%nat -> world_ok (flush_delta c e w).
Proof.
  intros. unfold flush_delta. destruct (refcache_global_add _ _ _).
  case_match; auto using enqueue_review_ok, set_table_ok.
Qed.
Lemma flush_delta_cache c e w :
  world_ok w -> (c < MAX_CPU_SLOTS)%nat ->
  cache (cpu_at c (flush_delta c e w)) = cache (cpu_at c w).
Proof.
  intros. unfold flush_delta. destruct (refcache_global_add _ _ _) as [t n].
  case_match; [|done]. by rewrite enqueue_review_cache by auto using set_table_ok.
Qed.
Lemma flush_delta_table c e w :
  w_table (flush_delta c e w) = (refcache_global_add (d_phys e) (d_delta e) (w_table w)).1.
Proof.
  unfold flush_delta. destruct (refcache_global_add _ _ _) as [t n].
  repeat case_match; [|done]. unfold enqueue_review. by case_match.
Qed.
Lemma flush_delta_count k c e w :
  world_ok w -> (c < MAX_CPU_SLOTS)%nat -> is_u64 k -> k mod 4096 = 0 -> exact_add (w_table w) e ->
  true_count k (flush_delta c e w) =
    true_count k w + (if decide (page_of (d_phys e) = k) then d_delta e else 0).
Proof.
  intros Hw Hc Hk Ha He. pose proof (global_add_exact (w_table w) e k Hk Ha He) as G.
  unfold flush_delta. destruct (refcache_global_add _ _ _) as [t n]; cbn [fst] in G.
  assert (true_count k (set_table t w) =
    true_count k w + (if decide (page_of (d_phys e) = k) then d_delta e else 0)) as E
    by (rewrite true_count_set_table, G; lia).
  destruct (n =? 0); [|done]. by rewrite enqueue_review_count by auto using set_table_ok.
Qed.
#[local] Hint Resolve enqueue_review_ok flush_delta_ok : echos.

(** The two cases of [bump] on a page of its own slot. *)
Lemma bump_local k s p e d : is_u64 p -> k <> 0 ->
  cpu_ok s -> cache s !! cache_slot p = Some e ->
  local k (set_cache s (cache_slot p) (mkDelta (page_of p) d)) - local k s =
    (if decide (page_of p = k) then d else 0) - (if decide (d_phys e = k) then d_delta e else 0).
Proof.
  intros Hp Hk Hs He. destruct Hs as (Hl & Hs & _).
  rewrite local_set_cache by (rewrite Hl; apply cache_slot_lt).
  destruct (decide (cache_slot k = cache_slot p)) as [E|E].
  - unfold local. rewrite E, He; simpl.
    repeat case_decide; repeat case_match; simplify_bool; simplify_eq; try lia; congruence.
  - rewrite decide_False by (intros <-; by rewrite cache_slot_page in E).
    rewrite decide_False; [lia|]. intros <-. by apply Hs in He as [?|(_ & _ & ?)].
Qed.

(** The flush that [bump] performs first, when it evicts another page, is exact. *)
Definition bump_exact (sign : Z) (cpu : nat) (p : Z) (w : world) : Prop :=
  let c := current_cpu_slot cpu in
  let e := default (mkDelta 0 0) (cache (cpu_at c w) !! cache_slot p) in
  if d_phys e =? page_of p then i32_min <= d_delta e + sign <= i32_max
  else d_phys e <> 0 -> d_delta e <> 0 -> exact_add (w_table w) e.

Lemma bump_ok sign cpu p w : is_u64 p -> world_ok w -> world_ok (bump sign cpu p w).
Proof.
  intros Hp Hw. unfold bump. set (c := current_cpu_slot cpu).
  assert (c < MAX_CPU_SLOTS)%nat as Hc by apply current_cpu_slot_lt.
  assert (slot_ok (cache_slot p) (mkDelta (page_of p) sign)) as Hs.
  { right; split_and!; simpl; auto using page_of_u64, page_of_aligned, cache_slot_page. }
  case_match eqn:E.
  - apply set_cpu_ok, set_cache_ok; auto using cpu_at_ok.
    apply Z.eqb_eq in E. by rewrite E.
  - case_match; apply set_cpu_ok; auto using flush_delta_ok, set_cache_ok, cpu_at_ok.
Qed.

Lemma cached_page w c j e : world_ok w -> (c < MAX_CPU_SLOTS)%nat ->
  cache (cpu_at c w) !! j = Some e -> d_phys e <> 0 -> page_of (d_phys e) = d_phys e.
Proof.
  intros Hw Hc He Hne. destruct (cpu_at_ok w c Hw Hc) as (_ & Hs & _).
  destruct (Hs _ _ He) as [?|(? & ? & _)]; [done|by apply page_of_id].
Qed.

(** Name the state after the conditional flush of [e]. *)
Ltac name_flushed w1 c e w :=
  match goal with
  | |- context [if ?b then flush_delta c e w else w] => set (w1 := if b then flush_delta c e w else w)
  end.

Lemma bump_count sign cpu p w k :
  world_ok w -> is_u64 p -> is_u64 k -> k mod 4096 = 0 -> k <> 0 -> bump_exact sign cpu p w ->
  true_count k (bump sign cpu p w) = true_count k w + (if decide (page_of p = k) then sign else 0).
Proof.
  intros Hw Hp Hk Ha Hk0 Hex. unfold bump_exact in Hex. unfold bump.
  set (c := current_cpu_slot cpu) in *.
  assert (c < MAX_CPU_SLOTS)%nat as Hc by apply current_cpu_slot_lt.
  pose proof (cache_entry w c p Hw Hc) as He.
  set (e := default (mkDelta 0 0) (cache (cpu_at c w) !! cache_slot p)) in *.
  case_match eqn:E.
  - apply Z.eqb_eq in E. rewrite true_count_set_cpu by done.
    pose proof (bump_local k (cpu_at c w) p e (i32_sat (d_delta e + sign)) Hp Hk0
                  (cpu_at_ok w c Hw Hc) He) as L.
    rewrite E in *. assert (i32_sat (d_delta e + sign) = d_delta e + sign) as S
      by (unfold i32_sat; lia).
    rewrite S in *. repeat case_decide; lia.
  - name_flushed w1 c e w.
    assert (world_ok w1) as Hw1 by (subst w1; case_match; auto using flush_delta_ok).
    assert (cache (cpu_at c w1) = cache (cpu_at c w)) as Hca
      by (subst w1; case_match; auto using flush_delta_cache).
    rewrite <-Hca in He. rewrite true_count_set_cpu by done.
    pose proof (bump_local k (cpu_at c w1) p e sign Hp Hk0 (cpu_at_ok w1 c Hw1 Hc) He) as L.
    assert (true_count k w1 = true_count k w + (if decide (d_phys e = k) then d_delta e else 0)).
    { rewrite Hca in He. subst w1. destruct (negb (d_phys e =? 0) && negb (d_delta e =? 0)) eqn:B.
      - simplify_bool. rewrite flush_delta_count by auto.
        by rewrite (cached_page w c (cache_slot p) e).
      - destruct (decide (d_phys e = k)); [|lia]. destruct (d_phys e =? 0) eqn:B1, (d_delta e =? 0) eqn:B2;
          simplify_bool; simplify_eq/=; lia. }
    repeat case_decide; lia.
Qed.

(** Every delta the flush will push is exact. *)
Definition flush_exact (c : nat) (w : world) : Prop :=
  forall j e, cache (cpu_at c w) !! j = Some e -> d_phys e <> 0 -> d_delta e <> 0 ->
    exact_add (w_table w) e.

Lemma flush_slot_inv c w j :
  world_ok w -> (c < MAX_CPU_SLOTS)%nat -> (j < REFCACHE_SIZE)%nat -> flush_exact c w ->
  world_ok (flush_slot c w j) /\ flush_exact c (flush_slot c w j) /\
  forall k, is_u64 k -> k mod 4096 = 0 -> k <> 0 -> true_count k (flush_slot c w j) = true_count k w.
Proof.
  intros Hw Hc Hj Hex. unfold flush_slot.
  destruct (cpu_at_ok w c Hw Hc) as (Hl & Hs & _).
  destruct (cache (cpu_at c w) !! j) as [e|] eqn:He; [|apply lookup_ge_None in He; lia]. simpl.
  case_match eqn:E0; simplify_bool; [done|].
  name_flushed w1 c e w.
  assert (world_ok w1) as Hw1 by (subst w1; case_match; auto using flush_delta_ok).
  assert (cache (cpu_at c w1) = cache (cpu_at c w)) as Hca
    by (subst w1; case_match; auto using flush_delta_cache).
  destruct (Hs _ _ He) as [?|(Hu & Hal & Hsl)]; [done|].
  assert (slot_ok j (mkDelta (d_phys e) 0)) as Hso by (right; done).
  split_and!.
  - apply set_cpu_ok, set_cache_ok; auto using cpu_at_ok.
  - intros j' e'. rewrite cpu_at_set_cpu by done. cbn [cache set_cache].
    rewrite Hca. intros [(_ & <- & _)|[Hjj He']]%list_lookup_insert_Some Hp' Hd'; [done|].
    specialize (Hex _ _ He' Hp' Hd').
    destruct (Hs _ _ He') as [?|(Hu' & Hal' & Hsl')]; [done|].
    unfold exact_add in *. simpl. subst w1. case_match eqn:B; [|done].
    rewrite flush_delta_table.
    pose proof (step_other (ORcAdd (d_phys e) (d_delta e)) (w_table w) (page_of (d_phys e'))) as Hl'.
    simpl in Hl'. by rewrite Hl' by (rewrite !page_of_id by done; congruence).
  - intros k Hk Hka Hk0. rewrite true_count_set_cpu by done.
    assert (true_count k w1 = true_count k w + (if decide (d_phys e = k) then d_delta e else 0)) as Hc1.
    { subst w1. destruct (d_delta e =? 0) eqn:B; simplify_bool; simpl.
      - destruct (decide (d_phys e = k)); lia.
      - rewrite flush_delta_count by (auto; by eapply Hex). by rewrite page_of_id. }
    pose proof (bump_local k (cpu_at c w1) (d_phys e) e 0 Hu Hk0 (cpu_at_ok w1 c Hw1 Hc)) as L.
    rewrite Hca, Hsl, page_of_id in L by done. specialize (L He). repeat case_decide; lia.
Qed.

Lemma flush_fold c ss : forall w,
  world_ok w -> (c < MAX_CPU_SLOTS)%nat -> Forall (fun j => (j < REFCACHE_SIZE)%nat) ss ->
  flush_exact c w ->
  let w' := fold_left (flush_slot c) ss w in
  world_ok w' /\
  forall k, is_u64 k -> k mod 4096 = 0 -> k <> 0 -> true_count k w' = true_count k w.
Proof.
  induction ss as [|j ss IH]; intros w Hw Hc Hss Hex; simpl; [done|].
  inversion_clear Hss.
  destruct (flush_slot_inv c w j) as (I1 & I2 & I3); auto.
  destruct (IH (flush_slot c w j)) as (I4 & I5); auto.
  split; [done|]. intros k ???. rewrite I5, I3 by done. done.
Qed.

(** Changing only the review queue of a CPU keeps every count. *)
Lemma same_cache_count k c s w : world_ok w -> (c < MAX_CPU_SLOTS)%nat ->
  cache s = cache (cpu_at c w) -> true_count k (set_cpu c s w) = true_count k w.
Proof.
  intros Hw Hc Hs. rewrite true_count_set_cpu by done. unfold local. rewrite Hs. lia.
Qed.
Lemma remove_review_ok i s : cpu_ok s -> cpu_ok (remove_review_cpu i s).
Proof.
  intros (H1 & H2 & H3 & H4). unfold remove_review_cpu.
  split_and!; simpl; auto; [|lia]. case_match; by rewrite ?length_insert.
Qed.
Lemma try_remove_count k p t :
  refcount k (refcache_try_remove p t).1 = refcount k t.
Proof.
  unfold refcache_try_remove. repeat (case_match; simpl; try done).
  unfold refcount. rewrite lookup_delete. case_decide as Hd; [|done].
  rewrite <-Hd. simplify_map_eq. by simplify_bool.
Qed.
Lemma try_remove_true p t t' : refcache_try_remove p t = (t', true) ->
  t' = delete (page_of p) t /\ exists e, t !! page_of p = Some e /\ e_refcount e = 0.
Proof.
  unfold refcache_try_remove. intros Hr. repeat (case_match; simplify_eq/=).
  simplify_bool. eauto.
Qed.
Lemma try_remove_false p t t' : refcache_try_remove p t = (t', false) -> t' = t.
Proof. unfold refcache_try_remove. intros Hr. by repeat (case_match; simplify_eq/=). Qed.

(** What a review pass may do to the table: free some zero-count frames. *)
Definition freed_only (w w' : world) (fs : list Z) : Prop :=
  w_drain w' = w_drain w ++ fs /\
  (forall p, p ∈ fs -> w_table w' !! page_of p = None /\
     exists e, w_table w !! page_of p = Some e /\ e_refcount e = 0) /\
  (forall k, k ∉ (page_of <$> fs) -> w_table w' !! k = w_table w !! k).

Lemma freed_only_trans w w1 w2 p fs t :
  w_drain w1 = w_drain w ++ [p] -> w_table w1 = t -> t = delete (page_of p) (w_table w) ->
  (exists e, w_table w !! page_of p = Some e /\ e_refcount e = 0) ->
  freed_only w1 w2 fs -> freed_only w w2 (p :: fs).
Proof.
  intros Hd Ht -> (e & He & Hz) (Hd2 & Hf & Hk). split_and!.
  - rewrite Hd2, Hd. by rewrite <-app_assoc.
  - assert (w_table w2 !! page_of p = None) as Hp.
    { destruct (decide (page_of p ∈ (page_of <$> fs))) as [Hin|Hin].
      - apply list_elem_of_fmap in Hin as (q & Hq & Hin). rewrite Hq. by apply Hf.
      - rewrite (Hk _ Hin), Ht. apply lookup_delete_eq. }
    intros q [->|Hq]%elem_of_cons; [eauto|].
    destruct (Hf q Hq) as (? & e' & He' & ?). split; [done|].
    rewrite Ht in He'. apply lookup_delete_Some in He' as [_ He']. eauto.
  - intros k [Hkp Hin]%not_elem_of_cons. rewrite Hk, Ht by done.
    by apply lookup_delete_ne.
Qed.

Lemma review_loop_inv fuel c ge : forall i w,
  world_ok w -> (c < MAX_CPU_SLOTS)%nat ->
  let w' := review_loop fuel c ge i w in
  world_ok w' /\ (forall k, true_count k w' = true_count k w) /\ exists fs, freed_only w w' fs.
Proof.
  induction fuel as [|fuel IH]; intros i w Hw Hc; simpl.
  { split_and!; [done|done|]. exists []. split_and!; [by rewrite app_nil_r|by set_solver|done]. }
  assert (forall w1, w_drain w1 = w_drain w -> w_table w1 = w_table w -> forall w2 fs,
    freed_only w1 w2 fs -> freed_only w w2 fs) as Hsame.
  { intros w1 E1 E2 w2 fs. unfold freed_only. by rewrite E1, E2. }
  case_match; [|split_and!; [done|done|]; exists []; split_and!; [by rewrite app_nil_r|set_solver|done]].
  destruct (default None (review (cpu_at c w) !! i)) as [e|]; [|by apply IH].
  case_match; [by apply IH|].
  destruct (refcache_try_remove (r_phys e) (w_table w)) as [t freed] eqn:R.
  pose proof (try_remove_count) as Hrc.
  assert (forall k, refcount k t = refcount k (w_table w)) as Ht
    by (intros k; by rewrite <-(Hrc k (r_phys e) (w_table w)), R).
  destruct freed.
  - apply try_remove_true in R as [Et Hz].
    set (w2 := mkWorld _ _ _ _ _).
    assert (world_ok w2) as Hw2 by exact Hw.
    destruct (IH i (set_cpu c (remove_review_cpu i (cpu_at c w)) w2)) as (I1 & I2 & fs & I3);
      auto using set_cpu_ok, remove_review_ok, cpu_at_ok.
    split_and!; [done|..].
    + intros k. rewrite I2, same_cache_count by done. unfold true_count; simpl. by rewrite Ht.
    + exists (r_phys e :: fs).
      eapply freed_only_trans; [| |exact Et|exact Hz|exact I3]; done.
  - apply try_remove_false in R as ->. set (w1 := set_table (w_table w) w).
    assert (world_ok w1) as Hw1 by exact Hw.
    destruct (r_dirty e);
      match goal with |- context [review_loop fuel c ge ?i' (set_cpu c ?s w1)] =>
        destruct (IH i' (set_cpu c s w1)) as (I1 & I2 & fs & I3)
      end; auto using set_cpu_ok, remove_review_ok, cpu_at_ok.
    1: { apply set_cpu_ok; [done|]. destruct (cpu_at_ok w c Hw Hc) as (?&?&?&?).
         split_and!; simpl; by rewrite ?length_insert. }
    all: split_and!; [done| |exists fs; by eapply Hsame].
    all: intros k; rewrite I2, same_cache_count by done; done.
Qed.

Lemma flush_slot_ok c w j : world_ok w -> (c < MAX_CPU_SLOTS)%nat ->
  (j < REFCACHE_SIZE)%nat -> world_ok (flush_slot c w j).
Proof.
  intros Hw Hc Hj. unfold flush_slot. destruct (cpu_at_ok w c Hw Hc) as (Hl & Hs & _).
  destruct (cache (cpu_at c w) !! j) as [e|] eqn:He; [|apply lookup_ge_None in He; lia]. simpl.
  case_match; [done|]. specialize (Hs _ _ He).
  case_match; apply set_cpu_ok, set_cache_ok; auto using flush_delta_ok, cpu_at_ok.
Qed.
Lemma seq_slots : Forall (fun j => (j < REFCACHE_SIZE)%nat) (seq 0 REFCACHE_SIZE).
Proof. apply Forall_seq. lia. Qed.
Lemma flush_ok cpu w : world_ok w -> world_ok (flush cpu w).
Proof.
  unfold flush. generalize seq_slots. generalize (seq 0 REFCACHE_SIZE) as ss.
  intros ss Hss; revert w; induction Hss; intros w Hw; simpl; [done|].
  auto using flush_slot_ok, current_cpu_slot_lt.
Qed.

Lemma flush_inv cpu w : world_ok w -> flush_exact (current_cpu_slot cpu) w ->
  world_ok (flush cpu w) /\ forall k, is_u64 k -> k mod 4096 = 0 -> k <> 0 ->
    true_count k (flush cpu w) = true_count k w.
Proof.
  intros. unfold flush. apply flush_fold; auto using seq_slots, current_cpu_slot_lt.
Qed.
#[local] Opaque flush.

(** ** Operations as steps *)
Inductive rc_op := RInc (cpu : nat) (p : Z) | RDec (cpu : nat) (p : Z) | RFlush (cpu : nat) | RTick (cpu : nat).
Definition rc_step (o : rc_op) (w : world) : world :=
  match o with
  | RInc c p => inc c p w | RDec c p => dec c p w
  | RFlush c => flush c w | RTick c => tick c w
  end.
(** No saturation, no frame outside reference counting, at this step. *)
Definition rc_exact (o : rc_op) (w : world) : Prop :=
  match o with
  | RInc c p => is_u64 p /\ bump_exact 1 c p w
  | RDec c p => is_u64 p /\ bump_exact (-1) c p w
  | RFlush c | RTick c => flush_exact (current_cpu_slot c) w
  end.
Definition rc_delta (k : Z) (o : rc_op) : Z :=
  match o with
  | RInc _ p => if decide (page_of p = k) then 1 else 0
  | RDec _ p => if decide (page_of p = k) then -1 else 0
  | _ => 0
  end.
Fixpoint trace_exact (os : list rc_op) (w : world) : Prop :=
  match os with [] => True | o :: os' => rc_exact o w /\ trace_exact os' (rc_step o w) end.
Definition rc_run (os : list rc_op) (w : world) : world := fold_left (fun w o => rc_step o w) os w.

Lemma tick_epoch_inv c w : world_ok w -> (c < MAX_CPU_SLOTS)%nat ->
  world_ok (tick_epoch c w) /\ forall k, true_count k (tick_epoch c w) = true_count k w.
Proof.
  intros Hw Hc. pose proof (cpu_at_ok w c Hw Hc) as Hs.
  set (s := mkCpu (cache (cpu_at c w)) (review (cpu_at c w)) (review_count (cpu_at c w)) (w_epoch w)).
  assert (cpu_ok s) as Hs' by exact Hs. split.
  - exact (set_cpu_ok w c s Hw Hs').
  - intros k. exact (same_cache_count k c s w Hw Hc eq_refl).
Qed.

Lemma tick_inv cpu w : world_ok (flush cpu w) ->
  let w1 := flush cpu w in
  world_ok (tick cpu w) /\ (forall k, true_count k (tick cpu w) = true_count k w1) /\
  exists fs, freed_only w1 (tick cpu w) fs.
Proof.
  intros Hw1. unfold tick. generalize dependent (flush cpu w). intros w1 Hw1.
  pose proof (current_cpu_slot_lt cpu) as Hc.
  destruct (tick_epoch_inv (current_cpu_slot cpu) w1 Hw1 Hc) as [Hw2 Hc2].
  destruct (review_loop_inv (review_count (cpu_at (current_cpu_slot cpu) w1))
    (current_cpu_slot cpu) (w_epoch w1) 0 _ Hw2 Hc) as (I1 & I2 & fs & I3).
  split_and!; [exact I1| |exists fs; exact I3].
  intros k. by rewrite I2, Hc2.
Qed.

Lemma rc_step_count o w k :
  world_ok w -> rc_exact o w -> is_u64 k -> k mod 4096 = 0 -> k <> 0 ->
  world_ok (rc_step o w) /\ true_count k (rc_step o w) = true_count k w + rc_delta k o.
Proof.
  intros Hw He Hk Ha H0. destruct o as [c p|c p|c|c]; simpl in *.
  - destruct He. split; [by apply bump_ok|by apply bump_count].
  - destruct He. split; [by apply bump_ok|by apply bump_count].
  - rewrite Z.add_0_r. destruct (flush_inv c w); auto.
  - rewrite Z.add_0_r. destruct (flush_inv c w Hw He) as [Hw1 Hc1].
    destruct (tick_inv c w Hw1) as (Hw2 & Hc2 & _). split; [exact Hw2|].
    rewrite Hc2. by apply Hc1.
Qed.

(** Deferred counting loses no reference.  On any interleaving of
    increments, decrements, flushes and ticks of any CPUs in which no flush
    saturates, the global count plus all per-CPU deltas of a frame moves exactly
    with the increments and decrements of that frame. *)
Theorem rc_conservation os : forall w k,
  world_ok w -> trace_exact os w -> is_u64 k -> k mod 4096 = 0 -> k <> 0 ->
  true_count k (rc_run os w) = true_count k w + sumZ (rc_delta k) os.
Proof.
  induction os as [|o os IH]; intros w k Hw He Hk Ha H0; simpl in *; [lia|].
  destruct He as [He Het]. destruct (rc_step_count o w k) as [Hw1 Hc1]; try done.
  unfold rc_run in *. rewrite IH by done. lia.
Qed.

(** A tick frees only frames whose global count is zero after the flush:
    each frame it appends to the drain list was tracked with count 0, is no
    longer tracked afterwards, and every other entry is untouched. *)
Theorem rc_tick_frees_zero cpu w :
  world_ok w -> exists fs, freed_only (flush cpu w) (tick cpu w) fs.
Proof.
  intros Hw. apply tick_inv. by apply flush_ok.
Qed.

End RefCache.

(** ** Concrete runs *)

(** A memory manager that logs the frames it is given back. *)
#[local] Instance log_sink : FrameSink (list Z) := fun p m => m ++ [p].

(** Take a frame, hand it to the refcache, clone the handle, tick, and drop one
    of the two handles; three more ticks and an idle drain follow. *)
Definition two_handles_drop_one : world (M := list Z) :=
  let '(w1, h) := unique_from_phys 0x5000 (world_new []) in
  let '(w2, h1) := unique_into_shared_refcache 0 h w1 in
  let '(w3, h2) := refcache_clone 0 h1 w2 in
  let w4 := tick 0 w3 in
  let w5 := refcache_drop 0 h1 w4 in
  drain (tick 0 (tick 0 (tick 0 w5))).

(** A frame shared through [into_shared_refcache] and cloned before the
    first flush is freed while a handle is live: the flush meets the [UNIQUE]
    entry and stores 1 for a delta of 2, so dropping one of the two handles
    brings the count to zero and the frame back to the memory manager. *)
Theorem rc_cloned_unique_freed_early :
  w_mem two_handles_drop_one = [0x5000] /\ w_table two_handles_drop_one !! 0x5000 = None.
Proof. split; vm_compute; reflexivity. Qed.

Lemma world_new_ok {M} (m : M) : world_ok (world_new m).
Proof.
  split; [done|]. intros c s [-> _]%lookup_replicate_1.
  split_and!; try done; [|unfold cpu_new; simpl; lia].
  intros j e He. unfold cpu_new in He; cbn [cache] in He.
  apply lookup_replicate_1 in He as [-> _]. by left.
Qed.

Definition demo_ops : list rc_op := [RInc 0 0x5000; RInc 1 0x5000; RDec 0 0x5123].

Lemma rc_conservation_witness :
  true_count 0x5000 (rc_run demo_ops (world_new (M := list Z) [])) = 1.
Proof.
  rewrite (rc_conservation demo_ops (world_new []) 0x5000).
  - vm_compute; reflexivity.
  - apply world_new_ok.
  - repeat split; vm_compute; try discriminate; intros; congruence.
  - split; by compute.
  - reflexivity.
  - discriminate.
Defined.

Lemma rc_tick_frees_zero_witness :
  exists fs, freed_only (flush 0 (world_new (M := list Z) [])) (tick 0 (world_new [])) fs.
Proof. apply (rc_tick_frees_zero 0 (world_new [])). apply world_new_ok. Defined.

End RefCache.
