(* ===== verification/FibBuddy.v ===== *)
(** * The Fibonacci buddy allocator

    Models [src/src/memory/fibonacci_buddy.rs]: fixed-capacity free lists, one
    per Fibonacci block size, with splitting on allocation and the XOR-based
    coalescing on release.  Addresses and byte sizes are 64-bit integers;
    [PhysAddr] is its address ([PhysAddr::new] is the identity on the 52-bit
    addresses of a real region).  The two [f64] statistics are not modelled. *)

From S2P Require Import Prelude.

Module FibBuddy.

Definition FIBONACCI_SERIES : list Z :=
  [1; 2; 3; 5; 8; 13; 21; 34; 55; 89; 144; 233; 377; 610; 987; 1597; 2584; 4181; 6765; 10946;
   17711; 28657; 46368; 75025; 121393; 196418; 317811; 514229; 832040; 1346269; 2178309; 3524578].
Definition fib (i : nat) : Z := default 0 (FIBONACCI_SERIES !! i).
Definition LEVELS : nat := 32.
Definition MAX_BLOCKS_PER_LIST : nat := 64.

(** ** [FixedBlockList] *)
Record FixedBlockList := mkList { items : list Z; len : nat }.
Definition list_new : FixedBlockList := mkList (replicate MAX_BLOCKS_PER_LIST 0) 0.
Definition live (l : FixedBlockList) : list Z := take (len l) (items l).

Definition push (addr : Z) (l : FixedBlockList) : FixedBlockList * bool :=
  if (MAX_BLOCKS_PER_LIST <=? len l)%nat then (l, false)
  else (mkList (<[len l := addr]> (items l)) (S (len l)), true).

Definition swap_remove (index : nat) (l : FixedBlockList) : FixedBlockList * Z :=
  let last := (len l - 1)%nat in
  let value := default 0 (items l !! index) in
  (mkList (<[index := default 0 (items l !! last)]> (items l)) last, value).

(** The in-place compaction loop: [read] scans, [write] trails it. *)
Fixpoint retain_loop (addr : Z) (reads : list nat) (arr : list Z) (write : nat) : list Z * nat :=
  match reads with
  | [] => (arr, write)
  | read :: reads' =>
      let x := default 0 (arr !! read) in
      if negb (x =? addr) then retain_loop addr reads' (<[write := x]> arr) (S write)
      else retain_loop addr reads' arr write
  end.
Definition retain_not_equal (addr : Z) (l : FixedBlockList) : FixedBlockList :=
  let '(arr, write) := retain_loop addr (seq 0 (len l)) (items l) 0 in mkList arr write.

Definition contains (addr : Z) (l : FixedBlockList) : bool := existsb (Z.eqb addr) (live l).

(** ** The allocator *)
Record FibonacciBuddyAllocator := mkBuddy {
  free_lists : list FixedBlockList;
  total_pages : Z;
  used_pages : Z;
  base_address : Z
}.
Definition set_lists (ls : list FixedBlockList) (b : FibonacciBuddyAllocator) :=
  mkBuddy ls (total_pages b) (used_pages b) (base_address b).
Definition set_used (u : Z) (b : FibonacciBuddyAllocator) :=
  mkBuddy (free_lists b) (total_pages b) u (base_address b).

Definition list_at (i : nat) (ls : list FixedBlockList) : FixedBlockList :=
  default list_new (ls !! i).
(** [let _ = self.free_lists[i].push(addr)]: a full list drops the block. *)
Definition push_at (i : nat) (addr : Z) (ls : list FixedBlockList) : list FixedBlockList :=
  <[i := (push addr (list_at i ls)).1]> ls.

Definition find_fib_index (pages : Z) : nat :=
  default (LEVELS - 1)%nat (position (fun f => pages <=? f) FIBONACCI_SERIES).

Fixpoint floor_loop (i idx : nat) (series : list Z) (pages : Z) : nat :=
  match series with
  | [] => idx
  | f :: rest => if pages <? f then idx else floor_loop (S i) i rest pages
  end.
Definition find_fib_index_floor (pages : Z) : nat := floor_loop 0 0 FIBONACCI_SERIES pages.

(** The placement loop of [new]; it takes at least one page per iteration. *)
Fixpoint place_loop (fuel : nat) (remaining current : Z) (ls : list FixedBlockList) : list FixedBlockList :=
  match fuel with
  | O => ls
  | S fuel' =>
      if 0 <? remaining then
        let idx := find_fib_index_floor remaining in
        place_loop fuel' (sat_sub remaining (fib idx)) (u64_add current (fib idx * PAGE_SIZE))
          (push_at idx current ls)
      else ls
  end.
Definition new (base size : Z) : FibonacciBuddyAllocator :=
  let pages := size / PAGE_SIZE in
  mkBuddy (place_loop (Z.to_nat pages) pages base (replicate LEVELS list_new)) pages 0 base.

(** [enumerate().min_by_key(addr)]: the first of the smallest addresses. *)
Fixpoint min_pos (i : nat) (best : option (nat * Z)) (l : list Z) : option (nat * Z) :=
  match l with
  | [] => best
  | a :: l' =>
      let best' := match best with
                   | Some (_, b) => if a <? b then Some (i, a) else best
                   | None => Some (i, a)
                   end in
      min_pos (S i) best' l'
  end.

Definition take_lowest_block (idx : nat) (ls : list FixedBlockList) : option (list FixedBlockList * Z) :=
  match min_pos 0 None (live (list_at idx ls)) with
  | Some (position, _) =>
      let '(l, a) := swap_remove position (list_at idx ls) in Some (<[idx := l]> ls, a)
  | None => None
  end.

(** One candidate of the nested search loops. *)
Definition better (idx pos : nat) (addr : Z) (best : option (nat * nat * Z)) : option (nat * nat * Z) :=
  match best with
  | Some (best_idx, _, best_addr) =>
      if (addr <? best_addr) || ((addr =? best_addr) && (idx <? best_idx)%nat)
      then Some (idx, pos, addr) else best
  | None => Some (idx, pos, addr)
  end.
Fixpoint search_list (idx pos : nat) (l : list Z) (best : option (nat * nat * Z)) : option (nat * nat * Z) :=
  match l with
  | [] => best
  | a :: l' => search_list idx (S pos) l' (better idx pos a best)
  end.
Fixpoint search_levels (idxs : list nat) (ls : list FixedBlockList) (best : option (nat * nat * Z)) :=
  match idxs with
  | [] => best
  | idx :: idxs' => search_levels idxs' ls (search_list idx 0 (live (list_at idx ls)) best)
  end.

Definition take_lowest_suitable_block (target_idx : nat) (ls : list FixedBlockList)
  : option (list FixedBlockList * (nat * Z)) :=
  match search_levels (seq (S target_idx) (LEVELS - S target_idx)) ls None with
  | Some (idx, position, _) =>
      let '(l, a) := swap_remove position (list_at idx ls) in Some (<[idx := l]> ls, (idx, a))
  | None => None
  end.

Fixpoint split_loop (idx to_idx : nat) (current : Z) (ls : list FixedBlockList) : list FixedBlockList :=
  match idx with
  | O => ls
  | S i =>
      if (to_idx <? idx)%nat then
        if (idx =? 1)%nat && (to_idx =? 0)%nat then push_at 0 (u64_add current PAGE_SIZE) ls
        else split_loop i to_idx current
               (push_at (idx - 2) (u64_add current (fib (idx - 1) * PAGE_SIZE)) ls)
      else ls
  end.
(** [split_block] never moves [current]: it returns the block it was given. *)
Definition split_block (block : Z) (from_idx to_idx : nat) (ls : list FixedBlockList)
  : list FixedBlockList * Z := (split_loop from_idx to_idx block ls, block).

(** [(size + PAGE_SIZE - 1) / PAGE_SIZE] *)
Definition pages_of (size : Z) : Z := u64_sub (u64_add size PAGE_SIZE) 1 / PAGE_SIZE.

Definition allocate (size : Z) (b : FibonacciBuddyAllocator) : FibonacciBuddyAllocator * option Z :=
  if size =? 0 then (b, None)
  else
    let target_idx := find_fib_index (pages_of size) in
    match take_lowest_block target_idx (free_lists b) with
    | Some (ls, block) =>
        (set_used (u64_add (used_pages b) (fib target_idx)) (set_lists ls b), Some block)
    | None =>
        match take_lowest_suitable_block target_idx (free_lists b) with
        | None => (b, None)
        | Some (ls, (larger_idx, large_block)) =>
            let '(ls', left_block) := split_block large_block larger_idx target_idx ls in
            (set_used (u64_add (used_pages b) (fib target_idx)) (set_lists ls' b), Some left_block)
        end
    end.

Definition find_buddy (addr : Z) (idx : nat) (b : FibonacciBuddyAllocator) : Z :=
  let offset_pages := u64_sub addr (base_address b) / PAGE_SIZE in
  let buddy_offset_pages := Z.lxor offset_pages (fib idx) in
  u64_add (base_address b) (u64_mul buddy_offset_pages PAGE_SIZE).

Definition find_block_in_freelist (addr : Z) (ls : list FixedBlockList) : option nat :=
  position (contains addr) ls.

(** Recursion climbs one level per merge, so [LEVELS] steps are enough. *)
Fixpoint try_coalesce (fuel : nat) (addr : Z) (idx : nat) (b : FibonacciBuddyAllocator) : FibonacciBuddyAllocator :=
  match fuel with
  | O => b
  | S fuel' =>
      if (LEVELS - 1 <=? idx)%nat then b
      else
        let buddy_addr := find_buddy addr idx b in
        match find_block_in_freelist buddy_addr (free_lists b) with
        | Some buddy_idx =>
            if (buddy_idx =? idx)%nat then
              let ls := free_lists b in
              let ls1 := <[idx := retain_not_equal buddy_addr (list_at idx ls)]> ls in
              let coalesced := if addr <? buddy_addr then addr else buddy_addr in
              try_coalesce fuel' coalesced (S idx) (set_lists (push_at (S idx) coalesced ls1) b)
            else b
        | None => b
        end
  end.

Definition deallocate (addr size : Z) (b : FibonacciBuddyAllocator) : FibonacciBuddyAllocator :=
  if size =? 0 then b
  else
    let target_idx := find_fib_index (pages_of size) in
    let b1 := set_lists (push_at target_idx addr (free_lists b)) b in
    let b2 := set_used (sat_sub (used_pages b1) (fib target_idx)) b1 in
    try_coalesce LEVELS addr target_idx b2.

(** ** Coverage: how many free blocks contain byte [x] *)
Definition ind (x a n : Z) : Z := if decide (a <= x < a + n * PAGE_SIZE) then 1 else 0.
Fixpoint cover_from (i : nat) (x : Z) (ls : list FixedBlockList) : Z :=
  match ls with
  | [] => 0
  | l :: ls' => sumZ (fun a => ind x a (fib i)) (live l) + cover_from (S i) x ls'
  end.
Definition cover (x : Z) (ls : list FixedBlockList) : Z := cover_from 0 x ls.

(** ** Invariants *)
Definition list_wf (l : FixedBlockList) : Prop :=
  length (items l) = MAX_BLOCKS_PER_LIST /\ (len l <= MAX_BLOCKS_PER_LIST)%nat.
Definition lists_wf (ls : list FixedBlockList) : Prop := length ls = LEVELS /\ Forall list_wf ls.
(** Block [a] of [n] pages lies in [lo, hi), at a whole number of pages from [lo]. *)
Definition block_in (lo hi a n : Z) : Prop :=
  lo <= a /\ a + n * PAGE_SIZE <= hi /\ (a - lo) mod PAGE_SIZE = 0.
Definition blocks_in (lo hi : Z) (ls : list FixedBlockList) : Prop :=
  forall i a, (i < LEVELS)%nat -> a ∈ live (list_at i ls) -> block_in lo hi a (fib i).

(** *** Fibonacci facts *)
Lemma fib_rec i : (2 <= i < LEVELS)%nat -> fib i = fib (i - 1) + fib (i - 2).
Proof. intros [H1 H2]. unfold LEVELS in H2. do 32 (destruct i as [|i]; [try reflexivity; lia|]). lia. Qed.
Lemma fib_pos i : (i < LEVELS)%nat -> 1 <= fib i <= 3524578.
Proof. intros H. unfold LEVELS in H. do 32 (destruct i as [|i]; [vm_compute; split; discriminate|]). lia. Qed.
Lemma ind_range x a n : 0 <= ind x a n <= 1.
Proof. unfold ind. case_decide; lia. Qed.
Lemma ind_split x a m n : 0 <= m -> 0 <= n ->
  ind x a (m + n) = ind x a m + ind x (a + m * PAGE_SIZE) n.
Proof. intros. unfold ind, PAGE_SIZE. repeat case_decide; lia. Qed.

Lemma ind_disjoint a n a' m : 1 <= n -> 1 <= m ->
  ind (Z.max a a') a n + ind (Z.max a a') a' m <= 1 ->
  a + n * PAGE_SIZE <= a' \/ a' + m * PAGE_SIZE <= a.
Proof.
  unfold ind, PAGE_SIZE. intros Hn Hm H.
  destruct (decide (a <= Z.max a a' < a + n * 4096)), (decide (a' <= Z.max a a' < a' + m * 4096)); lia.
Qed.

(** *** Lists *)
Lemma list_new_wf : list_wf list_new.
Proof. split; [done|]. simpl. unfold MAX_BLOCKS_PER_LIST. lia. Qed.
Lemma list_at_wf i ls : lists_wf ls -> list_wf (list_at i ls).
Proof.
  intros [_ H]. unfold list_at. destruct (ls !! i) eqn:E; [|apply list_new_wf].
  by eapply Forall_lookup_1.
Qed.
Lemma push_wf a l : list_wf l -> list_wf (push a l).1.
Proof.
  intros [H1 H2]. unfold push. case_match eqn:E; [done|]. apply Nat.leb_gt in E.
  split; simpl; [by rewrite length_insert|lia].
Qed.
Lemma live_push a l : list_wf l ->
  live (push a l).1 = live l ++ [a] \/ (push a l) = (l, false).
Proof.
  intros [H1 H2]. unfold push. case_match eqn:E; [by right|left]. apply Nat.leb_gt in E.
  unfold live; simpl. rewrite (take_S_r _ _ a) by (rewrite list_lookup_insert_eq; [done|lia]).
  by rewrite take_insert_ge by lia.
Qed.
Lemma swap_remove_wf i l : list_wf l -> list_wf (swap_remove i l).1.
Proof. intros [H1 H2]. split; simpl; [by rewrite length_insert|lia]. Qed.

Lemma live_lookup l i a : live l !! i = Some a -> (i < len l)%nat /\ items l !! i = Some a.
Proof. unfold live. intros [??]%lookup_take_Some. done. Qed.

Lemma swap_remove_live i l a : list_wf l -> live l !! i = Some a ->
  (swap_remove i l).2 = a /\
  (forall f, sumZ f (live (swap_remove i l).1) = sumZ f (live l) - f a) /\
  (forall x, x ∈ live (swap_remove i l).1 -> x ∈ live l).
Proof.
  intros [H1 H2] Ha. apply live_lookup in Ha as [Hi Ha].
  unfold swap_remove; simpl. rewrite Ha; simpl. split; [done|].
  set (n := (len l - 1)%nat). assert (len l = S n) as Hn by lia.
  destruct (items l !! n) as [z|] eqn:Hz; [|apply lookup_ge_None in Hz; lia].
  assert (live l = take n (items l) ++ [z]) as Hl by (unfold live; rewrite Hn; by apply take_S_r).
  unfold live at 1 3; simpl. rewrite Hl.
  destruct (decide (i = n)) as [->|Hne].
  - rewrite take_insert_ge by lia. simplify_eq. split.
    + intros f. rewrite sumZ_app; simpl. lia.
    + set_solver.
  - rewrite take_insert_lt by lia.
    assert (take n (items l) !! i = Some a) as Ht by (rewrite lookup_take_lt by lia; done).
    split.
    + intros f. rewrite (sumZ_insert _ _ _ _ a), sumZ_app by done; simpl. lia.
    + intros x [j Hj]%list_elem_of_lookup. apply list_lookup_insert_Some in Hj as [(_ & <- & _)|[_ Hj]].
      * set_solver.
      * apply elem_of_app; left. apply list_elem_of_lookup. eauto.
Qed.

(** *** Coverage under updates *)
Lemma cover_from_insert x ls : forall i j l l', ls !! j = Some l ->
  cover_from i x (<[j := l']> ls) = cover_from i x ls
    - sumZ (fun a => ind x a (fib (i + j))) (live l) + sumZ (fun a => ind x a (fib (i + j))) (live l').
Proof.
  induction ls as [|l0 ls IH]; intros i [|j] l l' Hl; simplify_eq/=.
  - rewrite Nat.add_0_r. lia.
  - rewrite (IH (S i) j l l' Hl). replace (S i + j)%nat with (i + S j)%nat by lia. lia.
Qed.
Lemma lists_lookup i ls : lists_wf ls -> (i < LEVELS)%nat -> ls !! i = Some (list_at i ls).
Proof.
  intros [H _] Hi. unfold list_at. destruct (ls !! i) eqn:E; [done|].
  apply lookup_ge_None in E. lia.
Qed.
Lemma cover_insert x i l ls : lists_wf ls -> (i < LEVELS)%nat ->
  cover x (<[i := l]> ls) = cover x ls
    - sumZ (fun a => ind x a (fib i)) (live (list_at i ls)) + sumZ (fun a => ind x a (fib i)) (live l).
Proof. intros. unfold cover. by rewrite (cover_from_insert _ _ _ _ (list_at i ls)) by by apply lists_lookup. Qed.
Lemma lists_insert_wf i l ls : lists_wf ls -> list_wf l -> lists_wf (<[i := l]> ls).
Proof. intros [H1 H2] Hl. split; [by rewrite length_insert|by apply Forall_insert]. Qed.
Lemma list_at_insert i j l ls : lists_wf ls -> (i < LEVELS)%nat ->
  list_at j (<[i := l]> ls) = if decide (i = j) then l else list_at j ls.
Proof.
  intros [H _] Hi. unfold list_at. case_decide; subst.
  - by rewrite list_lookup_insert_eq by lia.
  - by rewrite list_lookup_insert_ne by done.
Qed.

Lemma push_at_wf i a ls : lists_wf ls -> lists_wf (push_at i a ls).
Proof. intros. apply lists_insert_wf; auto using push_wf, list_at_wf. Qed.
Lemma push_at_cover x i a ls : lists_wf ls -> (i < LEVELS)%nat ->
  cover x (push_at i a ls) <= cover x ls + ind x a (fib i).
Proof.
  intros Hw Hi. unfold push_at. rewrite cover_insert by done.
  pose proof (ind_range x a (fib i)).
  destruct (live_push a (list_at i ls)) as [-> | ->]; [by apply list_at_wf| |simpl; lia].
  rewrite sumZ_app; simpl. lia.
Qed.
Lemma push_at_in lo hi i a ls : lists_wf ls -> (i < LEVELS)%nat ->
  block_in lo hi a (fib i) -> blocks_in lo hi ls -> blocks_in lo hi (push_at i a ls).
Proof.
  intros Hw Hi Ha Hb j x Hj Hx. unfold push_at in Hx. rewrite list_at_insert in Hx by done.
  case_decide; subst; [|by apply Hb].
  destruct (live_push a (list_at j ls)) as [E|E]; [by apply list_at_wf|..]; rewrite E in Hx.
  - apply elem_of_app in Hx as [Hx|Hx]; [by apply Hb|]. apply list_elem_of_singleton in Hx. by subst.
  - by apply Hb.
Qed.
#[local] Hint Resolve push_at_wf push_at_in : echos.

(** *** Removing a found block *)
Lemma remove_at i p a ls : lists_wf ls -> (i < LEVELS)%nat ->
  live (list_at i ls) !! p = Some a ->
  let l := (swap_remove p (list_at i ls)).1 in
  (swap_remove p (list_at i ls)).2 = a /\ lists_wf (<[i := l]> ls) /\
  (forall x, cover x (<[i := l]> ls) = cover x ls - ind x a (fib i)) /\
  (forall lo hi, blocks_in lo hi ls -> blocks_in lo hi (<[i := l]> ls)).
Proof.
  intros Hw Hi Ha l. pose proof (list_at_wf i ls Hw) as Hl.
  destruct (swap_remove_live p (list_at i ls) a Hl Ha) as (E & Hs & Hsub). fold l in Hs, Hsub.
  split_and!; [done|..].
  - apply lists_insert_wf; [done|by apply swap_remove_wf].
  - intros x. rewrite cover_insert by done. rewrite Hs. lia.
  - intros lo hi Hb j y Hj Hy. rewrite list_at_insert in Hy by done.
    case_decide; subst; apply Hb; auto.
Qed.

Lemma min_pos_spec l : forall i best,
  match min_pos i best l with
  | Some (p, a) => best = Some (p, a) \/ ((i <= p)%nat /\ l !! (p - i)%nat = Some a)
  | None => best = None /\ l = []
  end.
Proof.
  induction l as [|a l IH]; intros i best; simpl.
  { destruct best as [[p b]|]; auto. }
  match goal with |- context [min_pos (S i) ?b l] => set (best' := b); specialize (IH (S i) best') end.
  assert (best' = best \/ best' = Some (i, a)) as Hb.
  { clear IH; subst best'. destruct best as [[p b]|]; [case_match|]; auto. }
  assert (best' <> None) as Hn.
  { clear IH; subst best'. destruct best as [[p b]|]; [case_match|]; done. }
  destruct (min_pos (S i) best' l) as [[p b]|]; [|by destruct IH].
  destruct IH as [E|[Hp Hl]].
  - destruct Hb as [E'|E']; rewrite E' in E; [by left|]. simplify_eq.
    right. by rewrite Nat.sub_diag.
  - right. split; [lia|]. by replace (p - i)%nat with (S (p - S i)) by lia.
Qed.

Lemma take_lowest_block_spec idx ls : lists_wf ls -> (idx < LEVELS)%nat ->
  match take_lowest_block idx ls with
  | Some (ls', a) => lists_wf ls' /\ a ∈ live (list_at idx ls) /\
      (forall x, cover x ls' = cover x ls - ind x a (fib idx)) /\
      (forall lo hi, blocks_in lo hi ls -> blocks_in lo hi ls')
  | None => live (list_at idx ls) = []
  end.
Proof.
  intros Hw Hi. unfold take_lowest_block.
  pose proof (min_pos_spec (live (list_at idx ls)) 0 None) as H.
  destruct (min_pos 0 None (live (list_at idx ls))) as [[p a]|]; [|apply H].
  destruct H as [|[_ H]]; [done|]. rewrite Nat.sub_0_r in H.
  destruct (remove_at idx p a ls Hw Hi H) as (E & H1 & H2 & H3).
  destruct (swap_remove p (list_at idx ls)) as [l v]; simpl in *; subst v.
  split_and!; auto. apply list_elem_of_lookup. eauto.
Qed.

Lemma search_list_spec idx l : forall pos best,
  match search_list idx pos l best with
  | Some (j, p, a) => best = Some (j, p, a) \/ (j = idx /\ (pos <= p)%nat /\ l !! (p - pos)%nat = Some a)
  | None => best = None /\ l = []
  end.
Proof.
  induction l as [|a l IH]; intros pos best; simpl.
  { destruct best as [[[j p] b]|]; auto. }
  specialize (IH (S pos) (better idx pos a best)).
  assert (better idx pos a best = best \/ better idx pos a best = Some (idx, pos, a)) as Hb.
  { clear IH; unfold better. destruct best as [[[j p] b]|]; [case_match|]; auto. }
  assert (better idx pos a best <> None) as Hn.
  { clear IH; unfold better. destruct best as [[[j p] b]|]; [case_match|]; done. }
  destruct (search_list idx (S pos) l _) as [[[j p] b]|]; [|by destruct IH].
  destruct IH as [E|(-> & Hp & Hl)].
  - destruct Hb as [E'|E']; rewrite E' in E; [by left|]. simplify_eq.
    right. rewrite Nat.sub_diag. auto.
  - right. split_and!; [done|lia|]. by replace (p - pos)%nat with (S (p - S pos)) by lia.
Qed.

Lemma search_levels_spec ls idxs : forall best,
  match search_levels idxs ls best with
  | Some (j, p, a) => best = Some (j, p, a) \/ (j ∈ idxs /\ live (list_at j ls) !! p = Some a)
  | None => best = None /\ forall j, j ∈ idxs -> live (list_at j ls) = []
  end.
Proof.
  induction idxs as [|i idxs IH]; intros best; simpl.
  { destruct best as [[[j p] b]|]; [by left|]. split; [done|]. by intros j ?%elem_of_nil. }
  specialize (IH (search_list i 0 (live (list_at i ls)) best)).
  pose proof (search_list_spec i (live (list_at i ls)) 0 best) as Hs.
  destruct (search_levels idxs ls _) as [[[j p] a]|].
  - destruct IH as [E|[Hj Hl]]; [|right; split; [by right|done]].
    rewrite E in Hs. destruct Hs as [?|(-> & _ & Hl)]; [by left|right].
    rewrite Nat.sub_0_r in Hl. split; [by left|done].
  - destruct IH as [E Hr]. rewrite E in Hs. destruct Hs as [-> Hl]. split; [done|].
    intros j [->|Hj]%elem_of_cons; auto.
Qed.

Lemma take_suitable_spec t ls : lists_wf ls -> (t < LEVELS)%nat ->
  match take_lowest_suitable_block t ls with
  | Some (ls', (j, a)) => (t < j < LEVELS)%nat /\ lists_wf ls' /\ a ∈ live (list_at j ls) /\
      (forall x, cover x ls' = cover x ls - ind x a (fib j)) /\
      (forall lo hi, blocks_in lo hi ls -> blocks_in lo hi ls')
  | None => forall j, (t < j < LEVELS)%nat -> live (list_at j ls) = []
  end.
Proof.
  intros Hw Ht. unfold take_lowest_suitable_block.
  pose proof (search_levels_spec ls (seq (S t) (LEVELS - S t)) None) as H.
  destruct (search_levels _ ls None) as [[[j p] a]|].
  - destruct H as [|[Hj Hl]]; [done|]. apply elem_of_seq in Hj.
    assert (j < LEVELS)%nat as Hjl by lia.
    destruct (remove_at j p a ls Hw Hjl Hl) as (E & H1 & H2 & H3).
    destruct (swap_remove p (list_at j ls)) as [l v]; simpl in *; subst v.
    split_and!; auto; [lia|]. apply list_elem_of_lookup. eauto.
  - intros j Hj. apply H. apply elem_of_seq. lia.
Qed.

(** *** Splitting *)
Definition region_ok (lo hi : Z) : Prop := 0 <= lo /\ hi <= 2 ^ 52.
Lemma block_addr lo hi a n m : region_ok lo hi -> block_in lo hi a (m + n) -> 0 <= m -> 1 <= n ->
  u64_add a (m * PAGE_SIZE) = a + m * PAGE_SIZE.
Proof. unfold region_ok, block_in, PAGE_SIZE. intros. apply u64_add_small. unfold u64_mod. lia. Qed.
Lemma block_in_left lo hi a m n : block_in lo hi a (m + n) -> 0 <= n -> block_in lo hi a m.
Proof. unfold block_in, PAGE_SIZE. intros (?&?&?) ?. split_and!; lia. Qed.
Lemma block_in_right lo hi a m n : block_in lo hi a (m + n) -> 0 <= m ->
  block_in lo hi (a + m * PAGE_SIZE) n.
Proof.
  unfold block_in, PAGE_SIZE. intros (?&?&?) ?. split_and!; try lia.
  replace (a + m * 4096 - lo) with (a - lo + m * 4096) by lia. by rewrite Z.mod_add by lia.
Qed.

Lemma split_loop_spec lo hi t cur : region_ok lo hi -> forall idx ls,
  (t <= idx < LEVELS)%nat -> block_in lo hi cur (fib idx) -> lists_wf ls -> blocks_in lo hi ls ->
  lists_wf (split_loop idx t cur ls) /\ blocks_in lo hi (split_loop idx t cur ls) /\
  forall x, cover x (split_loop idx t cur ls) <= cover x ls + ind x cur (fib idx) - ind x cur (fib t).
Proof.
  intros Hr. induction idx as [|i IH]; intros ls Ht Hc Hw Hb.
  { simpl. replace t with 0%nat by lia. split_and!; auto. intros x. lia. }
  cbn [split_loop]. destruct (t <? S i)%nat eqn:Et.
  2: { apply Nat.ltb_ge in Et. replace t with (S i) by lia. split_and!; auto. intros x. lia. }
  apply Nat.ltb_lt in Et. destruct ((S i =? 1)%nat && (t =? 0)%nat) eqn:E1.
  - apply andb_true_iff in E1 as [E1%Nat.eqb_eq E2%Nat.eqb_eq]. simplify_eq.
    change (fib 1) with (1 + fib 0) in *. change PAGE_SIZE with (1 * PAGE_SIZE).
    rewrite (block_addr lo hi _ (fib 0)) by (done || lia).
    split_and!; eauto using push_at_wf.
    + apply push_at_in; [done|lia| |done]. by apply block_in_right.
    + intros x. rewrite (ind_split x cur 1 (fib 0)) by (vm_compute; discriminate).
      change (ind x cur (fib 0)) with (ind x cur 1).
      pose proof (push_at_cover x 0 (cur + 1 * PAGE_SIZE) ls Hw ltac:(lia)). lia.
  - assert (2 <= S i)%nat as Hi.
    { destruct i; [|lia]. assert (t = 0%nat) as -> by lia. done. }
    replace (S i - 1)%nat with i by lia.
    pose proof (fib_rec (S i) ltac:(lia)) as Hf. replace (S i - 1)%nat with i in Hf by lia.
    pose proof (fib_pos i ltac:(lia)). pose proof (fib_pos (S i - 2) ltac:(lia)).
    rewrite Hf in Hc. rewrite (block_addr lo hi _ (fib (S i - 2))) by (done || lia).
    destruct (IH (push_at (S i - 2) (cur + fib i * PAGE_SIZE) ls)) as (H1 & H2 & H3).
    + lia.
    + eapply block_in_left; [done|lia].
    + by apply push_at_wf.
    + apply push_at_in; [done|lia| |done]. apply block_in_right; [done|lia].
    + split_and!; [done..|]. intros x. specialize (H3 x).
      rewrite Hf, ind_split by lia.
      pose proof (push_at_cover x (S i - 2) (cur + fib i * PAGE_SIZE) ls Hw ltac:(lia)). lia.
Qed.

(** *** Size classes *)
Lemma find_fib_index_lt p : (find_fib_index p < LEVELS)%nat.
Proof.
  unfold find_fib_index. destruct (position _ _) as [i|] eqn:E; simpl; [|unfold LEVELS; lia].
  apply position_spec in E as [(x & Hx & _) _]. by apply lookup_lt_Some in Hx.
Qed.
Lemma find_fib_index_spec p : p <= 3524578 ->
  p <= fib (find_fib_index p) /\ forall j, (j < find_fib_index p)%nat -> fib j < p.
Proof.
  intros Hp. pose proof (find_fib_index_lt p) as Hl. unfold find_fib_index in *.
  destruct (position _ _) as [i|] eqn:E; simpl in Hl |- *.
  - apply position_spec in E as [(x & Hx & Hpx) Hm]. unfold fib. rewrite Hx. simpl.
    split; [by apply Z.leb_le|]. intros j Hj.
    destruct (FIBONACCI_SERIES !! j) as [y|] eqn:Hy; [|apply lookup_ge_None in Hy; simpl in Hy; unfold LEVELS in *; lia].
    simpl. apply (Hm _ _ Hj) in Hy. by apply Z.leb_gt in Hy.
  - apply position_None in E. rewrite Forall_forall in E.
    specialize (E 3524578 ltac:(repeat constructor)). apply Z.leb_gt in E. lia.
Qed.

(** *** One allocation *)
Definition inv (lo hi : Z) (b : FibonacciBuddyAllocator) : Prop :=
  lists_wf (free_lists b) /\ blocks_in lo hi (free_lists b).
Definition target (size : Z) : nat := find_fib_index (pages_of size).

Lemma allocate_spec lo hi size b : region_ok lo hi -> inv lo hi b ->
  match allocate size b with
  | (b', Some a) => inv lo hi b' /\ block_in lo hi a (fib (target size)) /\
      forall x, cover x (free_lists b') + ind x a (fib (target size)) <= cover x (free_lists b)
  | (b', None) => b' = b
  end.
Proof.
  intros Hr [Hw Hb]. unfold allocate. fold (target size).
  destruct (size =? 0); [done|]. pose proof (find_fib_index_lt (pages_of size)) as Ht.
  fold (target size) in Ht. pose proof (take_lowest_block_spec _ _ Hw Ht) as H.
  destruct (take_lowest_block _ _) as [[ls a]|].
  - destruct H as (H1 & H2 & H3 & H4). split_and!; [split; simpl; auto|by apply Hb|].
    intros x. simpl. rewrite H3. lia.
  - pose proof (take_suitable_spec _ _ Hw Ht) as H'.
    destruct (take_lowest_suitable_block _ _) as [[ls [j a]]|]; [|done].
    destruct H' as (Hj & H1 & H2 & H3 & H4). unfold split_block.
    assert (block_in lo hi a (fib j)) as Ha by (apply Hb; [lia|done]).
    destruct (split_loop_spec lo hi (target size) a Hr j ls) as (H5 & H6 & H7); auto; [lia|].
    split_and!; [by split|..].
    + destruct (decide (fib (target size) <= fib j)) as [Hle|Hle].
      * replace (fib j) with (fib (target size) + (fib j - fib (target size))) in Ha by lia.
        eapply block_in_left; [done|lia].
      * exfalso. apply Hle. assert (forall k, (k < LEVELS)%nat -> (S k < LEVELS)%nat -> fib k <= fib (S k)) as Hs.
        { intros k Hk Hk'. destruct k as [|k]; [vm_compute; discriminate|].
          rewrite (fib_rec (S (S k))) by lia. replace (S (S k) - 1)%nat with (S k) by lia.
          pose proof (fib_pos (S (S k) - 2) ltac:(lia)). lia. }
        clear -Hj Hs. destruct Hj as [Hj Hl]. induction Hj as [|m Hm IH]; [apply Hs; lia|].
        etrans; [apply IH; lia|apply Hs; lia].
    + intros x. simpl. specialize (H7 x). rewrite H3 in H7. lia.
Qed.

(** *** The initial layout *)
Lemma floor_loop_spec pages : 1 <= pages -> forall series i idx,
  fib idx <= pages -> (forall k f, series !! k = Some f -> fib (i + k) = f) ->
  fib (floor_loop i idx series pages) <= pages /\
  (floor_loop i idx series pages = idx \/ (i <= floor_loop i idx series pages < i + length series)%nat).
Proof.
  intros Hp. induction series as [|f series IH]; intros i idx Hi Hs; simpl; [auto|].
  destruct (pages <? f) eqn:E; [auto|]. apply Z.ltb_ge in E.
  destruct (IH (S i) i) as [H1 H2].
  - specialize (Hs 0%nat f eq_refl). rewrite Nat.add_0_r in Hs. lia.
  - intros k g Hk. replace (S i + k)%nat with (i + S k)%nat by lia. by apply Hs.
  - split; [done|]. right. destruct H2 as [->|H2]; lia.
Qed.
Lemma find_fib_index_floor_spec pages : 1 <= pages ->
  fib (find_fib_index_floor pages) <= pages /\ (find_fib_index_floor pages < LEVELS)%nat.
Proof.
  intros Hp. destruct (floor_loop_spec pages Hp FIBONACCI_SERIES 0 0) as [H1 H2].
  - done.
  - intros k f Hk. unfold fib. by rewrite Nat.add_0_l, Hk.
  - unfold find_fib_index_floor. split; [done|]. destruct H2 as [->|H2]; [unfold LEVELS; lia|apply H2].
Qed.

Lemma place_loop_spec lo hi : region_ok lo hi -> forall fuel n cur ls,
  0 <= n -> block_in lo hi cur n -> lists_wf ls -> blocks_in lo hi ls ->
  lists_wf (place_loop fuel n cur ls) /\ blocks_in lo hi (place_loop fuel n cur ls) /\
  forall x, cover x (place_loop fuel n cur ls) <= cover x ls + ind x cur n.
Proof.
  intros Hr. induction fuel as [|fuel IH]; intros n cur ls Hn Hc Hw Hb; cbn [place_loop].
  { split_and!; auto. intros x. pose proof (ind_range x cur n). lia. }
  destruct (0 <? n) eqn:E.
  2: { split_and!; auto. intros x. pose proof (ind_range x cur n). lia. }
  apply Z.ltb_lt in E. destruct (find_fib_index_floor_spec n ltac:(lia)) as [Hf Hl].
  set (i := find_fib_index_floor n) in *. pose proof (fib_pos i Hl).
  replace (sat_sub n (fib i)) with (n - fib i) by (unfold sat_sub; lia).
  replace n with (fib i + (n - fib i)) in Hc by lia.
  assert (u64_add cur (fib i * PAGE_SIZE) = cur + fib i * PAGE_SIZE) as ->.
  { apply u64_add_small. revert Hc Hr. unfold block_in, region_ok, PAGE_SIZE, u64_mod. lia. }
  destruct (IH (n - fib i) (cur + fib i * PAGE_SIZE) (push_at i cur ls)) as (H1 & H2 & H3).
  - lia.
  - apply block_in_right; [done|lia].
  - by apply push_at_wf.
  - apply push_at_in; auto. eapply block_in_left; [done|lia].
  - split_and!; auto. intros x. specialize (H3 x).
    pose proof (push_at_cover x i cur ls Hw Hl).
    pose proof (ind_split x cur (fib i) (n - fib i) ltac:(lia) ltac:(lia)) as Hs.
    replace (fib i + (n - fib i)) with n in Hs by lia. lia.
Qed.

Lemma cover_empty x n i : cover_from i x (replicate n list_new) = 0.
Proof. revert i. induction n as [|n IH]; intros i; [done|]. cbn [replicate cover_from]. by rewrite IH. Qed.
Lemma list_at_empty i : list_at i (replicate LEVELS list_new) = list_new.
Proof.
  unfold list_at. destruct (replicate LEVELS list_new !! i) eqn:E; [|done].
  by apply lookup_replicate in E as [-> _].
Qed.

Lemma new_spec base size : 0 <= base -> 0 <= size -> base + size <= 2 ^ 52 ->
  inv base (base + size) (new base size) /\
  forall x, cover x (free_lists (new base size)) <= ind x base (size / PAGE_SIZE).
Proof.
  intros Hb Hs He. unfold new, inv. cbn [free_lists].
  destruct (place_loop_spec base (base + size) (conj Hb He) (Z.to_nat (size / PAGE_SIZE)) (size / PAGE_SIZE)
              base (replicate LEVELS list_new)) as (H1 & H2 & H3).
  - unfold PAGE_SIZE; Z.div_mod_to_equations; lia.
  - split_and!; [lia|unfold PAGE_SIZE; Z.div_mod_to_equations; lia|by rewrite Z.sub_diag].
  - split; [done|]. apply Forall_replicate, list_new_wf.
  - intros i a Hi Ha. rewrite list_at_empty in Ha. by apply elem_of_nil in Ha.
  - split; [done|]. intros x. specialize (H3 x). unfold cover at 2 in H3.
    by rewrite cover_empty in H3.
Qed.

(** *** Fuel *)
Lemma place_loop_fuel fuel k : forall n cur ls, (Z.to_nat n <= fuel)%nat ->
  place_loop (fuel + k) n cur ls = place_loop fuel n cur ls.
Proof.
  induction fuel as [|fuel IH]; intros n cur ls Hn.
  - destruct k; [done|]. cbn [place_loop Nat.add]. by rewrite (proj2 (Z.ltb_ge 0 n)) by lia.
  - cbn [place_loop Nat.add]. destruct (0 <? n) eqn:E; [|done]. apply Z.ltb_lt in E.
    apply IH. destruct (find_fib_index_floor_spec n ltac:(lia)) as [Hf Hl].
    pose proof (fib_pos _ Hl). unfold sat_sub. lia.
Qed.
Lemma try_coalesce_fuel fuel k : forall addr idx b, (LEVELS <= fuel + idx)%nat ->
  try_coalesce (fuel + k) addr idx b = try_coalesce fuel addr idx b.
Proof.
  induction fuel as [|fuel IH]; intros addr idx b Hf; cbn [try_coalesce Nat.add].
  - destruct k; [done|]. cbn [try_coalesce]. by rewrite (proj2 (Nat.leb_le _ _)) by lia.
  - destruct (LEVELS - 1 <=? idx)%nat; [done|]. destruct (find_block_in_freelist _ _) as [j|]; [|done].
    destruct (j =? idx)%nat; [|done]. apply IH. lia.
Qed.

(** ** Sequences of allocations *)
Fixpoint alloc_run (sizes : list Z) (b : FibonacciBuddyAllocator) : FibonacciBuddyAllocator * list (Z * Z) :=
  match sizes with
  | [] => (b, [])
  | size :: rest =>
      let '(b1, r) := allocate size b in
      let '(b2, out) := alloc_run rest b1 in
      (b2, match r with Some a => (a, fib (target size)) :: out | None => out end)
  end.
Definition taken (x : Z) (out : list (Z * Z)) : Z := sumZ (fun '(a, n) => ind x a n) out.

Lemma alloc_run_spec lo hi : region_ok lo hi -> forall sizes b, inv lo hi b ->
  Forall (fun '(a, n) => block_in lo hi a n /\ 1 <= n) (alloc_run sizes b).2 /\
  forall x, cover x (free_lists (alloc_run sizes b).1) + taken x (alloc_run sizes b).2 <= cover x (free_lists b).
Proof.
  intros Hr. induction sizes as [|size rest IH]; intros b Hi; cbn [alloc_run].
  { split; [constructor|]. intros x. unfold taken; simpl. lia. }
  pose proof (allocate_spec lo hi size b Hr Hi) as H.
  destruct (allocate size b) as [b1 [a|]].
  - destruct H as (Hi1 & Ha & Hc). destruct (IH b1 Hi1) as [H1 H2].
    destruct (alloc_run rest b1) as [b2 out]; simpl in *. split.
    + constructor; [|done]. split; [done|]. apply fib_pos, find_fib_index_lt.
    + intros x. specialize (H2 x). specialize (Hc x). unfold taken in *; simpl. lia.
  - subst b1. destruct (IH b Hi) as [H1 H2]. by destruct (alloc_run rest b) as [b2 out].
Qed.
Lemma cover_nonneg x ls : 0 <= cover x ls.
Proof.
  unfold cover. generalize 0%nat. induction ls as [|l ls IH]; intros i; simpl; [lia|].
  specialize (IH (S i)). pose proof (sumZ_nonneg (fun a => ind x a (fib i)) (live l)
    (fun a => proj1 (ind_range x a (fib i)))). lia.
Qed.

(** Any sequence of allocations from a freshly initialised region hands out
    blocks that lie inside the region, start at whole pages of it, and are
    pairwise disjoint. *)
Theorem buddy_allocs_disjoint base size sizes i j a n a' m :
  0 <= base -> 0 <= size -> base + size <= 2 ^ 52 ->
  let out := (alloc_run sizes (new base size)).2 in
  out !! i = Some (a, n) -> out !! j = Some (a', m) -> i <> j ->
  block_in base (base + size) a n /\
  (a + n * PAGE_SIZE <= a' \/ a' + m * PAGE_SIZE <= a).
Proof.
  intros Hb Hs He out Hi Hj Hij. destruct (new_spec base size Hb Hs He) as [Hn Hc].
  destruct (alloc_run_spec base (base + size) (conj Hb He) sizes _ Hn) as [Hf Hd]. fold out in Hf, Hd.
  destruct (Forall_lookup_1 _ _ _ _ Hf Hi) as [Ha Hn1]. destruct (Forall_lookup_1 _ _ _ _ Hf Hj) as [Ha' Hm1].
  split; [done|]. set (x := Z.max a a'). specialize (Hd x). specialize (Hc x).
  pose proof (cover_nonneg x (free_lists (alloc_run sizes (new base size)).1)).
  pose proof (ind_range x base (size / PAGE_SIZE)).
  pose proof (sumZ_two (fun '(b, k) => ind x b k) out i j (a, n) (a', m)
     (fun '(b, k) => proj1 (ind_range _ b k)) Hij Hi Hj) as Ht. fold (taken x out) in Ht. cbn beta iota in Ht.
  assert (ind x a n + ind x a' m <= 1) as Hle by lia.
  by apply ind_disjoint.
Qed.
Lemma buddy_allocs_disjoint_witness :
  let out := (alloc_run [8192; 4096; 20000] (new 4096 (1024 * 4096))).2 in
  out = [(4096, 2); (4096 + 2 * 4096, 1); (4096 + 8 * 4096, 5)] /\
  (4096 + 2 * PAGE_SIZE <= 4096 + 8 * 4096 \/ 4096 + 8 * 4096 + 5 * PAGE_SIZE <= 4096).
Proof.
  split; [vm_compute; reflexivity|].
  apply (buddy_allocs_disjoint 4096 (1024 * 4096) [8192; 4096; 20000] 0 2 4096 2 (4096 + 8 * 4096) 5);
    try lia; vm_compute; reflexivity.
Defined.

(** One request: the block handed out holds the requested number of bytes,
    its size class is the smallest one that does, and the request is refused
    exactly when it is empty or when no free block of that class or a larger
    one exists. *)
Theorem buddy_allocate_fits lo hi size b :
  region_ok lo hi -> inv lo hi b -> 0 <= size <= 3524578 * PAGE_SIZE ->
  (forall a, (allocate size b).2 = Some a ->
     size <= fib (target size) * PAGE_SIZE /\ block_in lo hi a (fib (target size)) /\
     forall k, (k < target size)%nat -> fib k * PAGE_SIZE < size) /\
  ((allocate size b).2 = None <->
     size = 0 \/ forall k, (target size <= k < LEVELS)%nat -> live (list_at k (free_lists b)) = []).
Proof.
  intros Hr Hi Hs. pose proof (find_fib_index_lt (pages_of size)) as Ht. fold (target size) in Ht.
  assert (pages_of size = (size + 4095) / 4096) as Hp.
  { unfold pages_of, PAGE_SIZE in *. rewrite u64_add_small by (unfold u64_mod; lia).
    rewrite u64_sub_small by (unfold u64_mod; lia). f_equal. lia. }
  split.
  - intros a Ha. pose proof (allocate_spec lo hi size b Hr Hi) as H.
    destruct (allocate size b) as [b' r]; simpl in Ha; subst r. destruct H as (_ & Hb & _).
    destruct (find_fib_index_spec (pages_of size)) as [H1 H2];
      [rewrite Hp; unfold PAGE_SIZE in Hs; Z.div_mod_to_equations; lia|].
    fold (target size) in H1, H2. rewrite Hp in H1, H2.
    split_and!; [|done|]; [|intros k Hk; specialize (H2 k Hk)];
      unfold PAGE_SIZE in *; Z.div_mod_to_equations; lia.
  - unfold allocate. fold (target size). destruct (size =? 0) eqn:E0; simplify_bool; [by split; auto|].
    pose proof (take_lowest_block_spec _ _ (proj1 Hi) Ht) as H.
    destruct (take_lowest_block _ _) as [[ls a]|].
    { split; [done|]. intros [?|Hk]; [done|]. rewrite Hk in H by lia.
      destruct H as (_ & H & _). by apply elem_of_nil in H. }
    pose proof (take_suitable_spec _ _ (proj1 Hi) Ht) as H'.
    destruct (take_lowest_suitable_block _ _) as [[ls [j a]]|]; simpl.
    + split; [done|]. intros [?|Hk]; [done|]. destruct H' as (Hj & _ & Ha & _).
      rewrite Hk in Ha by lia. by apply elem_of_nil in Ha.
    + split; [|done]. intros _. right. intros k Hk.
      destruct (decide (k = target size)) as [->|]; [done|]. apply H'. lia.
Qed.
Lemma buddy_allocate_fits_witness :
  20000 <= fib (target 20000) * PAGE_SIZE /\ (allocate 20000 (new 4096 (64 * 4096))).2 = Some 4096.
Proof.
  assert ((allocate 20000 (new 4096 (64 * 4096))).2 = Some 4096) as E by (vm_compute; reflexivity).
  split; [|exact E].
  refine (proj1 (proj1 (buddy_allocate_fits 4096 (4096 + 64 * 4096) 20000 (new 4096 (64 * 4096)) _ _ _) _ E)).
  - split; lia.
  - apply new_spec; lia.
  - unfold PAGE_SIZE; lia.
Defined.

(** Requests above the largest block size are served as if they asked for
    the largest block: the caller of [allocate] gets a block shorter than the
    size it asked for. *)
Theorem buddy_oversize_shortened size b :
  3524578 * PAGE_SIZE < size < u64_mod - PAGE_SIZE ->
  allocate size b = allocate (3524578 * PAGE_SIZE) b /\ fib (target size) * PAGE_SIZE < size.
Proof.
  intros Hs. assert (3524578 < pages_of size) as Hp.
  { unfold pages_of, PAGE_SIZE in *. rewrite u64_add_small by lia.
    rewrite u64_sub_small by lia. Z.div_mod_to_equations. lia. }
  assert (find_fib_index (pages_of size) = 31%nat) as Ht.
  { unfold find_fib_index. destruct (position _ _) as [i|] eqn:E; [|done].
    apply position_spec in E as [(x & Hx & Hle) _]. apply Z.leb_le in Hle.
    assert (fib i = x) as Hf by (unfold fib; by rewrite Hx).
    apply lookup_lt_Some in Hx. pose proof (fib_pos i Hx). lia. }
  unfold allocate, target. rewrite Ht.
  change (find_fib_index (pages_of (3524578 * PAGE_SIZE))) with 31%nat.
  replace (size =? 0) with false by (symmetry; apply Z.eqb_neq; unfold PAGE_SIZE in *; lia).
  split; [done|]. apply Hs.
Qed.
Lemma buddy_oversize_shortened_witness :
  allocate (4000000 * 4096) (new 4096 (64 * 4096)) = allocate (3524578 * PAGE_SIZE) (new 4096 (64 * 4096)) /\
  fib (target (4000000 * 4096)) * PAGE_SIZE < 4000000 * 4096.
Proof.
  apply (buddy_oversize_shortened (4000000 * 4096) (new 4096 (64 * 4096))).
  unfold PAGE_SIZE, u64_mod. lia.
Defined.

(** Releasing two neighbouring pages makes the allocator hand out the same
    page twice: [try_coalesce] takes the buddy off the free list of the level
    but leaves the released block itself there, next to the merged block one
    level up. *)
Theorem buddy_coalesce_double_allocation :
  let b0 := new 4096 (1024 * 4096) in
  let '(b1, p) := allocate 4096 b0 in
  let '(b2, q) := allocate 4096 b1 in
  let b3 := deallocate 8192 4096 (deallocate 4096 4096 b2) in
  let '(b4, r) := allocate 8192 b3 in
  let '(b5, s) := allocate 4096 b4 in
  p = Some 4096 /\ q = Some 8192 /\ r = Some 4096 /\ s = Some 8192 /\ cover 8192 (free_lists b3) = 2.
Proof. vm_compute. repeat split. Qed.

End FibBuddy.
