(* ===== verification/FibPmm.v ===== *)
(** * The zone-aware physical memory manager

    Models [src/src/memory/fibonacci_pmm.rs]: the memory map is cut at the DMA
    (16 MiB) and DMA32 (4 GiB) limits, each piece gets a Fibonacci buddy
    allocator ([FibBuddy]), and a request walks the zone fallback chain
    NORMAL, DMA32, DMA.  The [f64] statistics and the console output are not
    modelled. *)

From S2P Require Import Prelude FibBuddy.

Module FibPmm.

Inductive MemoryZone := Dma | Dma32 | Normal.
#[export] Instance MemoryZone_eq_dec : EqDecision MemoryZone.
Proof. solve_decision. Defined.

Definition ZONE_DMA_LIMIT : Z := 16 * 1024 * 1024.
Definition ZONE_DMA32_LIMIT : Z := 4 * 1024 * 1024 * 1024.
Definition MAX_PMM_REGIONS : nat := 32.

Definition from_addr (addr : Z) : MemoryZone :=
  if addr <? ZONE_DMA_LIMIT then Dma
  else if addr <? ZONE_DMA32_LIMIT then Dma32 else Normal.
Definition fallback (z : MemoryZone) : option MemoryZone :=
  match z with Normal => Some Dma32 | Dma32 => Some Dma | Dma => None end.
Definition zone_idx (z : MemoryZone) : nat := match z with Dma => 0 | Dma32 => 1 | Normal => 2 end.

Record RegionAllocator := mkRegion {
  start : Z; size : Z; zone : MemoryZone; buddy : FibBuddy.FibonacciBuddyAllocator
}.
Record FibonacciPmm := mkPmm {
  regions : list (option RegionAllocator);
  region_count : nat;
  total_frames : Z;
  used_frames : Z;
  zone_total : list Z;
  zone_used : list Z
}.
Definition empty : FibonacciPmm :=
  mkPmm (replicate MAX_PMM_REGIONS None) 0 0 0 [0; 0; 0] [0; 0; 0].

(** [uefi::table::boot::MemoryDescriptor]; type 7 is conventional memory. *)
Record MemoryDescriptor := mkDesc { ty : Z; phys_start : Z; page_count : Z }.
Definition CONVENTIONAL : Z := 7.

Definition bump_at (i : nat) (n : Z) (l : list Z) : list Z := alter (fun v => u64_add v n) i l.

Definition add_region (r : RegionAllocator) (p : FibonacciPmm) : FibonacciPmm :=
  let pages := size r / 4096 in
  mkPmm (<[region_count p := Some r]> (regions p)) (S (region_count p))
    (u64_sat_add (total_frames p) pages) (used_frames p)
    (bump_at (zone_idx (zone r)) pages (zone_total p)) (zone_used p).

(** The loop over the zone boundaries; [true] means [init] has returned. *)
Fixpoint chunk_loop (boundaries : list Z) (cursor phys_end : Z) (p : FibonacciPmm) : FibonacciPmm * bool :=
  match boundaries with
  | [] => (p, false)
  | boundary :: rest =>
      if phys_end <=? cursor then (p, false)
      else
        let chunk_end := Z.min phys_end boundary in
        if chunk_end <=? cursor then chunk_loop rest cursor phys_end p
        else
          let sz := chunk_end - cursor in
          let r := mkRegion cursor sz (from_addr cursor) (FibBuddy.new cursor sz) in
          if (MAX_PMM_REGIONS <=? region_count p)%nat then (p, true)
          else chunk_loop rest chunk_end phys_end (add_region r p)
  end.
Definition BOUNDARIES : list Z := [ZONE_DMA_LIMIT; ZONE_DMA32_LIMIT; u64_max].

Fixpoint init_loop (map_iter : list MemoryDescriptor) (p : FibonacciPmm) : FibonacciPmm :=
  match map_iter with
  | [] => p
  | desc :: rest =>
      if negb (ty desc =? CONVENTIONAL) || (page_count desc =? 0) then init_loop rest p
      else
        let phys_end := u64_add (phys_start desc) (u64_mul (page_count desc) 4096) in
        let '(p', returned) := chunk_loop BOUNDARIES (phys_start desc) phys_end p in
        if returned : bool then p' else init_loop rest p'
  end.
Definition init (map_iter : list MemoryDescriptor) : FibonacciPmm := init_loop map_iter empty.

(** ** Allocation *)
Definition set_buddy (b : FibBuddy.FibonacciBuddyAllocator) (r : RegionAllocator) : RegionAllocator :=
  mkRegion (start r) (size r) (zone r) b.
Definition set_region (i : nat) (r : RegionAllocator) (p : FibonacciPmm) : FibonacciPmm :=
  mkPmm (<[i := Some r]> (regions p)) (region_count p) (total_frames p) (used_frames p)
    (zone_total p) (zone_used p).
Definition charge (z : MemoryZone) (pages : Z) (p : FibonacciPmm) : FibonacciPmm :=
  mkPmm (regions p) (region_count p) (total_frames p) (u64_add (used_frames p) pages)
    (zone_total p) (bump_at (zone_idx z) pages (zone_used p)).

(** The loop shared by the two [try_allocate_*zone] functions: the first region
    of the zone whose buddy allocator serves [size] bytes; a failing
    [allocate] leaves its buddy allocator as it was. *)
Fixpoint try_regions (idxs : list nat) (z : MemoryZone) (sz pages : Z) (p : FibonacciPmm)
  : FibonacciPmm * option Z :=
  match idxs with
  | [] => (p, None)
  | index :: rest =>
      match regions p !! index with
      | Some (Some region) =>
          if bool_decide (zone region = z) then
            match FibBuddy.allocate sz (buddy region) with
            | (b, Some addr) =>
                (charge z pages (set_region index (set_buddy b region) p), Some (page_of addr))
            | (b, None) => try_regions rest z sz pages (set_region index (set_buddy b region) p)
            end
          else try_regions rest z sz pages p
      | _ => try_regions rest z sz pages p
      end
  end.
Definition try_allocate_zone (z : MemoryZone) (p : FibonacciPmm) : FibonacciPmm * option Z :=
  try_regions (seq 0 (region_count p)) z 4096 1 p.
Definition try_allocate_contiguous_zone (pages : Z) (z : MemoryZone) (p : FibonacciPmm)
  : FibonacciPmm * option Z :=
  try_regions (seq 0 (region_count p)) z (u64_mul pages 4096) pages p.

(** [while let Some(fz) = fallback]: the chain has at most three zones. *)
Fixpoint fallback_loop (fuel : nat) (try : MemoryZone -> FibonacciPmm -> FibonacciPmm * option Z)
  (fb : option MemoryZone) (p : FibonacciPmm) : FibonacciPmm * option Z :=
  match fuel with
  | O => (p, None)
  | S fuel' =>
      match fb with
      | None => (p, None)
      | Some fz =>
          match try fz p with
          | (p', Some frame) => (p', Some frame)
          | (p', None) => fallback_loop fuel' try (fallback fz) p'
          end
      end
  end.
Definition with_fallback (try : MemoryZone -> FibonacciPmm -> FibonacciPmm * option Z)
  (z : MemoryZone) (p : FibonacciPmm) : FibonacciPmm * option Z :=
  match try z p with
  | (p', Some frame) => (p', Some frame)
  | (p', None) => fallback_loop 3 try (fallback z) p'
  end.

Definition allocate_from_zone (z : MemoryZone) (p : FibonacciPmm) : FibonacciPmm * option Z :=
  with_fallback try_allocate_zone z p.
Definition allocate_contiguous_from_zone (pages : Z) (z : MemoryZone) (p : FibonacciPmm)
  : FibonacciPmm * option Z :=
  if pages =? 0 then (p, None) else with_fallback (try_allocate_contiguous_zone pages) z p.
Definition allocate_frame (p : FibonacciPmm) : FibonacciPmm * option Z := allocate_from_zone Normal p.
Definition allocate_contiguous (pages : Z) (p : FibonacciPmm) : FibonacciPmm * option Z :=
  allocate_contiguous_from_zone pages Normal p.

(** ** Release and statistics *)
Definition uncharge (z : MemoryZone) (pages : Z) (p : FibonacciPmm) : FibonacciPmm :=
  mkPmm (regions p) (region_count p) (total_frames p) (sat_sub (used_frames p) pages)
    (zone_total p) (alter (fun v => sat_sub v pages) (zone_idx z) (zone_used p)).
Fixpoint release_loop (idxs : list nat) (addr pages : Z) (p : FibonacciPmm) : FibonacciPmm :=
  match idxs with
  | [] => p
  | index :: rest =>
      match regions p !! index with
      | Some (Some region) =>
          if (start region <=? addr) && (addr <? u64_add (start region) (size region)) then
            uncharge (zone region) pages
              (set_region index
                 (set_buddy (FibBuddy.deallocate addr (u64_mul pages 4096) (buddy region)) region) p)
          else release_loop rest addr pages p
      | _ => release_loop rest addr pages p
      end
  end.
Definition deallocate_contiguous (start_frame pages : Z) (p : FibonacciPmm) : FibonacciPmm :=
  if pages =? 0 then p else release_loop (seq 0 (region_count p)) start_frame pages p.

Definition free_frames (p : FibonacciPmm) : Z := sat_sub (total_frames p) (used_frames p).
Definition zone_stats (z : MemoryZone) (p : FibonacciPmm) : Z * Z * Z :=
  let total := default 0 (zone_total p !! zone_idx z) in
  let used := default 0 (zone_used p !! zone_idx z) in
  (total, used, sat_sub total used).

(** ** Invariants *)
Definition zone_limit (z : MemoryZone) : Z :=
  match z with Dma => ZONE_DMA_LIMIT | Dma32 => ZONE_DMA32_LIMIT | Normal => u64_max end.
Definition region_wf (r : RegionAllocator) : Prop :=
  FibBuddy.region_ok (start r) (start r + size r) /\ start r mod 4096 = 0 /\
  start r + size r <= zone_limit (zone r) /\
  FibBuddy.inv (start r) (start r + size r) (buddy r).
Definition pmm_wf (p : FibonacciPmm) : Prop :=
  length (regions p) = MAX_PMM_REGIONS /\ (region_count p <= MAX_PMM_REGIONS)%nat /\
  forall i r, regions p !! i = Some (Some r) -> region_wf r.
Definition region_cover (x : Z) (o : option RegionAllocator) : Z :=
  match o with Some r => FibBuddy.cover x (FibBuddy.free_lists (buddy r)) | None => 0 end.
(** How many free blocks of the whole manager contain byte [x]. *)
Definition pmm_cover (x : Z) (p : FibonacciPmm) : Z := sumZ (region_cover x) (regions p).

(** ** Updating one region *)
Lemma set_region_wf i r r' p : pmm_wf p -> regions p !! i = Some (Some r) -> region_wf r' ->
  pmm_wf (set_region i r' p).
Proof.
  intros (H1 & H2 & H3) Hi Hr. split_and!; simpl; [by rewrite length_insert|done|].
  intros j q Hj. apply list_lookup_insert_Some in Hj as [(_ & ? & _)|[_ Hj]]; [by simplify_eq|eauto].
Qed.
Lemma set_region_cover x i r r' p : regions p !! i = Some (Some r) ->
  pmm_cover x (set_region i r' p) = pmm_cover x p - region_cover x (Some r) + region_cover x (Some r').
Proof. intros Hi. unfold pmm_cover. simpl regions. by rewrite (sumZ_insert _ _ _ _ (Some r)). Qed.
Lemma set_region_id i r p : regions p !! i = Some (Some r) -> set_region i (set_buddy (buddy r) r) p = p.
Proof.
  intros Hi. destruct p, r; unfold set_region, set_buddy; simpl in *. by rewrite list_insert_id.
Qed.

(** A block of [n] whole pages handed out from zone [z]. *)
Definition frame_ok (z : MemoryZone) (f n : Z) : Prop :=
  0 <= f /\ f mod 4096 = 0 /\ f + n * 4096 <= zone_limit z.
(** Some region of zone [z] has a free block for [sz] bytes. *)
Definition can_serve (z : MemoryZone) (sz : Z) (idxs : list nat) (p : FibonacciPmm) : Prop :=
  exists i r, i ∈ idxs /\ regions p !! i = Some (Some r) /\ zone r = z /\
    (FibBuddy.allocate sz (buddy r)).2 <> None.
(** What an allocation attempt promises. *)
Definition served (z : MemoryZone) (n : Z) (p : FibonacciPmm) (out : FibonacciPmm * option Z) : Prop :=
  match out with
  | (p', Some f) => pmm_wf p' /\ region_count p' = region_count p /\ frame_ok z f n /\
      forall x, pmm_cover x p' + FibBuddy.ind x f n <= pmm_cover x p
  | (p', None) => p' = p
  end.

Lemma try_regions_spec z sz pages idxs : forall p, pmm_wf p ->
  served z (FibBuddy.fib (FibBuddy.target sz)) p (try_regions idxs z sz pages p) /\
  ((try_regions idxs z sz pages p).2 <> None <-> can_serve z sz idxs p).
Proof.
  induction idxs as [|i idxs IH]; intros p Hp; cbn [try_regions].
  { split; [done|]. split; [done|]. intros (j & r & Hj & _). by apply elem_of_nil in Hj. }
  assert (forall o, regions p !! i = o -> (forall r, o = Some (Some r) -> zone r = z ->
            (FibBuddy.allocate sz (buddy r)).2 = None) ->
          (can_serve z sz (i :: idxs) p <-> can_serve z sz idxs p)) as Hskip.
  { intros o Ho Hn. split; intros (j & r & Hj & Hr & Hz & Ha); exists j, r; split_and!; auto; [|by right].
    apply elem_of_cons in Hj as [->|Hj]; [|done]. exfalso. apply Ha, Hn; congruence. }
  destruct (regions p !! i) as [[r|]|] eqn:Hi.
  - destruct (IH p Hp) as [IH1 IH2]. case_bool_decide as Hz.
    2: { rewrite (Hskip _ eq_refl) by (intros; simplify_eq). auto. }
    pose proof Hp as (_ & _ & Hreg). destruct (Hreg _ _ Hi) as (Hok & Hal & Hlim & Hinv).
    pose proof (FibBuddy.allocate_spec _ _ sz (buddy r) Hok Hinv) as Ha.
    destruct (FibBuddy.allocate sz (buddy r)) as [b [addr|]] eqn:E.
    + destruct Ha as (Hb & (Ha1 & Ha2 & Ha3) & Hc). set (n := FibBuddy.fib (FibBuddy.target sz)) in *.
      assert (1 <= n) by apply FibBuddy.fib_pos, FibBuddy.find_fib_index_lt.
      destruct Hok as [Hs0 Hs1]. unfold PAGE_SIZE in *.
      assert (addr mod 4096 = 0) as Hm by (clear -Ha3 Hal; Z.div_mod_to_equations; lia).
      assert (page_of addr = addr) as Hpg by (apply page_of_id; [split; unfold u64_mod; lia|done]).
      split.
      * split_and!.
        -- refine (_ : pmm_wf (set_region i (set_buddy b r) p)). eapply set_region_wf; [done..|].
           split_and!; simpl; [split; lia|done..].
        -- done.
        -- rewrite Hpg. split_and!; [lia|done|]. rewrite <-Hz. lia.
        -- intros x. change (pmm_cover x (charge _ _ ?q)) with (pmm_cover x q).
           rewrite (set_region_cover _ _ _ _ _ Hi), Hpg. simpl. specialize (Hc x). lia.
      * split; [|done]. intros _. exists i, r. split_and!; auto; [by left|by rewrite E].
    + subst b. rewrite set_region_id by done. split; [done|].
      rewrite (Hskip _ eq_refl); [done|]. intros r' ? _. simplify_eq. by rewrite E.
  - rewrite (Hskip _ eq_refl) by done. auto.
  - rewrite (Hskip _ eq_refl) by done. auto.
Qed.

(** ** The fallback chain *)
Definition chain (z : MemoryZone) : list MemoryZone :=
  match z with Normal => [Normal; Dma32; Dma] | Dma32 => [Dma32; Dma] | Dma => [Dma] end.
Fixpoint first_zone (try : MemoryZone -> FibonacciPmm -> FibonacciPmm * option Z)
  (zs : list MemoryZone) (p : FibonacciPmm) : FibonacciPmm * option Z :=
  match zs with
  | [] => (p, None)
  | z :: zs' => match try z p with (p', Some f) => (p', Some f) | (p', None) => first_zone try zs' p' end
  end.
Lemma with_fallback_chain try z p : with_fallback try z p = first_zone try (chain z) p.
Proof.
  unfold with_fallback. destruct z; cbn;
    repeat match goal with |- context [match try ?a ?q with _ => _ end] => destruct (try a q) as [? [?|]] end;
    reflexivity.
Qed.
Lemma zone_limit_chain z w : w ∈ chain z -> zone_limit w <= zone_limit z.
Proof. destruct z; cbn; intros Hw; repeat (apply elem_of_cons in Hw as [->|Hw]; [vm_compute; discriminate|]); by apply elem_of_nil in Hw. Qed.
Lemma first_zone_spec try n z zs p :
  (forall w, w ∈ zs -> zone_limit w <= zone_limit z) ->
  (forall w, served w n p (try w p)) -> served z n p (first_zone try zs p).
Proof.
  intros Hz Ht. induction zs as [|w zs IH]; simpl; [done|].
  specialize (Ht w) as Hw. destruct (try w p) as [p' [f|]]; simpl in Hw |- *.
  - destruct Hw as (H1 & Hcnt & (H2 & H3 & H4) & H5). split_and!; auto. split_and!; auto.
    etrans; [done|]. apply Hz. by left.
  - subst p'. apply IH. intros v Hv. apply Hz. by right.
Qed.

(** The size class of a request for [pages] pages. *)
Definition class_pages (pages : Z) : Z := FibBuddy.fib (FibBuddy.target (u64_mul pages 4096)).
Lemma class_pages_ge pages : 1 <= pages <= 3524578 -> pages <= class_pages pages.
Proof.
  intros Hp. unfold class_pages, FibBuddy.target. rewrite u64_mul_small by (unfold u64_mod; lia).
  destruct (FibBuddy.find_fib_index_spec pages) as [H _]; [lia|].
  replace (FibBuddy.pages_of (pages * 4096)) with pages; [done|].
  unfold FibBuddy.pages_of, PAGE_SIZE. rewrite u64_add_small by (unfold u64_mod; lia).
  rewrite u64_sub_small by (unfold u64_mod; lia). Z.div_mod_to_equations; lia.
Qed.

Lemma contiguous_served pages z p : pmm_wf p ->
  served z (class_pages pages) p (allocate_contiguous_from_zone pages z p).
Proof.
  intros Hp. unfold allocate_contiguous_from_zone. destruct (pages =? 0); [done|].
  rewrite with_fallback_chain. apply first_zone_spec; [apply zone_limit_chain|].
  intros w. by apply try_regions_spec.
Qed.
Lemma frame_served z p : pmm_wf p -> served z 1 p (allocate_from_zone z p).
Proof.
  intros Hp. unfold allocate_from_zone. rewrite with_fallback_chain.
  apply first_zone_spec; [apply zone_limit_chain|]. intros w.
  change 1 with (FibBuddy.fib (FibBuddy.target 4096)). by apply try_regions_spec.
Qed.

(** ** Initialisation *)
(** Slots from [region_count] on are still unused. *)
Definition tail_free (p : FibonacciPmm) : Prop :=
  forall i r, regions p !! i = Some (Some r) -> (i < region_count p)%nat.
Definition fresh (p : FibonacciPmm) : Prop := pmm_wf p /\ tail_free p.

Lemma add_region_fresh r p : fresh p -> (region_count p < MAX_PMM_REGIONS)%nat -> region_wf r ->
  fresh (add_region r p) /\ forall x, pmm_cover x (add_region r p) = pmm_cover x p + region_cover x (Some r).
Proof.
  intros [(H1 & H2 & H3) Ht] Hc Hr.
  assert (regions p !! region_count p = Some None) as Hn.
  { destruct (regions p !! region_count p) as [[q|]|] eqn:E; [|done|].
    - apply Ht in E. lia.
    - apply lookup_ge_None in E. lia. }
  split.
  - split; [split_and!; simpl; [by rewrite length_insert|lia|]|]; intros i q Hi; simpl in Hi;
      apply list_lookup_insert_Some in Hi as [(<- & ? & _)|[_ Hi]]; simplify_eq; simpl; eauto; try lia.
    apply Ht in Hi. lia.
  - intros x. unfold pmm_cover. simpl regions. rewrite (sumZ_insert _ _ _ _ None) by done.
    simpl region_cover. lia.
Qed.

Fixpoint bounds_ok (lb : Z) (bs : list Z) : Prop :=
  match bs with
  | [] => True
  | b :: rest => (forall c, lb <= c < b -> b <= zone_limit (from_addr c)) /\
      (b mod 4096 = 0 \/ 2 ^ 52 <= b) /\ bounds_ok b rest
  end.
Lemma BOUNDARIES_ok : bounds_ok 0 BOUNDARIES.
Proof.
  unfold BOUNDARIES; cbn [bounds_ok].
  split_and!; [|left; reflexivity| |left; reflexivity| |right; vm_compute; discriminate|done];
    intros c Hc; unfold from_addr.
  - by rewrite (proj2 (Z.ltb_lt c ZONE_DMA_LIMIT)) by lia.
  - rewrite (proj2 (Z.ltb_ge c ZONE_DMA_LIMIT)) by lia. by rewrite (proj2 (Z.ltb_lt c ZONE_DMA32_LIMIT)) by lia.
  - rewrite (proj2 (Z.ltb_ge c ZONE_DMA32_LIMIT)) by lia.
    by rewrite (proj2 (Z.ltb_ge c ZONE_DMA_LIMIT)) by (unfold ZONE_DMA_LIMIT, ZONE_DMA32_LIMIT in *; lia).
Qed.

Lemma chunk_loop_spec pe : pe <= 2 ^ 52 -> pe mod 4096 = 0 -> forall bs lb cursor p,
  bounds_ok lb bs -> (lb <= cursor \/ pe <= cursor) -> 0 <= cursor -> cursor mod 4096 = 0 -> fresh p ->
  fresh (chunk_loop bs cursor pe p).1 /\
  forall x, pmm_cover x (chunk_loop bs cursor pe p).1 <=
    pmm_cover x p + FibBuddy.ind x cursor (Z.max 0 (pe - cursor) / 4096).
Proof.
  intros Hpe Hpa. induction bs as [|b bs IH]; intros lb cursor p Hb Hlb Hc0 Hca Hp; cbn [chunk_loop].
  { split; [done|]. intros x. pose proof (FibBuddy.ind_range x cursor (Z.max 0 (pe - cursor) / 4096)). simpl. lia. }
  assert (forall x, 0 <= FibBuddy.ind x cursor (Z.max 0 (pe - cursor) / 4096)) as Hi0
    by (intros; apply FibBuddy.ind_range).
  destruct Hb as (Hlim & Hba & Hrest).
  destruct (pe <=? cursor) eqn:E1; simplify_bool.
  { split; [done|]. intros x. specialize (Hi0 x). simpl. lia. }
  destruct (Z.min pe b <=? cursor) eqn:E2; simplify_bool.
  { apply (IH b); auto. left. lia. }
  set (ce := Z.min pe b) in *.
  assert (ce mod 4096 = 0) as Hce by (subst ce; destruct Hba; [|replace (Z.min pe b) with pe by lia; done];
    destruct (Z.min_spec pe b) as [[_ ->]|[_ ->]]; done).
  destruct (MAX_PMM_REGIONS <=? region_count p)%nat eqn:E3.
  { split; [done|]. intros x. specialize (Hi0 x). simpl. lia. }
  apply Nat.leb_gt in E3. set (r := mkRegion _ _ _ _).
  destruct (FibBuddy.new_spec cursor (ce - cursor)) as [Hinv Hcov]; try lia.
  assert (region_wf r) as Hr.
  { split_and!; simpl; [split; lia|done| |done].
    replace (cursor + (ce - cursor)) with ce by lia. etrans; [|apply Hlim]; lia. }
  destruct (add_region_fresh r p Hp E3 Hr) as [Hf Hcr].
  destruct (IH b ce (add_region r p)) as [H1 H2]; auto; [lia|lia|].
  split; [done|]. intros x. specialize (H2 x). rewrite Hcr in H2. specialize (Hcov x).
  change (region_cover x (Some r) <= FibBuddy.ind x cursor ((ce - cursor) / 4096)) in Hcov.
  assert (Z.max 0 (pe - cursor) / 4096 = (ce - cursor) / 4096 + Z.max 0 (pe - ce) / 4096) as ->
    by (clear -Hce Hca Hpa E1 E2; Z.div_mod_to_equations; lia).
  rewrite FibBuddy.ind_split by (Z.div_mod_to_equations; lia).
  replace (cursor + (ce - cursor) / 4096 * PAGE_SIZE) with ce
    by (unfold PAGE_SIZE; clear -Hce Hca; Z.div_mod_to_equations; lia).
  lia.
Qed.

Definition desc_ok (d : MemoryDescriptor) : Prop :=
  0 <= phys_start d /\ phys_start d mod 4096 = 0 /\ 0 <= page_count d /\
  phys_start d + page_count d * 4096 <= 2 ^ 52.
Definition map_cover (x : Z) (m : list MemoryDescriptor) : Z :=
  sumZ (fun d => FibBuddy.ind x (phys_start d) (page_count d)) m.

Lemma map_cover_nonneg x m : 0 <= map_cover x m.
Proof. apply sumZ_nonneg. intros d. apply FibBuddy.ind_range. Qed.
Lemma init_loop_spec m : Forall desc_ok m -> forall p, fresh p ->
  fresh (init_loop m p) /\ forall x, pmm_cover x (init_loop m p) <= pmm_cover x p + map_cover x m.
Proof.
  induction 1 as [|d m (H0 & Ha & Hc & He) Hm IH]; intros p Hp; cbn [init_loop].
  { split; [done|]. intros x. unfold map_cover; simpl. lia. }
  assert (forall x, map_cover x (d :: m) = FibBuddy.ind x (phys_start d) (page_count d) + map_cover x m) as Hmc by done.
  pose proof (fun x => FibBuddy.ind_range x (phys_start d) (page_count d)) as Hi.
  destruct (negb _ || _).
  { destruct (IH p Hp) as [H1 H2]. split; [done|]. intros x. rewrite Hmc. specialize (H2 x). specialize (Hi x). lia. }
  rewrite (u64_mul_small (page_count d)), u64_add_small by (unfold u64_mod; lia).
  destruct (chunk_loop_spec (phys_start d + page_count d * 4096) He) with (bs := BOUNDARIES) (lb := 0)
    (cursor := phys_start d) (p := p) as [H1 H2]; auto using BOUNDARIES_ok.
  { clear -Ha. Z.div_mod_to_equations; lia. }
  assert (Z.max 0 (phys_start d + page_count d * 4096 - phys_start d) / 4096 = page_count d) as Heq
    by (clear -Hc; Z.div_mod_to_equations; lia). rewrite Heq in H2.
  destruct (chunk_loop _ _ _ p) as [p' [|]]; simpl in H1, H2.
  - split; [done|]. intros x. specialize (H2 x). rewrite Hmc. pose proof (map_cover_nonneg x m). lia.
  - destruct (IH p' H1) as [H3 H4]. split; [done|]. intros x. rewrite Hmc. specialize (H2 x). specialize (H4 x). lia.
Qed.
Lemma empty_fresh : fresh empty.
Proof.
  split; [split_and!; [done|simpl; lia|]|]; intros i r Hi; simpl in Hi;
    apply (lookup_replicate_1 MAX_PMM_REGIONS None) in Hi as [? _]; done.
Qed.
Lemma pmm_init_spec m : Forall desc_ok m ->
  pmm_wf (init m) /\ forall x, pmm_cover x (init m) <= map_cover x m.
Proof.
  intros Hm. destruct (init_loop_spec m Hm empty empty_fresh) as [[H1 _] H2].
  split; [done|]. intros x. specialize (H2 x). by replace (pmm_cover x empty) with 0 in H2 by done.
Qed.

(** ** Sequences of requests *)
Inductive request := Frame (z : MemoryZone) | Contig (pages : Z) (z : MemoryZone).
Definition serve (r : request) (p : FibonacciPmm) : FibonacciPmm * option Z :=
  match r with Frame z => allocate_from_zone z p | Contig n z => allocate_contiguous_from_zone n z p end.
Definition req_zone (r : request) : MemoryZone := match r with Frame z | Contig _ z => z end.
Definition req_pages (r : request) : Z := match r with Frame _ => 1 | Contig n _ => n end.
(** The pages really set aside for a request: its Fibonacci size class. *)
Definition req_class (r : request) : Z := match r with Frame _ => 1 | Contig n _ => class_pages n end.
Fixpoint run (reqs : list request) (p : FibonacciPmm) : FibonacciPmm * list (request * Z) :=
  match reqs with
  | [] => (p, [])
  | r :: rest =>
      let '(p1, f) := serve r p in
      let '(p2, out) := run rest p1 in
      (p2, match f with Some a => (r, a) :: out | None => out end)
  end.
Definition held (x : Z) (out : list (request * Z)) : Z :=
  sumZ (fun '(r, a) => FibBuddy.ind x a (req_class r)) out.

Lemma serve_spec r p : pmm_wf p -> served (req_zone r) (req_class r) p (serve r p).
Proof. destruct r; simpl; auto using frame_served, contiguous_served. Qed.
Lemma run_spec reqs : forall p, pmm_wf p ->
  Forall (fun '(r, a) => frame_ok (req_zone r) a (req_class r)) (run reqs p).2 /\
  forall x, pmm_cover x (run reqs p).1 + held x (run reqs p).2 <= pmm_cover x p.
Proof.
  induction reqs as [|r reqs IH]; intros p Hp; cbn [run].
  { split; [constructor|]. intros x. unfold held; simpl. lia. }
  pose proof (serve_spec r p Hp) as Hs. destruct (serve r p) as [p1 [a|]]; simpl in Hs.
  - destruct Hs as (H1 & _ & H2 & H3). destruct (IH p1 H1) as [H4 H5].
    destruct (run reqs p1) as [p2 out]; simpl in *. split; [by constructor|].
    intros x. specialize (H3 x). specialize (H5 x). unfold held in *. simpl. lia.
  - subst p1. destruct (IH p Hp) as [H4 H5]. by destruct (run reqs p) as [p2 out].
Qed.
Lemma req_class_pos r : 1 <= req_class r.
Proof. destruct r; simpl; [lia|]. apply FibBuddy.fib_pos, FibBuddy.find_fib_index_lt. Qed.
Lemma pmm_cover_nonneg x p : 0 <= pmm_cover x p.
Proof. apply sumZ_nonneg. intros [r|]; simpl; [apply FibBuddy.cover_nonneg|lia]. Qed.

(** C2: Zone safety.  For every memory map whose descriptors start at page
    boundaries and end at or below 2^52, after any requests, a frame or a
    contiguous range of 1 to 3524578 pages (the largest size class; larger requests
    are cut short, see [FibBuddy.buddy_oversize_shortened]) handed out for a zone is page
    aligned and ends at or below the limit of that zone (16 MiB for DMA, 4 GiB
    for DMA32), fallback included. *)
Theorem pmm_zone_respected m reqs r a :
  Forall desc_ok m -> 1 <= req_pages r <= 3524578 ->
  (r, a) ∈ (run reqs (init m)).2 ->
  0 <= a /\ a mod 4096 = 0 /\ a + req_pages r * 4096 <= zone_limit (req_zone r).
Proof.
  intros Hm Hr Hin. destruct (pmm_init_spec m Hm) as [Hw _]. destruct (run_spec reqs _ Hw) as [Hf _].
  rewrite Forall_forall in Hf. destruct (Hf _ Hin) as (H1 & H2 & H3). split_and!; auto.
  assert (req_pages r <= req_class r) by (destruct r; simpl in *; [lia|by apply class_pages_ge]). lia.
Qed.

Definition sample_map : list MemoryDescriptor :=
  [mkDesc 7 0x100000 256; mkDesc 2 0x200000 16; mkDesc 7 0xFFF000 4; mkDesc 7 0x100000000 64].
Lemma sample_map_ok : Forall desc_ok sample_map.
Proof. repeat constructor; vm_compute; discriminate. Qed.
Lemma pmm_zone_respected_witness :
  (Contig 3 Dma32, 0x100000) ∈ (run [Frame Dma32; Contig 3 Dma32] (init sample_map)).2 /\
  0x100000 + req_pages (Contig 3 Dma32) * 4096 <= zone_limit (req_zone (Contig 3 Dma32)).
Proof.
  assert ((Contig 3 Dma32, 0x100000) ∈ (run [Frame Dma32; Contig 3 Dma32] (init sample_map)).2) as H.
  { apply list_elem_of_lookup. exists 1%nat. vm_compute. reflexivity. }
  split; [exact H|].
  apply (pmm_zone_respected sample_map [Frame Dma32; Contig 3 Dma32] (Contig 3 Dma32) 0x100000).
  - apply sample_map_ok.
  - simpl; lia.
  - exact H.
Defined.

(** C1: Exclusive ownership.  If the descriptors of the memory map do not
    overlap, the ranges handed out by any sequence of requests, in any zones,
    are pairwise disjoint. *)
Theorem pmm_frames_disjoint m reqs i j r a r' a' :
  Forall desc_ok m -> (forall x, map_cover x m <= 1) ->
  (run reqs (init m)).2 !! i = Some (r, a) -> (run reqs (init m)).2 !! j = Some (r', a') -> i <> j ->
  a + req_class r * PAGE_SIZE <= a' \/ a' + req_class r' * PAGE_SIZE <= a.
Proof.
  intros Hm Hd Hi Hj Hij. destruct (pmm_init_spec m Hm) as [Hw Hc]. destruct (run_spec reqs _ Hw) as [_ Hs].
  apply FibBuddy.ind_disjoint; [apply req_class_pos..|]. set (x := Z.max a a').
  specialize (Hd x). specialize (Hc x). specialize (Hs x).
  pose proof (pmm_cover_nonneg x (run reqs (init m)).1).
  pose proof (sumZ_two (fun '(q, b) => FibBuddy.ind x b (req_class q)) _ i j (r, a) (r', a')
     (fun '(q, b) => proj1 (FibBuddy.ind_range _ b (req_class q))) Hij Hi Hj) as Ht.
  fold (held x (run reqs (init m)).2) in Ht. cbn beta iota in Ht. lia.
Qed.

Lemma sample_map_cover x : map_cover x sample_map <= 1.
Proof. unfold map_cover, sample_map, FibBuddy.ind, PAGE_SIZE; simpl. repeat case_decide; lia. Qed.
Lemma pmm_frames_disjoint_witness :
  let out := (run [Frame Dma32; Contig 3 Dma32] (init sample_map)).2 in
  out = [(Frame Dma32, 0x1000000); (Contig 3 Dma32, 0x100000)] /\
  (0x1000000 + 1 * PAGE_SIZE <= 0x100000 \/ 0x100000 + 3 * PAGE_SIZE <= 0x1000000).
Proof.
  split; [vm_compute; reflexivity|].
  apply (pmm_frames_disjoint sample_map [Frame Dma32; Contig 3 Dma32] 0 1 (Frame Dma32) 0x1000000
           (Contig 3 Dma32) 0x100000 sample_map_ok sample_map_cover);
    [vm_compute; reflexivity..|discriminate].
Defined.

(** The fallback chain.  A contiguous request is refused exactly when it is
    empty or no region of any zone of the chain (NORMAL, DMA32, DMA from the
    requested zone down) has a block for it, and a zone is tried only when
    every zone before it in the chain has failed, so the first zone able to
    serve does. *)
Theorem pmm_fallback_complete pages z p :
  pmm_wf p -> pages <> 0 ->
  let n := seq 0 (region_count p) in
  let sz := u64_mul pages 4096 in
  ((allocate_contiguous_from_zone pages z p).2 = None <-> forall w, w ∈ chain z -> ~ can_serve w sz n p) /\
  (forall pre w post, chain z = pre ++ w :: post -> (forall v, v ∈ pre -> ~ can_serve v sz n p) ->
     can_serve w sz n p ->
     allocate_contiguous_from_zone pages z p = try_allocate_contiguous_zone pages w p).
Proof.
  intros Hp Hn n sz. unfold allocate_contiguous_from_zone. rewrite (proj2 (Z.eqb_neq _ _) Hn).
  rewrite with_fallback_chain.
  assert (forall w, served w (class_pages pages) p (try_allocate_contiguous_zone pages w p) /\
    ((try_allocate_contiguous_zone pages w p).2 <> None <-> can_serve w sz n p)) as Ht
    by (intros; by apply try_regions_spec).
  split.
  - induction (chain z) as [|w zs IH]; simpl; [split; [|done]; intros _ w Hw; by apply elem_of_nil in Hw|].
    destruct (Ht w) as [Hs Hc]. destruct (try_allocate_contiguous_zone pages w p) as [p' [f|]]; simpl in *.
    + split; [done|]. intros H. exfalso. apply (H w); [by left|]. by apply Hc.
    + subst p'. rewrite IH. split; intros H v Hv; [|apply H; by right].
      apply elem_of_cons in Hv as [->|Hv]; [|auto]. intros Hcs. by apply Hc in Hcs.
  - intros pre w post ->. induction pre as [|v pre IH]; simpl; intros Hpre Hw.
    + destruct (Ht w) as [_ Hc]. destruct (try_allocate_contiguous_zone pages w p) as [p' [f|]]; [done|].
      by apply Hc in Hw.
    + destruct (Ht v) as [Hs Hc]. destruct (try_allocate_contiguous_zone pages v p) as [p' [f|]]; simpl in *.
      * exfalso. apply (Hpre v); [by left|]. by apply Hc.
      * subst p'. apply IH; [|done]. intros u Hu. apply Hpre. by right.
Qed.

Lemma pmm_fallback_complete_witness :
  allocate_contiguous_from_zone 3 Normal (init sample_map) =
  try_allocate_contiguous_zone 3 Normal (init sample_map).
Proof.
  apply (proj2 (pmm_fallback_complete 3 Normal (init sample_map) (proj1 (pmm_init_spec _ sample_map_ok))
           ltac:(discriminate)) [] Normal [Dma32; Dma]).
  - reflexivity.
  - intros v Hv. by apply elem_of_nil in Hv.
  - exists 3%nat. destruct (regions (init sample_map) !! 3%nat) as [[r|]|] eqn:E; [|exfalso; revert E; vm_compute; discriminate..].
    exists r. split; [apply elem_of_seq; vm_compute; lia|]. split; [done|].
    assert (Some (zone r, (FibBuddy.allocate (u64_mul 3 4096) (buddy r)).2) = Some (Normal, Some 0x100000000)) as Hr.
    { transitivity (q ← regions (init sample_map) !! 3%nat; r ← q;
        Some (zone r, (FibBuddy.allocate (u64_mul 3 4096) (buddy r)).2)); [by rewrite E|].
      vm_compute. reflexivity. }
    injection Hr as -> ->. split; [done|discriminate].
Defined.

End FibPmm.
