(* ===== verification/Cgroup.v ===== *)
(** * Memory control groups

    Models [src/src/memory/cgroup.rs].  A [MemoryCgroup] is a shared mutable
    object (mutexes and atomics behind [&self]), and [get_cgroup] hands out a
    clone of it, so the model keeps an explicit store of objects: the manager
    maps identifiers to locations, and a clone is a fresh location.  Page
    reclaim ([memory::reclaim_pages]) is the parameter [reclaim_pages]; the OOM
    killer's calls are recorded.  [MemoryStats], which this file only copies,
    is left out. *)

From S2P Require Import Prelude.

Module Cgroup.

Definition MEMORY_LIMIT_UNLIMITED : Z := u64_max.

Record MemoryEvents := mkEvents {
  low : Z; high : Z; max : Z; oom : Z; oom_kill : Z; oom_group_kill : Z
}.
Definition no_events : MemoryEvents := mkEvents 0 0 0 0 0 0.

Record MemoryCgroup := mkCgroup {
  id : Z; name : string; parent : option Z;
  children : list Z; processes : list Z;
  limit : Z; usage : Z; peak_usage : Z; soft_limit : Z; swap_limit : Z; swap_usage : Z;
  oom_score_adj : Z; oom_kill_enable : bool; events : MemoryEvents; is_root : bool
}.
Definition new (i : Z) (nm : string) (p : option Z) (root : bool) : MemoryCgroup :=
  mkCgroup i nm p [] [] MEMORY_LIMIT_UNLIMITED 0 0 MEMORY_LIMIT_UNLIMITED MEMORY_LIMIT_UNLIMITED 0
    0 true no_events root.

Definition with_children (f : list Z -> list Z) (c : MemoryCgroup) : MemoryCgroup :=
  mkCgroup (id c) (name c) (parent c) (f (children c)) (processes c) (limit c) (usage c) (peak_usage c)
    (soft_limit c) (swap_limit c) (swap_usage c) (oom_score_adj c) (oom_kill_enable c) (events c) (is_root c).
Definition with_processes (f : list Z -> list Z) (c : MemoryCgroup) : MemoryCgroup :=
  mkCgroup (id c) (name c) (parent c) (children c) (f (processes c)) (limit c) (usage c) (peak_usage c)
    (soft_limit c) (swap_limit c) (swap_usage c) (oom_score_adj c) (oom_kill_enable c) (events c) (is_root c).
Definition with_usage (u pk : Z) (c : MemoryCgroup) : MemoryCgroup :=
  mkCgroup (id c) (name c) (parent c) (children c) (processes c) (limit c) u pk
    (soft_limit c) (swap_limit c) (swap_usage c) (oom_score_adj c) (oom_kill_enable c) (events c) (is_root c).
Definition with_limit (l : Z) (c : MemoryCgroup) : MemoryCgroup :=
  mkCgroup (id c) (name c) (parent c) (children c) (processes c) l (usage c) (peak_usage c)
    (soft_limit c) (swap_limit c) (swap_usage c) (oom_score_adj c) (oom_kill_enable c) (events c) (is_root c).
Definition with_events (f : MemoryEvents -> MemoryEvents) (c : MemoryCgroup) : MemoryCgroup :=
  mkCgroup (id c) (name c) (parent c) (children c) (processes c) (limit c) (usage c) (peak_usage c)
    (soft_limit c) (swap_limit c) (swap_usage c) (oom_score_adj c) (oom_kill_enable c) (f (events c)) (is_root c).

Inductive CgroupError := NotFound | ParentNotFound | NotEmpty | HasChildren | MemoryLimitExceeded | PermissionDenied.
Abbreviation result A := (CgroupError + A)%type.

Record world := mkWorld {
  heap : gmap Z MemoryCgroup;
  next_loc : Z;
  cgroups : gmap Z Z;
  next_id : Z;
  root_id : Z;
  proc_to_cgroup : gmap Z Z;
  kills : list (string * list Z)
}.
Definition boot : world := mkWorld ∅ 0 ∅ 1 0 ∅ [].

(** Allocate an object; update the object at a location. *)
Definition alloc (c : MemoryCgroup) (w : world) : world * Z :=
  (mkWorld (<[next_loc w := c]> (heap w)) (next_loc w + 1) (cgroups w) (next_id w) (root_id w)
     (proc_to_cgroup w) (kills w), next_loc w).
Definition upd (l : Z) (f : MemoryCgroup -> MemoryCgroup) (w : world) : world :=
  mkWorld (alter f l (heap w)) (next_loc w) (cgroups w) (next_id w) (root_id w) (proc_to_cgroup w) (kills w).
Definition set_cgroups (m : gmap Z Z) (w : world) : world :=
  mkWorld (heap w) (next_loc w) m (next_id w) (root_id w) (proc_to_cgroup w) (kills w).
Definition set_procs (m : gmap Z Z) (w : world) : world :=
  mkWorld (heap w) (next_loc w) (cgroups w) (next_id w) (root_id w) m (kills w).
Definition set_next_id (i : Z) (w : world) : world :=
  mkWorld (heap w) (next_loc w) (cgroups w) i (root_id w) (proc_to_cgroup w) (kills w).
Definition set_root_id (i : Z) (w : world) : world :=
  mkWorld (heap w) (next_loc w) (cgroups w) (next_id w) i (proc_to_cgroup w) (kills w).
Definition log_kill (k : string * list Z) (w : world) : world :=
  mkWorld (heap w) (next_loc w) (cgroups w) (next_id w) (root_id w) (proc_to_cgroup w) (k :: kills w).

(** ** The manager *)
Definition init (w : world) : world :=
  let '(w1, l) := alloc (new 0 "/" None true) w in
  set_root_id 0 (set_cgroups (<[0 := l]> (cgroups w1)) w1).

Definition create_cgroup (nm : string) (parent_id : Z) (w : world) : world * result Z :=
  let i := next_id w in
  let w1 := set_next_id (u64_add i 1) w in
  match cgroups w1 !! parent_id with
  | None => (w1, inl ParentNotFound)
  | Some pl =>
      let w2 := upd pl (with_children (fun ch => ch ++ [i])) w1 in
      let '(w3, l) := alloc (new i nm (Some parent_id) false) w2 in
      (set_cgroups (<[i := l]> (cgroups w3)) w3, inr i)
  end.

Definition remove_cgroup (i : Z) (w : world) : world * result unit :=
  match cgroups w !! i ≫= (fun l => heap w !! l) with
  | Some c =>
      if (0 <? length (processes c))%nat then (w, inl NotEmpty)
      else if (0 <? length (children c))%nat then (w, inl HasChildren)
      else
        let w1 := match parent c ≫= (fun p => cgroups w !! p) with
                  | Some pl => upd pl (with_children (filter (fun x => x <> i))) w
                  | None => w
                  end in
        (set_cgroups (delete i (cgroups w1)) w1, inr tt)
  | None => (set_cgroups (delete i (cgroups w)) w, inr tt)
  end.

(** [get(&id).cloned()] *)
Definition get_cgroup (i : Z) (w : world) : world * option Z :=
  match cgroups w !! i ≫= (fun l => heap w !! l) with
  | Some c => let '(w1, l) := alloc c w in (w1, Some l)
  | None => (w, None)
  end.

(** ** Operations on one object *)
Definition add_process (l pid : Z) (w : world) : world :=
  upd l (with_processes (fun ps => if bool_decide (pid ∈ ps) then ps else ps ++ [pid])) w.
Definition remove_process (l pid : Z) (w : world) : world :=
  upd l (with_processes (filter (fun p => p <> pid))) w.
Definition uncharge (l bytes : Z) (w : world) : world :=
  upd l (fun c => with_usage (sat_sub (usage c) bytes) (peak_usage c) c) w.
Definition trigger_oom (l : Z) (w : world) : world :=
  let w1 := upd l (with_events (fun e => mkEvents (low e) (high e) (max e) (u64_add (oom e) 1)
                                          (u64_add (oom_kill e) 1) (oom_group_kill e))) w in
  match heap w1 !! l with Some c => log_kill (name c, processes c) w1 | None => w1 end.

Section Reclaim.
(** Pages freed by [memory::reclaim_pages] for a target number of pages. *)
Context (reclaim_pages : Z -> Z).

Definition try_reclaim (needed : Z) : bool := 0 <? reclaim_pages (Z.max (needed / 4096) 16).

(** The parent chain is followed by identifier; a parent is older than its
    child, so one step of fuel per identifier is enough. *)
Fixpoint charge_loop (fuel : nat) (l bytes : Z) (w : world) : world * result unit :=
  match fuel with
  | O => (w, inr tt)
  | S fuel' =>
      match heap w !! l with
      | None => (w, inr tt)
      | Some c =>
          let new_usage := u64_add (usage c) bytes in
          if negb (limit c =? MEMORY_LIMIT_UNLIMITED) && (limit c <? new_usage) then
            let w1 := upd l (with_events (fun e => mkEvents (low e) (high e) (u64_add (max e) 1) (oom e)
                                                    (oom_kill e) (oom_group_kill e))) w in
            if try_reclaim bytes then (w1, inr tt)
            else (if oom_kill_enable c then trigger_oom l w1 else w1, inl MemoryLimitExceeded)
          else
            let pk := if peak_usage c <? new_usage then new_usage else peak_usage c in
            let w1 := upd l (with_usage new_usage pk) w in
            match parent c with
            | Some parent_id =>
                match get_cgroup parent_id w1 with
                | (w2, Some pl) => ((charge_loop fuel' pl bytes w2).1, inr tt)
                | (w2, None) => (w2, inr tt)
                end
            | None => (w1, inr tt)
            end
      end
  end.
Definition charge (l bytes : Z) (w : world) : world * result unit :=
  charge_loop (S (Z.to_nat (default 0 (id <$> heap w !! l)))) l bytes w.

Definition set_limit (l lim : Z) (w : world) : world :=
  (* the result of the reclaim attempt is ignored *)
  upd l (with_limit lim) w.

(** First half of [move_process]: leave the old group. *)
Definition leave_old (pid : Z) (w : world) : world :=
  match proc_to_cgroup w !! pid with
  | Some old_id => match get_cgroup old_id w with
                   | (w', Some l) => remove_process l pid w'
                   | (w', None) => w'
                   end
  | None => w
  end.
Definition move_process (pid cgroup_id : Z) (w : world) : world * result unit :=
  match get_cgroup cgroup_id (leave_old pid w) with
  | (w2, None) => (w2, inl NotFound)
  | (w2, Some l) =>
      let w3 := add_process l pid w2 in
      (set_procs (<[pid := cgroup_id]> (proc_to_cgroup w3)) w3, inr tt)
  end.

Definition get_cgroup_for_process (pid : Z) (w : world) : option Z := proc_to_cgroup w !! pid.

Definition charge_process (pid bytes : Z) (w : world) : world * result unit :=
  match get_cgroup (default 0 (get_cgroup_for_process pid w)) w with
  | (w1, Some l) => charge l bytes w1
  | (w1, None) => (w1, inr tt)
  end.
Definition uncharge_process (pid bytes : Z) (w : world) : world :=
  match get_cgroup (default 0 (get_cgroup_for_process pid w)) w with
  | (w1, Some l) => uncharge l bytes w1
  | (w1, None) => w1
  end.

(** ** Histories *)
Inductive op :=
| Create (nm : string) (parent_id : Z)
| Remove (i : Z)
| Move (pid i : Z)
| Charge (pid bytes : Z)
| Uncharge (pid bytes : Z)
| SetLimit (i lim : Z).   (* [get_cgroup(i)], then [set_limit] on what it returns *)
Definition step (o : op) (w : world) : world :=
  match o with
  | Create nm p => (create_cgroup nm p w).1
  | Remove i => (remove_cgroup i w).1
  | Move pid i => (move_process pid i w).1
  | Charge pid b => (charge_process pid b w).1
  | Uncharge pid b => uncharge_process pid b w
  | SetLimit i lim => match get_cgroup i w with (w1, Some l) => set_limit l lim w1 | (w1, None) => w1 end
  end.
Definition run (ops : list op) (w : world) : world := foldl (fun w o => step o w) w ops.

End Reclaim.

(** The object registered under [i]. *)
Definition stored (w : world) (i : Z) : option MemoryCgroup := cgroups w !! i ≫= (fun l => heap w !! l).

(** ** What an operation on a clone leaves alone *)
(** [w'] has the registrations of [w] and its objects below location [n]. *)
Definition frame (n : Z) (w w' : world) : Prop :=
  cgroups w' = cgroups w /\ next_id w' = next_id w /\ next_loc w <= next_loc w' /\
  forall l, l < n -> heap w' !! l = heap w !! l.
#[export] Instance frame_preorder n : PreOrder (frame n).
Proof.
  split.
  - intros w. by split_and!.
  - intros w1 w2 w3 (A1 & A2 & A3 & A4) (B1 & B2 & B3 & B4). split_and!; [congruence..|lia|].
    intros l Hl. rewrite B4, A4; auto.
Qed.

Lemma alloc_frame n c w : n <= next_loc w -> frame n w (alloc c w).1.
Proof. intros H. split_and!; simpl; [done..|lia|]. intros l Hl. by rewrite lookup_insert_ne by lia. Qed.
Lemma upd_frame n l f w : n <= l -> frame n w (upd l f w).
Proof. intros H. split_and!; simpl; [done..|]. intros k Hk. by rewrite lookup_alter_ne by lia. Qed.
Lemma log_kill_frame n k w : frame n w (log_kill k w).
Proof. by split_and!. Qed.
Lemma trigger_oom_frame n l w : n <= l -> frame n w (trigger_oom l w).
Proof. intros H. unfold trigger_oom. etrans; [by apply upd_frame|]. case_match; [apply log_kill_frame|done]. Qed.
Lemma get_cgroup_frame n i w : n <= next_loc w ->
  frame n w (get_cgroup i w).1 /\ n <= next_loc (get_cgroup i w).1 /\
  (forall l, (get_cgroup i w).2 = Some l -> n <= l).
Proof.
  intros H. unfold get_cgroup. destruct (_ ≫= _) as [c|]; simpl.
  - split_and!; [by apply (alloc_frame n c)|lia|]. intros l [= <-]. done.
  - by split_and!.
Qed.
Lemma charge_loop_frame rp n fuel : forall l b w, n <= l -> n <= next_loc w ->
  frame n w (charge_loop rp fuel l b w).1.
Proof.
  induction fuel as [|fuel IH]; intros l b w Hl Hn; cbn [charge_loop]; [done|].
  destruct (heap w !! l) as [c|]; [|done]. destruct (_ && _).
  - destruct (try_reclaim rp b); simpl; [by apply upd_frame|].
    etrans; [by apply (upd_frame n l)|]. destruct (oom_kill_enable c); [by apply trigger_oom_frame|done].
  - match goal with |- context [upd l ?f w] => set (w1 := upd l f w) end.
    assert (frame n w w1) as H1 by by apply upd_frame.
    assert (n <= next_loc w1) as Hn1 by done.
    destruct (parent c) as [pid|]; [|done].
    destruct (get_cgroup_frame n pid w1 Hn1) as (H2 & H3 & H4).
    destruct (get_cgroup pid w1) as [w2 [pl|]]; simpl in *; [|by etrans].
    etrans; [done|]. etrans; [done|]. apply IH; auto.
Qed.

(** ** The registered objects *)
Definition locs_ok (w : world) : Prop :=
  (forall i l, cgroups w !! i = Some l -> l < next_loc w /\ is_Some (heap w !! l)) /\
  (forall i j l, cgroups w !! i = Some l -> cgroups w !! j = Some l -> i = j).

Lemma stored_frame w w' : locs_ok w -> frame (next_loc w) w w' ->
  locs_ok w' /\ forall i, stored w' i = stored w i.
Proof.
  intros [Hl Hi] (H1 & H2 & H3 & H4). unfold locs_ok, stored. rewrite H1. split; [split; [|done]|].
  - intros i l E. destruct (Hl _ _ E) as [Hlt Hs]. split; [lia|]. by rewrite H4.
  - intros i. destruct (cgroups w !! i) as [l|] eqn:E; [|done]. simpl. apply H4. by eapply Hl.
Qed.
Lemma stored_upd w p pl f : locs_ok w -> cgroups w !! p = Some pl ->
  locs_ok (upd pl f w) /\
  forall j, stored (upd pl f w) j = if decide (j = p) then f <$> stored w j else stored w j.
Proof.
  intros [Hl Hi] Hp. split; [split; [|done]|].
  - intros i l E. destruct (Hl _ _ E) as [Hlt [c Hs]]. split; [done|]. simpl.
    destruct (decide (pl = l)) as [->|]; [rewrite lookup_alter_eq, Hs|rewrite lookup_alter_ne, Hs by done]; by eexists.
  - intros j. unfold stored; simpl. case_decide as Hj; subst.
    + rewrite Hp; simpl. by rewrite lookup_alter_eq.
    + destruct (cgroups w !! j) as [l|] eqn:E; [|done]. simpl. rewrite lookup_alter_ne; [done|].
      intros ->. apply Hj. by eapply Hi.
Qed.
Lemma stored_add w i c : locs_ok w ->
  let w' := set_cgroups (<[i := next_loc w]> (cgroups w)) (alloc c w).1 in
  locs_ok w' /\ forall j, stored w' j = if decide (j = i) then Some c else stored w j.
Proof.
  intros [Hl Hi] w'. split; [split|].
  - intros j l E. simpl in *. apply lookup_insert_Some in E as [[<- <-]|[Hj E]].
    + split; [lia|]. rewrite lookup_insert_eq. by eexists.
    + destruct (Hl _ _ E) as [Hlt Hs]. split; [lia|]. by rewrite lookup_insert_ne by lia.
  - intros j k l Ej Ek. simpl in *.
    apply lookup_insert_Some in Ej as [[<- <-]|[Hj Ej]], Ek as [[<- E]|[Hk Ek]]; auto.
    + apply Hl in Ek as [??]. lia.
    + subst. apply Hl in Ej as [??]. lia.
    + by eapply Hi.
  - intros j. unfold stored; simpl. case_decide as Hj; subst.
    + rewrite lookup_insert_eq; simpl. by rewrite lookup_insert_eq.
    + rewrite lookup_insert_ne by done. destruct (cgroups w !! j) as [l|] eqn:E; [|done]. simpl.
      rewrite lookup_insert_ne; [done|]. apply Hl in E as [??]. lia.
Qed.
Lemma stored_del w i : locs_ok w ->
  let w' := set_cgroups (delete i (cgroups w)) w in
  locs_ok w' /\ forall j, stored w' j = if decide (j = i) then None else stored w j.
Proof.
  intros [Hl Hi] w'. split; [split|].
  - intros j l E. simpl in *. apply lookup_delete_Some in E as [_ E]. eauto.
  - intros j k l Ej Ek. simpl in *. apply lookup_delete_Some in Ej as [_ Ej], Ek as [_ Ek]. eauto.
  - intros j. unfold stored; simpl. case_decide; subst; [by rewrite lookup_delete_eq|by rewrite lookup_delete_ne].
Qed.
Lemma stored_cgroups w i : locs_ok w -> cgroups w !! i = None <-> stored w i = None.
Proof.
  intros [Hl _]. unfold stored. destruct (cgroups w !! i) as [l|] eqn:E; simpl; [|done].
  destruct (Hl _ _ E) as [_ [c ->]]. done.
Qed.

(** ** The hierarchy *)
Record tree_ok (S : Z -> option MemoryCgroup) (N : Z) : Prop := {
  t_id : forall i c, S i = Some c -> id c = i /\ 0 <= i < N;
  t_parent : forall i c p, S i = Some c -> parent c = Some p ->
    p < i /\ exists pc, S p = Some pc /\ i ∈ children pc;
  t_children : forall i c j, S i = Some c -> j ∈ children c ->
    exists cc, S j = Some cc /\ parent cc = Some i;
  t_nodup : forall i c, S i = Some c -> NoDup (children c)
}.
Lemma tree_ok_ext S S' N N' : (forall i, S' i = S i) -> N <= N' -> tree_ok S N -> tree_ok S' N'.
Proof.
  intros He HN [H1 H2 H3 H4]. split; intros *; rewrite He; intros.
  - destruct (H1 i c); [done|]. split; [done|lia].
  - destruct (H2 i c p) as (? & pc & ? & ?); [done..|]. split; [done|]. exists pc. by rewrite He.
  - destruct (H3 i c j) as (cc & ? & ?); [done..|]. exists cc. by rewrite He.
  - eauto.
Qed.

Lemma tree_create S N p pc nm S' : tree_ok S N -> S p = Some pc -> 0 <= N ->
  (forall j, S' j = if decide (j = N) then Some (new N nm (Some p) false)
                    else if decide (j = p) then with_children (fun ch => ch ++ [N]) <$> S j else S j) ->
  tree_ok S' (N + 1).
Proof.
  intros [H1 H2 H3 H4] Hp HN HS. destruct (H1 _ _ Hp) as [Hpid Hpl].
  assert (S N = None) as HSN by (destruct (S N) eqn:E; [apply H1 in E; lia|done]).
  assert (forall j c, S j = Some c -> exists c', S' j = Some c' /\ id c' = id c /\ parent c' = parent c /\
            forall x, x ∈ children c -> x ∈ children c') as Hup.
  { intros j c Hj. rewrite HS. rewrite decide_False by congruence.
    case_decide; subst; rewrite Hj; simpl; eexists; split_and!; eauto. intros x Hx; simpl. apply elem_of_app; by left. }
  assert (forall j c', S' j = Some c' -> j <> N -> exists c, S j = Some c /\ id c' = id c /\ parent c' = parent c /\
            (children c' = children c \/ (j = p /\ children c' = children c ++ [N]))) as Hdn.
  { intros j c' Hj HjN. rewrite HS, decide_False in Hj by done. case_decide; subst; [|by eauto 6].
    rewrite Hp in Hj. simplify_eq/=. eauto 7. }
  assert (S' N = Some (new N nm (Some p) false)) as HN' by (by rewrite HS, decide_True).
  assert (forall j, j ∈ children pc -> j < N) as Hlt.
  { intros j Hj. destruct (H3 _ _ _ Hp Hj) as (cc & Hcc & _). apply H1 in Hcc. lia. }
  split.
  - intros i c Hi. destruct (decide (i = N)) as [->|Hne]; [rewrite HN' in Hi; simplify_eq/=; split; [done|lia]|].
    destruct (Hdn _ _ Hi Hne) as (c0 & Hc0 & E & _). destruct (H1 _ _ Hc0). split; [congruence|lia].
  - intros i c q Hi Hq. destruct (decide (i = N)) as [->|Hne].
    + rewrite HN' in Hi. simplify_eq/=. split; [lia|].
      exists (with_children (fun ch => ch ++ [N]) pc). rewrite HS, decide_False, decide_True, Hp by lia.
      split; [done|]. simpl. apply elem_of_app; right. by apply list_elem_of_singleton.
    + destruct (Hdn _ _ Hi Hne) as (c0 & Hc0 & _ & E & _). rewrite E in Hq.
      destruct (H2 _ _ _ Hc0 Hq) as (Hlt' & qc & Hqc & Hin). split; [done|].
      destruct (Hup _ _ Hqc) as (qc' & ? & _ & _ & Hsub). eauto.
  - intros i c j Hi Hj. destruct (decide (i = N)) as [->|Hne].
    { rewrite HN' in Hi. simplify_eq/=. by apply elem_of_nil in Hj. }
    destruct (Hdn _ _ Hi Hne) as (c0 & Hc0 & _ & _ & [E|[-> E]]); rewrite E in Hj;
      [|apply elem_of_app in Hj as [Hj| ->%list_elem_of_singleton]; [|by eauto]];
      destruct (H3 _ _ _ Hc0 Hj) as (cc & Hcc & Hpc); destruct (Hup _ _ Hcc) as (cc' & ? & _ & E' & _);
      exists cc'; split; [done|congruence|done|congruence].
  - intros i c Hi. destruct (decide (i = N)) as [->|Hne].
    { rewrite HN' in Hi. simplify_eq/=. constructor. }
    destruct (Hdn _ _ Hi Hne) as (c0 & Hc0 & _ & _ & [->|[-> ->]]); [eauto|].
    assert (c0 = pc) as -> by congruence. apply NoDup_app. split_and!; [eauto| |apply NoDup_singleton].
    intros x Hx Hx'. apply list_elem_of_singleton in Hx' as ->. apply Hlt in Hx. lia.
Qed.

Lemma tree_remove S N i ci S' : tree_ok S N -> S i = Some ci -> children ci = [] ->
  (forall j, S' j = if decide (j = i) then None
                    else if decide (parent ci = Some j) then with_children (filter (fun x => x <> i)) <$> S j else S j) ->
  tree_ok S' N.
Proof.
  intros [H1 H2 H3 H4] Hi Hch HS.
  assert (forall j c, S j = Some c -> j <> i -> exists c', S' j = Some c' /\ id c' = id c /\ parent c' = parent c /\
            forall x, x ∈ children c -> x <> i -> x ∈ children c') as Hup.
  { intros j c Hj Hne. rewrite HS, decide_False by done.
    case_decide; rewrite Hj; simpl; eexists; split_and!; eauto.
    intros x Hx Hxi; simpl. by apply list_elem_of_filter. }
  assert (forall j c', S' j = Some c' -> j <> i /\ exists c, S j = Some c /\ id c' = id c /\ parent c' = parent c /\
            (forall x, x ∈ children c' -> x ∈ children c) /\ (parent ci = Some j -> i ∉ children c') /\
            (NoDup (children c) -> NoDup (children c'))) as Hdn.
  { intros j c' Hj. rewrite HS in Hj. case_decide as Hji; [done|]. split; [done|].
    destruct (S j) as [c|] eqn:Ej; [|by case_decide]. exists c.
    case_decide as Hpj; simplify_eq/=; split_and!; auto; try done.
    - intros x Hx. by apply list_elem_of_filter in Hx as [_ ?].
    - intros _ Hx. by apply list_elem_of_filter in Hx as [? _].
    - apply NoDup_filter. }
  split.
  - intros j c Hj. destruct (Hdn _ _ Hj) as (_ & c0 & Hc0 & E & _). rewrite E. eauto.
  - intros j c q Hj Hq. destruct (Hdn _ _ Hj) as (Hji & c0 & Hc0 & _ & E & _). rewrite E in Hq.
    destruct (H2 _ _ _ Hc0 Hq) as (Hlt & qc & Hqc & Hin). split; [done|].
    assert (q <> i) as Hqi by (intros ->; simplify_eq; rewrite Hch in Hin; by apply elem_of_nil in Hin).
    destruct (Hup _ _ Hqc Hqi) as (qc' & ? & _ & _ & Hsub). eauto.
  - intros j c k Hj Hk. destruct (Hdn _ _ Hj) as (Hji & c0 & Hc0 & _ & _ & Hsub & Hni & _).
    destruct (H3 _ _ _ Hc0 (Hsub _ Hk)) as (cc & Hcc & Hpc).
    assert (k <> i) as Hki by (intros ->; apply Hni; [congruence|done]).
    destruct (Hup _ _ Hcc Hki) as (cc' & ? & _ & E & _). exists cc'. split; [done|congruence].
  - intros j c Hj. destruct (Hdn _ _ Hj) as (_ & c0 & Hc0 & _ & _ & _ & _ & Hnd). eauto.
Qed.

(** A registered object as [new] made it, child list aside. *)
Definition inert (c : MemoryCgroup) : Prop :=
  usage c = 0 /\ limit c = MEMORY_LIMIT_UNLIMITED /\ processes c = [].
Definition good (w : world) : Prop :=
  locs_ok w /\ tree_ok (stored w) (next_id w) /\ 1 <= next_id w /\
  forall i c, stored w i = Some c -> inert c.

Lemma good_frame w w' : good w -> frame (next_loc w) w w' -> good w' /\ next_id w' = next_id w.
Proof.
  intros (H1 & H2 & H3 & H4) Hf. destruct (stored_frame _ _ H1 Hf) as [H5 H6].
  destruct Hf as (_ & Hid & _ & _). split; [|done]. split_and!; [done| |by rewrite Hid|].
  - rewrite Hid. by eapply tree_ok_ext; [|reflexivity|].
  - intros i c. rewrite H6. apply H4.
Qed.
Lemma good_init : good (init boot).
Proof.
  assert (locs_ok boot) as H0 by (split; intros *; simpl; by rewrite lookup_empty).
  destruct (stored_add boot 0 (new 0 "/" None true) H0) as [H1 H2].
  assert (forall j, stored (init boot) j = if decide (j = 0) then Some (new 0 "/" None true) else None) as HS.
  { intros j. change (stored (init boot) j) with
      (stored (set_cgroups (<[0 := next_loc boot]> (cgroups boot)) (alloc (new 0 "/" None true) boot).1) j).
    rewrite H2. by case_decide. }
  split_and!; [exact H1| |simpl; lia|].
  - split; intros i c; rewrite HS; case_decide; intros; simplify_eq/=; try done; try constructor; try lia.
    by match goal with H : _ ∈ [] |- _ => apply elem_of_nil in H end.
  - intros i c. rewrite HS. case_decide; intros; simplify_eq. by split_and!.
Qed.
Lemma good_create nm p w : good w -> next_id w < u64_max ->
  good (create_cgroup nm p w).1 /\ next_id (create_cgroup nm p w).1 = next_id w + 1.
Proof.
  intros (H1 & H2 & H3 & H4) Hid. unfold create_cgroup.
  rewrite u64_add_small by (unfold u64_max in *; lia).
  set (w1 := set_next_id (next_id w + 1) w). change (cgroups w1) with (cgroups w).
  destruct (cgroups w !! p) as [pl|] eqn:Hp.
  2: { split; [|done]. split_and!; [done| |simpl; lia|done]. eapply tree_ok_ext; [..|done]; [done|simpl; lia]. }
  destruct (stored_upd w1 p pl (with_children (fun ch => ch ++ [next_id w])) H1 Hp) as [H5 H6].
  set (w2 := upd pl _ w1) in *.
  destruct (stored_add w2 (next_id w) (new (next_id w) nm (Some p) false) H5) as [H7 H8].
  split; [|done]. cbn [fst]. split_and!; [exact H7| |simpl; lia|].
  - destruct (stored w p) as [pc|] eqn:Hpc; [|apply stored_cgroups in Hpc; [congruence|done]].
    eapply (tree_create (stored w) (next_id w) p pc nm); [done..|lia|].
    intros j. etrans; [apply H8|]. case_decide; [done|]. apply H6.
  - intros i c Hi. change (stored (set_cgroups (<[next_id w := next_loc w2]> (cgroups w2))
      (alloc (new (next_id w) nm (Some p) false) w2).1) i = Some c) in Hi.
    rewrite H8 in Hi. case_decide; [simplify_eq; by split_and!|]. rewrite H6 in Hi.
    change (stored w1 i) with (stored w i) in Hi.
    case_decide; [|by eauto]. destruct (stored w i) as [c0|] eqn:E; simplify_eq/=.
    destruct (H4 _ _ E) as (?&?&?). by split_and!.
Qed.
Lemma good_remove i w : good w ->
  good (remove_cgroup i w).1 /\ next_id (remove_cgroup i w).1 = next_id w.
Proof.
  intros (H1 & H2 & H3 & H4). unfold remove_cgroup. fold (stored w i).
  destruct (stored w i) as [c|] eqn:Hi.
  2: { destruct (stored_del w i H1) as [H5 H6]. split; [|done].
       assert (forall j, stored (set_cgroups (delete i (cgroups w)) w) j = stored w j) as He
         by (intros j; rewrite H6; case_decide; congruence).
       split_and!; [done| |done|]; simpl; [by eapply tree_ok_ext; [|reflexivity|]|].
       intros j c. rewrite He. apply H4. }
  destruct (0 <? length (processes c))%nat; [by split|].
  destruct (0 <? length (children c))%nat eqn:Hlen; [by split|].
  apply Nat.ltb_ge in Hlen. assert (children c = []) as Hch by (destruct (children c); simpl in *; [done|lia]).
  set (w1 := match _ with Some _ => _ | None => w end).
  assert (locs_ok w1 /\ next_id w1 = next_id w /\
    forall j, stored w1 j = if decide (parent c = Some j) then with_children (filter (fun x => x <> i)) <$> stored w j
                            else stored w j) as (H5 & Hid & H6).
  { subst w1. destruct (parent c) as [p|] eqn:Hp; simpl.
    2: { split_and!; try done. }
    destruct (t_parent _ _ H2 _ _ _ Hi Hp) as (_ & pc & Hpc & _).
    destruct (cgroups w !! p) as [pl|] eqn:Hpl; [|apply stored_cgroups in Hpl; [congruence|done]].
    destruct (stored_upd w p pl (with_children (filter (fun x => x <> i))) H1 Hpl) as [H5 H6].
    split_and!; [done|done|]. intros j. rewrite H6. repeat case_decide; congruence. }
  clearbody w1. destruct (stored_del w1 i H5) as [H7 H8]. cbn [fst]. split; [|done].
  split_and!; [done| |simpl; lia|].
  - simpl. rewrite Hid. eapply (tree_remove (stored w) (next_id w) i c); [done..|].
    intros j. rewrite H8. case_decide; [done|]. apply H6.
  - intros j c' Hj. rewrite H8 in Hj. case_decide; [done|]. rewrite H6 in Hj. case_decide; [|by eauto].
    destruct (stored w j) as [c0|] eqn:E; simplify_eq/=. destruct (H4 _ _ E) as (?&?&?). by split_and!.
Qed.

(** The remaining operations only touch clones. *)
Lemma step_clone_frame rp o w :
  match o with Create _ _ | Remove _ => True | _ => frame (next_loc w) w (step rp o w) end.
Proof.
  destruct o as [| |pid i|pid b|pid b|i lim]; auto; cbn [step].
  - unfold move_process. set (w1 := leave_old pid w).
    assert (frame (next_loc w) w w1 /\ next_loc w <= next_loc w1) as [H1 Hn1].
    { subst w1. unfold leave_old. destruct (proc_to_cgroup w !! pid) as [old|]; [|by split].
      destruct (get_cgroup_frame (next_loc w) old w) as (H & Hn & Hl); [done|].
      destruct (get_cgroup old w) as [w' [l|]]; simpl in *; [|by split].
      split; [|done]. etrans; [done|]. apply upd_frame; auto. }
    clearbody w1. destruct (get_cgroup_frame (next_loc w) i w1 Hn1) as (H2 & Hn2 & Hl).
    destruct (get_cgroup i w1) as [w2 [l|]]; simpl in *; [|by etrans].
    etrans; [done|]. etrans; [done|]. apply (upd_frame (next_loc w) l); auto.
  - unfold charge_process. destruct (get_cgroup_frame (next_loc w) (default 0 (get_cgroup_for_process pid w)) w)
      as (H & Hn & Hl); [done|]. destruct (get_cgroup _ w) as [w1 [l|]]; simpl in *; [|done].
    etrans; [done|]. apply charge_loop_frame; auto.
  - unfold uncharge_process. destruct (get_cgroup_frame (next_loc w) (default 0 (get_cgroup_for_process pid w)) w)
      as (H & Hn & Hl); [done|]. destruct (get_cgroup _ w) as [w1 [l|]]; simpl in *; [|done].
    etrans; [done|]. apply upd_frame; auto.
  - destruct (get_cgroup_frame (next_loc w) i w) as (H & Hn & Hl); [done|].
    destruct (get_cgroup i w) as [w1 [l|]]; simpl in *; [|done]. etrans; [done|]. apply upd_frame; auto.
Qed.
Lemma good_step rp o w : good w -> next_id w < u64_max ->
  good (step rp o w) /\ next_id (step rp o w) <= next_id w + 1.
Proof.
  intros Hg Hid. pose proof (step_clone_frame rp o w) as Hf.
  destruct o; cbn [step] in *;
    [destruct (good_create nm parent_id w Hg Hid); split; [done|lia]
    |destruct (good_remove i w Hg); split; [done|lia]
    |destruct (good_frame _ _ Hg Hf); split; [done|lia]..].
Qed.
Lemma good_run rp ops : forall w, good w -> next_id w + Z.of_nat (length ops) <= u64_max ->
  good (run rp ops w).
Proof.
  induction ops as [|o ops IH]; intros w Hg Hb; [done|]. simpl in *.
  destruct (good_step rp o w Hg) as [H1 H2]; [lia|]. apply IH; [done|lia].
Qed.

(** The cgroup hierarchy stays a tree.  After any history of creations,
    removals, moves, charges, uncharges and limit changes, every registered
    group has the identifier it is registered under, its parent is registered,
    older and lists it exactly once among its children, and every listed child
    is registered with this group as its parent. *)
Theorem cg_tree_invariant rp ops i c :
  1 + Z.of_nat (length ops) <= u64_max ->
  let S := stored (run rp ops (init boot)) in
  S i = Some c ->
  id c = i /\ NoDup (children c) /\
  (forall p, parent c = Some p -> p < i /\ exists pc, S p = Some pc /\ i ∈ children pc) /\
  (forall j, j ∈ children c -> exists cc, S j = Some cc /\ parent cc = Some i).
Proof.
  intros Hn S Hi. destruct (good_run rp ops (init boot) good_init Hn) as (_ & [H1 H2 H3 H4] & _).
  split_and!; eauto. by apply (H1 _ _ Hi).
Qed.
Definition sample_ops : list op :=
  [Create "a" 0; Create "b" 1; Create "c" 1; Move 42 2; SetLimit 2 8192; Charge 42 4096; Remove 3].
Lemma cg_tree_invariant_witness :
  exists c, stored (run (fun _ => 0) sample_ops (init boot)) 2 = Some c /\ parent c = Some 1 /\
    exists pc, stored (run (fun _ => 0) sample_ops (init boot)) 1 = Some pc /\ 2 ∈ children pc.
Proof.
  exists (new 2 "b" (Some 1) false). split; [vm_compute; reflexivity|]. split; [reflexivity|].
  refine (proj2 (proj1 (proj2 (proj2 (cg_tree_invariant (fun _ => 0) sample_ops 2
            (new 2 "b" (Some 1) false) _ _))) 1 eq_refl)).
  - vm_compute. discriminate.
  - vm_compute. reflexivity.
Defined.

(** Charges and limits never reach the registered groups.  [get_cgroup]
    returns a clone, so whatever limits are set and whatever is charged, every
    registered group still has no usage, no limit and no process, and every
    [charge_process] is accepted. *)
Theorem cg_limits_inert rp ops :
  1 + Z.of_nat (length ops) <= u64_max ->
  let w := run rp ops (init boot) in
  (forall i c, stored w i = Some c -> usage c = 0 /\ limit c = MEMORY_LIMIT_UNLIMITED /\ processes c = []) /\
  (forall pid bytes, (charge_process rp pid bytes w).2 = inr tt).
Proof.
  intros Hn w. destruct (good_run rp ops (init boot) good_init Hn) as (_ & _ & _ & H). fold w in H.
  split; [exact H|]. intros pid bytes. unfold charge_process, get_cgroup.
  set (i := default 0 _). fold (stored w i). destruct (stored w i) as [c|] eqn:E; [|done].
  destruct (H _ _ E) as (_ & Hl & _). simpl. unfold charge. simpl. rewrite lookup_insert_eq, Hl.
  simpl. destruct (parent c) as [p|]; [|done]. by destruct (get_cgroup p _) as [w2 [pl|]].
Qed.
Lemma cg_limits_inert_witness :
  (charge_process (fun _ => 0) 42 1000000 (run (fun _ => 0) sample_ops (init boot))).2 = inr tt.
Proof. apply (proj2 (cg_limits_inert (fun _ => 0) sample_ops ltac:(vm_compute; discriminate))). Defined.

(** [charge] on one object, all branches: within the limit the usage grows
    by the charge and the peak follows; above it the charge is refused, or
    accepted without being counted when reclaim freed something, and the
    usage stays. *)
Theorem cg_charge_object rp l bytes w c :
  heap w !! l = Some c -> 0 <= id c -> parent c = None ->
  is_u64 (usage c + bytes) ->
  let '(w', r) := charge rp l bytes w in
  exists c', heap w' !! l = Some c' /\
  if decide (limit c <> MEMORY_LIMIT_UNLIMITED /\ limit c < usage c + bytes) then
    usage c' = usage c /\ peak_usage c' = peak_usage c /\ max (events c') = u64_add (max (events c)) 1 /\
    r = (if try_reclaim rp bytes then inr tt else inl MemoryLimitExceeded)
  else usage c' = usage c + bytes /\ peak_usage c' = Z.max (peak_usage c) (usage c + bytes) /\ r = inr tt.
Proof.
  intros Hl Hid Hp Hb. unfold charge. cbn [charge_loop]. rewrite Hl, Hp, (u64_add_small (usage c)) by exact Hb.
  destruct (negb _ && _) eqn:E; simplify_bool.
  - destruct (decide (limit c <> MEMORY_LIMIT_UNLIMITED /\ limit c < usage c + bytes)) as [_|Hn];
      [|by destruct Hn]. destruct (try_reclaim rp bytes); simpl.
    + eexists. rewrite lookup_alter_eq, Hl. by split_and!.
    + destruct (oom_kill_enable c).
      * unfold trigger_oom; simpl. rewrite !lookup_alter_eq, Hl. simpl. eexists.
        rewrite !lookup_alter_eq, Hl. by split_and!.
      * eexists. simpl. rewrite lookup_alter_eq, Hl. by split_and!.
  - destruct (decide (limit c <> MEMORY_LIMIT_UNLIMITED /\ limit c < usage c + bytes)) as [[H1 H2]|_].
    { apply andb_false_iff in E as [E|E]; simplify_bool; [done|lia]. }
    eexists. simpl. rewrite lookup_alter_eq, Hl. split_and!; [done..| |done]. simpl.
    case_match; simplify_bool; lia.
Qed.
Lemma cg_charge_object_witness :
  exists c', heap (charge (fun _ => 0) 0 8192 (upd 0 (with_limit 4096) (init boot))).1 !! 0 = Some c' /\
    usage c' = 0 /\ (charge (fun _ => 0) 0 8192 (upd 0 (with_limit 4096) (init boot))).2 = inl MemoryLimitExceeded.
Proof.
  pose proof (cg_charge_object (fun _ => 0) 0 8192 (upd 0 (with_limit 4096) (init boot))
    (with_limit 4096 (new 0 "/" None true)) eq_refl ltac:(vm_compute; discriminate) eq_refl
    ltac:(split; vm_compute; [discriminate|reflexivity])) as H.
  destruct (charge _ 0 8192 _) as [w' r]. destruct H as (c' & H1 & H2).
  rewrite decide_True in H2 by (split; [vm_compute; discriminate|vm_compute; reflexivity]).
  exists c'. split; [exact H1|]. split; [exact (proj1 H2)|]. exact (proj2 (proj2 (proj2 H2))).
Defined.

End Cgroup.
