(* ===== verification/FrameCache.v ===== *)
(** * Per-CPU frame caches and the memory manager's frame operations

    Models [src/src/memory/per_cpu_frame_cache.rs] (a 32-entry LIFO cache of
    single frames for each of 64 CPUs, refilled from and drained to the global
    physical memory manager in batches) and
    [MemoryManager::{allocate,deallocate}_contiguous_frames] of
    [src/src/memory/mod.rs] that use it.

    The client is written against the class [FramePool], what the caches need
    of the physical memory manager; [FibPmm] is an instance.  Conservation of
    frames is stated on [logged] pools, which record their traffic. *)

From S2P Require Import Prelude FibBuddy FibPmm Cgroup.

(** ** The interface to the physical memory manager *)
Class FramePool (P : Type) := {
  pool_allocate_frame : P -> P * option Z;
  pool_allocate_contiguous : Z -> P -> P * option Z;
  pool_deallocate_contiguous : Z -> Z -> P -> P
}.
(** A [PhysFrame] is page aligned. *)
Definition is_frame (f : Z) : Prop := is_u64 f /\ f mod 4096 = 0.
Class FramePoolOk (P : Type) `{FramePool P} := {
  pool_frame_ok : forall p p' f, pool_allocate_frame p = (p', Some f) -> is_frame f;
  pool_contiguous_ok : forall p p' n f, pool_allocate_contiguous n p = (p', Some f) -> is_frame f
}.

#[export] Instance fib_pool : FramePool FibPmm.FibonacciPmm := {|
  pool_allocate_frame := FibPmm.allocate_frame;
  pool_allocate_contiguous := FibPmm.allocate_contiguous;
  pool_deallocate_contiguous := FibPmm.deallocate_contiguous
|}.
Lemma try_regions_frame idxs z sz n : forall p p' f,
  FibPmm.try_regions idxs z sz n p = (p', Some f) -> is_frame f.
Proof.
  induction idxs as [|i idxs IH]; intros p p' f H; simpl in H; [done|].
  destruct (FibPmm.regions p !! i) as [[r|]|]; [|by eapply IH..].
  case_bool_decide; [|by eapply IH]. destruct (FibBuddy.allocate sz _) as [b [a|]]; [|by eapply IH].
  injection H as _ <-. apply page_of_frame.
Qed.
Lemma first_zone_frame try zs : (forall z p p' f, try z p = (p', Some f) -> is_frame f) ->
  forall p p' f, FibPmm.first_zone try zs p = (p', Some f) -> is_frame f.
Proof.
  intros Ht. induction zs as [|z zs IH]; intros p p' f H; simpl in H; [done|].
  destruct (try z p) as [q [g|]] eqn:E; [|by eapply IH]. injection H as -> ->. by eapply Ht.
Qed.
#[export] Instance fib_pool_ok : FramePoolOk FibPmm.FibonacciPmm.
Proof.
  split; simpl; intros *; unfold FibPmm.allocate_frame, FibPmm.allocate_from_zone, FibPmm.allocate_contiguous,
    FibPmm.allocate_contiguous_from_zone.
  - rewrite FibPmm.with_fallback_chain. apply first_zone_frame. intros *. apply try_regions_frame.
  - destruct (n =? 0); [done|]. rewrite FibPmm.with_fallback_chain. apply first_zone_frame.
    intros *. apply try_regions_frame.
Qed.

Module FrameCache.

Definition BATCH : nat := 32.
Definition MAX_CPU_COUNT : nat := 64.

(** ** One cache *)
Record PerCpuFrameCache := mkCache { frames : list Z; count : nat }.
Definition cache_new : PerCpuFrameCache := mkCache (replicate BATCH 0) 0.

Definition pop (c : PerCpuFrameCache) : PerCpuFrameCache * option Z :=
  match count c with
  | O => (c, None)
  | S n => (mkCache (frames c) n, Some (default 0 (frames c !! n)))
  end.
Definition push (addr : Z) (c : PerCpuFrameCache) : PerCpuFrameCache * bool :=
  if (BATCH <=? count c)%nat then (c, false)
  else (mkCache (<[count c := addr]> (frames c)) (S (count c)), true).

Abbreviation caches := (list PerCpuFrameCache).
Definition all_new : caches := replicate MAX_CPU_COUNT cache_new.
Definition slot (cpu : nat) (cs : caches) : PerCpuFrameCache := default cache_new (cs !! cpu).

Definition try_alloc (cpu : nat) (cs : caches) : caches * option Z :=
  if (MAX_CPU_COUNT <=? cpu)%nat then (cs, None)
  else let '(c, r) := pop (slot cpu cs) in (<[cpu := c]> cs, page_of <$> r).
Definition try_free (cpu : nat) (addr : Z) (cs : caches) : caches * bool :=
  if (MAX_CPU_COUNT <=? cpu)%nat then (cs, false)
  else let '(c, r) := push addr (slot cpu cs) in (<[cpu := c]> cs, r).

Section Pool.
Context {P : Type} `{FramePool P}.

(** [while filled < BATCH]: [todo] iterations are left, [filled] are done. *)
Fixpoint refill_loop (todo filled : nat) (fr : list Z) (pmm : P) : P * list Z * nat :=
  match todo with
  | O => (pmm, fr, filled)
  | S todo' =>
      match pool_allocate_frame pmm with
      | (pmm', Some frame) => refill_loop todo' (S filled) (<[filled := frame]> fr) pmm'
      | (pmm', None) => (pmm', fr, filled)
      end
  end.
Definition refill (cpu : nat) (cs : caches) (pmm : P) : caches * P :=
  if (MAX_CPU_COUNT <=? cpu)%nat then (cs, pmm)
  else let '(pmm', fr, filled) := refill_loop BATCH 0 (frames (slot cpu cs)) pmm in
       (<[cpu := mkCache fr filled]> cs, pmm').

(** Pop [n] frames, handing each to the global manager. *)
Fixpoint drain_loop (n : nat) (c : PerCpuFrameCache) (pmm : P) : PerCpuFrameCache * P :=
  match n with
  | O => (c, pmm)
  | S n' => match pop c with
            | (c', Some addr) => drain_loop n' c' (pool_deallocate_contiguous (page_of addr) 1 pmm)
            | (c', None) => (c', pmm)
            end
  end.
(** [while cache.count() > keep]: [count - count/2] iterations. *)
Definition drain (cpu : nat) (cs : caches) (pmm : P) : caches * P :=
  if (MAX_CPU_COUNT <=? cpu)%nat then (cs, pmm)
  else let c := slot cpu cs in
       let keep := Nat.div (count c) 2 in
       let '(c', pmm') := drain_loop (count c - keep) c pmm in (<[cpu := c']> cs, pmm').

Fixpoint drain_all_loop (cpus : list nat) (cs : caches) (total : Z) (pmm : P) : caches * P * Z :=
  match cpus with
  | [] => (cs, pmm, total)
  | cpu :: rest =>
      let c := slot cpu cs in
      let '(c', pmm') := drain_loop (count c) c pmm in
      drain_all_loop rest (<[cpu := c']> cs) (u64_add total (Z.of_nat (count c))) pmm'
  end.
Definition drain_all (cs : caches) (pmm : P) : caches * P * Z :=
  drain_all_loop (seq 0 MAX_CPU_COUNT) cs 0 pmm.

(** ** The memory manager's entry points *)
Record MemoryManager := mkMM { pmm : P; cpu_caches : caches; cgroup : Cgroup.world }.

Definition cgroup_uncharge (pid bytes : Z) (w : Cgroup.world) : Cgroup.world :=
  match Cgroup.get_cgroup_for_process pid w with
  | Some cg_id => match Cgroup.get_cgroup cg_id w with
                  | (w', Some cg) => Cgroup.uncharge cg bytes w'
                  | (w', None) => w'
                  end
  | None => w
  end.

Definition allocate_contiguous_frames (cpu : nat) (pages : Z) (m : MemoryManager) : MemoryManager * option Z :=
  if pages =? 1 then
    match try_alloc cpu (cpu_caches m) with
    | (cs, Some frame) => (mkMM (pmm m) cs (cgroup m), Some frame)
    | (cs, None) =>
        let '(cs1, p1) := refill cpu cs (pmm m) in
        let '(cs2, r) := try_alloc cpu cs1 in
        (mkMM p1 cs2 (cgroup m), r)
    end
  else
    let '(p1, r) := pool_allocate_contiguous pages (pmm m) in (mkMM p1 (cpu_caches m) (cgroup m), r).

Definition deallocate_contiguous_frames (cpu : nat) (pid start pages : Z) (m : MemoryManager) : MemoryManager :=
  if pages =? 1 then
    match try_free cpu start (cpu_caches m) with
    | (cs, true) => mkMM (pmm m) cs (cgroup_uncharge pid PAGE_SIZE (cgroup m))
    | (cs, false) =>
        let '(cs1, p1) := drain cpu cs (pmm m) in
        let '(cs2, _) := try_free cpu start cs1 in
        mkMM p1 cs2 (cgroup_uncharge pid PAGE_SIZE (cgroup m))
    end
  else mkMM (pool_deallocate_contiguous start pages (pmm m)) (cpu_caches m)
         (cgroup_uncharge pid (u64_mul pages PAGE_SIZE) (cgroup m)).

End Pool.
Arguments MemoryManager P : clear implicits.

(** ** Logged pools *)
Record logged (P : Type) := mkLogged { inner : P; got : list (Z * Z); gave : list (Z * Z) }.
Arguments mkLogged {P}. Arguments inner {P}. Arguments got {P}. Arguments gave {P}.
Definition log_got {P} (n : Z) (l : logged P) (out : P * option Z) : logged P * option Z :=
  match out with
  | (p, Some f) => (mkLogged p ((f, n) :: got l) (gave l), Some f)
  | (p, None) => (mkLogged p (got l) (gave l), None)
  end.
#[export] Instance logged_pool {P} `{FramePool P} : FramePool (logged P) := {|
  pool_allocate_frame l := log_got 1 l (pool_allocate_frame (inner l));
  pool_allocate_contiguous n l := log_got n l (pool_allocate_contiguous n (inner l));
  pool_deallocate_contiguous f n l :=
    mkLogged (pool_deallocate_contiguous f n (inner l)) (got l) ((f, n) :: gave l)
|}.

(** ** Histories *)
Inductive op :=
| Alloc (cpu : nat) (pages : Z)
| Free (cpu : nat) (pid frame pages : Z)
| DrainAll.

Section Histories.
Context {P : Type} `{FramePoolOk P}.
Implicit Types (l : logged P) (m : MemoryManager (logged P)).

(** One operation; the second component is what the caller received. *)
Definition step (o : op) m : MemoryManager (logged P) * list (Z * Z) :=
  match o with
  | Alloc cpu n => let '(m', r) := allocate_contiguous_frames cpu n m in
                   (m', match r with Some f => [(f, n)] | None => [] end)
  | Free cpu pid f n => (deallocate_contiguous_frames cpu pid f n m, [])
  | DrainAll => let '(cs, l, _) := drain_all (cpu_caches m) (pmm m) in (mkMM l cs (cgroup m), [])
  end.
Definition returned (o : op) : list (Z * Z) := match o with Free _ _ f n => [(f, n)] | _ => [] end.
(** A released frame is a [PhysFrame], on a CPU that has a cache. *)
Definition op_ok (o : op) : Prop :=
  match o with Free cpu _ f _ => (cpu < MAX_CPU_COUNT)%nat /\ is_frame f | _ => True end.
Fixpoint run (ops : list op) m : MemoryManager (logged P) * list (Z * Z) :=
  match ops with
  | [] => (m, [])
  | o :: rest => let '(m1, out1) := step o m in let '(m2, out2) := run rest m1 in (m2, out1 ++ out2)
  end.

(** ** Cache contents *)
Definition live (c : PerCpuFrameCache) : list Z := take (count c) (frames c).
Definition pairs (fs : list Z) : list (Z * Z) := (fun f => (f, 1)) <$> fs.
Definition held (x : Z * Z) (cs : caches) : Z := sumZ (fun c => cnt x (pairs (live c))) cs.
Definition cache_wf (c : PerCpuFrameCache) : Prop :=
  length (frames c) = BATCH /\ (count c <= BATCH)%nat /\ Forall is_frame (live c).
Definition caches_wf (cs : caches) : Prop := length cs = MAX_CPU_COUNT /\ Forall cache_wf cs.

Lemma pairs_app a b : pairs (a ++ b) = pairs a ++ pairs b.
Proof. apply fmap_app. Qed.
Lemma cache_new_wf : cache_wf cache_new.
Proof. split_and!; [done|simpl; unfold BATCH; lia|constructor]. Qed.
Lemma slot_wf cpu cs : caches_wf cs -> cache_wf (slot cpu cs).
Proof.
  intros [_ Hf]. unfold slot. destruct (cs !! cpu) eqn:E; [by eapply Forall_lookup_1|apply cache_new_wf].
Qed.
Lemma slot_insert cpu c cs : caches_wf cs -> (cpu < MAX_CPU_COUNT)%nat -> cache_wf c ->
  caches_wf (<[cpu := c]> cs) /\ slot cpu (<[cpu := c]> cs) = c /\
  forall x, held x (<[cpu := c]> cs) = held x cs - cnt x (pairs (live (slot cpu cs))) + cnt x (pairs (live c)).
Proof.
  intros [Hl Hf] Hc Hw. split_and!.
  - split; [by rewrite length_insert|by apply Forall_insert].
  - unfold slot. by rewrite list_lookup_insert_eq by lia.
  - intros x. unfold slot. destruct (cs !! cpu) as [c0|] eqn:E; [|apply lookup_ge_None in E; lia].
    unfold held. by rewrite (sumZ_insert _ _ _ _ c0).
Qed.

Lemma pop_spec c : cache_wf c ->
  match pop c with
  | (c', Some a) => cache_wf c' /\ live c = live c' ++ [a] /\ is_frame a /\ count c = S (count c')
  | (c', None) => c' = c /\ count c = 0%nat
  end.
Proof.
  intros (Hl & Hc & Hf). unfold pop. destruct (count c) as [|n] eqn:E; [done|].
  destruct (frames c !! n) as [a|] eqn:Ea; [|apply lookup_ge_None in Ea; lia].
  assert (live c = take n (frames c) ++ [a]) as Hlv by (unfold live; rewrite E; by apply take_S_r).
  rewrite Hlv in Hf. apply Forall_app in Hf as [Hf1 Hf2]. split_and!; simpl; [|done|by inversion Hf2|done].
  split_and!; [done|simpl; lia|done].
Qed.
Lemma push_spec a c : cache_wf c -> is_frame a ->
  match push a c with
  | (c', true) => cache_wf c' /\ live c' = live c ++ [a]
  | (c', false) => c' = c /\ count c = BATCH
  end.
Proof.
  intros (Hl & Hc & Hf) Ha. unfold push. destruct (BATCH <=? count c)%nat eqn:E;
    [apply Nat.leb_le in E|apply Nat.leb_gt in E]; [split; [done|lia]|].
  assert (live (mkCache (<[count c:=a]> (frames c)) (S (count c))) = live c ++ [a]) as Hlv.
  { unfold live; simpl. rewrite (take_S_r _ _ a) by (rewrite list_lookup_insert_eq; [done|lia]).
    by rewrite take_insert_ge by lia. }
  split; [|done]. split_and!; simpl; [by rewrite length_insert|lia|]. rewrite Hlv.
  apply Forall_app; split; [done|by constructor].
Qed.
Lemma page_of_isframe a : is_frame a -> page_of a = a.
Proof. intros [??]. by apply page_of_id. Qed.

(** ** Batches *)
Lemma refill_loop_spec todo : forall filled fr l,
  length fr = BATCH -> (filled + todo <= BATCH)%nat -> Forall is_frame (take filled fr) ->
  let '(l', fr', n) := refill_loop todo filled fr l in
  cache_wf (mkCache fr' n) /\ gave l' = gave l /\
  forall x, cnt x (pairs (take n fr')) + cnt x (got l) = cnt x (pairs (take filled fr)) + cnt x (got l').
Proof.
  induction todo as [|todo IH]; intros filled fr l Hl Hb Hf; cbn [refill_loop].
  { split_and!; [|done..]. split_and!; simpl; [done|lia|done]. }
  change (pool_allocate_frame l) with (log_got 1 l (pool_allocate_frame (inner l))).
  destruct (pool_allocate_frame (inner l)) as [p [f|]] eqn:E; cbn [log_got].
  - assert (take (S filled) (<[filled := f]> fr) = take filled fr ++ [f]) as Ht.
    { rewrite (take_S_r _ _ f) by (rewrite list_lookup_insert_eq; [done|lia]). by rewrite take_insert_ge by lia. }
    specialize (IH (S filled) (<[filled := f]> fr) (mkLogged p ((f, 1) :: got l) (gave l))).
    destruct (refill_loop todo (S filled) _ _) as [[l' fr'] n].
    destruct IH as (H1 & H2 & H3).
    + by rewrite length_insert.
    + lia.
    + rewrite Ht. apply Forall_app; split; [done|]. constructor; [by eapply pool_frame_ok|constructor].
    + split_and!; [done..|]. intros x. specialize (H3 x). rewrite Ht, pairs_app, cnt_app in H3.
      simpl got in H3. rewrite cnt_cons in H3. change (pairs [f]) with [(f, 1)] in H3. lia.
  - split_and!; [|done..]. split_and!; simpl; [done|lia|done].
Qed.
Lemma drain_loop_spec n : forall c l, cache_wf c -> (n <= count c)%nat ->
  let '(c', l') := drain_loop n c l in
  cache_wf c' /\ count c' = (count c - n)%nat /\ got l' = got l /\
  forall x, cnt x (pairs (live c')) + cnt x (gave l') = cnt x (pairs (live c)) + cnt x (gave l).
Proof.
  induction n as [|n IH]; intros c l Hc Hn; cbn [drain_loop].
  { split_and!; auto; lia. }
  pose proof (pop_spec c Hc) as Hp. destruct (pop c) as [c1 [a|]]; [|lia].
  destruct Hp as (H1 & H2 & H3 & H4). rewrite (page_of_isframe a H3).
  specialize (IH c1 (pool_deallocate_contiguous a 1 l) H1 ltac:(lia)).
  destruct (drain_loop n c1 _) as [c' l']. destruct IH as (H5 & H6 & H7 & H8).
  split_and!; [done|lia|done|]. intros x. specialize (H8 x). simpl gave in H8. rewrite cnt_cons in H8.
  rewrite H2, pairs_app, cnt_app. change (pairs [a]) with [(a, 1)]. lia.
Qed.

Definition opt (n : Z) (r : option Z) : list (Z * Z) := match r with Some f => [(f, n)] | None => [] end.

Lemma try_alloc_spec cpu cs : caches_wf cs ->
  let '(cs', r) := try_alloc cpu cs in
  caches_wf cs' /\ (forall x, held x cs' + cnt x (opt 1 r) = held x cs) /\
  (r = None -> (cpu < MAX_CPU_COUNT)%nat -> count (slot cpu cs') = 0%nat).
Proof.
  intros Hw. unfold try_alloc. destruct (MAX_CPU_COUNT <=? cpu)%nat eqn:E.
  { apply Nat.leb_le in E. split_and!; [done|intros x; cbn [opt]; rewrite cnt_nil; lia|lia]. }
  apply Nat.leb_gt in E. pose proof (pop_spec _ (slot_wf cpu cs Hw)) as Hp.
  destruct (pop (slot cpu cs)) as [c [a|]].
  - destruct Hp as (H1 & H2 & H3 & _). destruct (slot_insert cpu c cs Hw E H1) as (H4 & H5 & H6).
    split_and!; [done| |done]. intros x. rewrite H6, H2, pairs_app, cnt_app. simpl.
    rewrite (page_of_isframe a H3). change (pairs [a]) with [(a, 1)]. lia.
  - destruct Hp as [-> H2]. destruct (slot_insert cpu _ cs Hw E (slot_wf cpu cs Hw)) as (H4 & H5 & H6).
    split_and!; [done| |by rewrite H5]. intros x. rewrite H6. cbn [opt fmap option_fmap option_map]. rewrite cnt_nil. lia.
Qed.
Lemma try_free_spec cpu a cs : caches_wf cs -> (cpu < MAX_CPU_COUNT)%nat -> is_frame a ->
  let '(cs', r) := try_free cpu a cs in
  caches_wf cs' /\ (forall x, held x cs' = held x cs + cnt x (if r then [(a, 1)] else [])) /\
  (r = false -> count (slot cpu cs) = BATCH /\ slot cpu cs' = slot cpu cs).
Proof.
  intros Hw E Ha. unfold try_free. rewrite (proj2 (Nat.leb_gt _ _) E).
  pose proof (push_spec a _ (slot_wf cpu cs Hw) Ha) as Hp.
  destruct (push a (slot cpu cs)) as [c [|]].
  - destruct Hp as (H1 & H2). destruct (slot_insert cpu c cs Hw E H1) as (H4 & H5 & H6).
    split_and!; [done| |done]. intros x. rewrite H6, H2, pairs_app, cnt_app.
    change (pairs [a]) with [(a, 1)]. lia.
  - destruct Hp as [-> H2]. destruct (slot_insert cpu _ cs Hw E (slot_wf cpu cs Hw)) as (H4 & H5 & H6).
    split_and!; [done| |done]. intros x. rewrite H6, cnt_nil. lia.
Qed.
Lemma refill_spec cpu cs l : caches_wf cs -> ((cpu < MAX_CPU_COUNT)%nat -> count (slot cpu cs) = 0%nat) ->
  let '(cs', l') := refill cpu cs l in
  caches_wf cs' /\ gave l' = gave l /\ forall x, held x cs' + cnt x (got l) = held x cs + cnt x (got l').
Proof.
  intros Hw He. unfold refill. destruct (MAX_CPU_COUNT <=? cpu)%nat eqn:E; [by split_and!|].
  apply Nat.leb_gt in E. specialize (He E). pose proof (slot_wf cpu cs Hw) as (Hl & _ & _).
  pose proof (refill_loop_spec BATCH 0 (frames (slot cpu cs)) l Hl ltac:(lia) ltac:(constructor)) as Hr.
  destruct (refill_loop BATCH 0 _ l) as [[l' fr'] n]. destruct Hr as (H1 & H2 & H3).
  destruct (slot_insert cpu _ cs Hw E H1) as (H4 & _ & H6). split_and!; [done..|].
  assert (pairs (live (slot cpu cs)) = []) as Hnil by (unfold live; by rewrite He).
  intros x. rewrite H6, Hnil, cnt_nil. specialize (H3 x). unfold live. cbn [count frames].
  change (pairs (take 0 _)) with (@nil (Z * Z)) in H3. rewrite cnt_nil in H3. lia.
Qed.
Lemma drain_spec cpu cs l : caches_wf cs -> (cpu < MAX_CPU_COUNT)%nat ->
  let '(cs', l') := drain cpu cs l in
  caches_wf cs' /\ got l' = got l /\ count (slot cpu cs') = Nat.div (count (slot cpu cs)) 2 /\
  forall x, held x cs' + cnt x (gave l') = held x cs + cnt x (gave l).
Proof.
  intros Hw E. unfold drain. rewrite (proj2 (Nat.leb_gt _ _) E).
  set (c := slot cpu cs). pose proof (slot_wf cpu cs Hw) as Hc. fold c in Hc.
  pose proof (Nat.Div0.div_le_upper_bound (count c) 2 (count c) ltac:(lia)) as Hd.
  pose proof (drain_loop_spec (count c - count c / 2) c l Hc ltac:(lia)) as Hr.
  destruct (drain_loop _ c l) as [c' l']. destruct Hr as (H1 & H2 & H3 & H4).
  destruct (slot_insert cpu c' cs Hw E H1) as (H5 & H6 & H7). split_and!; [done..| |].
  - rewrite H6, H2. lia.
  - intros x. rewrite H7. specialize (H4 x). fold c. lia.
Qed.
Lemma drain_all_loop_spec cpus : Forall (fun cpu => cpu < MAX_CPU_COUNT)%nat cpus -> forall cs l t, caches_wf cs ->
  let '(cs', l', _) := drain_all_loop cpus cs t l in
  caches_wf cs' /\ got l' = got l /\ forall x, held x cs' + cnt x (gave l') = held x cs + cnt x (gave l).
Proof.
  induction 1 as [|cpu cpus Hc _ IH]; intros cs l t Hw; cbn [drain_all_loop]; [done|].
  pose proof (drain_loop_spec (count (slot cpu cs)) _ l (slot_wf cpu cs Hw) ltac:(lia)) as Hr.
  destruct (drain_loop _ _ l) as [c' l1]. destruct Hr as (H1 & _ & H3 & H4).
  destruct (slot_insert cpu c' cs Hw Hc H1) as (H5 & H6 & H7).
  match goal with |- context [drain_all_loop cpus _ ?t' _] => specialize (IH (<[cpu := c']> cs) l1 t' H5);
    destruct (drain_all_loop cpus _ t' l1) as [[cs' l'] t2] end.
  destruct IH as (H8 & H9 & H10). split_and!; [done|congruence|]. intros x.
  rewrite H10, H7. specialize (H4 x). lia.
Qed.

(** What the manager holds or has passed on, against what it took. *)
Definition balance (x : Z * Z) m : Z :=
  held x (cpu_caches m) + cnt x (gave (pmm m)) - cnt x (got (pmm m)).

Lemma alloc_balance cpu n m : caches_wf (cpu_caches m) ->
  let '(m', r) := allocate_contiguous_frames cpu n m in
  caches_wf (cpu_caches m') /\ forall x, balance x m' + cnt x (opt n r) = balance x m.
Proof.
  intros Hw. unfold allocate_contiguous_frames. destruct (n =? 1) eqn:En.
  - apply Z.eqb_eq in En as ->. pose proof (try_alloc_spec cpu _ Hw) as Ha.
    destruct (try_alloc cpu (cpu_caches m)) as [cs [f|]]; destruct Ha as (H1 & H2 & H3).
    { split; [done|]. intros x. specialize (H2 x). unfold balance; simpl in *. lia. }
    pose proof (refill_spec cpu cs (pmm m) H1 (H3 eq_refl)) as Hr.
    destruct (refill cpu cs (pmm m)) as [cs1 l1]. destruct Hr as (H4 & H5 & H6).
    pose proof (try_alloc_spec cpu cs1 H4) as Ha2.
    destruct (try_alloc cpu cs1) as [cs2 r]. destruct Ha2 as (H7 & H8 & _). split; [done|].
    intros x. specialize (H2 x). specialize (H6 x). specialize (H8 x).
    cbn [opt] in H2. rewrite cnt_nil in H2. unfold balance; cbn [cpu_caches pmm]. rewrite H5. lia.
  - change (pool_allocate_contiguous n (pmm m)) with (log_got n (pmm m) (pool_allocate_contiguous n (inner (pmm m)))).
    destruct (pool_allocate_contiguous n (inner (pmm m))) as [p [f|]]; (split; [done|]); intros x;
      unfold balance; simpl; [rewrite (cnt_cons x (f, n))|rewrite cnt_nil]; lia.
Qed.
Lemma free_balance cpu pid f n m : caches_wf (cpu_caches m) -> (cpu < MAX_CPU_COUNT)%nat -> is_frame f ->
  caches_wf (cpu_caches (deallocate_contiguous_frames cpu pid f n m)) /\
  forall x, balance x (deallocate_contiguous_frames cpu pid f n m) = balance x m + cnt x [(f, n)].
Proof.
  intros Hw Hc Hf. unfold deallocate_contiguous_frames. destruct (n =? 1) eqn:En.
  - apply Z.eqb_eq in En as ->. pose proof (try_free_spec cpu f _ Hw Hc Hf) as Ha.
    destruct (try_free cpu f (cpu_caches m)) as [cs [|]]; destruct Ha as (H1 & H2 & H3).
    { split; [done|]. intros x. unfold balance; simpl. rewrite H2. lia. }
    destruct (H3 eq_refl) as [Hfull Hs].
    pose proof (drain_spec cpu cs (pmm m) H1 Hc) as Hd.
    destruct (drain cpu cs (pmm m)) as [cs1 l1]. destruct Hd as (H4 & H5 & H6 & H7).
    pose proof (try_free_spec cpu f cs1 H4 Hc Hf) as Ha2.
    destruct (try_free cpu f cs1) as [cs2 [|]]; destruct Ha2 as (H8 & H9 & H10).
    + split; [done|]. intros x. specialize (H2 x). specialize (H7 x). unfold balance; simpl.
      rewrite H9, H5. rewrite cnt_nil in H2. lia.
    + destruct (H10 eq_refl) as [Hx _]. rewrite H6, Hs, Hfull in Hx. done.
  - split; [done|]. intros x. unfold balance; simpl. rewrite (cnt_cons x (f, n)). lia.
Qed.
Lemma step_balance o m : caches_wf (cpu_caches m) -> op_ok o ->
  caches_wf (cpu_caches (step o m).1) /\
  forall x, balance x (step o m).1 + cnt x (step o m).2 = balance x m + cnt x (returned o).
Proof.
  intros Hw Ho. destruct o as [cpu n|cpu pid f n|]; cbn [step returned].
  - pose proof (alloc_balance cpu n m Hw) as Ha. destruct (allocate_contiguous_frames cpu n m) as [m' r].
    destruct Ha as [H1 H2]. split; [done|]. intros x. rewrite cnt_nil. specialize (H2 x).
    unfold opt in H2. simpl. lia.
  - destruct Ho as [Hc Hf]. destruct (free_balance cpu pid f n m Hw Hc Hf) as [H1 H2]. split; [done|].
    intros x. simpl fst; simpl snd. rewrite H2, cnt_nil. lia.
  - pose proof (drain_all_loop_spec (seq 0 MAX_CPU_COUNT)) as Hd.
    assert (Forall (fun cpu => cpu < MAX_CPU_COUNT)%nat (seq 0 MAX_CPU_COUNT)) as Hs
      by (apply Forall_forall; intros y Hy%elem_of_seq; lia).
    specialize (Hd Hs (cpu_caches m) (pmm m) 0 Hw). unfold drain_all.
    destruct (drain_all_loop _ _ _ _) as [[cs l] t]. destruct Hd as (H1 & H2 & H3). split; [done|].
    intros x. unfold balance. simpl. rewrite H2, !cnt_nil. specialize (H3 x). lia.
Qed.
Lemma run_balance ops : forall m, caches_wf (cpu_caches m) -> Forall op_ok ops ->
  caches_wf (cpu_caches (run ops m).1) /\
  forall x, balance x (run ops m).1 + cnt x (run ops m).2 = balance x m + cnt x (concat (returned <$> ops)).
Proof.
  induction ops as [|o ops IH]; intros m Hw Ho; cbn [run].
  { split; [done|]. intros x. simpl. lia. }
  inversion Ho as [|? ? Ho1 Ho2]; subst. destruct (step_balance o m Hw Ho1) as [H1 H2].
  destruct (step o m) as [m1 o1]; simpl in *. destruct (IH m1 H1 Ho2) as [H3 H4].
  destruct (run ops m1) as [m2 o2]; simpl in *. split; [done|]. intros x.
  specialize (H2 x). specialize (H4 x). rewrite !cnt_app. change (list_fmap _ _ returned ops) with (returned <$> ops). lia.
Qed.

Definition boot (p : P) : MemoryManager (logged P) :=
  mkMM (mkLogged p [] []) all_new (Cgroup.init Cgroup.boot).
Lemma boot_wf p : caches_wf (cpu_caches (boot p)).
Proof. split; [done|]. apply Forall_replicate, cache_new_wf. Qed.
Lemma held_new x : held x all_new = 0.
Proof. unfold all_new. generalize MAX_CPU_COUNT as n. induction n as [|n IH]; [done|]. simpl. unfold held in *. by rewrite IH. Qed.

(** C18: Frames are neither lost nor duplicated.  After any history of
    allocations on any CPUs, releases on CPUs with a cache slot (numbers below 64; a
    release on another CPU loses the frame, see [cache_leak_without_slot]) and full
    drains, every range [x] satisfies: handed to callers + cached on some CPU + given
    back to the physical memory manager = taken from the physical memory manager +
    released by callers; and no cache holds more than a batch. *)
Theorem cache_conserves_frames (p : P) ops x :
  Forall op_ok ops ->
  let '(m, out) := run ops (boot p) in
  cnt x out + held x (cpu_caches m) + cnt x (gave (pmm m)) =
    cnt x (got (pmm m)) + cnt x (concat (returned <$> ops)) /\
  Forall (fun c => count c <= BATCH)%nat (cpu_caches m).
Proof.
  intros Ho. destruct (run_balance ops (boot p) (boot_wf p) Ho) as [H1 H2]. specialize (H2 x).
  destruct (run ops (boot p)) as [m out]; cbn [fst snd] in *. split.
  - unfold balance in H2. cbn [boot cpu_caches pmm gave got] in H2. rewrite held_new, !cnt_nil in H2. lia.
  - destruct H1 as [_ H1]. eapply Forall_impl; [done|]. by intros c (_ & Hc & _).
Qed.

(** The fast path.  With a frame in the local cache, a single-frame request
    is served from it, last in first out, without touching the physical memory
    manager, the other CPUs' caches or the cgroups; released again on the same
    CPU, the frame is the next one handed out. *)
Theorem cache_fast_path cpu pid f m :
  caches_wf (cpu_caches m) -> (cpu < MAX_CPU_COUNT)%nat -> is_frame f ->
  (count (slot cpu (cpu_caches m)) < BATCH)%nat ->
  let m1 := deallocate_contiguous_frames cpu pid f 1 m in
  let '(m2, r) := allocate_contiguous_frames cpu 1 m1 in
  r = Some f /\ pmm m1 = pmm m /\ pmm m2 = pmm m /\ cgroup m2 = cgroup m1 /\
  forall other, other <> cpu -> slot other (cpu_caches m2) = slot other (cpu_caches m).
Proof.
  intros [Hl Hw] Hc Hf Hlt. unfold deallocate_contiguous_frames, allocate_contiguous_frames; simpl.
  unfold try_free. rewrite (proj2 (Nat.leb_gt _ _) Hc). unfold push. rewrite (proj2 (Nat.leb_gt _ _) Hlt). simpl.
  unfold try_alloc. rewrite (proj2 (Nat.leb_gt _ _) Hc). unfold slot at 1.
  rewrite list_lookup_insert_eq by lia. simpl.
  pose proof (slot_wf cpu (cpu_caches m) (conj Hl Hw)) as (Hfr & _ & _).
  rewrite list_lookup_insert_eq by (rewrite Hfr; lia). simpl.
  split_and!; [by rewrite page_of_isframe|done..|]. intros other Ho.
  unfold slot. by rewrite !list_lookup_insert_ne by done.
Qed.

(** A frame released on a CPU without a cache slot is lost: neither the
    caches nor the physical memory manager receive it. *)
Theorem cache_leak_without_slot cpu pid f m :
  (MAX_CPU_COUNT <= cpu)%nat ->
  let m' := deallocate_contiguous_frames cpu pid f 1 m in
  cpu_caches m' = cpu_caches m /\ pmm m' = pmm m.
Proof.
  intros Hc. unfold deallocate_contiguous_frames, try_free, drain.
  change (1 =? 1) with true. by rewrite (proj2 (Nat.leb_le _ _) Hc).
Qed.

End Histories.

Definition sample_ops : list op := [Alloc 0 1; Alloc 1 1; Free 0 7 0x200000 1; Alloc 0 4; DrainAll].
Lemma sample_ops_ok : Forall op_ok sample_ops.
Proof.
  repeat constructor; unfold MAX_CPU_COUNT; try lia; vm_compute; try discriminate; reflexivity.
Qed.
Lemma cache_conserves_frames_witness :
  let '(m, out) := run sample_ops (boot (FibPmm.init FibPmm.sample_map)) in
  cnt (0x200000, 1) out + held (0x200000, 1) (cpu_caches m) + cnt (0x200000, 1) (gave (pmm m)) =
    cnt (0x200000, 1) (got (pmm m)) + cnt (0x200000, 1) (concat (returned <$> sample_ops)) /\
  Forall (fun c => count c <= BATCH)%nat (cpu_caches m).
Proof.
  apply (cache_conserves_frames (FibPmm.init FibPmm.sample_map) sample_ops (0x200000, 1) sample_ops_ok).
Defined.
Lemma cache_fast_path_witness :
  (allocate_contiguous_frames 0 1
     (deallocate_contiguous_frames 0 7 0x200000 1 (boot (FibPmm.init FibPmm.sample_map)))).2 = Some 0x200000.
Proof.
  pose proof (cache_fast_path 0 7 0x200000 (boot (FibPmm.init FibPmm.sample_map)) (boot_wf _)
    ltac:(unfold MAX_CPU_COUNT; lia) ltac:(split; [split; vm_compute; [discriminate|reflexivity]|reflexivity])
    ltac:(vm_compute; lia)) as H.
  cbv zeta in H. destruct (allocate_contiguous_frames 0 1 _) as [m2 r]. exact (proj1 H).
Defined.
Lemma cache_leak_without_slot_witness :
  cpu_caches (deallocate_contiguous_frames 64 7 0x200000 1 (boot (FibPmm.init FibPmm.sample_map))) = all_new.
Proof.
  exact (proj1 (cache_leak_without_slot 64 7 0x200000 (boot (FibPmm.init FibPmm.sample_map)) ltac:(reflexivity))).
Defined.

End FrameCache.
