(* ===== verification/BitmapPmm.v ===== *)
(** * The bitmap physical memory manager

    Models [src/src/memory/pmm.rs]: one bit per 4 KiB frame (1 = in use), kept
    in an array of 64-bit words that is itself placed in conventional memory.
    The array at [bitmap_ptr] is the list [bitmap]; [bitmap_start] is the
    address it was placed at. *)

From S2P Require Import Prelude FibPmm.

Module BitmapPmm.
Import FibPmm (MemoryDescriptor, ty, phys_start, page_count, CONVENTIONAL).

Record BitmapPmm := mkBm {
  bitmap : list Z;
  bitmap_start : Z;
  bitmap_len : Z;
  total_frames : Z;
  used_frames : Z;
  last_idx : Z
}.
Definition empty : BitmapPmm := mkBm [] 0 0 0 0 0.

Definition chunk (i : Z) (b : BitmapPmm) : Z := default 0 (bitmap b !! Z.to_nat i).
Definition set_chunk (i v u : Z) (b : BitmapPmm) : BitmapPmm :=
  mkBm (<[Z.to_nat i := v]> (bitmap b)) (bitmap_start b) (bitmap_len b) (total_frames b) u (last_idx b).
Definition set_last (i : Z) (b : BitmapPmm) : BitmapPmm :=
  mkBm (bitmap b) (bitmap_start b) (bitmap_len b) (total_frames b) (used_frames b) i.

Definition free_frame_internal (frame_idx : Z) (b : BitmapPmm) : BitmapPmm :=
  if frame_idx =? 0 then b
  else if total_frames b <=? frame_idx then b
  else
    let u64_idx := frame_idx / 64 in
    let bit_idx := frame_idx mod 64 in
    let c := chunk u64_idx b in
    let mask := u64_max - Z.shiftl 1 bit_idx in
    if negb (Z.land c (Z.shiftl 1 bit_idx) =? 0)
    then set_chunk u64_idx (Z.land c mask) (u64_sub (used_frames b) 1) b else b.

Definition mark_frame_used (frame_idx : Z) (b : BitmapPmm) : BitmapPmm :=
  if total_frames b <=? frame_idx then b
  else
    let u64_idx := frame_idx / 64 in
    let bit_idx := frame_idx mod 64 in
    let c := chunk u64_idx b in
    let mask := Z.shiftl 1 bit_idx in
    if Z.land c mask =? 0
    then set_chunk u64_idx (Z.lor c mask) (u64_add (used_frames b) 1) b else b.

Definition is_frame_free (frame_idx : Z) (b : BitmapPmm) : bool :=
  if (frame_idx =? 0) || (total_frames b <=? frame_idx) then false
  else Z.land (chunk (frame_idx / 64) b) (Z.shiftl 1 (frame_idx mod 64)) =? 0.

(** The [for] loops over a range of frames. *)
Definition free_range (start n : Z) (b : BitmapPmm) : BitmapPmm :=
  foldl (fun b i => free_frame_internal i b) b (seqZ start n).
Definition mark_range (start n : Z) (b : BitmapPmm) : BitmapPmm :=
  foldl (fun b i => mark_frame_used i b) b (seqZ start n).

(** ** Initialisation; [None] is the panic of [expect] *)
Definition desc_end (d : MemoryDescriptor) : Z := u64_add (phys_start d) (u64_mul (page_count d) 4096).
Definition max_phys_addr (m : list MemoryDescriptor) : Z :=
  foldl (fun acc d => if acc <? desc_end d then desc_end d else acc) 0 m.
Definition find_bitmap_start (bytes : Z) (m : list MemoryDescriptor) : option Z :=
  phys_start <$> head (filter (fun d =>
    ty d = CONVENTIONAL /\ phys_start d <> 0 /\ bytes <= u64_mul (page_count d) 4096) m).
Definition free_descriptor (b : BitmapPmm) (d : MemoryDescriptor) : BitmapPmm :=
  if ty d =? CONVENTIONAL then free_range (phys_start d / 4096) (page_count d) b else b.
Definition init (m : list MemoryDescriptor) : option BitmapPmm :=
  let total := max_phys_addr m / 4096 in
  let size_u64 := (total + 63) / 64 in
  let size_bytes := size_u64 * 8 in
  match find_bitmap_start size_bytes m with
  | None => None
  | Some start =>
      let b0 := mkBm (replicate (Z.to_nat size_u64) u64_max) start size_u64 total total 0 in
      let b1 := foldl free_descriptor b0 m in
      Some (mark_range (start / 4096) ((size_bytes + 4095) / 4096) b1)
  end.

(** ** Contiguous ranges *)
(** The inner loop: the offset of the first frame of the window in use. *)
Definition first_used (idx pages : Z) (b : BitmapPmm) : option Z :=
  head (filter (fun offset => is_frame_free (idx + offset) b = false) (seqZ 0 pages)).
(** [idx] grows on every iteration, so [total_frames] iterations are enough. *)
Fixpoint contiguous_loop (fuel : nat) (idx pages : Z) (b : BitmapPmm) : option Z :=
  match fuel with
  | O => None
  | S fuel' =>
      if idx + pages <=? total_frames b then
        match first_used idx pages b with
        | Some offset => contiguous_loop fuel' (idx + offset + 1) pages b
        | None => Some idx
        end
      else None
  end.
Definition allocate_contiguous (pages : Z) (b : BitmapPmm) : BitmapPmm * option Z :=
  if pages =? 0 then (b, None)
  else match contiguous_loop (Z.to_nat (total_frames b)) 1 pages b with
       | Some idx => (mark_range idx pages b, Some (page_of (idx * 4096)))
       | None => (b, None)
       end.
Definition deallocate_contiguous (start pages : Z) (b : BitmapPmm) : BitmapPmm :=
  if pages =? 0 then b else free_range (start / 4096) pages b.

(** ** Single frames *)
(** The [search] closure over words [start..end]. *)
Definition search_word (i : Z) (b : BitmapPmm) : option Z :=
  if chunk i b =? u64_max then None
  else head (filter (fun f => f < total_frames b)
               ((fun bit => i * 64 + bit) <$> filter (fun bit => Z.land (chunk i b) (Z.shiftl 1 bit) = 0) (seqZ 0 64))).
Definition search (start end_ : Z) (b : BitmapPmm) : option Z :=
  head (omap (fun i => search_word i b) (seqZ start (end_ - start))).
(** From the last word used to the end, then from the start. *)
Definition find_frame (b : BitmapPmm) : option Z :=
  let start_idx := last_idx b in
  match search start_idx (bitmap_len b) b with
  | None => if 0 <? start_idx then search 0 start_idx b else None
  | Some f => Some f
  end.
Definition allocate_frame (b : BitmapPmm) : BitmapPmm * option Z :=
  match find_frame b with
  | Some frame_idx =>
      (set_last (frame_idx / 64) (mark_frame_used frame_idx b), Some (page_of (frame_idx * 4096)))
  | None => (b, None)
  end.

(** ** The abstract view: the set of frames in use *)
(** The bit of a frame. *)
Definition in_use (f : Z) (b : BitmapPmm) : bool := Z.testbit (chunk (f / 64) b) (f mod 64).
Definition used_count (b : BitmapPmm) : Z :=
  sumZ (fun f => if in_use f b then 1 else 0) (seqZ 0 (total_frames b)).
Record wf (b : BitmapPmm) : Prop := {
  wf_len : bitmap_len b = (total_frames b + 63) / 64;
  wf_map : Z.of_nat (length (bitmap b)) = bitmap_len b;
  wf_words : Forall is_u64 (bitmap b);
  wf_total : 0 <= total_frames b < 2 ^ 52;
  wf_zero : 0 < total_frames b -> in_use 0 b = true;
  wf_used : used_frames b = used_count b;
  wf_last : 0 <= last_idx b <= bitmap_len b
}.

(** ** Bits *)
Lemma shiftl_1 k : 0 <= k -> Z.shiftl 1 k = 2 ^ k.
Proof. intros. by rewrite Z.shiftl_mul_pow2, Z.mul_1_l. Qed.
Lemma land_pow_zero c k : 0 <= k -> (Z.land c (Z.shiftl 1 k) =? 0) = negb (Z.testbit c k).
Proof.
  intros Hk. rewrite shiftl_1 by done. destruct (Z.testbit c k) eqn:E; simpl.
  - apply Z.eqb_neq. intros H. assert (Z.testbit (Z.land c (2 ^ k)) k = false) as H' by (rewrite H; apply Z.bits_0).
    rewrite Z.land_spec, E, Z.pow2_bits_true in H' by done. done.
  - apply Z.eqb_eq, Z.bits_inj'. intros n Hn. rewrite Z.land_spec, Z.bits_0.
    destruct (decide (n = k)) as [->|Hne]; [by rewrite E|]. by rewrite Z.pow2_bits_false, andb_false_r by done.
Qed.
Lemma lor_pow_bit c k j : 0 <= k -> 0 <= j ->
  Z.testbit (Z.lor c (Z.shiftl 1 k)) j = Z.testbit c j || (j =? k).
Proof. intros. rewrite shiftl_1, Z.lor_spec, Z.pow2_bits_eqb by done. by rewrite (Z.eqb_sym k). Qed.
Lemma mask_pow k : 0 <= k < 64 -> u64_max - Z.shiftl 1 k = Z.ldiff (Z.ones 64) (2 ^ k).
Proof.
  intros Hk. rewrite shiftl_1 by lia. change u64_max with (Z.ones 64). apply Z.sub_nocarry_ldiff.
  apply Z.bits_inj'. intros n Hn. rewrite Z.ldiff_spec, Z.bits_0, Z.pow2_bits_eqb by lia.
  destruct (decide (k = n)) as [->|Hne]; [|by rewrite (proj2 (Z.eqb_neq _ _) Hne)].
  by rewrite Z.ones_spec_low, andb_false_r by lia.
Qed.
Lemma land_mask_bit c k j : 0 <= k < 64 -> 0 <= j < 64 ->
  Z.testbit (Z.land c (u64_max - Z.shiftl 1 k)) j = Z.testbit c j && negb (j =? k).
Proof.
  intros Hk Hj. rewrite mask_pow, Z.land_spec, Z.ldiff_spec, Z.pow2_bits_eqb, Z.ones_spec_low by lia.
  by rewrite (Z.eqb_sym k).
Qed.
Lemma land_mask_u64 c m : is_u64 c -> 0 <= m -> is_u64 (Z.land c m).
Proof.
  unfold is_u64, u64_mod. intros Hc Hm. apply mask_range in Hc; [|lia]. apply mask_range; [lia|].
  rewrite <-Z.land_assoc, (Z.land_comm m), Z.land_assoc. by rewrite Hc.
Qed.

(** ** One word *)
Lemma word_range f b : wf b -> 0 <= f < total_frames b -> 0 <= f / 64 < bitmap_len b.
Proof. intros [H1 _ _ _ _ _ _] Hf. rewrite H1. Z.div_mod_to_equations; lia. Qed.
Lemma chunk_lookup i b : wf b -> 0 <= i < bitmap_len b -> bitmap b !! Z.to_nat i = Some (chunk i b).
Proof.
  intros [_ H2 _ _ _ _ _] Hi. unfold chunk. destruct (bitmap b !! Z.to_nat i) eqn:E; [done|].
  apply lookup_ge_None in E. lia.
Qed.
Lemma chunk_u64 i b : wf b -> 0 <= i < bitmap_len b -> is_u64 (chunk i b).
Proof. intros Hw Hi. pose proof (chunk_lookup i b Hw Hi). eapply Forall_lookup_1; [apply Hw|done]. Qed.
Lemma in_use_set f i v u b : wf b -> 0 <= i < bitmap_len b -> 0 <= f ->
  in_use f (set_chunk i v u b) = if decide (f / 64 = i) then Z.testbit v (f mod 64) else in_use f b.
Proof.
  intros Hw Hi Hf. unfold in_use, chunk; simpl. pose proof (wf_map b Hw). case_decide as E.
  - subst. rewrite list_lookup_insert_eq by lia. done.
  - rewrite list_lookup_insert_ne; [done|]. intros E'. apply E. apply Z2Nat.inj in E'; [done|lia|].
    Z.div_mod_to_equations; lia.
Qed.

(** ** Counting *)
Lemma sumZ_seqZ_change (g h : Z -> Z) f n : 0 <= f < n -> (forall i, 0 <= i < n -> i <> f -> h i = g i) ->
  sumZ h (seqZ 0 n) = sumZ g (seqZ 0 n) - g f + h f.
Proof.
  intros Hf Hgh. assert (seqZ 0 n = seqZ 0 f ++ f :: seqZ (f + 1) (n - f - 1)) as ->.
  { replace n with (f + (1 + (n - f - 1))) at 1 by lia. rewrite seqZ_app by lia. f_equal.
    rewrite seqZ_app by lia. rewrite Z.add_0_l. done. }
  rewrite !sumZ_app. simpl.
  rewrite (sumZ_ext h g (seqZ 0 f)) by (intros i Hi%elem_of_seqZ; apply Hgh; lia).
  rewrite (sumZ_ext h g (seqZ (f + 1) _)) by (intros i Hi%elem_of_seqZ; apply Hgh; lia). lia.
Qed.
Lemma used_count_range b : 0 <= total_frames b -> 0 <= used_count b <= total_frames b.
Proof.
  intros Ht. unfold used_count. assert (forall n l, Z.of_nat (length l) = n ->
    0 <= sumZ (fun f => if in_use f b then 1 else 0) l <= n) as H.
  { intros n l <-. induction l as [|x l IH]; simpl; [lia|]. destruct (in_use x b); lia. }
  apply H. rewrite length_seqZ. lia.
Qed.

(** ** [mark_frame_used] and [free_frame_internal] on the abstract view *)
Definition same_shape (b b' : BitmapPmm) : Prop :=
  total_frames b' = total_frames b /\ bitmap_start b' = bitmap_start b /\ last_idx b' = last_idx b.

Lemma update_word b f v u c :
  wf b -> 0 <= f < total_frames b -> is_u64 v -> 
  (forall j, 0 <= j < 64 -> Z.testbit v j = if decide (j = f mod 64) then c else Z.testbit (chunk (f / 64) b) j) ->
  (f = 0 -> c = true) -> u = used_frames b - (if in_use f b then 1 else 0) + (if c then 1 else 0) ->
  wf (set_chunk (f / 64) v u b) /\ same_shape b (set_chunk (f / 64) v u b) /\
  forall g, 0 <= g -> in_use g (set_chunk (f / 64) v u b) = if decide (g = f) then c else in_use g b.
Proof.
  intros Hw Hf Hv Hbits H0 Hu. pose proof (word_range f b Hw Hf) as Hi.
  assert (forall g, 0 <= g -> in_use g (set_chunk (f / 64) v u b) = if decide (g = f) then c else in_use g b) as Hin.
  { intros g Hg. rewrite in_use_set by done. case_decide as E; case_decide as E'; subst.
    - by rewrite Hbits, decide_True by (try apply Z.mod_pos_bound; lia).
    - rewrite Hbits by (apply Z.mod_pos_bound; lia). rewrite decide_False; [unfold in_use; by rewrite E|].
      intros Hm. apply E'. rewrite (Z.div_mod g 64), (Z.div_mod f 64) by lia. by rewrite E, Hm.
    - done.
    - done. }
  split_and!; [|done..]. pose proof Hw as [W1 W2 W3 W4 W5 W6 W7]. split; simpl; auto.
  - by rewrite length_insert.
  - by apply Forall_insert.
  - intros Ht. rewrite Hin by lia. case_decide as E; [auto|]. apply W5. lia.
  - etrans; [exact Hu|]. rewrite W6. unfold used_count. simpl total_frames.
    rewrite (sumZ_seqZ_change (fun f => if in_use f b then 1 else 0)
      (fun g => if in_use g (set_chunk (f / 64) v u b) then 1 else 0) f) by
      (done || (intros i Hr Hne; rewrite Hin, decide_False by lia; done)).
    cbn beta. rewrite Hin, decide_True by lia. done.
Qed.

Lemma mark_spec f b : wf b -> 0 <= f ->
  wf (mark_frame_used f b) /\ same_shape b (mark_frame_used f b) /\
  forall g, 0 <= g -> in_use g (mark_frame_used f b) =
    in_use g b || ((g =? f) && (f <? total_frames b)).
Proof.
  intros Hw Hf. unfold mark_frame_used.
  destruct (total_frames b <=? f) eqn:E; simplify_bool.
  { split_and!; [done..|]. intros g Hg. rewrite (proj2 (Z.ltb_ge _ _) E), andb_false_r, orb_false_r. done. }
  pose proof (Z.mod_pos_bound f 64 ltac:(lia)) as Hm. rewrite land_pow_zero by lia. fold (in_use f b).
  pose proof (word_range f b Hw ltac:(lia)) as Hi. pose proof (wf_total b Hw) as Ht.
  rewrite (proj2 (Z.ltb_lt _ _) E). destruct (in_use f b) eqn:Eu; simpl.
  { split_and!; [done..|]. intros g Hg. rewrite andb_true_r. destruct (g =? f) eqn:Eg; simplify_bool; subst.
    - by rewrite Eu. - by rewrite orb_false_r. }
  pose proof (used_count_range b ltac:(lia)) as Hc. rewrite <-(wf_used b Hw) in Hc.
  rewrite u64_add_small by (unfold u64_mod; lia).
  destruct (update_word b f (Z.lor (chunk (f / 64) b) (Z.shiftl 1 (f mod 64))) (used_frames b + 1) true)
    as (H1 & H2 & H3); auto.
  - apply lor_range; [lia|by apply chunk_u64|]. rewrite shiftl_1 by lia. split; [lia|].
    apply Z.pow_lt_mono_r; lia.
  - intros j Hj. rewrite lor_pow_bit by lia. case_decide as Ej; subst.
    + by rewrite Z.eqb_refl, orb_true_r.
    + by rewrite (proj2 (Z.eqb_neq _ _) Ej), orb_false_r.
  - rewrite Eu. lia.
  - split_and!; [done..|]. intros g Hg. rewrite H3, andb_true_r by done. case_decide as Eg; subst.
    + by rewrite Z.eqb_refl, orb_true_r.
    + by rewrite (proj2 (Z.eqb_neq _ _) Eg), orb_false_r.
Qed.
Lemma free_spec f b : wf b -> 0 <= f ->
  wf (free_frame_internal f b) /\ same_shape b (free_frame_internal f b) /\
  forall g, 0 <= g -> in_use g (free_frame_internal f b) =
    in_use g b && negb ((g =? f) && negb (f =? 0) && (f <? total_frames b)).
Proof.
  intros Hw Hf. unfold free_frame_internal. destruct (f =? 0) eqn:E0; simpl.
  { split_and!; [done..|]. intros g Hg. by rewrite andb_false_r, andb_true_r. }
  destruct (total_frames b <=? f) eqn:E; simplify_bool.
  { split_and!; [done..|]. intros g Hg. by rewrite (proj2 (Z.ltb_ge _ _) E), andb_false_r, andb_true_r. }
  pose proof (Z.mod_pos_bound f 64 ltac:(lia)) as Hm. rewrite land_pow_zero, negb_involutive by lia. fold (in_use f b).
  pose proof (word_range f b Hw ltac:(lia)) as Hi. pose proof (wf_total b Hw) as Ht.
  rewrite (proj2 (Z.ltb_lt _ _) E). destruct (in_use f b) eqn:Eu; simpl.
  2: { split_and!; [done..|]. intros g Hg. rewrite !andb_true_r. destruct (g =? f) eqn:Eg; simplify_bool; subst.
    - by rewrite Eu. - by rewrite andb_true_r. }
  assert (1 <= used_frames b).
  { rewrite (wf_used b Hw). unfold used_count.
    pose proof (sumZ_elem (fun f => if in_use f b then 1 else 0) (seqZ 0 (total_frames b)) (Z.to_nat f) f) as He.
    cbn beta in He. rewrite Eu in He. apply He; [intros x; destruct (in_use x b); lia|].
    apply lookup_seqZ. lia. }
  pose proof (used_count_range b ltac:(lia)) as Hc. rewrite <-(wf_used b Hw) in Hc.
  rewrite u64_sub_small by (unfold u64_mod; lia).
  destruct (update_word b f (Z.land (chunk (f / 64) b) (u64_max - Z.shiftl 1 (f mod 64))) (used_frames b - 1) false)
    as (H1 & H2 & H3); auto.
  - apply land_mask_u64; [by apply chunk_u64|]. rewrite mask_pow by lia.
    apply Z.ldiff_nonneg. left. vm_compute. discriminate.
  - intros j Hj. rewrite land_mask_bit by lia. case_decide as Ej; subst.
    + by rewrite Z.eqb_refl, andb_false_r.
    + by rewrite (proj2 (Z.eqb_neq _ _) Ej), andb_true_r.
  - rewrite Eu. lia.
  - split_and!; [done..|]. intros g Hg. rewrite H3, !andb_true_r by done. case_decide as Eg; subst.
    + by rewrite Z.eqb_refl, andb_false_r.
    + by rewrite (proj2 (Z.eqb_neq _ _) Eg), andb_true_r.
Qed.

(** ** Ranges *)
Lemma same_shape_trans b1 b2 b3 : same_shape b1 b2 -> same_shape b2 b3 -> same_shape b1 b3.
Proof. intros (?&?&?) (?&?&?). split_and!; congruence. Qed.
Lemma mark_list_spec l : Forall (fun f => 0 <= f) l -> forall b, wf b ->
  let b' := foldl (fun b i => mark_frame_used i b) b l in
  wf b' /\ same_shape b b' /\
  forall g, 0 <= g -> in_use g b' = in_use g b || bool_decide (g ∈ l /\ g < total_frames b).
Proof.
  induction 1 as [|f l Hf _ IH]; intros b Hw; cbn [foldl].
  { split_and!; [done..|]. intros g Hg. rewrite bool_decide_eq_false_2; [by rewrite orb_false_r|].
    by intros [?%elem_of_nil _]. }
  destruct (mark_spec f b Hw Hf) as (H1 & H2 & H3). destruct (IH _ H1) as (H4 & H5 & H6).
  split_and!; [done|by eapply same_shape_trans|]. intros g Hg. rewrite H6, H3 by done.
  destruct H2 as (-> & _). rewrite <-orb_assoc. f_equal. apply eq_true_iff_eq.
  rewrite orb_true_iff, andb_true_iff, !bool_decide_eq_true, elem_of_cons, Z.eqb_eq, Z.ltb_lt. clear; intuition (subst; auto).
Qed.
Lemma free_list_spec l : Forall (fun f => 0 <= f) l -> forall b, wf b ->
  let b' := foldl (fun b i => free_frame_internal i b) b l in
  wf b' /\ same_shape b b' /\
  forall g, 0 <= g -> in_use g b' = in_use g b && negb (bool_decide (g ∈ l /\ g <> 0 /\ g < total_frames b)).
Proof.
  induction 1 as [|f l Hf _ IH]; intros b Hw; cbn [foldl].
  { split_and!; [done..|]. intros g Hg. rewrite bool_decide_eq_false_2; [by rewrite andb_true_r|].
    by intros [?%elem_of_nil _]. }
  destruct (free_spec f b Hw Hf) as (H1 & H2 & H3). destruct (IH _ H1) as (H4 & H5 & H6).
  split_and!; [done|by eapply same_shape_trans|]. intros g Hg. rewrite H6, H3 by done.
  destruct H2 as (-> & _). rewrite <-andb_assoc, <-negb_orb. do 2 f_equal. apply eq_true_iff_eq.
  rewrite orb_true_iff, !andb_true_iff, !bool_decide_eq_true, elem_of_cons, Z.eqb_eq, Z.ltb_lt, negb_true_iff, Z.eqb_neq.
  clear; intuition (subst; auto).
Qed.
Lemma seqZ_nonneg s n : 0 <= s -> Forall (fun f => 0 <= f) (seqZ s n).
Proof. intros. apply Forall_forall. intros f Hf%elem_of_seqZ. lia. Qed.

Lemma is_frame_free_spec f b : 0 <= f ->
  is_frame_free f b = true <-> 0 < f < total_frames b /\ in_use f b = false.
Proof.
  intros Hf. unfold is_frame_free. pose proof (Z.mod_pos_bound f 64 ltac:(lia)).
  rewrite land_pow_zero by lia. fold (in_use f b).
  destruct (f =? 0) eqn:E0, (total_frames b <=? f) eqn:E1; simpl; simplify_bool;
    rewrite ?negb_true_iff; (split; [intros H1|intros [H1 H2]]); try done; try lia. split; [lia|done].
Qed.

(** A window of [pages] free frames starting at [t]. *)
Definition run_free (t pages : Z) (b : BitmapPmm) : Prop :=
  forall k, t <= k < t + pages -> is_frame_free k b = true.

Lemma head_filter {A} (P : A -> Prop) `{forall x, Decision (P x)} l :
  match head (filter P l) with
  | Some x => exists i, l !! i = Some x /\ P x /\ forall j y, (j < i)%nat -> l !! j = Some y -> ~ P y
  | None => forall y, y ∈ l -> ~ P y
  end.
Proof.
  induction l as [|a l IH]; simpl; [by intros y ?%elem_of_nil|].
  rewrite filter_cons. destruct (decide (P a)) as [Ha|Ha]; simpl.
  - exists 0%nat. split_and!; [done..|]. intros; lia.
  - destruct (head (filter P l)) as [x|].
    + destruct IH as (i & H1 & H2 & H3). exists (S i). split_and!; [done..|].
      intros [|j] y Hj Hy; simpl in Hy; [by simplify_eq|]. eapply H3; [|done]. lia.
    + intros y [->|Hy]%elem_of_cons; auto.
Qed.
Lemma first_used_spec idx pages b : 0 <= pages ->
  match first_used idx pages b with
  | Some o => 0 <= o < pages /\ is_frame_free (idx + o) b = false
  | None => run_free idx pages b
  end.
Proof.
  intros Hp. unfold first_used.
  pose proof (head_filter (fun o => is_frame_free (idx + o) b = false) (seqZ 0 pages)) as H.
  destruct (head _) as [o|].
  - destruct H as (i & H1 & H2 & _). apply lookup_seqZ in H1 as [-> ?]. split; [lia|done].
  - intros k Hk. specialize (H (k - idx)). rewrite elem_of_seqZ in H.
    replace (idx + (k - idx)) with k in H by lia. destruct (is_frame_free k b); [done|].
    exfalso. apply H; [lia|done].
Qed.
Lemma contiguous_loop_spec pages b : 1 <= pages -> forall fuel idx, 1 <= idx ->
  total_frames b - idx < Z.of_nat fuel ->
  match contiguous_loop fuel idx pages b with
  | Some s => idx <= s /\ s + pages <= total_frames b /\ run_free s pages b /\
      forall t, idx <= t < s -> ~ run_free t pages b
  | None => forall t, idx <= t -> ~ run_free t pages b
  end.
Proof.
  intros Hp. assert (forall t, 1 <= t -> run_free t pages b -> t + pages <= total_frames b) as Hbound.
  { intros t Ht Hr. specialize (Hr (t + pages - 1) ltac:(lia)).
    apply is_frame_free_spec in Hr as [? _]; lia. }
  induction fuel as [|fuel IH]; intros idx Hi Hf; cbn [contiguous_loop].
  { intros t Ht Hr. apply Hbound in Hr; lia. }
  destruct (idx + pages <=? total_frames b) eqn:E; simplify_bool.
  2: { intros t Ht Hr. apply Hbound in Hr; lia. }
  pose proof (first_used_spec idx pages b ltac:(lia)) as Hu.
  destruct (first_used idx pages b) as [o|]; [|split_and!; [lia|lia|done|lia]].
  destruct Hu as [Ho Hno]. specialize (IH (idx + o + 1) ltac:(lia) ltac:(lia)).
  assert (forall t, idx <= t < idx + o + 1 -> ~ run_free t pages b) as Hskip.
  { intros t Ht Hr. rewrite (Hr (idx + o) ltac:(lia)) in Hno. done. }
  destruct (contiguous_loop fuel (idx + o + 1) pages b) as [s|].
  - destruct IH as (H1 & H2 & H3 & H4). split_and!; [lia|done|done|]. intros t Ht.
    destruct (decide (t < idx + o + 1)); [apply Hskip; lia|apply H4; lia].
  - intros t Ht. destruct (decide (t < idx + o + 1)); [apply Hskip; lia|apply IH; lia].
Qed.

(** ** Searching for one frame *)
Lemma search_word_spec i b : wf b -> 0 <= i < bitmap_len b ->
  match search_word i b with
  | Some f => f / 64 = i /\ 0 <= f < total_frames b /\ in_use f b = false
  | None => forall f, f / 64 = i -> 0 <= f < total_frames b -> in_use f b = true
  end.
Proof.
  intros Hw Hi. unfold search_word. destruct (chunk i b =? u64_max) eqn:E; simplify_bool.
  { intros f Hf Hr. unfold in_use. rewrite Hf, E. change u64_max with (Z.ones 64).
    apply Z.ones_spec_low. pose proof (Z.mod_pos_bound f 64). lia. }
  set (bits := filter _ (seqZ 0 64)).
  assert (forall bit, bit ∈ bits <-> 0 <= bit < 64 /\ Z.testbit (chunk i b) bit = false) as Hbits.
  { intros bit. unfold bits. rewrite list_elem_of_filter, elem_of_seqZ, <-Z.eqb_eq.
    split; intros [H1 H2].
    - rewrite land_pow_zero, negb_true_iff in H1 by lia. split; [lia|done].
    - rewrite land_pow_zero, negb_true_iff by lia. split; [done|lia]. }
  pose proof (head_filter (fun f => f < total_frames b) ((fun bit => i * 64 + bit) <$> bits)) as H.
  destruct (head _) as [f|].
  - destruct H as (k & H1 & H2 & _). apply list_lookup_fmap_Some in H1 as (bit & -> & Hb).
    apply list_elem_of_lookup_2, Hbits in Hb as [Hr Hb].
    assert ((i * 64 + bit) / 64 = i) as Hd by (rewrite Z.div_add_l, (Z.div_small bit) by lia; lia).
    split_and!; [done|lia|done|]. unfold in_use. rewrite Hd.
    by rewrite Z.add_comm, Z.mod_add, Z.mod_small by lia.
  - intros f Hf Hr. destruct (in_use f b) eqn:Eu; [done|]. exfalso.
    apply (H f); [|lia]. apply list_elem_of_fmap. exists (f mod 64).
    pose proof (Z.mod_pos_bound f 64 ltac:(lia)). split; [rewrite (Z.div_mod f 64) at 1; lia|].
    apply Hbits. split; [lia|]. unfold in_use in Eu. by rewrite Hf in Eu.
Qed.
Lemma head_omap {A B} (f : A -> option B) l :
  match head (omap f l) with
  | Some y => exists x, x ∈ l /\ f x = Some y
  | None => forall x, x ∈ l -> f x = None
  end.
Proof.
  induction l as [|a l IH]; [by intros y ?%elem_of_nil|].
  change (omap f (a :: l)) with (match f a with Some y => y :: omap f l | None => omap f l end).
  destruct (f a) as [y|] eqn:E; cbn [head].
  - exists a. split; [by left|done].
  - destruct (head (omap f l)) as [y|].
    + destruct IH as (x & H1 & H2). exists x. split; [by right|done].
    + intros x [->|Hx]%elem_of_cons; auto.
Qed.
Lemma search_spec s e b : wf b -> 0 <= s -> e <= bitmap_len b ->
  match search s e b with
  | Some f => 0 <= f < total_frames b /\ in_use f b = false
  | None => forall f, s <= f / 64 < e -> 0 <= f < total_frames b -> in_use f b = true
  end.
Proof.
  intros Hw Hs He. unfold search. pose proof (head_omap (fun i => search_word i b) (seqZ s (e - s))) as H.
  destruct (head _) as [f|].
  - destruct H as (i & Hi%elem_of_seqZ & Hf). pose proof (search_word_spec i b Hw ltac:(lia)) as Hx.
    rewrite Hf in Hx. apply Hx.
  - intros f Hf Hr. specialize (H (f / 64) ltac:(apply elem_of_seqZ; lia)).
    pose proof (search_word_spec (f / 64) b Hw ltac:(lia)) as Hx. rewrite H in Hx. by apply Hx.
Qed.

Lemma page_of_frame_addr f b : wf b -> 0 <= f < total_frames b -> page_of (f * 4096) = f * 4096.
Proof.
  intros Hw Hf. pose proof (wf_total b Hw). apply page_of_id; [split; unfold u64_mod; lia|].
  by rewrite Z.mod_mul by lia.
Qed.

(** Single-frame allocation.  A success hands out the address of a frame
    that was free, never frame 0, sets exactly its bit and counts it; a failure
    changes nothing and happens only when every frame is in use, although the
    search starts at the last word used and wraps around. *)
Theorem bm_allocate_frame_correct b : wf b ->
  match allocate_frame b with
  | (b', Some a) => wf b' /\ used_frames b' = used_frames b + 1 /\
      exists f, a = f * 4096 /\ 0 < f < total_frames b /\ in_use f b = false /\
        forall g, 0 <= g -> in_use g b' = in_use g b || (g =? f)
  | (b', None) => b' = b /\ forall f, 0 <= f < total_frames b -> in_use f b = true
  end.
Proof.
  intros Hw. unfold allocate_frame. pose proof (wf_last b Hw) as Hl.
  set (r := find_frame b).
  assert (match r with
          | Some f => 0 <= f < total_frames b /\ in_use f b = false
          | None => forall f, 0 <= f < total_frames b -> in_use f b = true end) as Hr.
  { subst r. unfold find_frame. pose proof (search_spec (last_idx b) (bitmap_len b) b Hw ltac:(lia) ltac:(lia)) as H1.
    destruct (search (last_idx b) _ b) as [f|]; [done|].
    pose proof (search_spec 0 (last_idx b) b Hw ltac:(lia) ltac:(lia)) as H2.
    destruct (0 <? last_idx b) eqn:E; simplify_bool.
    - destruct (search 0 (last_idx b) b) as [f|]; [done|]. intros f Hf.
      pose proof (word_range f b Hw Hf). destruct (decide (f / 64 < last_idx b)); [apply H2; lia|apply H1; lia].
    - intros f Hf. pose proof (word_range f b Hw Hf). apply H1; lia. }
  destruct r as [f|]; [|done]. destruct Hr as [Hf Hu].
  assert (f <> 0) as Hne by (intros ->; rewrite (wf_zero b Hw) in Hu by lia; done).
  destruct (mark_spec f b Hw ltac:(lia)) as (H1 & (H2 & H3 & H4) & H5).
  assert (forall g, in_use g (set_last (f / 64) (mark_frame_used f b)) = in_use g (mark_frame_used f b)) as He by done.
  split_and!.
  - destruct H1 as [W1 W2 W3 W4 W5 W6 W7]. split; auto. simpl. rewrite W1, H2.
    pose proof (word_range f b Hw Hf) as Hwr. rewrite (wf_len b Hw) in Hwr. lia.
  - simpl. unfold mark_frame_used. rewrite (proj2 (Z.leb_gt _ _)) by lia.
    pose proof (Z.mod_pos_bound f 64 ltac:(lia)). rewrite land_pow_zero by lia. fold (in_use f b). rewrite Hu. simpl.
    pose proof (used_count_range b ltac:(lia)) as Hc. rewrite <-(wf_used b Hw) in Hc.
    pose proof (wf_total b Hw). apply u64_add_small. unfold u64_mod. lia.
  - exists f. split_and!; [exact (page_of_frame_addr f b Hw Hf)|lia|lia|done|].
    intros g Hg. rewrite He, H5, (proj2 (Z.ltb_lt f (total_frames b))), andb_true_r by lia. done.
Qed.

(** Contiguous allocation is first fit and complete: a success returns the
    lowest run of [pages] free frames above frame 0 and marks exactly that
    run; a failure means no such run exists, so skipping past the first frame
    in use never overlooks a fit. *)
Theorem bm_allocate_contiguous_first_fit pages b : wf b -> 0 <= pages ->
  match allocate_contiguous pages b with
  | (b', Some a) => wf b' /\ exists s, a = s * 4096 /\ 1 <= s /\ s + pages <= total_frames b /\
      run_free s pages b /\ (forall t, 1 <= t < s -> ~ run_free t pages b) /\
      forall g, 0 <= g -> in_use g b' = in_use g b || bool_decide (s <= g < s + pages)
  | (b', None) => b' = b /\ (pages = 0 \/ forall t, 1 <= t -> ~ run_free t pages b)
  end.
Proof.
  intros Hw Hp. unfold allocate_contiguous. destruct (pages =? 0) eqn:E; simplify_bool; [by auto|].
  pose proof (wf_total b Hw) as Ht.
  pose proof (contiguous_loop_spec pages b ltac:(lia) (Z.to_nat (total_frames b)) 1 ltac:(lia) ltac:(lia)) as Hc.
  destruct (contiguous_loop _ 1 pages b) as [s|]; [|by auto].
  destruct Hc as (H1 & H2 & H3 & H4).
  destruct (mark_list_spec (seqZ s pages) (seqZ_nonneg s pages ltac:(lia)) b Hw) as (H5 & H6 & H7).
  split; [exact H5|]. exists s. split_and!; [apply (page_of_frame_addr s b Hw); lia|done..|].
  intros g Hg. etrans; [exact (H7 g Hg)|]. f_equal. apply bool_decide_ext. rewrite elem_of_seqZ. lia.
Qed.

(** Round trip: releasing a contiguous range right after allocating it
    restores every bit and the count of used frames. *)
Theorem bm_alloc_free_roundtrip pages b b' a : wf b -> 0 <= pages ->
  allocate_contiguous pages b = (b', Some a) ->
  let b'' := deallocate_contiguous a pages b' in
  used_frames b'' = used_frames b /\ forall g, 0 <= g -> in_use g b'' = in_use g b.
Proof.
  intros Hw Hp Ha. unfold allocate_contiguous in Ha. destruct (pages =? 0) eqn:E; simplify_bool; [done|].
  pose proof (wf_total b Hw) as Ht.
  pose proof (contiguous_loop_spec pages b ltac:(lia) (Z.to_nat (total_frames b)) 1 ltac:(lia) ltac:(lia)) as Hc.
  destruct (contiguous_loop _ 1 pages b) as [s|]; [|done]. simplify_eq.
  destruct Hc as (H1 & H2 & H3 & _).
  destruct (mark_list_spec (seqZ s pages) (seqZ_nonneg s pages ltac:(lia)) b Hw) as (H5 & (H6 & _) & H7).
  fold (mark_range s pages b) in H5, H6, H7. unfold deallocate_contiguous.
  rewrite (proj2 (Z.eqb_neq _ _)) by lia. rewrite (page_of_frame_addr s b Hw) by lia.
  rewrite Z.div_mul by lia.
  destruct (free_list_spec (seqZ s pages) (seqZ_nonneg s pages ltac:(lia)) _ H5) as (H8 & (H9 & _) & H10).
  fold (free_range s pages (mark_range s pages b)) in H8, H9, H10.
  assert (forall g, 0 <= g -> in_use g (free_range s pages (mark_range s pages b)) = in_use g b) as Hg.
  { intros g Hg. rewrite H10, H7, H6 by done.
    destruct (decide (s <= g < s + pages)) as [Hin|Hout].
    - rewrite (bool_decide_eq_true_2 (g ∈ _ /\ g <> 0 /\ _)) by (rewrite elem_of_seqZ; lia).
      rewrite andb_false_r. symmetry. by apply is_frame_free_spec; [lia|apply H3].
    - rewrite !bool_decide_eq_false_2 by (rewrite elem_of_seqZ; lia). by rewrite orb_false_r, andb_true_r. }
  split; [|done]. rewrite (wf_used _ H8), (wf_used _ Hw). unfold used_count. rewrite H9, H6.
  apply sumZ_ext. intros g Hin%elem_of_seqZ. by rewrite Hg by lia.
Qed.

(** ** Initialisation *)
Lemma max_phys_spec m : forall acc, acc <= foldl (fun acc d => if acc <? desc_end d then desc_end d else acc) acc m /\
  (forall d, d ∈ m -> desc_end d <= foldl (fun acc d => if acc <? desc_end d then desc_end d else acc) acc m) /\
  (foldl (fun acc d => if acc <? desc_end d then desc_end d else acc) acc m = acc \/
   exists d, d ∈ m /\ foldl (fun acc d => if acc <? desc_end d then desc_end d else acc) acc m = desc_end d).
Proof.
  induction m as [|d m IH]; intros acc; cbn [foldl].
  { split_and!; [lia|by intros d ?%elem_of_nil|by left]. }
  destruct (IH (if acc <? desc_end d then desc_end d else acc)) as (H1 & H2 & H3).
  destruct (acc <? desc_end d) eqn:E; simplify_bool; split_and!; try lia.
  - intros e [->|He]%elem_of_cons; auto.
  - right. destruct H3 as [H3|(e & He & H3)]; [exists d|exists e]; (split; [by (by left) || (by right)|done]).
  - intros e [->|He]%elem_of_cons; [lia|auto].
  - destruct H3 as [H3|(e & He & H3)]; [by left|]. right. exists e. split; [by right|done].
Qed.
Lemma desc_end_small d : FibPmm.desc_ok d -> desc_end d = phys_start d + page_count d * 4096.
Proof.
  intros (H1 & H2 & H3 & H4). unfold desc_end.
  rewrite (u64_mul_small (page_count d)), u64_add_small by (unfold u64_mod; lia). done.
Qed.

Lemma full_bitmap_use n start len tot u last f : 0 <= f -> f / 64 < Z.of_nat n ->
  in_use f (mkBm (replicate n u64_max) start len tot u last) = true.
Proof.
  intros Hf Hn. unfold in_use, chunk; simpl.
  rewrite lookup_replicate_2 by (Z.div_mod_to_equations; lia). simpl.
  change u64_max with (Z.ones 64). apply Z.ones_spec_low. apply Z.mod_pos_bound. lia.
Qed.
Lemma sumZ_const {A} (l : list A) : sumZ (fun _ => 1) l = Z.of_nat (length l).
Proof. induction l; simpl; lia. Qed.
Lemma full_bitmap_wf start tot : 0 <= tot < 2 ^ 52 ->
  wf (mkBm (replicate (Z.to_nat ((tot + 63) / 64)) u64_max) start ((tot + 63) / 64) tot tot 0).
Proof.
  intros Ht. assert (0 <= (tot + 63) / 64) by (Z.div_mod_to_equations; lia).
  split; simpl; try lia.
  - rewrite length_replicate. lia.
  - apply Forall_replicate. split; [vm_compute; discriminate|reflexivity].
  - intros H0. apply full_bitmap_use; [lia|]. rewrite Z.div_0_l by lia. Z.div_mod_to_equations; lia.
  - unfold used_count; simpl. rewrite (sumZ_ext _ (fun _ => 1)), sumZ_const, length_seqZ; [lia|].
    intros f Hf%elem_of_seqZ. rewrite full_bitmap_use; [done|lia|]. Z.div_mod_to_equations; lia.
Qed.

(** The frame belongs to a conventional-memory descriptor of the map. *)
Definition conventional (f : Z) (m : list MemoryDescriptor) : Prop :=
  exists d, d ∈ m /\ ty d = CONVENTIONAL /\ phys_start d / 4096 <= f < phys_start d / 4096 + page_count d.
Lemma free_descriptors_spec m : Forall FibPmm.desc_ok m -> forall b, wf b ->
  wf (foldl free_descriptor b m) /\ same_shape b (foldl free_descriptor b m) /\
  forall g, 0 < g < total_frames b -> in_use g (foldl free_descriptor b m) = false <->
    in_use g b = false \/ conventional g m.
Proof.
  induction 1 as [|d m (H0 & _ & Hc & _) _ IH]; intros b Hw; cbn [foldl].
  { split_and!; [done..|]. intros g Hg. split; [by left|]. intros [?|(d & ?%elem_of_nil & _)]; done. }
  assert (wf (free_descriptor b d) /\ same_shape b (free_descriptor b d) /\
    forall g, 0 < g < total_frames b -> in_use g (free_descriptor b d) = false <->
      in_use g b = false \/ (ty d = CONVENTIONAL /\ phys_start d / 4096 <= g < phys_start d / 4096 + page_count d))
    as (H1 & H2 & H3).
  { unfold free_descriptor. destruct (ty d =? CONVENTIONAL) eqn:E; simplify_bool; [|split_and!; [done..|intros; split; [by left|by intros [?|[??]]]]].
    destruct (free_list_spec (seqZ (phys_start d / 4096) (page_count d))) with (b := b) as (H1 & H2 & H3); [|done|].
    { apply seqZ_nonneg. Z.div_mod_to_equations; lia. }
    split_and!; [done..|]. intros g Hg. unfold free_range. rewrite H3, andb_false_iff, negb_false_iff, bool_decide_eq_true, elem_of_seqZ by lia.
    split; intros [?|?]; [by left|right; lia|by left|right; lia]. }
  destruct (IH _ H1) as (H4 & H5 & H6). destruct H2 as (H2 & H2').
  split_and!; [done|split; [|]; destruct H5 as (?&?&?), H2' as (?&?); split_and?; congruence|].
  intros g Hg. rewrite H6, H3 by lia. unfold conventional. split.
  - intros [[?|(?&?)]|(e & He & ?)]; [by left|right; exists d; split; [by left|done]|right; exists e; split; [by right|done]].
  - intros [?|(e & [->|He]%elem_of_cons & ?)]; [by left; left|by left; right|right; exists e; done].
Qed.

Lemma bm_init_spec m b : Forall FibPmm.desc_ok m -> max_phys_addr m < 2 ^ 52 -> init m = Some b ->
  wf b /\ forall g, 0 < g < total_frames b ->
    in_use g b = false <-> conventional g m /\
      ~ (bitmap_start b / 4096 <= g < bitmap_start b / 4096 + (bitmap_len b * 8 + 4095) / 4096).
Proof.
  intros Hm Hmax Hi. unfold init in Hi. destruct (max_phys_spec m 0) as (Hm0 & _ & _). fold (max_phys_addr m) in Hm0.
  set (tot := max_phys_addr m / 4096) in *. assert (0 <= tot < 2 ^ 52) as Ht by (subst tot; Z.div_mod_to_equations; lia).
  set (words := (tot + 63) / 64) in *. destruct (find_bitmap_start (words * 8) m) as [start|] eqn:Es; [|done].
  injection Hi as <-. set (b0 := mkBm _ _ _ _ _ _).
  assert (wf b0) as Hw0 by by apply full_bitmap_wf.
  destruct (free_descriptors_spec m Hm b0 Hw0) as (H1 & (H2 & H3 & H3') & H4).
  set (b1 := foldl free_descriptor b0 m) in *.
  assert (0 <= start) as Hst.
  { unfold find_bitmap_start in Es. apply fmap_Some in Es as (d & Hd & ->). apply head_Some_elem_of in Hd.
    apply list_elem_of_filter in Hd as [_ Hd]. rewrite Forall_forall in Hm. apply (Hm d Hd). }
  destruct (mark_list_spec (seqZ (start / 4096) ((words * 8 + 4095) / 4096))) with (b := b1) as (H5 & (H6 & H7 & _) & H8);
    [apply seqZ_nonneg; Z.div_mod_to_equations; lia|done|].
  fold (mark_range (start / 4096) ((words * 8 + 4095) / 4096) b1) in H5, H6, H7, H8.
  split; [done|]. intros g Hg. rewrite H6, H2 in Hg. rewrite H7, H3, (wf_len _ H5), H6, H2. simpl in Hg. simpl.
  fold words. rewrite H8 by lia. rewrite orb_false_iff, (H4 g Hg), bool_decide_eq_false, elem_of_seqZ.
  assert (in_use g b0 = true) as Hfull.
  { apply full_bitmap_use; [lia|]. unfold words. Z.div_mod_to_equations; lia. }
  rewrite Hfull, H2. simpl. split; intros [HA HB]; (split; [|lia]); [by destruct HA|by right].
Qed.

(** After [init] a frame is free exactly when it lies in conventional
    memory of the memory map, is not frame 0, and is not one of the frames that
    hold the bitmap itself; the word array has the right length and the count
    of used frames is exact. *)
Theorem bm_init_correct m b : Forall FibPmm.desc_ok m -> max_phys_addr m < 2 ^ 52 -> init m = Some b ->
  wf b /\ forall g, 0 < g < total_frames b ->
    in_use g b = false <-> conventional g m /\
      ~ (bitmap_start b / 4096 <= g < bitmap_start b / 4096 + (bitmap_len b * 8 + 4095) / 4096).
Proof. apply bm_init_spec. Qed.

Definition sample : BitmapPmm :=
  default empty (init [FibPmm.mkDesc 7 0 16; FibPmm.mkDesc 7 0x10000 160; FibPmm.mkDesc 2 0xB0000 8]).
Lemma sample_ok : Forall FibPmm.desc_ok [FibPmm.mkDesc 7 0 16; FibPmm.mkDesc 7 0x10000 160; FibPmm.mkDesc 2 0xB0000 8].
Proof. repeat constructor; vm_compute; discriminate. Qed.
Lemma bm_init_correct_witness : wf sample /\ in_use 17 sample = false /\ in_use 16 sample = true.
Proof.
  split; [|split; vm_compute; reflexivity].
  apply (bm_init_correct [FibPmm.mkDesc 7 0 16; FibPmm.mkDesc 7 0x10000 160; FibPmm.mkDesc 2 0xB0000 8] sample).
  - apply sample_ok.
  - vm_compute. reflexivity.
  - vm_compute. reflexivity.
Defined.
Lemma sample_wf : wf sample.
Proof. eapply bm_init_spec; [apply sample_ok|vm_compute; reflexivity..]. Qed.

Lemma bm_allocate_frame_correct_witness :
  wf (allocate_frame sample).1 /\ (allocate_frame sample).2 = Some (1 * 4096).
Proof.
  pose proof (bm_allocate_frame_correct sample sample_wf) as H.
  assert ((allocate_frame sample).2 = Some (1 * 4096)) as E by (vm_compute; reflexivity).
  destruct (allocate_frame sample) as [b' r]. simpl in E |- *. subst r. exact (conj (proj1 H) eq_refl).
Defined.
Lemma bm_allocate_contiguous_first_fit_witness :
  (allocate_contiguous 20 sample).2 = Some (17 * 4096) /\ wf (allocate_contiguous 20 sample).1.
Proof.
  pose proof (bm_allocate_contiguous_first_fit 20 sample sample_wf ltac:(lia)) as H.
  assert ((allocate_contiguous 20 sample).2 = Some (17 * 4096)) as E by (vm_compute; reflexivity).
  destruct (allocate_contiguous 20 sample) as [b' r]. simpl in E |- *. subst r. exact (conj eq_refl (proj1 H)).
Defined.
Lemma bm_alloc_free_roundtrip_witness :
  used_frames (deallocate_contiguous (17 * 4096) 20 (allocate_contiguous 20 sample).1) = used_frames sample.
Proof.
  apply (bm_alloc_free_roundtrip 20 sample (allocate_contiguous 20 sample).1 (17 * 4096) sample_wf ltac:(lia)).
  vm_compute. reflexivity.
Defined.

End BitmapPmm.
