(* ===== verification/FileLock.v ===== *)
(** * File locks

    Models [src/src/fs/file_lock.rs]: POSIX record locks and open-file-description
    (OFD) locks by inode, whole-file [flock] locks by descriptor, the wait-for
    graph with its deadlock search, and the two system calls.  [BTreeMap] and
    [BTreeSet] are [gmap] and [gset]; where the code iterates over a set, its
    elements are sorted first.  The current task and the path behind a
    descriptor are arguments; a system call that would sleep and retry returns
    [None]. *)

From S2P Require Import Prelude.

Module FileLock.

Definition LOCK_SH : Z := 1.
Definition LOCK_EX : Z := 2.
Definition LOCK_UN : Z := 8.
Definition LOCK_NB : Z := 4.
Definition F_RDLCK : Z := 0.
Definition F_WRLCK : Z := 1.
Definition F_UNLCK : Z := 2.
Definition F_SETLK : Z := 6.
Definition F_SETLKW : Z := 7.
Definition F_GETLK : Z := 5.
Definition F_OFD_GETLK : Z := 36.
Definition F_OFD_SETLK : Z := 37.
Definition F_OFD_SETLKW : Z := 38.

Record FileLock := mkLock {
  l_type : Z; l_whence : Z; l_start : Z; l_len : Z; l_pid : Z; is_ofd : bool
}.
#[export] Instance FileLock_eq_dec : EqDecision FileLock.
Proof. solve_decision. Defined.
Definition new (t wh start len pid : Z) : FileLock := mkLock t wh start len pid false.

Definition lock_end (l : FileLock) : Z :=
  if l_len l =? 0 then u64_max else u64_sat_add (l_start l) (l_len l).
Definition overlaps (self other : FileLock) : bool :=
  (l_start self <? lock_end other) && (l_start other <? lock_end self).
Definition contains_offset (offset : Z) (l : FileLock) : bool :=
  (l_start l <=? offset) && (offset <? lock_end l).
Definition conflicts_with (self other : FileLock) : bool :=
  if Bool.eqb (is_ofd self) (is_ofd other) && (l_pid self =? l_pid other) then false
  else if (l_type self =? F_UNLCK) || (l_type other =? F_UNLCK) then false
  else if (l_type self =? F_RDLCK) && (l_type other =? F_RDLCK) then false
  else overlaps self other.

Record FlockLock := mkFlock { fd : Z; lock_type : Z; pid : Z }.

Record FileLockManager := mkMgr {
  posix_locks : gmap Z (list FileLock);
  flock_locks : gmap Z (list FlockLock);
  wait_for_graph : gmap Z (gset Z);
  total_locks : Z;
  total_conflicts : Z
}.
Definition mgr_new : FileLockManager := mkMgr ∅ ∅ ∅ 0 0.
Definition set_posix (p : gmap Z (list FileLock)) (m : FileLockManager) : FileLockManager :=
  mkMgr p (flock_locks m) (wait_for_graph m) (total_locks m) (total_conflicts m).
Definition set_flock (f : gmap Z (list FlockLock)) (m : FileLockManager) : FileLockManager :=
  mkMgr (posix_locks m) f (wait_for_graph m) (total_locks m) (total_conflicts m).
Definition set_graph (g : gmap Z (gset Z)) (m : FileLockManager) : FileLockManager :=
  mkMgr (posix_locks m) (flock_locks m) g (total_locks m) (total_conflicts m).
Definition inc_locks (m : FileLockManager) : FileLockManager :=
  mkMgr (posix_locks m) (flock_locks m) (wait_for_graph m) (u64_add (total_locks m) 1) (total_conflicts m).
Definition inc_conflicts (m : FileLockManager) : FileLockManager :=
  mkMgr (posix_locks m) (flock_locks m) (wait_for_graph m) (total_locks m) (u64_add (total_conflicts m) 1).

Inductive FileLockError := Conflict | InvalidLock | Deadlock | PermissionDenied.

(** ** POSIX and OFD locks *)
Definition locks_of (inode : Z) (m : FileLockManager) : list FileLock := default [] (posix_locks m !! inode).
Definition can_acquire_posix_lock (inode : Z) (lock : FileLock) (m : FileLockManager) : bool :=
  forallb (fun existing => negb (conflicts_with lock existing)) (locks_of inode m).
Definition get_conflicting_lock (inode : Z) (lock : FileLock) (m : FileLockManager) : option FileLock :=
  head (filter (fun existing => conflicts_with lock existing = true) (locks_of inode m)).

Definition acquire_posix_lock (inode : Z) (lock : FileLock) (m : FileLockManager)
  : FileLockManager * (FileLockError + unit) :=
  match get_conflicting_lock inode lock m with
  | Some _ => (inc_conflicts m, inl Conflict)
  | None =>
      if l_type lock =? F_UNLCK then
        (match posix_locks m !! inode with
         | Some existing =>
             set_posix (<[inode := filter (fun l => l_pid l <> l_pid lock \/ overlaps l lock = false) existing]>
                          (posix_locks m)) m
         | None => m
         end, inr tt)
      else (inc_locks (set_posix (<[inode := locks_of inode m ++ [lock]]> (posix_locks m)) m), inr tt)
  end.

Definition release_all_locks (p : Z) (m : FileLockManager) : FileLockManager :=
  set_flock (filter (fun l => pid l <> p) <$> flock_locks m)
    (set_posix (filter (fun l => is_ofd l = true \/ l_pid l <> p) <$> posix_locks m) m).
Definition release_ofd_locks (f : Z) (m : FileLockManager) : FileLockManager :=
  set_posix (filter (fun l => ~ (is_ofd l = true /\ l_pid l = f)) <$> posix_locks m) m.

Definition is_locked (inode offset : Z) (write : bool) (m : FileLockManager) : bool :=
  existsb (fun l => contains_offset offset l &&
             ((l_type l =? F_WRLCK) || ((l_type l =? F_RDLCK) && write))) (locks_of inode m).

(** ** [flock] locks *)
Definition flocks_of (f : Z) (m : FileLockManager) : list FlockLock := default [] (flock_locks m !! f).
Definition flock_conflict (t p : Z) (existing : FlockLock) : bool :=
  negb (pid existing =? p) && ((t =? LOCK_EX) || (lock_type existing =? LOCK_EX)).
Definition acquire_flock (f t p : Z) (m : FileLockManager) : FileLockManager * (FileLockError + unit) :=
  if existsb (flock_conflict t p) (flocks_of f m) then (inc_conflicts m, inl Conflict)
  else
    let m1 := match flock_locks m !! f with
              | Some existing => set_flock (<[f := filter (fun l => pid l <> p) existing]> (flock_locks m)) m
              | None => m
              end in
    if t =? LOCK_UN then (m1, inr tt)
    else (inc_locks (set_flock (<[f := flocks_of f m1 ++ [mkFlock f t p]]> (flock_locks m1)) m1), inr tt).

(** ** Deadlock detection *)
Definition ascending (s : gset Z) : list Z := merge_sort Z.le (elements s).
Definition holders (inode : Z) (lock : FileLock) (m : FileLockManager) : gset Z :=
  list_to_set (l_pid <$> filter (fun l => conflicts_with lock l = true) (locks_of inode m)).

(** [Vec] used as a stack: its last element is the head of [stack].  Every
    iteration pops one element and a vertex's successors are pushed once, so
    the initial stack plus the edges of the graph bound the iterations. *)
Fixpoint dfs (fuel : nat) (graph : gmap Z (gset Z)) (waiter : Z) (visited : gset Z) (stack : list Z) : bool :=
  match fuel with
  | O => false
  | S fuel' =>
      match stack with
      | [] => false
      | p :: stack' =>
          if p =? waiter then true
          else if decide (p ∈ visited) then dfs fuel' graph waiter visited stack'
          else dfs fuel' graph waiter ({[p]} ∪ visited)
                 (rev (ascending (default ∅ (graph !! p))) ++ stack')
      end
  end.
Definition out_degree (graph : gmap Z (gset Z)) (p : Z) : nat := size (default ∅ (graph !! p)).
Definition edge_count (graph : gmap Z (gset Z)) (vs : list Z) : nat := sum_list_with (out_degree graph) vs.
Definition detect_deadlock (waiter inode : Z) (lock : FileLock) (m : FileLockManager) : bool :=
  if is_ofd lock then false
  else
    let stack := rev (ascending (holders inode lock m)) in
    let g := wait_for_graph m in
    dfs (S (length stack + edge_count g (elements (dom g)))) g waiter ∅ stack.

Definition add_wait_edges (waiter inode : Z) (lock : FileLock) (m : FileLockManager) : FileLockManager :=
  if is_ofd lock then m
  else set_graph (<[waiter := holders inode lock m]> (wait_for_graph m)) m.
Definition remove_wait_edges (p : Z) (m : FileLockManager) : FileLockManager :=
  set_graph ((fun hs : gset Z => hs ∖ {[p]}) <$> delete p (wait_for_graph m)) m.

(** ** System calls *)
Definition EBADF : Z := -9.
Definition EAGAIN : Z := -11.
Definition EINVAL : Z := -22.
Definition EDEADLK : Z := -35.

(** One pass of the loop; [None]: sleep and try again. *)
Definition sys_flock (cur f operation : Z) (m : FileLockManager) : FileLockManager * option Z :=
  if f <? 0 then (m, Some EBADF)
  else
    let t := Z.land operation (Z.lnot LOCK_NB) in
    let nonblock := negb (Z.land operation LOCK_NB =? 0) in
    if negb (t =? LOCK_SH) && negb (t =? LOCK_EX) && negb (t =? LOCK_UN) then (m, Some EINVAL)
    else match acquire_flock f t cur m with
         | (m', inr tt) => (m', Some 0)
         | (m', inl Conflict) => (m', if nonblock then Some EAGAIN else None)
         | (m', inl _) => (m', Some EINVAL)
         end.

(** djb2 over the path bytes. *)
Definition path_hash (path : list Z) : Z := foldl (fun h b => u64_add (u64_mul h 33) b) 5381 path.
Definition inode_of (path : option (list Z)) (f : Z) : Z :=
  match path with Some p => path_hash p | None => f end.

(** One pass of the [F_SETLKW] loop, after the wait edges are in place. *)
Definition setlkw_pass (inode : Z) (lock : FileLock) (m : FileLockManager) : FileLockManager * option Z :=
  match acquire_posix_lock inode lock m with
  | (m', inr tt) => (remove_wait_edges (l_pid lock) m', Some 0)
  | (m', inl Conflict) => (m', None)
  | (m', inl _) => (remove_wait_edges (l_pid lock) m', Some EINVAL)
  end.

(** One call up to its first sleep.  The deadlock test, the recording of the
    edges and the attempt take the locks of the manager one after the other; here
    nothing comes between them.  The set of locks is changed by the attempt
    alone, under the lock of [posix_locks], so exclusion does not depend on it;
    what the deadlock test promises does. *)
Definition sys_fcntl_lock (cur : Z) (path : option (list Z)) (f cmd : Z) (lock : FileLock) (m : FileLockManager)
  : FileLockManager * FileLock * option Z :=
  if f <? 0 then (m, lock, Some EBADF)
  else if negb (l_type lock =? F_RDLCK) && negb (l_type lock =? F_WRLCK) && negb (l_type lock =? F_UNLCK)
  then (m, lock, Some EINVAL)
  else
    let ofd := (cmd =? F_OFD_GETLK) || (cmd =? F_OFD_SETLK) || (cmd =? F_OFD_SETLKW) in
    if ofd && negb (l_pid lock =? 0) then (m, lock, Some EINVAL)
    else
      let inode := inode_of path f in
      let lock := mkLock (l_type lock) (l_whence lock) (l_start lock) (l_len lock)
                    (if ofd then f else cur) ofd in
      let posix_cmd := if cmd =? F_OFD_GETLK then F_GETLK else if cmd =? F_OFD_SETLK then F_SETLK
                       else if cmd =? F_OFD_SETLKW then F_SETLKW else cmd in
      if posix_cmd =? F_GETLK then
        match get_conflicting_lock inode lock m with
        | Some c => (m, if is_ofd c then mkLock (l_type c) (l_whence c) (l_start c) (l_len c) u64_max true else c, Some 0)
        | None => (m, mkLock F_UNLCK (l_whence lock) (l_start lock) (l_len lock) (l_pid lock) ofd, Some 0)
        end
      else if posix_cmd =? F_SETLK then
        match acquire_posix_lock inode lock m with
        | (m', inr tt) => (m', lock, Some 0)
        | (m', inl Conflict) => (m', lock, Some EAGAIN)
        | (m', inl _) => (m', lock, Some EINVAL)
        end
      else if posix_cmd =? F_SETLKW then
        if detect_deadlock (l_pid lock) inode lock m then (m, lock, Some EDEADLK)
        else let '(m', r) := setlkw_pass inode lock (add_wait_edges (l_pid lock) inode lock m) in (m', lock, r)
      else (m, lock, Some EINVAL).

Definition is_mandatory_locking_enabled (mode : Z) : bool :=
  negb (Z.land mode 0x400 =? 0) && (Z.land mode 0x20 =? 0).

(** ** Ranges *)
Definition lock_ok (l : FileLock) : Prop := is_u64 (l_start l) /\ is_u64 (l_len l).
Lemma lock_end_range l : lock_ok l -> l_start l <= lock_end l <= u64_max /\ (l_start l < u64_max -> l_start l < lock_end l).
Proof.
  intros [H1 H2]. unfold lock_end. destruct (l_len l =? 0) eqn:E; simplify_bool; mlia.
Qed.
Lemma overlaps_iff a b : lock_ok a -> lock_ok b ->
  overlaps a b = true <-> exists o, contains_offset o a = true /\ contains_offset o b = true.
Proof.
  intros Ha Hb. pose proof (lock_end_range a Ha). pose proof (lock_end_range b Hb).
  unfold overlaps, contains_offset. split.
  - intros E. simplify_bool. exists (Z.max (l_start a) (l_start b)).
    split; apply andb_true_iff; split; (apply Z.leb_le || apply Z.ltb_lt); lia.
  - intros (o & H1 & H2). simplify_bool. apply andb_true_iff; split; apply Z.ltb_lt; lia.
Qed.
Lemma overlaps_sym a b : overlaps a b = overlaps b a.
Proof. unfold overlaps. apply andb_comm. Qed.
Lemma conflicts_sym a b : conflicts_with a b = conflicts_with b a.
Proof.
  unfold conflicts_with. rewrite overlaps_sym, (Z.eqb_sym (l_pid a)), (orb_comm (l_type a =? _)), (andb_comm (l_type a =? _)).
  by replace (Bool.eqb (is_ofd a) (is_ofd b)) with (Bool.eqb (is_ofd b) (is_ofd a)) by (by destruct (is_ofd a), (is_ofd b)).
Qed.
Lemma conflicts_self a : conflicts_with a a = false.
Proof. unfold conflicts_with. by rewrite Z.eqb_refl, Bool.eqb_reflx. Qed.

(** ** Exclusion *)
Definition posix_inv (m : FileLockManager) : Prop :=
  forall inode a b, a ∈ locks_of inode m -> b ∈ locks_of inode m -> conflicts_with a b = false.
Definition flock_inv (m : FileLockManager) : Prop :=
  forall f a b, a ∈ flocks_of f m -> b ∈ flocks_of f m -> pid a <> pid b -> lock_type a <> LOCK_EX.
Definition typed (m : FileLockManager) : Prop :=
  forall inode a, a ∈ locks_of inode m -> lock_ok a /\ (l_type a = F_RDLCK \/ l_type a = F_WRLCK).

Lemma head_None_filter {A} (P : A -> Prop) `{forall x, Decision (P x)} l :
  head (filter P l) = None -> forall x, x ∈ l -> ~ P x.
Proof.
  intros Hh x Hx HP. assert (x ∈ filter P l) as Hin by by apply list_elem_of_filter.
  destruct (filter P l); [by apply elem_of_nil in Hin|done].
Qed.
Lemma no_conflict_acquire inode lock m : get_conflicting_lock inode lock m = None ->
  forall x, x ∈ locks_of inode m -> conflicts_with lock x = false.
Proof. intros H x Hx. apply not_true_is_false. exact (head_None_filter _ _ H x Hx). Qed.
Lemma locks_of_insert inode j ls m :
  locks_of j (set_posix (<[inode := ls]> (posix_locks m)) m) = if decide (j = inode) then ls else locks_of j m.
Proof.
  unfold locks_of; simpl. case_decide; subst; [by rewrite lookup_insert_eq|by rewrite lookup_insert_ne].
Qed.
Lemma locks_of_filter (P : FileLock -> Prop) `{forall x, Decision (P x)} j m :
  locks_of j (set_posix (filter P <$> posix_locks m) m) = filter P (locks_of j m).
Proof. unfold locks_of; simpl. rewrite lookup_fmap. by destruct (posix_locks m !! j). Qed.

Definition inv (m : FileLockManager) : Prop := posix_inv m /\ flock_inv m /\ typed m.
(** Changes that leave the tables alone, or only shrink them. *)
Definition shrinks (m m' : FileLockManager) : Prop :=
  (forall j x, x ∈ locks_of j m' -> x ∈ locks_of j m) /\ (forall f x, x ∈ flocks_of f m' -> x ∈ flocks_of f m).
#[export] Instance shrinks_preorder : PreOrder shrinks.
Proof. split; [intros m; by split|]. intros m1 m2 m3 [A1 A2] [B1 B2]. split; eauto. Qed.
Lemma shrinks_inv m m' : shrinks m m' -> inv m -> inv m'.
Proof.
  intros [H1 H2] (I1 & I2 & I3). split_and!.
  - intros j a b Ha Hb. eapply I1; eauto.
  - intros f a b Ha Hb. eapply I2; eauto.
  - intros j a Ha. eapply I3; eauto.
Qed.

Lemma acquire_posix_inv inode lock m : inv m -> lock_ok lock ->
  l_type lock = F_RDLCK \/ l_type lock = F_WRLCK \/ l_type lock = F_UNLCK ->
  inv (acquire_posix_lock inode lock m).1.
Proof.
  intros (I1 & I2 & I3) Hok Ht. unfold acquire_posix_lock.
  destruct (get_conflicting_lock inode lock m) eqn:E; [by split_and!|].
  destruct (l_type lock =? F_UNLCK) eqn:Et; simplify_bool; simpl.
  - apply (shrinks_inv m); [|by split_and!]. destruct (posix_locks m !! inode) as [ex|] eqn:El; [|done].
    split; [|done]. intros j x. rewrite locks_of_insert. case_decide; subst; [|done].
    unfold locks_of. rewrite El. by intros [_ ?]%list_elem_of_filter.
  - pose proof (no_conflict_acquire _ _ _ E) as Hn.
    assert (forall j x, x ∈ locks_of j (inc_locks (set_posix (<[inode:=locks_of inode m ++ [lock]]> (posix_locks m)) m)) ->
              x ∈ locks_of j m \/ (j = inode /\ x = lock)) as Hin.
    { intros j x Hx. change (x ∈ locks_of j (set_posix (<[inode:=locks_of inode m ++ [lock]]> (posix_locks m)) m)) in Hx.
      rewrite locks_of_insert in Hx. case_decide; subst; [|by left].
      apply elem_of_app in Hx as [Hx|Hx%list_elem_of_singleton]; auto. }
    split_and!; [|exact I2|].
    + intros j a b [Ha|[-> ->]]%Hin [Hb|[? ->]]%Hin; simplify_eq; eauto using conflicts_self.
      rewrite conflicts_sym. auto.
    + intros j a [Ha|[-> ->]]%Hin; [eauto|]. split; [done|]. destruct Ht as [?|[?|?]]; [by left|by right|done].
Qed.

Lemma flocks_of_insert f j ls m :
  flocks_of j (set_flock (<[f := ls]> (flock_locks m)) m) = if decide (j = f) then ls else flocks_of j m.
Proof.
  unfold flocks_of; simpl. case_decide; subst; [by rewrite lookup_insert_eq|by rewrite lookup_insert_ne].
Qed.
Lemma acquire_flock_inv f t p m : inv m -> inv (acquire_flock f t p m).1.
Proof.
  intros Hi. unfold acquire_flock. destruct (existsb _ _) eqn:E; [exact Hi|].
  assert (forall x, x ∈ flocks_of f m -> pid x <> p -> t <> LOCK_EX /\ lock_type x <> LOCK_EX) as Hc.
  { intros x Hx Hp. rewrite <-not_true_iff_false, existsb_exists in E.
    split; intros Heq; apply E; exists x; (split; [by apply list_elem_of_In|]); unfold flock_conflict;
      rewrite (proj2 (Z.eqb_neq _ _) Hp), Heq; simpl; [done|by rewrite orb_true_r]. }
  set (m1 := match flock_locks m !! f with Some _ => _ | None => m end).
  assert (shrinks m m1 /\ forall x, x ∈ flocks_of f m1 -> pid x <> p) as [Hs Hp].
  { subst m1. destruct (flock_locks m !! f) as [ex|] eqn:El.
    - split; [split; [done|]|].
      + intros j x. rewrite flocks_of_insert. case_decide; subst; [|done].
        unfold flocks_of. rewrite El. by intros [_ ?]%list_elem_of_filter.
      + intros x. rewrite flocks_of_insert, decide_True by done. by intros [? _]%list_elem_of_filter.
    - split; [done|]. intros x. unfold flocks_of. rewrite El. by intros ?%elem_of_nil. }
  clearbody m1. pose proof (shrinks_inv _ _ Hs Hi) as (I1 & I2 & I3).
  destruct (t =? LOCK_UN); [by split_and!|]. split_and!; [exact I1| |exact I3].
  assert (forall j x, x ∈ flocks_of j (set_flock (<[f := flocks_of f m1 ++ [mkFlock f t p]]> (flock_locks m1)) m1) ->
            x ∈ flocks_of j m1 \/ (j = f /\ x = mkFlock f t p)) as Hin.
  { intros j x. rewrite flocks_of_insert. case_decide; subst; [|by left].
    intros [?|?%list_elem_of_singleton]%elem_of_app; auto. }
  intros j a b Ha Hb Hne.
  apply Hin in Ha as [Ha|[-> ->]], Hb as [Hb|[Hj ->]]; simplify_eq/=; eauto.
  - destruct Hs as [_ Hs]. apply (Hc a); [by apply Hs|by apply Hp].
  - destruct Hs as [_ Hs]. apply (Hc b); [by apply Hs|by apply Hp].
Qed.

Lemma release_all_shrinks p m : shrinks m (release_all_locks p m).
Proof.
  split.
  - intros j x. change (locks_of j (release_all_locks p m)) with
      (locks_of j (set_posix (filter (fun l => is_ofd l = true \/ l_pid l <> p) <$> posix_locks m) m)).
    rewrite locks_of_filter. by intros [_ ?]%list_elem_of_filter.
  - intros f x. unfold flocks_of; simpl. rewrite lookup_fmap. destruct (flock_locks m !! f); simpl; [|done].
    by intros [_ ?]%list_elem_of_filter.
Qed.
Lemma release_ofd_shrinks f m : shrinks m (release_ofd_locks f m).
Proof.
  split; [|done]. intros j x. unfold release_ofd_locks. rewrite locks_of_filter. by intros [_ ?]%list_elem_of_filter.
Qed.

(** ** The deadlock search *)
Definition edge (g : gmap Z (gset Z)) (a b : Z) : Prop := b ∈ default (∅ : gset Z) (g !! a).

Lemma ascending_perm s : rev (ascending s) ≡ₚ elements s.
Proof. unfold ascending. etrans; [symmetry; apply Permutation_rev|apply merge_sort_Permutation]. Qed.
Lemma elem_of_ascending x s : x ∈ rev (ascending s) <-> x ∈ s.
Proof. rewrite ascending_perm. apply elem_of_elements. Qed.
Lemma length_ascending s : length (rev (ascending s)) = size s.
Proof. by rewrite ascending_perm. Qed.

Lemma dfs_sound g waiter fuel : forall visited stack,
  dfs fuel g waiter visited stack = true -> exists p, p ∈ stack /\ rtc (edge g) p waiter.
Proof.
  induction fuel as [|fuel IH]; intros visited [|p stack] H; simpl in H; try done.
  destruct (p =? waiter) eqn:E; simplify_bool; subst.
  { exists waiter. split; [by left|done]. }
  destruct (decide (p ∈ visited)).
  - destruct (IH _ _ H) as (q & Hq & Hr). exists q. split; [by right|done].
  - destruct (IH _ _ H) as (q & [Hq|Hq]%elem_of_app & Hr).
    + exists p. split; [by left|]. eapply rtc_l; [|done]. by apply elem_of_ascending in Hq.
    + exists q. split; [by right|done].
Qed.

Definition unvisited_edges (g : gmap Z (gset Z)) (V : gset Z) : nat := edge_count g (elements (dom g ∖ V)).
Lemma edge_count_perm g l k : l ≡ₚ k -> edge_count g l = edge_count g k.
Proof. unfold edge_count. induction 1; simpl in *; lia. Qed.
Lemma unvisited_visit g (V : gset Z) p : p ∉ V ->
  (unvisited_edges g ({[p]} ∪ V) + out_degree g p = unvisited_edges g V)%nat.
Proof.
  intros Hp. unfold unvisited_edges. destruct (decide (p ∈ dom g)) as [Hd|Hd].
  - rewrite (edge_count_perm g (elements (dom g ∖ V)) (p :: elements (dom g ∖ ({[p]} ∪ V)))).
    + unfold edge_count; simpl. lia.
    + rewrite <-elements_union_singleton by set_solver. apply elements_proper.
      intros x. destruct (decide (x = p)); set_solver.
  - replace (dom g ∖ ({[p]} ∪ V)) with (dom g ∖ V) by set_solver.
    unfold out_degree. apply not_elem_of_dom in Hd. rewrite Hd.
    change (default ∅ None) with (∅ : gset Z). rewrite size_empty. lia.
Qed.

Lemma dfs_complete g waiter fuel : forall (visited : gset Z) stack,
  (length stack + unvisited_edges g visited < fuel)%nat -> waiter ∉ visited ->
  (forall v w, v ∈ visited -> edge g v w -> w ∈ visited \/ w ∈ stack) ->
  dfs fuel g waiter visited stack = false ->
  exists V : gset Z, (waiter ∉ V) /\ (forall x, (x ∈ visited \/ x ∈ stack) -> x ∈ V) /\
    forall v w, v ∈ V -> edge g v w -> w ∈ V.
Proof.
  induction fuel as [|fuel IH]; intros visited [|p stack] Hf Hw Hcl H; cbn [dfs length] in *; try lia.
  { exists visited. split_and!; [done|by intros x [?|?%elem_of_nil]|].
    intros v w Hv He. destruct (Hcl v w Hv He) as [?|?%elem_of_nil]; done. }
  destruct (p =? waiter) eqn:E; simplify_bool; [done|].
  destruct (decide (p ∈ visited)) as [Hp|Hp].
  - destruct (IH visited stack) as (V & H1 & H2 & H3); [lia|done| |done|].
    + intros v w Hv He. destruct (Hcl v w Hv He) as [?|[->|?]%elem_of_cons]; auto.
    + exists V. split_and!; [done| |done]. intros x [Hx|[->|Hx]%elem_of_cons]; auto.
  - pose proof (unvisited_visit g visited p Hp) as Hm.
    destruct (IH ({[p]} ∪ visited) (rev (ascending (default ∅ (g !! p))) ++ stack)) as (V & H1 & H2 & H3).
    + rewrite length_app, length_ascending. unfold out_degree in Hm. lia.
    + set_solver.
    + intros v w Hv He. destruct (decide (v = p)) as [->|Hne].
      * right. apply elem_of_app; left. by apply elem_of_ascending.
      * destruct (Hcl v w) as [?|[->|?]%elem_of_cons]; [set_solver|done|left; set_solver|left; set_solver|].
        right. apply elem_of_app; by right.
    + done.
    + exists V. split_and!; [done| |done]. intros x [Hx|[->|Hx]%elem_of_cons]; apply H2.
      * left. set_solver. * left. set_solver. * right. apply elem_of_app; by right.
Qed.
Lemma dfs_correct g waiter (hs : gset Z) :
  let stack := rev (ascending hs) in
  dfs (S (length stack + edge_count g (elements (dom g)))) g waiter ∅ stack = true <->
  exists h, h ∈ hs /\ rtc (edge g) h waiter.
Proof.
  intros stack. split.
  - intros H%dfs_sound. destruct H as (h & Hh & Hr). exists h. split; [by apply elem_of_ascending|done].
  - intros (h & Hh & Hr). apply not_false_is_true. intros H.
    eapply dfs_complete in H as (V & H1 & H2 & H3).
    + apply H1. apply elem_of_ascending in Hh. specialize (H2 h (or_intror Hh)). clear -Hr H2 H3.
      induction Hr as [x|x y z Hxy _ IHr]; [done|]. apply IHr. by eapply H3.
    + unfold unvisited_edges. replace (dom g ∖ ∅) with (dom g) by set_solver. lia.
    + set_solver.
    + set_solver.
Qed.

(** ** Histories of system calls *)
Inductive op :=
| Fcntl (cur : Z) (path : option (list Z)) (f cmd : Z) (lock : FileLock)
| Flock (cur f operation : Z)
| Retry (inode : Z) (lock : FileLock)      (* a blocked [F_SETLKW] wakes up *)
| ExitProcess (p : Z)
| CloseOfd (f : Z).
Definition step (o : op) (m : FileLockManager) : FileLockManager :=
  match o with
  | Fcntl cur path f cmd lock => (sys_fcntl_lock cur path f cmd lock m).1.1
  | Flock cur f operation => (sys_flock cur f operation m).1
  | Retry inode lock => (setlkw_pass inode lock m).1
  | ExitProcess p => release_all_locks p m
  | CloseOfd f => release_ofd_locks f m
  end.
Definition op_ok (o : op) : Prop :=
  match o with
  | Fcntl _ _ _ _ lock => lock_ok lock
  | Retry _ lock => lock_ok lock /\ (l_type lock = F_RDLCK \/ l_type lock = F_WRLCK \/ l_type lock = F_UNLCK)
  | _ => True
  end.
Definition run (ops : list op) (m : FileLockManager) : FileLockManager := foldl (fun m o => step o m) m ops.

Lemma setlkw_inv inode lock m : inv m -> lock_ok lock ->
  l_type lock = F_RDLCK \/ l_type lock = F_WRLCK \/ l_type lock = F_UNLCK -> inv (setlkw_pass inode lock m).1.
Proof.
  intros Hi Hok Ht. pose proof (acquire_posix_inv inode lock m Hi Hok Ht) as H. unfold setlkw_pass.
  destruct (acquire_posix_lock inode lock m) as [m' [[]|[]]]; exact H.
Qed.
Lemma fcntl_inv cur path f cmd lock m : inv m -> lock_ok lock -> inv (sys_fcntl_lock cur path f cmd lock m).1.1.
Proof.
  intros Hi Hok. unfold sys_fcntl_lock. destruct (f <? 0); [done|].
  destruct (_ && negb (l_type lock =? F_UNLCK)) eqn:Et; [done|].
  assert (l_type lock = F_RDLCK \/ l_type lock = F_WRLCK \/ l_type lock = F_UNLCK) as Ht.
  { apply andb_false_iff in Et as [Et|Et]; [apply andb_false_iff in Et as [Et|Et]|]; simplify_bool; auto. }
  clear Et. destruct (_ && negb (l_pid lock =? 0)); [done|]. cbv zeta.
  set (ofd := _ || (cmd =? F_OFD_SETLKW)). set (lock' := mkLock _ _ _ _ _ ofd).
  set (inode := inode_of path f). clearbody ofd inode.
  assert (lock_ok lock' /\ l_type lock' = l_type lock) as [Hok' Ht'] by done. rewrite <-Ht' in Ht. clearbody lock'.
  destruct (_ =? F_GETLK); [by destruct (get_conflicting_lock inode lock' m)|].
  destruct (_ =? F_SETLK).
  - pose proof (acquire_posix_inv inode lock' m Hi Hok' Ht) as H.
    destruct (acquire_posix_lock inode lock' m) as [m' [[]|[]]]; exact H.
  - destruct (_ =? F_SETLKW); [|done]. destruct (detect_deadlock _ _ _ _); [done|].
    assert (inv (add_wait_edges (l_pid lock') inode lock' m)) as Hi'
      by (unfold add_wait_edges; by destruct (is_ofd lock')).
    pose proof (setlkw_inv inode lock' _ Hi' Hok' Ht) as H.
    destruct (setlkw_pass inode lock' _) as [m' r]. exact H.
Qed.
Lemma sys_flock_inv cur f operation m : inv m -> inv (sys_flock cur f operation m).1.
Proof.
  intros Hi. unfold sys_flock. destruct (f <? 0); [done|]. destruct (_ && _); [done|].
  pose proof (acquire_flock_inv f (Z.land operation (Z.lnot LOCK_NB)) cur m Hi) as H.
  destruct (acquire_flock _ _ _ _) as [m' [[]|[]]]; exact H.
Qed.
Lemma step_inv o m : inv m -> op_ok o -> inv (step o m).
Proof.
  intros Hi Ho. destruct o as [cur path f cmd lock|cur f operation|inode lock|p|f]; simpl in *.
  - by apply fcntl_inv.
  - by apply sys_flock_inv.
  - destruct Ho as [Hok Ht]. by apply setlkw_inv.
  - eapply shrinks_inv; [apply release_all_shrinks|done].
  - eapply shrinks_inv; [apply release_ofd_shrinks|done].
Qed.
Lemma inv_new : inv mgr_new.
Proof.
  assert (forall j, locks_of j mgr_new = [] /\ flocks_of j mgr_new = []) as H by done.
  split_and!; intros j *; rewrite ?(proj1 (H j)), ?(proj2 (H j)); by intros ?%elem_of_nil.
Qed.
Lemma run_inv ops : Forall op_ok ops -> forall m, inv m -> inv (run ops m).
Proof. induction 1 as [|o ops Ho _ IH]; intros m Hm; [done|]. simpl. apply IH. by apply step_inv. Qed.

(** Two record locks have the same owner: same kind, same process or descriptor. *)
Definition same_owner (a b : FileLock) : Prop := is_ofd a = is_ofd b /\ l_pid a = l_pid b.

(** C27: Record-lock exclusion.  After any history of [fcntl], [flock], retries
    of blocked requests, process exits and descriptor closes, two locks of
    different owners on one inode that share a byte are both read locks. *)
Theorem fl_posix_exclusion ops inode a b o :
  Forall op_ok ops ->
  let m := run ops mgr_new in
  a ∈ locks_of inode m -> b ∈ locks_of inode m -> ~ same_owner a b ->
  contains_offset o a = true -> contains_offset o b = true ->
  l_type a = F_RDLCK /\ l_type b = F_RDLCK.
Proof.
  intros Ho m Ha Hb Hne Hca Hcb. destruct (run_inv ops Ho mgr_new inv_new) as (I1 & _ & I3). fold m in I1, I3.
  pose proof (I1 _ _ _ Ha Hb) as Hc. destruct (I3 _ _ Ha) as [Hoka Hta], (I3 _ _ Hb) as [Hokb Htb].
  unfold conflicts_with in Hc.
  destruct (Bool.eqb (is_ofd a) (is_ofd b) && (l_pid a =? l_pid b)) eqn:E1.
  { exfalso. apply Hne. simplify_bool. split; [|done]. by apply Bool.eqb_prop. }
  destruct ((l_type a =? F_UNLCK) || (l_type b =? F_UNLCK)) eqn:E2.
  { exfalso. apply orb_true_iff in E2 as [E2|E2]; simplify_bool;
      [destruct Hta as [H|H]|destruct Htb as [H|H]]; rewrite E2 in H; discriminate. }
  destruct ((l_type a =? F_RDLCK) && (l_type b =? F_RDLCK)) eqn:E3; [by simplify_bool|].
  assert (overlaps a b = true) as Hov by (apply overlaps_iff; eauto). congruence.
Qed.
Definition wlock (start len : Z) : FileLock := new F_WRLCK 0 start len 0.
Definition rlock (start len : Z) : FileLock := new F_RDLCK 0 start len 0.
Definition sample_ops : list op :=
  [Fcntl 10 None 3 F_SETLK (rlock 0 100); Fcntl 11 None 3 F_SETLK (rlock 50 100);
   Fcntl 12 None 3 F_SETLK (wlock 0 10); Fcntl 12 None 3 F_SETLK (wlock 500 10); Flock 10 4 LOCK_EX].
Lemma fl_posix_exclusion_witness :
  let a := mkLock F_RDLCK 0 0 100 10 false in
  let b := mkLock F_RDLCK 0 50 100 11 false in
  locks_of 3 (run sample_ops mgr_new) = [a; b; mkLock F_WRLCK 0 500 10 12 false] /\
  l_type a = F_RDLCK /\ l_type b = F_RDLCK.
Proof.
  cbv zeta. assert (locks_of 3 (run sample_ops mgr_new) =
    [mkLock F_RDLCK 0 0 100 10 false; mkLock F_RDLCK 0 50 100 11 false; mkLock F_WRLCK 0 500 10 12 false]) as E
    by (vm_compute; reflexivity).
  split; [exact E|].
  apply (fl_posix_exclusion sample_ops 3 (mkLock F_RDLCK 0 0 100 10 false) (mkLock F_RDLCK 0 50 100 11 false) 60).
  - repeat constructor; vm_compute; discriminate.
  - rewrite E. by left.
  - rewrite E. right. by left.
  - by intros [_ ?].
  - reflexivity.
  - reflexivity.
Defined.

(** [flock] exclusion.  After any such history an exclusive [flock] lock on
    a descriptor excludes every lock of another process on it. *)
Theorem fl_flock_exclusion ops f a b :
  Forall op_ok ops ->
  let m := run ops mgr_new in
  a ∈ flocks_of f m -> b ∈ flocks_of f m -> lock_type a = LOCK_EX -> pid a = pid b.
Proof.
  intros Ho m Ha Hb Hex. destruct (run_inv ops Ho mgr_new inv_new) as (_ & I2 & _). fold m in I2.
  destruct (decide (pid a = pid b)) as [|Hne]; [done|]. exfalso. by apply (I2 f a b).
Qed.
Lemma fl_flock_exclusion_witness :
  flocks_of 4 (run sample_ops mgr_new) = [mkFlock 4 LOCK_EX 10] /\ pid (mkFlock 4 LOCK_EX 10) = pid (mkFlock 4 LOCK_EX 10).
Proof.
  assert (flocks_of 4 (run sample_ops mgr_new) = [mkFlock 4 LOCK_EX 10]) as E by (vm_compute; reflexivity).
  split; [exact E|]. apply (fl_flock_exclusion sample_ops 4).
  - repeat constructor; vm_compute; discriminate.
  - rewrite E. by left.
  - rewrite E. by left.
  - reflexivity.
Defined.

(** The deadlock search terminates within its bound and decides reachability in
    the recorded graph: it answers yes exactly when from some process that holds
    a conflicting lock the requester is reached along the recorded edges.  The
    recorded edges are fewer than the real waits, see [deadlock_missed]. *)
Theorem fl_deadlock_exact waiter inode lock m :
  detect_deadlock waiter inode lock m = true <->
  is_ofd lock = false /\
  exists h, (exists l, l ∈ locks_of inode m /\ conflicts_with lock l = true /\ l_pid l = h) /\
    rtc (edge (wait_for_graph m)) h waiter.
Proof.
  unfold detect_deadlock. destruct (is_ofd lock); [naive_solver|]. rewrite dfs_correct.
  assert (forall h, h ∈ holders inode lock m <->
    exists l, l ∈ locks_of inode m /\ conflicts_with lock l = true /\ l_pid l = h) as Hh.
  { intros h. unfold holders. rewrite elem_of_list_to_set, list_elem_of_fmap.
    split; intros (l & H1 & H2); exists l.
    - apply list_elem_of_filter in H2 as [? ?]. by split_and!.
    - destruct H2 as [H2 <-]. split; [done|]. by apply list_elem_of_filter. }
  split.
  - intros (h & H1 & H2). split; [done|]. exists h. by rewrite <-Hh.
  - intros [_ (h & H1 & H2)]. exists h. by rewrite Hh.
Qed.

(** [F_GETLK] and [F_SETLK] agree: the query reports a conflicting lock of
    the table exactly when the request would be refused with [EAGAIN], and a
    refused request leaves the lock table as it was. *)
Theorem fl_query_matches_acquire inode lock m :
  (can_acquire_posix_lock inode lock m = true <-> (acquire_posix_lock inode lock m).2 = inr tt) /\
  (forall c, get_conflicting_lock inode lock m = Some c ->
     c ∈ locks_of inode m /\ conflicts_with lock c = true /\
     (acquire_posix_lock inode lock m).2 = inl Conflict /\
     posix_locks (acquire_posix_lock inode lock m).1 = posix_locks m) /\
  (get_conflicting_lock inode lock m = None <-> can_acquire_posix_lock inode lock m = true).
Proof.
  assert (get_conflicting_lock inode lock m = None <-> can_acquire_posix_lock inode lock m = true) as Hg.
  { unfold can_acquire_posix_lock. rewrite forallb_forall. split.
    - intros Hn x Hx%list_elem_of_In. apply negb_true_iff. by eapply no_conflict_acquire.
    - intros Hf. unfold get_conflicting_lock. destruct (filter _ _) as [|y l] eqn:E; [done|].
      assert (y ∈ filter (fun x => conflicts_with lock x = true) (locks_of inode m)) as Hy by (rewrite E; by left).
      apply list_elem_of_filter in Hy as [H1 H2]. apply list_elem_of_In, Hf in H2. by rewrite H1 in H2. }
  split_and!; [|intros c Hc|exact Hg].
  - rewrite <-Hg. unfold acquire_posix_lock. destruct (get_conflicting_lock inode lock m); [done|].
    by destruct (l_type lock =? F_UNLCK).
  - assert (c ∈ filter (fun x => conflicts_with lock x = true) (locks_of inode m)) as Hin by by apply head_Some_elem_of.
    apply list_elem_of_filter in Hin as [H1 H2]. unfold acquire_posix_lock. by rewrite Hc.
Qed.

(** A deadlock that is not reported.  Process 2 holds b and waits for a, which
    process 1 holds; process 1 takes a third lock, which drops it from the
    recorded holders process 2 waits for, and then waits for b: no [EDEADLK]. *)
Example deadlock_missed :
  let a := Some [47; 97] in let b := Some [47; 98] in let c := Some [47; 99] in
  let m := run [Fcntl 1 a 3 F_SETLK (wlock 0 10); Fcntl 2 b 3 F_SETLK (wlock 0 10);
                Fcntl 2 a 3 F_SETLKW (wlock 0 10); Fcntl 1 c 3 F_SETLKW (wlock 0 10)] mgr_new in
  (sys_fcntl_lock 1 b 3 F_SETLKW (wlock 0 10) m).2 = None /\
  locks_of (inode_of a 3) m = [mkLock F_WRLCK 0 0 10 1 false] /\ locks_of (inode_of b 3) m = [mkLock F_WRLCK 0 0 10 2 false].
Proof. vm_compute. by split_and!. Qed.

(** Releasing can block.  While another process holds an exclusive [flock],
    a plain [LOCK_UN] on the descriptor is treated as a conflicting request:
    the call sleeps and retries instead of succeeding. *)
Theorem fl_flock_unlock_blocks cur f m x :
  0 <= f -> x ∈ flocks_of f m -> pid x <> cur -> lock_type x = LOCK_EX ->
  (sys_flock cur f LOCK_UN m).2 = None.
Proof.
  intros Hf Hx Hp Hex. unfold sys_flock. rewrite (proj2 (Z.ltb_ge _ _) Hf).
  change (Z.land LOCK_UN (Z.lnot LOCK_NB)) with LOCK_UN. simpl. unfold acquire_flock.
  assert (existsb (flock_conflict LOCK_UN cur) (flocks_of f m) = true) as ->; [|done].
  apply existsb_exists. exists x. split; [by apply list_elem_of_In|].
  unfold flock_conflict. by rewrite (proj2 (Z.eqb_neq _ _) Hp), Hex.
Qed.
Lemma fl_flock_unlock_blocks_witness : (sys_flock 11 4 LOCK_UN (run sample_ops mgr_new)).2 = None.
Proof.
  apply (fl_flock_unlock_blocks 11 4 (run sample_ops mgr_new) (mkFlock 4 LOCK_EX 10)).
  - lia.
  - replace (flocks_of 4 (run sample_ops mgr_new)) with [mkFlock 4 LOCK_EX 10] by (vm_compute; reflexivity). by left.
  - discriminate.
  - reflexivity.
Defined.

(** Owners of the two kinds are mixed up on release: the POSIX unlock of a
    process also removes an OFD lock whose descriptor number equals its pid. *)
Theorem fl_posix_unlock_drops_ofd :
  let path := Some [47; 97] in
  let m := run [Fcntl 10 path 3 F_OFD_SETLK (wlock 0 100)] mgr_new in
  let m' := step (Fcntl 3 path 5 F_SETLK (new F_UNLCK 0 0 100 0)) m in
  locks_of (inode_of path 3) m = [mkLock F_WRLCK 0 0 100 3 true] /\ locks_of (inode_of path 3) m' = [].
Proof. vm_compute. by split. Qed.

(** Mandatory locking looks at the wrong bit: mode 02644 has the set-group-ID
    bit and no group execute permission (bit 010), yet it is not enabled,
    because the group read bit (040) is tested. *)
Theorem fl_mandatory_tests_group_read :
  Z.land 0x5A4 0x400 = 0x400 /\ Z.land 0x5A4 0x8 = 0 /\ is_mandatory_locking_enabled 0x5A4 = false /\
  forall mode, is_mandatory_locking_enabled (Z.lor mode 0x20) = false.
Proof.
  split_and!; [reflexivity..|]. intros mode. unfold is_mandatory_locking_enabled.
  apply andb_false_iff. right. apply Z.eqb_neq. intros H.
  assert (Z.testbit (Z.land (Z.lor mode 32) 32) 5 = false) as Hb by (rewrite H; reflexivity).
  rewrite Z.land_spec, Z.lor_spec in Hb. simpl in Hb. by rewrite orb_true_r in Hb.
Qed.

End FileLock.
