(* ===== verification/Pipe.v ===== *)
(** * Pipes and FIFOs

    Models [src/src/posix/pipe.rs] and [WaitQueue] of
    [src/src/task/scheduler.rs].  A blocking [read] or [write] releases the
    buffer lock before it sleeps and before it wakes a peer, so the model cuts
    each call at its lock and queue operations: a thread is a small state
    machine, and the system is the interleaving of the threads' steps.
    Lengths of byte slices are [nat]; counters are machine integers. *)

From S2P Require Import Prelude.

Module Pipe.

Definition PIPE_BUF_SIZE : nat := Z.to_nat 65536.
Definition PIPE_MIN_BUF_SIZE : nat := Z.to_nat 4096.
Definition PIPE_MAX_BUF_SIZE : nat := Z.to_nat 1048576.

Inductive PipeError := WouldBlock | BrokenPipe | NoReader | NoWriter | AlreadyExists | NotFound.

Record PipeBuffer := mkPipe {
  buffer : list Z;
  max_size : nat;
  readers : Z;
  writers : Z;
  nonblocking : bool;
  bytes_written : Z;
  bytes_read : Z;
  waiting_readers : Z;
  waiting_writers : Z;
  read_wq : list Z;       (* task identifiers, oldest first *)
  write_wq : list Z
}.
Definition new (size : nat) : PipeBuffer :=
  mkPipe [] (Nat.min (Nat.max size PIPE_MIN_BUF_SIZE) PIPE_MAX_BUF_SIZE) 0 0 false 0 0 0 0 [] [].

Definition set_readers (r : Z) (p : PipeBuffer) : PipeBuffer :=
  mkPipe (buffer p) (max_size p) r (writers p) (nonblocking p) (bytes_written p) (bytes_read p)
    (waiting_readers p) (waiting_writers p) (read_wq p) (write_wq p).
Definition set_writers (w : Z) (p : PipeBuffer) : PipeBuffer :=
  mkPipe (buffer p) (max_size p) (readers p) w (nonblocking p) (bytes_written p) (bytes_read p)
    (waiting_readers p) (waiting_writers p) (read_wq p) (write_wq p).
Definition set_nonblocking (b : bool) (p : PipeBuffer) : PipeBuffer :=
  mkPipe (buffer p) (max_size p) (readers p) (writers p) b (bytes_written p) (bytes_read p)
    (waiting_readers p) (waiting_writers p) (read_wq p) (write_wq p).
Definition set_buffer (b : list Z) (bw br : Z) (p : PipeBuffer) : PipeBuffer :=
  mkPipe b (max_size p) (readers p) (writers p) (nonblocking p) bw br
    (waiting_readers p) (waiting_writers p) (read_wq p) (write_wq p).
Definition set_read_wait (n : Z) (q : list Z) (p : PipeBuffer) : PipeBuffer :=
  mkPipe (buffer p) (max_size p) (readers p) (writers p) (nonblocking p) (bytes_written p) (bytes_read p)
    n (waiting_writers p) q (write_wq p).
Definition set_write_wait (n : Z) (q : list Z) (p : PipeBuffer) : PipeBuffer :=
  mkPipe (buffer p) (max_size p) (readers p) (writers p) (nonblocking p) (bytes_written p) (bytes_read p)
    (waiting_readers p) n (read_wq p) q.

Definition add_reader (p : PipeBuffer) : PipeBuffer := set_readers (u32_add (readers p) 1) p.
Definition remove_reader (p : PipeBuffer) : PipeBuffer := set_readers (u32_sub (readers p) 1) p.
Definition add_writer (p : PipeBuffer) : PipeBuffer := set_writers (u32_add (writers p) 1) p.
Definition remove_writer (p : PipeBuffer) : PipeBuffer := set_writers (u32_sub (writers p) 1) p.

Definition space (p : PipeBuffer) : nat := max_size p - length (buffer p).
Definition is_empty (p : PipeBuffer) : bool := bool_decide (buffer p = []).
Definition POLLIN : Z := 1.
Definition POLLOUT : Z := 4.
Definition POLLERR : Z := 8.
Definition POLLHUP : Z := 16.
Definition poll (events : Z) (p : PipeBuffer) : Z :=
  let r1 := if negb (Z.land events POLLIN =? 0) && negb (is_empty p) then POLLIN else 0 in
  let r2 := if negb (Z.land events POLLOUT =? 0) && (0 <? space p)%nat then Z.lor r1 POLLOUT else r1 in
  let r3 := if writers p =? 0 then Z.lor r2 POLLHUP else r2 in
  if readers p =? 0 then Z.lor r3 POLLERR else r3.

(** ** The critical sections of [read] and [write] *)
(** What the locked block decides: finish with data, return, or go to sleep. *)
Inductive outcome (A : Type) := Finish (a : A) | Return (e : PipeError + A) | Sleep.
Arguments Finish {A}. Arguments Return {A}. Arguments Sleep {A}.

Definition read_locked (n : nat) (p : PipeBuffer) : PipeBuffer * outcome (list Z) :=
  if negb (is_empty p) then
    let to_read := Nat.min n (length (buffer p)) in
    (set_buffer (drop to_read (buffer p)) (bytes_written p) (u64_add (bytes_read p) (Z.of_nat to_read)) p,
     Finish (take to_read (buffer p)))
  else if writers p =? 0 then (p, Return (inr []))
  else if nonblocking p then (p, Return (inl WouldBlock))
  else (p, Sleep).
Definition write_locked (buf : list Z) (p : PipeBuffer) : PipeBuffer * outcome (list Z) :=
  let available := (max_size p - length (buffer p))%nat in
  if (0 <? available)%nat then
    let to_write := Nat.min (length buf) available in
    (set_buffer (buffer p ++ take to_write buf) (u64_add (bytes_written p) (Z.of_nat to_write)) (bytes_read p) p,
     Finish (take to_write buf))
  else if nonblocking p then (p, Return (inl WouldBlock))
  else (p, Sleep).

(** ** Threads *)
Inductive result := RData (data : list Z) | WCount (n : nat) | Failed (e : PipeError).
Inductive tstate :=
| Idle
| Reading (n : nat)          (* before the locked block of [read] *)
| SleepyR (n : nat)          (* lock released, not yet on the queue *)
| AsleepR (n : nat)
| WokenR (n : nat)           (* ready again, [sleep] not returned *)
| ReadDone (data : list Z)   (* data taken, peer not yet woken *)
| Writing (buf : list Z)
| SleepyW (buf : list Z)
| AsleepW (buf : list Z)
| WokenW (buf : list Z)
| WriteDone (n : nat)
| Finished (r : result).

Record sys := mkSys {
  pipe : PipeBuffer;
  threads : gmap Z tstate;
  sent : list Z;             (* every byte accepted by a [write], in order *)
  received : list Z;         (* every byte taken by a [read], in order *)
  sigpipes : list Z          (* the threads sent [SIGPIPE], in order *)
}.
Definition set_thread (t : Z) (st : tstate) (s : sys) : sys :=
  mkSys (pipe s) (<[t := st]> (threads s)) (sent s) (received s) (sigpipes s).
Definition set_pipe (p : PipeBuffer) (s : sys) : sys := mkSys p (threads s) (sent s) (received s) (sigpipes s).
Definition send_sigpipe (t : Z) (s : sys) : sys :=
  mkSys (pipe s) (threads s) (sent s) (received s) (sigpipes s ++ [t]).

(** [wake_one] of the two queues: [Vec::pop] takes the last waiter. *)
Definition wake (ths : gmap Z tstate) (t : Z) : gmap Z tstate :=
  match ths !! t with
  | Some (AsleepR n) => <[t := WokenR n]> ths
  | Some (AsleepW b) => <[t := WokenW b]> ths
  | _ => ths
  end.
Definition wake_one_reader (s : sys) : sys :=
  match last (read_wq (pipe s)) with
  | Some t => mkSys (set_read_wait (waiting_readers (pipe s)) (take (length (read_wq (pipe s)) - 1) (read_wq (pipe s))) (pipe s))
                (wake (threads s) t) (sent s) (received s) (sigpipes s)
  | None => s
  end.
Definition wake_one_writer (s : sys) : sys :=
  match last (write_wq (pipe s)) with
  | Some t => mkSys (set_write_wait (waiting_writers (pipe s)) (take (length (write_wq (pipe s)) - 1) (write_wq (pipe s))) (pipe s))
                (wake (threads s) t) (sent s) (received s) (sigpipes s)
  | None => s
  end.

(** ** Steps *)
Inductive event :=
| StartRead (t : Z) (n : nat)
| StartWrite (t : Z) (buf : list Z)
| Run (t : Z)                (* the thread executes its next block *)
| AddReader | RemoveReader | AddWriter | RemoveWriter | SetNonblocking (b : bool).

Definition start_read (t : Z) (n : nat) (s : sys) : sys :=
  if readers (pipe s) =? 0 then set_thread t (Finished (Failed NoReader)) s else set_thread t (Reading n) s.
Definition start_write (t : Z) (buf : list Z) (s : sys) : sys :=
  if writers (pipe s) =? 0 then set_thread t (Finished (Failed NoWriter)) s
  else if readers (pipe s) =? 0 then set_thread t (Finished (Failed BrokenPipe)) (send_sigpipe t s)
  else set_thread t (Writing buf) s.

(** One block of the thread's code; a sleeping thread does not run. *)
Definition run_thread (t : Z) (st : tstate) (s : sys) : sys :=
  match st with
  | Reading n =>
      match read_locked n (pipe s) with
      | (p, Finish data) => mkSys p (<[t := ReadDone data]> (threads s)) (sent s) (received s ++ data) (sigpipes s)
      | (p, Return (inr data)) => set_thread t (Finished (RData data)) (set_pipe p s)
      | (p, Return (inl e)) => set_thread t (Finished (Failed e)) (set_pipe p s)
      | (p, Sleep) => set_thread t (SleepyR n) (set_pipe p s)
      end
  | SleepyR n =>
      set_thread t (AsleepR n)
        (set_pipe (set_read_wait (u32_add (waiting_readers (pipe s)) 1) (read_wq (pipe s) ++ [t]) (pipe s)) s)
  | WokenR n =>
      set_thread t (Reading n)
        (set_pipe (set_read_wait (u32_sub (waiting_readers (pipe s)) 1) (read_wq (pipe s)) (pipe s)) s)
  | ReadDone data => set_thread t (Finished (RData data)) (wake_one_writer s)
  | Writing buf =>
      match write_locked buf (pipe s) with
      | (p, Finish data) => mkSys p (<[t := WriteDone (length data)]> (threads s)) (sent s ++ data) (received s) (sigpipes s)
      | (p, Return (inr data)) => set_thread t (Finished (WCount (length data))) (set_pipe p s)
      | (p, Return (inl e)) => set_thread t (Finished (Failed e)) (set_pipe p s)
      | (p, Sleep) => set_thread t (SleepyW buf) (set_pipe p s)
      end
  | SleepyW buf =>
      set_thread t (AsleepW buf)
        (set_pipe (set_write_wait (u32_add (waiting_writers (pipe s)) 1) (write_wq (pipe s) ++ [t]) (pipe s)) s)
  | WokenW buf =>
      let s1 := set_pipe (set_write_wait (u32_sub (waiting_writers (pipe s)) 1) (write_wq (pipe s)) (pipe s)) s in
      if readers (pipe s) =? 0 then set_thread t (Finished (Failed BrokenPipe)) (send_sigpipe t s1)
      else set_thread t (Writing buf) s1
  | WriteDone n => set_thread t (Finished (WCount n)) (wake_one_reader s)
  | Idle | AsleepR _ | AsleepW _ | Finished _ => s
  end.

(** A thread starts a call only when it is not inside one. *)
Definition ready (st : option tstate) : bool :=
  match st with None | Some Idle | Some (Finished _) => true | _ => false end.
Definition exec (e : event) (s : sys) : sys :=
  match e with
  | StartRead t n => if ready (threads s !! t) then start_read t n s else s
  | StartWrite t buf => if ready (threads s !! t) then start_write t buf s else s
  | Run t => match threads s !! t with Some st => run_thread t st s | None => s end
  | AddReader => set_pipe (add_reader (pipe s)) s
  | RemoveReader => set_pipe (remove_reader (pipe s)) s
  | AddWriter => set_pipe (add_writer (pipe s)) s
  | RemoveWriter => set_pipe (remove_writer (pipe s)) s
  | SetNonblocking b => set_pipe (set_nonblocking b (pipe s)) s
  end.
(** [Pipe::new]: a buffer with one reader and one writer. *)
Definition pipe_new (size : nat) : PipeBuffer := add_writer (add_reader (new size)).
Definition initial (size : nat) : sys := mkSys (pipe_new size) ∅ [] [] [].

Inductive reachable (size : nat) : sys -> Prop :=
| reach_init : reachable size (initial size)
| reach_step s e : reachable size s -> reachable size (exec e s).

(** ** FIFOs *)
Record Fifo := mkFifo { path : string; mode : Z; fifo_buffer : PipeBuffer; is_open_read : bool; is_open_write : bool }.
Definition fifo_new (p : string) (m : Z) : Fifo := mkFifo p m (new PIPE_BUF_SIZE) false false.
Definition open_read (f : Fifo) : Fifo :=
  mkFifo (path f) (mode f) (add_reader (fifo_buffer f)) true (is_open_write f).
Definition open_write (f : Fifo) : Fifo :=
  mkFifo (path f) (mode f) (add_writer (fifo_buffer f)) (is_open_read f) true.
Definition close_read (f : Fifo) : Fifo :=
  if is_open_read f then mkFifo (path f) (mode f) (remove_reader (fifo_buffer f)) false (is_open_write f) else f.
Definition close_write (f : Fifo) : Fifo :=
  if is_open_write f then mkFifo (path f) (mode f) (remove_writer (fifo_buffer f)) (is_open_read f) false else f.

(** ** The manager; an [Arc] is a location *)
Record PipeManager := mkPM {
  fifo_objs : gmap Z Fifo;
  pipe_objs : gmap Z PipeBuffer;
  next_loc : Z;
  fifos : gmap string Z;
  pipes : gmap Z Z;
  next_pipe_id : Z;
  pipes_created : Z;
  fifos_created : Z
}.
Definition pm_new : PipeManager := mkPM ∅ ∅ 0 ∅ ∅ 1 0 0.
Definition create_pipe (size : nat) (m : PipeManager) : PipeManager * Z :=
  let i := next_pipe_id m in
  let l := next_loc m in
  (mkPM (fifo_objs m) (<[l := pipe_new size]> (pipe_objs m)) (l + 1) (fifos m) (<[i := l]> (pipes m))
     (u64_add i 1) (u64_add (pipes_created m) 1) (fifos_created m), l).
Definition create_fifo (p : string) (md : Z) (m : PipeManager) : PipeManager * (PipeError + Z) :=
  match fifos m !! p with
  | Some _ => (m, inl AlreadyExists)
  | None =>
      let l := next_loc m in
      (mkPM (<[l := fifo_new p md]> (fifo_objs m)) (pipe_objs m) (l + 1) (<[p := l]> (fifos m)) (pipes m)
         (next_pipe_id m) (pipes_created m) (u64_add (fifos_created m) 1), inr l)
  end.
Definition get_fifo (p : string) (m : PipeManager) : option Z := fifos m !! p.
Definition remove_fifo (p : string) (m : PipeManager) : PipeManager :=
  mkPM (fifo_objs m) (pipe_objs m) (next_loc m) (delete p (fifos m)) (pipes m) (next_pipe_id m)
    (pipes_created m) (fifos_created m).
(** [pipe.read_fd] and [pipe.write_fd] are the [-1] that [Pipe::new] sets. *)
Definition sys_pipe (m : PipeManager) : PipeManager * (Z * Z) * Z :=
  let '(m', _) := create_pipe PIPE_BUF_SIZE m in (m', (-1, -1), 0).
Definition sys_mkfifo (p : string) (md : Z) (m : PipeManager) : PipeManager * Z :=
  match create_fifo p md m with
  | (m', inr _) => (m', 0)
  | (m', inl AlreadyExists) => (m', -17)
  | (m', inl _) => (m', -5)
  end.

(** ** The byte stream *)
Record stream_ok (s : sys) : Prop := {
  so_stream : sent s = received s ++ buffer (pipe s);
  so_cap : (length (buffer (pipe s)) <= max_size (pipe s))%nat;
  so_max : (PIPE_MIN_BUF_SIZE <= max_size (pipe s) <= PIPE_MAX_BUF_SIZE)%nat;
  so_written : bytes_written (pipe s) = Z.of_nat (length (sent s)) mod u64_mod;
  so_read : bytes_read (pipe s) = Z.of_nat (length (received s)) mod u64_mod
}.
(** Everything the stream invariant looks at. *)
Definition same_stream (s s' : sys) : Prop :=
  sent s' = sent s /\ received s' = received s /\ buffer (pipe s') = buffer (pipe s) /\
  max_size (pipe s') = max_size (pipe s) /\ bytes_written (pipe s') = bytes_written (pipe s) /\
  bytes_read (pipe s') = bytes_read (pipe s).
Lemma same_stream_ok s s' : same_stream s s' -> stream_ok s -> stream_ok s'.
Proof. intros (H1 & H2 & H3 & H4 & H5 & H6) [A B C D E]. split; congruence. Qed.
Lemma wake_reader_stream s : same_stream s (wake_one_reader s).
Proof. unfold wake_one_reader. by destruct (last _). Qed.
Lemma wake_writer_stream s : same_stream s (wake_one_writer s).
Proof. unfold wake_one_writer. by destruct (last _). Qed.

Lemma add_count_mod a b : (a mod u64_mod + b) mod u64_mod = (a + b) mod u64_mod.
Proof. by rewrite Zplus_mod_idemp_l. Qed.
Lemma read_locked_stream t n s : stream_ok s -> stream_ok (run_thread t (Reading n) s).
Proof.
  intros Hs. cbn [run_thread]. unfold read_locked. destruct (negb (is_empty (pipe s))).
  - destruct Hs as [A B C D E]. split; simpl; auto.
    + rewrite <-app_assoc, take_drop. done.
    + rewrite length_drop. lia.
    + unfold u64_add. rewrite E, add_count_mod, length_app, length_take. f_equal. lia.
  - destruct (writers (pipe s) =? 0); [by apply (same_stream_ok s)|].
    destruct (nonblocking (pipe s)); by apply (same_stream_ok s).
Qed.
Lemma write_locked_stream t buf s : stream_ok s -> stream_ok (run_thread t (Writing buf) s).
Proof.
  intros Hs. cbn [run_thread]. unfold write_locked. destruct (0 <? _)%nat.
  - destruct Hs as [A B C D E]. split; simpl; auto.
    + by rewrite A, app_assoc.
    + rewrite length_app, length_take. lia.
    + unfold u64_add. rewrite D, add_count_mod, length_app, length_take. f_equal. lia.
  - destruct (nonblocking (pipe s)); by apply (same_stream_ok s).
Qed.
Lemma run_stream t st s : stream_ok s -> stream_ok (run_thread t st s).
Proof.
  intros Hs. destruct st; auto using read_locked_stream, write_locked_stream; cbn [run_thread];
    try (by apply (same_stream_ok s)).
  - apply (same_stream_ok (wake_one_writer s)); [done|]. eapply same_stream_ok; [apply wake_writer_stream|done].
  - destruct (readers (pipe s) =? 0); by apply (same_stream_ok s).
  - apply (same_stream_ok (wake_one_reader s)); [done|]. eapply same_stream_ok; [apply wake_reader_stream|done].
Qed.
Lemma exec_stream e s : stream_ok s -> stream_ok (exec e s).
Proof.
  intros Hs. destruct e as [t n|t buf|t| | | | |b]; cbn [exec]; try (by apply (same_stream_ok s)).
  - destruct (ready _); [|done]. unfold start_read. destruct (_ =? _); by apply (same_stream_ok s).
  - destruct (ready _); [|done]. unfold start_write. destruct (writers _ =? _); [by apply (same_stream_ok s)|].
    destruct (_ =? _); by apply (same_stream_ok s).
  - destruct (threads s !! t); [by apply run_stream|done].
Qed.
Lemma initial_stream size : stream_ok (initial size).
Proof. split; simpl; unfold PIPE_MIN_BUF_SIZE, PIPE_MAX_BUF_SIZE; try done; lia. Qed.
Lemma reachable_stream size s : reachable size s -> stream_ok s.
Proof. induction 1; auto using initial_stream, exec_stream. Qed.

(** ** The wait queues *)
Record queues_ok (s : sys) : Prop := {
  qo_rnd : NoDup (read_wq (pipe s));
  qo_wnd : NoDup (write_wq (pipe s));
  qo_r : forall t, t ∈ read_wq (pipe s) <-> exists n, threads s !! t = Some (AsleepR n);
  qo_w : forall t, t ∈ write_wq (pipe s) <-> exists b, threads s !! t = Some (AsleepW b)
}.
Definition asleep (st : option tstate) : bool := match st with Some (AsleepR _ | AsleepW _) => true | _ => false end.

(** A step of an awake thread to an awake state keeps the queues. *)
Lemma queues_thread t st s p : queues_ok s -> asleep (threads s !! t) = false -> asleep (Some st) = false ->
  read_wq p = read_wq (pipe s) -> write_wq p = write_wq (pipe s) ->
  forall sn rc sg, queues_ok (mkSys p (<[t := st]> (threads s)) sn rc sg).
Proof.
  intros [A B C D] Ht Hst Hr Hw sn rc sg. split; simpl; rewrite ?Hr, ?Hw; auto; intros u;
    [rewrite C|rewrite D]; destruct (decide (u = t)) as [->|Hne];
    rewrite ?lookup_insert_eq, ?lookup_insert_ne by done; try done;
    (split; [intros [x Hx]; rewrite Hx in Ht; done|intros [x Hx]; simplify_eq; done]).
Qed.
Lemma last_take {A} (l : list A) x : last l = Some x -> l = take (length l - 1) l ++ [x].
Proof.
  intros H. destruct (last_Some l x) as [Hl _]. destruct (Hl H) as [k ->].
  rewrite length_app. simpl. replace (length k + 1 - 1)%nat with (length k) by lia.
  by rewrite take_app_length.
Qed.
Lemma wake_reader_queues s : queues_ok s -> queues_ok (wake_one_reader s).
Proof.
  intros [A B C D]. unfold wake_one_reader. destruct (last (read_wq (pipe s))) as [t|] eqn:E; [|by split].
  apply last_take in E. set (q := take _ _) in *. rewrite E in A. apply NoDup_app in A as (A1 & A2 & _).
  destruct (proj1 (C t)) as [n Hn]; [rewrite E; apply elem_of_app; right; by left|].
  assert (t ∉ q) as Hq by (intros Hq; apply (A2 t Hq); by left).
  unfold wake. rewrite Hn. split; simpl; auto; intros u.
  - destruct (decide (u = t)) as [->|Hne].
    + rewrite lookup_insert_eq. split; [done|]. by intros [x Hx].
    + rewrite lookup_insert_ne, <-C, E, elem_of_app, list_elem_of_singleton by done. naive_solver.
  - rewrite D. destruct (decide (u = t)) as [->|Hne]; [|by rewrite lookup_insert_ne].
    rewrite lookup_insert_eq. split; intros [x Hx]; simplify_eq; congruence.
Qed.
Lemma wake_writer_queues s : queues_ok s -> queues_ok (wake_one_writer s).
Proof.
  intros [A B C D]. unfold wake_one_writer. destruct (last (write_wq (pipe s))) as [t|] eqn:E; [|by split].
  apply last_take in E. set (q := take _ _) in *. rewrite E in B. apply NoDup_app in B as (A1 & A2 & _).
  destruct (proj1 (D t)) as [n Hn]; [rewrite E; apply elem_of_app; right; by left|].
  assert (t ∉ q) as Hq by (intros Hq; apply (A2 t Hq); by left).
  unfold wake. rewrite Hn. split; simpl; auto; intros u.
  - rewrite C. destruct (decide (u = t)) as [->|Hne]; [|by rewrite lookup_insert_ne].
    rewrite lookup_insert_eq. split; intros [x Hx]; simplify_eq; congruence.
  - destruct (decide (u = t)) as [->|Hne].
    + rewrite lookup_insert_eq. split; [done|]. by intros [x Hx].
    + rewrite lookup_insert_ne, <-D, E, elem_of_app, list_elem_of_singleton by done. naive_solver.
Qed.
Lemma awake_after_wake s t : asleep (threads s !! t) = false ->
  asleep (threads (wake_one_reader s) !! t) = false /\ asleep (threads (wake_one_writer s) !! t) = false.
Proof.
  intros H. assert (forall u, asleep (wake (threads s) u !! t) = false) as Hw.
  { intros u. unfold wake. destruct (threads s !! u) as [[]|]; try done;
      (destruct (decide (t = u)) as [->|]; [by rewrite lookup_insert_eq|by rewrite lookup_insert_ne]). }
  unfold wake_one_reader, wake_one_writer. split; case_match; simpl; auto.
Qed.

Lemma run_queues t st s : threads s !! t = Some st -> queues_ok s -> queues_ok (run_thread t st s).
Proof.
  intros Ht Hs. pose proof Hs as [A B C D].
  assert (forall p st', asleep (Some st) = false -> asleep (Some st') = false ->
    read_wq p = read_wq (pipe s) -> write_wq p = write_wq (pipe s) ->
    forall sn rc sg, queues_ok (mkSys p (<[t := st']> (threads s)) sn rc sg)) as Hth.
  { intros p st' H1 H2 H3 H4. apply queues_thread; auto. by rewrite Ht. }
  destruct st as [|n|n|n|n|data|buf|buf|buf|buf|n|r]; cbn [run_thread]; try done.
  - unfold read_locked. destruct (negb _); [by apply Hth|]. destruct (_ =? _); [by apply Hth|].
    destruct (nonblocking _); by apply Hth.
  - assert (t ∉ read_wq (pipe s)) as Hn by (rewrite C; intros [x Hx]; congruence).
    split; simpl; auto.
    + apply NoDup_app. split_and!; [done| |apply NoDup_singleton].
      intros x Hx ->%list_elem_of_singleton. done.
    + intros u. rewrite elem_of_app, C, list_elem_of_singleton. destruct (decide (u = t)) as [->|Hne].
      * rewrite lookup_insert_eq. split; eauto.
      * rewrite lookup_insert_ne by done. naive_solver.
    + intros u. rewrite D. destruct (decide (u = t)) as [->|Hne]; [|by rewrite lookup_insert_ne].
      rewrite lookup_insert_eq. split; intros [x Hx]; simplify_eq; congruence.
  - by apply Hth.
  - pose proof (wake_writer_queues s Hs) as Hq. apply queues_thread; auto.
    apply awake_after_wake. by rewrite Ht.
  - unfold write_locked. destruct (0 <? _)%nat; [by apply Hth|]. destruct (nonblocking _); by apply Hth.
  - assert (t ∉ write_wq (pipe s)) as Hn by (rewrite D; intros [x Hx]; congruence).
    split; simpl; auto.
    + apply NoDup_app. split_and!; [done| |apply NoDup_singleton].
      intros x Hx ->%list_elem_of_singleton. done.
    + intros u. rewrite C. destruct (decide (u = t)) as [->|Hne]; [|by rewrite lookup_insert_ne].
      rewrite lookup_insert_eq. split; intros [x Hx]; simplify_eq; congruence.
    + intros u. rewrite elem_of_app, D, list_elem_of_singleton. destruct (decide (u = t)) as [->|Hne].
      * rewrite lookup_insert_eq. split; eauto.
      * rewrite lookup_insert_ne by done. naive_solver.
  - destruct (_ =? _); by apply Hth.
  - pose proof (wake_reader_queues s Hs) as Hq. apply queues_thread; auto.
    apply awake_after_wake. by rewrite Ht.
Qed.
Lemma ready_awake st : ready st = true -> asleep st = false.
Proof. by destruct st as [[]|]. Qed.
Lemma exec_queues e s : queues_ok s -> queues_ok (exec e s).
Proof.
  intros Hs. destruct e as [t n|t buf|t| | | | |b]; cbn [exec]; try (by destruct Hs).
  - destruct (ready _) eqn:E; [|done]. apply ready_awake in E. unfold start_read.
    destruct (_ =? _); by apply queues_thread.
  - destruct (ready _) eqn:E; [|done]. apply ready_awake in E. unfold start_write.
    destruct (writers _ =? _); [by apply queues_thread|].
    destruct (_ =? _); by apply (queues_thread t _ s).
  - destruct (threads s !! t) eqn:E; [by apply run_queues|done].
Qed.
Lemma initial_queues size : queues_ok (initial size).
Proof.
  split; simpl; [apply NoDup_nil_2..| |]; intros t; rewrite lookup_empty;
    (split; [by intros ?%elem_of_nil|by intros [x Hx]]).
Qed.
Lemma reachable_queues size s : reachable size s -> queues_ok s.
Proof. induction 1; auto using initial_queues, exec_queues. Qed.

(** C9: A pipe is a bounded byte FIFO under every interleaving: in every
    reachable state the bytes accepted by writers are, in order, the bytes
    delivered to readers followed by the buffer; the buffer never exceeds its
    capacity, which lies between a page and 1 MiB; and the two byte counters
    are the lengths of the two streams. *)
Theorem pipe_is_fifo size s :
  reachable size s ->
  sent s = received s ++ buffer (pipe s) /\
  (length (buffer (pipe s)) <= max_size (pipe s))%nat /\
  (PIPE_MIN_BUF_SIZE <= max_size (pipe s) <= PIPE_MAX_BUF_SIZE)%nat /\
  bytes_written (pipe s) = Z.of_nat (length (sent s)) mod u64_mod /\
  bytes_read (pipe s) = Z.of_nat (length (received s)) mod u64_mod.
Proof. intros [A B C D E]%reachable_stream. auto. Qed.

(** The wait queues hold exactly the sleeping threads, each once: in every
    reachable state a thread is on the read queue if and only if it sleeps in
    [read], and on the write queue if and only if it sleeps in [write]. *)
Theorem pipe_queues_exact size s t :
  reachable size s ->
  NoDup (read_wq (pipe s)) /\ NoDup (write_wq (pipe s)) /\
  (t ∈ read_wq (pipe s) <-> exists n, threads s !! t = Some (AsleepR n)) /\
  (t ∈ write_wq (pipe s) <-> exists b, threads s !! t = Some (AsleepW b)).
Proof. intros [A B C D]%reachable_queues. auto. Qed.

Definition exec_all (es : list event) (s : sys) : sys := foldl (fun s e => exec e s) s es.
Lemma reachable_exec_all size es : forall s, reachable size s -> reachable size (exec_all es s).
Proof. induction es as [|e es IH]; intros s Hs; [done|]. simpl. apply IH. by constructor. Qed.

Definition ping : list event := [StartRead 1 4; StartWrite 2 [10; 20; 30]; Run 2; Run 1; Run 1; Run 2].
Lemma ping_reachable : reachable 0 (exec_all ping (initial 0)).
Proof. apply reachable_exec_all. constructor. Qed.
Lemma pipe_is_fifo_witness :
  sent (exec_all ping (initial 0)) = received (exec_all ping (initial 0)) ++ buffer (pipe (exec_all ping (initial 0))) /\
  received (exec_all ping (initial 0)) = [10; 20; 30].
Proof. split; [exact (proj1 (pipe_is_fifo 0 _ ping_reachable))|vm_compute; reflexivity]. Defined.
Lemma pipe_queues_exact_witness : NoDup (read_wq (pipe (exec_all ping (initial 0)))).
Proof. exact (proj1 (pipe_queues_exact 0 _ 1 ping_reachable)). Defined.

(** ** Lost wake-ups *)
(** A wake-up can be lost on the data path.  A reader that found the buffer
    empty gives up the lock before it joins the queue; a writer that runs in
    between finds nobody to wake.  The reader then sleeps although data is
    buffered and no other thread is inside a call. *)
Theorem pipe_data_wakeup_lost :
  let s := exec_all [StartRead 1 4; Run 1; StartWrite 2 [10]; Run 2; Run 2; Run 1] (initial 0) in
  reachable 0 s /\ threads s !! 1 = Some (AsleepR 4) /\ buffer (pipe s) = [10] /\
  threads s !! 2 = Some (Finished (WCount 1)) /\ (forall t, t <> 1 -> t <> 2 -> threads s !! t = None).
Proof.
  intros s. split; [apply reachable_exec_all; constructor|]. split_and!; [vm_compute; reflexivity..|].
  intros t H1 H2. replace (threads s) with (<[1 := AsleepR 4]> (<[2 := Finished (WCount 1)]> ∅) : gmap Z tstate)
    by (vm_compute; reflexivity).
  by rewrite !lookup_insert_ne, lookup_empty by done.
Qed.

(** Nobody can wake a reader any more: no writer is registered, and no thread
    is on its way to the end of a [write]. *)
Definition no_writer_left (s : sys) : Prop :=
  writers (pipe s) = 0 /\
  forall t st, threads s !! t = Some st ->
    match st with Writing _ | SleepyW _ | AsleepW _ | WokenW _ | WriteDone _ => False | _ => True end.
Definition keeps_closed (e : event) : Prop := match e with AddWriter | RemoveWriter => False | _ => True end.

Lemma no_writer_thread t st s s' :
  no_writer_left s -> writers (pipe s') = 0 -> threads s' = <[t := st]> (threads s) ->
  match st with Writing _ | SleepyW _ | AsleepW _ | WokenW _ | WriteDone _ => False | _ => True end ->
  no_writer_left s'.
Proof.
  intros [Hw Hs] Hw' Ht Hst. split; [done|]. intros u st' Hu. rewrite Ht in Hu.
  apply lookup_insert_Some in Hu as [[<- <-]|[_ Hu]]; [done|]. by apply Hs in Hu.
Qed.
Lemma wake_writer_none s : no_writer_left s -> queues_ok s -> wake_one_writer s = s.
Proof.
  intros [_ Hs] [_ _ _ D]. unfold wake_one_writer. destruct (last (write_wq (pipe s))) as [t|] eqn:E; [|done].
  apply last_Some_elem_of, D in E as [b Hb]. by apply Hs in Hb.
Qed.
Lemma closed_step t n e s : queues_ok s -> no_writer_left s -> threads s !! t = Some (AsleepR n) -> keeps_closed e ->
  no_writer_left (exec e s) /\ threads (exec e s) !! t = Some (AsleepR n).
Proof.
  intros Hq Hs Ht He.
  destruct e as [u k|u buf|u| | | | |b]; try done; cbn [exec].
  - destruct (ready (threads s !! u)) eqn:E; [|done].
    assert (u <> t) as Hu by (intros ->; by rewrite Ht in E). unfold start_read.
    destruct (_ =? _); (split; [eapply no_writer_thread; [done|apply Hs|done|done]|simpl; by rewrite lookup_insert_ne]).
  - destruct (ready (threads s !! u)) eqn:E; [|done].
    assert (u <> t) as Hu by (intros ->; by rewrite Ht in E). unfold start_write.
    rewrite (proj1 Hs). simpl. split; [eapply no_writer_thread; [done|apply Hs|done|done]|simpl; by rewrite lookup_insert_ne].
  - destruct (threads s !! u) as [st|] eqn:Eu; [|done]. pose proof (proj2 Hs _ _ Eu) as Hst.
    destruct (decide (u = t)) as [->|Hu]; [simplify_eq; done|].
    destruct st as [|k|k|k|k|data|buf|buf|buf|buf|k|r]; try done; cbn [run_thread].
    + unfold read_locked. destruct (negb _);
        [split; [eapply no_writer_thread; [done|apply Hs|done|done]|simpl; by rewrite lookup_insert_ne]|].
      rewrite (proj1 Hs). simpl. split; [eapply no_writer_thread; [done|apply Hs|done|done]|simpl; by rewrite lookup_insert_ne].
    + split; [eapply no_writer_thread; [done|apply Hs|done|done]|simpl; by rewrite lookup_insert_ne].
    + split; [eapply no_writer_thread; [done|apply Hs|done|done]|simpl; by rewrite lookup_insert_ne].
    + rewrite wake_writer_none by done. split; [eapply no_writer_thread; [done|apply Hs|done|done]|simpl; by rewrite lookup_insert_ne].
Qed.
Lemma closed_run t n es : Forall keeps_closed es -> forall s, queues_ok s -> no_writer_left s ->
  threads s !! t = Some (AsleepR n) -> threads (exec_all es s) !! t = Some (AsleepR n).
Proof.
  induction 1 as [|e es He _ IH]; intros s Hq Hs Ht; [done|]. simpl.
  destruct (closed_step t n e s Hq Hs Ht He) as [H1 H2]. apply IH; auto using exec_queues.
Qed.

(** End of file does not wake sleeping readers.  When the last writer closes
    while a reader sleeps, closing wakes nobody, and from then on no sequence
    of steps without a new writer lets that reader return. *)
Theorem pipe_eof_sleeps_forever es :
  Forall keeps_closed es ->
  let s := exec_all [StartRead 1 4; Run 1; Run 1; RemoveWriter] (initial 0) in
  writers (pipe s) = 0 /\ threads (exec_all es s) !! 1 = Some (AsleepR 4).
Proof.
  intros He s. split; [vm_compute; reflexivity|]. apply closed_run; [done| | |vm_compute; reflexivity].
  - eapply reachable_queues. apply reachable_exec_all. constructor.
  - split; [vm_compute; reflexivity|].
    replace (threads s) with (<[1 := AsleepR 4]> ∅ : gmap Z tstate) by (vm_compute; reflexivity).
    intros t st Ht. apply lookup_insert_Some in Ht as [[<- <-]|[_ Ht]]; [done|by rewrite lookup_empty in Ht].
Qed.
Lemma pipe_eof_sleeps_forever_witness :
  threads (exec_all [StartRead 2 8; Run 2; Run 1; RemoveReader]
    (exec_all [StartRead 1 4; Run 1; Run 1; RemoveWriter] (initial 0))) !! 1 = Some (AsleepR 4).
Proof.
  apply (pipe_eof_sleeps_forever [StartRead 2 8; Run 2; Run 1; RemoveReader]). repeat constructor.
Defined.

(** A FIFO opened twice for reading and closed twice still counts a reader:
    the open flag is a boolean while the buffer counts, so a writer never gets
    [BrokenPipe] again. *)
Theorem fifo_reader_leak f :
  is_u32 (readers (fifo_buffer f)) -> readers (fifo_buffer f) + 2 < u32_mod ->
  readers (fifo_buffer (close_read (close_read (open_read (open_read f))))) = readers (fifo_buffer f) + 1.
Proof.
  intros H1 H2. simpl. unfold u32_add, u32_sub. revert H1 H2. mlia.
Qed.
Lemma fifo_reader_leak_witness :
  readers (fifo_buffer (close_read (close_read (open_read (open_read (fifo_new "/tmp/f" 420)))))) = 0 + 1.
Proof. apply (fifo_reader_leak (fifo_new "/tmp/f" 420)); [split|]; vm_compute; try discriminate; reflexivity. Defined.

(** [pipe] reports success with two invalid descriptors, and registers one
    more pipe that no descriptor refers to. *)
Theorem sys_pipe_invalid_fds m :
  let '(m', fds, r) := sys_pipe m in
  r = 0 /\ fds = (-1, -1) /\ pipes m' !! next_pipe_id m = Some (next_loc m).
Proof. simpl. split_and!; try done. by rewrite lookup_insert_eq. Qed.

(** FIFO names: creating under a fresh name succeeds and the name then
    refers to the new FIFO, a second creation fails with [EEXIST] and changes
    nothing, and removal frees the name again. *)
Theorem fifo_names p md m :
  fifos m !! p = None ->
  let '(m1, r) := sys_mkfifo p md m in
  r = 0 /\ get_fifo p m1 = Some (next_loc m) /\ fifo_objs m1 !! next_loc m = Some (fifo_new p md) /\
  sys_mkfifo p md m1 = (m1, -17) /\ get_fifo p (remove_fifo p m1) = None /\
  forall q, q <> p -> get_fifo q m1 = get_fifo q m.
Proof.
  intros H. unfold sys_mkfifo, create_fifo. rewrite H. unfold get_fifo. simpl.
  rewrite !lookup_insert_eq, lookup_delete_eq. split_and!; try done. intros q Hq. by rewrite lookup_insert_ne.
Qed.
Lemma fifo_names_witness : (sys_mkfifo "/tmp/f" 420 pm_new).2 = 0.
Proof.
  pose proof (fifo_names "/tmp/f" 420 pm_new (lookup_empty _)) as H.
  destruct (sys_mkfifo "/tmp/f" 420 pm_new) as [m1 r]. exact (proj1 H).
Defined.

End Pipe.
