(* ===== verification/MsgQueue.v ===== *)
(** * Message queues

    Models [src/src/posix/msgq.rs]: System V queues (typed messages, bounded in
    bytes), POSIX queues (priorities, bounded in messages) and their manager.
    The tick counter is the argument [now].  Queues are shared objects ([Arc])
    reached only through the manager's maps here, so the maps hold their
    states. *)

From S2P Require Import Prelude.

Module MsgQueue.

Definition IPC_CREAT : Z := 0x200.
Definition IPC_EXCL : Z := 0x400.
Definition IPC_NOWAIT : Z := 0x800.
Definition IPC_RMID : Z := 0.
Definition IPC_STAT : Z := 2.
Definition MSGMAX : Z := 8192.
Definition MSGMNB : Z := 16384.
Definition MSGTQL : Z := 256.
Definition O_NONBLOCK : Z := 0x800.

Inductive MsgError := NotFound | AlreadyExists | WouldBlock | MessageTooLong | InvalidCommand | PermissionDenied.

(** ** System V queues *)
Record SysvMessage := mkMsg { mtype : Z; data : list Z }.
Record SysvMsgQueue := mkQ {
  id : Z; key : Z; mode : Z;
  messages : list SysvMessage;
  msg_bytes_max : Z; current_bytes : Z; msg_max : Z; current_msgs : Z;
  lspid : Z; lrpid : Z; stime : Z; rtime : Z; ctime : Z; uid : Z; gid : Z
}.
Definition q_new (i k md now : Z) : SysvMsgQueue :=
  mkQ i k md [] MSGMNB 0 MSGTQL 0 0 0 0 0 now 0 0.
Definition dlen (m : SysvMessage) : Z := Z.of_nat (length (data m)).
Definition set_messages (ms : list SysvMessage) (b n sp rp st rt : Z) (q : SysvMsgQueue) : SysvMsgQueue :=
  mkQ (id q) (key q) (mode q) ms (msg_bytes_max q) b (msg_max q) n sp rp st rt (ctime q) (uid q) (gid q).

Definition send (now : Z) (msg : SysvMessage) (flags : Z) (q : SysvMsgQueue) : SysvMsgQueue * (MsgError + unit) :=
  if MSGMAX <? dlen msg then (q, inl MessageTooLong)
  else if msg_bytes_max q <? u64_add (current_bytes q) (dlen msg) then
    (* with or without [IPC_NOWAIT] *)
    (q, inl WouldBlock)
  else
    (set_messages (messages q ++ [msg]) (u64_add (current_bytes q) (dlen msg)) (u32_add (current_msgs q) 1)
       0 (lrpid q) now (rtime q) q, inr tt).

Definition matches (t : Z) (m : SysvMessage) : bool :=
  if 0 <? t then mtype m =? t
  else (* [(-mtype) as u64] and [m.mtype as u64] *)
    mtype m mod u64_mod <=? (- t) mod u64_mod.
Definition recv_index (t : Z) (ms : list SysvMessage) : option nat :=
  if t =? 0 then match ms with [] => None | _ => Some O end
  else position (matches t) ms.
Definition recv (now t flags : Z) (q : SysvMsgQueue) : SysvMsgQueue * (MsgError + SysvMessage) :=
  match recv_index t (messages q) with
  | Some idx =>
      match messages q !! idx with
      | Some msg =>
          (set_messages (delete idx (messages q)) (u64_sub (current_bytes q) (dlen msg))
             (u32_sub (current_msgs q) 1) (lspid q) 0 (stime q) now q, inr msg)
      | None => (q, inl WouldBlock)
      end
  | None => (q, inl WouldBlock)
  end.
Definition get_stats (q : SysvMsgQueue) : Z * Z * Z * Z * Z * Z * Z :=
  (msg_bytes_max q, current_msgs q, lspid q, lrpid q, stime q, rtime q, ctime q).

(** ** POSIX queues *)
Record PosixMessage := mkPM { priority : Z; pdata : list Z }.
Record PosixMsgQueue := mkPQ {
  pname : string; pmessages : list PosixMessage; mq_maxmsg : Z; mq_msgsize : Z; mq_curmsgs : Z;
  mq_flags : Z; pnonblocking : bool; ref_count : Z; notify : option (Z * Z)
}.
Definition pq_new (nm : string) (maxmsg msgsize : Z) : PosixMsgQueue :=
  mkPQ nm [] maxmsg msgsize 0 0 false 1 None.
Definition set_pmessages (ms : list PosixMessage) (n : Z) (q : PosixMsgQueue) : PosixMsgQueue :=
  mkPQ (pname q) ms (mq_maxmsg q) (mq_msgsize q) n (mq_flags q) (pnonblocking q) (ref_count q) (notify q).
Definition set_ref (n : Z) (q : PosixMsgQueue) : PosixMsgQueue :=
  mkPQ (pname q) (pmessages q) (mq_maxmsg q) (mq_msgsize q) (mq_curmsgs q) (mq_flags q) (pnonblocking q) n (notify q).

(** [Vec::insert] at the position found. *)
Definition insert_at (pos : nat) (m : PosixMessage) (ms : list PosixMessage) : list PosixMessage :=
  take pos ms ++ m :: drop pos ms.
Definition psend (msg : PosixMessage) (q : PosixMsgQueue) : PosixMsgQueue * (MsgError + unit) :=
  if mq_msgsize q <? Z.of_nat (length (pdata msg)) then (q, inl MessageTooLong)
  else if mq_maxmsg q <=? mq_curmsgs q then (q, inl WouldBlock)
  else
    let ms := pmessages q in
    let pos := default (length ms) (position (fun m => priority m <? priority msg) ms) in
    (set_pmessages (insert_at pos msg ms) (u32_add (mq_curmsgs q) 1) q, inr tt).
Definition precv (q : PosixMsgQueue) : PosixMsgQueue * (MsgError + PosixMessage) :=
  if mq_curmsgs q =? 0 then (q, inl WouldBlock)
  else match last (pmessages q) with
       | Some msg => (set_pmessages (take (length (pmessages q) - 1) (pmessages q)) (u32_sub (mq_curmsgs q) 1) q, inr msg)
       | None => (q, inl WouldBlock)
       end.
Definition get_attr (q : PosixMsgQueue) : Z * Z * Z * Z := (mq_flags q, mq_maxmsg q, mq_msgsize q, mq_curmsgs q).
Definition set_attr (flags : Z) (q : PosixMsgQueue) : PosixMsgQueue :=
  mkPQ (pname q) (pmessages q) (mq_maxmsg q) (mq_msgsize q) (mq_curmsgs q) flags
    (negb (Z.land flags O_NONBLOCK =? 0)) (ref_count q) (notify q).

(** ** The manager *)
Record MsgQueueManager := mkMgr {
  sysv_queues : gmap Z SysvMsgQueue;
  posix_queues : gmap string PosixMsgQueue;
  next_sysv_id : Z;
  n_sysv : Z; n_posix : Z; messages_sent : Z; messages_received : Z
}.
Definition mgr_new : MsgQueueManager := mkMgr ∅ ∅ 1 0 0 0 0.
(** [AtomicI32] wraps around. *)
Definition i32_add (a b : Z) : Z := (a + b + 2 ^ 31) mod 2 ^ 32 - 2 ^ 31.

(** [queues.values()] is in ascending order of the identifiers. *)
Definition by_id : gmap Z SysvMsgQueue -> list SysvMsgQueue := btree_values.
Definition msgget (now k msgflg : Z) (g : MsgQueueManager) : MsgQueueManager * (MsgError + Z) :=
  match head (filter (fun q => key q = k /\ k <> 0) (by_id (sysv_queues g))) with
  | Some q => (g, if negb (Z.land msgflg IPC_EXCL =? 0) then inl AlreadyExists else inr (id q))
  | None =>
      if Z.land msgflg IPC_CREAT =? 0 then (g, inl NotFound)
      else
        let i := next_sysv_id g in
        (mkMgr (<[i := q_new i k (Z.land msgflg 0x1FF) now]> (sysv_queues g)) (posix_queues g) (i32_add i 1)
           (u32_add (n_sysv g) 1) (n_posix g) (messages_sent g) (messages_received g), inr i)
  end.
Definition set_sysv (qs : gmap Z SysvMsgQueue) (ms mr : Z) (g : MsgQueueManager) : MsgQueueManager :=
  mkMgr qs (posix_queues g) (next_sysv_id g) (n_sysv g) (n_posix g) ms mr.
Definition msgctl (msqid cmd : Z) (g : MsgQueueManager) : MsgQueueManager * (MsgError + (Z * Z * Z * Z * Z * Z * Z)) :=
  if cmd =? IPC_RMID then
    (set_sysv (delete msqid (sysv_queues g)) (messages_sent g) (messages_received g) g, inr (0, 0, 0, 0, 0, 0, 0))
  else if cmd =? IPC_STAT then
    (g, match sysv_queues g !! msqid with Some q => inr (get_stats q) | None => inl NotFound end)
  else (g, inl InvalidCommand).
Definition msgsnd (now msqid : Z) (msg : SysvMessage) (flags : Z) (g : MsgQueueManager) : MsgQueueManager * (MsgError + unit) :=
  match sysv_queues g !! msqid with
  | None => (g, inl NotFound)
  | Some q => let '(q', r) := send now msg flags q in
              (set_sysv (<[msqid := q']> (sysv_queues g)) (u64_add (messages_sent g) 1) (messages_received g) g, r)
  end.
Definition msgrcv (now msqid t flags : Z) (g : MsgQueueManager) : MsgQueueManager * (MsgError + SysvMessage) :=
  match sysv_queues g !! msqid with
  | None => (g, inl NotFound)
  | Some q => let '(q', r) := recv now t flags q in
              (set_sysv (<[msqid := q']> (sysv_queues g)) (messages_sent g) (u64_add (messages_received g) 1) g, r)
  end.

Definition set_posixq (ps : gmap string PosixMsgQueue) (n : Z) (g : MsgQueueManager) : MsgQueueManager :=
  mkMgr (sysv_queues g) ps (next_sysv_id g) (n_sysv g) n (messages_sent g) (messages_received g).
Definition mq_open (nm : string) (oflag : Z) (attr : option (Z * Z)) (g : MsgQueueManager)
  : MsgQueueManager * (MsgError + string) :=
  match posix_queues g !! nm with
  | Some q =>
      if negb (Z.land oflag IPC_EXCL =? 0) then (g, inl AlreadyExists)
      else (set_posixq (<[nm := set_ref (u32_add (ref_count q) 1) q]> (posix_queues g)) (n_posix g) g, inr nm)
  | None =>
      if Z.land oflag IPC_CREAT =? 0 then (g, inl NotFound)
      else
        let '(maxmsg, msgsize) := default (10, 8192) attr in
        (set_posixq (<[nm := pq_new nm maxmsg msgsize]> (posix_queues g)) (u32_add (n_posix g) 1) g, inr nm)
  end.
Definition mq_close (nm : string) (g : MsgQueueManager) : MsgQueueManager * (MsgError + unit) :=
  match posix_queues g !! nm with
  | Some q => (set_posixq (<[nm := set_ref (u32_sub (ref_count q) 1) q]> (posix_queues g)) (n_posix g) g, inr tt)
  | None => (g, inl NotFound)
  end.
Definition mq_unlink (nm : string) (g : MsgQueueManager) : MsgQueueManager * (MsgError + unit) :=
  (set_posixq (delete nm (posix_queues g)) (n_posix g) g, inr tt).

(** ** System calls *)
Definition sys_msgget (now k msgflg : Z) (g : MsgQueueManager) : MsgQueueManager * Z :=
  match msgget now k msgflg g with
  | (g', inr i) => (g', i)
  | (g', inl NotFound) => (g', -2)
  | (g', inl AlreadyExists) => (g', -17)
  | (g', inl _) => (g', -22)
  end.
Definition sys_msgsnd (now msqid t : Z) (bytes : list Z) (flags : Z) (g : MsgQueueManager) : MsgQueueManager * Z :=
  match msgsnd now msqid (mkMsg t bytes) flags g with
  | (g', inr tt) => (g', 0)
  | (g', inl WouldBlock) => (g', -11)
  | (g', inl _) => (g', -22)
  end.
(** The result and the bytes copied into a buffer of [cap] bytes. *)
Definition sys_msgrcv (now msqid t : Z) (cap : nat) (flags : Z) (g : MsgQueueManager) : MsgQueueManager * Z * list Z :=
  match msgrcv now msqid t flags g with
  | (g', inr msg) => let len := Nat.min (length (data msg)) cap in (g', Z.of_nat len, take len (data msg))
  | (g', inl WouldBlock) => (g', -11, [])
  | (g', inl _) => (g', -22, [])
  end.

(** ** Accounting of a System V queue *)
Definition total_bytes (ms : list SysvMessage) : Z := sumZ dlen ms.
Record queue_ok (q : SysvMsgQueue) : Prop := {
  qk_bytes : current_bytes q = total_bytes (messages q);
  qk_cap : current_bytes q <= msg_bytes_max q;
  qk_max : msg_bytes_max q = MSGMNB;
  qk_count : current_msgs q = Z.of_nat (length (messages q)) mod u32_mod
}.
Lemma dlen_nonneg m : 0 <= dlen m.
Proof. unfold dlen. lia. Qed.
Lemma total_bytes_nonneg ms : 0 <= total_bytes ms.
Proof. apply sumZ_nonneg, dlen_nonneg. Qed.
Lemma total_bytes_delete ms i m : ms !! i = Some m -> total_bytes (delete i ms) = total_bytes ms - dlen m.
Proof.
  intros H. unfold total_bytes. rewrite delete_take_drop, sumZ_app.
  rewrite <-(take_drop_middle ms i m H) at 3. rewrite sumZ_app. simpl. lia.
Qed.
Lemma recv_index_lookup t ms i : recv_index t ms = Some i -> exists m, ms !! i = Some m.
Proof.
  unfold recv_index. destruct (t =? 0).
  - destruct ms as [|m ms]; [done|]. intros [= <-]. by exists m.
  - intros H%position_spec. destruct H as [(m & Hm & _) _]. eauto.
Qed.

Lemma send_ok now msg flags q : queue_ok q -> queue_ok (send now msg flags q).1.
Proof.
  intros [A B C D]. pose proof (total_bytes_nonneg (messages q)). pose proof (dlen_nonneg msg).
  unfold send. destruct (MSGMAX <? dlen msg) eqn:E1; simplify_bool; [by split|].
  assert (u64_add (current_bytes q) (dlen msg) = current_bytes q + dlen msg) as ->.
  { apply u64_add_small. rewrite C in B. unfold MSGMNB, MSGMAX, u64_mod in *. lia. }
  destruct (msg_bytes_max q <? _) eqn:E2; simplify_bool; [by split|].
  split; simpl; auto.
  - unfold total_bytes. rewrite sumZ_app. simpl. fold (total_bytes (messages q)). lia.
  - unfold u32_add. rewrite D, Zplus_mod_idemp_l, length_app. simpl. f_equal. lia.
Qed.
Lemma recv_ok now t flags q : queue_ok q -> queue_ok (recv now t flags q).1.
Proof.
  intros [A B C D]. unfold recv. destruct (recv_index t (messages q)) as [i|] eqn:E; [|by split].
  destruct (messages q !! i) as [m|] eqn:Em; [|by split].
  pose proof (total_bytes_delete _ _ _ Em) as Hd. pose proof (total_bytes_nonneg (delete i (messages q))).
  pose proof (dlen_nonneg m).
  assert (u64_sub (current_bytes q) (dlen m) = current_bytes q - dlen m) as Hs.
  { apply u64_sub_small. rewrite C in B. unfold MSGMNB, u64_mod in *. lia. }
  split; simpl; rewrite ?Hs; auto; [lia..|].
  unfold u32_sub. rewrite D, Zminus_mod_idemp_l. rewrite length_delete by (by eexists). f_equal.
  apply lookup_lt_Some in Em. lia.
Qed.

(** ** Histories of one queue *)
Inductive qop := Send (now : Z) (m : SysvMessage) (flags : Z) | Recv (now t flags : Z).
Record trace := mkTr { tq : SysvMsgQueue; accepted : list SysvMessage; delivered : list SysvMessage }.
Definition qstep (o : qop) (s : trace) : trace :=
  match o with
  | Send now m flags =>
      match send now m flags (tq s) with
      | (q, inr _) => mkTr q (accepted s ++ [m]) (delivered s)
      | (q, inl _) => mkTr q (accepted s) (delivered s)
      end
  | Recv now t flags =>
      match recv now t flags (tq s) with
      | (q, inr m) => mkTr q (accepted s) (delivered s ++ [m])
      | (q, inl _) => mkTr q (accepted s) (delivered s)
      end
  end.
Definition qrun (ops : list qop) (q : SysvMsgQueue) : trace :=
  foldl (fun s o => qstep o s) (mkTr q [] []) ops.
Definition of_type (t : Z) (ms : list SysvMessage) : list SysvMessage := filter (fun m => mtype m = t) ms.

(** The message received is the oldest of its own type. *)
Lemma recv_first t ms i m u : recv_index t ms = Some i -> ms !! i = Some m ->
  of_type u ms = (if decide (mtype m = u) then [m] else []) ++ of_type u (delete i ms).
Proof.
  intros Hi Hm. assert (mtype m = u -> of_type u (take i ms) = []) as Hnone.
  { intros Hu. unfold recv_index in Hi. destruct (t =? 0) eqn:Et.
    - destruct ms; [done|]. injection Hi as <-. done.
    - apply position_spec in Hi as [(m' & Hm' & Hp) Hlt]. simplify_eq.
      unfold of_type. apply filter_none. intros x Hx Hxu.
      apply list_elem_of_lookup in Hx as [j Hj]. apply lookup_take_Some in Hj as [Hj Hji].
      specialize (Hlt j x Hji Hj). unfold matches in Hp, Hlt. rewrite Hxu in Hlt.
      destruct (0 <? t); simplify_bool; [congruence|]. lia. }
  rewrite delete_take_drop. rewrite <-(take_drop_middle ms i m Hm) at 1.
  unfold of_type in *. rewrite !filter_app, filter_cons. case_decide as Hu; [|done].
  by rewrite Hnone.
Qed.

Lemma qstep_ok o s : queue_ok (tq s) ->
  (forall u, of_type u (accepted s) = of_type u (delivered s) ++ of_type u (messages (tq s))) ->
  queue_ok (tq (qstep o s)) /\
  (forall u, of_type u (accepted (qstep o s)) =
     of_type u (delivered (qstep o s)) ++ of_type u (messages (tq (qstep o s)))).
Proof.
  intros Hq Hu. destruct o as [now m flags|now t flags]; cbn [qstep].
  - pose proof (send_ok now m flags (tq s) Hq) as Hok. unfold send in *.
    destruct (MSGMAX <? dlen m); [by split|]. destruct (msg_bytes_max (tq s) <? _); [by split|].
    split; [done|]. intros u. simpl. unfold of_type in *. rewrite !filter_app, Hu. by rewrite app_assoc.
  - pose proof (recv_ok now t flags (tq s) Hq) as Hok. unfold recv in *.
    destruct (recv_index t (messages (tq s))) as [i|] eqn:E; [|by split].
    destruct (messages (tq s) !! i) as [m|] eqn:Em; [|by split].
    split; [done|]. intros u. simpl. rewrite Hu, (recv_first t _ i m u E Em).
    unfold of_type. rewrite filter_app, filter_cons. rewrite <-app_assoc. by case_decide.
Qed.
Lemma q_new_ok i k md now : queue_ok (q_new i k md now).
Proof. by split. Qed.

(** Each message type is a FIFO channel, and the byte and message counts are
    exact.  After any history of sends and receives with any selectors (any
    type, one type, or types up to a bound), the accepted messages of a type
    are, in order, the delivered ones followed by those still queued; the
    queued bytes never exceed the limit of 16384. *)
Theorem sysv_fifo_per_type i k md now ops u :
  let s := qrun ops (q_new i k md now) in
  of_type u (accepted s) = of_type u (delivered s) ++ of_type u (messages (tq s)) /\
  current_bytes (tq s) = total_bytes (messages (tq s)) /\ current_bytes (tq s) <= MSGMNB /\
  current_msgs (tq s) = Z.of_nat (length (messages (tq s))) mod u32_mod.
Proof.
  intros s. assert (queue_ok (tq s) /\ forall u, of_type u (accepted s) = of_type u (delivered s) ++ of_type u (messages (tq s)))
    as [[A B C D] Hu].
  { subst s. unfold qrun. assert (forall s0, queue_ok (tq s0) ->
      (forall u, of_type u (accepted s0) = of_type u (delivered s0) ++ of_type u (messages (tq s0))) ->
      queue_ok (tq (foldl (fun s o => qstep o s) s0 ops)) /\
      forall u, of_type u (accepted (foldl (fun s o => qstep o s) s0 ops)) =
        of_type u (delivered (foldl (fun s o => qstep o s) s0 ops)) ++
        of_type u (messages (tq (foldl (fun s o => qstep o s) s0 ops)))) as Hgen.
    { induction ops as [|o ops IH]; intros s0 H1 H2; [done|]. simpl.
      destruct (qstep_ok o s0 H1 H2) as [H3 H4]. by apply IH. }
    apply Hgen; [apply q_new_ok|done]. }
  split_and!; auto. by rewrite <-C.
Qed.

(** A receive with a negative selector returns the oldest message whose type
    is at most the bound, not the one of the smallest type that the comment of
    [recv] promises. *)
Theorem sysv_negative_selector_not_smallest :
  let q := q_new 1 1 0 0 in
  let s := qrun [Send 0 (mkMsg 3 [1]) 0; Send 0 (mkMsg 1 [2]) 0; Recv 0 (-5) 0] q in
  delivered s = [mkMsg 3 [1]] /\ messages (tq s) = [mkMsg 1 [2]].
Proof. vm_compute. by split. Qed.

(** ** POSIX queues *)
Definition descending (ms : list PosixMessage) : Prop := StronglySorted (fun a b => priority b <= priority a) ms.
Record pqueue_ok (q : PosixMsgQueue) : Prop := {
  pk_sorted : descending (pmessages q);
  pk_count : mq_curmsgs q = Z.of_nat (length (pmessages q));
  pk_cap : mq_curmsgs q <= mq_maxmsg q;
  pk_max : 0 <= mq_maxmsg q < u32_mod
}.
Lemma descending_app ms ks : descending (ms ++ ks) <->
  descending ms /\ descending ks /\ forall a b, a ∈ ms -> b ∈ ks -> priority b <= priority a.
Proof.
  unfold descending. induction ms as [|m ms IH]; simpl.
  - split; [|naive_solver]. intros H. split_and!; [constructor|done|]. intros a b Ha. by apply elem_of_nil in Ha.
  - split.
    + intros H. inversion H as [|? ? Hs Hf]; subst. apply IH in Hs as (H1 & H2 & H3).
      apply Forall_app in Hf as [Hf1 Hf2]. split_and!; [by constructor|done|].
      intros a b [->|Ha]%elem_of_cons Hb; [|by apply H3]. rewrite Forall_forall in Hf2. by apply Hf2.
    + intros (H1 & H2 & H3). inversion H1 as [|? ? Hs Hf]; subst. constructor.
      * apply IH. split_and!; auto. intros a b Ha Hb. apply H3; [by right|done].
      * apply Forall_app; split; [done|]. apply Forall_forall. intros b Hb. apply H3; [by left|done].
Qed.
Lemma psend_sorted msg ms : descending ms ->
  let pos := default (length ms) (position (fun m => priority m <? priority msg) ms) in
  descending (insert_at pos msg ms).
Proof.
  intros Hs pos. unfold insert_at. rewrite <-(take_drop pos ms) in Hs.
  apply descending_app in Hs as (H1 & H2 & H3).
  assert (forall x, x ∈ take pos ms -> priority msg <= priority x) as Hlo.
  { intros x Hx. apply list_elem_of_lookup in Hx as [j Hj]. apply lookup_take_Some in Hj as [Hj Hjp].
    subst pos. destruct (position _ ms) as [i|] eqn:E; simpl in Hjp.
    - apply position_spec in E as [_ Hlt]. specialize (Hlt j x Hjp Hj). simplify_bool. lia.
    - apply position_None in E. rewrite Forall_forall in E. specialize (E x ltac:(by apply list_elem_of_lookup_2 in Hj)).
      simplify_bool. lia. }
  assert (forall x, x ∈ drop pos ms -> priority x <= priority msg) as Hhi.
  { intros x Hx. subst pos. destruct (position _ ms) as [i|] eqn:E; simpl in *.
    - apply position_spec in E as [(y & Hy & Hyp) _]. simplify_bool.
      rewrite (drop_S ms y i Hy) in Hx, H2. inversion H2 as [|? ? _ Hf]; subst.
      apply elem_of_cons in Hx as [->|Hx]; [lia|]. rewrite Forall_forall in Hf. specialize (Hf x Hx). simpl in Hf. lia.
    - rewrite drop_all in Hx. by apply elem_of_nil in Hx. }
  apply descending_app. split_and!; auto.
  - constructor; [done|]. by apply Forall_forall.
  - intros a b Ha [->|Hb]%elem_of_cons; [by apply Hlo|by apply H3].
Qed.

Inductive pop := PSend (m : PosixMessage) | PRecv | PSetAttr (flags : Z).
Definition pstep (o : pop) (q : PosixMsgQueue) : PosixMsgQueue :=
  match o with PSend m => (psend m q).1 | PRecv => (precv q).1 | PSetAttr f => set_attr f q end.
Definition prun (ops : list pop) (q : PosixMsgQueue) : PosixMsgQueue := foldl (fun q o => pstep o q) q ops.

Lemma length_insert_at pos m ms : length (insert_at pos m ms) = S (length ms).
Proof. unfold insert_at. rewrite length_app. simpl. rewrite length_take, length_drop. lia. Qed.
Lemma last_split {A} (l : list A) x : last l = Some x -> l = take (length l - 1) l ++ [x].
Proof.
  intros H. apply last_Some in H as [k ->]. rewrite length_app. simpl.
  replace (length k + 1 - 1)%nat with (length k) by lia. by rewrite take_app_length.
Qed.
Lemma pstep_ok o q : pqueue_ok q -> pqueue_ok (pstep o q).
Proof.
  intros [A B C D]. destruct o as [m| |f]; cbn [pstep].
  - unfold psend. destruct (mq_msgsize q <? _); [by split|].
    destruct (mq_maxmsg q <=? mq_curmsgs q) eqn:E; simplify_bool; [by split|].
    assert (u32_add (mq_curmsgs q) 1 = mq_curmsgs q + 1) as Ha by (apply u32_add_small; lia).
    split; cbn [fst set_pmessages pmessages mq_curmsgs mq_maxmsg]; rewrite ?Ha; auto; [by apply psend_sorted| |lia].
    rewrite length_insert_at. lia.
  - unfold precv. destruct (mq_curmsgs q =? 0) eqn:E; simplify_bool; [by split|].
    destruct (last (pmessages q)) as [m|] eqn:El; [|by split].
    assert (u32_sub (mq_curmsgs q) 1 = mq_curmsgs q - 1) as Ha by (apply u32_sub_small; lia).
    pose proof (last_split _ _ El) as Hs. split; simpl; rewrite ?Ha; auto; [| |lia].
    + rewrite Hs in A. by apply descending_app in A as (? & _ & _).
    + rewrite length_take. lia.
  - by split.
Qed.

(** POSIX queues stay sorted by falling priority, within their message
    limit and exactly counted, after any history; and [mq_receive] takes the
    last element, so it returns a message whose priority is the LOWEST in the
    queue, where the comments promise the highest. *)
Theorem posix_receive_lowest nm maxmsg msgsize ops :
  0 <= maxmsg < u32_mod ->
  let q := prun ops (pq_new nm maxmsg msgsize) in
  descending (pmessages q) /\ mq_curmsgs q = Z.of_nat (length (pmessages q)) /\ mq_curmsgs q <= maxmsg /\
  forall q' m, precv q = (q', inr m) ->
    (forall m', m' ∈ pmessages q' -> priority m <= priority m') /\ pmessages q = pmessages q' ++ [m].
Proof.
  intros Hm q. assert (pqueue_ok q /\ mq_maxmsg q = maxmsg) as [[A B C D] Hmax].
  { subst q. assert (forall q0, pqueue_ok q0 -> mq_maxmsg q0 = maxmsg ->
      pqueue_ok (prun ops q0) /\ mq_maxmsg (prun ops q0) = maxmsg) as Hgen.
    { induction ops as [|o ops IH]; intros q0 H1 H2; [done|]. simpl. apply IH; [by apply pstep_ok|].
      destruct o; cbn [pstep]; unfold psend, precv; repeat case_match; done. }
    apply Hgen; [|done]. split; simpl; [constructor|done|lia|done]. }
  split_and!; auto; [lia|]. intros q' m Hr. unfold precv in Hr.
  destruct (mq_curmsgs q =? 0); [done|]. destruct (last (pmessages q)) as [x|] eqn:El; [|done].
  simplify_eq. pose proof (last_split _ _ El) as Hs. split; [|done]. intros m' Hm'. simpl in Hm'.
  rewrite Hs in A. apply descending_app in A as (_ & _ & Ha). apply Ha; [done|by left].
Qed.
Lemma posix_receive_lowest_witness :
  let q := prun [PSend (mkPM 1 [10]); PSend (mkPM 9 [90]); PSend (mkPM 5 [50])] (pq_new "/q" 10 8192) in
  (precv q).2 = inr (mkPM 1 [10]) /\ descending (pmessages q).
Proof.
  split; [vm_compute; reflexivity|].
  apply (posix_receive_lowest "/q" 10 8192 [PSend (mkPM 1 [10]); PSend (mkPM 9 [90]); PSend (mkPM 5 [50])]).
  unfold u32_mod. lia.
Defined.

(** ** The manager *)
Inductive mop := Get (now k flg : Z) | Ctl (i cmd : Z) | Snd (now i : Z) (m : SysvMessage) (flags : Z) | Rcv (now i t flags : Z).
Definition mstep (o : mop) (g : MsgQueueManager) : MsgQueueManager :=
  match o with
  | Get now k flg => (msgget now k flg g).1
  | Ctl i cmd => (msgctl i cmd g).1
  | Snd now i m flags => (msgsnd now i m flags g).1
  | Rcv now i t flags => (msgrcv now i t flags g).1
  end.
Definition mrun (ops : list mop) (g : MsgQueueManager) : MsgQueueManager := foldl (fun g o => mstep o g) g ops.

Record mgr_ok (g : MsgQueueManager) : Prop := {
  mk_id : forall i q, sysv_queues g !! i = Some q -> id q = i /\ 0 < i < next_sysv_id g;
  mk_key : forall i j q r, sysv_queues g !! i = Some q -> sysv_queues g !! j = Some r ->
    key q = key r -> key q <> 0 -> i = j
}.
(** Replacing a queue by one with the same identity. *)
Lemma mgr_ok_update g i q q' ms mr : mgr_ok g -> sysv_queues g !! i = Some q -> id q' = id q -> key q' = key q ->
  mgr_ok (set_sysv (<[i := q']> (sysv_queues g)) ms mr g).
Proof.
  intros [A B] Hi Hid Hkey. split.
  - intros j r Hj. simpl in Hj. apply lookup_insert_Some in Hj as [[<- <-]|[_ Hj]]; [|by apply A].
    rewrite Hid. by apply A.
  - intros j k r t Hj Hk. simpl in *.
    apply lookup_insert_Some in Hj as [[<- <-]|[_ Hj]], Hk as [[<- <-]|[_ Hk]]; rewrite ?Hkey; eauto.
Qed.
Lemma mstep_ok o g : mgr_ok g -> 0 < next_sysv_id g < 2 ^ 31 - 1 ->
  mgr_ok (mstep o g) /\ next_sysv_id g <= next_sysv_id (mstep o g) <= next_sysv_id g + 1.
Proof.
  intros Hok Hn. pose proof Hok as [A B]. destruct o as [now k flg|i cmd|now i m flags|now i t flags]; cbn [mstep].
  - unfold msgget. pose proof (elem_of_btree_values (A := SysvMsgQueue)) as Hb.
    destruct (head (filter _ (by_id (sysv_queues g)))) as [q|] eqn:E; [split; [done|simpl; lia]|].
    destruct (Z.land flg IPC_CREAT =? 0); [split; [done|simpl; lia]|].
    assert (i32_add (next_sysv_id g) 1 = next_sysv_id g + 1) as Hadd.
    { unfold i32_add. rewrite Z.mod_small by lia. lia. }
    assert (forall r j, sysv_queues g !! j = Some r -> key r = k -> k <> 0 -> False) as Hfresh.
    { intros r j Hr Hk H0. assert (r ∈ filter (fun q => key q = k /\ k <> 0) (by_id (sysv_queues g))) as Hin.
      { apply list_elem_of_filter. split; [done|]. apply Hb. eauto. }
      destruct (filter _ _); [by apply elem_of_nil in Hin|done]. }
    split; [|simpl; lia]. split; simpl.
    + intros j r Hj. apply lookup_insert_Some in Hj as [[<- <-]|[_ Hj]]; [simpl; lia|].
      destruct (A _ _ Hj). split; [done|lia].
    + intros j l r t Hj Hl He H0.
      apply lookup_insert_Some in Hj as [[<- <-]|[Hj' Hj]], Hl as [[<- <-]|[Hl' Hl]]; simpl in *; [done| | |by eapply B].
      * exfalso. eapply Hfresh; [exact Hl|done..].
      * exfalso. eapply Hfresh; [exact Hj|done|congruence].
  - unfold msgctl. destruct (cmd =? IPC_RMID); [|destruct (cmd =? IPC_STAT); (split; [done|simpl; lia])].
    split; [|simpl; lia]. split; simpl.
    + intros j r [_ Hj]%lookup_delete_Some. eauto.
    + intros j l r t [_ Hj]%lookup_delete_Some [_ Hl]%lookup_delete_Some. eauto.
  - unfold msgsnd. destruct (sysv_queues g !! i) as [q|] eqn:Hi; [|split; [done|simpl; lia]].
    destruct (send now m flags q) as [q' r] eqn:Es. split; [|simpl; lia].
    eapply mgr_ok_update; [done..| |]; unfold send in Es; repeat case_match; by simplify_eq.
  - unfold msgrcv. destruct (sysv_queues g !! i) as [q|] eqn:Hi; [|split; [done|simpl; lia]].
    destruct (recv now t flags q) as [q' r] eqn:Es. split; [|simpl; lia].
    eapply mgr_ok_update; [done..| |]; unfold recv in Es; repeat case_match; by simplify_eq.
Qed.
Lemma mrun_ok ops : forall g, mgr_ok g -> 0 < next_sysv_id g ->
  next_sysv_id g + Z.of_nat (length ops) < 2 ^ 31 -> mgr_ok (mrun ops g).
Proof.
  induction ops as [|o ops IH]; intros g Hg H0 Hn; [done|]. simpl in *.
  destruct (mstep_ok o g Hg) as [H1 H2]; [lia|]. apply IH; [done|lia|lia].
Qed.

(** Keys name queues.  After any history of [msgget], [msgctl], [msgsnd] and
    [msgrcv] (fewer than 2^31 calls), a queue is registered under its own
    positive identifier and no two live queues share a non-zero key; so
    [msgget] on the key of a live queue returns that queue's identifier, and
    with [IPC_EXCL] fails with [EEXIST]. *)
Theorem sysv_keys_unique ops now k flg i q :
  Z.of_nat (length ops) < 2 ^ 31 - 1 ->
  let g := mrun ops mgr_new in
  sysv_queues g !! i = Some q -> key q = k -> k <> 0 ->
  0 < i /\ (forall j r, sysv_queues g !! j = Some r -> key r = k -> j = i) /\
  sys_msgget now k flg g = (g, if Z.land flg IPC_EXCL =? 0 then i else -17).
Proof.
  intros Hn g Hi Hk H0. assert (mgr_ok g) as [A B].
  { apply mrun_ok; [split; intros *; simpl; by rewrite lookup_empty|simpl; lia|simpl; lia]. }
  assert (forall j r, sysv_queues g !! j = Some r -> key r = k -> j = i) as Hu
    by (intros j r Hr Hkr; eapply B; [done..|congruence|congruence]).
  split_and!; [by apply (A i q)|done|]. unfold sys_msgget, msgget.
  destruct (head (filter _ (by_id (sysv_queues g)))) as [r|] eqn:E.
  - apply head_Some_elem_of, list_elem_of_filter in E as [[Hkr _] Hr].
    apply elem_of_btree_values in Hr as [j Hj]. rewrite (Hu j r Hj Hkr) in Hj. destruct (A _ _ Hj) as [-> _].
    by destruct (Z.land flg IPC_EXCL =? 0).
  - exfalso. assert (q ∈ filter (fun q => key q = k /\ k <> 0) (by_id (sysv_queues g))) as Hin.
    { apply list_elem_of_filter. split; [done|]. apply elem_of_btree_values. eauto. }
    destruct (filter _ _); [by apply elem_of_nil in Hin|done].
Qed.
Lemma sysv_keys_unique_witness :
  let g := mrun [Get 0 77 0x200; Snd 0 1 (mkMsg 1 [5]) 0] mgr_new in
  sys_msgget 3 77 0x200 g = (g, 1).
Proof.
  cbv zeta. destruct (sysv_queues (mrun [Get 0 77 0x200; Snd 0 1 (mkMsg 1 [5]) 0] mgr_new) !! 1) as [q|] eqn:E;
    [|exfalso; revert E; vm_compute; discriminate].
  apply (sysv_keys_unique [Get 0 77 0x200; Snd 0 1 (mkMsg 1 [5]) 0] 3 77 0x200 1 q).
  - simpl. lia.
  - exact E.
  - assert (key <$> sysv_queues (mrun [Get 0 77 0x200; Snd 0 1 (mkMsg 1 [5]) 0] mgr_new) !! 1 = Some 77) as Hk
      by (vm_compute; reflexivity).
    rewrite E in Hk. injection Hk as ->. reflexivity.
  - discriminate.
Defined.

End MsgQueue.
