(* ===== verification/Semaphore.v ===== *)
(** * POSIX and System V semaphores

    Models [src/src/posix/semaphore.rs]: the compare-and-swap loops of the
    unnamed and named semaphores as a machine of interleaved threads, the
    System V arrays, the manager ([sem_open] ... [semop]) and the system calls.
    The clock is an argument [now]; user memory is an argument of [semctl]. *)
From S2P Require Import Prelude.

Module Semaphore.

Definition SEMVMX : Z := 32767.
Definition SEM_UNDO : Z := 0x1000.
Definition IPC_CREAT : Z := 0x200.
Definition IPC_EXCL : Z := 0x400.
Definition IPC_NOWAIT : Z := 0x800.
Definition GETALL : Z := 13.
Definition SETALL : Z := 14.
Definition GETVAL : Z := 11.
Definition SETVAL : Z := 16.
Definition GETPID : Z := 12.
Definition GETNCNT : Z := 15.
Definition GETZCNT : Z := 17.
Definition IPC_RMID : Z := 0.
Definition IPC_SET : Z := 1.
Definition IPC_STAT : Z := 2.

Inductive SemError :=
  | NotFound | AlreadyExists | WouldBlock | Overflow | InvalidSemNum | InvalidCommand | PermissionDenied | UserFault.

(** [w]-bit two's complement. *)
Definition signed (w x : Z) : Z := (x + 2 ^ (w - 1)) mod 2 ^ w - 2 ^ (w - 1).
Definition i32_add (a b : Z) : Z := signed 32 (a + b).
Definition has (flags f : Z) : bool := negb (Z.land flags f =? 0).

(** ** Counting semaphores: [wait], [trywait], [post] *)
Record SemUnnamed := mkSem { value : Z; max : Z; waiters : Z; pshared : bool }.
Definition unnamed_new (v : Z) (ps : bool) : SemUnnamed := mkSem v SEMVMX 0 ps.
Definition set_value (v : Z) (s : SemUnnamed) : SemUnnamed := mkSem v (max s) (waiters s) (pshared s).
Definition set_waiters (n : Z) (s : SemUnnamed) : SemUnnamed := mkSem (value s) (max s) n (pshared s).

(** The next shared access of a thread inside one of the loops.  A waiter that
    found no unit sleeps one tick ([scheduler::sleep(1)]) and loads again. *)
Inductive tstate :=
  | Idle
  | WaitLoad | WaitCas (current : Z) | WaitDone
  | TryLoad | TryCas (current : Z)
  | PostLoad | PostCas (current : Z).
Inductive call := Wait | Trywait | Post.
Inductive ret := Continue | Acquired | Posted | Failed (e : SemError).

Definition begin (c : call) (s : SemUnnamed) : SemUnnamed * tstate :=
  match c with
  | Wait => (set_waiters (u32_add (waiters s) 1) s, WaitLoad)
  | Trywait => (s, TryLoad)
  | Post => (s, PostLoad)
  end.
Definition advance (st : tstate) (s : SemUnnamed) : SemUnnamed * tstate * ret :=
  match st with
  | Idle => (s, Idle, Continue)
  | WaitLoad => if value s <=? 0 then (s, WaitLoad, Continue) else (s, WaitCas (value s), Continue)
  | WaitCas c => if value s =? c then (set_value (i32_add c (-1)) s, WaitDone, Continue) else (s, WaitLoad, Continue)
  | WaitDone => (set_waiters (u32_sub (waiters s) 1) s, Idle, Acquired)
  | TryLoad => if value s <=? 0 then (s, Idle, Failed WouldBlock) else (s, TryCas (value s), Continue)
  | TryCas c => if value s =? c then (set_value (i32_add c (-1)) s, Idle, Acquired) else (s, TryLoad, Continue)
  | PostLoad => if max s <=? value s then (s, Idle, Failed Overflow) else (s, PostCas (value s), Continue)
  | PostCas c => if value s =? c then (set_value (i32_add c 1) s, Idle, Posted) else (s, PostLoad, Continue)
  end.

(** ** Named semaphores: the same loops without the count of waiters *)
Record SemNamed := mkNamed { n_name : string; n_value : Z; n_max : Z; ref_count : Z; open_count : Z; unlinked : bool }.
Definition named_new (nm : string) (v : Z) : SemNamed := mkNamed nm v SEMVMX 1 1 false.
Definition set_n_value (v : Z) (s : SemNamed) : SemNamed :=
  mkNamed (n_name s) v (n_max s) (ref_count s) (open_count s) (unlinked s).
Definition named_begin (c : call) : tstate := match c with Wait => WaitLoad | Trywait => TryLoad | Post => PostLoad end.
Definition named_advance (st : tstate) (s : SemNamed) : SemNamed * tstate * ret :=
  match st with
  | Idle | WaitDone => (s, Idle, Continue)
  | WaitLoad => if n_value s <=? 0 then (s, WaitLoad, Continue) else (s, WaitCas (n_value s), Continue)
  | WaitCas c => if n_value s =? c then (set_n_value (i32_add c (-1)) s, Idle, Acquired) else (s, WaitLoad, Continue)
  | TryLoad => if n_value s <=? 0 then (s, Idle, Failed WouldBlock) else (s, TryCas (n_value s), Continue)
  | TryCas c => if n_value s =? c then (set_n_value (i32_add c (-1)) s, Idle, Acquired) else (s, TryLoad, Continue)
  | PostLoad => if n_max s <=? n_value s then (s, Idle, Failed Overflow) else (s, PostCas (n_value s), Continue)
  | PostCas c => if n_value s =? c then (set_n_value (i32_add c 1) s, Idle, Posted) else (s, PostLoad, Continue)
  end.
Definition close (s : SemNamed) : SemNamed :=
  mkNamed (n_name s) (n_value s) (n_max s) (u32_sub (ref_count s) 1) (u32_sub (open_count s) 1) (unlinked s).
Definition unlink (s : SemNamed) : SemNamed :=
  mkNamed (n_name s) (n_value s) (n_max s) (ref_count s) (open_count s) true.
Definition reopen (s : SemNamed) : SemNamed :=
  mkNamed (n_name s) (n_value s) (n_max s) (ref_count s) (u32_add (open_count s) 1) (unlinked s).

(** ** System V arrays *)
Record SemUndo := mkUndo { u_semid : Z; u_semnum : Z; u_adj : Z; u_pid : Z }.
Record Sembuf := mkBuf { sem_num : Z; sem_op : Z; sem_flg : Z }.
Record SemArray := mkArr {
  a_id : Z; a_key : Z; a_mode : Z; cuid : Z; cgid : Z; a_uid : Z; a_gid : Z; nsems : Z; values : list Z;
  last_pid : Z; otime : Z; ctime : Z; undo : list SemUndo }.
Definition array_new (now i k n md : Z) : SemArray := mkArr i k md 0 0 0 0 n (replicate (Z.to_nat n) 0) 0 0 now [].
Definition set_values (vs : list Z) (t : Z) (a : SemArray) : SemArray :=
  mkArr (a_id a) (a_key a) (a_mode a) (cuid a) (cgid a) (a_uid a) (a_gid a) (nsems a) vs (last_pid a) t (ctime a) (undo a).

(** [values[i].store(val)] for every index of both lists. *)
Fixpoint overwrite (vals vs : list Z) : list Z :=
  match vals, vs with v :: vals', _ :: vs' => v :: overwrite vals' vs' | _, _ => vs end.
Definition set_all (now : Z) (vals : list Z) (a : SemArray) : SemArray := set_values (overwrite vals (values a)) now a.
Definition get_all (a : SemArray) : list Z := (fun v => v mod 65536) <$> values a.
Definition set_val (now semnum val : Z) (a : SemArray) : SemArray :=
  if semnum <? Z.of_nat (length (values a)) then set_values (<[Z.to_nat semnum := val]> (values a)) now a else a.
Definition get_val (semnum : Z) (a : SemArray) : Z :=
  if semnum <? Z.of_nat (length (values a)) then default 0 (values a !! Z.to_nat semnum) else -1.

Definition val_at (o : Sembuf) (vs : list Z) : Z := default 0 (vs !! Z.to_nat (sem_num o)).
(** First pass of [op]: the error it returns, if any. *)
Fixpoint check_ops (ops : list Sembuf) (vs : list Z) : option SemError :=
  match ops with
  | [] => None
  | o :: ops' =>
      if Z.of_nat (length vs) <=? sem_num o then Some InvalidSemNum
      else
        let new_val := i32_add (val_at o vs) (sem_op o) in
        if (new_val <? 0) && has (sem_flg o) IPC_NOWAIT then Some WouldBlock
        else if SEMVMX <? new_val then Some Overflow
        else check_ops ops' vs
  end.
(** Second pass. *)
Definition apply_op (a : SemArray) (o : Sembuf) : SemArray :=
  let vs := <[Z.to_nat (sem_num o) := i32_add (val_at o (values a)) (sem_op o)]> (values a) in
  let us := if has (sem_flg o) SEM_UNDO
            then undo a ++ [mkUndo (a_id a) (sem_num o) (signed 16 (- sem_op o)) 0] else undo a in
  mkArr (a_id a) (a_key a) (a_mode a) (cuid a) (cgid a) (a_uid a) (a_gid a) (nsems a) vs (last_pid a) (otime a) (ctime a) us.
Definition op (now : Z) (ops : list Sembuf) (a : SemArray) : SemArray * (SemError + unit) :=
  match check_ops ops (values a) with
  | Some e => (a, inl e)
  | None =>
      let a' := foldl apply_op a ops in
      (mkArr (a_id a') (a_key a') (a_mode a') (cuid a') (cgid a') (a_uid a') (a_gid a') (nsems a')
         (values a') 0 now (ctime a') (undo a'), inr tt)
  end.

(** ** The manager.  [Arc<SemNamed>] objects live in a heap, so that a handle
    stays valid after the name is gone. *)
Record SemManager := mkMgr {
  heap : gmap Z SemNamed; next_loc : Z; named : gmap string Z;
  sysv : gmap Z SemArray; next_id : Z; named_count : Z; sysv_count : Z; total_ops : Z }.
Definition mgr_new : SemManager := mkMgr ∅ 0 ∅ ∅ 1 0 0 0.
Definition upd (l : Z) (f : SemNamed -> SemNamed) (m : SemManager) : SemManager :=
  mkMgr (alter f l (heap m)) (next_loc m) (named m) (sysv m) (next_id m) (named_count m) (sysv_count m) (total_ops m).
Definition set_sysv (sv : gmap Z SemArray) (ops : Z) (m : SemManager) : SemManager :=
  mkMgr (heap m) (next_loc m) (named m) sv (next_id m) (named_count m) (sysv_count m) ops.

Definition sem_open (nm : string) (oflag v : Z) (m : SemManager) : SemManager * (SemError + Z) :=
  match named m !! nm with
  | Some l => if has oflag IPC_EXCL then (m, inl AlreadyExists) else (upd l reopen m, inr l)
  | None =>
      if negb (has oflag IPC_CREAT) then (m, inl NotFound)
      else
        let l := next_loc m in
        (mkMgr (<[l := named_new nm v]> (heap m)) (l + 1) (<[nm := l]> (named m)) (sysv m) (next_id m)
           (u32_add (named_count m) 1) (sysv_count m) (total_ops m), inr l)
  end.

(** [sem_close] and [sem_unlink] take the lock of [named] a second time, inside
    the [if let] whose scrutinee still holds it, on the path that removes the
    name: [None] is a call that spins on its own lock and never returns. *)
Definition sem_close (nm : string) (m : SemManager) : option (SemManager * (SemError + unit)) :=
  match named m !! nm with
  | Some l =>
      let m := upd l close m in
      match heap m !! l with
      | Some s => if (open_count s =? 0) && unlinked s then None else Some (m, inr tt)
      | None => Some (m, inr tt)
      end
  | None => Some (m, inl NotFound)
  end.
Definition sem_unlink (nm : string) (m : SemManager) : option (SemManager * (SemError + unit)) :=
  match named m !! nm with
  | Some l =>
      let m := upd l unlink m in
      match heap m !! l with
      | Some s => if open_count s =? 0 then None else Some (m, inr tt)
      | None => Some (m, inr tt)
      end
  | None => Some (m, inl NotFound)
  end.

Definition semget (now k n semflg : Z) (m : SemManager) : SemManager * (SemError + Z) :=
  match head (filter (fun a => a_key a = k /\ k <> 0) (btree_values (sysv m))) with
  | Some a => if has semflg IPC_EXCL then (m, inl AlreadyExists) else (m, inr (a_id a))
  | None =>
      if negb (has semflg IPC_CREAT) then (m, inl NotFound)
      else
        let i := next_id m in
        (mkMgr (heap m) (next_loc m) (named m) (<[i := array_new now i k n (Z.land semflg 0x1FF)]> (sysv m))
           (i32_add i 1) (named_count m) (u32_add (sysv_count m) 1) (total_ops m), inr i)
  end.

(** [copy_from_user] of [n] bytes at an address: [None] is a fault. *)
Abbreviation user_memory := (Z -> nat -> option (list Z)).
Fixpoint u16s (bytes : list Z) : list Z :=
  match bytes with lo :: hi :: rest => (lo + 256 * hi) :: u16s rest | _ => [] end.
Definition read_user_u16_slice (user : user_memory) (ptr count : Z) : SemError + list Z :=
  if count =? 0 then inr []
  else match user ptr (Z.to_nat (2 * count)) with Some raw => inr (u16s raw) | None => inl UserFault end.

Definition semctl (user : user_memory) (now semid semnum cmd arg : Z) (m : SemManager) : SemManager * (SemError + Z) :=
  match sysv m !! semid with
  | None => (m, inl NotFound)
  | Some a =>
      if cmd =? IPC_RMID then (set_sysv (delete semid (sysv m)) (total_ops m) m, inr 0)
      else if (cmd =? IPC_STAT) || (cmd =? IPC_SET) then (m, inr 0)
      else if cmd =? GETALL then (m, inr (Z.of_nat (length (get_all a))))
      else if cmd =? SETALL then
        match read_user_u16_slice user arg (nsems a) with
        | inl e => (m, inl e)
        | inr vals => (set_sysv (<[semid := set_all now vals a]> (sysv m)) (total_ops m) m, inr 0)
        end
      else if cmd =? GETVAL then (m, inr (get_val semnum a))
      else if cmd =? SETVAL then
        (set_sysv (<[semid := set_val now semnum (signed 32 arg) a]> (sysv m)) (total_ops m) m, inr 0)
      else if cmd =? GETPID then (m, inr (last_pid a))
      else if (cmd =? GETNCNT) || (cmd =? GETZCNT) then (m, inr 0)
      else (m, inl InvalidCommand)
  end.
Definition semop (now semid : Z) (ops : list Sembuf) (m : SemManager) : SemManager * (SemError + unit) :=
  match sysv m !! semid with
  | None => (m, inl NotFound)
  | Some a => let '(a', r) := op now ops a in
              (set_sysv (<[semid := a']> (sysv m)) (u64_add (total_ops m) 1) m, r)
  end.

Definition sys_semget (now k n semflg : Z) (m : SemManager) : SemManager * Z :=
  match semget now k n semflg m with
  | (m, inr i) => (m, i) | (m, inl NotFound) => (m, -2) | (m, inl AlreadyExists) => (m, -17) | (m, inl _) => (m, -22)
  end.
Definition sys_semop (now semid : Z) (ops : list Sembuf) (m : SemManager) : SemManager * Z :=
  match semop now semid ops m with
  | (m, inr _) => (m, 0) | (m, inl WouldBlock) => (m, -11) | (m, inl NotFound) => (m, -22) | (m, inl _) => (m, -5)
  end.
Definition sys_semctl (user : user_memory) (now semid semnum cmd arg : Z) (m : SemManager) : SemManager * Z :=
  match semctl user now semid semnum cmd arg m with
  | (m, inr v) => (m, v) | (m, inl NotFound) => (m, -22) | (m, inl UserFault) => (m, -14) | (m, inl _) => (m, -5)
  end.

(** ** The machine of threads on one semaphore

    [posted] and [acquired] are ghost counters of the calls that returned. *)
Record sys := mkSys { sem : SemUnnamed; threads : list tstate; posted : Z; acquired : Z }.
Definition start (n : nat) (v : Z) : sys := mkSys (unnamed_new v false) (replicate n Idle) 0 0.
Inductive event := Begin (i : nat) (c : call) | Run (i : nat).
Definition exec (e : event) (s : sys) : sys :=
  match e with
  | Begin i c =>
      match threads s !! i with
      | Some Idle => let '(m, st) := begin c (sem s) in mkSys m (<[i := st]> (threads s)) (posted s) (acquired s)
      | _ => s
      end
  | Run i =>
      match threads s !! i with
      | Some st =>
          let '(m, st', r) := advance st (sem s) in
          mkSys m (<[i := st']> (threads s))
            (posted s + match r with Posted => 1 | _ => 0 end) (acquired s + match r with Acquired => 1 | _ => 0 end)
      | None => s
      end
  end.
Definition run (es : list event) (s : sys) : sys := foldl (fun s e => exec e s) s es.

(** Threads that hold a unit but have not returned, and threads inside [wait]. *)
Definition holding (st : tstate) : Z := match st with WaitDone => 1 | _ => 0 end.
Definition waiting (st : tstate) : Z := match st with WaitLoad | WaitCas _ | WaitDone => 1 | _ => 0 end.
Definition loaded_ok (st : tstate) : Prop :=
  match st with WaitCas c | TryCas c => 0 < c <= SEMVMX | PostCas c => 0 <= c < SEMVMX | _ => True end.
Record sem_inv (v : Z) (s : sys) : Prop := {
  si_max : max (sem s) = SEMVMX;
  si_range : 0 <= value (sem s) <= SEMVMX;
  si_count : value (sem s) + acquired s + sumZ holding (threads s) = v + posted s;
  si_waiters : waiters (sem s) = sumZ waiting (threads s) mod u32_mod;
  si_loaded : Forall loaded_ok (threads s)
}.

Lemma i32_small x : 0 <= x <= SEMVMX -> signed 32 x = x.
Proof.
  unfold SEMVMX, signed. intros H. change (2 ^ (32 - 1)) with 2147483648. change (2 ^ 32) with 4294967296.
  rewrite Z.mod_small by lia. lia.
Qed.
Lemma sem_inv_start n v : 0 <= v <= SEMVMX -> sem_inv v (start n v).
Proof.
  intros Hv. assert (forall f, f Idle = 0 -> sumZ f (replicate n Idle) = 0) as E.
  { intros f Hf. induction n as [|n IH]; [done|]. change (f Idle + sumZ f (replicate n Idle) = 0). lia. }
  pose proof (E holding eq_refl) as E1. pose proof (E waiting eq_refl) as E2.
  split; cbn [start sem threads posted acquired unnamed_new max value waiters]; [done|done|lia| |].
  - rewrite E2. done.
  - apply Forall_replicate. done.
Qed.
Lemma u32_wrap_add a b : u32_add (a mod u32_mod) b = (a + b) mod u32_mod.
Proof. unfold u32_add. by rewrite Zplus_mod_idemp_l. Qed.
Lemma u32_wrap_sub a b : u32_sub (a mod u32_mod) b = (a - b) mod u32_mod.
Proof. unfold u32_sub. by rewrite Zminus_mod_idemp_l. Qed.

(** The invariant after one thread moved from [st] to [st']. *)
Lemma sem_inv_move v s i st m st' p a : sem_inv v s -> threads s !! i = Some st -> loaded_ok st' ->
  max m = SEMVMX -> 0 <= value m <= SEMVMX ->
  value m + a + holding st' = value (sem s) + acquired s + holding st + (p - posted s) ->
  waiters m = (sumZ waiting (threads s) - waiting st + waiting st') mod u32_mod ->
  sem_inv v (mkSys m (<[i := st']> (threads s)) p a).
Proof.
  intros [H1 H2 H3 H4 H5] Hi Hl Hm Hr Hc Hw. split; cbn [sem threads posted acquired]; [done|done| | |].
  - rewrite (sumZ_insert _ _ _ _ st) by done. lia.
  - rewrite (sumZ_insert _ _ _ _ st) by done. done.
  - by apply Forall_insert.
Qed.
Lemma sem_inv_exec v e s : sem_inv v s -> sem_inv v (exec e s).
Proof.
  intros Hs. pose proof Hs as [H1 H2 H3 H4 H5]. destruct e as [i c|i]; cbn [exec].
  - destruct (threads s !! i) as [[]|] eqn:Hi; try done.
    destruct c; cbn [begin]; (eapply sem_inv_move; [exact Hs|exact Hi|done|done|done|cbn [value set_waiters holding]; lia|
      cbn [waiters set_waiters waiting]]); rewrite ?H4, ?u32_wrap_add; f_equal; idtac. all: lia.
  - destruct (threads s !! i) as [st|] eqn:Hi; [|done]. pose proof (Forall_lookup_1 _ _ _ _ H5 Hi) as Hl.
    assert (forall x, 0 <= x <= SEMVMX -> signed 32 x = x) as Hi32 by exact i32_small.
    destruct st; cbn [advance loaded_ok] in *; unfold i32_add; rewrite ?H1;
      repeat match goal with |- context [if ?b then _ else _] => destruct b eqn:?; simplify_bool end;
      (eapply sem_inv_move; [exact Hs|exact Hi|cbn [loaded_ok]; try done; lia|done|cbn [value set_value set_waiters]|
        cbn [value set_value set_waiters holding]|cbn [waiters set_value set_waiters waiting]]);
      rewrite ?Hi32 by lia; try lia; rewrite ?H4, ?u32_wrap_sub; f_equal; lia.
Qed.
Lemma sem_inv_run v es s : sem_inv v s -> sem_inv v (run es s).
Proof. revert s. induction es as [|e es IH]; intros s Hs; [done|]. apply IH. by apply sem_inv_exec. Qed.

(** Counting semaphores count. Under every interleaving of [wait],
    [trywait] and [post] by any number of threads, the value stays between 0
    and 32767 and equals the initial value plus the posts minus the units
    taken, and [waiters] is the number of threads inside [wait]; a waiting
    thread that runs undisturbed while a unit is there gets it in three steps. *)
Theorem sem_counting n v es : 0 <= v <= SEMVMX ->
  let s := run es (start n v) in
  0 <= value (sem s) <= SEMVMX /\
  value (sem s) = v + posted s - acquired s - sumZ holding (threads s) /\
  waiters (sem s) = sumZ waiting (threads s) mod u32_mod /\
  forall i, threads s !! i = Some WaitLoad -> 0 < value (sem s) ->
    let s' := run [Run i; Run i; Run i] s in
    threads s' !! i = Some Idle /\ acquired s' = acquired s + 1 /\ value (sem s') = value (sem s) - 1.
Proof.
  intros Hv s. destruct (sem_inv_run v es _ (sem_inv_start n v Hv)) as [H1 H2 H3 H4 H5].
  fold s in H1, H2, H3, H4, H5. split_and!; [lia|lia|lia|done|]. intros i Hi Hpos.
  pose proof (lookup_lt_Some _ _ _ Hi) as Hlen. cbv zeta. unfold run; cbn [foldl exec].
  rewrite Hi. cbn [advance]. rewrite (proj2 (Z.leb_gt _ _)) by lia. cbn [threads sem].
  rewrite list_lookup_insert_eq by done. cbn [advance]. rewrite Z.eqb_refl. cbn [threads sem].
  rewrite list_lookup_insert_eq by (by rewrite length_insert). cbn [advance threads sem acquired value set_value set_waiters].
  rewrite list_lookup_insert_eq by (by rewrite !length_insert). split_and!; [done|lia|].
  unfold i32_add. rewrite i32_small by lia. lia.
Qed.
Lemma sem_counting_witness :
  let s := run [Begin 0 Wait; Run 0; Begin 1 Post; Run 1; Run 1; Run 0; Run 0; Run 0] (start 2 0) in
  0 <= value (sem s) <= SEMVMX /\ value (sem s) = 0 + posted s - acquired s - sumZ holding (threads s).
Proof.
  intros s. destruct (sem_counting 2 0 [Begin 0 Wait; Run 0; Begin 1 Post; Run 1; Run 1; Run 0; Run 0; Run 0]) as (H1 & H2 & _);
    [unfold SEMVMX; lia|]. split; [exact H1|exact H2].
Defined.

(** A step of the loops of a named semaphore is the step of the unnamed one,
    except that [wait] returns as soon as it has its unit. *)
Lemma named_advance_as_unnamed st s : st <> WaitDone ->
  let '(s', st1, r1) := named_advance st s in
  let '(m, st2, r2) := advance st (mkSem (n_value s) (n_max s) 0 false) in
  n_value s' = value m /\ n_max s' = max m /\
  match st2 with WaitDone => st1 = Idle /\ r1 = Acquired | _ => st1 = st2 /\ r1 = r2 end.
Proof. intros Hst. destruct st; cbn [named_advance advance value max]; try done;
  match goal with |- context [if ?b then _ else _] => destruct b end; done. Qed.

(** ** System V operations *)
Definition idx (o : Sembuf) : nat := Z.to_nat (sem_num o).
Definition buf_ok (o : Sembuf) : Prop := 0 <= sem_num o /\ - 2 ^ 15 <= sem_op o < 2 ^ 15.
Definition array_ok (a : SemArray) : Prop := Forall (fun v => 0 <= v <= SEMVMX) (values a).
(** The operation is possible on the array as it stands. *)
Definition op_fits (vs : list Z) (o : Sembuf) : Prop :=
  sem_num o < Z.of_nat (length vs) /\ 0 <= val_at o vs + sem_op o <= SEMVMX.

Lemma i32_add_op v o : 0 <= v <= SEMVMX -> buf_ok o -> i32_add v (sem_op o) = v + sem_op o.
Proof.
  unfold SEMVMX, i32_add, signed, buf_ok. intros Hv [_ Ho]. change (2 ^ (32 - 1)) with 2147483648.
  change (2 ^ 32) with 4294967296. change (2 ^ 15) with 32768 in Ho. rewrite Z.mod_small by lia. lia.
Qed.
Lemma val_at_range o a : array_ok a -> 0 <= val_at o (values a) <= SEMVMX.
Proof.
  intros Ha. unfold val_at. destruct (values a !! _) as [v|] eqn:E; cbn; [|done].
  exact (Forall_lookup_1 _ _ _ _ Ha E).
Qed.
Lemma check_ops_spec ops a : array_ok a -> Forall buf_ok ops -> Forall (fun o => has (sem_flg o) IPC_NOWAIT = true) ops ->
  check_ops ops (values a) = None <-> Forall (op_fits (values a)) ops.
Proof.
  intros Ha. induction ops as [|o ops IH]; intros Hb Hf; cbn [check_ops]; [split; [constructor|done]|].
  apply Forall_cons in Hb as [Hb1 Hb], Hf as [Hf1 Hf]. rewrite Hf1, andb_true_r, Forall_cons, <-(IH Hb Hf).
  pose proof (val_at_range o a Ha). rewrite (i32_add_op _ o) by done. unfold op_fits.
  repeat case_match; simplify_bool; split; try done; intros; lia || (split; [lia|tauto]) || tauto.
Qed.
Lemma apply_other ops a i : i ∉ idx <$> ops -> values (foldl apply_op a ops) !! i = values a !! i.
Proof.
  revert a. induction ops as [|o ops IH]; intros a Hi; [done|]. cbn [foldl]. rewrite IH by set_solver.
  cbn [apply_op values]. apply list_lookup_insert_ne. intros E. apply Hi. rewrite fmap_cons. apply elem_of_cons. by left.
Qed.
Lemma apply_target ops a o : NoDup (idx <$> ops) -> o ∈ ops -> (idx o < length (values a))%nat ->
  values (foldl apply_op a ops) !! idx o = Some (i32_add (val_at o (values a)) (sem_op o)).
Proof.
  revert a. induction ops as [|p ops IH]; intros a Hn Ho Hi; [by apply not_elem_of_nil in Ho|].
  rewrite fmap_cons in Hn. apply NoDup_cons in Hn as [Hp Hn]. cbn [foldl]. apply elem_of_cons in Ho as [->|Ho].
  - rewrite apply_other by done. cbn [apply_op values]. by apply list_lookup_insert_eq.
  - rewrite IH; [|done|done|by cbn [apply_op values]; rewrite length_insert]. do 2 f_equal.
    unfold val_at. cbn [apply_op values]. f_equal. apply list_lookup_insert_ne. intros E. apply Hp.
    change (idx p = idx o) in E. rewrite E. by apply list_elem_of_fmap_2.
Qed.
Lemma apply_length ops a : length (values (foldl apply_op a ops)) = length (values a).
Proof. revert a. induction ops as [|o ops IH]; intros a; [done|]. cbn [foldl]. rewrite IH. cbn. apply length_insert. Qed.

(** [semop] is all or nothing. For a set of non-blocking operations on
    distinct semaphores of an array with values in range, the call succeeds
    exactly when every operation is possible on the values as they stand; then
    each addressed semaphore moves by its operation, the others keep their
    value, and every value is still between 0 and 32767. On any error, for any
    operations, the array is untouched. *)
Theorem semop_atomic now ops a : array_ok a -> Forall buf_ok ops -> NoDup (idx <$> ops) ->
  Forall (fun o => has (sem_flg o) IPC_NOWAIT = true) ops ->
  let '(a', r) := op now ops a in
  (r = inr tt <-> Forall (op_fits (values a)) ops) /\
  (r = inr tt -> array_ok a' /\
     (forall o, o ∈ ops -> values a' !! idx o = Some (val_at o (values a) + sem_op o)) /\
     (forall i, i ∉ idx <$> ops -> values a' !! i = values a !! i)) /\
  (r <> inr tt -> a' = a).
Proof.
  intros Ha Hb Hn Hf. pose proof (check_ops_spec ops a Ha Hb Hf) as Hc. unfold op.
  destruct (check_ops ops (values a)) as [e|].
  - split_and!; [|done|done]. split; [done|]. intros H. by apply Hc in H.
  - assert (Forall (op_fits (values a)) ops) as Hfit by (by apply Hc). rewrite Forall_forall in Hfit, Hb.
    assert (forall o, o ∈ ops -> values (foldl apply_op a ops) !! idx o = Some (val_at o (values a) + sem_op o)) as Ht.
    { intros o Ho. rewrite apply_target; [|done|done|].
      - rewrite i32_add_op; [done|by apply val_at_range|by apply Hb].
      - destruct (Hfit o Ho) as [? _]. destruct (Hb o Ho) as [? _]. unfold idx. lia. }
    split_and!; [|intros _; split_and!|done]; cbn [values]; [|  |exact Ht|intros; by apply apply_other].
    + split; [intros _; by apply Forall_forall|done].
    + apply Forall_lookup. intros i v Hv. cbn [values] in Hv. destruct (decide (i ∈ idx <$> ops)) as [Hi|Hi].
      * apply list_elem_of_fmap in Hi as (o & -> & Ho). rewrite Ht in Hv by done. simplify_eq. by apply Hfit.
      * rewrite apply_other in Hv by done. exact (Forall_lookup_1 _ _ _ _ Ha Hv).
Qed.
Lemma semop_atomic_witness :
  let a := set_all 0 [1; 5] (array_new 0 1 7 2 0) in
  let '(a', r) := op 9 [mkBuf 0 (-1) IPC_NOWAIT; mkBuf 1 2 IPC_NOWAIT] a in
  (r = inr tt <-> Forall (op_fits (values a)) [mkBuf 0 (-1) IPC_NOWAIT; mkBuf 1 2 IPC_NOWAIT]).
Proof.
  pose proof (semop_atomic 9 [mkBuf 0 (-1) IPC_NOWAIT; mkBuf 1 2 IPC_NOWAIT] (set_all 0 [1; 5] (array_new 0 1 7 2 0))) as H.
  cbv zeta. destruct (op 9 _ _) as [a' r]. apply H.
  - unfold array_ok, set_all, SEMVMX; cbn. repeat constructor; lia.
  - repeat constructor; cbn; lia.
  - cbn. repeat constructor; set_solver.
  - repeat constructor.
Defined.

(** [semop] does not block. An operation that would have to wait (no
    [IPC_NOWAIT]) passes the check and is applied, so the value goes below
    zero; and two operations on one semaphore are checked against the same old
    value, so together they can drive it below zero even with [IPC_NOWAIT]. *)
Theorem semop_goes_negative :
  (let '(a, r) := op 0 [mkBuf 0 (-1) 0] (array_new 0 1 7 1 0) in r = inr tt /\ values a = [-1]) /\
  (let '(a, r) := op 0 [mkBuf 0 (-1) IPC_NOWAIT; mkBuf 0 (-1) IPC_NOWAIT] (set_val 0 0 1 (array_new 0 1 7 1 0)) in
   r = inr tt /\ values a = [-1]).
Proof. by vm_compute. Qed.

(** [SETALL] and [GETALL] round trip: values copied from user memory into
    the array are read back unchanged, one by one and all together. *)
Theorem semctl_setall_roundtrip now vals a : Forall (fun v => 0 <= v < 65536) vals -> length vals = length (values a) ->
  get_all (set_all now vals a) = vals /\
  forall i v, vals !! i = Some v -> get_val (Z.of_nat i) (set_all now vals a) = v.
Proof.
  intros Hv Hl. assert (values (set_all now vals a) = vals) as E.
  { unfold set_all; cbn [values set_values]. revert Hl. generalize (values a) as vs. clear Hv.
    induction vals as [|v vals IH]; intros [|w vs] Hl; try done. cbn. f_equal. apply IH. cbn in Hl. lia. }
  split.
  - unfold get_all. rewrite E. clear -Hv. induction Hv as [|v vals Hv Hvs IH]; [done|]. cbn [fmap list_fmap].
    rewrite Z.mod_small by done. f_equal. exact IH.
  - intros i v Hi. unfold get_val. rewrite E. pose proof (lookup_lt_Some _ _ _ Hi).
    rewrite (proj2 (Z.ltb_lt _ _)) by lia. by rewrite Nat2Z.id, Hi.
Qed.
Lemma semctl_setall_roundtrip_witness : get_all (set_all 3 [4; 65535] (array_new 0 1 7 2 0)) = [4; 65535].
Proof. apply semctl_setall_roundtrip; [repeat constructor; lia|reflexivity]. Defined.

(** ** Named semaphores *)
Inductive nop := Open (nm : string) (oflag v : Z) | Close (nm : string) | Unlink (nm : string).
(** [None]: the call does not return. *)
Definition nstep (o : nop) (m : SemManager) : option SemManager :=
  match o with
  | Open nm f v => Some (sem_open nm f v m).1
  | Close nm => fst <$> sem_close nm m
  | Unlink nm => fst <$> sem_unlink nm m
  end.
Fixpoint nrun (ops : list nop) (m : SemManager) : option SemManager :=
  match ops with [] => Some m | o :: ops' => nstep o m ≫= nrun ops' end.

Lemma nstep_keeps o m m' : nstep o m = Some m' -> named m ⊆ named m'.
Proof.
  destruct o as [nm f v|nm|nm]; cbn [nstep]; unfold sem_open, sem_close, sem_unlink.
  - destruct (named m !! nm) eqn:E; repeat case_match; intros; simplify_eq/=; try done. by apply insert_subseteq.
  - destruct (named m !! nm) eqn:E; repeat case_match; intros; by simplify_eq/=.
  - destruct (named m !! nm) eqn:E; repeat case_match; intros; by simplify_eq/=.
Qed.

(** A name is never released. No history of [sem_open], [sem_close] and
    [sem_unlink] calls that all return ever removes a name or binds it to
    another semaphore: the only paths that remove it lock [named] while holding
    its lock, so the ordinary sequence open, unlink, close hangs in its last
    call. *)
Theorem sem_name_never_released ops m m' nm l : nrun ops m = Some m' -> named m !! nm = Some l ->
  named m' !! nm = Some l /\
  nrun [Open "s" IPC_CREAT 1; Unlink "s"; Close "s"] mgr_new = None.
Proof.
  intros Hr Hl. split; [|by vm_compute]. revert m Hr Hl. induction ops as [|o ops IH]; intros m Hr Hl; cbn [nrun] in Hr.
  - by simplify_eq.
  - destruct (nstep o m) as [m1|] eqn:E; [|done]. cbn in Hr. eapply IH; [exact Hr|].
    eapply lookup_weaken; [exact Hl|]. by eapply nstep_keeps.
Qed.
Lemma sem_name_never_released_witness :
  exists m', nrun [Open "s" IPC_CREAT 1; Open "s" 0 0; Close "s"] (sem_open "s" IPC_CREAT 1 mgr_new).1 = Some m' /\
    named m' !! "s"%string = Some 0.
Proof.
  destruct (nrun [Open "s" IPC_CREAT 1; Open "s" 0 0; Close "s"] (sem_open "s" IPC_CREAT 1 mgr_new).1) as [m'|] eqn:E;
    [|exfalso; revert E; vm_compute; discriminate].
  exists m'. split; [done|]. eapply sem_name_never_released; [exact E|reflexivity].
Defined.

(** [ref_count] is not the number of handles: opening an existing name does
    not raise it while every close lowers it, so after two opens and two closes
    it has wrapped around. *)
Theorem sem_ref_count_wraps :
  exists m, nrun [Open "s" IPC_CREAT 1; Open "s" 0 0; Close "s"; Close "s"] mgr_new = Some m /\
    (ref_count <$> heap m !! 0) = Some u32_max /\ (open_count <$> heap m !! 0) = Some 0.
Proof. eexists. split; [reflexivity|]. split; vm_compute; reflexivity. Qed.

End Semaphore.
