(* ===== verification/EventFd.v ===== *)
(** * eventfd, signalfd and timerfd

    Models [src/src/ipc/event_fd.rs].  The two atomic accesses of
    [EventFd::read] and the two of [EventFd::write] are separate steps of a
    machine of threads, so that their races are visible; signalfd and timerfd
    objects are used under the lock of their table.  The time stamp counter is
    an argument. *)
From S2P Require Import Prelude.

Module EventFd.

Definition EFD_NONBLOCK : Z := 0x800.
Definition EFD_SEMAPHORE : Z := 1.
Definition TFD_NONBLOCK : Z := 0x800.
Inductive EventFdError := WouldBlock | Overflow | InvalidFd.
Definition has (flags f : Z) : bool := negb (Z.land flags f =? 0).

(** ** eventfd *)
Record EventFd := mkEfd { counter : Z; e_flags : Z; e_fd : Z }.
Definition efd_new (initval flags fd : Z) : EventFd := mkEfd initval flags fd.
Definition set_counter (c : Z) (e : EventFd) : EventFd := mkEfd c (e_flags e) (e_fd e).

Inductive tstate := Idle | ReadTake | WriteAdd (val : Z) | WriteUndo (val : Z).
Inductive call := Read | Write (val : Z).
Inductive ret := Continue | GotValue (v : Z) | Wrote (val : Z) | Failed (e : EventFdError).

(** Up to the first atomic access of the call, included. *)
Definition begin (c : call) (e : EventFd) : tstate * ret :=
  match c with
  | Read => if counter e =? 0 then (Idle, Failed WouldBlock) else (ReadTake, Continue)
  | Write val => if val =? u64_max then (Idle, Failed Overflow) else (WriteAdd val, Continue)
  end.
Definition advance (st : tstate) (e : EventFd) : EventFd * tstate * ret :=
  match st with
  | Idle => (e, Idle, Continue)
  | ReadTake =>
      if has (e_flags e) EFD_SEMAPHORE then (set_counter (u64_sub (counter e) 1) e, Idle, GotValue 1)
      else (set_counter 0 e, Idle, GotValue (counter e))
  | WriteAdd val =>
      let old := counter e in
      let e := set_counter (u64_add old val) e in
      if u64_max <? old + val then (e, WriteUndo val, Continue) else (e, Idle, Wrote val)
  | WriteUndo val => (set_counter (u64_sub (counter e) val) e, Idle, Failed Overflow)
  end.
Definition is_readable (e : EventFd) : bool := 0 <? counter e.

(** The whole call without interference. *)
Fixpoint finish (fuel : nat) (st : tstate) (e : EventFd) : EventFd * ret :=
  match fuel with
  | O => (e, Continue)
  | S fuel => let '(e, st, r) := advance st e in match r with Continue => finish fuel st e | _ => (e, r) end
  end.
Definition alone (c : call) (e : EventFd) : EventFd * ret :=
  match begin c e with (st, Continue) => finish 2 st e | (_, r) => (e, r) end.

(** ** signalfd *)
Record SignalfdSiginfo := mkInfo { signo : Z; errno : Z; code : Z; s_pid : Z; s_uid : Z; sival : Z }.
Record SignalFd := mkSfd { s_fd : Z; sigmask : Z; s_flags : Z; pending : list SignalfdSiginfo }.
Definition sfd_new (fd mask flags : Z) : SignalFd := mkSfd fd mask flags [].
(** The shift amount of [>>] is taken modulo the width. *)
Definition listens (sno : Z) (s : SignalFd) : bool := negb (Z.land (Z.shiftr (sigmask s) (sno mod 64)) 1 =? 0).
Definition deliver_signal (sno pid uid : Z) (s : SignalFd) : SignalFd :=
  if listens sno s then mkSfd (s_fd s) (sigmask s) (s_flags s) (pending s ++ [mkInfo sno 0 0 pid uid 0]) else s.
Definition sfd_read (s : SignalFd) : SignalFd * option SignalfdSiginfo :=
  match pending s with
  | [] => (s, None)
  | i :: rest => (mkSfd (s_fd s) (sigmask s) (s_flags s) rest, Some i)
  end.
Definition set_sigmask (m : Z) (s : SignalFd) : SignalFd := mkSfd (s_fd s) m (s_flags s) (pending s).

(** ** timerfd *)
Inductive TimerfdClockId := Realtime | Monotonic | Boottime | RealtimeAlarm.
Record ItimerSpec := mkSpec { it_value_ns : Z; it_interval_ns : Z }.
Record TimerFd := mkTfd {
  t_fd : Z; clock_id : TimerfdClockId; t_flags : Z; spec : ItimerSpec; armed : bool; expirations : Z; last_trigger_tsc : Z }.
Definition tfd_new (fd : Z) (c : TimerfdClockId) (flags : Z) : TimerFd := mkTfd fd c flags (mkSpec 0 0) false 0 0.
Definition settime (tsc : Z) (new_spec : ItimerSpec) (t : TimerFd) : TimerFd * ItimerSpec :=
  (if 0 <? it_value_ns new_spec then mkTfd (t_fd t) (clock_id t) (t_flags t) new_spec true 0 tsc
   else mkTfd (t_fd t) (clock_id t) (t_flags t) new_spec false (expirations t) (last_trigger_tsc t), spec t).
Definition gettime (t : TimerFd) : ItimerSpec := spec t.
Definition tfd_read (t : TimerFd) : TimerFd * (EventFdError + Z) :=
  (mkTfd (t_fd t) (clock_id t) (t_flags t) (spec t) (armed t) 0 (last_trigger_tsc t),
   if expirations t =? 0 then inl WouldBlock else inr (expirations t)).
Definition tfd_tick (t : TimerFd) : TimerFd :=
  if armed t then
    mkTfd (t_fd t) (clock_id t) (t_flags t) (spec t) true (u64_add (expirations t) 1) (last_trigger_tsc t)
  else t.

(** ** The registry *)
Record registry := mkReg {
  EVENTFDS : gmap Z EventFd; SIGNALFDS : gmap Z SignalFd; TIMERFDS : gmap Z TimerFd; NEXT_SPECIAL_FD : Z }.
Definition reg_new : registry := mkReg ∅ ∅ ∅ 1000.
Definition i32_succ (x : Z) : Z := (x + 1 + 2 ^ 31) mod 2 ^ 32 - 2 ^ 31.
Definition alloc_fd (r : registry) : registry * Z :=
  (mkReg (EVENTFDS r) (SIGNALFDS r) (TIMERFDS r) (i32_succ (NEXT_SPECIAL_FD r)), NEXT_SPECIAL_FD r).
Definition sys_eventfd2 (initval flags : Z) (r : registry) : registry * Z :=
  let '(r, fd) := alloc_fd r in
  (mkReg (<[fd := efd_new initval flags fd]> (EVENTFDS r)) (SIGNALFDS r) (TIMERFDS r) (NEXT_SPECIAL_FD r), fd).
Definition sys_signalfd4 (fd mask flags : Z) (r : registry) : registry * Z :=
  match (if fd =? -1 then None else SIGNALFDS r !! fd) with
  | Some s => (mkReg (EVENTFDS r) (<[fd := set_sigmask mask s]> (SIGNALFDS r)) (TIMERFDS r) (NEXT_SPECIAL_FD r), fd)
  | None =>
      let '(r, new_fd) := alloc_fd r in
      (mkReg (EVENTFDS r) (<[new_fd := sfd_new new_fd mask flags]> (SIGNALFDS r)) (TIMERFDS r) (NEXT_SPECIAL_FD r), new_fd)
  end.
Definition clock_of (clockid : Z) : TimerfdClockId :=
  if clockid =? 0 then Realtime else if clockid =? 1 then Monotonic
  else if clockid =? 7 then Boottime else if clockid =? 8 then RealtimeAlarm else Monotonic.
Definition sys_timerfd_create (clockid flags : Z) (r : registry) : registry * Z :=
  let '(r, fd) := alloc_fd r in
  (mkReg (EVENTFDS r) (SIGNALFDS r) (<[fd := tfd_new fd (clock_of clockid) flags]> (TIMERFDS r)) (NEXT_SPECIAL_FD r), fd).

(** ** eventfd without interference *)
Definition efd_wf (e : EventFd) : Prop := is_u64 (counter e).

(** A call on an eventfd that is not disturbed, all branches. A read of a
    zero counter fails with [WouldBlock]; otherwise it takes 1 in semaphore
    mode and everything in the other mode, and returns what it took. A write
    adds its value, or is refused with [Overflow] exactly when the value is
    2^64-1 or the sum does not fit, and then the counter is what it was. *)
Theorem eventfd_call_spec e val : efd_wf e -> is_u64 val ->
  (let '(e', r) := alone Read e in
   if counter e =? 0 then e' = e /\ r = Failed WouldBlock
   else exists v, r = GotValue v /\ counter e' = counter e - v /\
     v = (if has (e_flags e) EFD_SEMAPHORE then 1 else counter e)) /\
  (let '(e', r) := alone (Write val) e in
   if (val =? u64_max) || (u64_max <? counter e + val) then e' = e /\ r = Failed Overflow
   else r = Wrote val /\ counter e' = counter e + val).
Proof.
  intros He Hv. unfold efd_wf in He. split.
  - unfold alone, begin. destruct (counter e =? 0) eqn:E; [done|]. simplify_bool. cbn [finish advance].
    destruct (has _ _) eqn:F; cbn [finish advance].
    + exists 1. split_and!; [done| |done]. cbn [counter set_counter]. rewrite u64_sub_small by mlia. done.
    + exists (counter e). cbn [counter set_counter]. split_and!; [done|lia|done].
  - unfold alone, begin. destruct (val =? u64_max) eqn:E; [done|]. cbn [orb finish advance].
    destruct (u64_max <? counter e + val) eqn:F; cbn [finish advance]; simplify_bool.
    + split; [|done]. destruct e as [c f d]. unfold set_counter; cbn in *. f_equal. mlia.
    + split; [done|]. cbn [counter set_counter]. apply u64_add_small. mlia.
Qed.
Lemma eventfd_call_spec_witness :
  (let '(e', r) := alone (Write 5) (efd_new 3 0 1000) in
   if (5 =? u64_max) || (u64_max <? 3 + 5) then e' = efd_new 3 0 1000 /\ r = Failed Overflow
   else r = Wrote 5 /\ counter e' = 3 + 5).
Proof. apply (eventfd_call_spec (efd_new 3 0 1000) 5); [unfold efd_wf; cbn; mlia|mlia]. Defined.

(** ** eventfd under concurrency

    [added] and [delivered] are the sums of the values of the writes and reads
    that returned, [asked] of the writes that were started. *)
Record sys := mkSys { efd : EventFd; threads : list tstate; added : Z; delivered : Z; asked : Z }.
Definition start (n : nat) (initval flags : Z) : sys := mkSys (efd_new initval flags 1000) (replicate n Idle) 0 0 0.
Inductive event := Begin (i : nat) (c : call) | Run (i : nat).
Definition exec (ev : event) (s : sys) : sys :=
  match ev with
  | Begin i c =>
      match threads s !! i with
      | Some Idle => let '(st, r) := begin c (efd s) in
                     mkSys (efd s) (<[i := st]> (threads s)) (added s) (delivered s)
                       (asked s + match c with Write v => v | Read => 0 end)
      | _ => s
      end
  | Run i =>
      match threads s !! i with
      | Some st => let '(e, st', r) := advance st (efd s) in
                   mkSys e (<[i := st']> (threads s)) (added s + match r with Wrote v => v | _ => 0 end)
                     (delivered s + match r with GotValue v => v | _ => 0 end) (asked s)
      | None => s
      end
  end.
Definition run (es : list event) (s : sys) : sys := foldl (fun s e => exec e s) s es.
Definition ev_ok (e : event) : Prop := match e with Begin _ (Write v) => is_u64 v | _ => True end.
(** Values of the writes that have not added yet. *)
Definition in_flight (st : tstate) : Z := match st with WriteAdd v => v | _ => 0 end.
Definition quiet_state (st : tstate) : Prop := match st with WriteAdd v => 0 <= v | WriteUndo _ => False | _ => True end.
Record efd_inv (init flags : Z) (s : sys) : Prop := {
  ei_flags : e_flags (efd s) = flags;
  ei_range : 0 <= counter (efd s) /\ 0 <= delivered s;
  ei_balance : counter (efd s) + delivered s = init + added s;
  ei_asked : added s + sumZ in_flight (threads s) <= asked s;
  ei_states : Forall quiet_state (threads s)
}.
Lemma asked_mono e s : ev_ok e -> asked s <= asked (exec e s).
Proof.
  destruct e as [i [|v]|i]; cbn [exec ev_ok]; intros Hv; destruct (threads s !! i) as [[]|]; try done;
    repeat case_match; simplify_eq/=; try lia; destruct Hv; lia.
Qed.
Lemma asked_run es s : Forall ev_ok es -> asked s <= asked (run es s).
Proof.
  revert s. induction es as [|e es IH]; intros s Hf; [cbn; lia|]. apply Forall_cons in Hf as [He Hf].
  cbn [run foldl]. etrans; [by apply (asked_mono e)|by apply IH].
Qed.
Lemma in_flight_pos l : Forall quiet_state l -> 0 <= sumZ in_flight l.
Proof.
  induction 1 as [|x l Hx _ IH]; [done|]. change (0 <= in_flight x + sumZ in_flight l).
  destruct x; cbn [in_flight quiet_state] in *; lia.
Qed.
Lemma in_flight_others l i st : Forall quiet_state l -> l !! i = Some st -> 0 <= sumZ in_flight l - in_flight st.
Proof.
  intros Hl Hi. pose proof (in_flight_pos (<[i := Idle]> l)) as H. rewrite (sumZ_insert _ _ _ _ st) in H by done.
  cbn [in_flight] in H. rewrite Z.add_0_r in H. apply H. by apply Forall_insert.
Qed.
Lemma begin_quiet c e st r i : ev_ok (Begin i c) -> begin c e = (st, r) ->
  quiet_state st /\ in_flight st <= match c with Write v => v | Read => 0 end.
Proof.
  destruct c as [|v]; cbn [begin ev_ok]; intros Hv; destruct (_ =? _); intros [= <- <-]; cbn; try done;
    destruct Hv; (split; [done|lia]).
Qed.
Lemma efd_inv_exec init flags e s : has flags EFD_SEMAPHORE = false -> 0 <= init -> ev_ok e -> init + asked (exec e s) <= u64_max ->
  efd_inv init flags s -> efd_inv init flags (exec e s).
Proof.
  intros Hns Hi He Hmax [H1 H2 H3 H4 H5]. destruct e as [i c|i]; cbn [exec] in *.
  - destruct (threads s !! i) as [[]|] eqn:Ei; try (by split). destruct (begin c (efd s)) as [st r] eqn:Eb.
    destruct (begin_quiet c (efd s) st r i He Eb) as [Hq Hfl].
    split; cbn [efd threads added delivered asked] in *; [done|lia|lia| |by apply Forall_insert].
    rewrite (sumZ_insert _ _ _ _ Idle) by done. cbn [in_flight]. lia.
  - destruct (threads s !! i) as [st|] eqn:Ei; [|by split]. pose proof (Forall_lookup_1 _ _ _ _ H5 Ei) as Hq.
    pose proof (in_flight_others _ _ _ H5 Ei) as Hpos.
    destruct st as [| |v|v]; cbn [advance quiet_state] in *; [| | |done].
    + rewrite list_insert_id by done. split; cbn [efd threads added delivered asked]; [done|lia|lia|lia|done].
    + rewrite H1, Hns. split; cbn [efd threads added delivered asked e_flags counter set_counter]; [done|lia|lia| |by apply Forall_insert].
      rewrite (sumZ_insert _ _ _ _ ReadTake) by done. cbn [in_flight] in *. lia.
    + cbn [in_flight] in Hpos. destruct (u64_max <? counter (efd s) + v) eqn:E; simplify_bool; cbn [efd threads added delivered asked] in *.
      * lia.
      * split; cbn [efd threads added delivered asked e_flags counter set_counter]; [done| | | |by apply Forall_insert].
        -- rewrite u64_add_small by mlia. lia.
        -- rewrite u64_add_small by mlia. lia.
        -- rewrite (sumZ_insert _ _ _ _ (WriteAdd v)) by done. cbn [in_flight]. lia.
Qed.
Lemma efd_inv_run init flags es s : has flags EFD_SEMAPHORE = false -> 0 <= init -> Forall ev_ok es ->
  init + asked (run es s) <= u64_max -> efd_inv init flags s -> efd_inv init flags (run es s).
Proof.
  intros Hns Hi. revert s. induction es as [|e es IH]; intros s Hf Hm Hs; [done|].
  apply Forall_cons in Hf as [He Hf]. cbn [run foldl] in *. apply IH; [done|done|].
  apply efd_inv_exec; [done..| |done]. etrans; [|exact Hm]. pose proof (asked_run es (exec e s) Hf) as H. unfold run in H. lia.
Qed.

(** No event is lost or counted twice. Under every interleaving of readers
    and writers of an eventfd in counter mode whose writes together fit in 64
    bits, what the reads returned plus the counter is the initial value plus
    what the writes added. *)
Theorem eventfd_conserves n initval flags es : has flags EFD_SEMAPHORE = false -> is_u64 initval -> Forall ev_ok es ->
  let s := run es (start n initval flags) in
  initval + asked s <= u64_max -> delivered s + counter (efd s) = initval + added s.
Proof.
  intros Hns Hi Hf s Hm. destruct (efd_inv_run initval flags es (start n initval flags)) as [_ _ H _ _]; [done|apply Hi|done|done| |fold s in H; lia].
  assert (sumZ in_flight (replicate n Idle) = 0) as E
    by (clear; induction n as [|n IH]; [done|]; change (0 + sumZ in_flight (replicate n Idle) = 0); lia).
  split; cbn [start efd threads added delivered asked counter efd_new]; [done|destruct Hi; lia|lia|rewrite E; lia|].
  by apply Forall_replicate.
Qed.
Lemma eventfd_conserves_witness :
  let s := run [Begin 0 (Write 5); Begin 1 Read; Run 0; Begin 1 Read; Run 1] (start 2 0 0) in
  delivered s + counter (efd s) = 0 + added s.
Proof.
  apply (eventfd_conserves 2 0 0 [Begin 0 (Write 5); Begin 1 Read; Run 0; Begin 1 Read; Run 1]);
    [reflexivity|mlia|repeat constructor; cbn; mlia|vm_compute; congruence].
Defined.

(** Semaphore-mode reads race. Two readers that both see the counter at 1
    both subtract: two units are handed out for one, and the counter is
    2^64-1. *)
Theorem eventfd_semaphore_race :
  let s := run [Begin 0 Read; Begin 1 Read; Run 0; Run 1] (start 2 1 EFD_SEMAPHORE) in
  delivered s = 2 /\ counter (efd s) = u64_max.
Proof. by vm_compute. Qed.

(** ** signalfd and timerfd *)
Inductive sop := Deliver (sno pid uid : Z) | SRead.
Record strace := mkST { sfd : SignalFd; heard : list SignalfdSiginfo; got : list SignalfdSiginfo }.
Definition sstep (o : sop) (t : strace) : strace :=
  match o with
  | Deliver sno pid uid =>
      mkST (deliver_signal sno pid uid (sfd t))
        (if listens sno (sfd t) then heard t ++ [mkInfo sno 0 0 pid uid 0] else heard t) (got t)
  | SRead => match sfd_read (sfd t) with (s, Some i) => mkST s (heard t) (got t ++ [i]) | (s, None) => mkST s (heard t) (got t) end
  end.
Definition srun (ops : list sop) (t : strace) : strace := foldl (fun t o => sstep o t) t ops.

(** A signalfd is a lossless FIFO of exactly the signals of its mask:
    after any history, the signals read so far followed by the pending ones are
    the delivered signals of the mask, in order of delivery. *)
Theorem signalfd_fifo fd mask flags ops :
  let t := srun ops (mkST (sfd_new fd mask flags) [] []) in
  heard t = got t ++ pending (sfd t) /\ sigmask (sfd t) = mask /\
  Forall (fun i => Z.testbit mask (signo i mod 64) = true) (heard t).
Proof.
  intros t. subst t. set (t0 := mkST (sfd_new fd mask flags) [] []).
  assert (heard t0 = got t0 ++ pending (sfd t0) /\ sigmask (sfd t0) = mask /\
    Forall (fun i => Z.testbit mask (signo i mod 64) = true) (heard t0)) as H by (by split_and!).
  revert H. generalize t0. clear t0. induction ops as [|o ops IH]; intros t (H1 & H2 & H3); [done|].
  cbn [srun foldl]. apply IH. destruct o as [sno pid uid|]; cbn [sstep].
  - unfold deliver_signal. destruct (listens sno (sfd t)) eqn:E; cbn [sfd heard got pending sigmask]; [|done].
    split_and!; [by rewrite H1, (assoc_L (++))|done|]. apply Forall_app; split; [done|]. constructor; [|done].
    cbn [signo]. unfold listens in E. rewrite H2 in E. apply negb_true_iff, Z.eqb_neq in E.
    rewrite Z.testbit_odd. change 1 with (Z.ones 1) in E. rewrite Z.land_ones in E by lia.
    rewrite Zmod_odd in E. by destruct (Z.odd _).
  - unfold sfd_read. destruct (pending (sfd t)) as [|i rest] eqn:E; cbn [sfd heard got pending sigmask]; [by rewrite ?E in *; split_and!|].
    split_and!; [by rewrite H1, <-(assoc_L (++))|done|done].
Qed.

(** A timerfd counts every tick while it is armed, whatever it was set to:
    a one-shot timer ([it_interval_ns = 0]) keeps expiring, and the first
    expiry does not wait for [it_value_ns]. *)
Theorem timerfd_ignores_spec tsc sp t n : 0 < it_value_ns sp -> (0 < n)%nat -> Z.of_nat n < u64_mod ->
  (tfd_read (Nat.iter n tfd_tick (settime tsc sp t).1)).2 = inr (Z.of_nat n).
Proof.
  intros Hv Hn Hlt. unfold settime. rewrite (proj2 (Z.ltb_lt _ _)) by done. cbn [fst].
  assert (forall k, Z.of_nat k < u64_mod ->
    Nat.iter k tfd_tick (mkTfd (t_fd t) (clock_id t) (t_flags t) sp true 0 tsc) =
    mkTfd (t_fd t) (clock_id t) (t_flags t) sp true (Z.of_nat k) tsc) as H.
  { induction k as [|k IH]; intros Hk; [done|]. cbn [Nat.iter nat_rect]. change (nat_rect _ _ _ k) with (Nat.iter k tfd_tick (mkTfd (t_fd t) (clock_id t) (t_flags t) sp true 0 tsc)).
    rewrite IH by lia. unfold tfd_tick. cbn [armed t_fd clock_id t_flags spec expirations last_trigger_tsc].
    f_equal. rewrite u64_add_small by lia. lia. }
  rewrite H by done. unfold tfd_read. cbn [expirations]. destruct (Z.eqb_spec (Z.of_nat n) 0); [lia|done].
Qed.
Lemma timerfd_ignores_spec_witness :
  (tfd_read (Nat.iter 3 tfd_tick (settime 0 (mkSpec 1000000000 0) (tfd_new 1000 Monotonic 0)).1)).2 = inr 3.
Proof. apply (timerfd_ignores_spec 0 (mkSpec 1000000000 0) (tfd_new 1000 Monotonic 0) 3); [cbn; lia|lia|mlia]. Defined.

(** ** Descriptors *)
Inductive rop := NewEvent (v f : Z) | NewSignal (fd m f : Z) | NewTimer (c f : Z).
Definition rstep (o : rop) (r : registry) : registry * Z :=
  match o with
  | NewEvent v f => sys_eventfd2 v f r
  | NewSignal fd m f => sys_signalfd4 fd m f r
  | NewTimer c f => sys_timerfd_create c f r
  end.
Definition rrun (ops : list rop) (r : registry) : registry := foldl (fun r o => (rstep o r).1) r ops.
Definition reg_ok (r : registry) : Prop :=
  1000 <= NEXT_SPECIAL_FD r /\
  (forall fd e, EVENTFDS r !! fd = Some e -> e_fd e = fd /\ 1000 <= fd < NEXT_SPECIAL_FD r) /\
  (forall fd s, SIGNALFDS r !! fd = Some s -> s_fd s = fd /\ 1000 <= fd < NEXT_SPECIAL_FD r) /\
  (forall fd t, TIMERFDS r !! fd = Some t -> t_fd t = fd /\ 1000 <= fd < NEXT_SPECIAL_FD r) /\
  (dom (EVENTFDS r) ## dom (SIGNALFDS r)) /\ (dom (EVENTFDS r) ## dom (TIMERFDS r)) /\
  (dom (SIGNALFDS r) ## dom (TIMERFDS r)).
Lemma i32_succ_small x : 0 <= x < 2 ^ 31 - 1 -> i32_succ x = x + 1.
Proof. intros. unfold i32_succ. rewrite Z.mod_small by lia. lia. Qed.
Lemma fresh_fd r : reg_ok r ->
  (NEXT_SPECIAL_FD r ∉ dom (EVENTFDS r)) /\ (NEXT_SPECIAL_FD r ∉ dom (SIGNALFDS r)) /\
  (NEXT_SPECIAL_FD r ∉ dom (TIMERFDS r)).
Proof.
  intros (_ & He & Hs & Ht & _). split_and!; intros [x Hx]%elem_of_dom;
    [apply He in Hx|apply Hs in Hx|apply Ht in Hx]; lia.
Qed.
Lemma rstep_ok o r : NEXT_SPECIAL_FD r < 2 ^ 31 - 1 -> reg_ok r ->
  reg_ok (rstep o r).1 /\ NEXT_SPECIAL_FD (rstep o r).1 <= NEXT_SPECIAL_FD r + 1.
Proof.
  intros Hn Hr. pose proof (fresh_fd r Hr) as (F1 & F2 & F3). pose proof Hr as (H0 & He & Hs & Ht & D1 & D2 & D3).
  assert (i32_succ (NEXT_SPECIAL_FD r) = NEXT_SPECIAL_FD r + 1) as Hsucc by (apply i32_succ_small; lia).
  destruct o as [v f|fd m f|c f]; cbn [rstep]; unfold sys_eventfd2, sys_signalfd4, sys_timerfd_create, alloc_fd.
  2: destruct (if fd =? -1 then None else SIGNALFDS r !! fd) as [s|] eqn:E.
  2: { assert (SIGNALFDS r !! fd = Some s) as Hfd by (by destruct (fd =? -1)). destruct (Hs _ _ Hfd) as [Hs1 Hs2].
       cbn [fst NEXT_SPECIAL_FD]. split; [|lia].
       assert (dom (<[fd := set_sigmask m s]> (SIGNALFDS r)) = dom (SIGNALFDS r)) as Hdom by (by apply dom_insert_lookup_L).
       split_and!; cbn [NEXT_SPECIAL_FD EVENTFDS SIGNALFDS TIMERFDS]; rewrite ?Hdom; try done.
       intros fd' s' [[<- <-]|[_ Hs']]%lookup_insert_Some; [done|by apply Hs]. }
  all: cbn [fst NEXT_SPECIAL_FD EVENTFDS SIGNALFDS TIMERFDS]; rewrite Hsucc; (split; [|lia]);
    (split_and!; cbn [NEXT_SPECIAL_FD EVENTFDS SIGNALFDS TIMERFDS]; rewrite ?dom_insert_L; [lia| | | | | |]);
    rewrite ?disjoint_union_l, ?disjoint_union_r, ?disjoint_singleton_l, ?disjoint_singleton_r; try done.
  all: intros fd' x H; try (apply lookup_insert_Some in H as [[<- <-]|[_ H]]; [cbn; split; [done|lia]|]);
    first [apply He in H|apply Hs in H|apply Ht in H]; (split; [apply H|lia]).
Qed.
Lemma rrun_ok ops r : NEXT_SPECIAL_FD r + Z.of_nat (length ops) < 2 ^ 31 - 1 -> reg_ok r -> reg_ok (rrun ops r).
Proof.
  revert r. induction ops as [|o ops IH]; intros r Hn Hr; [done|]. cbn [rrun foldl length] in *.
  destruct (rstep_ok o r ltac:(lia) Hr) as [H1 H2]. apply IH; [lia|done].
Qed.

(** One descriptor, one object. After any history of fewer than 2^30
    creations, a new descriptor is one that no eventfd, signalfd or timerfd
    uses, every object is registered under its own descriptor, and no
    descriptor is registered in two of the three tables. *)
Theorem special_fds_unique ops : Z.of_nat (length ops) < 2 ^ 30 ->
  let r := rrun ops reg_new in
  reg_ok r /\
  forall v f, let '(r', fd) := sys_eventfd2 v f r in
    (fd ∉ dom (EVENTFDS r) ∪ dom (SIGNALFDS r) ∪ dom (TIMERFDS r)) /\ EVENTFDS r' !! fd = Some (efd_new v f fd).
Proof.
  intros Hn r. assert (reg_ok r) as Hr.
  { apply rrun_ok; [cbn [reg_new NEXT_SPECIAL_FD]; lia|]. split_and!; cbn; try done; intros ??; by rewrite lookup_empty. }
  split; [done|]. intros v f. unfold sys_eventfd2, alloc_fd. cbn. destruct (fresh_fd r Hr) as (?&?&?).
  split; [set_solver|]. apply lookup_insert_eq.
Qed.
Lemma special_fds_unique_witness : reg_ok (rrun [NewEvent 0 0; NewSignal (-1) 6 0; NewTimer 1 0; NewSignal 1001 2 0] reg_new).
Proof. apply special_fds_unique. cbn [length]. lia. Defined.

End EventFd.
