(* ===== verification/TtyBuffer.v ===== *)
(** * The TTY ring buffer

    Models [src/src/tty/buffer.rs]: the 4096-byte single-producer
    single-consumer ring between the keyboard interrupt and [sys_read].
    [push], [pop] and [unpush] are given as whole operations, used by the line
    discipline through the class [ByteQueue], and cut at their atomic accesses
    for the concurrent theorems (sequentially consistent interleavings). *)

From S2P Require Import Prelude.

(** ** What the line discipline needs of a byte queue *)
Class ByteQueue (Q : Type) := {
  bq_new : Q;
  bq_push : Z -> Q -> Q * bool;
  bq_pop : Q -> Q * option Z;
  bq_unpush : Q -> Q * bool;
  bq_cap : nat;
  bq_contents : Q -> list Z;
  bq_wf : Q -> Prop
}.
Class ByteQueueOk (Q : Type) `{ByteQueue Q} := {
  bq_new_ok : bq_wf (bq_new (Q := Q)) /\ bq_contents (bq_new (Q := Q)) = [];
  bq_bound : forall q, bq_wf q -> (length (bq_contents q) <= bq_cap (Q := Q))%nat;
  bq_push_ok : forall x q, bq_wf q -> bq_wf (bq_push x q).1 /\
    (if (length (bq_contents q) <? bq_cap (Q := Q))%nat
     then bq_contents (bq_push x q).1 = bq_contents q ++ [x] /\ (bq_push x q).2 = true
     else bq_contents (bq_push x q).1 = bq_contents q /\ (bq_push x q).2 = false);
  bq_pop_ok : forall q, bq_wf q -> bq_wf (bq_pop q).1 /\
    match bq_contents q with
    | [] => (bq_pop q).2 = None /\ bq_contents (bq_pop q).1 = []
    | x :: l => (bq_pop q).2 = Some x /\ bq_contents (bq_pop q).1 = l
    end;
  bq_unpush_ok : forall q, bq_wf q -> bq_wf (bq_unpush q).1 /\
    (if decide (bq_contents q = []) then (bq_unpush q).2 = false /\ bq_contents (bq_unpush q).1 = []
     else (bq_unpush q).2 = true /\ exists x, bq_contents q = bq_contents (bq_unpush q).1 ++ [x])
}.

Module TtyBuffer.

Definition TTY_BUF_SIZE : Z := 4096.
Record TtyBuffer := mkBuf { data : list Z; head : Z; tail : Z }.
Definition new : TtyBuffer := mkBuf (replicate (Z.to_nat TTY_BUF_SIZE) 0) 0 0.
Definition dget (i : Z) (d : list Z) : Z := default 0 (d !! Z.to_nat i).

Definition push (val : Z) (b : TtyBuffer) : TtyBuffer * bool :=
  let next_head := (head b + 1) mod TTY_BUF_SIZE in
  if next_head =? tail b then (b, false)
  else (mkBuf (<[Z.to_nat (head b) := val]> (data b)) next_head (tail b), true).
Definition pop (b : TtyBuffer) : TtyBuffer * option Z :=
  if tail b =? head b then (b, None)
  else (mkBuf (data b) (head b) ((tail b + 1) mod TTY_BUF_SIZE), Some (dget (tail b) (data b))).
Definition prev (h : Z) : Z := if h =? 0 then TTY_BUF_SIZE - 1 else h - 1.
Definition unpush (b : TtyBuffer) : TtyBuffer * bool :=
  if head b =? tail b then (b, false) else (mkBuf (data b) (prev (head b)) (tail b), true).
Definition is_empty (b : TtyBuffer) : bool := head b =? tail b.

(** ** Contents *)
Definition wf (b : TtyBuffer) : Prop :=
  Z.of_nat (length (data b)) = TTY_BUF_SIZE /\ 0 <= head b < TTY_BUF_SIZE /\ 0 <= tail b < TTY_BUF_SIZE.
Definition len (b : TtyBuffer) : Z := (head b - tail b) mod TTY_BUF_SIZE.
Definition contents (b : TtyBuffer) : list Z :=
  (fun i => dget ((tail b + i) mod TTY_BUF_SIZE) (data b)) <$> seqZ 0 (len b).

Lemma len_range b : 0 <= len b < TTY_BUF_SIZE.
Proof. unfold len, TTY_BUF_SIZE. apply Z.mod_pos_bound. lia. Qed.
Lemma length_contents b : Z.of_nat (length (contents b)) = len b.
Proof. unfold contents. rewrite length_fmap, length_seqZ. pose proof (len_range b). lia. Qed.
Lemma len_zero b : wf b -> len b = 0 <-> head b = tail b.
Proof.
  intros (_ & Hh & Ht). unfold len. split; intros H; [|rewrite H, Z.sub_diag; done].
  destruct (decide (head b < tail b)).
  - replace (head b - tail b) with (head b - tail b + TTY_BUF_SIZE + (-1) * TTY_BUF_SIZE) in H by lia.
    rewrite Z.mod_add in H by (unfold TTY_BUF_SIZE; lia). rewrite Z.mod_small in H by lia. lia.
  - rewrite Z.mod_small in H by lia. lia.
Qed.
Lemma contents_nil b : wf b -> contents b = [] <-> head b = tail b.
Proof.
  intros Hw. rewrite <-len_zero by done. pose proof (length_contents b).
  split; intros E; [rewrite E in H; simpl in H; lia|]. destruct (contents b); [done|]. simpl in H. lia.
Qed.

(** Writing at [head] does not disturb the contents. *)
Lemma contents_write v b : wf b -> contents (mkBuf (<[Z.to_nat (head b) := v]> (data b)) (head b) (tail b)) = contents b.
Proof.
  intros (Hl & Hh & Ht). unfold contents. apply list_fmap_ext. intros i x Hx.
  apply lookup_seqZ in Hx as [-> Hi]. simpl in *. change (len (mkBuf _ (head b) (tail b))) with (len b) in Hi.
  unfold dget. rewrite list_lookup_insert_ne; [done|].
  intros E. apply Z2Nat.inj in E; [|lia|apply Z.mod_pos_bound; unfold TTY_BUF_SIZE; lia].
  unfold len, TTY_BUF_SIZE in *. revert E. Z.div_mod_to_equations; lia.
Qed.
Lemma contents_advance b : wf b -> len b < TTY_BUF_SIZE - 1 ->
  contents (mkBuf (data b) ((head b + 1) mod TTY_BUF_SIZE) (tail b)) = contents b ++ [dget (head b) (data b)].
Proof.
  intros (Hl & Hh & Ht) Hlen. unfold contents. simpl.
  assert (len (mkBuf (data b) ((head b + 1) mod TTY_BUF_SIZE) (tail b)) = len b + 1) as ->.
  { unfold len in *; simpl. unfold TTY_BUF_SIZE in *. Z.div_mod_to_equations; lia. }
  pose proof (len_range b). rewrite seqZ_app by lia. rewrite fmap_app. f_equal. simpl. do 2 f_equal.
  unfold len, TTY_BUF_SIZE in *. Z.div_mod_to_equations; lia.
Qed.
Lemma contents_pop b : wf b -> head b <> tail b ->
  contents b = dget (tail b) (data b) :: contents (mkBuf (data b) (head b) ((tail b + 1) mod TTY_BUF_SIZE)).
Proof.
  intros Hw Hne. pose proof Hw as (Hl & Hh & Ht). unfold contents. simpl.
  assert (len b <> 0) as H0 by (by rewrite len_zero).
  assert (len (mkBuf (data b) (head b) ((tail b + 1) mod TTY_BUF_SIZE)) = len b - 1) as ->.
  { unfold len in *; simpl. unfold TTY_BUF_SIZE in *. Z.div_mod_to_equations; lia. }
  pose proof (len_range b). rewrite (seqZ_cons 0 (len b)) by lia. simpl. f_equal.
  - rewrite Z.add_0_r, Z.mod_small by lia. done.
  - change (Z.succ 0) with 1. replace (Z.pred (len b)) with (len b - 1) by lia.
    apply list_eq. intros i. rewrite !list_lookup_fmap.
    destruct (decide (Z.of_nat i < len b - 1)).
    + rewrite !(proj2 (lookup_seqZ _ _ _ _)) by (split; [reflexivity|lia]). simpl. do 2 f_equal.
      unfold TTY_BUF_SIZE in *. Z.div_mod_to_equations; lia.
    + rewrite !lookup_ge_None_2; [done|rewrite length_seqZ; lia..].
Qed.
Lemma contents_retract b : wf b -> head b <> tail b ->
  exists x, contents b = contents (mkBuf (data b) (prev (head b)) (tail b)) ++ [x].
Proof.
  intros Hw Hne. pose proof Hw as (Hl & Hh & Ht).
  set (b' := mkBuf (data b) (prev (head b)) (tail b)).
  assert (wf b') as Hw'.
  { split_and!; simpl; [done|..]; try lia; unfold prev; destruct (head b =? 0) eqn:E; simplify_bool;
      unfold TTY_BUF_SIZE in *; lia. }
  assert ((head b' + 1) mod TTY_BUF_SIZE = head b) as Hn.
  { simpl. unfold prev. destruct (head b =? 0) eqn:E; simplify_bool; unfold TTY_BUF_SIZE in *;
      Z.div_mod_to_equations; lia. }
  assert (len b <> 0) as H0 by (by rewrite len_zero).
  exists (dget (head b') (data b')). rewrite <-contents_advance; [|done|].
  - rewrite Hn. by destruct b.
  - pose proof (len_range b). unfold len in *. rewrite <-Hn in H0. simpl in *. unfold TTY_BUF_SIZE in *.
    Z.div_mod_to_equations; lia.
Qed.

Lemma next_full b : wf b -> ((head b + 1) mod TTY_BUF_SIZE =? tail b) = (len b =? TTY_BUF_SIZE - 1).
Proof.
  intros (_ & Hh & Ht). apply eq_true_iff_eq. rewrite !Z.eqb_eq. unfold len, TTY_BUF_SIZE in *.
  split; intros; Z.div_mod_to_equations; lia.
Qed.
Lemma step_range h : 0 <= (h + 1) mod TTY_BUF_SIZE < TTY_BUF_SIZE.
Proof. apply Z.mod_pos_bound. unfold TTY_BUF_SIZE. lia. Qed.
Lemma wf_new : wf new.
Proof. split_and!; simpl; rewrite ?length_replicate; unfold TTY_BUF_SIZE; lia. Qed.
Lemma wf_write v b : wf b -> wf (mkBuf (<[Z.to_nat (head b) := v]> (data b)) (head b) (tail b)).
Proof. intros (Hl & Hh & Ht). split_and!; simpl; rewrite ?length_insert; lia. Qed.
Lemma dget_write v b : wf b -> dget (head b) (<[Z.to_nat (head b) := v]> (data b)) = v.
Proof. intros (Hl & Hh & Ht). unfold dget. by rewrite list_lookup_insert_eq by lia. Qed.

#[global] Instance tty_queue : ByteQueue TtyBuffer := {|
  bq_new := new; bq_push := push; bq_pop := pop; bq_unpush := unpush;
  bq_cap := Z.to_nat (TTY_BUF_SIZE - 1); bq_contents := contents; bq_wf := wf
|}.
#[global] Instance tty_queue_ok : ByteQueueOk TtyBuffer.
Proof.
  split; cbn [bq_new bq_push bq_pop bq_unpush bq_contents bq_wf bq_cap tty_queue].
  - split; [apply wf_new|]. by apply contents_nil; [apply wf_new|].
  - intros q _. pose proof (length_contents q). pose proof (len_range q). lia.
  - intros x q Hw. unfold push. rewrite next_full by done. pose proof (length_contents q) as Hlc.
    pose proof (len_range q). destruct (len q =? TTY_BUF_SIZE - 1) eqn:E; simplify_bool; simpl fst; simpl snd.
    + rewrite (proj2 (Nat.ltb_ge _ _)) by lia. by split.
    + rewrite (proj2 (Nat.ltb_lt _ _)) by lia. pose proof (wf_write x q Hw) as Hw'.
      split; [|split; [|done]].
      * destruct Hw' as (H1 & H2 & H3). by split; [|split; [apply step_range|]].
      * rewrite <-(contents_write x q Hw). rewrite <-(dget_write x q Hw) at 3.
        apply (contents_advance _ Hw'). simpl. change (len (mkBuf _ (head q) (tail q))) with (len q). lia.
  - intros q Hw. unfold pop. destruct (tail q =? head q) eqn:E; simplify_bool; simpl fst; simpl snd.
    + rewrite (proj2 (contents_nil q Hw)) by done. by split_and!.
    + pose proof Hw as (H1 & H2 & H3). split; [by split; [|split; [|apply step_range]]|].
      rewrite (contents_pop q Hw) by done. done.
  - intros q Hw. unfold unpush. destruct (head q =? tail q) eqn:E; simplify_bool; simpl fst; simpl snd.
    + rewrite (proj2 (contents_nil q Hw)) by done. by rewrite decide_True.
    + rewrite decide_False by (by rewrite contents_nil). pose proof Hw as (H1 & H2 & H3).
      split; [|split; [done|by apply contents_retract]].
      split_and!; simpl; try lia; unfold prev, TTY_BUF_SIZE in *; destruct (head q =? 0) eqn:E0; simplify_bool; lia.
Qed.

(** ** One producer, one consumer *)
(** Where the producer is inside [push] or [unpush], and the consumer inside [pop]. *)
Inductive pstate :=
| PIdle
| PLoaded (v h : Z)           (* [head] read *)
| PChecked (v h : Z)          (* [tail] read, there is room *)
| PWritten (v h : Z)          (* the slot is written, [head] not yet stored *)
| UChecked (h : Z).           (* [unpush]: [head] and [tail] read, not empty *)
Inductive cstate :=
| CIdle
| CLoaded (t : Z)             (* [tail] read *)
| CChecked (t : Z)            (* [head] read, not empty *)
| CRead (t v : Z).            (* the slot is read, [tail] not yet stored *)
Record machine := mkM {
  ring : TtyBuffer; prod : pstate; cons_ : cstate;
  pushed : list Z;            (* values whose [push] succeeded, in order *)
  popped : list Z             (* values returned by [pop], in order *)
}.
Definition start_m : machine := mkM new PIdle CIdle [] [].

Inductive mevent := DoPush (v : Z) | DoUnpush | Producer | DoPop | Consumer.
Definition mexec (e : mevent) (m : machine) : machine :=
  let b := ring m in
  match e with
  | DoPush v => match prod m with PIdle => mkM b (PLoaded v (head b)) (cons_ m) (pushed m) (popped m) | _ => m end
  | DoUnpush =>
      match prod m with
      | PIdle => if head b =? tail b then m else mkM b (UChecked (head b)) (cons_ m) (pushed m) (popped m)
      | _ => m
      end
  | Producer =>
      match prod m with
      | PIdle => m
      | PLoaded v h =>
          if (h + 1) mod TTY_BUF_SIZE =? tail b then mkM b PIdle (cons_ m) (pushed m) (popped m)
          else mkM b (PChecked v h) (cons_ m) (pushed m) (popped m)
      | PChecked v h =>
          mkM (mkBuf (<[Z.to_nat h := v]> (data b)) (head b) (tail b)) (PWritten v h) (cons_ m) (pushed m) (popped m)
      | PWritten v h =>
          mkM (mkBuf (data b) ((h + 1) mod TTY_BUF_SIZE) (tail b)) PIdle (cons_ m) (pushed m ++ [v]) (popped m)
      | UChecked h => (* the compare-exchange; nobody else stores [head] *)
          if head b =? h then mkM (mkBuf (data b) (prev h) (tail b)) PIdle (cons_ m) (pushed m) (popped m)
          else mkM b PIdle (cons_ m) (pushed m) (popped m)
      end
  | DoPop => match cons_ m with CIdle => mkM b (prod m) (CLoaded (tail b)) (pushed m) (popped m) | _ => m end
  | Consumer =>
      match cons_ m with
      | CIdle => m
      | CLoaded t =>
          if t =? head b then mkM b (prod m) CIdle (pushed m) (popped m)
          else mkM b (prod m) (CChecked t) (pushed m) (popped m)
      | CChecked t => mkM b (prod m) (CRead t (dget t (data b))) (pushed m) (popped m)
      | CRead t v =>
          mkM (mkBuf (data b) (head b) ((t + 1) mod TTY_BUF_SIZE)) (prod m) CIdle (pushed m) (popped m ++ [v])
      end
  end.
Definition mrun (es : list mevent) (m : machine) : machine := foldl (fun m e => mexec e m) m es.
Definition no_unpush (e : mevent) : Prop := match e with DoUnpush => False | _ => True end.

Record minv (m : machine) : Prop := {
  mi_wf : wf (ring m);
  mi_stream : pushed m = popped m ++ contents (ring m);
  mi_prod : match prod m with
            | PIdle => True
            | PLoaded v h => h = head (ring m)
            | PChecked v h => h = head (ring m) /\ len (ring m) < TTY_BUF_SIZE - 1
            | PWritten v h => h = head (ring m) /\ len (ring m) < TTY_BUF_SIZE - 1 /\ dget h (data (ring m)) = v
            | UChecked _ => False
            end;
  mi_cons : match cons_ m with
            | CIdle => True
            | CLoaded t => t = tail (ring m)
            | CChecked t => t = tail (ring m) /\ head (ring m) <> tail (ring m)
            | CRead t v => t = tail (ring m) /\ head (ring m) <> tail (ring m) /\ v = dget t (data (ring m))
            end
}.
Lemma producer_inv m : minv m -> minv (mexec Producer m).
Proof.
  intros Hm. pose proof Hm as [Hw Hs Hp Hc]. cbn [mexec]. pose proof (len_range (ring m)) as Hlr.
  destruct (prod m) as [|v h|v h|v h|h] eqn:Ep; [done|..|done].
  - subst h. rewrite next_full by done. destruct (len (ring m) =? TTY_BUF_SIZE - 1) eqn:E; simplify_bool;
      split; simpl; auto. split; [done|lia].
  - destruct Hp as [-> Hlen]. pose proof (wf_write v _ Hw) as Hw'. split; simpl; auto.
    + by rewrite contents_write.
    + split_and!; [done..|by apply dget_write].
    + destruct (cons_ m); auto. destruct Hc as (-> & Hne & ->). split_and!; auto.
      unfold dget. rewrite list_lookup_insert_ne; [done|]. destruct Hw as (_ & ? & ?).
      intros E%Z2Nat.inj; lia.
  - destruct Hp as (-> & Hlen & <-). pose proof Hw as (H1 & H2 & H3). split; simpl.
    + by split; [|split; [apply step_range|]].
    + by rewrite contents_advance, Hs, app_assoc.
    + done.
    + destruct (cons_ m); auto; intuition; match goal with H : _ = tail _ |- _ =>
        apply Z.eqb_eq in H; rewrite next_full in H by done; simplify_bool; lia end.
Qed.
Lemma consumer_inv m : minv m -> minv (mexec Consumer m).
Proof.
  intros Hm. pose proof Hm as [Hw Hs Hp Hc]. cbn [mexec].
  destruct (cons_ m) as [|t|t|t v] eqn:Ec; [done|..].
  - subst t. destruct (tail (ring m) =? head (ring m)) eqn:E; simplify_bool; split; simpl; auto.
  - destruct Hc as [-> Hne]. split; simpl; auto.
  - destruct Hc as (-> & Hne & ->). pose proof Hw as (H1 & H2 & H3).
    assert (len (mkBuf (data (ring m)) (head (ring m)) ((tail (ring m) + 1) mod TTY_BUF_SIZE)) = len (ring m) - 1) as Hl.
    { rewrite <-!length_contents, (contents_pop (ring m)) by done. simpl. lia. }
    split; simpl.
    + by split; [|split; [|apply step_range]].
    + by rewrite Hs, (contents_pop (ring m)), <-app_assoc by done.
    + destruct (prod m); simpl; auto; rewrite Hl; intuition lia.
    + done.
Qed.
Lemma mexec_inv e m : no_unpush e -> minv m -> minv (mexec e m).
Proof.
  intros He Hm. destruct e; [|done|by apply producer_inv| |by apply consumer_inv]; pose proof Hm as [Hw Hs Hp Hc];
    cbn [mexec].
  - destruct (prod m); auto. by split.
  - destruct (cons_ m); auto. by split.
Qed.

(** C28: The ring is a lock-free queue for one producer and one consumer that push
    and pop: for every sequentially consistent interleaving of their individual
    loads, slot accesses and stores, the values whose [push] succeeded are
    exactly the values popped, in order, followed by what is in the ring, and
    never more than 4095 bytes are buffered.  Histories with [unpush] are left
    out: it races with [pop] (theorem [tty_unpush_pop_race]). *)
Theorem tty_spsc_fifo es :
  Forall no_unpush es ->
  let m := mrun es start_m in
  pushed m = popped m ++ contents (ring m) /\ len (ring m) <= TTY_BUF_SIZE - 1.
Proof.
  intros He m. assert (minv m) as [_ Hs _ _].
  { subst m. assert (minv start_m) as H0.
    { split; simpl; auto using wf_new.   }
    revert H0. generalize start_m. induction He as [|e es He _ IH]; intros m Hm; [done|].
    simpl. apply IH. by apply mexec_inv. }
  split; [done|]. pose proof (len_range (ring m)). lia.
Qed.
Lemma tty_spsc_fifo_witness :
  let m := mrun [DoPush 65; DoPop; Producer; Consumer; Producer; Producer; DoPop; DoPush 66; Consumer; Consumer;
                 Producer; Consumer] start_m in
  pushed m = popped m ++ contents (ring m) /\ popped m = [65].
Proof.
  split; [|vm_compute; reflexivity].
  apply (tty_spsc_fifo [DoPush 65; DoPop; Producer; Consumer; Producer; Producer; DoPop; DoPush 66; Consumer; Consumer;
           Producer; Consumer]).
  repeat constructor.
Defined.

(** [unpush] is not safe against a concurrent [pop].  If the interrupt
    erases the only buffered byte between the consumer's emptiness check and
    its store of [tail], the byte is both erased and delivered and the two
    indices cross: the ring then claims 4095 buffered bytes. *)
Theorem tty_unpush_pop_race :
  let m := mrun [DoPush 65; Producer; Producer; Producer;
                 DoPop; Consumer; Consumer; DoUnpush; Producer; Consumer] start_m in
  prod m = PIdle /\ cons_ m = CIdle /\ popped m = [65] /\ len (ring m) = 4095.
Proof. vm_compute. by split_and!. Qed.

End TtyBuffer.
