(* ===== verification/LineDisc.v ===== *)
(** * The TTY line discipline

    Models [src/src/tty/ldisc.rs]: key presses are cooked into the input queue,
    echoed into the output queue, or turned into signals; [sys_read] takes the
    bytes.  The discipline is written and verified against the class
    [ByteQueue]; the ring buffer of [TtyBuffer] is an instance.  Signals sent
    are recorded in order. *)

From S2P Require Import Prelude TtyBuffer.

Module LineDisc.

Inductive Signal := SIGINT | SIGTSTP | SIGQUIT.
Inductive KeyCode :=
| ArrowUp | ArrowDown | ArrowRight | ArrowLeft | Home | End_ | PageUp | PageDown | Delete_ | Insert_
| F1 | F2 | F3 | F4 | F5 | F6 | F7 | F8 | F9 | F10 | F11 | F12 | OtherKey.
Inductive DecodedKey := Unicode (c : Z) | RawKey (k : KeyCode).

Record LdiscFlags := mkFlags { canonical : bool; echo : bool; isig : bool; icrnl : bool; onlcr : bool }.
Definition flags_new : LdiscFlags := mkFlags true true true true true.

Section Discipline.
Context {Q : Type} `{ByteQueueOk Q}.

Record LineDiscipline := mkLd {
  input_buf : Q; output_buf : Q; flags : LdiscFlags; foreground_pgid : Z; signals : list Signal
}.
Definition ld_new : LineDiscipline := mkLd bq_new bq_new flags_new 0 [].
Definition set_input (q : Q) (l : LineDiscipline) : LineDiscipline :=
  mkLd q (output_buf l) (flags l) (foreground_pgid l) (signals l).
Definition set_output (q : Q) (l : LineDiscipline) : LineDiscipline :=
  mkLd (input_buf l) q (flags l) (foreground_pgid l) (signals l).
Definition set_flags (f : LdiscFlags) (l : LineDiscipline) : LineDiscipline :=
  mkLd (input_buf l) (output_buf l) f (foreground_pgid l) (signals l).
Definition send_signal_all (s : Signal) (l : LineDiscipline) : LineDiscipline :=
  mkLd (input_buf l) (output_buf l) (flags l) (foreground_pgid l) (signals l ++ [s]).
Definition set_foreground_pgid (p : Z) (l : LineDiscipline) : LineDiscipline :=
  mkLd (input_buf l) (output_buf l) (flags l) p (signals l).
Definition set_canonical (on : bool) (l : LineDiscipline) : LineDiscipline :=
  set_flags (mkFlags on (echo (flags l)) (isig (flags l)) (icrnl (flags l)) (onlcr (flags l))) l.
Definition set_echo (on : bool) (l : LineDiscipline) : LineDiscipline :=
  set_flags (mkFlags (canonical (flags l)) on (isig (flags l)) (icrnl (flags l)) (onlcr (flags l))) l.
Definition set_isig (on : bool) (l : LineDiscipline) : LineDiscipline :=
  set_flags (mkFlags (canonical (flags l)) (echo (flags l)) on (icrnl (flags l)) (onlcr (flags l))) l.

(** [let _ = buf.push(b)]: a full queue drops the byte. *)
Definition push_in (b : Z) (l : LineDiscipline) : LineDiscipline := set_input (bq_push b (input_buf l)).1 l.
Definition push_out (b : Z) (l : LineDiscipline) : LineDiscipline := set_output (bq_push b (output_buf l)).1 l.
Definition emit (bs : list Z) (l : LineDiscipline) : LineDiscipline := foldl (fun l b => push_out b l) l bs.
Definition rubout : list Z := [8; 32; 8].

(** [while input_buf.pop().is_some()]: one iteration per buffered byte, at
    most the capacity of the queue. *)
Fixpoint kill_loop (fuel : nat) (l : LineDiscipline) : LineDiscipline :=
  match fuel with
  | O => l
  | S fuel' =>
      match bq_pop (input_buf l) with
      | (q, Some _) => kill_loop fuel' ((if echo (flags l) then emit rubout else fun l => l) (set_input q l))
      | (q, None) => set_input q l
      end
  end.

Definition escape_seq (k : KeyCode) : list Z :=
  match k with
  | ArrowUp => [27; 91; 65] | ArrowDown => [27; 91; 66] | ArrowRight => [27; 91; 67] | ArrowLeft => [27; 91; 68]
  | Home => [27; 91; 72] | End_ => [27; 91; 70] | PageUp => [27; 91; 53; 126] | PageDown => [27; 91; 54; 126]
  | Delete_ => [27; 91; 51; 126] | Insert_ => [27; 91; 50; 126]
  | F1 => [27; 79; 80] | F2 => [27; 79; 81] | F3 => [27; 79; 82] | F4 => [27; 79; 83]
  | F5 => [27; 91; 49; 53; 126] | F6 => [27; 91; 49; 55; 126] | F7 => [27; 91; 49; 56; 126]
  | F8 => [27; 91; 49; 57; 126] | F9 => [27; 91; 50; 48; 126] | F10 => [27; 91; 50; 49; 126]
  | F11 => [27; 91; 50; 51; 126] | F12 => [27; 91; 50; 52; 126]
  | OtherKey => []
  end.

Definition receive_key (key : DecodedKey) (l : LineDiscipline) : LineDiscipline :=
  let ech := echo (flags l) in
  let sig_ := isig (flags l) in
  match key with
  | Unicode c =>
      if (c =? 8) || (c =? 0x7F) then
        let '(q, ok) := bq_unpush (input_buf l) in
        if ok && ech then emit rubout (set_input q l) else set_input q l
      else if (c =? 3) && sig_ then
        send_signal_all SIGINT (if ech then emit [94; 67; 10] l else l)
      else if (c =? 0x1A) && sig_ then
        send_signal_all SIGTSTP (if ech then emit [94; 90; 10] l else l)
      else if (c =? 0x1C) && sig_ then
        send_signal_all SIGQUIT (if ech then emit [94; 92; 10] l else l)
      else if c =? 4 then push_in 4 l
      else if c =? 0x15 then kill_loop (S (bq_cap (Q := Q))) l
      else if c =? 0x17 then l
      else
        let ch := if (c =? 13) && icrnl (flags l) then 10 else c in
        let l1 := push_in (ch mod 256) l in
        if ech then
          let l2 := if (ch =? 10) && onlcr (flags l) then push_out 13 l1 else l1 in
          push_out (ch mod 256) l2
        else l1
  | RawKey k =>
      foldl (fun l b => let l1 := push_in b l in if ech then push_out b l1 else l1) l (escape_seq k)
  end.

(** [room] slots of the caller's buffer are free; the bytes stored are returned. *)
Fixpoint read_loop (room : nat) (can : bool) (q : Q) : Q * list Z :=
  match room with
  | O => (q, [])
  | S room' =>
      match bq_pop q with
      | (q', Some byte) =>
          if byte =? 4 then (q', [])
          else if can && (byte =? 10) then (q', [byte])
          else if negb can then (q', [byte])
          else let '(q'', rest) := read_loop room' can q' in (q'', byte :: rest)
      | (q', None) => (q', [])
      end
  end.
Definition sys_read (room : nat) (l : LineDiscipline) : LineDiscipline * list Z :=
  let '(q, bytes) := read_loop room (canonical (flags l)) (input_buf l) in (set_input q l, bytes).

(** ** Abstract line discipline on byte lists *)
Definition cap : nat := bq_cap (Q := Q).
(** Append what fits. *)
Definition apush (b : Z) (s : list Z) : list Z := if (length s <? cap)%nat then s ++ [b] else s.
Definition apushes (bs s : list Z) : list Z := foldl (fun s b => apush b s) s bs.
(** The abstract state: pending input, pending output, signals sent. *)
Record aline := mkA { a_in : list Z; a_out : list Z; a_sig : list Signal }.
Definition aecho (f : LdiscFlags) (bs : list Z) (s : aline) : aline :=
  if echo f then mkA (a_in s) (apushes bs (a_out s)) (a_sig s) else s.
Definition asignal (sg : Signal) (s : aline) : aline := mkA (a_in s) (a_out s) (a_sig s ++ [sg]).
Definition ordinary (c : Z) : bool :=
  negb ((c =? 8) || (c =? 0x7F) || (c =? 4) || (c =? 0x15) || (c =? 0x17)).
Definition cook (f : LdiscFlags) (c : Z) : Z := (if (c =? 13) && icrnl f then 10 else c) mod 256.
Definition akey (f : LdiscFlags) (key : DecodedKey) (s : aline) : aline :=
  match key with
  | Unicode c =>
      if (c =? 8) || (c =? 0x7F) then
        if decide (a_in s = []) then s
        else aecho f rubout (mkA (removelast (a_in s)) (a_out s) (a_sig s))
      else if (c =? 3) && isig f then asignal SIGINT (aecho f [94; 67; 10] s)
      else if (c =? 0x1A) && isig f then asignal SIGTSTP (aecho f [94; 90; 10] s)
      else if (c =? 0x1C) && isig f then asignal SIGQUIT (aecho f [94; 92; 10] s)
      else if c =? 4 then mkA (apush 4 (a_in s)) (a_out s) (a_sig s)
      else if c =? 0x15 then
        aecho f (concat (replicate (length (a_in s)) rubout)) (mkA [] (a_out s) (a_sig s))
      else if c =? 0x17 then s
      else
        let ch := if (c =? 13) && icrnl f then 10 else c in
        aecho f ((if (ch =? 10) && onlcr f then [13] else []) ++ [ch mod 256])
          (mkA (apush (ch mod 256) (a_in s)) (a_out s) (a_sig s))
  | RawKey k => aecho f (escape_seq k) (mkA (apushes (escape_seq k) (a_in s)) (a_out s) (a_sig s))
  end.
Definition abs (l : LineDiscipline) : aline := mkA (bq_contents (input_buf l)) (bq_contents (output_buf l)) (signals l).
Definition ld_wf (l : LineDiscipline) : Prop := bq_wf (input_buf l) /\ bq_wf (output_buf l).

(** ** Refinement *)
Definition refines (l : LineDiscipline) (f : LdiscFlags) (s : aline) : Prop :=
  ld_wf l /\ flags l = f /\ abs l = s.
Lemma push_queue b q : bq_wf q -> bq_wf (bq_push b q).1 /\ bq_contents (bq_push b q).1 = apush b (bq_contents q).
Proof.
  intros Hq. destruct (bq_push_ok b q Hq) as [H1 H2]. split; [done|]. unfold apush, cap.
  destruct (_ <? _)%nat; apply H2.
Qed.
Lemma push_in_ref b l f s : refines l f s -> refines (push_in b l) f (mkA (apush b (a_in s)) (a_out s) (a_sig s)).
Proof.
  intros ([Hi Ho] & <- & <-). destruct (push_queue b (input_buf l) Hi) as [H1 H2].
  split_and!; [by split|done|]. unfold abs; simpl. by rewrite H2.
Qed.
Lemma push_out_ref b l f s : refines l f s -> refines (push_out b l) f (mkA (a_in s) (apush b (a_out s)) (a_sig s)).
Proof.
  intros ([Hi Ho] & <- & <-). destruct (push_queue b (output_buf l) Ho) as [H1 H2].
  split_and!; [by split|done|]. unfold abs; simpl. by rewrite H2.
Qed.
Lemma emit_ref bs : forall l f s, refines l f s ->
  refines (emit bs l) f (mkA (a_in s) (apushes bs (a_out s)) (a_sig s)).
Proof.
  induction bs as [|b bs IH]; intros l f s Hr; simpl; [by destruct s|].
  apply (IH _ _ (mkA (a_in s) (apush b (a_out s)) (a_sig s))). by apply push_out_ref.
Qed.
Lemma echo_ref bs l f s : refines l f s -> refines (if echo (flags l) then emit bs l else l) f (aecho f bs s).
Proof.
  intros Hr. pose proof Hr as (_ & -> & _). unfold aecho. destruct (echo f); [by apply emit_ref|done].
Qed.
Lemma signal_ref sg l f s : refines l f s -> refines (send_signal_all sg l) f (asignal sg s).
Proof. intros (Hw & <- & <-). by split_and!. Qed.
Lemma apushes_app bs cs s : apushes (bs ++ cs) s = apushes cs (apushes bs s).
Proof. apply foldl_app. Qed.
Lemma aecho_aecho f bs cs s : aecho f cs (aecho f bs s) = aecho f (bs ++ cs) s.
Proof. unfold aecho. destruct (echo f); [|done]. simpl. by rewrite apushes_app. Qed.

Lemma kill_ref fuel : forall l f s, refines l f s -> (length (a_in s) < fuel)%nat ->
  refines (kill_loop fuel l) f (aecho f (concat (replicate (length (a_in s)) rubout)) (mkA [] (a_out s) (a_sig s))).
Proof.
  induction fuel as [|fuel IH]; intros l f s Hr Hf; [lia|]. cbn [kill_loop].
  pose proof Hr as ([Hi Ho] & Hfl & <-). destruct (bq_pop_ok _ Hi) as [Hw Hp]. simpl in Hf |- *.
  destruct (bq_contents (input_buf l)) as [|x rest] eqn:Ec.
  - destruct Hp as [Hn Hc]. destruct (bq_pop (input_buf l)) as [q r]; simpl in *; subst r.
    assert (refines (set_input q l) f (mkA [] (bq_contents (output_buf l)) (signals l))) as Hr1.
    { split_and!; [by split|done|]. unfold abs; simpl. by rewrite Hc. }
    unfold aecho. by destruct (echo f).
  - destruct Hp as [Hn Hc]. destruct (bq_pop (input_buf l)) as [q r]; simpl in *; subst r.
    assert (refines (set_input q l) f (mkA rest (bq_contents (output_buf l)) (signals l))) as Hr1.
    { split_and!; [by split|done|]. unfold abs; simpl. by rewrite Hc. }
    apply (echo_ref rubout) in Hr1.
    assert ((if echo (flags l) then emit rubout else (fun l => l)) (set_input q l) =
            (if echo (flags (set_input q l)) then emit rubout (set_input q l) else set_input q l)) as ->
      by (simpl; by destruct (echo (flags l))).
    eapply IH in Hr1; [|unfold aecho; destruct (echo f); simpl; lia].
    replace (length (a_in (aecho f rubout _))) with (length rest) in Hr1 by (unfold aecho; by destruct (echo f)).
    unfold aecho in *. destruct (echo f); simpl in *; [|done].
    exact Hr1.
Qed.
Lemma unpush_ref l f s : refines l f s ->
  let '(q, ok) := bq_unpush (input_buf l) in
  refines (set_input q l) f (if decide (a_in s = []) then s else mkA (removelast (a_in s)) (a_out s) (a_sig s)) /\
  ok = negb (bool_decide (a_in s = [])).
Proof.
  intros ([Hi Ho] & <- & <-). destruct (bq_unpush_ok _ Hi) as [Hw Hu]. simpl a_in; simpl a_out; simpl a_sig.
  destruct (bq_unpush (input_buf l)) as [q ok]; simpl fst in *; simpl snd in *.
  destruct (decide (bq_contents (input_buf l) = [])) as [E|E]; destruct Hu as [-> Hc].
  - rewrite bool_decide_eq_true_2 by done. split; [|done]. split_and!; [by split|done|].
    unfold abs; simpl. by rewrite Hc, E.
  - rewrite bool_decide_eq_false_2 by done. split; [|done]. destruct Hc as [x Hc]. split_and!; [by split|done|].
    unfold abs; simpl. by rewrite Hc, removelast_last.
Qed.
Lemma raw_ref bs f : forall l s, refines l f s ->
  refines (foldl (fun l b => let l1 := push_in b l in if echo f then push_out b l1 else l1) l bs) f
    (aecho f bs (mkA (apushes bs (a_in s)) (a_out s) (a_sig s))).
Proof.
  induction bs as [|b bs IH]; intros l s Hr; simpl.
  - unfold aecho. destruct s, (echo f); exact Hr.
  - apply (push_in_ref b) in Hr. unfold aecho in *. destruct (echo f).
    + apply (push_out_ref b) in Hr. exact (IH _ _ Hr).
    + exact (IH _ _ Hr).
Qed.
Lemma receive_key_ref key l f s : refines l f s -> refines (receive_key key l) f (akey f key s).
Proof.
  intros Hr. pose proof Hr as (Hw & Hf & Ha). unfold receive_key. rewrite Hf.
  destruct key as [c|k]; cbn [akey].
  - destruct ((c =? 8) || (c =? 0x7F)).
    { pose proof (unpush_ref l f s Hr) as Hu. destruct (bq_unpush (input_buf l)) as [q ok].
      destruct Hu as [Hu ->]. destruct (decide (a_in s = [])) as [E|E].
      - rewrite bool_decide_eq_true_2 by done. done.
      - rewrite bool_decide_eq_false_2 by done. apply (echo_ref rubout) in Hu. simpl in Hu. rewrite Hf in Hu.
        by destruct (echo f). }
    destruct ((c =? 3) && isig f); [apply signal_ref; rewrite <-Hf at 1; by apply echo_ref|].
    destruct ((c =? 0x1A) && isig f); [apply signal_ref; rewrite <-Hf at 1; by apply echo_ref|].
    destruct ((c =? 0x1C) && isig f); [apply signal_ref; rewrite <-Hf at 1; by apply echo_ref|].
    destruct (c =? 4); [by apply push_in_ref|].
    destruct (c =? 0x15).
    { apply kill_ref; [done|]. rewrite <-Ha. simpl. pose proof (bq_bound _ (proj1 Hw)). lia. }
    destruct (c =? 0x17); [done|]. cbv zeta.
    set (ch := if (c =? 13) && icrnl f then 10 else c). apply (push_in_ref (ch mod 256)) in Hr.
    unfold aecho. destruct (echo f); [|done].
    destruct ((ch =? 10) && onlcr f); simpl app.
    + apply (push_out_ref 13) in Hr. by apply (push_out_ref (ch mod 256)) in Hr.
    + by apply (push_out_ref (ch mod 256)) in Hr.
  - by apply raw_ref.
Qed.
Definition receive_keys (ks : list DecodedKey) (l : LineDiscipline) : LineDiscipline :=
  foldl (fun l k => receive_key k l) l ks.
Lemma receive_keys_ref ks : forall l f s, refines l f s ->
  refines (receive_keys ks l) f (foldl (fun s k => akey f k s) s ks).
Proof.
  induction ks as [|k ks IH]; intros l f s Hr; simpl; [done|]. apply IH. by apply receive_key_ref.
Qed.
Lemma new_ref : refines ld_new flags_new (mkA [] [] []).
Proof. destruct bq_new_ok as [H1 H2]. split_and!; [by split|done|]. unfold abs; simpl. by rewrite H2. Qed.

(** ** Reading *)
Lemma read_loop_spec can room : forall q, bq_wf q ->
  let '(q', bytes) := read_loop room can q in
  bq_wf q' /\ (length bytes <= room)%nat /\ (can = false -> (length bytes <= 1)%nat) /\ (4 ∉ bytes) /\
  (can = true -> forall i, bytes !! i = Some 10 -> i = (length bytes - 1)%nat) /\
  (bq_contents q = bytes ++ bq_contents q' \/ bq_contents q = bytes ++ 4 :: bq_contents q').
Proof.
  induction room as [|room IH]; intros q Hq; cbn [read_loop].
  { split_and!; [done|simpl; lia..|apply not_elem_of_nil|by intros _ i|by left]. }
  destruct (bq_pop_ok q Hq) as [Hw Hp].
  destruct (bq_contents q) as [|x rest]; destruct (bq_pop q) as [q1 r]; simpl in Hw, Hp; destruct Hp as [-> Hc].
  { split_and!; [done|simpl; lia..|apply not_elem_of_nil|by intros _ i|left; by rewrite Hc]. }
  destruct (x =? 4) eqn:E4; simplify_bool.
  { subst x. split_and!; [done|simpl; lia..|apply not_elem_of_nil|by intros _ i|right; by rewrite Hc]. }
  assert (4 ∉ [x]) as Hx by (rewrite list_elem_of_singleton; congruence).
  destruct (can && (x =? 10)) eqn:E10; [|destruct can eqn:Ecan]; simpl.
  - split_and!; [done|simpl; lia..|done| |left; by rewrite Hc].
    intros _ [|i] Hi; simpl in *; [lia|done].
  - specialize (IH q1 Hw). destruct (read_loop room true q1) as [q2 bytes].
    destruct IH as (H1 & H2 & _ & H4 & H5 & H6). split_and!; [done|simpl; lia|done| | |].
    + rewrite elem_of_cons. intros [?|?]; [congruence|done].
    + intros _ [|i] Hi; simpl in Hi.
      * by simplify_eq.
      * specialize (H5 eq_refl i Hi). apply lookup_lt_Some in Hi. simpl. lia.
    + rewrite Hc in H6. destruct H6 as [-> | ->]; [by left|by right].
  - split_and!; [done|simpl; lia..|done|done|left; by rewrite Hc].
Qed.

(** With the flags a new discipline has, the ring buffers behave as lists: on
    any sequence of keys the two queues and the signals sent are those of [akey],
    which restates [receive_key] on lists, dropped bytes on full queues included
    and the Ctrl+W branch as empty as in the code. *)
Theorem ld_cooking_refines ks :
  abs (receive_keys ks ld_new) = foldl (fun s k => akey flags_new k s) (mkA [] [] []) ks /\
  ld_wf (receive_keys ks ld_new).
Proof. destruct (receive_keys_ref ks _ _ _ new_ref) as (H1 & _ & H2). auto. Qed.

(** What [sys_read] returns.  The bytes read are a prefix of the pending
    input (an end-of-file mark right after them is consumed), contain no
    end-of-file mark, fit the caller's buffer; in canonical mode a newline can
    only be the last byte, in raw mode at most one byte is returned. *)
Theorem ld_read_prefix l room :
  ld_wf l ->
  let '(l', bytes) := sys_read room l in
  ld_wf l' /\ (length bytes <= room)%nat /\ (4 ∉ bytes) /\
  (canonical (flags l) = true -> forall i, bytes !! i = Some 10 -> i = (length bytes - 1)%nat) /\
  (canonical (flags l) = false -> (length bytes <= 1)%nat) /\
  (a_in (abs l) = bytes ++ a_in (abs l') \/ a_in (abs l) = bytes ++ 4 :: a_in (abs l')).
Proof.
  intros [Hi Ho]. unfold sys_read. pose proof (read_loop_spec (canonical (flags l)) room _ Hi) as H1.
  destruct (read_loop room _ (input_buf l)) as [q bytes]. destruct H1 as (H1 & H2 & H3 & H4 & H5 & H6).
  split_and!; auto. by split.
Qed.

(** Keys that are ordinary characters in the default mode. *)
Definition plain (c : Z) : bool :=
  (32 <=? c) && (c <? 127).
Lemma akey_plain c s : plain c = true -> a_in (akey flags_new (Unicode c) s) = apush c (a_in s).
Proof.
  intros Hc. unfold plain in Hc. simplify_bool. cbn [akey].
  repeat (rewrite (proj2 (Z.eqb_neq c _)) by lia). simpl. by rewrite Z.mod_small by lia.
Qed.
Lemma type_plain cs : forall s, forallb plain cs = true -> (length (a_in s) + length cs <= cap)%nat ->
  a_in (foldl (fun s k => akey flags_new k s) s (Unicode <$> cs)) = a_in s ++ cs.
Proof.
  induction cs as [|c cs IH]; intros s Hp Hl; [simpl; by rewrite app_nil_r|].
  rewrite fmap_cons. cbn [foldl]. cbn [forallb length] in Hp, Hl.
  simplify_bool. assert (a_in (akey flags_new (Unicode c) s) = a_in s ++ [c]) as E.
  { rewrite akey_plain by done. unfold apush. by rewrite (proj2 (Nat.ltb_lt _ _)) by lia. }
  rewrite IH, E, <-app_assoc; [done|done|]. rewrite E, length_app. simpl. lia.
Qed.

(** A read in canonical mode with enough room returns the first line. *)
Lemma read_line line : forall room q, bq_wf q -> bq_contents q = line ++ [10] ->
  Forall (fun b => b <> 4 /\ b <> 10) line -> (length line + 1 <= room)%nat -> (read_loop room true q).2 = line ++ [10].
Proof.
  induction line as [|b line IH]; intros room q Hq Hc Hfa Hr; (destruct room as [|room]; [simpl in Hr; lia|]);
    cbn [read_loop]; destruct (bq_pop_ok q Hq) as [Hw Hpop]; rewrite Hc in Hpop; simpl in Hpop;
    destruct (bq_pop q) as [q1 r]; simpl in Hw, Hpop; destruct Hpop as [-> Hc1].
  - done.
  - inversion Hfa as [|? ? [Hb4 Hb10] Hfa']; subst. rewrite (proj2 (Z.eqb_neq _ _) Hb4), (proj2 (Z.eqb_neq _ _) Hb10).
    simpl. specialize (IH room q1 Hw Hc1 Hfa' ltac:(simpl in Hr; lia)).
    destruct (read_loop room true q1) as [q2 rest]. simpl in *. by rewrite IH.
Qed.

(** Line editing end to end: typing a text, one wrong character, backspace,
    more text and Enter, a read delivers exactly the corrected line. *)
Theorem ld_edited_line s1 c s2 room :
  forallb plain (s1 ++ c :: s2) = true -> (length s1 + length s2 + 2 <= cap)%nat ->
  (length s1 + length s2 + 1 <= room)%nat ->
  (sys_read room (receive_keys ((Unicode <$> s1) ++ [Unicode c; Unicode 8] ++ (Unicode <$> s2) ++ [Unicode 13]) ld_new)).2 =
  s1 ++ s2 ++ [10].
Proof.
  intros Hp Hcap Hroom. set (ks := _ ++ _). destruct (receive_keys_ref ks _ _ _ new_ref) as ([Hi _] & Hf & Ha).
  assert (a_in (abs (receive_keys ks ld_new)) = s1 ++ s2 ++ [10]) as Hin.
  { rewrite Ha. subst ks. rewrite forallb_app in Hp. apply andb_true_iff in Hp as [Hp1 Hp2].
    cbn [forallb] in Hp2. apply andb_true_iff in Hp2 as [Hc Hp2].
    rewrite !foldl_app. cbn [foldl]. set (t1 := foldl _ _ (Unicode <$> s1)).
    assert (a_in t1 = s1) as E1 by (unfold t1; rewrite type_plain; [done|done|simpl; lia]).
    assert (a_in (akey flags_new (Unicode c) t1) = s1 ++ [c]) as E2.
    { rewrite akey_plain, E1 by done. unfold apush. by rewrite (proj2 (Nat.ltb_lt _ _)) by lia. }
    set (t2 := akey flags_new (Unicode c) t1) in *.
    assert (a_in (akey flags_new (Unicode 8) t2) = s1) as E3.
    { cbn [akey]. simpl orb. cbv iota. rewrite decide_False by (rewrite E2; by destruct s1). simpl.
      by rewrite E2, removelast_last. }
    set (t3 := akey flags_new (Unicode 8) t2) in *.
    assert (a_in (foldl (fun s k => akey flags_new k s) t3 (Unicode <$> s2)) = s1 ++ s2) as E4
      by (rewrite type_plain, E3; [done|done|rewrite E3; lia]).
    set (t4 := foldl _ t3 (Unicode <$> s2)) in *. simpl. unfold apush. rewrite E4.
    rewrite (proj2 (Nat.ltb_lt _ _)) by (rewrite length_app; lia). by rewrite app_assoc. }
  unfold sys_read. rewrite Hf. simpl canonical. simpl in Hin.
  pose proof (read_line (s1 ++ s2) room (input_buf (receive_keys ks ld_new)) Hi) as Hline.
  destruct (read_loop room true _) as [q bytes]. simpl in *. rewrite app_assoc. apply Hline.
  - by rewrite Hin, app_assoc.
  - apply Forall_forall. intros b Hb. assert (plain b = true) as Hpl.
    { rewrite forallb_forall in Hp. apply Hp. apply list_elem_of_In. apply elem_of_app in Hb as [Hb|Hb];
        apply elem_of_app; [by left|right; by right]. }
    unfold plain in Hpl. simplify_bool. lia.
  - rewrite length_app. lia.
Qed.

End Discipline.
Arguments LineDiscipline Q : clear implicits.

(** On the ring buffer. *)
Definition tty_new : LineDiscipline TtyBuffer.TtyBuffer := ld_new.
Lemma tty_new_wf : ld_wf tty_new.
Proof. split; apply TtyBuffer.wf_new. Qed.
Lemma ld_read_prefix_witness :
  (sys_read 10 (receive_keys [Unicode 97; Unicode 98] tty_new)).2 = [97; 98] /\ ld_wf (sys_read 10 tty_new).1.
Proof.
  split; [vm_compute; reflexivity|].
  pose proof (ld_read_prefix tty_new 10 tty_new_wf) as H. destruct (sys_read 10 tty_new) as [l' bytes].
  exact (proj1 H).
Defined.
Lemma ld_cooking_refines_witness :
  abs (receive_keys [Unicode 104; Unicode 8; Unicode 105; Unicode 13] tty_new) =
    foldl (fun s k => akey flags_new k s) (mkA [] [] []) [Unicode 104; Unicode 8; Unicode 105; Unicode 13] /\
  a_in (abs (receive_keys [Unicode 104; Unicode 8; Unicode 105; Unicode 13] tty_new)) = [105; 10].
Proof.
  destruct (ld_cooking_refines (Q := TtyBuffer.TtyBuffer) [Unicode 104; Unicode 8; Unicode 105; Unicode 13]) as [H _].
  split; [exact H|vm_compute; reflexivity].
Defined.
Lemma ld_edited_line_witness :
  (sys_read 80 (receive_keys ((Unicode <$> [104]) ++ [Unicode 120; Unicode 8] ++ (Unicode <$> [105]) ++ [Unicode 13])
     tty_new)).2 = [104] ++ [105] ++ [10].
Proof.
  apply (ld_edited_line (Q := TtyBuffer.TtyBuffer) [104] 120 [105] 80).
  - reflexivity.
  - vm_compute. lia.
  - simpl. lia.
Defined.

(** Canonical reads do not wait for the end of the line: with the partial
    line "ab" typed and no newline, [sys_read] returns those two bytes. *)
Theorem ld_canonical_read_partial :
  let l := receive_keys [Unicode 97; Unicode 98] tty_new in
  canonical (flags l) = true /\ (sys_read 80 l).2 = [97; 98].
Proof. vm_compute. by split. Qed.

End LineDisc.
