(* ===== verification/Timer.v ===== *)
(** * The timing wheel of sleeping tasks

    Models [src/src/task/timer.rs] ([TimingWheel]) and the functions of
    [src/src/task/scheduler.rs] that drive it ([sleep], [wake_sleeping_tasks],
    [process_deferred_timers]).

    A task is its state and an arbitrary payload [A], which the wheel never
    looks at; ticks are [usize] values with wrap-around. *)
From S2P Require Import Prelude.

Module Timer.

Inductive TaskState :=
  | Ready | Running | Blocked | Sleeping (wake_tick : Z) | Terminated | Stopped | Zombie.

Definition WHEEL_SIZE : nat := 256.
Definition WHEEL_MASK : Z := 255.
Definition WHEEL_BITS : Z := 8.

Section wheel.
Context {A : Type}.

Record Task := mkTask { state : TaskState; payload : A }.
Definition set_state (s : TaskState) (t : Task) : Task := mkTask s (payload t).

Record TimingWheel := mkWheel { wheels : list (list (list Task)); current_tick : Z }.

Definition new : TimingWheel := mkWheel (replicate 4 (replicate WHEEL_SIZE [])) 0.

(** [self.wheels[level][idx].push_back(task)] *)
Definition push_back (level : nat) (idx : Z) (t : Task) (w : TimingWheel) : TimingWheel :=
  mkWheel (alter (alter (fun b => b ++ [t]) (Z.to_nat idx)) level (wheels w)) (current_tick w).
(** [while let Some(task) = self.wheels[level][idx].pop_front()] *)
Definition bucket (level : nat) (idx : Z) (w : TimingWheel) : list Task :=
  default [] (default [] (wheels w !! level) !! Z.to_nat idx).
Definition drain (level : nat) (idx : Z) (w : TimingWheel) : TimingWheel * list Task :=
  (mkWheel (alter (alter (fun _ => []) (Z.to_nat idx)) level (wheels w)) (current_tick w), bucket level idx w).

Definition schedule (task : Task) (wake_tick : Z) (w : TimingWheel) : TimingWheel :=
  let task := set_state (Sleeping wake_tick) task in
  let cur := current_tick w in
  if wake_tick <=? cur then push_back 0 (Z.land (u64_add cur 1) WHEEL_MASK) task w
  else
    let diff := wake_tick - cur in
    if diff <? Z.of_nat WHEEL_SIZE then push_back 0 (Z.land wake_tick WHEEL_MASK) task w
    else if diff <? Z.shiftl 1 (2 * WHEEL_BITS) then
      push_back 1 (Z.land (Z.shiftr wake_tick WHEEL_BITS) WHEEL_MASK) task w
    else if diff <? Z.shiftl 1 (3 * WHEEL_BITS) then
      push_back 2 (Z.land (Z.shiftr wake_tick (2 * WHEEL_BITS)) WHEEL_MASK) task w
    else push_back 3 (Z.land (Z.shiftr wake_tick (3 * WHEEL_BITS)) WHEEL_MASK) task w.

Definition cascade (level : nat) (tick : Z) (w : TimingWheel) : TimingWheel :=
  let '(w, tasks_to_move) := drain level (Z.land (Z.shiftr tick (Z.of_nat level * WHEEL_BITS)) WHEEL_MASK) w in
  foldl (fun w t => match state t with Sleeping wake_tick => schedule t wake_tick w | _ => schedule t tick w end)
    w tasks_to_move.

Definition cascade_if (level : nat) (mask tick : Z) (w : TimingWheel) : TimingWheel :=
  if Z.land tick mask =? 0 then cascade level tick w else w.

Definition tick (w : TimingWheel) : TimingWheel * list Task :=
  let current := current_tick w in
  let '(w, woken_tasks) := drain 0 (Z.land current WHEEL_MASK) (mkWheel (wheels w) (u64_add current 1)) in
  let next := u64_add current 1 in
  let w := cascade_if 1 WHEEL_MASK next w in
  let w := cascade_if 2 (Z.shiftl 1 (2 * WHEEL_BITS) - 1) next w in
  let w := cascade_if 3 (Z.shiftl 1 (3 * WHEEL_BITS) - 1) next w in
  (w, woken_tasks).

End wheel.
Arguments Task : clear implicits.
Arguments TimingWheel : clear implicits.

(** ** When the code wakes a task

    A task put to sleep at tick [s] until [w] wakes when tick [fire s w] is
    processed: at [w], except that a deadline already reached waits for the
    tick after the next one, and a deadline on a multiple of 256 that was at
    least 256 ticks away is one tick late (it is cascaded when the wheel has
    already reached it). *)
Definition fire (s w : Z) : Z :=
  if w <=? s then s + 1
  else if w - s <? 256 then w
  else if w mod 256 =? 0 then w + 1 else w.

Lemma fire_cascade s w c : w - s >= 256 -> c mod 256 = 0 -> c <= w -> fire c w = fire s w.
Proof. intros. unfold fire. repeat case_match; simplify_bool; Z.div_mod_to_equations; lia. Qed.

Section proof.
Context {B : Type}.
(** The payload of a sleeping task: anything, and the tick it was put to sleep. *)
Abbreviation T := (Task (B * Z)).
Abbreviation W := (TimingWheel (B * Z)).
Definition wake_of (t : T) : Z := match state t with Sleeping w => w | _ => 0 end.
Definition asleep (t : T) : Prop := match state t with Sleeping w => is_u64 w | _ => False end.
Definition due (t : T) : Z := fire (payload t).2 (wake_of t).

(** Number of whole blocks of [256 ^ L] ticks between now and the deadline. *)
Definition gap (L : nat) (c w : Z) : Z := w / 256 ^ Z.of_nat L - c / 256 ^ Z.of_nat L.

(** Where a task may sit when the wheel has reached tick [c]; [pend] says that
    the slot of level [L] reached at [c] is still to be cascaded. *)
Definition placed (pend : bool) (c : Z) (L i : nat) (t : T) : Prop :=
  asleep t /\
  match L with
  | O => c <= due t < c + 256 /\ Z.of_nat i = due t mod 256
  | _ => Z.of_nat i = (wake_of t / 256 ^ Z.of_nat L) mod 256 /\ wake_of t - (payload t).2 >= 256 /\
         (if pend then 0 <= gap L c (wake_of t) /\ ((L < 3)%nat -> gap L c (wake_of t) <= 255)
          else 1 <= gap L c (wake_of t) /\ ((L < 3)%nat -> gap L c (wake_of t) <= 256))
  end.
Definition shape (w : W) : Prop := length (wheels w) = 4%nat /\ Forall (fun l => length l = 256%nat) (wheels w).
Definition wheel_ok (pend : nat -> bool) (w : W) : Prop :=
  shape w /\ 0 <= current_tick w < u64_max /\
  forall L i l b t, wheels w !! L = Some l -> l !! i = Some b -> t ∈ b -> placed (pend L) (current_tick w) L i t.
Definition entries (w : W) : list T := concat (concat (wheels w)).

(** *** Buckets *)
Lemma concat_alter {X} (f : list X -> list X) (l : list (list X)) i b x :
  l !! i = Some b -> f b ≡ₚ x ++ b -> concat (alter f i l) ≡ₚ x ++ concat l.
Proof.
  revert i. induction l as [|c l IH]; intros [|i] Hi Hf; simplify_eq/=.
  - by rewrite Hf, (assoc_L (++)).
  - rewrite (IH i Hi Hf). by rewrite !(assoc_L (++)), (Permutation_app_comm c x).
Qed.
Lemma concat_clear {X} (l : list (list X)) i b :
  l !! i = Some b -> concat l ≡ₚ b ++ concat (alter (fun _ => []) i l).
Proof.
  revert i. induction l as [|c l IH]; intros [|i] Hi; simplify_eq/=; [done|].
  rewrite (IH i Hi). by rewrite !(assoc_L (++)), (Permutation_app_comm c b).
Qed.
Lemma slot_exists (w : W) L idx : shape w -> (L < 4)%nat -> 0 <= idx < 256 ->
  exists l b, wheels w !! L = Some l /\ l !! Z.to_nat idx = Some b.
Proof.
  intros [H1 H2] HL Hi. destruct (lookup_lt_is_Some_2 (wheels w) L) as [l Hl]; [lia|].
  exists l. assert (length l = 256%nat) as Hlen by (eapply (Forall_lookup_1 _ _ _ _ H2 Hl)).
  destruct (lookup_lt_is_Some_2 l (Z.to_nat idx)) as [b Hb]; [lia|]. eauto.
Qed.
Lemma shape_alter (w : W) L i f : shape w -> shape (mkWheel (alter (alter f i) L (wheels w)) (current_tick w)).
Proof.
  intros [H1 H2]; split; cbn [wheels]; [by rewrite length_alter|].
  apply Forall_lookup. intros j l Hj. destruct (decide (j = L)) as [->|Hne].
  - rewrite list_lookup_alter_eq, fmap_Some in Hj. destruct Hj as (l0 & Hl0 & ->). rewrite length_alter.
    exact (Forall_lookup_1 _ _ _ _ H2 Hl0).
  - rewrite list_lookup_alter_ne in Hj by congruence. exact (Forall_lookup_1 _ _ _ _ H2 Hj).
Qed.
(** The bucket at ([L'], [i']) after a change of the one at ([L], [i]). *)
Lemma lookup_alter2 (w : W) L i f L' i' l b :
  alter (alter f i) L (wheels w) !! L' = Some l -> l !! i' = Some b ->
  exists l0 b0, wheels w !! L' = Some l0 /\ l0 !! i' = Some b0 /\
    b = (if decide (L' = L /\ i' = i) then f b0 else b0).
Proof.
  intros Hl Hb. destruct (decide (L' = L)) as [->|Hne].
  - rewrite list_lookup_alter_eq, fmap_Some in Hl. destruct Hl as (l0 & Hl0 & ->).
    destruct (decide (i' = i)) as [->|Hni].
    + rewrite list_lookup_alter_eq, fmap_Some in Hb. destruct Hb as (b0 & Hb0 & ->).
      exists l0, b0. rewrite decide_True by done. done.
    + rewrite list_lookup_alter_ne in Hb by congruence. exists l0, b. rewrite decide_False by naive_solver. done.
  - rewrite list_lookup_alter_ne in Hl by congruence. exists l, b. rewrite decide_False by naive_solver. done.
Qed.

Lemma push_back_ok pend (w : W) L idx t : wheel_ok pend w -> (L < 4)%nat -> 0 <= idx < 256 ->
  placed (pend L) (current_tick w) L (Z.to_nat idx) t ->
  wheel_ok pend (push_back L idx t w) /\ entries (push_back L idx t w) ≡ₚ t :: entries w.
Proof.
  intros (Hs & Hc & Hp) HL Hi Ht. destruct (slot_exists w L idx Hs HL Hi) as (l & b & Hl & Hb).
  split; [split_and!; [by apply shape_alter|exact (proj1 Hc)|exact (proj2 Hc)|]|].
  - intros L' i' l' b' t' Hl' Hb' Hin.
    destruct (lookup_alter2 _ _ _ _ _ _ _ _ Hl' Hb') as (l0 & b0 & Hl0 & Hb0 & ->).
    destruct (decide _) as [[-> ->]|]; [|by eapply Hp]. apply elem_of_app in Hin as [Hin|Hin].
    + by eapply Hp.
    + apply list_elem_of_singleton in Hin as ->. done.
  - unfold entries, push_back; cbn [wheels].
    assert (concat (alter (fun b => b ++ [t]) (Z.to_nat idx) l) ≡ₚ [t] ++ concat l) as E.
    { eapply concat_alter; [done|]. apply Permutation_app_comm. }
    clear -Hl E. revert L Hl. generalize (wheels w) as ls.
    induction ls as [|l' ls IH]; intros [|L] Hl; simplify_eq/=; rewrite !concat_app.
    + by rewrite E.
    + rewrite (IH L Hl). by rewrite Permutation_middle.
Qed.
Lemma drain_ok pend (w : W) L idx : wheel_ok pend w -> (L < 4)%nat -> 0 <= idx < 256 ->
  wheel_ok pend (drain L idx w).1 /\ entries w ≡ₚ (drain L idx w).2 ++ entries (drain L idx w).1 /\
  (forall t, t ∈ (drain L idx w).2 -> placed (pend L) (current_tick w) L (Z.to_nat idx) t) /\
  (forall L' i' l b t, wheels (drain L idx w).1 !! L' = Some l -> l !! i' = Some b -> t ∈ b ->
     L' <> L \/ i' <> Z.to_nat idx).
Proof.
  intros (Hs & Hc & Hp) HL Hi. destruct (slot_exists w L idx Hs HL Hi) as (l & b & Hl & Hb).
  assert ((drain L idx w).2 = b) as Eb by (unfold drain, bucket; cbn [snd]; rewrite Hl; simpl; by rewrite Hb).
  split_and!; [split_and!; [by apply shape_alter|exact (proj1 Hc)|exact (proj2 Hc)|]| | |].
  - intros L' i' l' b' t' Hl' Hb' Hin.
    destruct (lookup_alter2 _ _ _ _ _ _ _ _ Hl' Hb') as (l0 & b0 & Hl0 & Hb0 & ->).
    destruct (decide _) as [[-> ->]|]; [by apply not_elem_of_nil in Hin|by eapply Hp].
  - rewrite Eb. unfold entries, drain; cbn [wheels fst].
    pose proof (concat_clear _ _ _ Hb) as E. clear -Hl E. revert L Hl. generalize (wheels w) as ls.
    induction ls as [|l' ls IH]; intros [|L] Hl; simplify_eq/=; rewrite !concat_app.
    + by rewrite E, (assoc_L (++)).
    + rewrite (IH L Hl). by rewrite !(assoc_L (++)), (Permutation_app_comm _ b).
  - rewrite Eb. intros t Ht. by eapply Hp.
  - intros L' i' l' b' t' Hl' Hb' Hin.
    destruct (lookup_alter2 _ _ _ _ _ _ _ _ Hl' Hb') as (l0 & b0 & Hl0 & Hb0 & ->).
    destruct (decide _) as [|Hn]; [by apply not_elem_of_nil in Hin|]. destruct (decide (L' = L)); [right|left]; naive_solver.
Qed.

(** *** Placing a task *)
Lemma land_mask x : Z.land x WHEEL_MASK = x mod 256.
Proof. change WHEEL_MASK with (Z.ones 8). by rewrite Z.land_ones. Qed.
Lemma shiftr_level x (L : nat) : Z.shiftr x (Z.of_nat L * WHEEL_BITS) = x / 256 ^ Z.of_nat L.
Proof.
  unfold WHEEL_BITS. rewrite Z.shiftr_div_pow2 by lia.
  replace (256 ^ Z.of_nat L) with (2 ^ (Z.of_nat L * 8)); [done|].
  by rewrite Z.mul_comm, Z.pow_mul_r by lia.
Qed.
Lemma gap_bounds L c w : 256 ^ Z.of_nat L <= w - c ->
  1 <= gap L c w /\ (w - c < 256 * 256 ^ Z.of_nat L -> gap L c w <= 256).
Proof.
  unfold gap. set (p := 256 ^ Z.of_nat L). assert (0 < p) by (unfold p; apply Z.pow_pos_nonneg; lia).
  intros H1. pose proof (Z.div_mod w p). pose proof (Z.div_mod c p).
  pose proof (Z.mod_pos_bound w p). pose proof (Z.mod_pos_bound c p). split; [nia|]. intros; nia.
Qed.

(** What [schedule] needs to know of the task. *)
Definition fits (c : Z) (t : T) (w : Z) : Prop :=
  is_u64 w /\ fire c w = fire (payload t).2 w /\ (c = (payload t).2 \/ w - (payload t).2 >= 256).

Lemma placed_level0 pend c t w x : is_u64 w -> x = fire (payload t).2 w -> c <= x < c + 256 ->
  placed pend c 0 (Z.to_nat (x mod 256)) (set_state (Sleeping w) t).
Proof.
  intros Hw -> Hx. split; [done|]. unfold due, wake_of; cbn [state set_state payload].
  split; [done|]. apply Z2Nat.id. apply Z.mod_pos_bound. lia.
Qed.
Lemma placed_upper c t w L : (0 < L < 4)%nat -> fits c t w -> 256 ^ Z.of_nat L <= w - c ->
  ((L < 3)%nat -> w - c < 256 * 256 ^ Z.of_nat L) ->
  placed false c L (Z.to_nat ((w / 256 ^ Z.of_nat L) mod 256)) (set_state (Sleeping w) t).
Proof.
  intros HL (Hw & Hf & Hs) H1 H2. split; [done|]. destruct L as [|L]; [lia|].
  unfold wake_of; cbn [state set_state payload]. split_and!.
  - apply Z2Nat.id, Z.mod_pos_bound. lia.
  - destruct Hs as [<-|?]; [|lia].
    assert (256 <= 256 ^ Z.of_nat (S L)); [|lia]. change 256 with (256 ^ 1) at 1. apply Z.pow_le_mono_r; lia.
  - by apply gap_bounds.
  - intros ?. apply gap_bounds; auto.
Qed.

Lemma schedule_ok pend (w : W) t wake : wheel_ok pend w -> fits (current_tick w) t wake ->
  (forall L, (0 < L)%nat -> pend L = true -> wake - current_tick w < 256 ^ Z.of_nat L) ->
  wheel_ok pend (schedule t wake w) /\
  entries (schedule t wake w) ≡ₚ set_state (Sleeping wake) t :: entries w.
Proof.
  intros Hok Hfit Hpend. pose proof Hfit as (Hw & Hf & Hs). unfold schedule.
  change (2 * WHEEL_BITS) with (Z.of_nat 2 * WHEEL_BITS). change (3 * WHEEL_BITS) with (Z.of_nat 3 * WHEEL_BITS).
  change (Z.shiftr wake WHEEL_BITS) with (Z.shiftr wake (Z.of_nat 1 * WHEEL_BITS)).
  rewrite !shiftr_level, !land_mask. pose proof (proj1 (proj2 Hok)) as Hc.
  change (Z.of_nat WHEEL_SIZE) with 256.
  change (Z.shiftl 1 (Z.of_nat 2 * WHEEL_BITS)) with (256 ^ 2).
  change (Z.shiftl 1 (Z.of_nat 3 * WHEEL_BITS)) with (256 ^ 3).
  rewrite u64_add_small by mlia. unfold fire in Hf at 1.
  destruct (wake <=? current_tick w) eqn:E1; [|destruct (wake - current_tick w <? 256) eqn:E2;
    [|destruct (wake - current_tick w <? 256 ^ 2) eqn:E3;
    [|destruct (wake - current_tick w <? 256 ^ 3) eqn:E4]]]; simplify_bool;
    (apply push_back_ok; [done|lia|apply Z.mod_pos_bound; lia|]).
  1, 2: by apply placed_level0; [|rewrite <-Hf; repeat case_match; simplify_bool; lia|lia].
  all: match goal with |- placed (?p ?L) _ _ _ _ =>
         destruct (p L) eqn:E; [specialize (Hpend L ltac:(lia) E); simpl Z.of_nat in *; lia|] end.
  all: apply placed_upper; [lia|done|simpl Z.of_nat; lia|simpl Z.of_nat; lia].
Qed.

(** *** Moving a slot down *)
Definition pow_pos L : 0 < 256 ^ Z.of_nat L := Z.pow_pos_nonneg 256 (Z.of_nat L) eq_refl (Zle_0_nat L).
Lemma wheel_ok_ext p q (w : W) : (forall L, p L = q L) -> wheel_ok p w -> wheel_ok q w.
Proof. intros E (H1 & H2 & H3). split_and!; [done|lia..|]. intros. rewrite <-E. by eapply H3. Qed.
Lemma schedule_tick t x (w : W) : current_tick (schedule t x w) = current_tick w.
Proof. unfold schedule. by repeat case_match. Qed.

Definition resched (tick : Z) (w : W) (t : T) : W :=
  match state t with Sleeping wake_tick => schedule t wake_tick w | _ => schedule t tick w end.
Definition movable (pend : nat -> bool) (c : Z) (t : T) : Prop :=
  asleep t /\ fits c t (wake_of t) /\
  forall L, (0 < L)%nat -> pend L = true -> wake_of t - c < 256 ^ Z.of_nat L.
Lemma resched_all pend x ts (w : W) : wheel_ok pend w -> Forall (movable pend (current_tick w)) ts ->
  wheel_ok pend (foldl (resched x) w ts) /\ entries (foldl (resched x) w ts) ≡ₚ ts ++ entries w /\
  current_tick (foldl (resched x) w ts) = current_tick w.
Proof.
  revert w. induction ts as [|t ts IH]; intros w Hok Hts; [done|]. apply Forall_cons in Hts as [(Ha & Hf & Hp) Hts].
  cbn [foldl]. assert (resched x w t = schedule t (wake_of t) w) as ->.
  { unfold resched, wake_of. unfold asleep in Ha. by destruct (state t). }
  destruct (schedule_ok pend w t (wake_of t) Hok Hf Hp) as [Hok' He].
  destruct (IH (schedule t (wake_of t) w)) as (H1 & H2 & H3); [done|by rewrite schedule_tick|].
  rewrite schedule_tick in H3. split_and!; [done| |done]. rewrite H2, He.
  assert (set_state (Sleeping (wake_of t)) t = t) as ->.
  { unfold wake_of, asleep in *. destruct t as [[] q]; try done. }
  cbn. by rewrite <-Permutation_middle.
Qed.

(** Levels from [k] on whose slot is reached at tick [c]. *)
Definition reached (k : nat) (c : Z) (L : nat) : bool := (k <=? L)%nat && (L <=? 3)%nat && (c mod 256 ^ Z.of_nat L =? 0).

Lemma reached_spec k c L : reached k c L = true <-> (k <= L <= 3)%nat /\ c mod 256 ^ Z.of_nat L = 0.
Proof. unfold reached. rewrite !andb_true_iff, !Nat.leb_le, Z.eqb_eq. tauto. Qed.

Lemma slot_due L c w i : 0 <= gap L c w -> Z.of_nat i = (w / 256 ^ Z.of_nat L) mod 256 ->
  i <> Z.to_nat ((c / 256 ^ Z.of_nat L) mod 256) -> 1 <= gap L c w.
Proof.
  unfold gap. intros Hg Hi Hne. destruct (decide (w / 256 ^ Z.of_nat L = c / 256 ^ Z.of_nat L)) as [E|]; [|lia].
  rewrite E in Hi. lia.
Qed.
Lemma slot_reached L c w : (L < 3)%nat -> c mod 256 ^ Z.of_nat L = 0 -> 0 <= gap L c w <= 255 ->
  (w / 256 ^ Z.of_nat L) mod 256 = (c / 256 ^ Z.of_nat L) mod 256 -> w - c < 256 ^ Z.of_nat L.
Proof.
  unfold gap. pose proof (pow_pos L). generalize dependent (256 ^ Z.of_nat L). intros p Hp HL Hc Hg E.
  pose proof (Z.mod_pos_bound w p Hp). pose proof (Z.div_mod w p). pose proof (Z.div_mod c p).
  assert (w / p = c / p) by (Z.div_mod_to_equations; lia). nia.
Qed.
Lemma gap_nonneg_le L c w : c mod 256 ^ Z.of_nat L = 0 -> 0 <= gap L c w -> c <= w.
Proof.
  unfold gap. pose proof (pow_pos L). generalize dependent (256 ^ Z.of_nat L). intros p Hp Hc Hg.
  pose proof (Z.mod_pos_bound w p Hp). pose proof (Z.div_mod w p). pose proof (Z.div_mod c p). nia.
Qed.
Lemma mod_pow_256 L c : (0 < L)%nat -> c mod 256 ^ Z.of_nat L = 0 -> c mod 256 = 0.
Proof.
  intros HL Hc. pose proof (pow_pos L). apply Z.mod_divide in Hc; [|lia]. apply Z.mod_divide; [lia|].
  etrans; [|done]. destruct L as [|L]; [lia|]. exists (256 ^ Z.of_nat L).
  rewrite Nat2Z.inj_succ, Z.pow_succ_r by lia. lia.
Qed.

Lemma drained_movable k L c i t : (0 < L < 4)%nat -> k = L -> reached k c L = true ->
  Z.of_nat i = (c / 256 ^ Z.of_nat L) mod 256 -> placed true c L i t -> movable (reached (S k) c) c t.
Proof.
  intros HL -> Hr Hi [Ha Hp]. destruct L as [|L]; [lia|]. destruct Hp as (Hs & Hw & Hg1 & Hg2).
  apply reached_spec in Hr as [Hr H]. split; [done|].
  assert (c mod 256 = 0) as Hc by (by eapply mod_pow_256; [|done]; lia).
  pose proof (gap_nonneg_le _ _ _ H Hg1) as Hle. split.
  - split_and!; [unfold asleep, wake_of in *; by destruct (state t)|by apply fire_cascade|by right].
  - intros L' HL' Hr'. apply reached_spec in Hr' as [Hr' _].
    assert (wake_of t - c < 256 ^ Z.of_nat (S L)) by (apply slot_reached; [lia|done|split; [done|apply Hg2; lia]|lia]).
    etrans; [done|]. apply Z.pow_lt_mono_r; lia.
Qed.

Lemma cascade_ok k (w : W) : (0 < k < 4)%nat -> wheel_ok (reached k (current_tick w)) w ->
  current_tick w mod 256 ^ Z.of_nat k = 0 ->
  wheel_ok (reached (S k) (current_tick w)) (cascade k (current_tick w) w) /\
  entries (cascade k (current_tick w) w) ≡ₚ entries w /\
  current_tick (cascade k (current_tick w) w) = current_tick w.
Proof.
  intros Hk Hok Hc. unfold cascade. rewrite shiftr_level, land_mask.
  set (c := current_tick w) in *. set (idx := (c / 256 ^ Z.of_nat k) mod 256).
  assert (0 <= idx < 256) as Hidx by (apply Z.mod_pos_bound; lia).
  destruct (drain_ok _ w k idx Hok ltac:(lia) Hidx) as (Hok' & He & Hd & Hne).
  destruct (drain k idx w) as [w' ts] eqn:Ed. cbn [fst snd] in *.
  assert (current_tick w' = c) as Ec by (unfold drain in Ed; by simplify_eq).
  assert (reached k c k = true) as Hr by (apply reached_spec; split; [lia|done]).
  assert (wheel_ok (reached (S k) c) w') as Hok2.
  { destruct Hok' as (H1 & H2 & H3). split_and!; [done|lia..|]. intros L i l b t Hl Hb Ht.
    pose proof (H3 L i l b t Hl Hb Ht) as Hp. rewrite Ec in *. destruct (decide (L = k)) as [->|HLk].
    - rewrite Hr in Hp. unfold reached. rewrite (proj2 (Nat.leb_gt (S k) k)) by lia. cbn [andb].
      destruct Hp as [Ha Hp]. split; [done|]. destruct k as [|k]; [lia|]. destruct Hp as (Hi & Hw & Hg1 & Hg2).
      destruct (Hne _ _ _ _ _ Hl Hb Ht) as [?|Hni]; [done|].
      split_and!; [done|done|by eapply slot_due|]. intros HL3. specialize (Hg2 HL3). lia.
    - replace (reached (S k) c L) with (reached k c L); [done|]. unfold reached. f_equal. f_equal.
      destruct (k <=? L)%nat eqn:E, (S k <=? L)%nat eqn:E'; try done; rewrite ?Nat.leb_le, ?Nat.leb_gt in *; lia. }
  destruct (resched_all (reached (S k) c) c ts w' Hok2) as (H1 & H2 & H3).
  { rewrite Ec. apply Forall_forall. intros t Ht. specialize (Hd t Ht). rewrite Hr in Hd.
    eapply (drained_movable k k); [done|done|done| |done]. apply Z2Nat.id; lia. }
  split_and!; [exact H1|etrans; [exact H2|by rewrite He]|etrans; [exact H3|done]].
Qed.

(** *** One tick *)
Lemma cascade_if_ok k mask (w : W) : (0 < k < 4)%nat -> mask = 256 ^ Z.of_nat k - 1 ->
  wheel_ok (reached k (current_tick w)) w ->
  wheel_ok (reached (S k) (current_tick w)) (cascade_if k mask (current_tick w) w) /\
  entries (cascade_if k mask (current_tick w) w) ≡ₚ entries w /\
  current_tick (cascade_if k mask (current_tick w) w) = current_tick w.
Proof.
  intros Hk -> Hok. unfold cascade_if.
  assert (Z.land (current_tick w) (256 ^ Z.of_nat k - 1) = current_tick w mod 256 ^ Z.of_nat k) as ->.
  { rewrite <-(Z.pow_mul_r 2 8) by lia. rewrite Z.sub_1_r, <-Z.ones_equiv. apply Z.land_ones. lia. }
  destruct (_ =? 0) eqn:E; simplify_bool; [by apply cascade_ok|]. split; [|done].
  eapply wheel_ok_ext; [|done]. intros L. apply eq_true_iff_eq. rewrite !reached_spec.
  split; intros [? Hm]; (split; [|done]); [|lia]. destruct (decide (L = k)) as [->|]; [done|lia].
Qed.

Lemma gap_step L c w : gap L (c + 1) w = gap L c w - (if (c + 1) mod 256 ^ Z.of_nat L =? 0 then 1 else 0).
Proof.
  unfold gap. pose proof (pow_pos L). generalize dependent (256 ^ Z.of_nat L). intros p Hp.
  pose proof (Z.mod_pos_bound c p Hp). pose proof (Z.div_mod c p).
  assert (forall q r, 0 <= r < p -> c + 1 = p * q + r -> (c + 1) / p = q /\ (c + 1) mod p = r) as Hu.
  { intros q r Hr Heq. split; [symmetry; by apply (Z.div_unique _ _ _ r); [left|]|
      symmetry; by apply (Z.mod_unique _ _ q); [left|]]. }
  destruct (decide (c mod p = p - 1)) as [E|E].
  - destruct (Hu (c / p + 1) 0) as [-> ->]; [lia|lia|]. simpl. lia.
  - destruct (Hu (c / p) (c mod p + 1)) as [-> ->]; [lia|lia|].
    destruct (Z.eqb_spec (c mod p + 1) 0); lia.
Qed.

(** After the current slot is emptied, the wheel is in order for the next tick,
    up to the cascades of the levels it reaches. *)
Lemma advance_ok (w : W) c l0 : c = current_tick w -> c + 1 < u64_max -> wheel_ok (fun _ => false) w ->
  l0 = drain 0 (c mod 256) (mkWheel (wheels w) (c + 1)) ->
  wheel_ok (reached 1 (c + 1)) l0.1 /\ entries w ≡ₚ l0.2 ++ entries l0.1 /\ Forall (fun t => due t = c) l0.2.
Proof.
  intros -> Hc Hok ->. set (c := current_tick w) in *.
  assert (0 <= c mod 256 < 256) as Hi by (apply Z.mod_pos_bound; lia).
  destruct (drain_ok _ w 0 (c mod 256) Hok ltac:(lia) Hi) as ((Hs & Hc0 & Hp) & He & Hd & Hne).
  split_and!; [|exact He|].
  - split_and!; [exact Hs|change (0 <= c + 1); change (0 <= c < u64_max) in Hc0; lia|exact Hc|]. intros L i l b t Hl Hb Ht.
    pose proof (Hp L i l b t Hl Hb Ht) as [Ha Hpl]. specialize (Hne L i l b t Hl Hb Ht). split; [done|].
    cbn [current_tick drain fst] in *. fold c in Hpl. destruct L as [|L].
    + destruct Hne as [?|Hne]; [done|]. destruct Hpl as [Hw Hii]. split; [|done].
      destruct (decide (due t = c)) as [E|]; [|lia]. rewrite E in Hii. lia.
    + destruct Hpl as (Hii & Hw & Hg1 & Hg2). split_and!; [done|done|]. rewrite gap_step.
      destruct (reached 1 (c + 1) (S L)) eqn:Er.
      * apply reached_spec in Er as [? ->]. simpl. split; [lia|]. intros H3; specialize (Hg2 H3); lia.
      * assert ((S L <= 3)%nat) as HL by (destruct Hs as [Hs _]; apply lookup_lt_Some in Hl; cbn in *; lia).
        destruct (_ =? 0) eqn:E0; simplify_bool.
        { assert (reached 1 (c + 1) (S L) = true) by (apply reached_spec; split; [lia|done]). congruence. }
        split; [lia|]. intros H3; specialize (Hg2 H3); lia.
  - apply Forall_forall. intros t Ht. destruct (Hd t Ht) as [_ [Hw Hii]]. fold c in Hw.
    rewrite Z2Nat.id in Hii by lia. Z.div_mod_to_equations; lia.
Qed.

Lemma tick_ok (w : W) : current_tick w + 1 < u64_max -> wheel_ok (fun _ => false) w ->
  wheel_ok (fun _ => false) (tick w).1 /\ current_tick (tick w).1 = current_tick w + 1 /\
  entries w ≡ₚ (tick w).2 ++ entries (tick w).1 /\ Forall (fun t => due t = current_tick w) (tick w).2.
Proof.
  intros Hc Hok. pose proof (proj1 (proj2 Hok)) as Hc0. unfold tick.
  rewrite u64_add_small by mlia. rewrite land_mask.
  destruct (advance_ok w _ _ eq_refl Hc Hok eq_refl) as (Hok1 & He1 & Hd).
  destruct (drain _ _ _) as [w1 ts] eqn:Ed. cbn [fst snd] in *.
  assert (current_tick w1 = current_tick w + 1) as E1 by (unfold drain in Ed; by simplify_eq).
  rewrite <-E1 in Hok1 |- *.
  destruct (cascade_if_ok 1 WHEEL_MASK w1 ltac:(lia) eq_refl Hok1) as (Hok2 & He2 & E2).
  set (w2 := cascade_if 1 _ _ w1) in *. rewrite <-E2 in Hok2. replace (current_tick w1) with (current_tick w2) by done.
  destruct (cascade_if_ok 2 (Z.shiftl 1 (2 * WHEEL_BITS) - 1) w2 ltac:(lia) eq_refl Hok2) as (Hok3 & He3 & E3).
  set (w3 := cascade_if 2 _ _ w2) in *. rewrite <-E3 in Hok3. replace (current_tick w2) with (current_tick w3) by done.
  destruct (cascade_if_ok 3 (Z.shiftl 1 (3 * WHEEL_BITS) - 1) w3 ltac:(lia) eq_refl Hok3) as (Hok4 & He4 & E4).
  set (w4 := cascade_if 3 _ _ w3) in *. split_and!; [|lia|by rewrite He1, He4, He3, He2|done].
  eapply wheel_ok_ext; [|done]. intros L. destruct (reached 4 _ L) eqn:Er; [|done].
  apply reached_spec in Er. lia.
Qed.

Lemma due_now (w : W) t : wheel_ok (fun _ => false) w -> t ∈ entries w -> current_tick w <= due t.
Proof.
  intros (_ & _ & Hp) Ht. unfold entries in Ht. apply list_elem_of_In, in_concat in Ht as (b & Hb & Ht).
  apply in_concat in Hb as (l & Hl & Hb). apply list_elem_of_In in Ht, Hl, Hb.
  apply list_elem_of_lookup in Hl as [L Hl]. apply list_elem_of_lookup in Hb as [i Hb].
  destruct (Hp L i l b t Hl Hb Ht) as [_ Hpl]. destruct L as [|L]; [lia|]. destruct Hpl as (_ & Hw & Hg & _).
  assert (wake_of t <= due t) by (unfold due, fire; repeat case_match; simplify_bool; lia).
  unfold gap in Hg. pose proof (pow_pos (S L)) as Hpos.
  pose proof (Z.div_mod (wake_of t) (256 ^ Z.of_nat (S L))). pose proof (Z.div_mod (current_tick w) (256 ^ Z.of_nat (S L))).
  pose proof (Z.mod_pos_bound (wake_of t) _ Hpos). pose proof (Z.mod_pos_bound (current_tick w) _ Hpos). nia.
Qed.
Lemma new_ok : wheel_ok (fun _ => false) (new : W) /\ entries (new : W) = [].
Proof.
  split; [|reflexivity]. split_and!; [split; [done|by apply Forall_replicate]|done|done|].
  intros L i l b t Hl Hb Ht. apply lookup_replicate in Hl as [-> _]. apply lookup_replicate in Hb as [-> _].
  by apply not_elem_of_nil in Ht.
Qed.

(** ** The system: tasks falling asleep, timer ticks, deferred timer passes

    The state is what these functions keep of sleeping: [TICK_COUNT] and the
    wheel, which are separate (the timer interrupt advances both, the deferred
    pass of the timer softirq only the wheel).  Their other effects (run-time
    accounting in [sleep]; alarms, futex timeouts and preemption in [tick];
    the wake-up event and the run queue in [wake_sleeping_tasks]) touch neither
    and are not part of this state; the interrupt is taken with the scheduler
    ready.  [slept] and [woke] are logs: who went to sleep when until when, and
    who was handed to [spawn_boxed] when which tick of the wheel was
    processed. *)
Record sys := mkSys { TICK_COUNT : Z; wheel : W; slept : list (B * Z * Z); woke : list (Z * (B * Z * Z)) }.
Definition boot : sys := mkSys 0 new [] [].
Definition entry_of (t : T) : B * Z * Z := (payload t, wake_of t).

(** [schedule()] on a task that is [Sleeping { wake_tick }]. *)
Definition put_to_sleep (b : B) (wake_tick : Z) (s : sys) : sys :=
  let c := current_tick (wheel s) in
  mkSys (TICK_COUNT s) (schedule (mkTask (Sleeping wake_tick) (b, c)) wake_tick (wheel s))
    (slept s ++ [(b, c, wake_tick)]) (woke s).
(** [sleep]: the deadline, then [schedule()]. *)
Definition sleep (b : B) (ticks : Z) (s : sys) : sys := put_to_sleep b (u64_add (TICK_COUNT s) ticks) s.
Definition wake_sleeping_tasks (s : sys) : sys :=
  let '(w, tasks) := tick (wheel s) in
  mkSys (TICK_COUNT s) w (slept s) (woke s ++ ((fun t => (current_tick (wheel s), entry_of t)) <$> tasks)).
(** [tick], up to [wake_sleeping_tasks]. *)
Definition timer_tick (s : sys) : sys :=
  wake_sleeping_tasks (mkSys (u64_add (TICK_COUNT s) 1) (wheel s) (slept s) (woke s)).
Definition process_deferred_timers (s : sys) : sys := wake_sleeping_tasks s.

Inductive op := SleepUntil (b : B) (wake_tick : Z) | Sleep (b : B) (ticks : Z) | TimerTick | Deferred.
Definition step (o : op) (s : sys) : sys :=
  match o with
  | SleepUntil b w => put_to_sleep b w s
  | Sleep b n => sleep b n s
  | TimerTick => timer_tick s
  | Deferred => process_deferred_timers s
  end.
Definition run (ops : list op) (s : sys) : sys := foldl (fun s o => step o s) s ops.
Definition op_ok (o : op) : Prop := match o with SleepUntil _ w => is_u64 w | _ => True end.

Definition fire_of (e : B * Z * Z) : Z := fire e.1.2 e.2.
Definition sys_ok (n : Z) (s : sys) : Prop :=
  wheel_ok (fun _ => false) (wheel s) /\ current_tick (wheel s) <= n /\
  slept s ≡ₚ (snd <$> woke s) ++ (entry_of <$> entries (wheel s)) /\
  Forall (fun x => x.1 = fire_of x.2 /\ x.1 < current_tick (wheel s)) (woke s).

Lemma put_to_sleep_ok n b w s : is_u64 w -> sys_ok n s -> sys_ok n (put_to_sleep b w s).
Proof.
  intros Hw (H1 & H2 & H3 & H4). unfold put_to_sleep.
  destruct (schedule_ok (fun _ => false) (wheel s) (mkTask (Sleeping w) (b, current_tick (wheel s))) w) as [Ho He];
    [done|split_and!; [done|done|by left]|done|].
  split_and!; cbn [wheel slept woke]; rewrite ?schedule_tick; [done|done| |done].
  rewrite He, H3. cbn. rewrite <-(assoc_L (++)). f_equiv. by rewrite Permutation_app_comm.
Qed.
Lemma wake_ok n s : n + 1 < u64_max -> sys_ok n s -> sys_ok (n + 1) (wake_sleeping_tasks s).
Proof.
  intros Hn (H1 & H2 & H3 & H4). destruct (tick_ok (wheel s)) as (Ho & Ec & He & Hd); [lia|done|].
  unfold wake_sleeping_tasks. destruct (tick (wheel s)) as [w ts]. cbn [fst snd] in *.
  split_and!; cbn [wheel slept woke]; [done|lia| |].
  - rewrite H3, He, !fmap_app, <-list_fmap_compose, (assoc_L (++)). done.
  - rewrite Ec. apply Forall_app; split.
    + eapply Forall_impl; [exact H4|]. cbn. lia.
    + apply Forall_fmap. eapply Forall_impl; [exact Hd|]. intros t Ht. cbn. unfold due in Ht. split; [|lia].
      unfold fire_of, entry_of; cbn. done.
Qed.
Lemma step_ok n o s : n + 1 < u64_max -> op_ok o -> sys_ok n s -> sys_ok (n + 1) (step o s).
Proof.
  intros Hn Ho Hs. assert (forall s', sys_ok n s' -> sys_ok (n + 1) s') as Hm by (intros s' (?&?&?&?); split_and!; [done|lia|done..]).
  destruct o; cbn [step op_ok] in *; [by apply Hm, put_to_sleep_ok|apply Hm, put_to_sleep_ok; auto with echos| |];
    by apply wake_ok.
Qed.
Lemma run_ok ops n s : Forall op_ok ops -> n + Z.of_nat (length ops) < u64_max -> sys_ok n s ->
  sys_ok (n + Z.of_nat (length ops)) (run ops s).
Proof.
  revert n s. induction ops as [|o ops IH]; intros n s Hf Hn Hs.
  - cbn [length]. by rewrite Z.add_0_r.
  - apply Forall_cons in Hf as [Ho Hf]. cbn [length run foldl] in *. rewrite Nat2Z.inj_succ in *.
    replace (n + Z.succ (Z.of_nat (length ops))) with (n + 1 + Z.of_nat (length ops)) by lia.
    apply IH; [done|lia|]. apply step_ok; [lia|done|done].
Qed.
Lemma boot_ok : sys_ok 0 boot.
Proof. destruct new_ok as [H1 H2]. split_and!; [done|done| |constructor]. cbn [boot wheel slept woke]. by rewrite H2. Qed.

Lemma log_split s n : sys_ok n s ->
  woke s ≡ₚ (fun e => (fire_of e, e)) <$> filter (fun e => fire_of e < current_tick (wheel s)) (slept s).
Proof.
  intros (H1 & _ & H3 & H4). rewrite H3, filter_app.
  rewrite (filter_none _ (entry_of <$> _)).
  2: { intros e He. apply list_elem_of_fmap in He as (t & -> & Ht). pose proof (due_now _ _ H1 Ht) as Hd.
       change (fire_of (entry_of t)) with (due t). lia. }
  rewrite app_nil_r. clear H3. induction (woke s) as [|x l IH]; [done|].
  apply Forall_cons in H4 as [[Hx1 Hx2] H4]. rewrite fmap_cons, filter_cons_True by (rewrite <-Hx1; done).
  rewrite fmap_cons, <-(IH H4), <-Hx1. by destruct x.
Qed.

(** *** Histories without deferred passes: the wheel keeps time with [TICK_COUNT] *)
Definition regular (o : op) : Prop := match o with Sleep _ n => is_u64 n | TimerTick => True | _ => False end.
Definition ticks (ops : list op) : Z := sumZ (fun o => match o with TimerTick => 1 | _ => 0 end) ops.
Lemma regular_ok o : regular o -> op_ok o.
Proof. by destruct o. Qed.
Lemma in_step_slept o s e : e ∈ slept s -> e ∈ slept (step o s).
Proof.
  intros He. destruct o; cbn [step sleep put_to_sleep timer_tick process_deferred_timers slept];
    [apply elem_of_app; by left|apply elem_of_app; by left|..]; unfold timer_tick, process_deferred_timers, wake_sleeping_tasks;
    by destruct (tick _).
Qed.
Lemma in_run_slept ops s e : e ∈ slept s -> e ∈ slept (run ops s).
Proof. revert s. induction ops as [|o ops IH]; intros s He; [done|]. apply IH, in_step_slept, He. Qed.
Lemma run_clock ops n s : Forall regular ops -> n + Z.of_nat (length ops) < u64_max -> sys_ok n s ->
  TICK_COUNT s = current_tick (wheel s) ->
  TICK_COUNT (run ops s) = TICK_COUNT s + ticks ops /\ current_tick (wheel (run ops s)) = TICK_COUNT (run ops s).
Proof.
  revert n s. induction ops as [|o ops IH]; intros n s Hf Hn Hs Hc; [cbn; lia|].
  apply Forall_cons in Hf as [Ho Hf]. cbn [length] in Hn. pose proof (step_ok n o s ltac:(lia) (regular_ok _ Ho) Hs) as Hs'.
  pose proof Hs as (Hw & Hle & _). pose proof (proj1 (proj2 Hw)) as Hr.
  assert (TICK_COUNT (step o s) = TICK_COUNT s + ticks [o] /\ TICK_COUNT (step o s) = current_tick (wheel (step o s))) as [E1 E2].
  { destruct o; cbn [regular] in Ho; try done; unfold ticks; cbn [sumZ foldr].
    - cbn [step sleep put_to_sleep TICK_COUNT wheel]. rewrite schedule_tick. lia.
    - cbn [step timer_tick]. unfold timer_tick, wake_sleeping_tasks. cbn [wheel TICK_COUNT].
      destruct (tick_ok (wheel s)) as (_ & Ec & _); [lia|done|]. destruct (tick (wheel s)); cbn [wheel TICK_COUNT fst] in *.
      rewrite u64_add_small by mlia. lia. }
  cbn [run foldl]. destruct (IH (n + 1) (step o s)) as [E3 E4]; [done|lia|done|done|]. split; [|exact E4].
  etrans; [exact E3|]. rewrite E1. unfold ticks. rewrite (sumZ_app _ [o] ops). lia.
Qed.



(** [sleep(n)] sleeps [n] ticks, and ends. As long as only the timer
    interrupt advances the wheel, a task that calls [sleep(n)] when [TICK_COUNT]
    is [t] is woken in the tick that follows [t + n] or [t + n + 1], provided
    [n + 2] further ticks happen, and is never woken before [t + n]. *)
Theorem sleep_duration ops1 b n ops2 :
  Forall regular ops1 -> Forall regular ops2 -> is_u64 n ->
  Z.of_nat (length ops1 + length ops2) + n + 3 < u64_max ->
  let t := TICK_COUNT (run ops1 boot) in
  let s := run (ops1 ++ Sleep b n :: ops2) boot in
  (n + 2 <= ticks ops2 -> exists f, t + n <= f <= t + n + 1 /\ (f, (b, t, t + n)) ∈ woke s) /\
  forall f, (f, (b, t, t + n)) ∈ woke s -> t + n <= f.
Proof.
  intros H1 H2 Hn Hlen t s. pose proof (proj1 Hn) as Hn0. assert (forall l, Forall regular l -> Forall op_ok l) as Hr
    by (intros l Hl; eapply Forall_impl; [exact Hl|exact regular_ok]).
  pose proof (run_ok ops1 0 boot (Hr _ H1) ltac:(lia) boot_ok) as Hs1.
  destruct (run_clock ops1 0 boot H1 ltac:(lia) boot_ok eq_refl) as [Et Ec]. fold t in Et, Ec.
  assert (0 <= t <= Z.of_nat (length ops1)) as Ht by (rewrite <-Ec; destruct Hs1 as ((_ & ? & _) & ? & _); lia).
  assert (Hlong : 0 + Z.of_nat (length (ops1 ++ Sleep b n :: ops2)) < u64_max)
    by (rewrite length_app; cbn [length]; destruct Hn; lia).
  assert (Forall regular (ops1 ++ Sleep b n :: ops2)) as H by (apply Forall_app; split; [done|by constructor]).
  pose proof (run_ok _ 0 boot (Hr _ H) Hlong boot_ok) as Hs. pose proof (log_split _ _ Hs) as Hlog. fold s in Hs, Hlog.
  destruct (run_clock _ 0 boot H Hlong boot_ok eq_refl) as [Et' Ec']. fold s in Et', Ec'.
  assert (t + n <= fire t (t + n) <= t + n + 1) as Hfire by (unfold fire; repeat case_match; simplify_bool; destruct Hn; lia).
  split.
  - intros Htk. exists (fire t (t + n)). split; [done|]. rewrite Hlog. apply list_elem_of_fmap.
    exists (b, t, t + n). split; [done|]. apply list_elem_of_filter. split.
    + unfold fire_of; cbn [fst snd]. rewrite Ec', Et'. cbn [boot TICK_COUNT] in Et |- *. unfold ticks in *.
      rewrite sumZ_app, (sumZ_app _ [Sleep b n] ops2). cbn [sumZ foldr] in *. lia.
    + unfold s, run. rewrite foldl_app. cbn [foldl]. apply (in_run_slept ops2). cbn [step]. unfold sleep, put_to_sleep.
      cbn [slept]. apply elem_of_app; right. apply list_elem_of_singleton. change (foldl _ boot ops1) with (run ops1 boot).
      rewrite Ec. fold t. rewrite u64_add_small; [done|]. destruct Hn. mlia.
  - intros f Hf. destruct Hs as (_ & _ & _ & Hw). rewrite Forall_forall in Hw.
    destruct (Hw _ Hf) as [Hf1 _]. cbn in Hf1. unfold fire_of in Hf1; cbn in Hf1. lia.
Qed.
End proof.

Lemma sleep_duration_witness : exists f, 0 + 2 <= f <= 0 + 2 + 1 /\
  (f, (7, 0, 0 + 2)) ∈ woke (run ([] ++ Sleep 7 2 :: replicate 4 TimerTick) (boot (B := Z))).
Proof.
  apply (sleep_duration (B := Z) [] 7 2 (replicate 4 TimerTick));
    [by apply Forall_nil_2|by apply Forall_replicate|mlia|reflexivity|vm_compute; congruence].
Defined.

(** Deferred timer passes cut sleeps short. The timer softirq calls
    [process_deferred_timers], which advances the wheel once more without
    [TICK_COUNT]; with one such pass per tick a task that asked for 10 ticks is
    back after 6. *)
Theorem deferred_pass_wakes_early :
  let s := run (Sleep 7 10 :: concat (replicate 6 [TimerTick; Deferred])) (boot (B := Z)) in
  TICK_COUNT s = 6 /\ (10, (7, 0, 10)) ∈ woke s.
Proof. vm_compute. split; [done|]. by left. Qed.

End Timer.
