(* ===== verification/Deque.v ===== *)
(** * The work-stealing deque of the run queues

    Models [src/src/task/deque.rs]: the fixed-capacity Chase-Lev deque.  Each
    method is cut at its accesses to the shared words ([top], [bottom], the
    buffer slots), so that any interleaving of the owner and the stealers is a
    sequence of steps of the machine below (sequentially consistent memory).
    Tasks are their non-null [Box] addresses. *)
From S2P Require Import Prelude.

Module Deque.

Definition DEQUE_SIZE : Z := 4096.

Record Inner := mkInner { buffer : list Z; top : Z; bottom : Z }.
Definition inner_new : Inner := mkInner (replicate (Z.to_nat DEQUE_SIZE) 0) 0 0.

(** [wrapping_add] and [wrapping_sub] on [isize], [as usize], [% DEQUE_SIZE]. *)
Definition isize_add (a b : Z) : Z := as_i64 (a + b).
Definition isize_sub (a b : Z) : Z := as_i64 (a - b).
Definition as_usize (a : Z) : Z := a mod u64_mod.
Definition slot (b : Z) : nat := Z.to_nat (as_usize b mod DEQUE_SIZE).
Definition load_slot (b : Z) (d : Inner) : Z := default 0 (buffer d !! slot b).
Definition store_slot (b p : Z) (d : Inner) : Inner := mkInner (<[slot b := p]> (buffer d)) (top d) (bottom d).
Definition set_top (t : Z) (d : Inner) : Inner := mkInner (buffer d) t (bottom d).
Definition set_bottom (b : Z) (d : Inner) : Inner := mkInner (buffer d) (top d) b.

(** [Worker::len] *)
Definition len (d : Inner) : Z := if bottom d <? top d then 0 else as_usize (bottom d - top d).

(** Where a thread is inside [push], [pop] or [steal]: the next shared access. *)
Inductive tstate :=
  | Idle
  | PushLoadTop (x b : Z) | PushStoreSlot (x b : Z) | PushStoreBottom (x b : Z)
  | PopStoreBottom (b : Z) | PopLoadTop (b : Z) | PopLoadSlot (b t : Z) | PopCas (b t p : Z)
  | PopRestore (b : Z) (r : option Z)
  | StealLoadBottom (t : Z) | StealLoadSlot (t : Z) | StealCas (t p : Z).

(** What a step of a call returns: nothing yet, or its result. *)
Inductive ret := Continue | Pushed (x : Z) | Refused (x : Z) | Popped (r : option Z) | Stole (r : option Z).

Inductive call := Push (x : Z) | Pop | Steal.
(** The first access of each method. *)
Definition begin (c : call) (d : Inner) : tstate :=
  match c with
  | Push x => PushLoadTop x (bottom d)
  | Pop => PopStoreBottom (isize_sub (bottom d) 1)
  | Steal => StealLoadBottom (top d)
  end.
(** The next access. *)
Definition advance (st : tstate) (d : Inner) : Inner * tstate * ret :=
  match st with
  | Idle => (d, Idle, Continue)
  | PushLoadTop x b =>
      if DEQUE_SIZE <=? as_usize (isize_sub b (top d)) then (d, Idle, Refused x) else (d, PushStoreSlot x b, Continue)
  | PushStoreSlot x b => (store_slot b x d, PushStoreBottom x b, Continue)
  | PushStoreBottom x b => (set_bottom (isize_add b 1) d, Idle, Pushed x)
  | PopStoreBottom b => (set_bottom b d, PopLoadTop b, Continue)
  | PopLoadTop b => (d, (if top d <=? b then PopLoadSlot b (top d) else PopRestore b None), Continue)
  | PopLoadSlot b t =>
      if t =? b then (d, PopCas b t (load_slot b d), Continue) else (d, Idle, Popped (Some (load_slot b d)))
  | PopCas b t p =>
      if top d =? t then (set_top (isize_add t 1) d, PopRestore b (Some p), Continue)
      else (d, PopRestore b None, Continue)
  | PopRestore b r => (set_bottom (isize_add b 1) d, Idle, Popped r)
  | StealLoadBottom t => if t <? bottom d then (d, StealLoadSlot t, Continue) else (d, Idle, Stole None)
  | StealLoadSlot t => (d, StealCas t (load_slot t d), Continue)
  | StealCas t p => if top d =? t then (set_top (isize_add t 1) d, Idle, Stole (Some p)) else (d, Idle, Stole None)
  end.

(** The system: the deque, the threads, and ghost logs of the tasks that
    [push] accepted and that [pop] and [steal] handed out. *)
Record sys := mkSys { dq : Inner; threads : gmap Z tstate; pushed : list Z; taken : list Z }.
Definition start : sys := mkSys inner_new ∅ [] [].
Definition state_of (tid : Z) (s : sys) : tstate := default Idle (threads s !! tid).

Inductive event := Begin (tid : Z) (c : call) | Run (tid : Z).
Definition log (r : ret) (s : sys) : sys :=
  match r with
  | Pushed x => mkSys (dq s) (threads s) (pushed s ++ [x]) (taken s)
  | Popped (Some p) | Stole (Some p) => mkSys (dq s) (threads s) (pushed s) (taken s ++ [p])
  | _ => s
  end.
Definition exec (e : event) (s : sys) : sys :=
  match e with
  | Begin tid c =>
      match state_of tid s with
      | Idle => mkSys (dq s) (<[tid := begin c (dq s)]> (threads s)) (pushed s) (taken s)
      | _ => s
      end
  | Run tid =>
      let '(d, st, r) := advance (state_of tid s) (dq s) in
      log r (mkSys d (<[tid := st]> (threads s)) (pushed s) (taken s))
  end.
Definition run (es : list event) (s : sys) : sys := foldl (fun s e => exec e s) s es.

(** The tasks a quiescent deque holds, oldest first. *)
Definition contents (d : Inner) : list Z :=
  (fun k => load_slot (top d + Z.of_nat k) d) <$> seq 0 (Z.to_nat (bottom d - top d)).

(** ** Invariant

    [logical_bottom]: the end of the range of indices that still belong to the
    deque.  It differs from [bottom] while the owner is inside [pop]: the index
    it reserved is given up only when the owner has seen that no stealer can
    reach it. *)
Definition logical_bottom (st : tstate) (d : Inner) : Z :=
  match st with
  | PopStoreBottom b | PopLoadTop b | PopCas b _ _ | PopRestore b _ => b + 1
  | PopLoadSlot b t => if t <? b then b else b + 1
  | _ => bottom d
  end.
Definition live (d : Inner) (l : Z) : list Z :=
  (fun k => load_slot (top d + Z.of_nat k) d) <$> seq 0 (Z.to_nat (l - top d)).
(** Tasks the owner has claimed but not yet returned. *)
Definition claimed (st : tstate) (d : Inner) : list Z :=
  match st with
  | PopLoadSlot b t => if t <? b then [load_slot b d] else []
  | PopRestore _ (Some p) => [p]
  | _ => []
  end.
Definition owner_ok (st : tstate) (d : Inner) : Prop :=
  match st with
  | Idle => True
  | PushLoadTop x b => bottom d = b
  | PushStoreSlot x b => bottom d = b /\ b - top d < DEQUE_SIZE
  | PushStoreBottom x b => bottom d = b /\ b - top d < DEQUE_SIZE /\ load_slot b d = x
  | PopStoreBottom b => bottom d = b + 1
  | PopLoadTop b => bottom d = b
  | PopLoadSlot b t => bottom d = b /\ t <= top d /\ t <= b
  | PopCas b t p => bottom d = b /\ t = b /\ b <= top d /\ (top d = b -> p = load_slot b d)
  | PopRestore b _ => bottom d = b /\ top d = b + 1
  | _ => False
  end.
Definition thief_ok (l : Z) (d : Inner) (st : tstate) : Prop :=
  match st with
  | Idle => True
  | StealLoadBottom t => 0 <= t <= top d
  | StealLoadSlot t => 0 <= t <= top d /\ (t = top d -> t < l)
  | StealCas t p => 0 <= t <= top d /\ (t = top d -> t < l /\ p = load_slot t d)
  | _ => False
  end.
Definition core (n : Z) (d : Inner) (st : tstate) (ps ts : list Z) : Prop :=
  let l := logical_bottom st d in
  0 <= top d <= l /\ l <= n /\ l - top d <= DEQUE_SIZE /\ length (buffer d) = 4096%nat /\ owner_ok st d /\
  ps ≡ₚ ts ++ claimed st d ++ live d l.
Definition inv (owner n : Z) (s : sys) : Prop :=
  core n (dq s) (state_of owner s) (pushed s) (taken s) /\
  forall tid, tid <> owner -> thief_ok (logical_bottom (state_of owner s) (dq s)) (dq s) (state_of tid s).

(** *** Slots and live ranges *)
Definition small (b : Z) : Prop := 0 <= b < 2 ^ 62.
Lemma slot_small b : small b -> slot b = Z.to_nat (b mod 4096).
Proof. unfold small, slot, as_usize, DEQUE_SIZE. intros H. rewrite (Z.mod_small b) by mlia. done. Qed.
Lemma slot_inj a b : small a -> small b -> a - b < 4096 -> b - a < 4096 -> slot a = slot b -> a = b.
Proof. intros Ha Hb H1 H2. rewrite !slot_small by done. Z.div_mod_to_equations. lia. Qed.
Lemma isize_small x : - 2 ^ 62 <= x <= 2 ^ 62 -> as_i64 x = x.
Proof.
  intros H. unfold as_i64. assert (2 ^ 62 = 4611686018427387904) as E by done. rewrite E in H.
  destruct (decide _); mlia.
Qed.
Lemma load_store_eq b p d : length (buffer d) = 4096%nat -> small b -> load_slot b (store_slot b p d) = p.
Proof.
  intros Hl Hb. unfold load_slot, store_slot; cbn [buffer]. rewrite list_lookup_insert_eq; [done|].
  rewrite slot_small by done. rewrite Hl. pose proof (Z.mod_pos_bound b 4096). lia.
Qed.
Lemma load_store_ne a b p d : small a -> small b -> a - b < 4096 -> b - a < 4096 -> a <> b ->
  load_slot a (store_slot b p d) = load_slot a d.
Proof.
  intros. unfold load_slot, store_slot; cbn [buffer]. rewrite list_lookup_insert_ne; [done|].
  intros E. apply slot_inj in E; [lia|done..|lia|lia].
Qed.
Lemma live_snoc d l : top d <= l -> live d (l + 1) = live d l ++ [load_slot l d].
Proof.
  intros H. unfold live. replace (Z.to_nat (l + 1 - top d)) with (Z.to_nat (l - top d) + 1)%nat by lia.
  rewrite seq_app, fmap_app. cbn. do 3 f_equal. lia.
Qed.
Lemma live_cons d l : top d < l -> live d l = load_slot (top d) d :: live (set_top (top d + 1) d) l.
Proof.
  intros H. unfold live. cbn [top set_top]. replace (Z.to_nat (l - top d)) with (S (Z.to_nat (l - (top d + 1)))) by lia.
  cbn [seq]. rewrite fmap_cons, <-fmap_S_seq, <-list_fmap_compose. f_equal; [f_equal; lia|].
  apply list_fmap_ext. intros i x _. cbn. unfold load_slot, set_top; cbn [buffer]. do 3 f_equal. lia.
Qed.
Lemma live_nil d : live d (top d) = [].
Proof. unfold live. by rewrite Z.sub_diag. Qed.
Lemma live_store d b p l : small (top d) -> small b -> top d <= l <= b -> b - top d < 4096 ->
  live (store_slot b p d) l = live d l.
Proof.
  intros Ht Hb Hl Hd. unfold live. cbn [top store_slot]. apply list_fmap_ext. intros i x Hx.
  apply lookup_seq in Hx as [-> Hx]. apply load_store_ne; unfold small in *; lia.
Qed.

(** *** Steps of the owner *)
Definition plog (r : ret) (ps : list Z) : list Z := match r with Pushed x => ps ++ [x] | _ => ps end.
Definition tlog (r : ret) (ts : list Z) : list Z := match r with Popped (Some p) | Stole (Some p) => ts ++ [p] | _ => ts end.

Lemma core_mono n d st ps ts : core n d st ps ts -> core (n + 1) d st ps ts.
Proof. intros (?&?&?&?&?&?). unfold core. cbv zeta in *. split_and!; try done; lia. Qed.

Lemma push_refusal n d b : n < 2 ^ 62 -> bottom d = b -> 0 <= top d <= b -> b <= n ->
  as_usize (isize_sub b (top d)) = b - top d.
Proof. intros. unfold as_usize, isize_sub. rewrite isize_small by lia. apply Z.mod_small. mlia. Qed.

(** The arithmetic and the trivial parts of [core]. *)
Ltac core_split := split_and!; try (unfold DEQUE_SIZE in *; lia); try done.

(** What a step of the owner guarantees: the invariant, and that the stealers'
    local knowledge stays true. *)
Definition step_keeps (n : Z) (d : Inner) (st : tstate) (ps ts : list Z) : Prop :=
  forall d' st' r, advance st d = (d', st', r) ->
  core (n + 1) d' st' (plog r ps) (tlog r ts) /\
  forall x, thief_ok (logical_bottom st d) d x -> thief_ok (logical_bottom st' d') d' x.
Ltac step_cases Hcore := pose proof Hcore as (Ht & Hl & Hcap & Hlen & Ho & Hp); unfold DEQUE_SIZE in *;
  unfold step_keeps; intros d' st' out; cbn [advance owner_ok logical_bottom claimed] in *.

Lemma push_step n d st ps ts : n < 2 ^ 62 -> core n d st ps ts ->
  match st with Idle | PushLoadTop _ _ | PushStoreSlot _ _ | PushStoreBottom _ _ => step_keeps n d st ps ts | _ => True end.
Proof.
  intros Hn Hcore. destruct st; try done; step_cases Hcore.
  - intros [= <- <- <-]. split; [by apply core_mono|done].
  - (* PushLoadTop *) rewrite (push_refusal n) by (done || lia). case_match; intros [= <- <- <-]; simplify_bool;
      (split; [|by subst]); subst b; unfold core; cbn [logical_bottom claimed owner_ok plog tlog] in *;
      split_and!; try done; unfold DEQUE_SIZE in *; lia.
  - (* PushStoreSlot *) intros [= <- <- <-]. destruct Ho as [<- Hb]. assert (small (bottom d)) by (unfold small; lia).
    assert (small (top d)) by (unfold small; lia). split.
    + unfold core; cbn [logical_bottom claimed owner_ok plog tlog]. cbn [top bottom store_slot buffer].
      core_split; [by rewrite length_insert|by apply load_store_eq|].
      rewrite live_store by (done || (unfold DEQUE_SIZE in *; lia)). done.
    + intros y Hx. destruct y; cbn [thief_ok logical_bottom top bottom store_slot] in *; try done.
      destruct Hx as [Hx1 Hx2]. split; [done|]. intros E. destruct (Hx2 E) as [? ->]. split; [done|].
      rewrite load_store_ne; [done|unfold small, DEQUE_SIZE in *; lia..].
  - (* PushStoreBottom *) intros [= <- <- <-]. destruct Ho as (<- & Hb & Hx). unfold isize_add. rewrite isize_small by lia. split.
    + unfold core; cbn [logical_bottom claimed owner_ok plog tlog set_bottom top bottom buffer].
      core_split.
      rewrite (live_snoc (set_bottom _ d)) by (cbn; lia). cbn [app] in *. rewrite Hp.
      change (live (set_bottom (bottom d + 1) d) (bottom d)) with (live d (bottom d)).
      change (load_slot (bottom d) (set_bottom (bottom d + 1) d)) with (load_slot (bottom d) d).
      by rewrite Hx, (assoc_L (++)).
    + intros y Hy. destruct y; cbn [thief_ok logical_bottom set_bottom top bottom] in *; try done; intuition lia.
Qed.
Lemma pop_reserve_step n d st ps ts : n < 2 ^ 62 -> core n d st ps ts ->
  match st with PopStoreBottom _ | PopLoadTop _ => step_keeps n d st ps ts | _ => True end.
Proof.
  intros Hn Hcore. destruct st; try done; step_cases Hcore.
  - (* PopStoreBottom *) intros [= <- <- <-]. split; [|by intros []].
    unfold core; cbn [logical_bottom claimed owner_ok plog tlog set_bottom top bottom buffer].
    core_split.
  - (* PopLoadTop *) intros [= <- <- <-]. cbn [plog tlog]. destruct (top d <=? b) eqn:E; simplify_bool.
    + assert (logical_bottom (PopLoadSlot b (top d)) d = if top d <? b then b else b + 1) as El by done.
      destruct (top d <? b) eqn:E'; simplify_bool.
      * split.
        -- unfold core. cbn [logical_bottom claimed owner_ok]. rewrite (proj2 (Z.ltb_lt _ _) E').
           core_split. rewrite Hp, live_snoc by lia. cbn [app].
           by rewrite (Permutation_app_comm (live d b)).
        -- rewrite El. intros x Hx. destruct x; cbn [thief_ok] in *; try done; intuition lia.
      * split; [|by rewrite El]. unfold core. cbn [logical_bottom claimed owner_ok].
        rewrite (proj2 (Z.ltb_ge _ _) E'). core_split.
    + split; [|done]. unfold core. cbn [logical_bottom claimed owner_ok].
      core_split.
Qed.
Lemma pop_take_step n d st ps ts : n < 2 ^ 62 -> core n d st ps ts ->
  match st with PopLoadSlot _ _ | PopCas _ _ _ | PopRestore _ _ => step_keeps n d st ps ts | _ => True end.
Proof.
  intros Hn Hcore. destruct st; try done; step_cases Hcore.
  - (* PopLoadSlot *) destruct Ho as (Hb & Ht1 & Ht2). destruct (Z.eqb_spec t b) as [->|Hne]; intros [= <- <- <-].
    + rewrite Z.ltb_irrefl in *. split; [|done]. unfold core. cbn [logical_bottom claimed owner_ok plog tlog].
      core_split.
    + rewrite (proj2 (Z.ltb_lt t b)) in * by lia. split; [|by rewrite <-Hb].
      unfold core. cbn [logical_bottom claimed owner_ok plog tlog]. rewrite Hb.
      core_split. by rewrite Hp, (assoc_L (++)).
  - (* PopCas *) destruct Ho as (Hb & -> & Htb & Hv). destruct (Z.eqb_spec (top d) b) as [E|E]; intros [= <- <- <-].
    + unfold isize_add. rewrite isize_small by lia. split.
      * unfold core. cbn [logical_bottom claimed owner_ok plog tlog set_top top bottom buffer].
        core_split.
        rewrite Hp, live_cons, E by lia. rewrite (Hv E). cbn [app]. done.
      * intros x Hx. destruct x; cbn [thief_ok logical_bottom set_top top] in *; try done; intuition lia.
    + split; [|done]. unfold core. cbn [logical_bottom claimed owner_ok plog tlog].
      core_split.
  - (* PopRestore *) destruct Ho as (Hb & Htb). intros [= <- <- <-]. unfold isize_add. rewrite isize_small by lia. split.
    + unfold core. cbn [logical_bottom claimed owner_ok plog tlog set_bottom top bottom buffer].
      core_split.
      change (live (set_bottom (b + 1) d)) with (live d). rewrite Hp. destruct r as [p|]; cbn [app]; [|done].
      by rewrite <-(assoc_L (++)).
    + intros x Hx. destruct x; cbn [thief_ok logical_bottom set_bottom top bottom] in *; done.
Qed.
Lemma owner_step n d st ps ts : n < 2 ^ 62 -> core n d st ps ts -> step_keeps n d st ps ts.
Proof.
  intros Hn Hc. pose proof (push_step n d st ps ts Hn Hc). pose proof (pop_reserve_step n d st ps ts Hn Hc).
  pose proof (pop_take_step n d st ps ts Hn Hc). destruct Hc as (_ & _ & _ & _ & Ho & _).
  destruct st; cbn in Ho; done.
Qed.

(** *** Steps of a stealer *)
Lemma thief_step n d ost ps ts st d' st' r : n < 2 ^ 62 -> core n d ost ps ts -> thief_ok (logical_bottom ost d) d st ->
  advance st d = (d', st', r) ->
  core n d' ost (plog r ps) (tlog r ts) /\ logical_bottom ost d' = logical_bottom ost d /\
  thief_ok (logical_bottom ost d) d' st' /\
  forall x, thief_ok (logical_bottom ost d) d x -> thief_ok (logical_bottom ost d) d' x.
Proof.
  intros Hn Hcore Hst. pose proof Hcore as (Ht & Hl & Hcap & Hlen & Ho & Hp).
  destruct st; cbn [thief_ok] in Hst; try done; cbn [advance].
  - by intros [= <- <- <-].
  - destruct (Z.ltb_spec t (bottom d)) as [Hb|Hb]; intros [= <- <- <-];
      (split; [done|split; [done|split; [|done]]]); [|done].
    cbn [thief_ok]. split; [lia|]. intros ->.
    destruct ost; cbn [logical_bottom owner_ok] in *; try done; try lia; repeat case_match; simplify_bool; lia.
  - intros [= <- <- <-]. split; [done|split; [done|split; [|done]]]. cbn [thief_ok].
    split; [apply Hst|]. intros E. split; [by apply Hst|done].
  - destruct Hst as [Hst Hv]. destruct (Z.eqb_spec (top d) t) as [<-|Hne]; intros [= <- <- <-]; [|by split_and!].
    destruct (Hv eq_refl) as [Hlt ->]. unfold isize_add. rewrite isize_small by lia.
    assert (logical_bottom ost (set_top (top d + 1) d) = logical_bottom ost d) as El by (by destruct ost).
    split_and!; [|done|done|].
    + unfold core. cbv zeta. rewrite El. cbn [top set_top buffer plog tlog]. split_and!; try lia; [|].
      * destruct ost; cbn [owner_ok logical_bottom set_top top bottom] in *; try done; intuition (lia || done).
      * rewrite Hp, (live_cons d) by done. change (claimed ost (set_top _ d)) with (claimed ost d).
        rewrite <-(assoc_L (++)). f_equiv. cbn [app]. by rewrite Permutation_middle.
    + intros x Hx. destruct x; cbn [thief_ok top set_top] in *; try done; intuition lia.
Qed.

(** ** Runs: one owner, any number of stealers *)
Definition disciplined (owner : Z) (e : event) : Prop :=
  match e with Begin tid Steal => tid <> owner | Begin tid _ => tid = owner | Run _ => True end.

Lemma log_fields r d ths ps ts : log r (mkSys d ths ps ts) = mkSys d ths (plog r ps) (tlog r ts).
Proof. by destruct r as [| | |[]|[]]. Qed.
Lemma state_of_insert tid st x d ths ps ts :
  state_of x (mkSys d (<[tid := st]> ths) ps ts) = if decide (tid = x) then st else default Idle (ths !! x).
Proof.
  unfold state_of; cbn [threads]. destruct (decide (tid = x)) as [->|Hne];
    [by rewrite lookup_insert_eq|by rewrite lookup_insert_ne].
Qed.
Lemma begin_owner n d c ps ts : n < 2 ^ 62 -> c <> Steal -> core n d Idle ps ts ->
  core n d (begin c d) ps ts /\ logical_bottom (begin c d) d = bottom d.
Proof.
  intros Hn Hc (H1 & H2 & H3 & H4 & H5 & H6). cbn [logical_bottom claimed] in *.
  destruct c; [..|done]; unfold core, begin, isize_sub; cbn [logical_bottom claimed owner_ok];
    rewrite ?isize_small, ?Z.sub_add by lia; (split; [core_split|done]).
Qed.
Lemma begin_ok owner n s tid c : n < 2 ^ 62 -> disciplined owner (Begin tid c) -> inv owner n s -> state_of tid s = Idle ->
  inv owner n (mkSys (dq s) (<[tid := begin c (dq s)]> (threads s)) (pushed s) (taken s)).
Proof.
  intros Hn Hd [Hc Hth] Hid. unfold inv. rewrite state_of_insert. cbn [dq pushed taken].
  destruct (decide (tid = owner)) as [->|Hne].
  - rewrite Hid in Hc, Hth. destruct (begin_owner n (dq s) c _ _ Hn ltac:(by destruct c) Hc) as [Hc' ->].
    split; [done|]. intros x Hx. rewrite state_of_insert, decide_False by congruence. by apply Hth.
  - split; [done|]. intros x Hx. rewrite state_of_insert. destruct (decide (tid = x)) as [->|]; [|by apply Hth].
    destruct c; cbn [disciplined begin thief_ok] in *; try done. destruct Hc as (H1 & _). lia.
Qed.
Lemma run_step_ok owner n s tid : n < 2 ^ 62 -> inv owner n s -> inv owner (n + 1) (exec (Run tid) s).
Proof.
  intros Hn [Hc Hth]. cbn [exec]. destruct (advance (state_of tid s) (dq s)) as [[d st] r] eqn:Ea.
  rewrite log_fields. unfold inv. rewrite state_of_insert. cbn [dq pushed taken].
  destruct (decide (tid = owner)) as [->|Hne].
  - destruct (owner_step _ _ _ _ _ Hn Hc _ _ _ Ea) as [Hc' Hk]. split; [done|].
    intros x Hx. rewrite state_of_insert, decide_False by congruence. by apply Hk, Hth.
  - destruct (thief_step _ _ _ _ _ _ _ _ _ Hn Hc (Hth tid Hne) Ea) as (Hc' & El & Hst & Hk).
    fold (state_of owner s). rewrite El. split; [by apply core_mono|].
    intros x Hx. rewrite state_of_insert. destruct (decide _); [done|]. by apply Hk, Hth.
Qed.
Lemma exec_ok owner n s e : n < 2 ^ 62 -> disciplined owner e -> inv owner n s -> inv owner (n + 1) (exec e s).
Proof.
  intros Hn Hd Hi. destruct e as [tid c|tid]; [|by apply run_step_ok].
  assert (forall s', inv owner n s' -> inv owner (n + 1) s') as Hm by (intros s' [? ?]; split; [by apply core_mono|done]).
  cbn [exec]. destruct (state_of tid s) eqn:E; try by apply Hm. apply Hm. by apply begin_ok.
Qed.
Lemma deque_run_ok owner es n s : Forall (disciplined owner) es -> n + Z.of_nat (length es) < 2 ^ 62 -> inv owner n s ->
  inv owner (n + Z.of_nat (length es)) (run es s).
Proof.
  revert n s. induction es as [|e es IH]; intros n s Hf Hn Hi; [by rewrite Z.add_0_r|].
  apply Forall_cons in Hf as [He Hf]. cbn [length run foldl] in *. rewrite Nat2Z.inj_succ in *.
  replace (n + Z.succ (Z.of_nat (length es))) with (n + 1 + Z.of_nat (length es)) by lia.
  apply IH; [done|lia|]. apply exec_ok; [lia|done|done].
Qed.
Lemma start_ok owner : inv owner 0 start.
Proof. split; [split_and!; done|done]. Qed.

(** C8: The deque is linear in its tasks under every interleaving of its owner
    and any number of stealers: the tasks handed out by [pop] and [steal] are
    pushed tasks, each handed out at most once; never more than 4096 are
    buffered; and when no call is in progress the tasks pushed are exactly
    those handed out and those in the buffer, so none is lost. *)
Theorem deque_linear owner es : Forall (disciplined owner) es -> Z.of_nat (length es) < 2 ^ 62 ->
  let s := run es start in
  (exists rest, pushed s ≡ₚ taken s ++ rest) /\
  ((forall tid, state_of tid s = Idle) ->
     pushed s ≡ₚ taken s ++ contents (dq s) /\ 0 <= bottom (dq s) - top (dq s) <= DEQUE_SIZE).
Proof.
  intros Hf Hn s. pose proof (deque_run_ok owner es 0 start Hf Hn (start_ok owner)) as [(H1 & H2 & H3 & H4 & H5 & H6) _].
  fold s in H1, H2, H3, H4, H5, H6. split; [eauto|]. intros Hid. rewrite Hid in *. cbn in H1, H3, H6. split; [done|lia].
Qed.
Lemma deque_linear_witness :
  let s := run [Begin 0 (Push 11); Run 0; Run 0; Run 0; Begin 1 Steal; Run 1; Begin 0 Pop; Run 0; Run 1; Run 0; Run 0; Run 1; Run 0; Run 0] start in
  taken s = [11] /\ exists rest, pushed s ≡ₚ taken s ++ rest.
Proof.
  intros s. split; [by vm_compute|]. apply (deque_linear 0); [|reflexivity]. repeat constructor; done.
Defined.

(** ** A call without interference *)
Fixpoint finish (fuel : nat) (st : tstate) (d : Inner) : Inner * ret :=
  match fuel with
  | O => (d, Continue)
  | S fuel => let '(d, st, r) := advance st d in match r with Continue => finish fuel st d | _ => (d, r) end
  end.
(** At most six accesses after the first one. *)
Definition alone (c : call) (d : Inner) : Inner * ret := finish 6 (begin c d) d.
Definition quiet (d : Inner) : Prop :=
  length (buffer d) = 4096%nat /\ 0 <= top d <= bottom d /\ bottom d < 2 ^ 62 - 1 /\ bottom d - top d <= DEQUE_SIZE.

Lemma contents_live d : contents d = live d (bottom d).
Proof. done. Qed.
Lemma deque_contents_nil d : quiet d -> contents d = [] <-> top d = bottom d.
Proof.
  intros (_ & H & _). rewrite contents_live. unfold live. split.
  - intros E. apply (f_equal length) in E. rewrite length_fmap, length_seq in E. cbn in E. lia.
  - intros ->. by rewrite Z.sub_diag.
Qed.
Lemma alone_push d x : quiet d ->
  alone (Push x) d =
    if bottom d - top d <? DEQUE_SIZE then (set_bottom (bottom d + 1) (store_slot (bottom d) x d), Pushed x)
    else (d, Refused x).
Proof.
  intros (Hl & Ht & Hb & Hc). unfold alone. cbn [begin finish advance].
  rewrite (push_refusal (bottom d)) by (done || lia).
  destruct (Z.leb_spec DEQUE_SIZE (bottom d - top d)).
  - by rewrite (proj2 (Z.ltb_ge _ _)) by lia.
  - rewrite (proj2 (Z.ltb_lt _ _)) by lia. cbn [finish advance]. unfold isize_add. by rewrite isize_small by lia.
Qed.
Lemma alone_pop d : quiet d ->
  alone Pop d = if top d =? bottom d then (set_bottom (bottom d) d, Popped None)
    else if top d =? bottom d - 1 then (set_bottom (bottom d) (set_top (bottom d) d), Popped (Some (load_slot (bottom d - 1) d)))
    else (set_bottom (bottom d - 1) d, Popped (Some (load_slot (bottom d - 1) d))).
Proof.
  intros (Hl & Ht & Hb & Hc). unfold alone, begin, isize_sub. rewrite isize_small by lia.
  destruct (Z.eqb_spec (top d) (bottom d)) as [E|E].
  - cbn [finish advance set_bottom top]. rewrite (proj2 (Z.leb_gt _ _)) by lia. cbn [finish advance].
    unfold isize_add. rewrite isize_small, Z.sub_add by lia. done.
  - cbn [finish advance set_bottom top]. rewrite (proj2 (Z.leb_le _ _)) by lia. cbn [finish advance].
    destruct (Z.eqb_spec (top d) (bottom d - 1)) as [E'|E']; cbn [finish advance]; [|done].
    cbn [top]. rewrite Z.eqb_refl. unfold isize_add. cbn [finish advance]. unfold isize_add.
    rewrite !isize_small by lia. rewrite E', Z.sub_add. done.
Qed.
Lemma alone_steal d : quiet d ->
  alone Steal d = if top d =? bottom d then (d, Stole None) else (set_top (top d + 1) d, Stole (Some (load_slot (top d) d))).
Proof.
  intros (Hl & Ht & Hb & Hc). unfold alone. cbn [begin finish advance].
  destruct (Z.eqb_spec (top d) (bottom d)) as [E|E].
  - by rewrite (proj2 (Z.ltb_ge _ _)) by lia.
  - rewrite (proj2 (Z.ltb_lt _ _)) by lia. cbn [finish advance]. rewrite Z.eqb_refl.
    unfold isize_add. by rewrite isize_small by lia.
Qed.

(** Without interference the deque is a bounded list: [push] appends at the
    end unless 4096 tasks are buffered, in which case the task is handed back
    and nothing changes; [pop] takes the last task, [steal] the first one, and
    both report [None] exactly on the empty deque. *)
Theorem deque_sequential d x : quiet d ->
  (let '(d', r) := alone (Push x) d in
   if (length (contents d) <? 4096)%nat then r = Pushed x /\ contents d' = contents d ++ [x]
   else r = Refused x /\ d' = d) /\
  (let '(d', r) := alone Pop d in r = Popped (last (contents d)) /\ contents d' = removelast (contents d)) /\
  (let '(d', r) := alone Steal d in r = Stole (head (contents d)) /\ contents d' = tail (contents d)).
Proof.
  intros Hq. pose proof Hq as (Hl & Ht & Hb & Hc). rewrite alone_push, alone_pop, alone_steal by done.
  assert (length (contents d) = Z.to_nat (bottom d - top d)) as Hlen by (unfold contents; by rewrite length_fmap, length_seq).
  split; [|split].
  - rewrite Hlen. unfold DEQUE_SIZE in *. destruct (Z.ltb_spec (bottom d - top d) 4096).
    + rewrite (proj2 (Nat.ltb_lt _ _)) by lia. split; [done|]. rewrite !contents_live. cbn [bottom set_bottom].
      change (live (set_bottom ?b ?e)) with (live e). rewrite live_snoc by (cbn; lia).
      rewrite load_store_eq by (done || unfold small; lia). by rewrite live_store by (unfold small; lia).
    + rewrite (proj2 (Nat.ltb_ge _ _)) by lia. done.
  - destruct (Z.eqb_spec (top d) (bottom d)) as [E|E].
    + assert (contents d = []) as Hn by (by apply deque_contents_nil). rewrite Hn. split; [done|exact Hn].
    + assert (contents d = live d (bottom d - 1) ++ [load_slot (bottom d - 1) d]) as Hs.
      { rewrite contents_live, <-live_snoc by lia. by rewrite Z.sub_add. }
      rewrite Hs, last_snoc, removelast_last. destruct (Z.eqb_spec (top d) (bottom d - 1)) as [E'|E'];
        (split; [done|]); [|done].
      rewrite <-E', live_nil. unfold contents; cbn. by rewrite Z.sub_diag.
  - destruct (Z.eqb_spec (top d) (bottom d)) as [E|E].
    + assert (contents d = []) as -> by (by apply deque_contents_nil). done.
    + rewrite contents_live, live_cons by lia. done.
Qed.
Lemma deque_sequential_witness :
  (alone (Push 7) inner_new).2 = Pushed 7 /\
  (let '(d', r) := alone Pop inner_new in r = Popped (last (contents inner_new)) /\ contents d' = removelast (contents inner_new)).
Proof.
  assert (quiet inner_new) as Hq by (unfold quiet, inner_new, DEQUE_SIZE; cbn [buffer top bottom]; split_and!; [by rewrite length_replicate|lia..]).
  pose proof (deque_sequential inner_new 7 Hq) as (H1 & H2 & _). split; [by vm_compute|exact H2].
Defined.

Definition ev_thread (e : event) : Z := match e with Begin tid _ | Run tid => tid end.
Lemma run_other tid es s : Forall (fun e => ev_thread e <> tid) es -> state_of tid (run es s) = state_of tid s.
Proof.
  revert s. induction es as [|e es IH]; intros s Hf; [done|]. apply Forall_cons in Hf as [He Hf].
  cbn [run foldl]. etrans; [exact (IH _ Hf)|]. destruct e as [x c|x]; cbn [exec ev_thread] in *.
  - destruct (state_of x s); try done. by rewrite state_of_insert, decide_False.
  - destruct (advance _ _) as [[d st] r]. by rewrite log_fields, state_of_insert, decide_False.
Qed.

(** Only the owner may push. [enqueue_boxed_task] pushes a task woken on one
    CPU onto the deque of another; if that CPU pushes at the same time, both
    write the same slot and publish the same [bottom]: two tasks are accepted,
    one of them is gone. *)
Theorem deque_foreign_push_loses_task :
  let s := run [Begin 0 (Push 11); Begin 1 (Push 22); Run 0; Run 1; Run 0; Run 1; Run 0; Run 1] start in
  (forall tid, state_of tid s = Idle) /\ pushed s = [11; 22] /\ contents (dq s) = [22].
Proof.
  split_and!; [|by vm_compute..]. intros tid.
  destruct (decide (tid = 0)) as [->|H0]; [by vm_compute|].
  destruct (decide (tid = 1)) as [->|H1]; [by vm_compute|].
  apply run_other. repeat constructor; done.
Qed.

End Deque.
