(* ===== verification/Scheduler.v ===== *)
(** * Task placement and work stealing

    Models the run-queue side of [src/src/task/scheduler.rs]: where a new or
    woken task goes ([choose_spawn_cpu], [enqueue_boxed_task], the per-node
    cache and the bitmap of stealable CPUs), which CPU an idle CPU steals from
    ([choose_victim_cpu]), how a task is taken out of a queue by its number,
    and the time-slice and virtual-runtime arithmetic.

    A run queue is the list of its tasks, oldest first (module [Deque] shows
    that the deque behaves as such a list).  The topology of [cpu_slots] and
    the memory-pressure snapshot are arguments. *)
From S2P Require Import Prelude Timer.

Module Scheduler.

Definition DEQUE_SIZE : nat := Z.to_nat 4096.
Definition MAX_NUMA_NODES : Z := 256.
Definition NUMA_LOAD_PENALTY : Z := 4.
Definition MASK_WORDS : Z := 4.
Definition NICE_0_LOAD : Z := 1024.
Definition SCHED_LATENCY_TICKS : Z := 20.
Definition MIN_GRANULARITY_TICKS : Z := 4.

Record Task := mkTask { id : Z; affinity : Z; weight : Z; vruntime : Z; state : Timer.TaskState }.

(** What [cpu_slots] publishes. *)
Record topology := mkTopo { numa_node : Z -> Z; is_online : Z -> bool }.

(** The load of each CPU slot ([cpu_slots]), the load and task count in the
    per-CPU data of [SMP_STATE], and whether another CPU holds its lock. *)
Record cpu_loads := mkLoads { slot_load : list Z; per_cpu_data : list (Z * Z); smp_state_locked : bool }.

Record sched := mkSched {
  cpu_count : Z;
  numa_best_load : list Z;
  numa_best_cpu : list Z;
  stealable_mask : list Z;
  workers : list (option (list Task));
  overflow : list Task;
  published : cpu_loads
}.
(** [SmpScheduler::new] with the run queues of [init]. *)
Definition new (n : nat) : sched :=
  mkSched (Z.of_nat n) (replicate 256 u32_max) (replicate 256 u32_max) (replicate 4 0) (replicate n (Some [])) []
    (mkLoads (replicate 256 0) (replicate n (0, 0)) false).
Definition set_workers (ws : list (option (list Task))) (ov : list Task) (s : sched) : sched :=
  mkSched (cpu_count s) (numa_best_load s) (numa_best_cpu s) (stealable_mask s) ws ov (published s).
Definition set_best (loads cpus : list Z) (s : sched) : sched :=
  mkSched (cpu_count s) loads cpus (stealable_mask s) (workers s) (overflow s) (published s).
Definition set_mask (m : list Z) (s : sched) : sched :=
  mkSched (cpu_count s) (numa_best_load s) (numa_best_cpu s) m (workers s) (overflow s) (published s).
Definition set_published (l : cpu_loads) (s : sched) : sched :=
  mkSched (cpu_count s) (numa_best_load s) (numa_best_cpu s) (stealable_mask s) (workers s) (overflow s) l.

(** [WORKERS.get(cpu).and_then(|w| w.as_ref())] *)
Definition worker (cpu : Z) (s : sched) : option (list Task) :=
  if (0 <=? cpu) && (cpu <? Z.of_nat (length (workers s))) then mjoin (workers s !! Z.to_nat cpu) else None.
Definition has_worker (cpu : Z) (s : sched) : bool := match worker cpu s with Some _ => true | None => false end.
Definition set_worker (cpu : Z) (q : list Task) (s : sched) : sched :=
  set_workers (<[Z.to_nat cpu := Some q]> (workers s)) (overflow s) s.
Definition cpu_limit (s : sched) : Z := Z.max (cpu_count s) 1.

Definition task_can_run_on_cpu (t : Task) (cpu : Z) : bool :=
  (affinity t =? 0xFFFFFFFF) || (if cpu <? 32 then negb (Z.land (affinity t) (Z.shiftl 1 cpu) =? 0) else false).
Definition queued_task_count (cpu : Z) (s : sched) : Z :=
  match worker cpu s with Some q => as_u32 (Z.of_nat (length q)) | None => 0 end.

Definition nth_u32 (l : list Z) (i : Z) : Z := default 0 (l !! Z.to_nat i).
Definition update_numa_best_cpu (tp : topology) (cpu load : Z) (s : sched) : sched :=
  let node := numa_node tp cpu in
  if MAX_NUMA_NODES <=? node then s
  else
    let cur_load := nth_u32 (numa_best_load s) node in
    if load <? cur_load then
      set_best (<[Z.to_nat node := load]> (numa_best_load s)) (<[Z.to_nat node := cpu]> (numa_best_cpu s)) s
    else if (nth_u32 (numa_best_cpu s) node =? cpu) && negb (load =? cur_load) then
      set_best (<[Z.to_nat node := u32_max]> (numa_best_load s)) (numa_best_cpu s) s
    else s.
Definition set_stealable_bit (cpu : Z) (stealable : bool) (s : sched) : sched :=
  let w := cpu / 64 in
  let bit := Z.shiftl 1 (Z.land cpu 63) in
  if w <? MASK_WORDS then
    set_mask (alter (fun m => if stealable then Z.lor m bit else Z.ldiff m bit) (Z.to_nat w) (stealable_mask s)) s
  else s.
(** [cpu::smp::update_cpu_load]: the slot always, the per-CPU data when the lock is free. *)
Definition update_cpu_load (cpu load : Z) (l : cpu_loads) : cpu_loads :=
  mkLoads (<[Z.to_nat cpu := load]> (slot_load l))
    (if smp_state_locked l then per_cpu_data l else <[Z.to_nat cpu := (load, load)]> (per_cpu_data l))
    (smp_state_locked l).
Definition publish_worker_load (tp : topology) (cpu : Z) (s : sched) : sched :=
  let load := queued_task_count cpu s in
  let s := set_published (update_cpu_load cpu load (published s)) s in
  set_stealable_bit cpu (0 <? load) (update_numa_best_cpu tp cpu load s).

(** A CPU the task may be put on. *)
Definition eligible (tp : topology) (t : Task) (cpu : Z) (s : sched) : bool :=
  is_online tp cpu && task_can_run_on_cpu t cpu && has_worker cpu s.
Definition eff_load (local : bool) (load : Z) : Z := if local then load else u32_add load NUMA_LOAD_PENALTY.

(** The cold path of [choose_spawn_cpu]: one iteration over [cpu]. *)
Definition scan_cpu (tp : topology) (t : Task) (cur : Z) (s : sched) (best : Z * Z * bool) (cpu : Z) : Z * Z * bool :=
  if negb (eligible tp t cpu s) then best
  else
    let '(best_cpu, best_load, best_is_local) := best in
    let load := queued_task_count cpu s in
    let is_local := numa_node tp cpu =? numa_node tp cur in
    let e := eff_load is_local load in
    let b := eff_load best_is_local best_load in
    if (e <? b) || ((e =? b) && (cpu =? cur)) then (cpu, load, is_local) else best.
Definition cold_path (tp : topology) (t : Task) (cur : Z) (s : sched) : Z * Z * bool :=
  let b := Z.min cur (sat_sub (cpu_limit s) 1) in
  foldl (scan_cpu tp t cur s) (b, queued_task_count b s, numa_node tp b =? numa_node tp cur)
    (Z.of_nat <$> seq 0 (Z.to_nat (cpu_limit s))).
(** The fast path: the cached CPU of the caller's node. *)
Definition cached_cpu (tp : topology) (t : Task) (cur : Z) (s : sched) : option Z :=
  let node := numa_node tp cur in
  if node <? MAX_NUMA_NODES then
    let c := nth_u32 (numa_best_cpu s) node in
    if (c <? cpu_limit s) && is_online tp c && task_can_run_on_cpu t c && has_worker c s
       && (queued_task_count c s =? nth_u32 (numa_best_load s) node)
    then Some c else None
  else None.
Definition choose_spawn_cpu (tp : topology) (t : Task) (cur : Z) (s : sched) : sched * Z :=
  match cached_cpu tp t cur s with
  | Some c => (s, c)
  | None =>
      let '(best_cpu, best_load, _) := cold_path tp t cur s in
      let node := numa_node tp best_cpu in
      (if node <? MAX_NUMA_NODES then
         set_best (<[Z.to_nat node := best_load]> (numa_best_load s)) (<[Z.to_nat node := best_cpu]> (numa_best_cpu s)) s
       else s, best_cpu)
  end.

(** [worker.push(task)], with the overflow queue when the deque is full. *)
Definition push_or_overflow (cpu : Z) (q : list Task) (t : Task) (s : sched) : sched :=
  if (length q <? DEQUE_SIZE)%nat then set_worker cpu (q ++ [t]) s
  else set_workers (workers s) (overflow s ++ [t]) s.
Definition enqueue_boxed_task (target : Z) (t : Task) (s : sched) : sched * option Z :=
  match worker target s with
  | Some q => (push_or_overflow target q t s, Some target)
  | None => match worker 0 s with
            | Some q => (push_or_overflow 0 q t s, Some 0)
            | None => (s, None)
            end
  end.
Definition spawn_boxed (tp : topology) (cur : Z) (t : Task) (s : sched) : sched :=
  let '(s, target) := choose_spawn_cpu tp t cur s in
  match enqueue_boxed_task target t s with
  | (s, Some actual) => publish_worker_load tp actual s
  | (s, None) => s
  end.

(** ** Stealing *)
Inductive SchedulerPressureClass := Normal | Elevated | Critical.
Definition pressure_class (some_avg10 full_avg10 : Z) : SchedulerPressureClass :=
  if (350 <=? full_avg10) || (700 <=? some_avg10) then Critical
  else if (150 <=? full_avg10) || (400 <=? some_avg10) then Elevated else Normal.

(** [bits.trailing_zeros()], [bits &= bits - 1]: the set bits in ascending order. *)
Definition bits_of (m : Z) : list Z := filter (fun i => Z.testbit m i = true) (Z.of_nat <$> seq 0 64).
Fixpoint scan_victims (tp : topology) (skip_single : bool) (victims : list Z) (s : sched) : sched * option Z :=
  match victims with
  | [] => (s, None)
  | v :: rest =>
      if (cpu_limit s <=? v) || negb (is_online tp v) then scan_victims tp skip_single rest s
      else
        let load := queued_task_count v s in
        if load =? 0 then scan_victims tp skip_single rest (set_stealable_bit v false s)
        else if skip_single && (load <? 2) then scan_victims tp skip_single rest s
        else (s, Some v)
  end.
(** One pass over the words of the bitmap; [None]: [stealable_mask[w]] is out of
    bounds, which panics. *)
Fixpoint scan_words (tp : topology) (skip_single : bool) (select : Z -> Z -> Z) (ws : list Z) (s : sched)
  : option (sched * option Z) :=
  match ws with
  | [] => Some (s, None)
  | w :: ws' =>
      match stealable_mask s !! Z.to_nat w with
      | None => None
      | Some word =>
          match scan_victims tp skip_single ((fun b => w * 64 + b) <$> bits_of (select w word)) s with
          | (s, Some v) => Some (s, Some v)
          | (s, None) => scan_words tp skip_single select ws' s
          end
      end
  end.
Definition without_self (cpu w word : Z) : Z :=
  if w =? cpu / 64 then Z.ldiff word (Z.shiftl 1 (Z.land cpu 63)) else word.
Definition choose_victim_cpu (tp : topology) (node_masks : Z -> Z -> Z) (some_avg10 full_avg10 cpu : Z) (s : sched)
  : option (sched * option Z) :=
  let node := numa_node tp cpu in
  let critical := match pressure_class some_avg10 full_avg10 with Critical => true | _ => false end in
  let skip := critical && (350 <=? full_avg10) in
  let ws := Z.of_nat <$> seq 0 (Z.to_nat ((cpu_limit s + 63) / 64)) in
  let local w word := without_self cpu w (Z.land word (if node <? MAX_NUMA_NODES then node_masks node w else 0)) in
  match scan_words tp skip local ws s with
  | None => None
  | Some (s, Some v) => Some (s, Some v)
  | Some (s, None) => scan_words tp skip (without_self cpu) ws s
  end.

(** ** Taking a given task out of a queue *)
Definition ready (t : Task) : bool := match state t with Timer.Ready => true | _ => false end.
(** [while let Some(task) = deferred.pop() { worker.push(task) }] *)
Fixpoint restore_loop (deferred : list Task) (q ov : list Task) : list Task * list Task :=
  match deferred with
  | [] => (q, ov)
  | t :: rest => if (length q <? DEQUE_SIZE)%nat then restore_loop rest (q ++ [t]) ov else restore_loop rest q (ov ++ [t])
  end.
Definition restore_worker_tasks (cpu : Z) (deferred : list Task) (s : sched) : sched :=
  match worker cpu s with
  | Some q => let '(q, ov) := restore_loop (rev deferred) q (overflow s) in
              set_workers (<[Z.to_nat cpu := Some q]> (workers s)) ov s
  | None => s
  end.
(** The scan: [take q] removes the next task ([pop] or [steal]). *)
Fixpoint scan_for (budget : nat) (tid : Z) (take : list Task -> option (Task * list Task)) (q deferred : list Task)
  : list Task * list Task * option Task :=
  match budget with
  | O => (q, deferred, None)
  | S budget =>
      match take q with
      | None => (q, deferred, None)
      | Some (t, q) =>
          if (id t =? tid) && ready t then (q, deferred, Some t)
          else scan_for budget tid take q (deferred ++ [t])
      end
  end.
Definition pop_last (q : list Task) : option (Task * list Task) :=
  match last q with Some t => Some (t, removelast q) | None => None end.
Definition steal_first (q : list Task) : option (Task * list Task) :=
  match q with t :: q' => Some (t, q') | [] => None end.
Definition take_by_id (take : list Task -> option (Task * list Task)) (cpu tid : Z) (s : sched) : sched * option Task :=
  match worker cpu s with
  | None => (s, None)
  | Some q =>
      let '(q', deferred, found) := scan_for (length q) tid take q [] in
      (restore_worker_tasks cpu deferred (set_worker cpu q' s), found)
  end.
Definition take_task_from_worker_by_id : Z -> Z -> sched -> sched * option Task := take_by_id pop_last.
Definition steal_task_from_victim_by_id : Z -> Z -> sched -> sched * option Task := take_by_id steal_first.
Definition steal_from_cpu (cpu : Z) (s : sched) : sched * option Task :=
  match worker cpu s ≫= steal_first with Some (t, q) => (set_worker cpu q s, Some t) | None => (s, None) end.
Definition push_to_cpu (cpu : Z) (t : Task) (s : sched) : sched := (enqueue_boxed_task cpu t s).1.

(** ** Time *)
Definition calc_time_slice (some_avg10 full_avg10 w : Z) : Z :=
  let slice := SCHED_LATENCY_TICKS * w / 1024 in
  let slice := match pressure_class some_avg10 full_avg10 with
    | Normal => slice
    | Elevated => if w <? 1024 then u64_sat_mul slice 3 / 4 else u64_sat_add slice 1
    | Critical => if w <? 1024 then u64_sat_mul slice 1 / 2 else u64_sat_mul slice 5 / 4
    end in
  Z.max slice MIN_GRANULARITY_TICKS.
Definition update_task_vruntime (delta_ticks : Z) (t : Task) : Task :=
  let w := Z.max (weight t) 1 in
  mkTask (id t) (affinity t) (weight t) (u64_sat_add (vruntime t) (u64_sat_mul delta_ticks NICE_0_LOAD / w)) (state t).

(** ** Placement *)
Definition eff (tp : topology) (cur : Z) (s : sched) (cpu : Z) : Z :=
  eff_load (numa_node tp cpu =? numa_node tp cur) (queued_task_count cpu s).
Definition entry (tp : topology) (cur : Z) (s : sched) (c : Z) : Z * Z * bool :=
  (c, queued_task_count c s, numa_node tp c =? numa_node tp cur).

Lemma scan_cpu_spec tp t cur s c cpu : eligible tp t c s = true ->
  exists c', scan_cpu tp t cur s (entry tp cur s c) cpu = entry tp cur s c' /\ eligible tp t c' s = true /\
    eff tp cur s c' <= eff tp cur s c /\ (c' = c \/ c' = cpu) /\ (eligible tp t cpu s = true -> eff tp cur s c' <= eff tp cur s cpu).
Proof.
  intros Hc. unfold scan_cpu. destruct (eligible tp t cpu s) eqn:E; cbn [negb]; [|exists c; split_and!; auto; lia].
  unfold entry at 1. destruct (_ || _) eqn:D.
  - exists cpu. split_and!; [done|done| |by right|lia]. apply orb_true_iff in D as [D|D]; simplify_bool; unfold eff; lia.
  - exists c. simplify_bool. split_and!; [done|done|lia|by left|]. intros _. unfold eff. lia.
Qed.
Lemma cold_fold tp t cur s l c : eligible tp t c s = true ->
  exists c', foldl (scan_cpu tp t cur s) (entry tp cur s c) l = entry tp cur s c' /\ eligible tp t c' s = true /\
    eff tp cur s c' <= eff tp cur s c /\ (c' = c \/ c' ∈ l) /\
    (forall cpu, cpu ∈ l -> eligible tp t cpu s = true -> eff tp cur s c' <= eff tp cur s cpu).
Proof.
  revert c. induction l as [|x l IH]; intros c Hc; cbn [foldl].
  - exists c. split_and!; [done|done|lia|by left|]. intros cpu H. by apply not_elem_of_nil in H.
  - destruct (scan_cpu_spec tp t cur s c x Hc) as (c1 & -> & H1 & H2 & H3 & H4).
    destruct (IH c1 H1) as (c2 & -> & K1 & K2 & K3 & K4). exists c2. split_and!; [done|done|lia| |].
    + destruct K3 as [->|K3]; [|right; by right]. destruct H3 as [->| ->]; [by left|right; by left].
    + intros cpu [->|Hin]%elem_of_cons He; [specialize (H4 He); lia|by apply K4].
Qed.

(** Placement respects affinity and balances. If the spawning CPU itself may
    run the task, the task is placed on a CPU that exists, is online, has a run
    queue and is allowed by the affinity mask; and unless the cached CPU of the
    node is used, no allowed CPU has a smaller effective load (queue length,
    plus 4 across NUMA nodes). *)
Theorem spawn_placement tp t cur s : 0 <= cur < cpu_limit s -> eligible tp t cur s = true ->
  let c := (choose_spawn_cpu tp t cur s).2 in
  c < cpu_limit s /\ eligible tp t c s = true /\
  (cached_cpu tp t cur s = None ->
     forall cpu, 0 <= cpu < cpu_limit s -> eligible tp t cpu s = true -> eff tp cur s c <= eff tp cur s cpu).
Proof.
  intros Hcur Hel. unfold choose_spawn_cpu. destruct (cached_cpu tp t cur s) as [c|] eqn:Ec; cbn [snd].
  - unfold cached_cpu in Ec. repeat case_match; simplify_eq. simplify_bool. split_and!; [done| |done].
    unfold eligible. by rewrite !andb_true_iff.
  - assert (cold_path tp t cur s = foldl (scan_cpu tp t cur s) (entry tp cur s cur) (Z.of_nat <$> seq 0 (Z.to_nat (cpu_limit s)))) as ->
      by (unfold cold_path, sat_sub; rewrite Z.min_l by lia; done).
    destruct (cold_fold tp t cur s (Z.of_nat <$> seq 0 (Z.to_nat (cpu_limit s))) cur Hel) as (c & -> & H1 & _ & H3 & H4).
    cbn [snd entry]. split_and!; [|done|].
    + destruct H3 as [->|H3]; [lia|]. apply list_elem_of_fmap in H3 as (k & -> & Hk). apply elem_of_seq in Hk. lia.
    + intros _ cpu Hcpu He. apply H4; [|done]. apply list_elem_of_fmap. exists (Z.to_nat cpu). split; [lia|]. apply elem_of_seq. lia.
Qed.
Definition two_cpus : topology := mkTopo (fun _ => 0) (fun c => (0 <=? c) && (c <? 2)).
Definition any_task : Task := mkTask 1 0xFFFFFFFF 1024 0 Timer.Ready.
Lemma spawn_placement_witness :
  let c := (choose_spawn_cpu two_cpus any_task 0 (new 2)).2 in
  c < 2 /\ eligible two_cpus any_task c (new 2) = true.
Proof.
  destruct (spawn_placement two_cpus any_task 0 (new 2)) as (H1 & H2 & _); [vm_compute; split; congruence|reflexivity|].
  split; [exact H1|exact H2].
Defined.

(** Affinity is not respected when the spawning CPU is excluded by it. The
    scan starts from the spawning CPU without testing it, so a task bound to a
    busier CPU 1 is queued on CPU 0. *)
Theorem spawn_ignores_affinity :
  let t := mkTask 7 2 1024 0 Timer.Ready in
  let s := set_worker 1 [any_task] (new 2) in
  let s' := spawn_boxed two_cpus 0 t s in
  task_can_run_on_cpu t 0 = false /\ eligible two_cpus t 1 s = true /\ worker 0 s' = Some [t].
Proof. by vm_compute. Qed.

(** ** Conservation of tasks *)
Definition all_tasks (s : sched) : list Task := concat (default [] <$> workers s) ++ overflow s.
Definition queues_ok (s : sched) : Prop := Forall (fun o => (length (default [] o : list Task) <= DEQUE_SIZE)%nat) (workers s).

Lemma worker_lookup cpu s q : worker cpu s = Some q -> 0 <= cpu /\ workers s !! Z.to_nat cpu = Some (Some q).
Proof.
  unfold worker. destruct (_ && _) eqn:E; [|done]. simplify_bool. destruct (workers s !! _) as [[q'|]|]; intros; by simplify_eq/=.
Qed.
Lemma concat_set (ws : list (option (list Task))) i q q' x : ws !! i = Some (Some q) -> q' ≡ₚ x ++ q ->
  concat (default [] <$> <[i := Some q']> ws) ≡ₚ x ++ concat (default [] <$> ws).
Proof.
  revert i. induction ws as [|w ws IH]; intros [|i] Hi Hq; simplify_eq/=; [by rewrite Hq, (assoc_L (++))|].
  rewrite (IH i Hi Hq). by rewrite !(assoc_L (++)), (Permutation_app_comm x).
Qed.
Lemma push_conserves cpu q t s : worker cpu s = Some q -> queues_ok s ->
  all_tasks (push_or_overflow cpu q t s) ≡ₚ t :: all_tasks s /\ queues_ok (push_or_overflow cpu q t s).
Proof.
  intros [_ Hw]%worker_lookup Hok. unfold push_or_overflow, all_tasks. destruct (_ <? _)%nat eqn:E.
  - apply Nat.ltb_lt in E. split; cbn [workers overflow set_worker set_workers].
    + rewrite (concat_set _ _ q _ [t] Hw) by (by rewrite Permutation_app_comm). done.
    + unfold queues_ok; cbn [workers set_worker set_workers]. apply Forall_insert; [done|]. cbn. rewrite length_app; cbn. lia.
  - split; [|done]. cbn [workers overflow set_workers]. rewrite (assoc_L (++)). by rewrite Permutation_app_comm.
Qed.
Lemma publish_tasks tp cpu s : workers (publish_worker_load tp cpu s) = workers s /\ overflow (publish_worker_load tp cpu s) = overflow s.
Proof. unfold publish_worker_load, set_stealable_bit, update_numa_best_cpu. by repeat case_match. Qed.
Lemma choose_tasks tp t cur s : workers (choose_spawn_cpu tp t cur s).1 = workers s /\ overflow (choose_spawn_cpu tp t cur s).1 = overflow s.
Proof. unfold choose_spawn_cpu. by repeat case_match. Qed.
Lemma all_tasks_eq s s' : workers s' = workers s -> overflow s' = overflow s -> all_tasks s' = all_tasks s /\ (queues_ok s' <-> queues_ok s).
Proof. intros H1 H2. unfold all_tasks, queues_ok. by rewrite H1, H2. Qed.

(** No task is lost or run twice by placement: as long as CPU 0 has a run
    queue, spawning a task from any CPU adds exactly that task, once, to the
    run queues and the overflow queue, and no run queue exceeds 4096 tasks. *)
Theorem spawn_conserves tp cur t s q0 : worker 0 s = Some q0 -> queues_ok s ->
  all_tasks (spawn_boxed tp cur t s) ≡ₚ t :: all_tasks s /\ queues_ok (spawn_boxed tp cur t s).
Proof.
  intros H0 Hok. unfold spawn_boxed. destruct (choose_spawn_cpu tp t cur s) as [s1 c] eqn:Ec.
  pose proof (choose_tasks tp t cur s) as [Hw Ho]. rewrite Ec in Hw, Ho. cbn in Hw, Ho.
  destruct (all_tasks_eq s s1 Hw Ho) as [Ea Eq]. rewrite <-Ea. apply Eq in Hok.
  assert (worker 0 s1 = Some q0) as H0' by (unfold worker in *; by rewrite Hw).
  assert (forall cpu q, worker cpu s1 = Some q ->
    all_tasks (publish_worker_load tp cpu (push_or_overflow cpu q t s1)) ≡ₚ t :: all_tasks s1 /\
    queues_ok (publish_worker_load tp cpu (push_or_overflow cpu q t s1))) as Hp.
  { intros cpu q Hq. destruct (publish_tasks tp cpu (push_or_overflow cpu q t s1)) as [P1 P2].
    destruct (all_tasks_eq _ _ P1 P2) as [-> ->]. by apply push_conserves. }
  unfold enqueue_boxed_task. destruct (worker c s1) as [q|] eqn:Eq1; [by apply Hp|]. rewrite H0'. by apply Hp.
Qed.
Lemma spawn_conserves_witness : all_tasks (spawn_boxed two_cpus 0 any_task (new 2)) ≡ₚ any_task :: all_tasks (new 2).
Proof.
  apply (spawn_conserves two_cpus 0 any_task (new 2) []); [reflexivity|].
  unfold queues_ok, new; cbn [workers]. apply Forall_replicate. apply Nat.le_0_l.
Defined.

(** ** Taking a task by its number *)
Definition is_it (tid : Z) (t : Task) : bool := (id t =? tid) && ready t.
Lemma restore_small d : forall q ov, (length q + length d <= DEQUE_SIZE)%nat -> restore_loop d q ov = (q ++ d, ov).
Proof.
  induction d as [|t d IH]; intros q ov H; cbn [restore_loop length] in *; [by rewrite app_nil_r|].
  rewrite (proj2 (Nat.ltb_lt _ _)) by lia. rewrite IH by (rewrite length_app; cbn; lia). by rewrite <-(assoc_L (++)).
Qed.
Lemma scan_pop_skip tid l2 : forall n l1 d, (length l2 <= n)%nat -> Forall (fun t => is_it tid t = false) l2 ->
  scan_for n tid pop_last (l1 ++ l2) d = scan_for (n - length l2) tid pop_last l1 (d ++ rev l2).
Proof.
  induction l2 as [|t l2 IH] using rev_ind; intros n l1 d Hn Hf; [by rewrite !app_nil_r, Nat.sub_0_r|].
  apply Forall_app in Hf as [Hf1 Hf2]. apply Forall_cons in Hf2 as [Ht _]. rewrite length_app in Hn |- *; cbn [length] in *.
  destruct n as [|n]; [lia|]. cbn [scan_for]. unfold pop_last at 1. rewrite (assoc_L (++)), last_snoc, removelast_last.
  unfold is_it in Ht. rewrite Ht. rewrite IH by (done || lia). rewrite rev_app_distr, <-(assoc_L (++)). f_equal. lia.
Qed.
Lemma scan_steal_skip tid l1 : forall n l2 d, (length l1 <= n)%nat -> Forall (fun t => is_it tid t = false) l1 ->
  scan_for n tid steal_first (l1 ++ l2) d = scan_for (n - length l1) tid steal_first l2 (d ++ l1).
Proof.
  induction l1 as [|t l1 IH]; intros n l2 d Hn Hf; [by rewrite app_nil_r, Nat.sub_0_r|].
  apply Forall_cons in Hf as [Ht Hf]. cbn [length] in *. destruct n as [|n]; [lia|].
  cbn [scan_for app steal_first]. unfold is_it in Ht. rewrite Ht. rewrite IH by (done || lia). by rewrite <-(assoc_L (++)).
Qed.
(** Writing back a scanned queue whose parts fit. *)
Lemma restore_after cpu q s q' d : worker cpu s = Some q -> (length q' + length d <= DEQUE_SIZE)%nat ->
  restore_worker_tasks cpu d (set_worker cpu q' s) = set_worker cpu (q' ++ rev d) s.
Proof.
  intros [H0 Hw]%worker_lookup Hl. unfold restore_worker_tasks, worker.
  cbn [workers set_worker set_workers]. pose proof (lookup_lt_Some _ _ _ Hw).
  rewrite length_insert, (proj2 (Z.leb_le _ _)), (proj2 (Z.ltb_lt _ _)) by lia. cbn [andb]. rewrite list_lookup_insert_eq by done. cbn [mjoin option_join].
  rewrite restore_small by (by rewrite length_rev). unfold set_worker, set_workers; cbn [workers overflow cpu_count numa_best_load numa_best_cpu stealable_mask published].
  by rewrite list_insert_insert_eq.
Qed.

(** A task is taken out of a run queue by its number without disturbing the
    others. If the wanted task is ready in the queue, the local scan returns it
    and leaves the rest of the queue in its order; the remote scan returns it
    too and keeps every other task, but moves the tasks it had to step over to
    the other end in reverse order. If no such task is there, the local scan
    leaves the queue exactly as it was. *)
Theorem take_by_id_exact cpu tid t l1 l2 s : is_it tid t = true -> (length (l1 ++ t :: l2) <= DEQUE_SIZE)%nat ->
  worker cpu s = Some (l1 ++ t :: l2) ->
  (Forall (fun x => is_it tid x = false) l2 ->
     take_task_from_worker_by_id cpu tid s = (set_worker cpu (l1 ++ l2) s, Some t)) /\
  (Forall (fun x => is_it tid x = false) l1 ->
     steal_task_from_victim_by_id cpu tid s = (set_worker cpu (l2 ++ rev l1) s, Some t)) /\
  (forall tid', Forall (fun x => is_it tid' x = false) (l1 ++ t :: l2) ->
     take_task_from_worker_by_id cpu tid' s = (s, None)).
Proof.
  intros Ht Hl Hw. pose proof Hw as [H0 Hlk]%worker_lookup. rewrite length_app in Hl; cbn [length] in Hl.
  unfold take_task_from_worker_by_id, steal_task_from_victim_by_id, take_by_id. rewrite Hw. split_and!.
  - intros Hf. rewrite (cons_middle t l1 l2), (assoc_L (++)), scan_pop_skip by (done || rewrite !length_app; cbn; lia).
    rewrite !length_app; cbn [length]. replace (length l1 + 1 + length l2 - length l2)%nat with (S (length l1)) by lia.
    cbn [scan_for]. unfold pop_last at 1. rewrite last_snoc, removelast_last. unfold is_it in Ht. rewrite Ht. cbn [app].
    rewrite (restore_after _ _ _ _ _ Hw) by (rewrite length_rev; lia). by rewrite rev_involutive.
  - intros Hf. rewrite scan_steal_skip by (done || rewrite !length_app; cbn; lia).
    rewrite !length_app; cbn [length]. replace (length l1 + S (length l2) - length l1)%nat with (S (length l2)) by lia.
    cbn [scan_for steal_first]. unfold is_it in Ht. rewrite Ht. cbn [app].
    by rewrite (restore_after _ _ _ _ _ Hw) by lia.
  - intros tid' Hf. rewrite <-(app_nil_l (l1 ++ t :: l2)) at 2. rewrite scan_pop_skip by done.
    rewrite Nat.sub_diag. cbn [scan_for app]. rewrite (restore_after _ _ _ _ _ Hw) by (rewrite length_rev, length_app; cbn; lia).
    rewrite rev_involutive. cbn [app]. f_equal. destruct s. unfold set_worker, set_workers; cbn in *. f_equal. by apply list_insert_id.
Qed.
Lemma take_by_id_exact_witness :
  let a := mkTask 5 0xFFFFFFFF 1024 0 Timer.Ready in
  let b := mkTask 6 0xFFFFFFFF 1024 0 Timer.Ready in
  let s := set_worker 1 [a; any_task; b] (new 2) in
  take_task_from_worker_by_id 1 1 s = (set_worker 1 [a; b] s, Some any_task).
Proof.
  intros a b s. apply (take_by_id_exact 1 1 any_task [a] [b] s);
    [reflexivity|cbn [length app]; unfold DEQUE_SIZE; lia|reflexivity|repeat constructor].
Defined.

(** ** Victims *)
Definition bit_set (v : Z) (s : sched) : bool := Z.testbit (nth_u32 (stealable_mask s) (v / 64)) (v mod 64).
Definition victim_ok (tp : topology) (skip : bool) (s : sched) (v : Z) : Prop :=
  v < cpu_limit s /\ is_online tp v = true /\ queued_task_count v s <> 0 /\ (skip = true -> 2 <= queued_task_count v s).
(** Only bits of CPUs with an empty queue may have been cleared. *)
Definition same_queues (s s' : sched) : Prop :=
  workers s' = workers s /\ overflow s' = overflow s /\ cpu_count s' = cpu_count s /\ length (stealable_mask s') = length (stealable_mask s) /\
  forall v, 0 <= v -> queued_task_count v s <> 0 -> bit_set v s' = bit_set v s.

Lemma queued_eq v s s' : workers s' = workers s -> queued_task_count v s' = queued_task_count v s.
Proof. intros E. unfold queued_task_count, worker. by rewrite E. Qed.
#[export] Instance same_queues_preorder : PreOrder same_queues.
Proof.
  split; [done|]. intros a b c (H1 & H2 & H3 & H4 & H5) (K1 & K2 & K3 & K4 & K5).
  split_and!; [by rewrite K1|by rewrite K2|by rewrite K3|by rewrite K4|].
  intros v Hv Hq. rewrite K5, H5; [done|done|done|done|]. by rewrite (queued_eq _ _ _ H1).
Qed.
Lemma victim_ok_eq tp skip s s' v : same_queues s s' -> victim_ok tp skip s' v <-> victim_ok tp skip s v.
Proof. intros (H1 & _ & H3 & _). unfold victim_ok, cpu_limit. by rewrite (queued_eq _ _ _ H1), H3. Qed.

Lemma clear_bit_spec v s : 0 <= v -> queued_task_count v s = 0 -> same_queues s (set_stealable_bit v false s).
Proof.
  intros Hv Hq. unfold set_stealable_bit. destruct (_ <? _) eqn:E; [|done].
  split_and!; cbn [workers overflow cpu_count stealable_mask set_mask]; [done|done|done|by rewrite length_alter|].
  intros u Hu Hqu. unfold bit_set, nth_u32; cbn [stealable_mask set_mask].
  change 63 with (Z.ones 6). rewrite Z.land_ones by lia. change (2 ^ 6) with 64.
  destruct (decide (u / 64 = v / 64)) as [Ew|Ew].
  - rewrite Ew, list_lookup_alter_eq. destruct (stealable_mask s !! Z.to_nat (v / 64)) as [m|]; [|done]. cbn -[Z.shiftl Z.ldiff Z.testbit Z.modulo].
    rewrite Z.ldiff_spec. assert (u mod 64 <> v mod 64) as Hne.
    { intros Em. apply Hqu. replace u with v; [done|]. rewrite (Z.div_mod u 64), (Z.div_mod v 64), Ew, Em by lia. done. }
    pose proof (Z.mod_pos_bound u 64). rewrite Z.shiftl_spec by lia.
    destruct (Z.testbit 1 (u mod 64 - v mod 64)) eqn:T; [|by rewrite andb_true_r].
    destruct (decide (u mod 64 - v mod 64 < 0)) as [Hn|Hn]; [by rewrite Z.testbit_neg_r in T|].
    change 1 with (2 ^ 0) in T. rewrite Z.pow2_bits_false in T; [done|lia].
  - rewrite list_lookup_alter_ne; [done|]. intros Ez. apply Ew.
    pose proof (Z.div_pos u 64). pose proof (Z.div_pos v 64). lia.
Qed.
Lemma scan_victims_spec tp skip vs s s' r : Forall (fun v => 0 <= v) vs -> scan_victims tp skip vs s = (s', r) ->
  same_queues s s' /\
  match r with
  | Some v => v ∈ vs /\ victim_ok tp skip s v
  | None => forall v, v ∈ vs -> ~ victim_ok tp skip s v
  end.
Proof.
  revert s. induction vs as [|v vs IH]; intros s Hf; cbn [scan_victims].
  { intros [= <- <-]. split; [done|]. intros v Hv. by apply not_elem_of_nil in Hv. }
  apply Forall_cons in Hf as [Hv Hf].
  assert (forall s1, same_queues s s1 -> ~ victim_ok tp skip s v -> scan_victims tp skip vs s1 = (s', r) ->
    same_queues s s' /\ match r with Some u => u ∈ v :: vs /\ victim_ok tp skip s u
                       | None => forall u, u ∈ v :: vs -> ~ victim_ok tp skip s u end) as Hnext.
  { intros s1 Hs1 Hnv Hr. destruct (IH s1 Hf Hr) as [H1 H2]. split; [by etrans|]. destruct r as [u|].
    - destruct H2 as [H2 H3]. split; [by right|]. by apply (victim_ok_eq _ _ _ _ _ Hs1).
    - intros u [->|Hu]%elem_of_cons; [done|]. rewrite <-(victim_ok_eq _ _ _ _ _ Hs1). by apply H2. }
  destruct ((cpu_limit s <=? v) || negb (is_online tp v)) eqn:E1.
  { apply Hnext; [done|]. intros (A & B & _). rewrite B in E1. cbn in E1. rewrite orb_false_r in E1. simplify_bool. lia. }
  destruct (queued_task_count v s =? 0) eqn:E2.
  { simplify_bool. apply Hnext; [by apply clear_bit_spec|]. by intros (_ & _ & C & _). }
  destruct (skip && (queued_task_count v s <? 2)) eqn:E3.
  { simplify_bool. apply Hnext; [done|]. intros (_ & _ & _ & D). specialize (D ltac:(done)). lia. }
  intros [= <- <-]. split; [done|]. simplify_bool. split; [by left|]. split_and!; [lia|done|done|].
  intros ->. cbn in E3. simplify_bool. lia.
Qed.

Lemma elem_of_bits m b : b ∈ bits_of m <-> 0 <= b < 64 /\ Z.testbit m b = true.
Proof.
  unfold bits_of. rewrite list_elem_of_filter, list_elem_of_fmap. split.
  - intros [H (k & -> & Hk)]. apply elem_of_seq in Hk. split; [lia|done].
  - intros [H1 H2]. split; [done|]. exists (Z.to_nat b). split; [lia|]. apply elem_of_seq. lia.
Qed.
(** The CPUs one pass looks at, given what is selected of each word. *)
Definition selected (select : Z -> Z -> Z) (s : sched) (v : Z) : Prop :=
  0 <= v /\ Z.testbit (select (v / 64) (nth_u32 (stealable_mask s) (v / 64))) (v mod 64) = true.
Lemma scan_words_spec tp skip select ws s s' r : Forall (fun w => 0 <= w) ws ->
  (forall w m m' b, Z.testbit m b = Z.testbit m' b -> Z.testbit (select w m) b = Z.testbit (select w m') b) ->
  scan_words tp skip select ws s = Some (s', r) ->
  same_queues s s' /\
  match r with
  | Some v => (exists s1, same_queues s s1 /\ selected select s1 v) /\ victim_ok tp skip s v
  | None => forall v, v / 64 ∈ ws -> selected select s v -> ~ victim_ok tp skip s v
  end.
Proof.
  intros Hf Hsel. revert s Hf. induction ws as [|w ws IH]; intros s Hf; cbn [scan_words].
  { intros [= <- <-]. split; [done|]. intros v Hv. by apply not_elem_of_nil in Hv. }
  apply Forall_cons in Hf as [Hw Hf]. destruct (stealable_mask s !! Z.to_nat w) as [word|] eqn:Em; [|done].
  assert (nth_u32 (stealable_mask s) w = word) as En by (unfold nth_u32; by rewrite Em).
  destruct (scan_victims _ _ _ s) as [s1 r1] eqn:Ev. apply scan_victims_spec in Ev as [Hs1 Hr1].
  2: { apply Forall_fmap, Forall_forall. intros b Hb. apply elem_of_bits in Hb. cbn. lia. }
  assert (forall b, 0 <= b < 64 -> (w * 64 + b) / 64 = w /\ (w * 64 + b) mod 64 = b) as Hdm
    by (intros b Hb; Z.div_mod_to_equations; lia).
  destruct r1 as [v|].
  - intros [= <- <-]. split; [done|]. destruct Hr1 as [Hin Hok]. split; [|done]. exists s. split; [done|].
    apply list_elem_of_fmap in Hin as (b & -> & Hb). apply elem_of_bits in Hb as [Hb Ht].
    destruct (Hdm b Hb) as [D1 D2]. split; [lia|]. by rewrite D1, D2, En.
  - intros Hrec. destruct (IH s1 Hf Hrec) as [H1 H2]. split; [by etrans|]. destruct r as [v|].
    + destruct H2 as [(s2 & Hs2 & Hv) Hok]. split; [|by apply (victim_ok_eq _ _ _ _ _ Hs1)]. exists s2. split; [by etrans|done].
    + intros v [Hvw|Hvw]%elem_of_cons [Hv0 Hb] Hok.
      * apply (Hr1 v); [|done]. apply list_elem_of_fmap. exists (v mod 64). rewrite Hvw, En in Hb. split.
        -- rewrite (Z.div_mod v 64) at 1 by lia. lia.
        -- apply elem_of_bits. split; [apply Z.mod_pos_bound; lia|done].
      * apply (H2 v Hvw); [|by apply (victim_ok_eq _ _ _ _ _ Hs1)]. split; [done|]. rewrite <-Hb.
        apply Hsel. apply Hs1; [done|]. apply Hok.
Qed.

Lemma without_self_spec cpu w m b : 0 <= cpu -> 0 <= b < 64 ->
  Z.testbit (without_self cpu w m) b = Z.testbit m b && negb ((w =? cpu / 64) && (b =? cpu mod 64)).
Proof.
  intros Hc Hb. unfold without_self. destruct (w =? cpu / 64); cbn [andb]; [|by rewrite andb_true_r].
  change 63 with (Z.ones 6). rewrite Z.land_ones by lia. change (2 ^ 6) with 64.
  rewrite Z.ldiff_spec. f_equal. f_equal. pose proof (Z.mod_pos_bound cpu 64). rewrite Z.shiftl_spec by lia.
  destruct (Z.eqb_spec b (cpu mod 64)) as [->|Hne]; [by rewrite Z.sub_diag|].
  destruct (decide (b - cpu mod 64 < 0)); [by rewrite Z.testbit_neg_r|]. change 1 with (2 ^ 0). apply Z.pow2_bits_false. lia.
Qed.

Lemma without_self_cong cpu w m m' b : Z.testbit m b = Z.testbit m' b ->
  Z.testbit (without_self cpu w m) b = Z.testbit (without_self cpu w m') b.
Proof. intros E. unfold without_self. destruct (_ =? _); [by rewrite !Z.ldiff_spec, E|done]. Qed.
Lemma not_self cpu s v m : 0 <= cpu -> 0 <= v -> (forall w b x, Z.testbit (m w x) b = true -> Z.testbit x b = true) ->
  selected (fun w word => without_self cpu w (m w word)) s v -> v <> cpu.
Proof.
  intros Hc Hv Hm [_ Hb] ->. rewrite without_self_spec, !Z.eqb_refl in Hb by (done || apply Z.mod_pos_bound; lia).
  by rewrite andb_false_r in Hb.
Qed.
Lemma scan_words_total tp skip select ws s : Forall (fun w => 0 <= w < Z.of_nat (length (stealable_mask s))) ws ->
  scan_words tp skip select ws s <> None.
Proof.
  revert s. induction ws as [|w ws IH]; intros s Hf; [done|]. apply Forall_cons in Hf as [Hw Hf]. cbn [scan_words].
  destruct (lookup_lt_is_Some_2 (stealable_mask s) (Z.to_nat w)) as [m ->]; [lia|].
  destruct (scan_victims _ _ _ s) as [s1 [v|]] eqn:E; [done|]. apply IH.
  assert (forall vs s s1 r, scan_victims tp skip vs s = (s1, r) -> length (stealable_mask s1) = length (stealable_mask s)) as Hlen.
  { clear. induction vs as [|v vs IH]; intros s s1 r H; cbn [scan_victims] in H; [by simplify_eq|].
    repeat case_match; simplify_eq; try done; try (by eapply IH). apply IH in H. rewrite H.
    unfold set_stealable_bit. case_match; [|done]. cbn. apply length_alter. }
  by rewrite (Hlen _ _ _ _ E).
Qed.

(** Work stealing picks a sound victim and misses none. With at most 256
    CPUs the search never runs off the bitmap; a victim it returns is another
    CPU, online, with at least one queued task (two under critical memory
    pressure); it returns nothing only when no CPU whose bit is set qualifies;
    and the search moves no task and clears no bit of a CPU with work. *)
Theorem victim_sound_complete tp node_masks some full cpu s : 0 <= cpu -> cpu_limit s <= 256 -> length (stealable_mask s) = 4%nat ->
  exists s' r, choose_victim_cpu tp node_masks some full cpu s = Some (s', r) /\ same_queues s s' /\
  match r with
  | Some v => v <> cpu /\ victim_ok tp (350 <=? full) s v
  | None => forall v, 0 <= v -> v <> cpu -> bit_set v s = true -> ~ victim_ok tp (350 <=? full) s v
  end.
Proof.
  intros Hc Hlim Hlen. unfold choose_victim_cpu.
  assert ((match pressure_class some full with Critical => true | _ => false end) && (350 <=? full) = (350 <=? full)) as ->.
  { unfold pressure_class. destruct (350 <=? full); [done|by rewrite andb_false_r]. }
  set (ws := Z.of_nat <$> seq 0 (Z.to_nat ((cpu_limit s + 63) / 64))).
  set (nm := fun w word : Z => Z.land word (if numa_node tp cpu <? MAX_NUMA_NODES then node_masks (numa_node tp cpu) w else 0)).
  assert (forall w, w ∈ ws <-> 0 <= w < (cpu_limit s + 63) / 64) as Hws.
  { intros w. unfold ws. rewrite list_elem_of_fmap. split.
    - intros (k & -> & Hk). apply elem_of_seq in Hk. lia.
    - intros Hk. exists (Z.to_nat w). split; [lia|]. apply elem_of_seq. lia. }
  assert ((cpu_limit s + 63) / 64 <= 4) as Hw4 by (Z.div_mod_to_equations; lia).
  assert (Forall (fun w => 0 <= w) ws) as Hws0 by (apply Forall_forall; intros w Hw; apply Hws in Hw; lia).
  assert (forall s1, length (stealable_mask s1) = 4%nat -> Forall (fun w => 0 <= w < Z.of_nat (length (stealable_mask s1))) ws) as Hin
    by (intros s1 H1; apply Forall_forall; intros w Hw; apply Hws in Hw; lia).
  assert (forall w m m' b, Z.testbit m b = Z.testbit m' b -> Z.testbit (nm w m) b = Z.testbit (nm w m') b) as Hnm
    by (intros w m m' b E; unfold nm; by rewrite !Z.land_spec, E).
  destruct (scan_words tp (350 <=? full) (fun w word => without_self cpu w (nm w word)) ws s) as [[s1 r1]|] eqn:E1;
    [|exfalso; by eapply (scan_words_total tp _ _ ws s); [apply Hin|]].
  pose proof (scan_words_spec _ _ _ _ _ _ _ Hws0 (fun w m m' b E => without_self_cong _ _ _ _ _ (Hnm w m m' b E)) E1) as [Hs1 Hr1].
  change (scan_words tp (350 <=? full) _ ws s) with
    (scan_words tp (350 <=? full) (fun w word => without_self cpu w (nm w word)) ws s). rewrite E1. destruct r1 as [v|].
  - exists s1, (Some v). split_and!; [done|done|..].
    + destruct Hr1 as [(s2 & _ & Hsel) _]. eapply (not_self cpu s2 v nm); [done|apply Hsel| |done].
      intros w b x. unfold nm. rewrite Z.land_spec. by intros [? _]%andb_true_iff.
    + apply Hr1.
  - assert (length (stealable_mask s1) = 4%nat) as Hlen1 by (destruct Hs1 as (_ & _ & _ & -> & _); done).
    destruct (scan_words tp (350 <=? full) (without_self cpu) ws s1) as [[s2 r2]|] eqn:E2;
      [|exfalso; by eapply (scan_words_total tp _ _ ws s1); [apply Hin|]].
    exists s2, r2. pose proof (scan_words_spec _ _ _ _ _ _ _ Hws0 (without_self_cong cpu) E2) as [Hs2 Hr2].
    split_and!; [done|by etrans|]. destruct r2 as [v|].
    + destruct Hr2 as [(s3 & _ & Hsel) Hok]. split; [|by apply (victim_ok_eq _ _ _ _ _ Hs1)].
      eapply (not_self cpu s3 v (fun _ x => x)); [done|apply Hsel|done|done].
    + intros v Hv0 Hne Hb Hok. pose proof (Z.mod_pos_bound v 64). apply (Hr2 v); [| |by apply (victim_ok_eq _ _ _ _ _ Hs1)].
      * apply Hws. destruct Hok as [Hlt _]. Z.div_mod_to_equations; lia.
      * split; [done|]. rewrite without_self_spec by lia. destruct Hs1 as (_ & _ & _ & _ & Hbits).
        specialize (Hbits v Hv0 (proj1 (proj2 (proj2 Hok)))). unfold bit_set in Hbits, Hb. rewrite Hbits, Hb. cbn [andb].
        destruct (Z.eqb_spec (v / 64) (cpu / 64)) as [A|A]; [|done]. destruct (Z.eqb_spec (v mod 64) (cpu mod 64)) as [B|B]; [|done].
        exfalso. apply Hne. rewrite (Z.div_mod v 64), (Z.div_mod cpu 64), A, B by lia. done.
Qed.
Lemma victim_sound_complete_witness :
  exists s' v, choose_victim_cpu two_cpus (fun _ _ => 3) 0 0 0 (publish_worker_load two_cpus 1 (set_worker 1 [any_task] (new 2))) = Some (s', Some v) /\ v <> 0.
Proof.
  destruct (victim_sound_complete two_cpus (fun _ _ => 3) 0 0 0 (publish_worker_load two_cpus 1 (set_worker 1 [any_task] (new 2))))
    as (s' & r & Hr & _ & Hv); [lia|vm_compute; congruence|reflexivity|].
  destruct r as [v|].
  - exists s', v. split; [exact Hr|apply Hv].
  - exfalso. revert Hr. vm_compute. congruence.
Defined.

(** With more than 256 CPUs the search can run off the bitmap. The bitmap
    has four words while [cpu_count] may be as large as 8192, so when no victim
    is found in the first four words the fifth access is out of bounds. *)
Theorem victim_search_out_of_bounds :
  choose_victim_cpu two_cpus (fun _ _ => 0) 0 0 0 (mkSched 257 (replicate 256 u32_max) (replicate 256 u32_max) (replicate 4 0) [Some []] []
    (mkLoads (replicate 256 0) [] false)) = None.
Proof. by vm_compute. Qed.

(** ** Time slices and virtual runtime *)
(** Time accounting. A time slice is at least 4 ticks, and on an unloaded
    machine it is proportional to the weight above that; running longer never
    lowers the virtual runtime, and of two tasks that run equally long the one
    with the larger weight never gains more virtual runtime, so weights order
    CPU shares as intended. *)
Theorem time_accounting some full w d d' t1 t2 : 0 <= w < u32_mod -> 0 <= d <= d' ->
  is_u64 (vruntime t1) -> vruntime t1 = vruntime t2 -> weight t1 <= weight t2 ->
  4 <= calc_time_slice some full w /\
  (full < 150 -> some < 400 -> calc_time_slice some full w = Z.max (20 * w / 1024) 4) /\
  vruntime t1 <= vruntime (update_task_vruntime d t1) <= vruntime (update_task_vruntime d' t1) /\
  vruntime (update_task_vruntime d t2) <= vruntime (update_task_vruntime d t1).
Proof.
  intros Hw Hd Hv Hvv Hwt. split; [unfold calc_time_slice, MIN_GRANULARITY_TICKS; lia|]. split.
  { intros H1 H2. unfold calc_time_slice, pressure_class.
    rewrite !(proj2 (Z.leb_gt _ _)) by lia. done. }
  assert (forall a b k l, 0 <= a <= b -> 0 < l <= k -> 0 <= a / k <= b / l) as Hdiv.
  { intros a b k l Hab Hkl. split; [apply Z.div_pos; lia|].
    etrans; [apply Z.div_le_mono; [lia|apply Hab]|]. apply Z.div_le_compat_l; lia. }
  assert (forall x y, 0 <= x <= y -> 0 <= u64_sat_mul x NICE_0_LOAD <= u64_sat_mul y NICE_0_LOAD) as Hm.
  { intros x y H. unfold u64_sat_mul, NICE_0_LOAD, u64_max, u64_mod. lia. }
  unfold update_task_vruntime; cbn [vruntime]. rewrite <-Hvv.
  set (w1 := Z.max (weight t1) 1) in *. set (w2 := Z.max (weight t2) 1) in *.
  pose proof (Hm d d ltac:(lia)) as M0. pose proof (Hm d d' Hd) as M1.
  pose proof (Hdiv _ _ w1 w1 M1 ltac:(lia)). pose proof (Hdiv _ _ w2 w1 M0 ltac:(lia)).
  unfold u64_sat_add, is_u64 in *. unfold u64_max. lia.
Qed.
Lemma time_accounting_witness :
  4 <= calc_time_slice 800 0 512 /\
  vruntime (update_task_vruntime 10 (mkTask 2 0 2048 5 Timer.Ready)) <= vruntime (update_task_vruntime 10 (mkTask 1 0 1024 5 Timer.Ready)).
Proof.
  destruct (time_accounting 800 0 512 10 10 (mkTask 1 0 1024 5 Timer.Ready) (mkTask 2 0 2048 5 Timer.Ready)) as (H1 & _ & _ & H2);
    [mlia|lia|cbn; mlia|reflexivity|cbn; lia|]. split; [exact H1|exact H2].
Defined.

End Scheduler.
