(* ===== verification/Futex.v ===== *)
(** * Futexes and address waiting

    Models [src/src/task/futex.rs]: the manager of tasks blocked on user
    addresses ([AddressWaitManager]), the futex system calls on top of it, the
    older per-address queues ([FutexManager]) that the requeue and
    priority-inheritance calls use, and the priority-inheritance lock word.

    A boxed task is its identifier.  User memory is a function from addresses
    to bytes.  A waiting call is cut where no lock is held and another CPU can
    act: after the value was compared, when the task has been queued, and when
    the woken task runs again; a waking call is one step.  The tick counter and
    the calling task are arguments. *)
From S2P Require Import Prelude.

Module Futex.

Definition FUTEX_WAIT : Z := 0.
Definition FUTEX_WAKE : Z := 1.
Definition FUTEX_REQUEUE : Z := 3.
Definition FUTEX_CMP_REQUEUE : Z := 4.
Definition FUTEX_LOCK_PI : Z := 6.
Definition FUTEX_UNLOCK_PI : Z := 7.
Definition FUTEX_WAIT_BITSET : Z := 9.
Definition FUTEX_WAKE_BITSET : Z := 10.
Definition EINVAL : Z := -22.
Definition EAGAIN : Z := -11.
Definition EPERM : Z := -1.
Definition ETIMEDOUT : Z := -110.

(** ** Tasks blocked on addresses *)
Inductive WakeReason := Signaled | TimedOut.
Record WakeRecord := mkRec { reason : WakeReason; rec_addr : Z }.
#[export] Instance WakeReason_eq_dec : EqDecision WakeReason.
Proof. solve_decision. Defined.
#[export] Instance WakeRecord_eq_dec : EqDecision WakeRecord.
Proof. solve_decision. Defined.
Record AddressWaiter := mkWaiter {
  task_id : Z; task : option Z; addresses : list Z; bitset : Z; deadline_tick : option Z }.
Record AddressWaitManager := mkAM {
  next_waiter_id : Z;
  waiters : gmap Z AddressWaiter;
  address_index : gmap Z (list Z);
  wake_records : gmap Z WakeRecord }.
Definition am_new : AddressWaitManager := mkAM 1 ∅ ∅ ∅.

(** [address_index.entry(addr).or_default().push(waiter_id)] *)
Definition index_push (wid : Z) (idx : gmap Z (list Z)) (addr : Z) : gmap Z (list Z) :=
  <[addr := default [] (idx !! addr) ++ [wid]]> idx.
(** The code inserts into [waiters] and [address_index] under two locks, one
    after the other; here both happen at once.  A wake-up that comes between them
    does not find the waiter in the index, as one that comes before both; a check
    of the deadlines that comes between them and ends the wait would leave the
    number of a waiter that is gone in the index, where wake-ups pass over it. *)
Definition enqueue (tid boxed : Z) (addrs : list Z) (bits : Z) (deadline : option Z) (m : AddressWaitManager)
  : AddressWaitManager :=
  let wid := next_waiter_id m in
  mkAM (u64_add wid 1) (<[wid := mkWaiter tid (Some boxed) addrs bits deadline]> (waiters m))
    (foldl (index_push wid) (address_index m) addrs) (wake_records m).

Definition index_remove (wid : Z) (idx : gmap Z (list Z)) (addr : Z) : gmap Z (list Z) :=
  match idx !! addr with
  | Some ids =>
      let ids' := filter (fun c => c <> wid) ids in
      if decide (ids' = []) then delete addr idx else <[addr := ids']> idx
  | None => idx
  end.
(** The task handed to [wake_blocked_task], if any; the code returns whether there is one. *)
Definition resolve (wid : Z) (r : WakeReason) (addr : Z) (m : AddressWaitManager) : AddressWaitManager * option Z :=
  match waiters m !! wid with
  | None => (m, None)
  | Some w =>
      (mkAM (next_waiter_id m) (delete wid (waiters m)) (foldl (index_remove wid) (address_index m) (addresses w))
         (<[task_id w := mkRec r addr]> (wake_records m)), task w)
  end.
Fixpoint resolve_all (r : WakeReason) (l : list (Z * Z)) (m : AddressWaitManager) : AddressWaitManager * list Z :=
  match l with
  | [] => (m, [])
  | (wid, addr) :: l' =>
      let '(m1, o) := resolve wid r addr m in
      let '(m2, woken) := resolve_all r l' m1 in
      (m2, option_list o ++ woken)
  end.

Definition admits (mask : option Z) (w : AddressWaiter) : bool :=
  match mask with Some k => negb (Z.land (bitset w) k =? 0) | None => true end.
(** The waiter identifiers selected by a wake call, at most [max_count]. *)
Fixpoint select (ws : gmap Z AddressWaiter) (mask : option Z) (max_count : nat) (ids : list Z) : list Z :=
  match ids with
  | [] => []
  | wid :: ids' =>
      match max_count with
      | O => []
      | S n =>
          match ws !! wid with
          | Some w => if admits mask w then wid :: select ws mask n ids' else select ws mask max_count ids'
          | None => select ws mask max_count ids'
          end
      end
  end.
(** The woken tasks; the code returns their number. *)
Definition wake_matches (addr : Z) (max_count : nat) (mask : option Z) (m : AddressWaitManager)
  : AddressWaitManager * list Z :=
  let ids := default [] (address_index m !! addr) in
  resolve_all Signaled ((fun wid => (wid, addr)) <$> select (waiters m) mask max_count ids) m.

Definition expired (tick : Z) (w : AddressWaiter) : bool :=
  match deadline_tick w with Some d => d <=? tick | None => false end.
Definition check_timeouts (tick : Z) (m : AddressWaitManager) : AddressWaitManager * list Z :=
  resolve_all TimedOut
    ((fun p => (p.1, default 0 (head (addresses p.2)))) <$>
       filter (fun p => expired tick p.2 = true) (btree_iter (waiters m))) m.
Definition take_record (tid : Z) (m : AddressWaitManager) : AddressWaitManager * option WakeRecord :=
  (mkAM (next_waiter_id m) (waiters m) (address_index m) (delete tid (wake_records m)), wake_records m !! tid).

(** ** Deadlines and user memory *)
Definition timeout_ns_to_deadline (now timeout_ns : Z) : option Z :=
  if timeout_ns =? 0 then None else Some (u64_add now (Z.max 1 (timeout_ns / 1000000))).
Definition timeout_ms_to_deadline (now timeout_ms : Z) : option Z :=
  if timeout_ms =? u32_max then None else Some (u64_add now (Z.max 1 timeout_ms)).

Definition umem : Type := Z -> Z.
Definition read_u32 (m : umem) (a : Z) : Z := m a + 256 * m (a + 1) + 65536 * m (a + 2) + 16777216 * m (a + 3).
Definition compare_u32 (m : umem) (addr expected : Z) : bool := if addr =? 0 then false else read_u32 m addr =? expected.
Definition compare_bytes (m : umem) (addr expected size : Z) : bool :=
  if (addr =? 0) || (expected =? 0) || (size =? 0) then false
  else forallb (fun i => m (addr + i) =? m (expected + i)) (seqZ 0 size).

(** ** The older per-address queues *)
Record FutexWaiter := mkFW { fw_task : Z; fw_bitset : Z; fw_timeout : Z; fw_start : Z }.
Record FutexQueue := mkFQ { q_waiters : list FutexWaiter; q_locked : bool }.
Record FutexManager := mkFM { queues : gmap Z FutexQueue; total_waits : Z; total_wakes : Z; total_timeouts : Z }.
Definition q_new : FutexQueue := mkFQ [] false.
Definition fm_new : FutexManager := mkFM ∅ 0 0 0.
Definition set_queues (q : gmap Z FutexQueue) (f : FutexManager) : FutexManager :=
  mkFM q (total_waits f) (total_wakes f) (total_timeouts f).
Definition count_wait (f : FutexManager) : FutexManager :=
  mkFM (queues f) (u64_add (total_waits f) 1) (total_wakes f) (total_timeouts f).
Definition count_wakes (n : nat) (f : FutexManager) : FutexManager :=
  mkFM (queues f) (total_waits f) (u64_add (total_wakes f) (Z.of_nat n)) (total_timeouts f).
Definition count_timeouts (n : nat) (f : FutexManager) : FutexManager :=
  mkFM (queues f) (total_waits f) (total_wakes f) (u64_add (total_timeouts f) (Z.of_nat n)).

Definition add_waiter (w : FutexWaiter) (q : FutexQueue) : FutexQueue := mkFQ (q_waiters q ++ [w]) (q_locked q).
Definition remove_waiter (tid : Z) (q : FutexQueue) : FutexQueue :=
  mkFQ (filter (fun w => fw_task w <> tid) (q_waiters q)) (q_locked q).
Fixpoint wake_list (count : nat) (mask : option Z) (l : list FutexWaiter) : list FutexWaiter * list Z :=
  match l, count with
  | [], _ => ([], [])
  | _, O => (l, [])
  | w :: l', S n =>
      if match mask with Some k => negb (Z.land (fw_bitset w) k =? 0) | None => true end
      then let '(rest, woken) := wake_list n mask l' in (rest, fw_task w :: woken)
      else let '(rest, woken) := wake_list count mask l' in (w :: rest, woken)
  end.
Definition wake_waiters (count : nat) (mask : option Z) (q : FutexQueue) : FutexQueue * list Z :=
  let '(rest, woken) := wake_list count mask (q_waiters q) in (mkFQ rest (q_locked q), woken).
Definition overdue (tick : Z) (w : FutexWaiter) : bool :=
  (0 <? fw_timeout w) && (fw_timeout w <=? sat_sub tick (fw_start w)).
Definition q_check_timeouts (tick : Z) (q : FutexQueue) : FutexQueue * list Z :=
  (mkFQ (filter (fun w => overdue tick w = false) (q_waiters q)) (q_locked q),
   fw_task <$> filter (fun w => overdue tick w = true) (q_waiters q)).

Definition get_queue (addr : Z) (f : FutexManager) : FutexManager * FutexQueue :=
  match queues f !! addr with
  | Some q => (f, q)
  | None => (set_queues (<[addr := q_new]> (queues f)) f, q_new)
  end.
Definition cleanup_empty_queues (f : FutexManager) : FutexManager :=
  set_queues (filter (fun p => q_waiters p.2 <> []) (queues f)) f.

(** [FUTEX_REQUEUE]: both queues are locked at once, so the call never
    returns ([None]) when they are the same queue. *)
Definition sys_futex_requeue (uaddr wake_count uaddr2 requeue_cmp : Z) (f : FutexManager) : option (FutexManager * Z) :=
  let '(f, _) := get_queue uaddr f in
  let '(f, q2) := get_queue uaddr2 f in
  if uaddr =? uaddr2 then None
  else
    let '(q1, woken) := wake_waiters (Z.to_nat wake_count) None (default q_new (queues f !! uaddr)) in
    let moved := rev (q_waiters q1) in
    let f := set_queues (<[uaddr2 := mkFQ (q_waiters q2 ++ moved) (q_locked q2)]> (delete uaddr (queues f))) f in
    Some (f, Z.of_nat (length woken) + Z.of_nat (length moved)).

(** ** The system: tasks, user memory, both managers *)
Inductive wcall := WFutex (uaddr : Z) | WVec (addrs : list Z) | WAddress (address : Z).
Definition call_addresses (c : wcall) : list Z :=
  match c with WFutex u => [u] | WVec l => l | WAddress a => [a] end.
Inductive tstate :=
  | Running
  | Checked (c : wcall) (bits : Z) (deadline : option Z)  (* value compared, task not yet queued *)
  | Blocked (c : wcall)
  | Woken (c : wcall)                                     (* [schedule()] has returned *)
  | PiStart (u timeout_ns : Z) | PiMark (u timeout_ns : Z) | PiMarkCas (u timeout_ns current : Z)
  | PiQueue (u timeout_ns : Z) | PiSpin (u ticks start : Z) (n : nat) | PiSpinCas (u ticks start : Z) (n : nat) (val : Z)
  | PiYield (u : Z) | PiRetry (u : Z) | PiRetryCas (u val : Z)
  | UnlockStart (u : Z) | UnlockStore (u : Z) | UnlockQueue (u : Z)
  | Returned (r : Z).
Record kernel := mkK {
  am : AddressWaitManager; fm : FutexManager; mem : umem; tasks : gmap Z tstate;
  owners : list (Z * Z)      (* ghost: lock word and task of every successful lock *) }.
Definition boot (m : umem) : kernel := mkK am_new fm_new m ∅ [].
Definition set_am (a : AddressWaitManager) (k : kernel) : kernel := mkK a (fm k) (mem k) (tasks k) (owners k).
Definition set_fm (f : FutexManager) (k : kernel) : kernel := mkK (am k) f (mem k) (tasks k) (owners k).
Definition set_task (t : Z) (st : tstate) (k : kernel) : kernel := mkK (am k) (fm k) (mem k) (<[t := st]> (tasks k)) (owners k).
Definition write_u32 (a v : Z) (m : umem) : umem := fun x =>
  if x =? a then v mod 256 else if x =? a + 1 then (v / 256) mod 256
  else if x =? a + 2 then (v / 65536) mod 256 else if x =? a + 3 then (v / 16777216) mod 256 else m x.
Definition store_u32 (a v : Z) (k : kernel) : kernel := mkK (am k) (fm k) (write_u32 a v (mem k)) (tasks k) (owners k).
Definition read_u64 (m : umem) (a : Z) : Z := read_u32 m a + u32_mod * read_u32 m (a + 4).

(** *** Waiting: up to [block_on_addresses] *)
Definition sys_futex_wait (now t uaddr expected timeout_ns bits : Z) (has_bitset : bool) (k : kernel) : kernel :=
  if negb (compare_u32 (mem k) uaddr expected) then set_task t (Returned EAGAIN) k
  else if has_bitset && (bits =? 0) then set_task t (Returned EINVAL) k
  else set_task t (Checked (WFutex uaddr) (if has_bitset then bits else u32_max) (timeout_ns_to_deadline now timeout_ns))
         (set_fm (count_wait (fm k)) k).
(** The [i]-th [FutexWaitV]: 24 bytes, [val] first, then [uaddr]. *)
Fixpoint read_waitv (m : umem) (ptr : Z) (n : nat) : list (Z * Z) :=
  match n with O => [] | S n => (read_u64 m ptr, read_u64 m (ptr + 8)) :: read_waitv m (ptr + 24) n end.
Definition sys_futex_waitv (now t waiters_ptr waiters_len flags timeout_ns : Z) (k : kernel) : kernel :=
  if (waiters_ptr =? 0) || (waiters_len =? 0) || negb (flags =? 0) then set_task t (Returned EINVAL) k
  else
    let ws := read_waitv (mem k) waiters_ptr (Z.to_nat waiters_len) in
    if forallb (fun w => compare_u32 (mem k) w.2 (as_u32 w.1)) ws
    then set_task t (Checked (WVec ws.*2) u32_max (timeout_ns_to_deadline now timeout_ns)) (set_fm (count_wait (fm k)) k)
    else set_task t (Returned EAGAIN) k.
Definition wait_on_address (now t address compare_address size timeout_ms : Z) (k : kernel) : kernel :=
  if (size =? 0) || (8 <? size) then set_task t (Returned 0) k
  else if negb (compare_bytes (mem k) address compare_address size) then set_task t (Returned 1) k
  else set_task t (Checked (WAddress address) u32_max (timeout_ms_to_deadline now timeout_ms)) k.

(** *** [block_on_addresses], up to [schedule()], and the rest of the call *)
Definition block (t : Z) (c : wcall) (bits : Z) (deadline : option Z) (k : kernel) : kernel :=
  set_task t (Blocked c) (set_am (enqueue t t (call_addresses c) bits deadline (am k)) k).
Definition answer (t : Z) (c : wcall) (r : WakeRecord) (k : kernel) : kernel :=
  match c, reason r with
  | WFutex _, Signaled => set_task t (Returned 0) k
  | WVec l, Signaled => set_task t (Returned (Z.of_nat (default O (position (Z.eqb (rec_addr r)) l)))) k
  | WAddress _, Signaled => set_task t (Returned 1) k
  | WAddress _, TimedOut => set_task t (Returned 0) k
  | _, TimedOut => set_task t (Returned ETIMEDOUT) (set_fm (count_timeouts 1 (fm k)) k)
  end.
Definition no_record (c : wcall) : WakeRecord := mkRec TimedOut (default 0 (head (call_addresses c))).
Definition finish (t : Z) (c : wcall) (k : kernel) : kernel :=
  let '(a, r) := take_record t (am k) in answer t c (default (no_record c) r) (set_am a k).

(** *** Waking *)
Definition wake_task (ths : gmap Z tstate) (t : Z) : gmap Z tstate :=
  match ths !! t with Some (Blocked c) => <[t := Woken c]> ths | _ => ths end.
Definition wake_tasks (l : list Z) (k : kernel) : kernel :=
  mkK (am k) (fm k) (mem k) (foldl wake_task (tasks k) l) (owners k).
Definition wake_by_address (addr : Z) (count : nat) (mask : option Z) (k : kernel) : kernel * nat :=
  let '(a, l) := wake_matches addr count mask (am k) in (wake_tasks l (set_am a k), length l).
Definition sys_futex_wake (uaddr count : Z) (mask : option Z) (k : kernel) : kernel * Z :=
  let '(k, n) := wake_by_address uaddr (Z.to_nat count) mask k in (set_fm (count_wakes n (fm k)) k, Z.of_nat n).
Definition check_timeouts_call (tick : Z) (k : kernel) : kernel :=
  let '(a, l) := check_timeouts tick (am k) in
  let k := wake_tasks l (set_am a k) in
  if (0 <? length l)%nat then set_fm (count_timeouts (length l) (fm k)) k else k.

(** *** The priority-inheritance lock, one access of the lock word per step *)
Definition OWNER : Z := 0x3FFFFFFF.
Definition WAITERS_BIT : Z := 0x40000000.
Definition word (u : Z) (k : kernel) : Z := read_u32 (mem k) u.
Definition acquired (u t : Z) (k : kernel) : kernel :=
  let k := store_u32 u (as_u32 t) k in mkK (am k) (fm k) (mem k) (<[t := Returned 0]> (tasks k)) (owners k ++ [(u, t)]).
Definition released (u t : Z) (k : kernel) : kernel :=
  let k := store_u32 u 0 k in
  mkK (am k) (fm k) (mem k) (<[t := UnlockQueue u]> (tasks k)) (filter (fun o => o <> (u, t)) (owners k)).
Definition pi_step (now t : Z) (st : tstate) (k : kernel) : kernel :=
  match st with
  | PiStart u tn => if word u k =? 0 then acquired u t k else set_task t (PiMark u tn) k
  | PiMark u tn => set_task t (PiMarkCas u tn (word u k)) k
  | PiMarkCas u tn cur =>
      set_task t (PiQueue u tn) (if word u k =? cur then store_u32 u (Z.lor cur WAITERS_BIT) k else k)
  | PiQueue u tn =>
      let ticks := if 0 <? tn then tn / 1000000 else 0 in
      let '(f, q) := get_queue u (fm k) in
      let f := set_queues (<[u := add_waiter (mkFW t u32_max ticks now) q]> (queues f)) f in
      set_task t (PiSpin u ticks now 100) (set_fm f k)
  | PiSpin u tk start (S n) =>
      if Z.land (word u k) OWNER =? 0 then set_task t (PiSpinCas u tk start n (word u k)) k
      else set_task t (PiSpin u tk start n) k
  | PiSpinCas u tk start n val => if word u k =? val then acquired u t k else set_task t (PiSpin u tk start n) k
  | PiSpin u tk start O =>
      if (0 <? tk) && (tk <=? u64_sub now start) then set_task t (Returned ETIMEDOUT) k else set_task t (PiYield u) k
  | PiYield u => set_task t (PiRetry u) k
  | PiRetry u =>
      if Z.land (word u k) OWNER =? 0 then set_task t (PiRetryCas u (word u k)) k else set_task t (Returned EAGAIN) k
  | PiRetryCas u val => if word u k =? val then acquired u t k else set_task t (Returned EAGAIN) k
  | UnlockStart u =>
      if negb (Z.land (word u k) OWNER =? as_u32 t) then set_task t (Returned EPERM) k else set_task t (UnlockStore u) k
  | UnlockStore u => released u t k
  | UnlockQueue u =>
      let '(f, q) := get_queue u (fm k) in
      let f := match q_waiters q with
               | [] => f
               | _ :: rest => set_queues (<[u := mkFQ rest (q_locked q)]> (queues f)) f
               end in
      set_task t (Returned 0) (set_fm f k)
  | _ => k
  end.

(** *** The dispatcher; [None]: the call never returns *)
Definition sys_futex (now t uaddr futex_op val timeout uaddr2 val3 : Z) (k : kernel) : option kernel :=
  let op := Z.land futex_op 0x7F in
  if (op =? FUTEX_WAIT) || (op =? FUTEX_WAIT_BITSET) then
    Some (sys_futex_wait now t uaddr val timeout val3 (op =? FUTEX_WAIT_BITSET) k)
  else if (op =? FUTEX_WAKE) || (op =? FUTEX_WAKE_BITSET) then
    let '(k, r) := sys_futex_wake uaddr val (if op =? FUTEX_WAKE_BITSET then Some val3 else None) k in
    Some (set_task t (Returned r) k)
  else if (op =? FUTEX_REQUEUE) || (op =? FUTEX_CMP_REQUEUE) then
    '(f, r) ← sys_futex_requeue uaddr val uaddr2 (if op =? FUTEX_REQUEUE then 0 else val3) (fm k);
    Some (set_task t (Returned r) (set_fm f k))
  else if op =? FUTEX_LOCK_PI then Some (set_task t (PiStart uaddr timeout) k)
  else if op =? FUTEX_UNLOCK_PI then Some (set_task t (UnlockStart uaddr) k)
  else Some (set_task t (Returned EINVAL) k).

(** *** Histories *)
Inductive event :=
  | Call (t uaddr futex_op val timeout uaddr2 val3 : Z)
  | CallWaitV (t ptr len flags timeout : Z)
  | CallWaitOnAddress (t address compare_address size timeout_ms : Z)
  | WakeByAddress (address : Z) (count : nat)     (* [wake_by_address_single], [_all] *)
  | Step (t : Z)                                  (* the task runs its next piece *)
  | Tick                                          (* [check_timeouts] *)
  | Store (a v : Z).                              (* a user program stores a word *)
Definition idle (st : option tstate) : bool := match st with None | Some (Running | Returned _) => true | _ => false end.
Definition run_task (now t : Z) (st : tstate) (k : kernel) : kernel :=
  match st with
  | Checked c bits dl => block t c bits dl k
  | Woken c => finish t c k
  | Running | Blocked _ | Returned _ => k
  | _ => pi_step now t st k
  end.
(** An event at tick [now]; a call that never returns leaves the state as it is. *)
Definition exec (now : Z) (e : event) (k : kernel) : kernel :=
  match e with
  | Call t u op v tn u2 v3 => if idle (tasks k !! t) then default k (sys_futex now t u op v tn u2 v3 k) else k
  | CallWaitV t p n fl tn => if idle (tasks k !! t) then sys_futex_waitv now t p n fl tn k else k
  | CallWaitOnAddress t a c sz ms => if idle (tasks k !! t) then wait_on_address now t a c sz ms k else k
  | WakeByAddress a n => (wake_by_address a n None k).1
  | Step t => match tasks k !! t with Some st => run_task now t st k | None => k end
  | Tick => check_timeouts_call now k
  | Store a v => store_u32 a v k
  end.
Definition run (es : list (Z * event)) (k : kernel) : kernel := foldl (fun k e => exec e.1 e.2 k) k es.

(** ** The index of waiters

    The bucket of an address lists the waiters on it, oldest first, one entry
    per occurrence of the address. *)
Definition occ (a : Z) (l : list Z) : nat := length (filter (fun x => x = a) l).
Definition bucket_of (a : Z) (ws : list (Z * AddressWaiter)) : list Z :=
  concat ((fun p => replicate (occ a (addresses p.2)) p.1) <$> ws).
Record am_ok (m : AddressWaitManager) : Prop := {
  ao_ids : forall wid w, waiters m !! wid = Some w -> 0 <= wid < next_waiter_id m;
  ao_index : forall a, default [] (address_index m !! a) = bucket_of a (btree_iter (waiters m));
  ao_next : 0 <= next_waiter_id m;
  ao_task : forall wid w, waiters m !! wid = Some w -> task w = Some (task_id w);
  ao_inj : forall i j v w, waiters m !! i = Some v -> waiters m !! j = Some w -> task_id v = task_id w -> i = j
}.

Lemma index_push_all wid addrs idx a :
  default [] (foldl (index_push wid) idx addrs !! a) = default [] (idx !! a) ++ replicate (occ a addrs) wid.
Proof.
  revert idx. induction addrs as [|b l IH]; intros idx; simpl; [by rewrite app_nil_r|].
  rewrite IH. unfold occ. rewrite filter_cons. unfold index_push. destruct (decide (b = a)) as [->|Hne].
  - rewrite lookup_insert_eq. simpl. by rewrite <-(assoc_L (++)).
  - by rewrite lookup_insert_ne.
Qed.
Lemma index_remove_one wid idx b a :
  default [] (index_remove wid idx b !! a) =
  (if decide (a = b) then filter (fun c => c <> wid) else id) (default [] (idx !! a)).
Proof.
  unfold index_remove. destruct (idx !! b) as [ids|] eqn:E.
  - destruct (decide (a = b)) as [->|Hne].
    + rewrite E. simpl. case_decide as Hd; [rewrite lookup_delete_eq; by rewrite Hd|by rewrite lookup_insert_eq].
    + case_decide; [by rewrite lookup_delete_ne|by rewrite lookup_insert_ne].
  - case_decide; [subst; by rewrite E|done].
Qed.
Lemma index_remove_all wid addrs idx a :
  default [] (foldl (index_remove wid) idx addrs !! a) =
  (if decide (a ∈ addrs) then filter (fun c => c <> wid) else id) (default [] (idx !! a)).
Proof.
  revert idx. induction addrs as [|b l IH]; intros idx; simpl.
  - done.
  - rewrite IH, index_remove_one. destruct (decide (a ∈ l)), (decide (a = b)), (decide (a ∈ b :: l)); try set_solver; simpl; try done.
    by rewrite filter_twice.
Qed.

Lemma bucket_app a k l : bucket_of a (k ++ l) = bucket_of a k ++ bucket_of a l.
Proof. unfold bucket_of. by rewrite fmap_app, concat_app. Qed.
Lemma bucket_filter a wid ws : bucket_of a (filter (fun p => p.1 <> wid) ws) = filter (fun c => c <> wid) (bucket_of a ws).
Proof.
  induction ws as [|[i w] ws IH]; [done|]. rewrite filter_cons. change ((i, w) :: ws) with ([(i, w)] ++ ws).
  rewrite bucket_app, filter_app, <-IH. unfold bucket_of at 2. simpl. rewrite app_nil_r, filter_replicate.
  case_decide as Hd; [|done]. change ((i, w) :: filter _ ws) with ([(i, w)] ++ filter (fun p : Z * AddressWaiter => p.1 <> wid) ws).
  rewrite bucket_app. f_equal. unfold bucket_of. simpl. by rewrite app_nil_r.
Qed.
Lemma elem_of_bucket a wid ws : wid ∈ bucket_of a ws -> exists w, (wid, w) ∈ ws /\ a ∈ addresses w.
Proof.
  unfold bucket_of. intros H. apply list_elem_of_In, in_concat in H as (l & H1 & H2).
  apply list_elem_of_In in H1, H2. apply list_elem_of_fmap in H1 as ([i w] & -> & Hin).
  cbn in H2. apply elem_of_replicate in H2 as [-> Hn]. exists w. split; [done|].
  unfold occ in Hn. destruct (filter (fun x => x = a) (addresses w)) as [|x l] eqn:E; [done|].
  assert (x ∈ filter (fun x => x = a) (addresses w)) as Hx by (rewrite E; by left).
  apply list_elem_of_filter in Hx as [-> ?]. done.
Qed.

(** A waiter that is queued is not yet known, and comes last in its buckets. *)
Lemma enqueue_ok t addrs bits dl m : next_waiter_id m + 1 < u64_mod -> am_ok m ->
  (forall wid w, waiters m !! wid = Some w -> task_id w <> t) -> am_ok (enqueue t t addrs bits dl m).
Proof.
  intros Hn [H1 H2 H3 H4 H5] Hfr. set (x := mkWaiter t (Some t) addrs bits dl). split; cbn [enqueue waiters next_waiter_id address_index].
  - rewrite u64_add_small by lia. intros wid w. destruct (decide (wid = next_waiter_id m)) as [->|Hne].
    + rewrite lookup_insert_eq. lia.
    + rewrite lookup_insert_ne by done. intros Hw. specialize (H1 _ _ Hw). lia.
  - intros a. rewrite index_push_all, H2, btree_iter_insert_last by (intros i y Hi; specialize (H1 _ _ Hi); lia).
    rewrite bucket_app. f_equal. unfold bucket_of. simpl. by rewrite app_nil_r.
  - rewrite u64_add_small by lia. lia.
  - intros wid w. destruct (decide (wid = next_waiter_id m)) as [->|Hne]; [rewrite lookup_insert_eq|rewrite lookup_insert_ne by done; eauto].
    intros; by simplify_eq.
  - intros i j v w. destruct (decide (i = next_waiter_id m)) as [->|Hi], (decide (j = next_waiter_id m)) as [->|Hj];
      rewrite ?lookup_insert_eq, ?lookup_insert_ne by done; intros Hv Hw Ht; simplify_eq/=; eauto.
    + by destruct (Hfr _ _ Hw).
    + by destruct (Hfr _ _ Hv).
Qed.
Lemma resolve_ok wid r addr m : am_ok m -> am_ok (resolve wid r addr m).1.
Proof.
  intros [H1 H2 H3 H4 H5]. unfold resolve. destruct (waiters m !! wid) as [w|] eqn:E; [|by split].
  split; cbn [fst waiters next_waiter_id address_index]; auto.
  - intros i v [_ Hv]%lookup_delete_Some. eauto.
  - intros a. rewrite index_remove_all, H2, btree_iter_delete, bucket_filter. case_decide as Hd; [done|].
    unfold id. symmetry. apply filter_all. intros c Hc. intros ->. apply elem_of_bucket in Hc as (v & Hv & Ha).
    apply elem_of_btree_iter in Hv. by simplify_eq.
  - intros i v [_ Hv]%lookup_delete_Some. eauto.
  - intros i j v u [_ Hv]%lookup_delete_Some [_ Hu]%lookup_delete_Some. eauto.
Qed.
Lemma resolve_all_ok r l m : am_ok m -> am_ok (resolve_all r l m).1.
Proof.
  revert m. induction l as [|[wid a] l IH]; intros m Hm; [done|]. simpl.
  pose proof (resolve_ok wid r a m Hm) as H1. destruct (resolve wid r a m) as [m1 o]. specialize (IH m1 H1).
  by destruct (resolve_all r l m1).
Qed.

(** ** What resolving a list of waiters does *)
Definition owner (m : AddressWaitManager) (wid : Z) : Z := default 0 (task_id <$> waiters m !! wid).
Lemma resolve_all_waiters r l m wid :
  waiters (resolve_all r l m).1 !! wid = if decide (wid ∈ l.*1) then None else waiters m !! wid.
Proof.
  revert m. induction l as [|[i a] l IH]; intros m; simpl; [done|].
  specialize (IH (resolve i r a m).1). destruct (resolve i r a m) as [m1 o] eqn:E in *. cbn [fst] in *; destruct (resolve_all r l m1) in *; cbn [fst] in *.
  rewrite IH. assert (waiters m1 !! wid = if decide (wid = i) then None else waiters m !! wid) as ->.
  { clear IH. unfold resolve in E. destruct (decide (wid = i)) as [->|Hd].
    - destruct (waiters m !! i) eqn:Ei; simplify_eq/=; [apply lookup_delete_eq|done].
    - destruct (waiters m !! i) eqn:Ei; simplify_eq/=; [by rewrite lookup_delete_ne|done]. }
  repeat case_decide; set_solver.
Qed.
Lemma resolve_all_woken r l m t : am_ok m ->
  t ∈ (resolve_all r l m).2 <-> exists wid w, wid ∈ l.*1 /\ waiters m !! wid = Some w /\ task_id w = t.
Proof.
  revert m. induction l as [|[i a] l IH]; intros m Hm; simpl.
  { split; [by intros ?%elem_of_nil|]. intros (w & _ & []%elem_of_nil & _). }
  pose proof (resolve_ok i r a m Hm) as Hm1. specialize (IH (resolve i r a m).1 Hm1).
  pose proof (resolve_all_waiters r [(i, a)] m) as Hw. simpl in Hw.
  destruct (resolve i r a m) as [m1 o] eqn:E in *. cbn [fst snd] in *. destruct (resolve_all r l m1) as [m2 wk] in *; cbn [fst snd] in *.
  rewrite elem_of_app, IH. unfold resolve in E. destruct (waiters m !! i) as [v|] eqn:Ei; simplify_eq/=.
  - rewrite (ao_task m Hm _ _ Ei). simpl. rewrite list_elem_of_singleton. split.
    + intros [->|(j & w & Hj & Hl & Ht)]; [exists i, v; set_solver|]. rewrite Hw in Hl. case_decide; [done|].
      exists j, w. set_solver.
    + intros (j & w & Hj & Hl & Ht). destruct (decide (j = i)) as [->|Hne]; [left; congruence|]. right. exists j, w.
      rewrite Hw, decide_False by set_solver. set_solver.
  - split; [intros [[]%elem_of_nil|(j & w & ? & ? & ?)]; exists j, w; set_solver|].
    intros (j & w & Hj & Hl & Ht). right. exists j, w. split; [|done]. apply elem_of_cons in Hj as [->|]; [congruence|done].
Qed.
Lemma resolve_all_NoDup r l m : am_ok m -> NoDup (resolve_all r l m).2.
Proof.
  revert m. induction l as [|[i a] l IH]; intros m Hm; simpl; [by apply NoDup_nil_2|].
  pose proof (resolve_ok i r a m Hm) as Hm1. specialize (IH (resolve i r a m).1 Hm1).
  pose proof (resolve_all_woken r l (resolve i r a m).1) as Hk. pose proof (resolve_all_waiters r [(i, a)] m) as Hw. simpl in Hw.
  destruct (resolve i r a m) as [m1 o] eqn:E in *. cbn [fst snd] in *. destruct (resolve_all r l m1) as [m2 wk] in *; cbn [fst snd] in *.
  unfold resolve in E. destruct (waiters m !! i) as [v|] eqn:Ei; simplify_eq/=; [|done].
  rewrite (ao_task m Hm _ _ Ei). simpl. apply NoDup_cons. split; [|done]. rewrite Hk by done.
  intros (j & w & Hj & Hl & Ht). rewrite Hw in Hl. case_decide as Hd; [done|].
  assert (j = i) by (by eapply (ao_inj m Hm)). set_solver.
Qed.
Lemma resolve_all_record r l m t : am_ok m ->
  wake_records (resolve_all r l m).1 !! t =
  match head (filter (fun p => owner m p.1 = t /\ is_Some (waiters m !! p.1)) l) with
  | Some p => Some (mkRec r p.2)
  | None => wake_records m !! t
  end.
Proof.
  revert m. induction l as [|[i a] l IH]; intros m Hm; simpl; [done|].
  pose proof (resolve_ok i r a m Hm) as Hm1. specialize (IH (resolve i r a m).1 Hm1).
  pose proof (resolve_all_waiters r [(i, a)] m) as Hw. simpl in Hw.
  destruct (resolve i r a m) as [m1 o] eqn:E in *. cbn [fst snd] in *. destruct (resolve_all r l m1) as [m2 wk] in *; cbn [fst snd] in *.
  unfold resolve in E. rewrite filter_cons. destruct (waiters m !! i) as [v|] eqn:Ei; simplify_eq/=.
  - assert (owner m i = task_id v) as Hv by (unfold owner; by rewrite Ei).
    rewrite IH. destruct (decide (task_id v = t)) as [<-|Hne].
    + rewrite decide_True by (cbn; rewrite Ei; eauto). cbn. rewrite filter_none; [cbn; by rewrite lookup_insert_eq|].
      intros [j b] _ [Ho [w Hj]]. cbn in *. unfold owner in Ho. cbn in Ho.
      apply lookup_delete_Some in Hj as [Hne Hj]. rewrite lookup_delete_ne, Hj in Ho by done. cbn in Ho.
      apply Hne. symmetry. by eapply (ao_inj m Hm).
    + rewrite decide_False by (cbn; rewrite Hv; tauto). rewrite lookup_insert_ne by done.
      enough (filter (fun p => owner (mkAM (next_waiter_id m) (delete i (waiters m)) (foldl (index_remove i) (address_index m) (addresses v))
        (<[task_id v:=mkRec r a]> (wake_records m))) p.1 = t /\ is_Some (delete i (waiters m) !! p.1)) l =
        filter (fun p => owner m p.1 = t /\ is_Some (waiters m !! p.1)) l) as -> by done.
      apply list_filter_iff. intros [j b]. unfold owner. cbn. destruct (decide (j = i)) as [->|Hj].
      * rewrite lookup_delete_eq, Ei. cbn. split; [intros [_ [? ?]]; done|tauto].
      * by rewrite lookup_delete_ne.
  - rewrite decide_False; [done|]. intros [_ [? ?]]. congruence.
Qed.
Lemma resolve_all_order r l m : am_ok m -> NoDup l.*1 -> (forall wid, wid ∈ l.*1 -> is_Some (waiters m !! wid)) ->
  (resolve_all r l m).2 = owner m <$> l.*1.
Proof.
  revert m. induction l as [|[i a] l IH]; intros m Hm Hn Hp; simpl; [done|].
  apply NoDup_cons in Hn as [Hni Hn]. pose proof (resolve_ok i r a m Hm) as Hm1.
  pose proof (resolve_all_waiters r [(i, a)] m) as Hw. simpl in Hw. specialize (IH (resolve i r a m).1 Hm1 Hn).
  assert (is_Some (waiters m !! i)) as [v Hv] by (apply Hp; by left).
  destruct (resolve i r a m) as [m1 o] eqn:E in *. cbn [fst snd] in *.
  rewrite (surjective_pairing (resolve_all r l m1)). cbn [snd]. rewrite IH.
  - unfold resolve in E. rewrite Hv in E. simplify_eq/=. rewrite (ao_task m Hm _ _ Hv). simpl.
    f_equal; [unfold owner; by rewrite Hv|]. apply list_fmap_ext. intros k j Hk. unfold owner.
    rewrite Hw, decide_False; [done|]. apply list_elem_of_lookup_2 in Hk. set_solver.
  - intros j Hj. rewrite Hw, decide_False by set_solver. apply Hp. by right.
Qed.

(** ** The wake call *)
Definition distinct (m : AddressWaitManager) : Prop := forall wid w, waiters m !! wid = Some w -> NoDup (addresses w).
Lemma occ_NoDup a l : NoDup l -> occ a l = if decide (a ∈ l) then 1%nat else 0%nat.
Proof.
  unfold occ. induction 1 as [|x l Hx Hn IH]; [done|]. rewrite filter_cons.
  destruct (decide (x = a)) as [->|Hne].
  - cbn. rewrite IH, decide_False by done. rewrite decide_True; [done|by left].
  - rewrite IH. repeat case_decide; set_solver.
Qed.
Lemma bucket_distinct m a : am_ok m -> distinct m ->
  default [] (address_index m !! a) = (filter (fun p => a ∈ addresses p.2) (btree_iter (waiters m))).*1.
Proof.
  intros Hm Hd. rewrite (ao_index m Hm). assert (forall p, p ∈ btree_iter (waiters m) -> NoDup (addresses p.2)) as Hn.
  { intros [i w] Hi. apply elem_of_btree_iter in Hi. by eapply Hd. }
  induction (btree_iter (waiters m)) as [|p l IH]; [done|]. change (p :: l) with ([p] ++ l) at 1. rewrite bucket_app, filter_cons, IH by set_solver.
  unfold bucket_of. simpl. rewrite app_nil_r, occ_NoDup by (apply Hn; by left). by case_decide.
Qed.
Lemma select_spec ws mask n ids : (forall wid, wid ∈ ids -> is_Some (ws !! wid)) ->
  select ws mask n ids = take n (filter (fun wid => default false (admits mask <$> ws !! wid) = true) ids).
Proof.
  revert n. induction ids as [|i ids IH]; intros n Hp; [by destruct n|]. cbn [select].
  assert (is_Some (ws !! i)) as [w Hw] by (apply Hp; by left). rewrite Hw, filter_cons.
  assert (forall wid, wid ∈ ids -> is_Some (ws !! wid)) as Hp' by (intros; apply Hp; by right).
  destruct (admits mask w) eqn:E.
  - rewrite decide_True by (by rewrite Hw). destruct n; [done|]. cbn. by rewrite IH.
  - rewrite decide_False by (rewrite Hw; cbn; congruence). destruct n; [done|]. by rewrite IH.
Qed.
(** The waiters of an address that the mask admits, oldest first. *)
Definition queue_at (addr : Z) (mask : option Z) (m : AddressWaitManager) : list (Z * AddressWaiter) :=
  filter (fun p => addr ∈ addresses p.2 /\ admits mask p.2 = true) (btree_iter (waiters m)).
Lemma queue_at_lookup addr mask n m p : p ∈ take n (queue_at addr mask m) -> waiters m !! p.1 = Some p.2 /\ addr ∈ addresses p.2.
Proof.
  intros Hp. apply elem_of_take in Hp as (j & Hj & _). apply list_elem_of_lookup_2 in Hj.
  apply list_elem_of_filter in Hj as [[??] Hj]. destruct p. by apply elem_of_btree_iter in Hj.
Qed.
Lemma queue_at_NoDup addr mask n m : NoDup (take n (queue_at addr mask m)).*1.
Proof.
  rewrite fmap_take. apply (sublist_NoDup _ (btree_iter (waiters m)).*1); [apply NoDup_btree_iter|].
  etrans; [apply sublist_take|]. apply fmap_sublist, sublist_filter.
Qed.
Lemma select_queue addr mask n m : am_ok m -> distinct m ->
  select (waiters m) mask n (default [] (address_index m !! addr)) = (take n (queue_at addr mask m)).*1.
Proof.
  intros Hm Hd. rewrite (bucket_distinct m addr Hm Hd), fmap_take. unfold queue_at.
  assert (forall p, p ∈ btree_iter (waiters m) -> waiters m !! p.1 = Some p.2) as Hl
    by (intros [i w] Hi; by apply elem_of_btree_iter).
  rewrite select_spec.
  - f_equal. induction (btree_iter (waiters m)) as [|p l IH]; [done|]. rewrite !filter_cons.
    assert (waiters m !! p.1 = Some p.2) as Hp by (apply Hl; by left).
    specialize (IH ltac:(intros; apply Hl; by right)).
    destruct (decide (addr ∈ addresses p.2)) as [Ha|Ha]; [|by rewrite decide_False by tauto].
    cbn [fmap list_fmap]. rewrite filter_cons, Hp. cbn [fmap option_fmap option_map default].
    destruct (admits mask p.2); repeat case_decide; try tauto; cbn; [by f_equal|done].
  - intros wid (p & -> & Hp)%list_elem_of_fmap. apply list_elem_of_filter in Hp as [_ Hp]. apply Hl in Hp. eauto.
Qed.

(** A wake call is first come, first served and exact.  Whatever the
    manager's state, the call wakes the oldest [n] waiters of the address that
    the bit mask admits, oldest first; exactly those leave the manager, every
    index bucket stays consistent, and each woken task finds a record that says
    it was woken at this address. *)
Theorem futex_wake_fifo addr n mask m : am_ok m -> distinct m ->
  let chosen := take n (queue_at addr mask m) in
  let '(m', woken) := wake_matches addr n mask m in
  am_ok m' /\ woken = (fun p => task_id p.2) <$> chosen /\
  (forall wid, waiters m' !! wid = if decide (wid ∈ chosen.*1) then None else waiters m !! wid) /\
  Forall (fun t => wake_records m' !! t = Some (mkRec Signaled addr)) woken.
Proof.
  intros Hm Hd chosen. unfold wake_matches. rewrite select_queue by done. fold chosen.
  set (l := (fun wid => (wid, addr)) <$> chosen.*1).
  assert (l.*1 = chosen.*1) as Hl by (unfold l; rewrite <-list_fmap_compose; apply list_fmap_id).
  pose proof (fun p => queue_at_lookup addr mask n m p) as Hq. fold chosen in Hq.
  assert (forall wid, wid ∈ l.*1 -> is_Some (waiters m !! wid)) as Hpl.
  { intros wid. rewrite Hl. intros (p & -> & Hi)%list_elem_of_fmap. apply Hq in Hi as [? _]. eauto. }
  pose proof (resolve_all_ok Signaled l m Hm) as H1.
  pose proof (resolve_all_order Signaled l m Hm ltac:(rewrite Hl; apply queue_at_NoDup) Hpl) as H2.
  pose proof (resolve_all_waiters Signaled l m) as H3. pose proof (fun t => resolve_all_record Signaled l m t Hm) as H4.
  pose proof (fun t => resolve_all_woken Signaled l m t Hm) as H5.
  destruct (resolve_all Signaled l m) as [m' woken]; cbn [fst snd] in *. rewrite Hl in H2. split_and!; [done| | |].
  - rewrite H2, <-list_fmap_compose. apply list_fmap_ext. intros i p Hi. apply list_elem_of_lookup_2, Hq in Hi as [Hi _].
    unfold owner; cbn. by rewrite Hi.
  - intros wid. by rewrite H3, Hl.
  - apply Forall_forall. intros t Ht. rewrite H4. apply H5 in Ht as (wid & w & Hw & Hl1 & <-).
    set (F := filter _ l). assert ((wid, addr) ∈ F) as Hin.
    { apply list_elem_of_filter. cbn. split; [split; [unfold owner; by rewrite Hl1|eauto]|].
      rewrite Hl in Hw. unfold l. apply list_elem_of_fmap. eauto. }
    assert (forall q, q ∈ F -> q.2 = addr) as HF.
    { intros q [_ Hq']%list_elem_of_filter. unfold l in Hq'. by apply list_elem_of_fmap in Hq' as (? & -> & _). }
    destruct F as [|q F']; [by apply not_elem_of_nil in Hin|]. cbn. rewrite (HF q); [done|by left].
Qed.

(** ** The system invariant: blocked tasks and waiters correspond *)
Record kinv (n : Z) (k : kernel) : Prop := {
  ki_am : am_ok (am k);
  ki_next : next_waiter_id (am k) <= n;
  ki_blocked : forall t c, tasks k !! t = Some (Blocked c) -> exists wid w, waiters (am k) !! wid = Some w /\ task_id w = t;
  ki_waiter : forall wid w, waiters (am k) !! wid = Some w ->
    exists c, tasks k !! task_id w = Some (Blocked c) /\ addresses w = call_addresses c;
  ki_woken : forall t c, tasks k !! t = Some (Woken c) -> exists r, wake_records (am k) !! t = Some r /\
    (reason r = Signaled -> rec_addr r ∈ call_addresses c)
}.
Definition asleep (st : option tstate) : bool := match st with Some (Blocked _) => true | _ => false end.
Definition plain (st : tstate) : bool := match st with Blocked _ | Woken _ => false | _ => true end.

(** A task that is not blocked moves to a state that is neither blocked nor woken. *)
Lemma kinv_plain n k t st f m o : kinv n k -> asleep (tasks k !! t) = false -> plain st = true ->
  kinv n (mkK (am k) f m (<[t := st]> (tasks k)) o).
Proof.
  intros [H1 H2 H3 H4 H5] Ht Hst. split; cbn [am tasks]; auto.
  - intros u c. destruct (decide (u = t)) as [->|Hne]; [rewrite lookup_insert_eq|rewrite lookup_insert_ne by done; apply H3].
    intros; by simplify_eq.
  - intros wid w Hw. destruct (H4 _ _ Hw) as (c & Hc & Ha). exists c. split; [|done].
    destruct (decide (t = task_id w)) as [->|]; [by rewrite Hc in Ht|by rewrite lookup_insert_ne].
  - intros u c. destruct (decide (u = t)) as [->|Hne]; [rewrite lookup_insert_eq|rewrite lookup_insert_ne by done; apply H5].
    intros; by simplify_eq.
Qed.
Lemma kinv_other n k f m o : kinv n k -> kinv n (mkK (am k) f m (tasks k) o).
Proof. by intros []. Qed.
Lemma wake_tasks_lookup l k t :
  tasks (wake_tasks l k) !! t =
  if decide (t ∈ l) then match tasks k !! t with Some (Blocked c) => Some (Woken c) | o => o end else tasks k !! t.
Proof.
  cbn [wake_tasks tasks]. generalize (tasks k) as ths. induction l as [|u l IH]; intros ths; simpl; [done|].
  rewrite IH. assert (wake_task ths u !! t = if decide (t = u) then match ths !! t with Some (Blocked c) => Some (Woken c) | o => o end else ths !! t) as ->.
  { unfold wake_task. destruct (decide (t = u)) as [->|Hne].
    - destruct (ths !! u) as [[]|] eqn:E; try done. by rewrite lookup_insert_eq.
    - destruct (ths !! u) as [[]|]; try done. by rewrite lookup_insert_ne. }
  destruct (decide (t = u)) as [->|Hne].
  - rewrite (decide_True (P := u ∈ u :: l)) by (by left). case_decide; [|done]. by destruct (ths !! u) as [[]|].
  - repeat case_decide; set_solver.
Qed.

(** Resolving waiters and making their tasks ready. *)
Lemma kinv_resolve n k r l : kinv n k ->
  (forall wid w a, (wid, a) ∈ l -> waiters (am k) !! wid = Some w -> r = Signaled -> a ∈ addresses w) ->
  let '(a, woken) := resolve_all r l (am k) in kinv n (wake_tasks woken (set_am a k)).
Proof.
  intros [H1 H2 H3 H4 H5] Hl. pose proof (resolve_all_ok r l _ H1) as G1. pose proof (resolve_all_waiters r l (am k)) as G2.
  pose proof (fun t => resolve_all_woken r l _ t H1) as G3. pose proof (fun t => resolve_all_record r l _ t H1) as G4.
  assert (next_waiter_id (resolve_all r l (am k)).1 = next_waiter_id (am k)) as G5.
  { clear. generalize (am k) as m. induction l as [|[i a] l IH]; intros m; [done|]. simpl.
    specialize (IH (resolve i r a m).1). assert (next_waiter_id (resolve i r a m).1 = next_waiter_id m)
      by (unfold resolve; by destruct (waiters m !! i)).
    destruct (resolve i r a m) as [m1 o]; cbn [fst] in *. destruct (resolve_all r l m1); cbn [fst] in *. congruence. }
  destruct (resolve_all r l (am k)) as [a woken]; cbn [fst snd] in *.
  split; [done|cbn; lia|..]; [intros t c|intros wid w|intros t c]; change (am (wake_tasks woken (set_am a k))) with a;
    rewrite ?wake_tasks_lookup; change (tasks (set_am a k)) with (tasks k).
  - case_decide as Hd; [by destruct (tasks k !! t) as [[]|]|]. intros Hb. destruct (H3 _ _ Hb) as (wid & w & Hw & <-).
    exists wid, w. rewrite G2, decide_False; [done|]. intros Hin. apply Hd, G3. eauto.
  - rewrite G2. case_decide as Hd; [done|]. intros Hw. destruct (H4 _ _ Hw) as (c & Hc & Ha). exists c. split; [|done].
    rewrite decide_False; [done|].
    intros (i & v & Hi & Hv & Ht)%G3. apply Hd. by rewrite <-(ao_inj _ H1 _ _ _ _ Hv Hw Ht).
  - case_decide as Hd.
    + destruct (tasks k !! t) as [[]|] eqn:Et; try done; intros ?; simplify_eq; apply G3 in Hd as (wid & w & Hi & Hw & <-);
        destruct (H4 _ _ Hw) as (c' & Hc' & Ha); rewrite Et in Hc'; simplify_eq.
      rewrite G4. set (F := filter _ l). assert (exists b, (wid, b) ∈ F) as [b Hb].
      { apply list_elem_of_fmap in Hi as ([i b] & -> & Hi). exists b. apply list_elem_of_filter. cbn in *.
        split; [|done]. split; [unfold owner; by rewrite Hw|eauto]. }
      destruct F as [|q F'] eqn:EF; [by apply not_elem_of_nil in Hb|]. eexists; split; [done|]. intros Hr. cbn in Hr |- *.
      assert (q ∈ filter (fun p => owner (am k) p.1 = task_id w /\ is_Some (waiters (am k) !! p.1)) l) as Hq by (fold F; rewrite EF; by left).
      apply list_elem_of_filter in Hq as [[Ho [v Hv]] Hq]. unfold owner in Ho. rewrite Hv in Ho. cbn in Ho.
      rewrite <-Ha. assert (q.1 = wid) as Hqw by (by eapply (ao_inj _ H1)). rewrite Hqw in Hv. destruct q as [i b']; cbn in *; subst.
      by eapply Hl.
    + intros Hw. destruct (H5 _ _ Hw) as (rc & Hrc & Hs). exists rc. split; [|done]. rewrite G4, filter_none; [done|].
      intros [i b] Hi [Ho [v Hv]]. cbn in *. apply Hd, G3. exists i, v. unfold owner in Ho. rewrite Hv in Ho. cbn in Ho.
      split; [|done]. apply list_elem_of_fmap. by exists (i, b).
Qed.
Lemma kinv_mono n n' k : n <= n' -> kinv n k -> kinv n' k.
Proof. intros Hn []. split; auto. lia. Qed.
Lemma block_inv n t c bits dl k : n + 1 < u64_mod -> kinv n k -> tasks k !! t = Some (Checked c bits dl) ->
  kinv (n + 1) (block t c bits dl k).
Proof.
  intros Hn [H1 H2 H3 H4 H5] Ht. pose proof (ao_next _ H1).
  assert (forall wid w, waiters (am k) !! wid = Some w -> task_id w <> t) as Hfr.
  { intros wid w Hw <-. destruct (H4 _ _ Hw) as (? & Hc & _). congruence. }
  set (wid := next_waiter_id (am k)). set (x := mkWaiter t (Some t) (call_addresses c) bits dl).
  split; cbn [block set_task set_am am tasks]; cbn [enqueue waiters next_waiter_id wake_records]; fold wid x.
  - by apply enqueue_ok; [lia| |].
  - rewrite u64_add_small by lia. lia.
  - intros u d. destruct (decide (u = t)) as [->|Hne].
    + intros _. exists wid, x. by rewrite lookup_insert_eq.
    + rewrite lookup_insert_ne by done. intros (i & w & Hi & <-)%H3. exists i, w. rewrite lookup_insert_ne; [done|].
      intros <-. destruct (ao_ids _ H1 _ _ Hi). lia.
  - intros i w. destruct (decide (i = wid)) as [->|Hne].
    + rewrite lookup_insert_eq. intros; simplify_eq/=. exists c. by rewrite lookup_insert_eq.
    + rewrite lookup_insert_ne by done. intros Hw. destruct (H4 _ _ Hw) as (d & Hd & Ha). exists d.
      pose proof (Hfr _ _ Hw). by rewrite lookup_insert_ne.
  - intros u d. destruct (decide (u = t)) as [->|Hne]; [by rewrite lookup_insert_eq|]. rewrite lookup_insert_ne by done. apply H5.
Qed.
Lemma finish_inv n t c k : kinv n k -> tasks k !! t = Some (Woken c) -> kinv n (finish t c k).
Proof.
  intros [H1 H2 H3 H4 H5] Ht. assert (kinv n (set_am (take_record t (am k)).1 (set_task t Running k))) as Hk.
  { split; cbn [set_task set_am am tasks take_record fst waiters next_waiter_id wake_records]; auto.
    - destruct H1. by split.
    - intros u d. destruct (decide (u = t)) as [->|Hne]; [by rewrite lookup_insert_eq|]. rewrite lookup_insert_ne by done. apply H3.
    - intros i w Hw. destruct (H4 _ _ Hw) as (d & Hd & Ha). exists d. rewrite lookup_insert_ne by congruence. done.
    - intros u d. destruct (decide (u = t)) as [->|Hne]; [by rewrite lookup_insert_eq|].
      rewrite !lookup_insert_ne, lookup_delete_ne by done. apply H5. }
  assert (forall st f, plain st = true -> kinv n (mkK (take_record t (am k)).1 f (mem k) (<[t := st]> (tasks k)) (owners k))) as Hg.
  { intros st f Hp. rewrite <-(insert_insert_eq (tasks k) t st Running). eapply (kinv_plain n _ t st f (mem k) (owners k) Hk); [|done].
    cbn. by rewrite lookup_insert_eq. }
  unfold finish. change (take_record t (am k)) with ((take_record t (am k)).1, (take_record t (am k)).2). cbv beta iota.
  unfold answer. destruct c; destruct (reason _); apply (Hg (Returned _)); done.
Qed.
Lemma pi_step_inv n now t st k : kinv n k -> asleep (tasks k !! t) = false -> kinv n (pi_step now t st k).
Proof.
  intros Hk Ht. unfold pi_step, acquired, released, get_queue.
  destruct st; try done; repeat case_match; simplify_eq; try (by apply (kinv_plain n k t)).
Qed.
Lemma wake_inv n addr c mask k : kinv n k -> kinv n (wake_by_address addr c mask k).1.
Proof.
  intros Hk. unfold wake_by_address, wake_matches. set (l := (fun wid => (wid, addr)) <$> _).
  pose proof (kinv_resolve n k Signaled l Hk) as Hr. destruct (resolve_all Signaled l (am k)); cbn [fst].
  apply Hr. intros wid w b Hin Hw _. unfold l in Hin. apply list_elem_of_fmap in Hin as (i & ? & Hi); simplify_eq.
  assert (i ∈ default [] (address_index (am k) !! addr)) as Hb.
  { clear -Hi. revert c Hi. induction (default [] _) as [|j ids IH]; intros c; cbn; [done|].
    destruct c; [by intros ?%elem_of_nil|]. destruct (waiters (am k) !! j); [destruct (admits mask _)|]; set_solver. }
  rewrite (ao_index _ (ki_am _ _ Hk)) in Hb. apply elem_of_bucket in Hb as (v & Hv & Ha).
  apply elem_of_btree_iter in Hv. by simplify_eq.
Qed.
Lemma wake_asleep addr c mask t k : asleep (tasks k !! t) = false -> asleep (tasks (wake_by_address addr c mask k).1 !! t) = false.
Proof.
  intros Ht. unfold wake_by_address. destruct (wake_matches addr c mask (am k)) as [a l]; cbn [fst].
  rewrite wake_tasks_lookup. change (tasks (set_am a k)) with (tasks k). case_decide; [|done]. by destruct (tasks k !! t) as [[]|].
Qed.
Lemma call_inv n now t u op v tn u2 v3 k : kinv n k -> asleep (tasks k !! t) = false ->
  kinv n (default k (sys_futex now t u op v tn u2 v3 k)).
Proof.
  intros Hk Ht. unfold sys_futex. destruct (_ || _).
  - unfold sys_futex_wait. repeat case_match; by apply (kinv_plain n k t).
  - destruct (_ || _).
    + unfold sys_futex_wake. set (mask := if Z.land op 0x7F =? FUTEX_WAKE_BITSET then Some v3 else None). pose proof (wake_inv n u (Z.to_nat v) mask k Hk) as Hw.
      pose proof (wake_asleep u (Z.to_nat v) mask t k Ht) as Ha. destruct (wake_by_address _ _ _ k) as [k1 c]; cbn [fst default] in *.
      by apply (kinv_plain n k1 t).
    + destruct (_ || _); [destruct (sys_futex_requeue _ _ _ _ _) as [[f r]|]; [by apply (kinv_plain n k t)|done]|].
      repeat case_match; by apply (kinv_plain n k t).
Qed.
Lemma exec_inv n now e k : n + 1 < u64_mod -> kinv n k -> kinv (n + 1) (exec now e k).
Proof.
  intros Hn Hk. pose proof (kinv_mono n (n + 1) k ltac:(lia) Hk) as Hk'.
  assert (forall t, idle (tasks k !! t) = true -> asleep (tasks k !! t) = false) as Hi by (intros t; by destruct (tasks k !! t) as [[]|]).
  destruct e as [t u op v tn u2 v3|t p m fl tn|t a c sz ms|a c|t| |a v]; cbn [exec].
  - destruct (idle _) eqn:E; [|done]. by apply call_inv; [|apply Hi].
  - destruct (idle _) eqn:E; [|done]. unfold sys_futex_waitv. repeat case_match; apply (kinv_plain (n + 1) k t); auto.
  - destruct (idle _) eqn:E; [|done]. unfold wait_on_address. repeat case_match; apply (kinv_plain (n + 1) k t); auto.
  - by apply wake_inv.
  - destruct (tasks k !! t) as [st|] eqn:E; [|done]. destruct st; cbn [run_task]; try done;
      [by apply block_inv|by apply finish_inv|..]; apply pi_step_inv; try done; by rewrite E.
  - unfold check_timeouts_call, check_timeouts. set (l := (fun p => _) <$> _).
    pose proof (kinv_resolve (n + 1) k TimedOut l Hk' ltac:(done)) as Hr. destruct (resolve_all TimedOut l (am k)).
    case_match; [|done]. by apply (kinv_other (n + 1) (wake_tasks _ _)).
  - by apply (kinv_other (n + 1) k).
Qed.
Lemma boot_inv m : kinv 1 (boot m).
Proof.
  split; [split|..]; cbn; try done; intros *; by rewrite lookup_empty.
Qed.
Lemma futex_run_inv es n k : n + Z.of_nat (length es) < u64_mod -> kinv n k -> kinv (n + Z.of_nat (length es)) (run es k).
Proof.
  revert n k. induction es as [|e es IH]; intros n k Hn Hk; cbn [length run foldl] in *; [by rewrite Z.add_0_r|].
  replace (n + Z.of_nat (S (length es))) with (n + 1 + Z.of_nat (length es)) by lia. apply IH; [lia|]. apply exec_inv; [lia|done].
Qed.

(** C11: No blocked task is lost.  After any history of futex calls, address
    waits, wake-ups, timeouts and user stores, every blocked task has exactly
    one entry in the manager, and that entry is in the bucket of each address
    the task waits on, so a wake-up of any of them can find it; the manager
    holds no other task; and a task that was woken finds its wake record, at an
    address it waited on when it was signalled. *)
Theorem futex_no_lost_task es m : Z.of_nat (length es) + 1 < u64_mod ->
  let k := run es (boot m) in
  (forall t c, tasks k !! t = Some (Blocked c) -> exists wid w, waiters (am k) !! wid = Some w /\ task_id w = t /\
     (forall a, a ∈ call_addresses c -> exists ids, address_index (am k) !! a = Some ids /\ wid ∈ ids) /\
     forall j v, waiters (am k) !! j = Some v -> task_id v = t -> j = wid) /\
  (forall wid w, waiters (am k) !! wid = Some w -> exists c, tasks k !! task_id w = Some (Blocked c)) /\
  (forall t c, tasks k !! t = Some (Woken c) -> exists r, wake_records (am k) !! t = Some r /\
     (reason r = Signaled -> rec_addr r ∈ call_addresses c)).
Proof.
  intros Hn k. pose proof (futex_run_inv es 1 (boot m) ltac:(lia) (boot_inv m)) as [H1 H2 H3 H4 H5]. fold k in H1, H2, H3, H4, H5.
  split_and!; [|intros wid w (c & ? & _)%H4; eauto|done].
  intros t c Hb. destruct (H3 _ _ Hb) as (wid & w & Hw & <-). exists wid, w. split_and!; [done|done| |].
  - intros a Ha. destruct (H4 _ _ Hw) as (c' & Hc' & Haddr). rewrite Hb in Hc'. simplify_eq.
    assert (wid ∈ default [] (address_index (am k) !! a)) as Hin.
    { rewrite (ao_index _ H1). unfold bucket_of. apply list_elem_of_In, in_concat.
      exists (replicate (occ a (addresses w)) wid). split; apply list_elem_of_In.
      - apply list_elem_of_fmap. exists (wid, w). split; [done|]. by apply elem_of_btree_iter.
      - apply elem_of_replicate. split; [done|]. unfold occ. rewrite Haddr.
        assert (a ∈ filter (fun x => x = a) (call_addresses c')) as Hf by (by apply list_elem_of_filter).
        destruct (filter _ _); [by apply not_elem_of_nil in Hf|done]. }
    destruct (address_index (am k) !! a) as [ids|]; [eauto|by apply not_elem_of_nil in Hin].
  - intros j v Hv Ht. by eapply (ao_inj _ H1).
Qed.

Definition timeout_answer (c : wcall) : Z := match c with WAddress _ => 0 | _ => ETIMEDOUT end.
Lemma finish_timeout now t c b k : tasks k !! t = Some (Woken c) -> wake_records (am k) !! t = Some (mkRec TimedOut b) ->
  tasks (exec now (Step t) k) !! t = Some (Returned (timeout_answer c)).
Proof.
  intros Ht Hr. cbn [exec]. rewrite Ht. cbn [run_task]. unfold finish. cbn [take_record]. rewrite Hr.
  destruct c; simpl; apply lookup_insert_eq.
Qed.
(** The waiters the tick handler resolves. *)
Definition due_list (now : Z) (m : AddressWaitManager) : list (Z * Z) :=
  (fun p => (p.1, default 0 (head (addresses p.2)))) <$> filter (fun p => expired now p.2 = true) (btree_iter (waiters m)).
Lemma elem_of_due now m i : i ∈ (due_list now m).*1 <-> exists v, waiters m !! i = Some v /\ expired now v = true.
Proof.
  unfold due_list. rewrite <-list_fmap_compose, list_elem_of_fmap. split.
  - intros ([j v] & -> & [He Hj]%list_elem_of_filter). apply elem_of_btree_iter in Hj. eauto.
  - intros (v & Hv & He). exists (i, v). split; [done|]. apply list_elem_of_filter. split; [done|]. by apply elem_of_btree_iter.
Qed.
Lemma due_record now m wid w : am_ok m -> waiters m !! wid = Some w -> expired now w = true ->
  exists b, wake_records (resolve_all TimedOut (due_list now m) m).1 !! task_id w = Some (mkRec TimedOut b).
Proof.
  intros H1 Hw He. rewrite resolve_all_record by done. set (F := filter _ _).
  assert (wid ∈ (due_list now m).*1) as ([i b] & Hi & Hin)%list_elem_of_fmap by (rewrite elem_of_due; eauto). cbn in Hi; subst i.
  assert ((wid, b) ∈ F) as HF by (apply list_elem_of_filter; split; [cbn; unfold owner; rewrite Hw; eauto|done]).
  destruct F; [by apply not_elem_of_nil in HF|]. cbn. eauto.
Qed.

(** Timeouts fire exactly when due.  The tick handler wakes precisely the
    waiting tasks whose deadline has been reached; such a task's call then
    returns the timeout error (false for [wait_on_address]), and every other
    waiter stays. *)
Theorem futex_timeout_exact es m now wid w : Z.of_nat (length es) + 1 < u64_mod ->
  let k := run es (boot m) in
  let k' := exec now Tick k in
  waiters (am k) !! wid = Some w ->
  (expired now w = false -> waiters (am k') !! wid = Some w /\ asleep (tasks k' !! task_id w) = true) /\
  (expired now w = true -> waiters (am k') !! wid = None /\
     exists c, tasks k' !! task_id w = Some (Woken c) /\
     tasks (exec now (Step (task_id w)) k') !! task_id w = Some (Returned (timeout_answer c))).
Proof.
  intros Hn k k' Hw. pose proof (futex_run_inv es 1 (boot m) ltac:(lia) (boot_inv m)) as [H1 H2 H3 H4 H5]. fold k in H1, H2, H3, H4, H5.
  destruct (H4 _ _ Hw) as (c & Hc & Ha). pose proof (resolve_all_waiters TimedOut (due_list now (am k)) (am k)) as G2.
  pose proof (fun t => resolve_all_woken TimedOut (due_list now (am k)) _ t H1) as G3. pose proof (due_record now (am k) wid w H1 Hw) as G4.
  assert (exists a woken f, resolve_all TimedOut (due_list now (am k)) (am k) = (a, woken) /\
    k' = set_fm f (wake_tasks woken (set_am a k))) as (a & woken & f & E & Hk').
  { unfold k'. cbn [exec]. unfold check_timeouts_call, check_timeouts. fold (due_list now (am k)).
    destruct (resolve_all _ _ _) as [a woken]. exists a, woken.
    case_match; [by eexists|by exists (fm k)]. }
  rewrite E in G2, G3, G4; cbn [fst snd] in *. assert (forall t, tasks k' !! t = tasks (wake_tasks woken (set_am a k)) !! t) as Ht by (by rewrite Hk').
  assert (am k' = a) as Hak by (by rewrite Hk'). assert (task_id w ∈ woken <-> expired now w = true) as Hiff.
  { rewrite G3. split; [|intros He; exists wid, w; rewrite elem_of_due; eauto].
    intros (i & v & (v' & Hv' & He)%elem_of_due & Hv & Hti). assert (i = wid) as -> by (by eapply (ao_inj _ H1)). congruence. }
  split; intros He; (split; [rewrite Hak, G2|]).
  - rewrite decide_False; [done|]. rewrite elem_of_due. intros (v & Hv & Hev). congruence.
  - rewrite Ht, wake_tasks_lookup. cbn [set_am tasks]. rewrite decide_False by (rewrite Hiff, He; done). by rewrite Hc.
  - rewrite decide_True; [done|]. rewrite elem_of_due. eauto.
  - exists c. assert (tasks k' !! task_id w = Some (Woken c)) as Hwk.
    { rewrite Ht, wake_tasks_lookup. cbn [set_am tasks]. rewrite decide_True by (by apply Hiff). by rewrite Hc. }
    split; [done|]. destruct (G4 He) as [b Hb]. eapply finish_timeout; [done|]. by rewrite Hak.
Qed.

(** ** The priority-inheritance lock *)
Definition bytes_ok (u : Z) (m : umem) : Prop := forall x, u <= x < u + 4 -> 0 <= m x < 256.
Lemma read_write u v m : is_u32 v -> read_u32 (write_u32 u v m) u = v /\ bytes_ok u (write_u32 u v m).
Proof.
  intros Hv. split.
  - unfold read_u32, write_u32. rewrite Z.eqb_refl. replace (u + 1 =? u) with false by lia. replace (u + 2 =? u) with false by lia.
    replace (u + 3 =? u) with false by lia. rewrite !Z.eqb_refl. replace (u + 2 =? u + 1) with false by lia.
    replace (u + 3 =? u + 1) with false by lia. replace (u + 3 =? u + 2) with false by lia. revert Hv. mlia.
  - intros x Hx. unfold write_u32. repeat case_match; simplify_bool; try (apply Z.mod_pos_bound; lia). lia.
Qed.
Lemma read_range u m : bytes_ok u m -> is_u32 (read_u32 m u).
Proof.
  intros H. pose proof (H u ltac:(lia)). pose proof (H (u + 1) ltac:(lia)). pose proof (H (u + 2) ltac:(lia)).
  pose proof (H (u + 3) ltac:(lia)). unfold read_u32. mlia.
Qed.
Lemma read_far u a v m : a + 3 < u \/ u + 3 < a ->
  read_u32 (write_u32 a v m) u = read_u32 m u /\ (bytes_ok u m -> bytes_ok u (write_u32 a v m)).
Proof.
  intros Hd. assert (forall x, u <= x < u + 4 -> write_u32 a v m x = m x) as He.
  { intros x Hx. unfold write_u32. repeat case_match; simplify_bool; lia || done. }
  unfold read_u32. rewrite !He by lia. split; [done|]. intros Hb x Hx. rewrite He by lia. auto.
Qed.
Lemma owner_small t : 0 < t < 2 ^ 30 -> as_u32 t = t /\ Z.land t OWNER = t.
Proof.
  intros Ht. split; [unfold as_u32, u32_mod; apply Z.mod_small; lia|].
  change OWNER with (Z.ones 30). rewrite Z.land_ones by lia. apply Z.mod_small. lia.
Qed.
Lemma mark_owner v : Z.land (Z.lor v WAITERS_BIT) OWNER = Z.land v OWNER.
Proof. rewrite Z.land_lor_distr_l. change (Z.land WAITERS_BIT OWNER) with 0. apply Z.lor_0_r. Qed.

(** The only lock word in use is [u], and nobody else stores to it. *)
Definition pi_ok (u : Z) (e : event) : Prop :=
  match e with
  | Call t v op _ _ _ _ => Z.land op 0x7F = FUTEX_LOCK_PI \/ Z.land op 0x7F = FUTEX_UNLOCK_PI -> v = u /\ 0 < t < 2 ^ 30
  | Store a _ => a + 3 < u \/ u + 3 < a
  | _ => True
  end.
Definition pi_state (u t : Z) (own : list (Z * Z)) (st : tstate) : Prop :=
  match st with
  | PiStart v _ | PiMark v _ | PiMarkCas v _ _ | PiQueue v _ | PiSpin v _ _ _ | PiYield v | PiRetry v | UnlockStart v | UnlockQueue v =>
      v = u /\ 0 < t < 2 ^ 30
  | PiSpinCas v _ _ _ val | PiRetryCas v val => v = u /\ 0 < t < 2 ^ 30 /\ Z.land val OWNER = 0
  | UnlockStore v => v = u /\ 0 < t < 2 ^ 30 /\ (u, t) ∈ own
  | _ => True
  end.
Record pi_inv (u : Z) (k : kernel) : Prop := {
  pi_bytes : bytes_ok u (mem k);
  pi_word : (owners k = [] /\ Z.land (word u k) OWNER = 0) \/
            exists t, owners k = [(u, t)] /\ Z.land (word u k) OWNER = t /\ 0 < t < 2 ^ 30;
  pi_tasks : forall t st, tasks k !! t = Some st -> pi_state u t (owners k) st
}.
Lemma pi_set u k t st f : pi_inv u k -> pi_state u t (owners k) st ->
  pi_inv u (mkK (am k) f (mem k) (<[t := st]> (tasks k)) (owners k)).
Proof.
  intros [H1 H2 H3] Hst. split; cbn; [done|done|]. intros t' st'. destruct (decide (t' = t)) as [->|Hne];
    [rewrite lookup_insert_eq|rewrite lookup_insert_ne by done; apply H3]. by intros; simplify_eq.
Qed.
Lemma pi_acquired u t k : pi_inv u k -> 0 < t < 2 ^ 30 -> Z.land (word u k) OWNER = 0 -> pi_inv u (acquired u t k).
Proof.
  intros [H1 H2 H3] Ht Hw. destruct H2 as [[Ho _]|(t' & _ & E & ?)]; [|lia]. destruct (owner_small t Ht) as [Ea El].
  destruct (read_write u (as_u32 t) (mem k)) as [Er Eb]; [rewrite Ea; mlia|]. split; cbn [acquired store_u32 mem tasks owners]; [done| |].
  - right. exists t. unfold word; cbn [mem acquired store_u32]. rewrite Ho, Er, Ea. auto.
  - intros t' st'. rewrite Ho. destruct (decide (t' = t)) as [->|Hne]; [rewrite lookup_insert_eq; by intros; simplify_eq|].
    rewrite lookup_insert_ne by done. intros Hs. specialize (H3 _ _ Hs). rewrite Ho in H3.
    destruct st'; try done. destruct H3 as (_ & _ & Hin). by apply not_elem_of_nil in Hin.
Qed.
Lemma pi_released u t k : pi_inv u k -> 0 < t < 2 ^ 30 -> (u, t) ∈ owners k -> pi_inv u (released u t k).
Proof.
  intros [H1 H2 H3] Ht Hin. destruct H2 as [[Ho _]|(t' & Ho & E & _)]; rewrite Ho in Hin; [by apply not_elem_of_nil in Hin|].
  apply list_elem_of_singleton in Hin; simplify_eq. destruct (read_write u 0 (mem k)) as [Er Eb]; [mlia|].
  assert (filter (fun o => o <> (u, Z.land (word u k) OWNER)) (owners k) = []) as Hf.
  { rewrite Ho. rewrite filter_cons_False by tauto. done. }
  split; cbn [released store_u32 mem tasks owners]; [done| |].
  - left. split; [done|]. unfold word; cbn [mem released store_u32]. by rewrite Er.
  - rewrite Hf. intros t' st'. destruct (decide (t' = Z.land (word u k) OWNER)) as [->|Hne]; [rewrite lookup_insert_eq; by intros; simplify_eq|].
    rewrite lookup_insert_ne by done. intros Hs. specialize (H3 _ _ Hs). rewrite Ho in H3.
    destruct st'; try done. destruct H3 as (_ & _ & Hi). apply list_elem_of_singleton in Hi. congruence.
Qed.
Lemma pi_marked u t tn k : pi_inv u k -> 0 < t < 2 ^ 30 ->
  pi_inv u (set_task t (PiQueue u tn) (store_u32 u (Z.lor (word u k) WAITERS_BIT) k)).
Proof.
  intros [H1 H2 H3] Ht. pose proof (read_range u _ H1) as Hr.
  destruct (read_write u (Z.lor (word u k) WAITERS_BIT) (mem k)) as [Er Eb].
  { apply lor_range; [lia|exact Hr|]. vm_compute. split; congruence. }
  apply (pi_set u (store_u32 u (Z.lor (word u k) WAITERS_BIT) k) t (PiQueue u tn)); [|done]. split; cbn [store_u32 mem tasks owners]; [done| |done].
  unfold word in *; cbn [mem store_u32]. by rewrite Er, mark_owner.
Qed.
Lemma pi_step_pi u now t st k : pi_inv u k -> tasks k !! t = Some st -> pi_inv u (pi_step now t st k).
Proof.
  intros Hk Ht. pose proof (pi_tasks u k Hk _ _ Ht) as Hst. unfold pi_step, get_queue.
  destruct st as [| | | |v tn|v tn|v tn cur|v tn|v tk s0 [|n]|v tk s0 n val|v|v|v val|v|v|v|r]; try done; cbn [pi_state] in Hst;
    try (destruct Hst as (-> & Hv & Hs)); try (destruct Hst as [-> Hv]).
  - case_match; simplify_bool; [apply pi_acquired; auto; by rewrite H|by apply (pi_set u k t)].
  - by apply (pi_set u k t).
  - case_match; simplify_bool; subst; [by apply pi_marked|by apply (pi_set u k t)].
  - case_match; by apply (pi_set u k t).
  - case_match; by apply (pi_set u k t).
  - case_match; simplify_bool; by apply (pi_set u k t).
  - case_match; simplify_bool; [apply pi_acquired; auto; congruence|by apply (pi_set u k t)].
  - by apply (pi_set u k t).
  - case_match; simplify_bool; by apply (pi_set u k t).
  - case_match; simplify_bool; [apply pi_acquired; auto; congruence|by apply (pi_set u k t)].
  - case_match; simplify_bool; [by apply (pi_set u k t)|]. apply (pi_set u k t); [done|]. cbn [pi_state]. split_and!; [done|lia|lia|].
    destruct (owner_small t ltac:(lia)) as [Ea _]. destruct (pi_word u k Hk) as [[_ E]|(t' & Ho & E & _)]; [lia|].
    rewrite Ho. apply list_elem_of_singleton. congruence.
  - by apply pi_released.
  - repeat case_match; simplify_eq; by apply (pi_set u k t).
Qed.
(** Events that do not touch the lock: memory and owners stay, and tasks move outside the lock's states. *)
Definition off_lock (st : tstate) : bool :=
  match st with Running | Checked _ _ _ | Blocked _ | Woken _ | Returned _ => true | _ => false end.
Lemma pi_frame u k k' : pi_inv u k -> mem k' = mem k -> owners k' = owners k ->
  (forall t st, tasks k' !! t = Some st -> tasks k !! t = Some st \/ off_lock st = true) -> pi_inv u k'.
Proof.
  intros [H1 H2 H3] Em Eo Ht. unfold word in *. split; unfold word; rewrite ?Em, ?Eo; [done|done|].
  intros t st Hs. destruct (Ht _ _ Hs) as [Ho|Ho]; [auto|by destruct st].
Qed.
Lemma off_insert (ths : gmap Z tstate) t st : off_lock st = true ->
  forall t' st', <[t := st]> ths !! t' = Some st' -> ths !! t' = Some st' \/ off_lock st' = true.
Proof.
  intros Ho t' st'. destruct (decide (t' = t)) as [->|]; [rewrite lookup_insert_eq|rewrite lookup_insert_ne by done; auto].
  intros; simplify_eq. auto.
Qed.
Lemma off_wake l k t st : tasks (wake_tasks l k) !! t = Some st -> tasks k !! t = Some st \/ off_lock st = true.
Proof.
  rewrite wake_tasks_lookup. case_decide; [|auto]. destruct (tasks k !! t) as [[]|]; intros; simplify_eq; auto.
Qed.
Lemma pi_wake u a c mask k : pi_inv u k -> pi_inv u (wake_by_address a c mask k).1.
Proof.
  intros Hk. unfold wake_by_address. destruct (wake_matches a c mask (am k)) as [m l]; cbn [fst].
  apply (pi_frame u k); auto. intros t st Hs. by apply off_wake in Hs.
Qed.
Lemma pi_call u now t v op val tn u2 v3 k : pi_inv u k -> pi_ok u (Call t v op val tn u2 v3) ->
  pi_inv u (default k (sys_futex now t v op val tn u2 v3 k)).
Proof.
  intros Hk Hok. cbn [pi_ok] in Hok. unfold sys_futex. destruct (_ || _).
  - unfold sys_futex_wait. repeat case_match; (apply (pi_frame u k); auto; by apply off_insert).
  - destruct (_ || _).
    + unfold sys_futex_wake. set (mask := if Z.land op 0x7F =? FUTEX_WAKE_BITSET then Some v3 else None).
      pose proof (pi_wake u v (Z.to_nat val) mask k Hk) as Hw. destruct (wake_by_address _ _ _ k) as [k1 c]; cbn [fst default] in *.
      apply (pi_frame u k1); auto. by apply off_insert.
    + destruct (_ || _); [destruct (sys_futex_requeue _ _ _ _ _) as [[f r]|]; [apply (pi_frame u k); auto; by apply off_insert|done]|].
      destruct (_ =? FUTEX_LOCK_PI) eqn:E1; [simplify_bool; by apply (pi_set u k t); [|apply Hok; left]|].
      destruct (_ =? FUTEX_UNLOCK_PI) eqn:E2; [simplify_bool; by apply (pi_set u k t); [|apply Hok; right]|].
      apply (pi_frame u k); auto. by apply off_insert.
Qed.
Lemma pi_exec u now e k : pi_ok u e -> pi_inv u k -> pi_inv u (exec now e k).
Proof.
  intros Ho Hk. destruct e as [t v op val tn u2 v3|t p m fl tn|t a c sz ms|a c|t| |a v]; cbn [exec].
  - destruct (idle _); [by apply pi_call|done].
  - destruct (idle _); [|done]. unfold sys_futex_waitv. repeat case_match; (apply (pi_frame u k); auto; by apply off_insert).
  - destruct (idle _); [|done]. unfold wait_on_address. repeat case_match; (apply (pi_frame u k); auto; by apply off_insert).
  - by apply pi_wake.
  - destruct (tasks k !! t) as [st|] eqn:E; [|done]. destruct st; cbn [run_task]; try done;
      try (by apply pi_step_pi).
    + apply (pi_frame u k); auto. by apply off_insert.
    + unfold finish, answer. cbn [take_record]. destruct c; destruct (reason _); (apply (pi_frame u k); auto; by apply off_insert).
  - unfold check_timeouts_call. destruct (check_timeouts now (am k)) as [m l].
    case_match; apply (pi_frame u k); auto; intros t st Hs; by apply off_wake in Hs.
  - destruct Hk as [H1 H2 H3]. destruct (read_far u a v (mem k) Ho) as [Er Eb].
    split; cbn [store_u32 mem owners tasks]; [auto| |done]. unfold word in *; cbn [store_u32 mem]. by rewrite Er.
Qed.

(** C35: The priority-inheritance lock excludes.  For every interleaving of the
    single accesses of any number of FUTEX_LOCK_PI and FUTEX_UNLOCK_PI calls on a
    lock word that starts at 0, together with all other futex calls, timer ticks
    and stores elsewhere in memory, at most one task has been given the lock and
    not released it, and the owner field of the word is that task's number, or 0
    when the lock is free.  Task numbers are nonzero and below 2^30, as the owner
    field needs, all lock calls name this word, and user programs do not write
    the word themselves. *)
Theorem futex_pi_exclusion u es m : bytes_ok u m -> read_u32 m u = 0 -> Forall (fun e => pi_ok u e.2) es ->
  let k := run es (boot m) in
  (owners k = [] /\ Z.land (word u k) OWNER = 0) \/ exists t, owners k = [(u, t)] /\ Z.land (word u k) OWNER = t.
Proof.
  intros Hb H0 He k. assert (pi_inv u k) as [_ Hw _].
  { unfold k. assert (pi_inv u (boot m)) as Hs.
    { split; cbn; [done|left; unfold word; cbn; by rewrite H0|]. intros *. by rewrite lookup_empty. }
    clear H0. revert Hs. generalize (boot m) as s. unfold run. clear k.
    induction He as [|e es Ho _ IH]; intros s Hs; [done|]. cbn [foldl]. by apply IH, pi_exec. }
  destruct Hw as [?|(t & ? & ? & ?)]; [by left|right; eauto].
Qed.

(** ** Requeueing *)
Definition no_lock_pi (e : event) : bool := match e with Call _ _ op _ _ _ _ => negb (Z.land op 0x7F =? FUTEX_LOCK_PI) | _ => true end.
Definition no_pi_state (st : tstate) : bool := match st with PiStart _ _ | PiMark _ _ | PiMarkCas _ _ _ | PiQueue _ _ => false | _ => true end.
Record queues_empty (k : kernel) : Prop := {
  qe_q : forall a q, queues (fm k) !! a = Some q -> q_waiters q = [];
  qe_t : forall t st, tasks k !! t = Some st -> no_pi_state st = true
}.
Lemma requeue_empty u n u2 v3 f : u <> u2 -> (forall a q, queues f !! a = Some q -> q_waiters q = []) ->
  exists f', sys_futex_requeue u n u2 v3 f = Some (f', 0) /\ forall a q, queues f' !! a = Some q -> q_waiters q = [].
Proof.
  intros Hne Hq. assert (forall a f0 q, (forall a q, queues f0 !! a = Some q -> q_waiters q = []) -> get_queue a f0 = (q.1, q.2) ->
    q_waiters q.2 = [] /\ forall a q', queues q.1 !! a = Some q' -> q_waiters q' = []) as Hg.
  { intros a f0 [f1 q] H0. unfold get_queue. destruct (queues f0 !! a) eqn:E; intros ?; simplify_eq/=; [eauto|].
    split; [done|]. intros b q'. destruct (decide (b = a)) as [->|]; [rewrite lookup_insert_eq; by intros; simplify_eq|].
    rewrite lookup_insert_ne by done. apply H0. }
  unfold sys_futex_requeue. destruct (get_queue u f) as [f1 q1] eqn:E1. destruct (Hg u f (f1, q1) Hq E1) as [_ H1]. cbn [fst snd] in H1.
  destruct (get_queue u2 f1) as [f2 q2] eqn:E2. destruct (Hg u2 f1 (f2, q2) H1 E2) as [Hq2 H2]. cbn [fst snd] in Hq2, H2.
  replace (u =? u2) with false by lia. assert (q_waiters (default q_new (queues f2 !! u)) = []) as Hd.
  { destruct (queues f2 !! u) eqn:E; [by eapply H2|done]. }
  unfold wake_waiters. rewrite Hd. destruct (Z.to_nat n); cbn; (eexists; split; [reflexivity|]); cbn; intros a q;
    (destruct (decide (a = u2)) as [->|]; [rewrite lookup_insert_eq; intros; simplify_eq/=; by rewrite Hq2|]);
    rewrite lookup_insert_ne by done; intros [_ ?]%lookup_delete_Some; by eapply H2.
Qed.
Lemma queues_frame k k' : queues_empty k -> queues (fm k') = queues (fm k) ->
  (forall t st, tasks k' !! t = Some st -> tasks k !! t = Some st \/ no_pi_state st = true) -> queues_empty k'.
Proof. intros [H1 H2] Hf Ht. split; [by rewrite Hf|]. intros t st Hs. destruct (Ht _ _ Hs); eauto. Qed.
Lemma quiet_insert (ths : gmap Z tstate) t st : no_pi_state st = true ->
  forall t' st', <[t := st]> ths !! t' = Some st' -> ths !! t' = Some st' \/ no_pi_state st' = true.
Proof.
  intros Ho t' st'. destruct (decide (t' = t)) as [->|]; [rewrite lookup_insert_eq|rewrite lookup_insert_ne by done; auto].
  intros; simplify_eq. auto.
Qed.
Lemma quiet_wake l k t st : tasks (wake_tasks l k) !! t = Some st -> tasks k !! t = Some st \/ no_pi_state st = true.
Proof. intros [?|Ho]%off_wake; [auto|right; by destruct st]. Qed.
Lemma queues_wake a c mask k : queues_empty k -> queues_empty (wake_by_address a c mask k).1.
Proof.
  intros Hk. unfold wake_by_address. destruct (wake_matches a c mask (am k)) as [m l]; cbn [fst].
  apply (queues_frame k); auto. intros t st Hs. by apply quiet_wake in Hs.
Qed.
Lemma queues_get u f f1 q : (forall a q, queues f !! a = Some q -> q_waiters q = []) -> get_queue u f = (f1, q) ->
  q_waiters q = [] /\ forall a q', queues f1 !! a = Some q' -> q_waiters q' = [].
Proof.
  intros H0. unfold get_queue. destruct (queues f !! u) eqn:E; intros ?; simplify_eq/=; [eauto|]. split; [done|].
  intros b q'. destruct (decide (b = u)) as [->|]; [rewrite lookup_insert_eq; by intros; simplify_eq|].
  rewrite lookup_insert_ne by done. apply H0.
Qed.
Lemma queues_call now t v op val tn u2 v3 k : queues_empty k -> no_lock_pi (Call t v op val tn u2 v3) = true ->
  queues_empty (default k (sys_futex now t v op val tn u2 v3 k)).
Proof.
  intros Hk Hok. cbn [no_lock_pi] in Hok. unfold sys_futex. destruct (_ || _).
  - unfold sys_futex_wait. repeat case_match; (apply (queues_frame k); auto; by apply quiet_insert).
  - destruct (_ || _).
    + unfold sys_futex_wake. set (mask := if Z.land op 0x7F =? FUTEX_WAKE_BITSET then Some v3 else None).
      pose proof (queues_wake v (Z.to_nat val) mask k Hk) as Hw. destruct (wake_by_address _ _ _ k) as [k1 c]; cbn [fst default] in *.
      apply (queues_frame k1); auto. by apply quiet_insert.
    + destruct (_ || _); [|destruct (_ =? FUTEX_LOCK_PI); [done|]; case_match; (apply (queues_frame k); auto; by apply quiet_insert)].
      destruct (decide (v = u2)) as [->|Hne].
      * unfold sys_futex_requeue. destruct (get_queue u2 (fm k)) as [f1 ?]. destruct (get_queue u2 f1) as [f2 ?]. by rewrite Z.eqb_refl.
      * destruct (requeue_empty v val u2 (if Z.land op 0x7F =? FUTEX_REQUEUE then 0 else v3) (fm k) Hne (qe_q k Hk)) as (f & -> & Hf).
        cbn. split; [done|]. intros t' st' Hs. apply quiet_insert in Hs; [|done]. destruct Hs; [by eapply qe_t|done].
Qed.
Lemma queues_step now t st k : queues_empty k -> tasks k !! t = Some st -> queues_empty (run_task now t st k).
Proof.
  intros Hk Ht. pose proof (qe_t k Hk t st Ht) as Hn. destruct st; cbn [run_task]; try done;
    try (unfold pi_step; repeat case_match; simplify_eq; apply (queues_frame k); auto; by apply quiet_insert).
  - unfold finish, answer. cbn [take_record]. destruct c; destruct (reason _); (apply (queues_frame k); auto; by apply quiet_insert).
  - cbn [pi_step]. destruct (get_queue u (fm k)) as [f q] eqn:Eg. destruct (queues_get u (fm k) f q (qe_q k Hk) Eg) as [Hq Hf].
    rewrite Hq. split; [done|]. intros t' st' Hs. apply quiet_insert in Hs; [|done]. destruct Hs; [by eapply qe_t|done].
Qed.
Lemma queues_exec now e k : no_lock_pi e = true -> queues_empty k -> queues_empty (exec now e k).
Proof.
  intros Ho Hk. destruct e as [t v op val tn u2 v3|t p m fl tn|t a c sz ms|a c|t| |a v]; cbn [exec].
  - destruct (idle _); [by apply queues_call|done].
  - destruct (idle _); [|done]. unfold sys_futex_waitv. repeat case_match; (apply (queues_frame k); auto; by apply quiet_insert).
  - destruct (idle _); [|done]. unfold wait_on_address. repeat case_match; (apply (queues_frame k); auto; by apply quiet_insert).
  - by apply queues_wake.
  - destruct (tasks k !! t) as [st|] eqn:E; [|done]. by apply queues_step.
  - unfold check_timeouts_call. destruct (check_timeouts now (am k)) as [m l].
    case_match; apply (queues_frame k); auto; intros t st Hs; by apply quiet_wake in Hs.
  - by apply (queues_frame k); auto.
Qed.

(** Requeueing never reaches a waiting task.  The requeue calls work on
    the per-address queues of [FutexManager], and no wait call puts a task
    there: after any history without the priority-inheritance lock, requeueing
    answers 0 and leaves the address-wait manager, every other task and the
    memory as they were, and with one address for both queues it does not
    return. *)
Theorem futex_requeue_inert es m now t u op n tn u2 v3 : Forall (fun e => no_lock_pi e.2 = true) es ->
  Z.land op 0x7F = FUTEX_REQUEUE \/ Z.land op 0x7F = FUTEX_CMP_REQUEUE ->
  let k := run es (boot m) in
  if u =? u2 then sys_futex now t u op n tn u2 v3 k = None
  else exists f, sys_futex now t u op n tn u2 v3 k = Some (set_task t (Returned 0) (set_fm f k)).
Proof.
  intros He Hop k. assert (queues_empty k) as Hk.
  { unfold k. assert (queues_empty (boot m)) as Hs by (split; cbn; intros *; by rewrite lookup_empty).
    revert Hs. generalize (boot m) as s. unfold run. clear k.
    induction He as [|e es Ho _ IH]; intros s Hs; [done|]. cbn [foldl]. by apply IH, queues_exec. }
  unfold sys_futex. destruct (_ || _) eqn:E1; [by destruct Hop as [Hop|Hop]; rewrite Hop in E1|].
  destruct ((_ =? FUTEX_WAKE) || _) eqn:E2; [by destruct Hop as [Hop|Hop]; rewrite Hop in E2|].
  destruct ((_ =? FUTEX_REQUEUE) || _) eqn:E3; [|by destruct Hop as [Hop|Hop]; rewrite Hop in E3].
  case_match; simplify_bool.
  - subst. unfold sys_futex_requeue. destruct (get_queue u2 (fm k)) as [f1 ?]. destruct (get_queue u2 f1) as [f2 ?]. by rewrite Z.eqb_refl.
  - destruct (requeue_empty u n u2 (if Z.land op 0x7F =? FUTEX_REQUEUE then 0 else v3) (fm k)) as (f & -> & _);
      [done|apply (qe_q k Hk)|]. by exists f.
Qed.


(** The state after the four steps of the race below. *)
Lemma lost_wakeup_state now t t2 a v v' m : t <> t2 -> compare_u32 m a v = true ->
  run [(now, Call t a FUTEX_WAIT v 0 0 0); (now, Store a v'); (now, Call t2 a FUTEX_WAKE 1 0 0 0); (now, Step t)] (boot m) =
  block t (WFutex a) u32_max None
    (set_task t2 (Returned 0) (store_u32 a v'
       (set_task t (Checked (WFutex a) u32_max None) (set_fm (count_wakes 0 (count_wait fm_new)) (boot m))))).
Proof.
  intros Hne Hc. unfold run. cbn [foldl fst snd]. unfold exec at 4. cbn [boot tasks]. rewrite lookup_empty. cbn [idle].
  assert (sys_futex now t a FUTEX_WAIT v 0 0 0 (boot m) =
    Some (set_task t (Checked (WFutex a) u32_max None) (set_fm (count_wait fm_new) (boot m)))) as ->.
  { unfold sys_futex. change (Z.land FUTEX_WAIT 0x7F) with FUTEX_WAIT. cbn [Z.eqb orb FUTEX_WAIT]. unfold sys_futex_wait.
    cbn [boot mem]. by rewrite Hc. }
  cbn [default]. unfold id. unfold exec at 3.
  set (k1 := store_u32 a v' (set_task t (Checked (WFutex a) u32_max None) (set_fm (count_wait fm_new) (boot m)))).
  unfold exec at 2. assert (tasks k1 !! t2 = None) as -> by (cbn; by rewrite lookup_insert_ne, lookup_empty). cbn [idle].
  assert (sys_futex now t2 a FUTEX_WAKE 1 0 0 0 k1 =
    Some (set_task t2 (Returned 0) (set_fm (count_wakes 0 (fm k1)) (wake_tasks [] (set_am am_new k1))))) as -> by reflexivity.
  cbn [default]. unfold id, exec. cbn [set_task tasks wake_tasks set_am set_fm foldl k1 store_u32].
  by rewrite lookup_insert_ne, lookup_insert_eq by done.
Qed.
(** A wake-up can be lost.  The word is compared without the lock under
    which the task is queued: when another task stores a new value and wakes
    the address in between, that wake finds nobody and answers 0, and the
    waiter then blocks without a deadline on a word that no longer has the
    value it waited for. *)
Theorem futex_lost_wakeup now t t2 a v v' m : t <> t2 -> a <> 0 -> is_u32 v' -> v' <> v -> read_u32 m a = v ->
  let k := run [(now, Call t a FUTEX_WAIT v 0 0 0); (now, Store a v'); (now, Call t2 a FUTEX_WAKE 1 0 0 0); (now, Step t)] (boot m) in
  tasks k !! t = Some (Blocked (WFutex a)) /\ tasks k !! t2 = Some (Returned 0) /\ read_u32 (mem k) a = v' /\ v' <> v /\
  exists wid w, waiters (am k) !! wid = Some w /\ task_id w = t /\ deadline_tick w = None.
Proof.
  intros Hne Ha Hv' Hvv Hr k. assert (compare_u32 m a v = true) as Hc.
  { unfold compare_u32. replace (a =? 0) with false by lia. lia. }
  unfold k. rewrite lost_wakeup_state by done. cbn [block set_task set_am store_u32 set_fm tasks mem am].
  rewrite lookup_insert_eq, lookup_insert_ne, lookup_insert_eq by done. split_and!; [done|done| |done|].
  - by destruct (read_write a v' m Hv').
  - exists 1, (mkWaiter t (Some t) [a] u32_max None). split_and!; [|done|done]. cbn. apply lookup_insert_eq.
Qed.

(** ** Witnesses *)
Definition zero_mem : umem := fun _ => 0.
Definition demo_waiters : AddressWaitManager := enqueue 2 2 [8; 12] u32_max None (enqueue 1 1 [8] 1 (Some 5) am_new).
Lemma demo_waiters_ok : am_ok demo_waiters /\ distinct demo_waiters.
Proof.
  split.
  - apply enqueue_ok; [vm_compute; congruence| |].
    + apply enqueue_ok; [vm_compute; congruence|apply (ki_am 1 (boot zero_mem)), boot_inv|cbn; intros ??; by rewrite lookup_empty].
    + intros wid w Hw. cbn in Hw. apply lookup_insert_Some in Hw as [[_ <-]|[_ Hw]]; [done|by rewrite lookup_empty in Hw].
  - intros wid w Hw. cbn in Hw. apply lookup_insert_Some in Hw as [[_ <-]|[_ Hw]]; [cbn; apply (bool_decide_unpack _); by vm_compute|].
    apply lookup_insert_Some in Hw as [[_ <-]|[_ Hw]]; [apply (bool_decide_unpack _); by vm_compute|by rewrite lookup_empty in Hw].
Qed.
Lemma futex_wake_fifo_witness : let '(m', woken) := wake_matches 8 1 (Some 2) demo_waiters in am_ok m' /\ woken = [2].
Proof.
  pose proof (futex_wake_fifo 8 1 (Some 2) demo_waiters (proj1 demo_waiters_ok) (proj2 demo_waiters_ok)) as H.
  destruct (wake_matches 8 1 (Some 2) demo_waiters). destruct H as (H1 & H2 & _). split; [exact H1|]. rewrite H2. vm_compute. reflexivity.
Defined.
Definition demo_run : list (Z * event) :=
  [(0, Call 1 8 FUTEX_WAIT 0 5000000 0 0); (1, Step 1); (1, Call 2 8 FUTEX_WAIT 0 0 0 0); (1, Step 2); (2, Call 3 8 FUTEX_WAKE 1 0 0 0)].
Lemma futex_no_lost_task_witness : exists wid w, waiters (am (run demo_run (boot zero_mem))) !! wid = Some w /\ task_id w = 2.
Proof.
  destruct (futex_no_lost_task demo_run zero_mem ltac:(vm_compute; congruence)) as (H & _ & _).
  destruct (H 2 (WFutex 8)) as (wid & w & H1 & H2 & _); [vm_compute; reflexivity|]. exists wid, w. split; [exact H1|exact H2].
Defined.
Lemma futex_timeout_exact_witness : exists c,
  tasks (exec 7 Tick (run (take 4 demo_run) (boot zero_mem))) !! 1 = Some (Woken c).
Proof.
  destruct (futex_timeout_exact (take 4 demo_run) zero_mem 7 1 (mkWaiter 1 (Some 1) [8] u32_max (Some 5)))
    as [_ H]; [vm_compute; congruence|vm_compute; reflexivity|].
  destruct H as (_ & c & H & _); [vm_compute; reflexivity|]. exists c. exact H.
Defined.
Lemma futex_pi_exclusion_witness : exists t, owners (run [(0, Call 5 8 FUTEX_LOCK_PI 0 0 0 0); (0, Step 5)] (boot zero_mem)) = [(8, t)].
Proof.
  destruct (futex_pi_exclusion 8 [(0, Call 5 8 FUTEX_LOCK_PI 0 0 0 0); (0, Step 5)] zero_mem) as [[H _]|(t & H & _)].
  - intros x _. vm_compute. split; congruence.
  - vm_compute. reflexivity.
  - repeat constructor; cbn; lia.
  - vm_compute in H. discriminate.
  - exists t. exact H.
Defined.
Lemma futex_requeue_inert_witness :
  exists f, sys_futex 3 9 8 FUTEX_REQUEUE 1 0 12 0 (run demo_run (boot zero_mem)) =
    Some (set_task 9 (Returned 0) (set_fm f (run demo_run (boot zero_mem)))).
Proof.
  exact (futex_requeue_inert demo_run zero_mem 3 9 8 FUTEX_REQUEUE 1 0 12 0
    ltac:(repeat constructor) ltac:(left; vm_compute; reflexivity)).
Defined.
Lemma futex_lost_wakeup_witness :
  tasks (run [(0, Call 1 8 FUTEX_WAIT 0 0 0 0); (0, Store 8 1); (0, Call 2 8 FUTEX_WAKE 1 0 0 0); (0, Step 1)] (boot zero_mem)) !! 1
  = Some (Blocked (WFutex 8)).
Proof.
  destruct (futex_lost_wakeup 0 1 2 8 0 1 zero_mem) as [H _]; [lia|lia|vm_compute; split; congruence|lia|vm_compute; reflexivity|].
  exact H.
Defined.
End Futex.
