(* ===== verification/Checksum.v ===== *)
(** * Internet checksums

    Models [src/src/net/checksum.rs]: the one's complement sum of RFC 1071 as
    the index loops of the code, the incremental update of RFC 1624, the pseudo
    headers, the TCP and UDP checksums over IPv4 frames and IPv6 segments, their
    verification, and the tunnel helper [lco_checksum].

    A byte slice is a list of integers in [0, 256).  Sums are 32-bit and wrap;
    the statistics counters are a record that the calls thread through.  Every
    index of the code is below the length it has tested before, so a slice
    access is total here.  The reference definition is [words], the sum of the
    big-endian words of a slice, and [oc], the one's complement residue. *)
From S2P Require Import Prelude.

Module Checksum.

Record ChecksumStats := mkStats { tx_computed : Z; tx_offloaded : Z; rx_verified : Z; rx_offloaded : Z; errors : Z }.
Definition stats_new : ChecksumStats := mkStats 0 0 0 0 0.
Definition count_tx (s : ChecksumStats) : ChecksumStats :=
  mkStats (u64_add (tx_computed s) 1) (tx_offloaded s) (rx_verified s) (rx_offloaded s) (errors s).
Definition count_rx (s : ChecksumStats) : ChecksumStats :=
  mkStats (tx_computed s) (tx_offloaded s) (u64_add (rx_verified s) 1) (rx_offloaded s) (errors s).
Definition count_error (s : ChecksumStats) : ChecksumStats :=
  mkStats (tx_computed s) (tx_offloaded s) (rx_verified s) (rx_offloaded s) (u64_add (errors s) 1).

(** ** The summing and folding loops *)
Definition get (data : list Z) (i : nat) : Z := default 0 (data !! i).
(** [u16::from_be_bytes([data[i], data[i + 1]])] *)
Definition be_word (data : list Z) (i : nat) : Z := get data i * 256 + get data (S i).
(** [while i + 1 < stop && i + 1 < data.len()]; the code's loops over a whole
    slice have [stop = data.len()].  Each turn consumes two bytes, so the length
    of the slice bounds the number of turns. *)
Fixpoint sum_loop (fuel : nat) (data : list Z) (stop i : nat) (sum : Z) : nat * Z :=
  match fuel with
  | O => (i, sum)
  | S f =>
      if (S i <? stop)%nat && (S i <? length data)%nat
      then sum_loop f data stop (i + 2) (u32_add sum (be_word data i)) else (i, sum)
  end.
Definition sum_from (data : list Z) (start stop : nat) (sum : Z) : Z :=
  let '(i, sum) := sum_loop (length data) data stop start sum in
  if (i <? stop)%nat && (i <? length data)%nat then u32_add sum (Z.shiftl (get data i) 8) else sum.
(** [while (s >> 16) != 0 { s = (s & 0xFFFF) + (s >> 16) }]; [None]: out of fuel. *)
Fixpoint fold_loop (fuel : nat) (s : Z) : option Z :=
  if Z.shiftr s 16 =? 0 then Some s
  else match fuel with O => None | S f => fold_loop f (Z.land s 0xFFFF + Z.shiftr s 16) end.
Definition carry_fold (s : Z) : Z := default 0 (fold_loop 2 s).
Definition as_u16 (x : Z) : Z := x mod u16_mod.
Definition not16 (x : Z) : Z := 65535 - as_u16 x.

Definition internet_checksum (data : list Z) : Z := not16 (carry_fold (sum_from data 0 (length data) 0)).
Definition update_checksum (old_csum old_value new_value : Z) : Z :=
  not16 (carry_fold (u32_add (u32_add (not16 old_csum) (not16 old_value)) new_value)).
Definition partial_checksum (data : list Z) (start stop : nat) : Z := sum_from data start stop 0.
Definition fold_checksum (sum : Z) : Z := not16 (carry_fold sum).
Definition unfold_checksum (sum : Z) : Z := as_u16 (carry_fold sum).

(** ** Pseudo headers *)
Definition ipv4_pseudo_header_checksum (src dst : list Z) (protocol transport_len : Z) : Z :=
  u32_add (u32_add (u32_add (u32_add (u32_add (u32_add 0 (be_word src 0)) (be_word src 2)) (be_word dst 0)) (be_word dst 2))
    protocol) transport_len.
Definition add_words (addr : list Z) (sum : Z) : Z :=
  foldl (fun s i => u32_add s (be_word addr i)) sum [0; 2; 4; 6; 8; 10; 12; 14]%nat.
Definition ipv6_pseudo_header_checksum (src dst : list Z) (next_header transport_len : Z) : Z :=
  let sum := add_words dst (add_words src 0) in
  u32_add (u32_add (u32_add sum (Z.shiftr transport_len 16)) (Z.land transport_len 0xFFFF)) next_header.

(** ** IPv4 frames *)
Definition slice (data : list Z) (a b : nat) : list Z := take (b - a) (drop a data).
Definition put_be16 (off : nat) (v : Z) (p : list Z) : list Z :=
  <[S off := Z.land v 0xFF]> (<[off := as_u16 (Z.shiftr v 8) mod u8_mod]> p).
Definition ihl_of (p : list Z) : nat := (Z.to_nat (Z.land (get p 14) 0x0F) * 4)%nat.
Definition write_ip_checksum (p : list Z) : list Z :=
  let p := put_be16 24 0 p in
  put_be16 24 (internet_checksum (slice p 14 (14 + ihl_of p))) p.
(** The addresses are read from [hdr], the frame before its checksum field is zeroed. *)
Definition transport_sum (hdr p : list Z) (protocol : Z) (off : nat) : Z :=
  u32_add (ipv4_pseudo_header_checksum (slice hdr 26 30) (slice hdr 30 34) protocol (as_u16 (Z.of_nat (length p - off))))
    (partial_checksum p off (length p)).
Definition compute_ipv4_tcp_checksum (p : list Z) (st : ChecksumStats) : list Z * ChecksumStats * bool :=
  if (length p <? 54)%nat then (p, st, false)
  else
    let tcp_offset := (14 + ihl_of p)%nat in
    if (length p <? tcp_offset + 20)%nat then (p, st, false)
    else
      let hdr := write_ip_checksum p in
      let csum_offset := (tcp_offset + 16)%nat in
      let p := put_be16 csum_offset 0 hdr in
      let csum := fold_checksum (transport_sum hdr p 6 tcp_offset) in
      (put_be16 csum_offset csum p, count_tx st, true).
Definition compute_ipv4_udp_checksum (p : list Z) (st : ChecksumStats) : list Z * ChecksumStats * bool :=
  if (length p <? 42)%nat then (p, st, false)
  else
    let udp_offset := (14 + ihl_of p)%nat in
    if (length p <? udp_offset + 8)%nat then (p, st, false)
    else
      let hdr := write_ip_checksum p in
      let csum_offset := (udp_offset + 6)%nat in
      let p := put_be16 csum_offset 0 hdr in
      let csum := fold_checksum (transport_sum hdr p 17 udp_offset) in
      let final_csum := if csum =? 0 then 0xFFFF else csum in
      (put_be16 csum_offset final_csum p, count_tx st, true).
Definition verify_ipv4_tcp_checksum (p : list Z) (st : ChecksumStats) : bool * ChecksumStats :=
  if (length p <? 54)%nat then (false, st)
  else
    let tcp_offset := (14 + ihl_of p)%nat in
    if (length p <? tcp_offset + 20)%nat then (false, st)
    else if negb (internet_checksum (slice p 14 (14 + ihl_of p)) =? 0) then (false, count_error st)
    else (unfold_checksum (transport_sum p p 6 tcp_offset) =? 0xFFFF, count_rx st).

(** ** IPv6 segments *)
Definition sum_all (data : list Z) (sum : Z) : Z := sum_from data 0 (length data) sum.
Definition compute_ipv6_checksum (next_header : Z) (src dst header payload : list Z) : Z :=
  let len := as_u32 (Z.of_nat (length header + length payload)) in
  fold_checksum (sum_all payload (sum_all header (ipv6_pseudo_header_checksum src dst next_header len))).
Definition compute_ipv6_tcp_checksum (src dst tcp_header payload : list Z) : Z :=
  compute_ipv6_checksum 6 src dst tcp_header payload.
Definition compute_ipv6_udp_checksum (src dst udp_header payload : list Z) : Z :=
  let csum := compute_ipv6_checksum 17 src dst udp_header payload in
  if csum =? 0 then 0xFFFF else csum.
Definition verify_ipv6_tcp_checksum (src dst seg : list Z) (st : ChecksumStats) : bool * ChecksumStats :=
  if (length seg <? 20)%nat then (false, st)
  else
    let data_offset := (Z.to_nat (Z.shiftr (get seg 12) 4) * 4)%nat in
    if (length seg <? data_offset)%nat then (false, st)
    else
      let computed := compute_ipv6_tcp_checksum src dst (take data_offset seg) (drop data_offset seg) in
      (unfold_checksum (sum_all seg computed) =? 0xFFFF, count_rx st).
Definition verify_ipv6_udp_checksum (src dst seg : list Z) (st : ChecksumStats) : bool * ChecksumStats :=
  if (length seg <? 8)%nat then (false, st)
  else
    let computed := compute_ipv6_udp_checksum src dst (take 8 seg) (drop 8 seg) in
    (unfold_checksum (sum_all seg computed) =? 0xFFFF, count_rx st).

(** ** Tunnels *)
(** The field offset is [(csum_start as isize + csum_offset) as usize]; the
    header loop has no odd byte. *)
Definition lco_checksum (packet : list Z) (csum_start : nat) (csum_offset : Z) : Z :=
  let '(_, sum) := sum_loop (length packet) packet csum_start 0 0 in
  let field_offset := (Z.of_nat csum_start + csum_offset) mod u64_mod in
  let sum :=
    if u64_add field_offset 1 <? Z.of_nat (length packet)
    then u32_add sum (65535 - be_word packet (Z.to_nat field_offset)) else sum in
  fold_checksum sum.

(** The code's own test vectors. *)
Example checksum_rfc1071 : internet_checksum [0x00; 0x01; 0x00; 0x02] = 0xFFFC.
Proof. reflexivity. Qed.
Example checksum_carry : internet_checksum [0xFF; 0xFF; 0x00; 0x01] = 0xFFFE.
Proof. reflexivity. Qed.
Example lco_vector : lco_checksum (replicate 34 0 ++ [0x12; 0x34; 0x56; 0x78; 0x00; 0x08] ++ replicate 10 0) 42 (-2) = 0x974B.
Proof. vm_compute. reflexivity. Qed.

(** ** Reference definitions *)
Definition bytes (l : list Z) : Prop := Forall (fun b => 0 <= b < 256) l.
Fixpoint words (l : list Z) : Z :=
  match l with
  | [] => 0
  | [a] => a * 256
  | a :: b :: l' => a * 256 + b + words l'
  end.
(** The one's complement residue of a sum: 0 for 0, else the representative in 1..65535. *)
Definition oc (x : Z) : Z := if x =? 0 then 0 else (x - 1) mod 65535 + 1.

Lemma oc_range x : 0 <= x -> 0 <= oc x <= 65535.
Proof. intros Hx. unfold oc. case_match; simplify_bool; [lia|]. pose proof (Z.mod_pos_bound (x - 1) 65535). lia. Qed.
Lemma oc_mod x : 0 <= x -> exists k, oc x = x - 65535 * k.
Proof.
  intros Hx. unfold oc. case_match; simplify_bool; [exists 0; lia|]. exists ((x - 1) / 65535).
  pose proof (Z.div_mod (x - 1) 65535). lia.
Qed.
Lemma oc_zero x : 0 <= x -> oc x = 0 <-> x = 0.
Proof. intros Hx. unfold oc. case_match; simplify_bool; [tauto|]. pose proof (Z.mod_pos_bound (x - 1) 65535). lia. Qed.
Lemma oc_unique x r : 0 <= x -> 0 <= r <= 65535 -> (r = 0 <-> x = 0) -> (exists k, r = x - 65535 * k) -> oc x = r.
Proof.
  intros Hx Hr H0 [k Hk]. pose proof (oc_range x Hx). pose proof (oc_zero x Hx). destruct (oc_mod x Hx) as [j Hj].
  destruct (decide (x = 0)); [lia|]. nia.
Qed.
Lemma oc_full x : 0 <= x -> oc x = 65535 <-> 0 < x /\ exists k, x = 65535 * k.
Proof.
  intros Hx. split.
  - intros H. destruct (oc_mod x Hx) as [k Hk]. pose proof (oc_zero x Hx). split; [lia|exists (k + 1); lia].
  - intros [Hp [k Hk]]. apply oc_unique; [done|lia|lia|]. exists (k - 1). lia.
Qed.

(** Folding ends after at most two turns on a 32-bit sum, with the residue. *)
Lemma fold_loop_spec s : is_u32 s -> fold_loop 2 s = Some (oc s).
Proof.
  intros Hs. assert (forall x, Z.shiftr x 16 = x / 65536) as Hsh by (intros; by rewrite Z.shiftr_div_pow2 by lia).
  assert (forall x, Z.land x 0xFFFF = x mod 65536) as Hla by (intros; change 0xFFFF with (Z.ones 16); by rewrite Z.land_ones by lia).
  assert (forall x, 0 <= x < 65536 -> x = oc s -> Some x = Some (oc s)) as He by (intros; congruence).
  unfold fold_loop. rewrite !Hsh, !Hla. unfold is_u32, u32_mod in Hs.
  set (s1 := s mod 65536 + s / 65536). assert (0 <= s1 <= 131070 /\ exists k, s1 = s - 65535 * k) as [H1 [k1 K1]].
  { split; [|exists (s / 65536)]; unfold s1; pose proof (Z.div_mod s 65536); pose proof (Z.mod_pos_bound s 65536);
      pose proof (Z.div_le_upper_bound s 65536 65535); pose proof (Z.div_pos s 65536); lia. }
  assert (s1 = 0 -> s = 0) as Z1 by (unfold s1; pose proof (Z.div_mod s 65536); pose proof (Z.mod_pos_bound s 65536); pose proof (Z.div_pos s 65536); lia).
  set (s2 := s1 mod 65536 + s1 / 65536). assert (65536 <= s1 -> 1 <= s2 <= 65535 /\ s2 = s1 - 65535) as H2.
  { intros ?. unfold s2. assert (s1 / 65536 = 1) as -> by (symmetry; apply (Z.div_unique s1 65536 1 (s1 - 65536)); lia).
    rewrite Z.mod_eq by lia. assert (s1 / 65536 = 1) as -> by (symmetry; apply (Z.div_unique s1 65536 1 (s1 - 65536)); lia). lia. }
  destruct (s / 65536 =? 0) eqn:E0; simplify_bool.
  { f_equal. symmetry. pose proof (Z.div_mod s 65536). pose proof (Z.mod_pos_bound s 65536). apply oc_unique; [lia|lia|lia|exists 0; lia]. }
  destruct (s1 / 65536 =? 0) eqn:E1; simplify_bool.
  { f_equal. symmetry. pose proof (Z.div_mod s1 65536). pose proof (Z.mod_pos_bound s1 65536).
    apply oc_unique; [lia|lia| |eauto]. split; [auto|]. intros ->. by destruct E0. }
  assert (65536 <= s1) as Hge by (destruct (decide (s1 < 65536)); [|lia]; rewrite Z.div_small in E1; lia).
  destruct (H2 Hge) as [H3 H4]. replace (s2 / 65536 =? 0) with true by (symmetry; apply Z.eqb_eq, Z.div_small; lia).
  f_equal. symmetry. apply oc_unique; [lia|lia|split; [lia|intros ->; by destruct E0]|]. exists (k1 + 1). lia.
Qed.
Lemma carry_fold_spec s : is_u32 s -> carry_fold s = oc s.
Proof. intros Hs. unfold carry_fold. by rewrite fold_loop_spec. Qed.
Lemma as_u16_small x : 0 <= x <= 65535 -> as_u16 x = x.
Proof. intros. unfold as_u16, u16_mod. apply Z.mod_small. lia. Qed.
Lemma fold_checksum_spec s : is_u32 s -> fold_checksum s = 65535 - oc s.
Proof.
  intros Hs. unfold fold_checksum, not16. rewrite carry_fold_spec by done. rewrite as_u16_small; [done|].
  apply oc_range. unfold is_u32 in Hs. lia.
Qed.
Lemma unfold_checksum_spec s : is_u32 s -> unfold_checksum s = oc s.
Proof.
  intros Hs. unfold unfold_checksum. rewrite carry_fold_spec by done. apply as_u16_small, oc_range. unfold is_u32 in Hs. lia.
Qed.

(** The summing loop adds the words of the slice. *)
Lemma words_split l (k : nat) : words l = words (take (2 * k) l) + words (drop (2 * k) l).
Proof.
  revert l. induction k as [|k IH]; intros l; [done|]. replace (2 * S k)%nat with (S (S (2 * k))) by lia.
  destruct l as [|a [|b l]]; [done|cbn; lia|]. cbn [take drop words]. rewrite (IH l) at 1. lia.
Qed.
Fixpoint words_bound (l : list Z) : bytes l -> 0 <= words l /\ 2 * words l <= 65535 * (Z.of_nat (length l) + 1).
Proof.
  intros Hb. destruct l as [|a [|b l]]; cbn [words length]; [lia| |].
  - apply Forall_cons in Hb as [? _]. lia.
  - apply Forall_cons in Hb as [? Hb]. apply Forall_cons in Hb as [? Hb]. destruct (words_bound l Hb). lia.
Qed.
Lemma slice_step data i stop : (S i < stop)%nat -> (S i < length data)%nat ->
  slice data i stop = get data i :: get data (S i) :: slice data (i + 2) stop.
Proof.
  intros H1 H2. unfold slice, get. destruct (lookup_lt_is_Some_2 data i ltac:(lia)) as [a Ha].
  destruct (lookup_lt_is_Some_2 data (S i) ltac:(lia)) as [b Hb]. rewrite Ha, Hb. cbn [default].
  rewrite (drop_S data a i Ha), (drop_S data b (S i) Hb). replace (stop - i)%nat with (S (S (stop - (i + 2)))) by lia.
  cbn [take]. replace (i + 2)%nat with (S (S i)) by lia. done.
Qed.
Lemma slice_last data i stop : (i < stop)%nat -> (i < length data)%nat -> (stop <= S i)%nat \/ (length data <= S i)%nat ->
  slice data i stop = [get data i].
Proof.
  intros H1 H2 H3. unfold slice, get. destruct (lookup_lt_is_Some_2 data i ltac:(lia)) as [a Ha]. rewrite Ha.
  rewrite (drop_S data a i Ha). replace (stop - i)%nat with (S (stop - S i)) by lia. cbn [take default]. f_equal.
  destruct H3; [by replace (stop - S i)%nat with O by lia|]. by rewrite drop_ge, take_nil by lia.
Qed.
Lemma slice_none data i stop : (stop <= i)%nat \/ (length data <= i)%nat -> slice data i stop = [].
Proof. intros [H|H]; unfold slice; [by replace (stop - i)%nat with O by lia|by rewrite drop_ge, take_nil by lia]. Qed.
Lemma u32_add_add a b c : u32_add (u32_add a b) c = u32_add a (b + c).
Proof. unfold u32_add, u32_mod. rewrite Zplus_mod_idemp_l. f_equal. lia. Qed.
Lemma sum_loop_spec fuel data stop i sum : (length data <= i + 2 * fuel)%nat -> is_u32 sum ->
  let '(j, s) := sum_loop fuel data stop i sum in
  is_u32 s /\ (stop <= S j \/ length data <= S j)%nat /\ (i <= j)%nat /\ Nat.Even (j - i) /\
  exists w, s = u32_add sum w /\ words (slice data i stop) = w + words (slice data j stop).
Proof.
  revert i sum. induction fuel as [|f IH]; intros i sum Hf Hs; cbn [sum_loop].
  - split_and!; [done|lia|lia|exists 0%nat; lia|]. exists 0. split; [|lia]. rewrite u32_add_small; [lia|]. by rewrite Z.add_0_r.
  - destruct (_ && _) eqn:E.
    + apply andb_true_iff in E as [E1%Nat.ltb_lt E2%Nat.ltb_lt].
      specialize (IH (i + 2)%nat (u32_add sum (be_word data i)) ltac:(lia) (u32_add_range _ _)).
      destruct (sum_loop f data stop (i + 2) _) as [j s]. destruct IH as (H1 & H2 & H3 & [m H4] & w & H5 & H6).
      split_and!; [done|done|lia|exists (S m); lia|]. exists (be_word data i + w). split; [by rewrite H5, u32_add_add|].
      rewrite slice_step by done. cbn [words]. rewrite H6. unfold be_word. lia.
    + apply andb_false_iff in E. split_and!; [done| |lia|exists 0%nat; lia|].
      * destruct E as [E|E]; apply Nat.ltb_ge in E; auto.
      * exists 0. split; [|lia]. rewrite u32_add_small; [lia|]. by rewrite Z.add_0_r.
Qed.
Lemma sum_from_spec data i stop sum : is_u32 sum -> sum_from data i stop sum = u32_add sum (words (slice data i stop)).
Proof.
  intros Hs. unfold sum_from. pose proof (sum_loop_spec (length data) data stop i sum ltac:(lia) Hs) as H.
  destruct (sum_loop _ _ _ _ _) as [j s]. destruct H as (H1 & H2 & H3 & H4 & w & -> & ->).
  destruct (_ && _) eqn:E.
  - apply andb_true_iff in E as [E1%Nat.ltb_lt E2%Nat.ltb_lt]. rewrite slice_last by lia. cbn [words].
    by rewrite u32_add_add, Z.shiftl_mul_pow2 by lia.
  - rewrite slice_none; [cbn [words]; f_equal; lia|]. apply andb_false_iff in E as [E|E]; apply Nat.ltb_ge in E; auto.
Qed.
Lemma sum_from_range data i stop sum : is_u32 sum -> is_u32 (sum_from data i stop sum).
Proof. intros. rewrite sum_from_spec by done. apply u32_add_range. Qed.
Lemma slice_all data : slice data 0 (length data) = data.
Proof. unfold slice. rewrite drop_0, Nat.sub_0_r. by apply firstn_all. Qed.

(** ** Changing a byte or a word *)
(** The weight of the byte at distance [d] from the start of the sum. *)
Definition weight (d : nat) : Z := if Nat.even d then 256 else 1.
Fixpoint words_insert (l : list Z) (i : nat) (b : Z) {struct l} : (i < length l)%nat ->
  words (<[i := b]> l) = words l + (b - get l i) * weight i.
Proof.
  intros Hi. destruct l as [|x [|y l]]; cbn [length] in Hi; [lia| |].
  - destruct i; [|lia]. unfold get, weight; cbn. lia.
  - destruct i as [|[|i]]; [unfold get, weight; cbn; lia..|]. change (get (x :: y :: l) (S (S i))) with (get l i).
    change (<[S (S i) := b]> (x :: y :: l)) with (x :: y :: <[i := b]> l). cbn [words]. rewrite (words_insert l i b) by lia. change (weight (S (S i))) with (weight i). lia.
Qed.
Lemma slice_length p a e : length (slice p a e) = (Nat.min e (length p) - a)%nat.
Proof. unfold slice. rewrite length_take, length_drop. lia. Qed.
Lemma get_slice p a e d : (a + d < e)%nat -> get (slice p a e) d = get p (a + d).
Proof. intros H. unfold get, slice. by rewrite lookup_take_lt, lookup_drop by lia. Qed.
Lemma slice_insert_in p a e i b : (a <= i < e)%nat -> slice (<[i := b]> p) a e = <[(i - a)%nat := b]> (slice p a e).
Proof. intros H. unfold slice. by rewrite drop_insert_ge, take_insert_lt by lia. Qed.
Lemma slice_insert_out p a e i b : (i < a \/ e <= i)%nat -> slice (<[i := b]> p) a e = slice p a e.
Proof.
  intros [H|H]; unfold slice; [by rewrite drop_insert_lt by lia|]. destruct (decide (a <= i)%nat).
  - by rewrite drop_insert_ge, take_insert_ge by lia.
  - by rewrite drop_insert_lt by lia.
Qed.
Lemma words_slice_insert p a e i b : (a <= i < e)%nat -> (i < length p)%nat ->
  words (slice (<[i := b]> p) a e) = words (slice p a e) + (b - get p i) * weight (i - a).
Proof.
  intros H Hl. rewrite slice_insert_in by done. rewrite words_insert by (rewrite slice_length; lia).
  rewrite get_slice by lia. by replace (a + (i - a))%nat with i by lia.
Qed.
Lemma get_insert_ne p i j b : i <> j -> get (<[i := b]> p) j = get p j.
Proof. intros H. unfold get. by rewrite list_lookup_insert_ne. Qed.
Lemma put_length off v p : length (put_be16 off v p) = length p.
Proof. unfold put_be16. by rewrite !length_insert. Qed.
Lemma put_get off v p j : j <> off -> j <> S off -> get (put_be16 off v p) j = get p j.
Proof. intros. unfold put_be16. by rewrite !get_insert_ne. Qed.
Lemma put_slice_out off v p a e : (S off < a \/ e <= off)%nat -> slice (put_be16 off v p) a e = slice p a e.
Proof. intros. unfold put_be16. rewrite !slice_insert_out by lia. done. Qed.
Lemma put_words off v p a e : (a <= off)%nat -> (S off < e)%nat -> (S off < length p)%nat -> Nat.Even (off - a) -> 0 <= v <= 65535 ->
  words (slice (put_be16 off v p) a e) = words (slice p a e) - be_word p off + v.
Proof.
  intros H1 H2 H3 He Hv. unfold put_be16. rewrite words_slice_insert by (rewrite ?length_insert; lia).
  rewrite words_slice_insert by lia. rewrite get_insert_ne by lia. apply Nat.even_spec in He.
  replace (S off - a)%nat with (S (off - a)) by lia. unfold weight. rewrite Nat.even_succ, <-Nat.negb_even, He. cbn [negb].
  unfold be_word. rewrite Z.shiftr_div_pow2 by lia. change 0xFF with (Z.ones 8). rewrite Z.land_ones by lia.
  change (2 ^ 8) with 256. unfold as_u16, u8_mod, u16_mod. change (2 ^ 8) with 256. change (2 ^ 16) with 65536.
  rewrite (Z.mod_small (v / 256) 65536), (Z.mod_small (v / 256) 256) by (Z.div_mod_to_equations; lia).
  pose proof (Z.div_mod v 256). lia.
Qed.
Lemma put_bytes off v p : bytes p -> 0 <= v <= 65535 -> bytes (put_be16 off v p).
Proof.
  intros Hp Hv. unfold put_be16, bytes. change 0xFF with (Z.ones 8). rewrite Z.land_ones by lia.
  repeat apply Forall_insert; [done|..]; apply Z.mod_pos_bound; done.
Qed.
Lemma slice_bytes p a e : bytes p -> bytes (slice p a e).
Proof. intros. unfold bytes, slice. by apply Forall_take, Forall_drop. Qed.
Lemma get_byte p i : bytes p -> 0 <= get p i < 256.
Proof.
  intros Hp. unfold get. destruct (p !! i) eqn:E; cbn; [|lia]. unfold bytes in Hp. rewrite Forall_forall in Hp.
  apply Hp. by eapply list_elem_of_lookup_2.
Qed.
Lemma be_word_range p i : bytes p -> 0 <= be_word p i <= 65535.
Proof. intros Hp. pose proof (get_byte p i Hp). pose proof (get_byte p (S i) Hp). unfold be_word. lia. Qed.

(** A sum over a slice of a frame stays below the 32-bit limit. *)
Definition frame_ok (p : list Z) : Prop := bytes p /\ Z.of_nat (length p) <= 131000.
Lemma words_small p a e : frame_ok p -> 0 <= words (slice p a e) <= 4292576000.
Proof.
  intros [Hb Hl]. destruct (words_bound (slice p a e) (slice_bytes p a e Hb)) as [H1 H2].
  rewrite slice_length in H2. lia.
Qed.
Lemma internet_checksum_words p : bytes p -> Z.of_nat (length p) <= 131072 ->
  internet_checksum p = 65535 - oc (words p) /\ is_u32 (words p).
Proof.
  intros Hb Hl. destruct (words_bound p Hb) as [H1 H2]. assert (is_u32 (words p)) as Hu by (unfold is_u32, u32_mod; lia). split; [|done].
  change (internet_checksum p) with (fold_checksum (sum_from p 0 (length p) 0)).
  rewrite sum_from_spec, slice_all by (unfold is_u32, u32_mod; lia). rewrite u32_add_small by (unfold is_u32 in Hu; lia).
  by rewrite Z.add_0_l, fold_checksum_spec.
Qed.

(** C17: The loops compute the Internet checksum.  For every slice of up to
    128 KiB, the carry-folding loop ends within two turns and
    [internet_checksum] is the one's complement of the one's complement sum of
    the slice's big-endian 16-bit words, a last odd byte padded with zero. *)
Theorem internet_checksum_spec data : bytes data -> Z.of_nat (length data) <= 131072 ->
  internet_checksum data = 65535 - oc (words data) /\
  fold_loop 2 (sum_from data 0 (length data) 0) = Some (oc (words data)).
Proof.
  intros Hb Hl. destruct (internet_checksum_words data Hb Hl) as [H1 H2]. split; [done|].
  rewrite sum_from_spec, slice_all by (unfold is_u32, u32_mod; lia). unfold is_u32 in H2.
  rewrite u32_add_small by lia. by rewrite Z.add_0_l, fold_loop_spec.
Qed.

(** C40: The incremental update agrees with recomputation.  For data of at most
    131072 bytes, replacing one aligned 16-bit word and updating the old checksum
    gives the checksum of the new data, except when every byte of the new data is
    zero: then the update gives 0 and recomputation 0xFFFF, the two forms of zero
    in one's complement arithmetic. *)
Theorem update_checksum_correct data k v : bytes data -> Z.of_nat (length data) <= 131072 ->
  (S (2 * k) < length data)%nat -> 0 <= v <= 65535 ->
  let data' := put_be16 (2 * k) v data in
  update_checksum (internet_checksum data) (be_word data (2 * k)) v =
  if words data' =? 0 then 0 else internet_checksum data'.
Proof.
  intros Hb Hl Hk Hv data'. destruct (internet_checksum_words data Hb Hl) as [-> Hu].
  assert (bytes data') as Hb' by (by apply put_bytes). assert (length data' = length data) as Hl' by apply put_length.
  destruct (internet_checksum_words data' Hb' ltac:(rewrite Hl'; lia)) as [-> Hu'].
  assert (words data' = words data - be_word data (2 * k) + v) as Hw.
  { pose proof (put_words (2 * k) v data 0 (length data) ltac:(lia) ltac:(lia) ltac:(lia) ltac:(exists k; lia) Hv) as H.
    rewrite <-Hl', slice_all, Hl', slice_all in H. exact H. }
  set (m := be_word data (2 * k)) in *. pose proof (be_word_range data (2 * k) Hb) as Hm. fold m in Hm.
  unfold is_u32 in Hu, Hu'. pose proof (oc_range (words data) ltac:(lia)) as Ho. pose proof (oc_zero (words data) ltac:(lia)).
  destruct (oc_mod (words data) ltac:(lia)) as [j Hj].
  unfold update_checksum, not16 at 2 3. rewrite !as_u16_small by lia.
  rewrite !u32_add_small by (unfold u32_mod; rewrite ?u32_add_small; unfold u32_mod; lia).
  set (t := 65535 - (65535 - oc (words data)) + (65535 - m) + v).
  change (not16 (carry_fold t)) with (fold_checksum t). rewrite fold_checksum_spec by (unfold is_u32, u32_mod, t; lia).
  destruct (words data' =? 0) eqn:E; simplify_bool.
  - assert (oc t = 65535) as ->; [|lia]. apply oc_full; [unfold t; lia|]. split; [unfold t; lia|]. exists (1 - j). unfold t. lia.
  - f_equal. apply oc_unique; [unfold t; lia|apply oc_range; lia| |].
    + rewrite oc_zero by lia. unfold t. lia.
    + destruct (oc_mod (words data') ltac:(lia)) as [j' Hj']. exists (j' + 1 - j). unfold t. lia.
Qed.

(** ** Frames *)
Lemma put_be_word off v p : 0 <= v <= 65535 -> (S off < length p)%nat -> be_word (put_be16 off v p) off = v.
Proof.
  intros Hv Hl. pose proof (put_words off v p off (S (S off)) ltac:(lia) ltac:(lia) Hl ltac:(exists 0%nat; lia) Hv) as H.
  rewrite (slice_step p), (slice_step (put_be16 off v p)) in H by (rewrite ?put_length; lia).
  rewrite !slice_none in H by lia. cbn [words] in H. unfold be_word in *. lia.
Qed.
Lemma csum_closes s : 0 <= s -> oc (s + (65535 - oc s)) = 65535.
Proof.
  intros Hs. pose proof (oc_range s Hs). pose proof (oc_zero s Hs). destruct (oc_mod s Hs) as [k Hk].
  apply oc_full; [lia|]. split; [lia|]. exists (k + 1). lia.
Qed.
(** A sum that closes no longer does when it is off by less than 65535. *)
Lemma oc_off s d : 0 <= s -> 0 <= s + d -> oc s = 65535 -> d <> 0 -> Z.abs d < 65535 -> oc (s + d) <> 65535.
Proof. intros H1 H2 [_ [k Hk]]%oc_full H4 H5 [_ [j Hj]]%oc_full; lia. Qed.
Lemma weight_range d : 1 <= weight d <= 256.
Proof. unfold weight. case_match; lia. Qed.

Definition pseudo4 (p : list Z) (protocol : Z) (off : nat) : Z :=
  be_word p 26 + be_word p 28 + be_word p 30 + be_word p 32 + protocol + Z.of_nat (length p - off) mod 65536.
Lemma transport_sum_spec p protocol off : frame_ok p -> 0 <= protocol < 256 ->
  transport_sum p p protocol off = pseudo4 p protocol off + words (slice p off (length p)) /\
  is_u32 (pseudo4 p protocol off + words (slice p off (length p))) /\ 0 <= pseudo4 p protocol off.
Proof.
  intros Hp Hpr. pose proof (words_small p off (length p) Hp) as Hw. destruct Hp as [Hb Hl].
  pose proof (be_word_range p 26 Hb). pose proof (be_word_range p 28 Hb). pose proof (be_word_range p 30 Hb). pose proof (be_word_range p 32 Hb).
  pose proof (Z.mod_pos_bound (Z.of_nat (length p - off)) 65536 ltac:(lia)). unfold pseudo4.
  split; [|unfold is_u32, u32_mod; lia]. unfold transport_sum, ipv4_pseudo_header_checksum, partial_checksum.
  rewrite sum_from_spec by (unfold is_u32, u32_mod; lia).
  assert (forall a e d, (a + S d < e)%nat -> be_word (slice p a e) d = be_word p (a + d)) as Hbw.
  { intros a e d Hd. unfold be_word. rewrite !get_slice by lia. by replace (a + S d)%nat with (S (a + d)) by lia. }
  rewrite !Hbw by lia. cbn [Nat.add]. unfold as_u16, u16_mod. change (2 ^ 16) with 65536.
  rewrite !u32_add_add. rewrite (u32_add_small 0 (words _)) by (unfold u32_mod; lia).
  rewrite u32_add_small by (unfold u32_mod; lia). lia.
Qed.
Lemma pseudo4_put off v p protocol o : (33 < off)%nat -> pseudo4 (put_be16 off v p) protocol o = pseudo4 p protocol o.
Proof.
  intros Ho. assert (forall j, (S j < off)%nat -> be_word (put_be16 off v p) j = be_word p j) as H.
  { intros j Hj. unfold be_word. by rewrite !put_get by lia. }
  unfold pseudo4. by rewrite !H, put_length by lia.
Qed.
Lemma transport_sum_zeroed q fo protocol off : (33 < fo)%nat ->
  transport_sum q (put_be16 fo 0 q) protocol off = transport_sum (put_be16 fo 0 q) (put_be16 fo 0 q) protocol off.
Proof. intros H. unfold transport_sum. by rewrite !put_slice_out by lia. Qed.
Lemma ihl_put off v p : (14 < off)%nat -> ihl_of (put_be16 off v p) = ihl_of p.
Proof. intros. unfold ihl_of. by rewrite put_get by lia. Qed.
Lemma frame_put off v p : frame_ok p -> 0 <= v <= 65535 -> frame_ok (put_be16 off v p).
Proof. intros [H1 H2] Hv. split; [by apply put_bytes|by rewrite put_length]. Qed.
Lemma header_checksum p a e : frame_ok p -> internet_checksum (slice p a e) = 65535 - oc (words (slice p a e)).
Proof.
  intros [Hb Hl]. apply internet_checksum_words; [by apply slice_bytes|]. rewrite slice_length. lia.
Qed.
Lemma oc_csum s : 0 <= s -> 0 <= 65535 - oc s <= 65535.
Proof. intros Hs. pose proof (oc_range s Hs). lia. Qed.

(** The IP header sums to 0xFFFF once its checksum is written. *)
Lemma write_ip_spec p : frame_ok p -> (20 <= ihl_of p)%nat -> (14 + ihl_of p <= length p)%nat ->
  let q := write_ip_checksum p in
  frame_ok q /\ length q = length p /\ ihl_of q = ihl_of p /\ oc (words (slice q 14 (14 + ihl_of p))) = 65535 /\
  forall j, (j <> 24 -> j <> 25 -> get q j = get p j)%nat.
Proof.
  intros Hp Hi Hl q. set (p0 := put_be16 24 0 p). assert (frame_ok p0) as H0 by (apply frame_put; [done|lia]).
  assert (ihl_of p0 = ihl_of p) as Hi0 by (apply ihl_put; lia).
  set (S0 := words (slice p0 14 (14 + ihl_of p))). pose proof (words_small p0 14 (14 + ihl_of p) H0) as Hs. fold S0 in Hs.
  assert (q = put_be16 24 (65535 - oc S0) p0) as Hq.
  { unfold q, write_ip_checksum. fold p0. rewrite Hi0. unfold S0. by rewrite <-header_checksum. }
  pose proof (oc_csum S0 ltac:(lia)) as Hc. rewrite Hq. split_and!.
  - by apply frame_put.
  - by rewrite put_length; unfold p0; rewrite put_length.
  - by rewrite ihl_put by lia.
  - rewrite put_words; [|lia|lia|unfold p0; rewrite put_length; lia|exists 5%nat; lia|done]. fold S0.
    unfold p0 at 1. rewrite put_be_word by lia. rewrite Z.sub_0_r. apply csum_closes. lia.
  - intros j H1 H2. unfold p0. by rewrite !put_get by lia.
Qed.
(** A transport checksum written into its zeroed field closes the transport sum. *)
Lemma write_transport_spec q protocol off fo v : frame_ok q -> 0 <= protocol < 256 -> (34 <= off)%nat -> (off <= fo)%nat -> Nat.Even (fo - off) ->
  (S fo < length q)%nat -> let q0 := put_be16 fo 0 q in
  0 <= v <= 65535 -> (exists k, v = 65535 - oc (transport_sum q0 q0 protocol off) + 65535 * k) -> 0 < v \/ 0 < transport_sum q0 q0 protocol off ->
  unfold_checksum (transport_sum (put_be16 fo v q0) (put_be16 fo v q0) protocol off) = 65535.
Proof.
  intros Hq Hpr Ho Hfo He Hl q0 Hv [k Hk] Hpos. assert (frame_ok q0) as H0 by (apply frame_put; [done|lia]).
  destruct (transport_sum_spec q0 protocol off H0 Hpr) as (E0 & U0 & P0). rewrite E0 in Hk, Hpos.
  destruct (transport_sum_spec (put_be16 fo v q0) protocol off (frame_put fo v q0 H0 Hv) Hpr) as (E1 & U1 & P1).
  rewrite E1, unfold_checksum_spec by done. rewrite pseudo4_put by lia. rewrite put_length.
  rewrite put_words by (try done; unfold q0; rewrite ?put_length; lia). assert (be_word q0 fo = 0) as -> by (apply put_be_word; lia).
  pose proof (words_small q0 off (length q0) H0). unfold is_u32 in U0. destruct (oc_mod _ (proj1 U0)) as [j Hj].
  apply oc_full; [lia|]. split; [lia|]. exists (j + 1 + k). lia.
Qed.

(** A computed TCP checksum verifies.  For every frame with a full IPv4
    header, [compute_ipv4_tcp_checksum] succeeds and the frame it leaves is
    accepted by [verify_ipv4_tcp_checksum]; only the two checksum fields have
    changed. *)
Theorem tcp_checksum_roundtrip p st : frame_ok p -> (20 <= ihl_of p)%nat -> (14 + ihl_of p + 20 <= length p)%nat ->
  let '(q, st', ok) := compute_ipv4_tcp_checksum p st in
  ok = true /\ (verify_ipv4_tcp_checksum q st').1 = true /\ length q = length p /\
  forall j, (j <> 24 -> j <> 25 -> j <> 14 + ihl_of p + 16 -> j <> 14 + ihl_of p + 17 -> get q j = get p j)%nat.
Proof.
  intros Hp Hi Hl. destruct (write_ip_spec p Hp Hi ltac:(lia)) as (W1 & W2 & W3 & W4 & W5).
  unfold compute_ipv4_tcp_checksum. replace (length p <? 54)%nat with false by (symmetry; apply Nat.ltb_ge; lia).
  replace (length p <? 14 + ihl_of p + 20)%nat with false by (symmetry; apply Nat.ltb_ge; lia). cbv zeta.
  set (fo := (14 + ihl_of p + 16)%nat). set (off := (14 + ihl_of p)%nat) in *. set (q := write_ip_checksum p) in *.
  rewrite transport_sum_zeroed by (unfold fo; lia).
  set (q0 := put_be16 fo 0 q). assert (frame_ok q0) as H0 by (apply frame_put; [done|lia]).
  destruct (transport_sum_spec q0 6 off H0 ltac:(lia)) as (E0 & U0 & P0).
  assert (0 <= transport_sum q0 q0 6 off) as Hpos by (rewrite E0; unfold is_u32 in U0; lia).
  rewrite fold_checksum_spec by (by rewrite E0). pose proof (oc_csum _ Hpos) as Hc. set (c := 65535 - oc (transport_sum q0 q0 6 off)) in *.
  assert (length (put_be16 fo c q0) = length p) as Hlen by (rewrite put_length; unfold q0; by rewrite put_length).
  split_and!; [done| |done|].
  - unfold verify_ipv4_tcp_checksum. rewrite Hlen. assert (ihl_of (put_be16 fo c q0) = ihl_of p) as ->.
    { unfold q0. rewrite !ihl_put by (unfold fo; lia). done. }
    replace (length p <? 54)%nat with false by (symmetry; apply Nat.ltb_ge; lia).
    replace (length p <? 14 + ihl_of p + 20)%nat with false by (symmetry; apply Nat.ltb_ge; lia). fold off.
    unfold q0 at 1. rewrite !put_slice_out by (unfold fo, off; lia). rewrite header_checksum, W4 by done. change (negb (65535 - 65535 =? 0)) with false.
    cbn [fst]. unfold q0. rewrite (write_transport_spec q 6 off fo c W1); try done; try (unfold off, fo; lia).
    + exists 8%nat. unfold fo, off. lia.
    + exists 0. fold q0. unfold c. lia.
    + fold q0. unfold c in *. destruct (decide (transport_sum q0 q0 6 off = 0)) as [Hz|]; [|lia]. left. rewrite Hz. cbn. lia.
  - intros j J1 J2 J3 J4. unfold q0. rewrite !put_get by (unfold fo; lia). auto.
Qed.

(** A computed UDP checksum is valid and never zero.  The datagram left by
    [compute_ipv4_udp_checksum] sums to 0xFFFF with its pseudo header, its IP
    header sums to 0xFFFF, and the checksum field is not 0, which a receiver
    would read as "no checksum". *)
Theorem udp_checksum_valid p st : frame_ok p -> (20 <= ihl_of p)%nat -> (14 + ihl_of p + 8 <= length p)%nat ->
  let '(q, _, ok) := compute_ipv4_udp_checksum p st in
  ok = true /\ internet_checksum (slice q 14 (14 + ihl_of q)) = 0 /\
  unfold_checksum (transport_sum q q 17 (14 + ihl_of q)) = 65535 /\ 0 < be_word q (14 + ihl_of q + 6) <= 65535.
Proof.
  intros Hp Hi Hl. destruct (write_ip_spec p Hp Hi ltac:(lia)) as (W1 & W2 & W3 & W4 & W5).
  unfold compute_ipv4_udp_checksum. replace (length p <? 42)%nat with false by (symmetry; apply Nat.ltb_ge; lia).
  replace (length p <? 14 + ihl_of p + 8)%nat with false by (symmetry; apply Nat.ltb_ge; lia). cbv zeta.
  set (fo := (14 + ihl_of p + 6)%nat). set (off := (14 + ihl_of p)%nat) in *. set (q := write_ip_checksum p) in *.
  rewrite transport_sum_zeroed by (unfold fo; lia).
  set (q0 := put_be16 fo 0 q). assert (frame_ok q0) as H0 by (apply frame_put; [done|lia]).
  destruct (transport_sum_spec q0 17 off H0 ltac:(lia)) as (E0 & U0 & P0).
  assert (0 <= transport_sum q0 q0 17 off) as Hpos by (rewrite E0; unfold is_u32 in U0; lia).
  rewrite fold_checksum_spec by (by rewrite E0). pose proof (oc_csum _ Hpos) as Hc.
  set (c := 65535 - oc (transport_sum q0 q0 17 off)) in *. set (v := if c =? 0 then 65535 else c).
  assert (0 < v <= 65535 /\ exists k, v = c + 65535 * k) as [Hv [k Hk]].
  { unfold v. case_match; simplify_bool; (split; [lia|]); [exists 1|exists 0]; lia. }
  assert (ihl_of (put_be16 fo v q0) = ihl_of p) as Hih by (unfold q0; rewrite !ihl_put by (unfold fo; lia); done).
  rewrite Hih. fold off fo. split_and!; [done| | |..].
  - unfold q0. rewrite !put_slice_out by (unfold fo, off; lia). rewrite header_checksum, W4 by done. done.
  - unfold q0. apply write_transport_spec; try done; try (unfold off, fo; lia).
    + exists 3%nat. unfold fo, off. lia.
    + fold q0. exists k. exact Hk.
  - rewrite put_be_word; [lia|lia|]. unfold q0. rewrite put_length. unfold fo. lia.
  - rewrite put_be_word; [lia|lia|]. unfold q0. rewrite put_length. unfold fo. lia.
Qed.

(** Verification detects every corrupted byte.  Changing any single byte of
    an accepted frame behind the first header byte, in the IP header, the TCP
    header or the payload, makes [verify_ipv4_tcp_checksum] reject it. *)
Theorem verify_detects_byte p st i b : frame_ok p -> (20 <= ihl_of p)%nat -> (verify_ipv4_tcp_checksum p st).1 = true ->
  (15 <= i < length p)%nat -> 0 <= b < 256 -> b <> get p i -> (verify_ipv4_tcp_checksum (<[i := b]> p) st).1 = false.
Proof.
  intros Hp Hi Hv Hr Hb Hne. pose proof (get_byte p i (proj1 Hp)) as Hg.
  assert (frame_ok (<[i := b]> p)) as Hp' by (split; [by apply Forall_insert; [apply Hp|]|rewrite length_insert; apply Hp]).
  assert (ihl_of (<[i := b]> p) = ihl_of p) as Hi' by (unfold ihl_of; by rewrite get_insert_ne by lia).
  revert Hv. unfold verify_ipv4_tcp_checksum. rewrite length_insert, Hi'.
  destruct (length p <? 54)%nat; [done|]. destruct (length p <? 14 + ihl_of p + 20)%nat eqn:E2; [done|]. apply Nat.ltb_ge in E2.
  set (off := (14 + ihl_of p)%nat) in *. rewrite !header_checksum by done.
  destruct (transport_sum_spec p 6 off Hp ltac:(lia)) as (E0 & U0 & P0). destruct (transport_sum_spec _ 6 off Hp' ltac:(lia)) as (E1 & U1 & P1).
  pose proof (words_small p 14 off Hp) as B1. pose proof (words_small _ 14 off Hp') as B2.
  rewrite E0, E1, !unfold_checksum_spec by done. rewrite length_insert in U1 |- *. unfold is_u32 in *.
  pose proof (weight_range (i - 14)). pose proof (weight_range (i - off)).
  destruct (negb (_ =? 0)) eqn:E3; [done|]. simplify_bool. cbn [fst]. intros Hv%Z.eqb_eq.
  destruct (decide (i < off)%nat) as [Hin|Hout].
  - rewrite words_slice_insert in B2 |- * by lia.
    pose proof (oc_off (words (slice p 14 off)) ((b - get p i) * weight (i - 14)) ltac:(lia) ltac:(lia) ltac:(lia) ltac:(nia) ltac:(nia)) as Hoff.
    match goal with |- context[negb ?t] => destruct t eqn:E4 end; [simplify_bool; lia|done].
  - rewrite slice_insert_out by lia. replace (65535 - oc (words (slice p 14 off)) =? 0) with true by lia. cbn [negb fst].
    assert (pseudo4 (<[i := b]> p) 6 off = pseudo4 p 6 off) as Hps.
    { unfold pseudo4, be_word. by rewrite !get_insert_ne, length_insert by lia. }
    rewrite Hps in U1 |- *. rewrite words_slice_insert in U1 |- * by lia. apply Z.eqb_neq. rewrite Z.add_assoc.
    apply oc_off; lia || nia.
Qed.

(** ** IPv6 *)
Lemma add_words_range addr s : bytes addr -> 0 <= s <= 4000000 -> s <= add_words addr s <= s + 8 * 65535.
Proof.
  intros Hb Hs. unfold add_words. cbn [foldl]. rewrite !u32_add_add.
  pose proof (fun i => be_word_range addr i Hb) as H. pose proof (H 0%nat). pose proof (H 2%nat). pose proof (H 4%nat). pose proof (H 6%nat).
  pose proof (H 8%nat). pose proof (H 10%nat). pose proof (H 12%nat). pose proof (H 14%nat).
  rewrite u32_add_small by (unfold u32_mod; lia). lia.
Qed.
Lemma pseudo6_range src dst nh len : bytes src -> bytes dst -> 0 <= nh < 256 -> is_u32 len ->
  nh <= ipv6_pseudo_header_checksum src dst nh len <= 1179885.
Proof.
  intros Hs Hd Hn Hl. unfold ipv6_pseudo_header_checksum. pose proof (add_words_range src 0 Hs ltac:(lia)) as H1.
  pose proof (add_words_range dst (add_words src 0) Hd ltac:(split; lia)) as H2. rewrite !u32_add_add.
  rewrite Z.shiftr_div_pow2 by lia. change 0xFFFF with (Z.ones 16). rewrite Z.land_ones by lia.
  unfold is_u32, u32_mod in Hl. assert (0 <= len / 2 ^ 16 <= 65535) by (change (2 ^ 16) with 65536; Z.div_mod_to_equations; lia).
  pose proof (Z.mod_pos_bound len (2 ^ 16) ltac:(done)). change (2 ^ 16) with 65536 in *.
  rewrite u32_add_small by (unfold u32_mod; lia). lia.
Qed.
Lemma sum_all_spec l s : bytes l -> is_u32 s -> s + words l < u32_mod -> sum_all l s = s + words l.
Proof.
  intros Hb Hs Hlt. unfold sum_all. rewrite sum_from_spec, slice_all by done. destruct (words_bound l Hb). unfold is_u32 in Hs.
  apply u32_add_small. lia.
Qed.
(** A segment sum over header and payload is the sum of the whole segment. *)
Lemma compute_ipv6_spec nh src dst seg k : bytes src -> bytes dst -> bytes seg -> Z.of_nat (length seg) <= 131000 -> 0 <= nh < 256 ->
  let P := ipv6_pseudo_header_checksum src dst nh (as_u32 (Z.of_nat (length seg))) in
  compute_ipv6_checksum nh src dst (take (2 * k) seg) (drop (2 * k) seg) = 65535 - oc (P + words seg) /\
  nh <= P <= 1179885 /\ 0 <= words seg <= 4292576000.
Proof.
  intros Hs Hd Hb Hl Hn P. assert (nh <= P <= 1179885) as HP.
  { apply pseudo6_range; try done. unfold is_u32, as_u32. apply Z.mod_pos_bound. done. }
  destruct (words_bound seg Hb) as [B1 B2]. split; [|split; [done|lia]].
  unfold compute_ipv6_checksum. rewrite <-length_app, take_drop. fold P.
  assert (bytes (take (2 * k) seg)) as Ht by (by apply Forall_take). assert (bytes (drop (2 * k) seg)) as Hdr by (by apply Forall_drop).
  pose proof (words_split seg k) as Hw. destruct (words_bound _ Ht). destruct (words_bound _ Hdr).
  unfold is_u32, u32_mod in *. rewrite (sum_all_spec (take _ _)) by (try done; unfold is_u32, u32_mod; lia).
  rewrite sum_all_spec by (try done; unfold is_u32, u32_mod; lia).
  rewrite fold_checksum_spec by (unfold is_u32, u32_mod; lia). by replace (P + words (take (2 * k) seg) + words (drop (2 * k) seg)) with (P + words seg) by lia.
Qed.
(** Adding the computed checksum to the sum of the same segment leaves only the pseudo header. *)
Lemma ipv6_residue P W c : 0 < P -> 0 <= W -> 0 < c + W -> (exists k, c = 65535 - oc (P + W) + 65535 * k) -> 0 <= c ->
  (oc (c + W) =? 65535) = (P mod 65535 =? 0).
Proof.
  intros HP HW Hpos [k Hk] Hc. destruct (oc_mod (P + W) ltac:(lia)) as [j Hj].
  destruct (P mod 65535 =? 0) eqn:E; simplify_bool.
  - apply Z.eqb_eq, oc_full; [lia|]. split; [lia|]. exists (1 + j + k - P / 65535). pose proof (Z.div_mod P 65535). lia.
  - apply Z.eqb_neq. intros [_ [i Hi]]%oc_full; [|lia]. apply E. replace P with ((1 + j + k - i) * 65535) by lia. apply Z_mod_mult.
Qed.

(** IPv6 verification ignores the segment.  The verification functions
    recompute the checksum over the whole segment, checksum field included, and
    add it to the sum of the same segment without the pseudo header: whatever
    the header, the payload and the checksum field contain, the answer depends
    only on whether the pseudo header's sum is a multiple of 65535 (and, for
    TCP, whether the segment is all zeros). *)
Theorem ipv6_verify_ignores_contents src dst seg st : bytes src -> bytes dst -> bytes seg -> Z.of_nat (length seg) <= 131000 ->
  let P nh := ipv6_pseudo_header_checksum src dst nh (as_u32 (Z.of_nat (length seg))) in
  ((20 <= length seg)%nat -> (Z.to_nat (Z.shiftr (get seg 12) 4) * 4 <= length seg)%nat ->
   (verify_ipv6_tcp_checksum src dst seg st).1 = (P 6 mod 65535 =? 0) && negb (words seg =? 0)) /\
  ((8 <= length seg)%nat -> (verify_ipv6_udp_checksum src dst seg st).1 = (P 17 mod 65535 =? 0)).
Proof.
  intros Hs Hd Hb Hl P. split.
  - intros H1 H2. unfold verify_ipv6_tcp_checksum, compute_ipv6_tcp_checksum.
    replace (length seg <? 20)%nat with false by (symmetry; by apply Nat.ltb_ge).
    replace (length seg <? _)%nat with false by (symmetry; by apply Nat.ltb_ge). cbn [fst].
    set (k := (Z.to_nat (Z.shiftr (get seg 12) 4) * 2)%nat). replace (Z.to_nat (Z.shiftr (get seg 12) 4) * 4)%nat with (2 * k)%nat by (unfold k; lia).
    destruct (compute_ipv6_spec 6 src dst seg k Hs Hd Hb Hl ltac:(lia)) as (-> & HP & HW). fold (P 6) in HP |- *.
    pose proof (oc_csum (P 6 + words seg) ltac:(lia)) as Hc. rewrite sum_all_spec by (try done; unfold is_u32, u32_mod; lia).
    rewrite unfold_checksum_spec by (unfold is_u32, u32_mod; lia). destruct (words seg =? 0) eqn:E; simplify_bool; cbn [negb].
    + rewrite andb_false_r. rewrite E, !Z.add_0_r. apply Z.eqb_neq. intros Ho. pose proof (oc_zero (P 6) ltac:(lia)).
      pose proof (oc_range (P 6) ltac:(lia)). apply oc_full in Ho as [Hp [j Hj]]; lia.
    + rewrite andb_true_r. apply ipv6_residue; lia || (exists 0; lia).
  - intros H1. unfold verify_ipv6_udp_checksum, compute_ipv6_udp_checksum.
    replace (length seg <? 8)%nat with false by (symmetry; by apply Nat.ltb_ge). cbn [fst].
    destruct (compute_ipv6_spec 17 src dst seg 4 Hs Hd Hb Hl ltac:(lia)) as (E & HP & HW). fold (P 17) in E, HP |- *.
    cbn [Nat.mul Nat.add] in E. rewrite E. clear E. pose proof (oc_csum (P 17 + words seg) ltac:(lia)) as Hc.
    set (c := if 65535 - oc (P 17 + words seg) =? 0 then 65535 else _).
    assert (0 < c <= 65535 /\ exists k, c = 65535 - oc (P 17 + words seg) + 65535 * k) as [Hc' Hk].
    { unfold c. case_match; simplify_bool; (split; [lia|]); [exists 1|exists 0]; lia. }
    rewrite sum_all_spec by (try done; unfold is_u32, u32_mod; lia). rewrite unfold_checksum_spec by (unfold is_u32, u32_mod; lia).
    apply ipv6_residue; lia || done.
Qed.

(** ** Tunnels *)
Lemma sum_loop_exact fuel data stop i sum : (length data <= i + 2 * fuel)%nat -> is_u32 sum ->
  let j := (i + 2 * ((Nat.min stop (length data) - i) / 2))%nat in
  (sum_loop fuel data stop i sum).2 = u32_add sum (words (slice data i j)).
Proof.
  revert i sum. induction fuel as [|f IH]; intros i sum Hf Hs; cbn [sum_loop].
  - replace (_ - i)%nat with 0%nat by lia. rewrite slice_none by (cbn; lia). cbn. rewrite u32_add_small; [lia|]. by rewrite Z.add_0_r.
  - destruct (_ && _) eqn:E.
    + apply andb_true_iff in E as [E1%Nat.ltb_lt E2%Nat.ltb_lt]. rewrite IH by (try lia; apply u32_add_range). rewrite u32_add_add.
      f_equal. assert ((Nat.min stop (length data) - i) / 2 = S ((Nat.min stop (length data) - (i + 2)) / 2))%nat as ->.
      { replace (Nat.min stop (length data) - i)%nat with (Nat.min stop (length data) - (i + 2) + 1 * 2)%nat by lia.
        rewrite Nat.div_add by lia. lia. }
      rewrite (slice_step data i) by lia. cbn [words]. unfold be_word.
      replace (i + 2 * S ((Nat.min stop (length data) - (i + 2)) / 2))%nat with (i + 2 + 2 * ((Nat.min stop (length data) - (i + 2)) / 2))%nat by lia. lia.
    + assert ((Nat.min stop (length data) - i) / 2 = 0)%nat as ->.
      { apply Nat.div_small. apply andb_false_iff in E as [E|E]; apply Nat.ltb_ge in E; lia. }
      rewrite slice_none by lia. cbn. rewrite u32_add_small; [lia|]. by rewrite Z.add_0_r.
Qed.

(** The tunnel checksum does not depend on the field it is written to.
    With the checksum field aligned inside the summed headers,
    [lco_checksum] gives the same value whatever the field holds, as the word
    and its complement cancel. *)
Theorem lco_field_independent p start off (k : nat) v : frame_ok p -> Z.of_nat start + off = Z.of_nat (2 * k) ->
  (S (2 * k) < start)%nat -> (S (2 * k) < length p)%nat -> 0 <= v <= 65535 ->
  lco_checksum (put_be16 (2 * k) v p) start off = lco_checksum p start off.
Proof.
  intros Hp Ho Hs Hl Hv. pose proof Hp as [Hb Hlen]. unfold lco_checksum.
  assert ((Z.of_nat start + off) mod u64_mod = Z.of_nat (2 * k)) as -> by (rewrite Ho; apply Z.mod_small; unfold u64_mod; lia).
  rewrite u64_add_small by (unfold u64_mod; lia). rewrite put_length, Nat2Z.id.
  replace (Z.of_nat (2 * k) + 1 <? Z.of_nat (length p)) with true by (symmetry; apply Z.ltb_lt; lia).
  set (j := (0 + 2 * ((Nat.min start (length p) - 0) / 2))%nat).
  assert (2 * k + 2 <= j)%nat as Hj.
  { unfold j. pose proof (Nat.Div0.div_le_mono (2 + 2 * k) (Nat.min start (length p) - 0) 2 ltac:(lia)) as H.
    replace (2 + 2 * k)%nat with (S k * 2)%nat in H by lia. rewrite Nat.div_mul in H by lia. lia. }
  pose proof (sum_loop_exact (length p) p start 0 0 ltac:(lia) ltac:(unfold is_u32, u32_mod; lia)) as H1. fold j in H1.
  pose proof (sum_loop_exact (length p) (put_be16 (2 * k) v p) start 0 0 ltac:(rewrite put_length; lia) ltac:(unfold is_u32, u32_mod; lia)) as H2.
  rewrite put_length in H2. fold j in H2.
  destruct (sum_loop (length p) p start 0 0) as [i1 s1]. destruct (sum_loop (length p) (put_be16 (2 * k) v p) start 0 0) as [i2 s2].
  cbn [snd] in H1, H2. rewrite put_words in H2 by (try lia; exists k; lia). rewrite put_be_word by lia.
  rewrite H1, H2, !u32_add_add. do 2 f_equal. lia.
Qed.

(** ** Witnesses *)
(** The frame of the code's own round-trip test. *)
Definition test_frame : list Z :=
  replicate 12 0 ++ [8; 0; 0x45; 0; 0; 0x2C] ++ replicate 5 0 ++ [6; 0; 0; 10; 0; 0; 1; 10; 0; 0; 2] ++ replicate 12 0 ++ [0x50] ++ replicate 11 0.
Lemma test_frame_ok : frame_ok test_frame /\ frame_ok (compute_ipv4_tcp_checksum test_frame stats_new).1.1.
Proof. split; (split; [repeat (apply Forall_cons; split; [vm_compute; split; congruence|]); apply Forall_nil_2|vm_compute; congruence]). Qed.
Lemma internet_checksum_spec_witness : internet_checksum [1; 2; 3] = 65535 - oc (words [1; 2; 3]).
Proof.
  destruct (internet_checksum_spec [1; 2; 3]) as [H _]; [repeat constructor; lia|vm_compute; congruence|exact H].
Defined.
Lemma update_checksum_correct_witness :
  update_checksum (internet_checksum [1; 2; 3; 4]) (be_word [1; 2; 3; 4] 2) 0xABCD = internet_checksum [1; 2; 0xAB; 0xCD].
Proof.
  exact (update_checksum_correct [1; 2; 3; 4] 1 0xABCD ltac:(repeat constructor; lia) ltac:(vm_compute; congruence) ltac:(cbn; lia) ltac:(lia)).
Defined.
Lemma tcp_checksum_roundtrip_witness :
  (verify_ipv4_tcp_checksum (compute_ipv4_tcp_checksum test_frame stats_new).1.1 stats_new).1 = true.
Proof.
  pose proof (tcp_checksum_roundtrip test_frame stats_new (proj1 test_frame_ok) ltac:(vm_compute; lia) ltac:(vm_compute; lia)) as H.
  vm_compute in H |- *. apply H.
Defined.
Lemma udp_checksum_valid_witness :
  let '(q, _, ok) := compute_ipv4_udp_checksum test_frame stats_new in ok = true /\ internet_checksum (slice q 14 34) = 0.
Proof.
  pose proof (udp_checksum_valid test_frame stats_new (proj1 test_frame_ok) ltac:(vm_compute; lia) ltac:(vm_compute; lia)) as H.
  vm_compute in H |- *. destruct H as (H1 & H2 & _). split; assumption.
Defined.
Lemma verify_detects_byte_witness :
  (verify_ipv4_tcp_checksum (<[57%nat := 1]> (compute_ipv4_tcp_checksum test_frame stats_new).1.1) stats_new).1 = false.
Proof.
  apply verify_detects_byte; [apply test_frame_ok|vm_compute; lia|vm_compute; reflexivity|vm_compute; lia|lia|vm_compute; congruence].
Defined.
Lemma ipv6_verify_ignores_contents_witness :
  (verify_ipv6_udp_checksum (replicate 16 1) (replicate 16 2) (replicate 12 3) stats_new).1 = false.
Proof.
  destruct (ipv6_verify_ignores_contents (replicate 16 1) (replicate 16 2) (replicate 12 3) stats_new) as [_ H];
    [apply Forall_replicate; lia..|vm_compute; congruence|].
  rewrite H; [vm_compute; reflexivity|vm_compute; lia].
Defined.
Lemma lco_field_independent_witness : lco_checksum (put_be16 40 0x1234 test_frame) 42 (-2) = lco_checksum test_frame 42 (-2).
Proof.
  apply (lco_field_independent test_frame 42 (-2) 20 0x1234); [apply test_frame_ok|lia|lia|vm_compute; lia|lia].
Defined.
End Checksum.
