(* ===== verification/Seccomp.v ===== *)
(** * System call filtering

    Models [src/src/security/seccomp.rs]: the classic BPF machine, filters and
    filter chains, the per-task context, the filter registry, the two audit
    logs, and the policies that are compiled to BPF.

    Reference-counted objects are values, as no method changes a filter after
    its construction.  The time stamp counter and the tick counter are
    arguments; messages on the serial line are left out.

    The interpreter's [match] lists lower-case local variables as patterns.  In
    Rust such a pattern binds a new variable and matches anything, so the arms
    are modelled with their patterns: [Bind] for the eight arms, [Wild] for the
    last. *)
From S2P Require Import Prelude.

Module Seccomp.

Definition BPF_JMP_JEQ : Z := 0x10.
Definition BPF_JMP_JGT : Z := 0x20.
Definition BPF_JMP_JGE : Z := 0x30.
Definition BPF_JMP_JSET : Z := 0x40.
Definition SECCOMP_MODE_DISABLED : Z := 0.
Definition SECCOMP_MODE_STRICT : Z := 1.
Definition SECCOMP_MODE_FILTER : Z := 2.
Definition SECCOMP_RET_KILL_PROCESS : Z := 0x80000000.
Definition SECCOMP_RET_KILL_THREAD : Z := 0x00000000.
Definition SECCOMP_RET_TRAP : Z := 0x00030000.
Definition SECCOMP_RET_ERRNO : Z := 0x00050000.
Definition SECCOMP_RET_TRACE : Z := 0x7ff00000.
Definition SECCOMP_RET_LOG : Z := 0x7ffc0000.
Definition SECCOMP_RET_ALLOW : Z := 0x7fff0000.
Definition SECCOMP_RET_ACTION : Z := 0x7fff0000.
Definition SECCOMP_STRICT_ALLOWED : list Z := [0; 1; 2; 3; 60; 231; 9; 12; 59].
Definition BPF_CLASS_LD : Z := 0x00.
Definition BPF_CLASS_LDX : Z := 0x01.
Definition BPF_CLASS_ST : Z := 0x02.
Definition BPF_CLASS_STX : Z := 0x03.
Definition BPF_CLASS_ALU : Z := 0x40.
Definition BPF_CLASS_JMP : Z := 0x05.
Definition BPF_CLASS_RET : Z := 0x06.
Definition BPF_CLASS_MISC : Z := 0x07.
Definition BPF_SIZE_W : Z := 0x00.
Definition BPF_SIZE_DW : Z := 0x18.
Definition BPF_MODE_IMM : Z := 0x00.
Definition BPF_MODE_ABS : Z := 0x20.
Definition BPF_SRC_K : Z := 0x00.
Definition BPF_ALU_OP_AND : Z := 0x50.

(** ** Instructions and programs *)
Record BpfInstruction := mkInstr { code : Z; jt : Z; jf : Z; k : Z }.
#[export] Instance BpfInstruction_eq_dec : EqDecision BpfInstruction.
Proof. solve_decision. Defined.
Definition ld_imm (v : Z) : BpfInstruction := mkInstr (Z.lor (Z.lor BPF_CLASS_LD BPF_SIZE_W) BPF_MODE_IMM) 0 0 v.
Definition ld_abs (offset : Z) : BpfInstruction := mkInstr (Z.lor (Z.lor BPF_CLASS_LD BPF_SIZE_W) BPF_MODE_ABS) 0 0 offset.
Definition jeq (v t f : Z) : BpfInstruction := mkInstr (Z.lor (Z.lor BPF_CLASS_JMP BPF_JMP_JEQ) BPF_SRC_K) t f v.
Definition jgt (v t f : Z) : BpfInstruction := mkInstr (Z.lor (Z.lor BPF_CLASS_JMP BPF_JMP_JGT) BPF_SRC_K) t f v.
Definition jge (v t f : Z) : BpfInstruction := mkInstr (Z.lor (Z.lor BPF_CLASS_JMP BPF_JMP_JGE) BPF_SRC_K) t f v.
Definition ret (v : Z) : BpfInstruction := mkInstr (Z.lor BPF_CLASS_RET BPF_SRC_K) 0 0 v.
(** [BpfProgram]; its field [pc] stays 0 and is never read. *)
Record BpfProgram := mkProg { instructions : list BpfInstruction; prog_pc : Z }.
Definition prog_new : BpfProgram := mkProg [] 0.
Definition add (i : BpfInstruction) (p : BpfProgram) : BpfProgram := mkProg (instructions p ++ [i]) (prog_pc p).

Record SeccompData := mkData { nr : Z; arch : Z; instruction_pointer : Z; args : list Z }.
Definition data_new (n : Z) (a : list Z) : SeccompData := mkData n 0xC000003E 0 a.
Definition get_field (d : SeccompData) (offset : Z) : Z :=
  if offset =? 0 then as_u32 (nr d)
  else if offset =? 4 then arch d
  else if (8 <=? offset) && (offset <=? 15) then
    let idx := (offset - 8) / 8 in
    if idx <? 6 then as_u32 (Z.shiftr (default 0 (args d !! Z.to_nat idx)) (offset mod 8 * 8)) else 0
  else 0.

(** ** The interpreter *)
Inductive pattern := Bind | Wild | Const (c : Z).
Definition matches (v : Z) (p : pattern) : bool := match p with Bind | Wild => true | Const c => v =? c end.
(** Rust takes the first arm whose pattern matches. *)
Definition select_arm (v : Z) (pats : list pattern) : nat := default (length pats) (position (matches v) pats).
(** The arms of [execute], as written. *)
Definition arms : list pattern := replicate 8 Bind ++ [Wild].
(** The arms with the values of the constants the variables were made from. *)
Definition const_arms : list pattern :=
  [Const BPF_CLASS_LD; Const BPF_CLASS_LDX; Const BPF_CLASS_ST; Const BPF_CLASS_STX; Const BPF_CLASS_ALU; Const BPF_CLASS_JMP;
   Const BPF_CLASS_RET; Const BPF_CLASS_MISC; Wild].

Inductive outcome := Next (a pc : Z) | Done (v : Z).
Definition exec_instr (pats : list pattern) (d : SeccompData) (i : BpfInstruction) (a pc : Z) : outcome :=
  match select_arm (Z.land (code i) 0x07) pats with
  | 0%nat =>
      let mode := Z.land (code i) 0xe0 in
      let a := if mode =? BPF_MODE_ABS then get_field d (k i) else if mode =? BPF_MODE_IMM then k i else a in
      Next a (u64_add pc 1)
  | 5%nat =>
      let cond := Z.land (code i) 0xf0 in
      let jump (b : bool) := Next a (u64_add (u64_add pc (if b then jt i else jf i)) 1) in
      if cond =? BPF_JMP_JEQ then jump (a =? k i)
      else if cond =? BPF_JMP_JGT then jump (k i <? a)
      else if cond =? BPF_JMP_JGE then jump (k i <=? a)
      else if cond =? BPF_JMP_JSET then jump (negb (Z.land a (k i) =? 0))
      else Next a (u64_add pc (k i))
  | 6%nat => Done (k i)
  | _ => Next a (u64_add pc 1)
  end.
(** The loop over the program counter; [None]: out of fuel. *)
Fixpoint exec_loop (fuel : nat) (pats : list pattern) (d : SeccompData) (l : list BpfInstruction) (a pc : Z) : option Z :=
  match l !! Z.to_nat pc with
  | None => Some SECCOMP_RET_ALLOW
  | Some i =>
      match fuel with
      | O => None
      | S f => match exec_instr pats d i a pc with Done v => Some v | Next a pc => exec_loop f pats d l a pc end
      end
  end.
(** Every arm that is reached moves the program counter by one, so the length of
    the program is enough fuel ([execute_total] below). *)
Definition execute (p : BpfProgram) (d : SeccompData) : Z :=
  default SECCOMP_RET_KILL_PROCESS (exec_loop (length (instructions p)) arms d (instructions p) 0 0).

(** ** Filters and chains *)
Record SeccompFilter := mkFilter { id : Z; program : BpfProgram; default_action : Z; flags : Z; ref_count : Z }.
Definition filter_new (i : Z) (p : BpfProgram) (da fl : Z) : SeccompFilter := mkFilter i p da fl 1.
Definition action_of (da result : Z) : Z :=
  let action := Z.land result SECCOMP_RET_ACTION in if action =? 0 then da else action.
Definition evaluate (f : SeccompFilter) (d : SeccompData) : Z := action_of (default_action f) (execute (program f) d).
Definition action_priority (action : Z) : Z :=
  if action =? SECCOMP_RET_ALLOW then 0 else if action =? SECCOMP_RET_LOG then 1 else if action =? SECCOMP_RET_TRACE then 2
  else if action =? SECCOMP_RET_ERRNO then 3 else if action =? SECCOMP_RET_TRAP then 4
  else if action =? SECCOMP_RET_KILL_THREAD then 5 else if action =? SECCOMP_RET_KILL_PROCESS then 6 else 0.
Definition prio (result : Z) : Z := action_priority (Z.land result SECCOMP_RET_ACTION).
Definition chain_step (most_restrictive result : Z) : Z :=
  if prio most_restrictive <? prio result then result else most_restrictive.
(** [filters] in the order in which they were pushed. *)
Definition evaluate_chain (filters : list SeccompFilter) (d : SeccompData) : Z :=
  if decide (filters = []) then SECCOMP_RET_ALLOW
  else foldl chain_step SECCOMP_RET_ALLOW ((fun f => evaluate f d) <$> rev filters).
Definition push_filter (f : SeccompFilter) (filters : list SeccompFilter) : list SeccompFilter := filters ++ [f].

(** ** The context of a task *)
Inductive SeccompError := AlreadySet | InvalidFilter | PermissionDenied.
Record SeccompContext := mkCtx { mode : Z; ctx_filter : option SeccompFilter; no_new_privs : bool; sync : bool }.
Definition ctx_new : SeccompContext := mkCtx SECCOMP_MODE_DISABLED None false false.
Definition set_strict (c : SeccompContext) : SeccompContext * (unit + SeccompError) :=
  if negb (mode c =? SECCOMP_MODE_DISABLED) then (c, inr AlreadySet)
  else (mkCtx SECCOMP_MODE_STRICT (ctx_filter c) (no_new_privs c) (sync c), inl tt).
Definition set_filter (f : SeccompFilter) (c : SeccompContext) : SeccompContext * (unit + SeccompError) :=
  if mode c =? SECCOMP_MODE_STRICT then (c, inr AlreadySet)
  else (mkCtx SECCOMP_MODE_FILTER (Some f) (no_new_privs c) (sync c), inl tt).
Definition check_syscall (n : Z) (a : list Z) (c : SeccompContext) : Z :=
  if mode c =? SECCOMP_MODE_DISABLED then SECCOMP_RET_ALLOW
  else if mode c =? SECCOMP_MODE_STRICT then
    if existsb (Z.eqb n) SECCOMP_STRICT_ALLOWED then SECCOMP_RET_ALLOW else SECCOMP_RET_KILL_PROCESS
  else if mode c =? SECCOMP_MODE_FILTER then
    match ctx_filter c with Some f => evaluate f (data_new n a) | None => SECCOMP_RET_ALLOW end
  else SECCOMP_RET_ALLOW.
Definition get_mode (c : SeccompContext) : Z := mode c.

(** ** The registry and the system calls *)
Record SeccompStats := mkSStats { filters_count : Z; syscalls_filtered : Z; syscalls_allowed : Z; processes_killed : Z }.
Record SeccompManager := mkMgr { filters : gmap Z SeccompFilter; next_filter_id : Z; stats : SeccompStats }.
Definition mgr_new : SeccompManager := mkMgr ∅ 1 (mkSStats 0 0 0 0).
Definition create_filter (p : BpfProgram) (da fl : Z) (m : SeccompManager) : SeccompManager * SeccompFilter :=
  let i := next_filter_id m in
  let f := filter_new i p da fl in
  let s := stats m in
  (mkMgr (<[i := f]> (filters m)) (u32_add i 1)
     (mkSStats (u32_add (filters_count s) 1) (syscalls_filtered s) (syscalls_allowed s) (processes_killed s)), f).
Definition build (prog : list BpfInstruction) : BpfProgram := foldl (fun p i => add i p) prog_new prog.
Definition sys_seccomp (md fl : Z) (filter_prog : option (list BpfInstruction)) (m : SeccompManager) : SeccompManager * Z :=
  if md =? SECCOMP_MODE_DISABLED then (m, 0)
  else if md =? SECCOMP_MODE_STRICT then (m, 0)
  else if md =? SECCOMP_MODE_FILTER then
    match filter_prog with
    | Some prog => ((create_filter (build prog) SECCOMP_RET_KILL_PROCESS fl m).1, 0)
    | None => (m, -22)
    end
  else (m, -22).
Definition SECCOMP_FILTER_FLAG_NEW_LISTENER : Z := 8.
(** [x as i32] *)
Definition as_i32 (x : Z) : Z := let y := x mod u32_mod in if y <? 2 ^ 31 then y else y - u32_mod.
Definition sys_seccomp_extended (md fl : Z) (filter_prog : option (list BpfInstruction)) (m : SeccompManager) : SeccompManager * Z :=
  if md =? SECCOMP_MODE_DISABLED then (m, 0)
  else if md =? SECCOMP_MODE_STRICT then (m, 0)
  else if md =? SECCOMP_MODE_FILTER then
    match filter_prog with
    | Some prog =>
        if decide (prog = []) then (m, -22)
        else if (4096 <? length prog)%nat then (m, -22)
        else
          let '(m, f) := create_filter (build prog) SECCOMP_RET_KILL_PROCESS fl m in
          if negb (Z.land fl SECCOMP_FILTER_FLAG_NEW_LISTENER =? 0) then (m, as_i32 (id f)) else (m, 0)
    | None => (m, -22)
    end
  else (m, -22).

(** ** Audit logs *)
Record SeccompAuditEntry := mkEntry { timestamp : Z; pid : Z; syscall_nr : Z; action : Z; filter_id : Z }.
Definition SECCOMP_AUDIT_SIZE : nat := 1024.
Record SeccompAuditLog := mkLog { entries : list SeccompAuditEntry; write_pos : nat; total_logged : Z }.
Definition log_new : SeccompAuditLog := mkLog [] 0 0.
Definition log_event (e : SeccompAuditEntry) (l : SeccompAuditLog) : SeccompAuditLog :=
  let es := if (length (entries l) <? SECCOMP_AUDIT_SIZE)%nat then entries l ++ [e] else <[write_pos l := e]> (entries l) in
  mkLog es ((write_pos l + 1) mod SECCOMP_AUDIT_SIZE) (u64_add (total_logged l) 1).
Definition recent_entries (count : nat) (l : SeccompAuditLog) : list SeccompAuditEntry :=
  let len := length (entries l) in
  drop (if (count <? len)%nat then (len - count)%nat else 0%nat) (entries l).

Record SeccompAuditSystem := mkSys { logs : list SeccompAuditEntry; log_limit : nat; audit_enabled : bool }.
Definition sys_log_event (e : SeccompAuditEntry) (s : SeccompAuditSystem) : SeccompAuditSystem :=
  if negb (audit_enabled s) then s
  else
    let l := logs s ++ [e] in
    mkSys (if (log_limit s <? length l)%nat then drop 1 l else l) (log_limit s) (audit_enabled s).
(** [*map.entry(key).or_insert(0) += 1] *)
Definition bump (key : Z) (m : gmap Z Z) : gmap Z Z := <[key := default 0 (m !! key) + 1]> m.
(** The policy key is the string [policy_<filter_id>]; here the number itself. *)
Record SeccompAuditReport := mkReport {
  total_events : nat; syscall_counts : gmap Z Z; action_counts : gmap Z Z; policy_counts : gmap Z Z;
  recent_events : list SeccompAuditEntry }.
Definition generate_report (s : SeccompAuditSystem) : SeccompAuditReport :=
  let count (f : SeccompAuditEntry -> Z) := foldl (fun m e => bump (f e) m) ∅ (logs s) in
  mkReport (length (logs s)) (count syscall_nr) (count action) (count filter_id) (take 100 (rev (logs s))).

(** ** Policies *)
Inductive ArgFilterType := FEq | FNe | FGt | FGe | FLt | FLe | FMaskedEq | FBitSet | FBitClear.
#[export] Instance ArgFilterType_eq_dec : EqDecision ArgFilterType.
Proof. solve_decision. Defined.
Record SeccompArgFilter := mkArg { arg_index : Z; filter_type : ArgFilterType; value : Z; mask : Z }.
Record DynamicSeccompPolicy := mkPolicy {
  policy_id : Z; syscall_rules : gmap Z (list SeccompArgFilter); pol_default : Z; active : bool; created_time : Z }.
Definition policy_new (pid_ da now : Z) : DynamicSeccompPolicy := mkPolicy pid_ ∅ da true now.
Definition add_syscall_rule (sc : Z) (fs : list SeccompArgFilter) (p : DynamicSeccompPolicy) : DynamicSeccompPolicy :=
  mkPolicy (policy_id p) (<[sc := fs]> (syscall_rules p)) (pol_default p) (active p) (created_time p).
Definition as_u8 (x : Z) : Z := x mod u8_mod.
Definition jump_code (t : ArgFilterType) : Z :=
  let cond := match t with
              | FEq | FNe | FMaskedEq => BPF_JMP_JEQ
              | FGt | FLt => BPF_JMP_JGT
              | FGe | FLe => BPF_JMP_JGE
              | FBitSet | FBitClear => BPF_JMP_JSET
              end in Z.lor (Z.lor BPF_CLASS_JMP cond) BPF_SRC_K.
Definition compile_filter (f : SeccompArgFilter) : list BpfInstruction :=
  let t := filter_type f in
  let arg_offset := u32_add 8 ((arg_index f * 8) mod u32_mod) in
  let jt := match t with FNe | FLt | FBitClear => 1 | _ => 0 end in
  let jf := match t with FEq | FGe | FLe | FMaskedEq | FBitSet => 1 | _ => 0 end in
  [mkInstr (Z.lor (Z.lor BPF_CLASS_LD BPF_SIZE_DW) BPF_MODE_ABS) 0 0 arg_offset;
   mkInstr (jump_code t) jt jf (as_u32 (value f))] ++
  match t with
  | FMaskedEq =>
      [mkInstr (Z.lor (Z.lor BPF_CLASS_ALU BPF_ALU_OP_AND) BPF_SRC_K) 0 0 (as_u32 (mask f));
       mkInstr (Z.lor (Z.lor BPF_CLASS_JMP BPF_JMP_JEQ) BPF_SRC_K) 1 0 (as_u32 (Z.land (value f) (mask f)))]
  | _ => []
  end.
Definition compile_rule (r : Z * list SeccompArgFilter) : list BpfInstruction :=
  jeq (as_u32 r.1) 0 (as_u8 (Z.of_nat (length r.2) + 2)) :: concat (compile_filter <$> r.2) ++ [ret SECCOMP_RET_ALLOW].
Definition compile_to_bpf (p : DynamicSeccompPolicy) : BpfProgram :=
  mkProg (ld_abs 0 :: concat (compile_rule <$> btree_iter (syscall_rules p)) ++ [ret (pol_default p)]) 0.
Definition le_bytes (n : nat) (v : Z) : list Z := (fun i => Z.shiftr v (8 * Z.of_nat i) mod u8_mod) <$> seq 0 n.
Definition encode (i : BpfInstruction) : list Z := le_bytes 2 (code i) ++ [jt i; jf i] ++ le_bytes 4 (k i).
Record SeccompJitResult := mkJit { native_code : list Z; code_size : nat; execution_time_ns : Z; success : bool }.
Definition jit_compile (start_time end_time : Z) (p : DynamicSeccompPolicy) : SeccompJitResult :=
  let code := concat (encode <$> instructions (compile_to_bpf p)) in
  mkJit code (length code) (u64_mul (u64_sub end_time start_time) 1000) true.
Definition load_dynamic_policy (p : DynamicSeccompPolicy) (m : SeccompManager) : SeccompManager * Z :=
  let '(m, f) := create_filter (compile_to_bpf p) (pol_default p) 0 m in (m, id f).

(** ** The interpreter accepts everything *)
Lemma arms_first v : select_arm v arms = 0%nat.
Proof. done. Qed.
Lemma exec_loop_total fuel d l a pc : Z.of_nat (length l) < u64_mod -> 0 <= pc ->
  Z.of_nat (length l) <= pc + Z.of_nat fuel -> exec_loop fuel arms d l a pc = Some SECCOMP_RET_ALLOW.
Proof.
  intros Hl. revert a pc. induction fuel as [|f IH]; intros a pc Hpc Hf; cbn [exec_loop].
  - by rewrite lookup_ge_None_2 by lia.
  - destruct (l !! Z.to_nat pc) as [i|] eqn:E; [|done]. apply lookup_lt_Some in E.
    unfold exec_instr. rewrite arms_first. rewrite u64_add_small by lia. apply IH; lia.
Qed.
Lemma execute_total p d : Z.of_nat (length (instructions p)) < u64_mod -> execute p d = SECCOMP_RET_ALLOW.
Proof. intros Hl. unfold execute. by rewrite exec_loop_total by lia. Qed.
Definition prog_ok (f : SeccompFilter) : Prop := Z.of_nat (length (instructions (program f))) < u64_mod.
Lemma evaluate_allow f d : prog_ok f -> evaluate f d = SECCOMP_RET_ALLOW.
Proof. intros Hf. unfold evaluate. by rewrite execute_total. Qed.

(** Filters never restrict anything.  The interpreter's first [match] arm is
    a binding, so it executes every instruction as a load and runs off the end:
    for every program and every system call [execute] ends within as many steps
    as the program has instructions and answers ALLOW, hence so do every filter,
    every chain of filters and every context in filter mode. *)
Theorem seccomp_filter_inert (f : SeccompFilter) (fs : list SeccompFilter) (d : SeccompData) c n a :
  prog_ok f -> Forall prog_ok fs ->
  exec_loop (length (instructions (program f))) arms d (instructions (program f)) 0 0 = Some SECCOMP_RET_ALLOW /\
  evaluate f d = SECCOMP_RET_ALLOW /\ evaluate_chain fs d = SECCOMP_RET_ALLOW /\
  (mode c = SECCOMP_MODE_FILTER -> ctx_filter c = Some f -> check_syscall n a c = SECCOMP_RET_ALLOW).
Proof.
  intros Hf Hfs. split_and!.
  - apply exec_loop_total; [done|lia|lia].
  - by apply evaluate_allow.
  - unfold evaluate_chain. case_decide; [done|]. clear H.
    assert (Forall (fun r => r = SECCOMP_RET_ALLOW) ((fun f => evaluate f d) <$> rev fs)) as Ha.
    { apply Forall_fmap, Forall_forall. intros g Hg. cbn. apply evaluate_allow. rewrite Forall_forall in Hfs. apply Hfs.
      by apply list_elem_of_In, in_rev, list_elem_of_In in Hg. }
    induction Ha as [|r l -> _ IH]; [done|]. cbn [foldl]. by replace (chain_step _ _) with SECCOMP_RET_ALLOW by reflexivity.
  - intros Hm Hc. unfold check_syscall. rewrite Hm, Hc. cbn. by apply evaluate_allow.
Qed.

(** The same program with constants for patterns: a killed call and, for a jump
    without condition and offset 0, a program that does not end. *)
Example const_arms_kill :
  exec_loop 3 const_arms (data_new 2 []) [ld_abs 0; jeq 1 0 1; ret SECCOMP_RET_ALLOW; ret SECCOMP_RET_ERRNO] 0 0 = Some SECCOMP_RET_ERRNO.
Proof. reflexivity. Qed.
Example const_arms_loop : exec_loop 1000 const_arms (data_new 2 []) [mkInstr BPF_CLASS_JMP 0 0 0] 0 0 = None.
Proof. vm_compute. reflexivity. Qed.

(** ** The context as a state machine *)
Inductive ctx_op := OStrict | OFilter (f : SeccompFilter).
Definition run_ctx (ops : list ctx_op) (c : SeccompContext) : SeccompContext :=
  foldl (fun c o => match o with OStrict => (set_strict c).1 | OFilter f => (set_filter f c).1 end) c ops.
(** The filter set last. *)
Definition last_filter (f : SeccompFilter) (ops : list ctx_op) : SeccompFilter :=
  foldl (fun f o => match o with OFilter g => g | OStrict => f end) f ops.
Lemma run_strict ops c : mode c = SECCOMP_MODE_STRICT -> run_ctx ops c = c.
Proof.
  intros Hm. induction ops as [|[|g] ops IH]; [done|..]; cbn; unfold set_strict, set_filter; rewrite Hm; exact IH.
Qed.
Lemma run_filter ops c f : mode c = SECCOMP_MODE_FILTER -> ctx_filter c = Some f ->
  run_ctx ops c = mkCtx SECCOMP_MODE_FILTER (Some (last_filter f ops)) (no_new_privs c) (sync c).
Proof.
  revert c f. induction ops as [|[|g] ops IH]; intros c f Hm Hf.
  - destruct c; cbn in *; by subst.
  - cbn. unfold set_strict. rewrite Hm. cbn. by apply IH.
  - change (run_ctx (OFilter g :: ops) c) with (run_ctx ops (set_filter g c).1). unfold set_filter. rewrite Hm.
    by rewrite IH with (f := g).
Qed.

(** The mode is set once.  Whatever requests follow, the first request
    decides the mode for good: strict mode can be neither left nor given a
    filter, filter mode can only replace its filter by the latest one, and in
    strict mode exactly the nine listed calls are allowed and every other one
    kills the process. *)
Theorem seccomp_mode_once ops n a :
  let c := run_ctx ops ctx_new in
  c = match ops with
      | [] => ctx_new
      | OStrict :: _ => mkCtx SECCOMP_MODE_STRICT None false false
      | OFilter f :: rest => mkCtx SECCOMP_MODE_FILTER (Some (last_filter f rest)) false false
      end /\
  (mode c = SECCOMP_MODE_STRICT ->
   check_syscall n a c = if decide (n ∈ SECCOMP_STRICT_ALLOWED) then SECCOMP_RET_ALLOW else SECCOMP_RET_KILL_PROCESS).
Proof.
  intros c. split.
  - destruct ops as [|[|f] rest]; [done|..]; unfold c; cbn.
    + by apply run_strict.
    + change (run_ctx rest (mkCtx SECCOMP_MODE_FILTER (Some f) false false) = mkCtx SECCOMP_MODE_FILTER (Some (last_filter f rest)) false false).
      by rewrite run_filter with (f := f).
  - intros Hm. unfold check_syscall. rewrite Hm. cbn [Z.eqb]. change (SECCOMP_MODE_STRICT =? SECCOMP_MODE_DISABLED) with false.
    change (SECCOMP_MODE_STRICT =? SECCOMP_MODE_STRICT) with true. cbv iota.
    destruct (existsb _ _) eqn:E; case_decide as Hd; try done.
    + apply existsb_exists in E as (x & Hx & ->%Z.eqb_eq). by apply list_elem_of_In in Hx.
    + enough (existsb (Z.eqb n) SECCOMP_STRICT_ALLOWED = true) by congruence. apply existsb_exists. exists n.
      split; [by apply list_elem_of_In|apply Z.eqb_refl].
Qed.

(** ** Chains *)
(** The decision of a chain is the first of its results, latest filter first,
    with the highest priority. *)
Lemma chain_most_restrictive results r0 : let r := foldl chain_step r0 results in
  Forall (fun x => prio x <= prio r) (r0 :: results) /\
  (r = r0 \/ exists i, results !! i = Some r /\ prio r0 < prio r /\ forall j x, (j < i)%nat -> results !! j = Some x -> prio x < prio r).
Proof.
  revert r0. induction results as [|x results IH]; intros r0 r; [split; [apply Forall_singleton; cbn; lia|by left]|].
  destruct (IH (chain_step r0 x)) as [H1 H2]. change (foldl chain_step (chain_step r0 x) results) with r in H1, H2.
  apply Forall_cons in H1 as [H1 H3]. unfold chain_step in H1, H2. destruct (prio r0 <? prio x) eqn:E; simplify_bool.
  - split; [repeat (apply Forall_cons; split; [lia|]); done|]. right. destruct H2 as [H2|(i & Hi & Hlt & Hj)].
    + exists 0%nat. rewrite H2. split_and!; [done|done|intros; lia].
    + exists (S i). split_and!; [done|lia|]. intros [|j] y Hl Hy; [cbn in Hy; by simplify_eq|]. eapply Hj; [|done]. lia.
  - split; [repeat (apply Forall_cons; split; [lia|]); done|]. destruct H2 as [H2|(i & Hi & Hlt & Hj)]; [by left|right].
    exists (S i). split_and!; [done|lia|]. intros [|j] y Hl Hy; [cbn in Hy; simplify_eq; lia|]. eapply Hj; [|done]. lia.
Qed.
(** The action mask has no bit 31: a request to kill the process ranks as one to kill the thread. *)
Example kill_process_masked : prio SECCOMP_RET_KILL_PROCESS = 5 /\ action_of SECCOMP_RET_ALLOW SECCOMP_RET_KILL_PROCESS = SECCOMP_RET_ALLOW.
Proof. done. Qed.

(** Offsets 8 to 15 read the first argument (documented: the instruction
    pointer), and no offset reads the other five. *)
Lemma get_field_first_arg_only d d' offset : nr d = nr d' -> arch d = arch d' -> args d !! 0%nat = args d' !! 0%nat -> 0 <= offset ->
  get_field d offset = get_field d' offset /\ (16 <= offset -> get_field d offset = 0).
Proof.
  intros Hn Ha H0 Ho. unfold get_field. rewrite Hn, Ha. split.
  - repeat case_match; try done. simplify_bool. assert ((offset - 8) / 8 = 0) as -> by (apply Z.div_small; lia). change (Z.to_nat 0) with 0%nat. by rewrite H0.
  - intros. repeat case_match; simplify_bool; lia.
Qed.

(** ** The registry *)
Record request := mkReq { r_prog : BpfProgram; r_default : Z; r_flags : Z }.
Definition create_all (rs : list request) : SeccompManager :=
  foldl (fun m r => (create_filter (r_prog r) (r_default r) (r_flags r) m).1) mgr_new rs.

(** Filter identifiers are never reused.  After any sequence of fewer than
    2^32 - 1 creations the registry holds exactly the created filters, the
    [i]-th one under the identifier [i] (from 1), and counts them. *)
Theorem seccomp_registry_exact rs : Z.of_nat (length rs) + 1 < u32_mod ->
  let m := create_all rs in
  next_filter_id m = Z.of_nat (length rs) + 1 /\ filters_count (stats m) = Z.of_nat (length rs) /\
  forall i, filters m !! i =
    if decide (1 <= i <= Z.of_nat (length rs))
    then (fun r => filter_new i (r_prog r) (r_default r) (r_flags r)) <$> rs !! Z.to_nat (i - 1) else None.
Proof.
  induction rs as [|r rs IH] using rev_ind; intros Hn m.
  - split_and!; [done|done|]. intros i. case_decide; [cbn in *; lia|]. apply lookup_empty.
  - rewrite length_app in Hn |- *. cbn [length] in Hn |- *. destruct (IH ltac:(lia)) as (H1 & H2 & H3).
    unfold m, create_all. rewrite foldl_app. cbn [foldl]. fold (create_all rs). set (m0 := create_all rs) in *.
    cbn [create_filter fst next_filter_id stats filters_count filters]. rewrite H1, H2, !u32_add_small by lia. split_and!; [lia|lia|].
    intros i. destruct (decide (i = Z.of_nat (length rs) + 1)) as [->|Hne].
    + rewrite lookup_insert_eq, decide_True by lia. replace (Z.to_nat _) with (length rs) by lia. by rewrite list_lookup_middle.
    + rewrite lookup_insert_ne, H3 by done. repeat case_decide; try lia; [|done]. by rewrite lookup_app_l by lia.
Qed.

(** ** The ring of audit events *)
Definition log_all (es : list SeccompAuditEntry) : SeccompAuditLog := foldl (fun l e => log_event e l) log_new es.

(** The audit ring keeps the latest 1024 events.  After any sequence of
    events the ring has the smaller of 1024 and their number, each of the latest
    1024 sits at its sequence number modulo 1024, and the next write goes to the
    oldest; while it has not wrapped around, [recent_entries] gives the latest
    events in order. *)
Theorem audit_ring_exact es :
  let l := log_all es in
  length (entries l) = Nat.min (length es) SECCOMP_AUDIT_SIZE /\ write_pos l = (length es mod SECCOMP_AUDIT_SIZE)%nat /\
  total_logged l = Z.of_nat (length es) mod u64_mod /\
  (forall j e, es !! j = Some e -> (length es <= j + SECCOMP_AUDIT_SIZE)%nat -> entries l !! (j mod SECCOMP_AUDIT_SIZE)%nat = Some e) /\
  forall count, (length es <= SECCOMP_AUDIT_SIZE)%nat -> recent_entries count l = drop (length es - count) es.
Proof.
  cbv zeta. assert (forall es', length (entries (log_all es')) = Nat.min (length es') SECCOMP_AUDIT_SIZE /\
    write_pos (log_all es') = (length es' mod SECCOMP_AUDIT_SIZE)%nat /\ total_logged (log_all es') = Z.of_nat (length es') mod u64_mod /\
    forall j e, es' !! j = Some e -> (length es' <= j + SECCOMP_AUDIT_SIZE)%nat ->
      entries (log_all es') !! (j mod SECCOMP_AUDIT_SIZE)%nat = Some e) as Hall.
  { clear es. intros es. induction es as [|e es (H1 & H2 & H3 & H4)] using rev_ind; [done|].
    unfold log_all. rewrite foldl_app. cbn [foldl]. fold (log_all es). set (l := log_all es) in *. unfold log_event.
    cbn [entries write_pos total_logged]. rewrite length_app. cbn [length]. rewrite H1, H2, H3. unfold SECCOMP_AUDIT_SIZE in *.
    split_and!; [case_match eqn:E; rewrite ?length_app, ?length_insert, H1; cbn [length];
                   [apply Nat.ltb_lt in E|apply Nat.ltb_ge in E]; lia| | |].
    - by rewrite Nat.Div0.add_mod_idemp_l.
    - unfold u64_add. rewrite Zplus_mod_idemp_l. f_equal. lia.
    - intros j x Hj Hlt. assert (j <= length es)%nat as Hle by (apply lookup_lt_Some in Hj; rewrite length_app in Hj; cbn in Hj; lia).
      destruct (Nat.min (length es) 1024 <? 1024)%nat eqn:E; [apply Nat.ltb_lt in E|apply Nat.ltb_ge in E].
      + rewrite Nat.mod_small by lia. destruct (decide (j = length es)) as [->|Hne].
        * rewrite list_lookup_middle in Hj by done. rewrite list_lookup_middle by lia. done.
        * rewrite lookup_app_l in Hj |- * by lia. specialize (H4 j x Hj ltac:(lia)). by rewrite Nat.mod_small in H4 by lia.
      + destruct (decide (j = length es)) as [->|Hne].
        * rewrite list_lookup_middle in Hj by done. rewrite list_lookup_insert_eq; [done|]. rewrite H1. pose proof (Nat.mod_upper_bound (length es) 1024). lia.
        * rewrite lookup_app_l in Hj by lia. rewrite list_lookup_insert_ne; [apply H4; [done|lia]|].
          intros Hm. pose proof (Nat.div_mod_eq j 1024). pose proof (Nat.div_mod_eq (length es) 1024). lia. }
  destruct (Hall es) as (H1 & H2 & H3 & H4). split_and!; try done. intros count Hle. unfold recent_entries. rewrite H1.
  rewrite Nat.min_l by done. assert (entries (log_all es) = es) as ->.
  { apply list_eq_same_length with (length es); [done|by rewrite H1, Nat.min_l|].
    intros i x y Hi Hx Hy. pose proof (H4 i y Hy ltac:(lia)) as Hz.
    destruct (decide (i = SECCOMP_AUDIT_SIZE)); [lia|]. rewrite Nat.mod_small in Hz by lia. congruence. }
  case_match eqn:E; [done|]. apply Nat.ltb_ge in E. by replace (length es - count)%nat with 0%nat by lia.
Qed.
(** Behind the wrap-around [recent_entries] returns the end of the buffer, not the latest event. *)
Example recent_after_wrap :
  recent_entries 1 (log_all ((fun i => mkEntry (Z.of_nat i) 0 0 0 0) <$> seq 0 1025)) = [mkEntry 1023 0 0 0 0].
Proof. vm_compute. reflexivity. Qed.

(** ** The bounded log and its report *)
Definition sys_log_all (limit : nat) (es : list SeccompAuditEntry) : SeccompAuditSystem :=
  foldl (fun s e => sys_log_event e s) (mkSys [] limit true) es.
Lemma sys_log_limit limit es : log_limit (sys_log_all limit es) = limit /\ audit_enabled (sys_log_all limit es) = true.
Proof.
  unfold sys_log_all. induction es as [|e es IH] using rev_ind; [done|]. rewrite foldl_app. cbn [foldl].
  destruct IH as [H1 H2]. set (s := foldl _ _ es) in *. unfold sys_log_event. by rewrite H2.
Qed.
Lemma bump_all (f : SeccompAuditEntry -> Z) l m key :
  default 0 (foldl (fun m e => bump (f e) m) m l !! key) = default 0 (m !! key) + Z.of_nat (length (filter (fun e => f e = key) l)).
Proof.
  revert m. induction l as [|e l IH]; intros m; [cbn; lia|]. cbn [foldl]. rewrite IH, filter_cons. unfold bump.
  destruct (decide (f e = key)) as [->|Hne].
  - rewrite lookup_insert_eq. cbn [default length]. unfold Datatypes.id. lia.
  - by rewrite lookup_insert_ne.
Qed.

(** The bounded log keeps the latest events and its report counts them.
    After any sequence of events the log holds the last [limit] of them in
    order, and the report's tables give, for every system call, action and
    filter, how many of those events it occurs in. *)
Theorem audit_report_exact limit es :
  let s := sys_log_all limit es in
  let kept := drop (length es - limit) es in
  let r := generate_report s in
  logs s = kept /\ total_events r = length kept /\ recent_events r = take 100 (rev kept) /\
  (forall x, default 0 (syscall_counts r !! x) = Z.of_nat (length (filter (fun e => syscall_nr e = x) kept))) /\
  (forall x, default 0 (action_counts r !! x) = Z.of_nat (length (filter (fun e => action e = x) kept))) /\
  (forall x, default 0 (policy_counts r !! x) = Z.of_nat (length (filter (fun e => filter_id e = x) kept))).
Proof.
  cbv zeta. assert (logs (sys_log_all limit es) = drop (length es - limit) es) as Hl.
  { induction es as [|e es IH] using rev_ind; [done|]. destruct (sys_log_limit limit es) as [H1 H2].
    unfold sys_log_all. rewrite foldl_app. cbn [foldl]. fold (sys_log_all limit es). unfold sys_log_event. rewrite H2, H1, IH.
    cbn [negb logs]. rewrite !length_app, length_drop. cbn [length]. rewrite (drop_app (es)). case_match eqn:E; [apply Nat.ltb_lt in E|apply Nat.ltb_ge in E].
    - rewrite drop_app, drop_drop, length_drop.
      replace (length es - limit + 1)%nat with (length es + 1 - limit)%nat by lia.
      by replace (1 - (length es - (length es - limit)))%nat with (length es + 1 - limit - length es)%nat by lia.
    - replace (length es + 1 - limit)%nat with 0%nat by lia. by replace (length es - limit)%nat with 0%nat by lia. }
  unfold generate_report. rewrite Hl. cbn [total_events recent_events syscall_counts action_counts policy_counts].
  split_and!; try done; intros x; by rewrite bump_all, lookup_empty.
Qed.

(** ** The byte code *)
Fixpoint decode (l : list Z) : list BpfInstruction :=
  match l with
  | c0 :: c1 :: a :: b :: k0 :: k1 :: k2 :: k3 :: l' =>
      mkInstr (c0 + 256 * c1) a b (k0 + 256 * k1 + 65536 * k2 + 16777216 * k3) :: decode l'
  | _ => []
  end.
Definition instr_ok (i : BpfInstruction) : Prop := 0 <= code i < u16_mod /\ is_u8 (jt i) /\ is_u8 (jf i) /\ is_u32 (k i).
Lemma decode_encode i l : instr_ok i -> decode (encode i ++ l) = i :: decode l.
Proof.
  destruct i as [c a b v]. intros (H1 & H2 & H3 & H4). unfold encode, le_bytes; cbn [code jt jf k] in *.
  cbn [seq fmap list_fmap app decode]. rewrite !Z.shiftr_div_pow2 by lia.
  change (2 ^ (8 * Z.of_nat 0)) with 1. change (2 ^ (8 * Z.of_nat 1)) with 256. change (2 ^ (8 * Z.of_nat 2)) with 65536.
  change (2 ^ (8 * Z.of_nat 3)) with 16777216. f_equal. f_equal; mlia.
Qed.
Lemma as_u32_ok x : is_u32 (as_u32 x).
Proof. unfold is_u32, as_u32. by apply Z.mod_pos_bound. Qed.
Ltac solve_instr :=
  split_and!; first [apply as_u32_ok | apply u32_add_range | apply Z.mod_pos_bound; done | assumption
                    | vm_compute; split; congruence | vm_compute; congruence].
Lemma compile_filter_ok f : Forall instr_ok (compile_filter f).
Proof.
  unfold compile_filter. destruct (filter_type f); cbn [app]; repeat (apply Forall_cons; split); try apply Forall_nil_2;
    solve_instr.
Qed.
Lemma compile_ok p : is_u32 (pol_default p) -> Forall instr_ok (instructions (compile_to_bpf p)).
Proof.
  intros Hd. cbn [compile_to_bpf instructions]. apply Forall_cons; split; [solve_instr|].
  apply Forall_app; split; [|apply Forall_singleton; solve_instr].
  apply Forall_concat, Forall_fmap, Forall_forall. intros [sc fs] _. cbn [compose compile_rule fst snd].
  apply Forall_cons; split; [|apply Forall_app; split].
  - solve_instr.
  - apply Forall_concat, Forall_fmap, Forall_forall. intros f _. apply compile_filter_ok.
  - apply Forall_singleton. solve_instr.
Qed.

(** The emitted byte code is the program.  Decoding the bytes that
    [jit_compile] emits for a policy gives back exactly the instructions that
    [compile_to_bpf] generated, eight bytes each. *)
Theorem jit_roundtrip p t0 t1 : is_u32 (pol_default p) ->
  decode (native_code (jit_compile t0 t1 p)) = instructions (compile_to_bpf p) /\
  code_size (jit_compile t0 t1 p) = (8 * length (instructions (compile_to_bpf p)))%nat.
Proof.
  intros Hd. pose proof (compile_ok p Hd) as Hok. unfold jit_compile. cbn [native_code code_size].
  induction Hok as [|i l Hi _ IH]; [done|]. destruct IH as [IH1 IH2]. cbn [fmap list_fmap concat]. split.
  - rewrite decode_encode by done. by f_equal.
  - rewrite length_app, IH2. cbn [length]. unfold encode, le_bytes. rewrite !length_app, !length_fmap, !length_seq. cbn. lia.
Qed.
(** Even with constants for patterns a rule with two argument tests would let
    every later system call pass: the jump over the rule counts one instruction
    per test where two are emitted. *)
Example rule_jump_short :
  let p := add_syscall_rule 1 [mkArg 0 FEq 7 0; mkArg 0 FEq 7 0] (policy_new 1 SECCOMP_RET_ERRNO 0) in
  exec_loop 20 const_arms (data_new 2 [0]) (instructions (compile_to_bpf p)) 0 0 = Some SECCOMP_RET_ALLOW.
Proof. vm_compute. reflexivity. Qed.

(** ** Witnesses *)
Definition demo_filter : SeccompFilter := filter_new 1 (build [ld_abs 0; ret SECCOMP_RET_KILL_THREAD]) SECCOMP_RET_KILL_PROCESS 0.
Lemma seccomp_filter_inert_witness : evaluate demo_filter (data_new 59 [1; 2]) = SECCOMP_RET_ALLOW.
Proof.
  destruct (seccomp_filter_inert demo_filter [] (data_new 59 [1; 2]) ctx_new 0 []) as (_ & H & _);
    [vm_compute; reflexivity|constructor|exact H].
Defined.
Lemma seccomp_mode_once_witness : check_syscall 2 [] (run_ctx [OStrict; OFilter demo_filter] ctx_new) = SECCOMP_RET_ALLOW.
Proof. destruct (seccomp_mode_once [OStrict; OFilter demo_filter] 2 []) as [_ H]. rewrite H; vm_compute; reflexivity. Defined.
Lemma seccomp_registry_exact_witness : next_filter_id (create_all [mkReq prog_new 0 0; mkReq prog_new 1 0]) = 3.
Proof. destruct (seccomp_registry_exact [mkReq prog_new 0 0; mkReq prog_new 1 0]) as [H _]; [vm_compute; reflexivity|exact H]. Defined.
Lemma jit_roundtrip_witness :
  decode (native_code (jit_compile 0 1 (add_syscall_rule 1 [mkArg 0 FMaskedEq 7 3] (policy_new 1 SECCOMP_RET_ERRNO 0)))) =
  instructions (compile_to_bpf (add_syscall_rule 1 [mkArg 0 FMaskedEq 7 3] (policy_new 1 SECCOMP_RET_ERRNO 0))).
Proof.
  destruct (jit_roundtrip (add_syscall_rule 1 [mkArg 0 FMaskedEq 7 3] (policy_new 1 SECCOMP_RET_ERRNO 0)) 0 1) as [H _];
    [split; vm_compute; congruence|exact H].
Defined.
End Seccomp.
