(* ===== verification/Signals.v ===== *)
(** * Signals and job control

    Models [src/src/task/signal.rs] (signal numbers, actions, masks and pending
    sets, delivery, the system calls, alarms, jobs) together with the scheduler
    functions that act on a delivered signal ([kill_task], [stop_task],
    [continue_task], [task_exists] of [src/src/task/scheduler.rs]) and the part
    of [schedule()] that files the outgoing task and delivers a signal to the
    incoming one.

    The system is the array of current tasks ([PER_CPU_CURRENT_TASK]), the tasks
    ready to run (all queues of the scheduler as one list; which of them a CPU
    picks is an argument), the sleeping tasks, and the lists of stopped,
    terminated and zombie tasks.  The tick counter is an argument.  Loops that
    sleep until a signal is pending ([sys_sigsuspend], [sys_pause]) are cut at
    the sleep. *)
From S2P Require Import Prelude Timer.

Module Signals.
Import Timer.

(** ** Signal numbers *)
Inductive Signal :=
  | SIGHUP | SIGINT | SIGQUIT | SIGILL | SIGTRAP | SIGABRT | SIGBUS | SIGFPE | SIGKILL | SIGUSR1 | SIGSEGV | SIGUSR2 | SIGPIPE
  | SIGALRM | SIGTERM | SIGSTKFLT | SIGCHLD | SIGCONT | SIGSTOP | SIGTSTP | SIGTTIN | SIGTTOU | SIGURG | SIGXCPU | SIGXFSZ
  | SIGVTALRM | SIGPROF | SIGWINCH | SIGIO | SIGPWR | SIGSYS.
#[export] Instance Signal_eq_dec : EqDecision Signal.
Proof. solve_decision. Defined.
Definition number (s : Signal) : Z :=
  match s with
  | SIGHUP => 1 | SIGINT => 2 | SIGQUIT => 3 | SIGILL => 4 | SIGTRAP => 5 | SIGABRT => 6 | SIGBUS => 7 | SIGFPE => 8
  | SIGKILL => 9 | SIGUSR1 => 10 | SIGSEGV => 11 | SIGUSR2 => 12 | SIGPIPE => 13 | SIGALRM => 14 | SIGTERM => 15
  | SIGSTKFLT => 16 | SIGCHLD => 17 | SIGCONT => 18 | SIGSTOP => 19 | SIGTSTP => 20 | SIGTTIN => 21 | SIGTTOU => 22
  | SIGURG => 23 | SIGXCPU => 24 | SIGXFSZ => 25 | SIGVTALRM => 26 | SIGPROF => 27 | SIGWINCH => 28 | SIGIO => 29
  | SIGPWR => 30 | SIGSYS => 31
  end.
Definition from_number (n : Z) : option Signal :=
  match n with
  | 1 => Some SIGHUP | 2 => Some SIGINT | 3 => Some SIGQUIT | 4 => Some SIGILL | 5 => Some SIGTRAP | 6 => Some SIGABRT
  | 7 => Some SIGBUS | 8 => Some SIGFPE | 9 => Some SIGKILL | 10 => Some SIGUSR1 | 11 => Some SIGSEGV | 12 => Some SIGUSR2
  | 13 => Some SIGPIPE | 14 => Some SIGALRM | 15 => Some SIGTERM | 16 => Some SIGSTKFLT | 17 => Some SIGCHLD
  | 18 => Some SIGCONT | 19 => Some SIGSTOP | 20 => Some SIGTSTP | 21 => Some SIGTTIN | 22 => Some SIGTTOU | 23 => Some SIGURG
  | 24 => Some SIGXCPU | 25 => Some SIGXFSZ | 26 => Some SIGVTALRM | 27 => Some SIGPROF | 28 => Some SIGWINCH
  | 29 => Some SIGIO | 30 => Some SIGPWR | 31 => Some SIGSYS
  | _ => None
  end.
Definition is_catchable (s : Signal) : bool := match s with SIGKILL | SIGSTOP => false | _ => true end.
Definition is_stop_signal (s : Signal) : bool := match s with SIGSTOP | SIGTSTP | SIGTTIN | SIGTTOU => true | _ => false end.
Definition is_continue_signal (s : Signal) : bool := match s with SIGCONT => true | _ => false end.

Inductive SignalAction := Default | Ignore | Catch (handler mask flags restorer : Z).
#[export] Instance SignalAction_eq_dec : EqDecision SignalAction.
Proof. solve_decision. Defined.
Inductive SignalDisposition := DIgnore | DTerminate | DStop | DContinue | DCoreDump.
Definition default_action (s : Signal) : SignalDisposition :=
  match s with
  | SIGCHLD | SIGURG | SIGWINCH | SIGIO | SIGPWR => DIgnore
  | SIGSTOP | SIGTSTP | SIGTTIN | SIGTTOU => DStop
  | SIGCONT => DContinue
  | _ => DTerminate
  end.
Record SigInfo := mkInfo { si_signo : Z; si_errno : Z; si_code : Z; si_pid : Z; si_uid : Z; si_status : Z; si_value : Z }.
Record SigAction := mkAct { sa_handler : Z; sa_mask : Z; sa_flags : Z; sa_restorer : Z }.
Definition SIG_DFL : Z := 0.
Definition SIG_IGN : Z := 1.
Definition SIG_BLOCK : Z := 0.
Definition SIG_UNBLOCK : Z := 1.
Definition SIG_SETMASK : Z := 2.

(** ** The signal state of a task *)
Record SignalHandlers := mkH { handlers : list SignalAction; mask : Z; pending : Z }.
Definition handlers_new : SignalHandlers := mkH (<[17%nat := Ignore]> (replicate 32 Default)) 0 0.
Definition idx (s : Signal) : nat := Z.to_nat (number s).
(** [set_action]: the old action is returned. *)
Definition set_action (s : Signal) (a : SignalAction) (h : SignalHandlers) : SignalHandlers * SignalAction :=
  if negb (is_catchable s) then (h, Default)
  else if (32 <=? idx s)%nat then (h, Default)
  else (mkH (<[idx s := a]> (handlers h)) (mask h) (pending h), default Default (handlers h !! idx s)).
Definition get_action (s : Signal) (h : SignalHandlers) : SignalAction :=
  if (32 <=? idx s)%nat then default Default (handlers h !! 0%nat) else default Default (handlers h !! idx s).
Definition set_mask (m : Z) (h : SignalHandlers) : SignalHandlers := mkH (handlers h) m (pending h).
Definition bit (s : Signal) : Z := Z.shiftl 1 (number s - 1).
Definition block (s : Signal) (h : SignalHandlers) : SignalHandlers := set_mask (Z.lor (mask h) (bit s)) h.
Definition unblock (s : Signal) (h : SignalHandlers) : SignalHandlers := set_mask (Z.ldiff (mask h) (bit s)) h.
Definition set_pending (p : Z) (h : SignalHandlers) : SignalHandlers := mkH (handlers h) (mask h) p.
Definition add_pending (s : Signal) (h : SignalHandlers) : SignalHandlers := set_pending (Z.lor (pending h) (bit s)) h.
Definition clear_pending (s : Signal) (h : SignalHandlers) : SignalHandlers := set_pending (Z.ldiff (pending h) (bit s)) h.
Definition deliverable (h : SignalHandlers) : Z := Z.ldiff (pending h) (mask h).
(** [for i in 0..32]: the first set bit decides. *)
Definition next_pending (h : SignalHandlers) : option Signal :=
  if deliverable h =? 0 then None
  else i ← position (fun i => negb (Z.land (deliverable h) (Z.shiftl 1 i) =? 0)) (seqZ 0 32);
       from_number (Z.of_nat i + 1).
Definition has_pending_signals (h : SignalHandlers) : bool := negb (deliverable h =? 0).

(** ** Jobs *)
Inductive JobState := JRunning | JStopped | JDone.
Record Job := mkJob { job_id : Z; pgid : Z; command : string; j_state : JobState; processes : list Z }.
Record JobManager := mkJM { jobs : gmap Z Job; next_job_id : Z; foreground_pgid : Z }.
Definition jm_new : JobManager := mkJM ∅ 1 0.
Definition create_job (pg : Z) (cmd : string) (m : JobManager) : JobManager * Z :=
  let i := next_job_id m in
  (mkJM (<[i := mkJob i pg cmd JRunning [pg]]> (jobs m)) (u64_add i 1) (foreground_pgid m), i).
Definition set_job_state (st : JobState) (j : Job) : Job := mkJob (job_id j) (pgid j) (command j) st (processes j).
Definition with_job (i : Z) (f : Job -> JobManager -> JobManager) (m : JobManager) : JobManager * bool :=
  match jobs m !! i with Some j => (f j m, true) | None => (m, false) end.
Definition put_job (i : Z) (j : Job) (m : JobManager) : JobManager := mkJM (<[i := j]> (jobs m)) (next_job_id m) (foreground_pgid m).
Definition set_foreground (pg : Z) (m : JobManager) : JobManager := mkJM (jobs m) (next_job_id m) pg.
Definition stop_job (i : Z) : JobManager -> JobManager * bool := with_job i (fun j => put_job i (set_job_state JStopped j)).
Definition continue_job (i : Z) (foreground : bool) : JobManager -> JobManager * bool :=
  with_job i (fun j m =>
    let m := put_job i (set_job_state JRunning j) m in if foreground then set_foreground (pgid j) m else m).
Definition finish_job (i : Z) : JobManager -> JobManager * bool := with_job i (fun j => put_job i (set_job_state JDone j)).
Definition remove_job (i : Z) (m : JobManager) : JobManager * option Job :=
  (mkJM (delete i (jobs m)) (next_job_id m) (foreground_pgid m), jobs m !! i).
Definition get_job (i : Z) (m : JobManager) : option Job := jobs m !! i.
Definition list_jobs (m : JobManager) : list Job := btree_values (jobs m).
Definition find_by_pgid (pg : Z) (m : JobManager) : option Job := List.find (fun j => pgid j =? pg) (list_jobs m).

(** ** Tasks and the system *)
Record Task := mkTask { tid : Z; state : TaskState; signals : SignalHandlers; exit_code : option Z }.
Definition map_signals (f : SignalHandlers -> SignalHandlers) (t : Task) : Task := mkTask (tid t) (state t) (f (signals t)) (exit_code t).
Record system := mkSys {
  slots : list (option Task);        (* [PER_CPU_CURRENT_TASK] *)
  ready : list Task;                 (* worker, overflow and policy queues *)
  sleeping : list Task;              (* the timing wheel *)
  stopped : list (Z * Z);            (* [STOPPED_TASKS] *)
  terminated : list (Z * Z);         (* [TERMINATED_TASKS] *)
  zombies : list Task;
  alarms : gmap Z Z;                 (* [ALARM_DEADLINES] *)
  altstacks : gmap Z Z;
  jm : JobManager }.
Definition set_slots (l : list (option Task)) (s : system) : system :=
  mkSys l (ready s) (sleeping s) (stopped s) (terminated s) (zombies s) (alarms s) (altstacks s) (jm s).
Definition set_alarms (a : gmap Z Z) (s : system) : system :=
  mkSys (slots s) (ready s) (sleeping s) (stopped s) (terminated s) (zombies s) a (altstacks s) (jm s).
Definition set_jm (m : JobManager) (s : system) : system :=
  mkSys (slots s) (ready s) (sleeping s) (stopped s) (terminated s) (zombies s) (alarms s) (altstacks s) m.

Definition current_task_id (cpu : nat) (s : system) : Z :=
  match slots s !! cpu with Some (Some t) => tid t | _ => 0 end.
Definition is_task (pid : Z) (o : option Task) : bool := match o with Some t => tid t =? pid | None => false end.
Definition task_exists (pid : Z) (s : system) : bool :=
  if pid =? 0 then false
  else existsb (is_task pid) (slots s) || existsb (fun t => tid t =? pid) (zombies s) || existsb (fun p => p.1 =? pid) (terminated s).

(** *** Acting on a task that is on a CPU *)
Definition STOP_CODE : Z := 128 + 19.
(** The first slot with the task on which the signal number acts decides; other
    signal numbers leave the loop running on. *)
Fixpoint kill_slots (pid signal : Z) (l : list (option Task)) : list (option Task) * list (Z * Z) * bool :=
  match l with
  | [] => ([], [], false)
  | o :: l' =>
      let next := let '(r, st, f) := kill_slots pid signal l' in (o :: r, st, f) in
      match o with
      | Some t =>
          if tid t =? pid then
            if (signal =? 9) || (signal =? 15) then
              (Some (mkTask (tid t) Terminated (signals t) (Some (128 + signal))) :: l', [], true)
            else if signal =? 19 then (Some (mkTask (tid t) Stopped (signals t) (exit_code t)) :: l', [(tid t, STOP_CODE)], true)
            else if signal =? 18 then
              (Some (match state t with Stopped => mkTask (tid t) Ready (signals t) (exit_code t) | _ => t end) :: l', [], true)
            else next
          else next
      | None => next
      end
  end.
Definition kill_task (pid signal : Z) (s : system) : system * bool :=
  let '(l, st, found) := kill_slots pid signal (slots s) in
  (mkSys l (ready s) (sleeping s) (stopped s ++ st) (terminated s) (zombies s) (alarms s) (altstacks s) (jm s), found).
Definition stop_task (pid : Z) (s : system) : system := (kill_task pid 19 s).1.
Definition continue_task (pid : Z) (s : system) : system := (kill_task pid 18 s).1.
Definition wait_for_stopped (pid : Z) (s : system) : system * option (Z * Z) :=
  let take i := (mkSys (slots s) (ready s) (sleeping s) (delete i (stopped s)) (terminated s) (zombies s) (alarms s) (altstacks s) (jm s),
                 stopped s !! i) in
  if pid =? -1 then match stopped s with [] => (s, None) | _ => take 0%nat end
  else if pid <=? 0 then (s, None)
  else match position (fun p => p.1 =? pid) (stopped s) with Some i => take i | None => (s, None) end.

(** *** Delivery: the handlers are the task's own, the actions go through its number *)
Definition deliver_signals (h : SignalHandlers) (task_id : Z) (s : system) : SignalHandlers * system * option (Z * SigInfo) :=
  match next_pending h with
  | None => (h, s, None)
  | Some sig =>
      let h := clear_pending sig h in
      match get_action sig h with
      | Default =>
          (h, match default_action sig with
              | DIgnore => s
              | DTerminate | DCoreDump => (kill_task task_id (number sig) s).1
              | DStop => stop_task task_id s
              | DContinue => continue_task task_id s
              end, None)
      | Ignore => (h, s, None)
      | Catch handler _ _ _ => (h, s, Some (handler, mkInfo (number sig) 0 0 0 0 0 0))
      end
  end.

(** *** Sending *)
Inductive SignalError := InvalidSignal | ProcessNotFound | PermissionDenied.
Fixpoint send_first (pid : Z) (sig : Signal) (l : list (option Task)) : list (option Task) * bool :=
  match l with
  | [] => ([], false)
  | o :: l' =>
      if is_task pid o then (option_map (map_signals (add_pending sig)) o :: l', true)
      else let '(r, f) := send_first pid sig l' in (o :: r, f)
  end.
Definition send_signal (pid : Z) (sig : Signal) (s : system) : system * option SignalError :=
  let '(l, found) := send_first pid sig (slots s) in (set_slots l s, if found then None else Some ProcessNotFound).
Definition send_signal_to_current (cpu : nat) (sig : Signal) (s : system) : system :=
  set_slots (alter (option_map (map_signals (add_pending sig))) cpu (slots s)) s.
Definition send_where (p : Task -> bool) (sig : Signal) (s : system) : system :=
  set_slots (option_map (fun t => if p t then map_signals (add_pending sig) t else t) <$> slots s) s.
Definition send_signal_pgroup (pg : Z) (sig : Signal) (s : system) : system * option SignalError :=
  (send_where (fun t => tid t =? pg) sig s, if existsb (is_task pg) (slots s) then None else Some ProcessNotFound).
Definition send_signal_all (sig : Signal) (s : system) : system * option SignalError := (send_where (fun t => 1 <? tid t) sig s, None).
Definition generate_terminal_signal (sig : Signal) (s : system) : system :=
  let fg := foreground_pgid (jm s) in
  let s := if negb (fg =? 0) then (send_signal_pgroup fg sig s).1 else s in
  match sig, find_by_pgid fg (jm s) with
  | SIGTSTP, Some j => set_jm (stop_job (job_id j) (jm s)).1 s
  | _, _ => s
  end.

(** ** System calls *)
Definition action_to_sigaction (a : SignalAction) : SigAction :=
  match a with
  | Default => mkAct SIG_DFL 0 0 0
  | Ignore => mkAct SIG_IGN 0 0 0
  | Catch h m f r => mkAct h m f r
  end.
Definition sigaction_to_action (a : SigAction) : SignalAction :=
  if sa_handler a =? SIG_DFL then Default
  else if sa_handler a =? SIG_IGN then Ignore
  else Catch (sa_handler a) (sa_mask a) (sa_flags a) (sa_restorer a).
(** The old action is stored through [oldact] when the caller asks for it. *)
Definition sys_sigaction (signum : Z) (act : option SigAction) (want_old : bool) (h : SignalHandlers)
  : SignalHandlers * option SigAction * Z :=
  if (signum <? 1) || (31 <? signum) then (h, None, -22)
  else
    match from_number signum with
    | None => (h, None, -22)
    | Some sig =>
        if negb (is_catchable sig) && bool_decide (is_Some act) then (h, None, -22)
        else
          let old := if want_old then Some (action_to_sigaction (get_action sig h)) else None in
          (match act with Some a => (set_action sig (sigaction_to_action a) h).1 | None => h end, old, 0)
    end.
Definition sys_sigprocmask (how : Z) (set : option Z) (h : SignalHandlers) : SignalHandlers * Z :=
  match set with
  | None => (h, 0)
  | Some new_mask =>
      if how =? SIG_BLOCK then (set_mask (Z.lor (mask h) new_mask) h, 0)
      else if how =? SIG_UNBLOCK then (set_mask (Z.ldiff (mask h) new_mask) h, 0)
      else if how =? SIG_SETMASK then (set_mask new_mask h, 0)
      else (h, -22)
  end.
Definition sys_sigpending (h : SignalHandlers) : Z := pending h.
(** [sys_sigsuspend] before its loop, and one test of the loop: [Some] when the call returns. *)
Definition sigsuspend_begin (m : Z) (h : SignalHandlers) : SignalHandlers * Z := (set_mask m h, mask h).
Definition sigsuspend_poll (old_mask : Z) (h : SignalHandlers) : SignalHandlers * option Z :=
  match next_pending h with None => (h, None) | Some _ => (set_mask old_mask h, Some (-4)) end.
Definition current_task_has_deliverable_signal (cpu : nat) (s : system) : bool :=
  match List.find (is_task (current_task_id cpu s)) (slots s) with
  | Some (Some t) => has_pending_signals (signals t)
  | _ => false
  end.
Definition pause_poll (cpu : nat) (s : system) : option Z :=
  if current_task_has_deliverable_signal cpu s then Some (-4) else None.

Definition errno_of (e : option SignalError) : Z :=
  match e with None => 0 | Some ProcessNotFound => -3 | Some PermissionDenied => -1 | Some InvalidSignal => -22 end.
(** [(-pid) as usize] on an [i32]. *)
Definition neg_as_usize (pid : Z) : Z := (if pid =? - 2 ^ 31 then pid else - pid) mod u64_mod.
Definition sys_kill (cpu : nat) (pid signum : Z) (s : system) : system * Z :=
  if (signum <? 0) || (31 <? signum) then (s, -22)
  else
    let fg := foreground_pgid (jm s) in
    match (if 0 <? signum then from_number signum else None) with
    | Some sig =>
        if 0 <? pid then let '(s, e) := send_signal pid sig s in (s, errno_of e)
        else if pid =? 0 then
          if fg =? 0 then let '(s, e) := send_signal (current_task_id cpu s) sig s in (s, errno_of e)
          else let '(s, e) := send_signal_pgroup fg sig s in (s, errno_of e)
        else if pid =? -1 then let '(s, e) := send_signal_all sig s in (s, errno_of e)
        else let '(s, e) := send_signal_pgroup (neg_as_usize pid) sig s in (s, errno_of e)
    | None =>
        if 0 <? pid then (s, if task_exists pid s then 0 else -3)
        else if pid =? 0 then
          if fg =? 0 then (s, if task_exists (current_task_id cpu s) s then 0 else -3)
          else (s, if bool_decide (is_Some (find_by_pgid fg (jm s))) then 0 else -3)
        else (s, 0)
    end.
(** [x as i32] *)
Definition to_i32 (x : Z) : Z := let y := x mod u32_mod in if y <? 2 ^ 31 then y else y - u32_mod.
Definition sys_raise (cpu : nat) (signum : Z) (s : system) : system * Z := sys_kill cpu (to_i32 (current_task_id cpu s)) signum s.
Definition sys_alarm (cpu : nat) (now seconds : Z) (s : system) : system * Z :=
  let pid := current_task_id cpu s in
  let previous := match alarms s !! pid with Some deadline => sat_sub deadline now | None => 0 end in
  (set_alarms (if seconds =? 0 then delete pid (alarms s)
               else <[pid := u64_sat_add now (u64_sat_mul seconds 100)]> (alarms s)) s,
   as_u32 (previous / 100)).
Definition sys_sigaltstack (cpu : nat) (ss : option Z) (s : system) : system * Z :=
  let pid := current_task_id cpu s in
  let old := default 0 (altstacks s !! pid) in
  (match ss with
   | Some v => mkSys (slots s) (ready s) (sleeping s) (stopped s) (terminated s) (zombies s) (alarms s) (<[pid := v]> (altstacks s)) (jm s)
   | None => s
   end, old).
Definition due_pids (tick : Z) (a : gmap Z Z) : list Z := (filter (fun p => p.2 <= tick) (btree_iter a)).*1.
Definition process_alarms (current_tick : Z) (s : system) : system :=
  let due := due_pids current_tick (alarms s) in
  if decide (due = []) then s
  else
    let s := set_alarms (foldl (fun a pid => delete pid a) (alarms s) due) s in
    foldl (fun s pid => (send_signal pid SIGALRM s).1) s due.

(** ** The part of [schedule()] that concerns signals *)
(** The outgoing task; a task that is stopped, blocked or a zombie is not kept
    here.  Run-time accounting and the messages to the policy agent are left out. *)
Definition file_outgoing (t : Task) (s : system) : system :=
  match (match state t with Running => Ready | st => st end) with
  | Ready => mkSys (slots s) (ready s ++ [mkTask (tid t) Ready (signals t) (exit_code t)]) (sleeping s) (stopped s) (terminated s)
               (zombies s) (alarms s) (altstacks s) (jm s)
  | Sleeping w => mkSys (slots s) (ready s) (sleeping s ++ [mkTask (tid t) (Sleeping w) (signals t) (exit_code t)]) (stopped s)
                    (terminated s) (zombies s) (alarms s) (altstacks s) (jm s)
  | Terminated => mkSys (slots s) (ready s) (sleeping s) (stopped s) (terminated s ++ [(tid t, default 0 (exit_code t))])
                    (zombies s ++ [t]) (alarms s) (altstacks s) (jm s)
  | _ => s
  end.
Definition take_ready (choice : nat) (s : system) : system * option Task :=
  match ready s !! choice with
  | Some t => (mkSys (slots s) (delete choice (ready s)) (sleeping s) (stopped s) (terminated s) (zombies s) (alarms s) (altstacks s) (jm s), Some t)
  | None => (s, None)
  end.
(** The incoming task: delivery, then the state and the slot are set. *)
Definition install (cpu : nat) (t : Task) (s : system) : system :=
  let '(h, s) := if has_pending_signals (signals t)
                 then let '(h, s, _) := deliver_signals (signals t) (tid t) s in (h, s) else (signals t, s) in
  set_slots (<[cpu := Some (mkTask (tid t) Running h (exit_code t))]> (slots s)) s.
Definition schedule (cpu choice : nat) (s : system) : system :=
  match slots s !! cpu with
  | None => s
  | Some o =>
      let s := set_slots (<[cpu := None]> (slots s)) s in
      let s := match o with Some t => file_outgoing t s | None => s end in
      let '(s, next) := take_ready choice s in
      match next with Some t => install cpu t s | None => s end
  end.

(** ** Numbers and bits *)
Definition all_signals : list Signal :=
  [SIGHUP; SIGINT; SIGQUIT; SIGILL; SIGTRAP; SIGABRT; SIGBUS; SIGFPE; SIGKILL; SIGUSR1; SIGSEGV; SIGUSR2; SIGPIPE; SIGALRM; SIGTERM;
   SIGSTKFLT; SIGCHLD; SIGCONT; SIGSTOP; SIGTSTP; SIGTTIN; SIGTTOU; SIGURG; SIGXCPU; SIGXFSZ; SIGVTALRM; SIGPROF; SIGWINCH; SIGIO;
   SIGPWR; SIGSYS].
Lemma number_range s : 1 <= number s <= 31.
Proof. destruct s; cbn; lia. Qed.
Lemma from_number_iff n s : from_number n = Some s <-> number s = n.
Proof.
  split; [|intros <-; by destruct s]. unfold from_number. intros H.
  repeat (case_match; simplify_eq; try done).
Qed.
Lemma number_inj s t : number s = number t -> s = t.
Proof. intros H. assert (from_number (number s) = Some t) as E by (by apply from_number_iff). assert (from_number (number s) = Some s) as E' by (by apply from_number_iff). congruence. Qed.
Lemma all_signals_lookup (i : nat) s : all_signals !! i = Some s <-> number s = Z.of_nat i + 1.
Proof.
  split.
  - intros H. do 31 (destruct i as [|i]; [cbn in H; by simplify_eq|]). done.
  - intros H. assert (i = Z.to_nat (number s - 1)) as -> by lia. by destruct s.
Qed.

Lemma from_number_defined n : is_Some (from_number n) <-> 1 <= n <= 31.
Proof.
  split.
  - intros [t Ht]. apply from_number_iff in Ht as <-. apply number_range.
  - intros Hn. destruct (lookup_lt_is_Some_2 all_signals (Z.to_nat (n - 1))) as [t Ht]; [cbn; lia|].
    exists t. apply from_number_iff. apply all_signals_lookup in Ht. lia.
Qed.
(** Signal numbers and signals correspond.  [from_number] inverts [number]
    on every signal, and is defined exactly on 1 to 31. *)
Theorem signal_number_roundtrip n s :
  from_number (number s) = Some s /\ (from_number n = Some s <-> number s = n) /\ (is_Some (from_number n) <-> 1 <= n <= 31).
Proof. split_and!; [by apply from_number_iff|apply from_number_iff|apply from_number_defined]. Qed.

Definition ready_signal (h : SignalHandlers) (s : Signal) : bool := Z.testbit (deliverable h) (number s - 1).
Lemma shiftl1_bit i n : 0 <= i -> 0 <= n -> Z.testbit (Z.shiftl 1 i) n = (n =? i).
Proof.
  intros Hi Hn. rewrite Z.shiftl_1_l. destruct (Z.eqb_spec n i) as [->|Hne]; [by apply Z.pow2_bits_true|].
  apply Z.pow2_bits_false. lia.
Qed.
Lemma land_bit x i : 0 <= i -> negb (Z.land x (Z.shiftl 1 i) =? 0) = Z.testbit x i.
Proof.
  intros Hi. destruct (Z.testbit x i) eqn:E.
  - apply negb_true_iff, Z.eqb_neq. intros H. assert (Z.testbit (Z.land x (Z.shiftl 1 i)) i = false) as Hf by (by rewrite H, Z.bits_0).
    by rewrite Z.land_spec, E, shiftl1_bit, Z.eqb_refl in Hf by lia.
  - apply negb_false_iff, Z.eqb_eq, Z.bits_inj'. intros n Hn. rewrite Z.bits_0, Z.land_spec, shiftl1_bit by lia.
    destruct (Z.eqb_spec n i) as [->|]; [by rewrite E|apply andb_false_r].
Qed.
Lemma seqZ_lookup_0 (i : nat) : (i < 32)%nat -> seqZ 0 32 !! i = Some (Z.of_nat i).
Proof. intros H. apply lookup_seqZ. lia. Qed.

(** The signal chosen is the lowest-numbered one that is pending and not masked. *)
Lemma next_pending_spec h s : next_pending h = Some s <->
  ready_signal h s = true /\ forall t, ready_signal h t = true -> number s <= number t.
Proof.
  unfold next_pending, ready_signal. set (d := deliverable h).
  assert (forall i x, seqZ 0 32 !! i = Some x -> x = Z.of_nat i /\ (i < 32)%nat) as Hs.
  { intros i x Hx. pose proof (lookup_lt_Some _ _ _ Hx) as Hl. rewrite length_seqZ in Hl. rewrite seqZ_lookup_0 in Hx by lia. split; [congruence|lia]. }
  split.
  - destruct (d =? 0); [done|]. intros (i & Hi & Hp)%bind_Some. apply position_spec in Hi as [(x & Hx & Hb) Hlow].
    apply from_number_iff in Hp. destruct (Hs _ _ Hx) as [-> Hlt]. rewrite land_bit in Hb by lia.
    replace (number s - 1) with (Z.of_nat i) by lia. split; [done|]. intros t Ht. pose proof (number_range t).
    destruct (decide (number s <= number t)); [done|]. specialize (Hlow (Z.to_nat (number t - 1)) (number t - 1) ltac:(lia)).
    rewrite land_bit in Hlow by lia. rewrite Ht in Hlow. discriminate Hlow. rewrite seqZ_lookup_0 by lia. f_equal. lia.
  - intros [Hb Hlow]. pose proof (number_range s). destruct (Z.eqb_spec d 0) as [E|_]; [by rewrite E, Z.bits_0 in Hb|].
    destruct (position _ _) as [i|] eqn:Hi.
    + cbn. apply position_spec in Hi as [(x & Hx & Hx2) Hl]. destruct (Hs _ _ Hx) as [-> Hlt]. rewrite land_bit in Hx2 by lia.
      apply from_number_iff. destruct (Z.lt_trichotomy (Z.of_nat i) (number s - 1)) as [Hc|[Hc|Hc]]; [|lia|].
      * destruct (lookup_lt_is_Some_2 all_signals i) as [t Ht]; [cbn; lia|]. apply all_signals_lookup in Ht.
        specialize (Hlow t). replace (number t - 1) with (Z.of_nat i) in Hlow by lia. specialize (Hlow Hx2). lia.
      * specialize (Hl (Z.to_nat (number s - 1)) (number s - 1) ltac:(lia)). rewrite land_bit, Hb in Hl by lia.
        discriminate Hl. rewrite seqZ_lookup_0 by lia. f_equal. lia.
    + apply position_None in Hi. rewrite Forall_lookup in Hi.
      specialize (Hi (Z.to_nat (number s - 1)) (number s - 1)). rewrite land_bit, Hb in Hi by lia. discriminate Hi.
      rewrite seqZ_lookup_0 by lia. f_equal. lia.
Qed.
Lemma next_pending_None h : (forall s, ready_signal h s = false) -> next_pending h = None.
Proof.
  intros H. destruct (next_pending h) as [s|] eqn:E; [|done]. apply next_pending_spec in E as [E _]. by rewrite H in E.
Qed.
Lemma clear_ready h s t : ready_signal (clear_pending s h) t = ready_signal h t && negb (bool_decide (s = t)).
Proof.
  pose proof (number_range s). pose proof (number_range t). unfold ready_signal, deliverable, clear_pending, set_pending, bit; cbn [pending mask].
  rewrite !Z.ldiff_spec, shiftl1_bit by lia. case_bool_decide as Hst.
  - subst. rewrite Z.eqb_refl. cbn. by rewrite !andb_false_r.
  - destruct (Z.eqb_spec (number t - 1) (number s - 1)) as [E|_]; [destruct Hst; apply number_inj; lia|]. cbn. by rewrite !andb_true_r.
Qed.

(** The signals that repeated deliveries take. *)
Fixpoint deliver_seq (n : nat) (h : SignalHandlers) (task_id : Z) (s : system) : list Signal * SignalHandlers :=
  match n with
  | O => ([], h)
  | S n =>
      match next_pending h with
      | None => ([], h)
      | Some sig =>
          let '(h', s', _) := deliver_signals h task_id s in
          let '(l, h'') := deliver_seq n h' task_id s' in (sig :: l, h'')
      end
  end.
Lemma deliver_clears h t s sig : next_pending h = Some sig -> (deliver_signals h t s).1.1 = clear_pending sig h.
Proof. intros H. unfold deliver_signals. rewrite H. by destruct (get_action _ _). Qed.
Lemma deliver_seq_spec (k n : nat) h t s : (k <= 31)%nat -> (31 - k <= n)%nat ->
  (forall sig, number sig <= Z.of_nat k -> ready_signal h sig = false) ->
  let '(l, h') := deliver_seq n h t s in
  l = filter (fun sig => ready_signal h sig = true) (drop k all_signals) /\ forall sig, ready_signal h' sig = false.
Proof.
  intros Hk. remember (31 - k)%nat as m eqn:Em. revert k n h s Hk Em. induction m as [|m IH]; intros k n h s Hk Em Hn Hlow.
  - assert (forall sig, ready_signal h sig = false) as Hall by (intros sig; apply Hlow; pose proof (number_range sig); lia).
    assert (k = 31%nat) as -> by lia. destruct n; cbn [deliver_seq]; rewrite ?next_pending_None by done; done.
  - destruct (lookup_lt_is_Some_2 all_signals k) as [sig Hsig]; [cbn; lia|]. rewrite (drop_S _ _ _ Hsig), filter_cons.
    apply all_signals_lookup in Hsig. destruct (ready_signal h sig) eqn:E.
    + rewrite decide_True by done. destruct n as [|n]; [lia|]. cbn [deliver_seq]. assert (next_pending h = Some sig) as Hnp.
      { apply next_pending_spec. split; [done|]. intros u Hu. destruct (decide (number sig <= number u)); [done|].
        rewrite Hlow in Hu by lia. done. }
      rewrite Hnp. pose proof (deliver_clears h t s sig Hnp) as Hc. destruct (deliver_signals h t s) as [[h1 s1] o]. cbn in Hc. subst h1.
      specialize (IH (S k) n (clear_pending sig h) s1 ltac:(lia) ltac:(lia) ltac:(lia)).
      destruct (deliver_seq n (clear_pending sig h) t s1) as [l h']. destruct IH as [-> H'].
      { intros u Hu. rewrite clear_ready. case_bool_decide; [apply andb_false_r|]. rewrite Hlow; [done|].
        destruct (decide (number u = number sig)) as [Heq|]; [|lia]. apply number_inj in Heq. congruence. }
      split; [|done]. f_equal. apply filter_ext_in. intros u Hu. rewrite clear_ready. case_bool_decide as Hd; [|by rewrite andb_true_r].
      subst. exfalso. apply list_elem_of_lookup in Hu as [i Hi]. rewrite lookup_drop in Hi. apply all_signals_lookup in Hi. lia.
    + rewrite decide_False by done. apply (IH (S k) n h s); [lia|lia|lia|]. intros u Hu.
      destruct (decide (number u = number sig)) as [Heq|]; [apply number_inj in Heq; by subst|apply Hlow; lia].
Qed.

(** Delivery is in order and exhaustive.  Delivering again and again takes
    every signal that is pending and not masked exactly once, in ascending order
    of the numbers, and at most 31 deliveries leave nothing to deliver. *)
Theorem signals_delivered_in_order h t s :
  let '(l, h') := deliver_seq 31 h t s in
  l = filter (fun sig => ready_signal h sig = true) all_signals /\ next_pending h' = None.
Proof.
  pose proof (deliver_seq_spec 0 31 h t s ltac:(lia) ltac:(lia)) as H. destruct (deliver_seq 31 h t s) as [l h'].
  destruct H as [H1 H2]; [intros sig Hs; pose proof (number_range sig); lia|]. split; [done|]. by apply next_pending_None.
Qed.

(** ** Signals and the tasks they are sent to *)
Definition slot_tasks (l : list (option Task)) : list Task := omap (fun o => o) l.
Definition live_ids (s : system) : list Z := (tid <$> slot_tasks (slots s)) ++ (tid <$> ready s) ++ (tid <$> sleeping s).
Definition active_state (st : TaskState) : bool := match st with Running | Sleeping _ => true | _ => false end.
(** Every task is running, ready or sleeping, once, and none was stopped or ended. *)
Record calm (s : system) : Prop := {
  ca_ids : NoDup (live_ids s);
  ca_slots : forall cpu t, slots s !! cpu = Some (Some t) -> active_state (state t) = true /\ exit_code t = None;
  ca_ready : forall t, t ∈ ready s -> state t = Ready /\ exit_code t = None;
  ca_sleep : forall t, t ∈ sleeping s -> active_state (state t) = true /\ exit_code t = None;
  ca_none : stopped s = [] /\ terminated s = [] /\ zombies s = [] }.
(** Two arrays of slots that differ in the signal state of the tasks only. *)
Definition same_slot (o o' : option Task) : Prop :=
  match o, o' with
  | None, None => True
  | Some t, Some t' => tid t = tid t' /\ state t = state t' /\ exit_code t = exit_code t'
  | _, _ => False
  end.
Lemma same_slot_refl o : same_slot o o.
Proof. by destruct o. Qed.
Lemma same_slots_refl l : Forall2 same_slot l l.
Proof. induction l; constructor; [apply same_slot_refl|done]. Qed.
Lemma same_slots_ids l l' : Forall2 same_slot l l' -> tid <$> slot_tasks l = tid <$> slot_tasks l'.
Proof.
  induction 1 as [|[t|] [t'|] l l' H Hf IH]; try done. destruct H as [H _]. cbn. unfold slot_tasks in IH. rewrite H. by f_equal.
Qed.
(** A step that touches the tasks' signal state only. *)
Definition quiet (s s' : system) : Prop :=
  Forall2 same_slot (slots s) (slots s') /\ ready s' = ready s /\ sleeping s' = sleeping s /\
  stopped s' = stopped s /\ terminated s' = terminated s /\ zombies s' = zombies s.
Lemma quiet_slots s l : Forall2 same_slot (slots s) l -> quiet s (set_slots l s).
Proof. intros. unfold quiet. by split_and!. Qed.
Lemma quiet_refl s : quiet s s.
Proof. unfold quiet; split_and!; [apply same_slots_refl|done..]. Qed.
Lemma quiet_trans s1 s2 s3 : quiet s1 s2 -> quiet s2 s3 -> quiet s1 s3.
Proof.
  intros (H1 & H2 & H3 & H4 & H5 & H6) (G1 & G2 & G3 & G4 & G5 & G6). unfold quiet. split_and!; try congruence.
  eapply Forall2_trans; [|done|done]. intros [a|] [b|] [c|]; try done. intros (? & ? & ?) (? & ? & ?). split_and!; congruence.
Qed.
Lemma calm_quiet s s' : calm s -> quiet s s' -> calm s' /\ live_ids s' ≡ₚ live_ids s.
Proof.
  intros [H1 H2 H3 H4 H5] (Hf & E2 & E3 & E4 & E5 & E6).
  assert (live_ids s' = live_ids s) as Hl by (unfold live_ids; by rewrite E2, E3, (same_slots_ids _ _ Hf)).
  split; [|by rewrite Hl]. split; rewrite ?E2, ?E3, ?E4, ?E5, ?E6, ?Hl; auto.
  intros cpu t Ht. destruct (Forall2_lookup_r _ _ _ _ _ Hf Ht) as ([t0|] & Ht0 & Hs); [|done]. destruct Hs as (_ & <- & <-). eauto.
Qed.
Lemma send_first_same pid sig l : Forall2 same_slot l (send_first pid sig l).1.
Proof.
  induction l as [|o l IH]; [constructor|]. cbn [send_first]. destruct (is_task pid o).
  - constructor; [by destruct o|apply same_slots_refl].
  - destruct (send_first pid sig l) as [r f]. constructor; [apply same_slot_refl|done].
Qed.
Lemma send_where_same (p : Task -> bool) sig (l : list (option Task)) : Forall2 same_slot l (option_map (fun t => if p t then map_signals (add_pending sig) t else t) <$> l).
Proof. induction l as [|[t|] l IH]; [constructor|..]; cbn; constructor; try done. by destruct (p t). Qed.
Lemma alter_same f cpu l : Forall2 same_slot l (alter (option_map (map_signals f)) cpu l).
Proof.
  revert cpu. induction l as [|o l IH]; intros [|cpu]; try constructor; try apply IH; try apply same_slot_refl.
  - by destruct o.
  - apply same_slots_refl.
Qed.
Lemma send_signal_quiet pid sig s : quiet s (send_signal pid sig s).1.
Proof.
  unfold send_signal. pose proof (send_first_same pid sig (slots s)) as Hf. destruct (send_first pid sig (slots s)). by apply quiet_slots.
Qed.
Lemma send_pgroup_quiet pg sig s : quiet s (send_signal_pgroup pg sig s).1.
Proof. apply quiet_slots, send_where_same. Qed.
Lemma send_all_quiet sig s : quiet s (send_signal_all sig s).1.
Proof. apply quiet_slots, send_where_same. Qed.
Lemma sys_kill_quiet cpu pid signum s : quiet s (sys_kill cpu pid signum s).1.
Proof.
  unfold sys_kill. destruct (_ || _); [apply quiet_refl|].
  destruct (if 0 <? signum then _ else _) as [sig|]; [|repeat case_match; apply quiet_refl].
  repeat case_match; cbn [fst];
    repeat match goal with H : ?f = (?s1, _) |- quiet _ ?s1 => replace s1 with (fst f) by (by rewrite H) end;
    auto using send_signal_quiet, send_pgroup_quiet, send_all_quiet.
Qed.
Lemma process_alarms_quiet now s : quiet s (process_alarms now s).
Proof.
  unfold process_alarms. case_decide; [apply quiet_refl|]. clear H. set (due := due_pids now (alarms s)).
  apply (quiet_trans _ (set_alarms (foldl (fun a pid => delete pid a) (alarms s) due) s)); [unfold quiet; split_and!; [apply same_slots_refl|done..]|].
  generalize (set_alarms (foldl (fun a pid => delete pid a) (alarms s) due) s).
  induction due as [|pid l IH]; intros s0; [apply quiet_refl|]. cbn [foldl]. eapply quiet_trans; [apply send_signal_quiet|apply IH].
Qed.
Lemma terminal_quiet sig s : quiet s (generate_terminal_signal sig s).
Proof.
  unfold generate_terminal_signal.
  set (s1 := if negb (foreground_pgid (jm s) =? 0) then (send_signal_pgroup (foreground_pgid (jm s)) sig s).1 else s).
  assert (quiet s s1) as H1 by (unfold s1; case_match; [apply send_pgroup_quiet|apply quiet_refl]).
  destruct sig; try done. destruct (find_by_pgid _ _); [|done]. apply (quiet_trans _ s1); [done|].
  unfold quiet; split_and!; [apply same_slots_refl|done..].
Qed.

(** *** Switching tasks *)
Lemma kill_absent pid n l : pid ∉ (tid <$> slot_tasks l) -> kill_slots pid n l = (l, [], false).
Proof.
  induction l as [|[t|] l IH]; intros Hn; [done|..]; cbn [kill_slots].
  - assert (tid t <> pid) as Hne by (intros <-; apply Hn; cbn; by left). rewrite IH by (intros Hi; apply Hn; cbn; by right).
    by replace (tid t =? pid) with false by lia.
  - by rewrite IH.
Qed.
Lemma kill_task_absent pid n s : pid ∉ (tid <$> slot_tasks (slots s)) -> kill_task pid n s = (s, false).
Proof. intros H. unfold kill_task. rewrite kill_absent by done. destruct s; cbn. by rewrite app_nil_r. Qed.
Lemma deliver_absent h pid s : pid ∉ (tid <$> slot_tasks (slots s)) -> (deliver_signals h pid s).1.2 = s.
Proof.
  intros H. unfold deliver_signals, stop_task, continue_task. destruct (next_pending h) as [sig|]; [|done].
  destruct (get_action _ _); try done. destruct (default_action sig); cbn; rewrite ?kill_task_absent by done; done.
Qed.
Lemma slot_remove l cpu t : l !! cpu = Some (Some t) ->
  tid <$> slot_tasks l ≡ₚ tid t :: (tid <$> slot_tasks (<[cpu := None]> l)).
Proof.
  revert cpu. induction l as [|o l IH]; intros [|cpu] H; simplify_eq/=; [done|]. destruct o as [u|]; cbn.
  - rewrite (IH _ H). unfold slot_tasks. by rewrite Permutation_swap.
  - apply (IH _ H).
Qed.
Lemma slot_fill l cpu t : l !! cpu = Some None -> tid <$> slot_tasks (<[cpu := Some t]> l) ≡ₚ tid t :: (tid <$> slot_tasks l).
Proof.
  revert cpu. induction l as [|o l IH]; intros [|cpu] H; simplify_eq/=; [done|]. destruct o as [u|]; cbn.
  - etrans; [apply Permutation_skip, (IH _ H)|]. by rewrite Permutation_swap.
  - apply (IH _ H).
Qed.
Lemma slot_empty_lookup (l : list (option Task)) cpu c t : <[cpu := None]> l !! c = Some (Some t) -> l !! c = Some (Some t).
Proof.
  destruct (decide (c = cpu)) as [->|Hne]; [|by rewrite list_lookup_insert_ne]. intros H.
  destruct (decide (cpu < length l)%nat); [by rewrite list_lookup_insert_eq in H|]. by rewrite list_insert_ge in H by lia.
Qed.
Lemma file_outgoing_calm cpu t s : calm s -> slots s !! cpu = Some (Some t) ->
  let s' := file_outgoing t (set_slots (<[cpu := None]> (slots s)) s) in
  calm s' /\ live_ids s' ≡ₚ live_ids s /\ slots s' = <[cpu := None]> (slots s).
Proof.
  intros [H1 H2 H3 H4 [E1 [E2 E3]]] Ht. destruct (H2 _ _ Ht) as [Ha He]. pose proof (slot_remove _ _ _ Ht) as Hp.
  unfold file_outgoing. destruct (state t) eqn:Es; try done; cbn [set_slots slots ready sleeping stopped terminated zombies].
  - assert (live_ids s ≡ₚ (tid <$> slot_tasks (<[cpu := None]> (slots s))) ++ (tid <$> ready s ++ [mkTask (tid t) Ready (signals t) (exit_code t)]) ++ (tid <$> sleeping s)) as Hq.
    { unfold live_ids. rewrite Hp, fmap_app. cbn. solve_Permutation. }
    split_and!; [|by rewrite Hq|done]. split; cbn [slots ready sleeping stopped terminated zombies]; auto.
    + unfold live_ids at 1; cbn [slots ready sleeping]. by rewrite <-Hq.
    + intros c u Hc%slot_empty_lookup. eauto.
    + intros u [Hu|Hu%list_elem_of_singleton]%elem_of_app; [auto|]. by subst.
  - assert (live_ids s ≡ₚ (tid <$> slot_tasks (<[cpu := None]> (slots s))) ++ (tid <$> ready s) ++ (tid <$> sleeping s ++ [mkTask (tid t) (Sleeping wake_tick) (signals t) (exit_code t)])) as Hq.
    { unfold live_ids. rewrite Hp, fmap_app. cbn. solve_Permutation. }
    split_and!; [|by rewrite Hq|done]. split; cbn [slots ready sleeping stopped terminated zombies]; auto.
    + unfold live_ids at 1; cbn [slots ready sleeping]. by rewrite <-Hq.
    + intros c u Hc%slot_empty_lookup. eauto.
    + intros u [Hu|Hu%list_elem_of_singleton]%elem_of_app; [auto|]. by subst.
Qed.
Lemma delete_fmap_perm (l : list Task) i t : l !! i = Some t -> tid <$> l ≡ₚ tid t :: (tid <$> delete i l).
Proof. intros H. change (tid t :: (tid <$> delete i l)) with (tid <$> t :: delete i l). by apply fmap_Permutation, delete_Permutation. Qed.
Lemma install_calm cpu t s : calm s -> slots s !! cpu = Some None -> state t = Ready -> exit_code t = None -> tid t ∉ live_ids s ->
  calm (install cpu t s) /\ live_ids (install cpu t s) ≡ₚ tid t :: live_ids s.
Proof.
  intros [H1 H2 H3 H4 H5] Hc Hst He Hn. unfold install.
  assert (exists h, (if has_pending_signals (signals t) then let '(h, s0, _) := deliver_signals (signals t) (tid t) s in (h, s0) else (signals t, s)) = (h, s)) as [h ->].
  { case_match; [|eauto]. assert (tid t ∉ (tid <$> slot_tasks (slots s))) as Ha by (intros Hi; apply Hn; unfold live_ids; set_solver).
    pose proof (deliver_absent (signals t) (tid t) s Ha) as Hd. destruct (deliver_signals _ _ _) as [[h s0] o]. cbn in Hd. subst. eauto. }
  pose proof (slot_fill (slots s) cpu (mkTask (tid t) Running h (exit_code t)) Hc) as Hp. cbn [tid] in Hp.
  assert (live_ids (set_slots (<[cpu:=Some (mkTask (tid t) Running h (exit_code t))]> (slots s)) s) ≡ₚ tid t :: live_ids s) as Hl.
  { unfold live_ids; cbn [set_slots slots ready sleeping]. by rewrite Hp. }
  split; [|done]. split; auto.
  - rewrite Hl. by apply NoDup_cons.
  - cbn [set_slots slots]. intros c u. destruct (decide (c = cpu)) as [->|Hne]; [|rewrite list_lookup_insert_ne by done; eauto].
    rewrite list_lookup_insert_eq by (by eapply lookup_lt_Some). intros; by simplify_eq.
Qed.
Lemma schedule_calm cpu choice s : calm s -> calm (schedule cpu choice s) /\ live_ids (schedule cpu choice s) ≡ₚ live_ids s.
Proof.
  intros Hs. unfold schedule. destruct (slots s !! cpu) as [o|] eqn:Ec; [|done].
  set (s0 := set_slots (<[cpu := None]> (slots s)) s). set (s1 := match o with Some t => file_outgoing t s0 | None => s0 end).
  assert (calm s1 /\ live_ids s1 ≡ₚ live_ids s /\ slots s1 !! cpu = Some None) as (C1 & L1 & E1).
  { pose proof (lookup_lt_Some _ _ _ Ec) as Hlt. unfold s1, s0. destruct o as [t|].
    - destruct (file_outgoing_calm cpu t s Hs Ec) as (? & ? & ->). by rewrite list_lookup_insert_eq.
    - rewrite list_insert_id by done. destruct s; by rewrite Ec || done. }
  unfold take_ready. destruct (ready s1 !! choice) as [t|] eqn:Er; [|done]. cbn beta iota.
  set (s2 := mkSys (slots s1) (delete choice (ready s1)) _ _ _ _ _ _ _). pose proof (delete_fmap_perm _ _ _ Er) as Hp.
  assert (live_ids s1 ≡ₚ tid t :: live_ids s2) as L2 by (unfold live_ids, s2; cbn [slots ready sleeping]; rewrite Hp; solve_Permutation).
  pose proof (ca_ids s1 C1) as Hnd. rewrite L2 in Hnd. apply NoDup_cons in Hnd as [Hni Hnd].
  assert (t ∈ ready s1) as Hin by (by eapply list_elem_of_lookup_2). destruct (ca_ready s1 C1 t Hin) as [Hst He].
  assert (calm s2) as C2.
  { destruct C1 as [D1 D2 D3 D4 D5]. split; auto. intros u Hu. apply D3. eapply elem_of_sublist; [exact Hu|apply sublist_delete]. }
  destruct (install_calm cpu t s2 C2 E1 Hst He Hni) as [C3 L3]. split; [done|]. by rewrite L3, <-L2.
Qed.

(** *** Histories *)
Inductive event :=
  | Kill (cpu : nat) (pid signum : Z)
  | Raise (cpu : nat) (signum : Z)
  | Terminal (sig : Signal)
  | Alarm (cpu : nat) (seconds : Z)
  | Sigaction (cpu : nat) (signum : Z) (act : SigAction)
  | Sigprocmask (cpu : nat) (how set : Z)
  | TickAlarms
  | Switch (cpu choice : nat)
  | SleepTask (cpu choice : nat) (wake_tick : Z)   (* [sleep]: the current task is marked and the CPU switches *)
  | WakeTask (i : nat).                            (* [wake_sleeping_tasks], for one task *)
Definition on_current (f : SignalHandlers -> SignalHandlers) (cpu : nat) (s : system) : system :=
  set_slots (alter (option_map (map_signals f)) cpu (slots s)) s.
Definition mark_sleeping (w : Z) (t : Task) : Task := mkTask (tid t) (Sleeping w) (signals t) (exit_code t).
Definition wake_one (i : nat) (s : system) : system :=
  match sleeping s !! i with
  | Some t => mkSys (slots s) (ready s ++ [mkTask (tid t) Ready (signals t) (exit_code t)]) (delete i (sleeping s)) (stopped s)
                (terminated s) (zombies s) (alarms s) (altstacks s) (jm s)
  | None => s
  end.
Definition exec (now : Z) (e : event) (s : system) : system :=
  match e with
  | Kill cpu pid signum => (sys_kill cpu pid signum s).1
  | Raise cpu signum => (sys_raise cpu signum s).1
  | Terminal sig => generate_terminal_signal sig s
  | Alarm cpu seconds => (sys_alarm cpu now seconds s).1
  | Sigaction cpu signum act => on_current (fun h => (sys_sigaction signum (Some act) false h).1.1) cpu s
  | Sigprocmask cpu how set => on_current (fun h => (sys_sigprocmask how (Some set) h).1) cpu s
  | TickAlarms => process_alarms now s
  | Switch cpu choice => schedule cpu choice s
  | SleepTask cpu choice w => schedule cpu choice (set_slots (alter (option_map (mark_sleeping w)) cpu (slots s)) s)
  | WakeTask i => wake_one i s
  end.
Definition run (es : list (Z * event)) (s : system) : system := foldl (fun s e => exec e.1 e.2 s) s es.
Lemma mark_calm cpu w s : calm s -> let s' := set_slots (alter (option_map (mark_sleeping w)) cpu (slots s)) s in
  calm s' /\ live_ids s' = live_ids s.
Proof.
  intros [H1 H2 H3 H4 H5] s'. assert (tid <$> slot_tasks (alter (option_map (mark_sleeping w)) cpu (slots s)) = tid <$> slot_tasks (slots s)) as Hl.
  { clear. revert cpu. induction (slots s) as [|o l IH]; intros [|cpu]; try done; destruct o as [t|]; try done; cbn; [|apply IH].
    f_equal. apply IH. }
  assert (live_ids s' = live_ids s) as Hi by (unfold live_ids, s'; cbn [set_slots slots ready sleeping]; by rewrite Hl).
  split; [|done]. split; auto; [by rewrite Hi|]. cbn [set_slots slots s']. intros c t. destruct (decide (c = cpu)) as [->|Hne].
  - rewrite list_lookup_alter_eq. intros ([u|] & Hu & Heq)%fmap_Some; [|done]. destruct (H2 _ _ Hu). cbn in Heq; by simplify_eq.
  - rewrite list_lookup_alter_ne by done. eauto.
Qed.
Lemma wake_one_calm i s : calm s -> calm (wake_one i s) /\ live_ids (wake_one i s) ≡ₚ live_ids s.
Proof.
  intros Hs. unfold wake_one. destruct (sleeping s !! i) as [t|] eqn:E; [|done]. destruct Hs as [H1 H2 H3 H4 H5].
  pose proof (delete_fmap_perm _ _ _ E) as Hp. set (s' := mkSys _ _ _ _ _ _ _ _ _).
  assert (live_ids s' ≡ₚ live_ids s) as Hl.
  { unfold live_ids, s'; cbn [slots ready sleeping]. rewrite Hp, fmap_app. cbn. solve_Permutation. }
  split; [|done]. assert (t ∈ sleeping s) as Hin by (by eapply list_elem_of_lookup_2). destruct (H4 t Hin) as [_ He].
  split; cbn [s' slots ready sleeping stopped terminated zombies]; auto.
  - by rewrite Hl.
  - intros u [Hu|Hu%list_elem_of_singleton]%elem_of_app; [auto|]. by subst.
  - intros u Hu. apply H4. eapply elem_of_sublist; [exact Hu|apply sublist_delete].
Qed.
Lemma exec_calm now e s : calm s -> calm (exec now e s) /\ live_ids (exec now e s) ≡ₚ live_ids s.
Proof.
  intros Hs. destruct e as [cpu pid n|cpu n|sig|cpu secs|cpu n act|cpu how set| |cpu c|cpu c w|i]; cbn [exec].
  - apply calm_quiet; [done|apply sys_kill_quiet].
  - apply calm_quiet; [done|apply sys_kill_quiet].
  - apply calm_quiet; [done|apply terminal_quiet].
  - apply calm_quiet; [done|]. unfold quiet; split_and!; [apply same_slots_refl|done..].
  - apply calm_quiet; [done|]. apply quiet_slots, alter_same.
  - apply calm_quiet; [done|]. apply quiet_slots, alter_same.
  - apply calm_quiet; [done|apply process_alarms_quiet].
  - by apply schedule_calm.
  - destruct (mark_calm cpu w s Hs) as [H1 H2]. destruct (schedule_calm cpu c _ H1) as [H3 H4]. split; [done|]. by rewrite H4, H2.
  - by apply wake_one_calm.
Qed.
Lemma run_calm es s : calm s -> calm (run es s) /\ live_ids (run es s) ≡ₚ live_ids s.
Proof.
  revert s. induction es as [|e es IH]; intros s Hs; [done|]. cbn [run foldl]. destruct (exec_calm e.1 e.2 s Hs) as [H1 H2].
  destruct (IH _ H1) as [H3 H4]. split; [exact H3|]. unfold run in H4. by rewrite H4, H2.
Qed.

(** Signals never act on a task.  The scheduler delivers a signal to a task
    before it puts the task into its CPU's slot, and the functions that
    terminate, stop or resume a task search the slots only.  So, whatever
    signals (SIGKILL included) are sent, raised, typed at the terminal or sent by
    alarms, and however the tasks are switched, slept and woken, no task is ever
    terminated or stopped: every task is still there, running, ready or asleep. *)
Theorem signals_never_act es s : calm s ->
  let s' := run es s in
  live_ids s' ≡ₚ live_ids s /\ stopped s' = [] /\ terminated s' = [] /\ zombies s' = [] /\
  (forall cpu t, slots s' !! cpu = Some (Some t) -> active_state (state t) = true /\ exit_code t = None) /\
  (forall t, t ∈ ready s' -> state t = Ready /\ exit_code t = None).
Proof.
  intros Hs s'. destruct (run_calm es s Hs) as [[H1 H2 H3 H4 (H5 & H6 & H7)] Hl]. by split_and!.
Qed.

(** ** Alarms *)
Lemma delete_all_lookup (l : list Z) (a : gmap Z Z) i :
  foldl (fun a pid => delete pid a) a l !! i = if decide (i ∈ l) then None else a !! i.
Proof.
  revert a. induction l as [|x l IH]; intros a; cbn [foldl]; [done|]. rewrite IH.
  destruct (decide (i = x)) as [->|Hne].
  - rewrite lookup_delete_eq. repeat case_decide; set_solver.
  - rewrite lookup_delete_ne by done. repeat case_decide; set_solver.
Qed.
Lemma elem_of_due_pids tick a i : i ∈ due_pids tick a <-> exists d, a !! i = Some d /\ d <= tick.
Proof.
  unfold due_pids. rewrite list_elem_of_fmap. split.
  - intros ([j d] & -> & [Hd Hj%elem_of_btree_iter]%list_elem_of_filter). eauto.
  - intros (d & Hi & Hd). exists (i, d). split; [done|]. apply list_elem_of_filter. split; [done|]. by apply elem_of_btree_iter.
Qed.
Lemma NoDup_due_pids tick a : NoDup (due_pids tick a).
Proof. apply (sublist_NoDup _ (btree_iter a).*1); [apply NoDup_btree_iter|]. apply fmap_sublist, sublist_filter. Qed.
Definition mark_if (P : Z -> bool) (sig : Signal) (o : option Task) : option Task :=
  option_map (fun t => if P (tid t) then map_signals (add_pending sig) t else t) o.
Lemma send_first_mark pid sig l : NoDup (tid <$> slot_tasks l) -> (send_first pid sig l).1 = mark_if (Z.eqb pid) sig <$> l.
Proof.
  assert (forall k, pid ∉ (tid <$> slot_tasks k) -> k = mark_if (Z.eqb pid) sig <$> k) as Habs.
  { induction k as [|[t|] k IH]; intros Hk; [done|..]; cbn [fmap list_fmap mark_if option_map].
    - cbn in Hk. replace (pid =? tid t) with false by (symmetry; apply Z.eqb_neq; intros ->; apply Hk; by left).
      f_equal. apply IH. intros Hi. apply Hk. by right.
    - f_equal. by apply IH. }
  induction l as [|[t|] l IH]; intros Hn; [done|..]; cbn [send_first is_task].
  - cbn in Hn. apply NoDup_cons in Hn as [Hni Hn]. rewrite Z.eqb_sym. destruct (pid =? tid t) eqn:E.
    + cbn [fst]. cbn [fmap list_fmap mark_if option_map]. rewrite E. apply Z.eqb_eq in E as ->. f_equal. by apply Habs.
    + specialize (IH Hn). destruct (send_first pid sig l) as [r f]. cbn in *. rewrite E. by f_equal.
  - specialize (IH Hn). destruct (send_first pid sig l) as [r f]. cbn in *. by f_equal.
Qed.
Lemma mark_ids P sig l : tid <$> slot_tasks (mark_if P sig <$> l) = tid <$> slot_tasks l.
Proof. induction l as [|[t|] l IH]; [done|..]; cbn; [|done]. f_equal; [by destruct (P (tid t))|done]. Qed.
Lemma send_all_due l sig s : NoDup (tid <$> slot_tasks (slots s)) -> NoDup l ->
  let s' := foldl (fun s pid => (send_signal pid sig s).1) s l in
  slots s' = mark_if (fun i => bool_decide (i ∈ l)) sig <$> slots s /\ alarms s' = alarms s.
Proof.
  revert s. induction l as [|pid l IH]; intros s Hn Hl; cbn [foldl].
  - split; [|done]. symmetry. rewrite <-(list_fmap_id (slots s)) at 2. apply list_fmap_ext. intros _ [t|] _; done.
  - apply NoDup_cons in Hl as [Hni Hl]. assert ((send_signal pid sig s).1 = set_slots (mark_if (Z.eqb pid) sig <$> slots s) s) as ->.
    { unfold send_signal. rewrite <-send_first_mark by done. by destruct (send_first pid sig (slots s)). }
    destruct (IH (set_slots (mark_if (Z.eqb pid) sig <$> slots s) s)) as [H1 H2]; [by cbn; rewrite mark_ids|done|].
    split; [|done]. rewrite H1. cbn [set_slots slots]. rewrite <-list_fmap_compose. apply list_fmap_ext. intros _ [t|] _; [|done]. cbn.
    f_equal. destruct (Z.eqb_spec pid (tid t)) as [->|Hne]; cbn [map_signals tid].
    + rewrite bool_decide_false by done. by rewrite bool_decide_true by (by left).
    + repeat case_bool_decide; set_solver.
Qed.

(** Alarms fire once, at their deadline, but only reach running tasks.
    Processing the alarms of a tick removes exactly the alarms whose deadline
    has been reached and makes SIGALRM pending for exactly those of their
    tasks that are on a CPU at that moment; tasks that are ready or asleep are
    not touched, and their alarm is gone. *)
Theorem alarms_exact now s : NoDup (tid <$> slot_tasks (slots s)) ->
  let s' := process_alarms now s in
  let due i := exists d, alarms s !! i = Some d /\ d <= now in
  (forall i, due i -> alarms s' !! i = None) /\ (forall i, ~ due i -> alarms s' !! i = alarms s !! i) /\
  (forall cpu t, slots s !! cpu = Some (Some t) -> due (tid t) -> slots s' !! cpu = Some (Some (map_signals (add_pending SIGALRM) t))) /\
  (forall cpu t, slots s !! cpu = Some (Some t) -> ~ due (tid t) -> slots s' !! cpu = Some (Some t)) /\
  ready s' = ready s /\ sleeping s' = sleeping s.
Proof.
  intros Hn s' due. assert (forall i, i ∈ due_pids now (alarms s) <-> due i) as Hd by (intros; apply elem_of_due_pids).
  destruct (process_alarms_quiet now s) as (_ & Er & Es & _). fold s' in Er, Es.
  assert (slots s' = mark_if (fun i => bool_decide (i ∈ due_pids now (alarms s))) SIGALRM <$> slots s /\
    forall i, alarms s' !! i = if decide (i ∈ due_pids now (alarms s)) then None else alarms s !! i) as [H1 H2].
  { unfold s', process_alarms. case_decide as He.
    - rewrite He. split; [|by intros; rewrite decide_False by apply not_elem_of_nil]. symmetry. rewrite <-(list_fmap_id (slots s)) at 2.
      apply list_fmap_ext. intros _ [t|] _; done.
    - destruct (send_all_due (due_pids now (alarms s)) SIGALRM (set_alarms (foldl (fun a pid => delete pid a) (alarms s) (due_pids now (alarms s))) s) Hn
        (NoDup_due_pids _ _)) as [-> ->]. split; [done|]. intros i. cbn [set_alarms alarms]. apply delete_all_lookup. }
  split_and!; try done; intros.
  - rewrite H2, decide_True by (by apply Hd). done.
  - rewrite H2, decide_False by (by rewrite Hd). done.
  - rewrite H1, list_lookup_fmap. rewrite H. cbn. by rewrite bool_decide_true by (by apply Hd).
  - rewrite H1, list_lookup_fmap. rewrite H. cbn. by rewrite bool_decide_false by (by rewrite Hd).
Qed.

(** ** The signal state stays well formed *)
Record handlers_ok (h : SignalHandlers) : Prop := {
  ho_len : length (handlers h) = 32%nat;
  ho_pending : 0 <= pending h < 2 ^ 31;
  ho_mask : 0 <= mask h < 2 ^ 64;
  ho_kill : handlers h !! 9%nat = Some Default;
  ho_stop : handlers h !! 19%nat = Some Default }.
Inductive hop :=
  | HSet (sig : Signal) (a : SignalAction) | HBlock (sig : Signal) | HUnblock (sig : Signal) | HAdd (sig : Signal) | HClear (sig : Signal)
  | HSigaction (signum : Z) (act : option SigAction) | HProcmask (how : Z) (set : option Z)
  | HSuspend (m : Z) | HPoll (old : Z) | HDeliver (t : Z) (s : system).
Definition hstep (h : SignalHandlers) (o : hop) : SignalHandlers :=
  match o with
  | HSet sig a => (set_action sig a h).1
  | HBlock sig => block sig h
  | HUnblock sig => unblock sig h
  | HAdd sig => add_pending sig h
  | HClear sig => clear_pending sig h
  | HSigaction n act => (sys_sigaction n act true h).1.1
  | HProcmask how set => (sys_sigprocmask how set h).1
  | HSuspend m => (sigsuspend_begin m h).1
  | HPoll old => (sigsuspend_poll old h).1
  | HDeliver t s => (deliver_signals h t s).1.1
  end.
Definition hop_ok (o : hop) : Prop :=
  match o with HProcmask _ (Some m) | HSuspend m | HPoll m => 0 <= m < 2 ^ 64 | _ => True end.
Lemma bit_range sig : 0 <= bit sig < 2 ^ 31.
Proof.
  unfold bit. pose proof (number_range sig). rewrite Z.shiftl_1_l. split; [apply Z.pow_nonneg; lia|]. apply Z.pow_lt_mono_r; lia.
Qed.
Lemma set_mask_ok m h : handlers_ok h -> 0 <= m < 2 ^ 64 -> handlers_ok (set_mask m h).
Proof. intros [] ?. by split. Qed.
Lemma set_pending_ok p h : handlers_ok h -> 0 <= p < 2 ^ 31 -> handlers_ok (set_pending p h).
Proof. intros [] ?. by split. Qed.
Lemma set_action_ok sig a h : handlers_ok h -> handlers_ok (set_action sig a h).1.
Proof.
  intros [H1 H2 H3 H4 H5]. unfold set_action. destruct (is_catchable sig) eqn:E; [|done]. cbn [negb]. case_match; [done|].
  split; cbn [fst handlers pending mask]; rewrite ?length_insert; auto;
    (rewrite list_lookup_insert_ne; [done|by destruct sig]).
Qed.
Lemma clear_pending_ok sig h : handlers_ok h -> handlers_ok (clear_pending sig h).
Proof. intros H. apply set_pending_ok; [done|]. apply ldiff_range; [lia|apply H]. Qed.
Lemma hstep_ok h o : handlers_ok h -> hop_ok o -> handlers_ok (hstep h o).
Proof.
  intros Hh Ho. pose proof Hh as [H1 H2 H3 H4 H5].
  assert (forall sig, 0 <= bit sig < 2 ^ 64) as Hb by (intros sig; pose proof (bit_range sig); split; [lia|]; etrans; [apply H|]; by vm_compute).
  destruct o as [sig a|sig|sig|sig|sig|n act|how [m|]|m|old|t s]; cbn [hstep hop_ok] in *.
  - by apply set_action_ok.
  - apply set_mask_ok; [done|]. by apply lor_range; [lia| |].
  - apply set_mask_ok; [done|]. by apply ldiff_range; [lia|].
  - apply set_pending_ok; [done|]. apply lor_range; [lia|done|apply bit_range].
  - by apply clear_pending_ok.
  - unfold sys_sigaction. repeat case_match; try done. by apply set_action_ok.
  - unfold sys_sigprocmask. repeat case_match; try done; apply set_mask_ok; try done; [by apply lor_range; [lia| |]|by apply ldiff_range; [lia|]].
  - done.
  - by apply set_mask_ok.
  - unfold sigsuspend_poll. case_match; [by apply set_mask_ok|done].
  - destruct (next_pending h) as [sig|] eqn:E; [|unfold deliver_signals; by rewrite E].
    rewrite (deliver_clears h t s sig E). by apply clear_pending_ok.
Qed.

(** The signal state of a task stays well formed.  Whatever sequence of
    signal operations a task performs or suffers, it keeps one action for each
    of the 32 numbers, only the 31 defined signals can be pending, its mask
    stays a 64-bit value, and SIGKILL and SIGSTOP keep their default action. *)
Theorem signal_state_wf ops : Forall hop_ok ops ->
  let h := foldl hstep handlers_new ops in
  handlers_ok h /\ get_action SIGKILL h = Default /\ get_action SIGSTOP h = Default.
Proof.
  intros Ho h. assert (handlers_ok h) as Hh.
  { unfold h. assert (handlers_ok handlers_new) as H0 by (split; vm_compute; done || (split; congruence)).
    clear h. revert H0. generalize handlers_new. induction Ho as [|o ops Ho _ IH]; intros h Hh; [done|]. cbn [foldl]. by apply IH, hstep_ok. }
  split; [done|]. destruct Hh as [_ _ _ H4 H5]. split.
  - change (default Default (handlers h !! 9%nat) = Default). by rewrite H4.
  - change (default Default (handlers h !! 19%nat) = Default). by rewrite H5.
Qed.

(** A new action is what a later call reads.  [sigaction] on a signal that
    can be caught stores the action and answers 0; asking again returns it (the
    default and ignore actions without mask, flags and restorer); numbers outside
    1 to 31, SIGKILL and SIGSTOP are refused with EINVAL and change nothing. *)
Theorem sigaction_roundtrip signum a h : length (handlers h) = 32%nat ->
  let '(h1, _, r) := sys_sigaction signum (Some a) true h in
  if (signum <? 1) || (31 <? signum) || (signum =? 9) || (signum =? 19) then h1 = h /\ r = -22
  else r = 0 /\
    sys_sigaction signum None true h1 =
      (h1, Some (if (sa_handler a =? SIG_DFL) || (sa_handler a =? SIG_IGN) then mkAct (sa_handler a) 0 0 0 else a), 0).
Proof.
  intros Hl. unfold sys_sigaction. destruct ((signum <? 1) || (31 <? signum)) eqn:E; cbn [orb]; [done|]. simplify_bool.
  destruct (proj2 (from_number_defined signum)) as [sig Hs]; [lia|]. rewrite Hs. apply from_number_iff in Hs as <-.
  destruct (is_catchable sig) eqn:Ec; cbn [negb andb bool_decide].
  - replace ((number sig =? 9) || (number sig =? 19)) with false by (by destruct sig). split; [done|].
    unfold set_action. rewrite Ec. cbn [negb]. replace (32 <=? idx sig)%nat with false by (by destruct sig). cbn [fst].
    unfold get_action. replace (32 <=? idx sig)%nat with false by (by destruct sig). cbn [handlers].
    rewrite list_lookup_insert_eq by (rewrite Hl; pose proof (number_range sig); unfold idx; lia). cbn [default]. unfold id.
    do 2 f_equal. f_equal. unfold sigaction_to_action. destruct a as [hd m f r]; cbn [sa_handler sa_mask sa_flags sa_restorer].
    destruct (Z.eqb_spec hd SIG_DFL) as [->|]; [done|]. destruct (Z.eqb_spec hd SIG_IGN) as [->|]; done.
  - by destruct sig.
Qed.

(** ** Masks *)
(** Masking everything also holds back SIGKILL and SIGSTOP. *)
Lemma sigkill_can_be_blocked h : handlers_ok h ->
  let '(h', r) := sys_sigprocmask SIG_SETMASK (Some u64_max) (add_pending SIGKILL h) in r = 0 /\ next_pending h' = None.
Proof.
  intros Hh. cbn. split; [done|]. apply next_pending_None. intros s. unfold ready_signal, deliverable. cbn [mask pending set_mask].
  pose proof (number_range s). rewrite Z.ldiff_spec. change u64_max with (Z.ones 64). rewrite Z.ones_spec_low by lia. apply andb_false_r.
Qed.
(** [sigsuspend] restores the old mask before the signal that ended it is
    delivered: a signal the old mask blocks stays pending. *)
Lemma sigsuspend_leaves_signal m h sig : next_pending (set_mask m h) = Some sig -> Z.testbit (mask h) (number sig - 1) = true ->
  let '(h1, old) := sigsuspend_begin m h in sigsuspend_poll old h1 = (h, Some (-4)) /\ ready_signal h sig = false.
Proof.
  intros Hn Hm. cbn. unfold sigsuspend_poll. rewrite Hn. split; [by destruct h|]. unfold ready_signal, deliverable.
  rewrite Z.ldiff_spec, Hm. apply andb_false_r.
Qed.

(** ** Jobs *)
Inductive jop := JCreate (pg : Z) (cmd : string) | JStop (i : Z) | JContinue (i : Z) (fg : bool) | JFinish (i : Z) | JRemove (i : Z) | JForeground (pg : Z).
Definition jstep (m : JobManager) (o : jop) : JobManager :=
  match o with
  | JCreate pg cmd => (create_job pg cmd m).1
  | JStop i => (stop_job i m).1
  | JContinue i fg => (continue_job i fg m).1
  | JFinish i => (finish_job i m).1
  | JRemove i => (remove_job i m).1
  | JForeground pg => set_foreground pg m
  end.
Record jobs_ok (n : Z) (m : JobManager) : Prop := {
  jo_id : forall i j, jobs m !! i = Some j -> job_id j = i /\ 1 <= i < next_job_id m;
  jo_next : 1 <= next_job_id m <= n }.
Lemma put_job_ok n i j st m : jobs_ok n m -> jobs m !! i = Some j -> jobs_ok n (put_job i (set_job_state st j) m).
Proof.
  intros [H1 H2] Hj. split; [|done]. intros k x. cbn. destruct (decide (k = i)) as [->|Hne].
  - rewrite lookup_insert_eq. intros; simplify_eq. by apply (H1 _ _ Hj).
  - rewrite lookup_insert_ne by done. apply H1.
Qed.
Lemma jstep_ok n m o : n + 1 < u64_mod -> jobs_ok n m -> jobs_ok (n + 1) (jstep m o).
Proof.
  intros Hn [H1 H2]. assert (jobs_ok (n + 1) m) as Hm by (split; [done|lia]).
  destruct o as [pg cmd|i|i fg|i|i|pg]; cbn [jstep].
  - split; cbn; rewrite u64_add_small by lia; [|lia]. intros k x. destruct (decide (k = next_job_id m)) as [->|Hne].
    + rewrite lookup_insert_eq. intros; simplify_eq/=. split; [done|lia].
    + rewrite lookup_insert_ne by done. intros Hk. destruct (H1 _ _ Hk). split; [done|lia].
  - unfold stop_job, with_job. case_match eqn:E; [by apply put_job_ok|done].
  - unfold continue_job, with_job. case_match eqn:E; [|done]. pose proof (put_job_ok _ i j JRunning m Hm E) as [G1 G2].
    destruct fg; by split.
  - unfold finish_job, with_job. case_match eqn:E; [by apply put_job_ok|done].
  - destruct Hm as [G1 G2]. split; [|done]. cbn. intros k x [_ Hk]%lookup_delete_Some. auto.
  - destruct Hm. by split.
Qed.
(** Every job is stored under its own number, and numbers are not reused. *)
Lemma jobs_wf ops : Z.of_nat (length ops) + 1 < u64_mod -> jobs_ok (1 + Z.of_nat (length ops)) (foldl jstep jm_new ops).
Proof.
  induction ops as [|o ops IH] using rev_ind; intros Hn.
  - split; [intros i j; cbn; by rewrite lookup_empty|cbn; lia].
  - rewrite foldl_app, length_app in *. cbn [foldl length] in *. replace (1 + Z.of_nat (length ops + 1)) with (1 + Z.of_nat (length ops) + 1) by lia.
    apply jstep_ok; [lia|]. apply IH. lia.
Qed.

(** ** Witnesses *)
Definition demo_task (i : Z) (st : TaskState) : Task := mkTask i st handlers_new None.
Definition demo_system : system :=
  mkSys [Some (demo_task 2 Running); None] [demo_task 3 Ready] [] [] [] [] {[ 2 := 7; 3 := 7 ]} ∅ jm_new.
Lemma demo_calm : calm demo_system.
Proof.
  split; try done.
  - apply (bool_decide_unpack _). by vm_compute.
  - intros [|[|cpu]] t Ht; cbn in Ht; by simplify_eq.
  - intros t [->|[]%elem_of_nil]%elem_of_cons. done.
  - by intros t []%elem_of_nil.
Qed.
Lemma signals_never_act_witness :
  stopped (run [(1, Kill 0 2 9); (1, Switch 0 0); (2, Switch 1 0); (3, Switch 1 0)] demo_system) = [].
Proof.
  destruct (signals_never_act [(1, Kill 0 2 9); (1, Switch 0 0); (2, Switch 1 0); (3, Switch 1 0)] demo_system demo_calm) as (_ & H & _).
  exact H.
Defined.
Lemma alarms_exact_witness : slots (process_alarms 7 demo_system) !! 0%nat = Some (Some (map_signals (add_pending SIGALRM) (demo_task 2 Running))).
Proof.
  destruct (alarms_exact 7 demo_system) as (_ & _ & H & _); [apply (bool_decide_unpack _); vm_compute; exact I|].
  apply (H 0%nat (demo_task 2 Running)); [reflexivity|]. exists 7. split; [vm_compute; reflexivity|lia].
Defined.
Lemma signal_state_wf_witness : get_action SIGKILL (foldl hstep handlers_new [HSigaction 9 (Some (mkAct 4096 0 0 0)); HProcmask 2 (Some u64_max)]) = Default.
Proof.
  destruct (signal_state_wf [HSigaction 9 (Some (mkAct 4096 0 0 0)); HProcmask 2 (Some u64_max)]) as (_ & H & _);
    [repeat constructor; vm_compute; congruence|exact H].
Defined.
Lemma sigaction_roundtrip_witness :
  sys_sigaction 2 None true (sys_sigaction 2 (Some (mkAct 4096 1 2 3)) true handlers_new).1.1 =
  ((sys_sigaction 2 (Some (mkAct 4096 1 2 3)) true handlers_new).1.1, Some (mkAct 4096 1 2 3), 0).
Proof. pose proof (sigaction_roundtrip 2 (mkAct 4096 1 2 3) handlers_new eq_refl) as H. vm_compute in H |- *. apply H. Defined.
End Signals.
