(* ===== verification/Eevdf.v ===== *)
(** * The EEVDF run queue

    Models [src/src/task/eevdf.rs]: tasks with weight, virtual run time, lag,
    eligible time and virtual deadline, and the run queue that indexes them by
    task number and by deadline.

    A task is shared between the two indices (and its creator) through a
    reference count, so the queue holds handles into a heap of task objects.
    The ordered map of deadlines is a list sorted by (deadline, task number).
    The queue is used with its operations one at a time. *)
From S2P Require Import Prelude.

Module Eevdf.

Record EevdfTask := mkTask {
  task_id : Z; weight : Z; vruntime : Z; lag : Z; slice_ns : Z; eligible_vtime : Z; virtual_deadline : Z; on_rq : bool }.
Definition task_new (i w slice : Z) : EevdfTask := mkTask i (Z.max w 1) 0 0 (Z.max slice 1) 0 (Z.max slice 1) false.
Definition scaled (delta_ns : Z) (t : EevdfTask) : Z := u64_sat_mul delta_ns 1024 / Z.max (weight t) 1.
Definition update_runtime (delta_ns rq_vtime : Z) (t : EevdfTask) : EevdfTask :=
  let vr := u64_add (vruntime t) (scaled delta_ns t) in
  let lag := as_i64 (as_i64 rq_vtime - as_i64 vr) in
  let slice := Z.max (slice_ns t) 1 in
  let eligible := if 0 <=? lag then rq_vtime else vr in
  mkTask (task_id t) (weight t) vr lag (slice_ns t) eligible (u64_sat_add eligible slice) (on_rq t).
Definition set_on_rq (b : bool) (t : EevdfTask) : EevdfTask :=
  mkTask (task_id t) (weight t) (vruntime t) (lag t) (slice_ns t) (eligible_vtime t) (virtual_deadline t) b.

(** ** [BTreeMap<DeadlineKey, _>] *)
Definition DeadlineKey : Type := Z * Z.
Definition key_ltb (a b : DeadlineKey) : bool := (a.1 <? b.1) || ((a.1 =? b.1) && (a.2 <? b.2)).
Fixpoint bt_insert (k : DeadlineKey) (v : Z) (l : list (DeadlineKey * Z)) : list (DeadlineKey * Z) :=
  match l with
  | [] => [(k, v)]
  | (k', v') :: l' =>
      if key_ltb k k' then (k, v) :: l else if key_ltb k' k then (k', v') :: bt_insert k v l' else (k, v) :: l'
  end.
Definition bt_remove (k : DeadlineKey) (l : list (DeadlineKey * Z)) : list (DeadlineKey * Z) := filter (fun e => e.1 <> k) l.

Record EevdfRunQueue := mkRq {
  heap : gmap Z EevdfTask; vtime : Z; tasks : gmap Z Z; by_deadline : list (DeadlineKey * Z) }.
Definition rq_new (h : gmap Z EevdfTask) : EevdfRunQueue := mkRq h 0 ∅ [].
Definition key_of (t : EevdfTask) (i : Z) : DeadlineKey := (virtual_deadline t, i).

Definition enqueue (h : Z) (q : EevdfRunQueue) : EevdfRunQueue :=
  match heap q !! h with
  | None => q
  | Some t =>
      let t := set_on_rq true (update_runtime 0 (vtime q) t) in
      mkRq (<[h := t]> (heap q)) (vtime q) (<[task_id t := h]> (tasks q)) (bt_insert (key_of t (task_id t)) h (by_deadline q))
  end.
Definition dequeue (i : Z) (q : EevdfRunQueue) : EevdfRunQueue * option Z :=
  match tasks q !! i with
  | None => (q, None)
  | Some h =>
      let q := mkRq (heap q) (vtime q) (delete i (tasks q)) (by_deadline q) in
      match heap q !! h with
      | None => (q, Some h)
      | Some t => (mkRq (<[h := set_on_rq false t]> (heap q)) (vtime q) (tasks q) (bt_remove (key_of t i) (by_deadline q)), Some h)
      end
  end.
Definition account_runtime (i delta_ns : Z) (q : EevdfRunQueue) : EevdfRunQueue :=
  match tasks q !! i with
  | None => q
  | Some h =>
      match heap q !! h with
      | None => q
      | Some t =>
          let l := bt_remove (key_of t i) (by_deadline q) in
          let next_vtime := u64_sat_add (vtime q) (scaled delta_ns t) in
          let t := update_runtime delta_ns next_vtime t in
          mkRq (<[h := t]> (heap q)) next_vtime (tasks q) (bt_insert (key_of t i) h l)
      end
  end.
Definition eligible (q : EevdfRunQueue) (h : Z) : bool :=
  match heap q !! h with Some t => eligible_vtime t <=? vtime q | None => false end.
Definition pick_next (q : EevdfRunQueue) : option Z := snd <$> List.find (fun e => eligible q e.2) (by_deadline q).
Definition should_preempt (current wakee : Z) (q : EevdfRunQueue) : bool :=
  match tasks q !! current ≫= (fun h => heap q !! h), tasks q !! wakee ≫= (fun h => heap q !! h) with
  | Some c, Some w => (eligible_vtime w <=? vtime q) && (virtual_deadline w <? virtual_deadline c)
  | _, _ => false
  end.
Definition stats (q : EevdfRunQueue) : nat * Z * Z :=
  (length (by_deadline q), vtime q, match by_deadline q with [] => 0 | (k, _) :: _ => k.1 end).
Definition ordered_task_ids (q : EevdfRunQueue) : list Z :=
  omap (fun e => task_id <$> heap q !! e.2) (by_deadline q).

(** ** The deadline index *)
Lemma key_ltb_lt a b : key_ltb a b = true <-> a.1 < b.1 \/ (a.1 = b.1 /\ a.2 < b.2).
Proof. unfold key_ltb. rewrite orb_true_iff, andb_true_iff, !Z.ltb_lt, Z.eqb_eq. done. Qed.
Definition entry_lt (a b : DeadlineKey * Z) : Prop := key_ltb a.1 b.1 = true.
Lemma key_total a b : key_ltb a b = false -> key_ltb b a = false -> a = b.
Proof.
  destruct a as [x y], b as [u v]. unfold key_ltb; cbn. intros H1 H2. apply orb_false_iff in H1 as [H1 H3], H2 as [H2 H4].
  apply andb_false_iff in H3, H4. apply Z.ltb_ge in H1, H2. assert (x = u) as -> by lia.
  rewrite Z.eqb_refl, !Z.ltb_ge in *. destruct H3, H4; try done. f_equal. lia.
Qed.
Lemma bt_insert_elem k v l e : StronglySorted entry_lt l ->
  e ∈ bt_insert k v l <-> e = (k, v) \/ (e ∈ l /\ e.1 <> k).
Proof.
  induction 1 as [|[k' v'] l Hs IH Hf]; cbn [bt_insert].
  - rewrite list_elem_of_singleton. split; [by left|]. intros [->|[[]%elem_of_nil _]]. done.
  - assert (forall e', e' ∈ l -> key_ltb k' e'.1 = true) as Hlt by (intros e' He; rewrite Forall_forall in Hf; by apply Hf).
    assert (forall a b, key_ltb a b = true -> a <> b) as Hir by (intros a b Hab ->; apply key_ltb_lt in Hab; lia).
    assert (forall a b c, key_ltb a b = true -> key_ltb b c = true -> key_ltb a c = true) as Htr
      by (intros a b c; rewrite !key_ltb_lt; lia).
    destruct (key_ltb k k') eqn:E1; [|destruct (key_ltb k' k) eqn:E2].
    + rewrite elem_of_cons. split; [|tauto]. intros [->|He]; [by left|]. right. split; [done|].
      apply elem_of_cons in He as [->|He]; [by apply not_eq_sym, Hir|]. apply not_eq_sym, Hir. eauto.
    + rewrite !elem_of_cons, IH. split; [|tauto]. intros [->|[->|[He Hk]]]; [|by left|tauto]. right. split; [by left|]. by apply Hir.
    + pose proof (key_total _ _ E1 E2) as ->. rewrite !elem_of_cons. split.
      * intros [->|He]; [by left|]. right. split; [by right|]. apply not_eq_sym, Hir. auto.
      * intros [->|[[->|He] Hk]]; [by left|done|by right].
Qed.
Lemma bt_insert_sorted k v l : StronglySorted entry_lt l -> StronglySorted entry_lt (bt_insert k v l).
Proof.
  induction 1 as [|[k' v'] l Hs IH Hf]; cbn [bt_insert]; [by repeat constructor|].
  destruct (key_ltb k k') eqn:E1; [|destruct (key_ltb k' k) eqn:E2].
  - constructor; [by constructor|]. constructor; [done|]. eapply Forall_impl; [exact Hf|]. intros e He. unfold entry_lt in *; cbn in *.
    rewrite key_ltb_lt in *. lia.
  - constructor; [done|]. apply Forall_forall. intros e He. apply bt_insert_elem in He as [->|[He _]]; [done| |done].
    rewrite Forall_forall in Hf. by apply Hf.
  - pose proof (key_total _ _ E1 E2) as ->. by constructor.
Qed.
Lemma bt_remove_sorted k l : StronglySorted entry_lt l -> StronglySorted entry_lt (bt_remove k l).
Proof.
  unfold bt_remove. induction 1 as [|e l Hs IH Hf]; [constructor|]. rewrite filter_cons. case_decide; [|done]. constructor; [done|].
  rewrite Forall_forall in *. intros x [_ Hx]%list_elem_of_filter. auto.
Qed.

(** ** The two indices agree *)
Record rq_ok (q : EevdfRunQueue) : Prop := {
  ro_task : forall i h, tasks q !! i = Some h -> exists t, heap q !! h = Some t /\ task_id t = i /\ on_rq t = true;
  ro_sorted : StronglySorted entry_lt (by_deadline q);
  ro_index : forall k h, (k, h) ∈ by_deadline q <-> exists t, tasks q !! k.2 = Some h /\ heap q !! h = Some t /\ k = key_of t k.2 }.
Lemma ro_inj q i j h : rq_ok q -> tasks q !! i = Some h -> tasks q !! j = Some h -> i = j.
Proof. intros Hq Hi Hj. destruct (ro_task q Hq _ _ Hi) as (t & Ht & <- & _). destruct (ro_task q Hq _ _ Hj) as (t' & Ht' & <- & _). congruence. Qed.

(** Storing a new state of an object that is queued under [i], with its key renewed. *)
Lemma rq_renew q i h t t' v : rq_ok q -> tasks q !! i = Some h -> heap q !! h = Some t -> task_id t' = i -> on_rq t' = true ->
  rq_ok (mkRq (<[h := t']> (heap q)) v (tasks q) (bt_insert (key_of t' i) h (bt_remove (key_of t i) (by_deadline q)))).
Proof.
  intros Hq Hi Ht Hid Hon. pose proof (bt_remove_sorted (key_of t i) _ (ro_sorted q Hq)) as Hs. split; cbn [tasks heap by_deadline].
  - intros j h' Hj. destruct (decide (h' = h)) as [->|Hne].
    + rewrite lookup_insert_eq. assert (i = j) as <- by (by eapply ro_inj). eauto.
    + rewrite lookup_insert_ne by done. by apply (ro_task q Hq).
  - by apply bt_insert_sorted.
  - intros k h'. rewrite bt_insert_elem by done. unfold bt_remove. rewrite list_elem_of_filter, (ro_index q Hq). cbn [fst]. split.
    + intros [[= -> ->]|[(Hk1 & u & Hu & Hh & Hk) Hk2]]; [exists t'; by rewrite lookup_insert_eq|]. exists u.
      rewrite lookup_insert_ne; [done|]. intros <-. assert (k.2 = i) as Hki by (by eapply ro_inj). apply Hk1. rewrite Hk, Hki. congruence.
    + intros (u & Hu & Hh & Hk). destruct (decide (h' = h)) as [->|Hne].
      * rewrite lookup_insert_eq in Hh. simplify_eq. left. assert (k.2 = task_id u) as Hki by (by eapply ro_inj). by rewrite Hk, Hki.
      * rewrite lookup_insert_ne in Hh by done. right. assert (k.2 <> i) by congruence. split; [split; [|eauto]|]; rewrite Hk; unfold key_of; congruence.
Qed.
Lemma rq_enqueue_ok h t q : rq_ok q -> heap q !! h = Some t -> tasks q !! task_id t = None -> rq_ok (enqueue h q).
Proof.
  intros Hq Ht Hn. unfold enqueue. rewrite Ht. set (t' := set_on_rq true (update_runtime 0 (vtime q) t)).
  assert (forall i, tasks q !! i <> Some h) as Hfree.
  { intros i Hi. destruct (ro_task q Hq _ _ Hi) as (u & Hu & <- & _). congruence. }
  change (task_id t') with (task_id t). split; cbn [tasks heap by_deadline].
  - intros j h' [[<- <-]|[Hne Hj]]%lookup_insert_Some; [exists t'; by rewrite lookup_insert_eq|].
    rewrite lookup_insert_ne; [by apply (ro_task q Hq)|]. intros <-. by eapply Hfree.
  - apply bt_insert_sorted, (ro_sorted q Hq).
  - intros k h'. rewrite bt_insert_elem by apply (ro_sorted q Hq). rewrite (ro_index q Hq). split.
    + intros [[= -> ->]|[(u & Hu & Hh & Hk) Hk2]]; [exists t'; by rewrite !lookup_insert_eq|].
      exists u. rewrite !lookup_insert_ne; [done|intros <-; by eapply Hfree|congruence].
    + intros (u & [[Hk1 <-]|[Hne Hu]]%lookup_insert_Some & Hh & Hk).
      * rewrite lookup_insert_eq in Hh. simplify_eq. left. by rewrite Hk, <-Hk1.
      * rewrite lookup_insert_ne in Hh by (intros <-; by eapply Hfree). right. split; [eauto|]. rewrite Hk. unfold key_of. intros [= _ He]. by destruct Hne.
Qed.
Lemma dequeue_ok i q : rq_ok q -> rq_ok (dequeue i q).1.
Proof.
  intros Hq. unfold dequeue. destruct (tasks q !! i) as [h|] eqn:Hi; [|done]. destruct (ro_task q Hq _ _ Hi) as (t & Ht & Hid & _).
  cbn [heap]. rewrite Ht. cbn [fst vtime tasks by_deadline]. split; cbn [tasks heap by_deadline].
  - intros j h' [Hne Hj]%lookup_delete_Some. rewrite lookup_insert_ne; [by apply (ro_task q Hq)|]. intros <-. by destruct Hne; eapply ro_inj.
  - apply bt_remove_sorted, (ro_sorted q Hq).
  - intros k h'. unfold bt_remove. rewrite list_elem_of_filter, (ro_index q Hq). cbn [fst]. split.
    + intros (Hk1 & u & Hu & Hh & Hk). assert (k.2 <> i) as Hki.
      { intros Hki. apply Hk1. rewrite Hk, Hki. rewrite Hki, Hi in Hu. simplify_eq. congruence. }
      exists u. rewrite lookup_delete_ne by done. rewrite lookup_insert_ne; [done|]. intros <-. by destruct Hki; eapply ro_inj.
    + intros (u & [Hne Hu]%lookup_delete_Some & Hh & Hk). rewrite lookup_insert_ne in Hh by (intros <-; by destruct Hne; eapply ro_inj).
      split; [rewrite Hk; unfold key_of; congruence|eauto].
Qed.
Lemma account_ok i d q : rq_ok q -> rq_ok (account_runtime i d q).
Proof.
  intros Hq. unfold account_runtime. destruct (tasks q !! i) as [h|] eqn:Hi; [|done]. destruct (ro_task q Hq _ _ Hi) as (t & Ht & Hid & Hon).
  rewrite Ht. by apply rq_renew.
Qed.

(** ** Histories *)
Inductive op := Enq (h : Z) | Deq (i : Z) | Acc (i delta_ns : Z).
Definition exec (o : op) (q : EevdfRunQueue) : EevdfRunQueue :=
  match o with Enq h => enqueue h q | Deq i => (dequeue i q).1 | Acc i d => account_runtime i d q end.
(** A task is queued only while no task of its number is. *)
Definition legal (o : op) (q : EevdfRunQueue) : Prop :=
  match o with Enq h => exists t, heap q !! h = Some t /\ tasks q !! task_id t = None | Acc _ d => 0 <= d | _ => True end.
Fixpoint legal_run (os : list op) (q : EevdfRunQueue) : Prop :=
  match os with [] => True | o :: os => legal o q /\ legal_run os (exec o q) end.
Definition run (os : list op) (q : EevdfRunQueue) : EevdfRunQueue := foldl (fun q o => exec o q) q os.
Lemma rq_exec_ok o q : rq_ok q -> legal o q -> rq_ok (exec o q).
Proof. intros Hq Hl. destruct o; cbn in *; [destruct Hl as (t & ? & ?); by eapply rq_enqueue_ok|by apply dequeue_ok|by apply account_ok]. Qed.
Lemma rq_new_ok h : rq_ok (rq_new h).
Proof.
  split; cbn; [intros *; by rewrite lookup_empty|constructor|]. intros k x. split; [by intros ?%elem_of_nil|].
  intros (t & Ht & _). by rewrite lookup_empty in Ht.
Qed.
Lemma legal_run_ok os q : rq_ok q -> legal_run os q -> rq_ok (run os q).
Proof. revert q. induction os as [|o os IH]; intros q Hq; [done|]. intros [H1 H2]. cbn [run foldl]. by apply IH; [apply rq_exec_ok|]. Qed.
(** The tasks of the queue with their deadlines, as the number index sees them. *)
Definition queued (q : EevdfRunQueue) (i : Z) (t : EevdfTask) : Prop := exists h, tasks q !! i = Some h /\ heap q !! h = Some t.

(** What [pick_next] returns when the indices agree. *)
Lemma pick_next_spec q : rq_ok q ->
  match pick_next q with
  | Some h => exists i t, tasks q !! i = Some h /\ heap q !! h = Some t /\ eligible_vtime t <= vtime q /\
      forall j u, queued q j u -> eligible_vtime u <= vtime q -> (j, u) = (i, t) \/ key_ltb (key_of t i) (key_of u j) = true
  | None => forall j u, queued q j u -> vtime q < eligible_vtime u
  end.
Proof.
  intros Hq. unfold pick_next. destruct (List.find _ _) as [[k h]|] eqn:E; cbn.
  - assert (exists l1 l2, by_deadline q = l1 ++ (k, h) :: l2 /\ forall e, e ∈ l1 -> eligible q e.2 = false) as (l1 & l2 & Hl & Hn).
    { clear Hq. induction (by_deadline q) as [|e l IH]; cbn in E; [done|]. destruct (eligible q e.2) eqn:Ee.
      - simplify_eq. exists [], l. split; [done|]. by intros ? ?%elem_of_nil.
      - destruct (IH E) as (l1 & l2 & -> & H). exists (e :: l1), l2. split; [done|]. intros x [->|Hx]%elem_of_cons; auto. }
    assert (eligible q h = true) as He by (by apply find_some in E as [_ E]).
    assert ((k, h) ∈ by_deadline q) as Hin by (rewrite Hl; set_solver). apply (ro_index q Hq) in Hin as (t & Hk & Ht & Hkt).
    exists k.2, t. unfold eligible in He. rewrite Ht in He. split_and!; [done|done|lia|]. intros j u (h' & Hj & Hu) Hel.
    assert ((key_of u j, h') ∈ by_deadline q) as Hin' by (apply (ro_index q Hq); eauto). rewrite Hl in Hin'.
    apply elem_of_app in Hin' as [Hin'|[Heq|Hin']%elem_of_cons].
    + specialize (Hn _ Hin'). unfold eligible in Hn. cbn in Hn. rewrite Hu in Hn. lia.
    + injection Heq as <- <-. left. cbn in *. congruence.
    + right. pose proof (ro_sorted q Hq) as Hs. rewrite Hl in Hs. apply StronglySorted_app_inv_r in Hs || apply StronglySorted_app in Hs as (_ & _ & Hs).
      apply StronglySorted_inv in Hs as [_ Hs]. rewrite Forall_forall in Hs. specialize (Hs _ Hin'). unfold entry_lt in Hs; cbn in Hs. by rewrite <-Hkt.
  - intros j u (h & Hj & Hu). assert ((key_of u j, h) ∈ by_deadline q) as Hin by (apply (ro_index q Hq); eauto).
    apply list_elem_of_In in Hin. pose proof (find_none _ _ E _ Hin) as Hf. unfold eligible in Hf. cbn in Hf. rewrite Hu in Hf. lia.
Qed.

(** The next task is the eligible one with the earliest virtual deadline.
    After any history of enqueueing, dequeueing and run-time accounting in which
    no task is queued twice, the deadline index lists exactly the queued tasks,
    once and in order, and [pick_next] returns the eligible task with the least
    (deadline, number), or nothing when no queued task is eligible. *)
Theorem eevdf_picks_earliest_eligible heap0 os : legal_run os (rq_new heap0) ->
  let q := run os (rq_new heap0) in
  StronglySorted entry_lt (by_deadline q) /\
  (forall k h, (k, h) ∈ by_deadline q <-> exists t, tasks q !! k.2 = Some h /\ heap q !! h = Some t /\ k = key_of t k.2) /\
  match pick_next q with
  | Some h => exists i t, tasks q !! i = Some h /\ heap q !! h = Some t /\ eligible_vtime t <= vtime q /\
      forall j u, queued q j u -> eligible_vtime u <= vtime q -> (j, u) = (i, t) \/ key_ltb (key_of t i) (key_of u j) = true
  | None => forall j u, queued q j u -> vtime q < eligible_vtime u
  end.
Proof.
  intros Hl q. assert (rq_ok q) as Hq by (apply legal_run_ok; [apply rq_new_ok|done]).
  split_and!; [apply (ro_sorted q Hq)|apply (ro_index q Hq)|by apply pick_next_spec].
Qed.

(** ** Work conservation *)
(** No task is ahead of the queue's virtual time. *)
Record fair (q : EevdfRunQueue) : Prop := {
  fa_vr : forall h t, heap q !! h = Some t -> 0 <= vruntime t <= vtime q;
  fa_el : forall i t, queued q i t -> eligible_vtime t <= vtime q }.
Lemma as_i64_small x : 0 <= x < 2 ^ 63 -> as_i64 x = x.
Proof. intros H. unfold as_i64. rewrite Z.mod_small by (unfold u64_mod; lia). case_decide; lia. Qed.
Lemma update_eligible d v t : 0 <= vruntime t -> 0 <= scaled d t -> vruntime t + scaled d t <= v -> v < 2 ^ 63 ->
  vruntime (update_runtime d v t) = vruntime t + scaled d t /\ eligible_vtime (update_runtime d v t) = v.
Proof.
  intros H1 H2 H3 H4. unfold update_runtime. cbn [vruntime eligible_vtime]. rewrite u64_add_small by (unfold u64_mod; lia). split; [done|].
  rewrite (as_i64_small v), (as_i64_small (vruntime t + _)) by lia. rewrite as_i64_small by lia. by replace (0 <=? _) with true by lia.
Qed.
Lemma scaled_nonneg d t : 0 <= d -> 0 <= scaled d t.
Proof. intros. unfold scaled, u64_sat_mul, u64_max, u64_mod. apply Z.div_pos; lia. Qed.
Lemma vtime_mono o q : legal o q -> vtime q <= vtime (exec o q) \/ vtime (exec o q) = u64_max.
Proof.
  intros Hl. destruct o as [h|i|i d]; cbn [exec].
  - left. unfold enqueue. by destruct (heap q !! h).
  - left. unfold dequeue. destruct (tasks q !! i); [|done]. cbn. by destruct (heap q !! z).
  - unfold account_runtime. destruct (tasks q !! i); [|by left]. destruct (heap q !! z) as [t|]; [|by left]. cbn [vtime].
    pose proof (scaled_nonneg d t Hl). unfold u64_sat_add. lia.
Qed.
Lemma vtime_run_mono os q : legal_run os q -> vtime (run os q) < 2 ^ 63 -> vtime q <= vtime (run os q).
Proof.
  revert q. induction os as [|o os IH]; intros q Hl Hv; [done|]. destruct Hl as [H1 H2]. cbn [run foldl] in *. specialize (IH _ H2 Hv). unfold run in IH.
  destruct (vtime_mono o q H1) as [|He]; [lia|]. rewrite He in IH. unfold u64_max, u64_mod in IH. lia.
Qed.
Lemma exec_fair o q : rq_ok q -> fair q -> legal o q -> vtime (exec o q) < 2 ^ 63 -> 0 <= vtime q -> fair (exec o q).
Proof.
  intros Hq [H1 H2] Hl Hv H0. destruct o as [h|i|i d]; cbn [exec] in *.
  - destruct Hl as (t & Ht & Hn). unfold enqueue in *. rewrite Ht in *. cbn [vtime] in *.
    assert (scaled 0 t = 0) as Hz by (unfold scaled, u64_sat_mul; cbn; apply Z.div_0_l; lia). destruct (H1 _ _ Ht) as [Ha Hb].
    destruct (update_eligible 0 (vtime q) t Ha ltac:(lia) ltac:(lia) Hv) as [E1 E2]. rewrite Hz in E1.
    set (t' := set_on_rq true (update_runtime 0 (vtime q) t)). split; cbn [heap vtime].
    + intros h' u. destruct (decide (h' = h)) as [->|]; [rewrite lookup_insert_eq; intros; simplify_eq; cbn [set_on_rq vruntime]; lia|].
      rewrite lookup_insert_ne by done. apply H1.
    + intros j u (h' & Hj & Hu). cbn [tasks heap] in Hj, Hu. destruct (decide (h' = h)) as [->|Hne].
      * rewrite lookup_insert_eq in Hu. simplify_eq. cbn [set_on_rq eligible_vtime]. lia.
      * rewrite lookup_insert_ne in Hu by done. apply lookup_insert_Some in Hj as [[_ <-]|[_ Hj]]; [done|]. apply (H2 j u). by exists h'.
  - unfold dequeue in *. destruct (tasks q !! i) as [h|] eqn:Hi; [|done]. destruct (ro_task q Hq _ _ Hi) as (t & Ht & Hid & _).
    cbn [heap] in *. rewrite Ht in *. cbn [fst vtime tasks] in *. split; cbn [heap vtime].
    + intros h' u. destruct (decide (h' = h)) as [->|]; [rewrite lookup_insert_eq; intros; simplify_eq; cbn [set_on_rq vruntime]; by eapply H1|].
      rewrite lookup_insert_ne by done. apply H1.
    + intros j u (h' & Hj & Hu). cbn [tasks heap] in Hj, Hu. apply lookup_delete_Some in Hj as [Hne Hj]. rewrite lookup_insert_ne in Hu.
      * apply (H2 j u). by exists h'.
      * intros <-. by destruct Hne; eapply ro_inj.
  - unfold account_runtime in *. destruct (tasks q !! i) as [h|] eqn:Hi; [|done]. destruct (heap q !! h) as [t|] eqn:Ht; [|done]. cbn [vtime] in *.
    pose proof (scaled_nonneg d t Hl) as Hs. destruct (H1 _ _ Ht) as [Ha Hb].
    assert (u64_sat_add (vtime q) (scaled d t) = vtime q + scaled d t) as Ev by (revert Hv; unfold u64_sat_add, u64_max, u64_mod; lia). rewrite Ev in *.
    destruct (update_eligible d (vtime q + scaled d t) t Ha Hs ltac:(lia) Hv) as [E1 E2]. split; cbn [heap vtime].
    + intros h' u. destruct (decide (h' = h)) as [->|]; [rewrite lookup_insert_eq; intros; simplify_eq; lia|].
      rewrite lookup_insert_ne by done. intros Hu. specialize (H1 _ _ Hu). lia.
    + intros j u (h' & Hj & Hu). cbn [tasks heap] in Hj, Hu. destruct (decide (h' = h)) as [->|Hne].
      * rewrite lookup_insert_eq in Hu. simplify_eq. lia.
      * rewrite lookup_insert_ne in Hu by done. specialize (H2 j u ltac:(by exists h')). lia.
Qed.
Lemma run_fair os q : rq_ok q -> fair q -> legal_run os q -> vtime (run os q) < 2 ^ 63 -> 0 <= vtime q -> fair (run os q).
Proof.
  revert q. induction os as [|o os IH]; intros q Hq Hf Hl Hv H0; [done|]. destruct Hl as [H1 H2]. cbn [run foldl] in *.
  pose proof (vtime_run_mono os (exec o q) H2 Hv) as Hm. unfold run in Hm. apply IH; [by apply rq_exec_ok| |done|done|].
  - apply exec_fair; try done. lia.
  - destruct (vtime_mono o q H1) as [|He]; [lia|]. rewrite He. by vm_compute.
Qed.

(** The queue is work conserving.  With tasks that start at virtual time 0
    and run in this queue only, and before the virtual time reaches 2^63, every
    queued task is eligible at all times, so [pick_next] finds a task whenever
    one is queued. *)
Theorem eevdf_work_conserving heap0 os : (forall h t, heap0 !! h = Some t -> vruntime t = 0) -> legal_run os (rq_new heap0) ->
  let q := run os (rq_new heap0) in vtime q < 2 ^ 63 ->
  (forall i t, queued q i t -> eligible_vtime t <= vtime q) /\ (pick_next q = None <-> tasks q = ∅).
Proof.
  intros Hz Hl q Hv. assert (rq_ok q) as Hq by (apply legal_run_ok; [apply rq_new_ok|done]).
  assert (fair q) as [_ Hf].
  { apply run_fair; [apply rq_new_ok| |done|done|done]. split; cbn; [intros h t Ht; rewrite (Hz _ _ Ht); lia|].
    intros i t (h & Hi & _). cbn in Hi. by rewrite lookup_empty in Hi. }
  split; [done|]. pose proof (pick_next_spec q Hq) as Hp. split.
  - intros E. rewrite E in Hp. apply map_empty. intros i. destruct (tasks q !! i) as [h|] eqn:Hi; [|done].
    destruct (ro_task q Hq _ _ Hi) as (t & Ht & _). assert (queued q i t) as Hqt by (by exists h). specialize (Hp _ _ Hqt). specialize (Hf _ _ Hqt). lia.
  - intros E. destruct (pick_next q); [|done]. destruct Hp as (i & t & Hi & _). by rewrite E, lookup_empty in Hi.
Qed.
(** A task that comes from another queue with a later virtual time is not
    eligible, and nothing here advances the virtual time: alone in the queue it
    is never picked. *)
Example eevdf_stranded :
  let t := update_runtime 5000 5000 (task_new 1 1024 100) in
  let q := enqueue 7 (rq_new {[7 := t]}) in tasks q !! 1 = Some 7 /\ pick_next q = None.
Proof. vm_compute. done. Qed.
(** Queueing a task twice leaves a stale entry behind, and a dequeued task can still be picked. *)
Example eevdf_double_enqueue :
  let q := enqueue 7 (account_runtime 2 1000 (enqueue 7 (enqueue 8 (rq_new {[7 := task_new 1 1024 100; 8 := task_new 2 1024 100]})))) in
  pick_next (dequeue 1 q).1 = Some 7.
Proof. vm_compute. done. Qed.

(** ** Witnesses *)
Definition demo_heap : gmap Z EevdfTask := {[7 := task_new 1 1024 100; 8 := task_new 2 2048 50]}.
Definition demo_ops : list op := [Enq 7; Enq 8; Acc 2 400; Deq 1].
Lemma demo_legal : legal_run demo_ops (rq_new demo_heap).
Proof. cbn. split_and!; try done; (eexists; split; vm_compute; reflexivity). Qed.
Lemma eevdf_picks_earliest_eligible_witness : StronglySorted entry_lt (by_deadline (run demo_ops (rq_new demo_heap))).
Proof. destruct (eevdf_picks_earliest_eligible demo_heap demo_ops demo_legal) as [H _]. exact H. Defined.
Lemma eevdf_work_conserving_witness : pick_next (run demo_ops (rq_new demo_heap)) = None <-> tasks (run demo_ops (rq_new demo_heap)) = ∅.
Proof.
  destruct (eevdf_work_conserving demo_heap demo_ops) as [_ H]; [|exact demo_legal|vm_compute; reflexivity|exact H].
  intros h t Ht. unfold demo_heap in Ht. apply lookup_insert_Some in Ht as [[_ <-]|[_ Ht]]; [reflexivity|].
  apply lookup_singleton_Some in Ht as [_ <-]. reflexivity.
Defined.
End Eevdf.
