(* ===== verification/Routing.v ===== *)
(** * Policy routing

    Models [src/src/net/routing.rs]: route entries, the binary trie that finds
    the longest matching prefix, routing tables, policy rules and the routing
    manager with its lookup cache, gateway health and counters.

    The trie is a binary tree walked along the bits of an address, most
    significant first; [31 - i] and the shift by it wrap around as in a release
    build, so prefix lengths above 32 are covered too.  The manager's functions
    run one at a time (they hold the lock of [ROUTING_MANAGER]).

    [fib_longest_prefix] relates the trie to the plain list of installed routes,
    [fib_dump_exact] the listing to it, and [routing_lookup_correct] the cached
    lookup to the uncached evaluation of the rules and, where the first matching
    rule's table has a route, to the best route of that table.
    [rule_passed_over] shows what the code does where it has none. *)
From S2P Require Import Prelude.

Module Routing.

Definition prefix_mask (prefix_len : Z) : Z :=
  if prefix_len =? 0 then 0 else if 32 <=? prefix_len then u32_max
  else as_u32 (Z.shiftl u32_max (32 - prefix_len)).

Definition RT_TABLE_MAIN : Z := 254.
Definition RT_TABLE_LOCAL : Z := 255.
Definition RTN_UNICAST : Z := 1.
Definition RT_SCOPE_UNIVERSE : Z := 0.
Definition RT_SCOPE_LINK : Z := 253.

Record RouteEntry := mkRoute {
  dst : Z; dst_prefix_len : Z; gateway : Z; iface : string; route_type : Z; scope : Z; metric : Z; mtu : Z; protocol : Z }.
#[export] Instance RouteEntry_eq_dec : EqDecision RouteEntry.
Proof. solve_decision. Defined.
Definition unicast (dst prefix_len gateway : Z) (iface : string) (metric : Z) : RouteEntry :=
  mkRoute dst prefix_len gateway iface RTN_UNICAST (if gateway =? 0 then RT_SCOPE_LINK else RT_SCOPE_UNIVERSE) metric 0 4.
Definition default_route (gateway : Z) (iface : string) (metric : Z) : RouteEntry := unicast 0 0 gateway iface metric.
Definition host_route (ip : Z) (iface : string) : RouteEntry := unicast ip 32 0 iface 0.
Definition connected (network prefix_len : Z) (iface : string) : RouteEntry := unicast network prefix_len 0 iface 0.
Definition matches (r : RouteEntry) (ip : Z) : bool :=
  if dst_prefix_len r =? 0 then true
  else Z.land ip (prefix_mask (dst_prefix_len r)) =? Z.land (dst r) (prefix_mask (dst_prefix_len r)).

(** ** The trie *)
#[local] Set Warnings "-register-all".
Inductive FibNode := Node (routes : list RouteEntry) (left right : option FibNode).
Definition routes (n : FibNode) : list RouteEntry := match n with Node rs _ _ => rs end.
Definition child (b : bool) (n : FibNode) : option FibNode := match n with Node _ l r => if b then r else l end.
Definition node_new : FibNode := Node [] None None.
Record FibTrie := mkTrie { root : FibNode; entry_count : Z }.
Definition trie_new : FibTrie := mkTrie node_new 0.

(** The bits the loops [for i in 0..n] test: [(x >> (31 - i)) & 1]. *)
Definition bit_at (x i : Z) : bool := negb (Z.land (Z.shiftr x ((31 - i) mod 32)) 1 =? 0).
Definition path_bits (x n : Z) : list bool := bit_at x <$> seqZ 0 n.

(** [sort_by_key(|route| route.metric)], stable. *)
Fixpoint sort_insert (e : RouteEntry) (l : list RouteEntry) : list RouteEntry :=
  match l with
  | [] => [e]
  | r :: l' => if metric e <=? metric r then e :: l else r :: sort_insert e l'
  end.
Definition sort_by_metric (l : list RouteEntry) : list RouteEntry := foldr sort_insert [] l.
Definition same_hop (e r : RouteEntry) : bool := (gateway r =? gateway e) && bool_decide (iface r = iface e).
Definition put_route (e : RouteEntry) (rs : list RouteEntry) : list RouteEntry :=
  sort_by_metric (match position (same_hop e) rs with Some i => <[i := e]> rs | None => rs ++ [e] end).

(** Walk down the path, creating missing nodes, and change the routes at its end. *)
Fixpoint update_at (bits : list bool) (f : list RouteEntry -> list RouteEntry) (n : FibNode) : FibNode :=
  match bits, n with
  | [], Node rs l r => Node (f rs) l r
  | true :: bs, Node rs l r => Node rs l (Some (update_at bs f (default node_new r)))
  | false :: bs, Node rs l r => Node rs (Some (update_at bs f (default node_new l))) r
  end.
Fixpoint node_at (bits : list bool) (n : FibNode) : option FibNode :=
  match bits with
  | [] => Some n
  | b :: bs => match child b n with Some m => node_at bs m | None => None end
  end.
Definition routes_at (bits : list bool) (n : FibNode) : list RouteEntry := default [] (routes <$> node_at bits n).

Definition insert (entry : RouteEntry) (t : FibTrie) : FibTrie :=
  let bits := path_bits (Z.land (dst entry) (prefix_mask (dst_prefix_len entry))) (dst_prefix_len entry) in
  let known := match position (same_hop entry) (routes_at bits (root t)) with Some _ => true | None => false end in
  mkTrie (update_at bits (put_route entry) (root t)) (if known then entry_count t else u32_add (entry_count t) 1).
Definition remove (dst prefix_len : Z) (t : FibTrie) : FibTrie * bool :=
  let bits := path_bits (Z.land dst (prefix_mask prefix_len)) prefix_len in
  match node_at bits (root t) with
  | None => (t, false)
  | Some n =>
      match routes n with
      | [] => (t, false)
      | rs => (mkTrie (update_at bits (fun _ => []) (root t)) (u32_sub (entry_count t) (as_u32 (Z.of_nat (length rs)))), true)
      end
  end.
Definition candidates_of (rs : list RouteEntry) (best : option (list RouteEntry)) : option (list RouteEntry) :=
  match rs with [] => best | _ => Some rs end.
Fixpoint lookup_loop (bits : list bool) (n : FibNode) (best : option (list RouteEntry)) : option (list RouteEntry) :=
  match bits with
  | [] => best
  | b :: bs => match child b n with Some m => lookup_loop bs m (candidates_of (routes m) best) | None => best end
  end.
Definition lookup_candidates (ip : Z) (t : FibTrie) : option (list RouteEntry) :=
  lookup_loop (path_bits ip 32) (root t) (candidates_of (routes (root t)) None).
Definition trie_lookup (ip : Z) (t : FibTrie) : option RouteEntry := lookup_candidates ip t ≫= head.
(** The depth-first listing of [dump_routes]; the path it tracks is not used. *)
Fixpoint traverse (n : FibNode) : list RouteEntry :=
  match n with
  | Node rs l r => rs ++ match l with Some m => traverse m | None => [] end ++ match r with Some m => traverse m | None => [] end
  end.

(** ** Tables, rules, manager *)
Record RoutingTable := mkTable { table_number : Z; table_name : string; fib : FibTrie }.
Definition table_new (id : Z) (name : string) : RoutingTable := mkTable id name trie_new.
Definition set_fib (f : FibTrie) (t : RoutingTable) : RoutingTable := mkTable (table_number t) (table_name t) f.

Record PolicyRule := mkRule {
  priority : Z; src_match : Z; src_prefix_len : Z; dst_match : Z; rule_dst_prefix_len : Z; fwmark : Z; fwmark_mask : Z;
  tos : Z; table_id : Z; iif : string; oif : string }.
Definition default_main (priority : Z) : PolicyRule := mkRule priority 0 0 0 0 0 0 0xFF RT_TABLE_MAIN "" "".
Definition from_source (priority src prefix_len table_id : Z) : PolicyRule :=
  mkRule priority src prefix_len 0 0 0 0 0xFF table_id "" "".
Definition from_fwmark (priority fwmark mask table_id : Z) : PolicyRule :=
  mkRule priority 0 0 0 0 fwmark mask 0xFF table_id "" "".
Definition prefix_differs (len a b : Z) : bool :=
  (0 <? len) && negb (Z.land a (prefix_mask len) =? Z.land b (prefix_mask len)).
Definition rule_matches (src_ip dst_ip mark tos' : Z) (r : PolicyRule) : bool :=
  if prefix_differs (src_prefix_len r) src_ip (src_match r) then false
  else if prefix_differs (rule_dst_prefix_len r) dst_ip (dst_match r) then false
  else if negb (fwmark_mask r =? 0) && negb (Z.land mark (fwmark_mask r) =? Z.land (fwmark r) (fwmark_mask r)) then false
  else if negb (tos r =? 0xFF) && negb (tos r =? tos') then false
  else true.

Record RouteResult := mkResult { res_gateway : Z; res_iface : string; res_metric : Z; res_mtu : Z; res_table : Z }.
(** Source and destination address, mark and type of service. *)
Definition RouteCacheKey : Type := Z * Z * Z * Z.
Record RoutingManager := mkMgr {
  tables : gmap Z RoutingTable; rules : list PolicyRule; lookups : Z; hits : Z; misses : Z;
  cache : gmap RouteCacheKey RouteResult; cache_hits : Z; cache_misses : Z; gateway_health : gmap Z bool; failovers : Z }.
Definition mgr_new : RoutingManager :=
  mkMgr (<[RT_TABLE_MAIN := table_new RT_TABLE_MAIN "main"]> {[RT_TABLE_LOCAL := table_new RT_TABLE_LOCAL "local"]})
    [default_main 32766] 0 0 0 ∅ 0 0 ∅ 0.
Definition invalidate_cache (m : RoutingManager) : RoutingManager :=
  mkMgr (tables m) (rules m) (lookups m) (hits m) (misses m) ∅ (cache_hits m) (cache_misses m) (gateway_health m) (failovers m).
Definition set_tables (ts : gmap Z RoutingTable) (m : RoutingManager) : RoutingManager :=
  mkMgr ts (rules m) (lookups m) (hits m) (misses m) (cache m) (cache_hits m) (cache_misses m) (gateway_health m) (failovers m).
Definition set_rules (rs : list PolicyRule) (m : RoutingManager) : RoutingManager :=
  mkMgr (tables m) rs (lookups m) (hits m) (misses m) (cache m) (cache_hits m) (cache_misses m) (gateway_health m) (failovers m).
Definition set_health (g : Z) (b : bool) (m : RoutingManager) : RoutingManager :=
  mkMgr (tables m) (rules m) (lookups m) (hits m) (misses m) (cache m) (cache_hits m) (cache_misses m)
    (<[g := b]> (gateway_health m)) (failovers m).

Definition add_table (id : Z) (name : string) (m : RoutingManager) : RoutingManager :=
  invalidate_cache (set_tables (<[id := table_new id name]> (tables m)) m).
Definition add_route (id : Z) (e : RouteEntry) (m : RoutingManager) : RoutingManager :=
  match tables m !! id with
  | Some t => invalidate_cache (set_tables (<[id := set_fib (insert e (fib t)) t]> (tables m)) m)
  | None => m
  end.
Definition remove_route (id dst prefix_len : Z) (m : RoutingManager) : RoutingManager * bool :=
  match tables m !! id with
  | Some t =>
      let '(f, removed) := remove dst prefix_len (fib t) in
      let m := set_tables (<[id := set_fib f t]> (tables m)) m in
      (if removed then invalidate_cache m else m, removed)
  | None => (m, false)
  end.
(** [partition_point(|r| r.priority <= p)] of a list sorted by priority. *)
Fixpoint partition_point (p : Z) (l : list PolicyRule) : nat :=
  match l with r :: l' => if priority r <=? p then S (partition_point p l') else O | [] => O end.
Definition add_rule (r : PolicyRule) (m : RoutingManager) : RoutingManager :=
  let pos := partition_point (priority r) (rules m) in
  invalidate_cache (set_rules (take pos (rules m) ++ r :: drop pos (rules m)) m).
Definition remove_rule (p : Z) (m : RoutingManager) : RoutingManager * bool :=
  let rs := filter (fun r => priority r <> p) (rules m) in
  let removed := (length rs <? length (rules m))%nat in
  let m := set_rules rs m in (if removed then invalidate_cache m else m, removed).
Definition mark_gateway (ok : bool) (g : Z) (m : RoutingManager) : RoutingManager :=
  if g =? 0 then m else invalidate_cache (set_health g ok m).

Definition route_is_healthy (m : RoutingManager) (r : RouteEntry) : bool :=
  if gateway r =? 0 then true else default true (gateway_health m !! gateway r).
Definition select_route_candidate (m : RoutingManager) (cs : list RouteEntry) : option (RouteEntry * bool) :=
  match position (route_is_healthy m) cs with
  | Some i => r ← cs !! i; Some (r, (0 <? i)%nat)
  | None => r ← head cs; Some (r, false)
  end.
(** The loop over the rules: [None] when it ends without a table that has a
    candidate, [Some None] when [?] returns early. *)
Fixpoint rule_loop (m : RoutingManager) (src_ip dst_ip mark tos : Z) (rs : list PolicyRule)
  : option (option (RouteEntry * bool * Z)) :=
  match rs with
  | [] => None
  | r :: rs' =>
      if negb (rule_matches src_ip dst_ip mark tos r) then rule_loop m src_ip dst_ip mark tos rs'
      else match tables m !! table_id r with
      | Some t =>
          match lookup_candidates dst_ip (fib t) with
          | Some cs => Some ((fun p => (p, table_id r)) <$> select_route_candidate m cs)
          | None => rule_loop m src_ip dst_ip mark tos rs'
          end
      | None => rule_loop m src_ip dst_ip mark tos rs'
      end
  end.
Definition result_of (e : RouteEntry) (tid : Z) : RouteResult := mkResult (gateway e) (iface e) (metric e) (mtu e) tid.
Definition lookup (src_ip dst_ip mark tos : Z) (m : RoutingManager) : RoutingManager * option RouteResult :=
  let key := (src_ip, dst_ip, mark, tos) in
  let m := mkMgr (tables m) (rules m) (u64_add (lookups m) 1) (hits m) (misses m) (cache m) (cache_hits m) (cache_misses m)
             (gateway_health m) (failovers m) in
  match cache m !! key with
  | Some r =>
      (mkMgr (tables m) (rules m) (lookups m) (u64_add (hits m) 1) (misses m) (cache m) (u64_add (cache_hits m) 1)
         (cache_misses m) (gateway_health m) (failovers m), Some r)
  | None =>
      let m := mkMgr (tables m) (rules m) (lookups m) (hits m) (misses m) (cache m) (cache_hits m)
                 (u64_add (cache_misses m) 1) (gateway_health m) (failovers m) in
      match rule_loop m src_ip dst_ip mark tos (rules m) with
      | Some None => (m, None)
      | Some (Some (e, failover_used, tid)) =>
          let r := result_of e tid in
          (mkMgr (tables m) (rules m) (lookups m) (u64_add (hits m) 1) (misses m) (<[key := r]> (cache m)) (cache_hits m)
             (cache_misses m) (gateway_health m) (if failover_used then u64_add (failovers m) 1 else failovers m), Some r)
      | None =>
          (mkMgr (tables m) (rules m) (lookups m) (hits m) (u64_add (misses m) 1) (cache m) (cache_hits m) (cache_misses m)
             (gateway_health m) (failovers m), None)
      end
  end.
Definition route (dst_ip : Z) (m : RoutingManager) : RoutingManager * option RouteResult := lookup 0 dst_ip 0 0 m.
Definition dump_routes (id : Z) (m : RoutingManager) : list (Z * Z * Z * string) :=
  match tables m !! id with
  | Some t => (fun r => (dst r, dst_prefix_len r, gateway r, iface r)) <$> traverse (root (fib t))
  | None => []
  end.
Definition dump_tables (m : RoutingManager) : list Z := (btree_iter (tables m)).*1.

(** ** Paths and prefixes *)
Definition key_of (e : RouteEntry) : list bool :=
  path_bits (Z.land (dst e) (prefix_mask (dst_prefix_len e))) (dst_prefix_len e).
Lemma bit_at_testbit x i : 0 <= i < 32 -> bit_at x i = Z.testbit x (31 - i).
Proof.
  intros Hi. unfold bit_at. rewrite Z.mod_small by lia. change 1 with (Z.ones 1). rewrite Z.land_ones by lia.
  rewrite <-Z.bit0_mod. rewrite Z.shiftr_spec by lia. rewrite Z.add_0_l. by destruct (Z.testbit x (31 - i)).
Qed.
Lemma mask_testbit n j : 0 <= n <= 32 -> 0 <= j -> Z.testbit (prefix_mask n) j = (32 - n <=? j) && (j <? 32).
Proof.
  intros Hn Hj. unfold prefix_mask. destruct (Z.eqb_spec n 0) as [->|].
  - rewrite Z.testbit_0_l. lia.
  - change u32_max with (Z.ones 32). destruct (Z.leb_spec 32 n).
    + rewrite Z.testbit_ones_nonneg by lia. lia.
    + unfold as_u32, u32_mod. rewrite <-Z.land_ones by lia. rewrite Z.land_spec, Z.shiftl_spec by lia.
      rewrite (Z.testbit_ones_nonneg 32 j) by lia. destruct (Z.leb_spec (32 - n) j).
      * rewrite Z.testbit_ones_nonneg by lia. lia.
      * rewrite Z.testbit_neg_r by lia. done.
Qed.
Lemma path_bits_length x n : 0 <= n -> length (path_bits x n) = Z.to_nat n.
Proof. intros. unfold path_bits. by rewrite length_fmap, length_seqZ. Qed.
Lemma path_bits_lookup x n i : path_bits x n !! i = if decide (Z.of_nat i < n) then Some (bit_at x (Z.of_nat i)) else None.
Proof.
  unfold path_bits. rewrite list_lookup_fmap. case_decide as H.
  - by rewrite lookup_seqZ_lt by done.
  - rewrite lookup_seqZ_ge by lia. done.
Qed.
Lemma path_bits_take x n : 0 <= n <= 32 -> take (Z.to_nat n) (path_bits x 32) = path_bits x n.
Proof.
  intros Hn. apply list_eq. intros i. rewrite path_bits_lookup. destruct (decide (i < Z.to_nat n)%nat).
  - rewrite lookup_take_lt, path_bits_lookup by done. rewrite !decide_True by lia. done.
  - rewrite lookup_take_ge by lia. by rewrite decide_False by lia.
Qed.
Lemma path_bits_mask x n : 0 <= n <= 32 -> path_bits (Z.land x (prefix_mask n)) n = path_bits x n.
Proof.
  intros Hn. apply list_eq. intros i. rewrite !path_bits_lookup. case_decide as H; [|done]. f_equal.
  rewrite !bit_at_testbit by lia. rewrite Z.land_spec, mask_testbit by lia.
  replace (32 - n <=? 31 - Z.of_nat i) with true by lia. replace (31 - Z.of_nat i <? 32) with true by lia. apply andb_true_r.
Qed.
Lemma path_bits_inj x y n : 0 <= n <= 32 ->
  path_bits x n = path_bits y n <-> Z.land x (prefix_mask n) = Z.land y (prefix_mask n).
Proof.
  intros Hn. split; intros H.
  - apply Z.bits_inj'. intros j Hj. rewrite !Z.land_spec, mask_testbit by lia.
    destruct ((32 - n <=? j) && (j <? 32)) eqn:E; [|by rewrite !andb_false_r]. simplify_bool.
    assert (path_bits x n !! Z.to_nat (31 - j) = path_bits y n !! Z.to_nat (31 - j)) as G by (by rewrite H).
    rewrite !path_bits_lookup, !decide_True in G by lia. injection G as G. rewrite !bit_at_testbit in G by lia.
    rewrite Z2Nat.id in G by lia. replace (31 - (31 - j)) with j in G by lia. by rewrite G.
  - by rewrite <-(path_bits_mask x), H, path_bits_mask.
Qed.
Definition plen_ok (e : RouteEntry) : Prop := 0 <= dst_prefix_len e <= 32.
Lemma key_length e : plen_ok e -> length (key_of e) = Z.to_nat (dst_prefix_len e).
Proof. intros [? ?]. by apply path_bits_length. Qed.
Lemma matches_key e ip : plen_ok e -> matches e ip = true <-> key_of e = take (length (key_of e)) (path_bits ip 32).
Proof.
  intros He. rewrite key_length by done. rewrite path_bits_take by done. unfold key_of. rewrite path_bits_mask by done.
  rewrite path_bits_inj by done. unfold matches. destruct (Z.eqb_spec (dst_prefix_len e) 0) as [->|].
  - unfold prefix_mask. cbn [Z.eqb]. rewrite !Z.land_0_r. done.
  - rewrite Z.eqb_eq. split; congruence.
Qed.

(** ** Walking the trie *)
Lemma routes_at_nil n : routes_at [] n = routes n.
Proof. done. Qed.
Lemma routes_at_new p : routes_at p node_new = [].
Proof. destruct p as [|[] p]; done. Qed.
Lemma routes_at_cons b p n : routes_at (b :: p) n = match child b n with Some m => routes_at p m | None => [] end.
Proof. unfold routes_at. cbn. by destruct (child b n). Qed.
Lemma routes_at_update p q f n :
  routes_at p (update_at q f n) = if decide (p = q) then f (routes_at q n) else routes_at p n.
Proof.
  revert p n. induction q as [|b q IH]; intros p [rs l r].
  - destruct p as [|b p]; [by rewrite decide_True|]. rewrite decide_False by done. by rewrite !routes_at_cons.
  - destruct p as [|c p].
    + rewrite decide_False by done. by destruct b.
    + destruct b, c; cbn [update_at]; rewrite ?routes_at_cons; cbn [child]; try (by rewrite decide_False by congruence).
      * rewrite IH. destruct r as [m|]; cbn; rewrite ?routes_at_new; repeat case_decide; congruence.
      * rewrite IH. destruct l as [m|]; cbn; rewrite ?routes_at_new; repeat case_decide; congruence.
Qed.
Lemma lookup_loop_spec bits n best :
  (lookup_loop bits n best = best /\ forall k, (0 < k <= length bits)%nat -> routes_at (take k bits) n = []) \/
  exists k, (0 < k <= length bits)%nat /\ routes_at (take k bits) n <> [] /\
    lookup_loop bits n best = Some (routes_at (take k bits) n) /\
    forall j, (k < j <= length bits)%nat -> routes_at (take j bits) n = [].
Proof.
  revert n best. induction bits as [|b bits IH]; intros n best; cbn [lookup_loop].
  { left. split; [done|]. cbn. lia. }
  destruct (child b n) as [m|] eqn:Hc.
  2:{ left. split; [done|]. intros [|k] Hk; [lia|]. cbn [take firstn]. by rewrite routes_at_cons, Hc. }
  assert (forall k, routes_at (take (S k) (b :: bits)) n = routes_at (take k bits) m) as Ht.
  { intros k. cbn [take firstn]. by rewrite routes_at_cons, Hc. }
  destruct (IH m (candidates_of (routes m) best)) as [[He Hn]|(k & Hk & Hne & He & Hn)].
  - destruct (routes m) as [|x xs] eqn:Hr; cbn [candidates_of] in He.
    + left. split; [done|]. intros [|[|k]] Hk; [lia|rewrite Ht; done|]. rewrite Ht. apply Hn. cbn in Hk. lia.
    + right. exists 1%nat. rewrite Ht. cbn [take firstn]. rewrite routes_at_nil, Hr. split_and!; [lia|cbn; lia|done| |].
      * cbn [candidates_of]. exact He.
      * intros [|j] Hj; [lia|]. rewrite Ht. apply Hn. cbn in Hj. lia.
  - right. exists (S k). rewrite Ht. split_and!; [lia|cbn; lia|done|done|]. intros [|j] Hj; [lia|].
    rewrite Ht. apply Hn. cbn in Hj. lia.
Qed.
(** The candidates are those of the longest prefix of the address that has routes. *)
Lemma lookup_candidates_spec ip t :
  match lookup_candidates ip t with
  | Some cs => exists k, (k <= 32)%nat /\ cs = routes_at (take k (path_bits ip 32)) (root t) /\ cs <> [] /\
      forall j, (k < j <= 32)%nat -> routes_at (take j (path_bits ip 32)) (root t) = []
  | None => forall j, (j <= 32)%nat -> routes_at (take j (path_bits ip 32)) (root t) = []
  end.
Proof.
  unfold lookup_candidates. assert (length (path_bits ip 32) = 32%nat) as Hl by (by rewrite path_bits_length).
  destruct (lookup_loop_spec (path_bits ip 32) (root t) (candidates_of (routes (root t)) None)) as [[-> H]|(k & Hk & Hn & -> & H)];
    rewrite Hl in H.
  - destruct (routes (root t)) as [|x xs] eqn:Hr; cbn [candidates_of].
    + intros [|j] Hj; [by rewrite take_0, routes_at_nil|]. apply H. lia.
    + exists O. rewrite take_0, routes_at_nil, Hr. split_and!; [lia|done|done|]. intros j Hj. apply H. lia.
  - rewrite Hl in Hk. exists k. split_and!; [lia|done|done|done].
Qed.

(** ** The routes of a prefix *)
Definition metric_le (a b : RouteEntry) : Prop := metric a <= metric b.
Definition hop (e : RouteEntry) : Z * string := (gateway e, iface e).
Lemma same_hop_true e r : same_hop e r = true <-> hop r = hop e.
Proof. unfold same_hop, hop. rewrite andb_true_iff, Z.eqb_eq, bool_decide_eq_true. split; [by intros [-> ->]|by intros [= -> ->]]. Qed.
Lemma sort_insert_perm e l : sort_insert e l ≡ₚ e :: l.
Proof. induction l as [|r l IH]; cbn; [done|]. case_match; [done|]. rewrite IH. apply Permutation_swap. Qed.
Lemma sort_perm l : sort_by_metric l ≡ₚ l.
Proof. induction l as [|r l IH]; [done|]. change (sort_by_metric (r :: l)) with (sort_insert r (sort_by_metric l)). by rewrite sort_insert_perm, IH. Qed.
Lemma sort_insert_sorted e l : StronglySorted metric_le l -> StronglySorted metric_le (sort_insert e l).
Proof.
  induction 1 as [|r l Hs IH Hf]; cbn; [repeat constructor|]. case_match; simplify_bool.
  - constructor; [by constructor|]. constructor; [done|]. eapply Forall_impl; [done|]. unfold metric_le. cbn. lia.
  - constructor; [done|]. rewrite sort_insert_perm. constructor; [unfold metric_le; lia|done].
Qed.
Lemma sort_sorted l : StronglySorted metric_le (sort_by_metric l).
Proof. induction l as [|r l IH]; [constructor|]. by apply sort_insert_sorted. Qed.

(** Putting a route replaces the one with its next hop, if any. *)
Lemma put_route_perm e rs : NoDup (hop <$> rs) -> put_route e rs ≡ₚ e :: filter (fun r => hop r <> hop e) rs.
Proof.
  intros Hn. unfold put_route. rewrite sort_perm. destruct (position (same_hop e) rs) as [i|] eqn:Hp.
  - apply position_spec in Hp as [(r & Hi & Hr) _]. apply same_hop_true in Hr.
    rewrite insert_take_drop by (by eapply lookup_lt_Some). rewrite <-(take_drop_middle _ _ _ Hi) in Hn |- * at 3.
    rewrite fmap_app, fmap_cons in Hn. rewrite NoDup_app in Hn. destruct Hn as (_ & Hd & Hn). apply NoDup_cons in Hn as [Hn _].
    rewrite filter_app, filter_cons_False by (by intros []). rewrite !filter_all; [by rewrite <-Permutation_middle| |].
    + intros x Hx E. apply Hn. rewrite Hr, <-E. by apply list_elem_of_fmap_2.
    + intros x Hx E. apply (Hd (hop r)); [rewrite Hr, <-E; by apply list_elem_of_fmap_2|constructor].
  - apply position_None in Hp. rewrite filter_all; [by rewrite <-Permutation_cons_append|].
    intros x Hx E. rewrite Forall_forall in Hp. apply Hp in Hx. apply same_hop_true in E. congruence.
Qed.

(** ** The installed routes *)
Definition slot (e : RouteEntry) : list bool * (Z * string) := (key_of e, hop e).
Definition install (e : RouteEntry) (l : list RouteEntry) : list RouteEntry := e :: filter (fun r => slot r <> slot e) l.
Definition uninstall (d n : Z) (l : list RouteEntry) : list RouteEntry :=
  filter (fun r => key_of r <> path_bits (Z.land d (prefix_mask n)) n) l.
Record trie_ok (t : FibTrie) (l : list RouteEntry) : Prop := {
  to_routes p : routes_at p (root t) ≡ₚ filter (fun r => key_of r = p) l;
  to_sorted p : StronglySorted metric_le (routes_at p (root t));
  to_slots : NoDup (slot <$> l);
  to_count : entry_count t = Z.of_nat (length l) mod u32_mod }.
Lemma hops_nodup t l p : trie_ok t l -> NoDup (hop <$> routes_at p (root t)).
Proof.
  intros [H1 _ H3 _]. rewrite H1. clear H1. induction l as [|e l IH]; [constructor|]. rewrite fmap_cons in H3.
  apply NoDup_cons in H3 as [Hn Hd]. rewrite filter_cons. case_decide as E; [|by apply IH]. rewrite fmap_cons. constructor; [|by apply IH].
  intros Hin. apply Hn. apply list_elem_of_fmap in Hin as (r & Hr & Hin). apply list_elem_of_filter in Hin as [Hk Hin].
  apply list_elem_of_fmap. exists r. split; [|done]. unfold slot. congruence.
Qed.
Lemma trie_new_ok : trie_ok trie_new [].
Proof. split; cbn; intros; rewrite ?routes_at_new; repeat constructor. Qed.
Lemma slot_filter e p (l : list RouteEntry) : key_of e = p ->
  filter (fun r => hop r <> hop e) (filter (fun r => key_of r = p) l) = filter (fun r => key_of r = p) (filter (fun r => slot r <> slot e) l).
Proof.
  intros He. induction l as [|r l IH]; [done|]. destruct (decide (key_of r = p)) as [E|E], (decide (hop r = hop e)) as [F|F];
    repeat (rewrite filter_cons; try case_decide); try done; unfold slot in *; try congruence; try (exfalso; naive_solver congruence).
Qed.
Lemma slot_filter_ne e p (l : list RouteEntry) : key_of e <> p ->
  filter (fun r => key_of r = p) (filter (fun r => slot r <> slot e) l) = filter (fun r => key_of r = p) l.
Proof.
  intros He. rewrite list_filter_filter. apply filter_ext_in. intros r _. unfold slot. split; [by intros []|]. intros E. split; [done|]. congruence.
Qed.
Lemma filter_slot_length e (l : list RouteEntry) : NoDup (slot <$> l) ->
  length (filter (fun r => slot r <> slot e) l) = (length l - if decide (slot e ∈ slot <$> l) then 1 else 0)%nat.
Proof.
  induction l as [|r l IH]; intros Hn; [done|]. rewrite fmap_cons in *. apply NoDup_cons in Hn as [H1 H2]. specialize (IH H2).
  rewrite filter_cons. destruct (decide (slot r = slot e)) as [E|E].
  - rewrite decide_False by (by intros []). rewrite IH, E in *. rewrite decide_False by done. rewrite decide_True by constructor. cbn. lia.
  - rewrite decide_True by done. cbn [length]. rewrite IH. case_decide as F.
    + rewrite decide_True by (by constructor). destruct l; [inversion F|cbn [length]; lia].
    + rewrite decide_False by (rewrite not_elem_of_cons; done). lia.
Qed.
Lemma insert_trie_ok e t l : trie_ok t l -> trie_ok (insert e t) (install e l).
Proof.
  intros Hok. pose proof (hops_nodup t l (key_of e) Hok) as Hh. destruct Hok as [H1 H2 H3 H4]. unfold insert. fold (key_of e). split; cbn [root entry_count].
  - intros p. rewrite routes_at_update. unfold install. rewrite filter_cons. case_decide as E.
    + subst p. rewrite decide_True by done. rewrite put_route_perm by done. rewrite H1. by rewrite slot_filter.
    + rewrite decide_False by congruence. by rewrite slot_filter_ne by congruence.
  - intros p. rewrite routes_at_update. case_decide; [apply sort_sorted|done].
  - unfold install. rewrite fmap_cons. constructor.
    + intros Hin. apply list_elem_of_fmap in Hin as (r & Hr & Hin). by apply list_elem_of_filter in Hin as [[] _].
    + clear -H3. induction l as [|r l IH]; [constructor|]. rewrite fmap_cons in H3. apply NoDup_cons in H3 as [Ha Hb].
      rewrite filter_cons. case_decide; [|by apply IH]. rewrite fmap_cons. constructor; [|by apply IH]. intros Hin. apply Ha.
      apply list_elem_of_fmap in Hin as (x & -> & Hin). apply list_elem_of_filter in Hin as [_ Hin]. by apply list_elem_of_fmap_2.
  - assert ((slot e ∈ slot <$> l) <-> is_Some (position (same_hop e) (routes_at (key_of e) (root t)))) as Hk.
    { rewrite list_elem_of_fmap. split.
      - intros (r & Hr & Hin). destruct (position _ _) as [i|] eqn:Hp; [by eexists|]. apply position_None in Hp.
        rewrite Forall_forall in Hp. assert (r ∈ routes_at (key_of e) (root t)) as G.
        { rewrite H1. apply list_elem_of_filter. split; [|done]. unfold slot in Hr. congruence. }
        apply Hp in G. assert (same_hop e r = true) by (apply same_hop_true; unfold slot in Hr; congruence). congruence.
      - intros [i Hp]. apply position_spec in Hp as [(r & Hi & Hr) _]. apply same_hop_true in Hr.
        apply list_elem_of_lookup_2 in Hi. rewrite H1 in Hi. apply list_elem_of_filter in Hi as [Hk Hi]. exists r. unfold slot. split; [congruence|done]. }
    unfold install. cbn [length]. rewrite filter_slot_length by done. destruct (position _ _) as [i|]; case_decide as E.
    + assert (length l > 0)%nat by (destruct l; [inversion E|cbn; lia]). rewrite H4. f_equal. lia.
    + destruct E. apply Hk. by eexists.
    + apply Hk in E. by destruct E.
    + rewrite H4. unfold u32_add. rewrite Zplus_mod_idemp_l. f_equal. lia.
Qed.
Lemma routes_at_node bits n rs : routes_at bits n = rs -> rs <> [] -> exists m, node_at bits n = Some m /\ routes m = rs.
Proof. unfold routes_at. destruct (node_at bits n) as [m|]; cbn; intros <- H; [by exists m|done]. Qed.
Lemma uninstall_perm d n t l : trie_ok t l ->
  l ≡ₚ routes_at (path_bits (Z.land d (prefix_mask n)) n) (root t) ++ uninstall d n l.
Proof.
  intros Hok. rewrite (to_routes _ _ Hok). unfold uninstall. symmetry.
  apply (filter_app_complement (fun r => key_of r = path_bits (Z.land d (prefix_mask n)) n) l).
Qed.
Lemma remove_trie_ok d n t l : trie_ok t l ->
  trie_ok (remove d n t).1 (uninstall d n l) /\ (remove d n t).2 = negb (bool_decide (uninstall d n l = l)).
Proof.
  intros Hok. pose proof (uninstall_perm d n t l Hok) as Hp. unfold remove. set (bits := path_bits (Z.land d (prefix_mask n)) n) in *.
  assert (routes_at bits (root t) = [] -> uninstall d n l = l) as Hu.
  { intros E. unfold uninstall. apply filter_all. intros r Hr Hk. assert (r ∈ routes_at bits (root t)) as G; [|rewrite E in G; inversion G].
    rewrite (to_routes _ _ Hok). by apply list_elem_of_filter. }
  destruct (routes_at bits (root t)) as [|x xs] eqn:E.
  - rewrite Hu by done. rewrite bool_decide_true by done. unfold routes_at in E.
    destruct (node_at bits (root t)) as [m|]; [|done]. cbn in E. by rewrite E.
  - destruct (routes_at_node _ _ _ E ltac:(done)) as (m & -> & ->). cbn [fst snd]. split.
    + destruct Hok as [H1 H2 H3 H4]. split; cbn [root entry_count].
      * intros p. rewrite routes_at_update. unfold uninstall. rewrite list_filter_filter. fold bits. case_decide as F.
        -- subst p. rewrite filter_none; [done|]. intros r _ []. done.
        -- rewrite H1. apply Permutation_refl'. apply filter_ext_in. intros r _. split; [|by intros []]. intros <-. done.
      * intros p. rewrite routes_at_update. case_decide; [constructor|done].
      * rewrite Hp, fmap_app in H3. by apply NoDup_app in H3 as (_ & _ & H3).
      * rewrite H4. rewrite (Permutation_length Hp), length_app. unfold u32_sub, as_u32. rewrite <-Zminus_mod. f_equal. lia.
    + symmetry. apply negb_true_iff, bool_decide_eq_false. intros F. apply Permutation_length in Hp. rewrite F, length_app in Hp. cbn in Hp. lia.
Qed.

(** Histories of one table. *)
Inductive fib_op := FInsert (e : RouteEntry) | FRemove (d n : Z).
Definition fib_exec (o : fib_op) (t : FibTrie) : FibTrie :=
  match o with FInsert e => insert e t | FRemove d n => (remove d n t).1 end.
Definition fib_spec (o : fib_op) (l : list RouteEntry) : list RouteEntry :=
  match o with FInsert e => install e l | FRemove d n => uninstall d n l end.
Definition run_fib (os : list fib_op) : FibTrie := foldl (fun t o => fib_exec o t) trie_new os.
Definition installed (os : list fib_op) : list RouteEntry := foldl (fun l o => fib_spec o l) [] os.
Definition fib_op_ok (o : fib_op) : Prop := match o with FInsert e => plen_ok e | FRemove _ _ => True end.
Lemma fib_exec_ok o t l : trie_ok t l -> trie_ok (fib_exec o t) (fib_spec o l).
Proof. intros H. destruct o; cbn; [by apply insert_trie_ok|by apply remove_trie_ok]. Qed.
Lemma run_fib_ok os : trie_ok (run_fib os) (installed os).
Proof.
  unfold run_fib, installed. generalize trie_new_ok. generalize trie_new, (@nil RouteEntry).
  induction os as [|o os IH]; intros t l H; [done|]. cbn [foldl]. by apply IH, fib_exec_ok.
Qed.
Lemma installed_plen os : Forall fib_op_ok os -> Forall plen_ok (installed os).
Proof.
  intros H. unfold installed. assert (Forall plen_ok []) as G by constructor. revert G. generalize (@nil RouteEntry).
  induction H as [|o os Ho _ IH]; intros l Hl; [done|]. cbn [foldl]. apply IH. destruct o; cbn; [constructor; [done|]|]; rewrite Forall_forall in *;
    intros r Hr; apply list_elem_of_filter in Hr as [_ Hr]; by apply Hl.
Qed.

(** What a lookup answers, on the list of installed routes. *)
Definition best_route (ip : Z) (l : list RouteEntry) (o : option RouteEntry) : Prop :=
  match o with
  | Some e => e ∈ l /\ matches e ip = true /\ forall r, r ∈ l -> matches r ip = true ->
      dst_prefix_len r < dst_prefix_len e \/ (dst_prefix_len r = dst_prefix_len e /\ metric e <= metric r)
  | None => forall r, r ∈ l -> matches r ip = false
  end.
Lemma matching_key ip t l r : trie_ok t l -> plen_ok r -> r ∈ l -> matches r ip = true ->
  r ∈ routes_at (take (Z.to_nat (dst_prefix_len r)) (path_bits ip 32)) (root t).
Proof.
  intros Hok Hr Hin Hm. apply matches_key in Hm; [|done]. rewrite key_length in Hm by done. rewrite <-Hm.
  rewrite (to_routes _ _ Hok). by apply list_elem_of_filter.
Qed.
Lemma key_prefix_len ip k e : plen_ok e -> (k <= 32)%nat -> key_of e = take k (path_bits ip 32) -> Z.to_nat (dst_prefix_len e) = k.
Proof. intros He Hk H. rewrite <-key_length by done. rewrite H, length_take, path_bits_length by lia. lia. Qed.
(** The candidates are exactly the covering routes of the longest prefix. *)
Definition longest_cover (ip : Z) (l cs : list RouteEntry) (n : Z) : Prop :=
  (forall r, r ∈ cs <-> r ∈ l /\ matches r ip = true /\ dst_prefix_len r = n) /\
  forall r, r ∈ l -> matches r ip = true -> dst_prefix_len r <= n.
Lemma candidates_cover ip t l : trie_ok t l -> Forall plen_ok l ->
  match lookup_candidates ip t with
  | Some cs => cs <> [] /\ StronglySorted metric_le cs /\ exists n, longest_cover ip l cs n
  | None => forall r, r ∈ l -> matches r ip = false
  end.
Proof.
  intros Hok Hp. rewrite Forall_forall in Hp. pose proof (lookup_candidates_spec ip t) as H.
  destruct (lookup_candidates ip t) as [cs|].
  2:{ intros r Hr. destruct (matches r ip) eqn:E; [|done]. exfalso.
      pose proof (matching_key ip t l r Hok (Hp r Hr) Hr E) as G. rewrite H in G; [inversion G|]. pose proof (Hp r Hr). unfold plen_ok in *. lia. }
  destruct H as (k & Hk & -> & Hne & Hlong). split_and!; [done|apply (to_sorted _ _ Hok)|]. exists (Z.of_nat k). split.
  - intros r. rewrite (to_routes _ _ Hok), list_elem_of_filter. split.
    + intros [Hkey Hr]. pose proof (key_prefix_len ip k r (Hp r Hr) Hk Hkey) as Hl. pose proof (Hp r Hr) as Hq.
      split_and!; [done| |unfold plen_ok in Hq; lia]. apply matches_key; [done|]. rewrite key_length by done. by rewrite Hl.
    + intros (Hr & Hm & Hl). split; [|done]. apply matches_key in Hm; [|by apply Hp]. rewrite key_length, Hl in Hm by (by apply Hp). by rewrite Nat2Z.id in Hm.
  - intros r Hr Hm. pose proof (matching_key ip t l r Hok (Hp r Hr) Hr Hm) as G. pose proof (Hp r Hr) as Hq. unfold plen_ok in Hq.
    destruct (decide (k < Z.to_nat (dst_prefix_len r))%nat); [|lia]. rewrite Hlong in G by lia. inversion G.
Qed.
Lemma sorted_head_least e cs r : StronglySorted metric_le (e :: cs) -> r ∈ e :: cs -> metric e <= metric r.
Proof. intros H Hr. apply StronglySorted_inv in H as [_ H]. rewrite Forall_forall in H. apply elem_of_cons in Hr as [->|Hr]; [lia|by apply H]. Qed.
Lemma trie_lookup_best ip t l : trie_ok t l -> Forall plen_ok l -> best_route ip l (trie_lookup ip t).
Proof.
  intros Hok Hp. unfold trie_lookup. pose proof (candidates_cover ip t l Hok Hp) as H. destruct (lookup_candidates ip t) as [[|e cs]|]; cbn; [by destruct H| |done].
  destruct H as (_ & Hs & n & Hc & Hl). destruct (proj1 (Hc e) ltac:(constructor)) as (H1 & H2 & H3). split_and!; [done|done|].
  intros r Hr Hm. destruct (decide (dst_prefix_len r = n)) as [E|E].
  - right. split; [lia|]. apply (sorted_head_least e cs); [done|]. by apply Hc.
  - left. specialize (Hl r Hr Hm). lia.
Qed.
(** C25: Lookups find the longest prefix.  After any history of insertions (of
    prefixes of at most 32 bits) and removals of routes, a lookup in the trie returns
    an installed route that covers the address with the longest prefix and, among
    those, the least metric, and nothing only when no installed route covers the
    address; the entry counter is the number of installed routes. *)
Theorem fib_longest_prefix os ip : Forall fib_op_ok os ->
  best_route ip (installed os) (trie_lookup ip (run_fib os)) /\
  entry_count (run_fib os) = Z.of_nat (length (installed os)) mod u32_mod.
Proof.
  intros H. pose proof (run_fib_ok os) as Hok. split; [|apply (to_count _ _ Hok)].
  apply trie_lookup_best; [done|by apply installed_plen].
Qed.

(** ** Listing *)
Fixpoint size (n : FibNode) : nat :=
  match n with Node _ l r => S (match l with Some m => size m | None => O end + match r with Some m => size m | None => O end) end.
Definition keyed (n : FibNode) (l : list (list bool * RouteEntry)) : Prop :=
  forall p, routes_at p n ≡ₚ (filter (fun x => x.1 = p) l).*2.
Definition below (b : bool) (l : list (list bool * RouteEntry)) : list (list bool * RouteEntry) :=
  omap (fun x => match x.1 with c :: p => if decide (c = b) then Some (p, x.2) else None | [] => None end) l.
Lemma below_filter b p l : (filter (fun x => x.1 = p) (below b l)).*2 = (filter (fun x => x.1 = b :: p) l).*2.
Proof.
  induction l as [|[[|c q] e] l IH]; [done| |]; unfold below in *; cbn [omap list_omap fst snd].
  - rewrite (filter_cons_False _ ([], e)) by done. done.
  - case_decide as E.
    + subst c. destruct (decide (q = p)) as [->|F].
      * rewrite !filter_cons_True by done. cbn [fmap list_fmap snd]. by f_equal.
      * rewrite !filter_cons_False by (cbn; congruence). done.
    + rewrite (filter_cons_False _ (c :: q, e)) by (cbn; congruence). done.
Qed.
Lemma split_keys p (l : list (list bool * RouteEntry)) : p = [] ->
  l.*2 ≡ₚ (filter (fun x => x.1 = p) l).*2 ++ (below false l).*2 ++ (below true l).*2.
Proof.
  intros ->. induction l as [|[[|c q] e] l IH]; [done| |]; unfold below in *; cbn [omap list_omap fst snd fmap list_fmap].
  - rewrite filter_cons_True by done. cbn [fmap list_fmap snd app]. by f_equiv.
  - rewrite filter_cons_False by done. rewrite IH. destruct c; cbn [decide fmap list_fmap snd]; repeat case_decide; try done;
      cbn [fmap list_fmap snd]; solve_Permutation.
Qed.
Lemma keyed_child b m n l : keyed n l -> child b n = Some m -> keyed m (below b l).
Proof. intros H Hc p. rewrite below_filter, <-H, routes_at_cons, Hc. done. Qed.
Lemma keyed_no_child b n l : keyed n l -> child b n = None -> below b l = [].
Proof.
  intros H Hc. destruct (below b l) as [|[p e] k] eqn:E; [done|]. exfalso.
  pose proof (below_filter b p l) as G. rewrite E, filter_cons_True in G by done.
  specialize (H (b :: p)). rewrite routes_at_cons, Hc, <-G in H. cbn in H. by apply Permutation_nil_cons in H.
Qed.
Lemma traverse_perm n l : keyed n l -> traverse n ≡ₚ l.*2.
Proof.
  remember (size n) as k eqn:Hk. assert (size n <= k)%nat as Hle by lia. clear Hk. revert n l Hle.
  induction k as [|k IH]; intros [rs ln rn] l Hle H; cbn in Hle; [lia|]. rewrite (split_keys [] l) by done. cbn [traverse].
  rewrite <-(H []), routes_at_nil. cbn [routes]. apply Permutation_app; [done|]. apply Permutation_app.
  - destruct ln as [m|]; [apply IH; [lia|by apply (keyed_child false m _ _ H)]|by rewrite (keyed_no_child false _ _ H)].
  - destruct rn as [m|]; [apply IH; [lia|by apply (keyed_child true m _ _ H)]|by rewrite (keyed_no_child true _ _ H)].
Qed.
Lemma filter_keyed p (l : list RouteEntry) :
  (filter (fun x => x.1 = p) ((fun r => (key_of r, r)) <$> l)).*2 = filter (fun r => key_of r = p) l.
Proof. induction l as [|r l IH]; [done|]. rewrite fmap_cons, !filter_cons. cbn [fst]. case_decide; cbn; congruence. Qed.
Lemma traverse_installed t l : trie_ok t l -> traverse (root t) ≡ₚ l.
Proof.
  intros Hok. rewrite (traverse_perm _ ((fun r => (key_of r, r)) <$> l)).
  - clear Hok. apply Permutation_refl'. induction l as [|r l IH]; cbn; congruence.
  - intros p. by rewrite (to_routes _ _ Hok), filter_keyed.
Qed.

(** ** The manager *)
Inductive rop :=
| AddTable (id : Z) (name : string) | AddRoute (id : Z) (e : RouteEntry) | RemoveRoute (id d n : Z)
| AddRule (r : PolicyRule) | RemoveRule (p : Z) | MarkGateway (ok : bool) (g : Z) | Lookup (s d k t : Z).
Definition exec (o : rop) (m : RoutingManager) : RoutingManager :=
  match o with
  | AddTable id name => add_table id name m
  | AddRoute id e => add_route id e m
  | RemoveRoute id d n => (remove_route id d n m).1
  | AddRule r => add_rule r m
  | RemoveRule p => (remove_rule p m).1
  | MarkGateway ok g => mark_gateway ok g m
  | Lookup s d k t => (lookup s d k t m).1
  end.
Definition run (os : list rop) : RoutingManager := foldl (fun m o => exec o m) mgr_new os.
(** The tables as plain lists of routes. *)
Abbreviation spec_tables := (gmap Z (list RouteEntry)).
Definition spec_exec (o : rop) (T : spec_tables) : spec_tables :=
  match o with
  | AddTable id _ => <[id := []]> T
  | AddRoute id e => match T !! id with Some l => <[id := install e l]> T | None => T end
  | RemoveRoute id d n => match T !! id with Some l => <[id := uninstall d n l]> T | None => T end
  | _ => T
  end.
Definition spec_run (os : list rop) : spec_tables :=
  foldl (fun T o => spec_exec o T) (<[RT_TABLE_MAIN := []]> {[RT_TABLE_LOCAL := []]}) os.
(** The rules that were added and not removed. *)
Definition spec_rule (o : rop) (rs : list PolicyRule) : list PolicyRule :=
  match o with AddRule r => r :: rs | RemoveRule p => filter (fun r => priority r <> p) rs | _ => rs end.
Definition spec_rules (os : list rop) : list PolicyRule := foldl (fun rs o => spec_rule o rs) [default_main 32766] os.
(** Prefix lengths are those of IPv4 and rules name no interface: [matches] of a
    rule does not read [iif] and [oif]. *)
Definition rop_ok (o : rop) : Prop :=
  match o with AddRoute _ e => plen_ok e | AddRule r => iif r = ""%string /\ oif r = ""%string | _ => True end.

Definition resolve (m : RoutingManager) (s d k t : Z) : option RouteResult :=
  match rule_loop m s d k t (rules m) with Some (Some (e, _, tid)) => Some (result_of e tid) | _ => None end.
Definition table_ok (o : option RoutingTable) (l : option (list RouteEntry)) : Prop :=
  match o, l with
  | Some t, Some l => trie_ok (fib t) l /\ Forall plen_ok l
  | None, None => True
  | _, _ => False
  end.
Definition prio_le (a b : PolicyRule) : Prop := priority a <= priority b.
Record mgr_ok (m : RoutingManager) (T : spec_tables) : Prop := {
  mo_tables id : table_ok (tables m !! id) (T !! id);
  mo_rules : StronglySorted prio_le (rules m);
  mo_cache s d k t r : cache m !! (s, d, k, t) = Some r -> resolve m s d k t = Some r;
  mo_counts : lookups m = (hits m + misses m) mod u64_mod /\ lookups m = (cache_hits m + cache_misses m) mod u64_mod }.

Lemma rule_loop_ext m m' s d k t rs : tables m' = tables m -> gateway_health m' = gateway_health m ->
  rule_loop m' s d k t rs = rule_loop m s d k t rs.
Proof.
  intros Ht Hg. assert (forall cs, select_route_candidate m' cs = select_route_candidate m cs) as Hs.
  { intros cs. unfold select_route_candidate. replace (position (route_is_healthy m') cs) with (position (route_is_healthy m) cs); [done|].
    induction cs as [|r cs IH]; [done|]. cbn. unfold route_is_healthy at 1 3. rewrite Hg. by rewrite IH. }
  induction rs as [|r rs IH]; [done|]. cbn [rule_loop]. rewrite Ht, IH. repeat case_match; rewrite ?Hs; done.
Qed.

(** A healthy route of least metric among the candidates, or the first one if none is healthy. *)
Definition chosen (m : RoutingManager) (cs : list RouteEntry) (e : RouteEntry) : Prop :=
  e ∈ cs /\ ((route_is_healthy m e = true /\ forall r, r ∈ cs -> route_is_healthy m r = true -> metric e <= metric r) \/
             ((forall r, r ∈ cs -> route_is_healthy m r = false) /\ forall r, r ∈ cs -> metric e <= metric r)).
Lemma sorted_lookup_le cs i j (e r : RouteEntry) : StronglySorted metric_le cs -> cs !! i = Some e -> cs !! j = Some r -> (i <= j)%nat -> metric e <= metric r.
Proof.
  intros Hs. revert i j. induction Hs as [|x cs Hs IH Hf]; intros i j Hi Hj Hle; [done|]. rewrite Forall_forall in Hf.
  destruct i as [|i], j as [|j]; cbn in *; simplify_eq; [lia| |lia|].
  - apply Hf. by eapply list_elem_of_lookup_2.
  - apply (IH i j); [done|done|lia].
Qed.
Lemma select_chosen m cs : cs <> [] -> StronglySorted metric_le cs ->
  exists e b, select_route_candidate m cs = Some (e, b) /\ chosen m cs e.
Proof.
  intros Hne Hs. unfold select_route_candidate. destruct (position (route_is_healthy m) cs) as [i|] eqn:Hp.
  - apply position_spec in Hp as [(e & Hi & He) Hb]. rewrite Hi. cbn. do 2 eexists. split; [done|]. split; [by eapply list_elem_of_lookup_2|].
    left. split; [done|]. intros r Hr Hh. apply list_elem_of_lookup in Hr as [j Hj].
    destruct (decide (i <= j)%nat); [by apply (sorted_lookup_le cs i j)|]. rewrite (Hb j r) in Hh by (done || lia). done.
  - apply position_None in Hp. rewrite Forall_forall in Hp. destruct cs as [|e cs]; [done|]. cbn. do 2 eexists. split; [done|].
    split; [constructor|]. right. split; [done|]. intros r Hr. by apply (sorted_head_least e cs).
Qed.

(** The answer in terms of rules and installed routes. *)
Definition serves (T : spec_tables) (s d k t : Z) (r : PolicyRule) : Prop :=
  rule_matches s d k t r = true /\ exists l x, T !! table_id r = Some l /\ x ∈ l /\ matches x d = true.
Definition answer_ok (m : RoutingManager) (T : spec_tables) (s d k t : Z) (rs : list PolicyRule) (o : option RouteResult) : Prop :=
  match o with
  | Some res => exists pre r post l cs n e, rs = pre ++ r :: post /\ Forall (fun q => ~ serves T s d k t q) pre /\
      serves T s d k t r /\ T !! table_id r = Some l /\ longest_cover d l cs n /\ chosen m cs e /\ res = result_of e (table_id r)
  | None => Forall (fun q => ~ serves T s d k t q) rs
  end.
Lemma answer_cons m T s d k t r rs o : ~ serves T s d k t r -> answer_ok m T s d k t rs o -> answer_ok m T s d k t (r :: rs) o.
Proof.
  intros Hr. destruct o as [res|]; cbn; [|by constructor]. intros (pre & q & post & l & cs & n & e & -> & H1 & H). exists (r :: pre), q, post, l, cs, n, e.
  split; [done|]. split; [by constructor|done].
Qed.
Lemma rule_loop_spec m T s d k t rs : (forall id, table_ok (tables m !! id) (T !! id)) ->
  rule_loop m s d k t rs <> Some None /\
  answer_ok m T s d k t rs (match rule_loop m s d k t rs with Some (Some (e, _, tid)) => Some (result_of e tid) | _ => None end).
Proof.
  intros Ht. induction rs as [|r rs [IH1 IH2]]; [split; [done|constructor]|]. cbn [rule_loop].
  destruct (rule_matches s d k t r) eqn:Hm; cbn [negb]; [|split; [done|]; apply answer_cons; [|done]; intros [? _]; congruence].
  pose proof (Ht (table_id r)) as Hk. destruct (tables m !! table_id r) as [tb|].
  2:{ split; [done|]. apply answer_cons; [|done]. intros (_ & l & x & Hl & _). by rewrite Hl in Hk. }
  destruct (T !! table_id r) as [l|] eqn:Hl; [|done]. destruct Hk as [Hok Hp]. pose proof (candidates_cover d (fib tb) l Hok Hp) as Hc.
  destruct (lookup_candidates d (fib tb)) as [cs|].
  2:{ split; [done|]. apply answer_cons; [|done]. intros (_ & l' & x & Hl' & Hx & Hd). simplify_eq. rewrite Hc in Hd by done. done. }
  destruct Hc as (Hne & Hs & n & Hcov). destruct (select_chosen m cs Hne Hs) as (e & b & -> & Hch). cbn. split; [done|].
  exists [], r, rs, l, cs, n, e. split_and!; try done. split; [done|]. exists l, e. destruct Hch as [Hin _]. apply Hcov in Hin as (? & ? & _). done.
Qed.
Lemma table_ok_insert (m : gmap Z RoutingTable) (T : spec_tables) id t l i : table_ok (Some t) (Some l) -> (forall i, table_ok (m !! i) (T !! i)) ->
  table_ok (<[id := t]> m !! i) (<[id := l]> T !! i).
Proof.
  intros H1 H2. destruct (decide (i = id)) as [->|]; [|rewrite !lookup_insert_ne by done; apply H2].
  rewrite !lookup_insert_eq. exact H1.
Qed.
Lemma mgr_new_ok : mgr_ok mgr_new (spec_run []).
Proof.
  split; cbn [tables rules cache mgr_new spec_run foldl lookups hits misses cache_hits cache_misses].
  - intros id. assert (forall i n, table_ok (Some (table_new i n)) (Some [])) as H by (split; [apply trie_new_ok|constructor]).
    apply table_ok_insert; [apply H|]. intros i. unfold singletonM, map_singleton. apply table_ok_insert; [apply H|]. intros j. by rewrite !lookup_empty.
  - repeat constructor.
  - intros *. by rewrite lookup_empty.
  - done.
Qed.
Lemma emptied_ok m T : (forall id, table_ok (tables m !! id) (T !! id)) -> StronglySorted prio_le (rules m) ->
  lookups m = (hits m + misses m) mod u64_mod /\ lookups m = (cache_hits m + cache_misses m) mod u64_mod -> mgr_ok (invalidate_cache m) T.
Proof. intros H1 H2 H3. split; try done. Qed.
Lemma partition_rules p l : StronglySorted prio_le l ->
  (forall r, r ∈ take (partition_point p l) l -> priority r <= p) /\ (forall r, r ∈ drop (partition_point p l) l -> p < priority r).
Proof.
  induction 1 as [|r l Hs [IH1 IH2] Hf]; cbn; [split; intros ? H; inversion H|]. case_match; simplify_bool; cbn.
  - split; [|done]. intros q Hq. apply elem_of_cons in Hq as [->|Hq]; [done|by apply IH1].
  - split; [intros q Hq; inversion Hq|]. rewrite Forall_forall in Hf. intros q Hq. apply elem_of_cons in Hq as [->|Hq]; [lia|].
    specialize (Hf q Hq). unfold prio_le in Hf. lia.
Qed.
Lemma add_rule_sorted r l : StronglySorted prio_le l ->
  StronglySorted prio_le (take (partition_point (priority r) l) l ++ r :: drop (partition_point (priority r) l) l).
Proof.
  intros Hs. destruct (partition_rules (priority r) l Hs) as [H1 H2]. set (i := partition_point (priority r) l) in *.
  rewrite <-(take_drop i l) in Hs. apply StronglySorted_app in Hs as (Hx & Ha & Hb). apply StronglySorted_app. split_and!.
  - intros x y Hin Hy. apply elem_of_cons in Hy as [->|Hy]; [by apply H1|by apply Hx].
  - done.
  - constructor; [done|]. apply Forall_forall. intros y Hy. unfold prio_le. specialize (H2 y Hy). lia.
Qed.
Lemma lookup_ok s d k t m T : mgr_ok m T -> mgr_ok (lookup s d k t m).1 T /\ (lookup s d k t m).2 = resolve m s d k t.
Proof.
  intros [H1 H2 H3 [H4 H5]]. unfold lookup. cbn [cache lookups hits misses cache_hits cache_misses tables rules gateway_health failovers].
  destruct (cache m !! (s, d, k, t)) as [r|] eqn:Hc.
  - split; [|by rewrite (H3 _ _ _ _ _ Hc)]. split; cbn; try done.
    + intros *. unfold resolve. rewrite (rule_loop_ext m) by done. apply H3.
    + rewrite H4, H5 at 1. split; mlia.
  - unfold resolve. rewrite (rule_loop_ext m) by done. destruct (rule_loop_spec m T s d k t (rules m) H1) as [Hn _].
    destruct (rule_loop m s d k t (rules m)) as [[[[e b] tid]|]|] eqn:E; cbn [fst snd]; [|done|].
    + split; [|done]. split; cbn; try done.
      * intros s' d' k' t' r. rewrite lookup_insert_Some. unfold resolve. rewrite (rule_loop_ext m) by done. cbn [rules].
        intros [[[= <- <- <- <-] <-]|[_ Hr]]; [by rewrite E|by apply H3].
      * rewrite H4, H5 at 1. split; mlia.
    + split; [|done]. split; cbn; try done.
      * intros *. unfold resolve. rewrite (rule_loop_ext m) by done. apply H3.
      * rewrite H4, H5 at 1. split; mlia.
Qed.
Lemma exec_mgr_ok o m T : rop_ok o -> mgr_ok m T -> mgr_ok (exec o m) (spec_exec o T).
Proof.
  intros Ho Hm. pose proof Hm as [H1 H2 H3 H4]. destruct o as [id nm|id e|id d n|r|p|ok g|s d k t]; cbn [exec spec_exec].
  - apply emptied_ok; [|done|done]. intros i. cbn. apply table_ok_insert; [|done]. split; [apply trie_new_ok|constructor].
  - unfold add_route. pose proof (H1 id) as Hi. destruct (tables m !! id) as [tb|], (T !! id) as [l|]; try done. destruct Hi as [Hi Hp].
    apply emptied_ok; [|done|done]. intros i. cbn. apply table_ok_insert; [|done]. split; cbn; [by apply insert_trie_ok|].
    constructor; [done|]. rewrite Forall_forall in *. intros x Hx. apply list_elem_of_filter in Hx as [_ Hx]. by apply Hp.
  - unfold remove_route. pose proof (H1 id) as Hi. destruct (tables m !! id) as [tb|] eqn:Eb, (T !! id) as [l|] eqn:El; try done. destruct Hi as [Hi Hp].
    destruct (remove_trie_ok d n (fib tb) l Hi) as [Hr Hb]. destruct (remove d n (fib tb)) as [f b] eqn:Er. cbn [fst snd] in *.
    assert (forall i, table_ok (<[id := set_fib f tb]> (tables m) !! i) (<[id := uninstall d n l]> T !! i)) as Ht.
    { intros i. apply table_ok_insert; [|done]. split; [done|]. rewrite Forall_forall in *. intros x Hx. apply list_elem_of_filter in Hx as [_ Hx]. by apply Hp. }
    destruct b; [by apply emptied_ok|]. symmetry in Hb. apply negb_false_iff, bool_decide_eq_true in Hb. rewrite Hb in *.
    assert (f = fib tb) as -> by (unfold remove in Er; repeat case_match; by simplify_eq). replace (set_fib (fib tb) tb) with tb in * by (by destruct tb).
    rewrite insert_id in * by done. by destruct m.
  - apply emptied_ok; [done|by apply add_rule_sorted|done].
  - unfold remove_rule. cbn [fst]. case_match eqn:E; [apply emptied_ok; [done|by apply sorted_filter|done]|].
    apply Nat.ltb_ge in E. rewrite (filter_all (fun r => priority r <> p)); [by destruct m|].
    intros r Hr Hp. pose proof (length_filter_lt (fun r => priority r <> p) (rules m) r Hr ltac:(by intros [])). lia.
  - unfold mark_gateway. destruct (g =? 0); [done|]. by apply emptied_ok.
  - by apply lookup_ok.
Qed.
Lemma run_mgr_ok os : Forall rop_ok os -> mgr_ok (run os) (spec_run os).
Proof.
  intros H. unfold run, spec_run. generalize mgr_new_ok. change (spec_run []) with (<[RT_TABLE_MAIN := []]> {[RT_TABLE_LOCAL := []]} : spec_tables).
  generalize mgr_new. generalize (<[RT_TABLE_MAIN := []]> {[RT_TABLE_LOCAL := []]} : spec_tables).
  induction H as [|o os Ho _ IH]; intros T m Hm; [done|]. cbn [foldl]. by apply IH, exec_mgr_ok.
Qed.

Lemma spec_rule_proper o rs rs' : rs ≡ₚ rs' -> spec_rule o rs ≡ₚ spec_rule o rs'.
Proof. intros H. destruct o; cbn; by rewrite ?H. Qed.
Lemma run_rules os : rules (run os) ≡ₚ spec_rules os.
Proof.
  unfold run, spec_rules. assert (rules mgr_new ≡ₚ [default_main 32766]) as H0 by done. revert H0.
  generalize [default_main 32766], mgr_new. induction os as [|o os IH]; intros l m H; [done|]. cbn [foldl]. apply IH.
  rewrite <-(spec_rule_proper o _ _ H). destruct o as [id nm|id e|id d n|r|p|ok g|s d k t]; cbn [exec spec_rule]; try done.
  - unfold add_route. by case_match.
  - unfold remove_route. repeat case_match; simplify_eq; done.
  - cbn. rewrite <-Permutation_middle. by rewrite take_drop.
  - unfold remove_rule. cbn. by case_match.
  - unfold mark_gateway. by case_match.
  - unfold lookup. by repeat case_match.
Qed.
Lemma rule_loop_skip m s d k t pre rs : Forall (fun q => rule_matches s d k t q = false) pre ->
  rule_loop m s d k t (pre ++ rs) = rule_loop m s d k t rs.
Proof. induction 1 as [|q pre Hq _ IH]; [done|]. cbn. by rewrite Hq. Qed.
Lemma first_rule_answers m T s d k t pre r post : (forall id, table_ok (tables m !! id) (T !! id)) ->
  rules m = pre ++ r :: post -> Forall (fun q => rule_matches s d k t q = false) pre -> serves T s d k t r ->
  exists l cs n e, T !! table_id r = Some l /\ longest_cover d l cs n /\ chosen m cs e /\ resolve m s d k t = Some (result_of e (table_id r)).
Proof.
  intros Ht Hr Hpre Hs. unfold resolve. rewrite Hr, rule_loop_skip by done.
  destruct (rule_loop_spec m T s d k t (r :: post) Ht) as [_ Ha].
  destruct (match rule_loop m s d k t (r :: post) with Some (Some (e, _, tid)) => Some (result_of e tid) | _ => None end); cbn in Ha.
  - destruct Ha as ([|q pre'] & r' & post' & l & cs & n & e & Heq & Hn & _ & Hl & Hc & He & ->); simplify_eq/=; [by exists l, cs, n, e|].
    by inversion Hn.
  - by inversion Ha.
Qed.

(** C34: Cached policy routing answers correctly.  Take any history of table,
    route, rule and gateway changes and lookups in which prefix lengths are at
    most 32 and rules name no interface (the code does not read those filters).
    The rules in force are those added and not removed, in order of priority,
    and a lookup, whether the cache serves it or not, gives what evaluating the
    rules afresh gives.  If the first rule that matches the packet names a table
    with a route to the destination, the answer comes from that table: a route of
    the longest prefix that covers the destination, a healthy one of least metric
    if there is any, else one of least metric.  If no rule matches there is no
    answer.  Every lookup is counted as a hit or a miss, and as served by the
    cache or not.  Where the first matching rule's table has no route the code
    goes on to the next rule, which the comment of [lookup] does not say: the
    second part does not speak of that case. *)
Theorem routing_lookup_correct os s d k t : Forall rop_ok os ->
  let m := run os in let answer := (lookup s d k t m).2 in
  rules m ≡ₚ spec_rules os /\ StronglySorted prio_le (rules m) /\ answer = resolve m s d k t /\
  (forall pre r post, rules m = pre ++ r :: post -> Forall (fun q => rule_matches s d k t q = false) pre -> serves (spec_run os) s d k t r ->
     exists l cs n e, spec_run os !! table_id r = Some l /\ longest_cover d l cs n /\ chosen m cs e /\
       answer = Some (result_of e (table_id r))) /\
  (Forall (fun q => rule_matches s d k t q = false) (rules m) -> answer = None) /\
  lookups m = (hits m + misses m) mod u64_mod /\ lookups m = (cache_hits m + cache_misses m) mod u64_mod.
Proof.
  intros H m answer. pose proof (run_mgr_ok os H) as Hm. fold m in Hm. destruct (lookup_ok s d k t m _ Hm) as [_ Ha]. fold answer in Ha.
  destruct Hm as [H1 H2 _ [H4 H5]]. split_and!; try done; [apply run_rules| |].
  - intros pre r post Hr Hp Hs. rewrite Ha. by eapply first_rule_answers.
  - intros Hn. rewrite Ha. unfold resolve. rewrite <-(app_nil_r (rules m)). by rewrite rule_loop_skip.
Qed.

(** The listing is exact.  After any history, [dump_routes] of a table
    lists each installed route once, and nothing else. *)
Theorem fib_dump_exact os id : Forall rop_ok os ->
  dump_routes id (run os) ≡ₚ (fun r => (dst r, dst_prefix_len r, gateway r, iface r)) <$> default [] (spec_run os !! id).
Proof.
  intros H. pose proof (mo_tables _ _ (run_mgr_ok os H) id) as Ht. unfold dump_routes.
  destruct (tables (run os) !! id) as [tb|], (spec_run os !! id) as [l|]; try done. destruct Ht as [Ht _]. cbn. by rewrite (traverse_installed _ l).
Qed.

(** A route with a prefix length above 32 covers its own address but is not found. *)
Example long_prefix_unreachable :
  let e := unicast 0x0A000001 40 1 "eth0" 0 in
  matches e 0x0A000001 = true /\ trie_lookup 0x0A000001 (insert e trie_new) = None.
Proof. vm_compute. done. Qed.
(** A matching rule whose table has no route is passed over: the answer comes
    from a later rule, where the comment of [lookup] names the first one. *)
Example rule_passed_over :
  let r := mkRule 10 0 0 0 0 0 0 0xFF 7 "" "" in
  let m := add_route RT_TABLE_MAIN (default_route 0xC0A80101 "eth0" 10) (add_rule r (add_table 7 "vpn" mgr_new)) in
  head (rules m) = Some r /\ rule_matches 0 0x08080808 0 0 r = true /\ res_table <$> (lookup 0 0x08080808 0 0 m).2 = Some RT_TABLE_MAIN.
Proof. vm_compute. done. Qed.
(** Routes of the local table are never used: no rule of a new manager names it. *)
Example local_table_unused :
  (lookup 0 0x0A000001 0 0 (add_route RT_TABLE_LOCAL (host_route 0x0A000001 "lo") mgr_new)).2 = None.
Proof. vm_compute. done. Qed.

(** ** Witnesses *)
Definition demo_routes : list RouteEntry :=
  [unicast 0x0A000000 8 0x0A000001 "eth0" 100; unicast 0x0A010000 16 0x0A010001 "eth1" 50; default_route 0xC0A80101 "eth0" 10].
Lemma demo_plen e : e ∈ demo_routes -> plen_ok e.
Proof. intros H. repeat (apply elem_of_cons in H as [->|H]; [split; done|]). inversion H. Qed.
Lemma fib_longest_prefix_witness :
  best_route 0x0A010203 (installed (FInsert <$> demo_routes)) (trie_lookup 0x0A010203 (run_fib (FInsert <$> demo_routes))).
Proof.
  destruct (fib_longest_prefix (FInsert <$> demo_routes) 0x0A010203) as [H _]; [|exact H].
  apply Forall_fmap, Forall_forall. intros e He. exact (demo_plen e He).
Defined.
Definition demo_rops : list rop := (AddRoute RT_TABLE_MAIN <$> demo_routes) ++ [Lookup 0 0x0A010203 0 0; MarkGateway false 0x0A010001].
Lemma demo_rops_ok : Forall rop_ok demo_rops.
Proof. apply Forall_app. split; [apply Forall_fmap, Forall_forall; exact demo_plen|repeat constructor]. Qed.
Lemma routing_lookup_correct_witness :
  exists l cs n e, spec_run demo_rops !! RT_TABLE_MAIN = Some l /\ longest_cover 0x0A010203 l cs n /\ chosen (run demo_rops) cs e /\
    Some (mkResult 0x0A010001 "eth1" 50 0 RT_TABLE_MAIN) = Some (result_of e RT_TABLE_MAIN).
Proof.
  destruct (routing_lookup_correct demo_rops 0 0x0A010203 0 0 demo_rops_ok) as (_ & _ & _ & H & _).
  apply (H [] (default_main 32766) []); [reflexivity|constructor|]. split; [reflexivity|].
  eexists _, (unicast 0x0A010000 16 0x0A010001 "eth1" 50). split_and!; [reflexivity| |reflexivity]. right. left.
Defined.
Lemma fib_dump_exact_witness : length (dump_routes RT_TABLE_MAIN (run demo_rops)) = 3%nat.
Proof. rewrite (fib_dump_exact demo_rops RT_TABLE_MAIN demo_rops_ok). vm_compute. reflexivity. Defined.
End Routing.
