(* ===== verification/Capability.v ===== *)
(** * Capabilities and user handles

    Models [src/src/security/capability.rs]: rights, capability records, the
    per-process capability table with its handle map, derivation, revocation,
    transfer, and the module functions on the table of all processes
    ([CAP_TABLES], whose lock they hold, so they run one at a time).

    [revoke] recurses over the children of the capability it has just removed;
    its fuel is the number of capabilities, and [revoke_exact] shows that this
    is enough.  [cap_no_forgery] bounds every capability in the system by a
    grant; [revoked_stays_revoked] and [transfer_clobbers] describe handles
    over time with and without transfers into a table. *)
From S2P Require Import Prelude.

Module Capability.

Inductive CapabilityError := ProcessNotInitialized | InvalidHandle | Revoked | RightsDenied | WrongKind | StaleGeneration.
Record CapRights := mkRights { r_read : bool; r_write : bool; r_execute : bool; r_share : bool; r_transfer : bool }.
Definition READ : CapRights := mkRights true false false false false.
Definition READ_WRITE : CapRights := mkRights true true false false false.
Definition ALL : CapRights := mkRights true true true true true.
Inductive ResourceType := File | Directory | Socket | Device | Memory | Process | Thread | Port | Key | Service.
Record ServiceCapabilityRecord := mkService { sv_service : Z; sv_generation : Z; sv_owner : option Z }.
Record SharedRegionCapabilityRecord := mkRegion { sr_region : Z; sr_generation : Z; sr_len : Z; sr_writable : bool }.
Record RequestCapabilityRecord := mkRequest { rq_request : Z; rq_service : Z; rq_generation : Z; rq_owner : option Z }.
Inductive CapabilityKind :=
| Generic | KService (r : ServiceCapabilityRecord) | KSharedRegion (r : SharedRegionCapabilityRecord) | KRequest (r : RequestCapabilityRecord).
Record CapabilityRec := mkCap {
  cap_id : Z; resource_type : ResourceType; resource_id : Z; rights : CapRights; owner : Z; generation : Z;
  user_handle : Z; handle_generation : Z; kind : CapabilityKind; children : list Z }.
Record CapabilityTable := mkTable {
  process_id : Z; capabilities : gmap Z CapabilityRec; handles : gmap Z Z; next_cap_id : Z; next_handle : Z }.
Definition table_new (pid : Z) : CapabilityTable := mkTable pid ∅ ∅ 1 1.

(** ** One table *)
Definition allocate_handle (t : CapabilityTable) : CapabilityTable * Z :=
  (mkTable (process_id t) (capabilities t) (handles t) (next_cap_id t) (Z.max (u32_sat_add (next_handle t) 1) 1), Z.max (next_handle t) 1).
Definition put_cap (h : Z) (c : CapabilityRec) (t : CapabilityTable) : CapabilityTable :=
  mkTable (process_id t) (<[cap_id c := c]> (capabilities t)) (<[h := cap_id c]> (handles t)) (next_cap_id t) (next_handle t).
Definition bump_id (t : CapabilityTable) : CapabilityTable :=
  mkTable (process_id t) (capabilities t) (handles t) (u64_add (next_cap_id t) 1) (next_handle t).
Definition create_with_kind (rt : ResourceType) (rid : Z) (rs : CapRights) (k : CapabilityKind) (t : CapabilityTable) : CapabilityTable * Z :=
  let id := next_cap_id t in
  let '(t, handle) := allocate_handle (bump_id t) in
  (put_cap handle (mkCap id rt rid rs (process_id t) 0 handle 1 k []) t, id).
Definition create (rt : ResourceType) (rid : Z) (rs : CapRights) (t : CapabilityTable) : CapabilityTable * Z :=
  create_with_kind rt rid rs Generic t.
Definition get (id : Z) (t : CapabilityTable) : option CapabilityRec := capabilities t !! id.
Definition get_by_handle (h : Z) (t : CapabilityTable) : option CapabilityRec := i ← handles t !! h; capabilities t !! i.
Definition grants (r required : CapRights) : bool :=
  (negb (r_read required) || r_read r) && (negb (r_write required) || r_write r) && (negb (r_execute required) || r_execute r) &&
  (negb (r_share required) || r_share r) && (negb (r_transfer required) || r_transfer r).
Definition check (id : Z) (required : CapRights) (t : CapabilityTable) : bool :=
  match capabilities t !! id with Some c => grants (rights c) required | None => false end.
Definition add_child (ch : Z) (c : CapabilityRec) : CapabilityRec :=
  mkCap (cap_id c) (resource_type c) (resource_id c) (rights c) (owner c) (generation c) (user_handle c) (handle_generation c)
    (kind c) (children c ++ [ch]).
(** The five early returns of [derive]. *)
Definition exceeds (sub r : CapRights) : bool :=
  (r_read sub && negb (r_read r)) || (r_write sub && negb (r_write r)) || (r_execute sub && negb (r_execute r)) ||
  (r_share sub && negb (r_share r)) || (r_transfer sub && negb (r_transfer r)).
Definition derive (parent_id : Z) (sub : CapRights) (t : CapabilityTable) : CapabilityTable * option Z :=
  match capabilities t !! parent_id with
  | None => (t, None)
  | Some parent =>
      if exceeds sub (rights parent) then (t, None)
      else
        let child_id := next_cap_id t in
        let '(t, handle) := allocate_handle (bump_id t) in
        let child := mkCap child_id (resource_type parent) (resource_id parent) sub (process_id t) (u32_add (generation parent) 1)
                       handle (Z.max (u32_sat_add (handle_generation parent) 1) 1) (kind parent) [] in
        let t := mkTable (process_id t) (alter (add_child child_id) parent_id (capabilities t)) (handles t) (next_cap_id t) (next_handle t) in
        (put_cap handle child t, Some child_id)
  end.
Definition drop_cap (id : Z) (c : CapabilityRec) (t : CapabilityTable) : CapabilityTable :=
  mkTable (process_id t) (delete id (capabilities t)) (delete (user_handle c) (handles t)) (next_cap_id t) (next_handle t).
Fixpoint revoke_rec (fuel : nat) (id : Z) (t : CapabilityTable) : CapabilityTable * bool :=
  match fuel with
  | O => (t, false)
  | S f =>
      match capabilities t !! id with
      | Some c => (foldl (fun t ch => (revoke_rec f ch t).1) (drop_cap id c t) (children c), true)
      | None => (t, false)
      end
  end.
Definition revoke (id : Z) (t : CapabilityTable) : CapabilityTable * bool := revoke_rec (S (size (capabilities t))) id t.
Definition table_revoke_handle (h : Z) (t : CapabilityTable) : CapabilityTable * bool :=
  match handles t !! h with None => (t, false) | Some id => revoke id t end.
Definition transfer (id target_pid : Z) (t : CapabilityTable) : CapabilityTable * option CapabilityRec :=
  match capabilities t !! id with
  | None => (t, None)
  | Some c =>
      let t' := drop_cap id c t in
      if negb (r_transfer (rights c)) then
        (mkTable (process_id t') (<[id := c]> (capabilities t')) (<[user_handle c := id]> (handles t')) (next_cap_id t') (next_handle t'), None)
      else
        (t', Some (mkCap (cap_id c) (resource_type c) (resource_id c) (rights c) target_pid (u32_sat_add (generation c) 1)
                     (user_handle c) (handle_generation c) (kind c) (children c)))
  end.
Definition insert_transferred_capability (c : CapabilityRec) (t : CapabilityTable) : CapabilityTable * Z :=
  let '(t, handle) := allocate_handle t in
  (put_cap handle (mkCap (cap_id c) (resource_type c) (resource_id c) (rights c) (process_id t) (generation c) handle
                     (Z.max (u32_sat_add (handle_generation c) 1) 1) (kind c) (children c)) t, handle).

(** ** All processes *)
Definition table_of (pid : Z) (T : gmap Z CapabilityTable) : CapabilityTable := default (table_new pid) (T !! pid).
Definition init_process (pid : Z) (T : gmap Z CapabilityTable) : gmap Z CapabilityTable := <[pid := table_of pid T]> T.
Definition create_capability (pid : Z) (rt : ResourceType) (rid : Z) (rs : CapRights) (T : gmap Z CapabilityTable)
  : gmap Z CapabilityTable * option Z :=
  match T !! pid with
  | None => (T, None)
  | Some t => let '(t, id) := create rt rid rs t in (<[pid := t]> T, Some id)
  end.
Definition check_capability (pid id : Z) (rs : CapRights) (T : gmap Z CapabilityTable) : bool :=
  match T !! pid with Some t => check id rs t | None => false end.
Definition derive_capability (pid parent : Z) (sub : CapRights) (T : gmap Z CapabilityTable) : gmap Z CapabilityTable * option Z :=
  match T !! pid with
  | None => (T, None)
  | Some t => let '(t, r) := derive parent sub t in (<[pid := t]> T, r)
  end.
Definition revoke_capability (pid id : Z) (T : gmap Z CapabilityTable) : gmap Z CapabilityTable * bool :=
  match T !! pid with
  | None => (T, false)
  | Some t => let '(t, r) := revoke id t in (<[pid := t]> T, r)
  end.
Definition transfer_capability (from_pid id to_pid : Z) (T : gmap Z CapabilityTable) : gmap Z CapabilityTable * bool :=
  match T !! from_pid with
  | None => (T, false)
  | Some t =>
      let '(t, o) := transfer id to_pid t in
      let T := <[from_pid := t]> T in
      match o with
      | Some c => (<[to_pid := (insert_transferred_capability c (table_of to_pid T)).1]> T, true)
      | None => (T, false)
      end
  end.
Definition cleanup_process (pid : Z) (T : gmap Z CapabilityTable) : gmap Z CapabilityTable := delete pid T.
Definition seal_capability (pid id : Z) (T : gmap Z CapabilityTable) : bool :=
  match T !! pid ≫= get id with Some c => negb (r_transfer (rights c)) | None => false end.
(** Create a capability in the process's table, which is made if missing, and
    return its handle; [None] is the panic of [expect]. *)
Definition open_handle (pid : Z) (rt : ResourceType) (rid : Z) (rs : CapRights) (k : CapabilityKind) (T : gmap Z CapabilityTable)
  : gmap Z CapabilityTable * option Z :=
  let '(t, id) := create_with_kind rt rid rs k (table_of pid T) in
  (<[pid := t]> T, user_handle <$> get id t).
Definition open_service_handle (pid service_id : Z) (rs : CapRights) (endpoint_generation : Z) (owner_endpoint : option Z)
  (T : gmap Z CapabilityTable) : gmap Z CapabilityTable * option Z :=
  open_handle pid Service service_id rs (KService (mkService service_id endpoint_generation owner_endpoint)) T.
Definition grant_request_handle (pid request_id service_id endpoint_generation : Z) (owner_endpoint : option Z)
  (T : gmap Z CapabilityTable) : gmap Z CapabilityTable * option Z :=
  open_handle pid Service service_id READ_WRITE (KRequest (mkRequest request_id service_id endpoint_generation owner_endpoint)) T.
Definition grant_shared_region_handle (pid region_id region_generation len : Z) (writable : bool) (T : gmap Z CapabilityTable)
  : gmap Z CapabilityTable * option Z :=
  open_handle pid Memory region_id (if writable then READ_WRITE else READ)
    (KSharedRegion (mkRegion region_id region_generation len writable)) T.
Definition revoke_handle (pid h : Z) (T : gmap Z CapabilityTable) : gmap Z CapabilityTable * (CapabilityError + unit) :=
  match T !! pid with
  | None => (T, inl ProcessNotInitialized)
  | Some t => let '(t, r) := table_revoke_handle h t in (<[pid := t]> T, if r then inr tt else inl InvalidHandle)
  end.
Definition require_rights (c : CapabilityRec) (rs : CapRights) : bool := negb (exceeds rs (rights c)).
Definition find_handle (pid h : Z) (T : gmap Z CapabilityTable) : CapabilityError + CapabilityRec :=
  match T !! pid with
  | None => inl ProcessNotInitialized
  | Some t => match get_by_handle h t with None => inl InvalidHandle | Some c => inr c end
  end.
Definition resolve_service_handle (pid h : Z) (rs : CapRights) (T : gmap Z CapabilityTable) : CapabilityError + ServiceCapabilityRecord :=
  match find_handle pid h T with
  | inl e => inl e
  | inr c => if negb (require_rights c rs) then inl RightsDenied else match kind c with KService r => inr r | _ => inl WrongKind end
  end.
Definition resolve_request_handle (pid h : Z) (T : gmap Z CapabilityTable) : CapabilityError + RequestCapabilityRecord :=
  match find_handle pid h T with
  | inl e => inl e
  | inr c => match kind c with KRequest r => inr r | _ => inl WrongKind end
  end.
Definition resolve_shared_region_handle (pid h : Z) (rs : CapRights) (T : gmap Z CapabilityTable) : CapabilityError + SharedRegionCapabilityRecord :=
  match find_handle pid h T with
  | inl e => inl e
  | inr c => if negb (require_rights c rs) then inl RightsDenied else match kind c with KSharedRegion r => inr r | _ => inl WrongKind end
  end.

(** ** Rights *)
Definition rights_le (a b : CapRights) : Prop :=
  (r_read a = true -> r_read b = true) /\ (r_write a = true -> r_write b = true) /\ (r_execute a = true -> r_execute b = true) /\
  (r_share a = true -> r_share b = true) /\ (r_transfer a = true -> r_transfer b = true).
Lemma rights_le_trans a b c : rights_le a b -> rights_le b c -> rights_le a c.
Proof. unfold rights_le. tauto. Qed.
Lemma rights_le_refl a : rights_le a a.
Proof. unfold rights_le. tauto. Qed.
Lemma bool_le x y : x && negb y = false <-> (x = true -> y = true).
Proof. destruct x, y; naive_solver. Qed.
Lemma exceeds_le a b : exceeds a b = false <-> rights_le a b.
Proof. unfold exceeds, rights_le. rewrite !orb_false_iff, !bool_le. tauto. Qed.
Lemma exceeds_grants r q : exceeds q r = negb (grants r q).
Proof. unfold exceeds, grants. rewrite !negb_andb, !negb_orb. by rewrite !negb_involutive. Qed.
Lemma grants_le r q : grants r q = true <-> rights_le q r.
Proof. rewrite <-exceeds_le, exceeds_grants. by destruct (grants r q). Qed.

(** ** Revocation *)
Definition edge (m : gmap Z CapabilityRec) (a b : Z) : Prop := exists c, m !! a = Some c /\ b ∈ children c.
Definition increasing (m : gmap Z CapabilityRec) : Prop := forall a b, edge m a b -> a < b.
Definition consistent (t : CapabilityTable) : Prop :=
  (forall i c, capabilities t !! i = Some c -> handles t !! user_handle c = Some i) /\
  (forall h i, handles t !! h = Some i -> exists c, capabilities t !! i = Some c /\ user_handle c = h).
(** [t'] is [t] without capabilities reachable from [S], and without all of them. *)
Record pruned (S : list Z) (t t' : CapabilityTable) : Prop := {
  pr_all s j : s ∈ S -> rtc (edge (capabilities t)) s j -> capabilities t' !! j = None;
  pr_only j : capabilities t' !! j = capabilities t !! j \/
    (capabilities t' !! j = None /\ exists s, s ∈ S /\ rtc (edge (capabilities t)) s j);
  pr_frame : process_id t' = process_id t /\ next_cap_id t' = next_cap_id t /\ next_handle t' = next_handle t;
  pr_handles h : handles t' !! h = handles t !! h \/ handles t' !! h = None;
  pr_consistent : consistent t -> consistent t' }.
Lemma pruned_sub S t t' j c : pruned S t t' -> capabilities t' !! j = Some c -> capabilities t !! j = Some c.
Proof. intros H Hj. destruct (pr_only _ _ _ H j) as [<-|[E _]]; [done|congruence]. Qed.
Lemma pruned_path S t t' a b : pruned S t t' -> rtc (edge (capabilities t')) a b -> rtc (edge (capabilities t)) a b.
Proof.
  intros H. induction 1 as [|a b c (x & Hx & Hb) _ IH]; [constructor|]. econstructor; [|exact IH].
  exists x. split; [by eapply pruned_sub|done].
Qed.
Lemma pruned_increasing S t t' : pruned S t t' -> increasing (capabilities t) -> increasing (capabilities t').
Proof. intros H Hi a b (c & Hc & Hb). apply Hi. exists c. split; [by eapply pruned_sub|done]. Qed.
Lemma pruned_size S t t' : pruned S t t' -> (size (capabilities t') <= size (capabilities t))%nat.
Proof. intros H. apply map_subseteq_size, map_subseteq_spec. intros i c. by apply (pruned_sub S). Qed.
Lemma pruned_nil t : pruned [] t t.
Proof. split; try done; try (by left). intros s j Hs. inversion Hs. Qed.
Lemma pruned_app A B t t1 t2 : pruned A t t1 -> pruned B t1 t2 -> pruned (A ++ B) t t2.
Proof.
  intros H1 H2. assert (forall j, capabilities t1 !! j = None -> capabilities t2 !! j = None) as Hn.
  { intros j Hj. by destruct (pr_only _ _ _ H2 j) as [->|[? _]]. }
  split.
  - intros s j Hs Hp. apply elem_of_app in Hs as [Hs|Hs]; [by apply Hn, (pr_all _ _ _ H1 s)|].
    assert (rtc (edge (capabilities t1)) s j \/ capabilities t1 !! j = None) as [Hr|Hr]; [|by apply (pr_all _ _ _ H2 s)|by apply Hn].
    clear Hs. induction Hp as [|a b c Hab Hbc IH]; [left; constructor|]. destruct Hab as (x & Hx & Hb).
    destruct (pr_only _ _ _ H1 a) as [E|[_ (z & Hz & Hza)]].
    + destruct IH as [IH|IH]; [left|by right]. econstructor; [|exact IH]. exists x. split; [congruence|done].
    + right. apply (pr_all _ _ _ H1 z); [done|]. etransitivity; [exact Hza|]. econstructor; [by exists x|done].
  - intros j. destruct (pr_only _ _ _ H2 j) as [->|[E2 (s & Hs & Hp)]].
    + destruct (pr_only _ _ _ H1 j) as [->|[E1 (s & Hs & Hp)]]; [by left|]. right. split; [done|]. exists s. rewrite elem_of_app. auto.
    + right. split; [done|]. exists s. rewrite elem_of_app. split; [by right|]. by eapply pruned_path.
  - destruct (pr_frame _ _ _ H1) as (? & ? & ?), (pr_frame _ _ _ H2) as (? & ? & ?). split_and!; congruence.
  - intros h. destruct (pr_handles _ _ _ H2 h) as [->|?]; [apply (pr_handles _ _ _ H1)|by right].
  - intros Hc. by apply (pr_consistent _ _ _ H2), (pr_consistent _ _ _ H1).
Qed.
Lemma drop_consistent id c t : capabilities t !! id = Some c -> consistent t -> consistent (drop_cap id c t).
Proof.
  intros Hc [H1 H2]. split; cbn.
  - intros i d. rewrite lookup_delete_Some. intros [Hne Hd]. rewrite lookup_delete_ne; [by apply H1|].
    intros E. apply H1 in Hc, Hd. congruence.
  - intros h i. rewrite lookup_delete_Some. intros [Hne Hh]. destruct (H2 _ _ Hh) as (d & Hd & Hu). exists d. split; [|done].
    rewrite lookup_delete_ne; [done|]. intros ->. congruence.
Qed.
(** Dropping a capability and pruning below its children prunes below it. *)
Lemma pruned_step id c t t' : capabilities t !! id = Some c -> increasing (capabilities t) ->
  pruned (children c) (drop_cap id c t) t' -> pruned [id] t t'.
Proof.
  intros Hc Hi H. assert (forall a b, id < a -> rtc (edge (capabilities t)) a b -> rtc (edge (capabilities (drop_cap id c t))) a b) as Hlift.
  { intros a b Ha Hp. induction Hp as [|a b d Hab _ IH]; [constructor|]. pose proof (Hi a b Hab). destruct Hab as (x & Hx & Hb).
    econstructor; [|apply IH; lia]. exists x. split; [|done]. cbn. rewrite lookup_delete_ne by lia. done. }
  assert (capabilities t' !! id = None) as Hid.
  { destruct (pr_only _ _ _ H id) as [->|[? _]]; [|done]. cbn. by rewrite lookup_delete_eq. }
  split.
  - intros s j Hs Hp. apply list_elem_of_singleton in Hs as ->. inversion Hp as [|a b d Hab Hbd]; subst; [done|].
    pose proof (Hi _ _ Hab). destruct Hab as (x & Hx & Hb). simplify_eq. apply (pr_all _ _ _ H b); [done|]. by apply Hlift.
  - intros j. destruct (decide (j = id)) as [->|Hne]; [right; split; [done|]; exists id; split; [constructor|constructor]|].
    destruct (pr_only _ _ _ H j) as [->|[E (s & Hs & Hp)]]; cbn.
    + left. by rewrite lookup_delete_ne.
    + right. split; [done|]. exists id. split; [constructor|]. econstructor; [by exists c|].
      clear -Hp. induction Hp as [|a b d (x & Hx & Hb) _ IH]; [constructor|]. econstructor; [|exact IH]. exists x. cbn in Hx.
      apply lookup_delete_Some in Hx as [_ Hx]. done.
  - destruct (pr_frame _ _ _ H) as (? & ? & ?). done.
  - intros h. destruct (pr_handles _ _ _ H h) as [->|?]; [|by right]. cbn. destruct (decide (h = user_handle c)) as [->|];
      [right; apply lookup_delete_eq|left; by rewrite lookup_delete_ne].
  - intros Hk. apply (pr_consistent _ _ _ H). by apply drop_consistent.
Qed.
Lemma revoke_rec_pruned f id t : (size (capabilities t) <= f)%nat -> increasing (capabilities t) ->
  pruned [id] t (revoke_rec f id t).1 /\ ((0 < f)%nat -> (revoke_rec f id t).2 = bool_decide (is_Some (capabilities t !! id))).
Proof.
  revert id t. induction f as [|f IH]; intros id t Hs Hi; cbn [revoke_rec].
  all: destruct (capabilities t !! id) as [c|] eqn:Hc.
  2, 4: split; [split; try done; try (by left); intros s j Hs' Hp; apply list_elem_of_singleton in Hs' as ->;
    inversion Hp as [|a b d (x & Hx & _) _]; subst; [done|congruence]|done].
  { assert (capabilities t = ∅) as E by (apply map_size_empty_iff; lia). rewrite E in Hc. by rewrite lookup_empty in Hc. }
  cbn [fst snd]. split; [|done]. apply (pruned_step id c); [done|done|].
  assert (size (capabilities (drop_cap id c t)) <= f)%nat as Hs'.
  { cbn. rewrite map_size_delete, Hc. lia. }
  assert (increasing (capabilities (drop_cap id c t))) as Hi'.
  { intros a b (x & Hx & Hb). cbn in Hx. apply lookup_delete_Some in Hx as [_ Hx]. apply Hi. by exists x. }
  clear Hc Hs Hi. revert Hs' Hi'. generalize (drop_cap id c t) as u. generalize (children c) as l.
  induction l as [|ch l IHl]; intros u Hs Hi; cbn [foldl]; [apply pruned_nil|]. destruct (IH ch u Hs Hi) as [Hp _].
  apply (pruned_app [ch] l _ _ _ Hp). apply IHl; [|by eapply pruned_increasing]. pose proof (pruned_size _ _ _ Hp). lia.
Qed.

(** ** Histories of one table *)
Inductive top :=
| TCreate (rt : ResourceType) (rid : Z) (rs : CapRights) (k : CapabilityKind) | TDerive (parent : Z) (sub : CapRights)
| TRevoke (id : Z) | TRevokeHandle (h : Z) | TTransfer (id target : Z).
Definition texec (o : top) (t : CapabilityTable) : CapabilityTable :=
  match o with
  | TCreate rt rid rs k => (create_with_kind rt rid rs k t).1
  | TDerive p sub => (derive p sub t).1
  | TRevoke id => (revoke id t).1
  | TRevokeHandle h => (table_revoke_handle h t).1
  | TTransfer id target => (transfer id target t).1
  end.
Definition trun (os : list top) (t : CapabilityTable) : CapabilityTable := foldl (fun t o => texec o t) t os.
Record tab_ok (n : Z) (t : CapabilityTable) : Prop := {
  tk_id i c : capabilities t !! i = Some c -> cap_id c = i /\ 1 <= i < next_cap_id t;
  tk_handle h i : handles t !! h = Some i -> 1 <= h < next_handle t;
  tk_consistent : consistent t;
  tk_children i c j : capabilities t !! i = Some c -> j ∈ children c -> i < j < next_cap_id t;
  tk_next : 1 <= next_cap_id t <= n /\ 1 <= next_handle t <= n }.
Lemma tab_increasing n t : tab_ok n t -> increasing (capabilities t).
Proof. intros H a b (c & Hc & Hb). apply (tk_children n t H a c b) in Hb; [lia|done]. Qed.
Lemma tab_new_ok pid : tab_ok 1 (table_new pid).
Proof. split; cbn; [intros *; by rewrite lookup_empty|intros *; by rewrite lookup_empty| |intros *; by rewrite lookup_empty|lia]. split; cbn; intros *; by rewrite lookup_empty. Qed.
Lemma tab_ok_weaken n n' t : n <= n' -> tab_ok n t -> tab_ok n' t.
Proof. intros Hn [H1 H2 H3 H4 H5]. split; try done. lia. Qed.
Lemma revoke_pruned id n t : tab_ok n t -> pruned [id] t (revoke id t).1 /\ (revoke id t).2 = bool_decide (is_Some (capabilities t !! id)).
Proof. intros H. destruct (revoke_rec_pruned (S (size (capabilities t))) id t) as [H1 H2]; [lia|by eapply tab_increasing|]. split; [done|]. apply H2. lia. Qed.
Lemma pruned_tab_ok S n t t' : tab_ok n t -> pruned S t t' -> tab_ok n t'.
Proof.
  intros [H1 H2 H3 H4 H5] Hp. destruct (pr_frame _ _ _ Hp) as (_ & E1 & E2). split; rewrite ?E1, ?E2; [| |by apply (pr_consistent _ _ _ Hp)| |done].
  - intros i c Hc. apply (pruned_sub _ _ _ _ _ Hp) in Hc. by apply H1.
  - intros h i Hh. destruct (pr_handles _ _ _ Hp h) as [E|E]; [apply (H2 h i); congruence|congruence].
  - intros i c j Hc. apply (pruned_sub _ _ _ _ _ Hp) in Hc. by apply H4.
Qed.
Lemma drop_tab_ok n id c t : capabilities t !! id = Some c -> tab_ok n t -> tab_ok n (drop_cap id c t).
Proof.
  intros Hc [H1 H2 H3 H4 H5]. split; cbn; [| |by apply drop_consistent| |done].
  - intros i d Hd. apply lookup_delete_Some in Hd as [_ Hd]. by apply H1.
  - intros h i Hh. apply lookup_delete_Some in Hh as [_ Hh]. by apply (H2 h i).
  - intros i d j Hd. apply lookup_delete_Some in Hd as [_ Hd]. by apply H4.
Qed.
(** Restoring a capability that may not be transferred gives the table back. *)
Lemma transfer_refused id target n t c : tab_ok n t -> capabilities t !! id = Some c -> r_transfer (rights c) = false -> transfer id target t = (t, None).
Proof.
  intros H Hc Hr. unfold transfer. rewrite Hc, Hr. cbn. destruct (tk_consistent n t H) as [H1 _]. specialize (H1 _ _ Hc).
  rewrite !insert_delete_eq. by rewrite !insert_id by done; destruct t.
Qed.
(** A fresh capability under a fresh handle. *)
Lemma put_fresh_ok n t c : n < u32_mod - 1 -> tab_ok n t -> cap_id c = next_cap_id t -> user_handle c = next_handle t -> children c = [] ->
  tab_ok (n + 1) (put_cap (user_handle c) c (allocate_handle (bump_id t)).1).
Proof.
  intros Hn [H1 H2 [H3 H3'] H4 H5] Ei Eh Ec. unfold u32_mod in Hn. unfold put_cap, allocate_handle, bump_id. cbn [fst process_id capabilities handles next_cap_id next_handle].
  assert (u64_add (next_cap_id t) 1 = next_cap_id t + 1) as E1 by (apply u64_add_small; unfold u64_mod; lia).
  assert (Z.max (u32_sat_add (next_handle t) 1) 1 = next_handle t + 1) as E2 by (unfold u32_sat_add, u32_max, u32_mod; lia).
  split; cbn [process_id capabilities handles next_cap_id next_handle]; rewrite ?E1, ?E2, ?Ei, ?Eh.
  - intros i d. rewrite lookup_insert_Some. intros [[<- <-]|[_ Hd]]; [split; [done|lia]|]. specialize (H1 _ _ Hd). lia.
  - intros h i. rewrite lookup_insert_Some. intros [[<- <-]|[_ Hh]]; [lia|]. specialize (H2 _ _ Hh). lia.
  - split; cbn.
    + intros i d. rewrite lookup_insert_Some. intros [[<- <-]|[_ Hd]]; [rewrite Eh; apply lookup_insert_eq|].
      pose proof (H3 _ _ Hd) as Hk. rewrite lookup_insert_ne; [done|]. specialize (H2 _ _ Hk). lia.
    + intros h i. rewrite lookup_insert_Some. intros [[<- <-]|[Hne Hh]]; [exists c; by rewrite lookup_insert_eq|].
      destruct (H3' _ _ Hh) as (d & Hd & Hu). exists d. split; [|done]. rewrite lookup_insert_ne; [done|]. specialize (H1 _ _ Hd). lia.
  - intros i d j. rewrite lookup_insert_Some. intros [[<- <-]|[_ Hd]] Hj; [rewrite Ec in Hj; inversion Hj|]. specialize (H4 _ _ _ Hd Hj). lia.
  - lia.
Qed.
Lemma transfer_table id target n t : tab_ok n t ->
  (transfer id target t).1 = t \/ exists c, capabilities t !! id = Some c /\ (transfer id target t).1 = drop_cap id c t.
Proof.
  intros Ht. destruct (capabilities t !! id) as [c|] eqn:E; [|left; unfold transfer; by rewrite E].
  destruct (r_transfer (rights c)) eqn:Er; [|left; by rewrite (transfer_refused id target n t c)].
  right. exists c. split; [done|]. unfold transfer. by rewrite E, Er.
Qed.
Definition link_child (p ch : Z) (t : CapabilityTable) : CapabilityTable :=
  mkTable (process_id t) (alter (add_child ch) p (capabilities t)) (handles t) (next_cap_id t) (next_handle t).
Lemma link_lookup p ch t i d : capabilities (link_child p ch t) !! i = Some d ->
  exists c, capabilities t !! i = Some c /\ (d = c \/ (i = p /\ d = add_child ch c)).
Proof. cbn. rewrite lookup_alter_Some. intros [(-> & c & Hc & ->)|[_ Hd]]; eauto. Qed.
Lemma link_child_ok n p ch t : tab_ok n t -> p < ch < next_cap_id t -> tab_ok n (link_child p ch t).
Proof.
  intros [H1 H2 [H3 H3'] H4 H5] Hch. split; [|done| | |done].
  - intros i d Hd. destruct (link_lookup _ _ _ _ _ Hd) as (c & Hc & [->|[_ ->]]); [by apply H1|cbn; by apply H1].
  - split.
    + intros i d Hd. destruct (link_lookup _ _ _ _ _ Hd) as (c & Hc & [->|[_ ->]]); cbn; by apply H3.
    + intros h i Hh. destruct (H3' _ _ Hh) as (c & Hc & Hu). cbn. destruct (decide (p = i)) as [->|].
      * exists (add_child ch c). rewrite lookup_alter_eq, Hc. done.
      * exists c. by rewrite lookup_alter_ne.
  - intros i d j Hd Hj. destruct (link_lookup _ _ _ _ _ Hd) as (c & Hc & [->|[-> ->]]); [by eapply H4|].
    cbn in *. apply elem_of_app in Hj as [Hj|Hj]; [by eapply H4|]. apply list_elem_of_singleton in Hj as ->. done.
Qed.
(** [derive] on a capability it accepts: a fresh capability, linked to its parent. *)
Definition child_of (parent : CapabilityRec) (sub : CapRights) (t : CapabilityTable) : CapabilityRec :=
  mkCap (next_cap_id t) (resource_type parent) (resource_id parent) sub (process_id t) (u32_add (generation parent) 1)
    (Z.max (next_handle t) 1) (Z.max (u32_sat_add (handle_generation parent) 1) 1) (kind parent) [].
Lemma derive_eq p sub t parent : capabilities t !! p = Some parent -> exceeds sub (rights parent) = false -> p <> next_cap_id t ->
  derive p sub t = (link_child p (next_cap_id t) (put_cap (Z.max (next_handle t) 1) (child_of parent sub t) (allocate_handle (bump_id t)).1),
                    Some (next_cap_id t)).
Proof.
  intros Hp He Hne. unfold derive. rewrite Hp, He. unfold link_child, put_cap, allocate_handle, bump_id, child_of. cbn. do 2 f_equal.
  apply map_eq. intros i. destruct (decide (i = next_cap_id t)) as [->|].
  - by rewrite lookup_insert_eq, lookup_alter_ne, lookup_insert_eq.
  - rewrite lookup_insert_ne by done. destruct (decide (i = p)) as [->|]; [rewrite !lookup_alter_eq, lookup_insert_ne by done; done|].
    rewrite !lookup_alter_ne by done. by rewrite lookup_insert_ne.
Qed.
Lemma texec_ok o n t : n < u32_mod - 1 -> tab_ok n t -> tab_ok (n + 1) (texec o t).
Proof.
  intros Hn Ht. pose proof (tk_next _ _ Ht) as [Hc Hh]. destruct o as [rt rid rs k|p sub|id|h|id target]; cbn [texec].
  - unfold create_with_kind. cbn. rewrite Z.max_l by lia. by apply (put_fresh_ok n t (mkCap (next_cap_id t) rt rid rs (process_id t) 0 (next_handle t) 1 k [])).
  - destruct (capabilities t !! p) as [parent|] eqn:Hp; [|unfold derive; rewrite Hp; eapply tab_ok_weaken; [|done]; lia].
    destruct (exceeds sub (rights parent)) eqn:He; [unfold derive; rewrite Hp, He; eapply tab_ok_weaken; [|done]; lia|].
    pose proof (tk_id _ _ Ht _ _ Hp) as [_ Hr]. rewrite (derive_eq p sub t parent) by (done || lia). cbn [fst].
    change (Z.max (next_handle t) 1) with (user_handle (child_of parent sub t)). apply link_child_ok; [apply (put_fresh_ok n t (child_of parent sub t)); try done; cbn; lia|].
    cbn. rewrite u64_add_small by (unfold u64_mod, u32_mod in *; lia). lia.
  - eapply tab_ok_weaken; [|eapply pruned_tab_ok; [done|by apply (revoke_pruned id n)]]. lia.
  - unfold table_revoke_handle. destruct (handles t !! h) as [id|]; eapply tab_ok_weaken; [|eapply pruned_tab_ok; [done|by apply (revoke_pruned id n)]| |done]; lia.
  - eapply (tab_ok_weaken n); [lia|]. destruct (transfer_table id target n t Ht) as [->|(c & Hi & ->)]; [done|by apply drop_tab_ok].
Qed.
Lemma trun_ok os n t : n + Z.of_nat (length os) < u32_mod -> tab_ok n t -> tab_ok (n + Z.of_nat (length os)) (trun os t).
Proof.
  revert n t. induction os as [|o os IH]; intros n t Hn Ht; [cbn; by rewrite Z.add_0_r|]. cbn [length] in *.
  replace (n + Z.of_nat (S (length os))) with ((n + 1) + Z.of_nat (length os)) by lia. apply IH; [lia|]. apply texec_ok; [lia|done].
Qed.


(** ** Dead handles *)
Definition dead (h : Z) (t : CapabilityTable) : Prop := handles t !! h = None /\ h < next_handle t.
Lemma texec_dead o h n t : n < u32_mod - 1 -> tab_ok n t -> dead h t -> dead h (texec o t).
Proof.
  intros Hn Ht [Hd Hl]. pose proof (tk_next _ _ Ht) as [Hc Hh].
  assert (forall S t', pruned S t t' -> dead h t') as Hprune.
  { intros S t' Hp. destruct (pr_frame _ _ _ Hp) as (_ & _ & E). split; [|lia]. destruct (pr_handles _ _ _ Hp h) as [->|?]; done. }
  assert (forall c, dead h (put_cap (Z.max (next_handle t) 1) c (allocate_handle (bump_id t)).1)) as Hput.
  { intros c. split; cbn; [rewrite lookup_insert_ne by lia; done|]. unfold u32_sat_add, u32_max, u32_mod in *. lia. }
  destruct o as [rt rid rs k|p sub|id|g|id target]; cbn [texec].
  - apply Hput.
  - destruct (capabilities t !! p) as [parent|] eqn:Hp; [|unfold derive; by rewrite Hp].
    destruct (exceeds sub (rights parent)) eqn:He; [unfold derive; by rewrite Hp, He|].
    pose proof (tk_id _ _ Ht _ _ Hp) as [_ Hr]. rewrite (derive_eq p sub t parent) by (done || lia). apply (Hput (child_of parent sub t)).
  - apply (Hprune [id]). by apply (revoke_pruned id n).
  - unfold table_revoke_handle. destruct (handles t !! g) as [id|]; [|done]. apply (Hprune [id]). by apply (revoke_pruned id n).
  - destruct (transfer_table id target n t Ht) as [->|(c & Hi & ->)]; [done|]. split; cbn; [|done]. apply lookup_delete_None. by right.
Qed.
(** A revoked handle stays revoked.  Once a handle has been revoked in the
    table of a process, no later creation, derivation, revocation or transfer
    out of the table brings it back: it resolves to nothing for good (handle
    numbers last for 2^32 - 1 operations). *)
Theorem revoked_stays_revoked os os' pid h : Z.of_nat (length os) + Z.of_nat (length os') + 2 < u32_mod ->
  let t := trun os (table_new pid) in
  (table_revoke_handle h t).2 = true ->
  get_by_handle h (trun os' (table_revoke_handle h t).1) = None.
Proof.
  intros Hn t Hr. assert (tab_ok (1 + Z.of_nat (length os)) t) as Ht by (apply trun_ok; [lia|apply tab_new_ok]).
  assert (dead h (table_revoke_handle h t).1) as Hd.
  { unfold table_revoke_handle in *. destruct (handles t !! h) as [id|] eqn:Hh; [|done].
    destruct (revoke_pruned id _ t Ht) as [Hp Hb]. destruct (pr_frame _ _ _ Hp) as (_ & _ & E). split.
    - destruct (tk_consistent _ _ Ht) as [_ Hk]. destruct (pr_consistent _ _ _ Hp (tk_consistent _ _ Ht)) as [_ Hk'].
      destruct (handles (revoke id t).1 !! h) as [j|] eqn:Ej; [|done]. destruct (Hk' _ _ Ej) as (c & Hc & _).
      destruct (pr_handles _ _ _ Hp h) as [G|G]; [|congruence]. assert (j = id) as -> by congruence.
      rewrite (pr_all _ _ _ Hp id id) in Hc; [done|constructor|constructor].
    - rewrite E. by apply (tk_handle _ _ Ht h id). }
  assert (tab_ok (1 + Z.of_nat (length os) + 1) (table_revoke_handle h t).1) as Hk by (apply (texec_ok (TRevokeHandle h)); [lia|done]).
  clear Hr Ht. revert Hd Hk. generalize (table_revoke_handle h t).1 as u. clear t. assert (1 + Z.of_nat (length os) + 1 + Z.of_nat (length os') < u32_mod) as Hb by lia.
  revert Hb. generalize (1 + Z.of_nat (length os) + 1) as n. clear Hn os. induction os' as [|o os IH]; intros n Hb u Hd Hk.
  - unfold get_by_handle. cbn. by rewrite (proj1 Hd).
  - cbn [trun foldl length] in *. apply (IH (n + 1)); [lia|by apply (texec_dead o h n); [lia| |]|apply texec_ok; [lia|done]].
Qed.

(** ** The whole system *)
Inductive sop :=
| Init (pid : Z) | Create (pid : Z) (rt : ResourceType) (rid : Z) (rs : CapRights) | Derive (pid parent : Z) (sub : CapRights)
| Revoke (pid id : Z) | RevokeHandle (pid h : Z) | Transfer (from id to : Z) | Cleanup (pid : Z)
| OpenService (pid sid : Z) (rs : CapRights) (g : Z) (o : option Z) | GrantRequest (pid rq sid g : Z) (o : option Z)
| GrantRegion (pid region g len : Z) (w : bool).
Definition sexec (o : sop) (T : gmap Z CapabilityTable) : gmap Z CapabilityTable :=
  match o with
  | Init pid => init_process pid T
  | Create pid rt rid rs => (create_capability pid rt rid rs T).1
  | Derive pid parent sub => (derive_capability pid parent sub T).1
  | Revoke pid id => (revoke_capability pid id T).1
  | RevokeHandle pid h => (revoke_handle pid h T).1
  | Transfer from id to => (transfer_capability from id to T).1
  | Cleanup pid => cleanup_process pid T
  | OpenService pid sid rs g o => (open_service_handle pid sid rs g o T).1
  | GrantRequest pid rq sid g o => (grant_request_handle pid rq sid g o T).1
  | GrantRegion pid region g len w => (grant_shared_region_handle pid region g len w T).1
  end.
Definition srun (os : list sop) : gmap Z CapabilityTable := foldl (fun T o => sexec o T) ∅ os.
(** What an operation grants: resource, kind and rights. *)
Definition granted (o : sop) : option (ResourceType * Z * CapabilityKind * CapRights) :=
  match o with
  | Create _ rt rid rs => Some (rt, rid, Generic, rs)
  | OpenService _ sid rs g o => Some (Service, sid, KService (mkService sid g o), rs)
  | GrantRequest _ rq sid g o => Some (Service, sid, KRequest (mkRequest rq sid g o), READ_WRITE)
  | GrantRegion _ region g len w => Some (Memory, region, KSharedRegion (mkRegion region g len w), if w then READ_WRITE else READ)
  | _ => None
  end.
Definition backed (os : list sop) (c : CapabilityRec) : Prop :=
  exists o rs, o ∈ os /\ granted o = Some (resource_type c, resource_id c, kind c, rs) /\ rights_le (rights c) rs.
Definition table_backed (os : list sop) (t : CapabilityTable) : Prop := forall i c, capabilities t !! i = Some c -> backed os c.
Definition all_backed (os : list sop) (T : gmap Z CapabilityTable) : Prop := forall pid t, T !! pid = Some t -> table_backed os t.
Lemma backed_app os o c : backed os c -> backed (os ++ [o]) c.
Proof. intros (p & rs & Hp & H). exists p, rs. split; [rewrite elem_of_app; by left|done]. Qed.
Lemma insert_backed os pid t T : all_backed os T -> table_backed os t -> all_backed os (<[pid := t]> T).
Proof. intros H Ht p u. rewrite lookup_insert_Some. intros [[<- <-]|[_ Hu]]; [done|by apply (H p)]. Qed.
Lemma table_of_backed os pid T : all_backed os T -> table_backed os (table_of pid T).
Proof. intros H. unfold table_of. destruct (T !! pid) as [t|] eqn:E; [by apply (H pid)|]. intros i c. cbn. by rewrite lookup_empty. Qed.
Lemma put_backed os h c t : table_backed os t -> backed os c -> table_backed os (put_cap h c t).
Proof. intros H Hc i d. cbn. rewrite lookup_insert_Some. intros [[_ <-]|[_ Hd]]; [done|by apply (H i)]. Qed.
Lemma sub_backed os t t' : (forall i c, capabilities t' !! i = Some c -> capabilities t !! i = Some c) -> table_backed os t -> table_backed os t'.
Proof. intros Hs H i c Hc. by apply (H i), Hs. Qed.
Lemma revoke_rec_sub f id t i c : capabilities (revoke_rec f id t).1 !! i = Some c -> capabilities t !! i = Some c.
Proof.
  revert id t. induction f as [|f IH]; intros id t; cbn [revoke_rec]; [done|]. destruct (capabilities t !! id) as [d|]; [|done]. cbn [fst].
  assert (capabilities (drop_cap id d t) !! i = Some c -> capabilities t !! i = Some c) as H0 by (cbn; rewrite lookup_delete_Some; tauto).
  revert H0. generalize (drop_cap id d t) as u. induction (children d) as [|ch l IHl]; intros u H0; cbn [foldl]; [done|].
  apply IHl. intros Hi. by apply H0, (IH ch).
Qed.
Lemma create_backed os rt rid rs k t : table_backed os t -> (exists o, o ∈ os /\ granted o = Some (rt, rid, k, rs)) ->
  table_backed os (create_with_kind rt rid rs k t).1.
Proof.
  intros H (o & Ho & Hg). unfold create_with_kind. cbn. apply put_backed; [done|]. exists o, rs. cbn. split_and!; [done|done|apply rights_le_refl].
Qed.
Lemma derive_backed os p sub t : table_backed os t -> table_backed os (derive p sub t).1.
Proof.
  intros H. unfold derive. destruct (capabilities t !! p) as [parent|] eqn:Hp; [|done]. destruct (exceeds sub (rights parent)) eqn:He; [done|]. cbn.
  destruct (H _ _ Hp) as (o & rs & Ho & Hg & Hr). apply put_backed.
  - intros i c. cbn. rewrite lookup_alter_Some. intros [(-> & d & Hd & ->)|[_ Hc]]; [|by apply (H i)]. destruct (H _ _ Hd) as (o' & rs' & G). by exists o', rs'.
  - exists o, rs. cbn. split_and!; [done|done|]. apply exceeds_le in He. by eapply rights_le_trans.
Qed.
Lemma transfer_backed os id target t : table_backed os t ->
  table_backed os (transfer id target t).1 /\ (forall c, (transfer id target t).2 = Some c -> backed os c).
Proof.
  intros H. unfold transfer. destruct (capabilities t !! id) as [d|] eqn:E; [|done]. destruct (r_transfer (rights d)); cbn [negb fst snd].
  - split; [|intros c [= <-]; destruct (H _ _ E) as (o & rs & G); by exists o, rs]. apply (sub_backed os t); [|done]. intros i c. cbn. rewrite lookup_delete_Some. tauto.
  - split; [|done]. intros i c. cbn. rewrite insert_delete_eq, lookup_insert_Some. intros [[_ <-]|[_ Hc]]; [by apply (H id)|by apply (H i)].
Qed.
Lemma sexec_backed os o T : all_backed os T -> all_backed (os ++ [o]) (sexec o T).
Proof.
  intros H0. assert (all_backed (os ++ [o]) T) as H by (intros p t Ht i c Hc; by apply backed_app, (H0 p t Ht i)). clear H0.
  assert (forall g, granted o = Some g -> exists o', o' ∈ os ++ [o] /\ granted o' = Some g) as Hg.
  { intros g Hg. exists o. split; [rewrite elem_of_app; right; constructor|done]. }
  destruct o; cbn [sexec].
  - apply insert_backed; [done|by apply table_of_backed].
  - unfold create_capability. destruct (T !! pid) as [t|] eqn:E; [|done]. cbn. apply insert_backed; [done|]. apply (create_backed _ rt rid rs Generic); [by apply (H pid)|by apply Hg].
  - unfold derive_capability. destruct (T !! pid) as [t|] eqn:E; [|done]. pose proof (derive_backed _ parent sub t (H _ _ E)) as Hd.
    destruct (derive parent sub t). by apply insert_backed.
  - unfold revoke_capability. destruct (T !! pid) as [t|] eqn:E; [|done]. pose proof (revoke_rec_sub (S (size (capabilities t))) id t) as Hs. unfold revoke.
    destruct (revoke_rec _ id t). apply insert_backed; [done|]. apply (sub_backed _ t); [done|by apply (H pid)].
  - unfold revoke_handle. destruct (T !! pid) as [t|] eqn:E; [|done]. unfold table_revoke_handle, revoke. destruct (handles t !! h) as [id|]; [|by apply insert_backed; [|apply (H pid)]].
    pose proof (revoke_rec_sub (S (size (capabilities t))) id t) as Hs. destruct (revoke_rec _ id t). apply insert_backed; [done|]. apply (sub_backed _ t); [done|by apply (H pid)].
  - unfold transfer_capability. destruct (T !! from) as [t|] eqn:E; [|done]. destruct (transfer_backed _ id to t (H _ _ E)) as [H1 H2].
    destruct (transfer id to t) as [t' [c|]]; cbn [fst snd] in *; [|by apply insert_backed]. assert (all_backed (os ++ [Transfer from id to]) (<[from := t']> T)) as H3 by (by apply insert_backed).
    apply insert_backed; [done|]. cbn. apply put_backed; [by apply table_of_backed|]. destruct (H2 c eq_refl) as (o & rs & G). by exists o, rs.
  - intros p t. unfold cleanup_process. rewrite lookup_delete_Some. intros [_ Ht]. by apply (H p).
  - apply insert_backed; [done|]. apply (create_backed _ Service sid rs); [by apply table_of_backed|by apply Hg].
  - apply insert_backed; [done|]. apply (create_backed _ Service sid READ_WRITE); [by apply table_of_backed|by apply Hg].
  - apply insert_backed; [done|]. apply (create_backed _ Memory region); [by apply table_of_backed|by apply Hg].
Qed.
Lemma srun_backed os : all_backed os (srun os).
Proof.
  induction os as [|o os IH] using rev_ind; [intros p t; cbn; by rewrite lookup_empty|].
  unfold srun. rewrite foldl_app. cbn [foldl]. by apply sexec_backed.
Qed.
Lemma find_backed os pid h c : find_handle pid h (srun os) = inr c -> backed os c.
Proof.
  unfold find_handle, get_by_handle. destruct (srun os !! pid) as [t|] eqn:E; [|done]. destruct (handles t !! h) as [i|]; cbn; [|done].
  destruct (capabilities t !! i) as [d|] eqn:Ec; [|done]. intros [= <-]. by apply (srun_backed os pid t E i).
Qed.

(** The record of a grant determines its resource. *)
Lemma granted_object o rt rid k rs : granted o = Some (rt, rid, k, rs) ->
  match k with
  | Generic => True
  | KService r => granted o = Some (Service, sv_service r, k, rs)
  | KRequest r => granted o = Some (Service, rq_service r, k, rs)
  | KSharedRegion r => granted o = Some (Memory, sr_region r, k, rs)
  end.
Proof. destruct o; cbn; try done; by intros [= <- <- <- <-]. Qed.
(** What a capability is about: resource and kind. *)
Definition object (c : CapabilityRec) : ResourceType * Z * CapabilityKind := (resource_type c, resource_id c, kind c).
Lemma derive_object p sub t t' i : derive p sub t = (t', Some i) ->
  exists c d, capabilities t !! p = Some c /\ capabilities t' !! i = Some d /\ object d = object c /\ rights d = sub /\ exceeds sub (rights c) = false.
Proof.
  unfold derive. destruct (capabilities t !! p) as [c|]; [|done]. destruct (exceeds sub (rights c)) eqn:E; [done|]. intros [= <- <-].
  eexists c, _. split; [done|]. split; [apply lookup_insert_eq|]. done.
Qed.
Lemma transfer_object from id to T T' : transfer_capability from id to T = (T', true) ->
  exists t c t' d, T !! from = Some t /\ capabilities t !! id = Some c /\ T' !! to = Some t' /\ capabilities t' !! cap_id c = Some d /\ object d = object c /\ rights d = rights c.
Proof.
  unfold transfer_capability, transfer. destruct (T !! from) as [t|]; [|done]. destruct (capabilities t !! id) as [c|] eqn:E; [|done]. destruct (r_transfer (rights c)); cbn [negb]; [|done]. intros [= <-].
  eexists t, c, _, _. split; [done|]. split; [done|]. split; [apply lookup_insert_eq|]. split; [apply lookup_insert_eq|]. done.
Qed.

(** C26: Authority comes from grants only.  After any history of creating,
    opening, granting, deriving, transferring and revoking by any processes: a
    capability for which a check of rights succeeds names a resource that an earlier
    operation granted with at least those rights; a service, request or
    region handle that resolves names a service, request or region that was granted, with
    at least those rights; a capability that is derived is about the resource of
    its parent and has no right its parent lacks; and one that is transferred keeps
    resource and rights. *)
Theorem cap_no_forgery os pid h id need :
  let T := srun os in
  (check_capability pid id need T = true -> exists t c o rs, T !! pid = Some t /\ get id t = Some c /\
     o ∈ os /\ granted o = Some (object c, rs) /\ rights_le need rs) /\
  (forall r, resolve_service_handle pid h need T = inr r -> exists o rs, o ∈ os /\ granted o = Some (Service, sv_service r, KService r, rs) /\ rights_le need rs) /\
  (forall r, resolve_request_handle pid h T = inr r -> exists o rs, o ∈ os /\ granted o = Some (Service, rq_service r, KRequest r, rs)) /\
  (forall r, resolve_shared_region_handle pid h need T = inr r -> exists o rs, o ∈ os /\ granted o = Some (Memory, sr_region r, KSharedRegion r, rs) /\ rights_le need rs) /\
  (forall sub T' i, derive_capability pid id sub T = (T', Some i) -> exists t c t' d, T !! pid = Some t /\ get id t = Some c /\ T' !! pid = Some t' /\ get i t' = Some d /\
     object d = object c /\ rights_le (rights d) (rights c)) /\
  (forall to T', transfer_capability pid id to T = (T', true) -> exists t c t' d, T !! pid = Some t /\ get id t = Some c /\ T' !! to = Some t' /\ get (cap_id c) t' = Some d /\
     object d = object c /\ rights d = rights c).
Proof.
  intros T. pose proof (srun_backed os) as H. fold T in H. split_and!.
  - unfold check_capability, check. destruct (T !! pid) as [t|] eqn:E; [|done]. destruct (capabilities t !! id) as [c|] eqn:Ec; [|done].
    intros Hg. apply grants_le in Hg. destruct (H _ _ E _ _ Ec) as (o & rs & Ho & Hgr & Hr). exists t, c, o, rs. split_and!; [done|done|done|done|]. by eapply rights_le_trans.
  - intros r. unfold resolve_service_handle. destruct (find_handle pid h T) as [|c] eqn:E; [done|]. unfold require_rights. destruct (exceeds need (rights c)) eqn:Ex; [done|]. apply exceeds_le in Ex.
    destruct (kind c) eqn:Ek; try done. intros [= ->]. destruct (find_backed os pid h c E) as (o & rs & Ho & Hgr & Hr). rewrite Ek in Hgr. exists o, rs. split_and!; [done| |by eapply rights_le_trans]. exact (granted_object _ _ _ _ _ Hgr).
  - intros r. unfold resolve_request_handle. destruct (find_handle pid h T) as [|c] eqn:E; [done|].
    destruct (kind c) eqn:Ek; try done. intros [= ->]. destruct (find_backed os pid h c E) as (o & rs & Ho & Hgr & Hr). rewrite Ek in Hgr. exists o, rs. split; [done|]. exact (granted_object _ _ _ _ _ Hgr).
  - intros r. unfold resolve_shared_region_handle. destruct (find_handle pid h T) as [|c] eqn:E; [done|]. unfold require_rights. destruct (exceeds need (rights c)) eqn:Ex; [done|]. apply exceeds_le in Ex.
    destruct (kind c) eqn:Ek; try done. intros [= ->]. destruct (find_backed os pid h c E) as (o & rs & Ho & Hgr & Hr). rewrite Ek in Hgr. exists o, rs. split_and!; [done| |by eapply rights_le_trans]. exact (granted_object _ _ _ _ _ Hgr).
  - intros sub T' i. unfold derive_capability. destruct (T !! pid) as [t|] eqn:E; [|done]. destruct (derive id sub t) as [t' r] eqn:Ed. intros [= <- ->]. destruct (derive_object _ _ _ _ _ Ed) as (c & d & Hc & Hd & Ho & <- & Hx). apply exceeds_le in Hx.
    exists t, c, t', d. split_and!; [done|done|apply lookup_insert_eq|done|done|done].
  - intros to T' Ht. by apply transfer_object.
Qed.

(** A transfer can replace a capability of the receiver.  Capability
    numbers are counted per process and a transferred capability keeps its
    number: when the receiver has one of the same number, that one is lost, its
    handle now names the transferred capability, and so does a second, new
    handle. *)
Theorem transfer_clobbers from to id h c d t u (T : gmap Z CapabilityTable) : from <> to ->
  T !! from = Some t -> capabilities t !! id = Some c -> cap_id c = id -> r_transfer (rights c) = true ->
  T !! to = Some u -> handles u !! h = Some id -> capabilities u !! id = Some d -> 1 <= next_handle u -> h <> next_handle u ->
  let '(T', ok) := transfer_capability from id to T in
  ok = true /\ exists u' e, T' !! to = Some u' /\ get_by_handle h u' = Some e /\ get_by_handle (next_handle u) u' = Some e /\
    resource_id e = resource_id c /\ rights e = rights c /\ kind e = kind c /\ resource_type e = resource_type c.
Proof.
  intros Hne Ht Hc Hid Hr Hu Hh Hd Hn Hhn. unfold transfer_capability, transfer. rewrite Ht, Hc, Hr. cbn [negb]. split; [done|].
  assert (table_of to (<[from := drop_cap id c t]> T) = u) as -> by (unfold table_of; by rewrite lookup_insert_ne, Hu).
  unfold insert_transferred_capability. cbn. rewrite Z.max_l by lia. do 2 eexists. split; [apply lookup_insert_eq|]. unfold get_by_handle. cbn. rewrite Hid.
  rewrite lookup_insert_ne, Hh by done. cbn. rewrite lookup_insert_eq. split; [done|]. rewrite lookup_insert_eq. cbn. rewrite lookup_insert_eq. done.
Qed.
(** After such a transfer, revoking the new handle leaves the old one behind; the
    next capability of that number makes it work again. *)
Example stale_handle_revives :
  let T := srun [OpenService 1 10 ALL 0 None; OpenService 2 20 READ 0 None; Transfer 1 1 2; RevokeHandle 2 2] in
  resolve_service_handle 2 1 READ T = inl InvalidHandle /\
  (exists k, resolve_service_handle 2 1 READ (sexec (Transfer 3 1 2) (sexec (OpenService 3 30 ALL k None) T)) = inr (mkService 30 k None)).
Proof. vm_compute. split; [done|]. by exists 7. Qed.
(** Handing a capability away does not take back what was derived from it. *)
Example transferred_child_survives :
  let T := srun [OpenService 1 10 ALL 0 None; Derive 1 1 READ; Transfer 1 1 2; Revoke 2 1] in
  resolve_service_handle 1 2 READ T = inr (mkService 10 0 None).
Proof. vm_compute. done. Qed.

(** ** Witnesses *)
Definition demo_top : list top := [TCreate Service 10 ALL Generic; TDerive 1 READ_WRITE; TDerive 2 READ; TCreate Key 5 ALL Generic].
Lemma revoked_stays_revoked_witness :
  get_by_handle 2 (trun [TCreate Key 6 ALL Generic; TDerive 1 READ] (table_revoke_handle 2 (trun demo_top (table_new 7))).1) = None.
Proof. apply (revoked_stays_revoked demo_top [TCreate Key 6 ALL Generic; TDerive 1 READ] 7 2); vm_compute; reflexivity. Defined.
Lemma cap_no_forgery_witness : (exists o rs, o ∈ [OpenService 1 10 ALL 0 None; Transfer 1 1 2] /\
  granted o = Some (Service, 10, KService (mkService 10 0 None), rs) /\ rights_le READ rs) /\
  exists t c o rs, srun [OpenService 1 10 ALL 0 None; Transfer 1 1 2] !! 2 = Some t /\ get 1 t = Some c /\ o ∈ [OpenService 1 10 ALL 0 None; Transfer 1 1 2] /\ granted o = Some (object c, rs) /\ rights_le READ rs.
Proof.
  destruct (cap_no_forgery [OpenService 1 10 ALL 0 None; Transfer 1 1 2] 2 1 1 READ) as (Hc & H & _). split; [apply (H (mkService 10 0 None)); vm_compute; reflexivity|apply Hc; vm_compute; reflexivity].
Defined.
Definition demo_T : gmap Z CapabilityTable := srun [OpenService 1 10 ALL 0 None; OpenService 2 20 READ 0 None].
Lemma transfer_clobbers_witness : exists t u c d, demo_T !! 1 = Some t /\ demo_T !! 2 = Some u /\ capabilities t !! 1 = Some c /\ capabilities u !! 1 = Some d /\
  (transfer_capability 1 1 2 demo_T).2 = true.
Proof.
  do 4 eexists. split_and!; [vm_compute; reflexivity|vm_compute; reflexivity|vm_compute; reflexivity|vm_compute; reflexivity|].
  assert (exists t u c d, demo_T !! 1 = Some t /\ demo_T !! 2 = Some u /\ capabilities t !! 1 = Some c /\ capabilities u !! 1 = Some d /\ cap_id c = 1 /\
    r_transfer (rights c) = true /\ handles u !! 1 = Some 1 /\ next_handle u = 2) as (t & u & c & d & Ht & Hu & Hc & Hd & H1 & H2 & H3 & H4).
  { do 4 eexists. split_and!; vm_compute; reflexivity. }
  pose proof (transfer_clobbers 1 2 1 1 c d t u demo_T ltac:(done) Ht Hc H1 H2 Hu H3 Hd ltac:(lia) ltac:(lia)) as H.
  destruct (transfer_capability 1 1 2 demo_T) as [T' ok]. destruct H as [-> _]. reflexivity.
Defined.
End Capability.
