(* ===== verification/RtSched.v ===== *)
(** * Real-time scheduling classes

    Models [src/src/task/rt_scheduler.rs]: scheduling policies and parameters,
    the round-robin time slice (computed in floating point), the run queue with
    one list of tasks per priority, and the [sched_*] system calls.  The module
    functions lock [RT_RUNQUEUE] and call the method of the same name, so the
    operations run one at a time; [init] and [sys_sched_yield] change nothing.

    The functions here read nothing of a task but its number, so a queued
    [Box<Task>] is that number.  [f64] arithmetic is the standard library's
    executable model of IEEE 754 binary64. *)
From Stdlib Require Import SpecFloat.
From S2P Require Import Prelude.

Module RtSched.

Definition RT_PRIO_MIN : Z := 1.
Definition RT_PRIO_MAX : Z := 99.
Definition RR_DEFAULT_TIMESLICE : Z := 100.
Definition RR_MAX_TIMESLICE : Z := 200.
Definition RR_MIN_TIMESLICE : Z := 10.

Inductive SchedPolicy := Normal | Fifo | RoundRobin | Deadline | Idle | Batch.
#[export] Instance SchedPolicy_eq_dec : EqDecision SchedPolicy.
Proof. solve_decision. Defined.
Definition policy_number (p : SchedPolicy) : Z :=
  match p with Normal => 0 | Fifo => 1 | RoundRobin => 2 | Deadline => 3 | Idle => 4 | Batch => 5 end.
Definition is_rr (p : SchedPolicy) : bool := bool_decide (p = RoundRobin).
Definition rt_policy (p : SchedPolicy) : bool := bool_decide (p = Fifo) || is_rr p.
Record RtSchedParam := mkParam { sched_priority : Z; sched_runtime : Z; sched_deadline : Z; sched_period : Z }.

(** ** Binary64 *)
Definition f64 : Type := spec_float.
Definition f64_of (x : Z) : f64 := binary_normalize 53 1024 x 0 false.
Definition f64_div : f64 -> f64 -> f64 := SFdiv 53 1024.
Definition f64_mul : f64 -> f64 -> f64 := SFmul 53 1024.
Definition f64_add : f64 -> f64 -> f64 := SFadd 53 1024.
Definition f64_clamp (x lo hi : f64) : f64 := if SFltb x lo then lo else if SFltb hi x then hi else x.
(** [x as u64]: towards zero, saturating, 0 for a NaN. *)
Definition f64_to_u64 (x : f64) : Z :=
  match x with
  | S754_finite false m e => Z.min u64_max (Z.shiftl (Z.pos m) e)
  | S754_infinity false => u64_max
  | _ => 0
  end.

(** ** Tasks *)
Record RtTaskInfo := mkInfo {
  task_id : Z; policy : SchedPolicy; priority : Z; time_slice : Z; total_timeslice : Z; affinity : Z; is_rt : bool }.
Definition info_new (t : Z) : RtTaskInfo := mkInfo t Normal 0 RR_DEFAULT_TIMESLICE RR_DEFAULT_TIMESLICE u64_max false.
Definition calculate_timeslice (prio : Z) : Z :=
  let normalized := f64_clamp (f64_div (f64_of prio) (f64_of RT_PRIO_MAX)) (f64_of 0) (f64_of 1) in
  f64_to_u64 (f64_add (f64_of RR_MIN_TIMESLICE) (f64_mul normalized (f64_of (RR_MAX_TIMESLICE - RR_MIN_TIMESLICE)))).
Definition with_rt (t : Z) (p : SchedPolicy) (prio : Z) : RtTaskInfo :=
  let s := if is_rr p then calculate_timeslice prio else u64_max in
  mkInfo t p prio s s u64_max (rt_policy p).
Definition reset_timeslice (i : RtTaskInfo) : RtTaskInfo :=
  mkInfo (task_id i) (policy i) (priority i) (total_timeslice i) (total_timeslice i) (affinity i) (is_rt i).
Definition info_tick (i : RtTaskInfo) : RtTaskInfo * bool :=
  if is_rr (policy i) && (0 <? time_slice i) then
    let s := sat_sub (time_slice i) 1 in
    (mkInfo (task_id i) (policy i) (priority i) s (total_timeslice i) (affinity i) (is_rt i), s =? 0)
  else (i, false).

(** ** The run queue *)
Record RtRunQueue := mkRq {
  queues : gmap Z (list Z); task_info : gmap Z RtTaskInfo; rt_count : Z; highest_prio : Z;
  rt_runtime : Z; rt_period : Z; rt_runtime_enabled : bool }.
Definition rq_new : RtRunQueue := mkRq ∅ ∅ 0 0 950000000 1000000000 true.
Definition set_info (t : Z) (i : RtTaskInfo) (q : RtRunQueue) : RtRunQueue :=
  mkRq (queues q) (<[t := i]> (task_info q)) (rt_count q) (highest_prio q) (rt_runtime q) (rt_period q) (rt_runtime_enabled q).
Definition set_queues (m : gmap Z (list Z)) (q : RtRunQueue) : RtRunQueue :=
  mkRq m (task_info q) (rt_count q) (highest_prio q) (rt_runtime q) (rt_period q) (rt_runtime_enabled q).
Definition add_count (d : Z) (q : RtRunQueue) : RtRunQueue :=
  mkRq (queues q) (task_info q) (u64_add (rt_count q) d) (highest_prio q) (rt_runtime q) (rt_period q) (rt_runtime_enabled q).
Definition set_highest (h : Z) (q : RtRunQueue) : RtRunQueue :=
  mkRq (queues q) (task_info q) (rt_count q) h (rt_runtime q) (rt_period q) (rt_runtime_enabled q).
Definition info_of (t : Z) (q : RtRunQueue) : RtTaskInfo := default (info_new t) (task_info q !! t).
(** [priority as u64] of an [i32]. *)
Definition as_u64 (x : Z) : Z := x mod u64_mod.

Definition enqueue (t : Z) (q : RtRunQueue) : RtRunQueue :=
  let info := info_of t q in
  let q := set_info t info q in
  let q := set_queues (<[priority info := default [] (queues q !! priority info) ++ [t]]> (queues q)) q in
  let q := if is_rt info && (highest_prio q <? as_u64 (priority info)) then set_highest (as_u64 (priority info)) q else q in
  if is_rt info then add_count 1 q else q.
Definition nonempty (p : Z * list Z) : bool := match p.2 with [] => false | _ => true end.
Definition find_highest_prio (q : RtRunQueue) : Z :=
  match List.find nonempty (rev (btree_iter (queues q))) with Some (p, _) => p | None => 0 end.
Definition update_highest_prio (q : RtRunQueue) : RtRunQueue := set_highest (as_u64 (find_highest_prio q)) q.
Definition dequeue (t : Z) (q : RtRunQueue) : RtRunQueue * option Z :=
  match task_info q !! t with
  | None => (q, None)
  | Some info =>
      match queues q !! priority info with
      | None => (q, None)
      | Some l =>
          match position (Z.eqb t) l with
          | None => (q, None)
          | Some i =>
              let q := set_queues (<[priority info := delete i l]> (queues q)) q in
              let q := if is_rt info then add_count (-1) q else q in
              (match delete i l with
               | [] => update_highest_prio (set_queues (delete (priority info) (queues q)) q)
               | _ => q
               end, Some t)
          end
      end
  end.
Definition pick_next (q : RtRunQueue) : RtRunQueue * option Z :=
  let highest := find_highest_prio q in
  if highest =? 0 then (q, None)
  else match queues q !! highest with
  | Some (t :: l) =>
      let q := set_queues (<[highest := l]> (queues q)) q in
      (match task_info q !! t with
       | Some info => if is_rr (policy info) then set_info t (reset_timeslice info) q else q
       | None => q
       end, Some t)
  | _ => (q, None)
  end.
Definition rt_task_count (q : RtRunQueue) : Z := rt_count q.
Definition has_rt_tasks (q : RtRunQueue) : bool := 0 <? rt_count q.
Definition clamp (x lo hi : Z) : Z := Z.max lo (Z.min x hi).
Definition set_sched_param (t : Z) (p : SchedPolicy) (param : RtSchedParam) (q : RtRunQueue) : RtRunQueue :=
  let info := info_of t q in
  let prio := clamp (sched_priority param) 0 RT_PRIO_MAX in
  let s := if is_rr p then calculate_timeslice prio else u64_max in
  let q := set_info t (mkInfo (task_id info) p prio s s (affinity info) (rt_policy p)) q in
  if is_rt info && negb (rt_policy p) then add_count (-1) q
  else if negb (is_rt info) && rt_policy p then add_count 1 q else q.
Definition get_sched_param (t : Z) (q : RtRunQueue) : option (SchedPolicy * RtSchedParam) :=
  (fun i => (policy i, mkParam (priority i) 0 0 0)) <$> task_info q !! t.
Definition rq_tick (t : Z) (q : RtRunQueue) : RtRunQueue * bool :=
  match task_info q !! t with
  | Some info => let '(i, b) := info_tick info in (set_info t i q, b)
  | None => (q, false)
  end.
(** The task is dropped unless its policy is round robin. *)
Definition reenqueue_rr (t : Z) (q : RtRunQueue) : RtRunQueue :=
  match task_info q !! t with
  | Some info => if is_rr (policy info) then enqueue t (set_info t (reset_timeslice info) q) else q
  | None => q
  end.
Definition set_rt_bandwidth (runtime period : Z) (q : RtRunQueue) : RtRunQueue :=
  mkRq (queues q) (task_info q) (rt_count q) (highest_prio q) runtime period (rt_runtime_enabled q).
Definition set_rt_throttling (b : bool) (q : RtRunQueue) : RtRunQueue :=
  mkRq (queues q) (task_info q) (rt_count q) (highest_prio q) (rt_runtime q) (rt_period q) b.
(** The task is dropped unless it is a real-time task. *)
Definition yield_rt_task (t : Z) (q : RtRunQueue) : RtRunQueue :=
  match task_info q !! t with Some info => if is_rt info then enqueue t q else q | None => q end.
Definition is_rt_task (t : Z) (q : RtRunQueue) : bool := default false (is_rt <$> task_info q !! t).
Definition get_task_priority (t : Z) (q : RtRunQueue) : Z := default 0 (priority <$> task_info q !! t).
Definition get_task_policy (t : Z) (q : RtRunQueue) : SchedPolicy := default Normal (policy <$> task_info q !! t).

(** ** System calls *)
Definition policy_of (p : Z) : SchedPolicy :=
  let n := p mod u8_mod in if n =? 1 then Fifo else if n =? 2 then RoundRobin else if n =? 3 then Deadline else Normal.
Definition sys_sched_setscheduler (t p : Z) (param : RtSchedParam) (q : RtRunQueue) : RtRunQueue * Z :=
  let pol := policy_of p in
  if rt_policy pol then
    if (sched_priority param <? RT_PRIO_MIN) || (RT_PRIO_MAX <? sched_priority param) then (q, -22) else (set_sched_param t pol param q, 0)
  else if negb (sched_priority param =? 0) then (q, -22) else (set_sched_param t pol param q, 0).
Definition sys_sched_getscheduler (t : Z) (q : RtRunQueue) : Z := policy_number (get_task_policy t q).
Definition sys_sched_setparam (t : Z) (param : RtSchedParam) (q : RtRunQueue) : RtRunQueue * Z :=
  (set_sched_param t (get_task_policy t q) param q, 0).
Definition sys_sched_getparam (t : Z) (q : RtRunQueue) : option RtSchedParam := snd <$> get_sched_param t q.
Definition sys_sched_get_priority_max (p : Z) : Z :=
  let n := p mod u8_mod in if (n =? 1) || (n =? 2) then RT_PRIO_MAX else 0.
Definition sys_sched_get_priority_min (p : Z) : Z :=
  let n := p mod u8_mod in if (n =? 1) || (n =? 2) then RT_PRIO_MIN else 0.
Definition sys_sched_rr_get_interval (t : Z) (q : RtRunQueue) : Z := default RR_DEFAULT_TIMESLICE (total_timeslice <$> task_info q !! t).

(** ** Time slices *)
Lemma timeslice_value p : 0 <= p <= 99 -> calculate_timeslice p = 10 + p * 190 / 99.
Proof.
  intros Hp. assert (forallb (fun p => calculate_timeslice p =? 10 + p * 190 / 99) (seqZ 0 100) = true) as H by (vm_compute; reflexivity).
  rewrite forallb_forall in H. apply Z.eqb_eq, H. apply list_elem_of_In, elem_of_seqZ. lia.
Qed.
(** [n] ticks charged to a task: the queue and the answers. *)
Fixpoint ticks (n : nat) (t : Z) (q : RtRunQueue) : RtRunQueue * list bool :=
  match n with
  | O => (q, [])
  | S n' => let '(q, b) := rq_tick t q in let '(q, l) := ticks n' t q in (q, b :: l)
  end.
Definition with_slice (s : Z) (i : RtTaskInfo) : RtTaskInfo :=
  mkInfo (task_id i) (policy i) (priority i) s (total_timeslice i) (affinity i) (is_rt i).
Lemma rr_tick t q i : task_info q !! t = Some i -> policy i = RoundRobin -> 0 <= time_slice i ->
  rq_tick t q = (set_info t (with_slice (sat_sub (time_slice i) 1) i) q, time_slice i =? 1).
Proof.
  intros Hi Hp Hs. unfold rq_tick, info_tick. rewrite Hi, Hp. change (is_rr RoundRobin) with true. cbn [andb].
  destruct (Z.ltb_spec 0 (time_slice i)) as [H|H]; unfold with_slice; rewrite ?Hp.
  - apply pair_eq. split; [done|]. unfold sat_sub. destruct (Z.eqb_spec (time_slice i) 1); lia.
  - replace (sat_sub (time_slice i) 1) with (time_slice i) by (unfold sat_sub; lia). rewrite <-Hp. f_equal; [by destruct i|lia].
Qed.
Lemma ticks_rr n t q i : task_info q !! t = Some i -> policy i = RoundRobin -> 0 <= time_slice i ->
  (ticks n t q).2 = (fun k => k =? time_slice i) <$> seqZ 1 (Z.of_nat n).
Proof.
  revert q i. induction n as [|n IH]; intros q i Hi Hp Hs; [done|]. cbn [ticks]. rewrite (rr_tick t q i) by done.
  set (j := with_slice (sat_sub (time_slice i) 1) i). specialize (IH (set_info t j q) j ltac:(apply lookup_insert_eq) Hp ltac:(cbn; unfold sat_sub; lia)).
  destruct (ticks n t (set_info t j q)) as [q' l]. cbn [snd] in *. subst l. replace (Z.of_nat (S n)) with (Z.succ (Z.of_nat n)) by lia.
  rewrite (seqZ_cons 1 (Z.succ (Z.of_nat n))) by lia. rewrite Z.pred_succ, fmap_cons. f_equal; [lia|].
  change (Z.succ 1) with (1 + 1). rewrite <-(fmap_add_seqZ 1 1 (Z.of_nat n)), <-list_fmap_compose.
  apply list_fmap_ext. intros m k Hk. apply lookup_seqZ in Hk. unfold compose, sat_sub. cbn [time_slice j with_slice]. unfold sat_sub. lia.
Qed.
Lemma ticks_other n t q i : task_info q !! t = Some i -> policy i <> RoundRobin -> (ticks n t q).2 = replicate n false.
Proof.
  revert q. induction n as [|n IH]; intros q Hi Hp; [done|]. cbn [ticks]. unfold rq_tick, info_tick. rewrite Hi.
  unfold is_rr. rewrite bool_decide_false by done. cbn. specialize (IH (set_info t i q) ltac:(apply lookup_insert_eq) Hp).
  destruct (ticks n t _) as [q' l]. cbn in *. by subst.
Qed.
Lemma set_param_info t p param q : exists f, task_info (set_sched_param t p param q) !! t = Some f /\
  policy f = p /\ priority f = clamp (sched_priority param) 0 RT_PRIO_MAX /\ is_rt f = rt_policy p /\ time_slice f = total_timeslice f /\
  total_timeslice f = if is_rr p then calculate_timeslice (priority f) else u64_max.
Proof.
  unfold set_sched_param. set (i := mkInfo _ _ _ _ _ _ _).
  destruct (is_rt (info_of t q) && negb (rt_policy p)), (negb (is_rt (info_of t q)) && rt_policy p); exists i; (split; [apply lookup_insert_eq|done]).
Qed.

(** Time slices are exact.  The floating-point computation gives a
    round-robin task of priority [p] exactly [10 + 190 p / 99] ticks (rounded
    down), between 10 and 200 (the diagram of
    the module draws 10 ms at priority 99, where the code gives 200 ticks); after its parameters are set, the tick that asks
    for preemption is exactly the one that uses up the slice, once; and tasks of
    every other policy are never preempted by a tick. *)
Theorem rr_slice_exact t p param q n : 0 <= sched_priority param <= 99 ->
  let s := 10 + sched_priority param * 190 / 99 in
  let q' := set_sched_param t p param q in
  10 <= s <= 200 /\
  (p = RoundRobin -> sys_sched_rr_get_interval t q' = s /\ (ticks n t q').2 = (fun k => k =? s) <$> seqZ 1 (Z.of_nat n)) /\
  (p <> RoundRobin -> (ticks n t q').2 = replicate n false).
Proof.
  intros Hp s q'. assert (10 <= s <= 200) as Hs by (unfold s; mlia). split; [done|].
  destruct (set_param_info t p param q) as (f & Hf & Hpol & Hprio & _ & Hts & Htot). fold q' in Hf.
  rewrite Hprio in Htot. replace (clamp (sched_priority param) 0 RT_PRIO_MAX) with (sched_priority param) in Htot by (unfold clamp, RT_PRIO_MAX; lia).
  split; intros Hr.
  - rewrite Hr in Htot. change (is_rr RoundRobin) with true in Htot. cbv iota in Htot. rewrite timeslice_value in Htot by done. fold s in Htot. split.
    + unfold sys_sched_rr_get_interval. rewrite Hf. exact Htot.
    + rewrite (ticks_rr n t q' f) by (congruence || lia). by rewrite Hts, Htot.
  - by apply (ticks_other n t q' f); [|rewrite Hpol].
Qed.

(** Setting the scheduler takes effect or changes nothing.  A request with
    a priority outside the policy's range is refused with EINVAL and leaves the
    queue as it was; every other request succeeds, and the policy and priority
    read back are the requested ones; the range is the one the two priority
    limit calls report. *)
Theorem setscheduler_roundtrip t p param q :
  let '(q', r) := sys_sched_setscheduler t p param q in
  if (sys_sched_get_priority_min p <=? sched_priority param) && (sched_priority param <=? sys_sched_get_priority_max p)
  then r = 0 /\ sys_sched_getscheduler t q' = policy_number (policy_of p) /\
       sys_sched_getparam t q' = Some (mkParam (sched_priority param) 0 0 0) /\
       is_rt_task t q' = ((p mod 256 =? 1) || (p mod 256 =? 2))
  else q' = q /\ r = -22.
Proof.
  unfold sys_sched_setscheduler, sys_sched_get_priority_min, sys_sched_get_priority_max.
  assert (rt_policy (policy_of p) = ((p mod 256 =? 1) || (p mod 256 =? 2))) as E.
  { unfold policy_of, u8_mod. change (2 ^ 8) with 256. destruct (p mod 256 =? 1), (p mod 256 =? 2), (p mod 256 =? 3); done. }
  rewrite E. unfold u8_mod. change (2 ^ 8) with 256. destruct (set_param_info t (policy_of p) param q) as (f & Hf & Hpol & Hprio & Hrt & _).
  unfold sys_sched_getscheduler, get_task_policy, sys_sched_getparam, get_sched_param, is_rt_task, RT_PRIO_MIN, RT_PRIO_MAX, clamp in *. rewrite E in Hrt.
  destruct ((p mod 256 =? 1) || (p mod 256 =? 2)) eqn:Ep.
  - destruct ((sched_priority param <? 1) || (99 <? sched_priority param)) eqn:B; simplify_bool.
    + replace ((1 <=? sched_priority param) && (sched_priority param <=? 99)) with false by lia. done.
    + replace ((1 <=? sched_priority param) && (sched_priority param <=? 99)) with true by lia. rewrite Hf. cbn.
      rewrite Hpol, Hprio, Hrt. split_and!; [done|done| |done]. do 2 f_equal. lia.
  - destruct (Z.eqb_spec (sched_priority param) 0) as [Z0|Z0]; cbn [negb].
    + replace ((0 <=? sched_priority param) && (sched_priority param <=? 0)) with true by lia. rewrite Hf. cbn.
      rewrite Hpol, Hprio, Hrt. split_and!; [done|done| |done]. do 2 f_equal. lia.
    + replace ((0 <=? sched_priority param) && (sched_priority param <=? 0)) with false by lia. done.
Qed.

(** ** The queue as one list in order of arrival *)
Record spec := mkSpec { waiting : list (Z * Z); params : gmap Z RtTaskInfo }.
Definition params_of (t : Z) (s : spec) : RtTaskInfo := default (info_new t) (params s !! t).
Definition top_prio (l : list (Z * Z)) : Z := foldr (fun e m => Z.max e.1 m) 0 l.
Definition s_put (t : Z) (i : RtTaskInfo) (s : spec) : spec := mkSpec (waiting s) (<[t := i]> (params s)).
Definition s_enqueue (t : Z) (s : spec) : spec :=
  let i := params_of t s in mkSpec (waiting s ++ [(priority i, t)]) (<[t := i]> (params s)).
(** Take the oldest task of priority [p] that [g] accepts. *)
Definition s_take (p : Z) (g : Z -> bool) (s : spec) : spec * option Z :=
  match position (fun e => (e.1 =? p) && g e.2) (waiting s) with
  | Some i => (mkSpec (delete i (waiting s)) (params s), snd <$> waiting s !! i)
  | None => (s, None)
  end.
Definition s_pick (s : spec) : spec * option Z :=
  let p := top_prio (waiting s) in
  if p =? 0 then (s, None)
  else let '(s, o) := s_take p (fun _ => true) s in
    (match o ≫= (fun t => (fun i => (t, i)) <$> params s !! t) with
     | Some (t, i) => if is_rr (policy i) then s_put t (reset_timeslice i) s else s
     | None => s
     end, o).
Definition s_dequeue (t : Z) (s : spec) : spec * option Z :=
  match params s !! t with Some i => s_take (priority i) (Z.eqb t) s | None => (s, None) end.
Definition s_set (t : Z) (p : SchedPolicy) (param : RtSchedParam) (s : spec) : spec :=
  let i := params_of t s in let prio := clamp (sched_priority param) 0 RT_PRIO_MAX in
  let sl := if is_rr p then calculate_timeslice prio else u64_max in
  s_put t (mkInfo (task_id i) p prio sl sl (affinity i) (rt_policy p)) s.

Inductive op :=
| Enq (t : Z) | Deq (t : Z) | Pick | SetParam (t : Z) (p : SchedPolicy) (param : RtSchedParam) | Tick (t : Z)
| Reenq (t : Z) | Yield (t : Z) | Bandwidth (runtime period : Z) | Throttle (b : bool).
Definition exec (o : op) (q : RtRunQueue) : RtRunQueue * option Z :=
  match o with
  | Enq t => (enqueue t q, None)
  | Deq t => dequeue t q
  | Pick => pick_next q
  | SetParam t p param => (set_sched_param t p param q, None)
  | Tick t => let '(q, b) := rq_tick t q in (q, if b : bool then Some t else None)
  | Reenq t => (reenqueue_rr t q, None)
  | Yield t => (yield_rt_task t q, None)
  | Bandwidth r p => (set_rt_bandwidth r p q, None)
  | Throttle b => (set_rt_throttling b q, None)
  end.
Definition s_exec (o : op) (s : spec) : spec * option Z :=
  match o with
  | Enq t => (s_enqueue t s, None)
  | Deq t => s_dequeue t s
  | Pick => s_pick s
  | SetParam t p param => (s_set t p param s, None)
  | Tick t =>
      match params s !! t with
      | Some i => let '(i, b) := info_tick i in (s_put t i s, if b : bool then Some t else None)
      | None => (s, None)
      end
  | Reenq t =>
      (match params s !! t with Some i => if is_rr (policy i) then s_enqueue t (s_put t (reset_timeslice i) s) else s | None => s end, None)
  | Yield t => (match params s !! t with Some i => if is_rt i then s_enqueue t s else s | None => s end, None)
  | Bandwidth _ _ | Throttle _ => (s, None)
  end.
Fixpoint answers {A} (f : op -> A -> A * option Z) (os : list op) (a : A) : list (option Z) :=
  match os with [] => [] | o :: os' => let '(a, r) := f o a in r :: answers f os' a end.

Definition queue_of (p : Z) (l : list (Z * Z)) : list Z := (filter (fun e => e.1 = p) l).*2.
#[local] Arguments queue_of : simpl never.
Record refines (q : RtRunQueue) (s : spec) : Prop := {
  rf_queues p : default [] (queues q !! p) = queue_of p (waiting s);
  rf_info : task_info q = params s;
  rf_prio e : e ∈ waiting s -> 0 <= e.1;
  rf_param t i : params s !! t = Some i -> 0 <= priority i }.

(** ** Taking from a queue *)
Lemma queue_of_cons p e l : queue_of p (e :: l) = if decide (e.1 = p) then e.2 :: queue_of p l else queue_of p l.
Proof. unfold queue_of. rewrite filter_cons. by case_decide. Qed.
Lemma queue_take p g l :
  match position (fun e => (e.1 =? p) && g e.2) l with
  | Some i => exists j t, l !! i = Some (p, t) /\ position g (queue_of p l) = Some j /\ queue_of p l !! j = Some t /\
      queue_of p (delete i l) = delete j (queue_of p l) /\ forall p', p' <> p -> queue_of p' (delete i l) = queue_of p' l
  | None => position g (queue_of p l) = None
  end.
Proof.
  induction l as [|[a t] l IH]; [done|]. cbn [position fst snd]. destruct (Z.eqb_spec a p) as [->|Hne]; cbn [andb].
  - destruct (g t) eqn:Hg.
    + exists O, t. rewrite queue_of_cons, decide_True by done. cbn. rewrite Hg. split_and!; try done. intros p' Hp. rewrite queue_of_cons, decide_False by (cbn; congruence). done.
    + destruct (position _ l) as [i|]; cbn [option_map fmap option_fmap].
      * destruct IH as (j & u & H1 & H2 & H3 & H4 & H5). exists (S j), u. change (delete (S i) ((p, t) :: l)) with ((p, t) :: delete i l).
        rewrite !queue_of_cons, !decide_True by done. cbn [position snd]. rewrite Hg, H2, H4. split_and!; try done.
        intros p' Hp. rewrite !queue_of_cons, !decide_False by (cbn; congruence). by apply H5.
      * rewrite queue_of_cons, decide_True by done. cbn. by rewrite Hg, IH.
  - destruct (position _ l) as [i|]; cbn [option_map fmap option_fmap].
    + destruct IH as (j & u & H1 & H2 & H3 & H4 & H5). exists j, u. change (delete (S i) ((a, t) :: l)) with ((a, t) :: delete i l).
      rewrite !queue_of_cons, !decide_False by done. split_and!; try done.
      intros p' Hp. rewrite !queue_of_cons. by rewrite H5.
    + by rewrite queue_of_cons, decide_False.
Qed.
Lemma queue_of_app p l k : queue_of p (l ++ k) = queue_of p l ++ queue_of p k.
Proof. unfold queue_of. by rewrite filter_app, fmap_app. Qed.
Lemma queue_nonempty p l : queue_of p l <> [] <-> exists e, e ∈ l /\ e.1 = p.
Proof.
  induction l as [|a l IH]; [split; [done|intros (e & He & _); inversion He]|]. rewrite queue_of_cons. case_decide as E.
  - split; [|done]. intros _. exists a. split; [constructor|done].
  - rewrite IH. split; intros (e & He & Hp); exists e; (split; [|done]); [by constructor|]. apply elem_of_cons in He as [->|He]; [done|done].
Qed.
Lemma top_prio_spec l : (forall e, e ∈ l -> e.1 <= top_prio l) /\ (top_prio l = 0 \/ exists e, e ∈ l /\ e.1 = top_prio l) /\ 0 <= top_prio l.
Proof.
  induction l as [|a l (H1 & H2 & H3)]; [split_and!; [intros e He; inversion He|by left|done]|].
  change (top_prio (a :: l)) with (Z.max a.1 (top_prio l)). split_and!; [| |lia].
  - intros e He. apply elem_of_cons in He as [->|He]; [lia|]. specialize (H1 e He). lia.
  - destruct (Z.max_spec a.1 (top_prio l)) as [[? ->]|[? ->]]; [|right; exists a; split; [constructor|done]].
    destruct H2 as [?|(e & He & Hp)]; [by left|right]. exists e. split; [by constructor|done].
Qed.
Lemma find_split {A} (f : A -> bool) l : match List.find f l with
  | Some x => exists l1 l2, l = l1 ++ x :: l2 /\ f x = true /\ Forall (fun y => f y = false) l1
  | None => Forall (fun y => f y = false) l end.
Proof.
  induction l as [|a l IH]; cbn; [constructor|]. destruct (f a) eqn:E; [exists [], l; repeat constructor; done|].
  destruct (List.find f l) as [x|]; [|by constructor]. destruct IH as (l1 & l2 & -> & Hx & Hl). exists (a :: l1), l2. split_and!; [done|done|by constructor].
Qed.
(** The search from the greatest key finds the greatest priority that waits. *)
Lemma find_highest_top q s : refines q s -> find_highest_prio q = top_prio (waiting s).
Proof.
  intros [H1 _ H3 _]. destruct (top_prio_spec (waiting s)) as (T1 & T2 & T3).
  assert (forall k l, (k, l) ∈ btree_iter (queues q) -> nonempty (k, l) = true -> exists e, e ∈ waiting s /\ e.1 = k) as Hin.
  { intros k l Hk Hn. apply elem_of_btree_iter in Hk. apply queue_nonempty. rewrite <-H1, Hk. cbn. unfold id. by destruct l. }
  assert (forall e, e ∈ waiting s -> exists l, (e.1, l) ∈ btree_iter (queues q) /\ nonempty (e.1, l) = true) as Hout.
  { intros e He. assert (queue_of e.1 (waiting s) <> []) as Hq by (apply queue_nonempty; eauto). rewrite <-H1 in Hq.
    destruct (queues q !! e.1) as [l|] eqn:E; [|done]. exists l. split; [by apply elem_of_btree_iter|]. cbn in Hq. unfold id in Hq. by destruct l. }
  unfold find_highest_prio. pose proof (find_split nonempty (rev (btree_iter (queues q)))) as Hf.
  destruct (List.find _ _) as [[p l]|].
  - destruct Hf as (l1 & l2 & Hl & Hx & Hn). apply (f_equal (@rev _)) in Hl. rewrite rev_involutive, rev_app_distr in Hl. cbn in Hl. rewrite <-app_assoc in Hl. cbn in Hl.
    pose proof (btree_iter_sorted (queues q)) as Hs. destruct (Hin p l) as (e & He & Hp); [rewrite Hl; set_solver|done|].
    assert (forall e, e ∈ waiting s -> e.1 <= p) as Hmax.
    { intros a Ha. destruct (Hout a Ha) as (la & Hla & Hna). rewrite Hl in Hla, Hs. apply StronglySorted_app in Hs as (Hab & _ & Hs).
      apply elem_of_app in Hla as [Hla|Hla]; [specialize (Hab _ (p, l) Hla ltac:(constructor)); unfold key_lt in Hab; cbn in Hab; lia|].
      apply elem_of_cons in Hla as [Hla|Hla]; [injection Hla as -> _; lia|]. apply list_elem_of_In, in_rev, list_elem_of_In in Hla.
      rewrite Forall_forall in Hn. apply Hn in Hla. congruence. }
    specialize (T1 e He). destruct T2 as [T2|(a & Ha & Hta)]; [specialize (H3 e He); lia|]. specialize (Hmax a Ha). lia.
  - destruct T2 as [T2|(a & Ha & Hta)]; [done|]. destruct (Hout a Ha) as (la & Hla & Hna). rewrite Forall_forall in Hf.
    rewrite Hf in Hna; [done|]. apply list_elem_of_In, in_rev. rewrite rev_involutive. by apply list_elem_of_In.
Qed.
Lemma enqueue_refines t q s : refines q s -> refines (enqueue t q) (s_enqueue t s).
Proof.
  intros [H1 H2 H3 H4]. unfold enqueue, s_enqueue. assert (info_of t q = params_of t s) as Hi by (unfold info_of, params_of; by rewrite H2).
  rewrite Hi. set (i := params_of t s). assert (0 <= priority i) as Hp by (unfold i, params_of; destruct (params s !! t) eqn:E; cbn; [by eapply H4|lia]).
  assert (forall q', queues q' = <[priority i := default [] (queues q !! priority i) ++ [t]]> (queues q) -> task_info q' = <[t := i]> (task_info q) ->
    refines q' (mkSpec (waiting s ++ [(priority i, t)]) (<[t := i]> (params s)))) as H.
  { intros q' Eq Ei. split; cbn [waiting params].
    - intros p. rewrite queue_of_app, queue_of_cons, Eq. case_decide as E; cbn in E.
      + subst p. rewrite lookup_insert_eq. cbn. unfold id. by rewrite H1.
      + rewrite lookup_insert_ne by done. unfold queue_of at 2. cbn. by rewrite app_nil_r.
    - by rewrite Ei, H2.
    - intros e He. apply elem_of_app in He as [He|He]; [by apply H3|]. apply list_elem_of_singleton in He as ->. done.
    - intros u j. rewrite lookup_insert_Some. intros [[_ <-]|[_ Hj]]; [done|by eapply H4]. }
  destruct (is_rt i), (_ <? _); cbn [andb]; by apply H.
Qed.
Lemma put_refines t i q s : refines q s -> 0 <= priority i -> refines (set_info t i q) (s_put t i s).
Proof.
  intros [H1 H2 H3 H4] Hp. split; cbn; [done|by rewrite H2|done|]. intros u j. rewrite lookup_insert_Some. intros [[_ <-]|[_ Hj]]; [done|by eapply H4].
Qed.
Lemma same_refines q q' s : refines q s -> queues q' = queues q -> task_info q' = task_info q -> refines q' s.
Proof. intros [H1 H2 H3 H4] E1 E2. split; rewrite ?E1, ?E2; done. Qed.
(** Removing the [j]-th task of a queue is taking it from the list. *)
Lemma take_refines p g q q' s j : refines q s -> position g (queue_of p (waiting s)) = Some j ->
  (forall k, default [] (queues q' !! k) = if decide (k = p) then delete j (queue_of p (waiting s)) else default [] (queues q !! k)) ->
  task_info q' = task_info q -> refines q' (s_take p g s).1 /\ (s_take p g s).2 = queue_of p (waiting s) !! j.
Proof.
  intros [H1 H2 H3 H4] Hj Hq Hi. unfold s_take. pose proof (queue_take p g (waiting s)) as Ht. destruct (position (fun e => _) (waiting s)) as [i|]; [|congruence].
  destruct Ht as (j' & t & T1 & T2 & T3 & T4 & T5). assert (j' = j) as -> by congruence. cbn [fst snd]. rewrite T1, T3. split; [|done]. split; cbn [waiting params].
  - intros k. rewrite Hq. case_decide as E; [by subst|]. by rewrite T5, H1.
  - by rewrite Hi.
  - intros e He. apply H3. apply (elem_of_submseteq (delete i (waiting s))); [done|]. apply sublist_submseteq, sublist_delete.
  - done.
Qed.
Lemma take_none p g s : position g (queue_of p (waiting s)) = None -> s_take p g s = (s, None).
Proof. intros H. unfold s_take. pose proof (queue_take p g (waiting s)) as Ht. destruct (position (fun e => _) (waiting s)); [|done]. destruct Ht as (? & ? & _ & ? & _). congruence. Qed.
Lemma pick_refines q s : refines q s -> refines (pick_next q).1 (s_pick s).1 /\ (pick_next q).2 = (s_pick s).2.
Proof.
  intros H. unfold pick_next, s_pick. rewrite (find_highest_top q s H). set (p := top_prio (waiting s)).
  destruct (p =? 0); [done|]. pose proof (rf_queues q s H p) as Hq. destruct (queue_of p (waiting s)) as [|t l] eqn:E.
  - rewrite take_none by (by rewrite E). cbn. destruct (queues q !! p) as [[|]|]; [done|cbn in Hq; unfold id in Hq; done|done].
  - destruct (queues q !! p) as [l'|] eqn:Ep; [|done]. cbn in Hq. unfold id in Hq. subst l'.
    destruct (take_refines p (fun _ => true) q (set_queues (<[p := l]> (queues q)) q) s O H) as [Hr Ho]; [by rewrite E| |done|].
    { intros k. rewrite E. cbn. case_decide as F; [subst; by rewrite lookup_insert_eq|by rewrite lookup_insert_ne]. }
    rewrite E in Ho. destruct (s_take p (fun _ => true) s) as [s' o]. cbn [fst snd] in *. subst o. cbn [lookup list_lookup mbind option_bind].
    pose proof (rf_info _ _ Hr) as Hi. cbn [task_info set_queues] in Hi |- *. rewrite Hi. destruct (params s' !! t) as [i|] eqn:Et; cbn; [|done].
    destruct (is_rr (policy i)); cbn; [|done]. split; [|done]. apply put_refines; [done|]. cbn. by eapply (rf_param _ _ Hr).
Qed.
Lemma dequeue_refines t q s : refines q s -> refines (dequeue t q).1 (s_dequeue t s).1 /\ (dequeue t q).2 = (s_dequeue t s).2.
Proof.
  intros H. unfold dequeue, s_dequeue. rewrite (rf_info q s H). destruct (params s !! t) as [i|]; [|done]. pose proof (rf_queues q s H (priority i)) as Hq.
  destruct (queues q !! priority i) as [l|] eqn:El; cbn in Hq; [unfold id in Hq; subst l|by rewrite take_none by (by rewrite <-Hq)].
  destruct (position (Z.eqb t) (queue_of (priority i) (waiting s))) as [j|] eqn:Ej; [|by rewrite take_none].
  set (l := queue_of (priority i) (waiting s)) in *. apply position_spec in Ej as Hj. destruct Hj as [(x & Hx & Hxt) _].
  assert (forall q', queues q' = <[priority i := delete j l]> (queues q) \/ (delete j l = [] /\ queues q' = delete (priority i) (queues q)) ->
    task_info q' = task_info q -> refines q' (s_take (priority i) (Z.eqb t) s).1 /\ (s_take (priority i) (Z.eqb t) s).2 = Some t) as Hk.
  { intros q' Hq' Hi. destruct (take_refines (priority i) (Z.eqb t) q q' s j H Ej) as [Hr Ho]; [|done|split; [done|]; fold l in Ho; rewrite Ho, Hx; f_equal; lia].
    intros k. fold l. case_decide as F.
    - subst k. destruct Hq' as [->|[Hd ->]]; [by rewrite lookup_insert_eq|]. by rewrite lookup_delete_eq, Hd.
    - destruct Hq' as [->|[Hd ->]]; [by rewrite lookup_insert_ne|by rewrite lookup_delete_ne]. }
  cbn [fst snd]. destruct (delete j l) as [|y ys] eqn:Ed; (edestruct Hk as [Hr Ho]; [| |split; [exact Hr|by rewrite Ho]]).
  - right. split; [done|]. destruct (is_rt i); cbn; by rewrite delete_insert_eq.
  - by destruct (is_rt i).
  - left. by destruct (is_rt i).
  - by destruct (is_rt i).
Qed.
Lemma exec_refines o q s : refines q s -> refines (exec o q).1 (s_exec o s).1 /\ (exec o q).2 = (s_exec o s).2.
Proof.
  intros H. pose proof (rf_info q s H) as Hi. destruct o as [t|t| |t p param|t|t|t|r p|b]; cbn [exec s_exec].
  - split; [by apply enqueue_refines|done].
  - by apply dequeue_refines.
  - by apply pick_refines.
  - split; [|done]. unfold set_sched_param, s_set. replace (params_of t s) with (info_of t q) by (unfold info_of, params_of; by rewrite Hi).
    set (i := mkInfo _ _ _ _ _ _ _). assert (refines (set_info t i q) (s_put t i s)) as Hs by (apply put_refines; [done|cbn; unfold clamp; lia]).
    cbn [fst]. repeat case_match; by eapply same_refines.
  - unfold rq_tick. rewrite Hi. destruct (params s !! t) as [i|] eqn:E; [|done]. destruct (info_tick i) as [i' b] eqn:Et. cbn. split; [|done].
    apply put_refines; [done|]. unfold info_tick in Et. pose proof (rf_param q s H t i E). destruct (_ && _); by simplify_eq.
  - split; [|done]. cbn [fst]. unfold reenqueue_rr. rewrite Hi. destruct (params s !! t) as [i|] eqn:E; [|done]. destruct (is_rr (policy i)); [|done].
    apply enqueue_refines, put_refines; [done|]. cbn. by eapply (rf_param q s H).
  - split; [|done]. cbn [fst]. unfold yield_rt_task. rewrite Hi. destruct (params s !! t) as [i|]; [|done]. destruct (is_rt i); [by apply enqueue_refines|done].
  - split; [by eapply same_refines|done].
  - split; [by eapply same_refines|done].
Qed.
Lemma rq_new_refines : refines rq_new (mkSpec [] ∅).
Proof. split; cbn; [intros p; by rewrite lookup_empty|done|intros e He; inversion He|intros *; by rewrite lookup_empty]. Qed.

(** The run queue implements priority scheduling in order of arrival.  For
    every sequence of operations the answers of the run queue are those of one
    list of waiting tasks in order of arrival, each with the priority it had
    when it was queued: picking takes the oldest task of the greatest priority
    (none if that is 0), dequeueing takes the task if it waits with its current
    priority, and ticks ask for preemption when a round-robin slice ends. *)
Theorem rt_queue_refines os : answers exec os rq_new = answers s_exec os (mkSpec [] ∅).
Proof.
  generalize rq_new_refines. generalize rq_new, (mkSpec [] ∅). induction os as [|o os IH]; intros q s H; [done|]. cbn [answers].
  destruct (exec_refines o q s H) as [Hr Ho]. destruct (exec o q) as [q' r], (s_exec o s) as [s' r']. cbn [fst snd] in *. subst r'. f_equal. by apply IH.
Qed.
(** A tick-driven round: two tasks of one priority alternate, a third one of lower priority waits. *)
Example round_robin_round :
  let rr p := SetParam p RoundRobin (mkParam 50 0 0 0) in
  answers exec [rr 1; rr 2; SetParam 3 Fifo (mkParam 10 0 0 0); Enq 3; Enq 1; Enq 2; Pick; Reenq 1; Pick; Reenq 2; Pick] rq_new =
  [None; None; None; None; None; None; Some 1; None; Some 2; None; Some 1].
Proof. vm_compute. done. Qed.
(** The counter of real-time tasks is not lowered by picking, and setting the
    policy of a task counts it before it is queued. *)
Example rt_count_stale :
  let q := (pick_next (enqueue 1 (set_sched_param 1 Fifo (mkParam 5 0 0 0) rq_new))).1 in
  find_highest_prio q = 0 /\ rt_task_count q = 2 /\ has_rt_tasks q = true.
Proof. vm_compute. done. Qed.
(** A task whose priority is changed while it waits cannot be dequeued any more. *)
Example dequeue_after_change :
  let q := set_sched_param 1 Fifo (mkParam 7 0 0 0) (enqueue 1 (set_sched_param 1 Fifo (mkParam 5 0 0 0) rq_new)) in
  (dequeue 1 q).2 = None /\ (pick_next q).2 = Some 1.
Proof. vm_compute. done. Qed.

(** ** Witness *)
Lemma rr_slice_exact_witness : sys_sched_rr_get_interval 1 (set_sched_param 1 RoundRobin (mkParam 50 0 0 0) rq_new) = 105.
Proof.
  destruct (rr_slice_exact 1 RoundRobin (mkParam 50 0 0 0) rq_new 3 ltac:(cbn; lia)) as (_ & H & _). destruct (H eq_refl) as [H1 _]. exact H1.
Defined.
End RtSched.
