(* ===== verification/Crc.v ===== *)
(** * The checksums of the file systems

    Models the CRC functions of [src/src/fs/journal.rs] ([crc32c],
    [crc32c_with_seed] and the table they use, shared by ext4 and its journal)
    and [crc32_ieee] of [src/src/fs/ext4_journal.rs], on lists of bytes with
    32-bit registers.

    Both are instances of one shift register, whose linearity gives the two
    theorems: the table-driven loop equals the bitwise register
    ([crc32c_table_correct]) and no damage confined to four consecutive bytes
    goes unnoticed ([crc_detects_burst]). *)
From S2P Require Import Prelude.

Module Crc.

(** One round of the inner loop of [crc32_ieee]: the mask is
    [0u32.wrapping_sub(crc & 1)]. *)
Definition ieee_round (crc : Z) : Z :=
  let mask := u32_sub 0 (Z.land crc 1) in Z.lxor (Z.shiftr crc 1) (Z.land 0xEDB88320 mask).
Definition ieee_byte (crc byte : Z) : Z := Nat.iter 8 ieee_round (Z.lxor crc byte).
(** [!x] on 32 bits. *)
Definition not32 (x : Z) : Z := u32_max - x.
Definition crc32_ieee (data : list Z) : Z := not32 (foldl ieee_byte u32_max data).

(** One round of [generate_crc32c_table]. *)
Definition crc32c_round (crc : Z) : Z :=
  let mask := if negb (Z.land crc 1 =? 0) then 0x82F63B78 else 0 in Z.lxor (Z.shiftr crc 1) mask.
Definition generate_crc32c_table : list Z := (fun i => Nat.iter 8 crc32c_round i) <$> seqZ 0 256.
Definition CRC32C_TABLE : list Z := Eval vm_compute in generate_crc32c_table.
Definition crc32c_byte (crc byte : Z) : Z :=
  let idx := Z.land (Z.lxor crc byte) 0xFF in Z.lxor (Z.shiftr crc 8) (default 0 (CRC32C_TABLE !! Z.to_nat idx)).
Definition crc32c_with_seed (data : list Z) (seed : Z) : Z := foldl crc32c_byte seed data.
Definition crc32c (data : list Z) : Z := Z.lxor (crc32c_with_seed data 0xFFFFFFFF) 0xFFFFFFFF.

(** ** The shift register of a polynomial *)
Section Register.
Context (P : Z) (HP : Z.testbit P 31 = true) (HPr : is_u32 P).
Definition round (c : Z) : Z := Z.lxor (Z.shiftr c 1) (if Z.odd c then P else 0).
Definition rounds (n : nat) (c : Z) : Z := Nat.iter n round c.
Definition step (c b : Z) : Z := rounds 8 (Z.lxor c b).
Definition register (data : list Z) (c : Z) : Z := foldl step c data.
#[local] Strategy 100 [step].
#[local] Strategy 200 [rounds].
#[local] Strategy 300 [round].

Lemma lxor_u32 a b n : 0 <= n -> 0 <= a < 2 ^ n -> 0 <= b < 2 ^ n -> 0 <= Z.lxor a b < 2 ^ n.
Proof.
  intros Hn Ha Hb. assert (0 <= Z.lxor a b) as H0 by (apply Z.lxor_nonneg; lia). split; [done|].
  apply mask_range in Ha, Hb; [|done..]. apply mask_range; [done|]. rewrite <-Ha, <-Hb at 2.
  apply Z.bits_inj'. intros i Hi. rewrite Z.land_spec, !Z.lxor_spec, !Z.land_spec. rewrite <-Ha, <-Hb, !Z.land_spec.
  by destruct (Z.testbit a i), (Z.testbit b i), (Z.testbit (Z.ones n) i).
Qed.
Lemma high_bit x n i : 0 <= x < 2 ^ n -> 0 <= n <= i -> Z.testbit x i = false.
Proof.
  intros Hx Hn. apply Z.testbit_false; [lia|]. rewrite Z.div_small; [done|]. assert (2 ^ n <= 2 ^ i) by (apply Z.pow_le_mono_r; lia). lia.
Qed.
Lemma round_linear a b : round (Z.lxor a b) = Z.lxor (round a) (round b).
Proof.
  unfold round. rewrite Z.shiftr_lxor. assert (Z.odd (Z.lxor a b) = xorb (Z.odd a) (Z.odd b)) as ->.
  { rewrite <-!Z.bit0_odd. apply Z.lxor_spec. }
  destruct (Z.odd a), (Z.odd b); cbn [xorb]; rewrite ?Z.lxor_0_r; try done.
  - rewrite !Z.lxor_assoc. f_equal. rewrite <-(Z.lxor_assoc P), (Z.lxor_comm P), Z.lxor_assoc, Z.lxor_nilpotent. by rewrite Z.lxor_0_r.
  - rewrite !Z.lxor_assoc. f_equal. apply Z.lxor_comm.
  - by rewrite Z.lxor_assoc.
Qed.
Lemma rounds_S n c : rounds (S n) c = round (rounds n c).
Proof. done. Qed.
Lemma rounds_linear n a b : rounds n (Z.lxor a b) = Z.lxor (rounds n a) (rounds n b).
Proof. induction n as [|n IH]; [done|]. by rewrite !rounds_S, IH, round_linear. Qed.
Lemma round_u32 c : is_u32 c -> is_u32 (round c).
Proof.
  intros Hc. unfold round, is_u32, u32_mod in *. apply lxor_u32; [lia| |destruct (Z.odd c); [done|lia]].
  rewrite Z.shiftr_div_pow2 by lia. change (2 ^ 1) with 2. split; [apply Z.div_pos; lia|]. apply Z.div_lt_upper_bound; lia.
Qed.
Lemma rounds_u32 n c : is_u32 c -> is_u32 (rounds n c).
Proof. intros Hc. induction n as [|n IH]; [done|]. rewrite rounds_S. by apply round_u32. Qed.
(** A register that a round makes small was even and small. *)
Lemma round_small k c : 0 <= k <= 31 -> is_u32 c -> round c < 2 ^ k -> c = 2 * round c.
Proof.
  intros Hk Hc Hr. pose proof (round_u32 c Hc) as [Hr0 _]. unfold round in *. destruct (Z.odd c) eqn:Ho.
  - exfalso. assert (Z.testbit (Z.lxor (Z.shiftr c 1) P) 31 = true) as Hb.
    { rewrite Z.lxor_spec, HP, Z.shiftr_spec by lia. by rewrite (high_bit c 32). }
    rewrite (high_bit _ k) in Hb; [done|lia|lia].
  - rewrite Z.lxor_0_r in *. rewrite Z.shiftr_div_pow2 by lia. change (2 ^ 1) with 2. rewrite (Z.div_mod c 2) at 1 by lia.
    rewrite Zmod_odd, Ho. lia.
Qed.
Lemma rounds_small n k c : 0 <= k -> k + Z.of_nat n <= 32 -> is_u32 c -> rounds n c < 2 ^ k -> c = rounds n c * 2 ^ Z.of_nat n.
Proof.
  intros Hk Hn Hc. revert k Hk Hn. induction n as [|n IH]; intros k Hk Hn Hr; [cbn; lia|].
  rewrite rounds_S in *. pose proof (rounds_u32 n c Hc) as Hu. pose proof (round_small k _ ltac:(lia) Hu Hr) as E.
  rewrite (IH (k + 1)) at 1; [|lia|lia|].
  - rewrite E at 1. replace (Z.of_nat (S n)) with (1 + Z.of_nat n) by lia. rewrite Z.pow_add_r by lia. lia.
  - rewrite E. rewrite Z.pow_add_r by lia. lia.
Qed.
Lemma rounds_zero n c : (n <= 32)%nat -> is_u32 c -> rounds n c = 0 -> c = 0.
Proof. intros Hn Hc H. pose proof (rounds_small n 0 c ltac:(lia) ltac:(lia) Hc) as E. rewrite H in E. rewrite E by lia. apply Z.mul_0_l. Qed.

(** The difference of two registers runs through the same register. *)
Definition xor_bytes (a b : list Z) : list Z := zip_with Z.lxor a b.
Lemma register_cons x l c : register (x :: l) c = register l (step c x).
Proof. unfold register. cbn [foldl]. reflexivity. Qed.
Lemma register_diff a b c d : length a = length b ->
  Z.lxor (register a c) (register b d) = register (xor_bytes a b) (Z.lxor c d).
Proof.
  revert b c d. induction a as [|x a IH]; intros [|y b] c d Hl; try done. injection Hl as Hl. change (xor_bytes (x :: a) (y :: b)) with (Z.lxor x y :: xor_bytes a b).
  rewrite !register_cons, IH by done. f_equal.
  unfold step. rewrite <-rounds_linear. f_equal. rewrite !Z.lxor_assoc. f_equal. rewrite <-!Z.lxor_assoc. f_equal. apply Z.lxor_comm.
Qed.
Definition byte_list (l : list Z) : Prop := Forall is_u8 l.
Lemma byte_u32 b : is_u8 b -> is_u32 b.
Proof. unfold is_u8, is_u32, u8_mod, u32_mod. lia. Qed.
Lemma step_u32 c b : is_u32 c -> is_u8 b -> is_u32 (step c b).
Proof. intros Hc Hb. apply rounds_u32. apply byte_u32 in Hb. unfold is_u32, u32_mod in *. by apply lxor_u32. Qed.
Lemma register_u32 l c : byte_list l -> is_u32 c -> is_u32 (register l c).
Proof. intros Hl. revert c. induction Hl as [|b l Hb _ IH]; intros c Hc; [done|]. rewrite register_cons. by apply IH, step_u32. Qed.
(** Up to four bytes cannot bring the register to zero, unless all are zero. *)
Lemma register_zero_window e c : (length e <= 4)%nat -> byte_list e -> is_u32 c -> register e c = 0 ->
  c < 2 ^ (8 * Z.of_nat (length e)) /\ (c = 0 -> Forall (eq 0) e).
Proof.
  intros Hl He. revert c. induction He as [|b e Hb He IH]; intros c Hc H; [cbn in *; subst; split; [lia|constructor]|].
  cbn [length] in *. rewrite register_cons in H.
  destruct (IH ltac:(lia) _ (step_u32 c b Hc Hb) H) as [H1 H2].
  assert (Z.lxor c b = step c b * 256) as E.
  { pose proof (rounds_small 8 (8 * Z.of_nat (length e)) (Z.lxor c b) ltac:(lia) ltac:(lia)) as E. change (2 ^ Z.of_nat 8) with 256 in E.
    apply E; [|exact H1]. apply byte_u32 in Hb. unfold is_u32, u32_mod in *. by apply lxor_u32. }
  pose proof (step_u32 c b Hc Hb) as [Hs _]. unfold is_u8, u8_mod in Hb. split.
  - replace c with (Z.lxor (step c b * 256) b) by (by rewrite <-E, Z.lxor_assoc, Z.lxor_nilpotent, Z.lxor_0_r).
    replace (8 * Z.of_nat (S (length e))) with (8 + 8 * Z.of_nat (length e)) by lia. apply lxor_u32; [lia| |]; rewrite Z.pow_add_r by lia; change (2 ^ 8) with 256 in *; (pose proof (Z.pow_pos_nonneg 2 (8 * Z.of_nat (length e)) ltac:(lia) ltac:(lia)));
      generalize dependent (2 ^ (8 * Z.of_nat (length e))); intros; lia.
  - intros ->. rewrite Z.lxor_0_l in E. assert (step 0 b = 0) as E0 by lia. constructor; [lia|]. by apply H2.
Qed.
Lemma register_nonzero l c : is_u32 c -> c <> 0 -> register (replicate l 0) c <> 0.
Proof.
  revert c. induction l as [|l IH]; intros c Hc Hn; [done|]. cbn [replicate]. rewrite register_cons. apply IH; [apply step_u32; [done|unfold is_u8; split; done]|].
  unfold step. rewrite Z.lxor_0_r. intros E. apply Hn. apply (rounds_zero 8); [lia|done|exact E].
Qed.
Lemma xor_bytes_same l : xor_bytes l l = replicate (length l) 0.
Proof. induction l as [|x l IH]; [done|]. cbn. by rewrite Z.lxor_nilpotent, <-IH. Qed.
Lemma xor_bytes_zero a b : length a = length b -> Forall (eq 0) (xor_bytes a b) -> a = b.
Proof.
  revert b. induction a as [|x a IH]; intros [|y b] Hl H; try done. cbn in H. apply Forall_cons in H as [H1 H2]. injection Hl as Hl. f_equal; [|by apply IH].
  symmetry in H1. by apply Z.lxor_eq in H1.
Qed.
Lemma xor_byte_list a b : byte_list a -> byte_list b -> byte_list (xor_bytes a b).
Proof.
  intros Ha. revert b. induction Ha as [|x a Hx _ IH]; intros b Hb; [constructor|]. destruct Hb as [|y b Hy Hb]; [constructor|]. constructor; [|by apply IH].
  unfold is_u8, u8_mod in *. by apply lxor_u32.
Qed.
Lemma register_detects p w w' q c : byte_list w -> byte_list w' -> length w = length w' -> (length w <= 4)%nat -> w <> w' ->
  register (p ++ w ++ q) c <> register (p ++ w' ++ q) c.
Proof.
  intros Hw Hw' Hl H4 Hne E. unfold register in E. rewrite !foldl_app in E. fold (register p c) in E. set (r := register p c) in *.
  change (register q (register w r) = register q (register w' r)) in E. apply (f_equal (Z.lxor (register q (register w r)))) in E.
  rewrite Z.lxor_nilpotent, register_diff, xor_bytes_same, register_diff, Z.lxor_nilpotent in E by done. symmetry in E.
  pose proof (xor_byte_list _ _ Hw Hw') as Hx. assert (length (xor_bytes w w') <= 4)%nat as Hx4 by (unfold xor_bytes; rewrite length_zip_with; lia).
  destruct (decide (register (xor_bytes w w') 0 = 0)) as [Z0|Z0].
  - destruct (register_zero_window _ 0 Hx4 Hx ltac:(split; done) Z0) as [_ H]. apply Hne. apply xor_bytes_zero; [done|by apply H].
  - by apply (register_nonzero (length q) _ (register_u32 _ _ Hx ltac:(split; done)) Z0).
Qed.
End Register.

(** ** The two checksums as registers *)
Definition IEEE : Z := 0xEDB88320.
Definition CASTAGNOLI : Z := 0x82F63B78.
Lemma land1_odd c : Z.land c 1 = Z.b2z (Z.odd c).
Proof. change 1 with (Z.ones 1). rewrite Z.land_ones by lia. change (2 ^ 1) with 2. rewrite Zmod_odd. by destruct (Z.odd c). Qed.
Lemma ieee_round_eq c : ieee_round c = round IEEE c.
Proof. unfold ieee_round, round. rewrite land1_odd. by destruct (Z.odd c). Qed.
Lemma crc32c_round_eq c : crc32c_round c = round CASTAGNOLI c.
Proof. unfold crc32c_round, round. rewrite land1_odd. by destruct (Z.odd c). Qed.
Lemma iter_eq (f g : Z -> Z) n x : (forall y, f y = g y) -> Nat.iter n f x = Nat.iter n g x.
Proof. intros H. induction n as [|n IH]; [done|]. change (f (Nat.iter n f x) = g (Nat.iter n g x)). by rewrite IH. Qed.
Lemma ieee_byte_eq c b : ieee_byte c b = step IEEE c b.
Proof. apply iter_eq, ieee_round_eq. Qed.
Lemma foldl_eq (f g : Z -> Z -> Z) l c : (forall c b, f c b = g c b) -> foldl f c l = foldl g c l.
Proof. intros H. revert c. induction l as [|b l IH]; intros c; [done|]. cbn. by rewrite H, IH. Qed.
Lemma crc32_ieee_register data : crc32_ieee data = not32 (register IEEE data u32_max).
Proof. unfold crc32_ieee. f_equal. apply foldl_eq, ieee_byte_eq. Qed.
Lemma table_lookup i : 0 <= i < 256 -> default 0 (CRC32C_TABLE !! Z.to_nat i) = rounds CASTAGNOLI 8 i.
Proof.
  intros Hi. change CRC32C_TABLE with generate_crc32c_table. unfold generate_crc32c_table. rewrite list_lookup_fmap, lookup_seqZ_lt by lia. cbn [fmap option_fmap option_map default].
  rewrite Z.add_0_l, Z2Nat.id by lia. apply iter_eq, crc32c_round_eq.
Qed.
(** Eight rounds shift out a register whose low byte is zero. *)
Lemma rounds_shift P n y : 0 <= y -> rounds P n (y * 2 ^ Z.of_nat n) = y.
Proof.
  intros Hy. revert y Hy. induction n as [|n IH]; intros y Hy; [cbn; lia|]. rewrite rounds_S.
  replace (y * 2 ^ Z.of_nat (S n)) with ((y * 2) * 2 ^ Z.of_nat n) by (replace (Z.of_nat (S n)) with (1 + Z.of_nat n) by lia; rewrite Z.pow_add_r; lia).
  rewrite IH by lia. unfold round. rewrite Z.odd_mul, andb_false_r, Z.lxor_0_r, Z.shiftr_div_pow2 by lia. change (2 ^ 1) with 2. rewrite Z.div_mul; lia.
Qed.
Lemma split_low x : 0 <= x -> x = Z.lxor (Z.shiftr x 8 * 2 ^ 8) (Z.land x 0xFF).
Proof.
  intros Hx. rewrite <-Z.shiftl_mul_pow2 by lia. apply Z.bits_inj'. intros i Hi. rewrite Z.lxor_spec, Z.land_spec. change 0xFF with (Z.ones 8).
  rewrite Z.shiftl_spec by lia. destruct (Z.ltb_spec i 8).
  - rewrite (Z.testbit_neg_r _ (i - 8)) by lia. rewrite Z.ones_spec_low by lia. by rewrite andb_true_r.
  - rewrite Z.shiftr_spec by lia. rewrite Z.ones_spec_high by lia. rewrite andb_false_r, xorb_false_r. f_equal. lia.
Qed.
Lemma crc32c_byte_eq c b : is_u32 c -> is_u8 b -> crc32c_byte c b = step CASTAGNOLI c b.
Proof.
  intros Hc Hb. unfold crc32c_byte, step. set (x := Z.lxor c b).
  assert (0 <= x) as Hx by (apply Z.lxor_nonneg; unfold is_u32, is_u8 in *; lia).
  assert (0 <= Z.land x 0xFF < 256) as Hl by (change 0xFF with (Z.ones 8); rewrite Z.land_ones by lia; apply Z.mod_pos_bound; lia).
  rewrite table_lookup by done. rewrite (split_low x) at 2 by done. rewrite rounds_linear, (rounds_shift _ 8) by (apply Z.shiftr_nonneg; done). f_equal.
  unfold x. rewrite Z.shiftr_lxor. assert (Z.shiftr b 8 = 0) as ->; [|by rewrite Z.lxor_0_r].
  unfold is_u8, u8_mod in Hb. rewrite Z.shiftr_div_pow2 by lia. apply Z.div_small. lia.
Qed.
Lemma castagnoli_ok : Z.testbit CASTAGNOLI 31 = true /\ is_u32 CASTAGNOLI.
Proof. split; [done|split; done]. Qed.
Lemma ieee_ok : Z.testbit IEEE 31 = true /\ is_u32 IEEE.
Proof. split; [done|split; done]. Qed.
Lemma crc32c_register data seed : byte_list data -> is_u32 seed -> crc32c_with_seed data seed = register CASTAGNOLI data seed.
Proof.
  intros Hd. revert seed. induction Hd as [|b l Hb Hl IH]; intros c Hc; [done|]. rewrite register_cons, <-crc32c_byte_eq by done. unfold crc32c_with_seed in *. cbn [foldl]. apply IH.
  rewrite crc32c_byte_eq by done. apply step_u32; [apply castagnoli_ok|done|done].
Qed.
Lemma crc_detects_ieee p w w' q : byte_list w -> byte_list w' -> length w = length w' -> (length w <= 4)%nat -> w <> w' ->
  crc32_ieee (p ++ w ++ q) <> crc32_ieee (p ++ w' ++ q).
Proof.
  intros Hw Hw' Hl H4 Hne. destruct ieee_ok as [I1 I2]. rewrite !crc32_ieee_register. unfold not32. intros E.
  apply (register_detects IEEE I1 I2 p w w' q u32_max); [done..|]. lia.
Qed.

(** The table-driven checksum is the bitwise one.  For all bytes and every
    32-bit start value, [crc32c_with_seed] gives the state of the Castagnoli
    shift register after shifting in the bytes bit by bit. *)
Theorem crc32c_table_correct data seed : byte_list data -> is_u32 seed ->
  crc32c_with_seed data seed = foldl (fun c b => Nat.iter 8 crc32c_round (Z.lxor c b)) seed data.
Proof.
  intros Hd Hs. rewrite crc32c_register by done. unfold register. apply foldl_eq. intros c b. symmetry. apply iter_eq, crc32c_round_eq.
Qed.
(** C30: Damage within four bytes is always detected.  Two messages of one
    length that differ only inside a window of at most four consecutive bytes
    have different checksums, for both checksums and any common start value. *)
Theorem crc_detects_burst p w w' q seed : byte_list (p ++ w ++ q) -> byte_list w' -> is_u32 seed -> length w = length w' -> (length w <= 4)%nat -> w <> w' ->
  crc32_ieee (p ++ w ++ q) <> crc32_ieee (p ++ w' ++ q) /\
  crc32c_with_seed (p ++ w ++ q) seed <> crc32c_with_seed (p ++ w' ++ q) seed /\ crc32c (p ++ w ++ q) <> crc32c (p ++ w' ++ q).
Proof.
  intros Hb Hw' Hs Hl H4 Hne. pose proof Hb as Hb0. apply Forall_app in Hb0 as [Hp Hb0]. apply Forall_app in Hb0 as [Hw Hq].
  assert (byte_list (p ++ w' ++ q)) as Hb' by (apply Forall_app; split; [done|]; by apply Forall_app).
  destruct castagnoli_ok as [C1 C2].
  assert (forall s, is_u32 s -> crc32c_with_seed (p ++ w ++ q) s <> crc32c_with_seed (p ++ w' ++ q) s) as Hc.
  { intros s Hs'. rewrite !crc32c_register by done. by apply register_detects. }
  split_and!; [by apply crc_detects_ieee|by apply Hc|].
  unfold crc32c. intros E. apply (Hc 0xFFFFFFFF ltac:(split; done)). apply (f_equal (fun x => Z.lxor x 0xFFFFFFFF)) in E.
  by rewrite !Z.lxor_assoc, Z.lxor_nilpotent, !Z.lxor_0_r in E.
Qed.
(** The published check values of the two checksums, on the ASCII digits 1 to 9. *)
Example crc_check_values :
  let digits := [49; 50; 51; 52; 53; 54; 55; 56; 57] in crc32c digits = 0xE3069283 /\ crc32_ieee digits = 0xCBF43926.
Proof. vm_compute. done. Qed.

(** ** Witnesses *)
Lemma bytes_check l : forallb (fun b => (0 <=? b) && (b <? 256)) l = true -> byte_list l.
Proof. intros H. apply Forall_forall. intros b Hb. rewrite forallb_forall in H. apply is_u8_bool, H. by apply list_elem_of_In. Qed.
Lemma crc32c_table_correct_witness : crc32c_with_seed [1; 2; 255] 7 = foldl (fun c b => Nat.iter 8 crc32c_round (Z.lxor c b)) 7 [1; 2; 255].
Proof. apply (crc32c_table_correct [1; 2; 255] 7); [apply bytes_check; reflexivity|split; done]. Defined.
Lemma crc_detects_burst_witness : crc32_ieee ([1; 2] ++ [3; 4; 5; 6] ++ [7]) <> crc32_ieee ([1; 2] ++ [3; 4; 5; 8] ++ [7]).
Proof.
  destruct (crc_detects_burst [1; 2] [3; 4; 5; 6] [3; 4; 5; 8] [7] 0) as [H _];
    [apply bytes_check; reflexivity|apply bytes_check; reflexivity|split; done|reflexivity|cbn; lia|congruence|exact H].
Defined.
End Crc.
