(* ===== verification/Ext4Journal.v ===== *)
(** * The ext4 journal

    Models [src/src/fs/ext4_journal.rs]: checksummed journal blocks, the journal
    superblock and its byte format, transactions, the seven phases of a commit,
    recovery at mount time, the buffer-only scanner, the commit timer.  The
    registry of named journals and the text of log messages are left out.

    Disks are a type class, [BlockDevice], with the operations of the trait of
    that name the journal uses.  [TraceDisk] records the requests and may refuse
    any of them, [RamDisk] stores blocks.  A function that can fail half way
    keeps what it has already written, so commits are state and error passing
    over the journal and the disk.

    Shown: what a checksum protects ([journal_block_protected]), that superblocks
    survive the disk ([superblock_roundtrip]), the order in which a commit writes
    ([commit_write_ahead]), and two limits of the code: whole blocks can never
    be committed ([full_blocks_wedge]) and recovery does not get past a data
    block ([recover_stops_at_data]).

    [size_of::<JournalSuperblock>()] is 92: eighteen 32-bit fields, the UUID and
    one more field.  A block is at least one sector of 512 bytes, so the fixed
    offsets of headers and tags are within it. *)
From S2P Require Import Prelude Crc.

Module Ext4Journal.
Import Crc.

Definition JBD2_MAGIC : Z := 0xC03B3998.
Definition JBD2_DESCRIPTOR_BLOCK : Z := 1.
Definition JBD2_COMMIT_BLOCK : Z := 2.
Definition JBD2_SUPERBLOCK_V1 : Z := 3.
Definition JBD2_SUPERBLOCK_V2 : Z := 4.
Definition JBD2_REVOKE_BLOCK : Z := 5.
Definition JBD2_FLAG_ESCAPE : Z := 1.
Definition JBD2_FLAG_SAME_UUID : Z := 2.
Definition JOURNAL_CHECKSUM_TYPE_CRC32 : Z := 1.

Inductive JournalError :=
| InvalidSuperblock | InvalidOffset | TransactionRunning | NoTransaction | WriteError | ReadError | ChecksumError | RecoveryFailed.
Inductive JournalCommitPhase := Idle | DescriptorsWritten | DataWritten | CommitWritten | Checkpointed.
#[export] Instance phase_eq_dec : EqDecision JournalCommitPhase.
Proof. solve_decision. Defined.

(** ** Bytes *)
Definition byte_at (data : list Z) (i : nat) : Z := default 0 (data !! i).
Definition be32_at (data : list Z) (o : nat) : Z :=
  byte_at data o * 2 ^ 24 + byte_at data (o + 1) * 2 ^ 16 + byte_at data (o + 2) * 2 ^ 8 + byte_at data (o + 3).
Definition be16_at (data : list Z) (o : nat) : Z := byte_at data o * 2 ^ 8 + byte_at data (o + 1).
Definition be32 (x : Z) : list Z := [x / 2 ^ 24 mod 256; x / 2 ^ 16 mod 256; x / 2 ^ 8 mod 256; x mod 256].
Definition zeros (n : nat) : list Z := replicate n 0.
(** [data[o..o+len].copy_from_slice(l)] *)
Definition splice (o : nat) (l data : list Z) : list Z := take o data ++ l ++ drop (o + length l) data.

(** ** Checksums of journal blocks *)
Definition checksum_slot (bs : nat) : option nat := if (bs <? 4)%nat then None else Some (bs - 4)%nat.
Definition journal_block_checksum (block : list Z) (bs : nat) : option Z :=
  slot ← checksum_slot bs;
  if (length block <? bs)%nat || (length block <? slot + 4)%nat then None
  else Some (crc32_ieee (splice slot (zeros 4) (take bs block))).
Definition stamp_journal_block_checksum (block : list Z) (bs : nat) : JournalError + list Z :=
  match checksum_slot bs with
  | None => inl ChecksumError
  | Some slot =>
      if (length block <? bs)%nat || (length block <? slot + 4)%nat then inl ChecksumError
      else let block := splice slot (zeros 4) block in inr (splice slot (be32 (crc32_ieee (take bs block))) block)
  end.
Definition verify_journal_block_checksum (block : list Z) (bs : nat) : bool :=
  match checksum_slot bs with
  | None => false
  | Some slot =>
      if (length block <? bs)%nat || (length block <? slot + 4)%nat then false
      else let stored := be32_at block slot in
        if stored =? 0 then true
        else match journal_block_checksum block bs with Some c => c =? stored | None => false end
  end.

(** ** The superblock *)
Record JournalSuperblock := mkSb {
  s_header_h_magic : Z; s_header_h_blocktype : Z; s_header_h_sequence : Z; s_first : Z; s_sequence : Z; s_blocksize : Z; s_maxlen : Z;
  s_first_data_block : Z; s_transaction : Z; s_jnl_blocksize : Z; s_users : Z; s_dev_major : Z; s_dev_minor : Z; s_start : Z; s_errno : Z;
  s_feature_compat : Z; s_feature_incompat : Z; s_feature_ro_compat : Z; s_uuid : list Z; s_nr_revokes : Z }.
Definition SB_SIZE : nat := 92.
Definition sb_parse (data : list Z) : option JournalSuperblock :=
  if (length data <? SB_SIZE)%nat then None
  else if negb (be32_at data 0 =? JBD2_MAGIC) then None
  else Some (mkSb (be32_at data 0) (be32_at data 4) (be32_at data 8) (be32_at data 12) (be32_at data 16) (be32_at data 20) (be32_at data 24)
    (be32_at data 28) (be32_at data 32) (be32_at data 36) (be32_at data 40) (be32_at data 44) (be32_at data 48) (be32_at data 52)
    (be32_at data 56) (be32_at data 60) (be32_at data 64) (be32_at data 68) (take 16 (drop 72 data)) (be32_at data 88)).
Definition parse_checked (data : list Z) (bs : nat) : JournalError + JournalSuperblock :=
  if (length data <? bs)%nat then inl InvalidSuperblock
  else if negb (verify_journal_block_checksum (take bs data) bs) then inl ChecksumError
  else match sb_parse (take bs data) with Some sb => inr sb | None => inl InvalidSuperblock end.
Definition sb_words (sb : JournalSuperblock) : list Z :=
  [s_header_h_magic sb; s_header_h_blocktype sb; s_header_h_sequence sb; s_first sb; s_sequence sb; s_blocksize sb; s_maxlen sb;
   s_first_data_block sb; s_transaction sb; s_jnl_blocksize sb; s_users sb; s_dev_major sb; s_dev_minor sb; s_start sb; s_errno sb;
   s_feature_compat sb; s_feature_incompat sb; s_feature_ro_compat sb].
Definition sb_serialize (sb : JournalSuperblock) : list Z :=
  concat (be32 <$> sb_words sb) ++ s_uuid sb ++ be32 (s_nr_revokes sb).
Definition serialize_block_checked (sb : JournalSuperblock) (bs : nat) : JournalError + list Z :=
  if (bs <? SB_SIZE + 4)%nat then inl InvalidSuperblock
  else stamp_journal_block_checksum (splice 0 (sb_serialize sb) (zeros bs)) bs.
Definition set_start (start seq : Z) (sb : JournalSuperblock) : JournalSuperblock :=
  mkSb (s_header_h_magic sb) (s_header_h_blocktype sb) (s_header_h_sequence sb) (s_first sb) seq (s_blocksize sb) (s_maxlen sb)
    (s_first_data_block sb) (s_transaction sb) (s_jnl_blocksize sb) (s_users sb) (s_dev_major sb) (s_dev_minor sb) start (s_errno sb)
    (s_feature_compat sb) (s_feature_incompat sb) (s_feature_ro_compat sb) (s_uuid sb) (s_nr_revokes sb).

(** ** Other blocks *)
Record JournalHeader := mkHeader { h_magic : Z; h_blocktype : Z; h_sequence : Z }.
Definition header_parse (data : list Z) : option JournalHeader :=
  if (length data <? 12)%nat then None
  else if negb (be32_at data 0 =? JBD2_MAGIC) then None
  else Some (mkHeader (be32_at data 0) (be32_at data 4) (be32_at data 8)).
Definition header_serialize (h : JournalHeader) : list Z := be32 (h_magic h) ++ be32 (h_blocktype h) ++ be32 (h_sequence h).
Record BlockTag := mkTag { t_blocknr : Z; t_flags : Z; t_checksum : Z }.
Definition no_tag : BlockTag := mkTag 0 0 0.
(** The sixteen tags; a tag that does not fit stays zero. *)
Definition descriptor_parse (data : list Z) : option (JournalHeader * list BlockTag) :=
  h ← header_parse data;
  if negb (h_blocktype h =? JBD2_DESCRIPTOR_BLOCK) then None
  else Some (h, (fun i => let o := (12 + 8 * i)%nat in
    if (length data <? o + 8)%nat then no_tag else mkTag (be32_at data o) (be16_at data (o + 4)) (be16_at data (o + 6))) <$> seq 0 16).
Record CommitBlock := mkCommit { c_header : JournalHeader; h_chksum_type : Z; h_chksum_size : Z; h_padding : list Z; h_chksum : list Z }.
Definition commit_new (sequence : Z) : CommitBlock :=
  mkCommit (mkHeader JBD2_MAGIC JBD2_COMMIT_BLOCK sequence) JOURNAL_CHECKSUM_TYPE_CRC32 4 (zeros 2) (zeros 32).
Definition commit_serialize (c : CommitBlock) (bs : nat) : list Z :=
  splice 0 (header_serialize (c_header c) ++ [h_chksum_type c; h_chksum_size c] ++ h_padding c ++ h_chksum c) (zeros bs).
Definition serialize_checked (c : CommitBlock) (bs : nat) : JournalError + list Z := stamp_journal_block_checksum (commit_serialize c bs) bs.
(** Entries that do not fit end the loop; no more than [length data] can fit. *)
Definition revoke_entries (data : list Z) (count : nat) : list Z :=
  omap (fun i => let o := (16 + 4 * i)%nat in if (length data <? o + 4)%nat then None else Some (be32_at data o)) (seq 0 count).
Definition revoke_parse (data : list Z) : option (JournalHeader * Z * list Z) :=
  h ← header_parse data;
  if negb (h_blocktype h =? JBD2_REVOKE_BLOCK) then None
  else Some (h, be32_at data 12, revoke_entries data (Z.to_nat (Z.min (be32_at data 12) (Z.of_nat (length data))))).

(** ** Transactions *)
Inductive TransactionState := Running | Locked | Flushing | Committing | Finished.
Record TransactionBlock := mkTb { block_nr : Z; b_data : list Z; is_metadata : bool; is_new : bool }.
Record Transaction := mkTrans { tid : Z; t_state : TransactionState; blocks : list TransactionBlock; revokes : list Z; start_time : Z }.
Definition trans_new (now tid : Z) : Transaction := mkTrans tid Running [] [] now.
Definition trans_add_block (b : TransactionBlock) (t : Transaction) : Transaction :=
  mkTrans (tid t) (t_state t) (blocks t ++ [b]) (revokes t) (start_time t).
Definition add_revoke (nr : Z) (t : Transaction) : Transaction :=
  mkTrans (tid t) (t_state t) (blocks t) (if decide (nr ∈ revokes t) then revokes t else revokes t ++ [nr]) (start_time t).
Definition block_count (t : Transaction) : nat := length (blocks t).

Record Journal := mkJournal {
  superblock : JournalSuperblock; block_size : Z; journal_offset : Z; current_transaction : option Transaction; sequence : Z;
  running_trans : Z; buffer : list Z; commit_phase : JournalCommitPhase }.
Record JournalHandle := mkHandle { h_journal : Journal; h_tid : Z; h_credits : Z }.
Definition extend (additional : Z) (h : JournalHandle) : JournalHandle := mkHandle (h_journal h) (h_tid h) (u64_add (h_credits h) additional).
Definition set_current (t : option Transaction) (j : Journal) : Journal :=
  mkJournal (superblock j) (block_size j) (journal_offset j) t (sequence j) (running_trans j) (buffer j) (commit_phase j).
Definition set_running (n : Z) (j : Journal) : Journal :=
  mkJournal (superblock j) (block_size j) (journal_offset j) (current_transaction j) (sequence j) n (buffer j) (commit_phase j).
Definition set_buffer (b : list Z) (j : Journal) : Journal :=
  mkJournal (superblock j) (block_size j) (journal_offset j) (current_transaction j) (sequence j) (running_trans j) b (commit_phase j).
Definition set_phase (p : JournalCommitPhase) (j : Journal) : Journal :=
  mkJournal (superblock j) (block_size j) (journal_offset j) (current_transaction j) (sequence j) (running_trans j) (buffer j) p.
Definition set_superblock (sb : JournalSuperblock) (j : Journal) : Journal :=
  mkJournal sb (block_size j) (journal_offset j) (current_transaction j) (sequence j) (running_trans j) (buffer j) (commit_phase j).
Definition bsize (j : Journal) : nat := Z.to_nat (block_size j).

Definition journal_new (bs offset size : Z) : Journal :=
  mkJournal (mkSb JBD2_MAGIC JBD2_SUPERBLOCK_V2 0 0 1 bs (as_u32 (size / bs)) 0 0 0 0 0 0 1 0 0 0 0 (zeros 16) 0)
    bs offset None 1 0 (zeros (Z.to_nat bs)) Idle.
Definition init (device_data : list Z) (j : Journal) : Journal * (JournalError + unit) :=
  let offset := Z.to_nat (journal_offset j) in
  if (length device_data <? offset + bsize j)%nat then (j, inl InvalidOffset)
  else match parse_checked (drop offset device_data) (bsize j) with
  | inl e => (j, inl e)
  | inr sb => (mkJournal sb (block_size j) (journal_offset j) (current_transaction j) (s_sequence sb) (running_trans j) (buffer j) (commit_phase j), inr tt)
  end.
Definition MAX_CONCURRENT_TRANSACTIONS : Z := 4.
Definition start_transaction (now credits : Z) (j : Journal) : Journal * (JournalError + JournalHandle) :=
  if MAX_CONCURRENT_TRANSACTIONS <=? running_trans j then (j, inl TransactionRunning)
  else
    let t := sequence j in
    let j := mkJournal (superblock j) (block_size j) (journal_offset j) (Some (trans_new now t)) (u64_add (sequence j) 1)
               (u32_add (running_trans j) 1) (buffer j) (commit_phase j) in
    (j, inr (mkHandle j t credits)).
Definition add_trans_block (b : TransactionBlock) (j : Journal) : Journal * (JournalError + unit) :=
  match current_transaction j with
  | None => (j, inl NoTransaction)
  | Some t => (set_current (Some (trans_add_block b t)) j, inr tt)
  end.
Definition add_block (nr : Z) (data : list Z) (meta : bool) (j : Journal) : Journal * (JournalError + unit) :=
  add_trans_block (mkTb nr data meta false) j.
Definition add_new_block (nr : Z) (data : list Z) (meta : bool) (j : Journal) : Journal * (JournalError + unit) :=
  add_trans_block (mkTb nr data meta true) j.
Definition abort_transaction (j : Journal) : Journal := set_running (sat_sub (running_trans j) 1) (set_current None j).

(** ** Disks *)
Class BlockDevice (D : Type) := {
  read_sectors : Z -> Z -> D -> list Z;
  write_sectors : Z -> list Z -> D -> D * bool;
  flush : D -> D * bool }.

Section Device.
Context {D : Type} `{BlockDevice D}.

(** State and errors: the journal and the disk as far as they got. *)
Definition M (A : Type) : Type := Journal * D -> (Journal * D) * (JournalError + A).
Definition ret {A} (x : A) : M A := fun s => (s, inr x).
Definition fail {A} (e : JournalError) : M A := fun s => (s, inl e).
Definition bind {A B} (m : M A) (f : A -> M B) : M B :=
  fun s => let '(s, r) := m s in match r with inl e => (s, inl e) | inr x => f x s end.
Definition get_journal : M Journal := fun s => (s, inr s.1).
Definition modify (f : Journal -> Journal) : M unit := fun s => ((f s.1, s.2), inr tt).
Definition lift {A} (r : JournalError + A) : M A := fun s => (s, r).
Definition disk_write (lba : Z) (data : list Z) : M unit :=
  fun s => let '(d, ok) := write_sectors (as_u32 lba) data s.2 in ((s.1, d), if ok then inr tt else inl WriteError).
Definition disk_flush : M unit :=
  fun s => let '(d, ok) := flush s.2 in ((s.1, d), if ok then inr tt else inl WriteError).
Notation "'let!' x := m 'in' f" := (bind m (fun x => f)) (at level 10, x name, m at level 200, f at level 200, only parsing).
Notation "'do!' m 'in' f" := (bind m (fun _ => f)) (at level 10, m at level 200, f at level 200, only parsing).
Definition require (p : JournalCommitPhase) : M unit := let! j := get_journal in if decide (commit_phase j = p) then ret tt else fail WriteError.

(** The tags of the first sixteen blocks, as far as they fit. *)
Fixpoint put_tags (bs o : nat) (bl : list TransactionBlock) (d : list Z) : list Z :=
  match bl with
  | [] => d
  | b :: bl' =>
      if (bs - 4 <? o + 8)%nat then d
      else put_tags bs (o + 8) bl' (splice o (be32 (block_nr b) ++ [0; 0] ++ drop 2 (be32 (crc32_ieee (b_data b)))) d)
  end.
Definition write_descriptors (t : Transaction) : M unit :=
  do! modify (fun j => set_buffer [] (set_phase Idle j)) in
  let! j := get_journal in
  let bs := bsize j in
  let d := splice 0 (header_serialize (mkHeader JBD2_MAGIC JBD2_DESCRIPTOR_BLOCK (as_u32 (tid t)))) (zeros bs) in
  let! d := lift (stamp_journal_block_checksum (put_tags bs 12 (take 16 (blocks t)) d) bs) in
  do! modify (fun j => set_buffer (buffer j ++ d) j) in
  do! disk_write (journal_offset j / block_size j + 1) d in
  modify (set_phase DescriptorsWritten).
Fixpoint write_blocks (bs : nat) (lba : Z) (bl : list TransactionBlock) : M unit :=
  match bl with
  | [] => ret tt
  | b :: bl' =>
      if (bs - 4 <? length (b_data b))%nat then fail WriteError
      else
        let! d := lift (stamp_journal_block_checksum (splice 0 (b_data b) (zeros bs)) bs) in
        do! modify (fun j => set_buffer (buffer j ++ d) j) in
        do! disk_write lba d in
        write_blocks bs (u32_add lba 1) bl'
  end.
Definition write_data_blocks (t : Transaction) : M unit :=
  do! require DescriptorsWritten in
  let! j := get_journal in
  do! write_blocks (bsize j) (as_u32 (journal_offset j / block_size j + 2)) (blocks t) in
  modify (set_phase DataWritten).
Definition write_commit_block (t : Transaction) : M unit :=
  do! require DataWritten in
  let! j := get_journal in
  let! d := lift (serialize_checked (commit_new (as_u32 (tid t))) (bsize j)) in
  do! modify (fun j => set_buffer (buffer j ++ d) j) in
  do! disk_write (journal_offset j / block_size j + 2 + Z.of_nat (length (blocks t))) d in
  modify (set_phase CommitWritten).
Fixpoint write_home (bs : nat) (bl : list TransactionBlock) : M unit :=
  match bl with
  | [] => ret tt
  | b :: bl' =>
      let len := Nat.min (length (b_data b)) bs in
      do! disk_write (block_nr b) (splice 0 (take len (b_data b)) (zeros bs)) in write_home bs bl'
  end.
Definition checkpoint (t : Transaction) : M unit :=
  do! require CommitWritten in
  let! j := get_journal in
  if existsb (fun b => (bsize j <? length (b_data b))%nat) (blocks t) then fail WriteError
  else do! write_home (bsize j) (blocks t) in do! disk_flush in modify (set_phase Checkpointed).
Definition update_superblock : M unit :=
  do! require Checkpointed in
  do! modify (fun j => set_superblock (set_start 0 (as_u32 (sequence j)) (superblock j)) j) in
  let! j := get_journal in
  let! d := lift (serialize_block_checked (superblock j) (bsize j)) in
  do! modify (fun j => set_buffer (splice 0 d (buffer j ++ zeros (length d - length (buffer j)))) j) in
  do! disk_write (journal_offset j / block_size j) d in
  do! disk_flush in
  modify (set_phase Idle).
Definition commit_transaction : M unit :=
  let! j := get_journal in
  match current_transaction j with
  | None => fail NoTransaction
  | Some t =>
      do! modify (set_current None) in
      do! write_descriptors t in
      do! write_data_blocks t in
      do! disk_flush in
      do! write_commit_block t in
      do! disk_flush in
      do! checkpoint t in
      do! update_superblock in
      modify (fun j => set_running (sat_sub (running_trans j) 1) j)
  end.

(** ** Recovery *)
Record BlockTagInfo := mkTagInfo { target_block : Z; data_offset : nat; is_escape : bool }.
Record ScannedTransaction := mkScan { sc_seq : Z; descriptor_offset : nat; commit_offset : nat; block_tags : list BlockTagInfo; has_commit : bool }.
Inductive RecoveryPhase := Scan | Replay | Revoke | Complete.
Record RecoveryResult := mkResult {
  r_phase : RecoveryPhase; transactions_found : Z; blocks_replayed : Z; blocks_revoked : Z; last_sequence : Z; success : bool }.
Definition read_journal_block (j : Journal) (pos : nat) (d : D) : list Z :=
  read_sectors (as_u32 (journal_offset j / 512 + Z.of_nat (pos * bsize j / 512))) (Z.of_nat (bsize j / 512) mod 256) d.
(** The tags of a descriptor block at [pos]; the data block of every tag is taken to be the next one. *)
Fixpoint scan_tags (fuel : nat) (block : list Z) (bs len pos o : nat) : list BlockTagInfo :=
  match fuel with
  | O => []
  | S f =>
      if (bs - 4 <? o + 4)%nat then []
      else
        let nr := be32_at block o in
        if nr =? 0 then []
        else
          let flags := if (o + 6 <=? bs)%nat then be16_at block (o + 4) else 0 in
          let tag := mkTagInfo nr (pos + 1) (negb (Z.land flags JBD2_FLAG_ESCAPE =? 0)) in
          let size := if negb (Z.land flags JBD2_FLAG_SAME_UUID =? 0) then 24%nat else 8%nat in
          (if (pos + 1 <? len)%nat then [tag] else []) ++ scan_tags f block bs len pos (o + size)
  end.
(** The checksum over descriptor and data blocks that a commit block may carry. *)
Definition chain_checksum (j : Journal) (d : D) (t : ScannedTransaction) (desc : list Z) : Z :=
  foldl (fun c tag => let b := read_journal_block j (data_offset tag) d in
           if (bsize j <=? length b)%nat then crc32c_with_seed (take (bsize j) b) c else c)
    (crc32c_with_seed (take (bsize j) desc) u32_max) (block_tags t).
Definition commit_valid (j : Journal) (d : D) (block : list Z) (t : ScannedTransaction) : bool :=
  let bs := bsize j in
  let ty := if (12 <? bs)%nat then byte_at block 12 else 0 in
  let sz := if (13 <? bs)%nat then byte_at block 13 else 0 in
  if (ty =? JOURNAL_CHECKSUM_TYPE_CRC32) && (sz =? 4) && (20 <=? bs)%nat then
    let stored := be32_at block 16 in
    if stored =? 0 then true
    else let desc := read_journal_block j (descriptor_offset t) d in
      if (bs <=? length desc)%nat then chain_checksum j d t desc =? stored else true
  else true.
Record ScanState := mkSt { st_txns : list ScannedTransaction; st_revoke : list Z; st_current : option ScannedTransaction; st_max : Z }.
(** Keep the transaction that ends here if it was committed. *)
Definition close_txn (s : ScanState) : ScanState :=
  match st_current s with
  | Some t => if has_commit t then mkSt (st_txns s ++ [t]) (st_revoke s) None (Z.max (st_max s) (sc_seq t)) else mkSt (st_txns s) (st_revoke s) None (st_max s)
  | None => s
  end.
Definition scan_block (j : Journal) (d : D) (len pos : nat) (block : list Z) (h : JournalHeader) (s : ScanState) : option ScanState :=
  let bs := bsize j in
  if h_blocktype h =? JBD2_DESCRIPTOR_BLOCK then
    let s := close_txn s in
    Some (mkSt (st_txns s) (st_revoke s) (Some (mkScan (h_sequence h) pos 0 (scan_tags bs block bs len pos 12) false)) (st_max s))
  else if h_blocktype h =? JBD2_COMMIT_BLOCK then
    Some match st_current s with
         | Some t =>
             if h_sequence h =? sc_seq t
             then mkSt (st_txns s) (st_revoke s) (Some (mkScan (sc_seq t) (descriptor_offset t) pos (block_tags t) (commit_valid j d block t))) (st_max s)
             else s
         | None => s
         end
  else if h_blocktype h =? JBD2_REVOKE_BLOCK then
    let count := Z.to_nat (Z.min (if (16 <=? bs)%nat then be32_at block 12 else 0) (Z.of_nat ((bs - 16) / 4))) in
    Some (mkSt (st_txns s) (st_revoke s ++ ((fun i => be32_at block (16 + 4 * i)) <$> seq 0 count)) (st_current s) (st_max s))
  else if (h_blocktype h =? JBD2_SUPERBLOCK_V1) || (h_blocktype h =? JBD2_SUPERBLOCK_V2) then Some s
  else None.
Fixpoint scan (fuel : nat) (j : Journal) (d : D) (len pos : nat) (s : ScanState) : ScanState :=
  match fuel with
  | O => s
  | S f =>
      if (len <=? pos)%nat then s
      else
        let block := read_journal_block j pos d in
        if (length block =? 0)%nat || (length block <? bsize j)%nat then s
        else if negb (verify_journal_block_checksum block (bsize j)) then s
        else match header_parse block with
        | None => s
        | Some h => match scan_block j d len pos block h s with Some s => scan f j d len (S pos) s | None => s end
        end
  end.
Fixpoint unescape (bs i : nat) (l : list Z) : list Z :=
  match l with
  | [] => []
  | b :: l' => (if (i <? bs)%nat then Z.lxor b (byte_at (be32 JBD2_MAGIC) (i mod 4)) else b) :: unescape bs (S i) l'
  end.
Definition replay_tag (j : Journal) (s : D * Z) (tag : BlockTagInfo) : D * Z :=
  let '(d, n) := s in
  let b := read_journal_block j (data_offset tag) d in
  if (length b =? 0)%nat || (length b <? bsize j)%nat then (d, n)
  else
    let b := if is_escape tag then unescape (bsize j) 0 b else b in
    let '(d, ok) := write_sectors (as_u32 (target_block tag)) (take (bsize j) b) d in
    (d, if ok : bool then u32_add n 1 else n).
Definition recover (j : Journal) (d : D) : Journal * D * (JournalError + RecoveryResult) :=
  if s_start (superblock j) =? 0 then (j, d, inr (mkResult Complete 0 0 0 0 true))
  else
    let len := Z.to_nat (s_maxlen (superblock j)) in
    let pos := Z.to_nat (s_start (superblock j)) in
    let s := close_txn (scan (len - pos) j d len pos (mkSt [] [] None 0)) in
    let kept := (fun t => filter (fun tag => target_block tag ∉ st_revoke s) (block_tags t)) <$> st_txns s in
    let revoked := sumZ (fun t => Z.of_nat (length (filter (fun tag => target_block tag ∈ st_revoke s) (block_tags t)))) (st_txns s) in
    let '(d, replayed) := foldl (replay_tag j) (d, 0) (concat kept) in
    let next := u32_add (st_max s) 1 in
    let j := set_superblock (set_start 0 next (superblock j)) j in
    match serialize_block_checked (superblock j) (bsize j) with
    | inl e => (j, d, inl e)
    | inr sb =>
        let '(d, _) := write_sectors (as_u32 (journal_offset j / 512)) sb d in
        (j, d, inr (mkResult Complete (as_u32 (Z.of_nat (length (st_txns s)))) replayed (as_u32 revoked) next true))
    end.
End Device.

(** ** The scanner on a journal image *)
Record ReplayState := mkRs { rs_revoked : list Z; rs_replay : list (Z * nat); rs_seq : Z; rs_found : Z }.
(** The tags of one descriptor block; [None]: a data block fails its checksum. *)
Fixpoint collect_tags (image : list Z) (bs o : nat) (tags : list BlockTag) (acc : list (Z * nat)) : option (list (Z * nat)) :=
  match tags with
  | [] => Some acc
  | t :: tags' =>
      if t_blocknr t =? 0 then collect_tags image bs o tags' acc
      else if (length image <? o + bs + bs)%nat then collect_tags image bs o tags' acc
      else if negb (verify_journal_block_checksum (take bs (drop (o + bs) image)) bs) then None
      else collect_tags image bs o tags' (acc ++ [(t_blocknr t, (o + bs)%nat)])
  end.
Definition replay_block (image : list Z) (bs o : nat) (block : list Z) (s : ReplayState) : option ReplayState :=
  match header_parse block with
  | None => Some s
  | Some h =>
      if h_blocktype h =? 1 then
        if h_sequence h =? rs_seq s then
          match descriptor_parse block with
          | Some (_, tags) =>
              (fun acc => mkRs (rs_revoked s) acc (rs_seq s) (u32_add (rs_found s) 1)) <$> collect_tags image bs o tags (rs_replay s)
          | None => Some s
          end
        else Some s
      else if h_blocktype h =? 2 then
        Some (if h_sequence h =? rs_seq s then mkRs (rs_revoked s) (rs_replay s) (u32_add (rs_seq s) 1) (rs_found s) else s)
      else if h_blocktype h =? 5 then
        Some match revoke_parse block with
             | Some (_, _, es) => mkRs (rs_revoked s ++ es) (rs_replay s) (rs_seq s) (rs_found s)
             | None => s
             end
      else Some s
  end.
Fixpoint replay_loop (fuel : nat) (image : list Z) (bs o : nat) (s : ReplayState) : ReplayState * bool :=
  match fuel with
  | O => (s, true)
  | S f =>
      if (length image <? o + bs)%nat then (s, true)
      else let block := take bs (drop o image) in
        if negb (verify_journal_block_checksum block bs) then (s, false)
        else match replay_block image bs o block s with
        | None => (s, false)
        | Some s => replay_loop f image bs (o + bs) s
        end
  end.
Definition replay_journal (image : list Z) (bs : nat) : RecoveryResult :=
  if (length image <? bs)%nat then mkResult Scan 0 0 0 0 false
  else match parse_checked (take (Nat.min bs (length image)) image) bs with
  | inl _ => mkResult Scan 0 0 0 0 false
  | inr sb =>
      let '(s, ok) := replay_loop (length image) image bs bs (mkRs [] [] (s_sequence sb) 0) in
      if negb ok then mkResult Scan (rs_found s) 0 0 0 false
      else
        let kept := filter (fun p => p.1 ∉ rs_revoked s) (rs_replay s) in
        mkResult Complete (rs_found s) (as_u32 (Z.of_nat (length kept))) (as_u32 (Z.of_nat (length (rs_revoked s)))) (rs_seq s) true
  end.
Definition needs_recovery (image : list Z) : bool := match sb_parse image with Some sb => negb (s_start sb =? 0) | None => false end.
Definition checkpoint_image (image : list Z) (bs : nat) (up_to_seq : Z) : list Z :=
  match parse_checked image bs with
  | inl _ => image
  | inr sb =>
      if s_sequence sb <=? up_to_seq then
        match serialize_block_checked (set_start 0 (u32_add up_to_seq 1) sb) bs with
        | inl _ => image
        | inr d => let len := Nat.min (length d) bs in splice 0 (take len d) image
        end
      else image
  end.

(** ** The commit timer *)
Record CommitTimer := mkTimer { last_commit_tick : Z; interval_ticks : Z; dirty_inodes : Z; commit_count : Z }.
Definition timer_new (now secs ticks_per_sec : Z) : CommitTimer := mkTimer now (u64_sat_mul secs ticks_per_sec) 0 0.
Definition mark_dirty (t : CommitTimer) : CommitTimer := mkTimer (last_commit_tick t) (interval_ticks t) (u32_add (dirty_inodes t) 1) (commit_count t).
Section Timer.
Context {D : Type} `{BlockDevice D}.
Definition force_commit (now : Z) (t : CommitTimer) (j : Journal) (d : D) : CommitTimer * Journal * D * bool :=
  match current_transaction j with
  | None => (t, j, d, false)
  | Some _ =>
      let '(s, r) := commit_transaction (j, d) in
      match r with
      | inr _ => (mkTimer now (interval_ticks t) 0 (u64_add (commit_count t) 1), s.1, s.2, true)
      | inl _ => (t, s.1, s.2, false)
      end
  end.
Definition check_and_commit (now : Z) (t : CommitTimer) (j : Journal) (d : D) : CommitTimer * Journal * D * bool :=
  if (interval_ticks t <=? sat_sub now (last_commit_tick t)) && (0 <? dirty_inodes t) then force_commit now t j d else (t, j, d, false).
End Timer.

(** ** Bytes in blocks *)
Lemma splice_length o l d : (o + length l <= length d)%nat -> length (splice o l d) = length d.
Proof. intros H. unfold splice. rewrite !length_app, length_take, length_drop. lia. Qed.
Lemma splice_end o l d : length d = (o + length l)%nat -> splice o l d = take o d ++ l.
Proof. intros H. unfold splice. rewrite drop_ge by lia. by rewrite app_nil_r. Qed.
Lemma splice_0 l d : splice 0 l d = l ++ drop (length l) d.
Proof. done. Qed.
Lemma be32_value x : is_u32 x ->
  x / 2 ^ 24 mod 256 * 2 ^ 24 + x / 2 ^ 16 mod 256 * 2 ^ 16 + x / 2 ^ 8 mod 256 * 2 ^ 8 + x mod 256 = x.
Proof.
  intros [H0 H1]. unfold u32_mod in *. change (2 ^ 24) with (256 * 256 * 256). change (2 ^ 16) with (256 * 256). change (2 ^ 8) with 256.
  rewrite <-!Z.div_div by lia. change (2 ^ 32) with 4294967296 in *.
  pose proof (Z.div_mod x 256). pose proof (Z.div_mod (x / 256) 256). pose proof (Z.div_mod (x / 256 / 256) 256).
  rewrite (Z.mod_small (x / 256 / 256 / 256)); [lia|]. split; [repeat apply Z.div_pos; lia|]. repeat (apply Z.div_lt_upper_bound; [lia|]). lia.
Qed.
Lemma lookup_after (p q : list Z) i : (p ++ q) !! (length p + i)%nat = q !! i.
Proof. rewrite lookup_app_r by lia. f_equal. lia. Qed.
Lemma be32_at_app p x q : is_u32 x -> be32_at (p ++ be32 x ++ q) (length p) = x.
Proof.
  intros Hx. unfold be32_at, byte_at. rewrite <-(Nat.add_0_r (length p)) at 1.
  rewrite (lookup_after p _ 0), (lookup_after p _ 1), (lookup_after p _ 2), (lookup_after p _ 3). exact (be32_value x Hx).
Qed.
Lemma be32_length x : length (be32 x) = 4%nat.
Proof. done. Qed.
Lemma slot_of bs : (4 <= bs)%nat -> checksum_slot bs = Some (bs - 4)%nat.
Proof. intros H. unfold checksum_slot. by replace (bs <? 4)%nat with false by (symmetry; apply Nat.ltb_ge; lia). Qed.
Definition block_crc (block : list Z) (bs : nat) : Z := crc32_ieee (take (bs - 4) block ++ zeros 4).
Lemma crc_u32 data : byte_list data -> is_u32 (crc32_ieee data).
Proof.
  intros Hd. rewrite crc32_ieee_register. destruct ieee_ok as [H1 H2]. assert (is_u32 (register IEEE data u32_max)) as Hr by (apply register_u32; [done|done|split; done]).
  unfold not32, is_u32, u32_max, u32_mod in *. lia.
Qed.
Lemma zeros_bytes n : byte_list (zeros n).
Proof. apply Forall_replicate. split; done. Qed.
Lemma block_crc_u32 block bs : byte_list block -> is_u32 (block_crc block bs).
Proof. intros H. apply crc_u32, Forall_app. split; [by apply Forall_take|apply zeros_bytes]. Qed.
Lemma stamp_eq block bs : (4 <= bs)%nat -> length block = bs ->
  stamp_journal_block_checksum block bs = inr (take (bs - 4) block ++ be32 (block_crc block bs)).
Proof.
  intros Hb Hl. unfold stamp_journal_block_checksum. rewrite slot_of by done. rewrite Hl.
  replace ((bs <? bs)%nat || (bs <? bs - 4 + 4)%nat) with false by (symmetry; apply orb_false_iff; split; apply Nat.ltb_ge; lia).
  rewrite (splice_end (bs - 4) (zeros 4)) by (rewrite Hl; change (length (zeros 4)) with 4%nat; lia). assert (length (take (bs - 4) block ++ zeros 4) = bs) as E by (rewrite length_app, length_take; change (length (zeros 4)) with 4%nat; lia).
  f_equal. rewrite splice_end by (rewrite E, be32_length; lia). rewrite (take_ge _ bs) by lia. fold (block_crc block bs).
  rewrite take_app_le by (rewrite length_take; lia). by rewrite take_take, Nat.min_id.
Qed.
Lemma verify_eq block bs : (4 <= bs)%nat -> length block = bs ->
  verify_journal_block_checksum block bs = (be32_at block (bs - 4) =? 0) || (block_crc block bs =? be32_at block (bs - 4)).
Proof.
  intros Hb Hl. unfold verify_journal_block_checksum, journal_block_checksum. rewrite slot_of by done. rewrite Hl. cbn [mbind option_bind].
  replace ((bs <? bs)%nat || (bs <? bs - 4 + 4)%nat) with false by (symmetry; apply orb_false_iff; split; apply Nat.ltb_ge; lia).
  rewrite (take_ge block) by lia. rewrite splice_end by (rewrite Hl; change (length (zeros 4)) with 4%nat; lia). fold (block_crc block bs). by destruct (be32_at block (bs - 4) =? 0).
Qed.
Lemma stamped_verifies block bs : (4 <= bs)%nat -> length block = bs -> byte_list block ->
  let b := take (bs - 4) block ++ be32 (block_crc block bs) in
  length b = bs /\ be32_at b (bs - 4) = block_crc block bs /\ block_crc b bs = block_crc block bs /\ verify_journal_block_checksum b bs = true.
Proof.
  intros Hb Hl Hy b. assert (length (take (bs - 4) block) = bs - 4)%nat as Ht by (rewrite length_take; lia).
  assert (length b = bs) as Hlb by (unfold b; rewrite length_app, Ht, be32_length; lia).
  assert (be32_at b (bs - 4) = block_crc block bs) as H1.
  { unfold b. rewrite <-Ht at 2. rewrite <-(app_nil_r (be32 _)). apply be32_at_app. by apply block_crc_u32. }
  assert (block_crc b bs = block_crc block bs) as H2.
  { unfold block_crc at 1, b. rewrite take_app_le by lia. by rewrite take_take, Nat.min_id. }
  split_and!; try done. rewrite verify_eq by done. rewrite H1, H2, Z.eqb_refl. apply orb_true_r.
Qed.

(** Journal blocks are protected.  A block that was stamped verifies; and a
    block that verifies and carries a checksum other than 0 no longer verifies
    after any change within four consecutive bytes before the checksum. *)
Theorem journal_block_protected bs block p w w' q : (4 <= bs)%nat -> length block = bs -> byte_list block ->
  byte_list (p ++ w ++ q) -> byte_list w' -> length (p ++ w ++ q) = bs -> length w = length w' -> (length w <= 4)%nat -> (length p + length w <= bs - 4)%nat -> w <> w' ->
  (exists b, stamp_journal_block_checksum block bs = inr b /\ verify_journal_block_checksum b bs = true) /\
  (verify_journal_block_checksum (p ++ w ++ q) bs = true -> be32_at (p ++ w ++ q) (bs - 4) <> 0 ->
   verify_journal_block_checksum (p ++ w' ++ q) bs = false).
Proof.
  intros Hbs Hl Hb Hb0 Hw' Hlen Hww H4 Hpos Hne. split; [rewrite stamp_eq by done; eexists; split; [done|by apply stamped_verifies]|].
  assert (length (p ++ w' ++ q) = bs) as Hlen' by (rewrite !length_app in *; lia). rewrite !verify_eq by done.
  assert (be32_at (p ++ w' ++ q) (bs - 4) = be32_at (p ++ w ++ q) (bs - 4)) as ->.
  { unfold be32_at, byte_at. rewrite !app_assoc. rewrite !(lookup_app_r (p ++ _)) by (rewrite length_app; lia). rewrite !length_app. by rewrite Hww. }
  set (s := be32_at (p ++ w ++ q) (bs - 4)). intros Hv Hs. replace (s =? 0) with false in * by lia. cbn [orb] in *. apply Z.eqb_eq in Hv. apply Z.eqb_neq. rewrite <-Hv.
  unfold block_crc. rewrite !app_assoc. rewrite !(take_app_ge (p ++ _)) by (rewrite length_app; lia). rewrite !length_app, <-Hww.
  set (r := take _ q). rewrite <-!app_assoc. apply Forall_app in Hb0 as [Hp Hb0]. apply Forall_app in Hb0 as [Hw Hq].
  intros E. by apply (crc_detects_ieee p w w' (r ++ zeros 4)).
Qed.

(** ** The superblock on disk *)
Definition sb_ok (sb : JournalSuperblock) : Prop :=
  Forall is_u32 (sb_words sb) /\ is_u32 (s_nr_revokes sb) /\ byte_list (s_uuid sb) /\ length (s_uuid sb) = 16%nat /\ s_header_h_magic sb = JBD2_MAGIC.
Lemma be32_words ws q i w : Forall is_u32 ws -> ws !! i = Some w -> be32_at (concat (be32 <$> ws) ++ q) (4 * i) = w.
Proof.
  revert i. induction ws as [|x ws IH]; intros i Hw Hi; [done|]. apply Forall_cons in Hw as [Hx Hw]. destruct i as [|i].
  - injection Hi as ->. change (concat (be32 <$> w :: ws) ++ q) with ((be32 w ++ concat (be32 <$> ws)) ++ q). rewrite <-app_assoc. by apply (be32_at_app []).
  - replace (4 * S i)%nat with (length (be32 x) + 4 * i)%nat by (rewrite be32_length; lia).
    change (concat (be32 <$> x :: ws) ++ q) with ((be32 x ++ concat (be32 <$> ws)) ++ q). rewrite <-app_assoc.
    unfold be32_at, byte_at. rewrite <-!Nat.add_assoc, !lookup_after. by apply IH.
Qed.
Lemma be32_bytes x : byte_list (be32 x).
Proof. unfold be32. repeat constructor; unfold is_u8, u8_mod; apply Z.mod_pos_bound; lia. Qed.
Lemma words_bytes ws : byte_list (concat (be32 <$> ws)).
Proof. induction ws as [|w ws IH]; [constructor|]. cbn [fmap list_fmap concat]. apply Forall_app. split; [apply be32_bytes|exact IH]. Qed.
Lemma words_length ws : length (concat (be32 <$> ws)) = (4 * length ws)%nat.
Proof. induction ws as [|w ws IH]; [done|]. cbn [fmap list_fmap concat length]. rewrite length_app, be32_length, IH. lia. Qed.
Lemma sb_serialize_length sb : sb_ok sb -> length (sb_serialize sb) = SB_SIZE.
Proof. intros (_ & _ & _ & Hu & _). unfold sb_serialize. rewrite !length_app, words_length, Hu. done. Qed.
Lemma sb_serialize_bytes sb : sb_ok sb -> byte_list (sb_serialize sb).
Proof. intros (_ & _ & Hu & _). unfold sb_serialize. apply Forall_app. split; [apply words_bytes|]. apply Forall_app. split; [done|apply be32_bytes]. Qed.
Lemma sb_parse_serialize sb q : sb_ok sb -> sb_parse (sb_serialize sb ++ q) = Some sb.
Proof.
  intros Hok. pose proof (sb_serialize_length sb Hok) as Hl. destruct Hok as (Hw & Hn & Hub & Hu & Hm).
  unfold sb_parse. rewrite length_app, Hl. replace (SB_SIZE + length q <? SB_SIZE)%nat with false by (symmetry; apply Nat.ltb_ge; lia).
  assert (be32_at (sb_serialize sb ++ q) 88 = s_nr_revokes sb) as E88.
  { unfold sb_serialize. rewrite (app_assoc (concat _)), <-app_assoc. set (p := concat _ ++ _).
    replace 88%nat with (length p) by (unfold p; rewrite length_app, words_length, Hu; done). by apply be32_at_app. }
  assert (take 16 (drop 72 (sb_serialize sb ++ q)) = s_uuid sb) as Euuid.
  { unfold sb_serialize. rewrite <-!app_assoc. rewrite (drop_app_length' (concat (be32 <$> sb_words sb))) by (rewrite words_length; done). by apply take_app_length'. }
  rewrite Euuid, E88. clear E88 Euuid. unfold sb_serialize. rewrite <-!app_assoc. set (r := s_uuid sb ++ _). clearbody r. destruct sb as [].
  cbn [s_header_h_magic] in Hm. assert (forall o i w, sb_words _ !! i = Some w -> o = (4 * i)%nat -> be32_at _ o = w) as B by (intros o i w Hi ->; exact (be32_words _ r i w Hw Hi)).
  rewrite (B 0 0 _ eq_refl eq_refl)%nat, (B 4 1 _ eq_refl eq_refl)%nat, (B 8 2 _ eq_refl eq_refl)%nat, (B 12 3 _ eq_refl eq_refl)%nat, (B 16 4 _ eq_refl eq_refl)%nat, (B 20 5 _ eq_refl eq_refl)%nat, (B 24 6 _ eq_refl eq_refl)%nat,
    (B 28 7 _ eq_refl eq_refl)%nat, (B 32 8 _ eq_refl eq_refl)%nat, (B 36 9 _ eq_refl eq_refl)%nat, (B 40 10 _ eq_refl eq_refl)%nat, (B 44 11 _ eq_refl eq_refl)%nat, (B 48 12 _ eq_refl eq_refl)%nat, (B 52 13 _ eq_refl eq_refl)%nat,
    (B 56 14 _ eq_refl eq_refl)%nat, (B 60 15 _ eq_refl eq_refl)%nat, (B 64 16 _ eq_refl eq_refl)%nat, (B 68 17 _ eq_refl eq_refl)%nat. rewrite Hm, Z.eqb_refl. done.
Qed.
Lemma serialize_checked_eq sb bs : sb_ok sb -> (SB_SIZE + 4 <= bs)%nat ->
  let raw := sb_serialize sb ++ zeros (bs - SB_SIZE) in
  length raw = bs /\ byte_list raw /\ serialize_block_checked sb bs = inr (take (bs - 4) raw ++ be32 (block_crc raw bs)).
Proof.
  intros Hok Hbs raw. assert (length raw = bs) as Hl by (unfold raw, zeros; rewrite length_app, sb_serialize_length, length_replicate by done; lia).
  split_and!; [done|apply Forall_app; split; [by apply sb_serialize_bytes|apply zeros_bytes]|].
  unfold serialize_block_checked. replace (bs <? SB_SIZE + 4)%nat with false by (symmetry; apply Nat.ltb_ge; lia).
  rewrite splice_0, sb_serialize_length by done. unfold zeros at 1. rewrite drop_replicate. fold (zeros (bs - SB_SIZE)). apply stamp_eq; [lia|done].
Qed.

(** Superblocks survive the disk.  Every superblock with the journal's
    magic and fields in range can be written into any block of at least 96
    bytes, and what is read back from the start of that block passes the
    checksum and is the same superblock. *)
Theorem superblock_roundtrip sb bs rest : sb_ok sb -> (SB_SIZE + 4 <= bs)%nat ->
  exists d, serialize_block_checked sb bs = inr d /\ length d = bs /\ parse_checked (d ++ rest) bs = inr sb.
Proof.
  intros Hok Hbs. destruct (serialize_checked_eq sb bs Hok Hbs) as (Hl & Hb & ->). set (raw := sb_serialize sb ++ _) in *. eexists. split; [done|].
  assert (4 <= bs)%nat as H4 by (unfold SB_SIZE in *; lia). destruct (stamped_verifies raw bs H4 Hl Hb) as (Hlen & _ & _ & Hv). split; [done|]. unfold parse_checked. rewrite take_app_length' by done. rewrite Hv, length_app, Hlen.
  replace (bs + length rest <? bs)%nat with false by (symmetry; apply Nat.ltb_ge; lia). cbn [negb].
  assert (take (bs - 4) raw = sb_serialize sb ++ zeros (bs - SB_SIZE - 4)) as ->; [|by rewrite <-app_assoc, sb_parse_serialize].
  unfold raw. rewrite take_app_ge by (rewrite sb_serialize_length by done; lia). rewrite sb_serialize_length by done.
  unfold zeros. rewrite take_replicate. f_equal. f_equal. lia.
Qed.

(** ** The order of a commit's writes *)
Inductive Event := Wrote (lba : Z) (data : list Z) | Flushed.
(** A disk that records what is asked of it; request number [n] fails if [fails n]. *)
Definition TraceDisk (fails : nat -> bool) : BlockDevice (list Event) := {|
  read_sectors := fun _ _ _ => [];
  write_sectors := fun lba data d => if fails (length d) then (d, false) else (d ++ [Wrote lba data], true);
  flush := fun d => if fails (length d) then (d, false) else (d ++ [Flushed], true) |}.
Definition stamped (bs : nat) (block : list Z) : list Z := take (bs - 4) block ++ be32 (block_crc block bs).
Definition descriptor_image (bs : nat) (t : Transaction) : list Z :=
  put_tags bs 12 (take 16 (blocks t)) (splice 0 (header_serialize (mkHeader JBD2_MAGIC JBD2_DESCRIPTOR_BLOCK (as_u32 (tid t)))) (zeros bs)).
Fixpoint data_trace (bs : nat) (lba : Z) (bl : list TransactionBlock) : list Event :=
  match bl with
  | [] => []
  | b :: bl' => Wrote (as_u32 lba) (stamped bs (splice 0 (b_data b) (zeros bs))) :: data_trace bs (u32_add lba 1) bl'
  end.
Definition home_image (bs : nat) (b : TransactionBlock) : list Z := splice 0 (take (Nat.min (length (b_data b)) bs) (b_data b)) (zeros bs).
Definition home_trace (bs : nat) (bl : list TransactionBlock) : list Event := (fun b => Wrote (as_u32 (block_nr b)) (home_image bs b)) <$> bl.
Definition next_superblock (j : Journal) : JournalSuperblock := set_start 0 (as_u32 (sequence j)) (superblock j).
Definition journal_base (j : Journal) : Z := journal_offset j / block_size j.
(** What goes to the journal: descriptor and data, a barrier, the commit block, a barrier. *)
Definition log_trace (j : Journal) (t : Transaction) : list Event :=
  let bs := bsize j in
  [Wrote (as_u32 (journal_base j + 1)) (stamped bs (descriptor_image bs t))] ++ data_trace bs (as_u32 (journal_base j + 2)) (blocks t) ++
  [Flushed; Wrote (as_u32 (journal_base j + 2 + Z.of_nat (length (blocks t)))) (stamped bs (commit_serialize (commit_new (as_u32 (tid t))) bs)); Flushed].
(** What goes to the file system and the superblock afterwards. *)
Definition checkpoint_trace (j : Journal) (t : Transaction) : list Event :=
  home_trace (bsize j) (blocks t) ++
  [Flushed; Wrote (as_u32 (journal_base j)) (stamped (bsize j) (splice 0 (sb_serialize (next_superblock j)) (zeros (bsize j)))); Flushed].

Section Emits.
Context (fails : nat -> bool) (G : Prop) (HG : G -> forall n, fails n = false) (E : Journal -> Prop).
#[local] Instance trace_device : BlockDevice (list Event) := TraceDisk fails.
(** From [P], [m] emits [tr] and ends in [Q]; or it fails part of the way, in
    [E], which cannot happen in circumstances [G]. *)
Definition emits {A} (P : Journal -> Prop) (m : M (D := list Event) A) (tr : list Event) (Q : A -> Journal -> Prop) : Prop :=
  forall j d, P j -> match m (j, d) with
    | ((j', d'), inr x) => d' = d ++ tr /\ Q x j'
    | ((j', d'), inl _) => (exists tr1, tr1 `prefix_of` tr /\ d' = d ++ tr1) /\ E j' /\ ~ G
    end.
Lemma emits_bind {A B} P (m : M A) (f : A -> M B) t1 t2 Q R :
  emits P m t1 Q -> (forall x, emits (Q x) (f x) t2 R) -> emits P (bind m f) (t1 ++ t2) R.
Proof.
  intros Hm Hf j d HP. unfold bind. specialize (Hm j d HP). destruct (m (j, d)) as [[j1 d1] [e|x]].
  - destruct Hm as ((tr1 & Hp & ->) & He). split; [|done]. exists tr1. split; [by apply prefix_app_r|done].
  - destruct Hm as [-> HQ]. specialize (Hf x j1 (d ++ t1) HQ). destruct (f x (j1, d ++ t1)) as [[j2 d2] [e|y]].
    + destruct Hf as ((tr1 & Hp & ->) & He). split; [|done]. exists (t1 ++ tr1). split; [by apply prefix_app|by rewrite app_assoc].
    + destruct Hf as [-> HR]. by rewrite app_assoc.
Qed.
Lemma emits_bind_nil {A B} P (m : M A) (f : A -> M B) t2 Q R :
  emits P m [] Q -> (forall x, emits (Q x) (f x) t2 R) -> emits P (bind m f) t2 R.
Proof. apply (emits_bind P m f [] t2). Qed.
Lemma emits_bind_last {A B} P (m : M A) (f : A -> M B) t1 Q R :
  emits P m t1 Q -> (forall x, emits (Q x) (f x) [] R) -> emits P (bind m f) t1 R.
Proof. intros Hm Hf. rewrite <-(app_nil_r t1). by eapply emits_bind. Qed.
Lemma emits_get P : emits P get_journal [] (fun x j => x = j /\ P j).
Proof. intros j d HP. cbn. by rewrite app_nil_r. Qed.
Lemma emits_modify (P : Journal -> Prop) f (Q : Journal -> Prop) : (forall j, P j -> Q (f j)) -> emits P (modify f) [] (fun _ => Q).
Proof. intros H j d HP. cbn. rewrite app_nil_r. auto. Qed.
Lemma emits_ret P : emits P (ret tt) [] (fun _ => P).
Proof. intros j d HP. cbn. by rewrite app_nil_r. Qed.
Lemma emits_lift {A} P (r : JournalError + A) x : r = inr x -> emits P (lift r) [] (fun y j => y = x /\ P j).
Proof. intros -> j d HP. cbn. by rewrite app_nil_r. Qed.
Lemma emits_fail {A} (P : Journal -> Prop) e tr (Q : A -> Journal -> Prop) : (forall j, P j -> E j) -> ~ G -> emits P (fail e) tr Q.
Proof. intros HE HnG j d HP. cbn. split_and!; [|auto|done]. exists []. split; [apply prefix_nil|by rewrite app_nil_r]. Qed.
Lemma emits_require (P : Journal -> Prop) p : (forall j, P j -> commit_phase j = p) -> emits P (require p) [] (fun _ => P).
Proof. intros Hp j d HP. unfold require, bind. cbn. rewrite decide_True by auto. cbn. by rewrite app_nil_r. Qed.
Lemma emits_op (P : Journal -> Prop) ev (m : M unit) :
  (forall j d, m (j, d) = if fails (length d) then ((j, d), inl WriteError) else ((j, d ++ [ev]), inr tt)) ->
  (forall j, P j -> E j) -> emits P m [ev] (fun _ => P).
Proof.
  intros Hm HE j d HP. rewrite Hm. destruct (fails (length d)) eqn:F; [|done]. split_and!; [|auto|].
  - exists []. split; [apply prefix_nil|by rewrite app_nil_r].
  - intros HGood. by rewrite (HG HGood) in F.
Qed.
Lemma emits_write (P : Journal -> Prop) lba data : (forall j, P j -> E j) -> emits P (disk_write lba data) [Wrote (as_u32 lba) data] (fun _ => P).
Proof. apply emits_op. intros j d. unfold disk_write. cbn. by destruct (fails (length d)). Qed.
Lemma emits_flush (P : Journal -> Prop) : (forall j, P j -> E j) -> emits P disk_flush [Flushed] (fun _ => P).
Proof. apply emits_op. intros j d. unfold disk_flush. cbn. by destruct (fails (length d)). Qed.
Lemma emits_weaken {A} (P P' : Journal -> Prop) (m : M A) tr Q : (forall j, P' j -> P j) -> emits P m tr Q -> emits P' m tr Q.
Proof. intros Hi Hm j d HP. apply Hm. auto. Qed.
End Emits.

(** ** A commit *)
Lemma put_tags_length bs o bl d : length d = bs -> length (put_tags bs o bl d) = bs.
Proof.
  revert o d. induction bl as [|b bl IH]; intros o d Hd; [done|]. cbn [put_tags]. destruct (Nat.ltb_spec (bs - 4) (o + 8)); [done|].
  apply IH. rewrite splice_length; [done|]. rewrite !length_app, be32_length, length_drop, be32_length. cbn. lia.
Qed.
Lemma zeros_length n : length (zeros n) = n.
Proof. apply length_replicate. Qed.
Lemma descriptor_length bs t : (12 <= bs)%nat -> length (descriptor_image bs t) = bs.
Proof. intros Hb. apply put_tags_length. rewrite splice_length; rewrite zeros_length; [done|]. cbn. lia. Qed.
Lemma commit_length bs s : (48 <= bs)%nat -> length (commit_serialize (commit_new s) bs) = bs.
Proof. intros Hb. unfold commit_serialize. rewrite splice_length; rewrite zeros_length; [done|]. cbn. lia. Qed.
Lemma padded_length bs d : (length d <= bs)%nat -> length (splice 0 d (zeros bs)) = bs.
Proof. intros Hd. rewrite splice_length; rewrite zeros_length; [done|]. lia. Qed.
Lemma superblock_stamped sb bs : (SB_SIZE + 4 <= bs)%nat -> length (s_uuid sb) = 16%nat ->
  serialize_block_checked sb bs = inr (stamped bs (splice 0 (sb_serialize sb) (zeros bs))).
Proof.
  intros Hb Hu. unfold serialize_block_checked. replace (bs <? SB_SIZE + 4)%nat with false by (symmetry; apply Nat.ltb_ge; lia). unfold SB_SIZE in *.
  apply stamp_eq; [lia|]. apply padded_length. unfold sb_serialize. rewrite !length_app, words_length, be32_length, Hu. cbn. lia.
Qed.

(** The parts of a journal a commit keeps until it is done. *)
Definition core (j : Journal) := (superblock j, block_size j, journal_offset j, current_transaction j, sequence j, running_trans j).
Section Commit.
Context (fails : nat -> bool) (j0 : Journal) (t : Transaction).
Definition fits : Prop := Forall (fun b => length (b_data b) <= bsize j0 - 4)%nat (blocks t).
Definition good : Prop := (forall n, fails n = false) /\ fits.
Definition left_behind (j : Journal) : Prop := current_transaction j = None /\ running_trans j = running_trans j0.
Context (Hbs : (SB_SIZE + 4 <= bsize j0)%nat) (Huuid : length (s_uuid (superblock j0)) = 16%nat) (Hcur : current_transaction j0 = None).
#[local] Instance commit_device : BlockDevice (list Event) := TraceDisk fails.
Abbreviation emitting := (emits good left_behind).
Definition inv (p : JournalCommitPhase) (j : Journal) : Prop := core j = core j0 /\ commit_phase j = p.
Lemma good_never : good -> forall n, fails n = false.
Proof. by intros [H _]. Qed.
Lemma inv_left p j : inv p j -> left_behind j.
Proof. intros [H _]. unfold core in H. injection H as _ _ _ Hc _ Hr. split; congruence. Qed.
Lemma inv_geometry p j : inv p j -> bsize j = bsize j0 /\ journal_offset j / block_size j = journal_base j0.
Proof. intros [H _]. unfold core in H. injection H as _ Hb Ho _ _ _. unfold bsize, journal_base. by rewrite Hb, Ho. Qed.
Lemma inv_buffer f p j : inv p j -> inv p (set_buffer f j).
Proof. done. Qed.
Lemma inv_phase p q j : inv p j -> inv q (set_phase q j).
Proof. intros [H _]. done. Qed.
(** A write of a block the journal also keeps in its buffer. *)
Lemma emits_append (f : Journal -> Journal) lba d p (f_ok : forall j, inv p j -> inv p (f j)) {A} (m : M A) tr Q :
  emitting (inv p) m tr Q -> emitting (inv p) (bind (modify f) (fun _ => bind (disk_write lba d) (fun _ => m))) (Wrote (as_u32 lba) d :: tr) Q.
Proof.
  intros Hm. eapply emits_bind_nil; [apply (emits_modify _ _ _ _ (inv p)), f_ok|intros []; cbn beta].
  apply (emits_bind _ _ _ _ _ [_] tr (fun _ => inv p)); [apply emits_write; [apply good_never|apply inv_left]|done].
Qed.
Ltac next := eapply emits_bind_nil; [|intros []; cbn beta].
Lemma emits_weaken_eq j {A} P (m : M A) tr Q : (P j -> emitting P m tr Q) -> emitting (fun k => j = k /\ P k) m tr Q.
Proof. intros H k d [-> HP]. by apply H. Qed.
Ltac read_journal := eapply emits_bind_nil; [apply emits_get|intros j; cbn beta];
  eapply emits_weaken_eq; let H := fresh "Hj" in intros H; destruct (inv_geometry _ _ H) as [-> ->].
Lemma emits_lifted {A B} P (r : JournalError + A) x (f : A -> M B) tr Q : r = inr x -> emitting P (f x) tr Q -> emitting P (bind (lift r) f) tr Q.
Proof. intros -> Hf. exact Hf. Qed.
Lemma emits_phase p q : emitting (inv p) (modify (set_phase q)) [] (fun _ => inv q).
Proof. apply emits_modify. intros j. apply inv_phase. Qed.
Lemma descriptors_emit p : emitting (inv p) (write_descriptors t) [Wrote (as_u32 (journal_base j0 + 1)) (stamped (bsize j0) (descriptor_image (bsize j0) t))]
  (fun _ => inv DescriptorsWritten).
Proof.
  unfold write_descriptors. next; [apply (emits_modify _ _ _ _ (inv Idle)); intros j Hj; apply inv_buffer, (inv_phase p), Hj|]. read_journal.
  eapply emits_lifted; [apply stamp_eq; [unfold SB_SIZE in *; lia|apply descriptor_length; unfold SB_SIZE in *; lia]|].
  apply emits_append; [intros k; apply inv_buffer|]. apply emits_phase.
Qed.
Lemma blocks_emit bl lba : (~ Forall (fun b => length (b_data b) <= bsize j0 - 4)%nat bl -> ~ good) ->
  emitting (inv DescriptorsWritten) (write_blocks (bsize j0) lba bl) (data_trace (bsize j0) lba bl) (fun _ => inv DescriptorsWritten).
Proof.
  revert lba. induction bl as [|b bl IH]; intros lba Hg; [apply emits_ret|]. cbn [write_blocks data_trace].
  destruct (Nat.ltb_spec (bsize j0 - 4) (length (b_data b))) as [Hl|Hl].
  - apply emits_fail; [apply inv_left|]. apply Hg. intros [Hb _]%Forall_cons. lia.
  - eapply emits_lifted; [apply stamp_eq; [unfold SB_SIZE in *; lia|apply padded_length; lia]|].
    apply emits_append; [intros k; apply inv_buffer|]. apply IH. intros Hn. apply Hg. intros Hf. apply Hn. by apply Forall_cons in Hf as [_ Hf].
Qed.
Lemma data_emit : emitting (inv DescriptorsWritten) (write_data_blocks t) (data_trace (bsize j0) (as_u32 (journal_base j0 + 2)) (blocks t)) (fun _ => inv DataWritten).
Proof.
  unfold write_data_blocks. next; [apply emits_require; by intros j [_ Hp]|]. read_journal.
  eapply emits_bind_last; [apply blocks_emit; intros Hn [_ Hf]; by apply Hn|intros []; apply emits_phase].
Qed.
Lemma commit_emit : emitting (inv DataWritten) (write_commit_block t)
  [Wrote (as_u32 (journal_base j0 + 2 + Z.of_nat (length (blocks t)))) (stamped (bsize j0) (commit_serialize (commit_new (as_u32 (tid t))) (bsize j0)))] (fun _ => inv CommitWritten).
Proof.
  unfold write_commit_block. next; [apply emits_require; by intros j [_ Hp]|]. read_journal.
  eapply emits_lifted; [apply stamp_eq; [unfold SB_SIZE in *; lia|apply commit_length; unfold SB_SIZE in *; lia]|].
  apply emits_append; [intros k; apply inv_buffer|]. apply emits_phase.
Qed.
Lemma home_emit bl p : emitting (inv p) (write_home (bsize j0) bl) (home_trace (bsize j0) bl) (fun _ => inv p).
Proof.
  induction bl as [|b bl IH]; [apply emits_ret|]. cbn [write_home].
  apply (emits_bind _ _ _ _ _ [_] (home_trace (bsize j0) bl) (fun _ => inv p)); [apply emits_write; [apply good_never|apply inv_left]|intros []; exact IH].
Qed.
Lemma flush_emit p : emitting (inv p) disk_flush [Flushed] (fun _ => inv p).
Proof. apply emits_flush; [apply good_never|apply inv_left]. Qed.
Lemma checkpoint_emit : emitting (inv CommitWritten) (checkpoint t) (home_trace (bsize j0) (blocks t) ++ [Flushed]) (fun _ => inv Checkpointed).
Proof.
  unfold checkpoint. next; [apply emits_require; by intros j [_ Hp]|]. eapply emits_bind_nil; [apply emits_get|intros j; cbn beta].
  apply (emits_weaken_eq j); intros Hj; destruct (inv_geometry _ _ Hj) as [-> _]. destruct (existsb _ (blocks t)) eqn:Ex.
  - apply emits_fail; [apply inv_left|]. intros [_ Hf]. apply existsb_exists in Ex as (b & Hb & Hl). unfold fits in Hf. rewrite Forall_forall in Hf.
    apply Nat.ltb_lt in Hl. specialize (Hf b ltac:(by apply list_elem_of_In)). lia.
  - eapply emits_bind; [apply home_emit|intros []]. eapply emits_bind_last; [apply flush_emit|intros []; apply emits_phase].
Qed.
Definition done_core (j : Journal) : Prop := core j = core (set_superblock (next_superblock j0) j0).
Lemma done_left j : done_core j -> left_behind j.
Proof. unfold done_core, core. intros H. injection H as _ _ _ Hc _ Hr. split; cbn in *; congruence. Qed.
Lemma superblock_emit : emitting (inv Checkpointed) update_superblock
  [Wrote (as_u32 (journal_base j0)) (stamped (bsize j0) (splice 0 (sb_serialize (next_superblock j0)) (zeros (bsize j0)))); Flushed] (fun _ => done_core).
Proof.
  unfold update_superblock. next; [apply emits_require; by intros j [_ Hp]|].
  next; [apply (emits_modify _ _ _ _ done_core); intros j [Hj _]; unfold done_core, core, next_superblock in *; cbn; injection Hj; congruence|].
  eapply emits_bind_nil; [apply emits_get|intros j; cbn beta]. eapply emits_weaken_eq; intros Hj.
  assert (superblock j = next_superblock j0 /\ bsize j = bsize j0 /\ journal_offset j / block_size j = journal_base j0) as (-> & -> & ->).
  { unfold done_core, core in Hj. cbn in Hj. injection Hj as Hs Hb Ho _ _ _. unfold bsize, journal_base. by rewrite Hs, Hb, Ho. }
  eapply emits_lifted; [by apply superblock_stamped|]. next; [by apply (emits_modify _ _ _ _ done_core)|].
  eapply (emits_bind _ _ _ _ _ [_] [_]); [apply emits_write; [apply good_never|apply done_left]|intros []; cbn beta].
  eapply emits_bind_last; [apply emits_flush; [apply good_never|apply done_left]|intros []; cbn beta]. by apply emits_modify.
Qed.
Definition committed (j : Journal) : Prop :=
  current_transaction j = None /\ running_trans j = sat_sub (running_trans j0) 1 /\ superblock j = next_superblock j0.
Lemma phases_emit p : emitting (inv p)
  (bind (write_descriptors t) (fun _ => bind (write_data_blocks t) (fun _ => bind disk_flush (fun _ => bind (write_commit_block t) (fun _ =>
    bind disk_flush (fun _ => bind (checkpoint t) (fun _ => bind update_superblock (fun _ => modify (fun j => set_running (sat_sub (running_trans j) 1) j)))))))))
  (log_trace j0 t ++ checkpoint_trace j0 t) (fun _ => committed).
Proof.
  unfold log_trace, checkpoint_trace. rewrite <-!app_assoc. eapply emits_bind; [apply descriptors_emit|intros []]. eapply emits_bind; [apply data_emit|intros []].
  eapply (emits_bind _ _ _ _ _ [_]); [apply flush_emit|intros []]. eapply (emits_bind _ _ _ _ _ [_]); [apply commit_emit|intros []].
  eapply (emits_bind _ _ _ _ _ [_]); [apply flush_emit|intros []]. change ([Flushed; ?a; ?b]) with ([Flushed] ++ [a; b]). rewrite app_assoc.
  eapply emits_bind; [apply checkpoint_emit|intros []]. eapply emits_bind_last; [apply superblock_emit|intros []].
  apply emits_modify. intros j Hj. unfold done_core, core in Hj. cbn in Hj. injection Hj as Hs _ _ Hc _ Hr. split_and!; cbn; congruence.
Qed.
End Commit.

(** C24: A commit is write-ahead.  Whatever requests the disk refuses, the
    requests it accepts are, in this order, a prefix of: the descriptor block, the
    data blocks, a barrier, the commit block, a barrier, and only then the blocks
    at their places in the file system (the sectors of their numbers: their places
    where a block is a sector of 512 bytes), a barrier, the superblock marking the
    journal clean, a barrier.  A commit that reports success has sent all of
    them and closed the transaction; if the disk refuses nothing and every block
    leaves room for a checksum, it succeeds. *)
Theorem commit_write_ahead fails j t : current_transaction j = Some t -> (SB_SIZE + 4 <= bsize j)%nat -> length (s_uuid (superblock j)) = 16%nat ->
  match commit_transaction (H := TraceDisk fails) (j, []) with
  | ((j', tr), inr _) => tr = log_trace j t ++ checkpoint_trace j t /\
      current_transaction j' = None /\ running_trans j' = sat_sub (running_trans j) 1 /\ superblock j' = next_superblock j
  | ((j', tr), inl _) => tr `prefix_of` log_trace j t ++ checkpoint_trace j t /\
      current_transaction j' = None /\ running_trans j' = running_trans j /\
      ~ ((forall n, fails n = false) /\ Forall (fun b => length (b_data b) <= bsize j - 4)%nat (blocks t))
  end.
Proof.
  intros Ht Hbs Hu. pose proof (phases_emit fails (set_current None j) t Hbs Hu eq_refl (commit_phase j) (set_current None j) [] (conj eq_refl eq_refl)) as Hp.
  unfold commit_transaction, bind at 1. cbn [get_journal fst]. rewrite Ht. unfold bind at 1. cbn [modify fst snd].
  destruct (bind _ _ (set_current None j, [])) as [[j' tr] [e|x]].
  - destruct Hp as ((tr1 & Hp & ->) & [H1 H2] & Hg). split_and!; [exact Hp|done|done|exact Hg].
  - destruct Hp as (-> & H1 & H2 & H3). done.
Qed.

(** A transaction of one block, as the writers of [ext4.rs] produce them. *)
Definition write_one {D} `{BlockDevice D} (w : Z * Z * list Z) (s : Journal * D) : (Journal * D) * bool :=
  let '(now, nr, data) := w in
  let '(j, r) := start_transaction now 1 s.1 in
  match r with
  | inl _ => ((j, s.2), false)
  | inr _ => let '(s', r) := commit_transaction ((add_block nr data true j).1, s.2) in (s', match r with inr _ => true | inl _ => false end)
  end.
Definition write_all {D} `{BlockDevice D} (ws : list (Z * Z * list Z)) (s : Journal * D) : (Journal * D) * list bool :=
  foldl (fun '(s, rs) w => let '(s, r) := write_one w s in (s, rs ++ [r])) (s, []) ws.

(** A block without room for its checksum stops the commit after the descriptor, on any disk. *)
Lemma full_block_stops {D} `{BlockDevice D} bs lba bl (s : Journal * D) : (exists b, b ∈ bl /\ (bs - 4 < length (b_data b))%nat) -> (4 <= bs)%nat ->
  exists s' e, write_blocks bs lba bl s = (s', inl e) /\ core s'.1 = core s.1.
Proof.
  intros (b & Hb & Hl) Hbs. revert lba s. induction bl as [|c bl IH]; intros lba s; [by apply not_elem_of_nil in Hb|]. cbn [write_blocks].
  destruct (Nat.ltb_spec (bs - 4) (length (b_data c))) as [Hc|Hc]; [by exists s, WriteError|]. apply elem_of_cons in Hb as [->|Hb]; [lia|].
  unfold bind, lift. rewrite stamp_eq; [|done|apply padded_length; lia]. unfold modify, disk_write. cbn [fst snd].
  destruct (write_sectors _ _ _) as [d []]; [|by eexists _, _]. match goal with |- context [write_blocks bs ?l bl ?x] => destruct (IH Hb l x) as (s' & e & E & Hc') end. eexists _, _. split; [exact E|by rewrite Hc'].
Qed.
Lemma full_commit_fails {D} `{BlockDevice D} j t (d : D) : current_transaction j = Some t -> (12 <= bsize j)%nat ->
  (exists b, b ∈ blocks t /\ (bsize j - 4 < length (b_data b))%nat) ->
  exists s' e, commit_transaction (j, d) = (s', inl e) /\ core s'.1 = core (set_current None j).
Proof.
  intros Ht Hbs Hb. unfold commit_transaction, bind at 1. cbn [get_journal fst]. rewrite Ht. unfold bind at 1. cbn [modify fst snd]. unfold bind at 1.
  unfold write_descriptors, write_data_blocks, require, bind, modify, get_journal, lift, disk_write. cbn [fst snd].
  change (bsize (set_buffer [] (set_phase Idle (set_current None j)))) with (bsize j). fold (descriptor_image (bsize j) t).
  rewrite stamp_eq; [|lia|by apply descriptor_length]. cbn [fst snd]. destruct (write_sectors _ _ _) as [d1 []]; [|by eexists _, _]. cbn [fst snd].
  rewrite decide_True by done. cbn [ret]. change (bsize (set_phase DescriptorsWritten _)) with (bsize j).
  edestruct (full_block_stops (D := D) (bsize j)) as (s' & e & E & Hc); [exact Hb|lia|]. rewrite E. eexists _, _. split; [done|exact Hc].
Qed.
Lemma full_write_fails {D} `{BlockDevice D} now nr data j (d : D) : (12 <= bsize j)%nat -> (bsize j - 4 < length data)%nat -> 0 <= running_trans j < 4 ->
  exists j' d', write_one (now, nr, data) (j, d) = ((j', d'), false) /\ bsize j' = bsize j /\ running_trans j' = running_trans j + 1.
Proof.
  intros Hbs Hl Hr. unfold write_one, start_transaction, MAX_CONCURRENT_TRANSACTIONS. cbn [fst snd]. replace (4 <=? running_trans j) with false by lia.
  match goal with |- context [add_block nr data true ?k] => set (j1 := k) end.
  set (t := trans_add_block (mkTb nr data true false) (trans_new now (sequence j))).
  assert ((add_block nr data true j1).1 = set_current (Some t) j1) as -> by done.
  destruct (full_commit_fails (set_current (Some t) j1) t d eq_refl Hbs) as ([j' d'] & e & E & Hc); [exists (mkTb nr data true false); split; [apply list_elem_of_here|exact Hl]|].
  rewrite E. exists j', d'. unfold core in Hc. cbn in Hc. injection Hc as _ Hb _ _ _ Hrun. split_and!; [done|unfold bsize; by rewrite Hb|].
  rewrite Hrun. unfold u32_add. apply Z.mod_small. unfold u32_mod. lia.
Qed.
Lemma write_all_cons {D} `{BlockDevice D} w ws (s s' : Journal * D) r :
  write_one w s = (s', r) -> write_all (w :: ws) s = let '(s'', rs) := write_all ws s' in (s'', r :: rs).
Proof.
  intros Hw. unfold write_all. cbn [foldl]. rewrite Hw. cbn [app].
  assert (forall ws rs s, foldl (fun '(s, rs) w => let '(s, r) := write_one w s in (s, rs ++ [r])) (s, rs) ws =
    let '(s', rs') := foldl (fun '(s, rs) w => let '(s, r) := write_one w s in (s, rs ++ [r])) (s, []) ws in (s', rs ++ rs')) as Hacc.
  { clear. induction ws as [|w ws IH]; intros rs s; cbn [foldl]; [by rewrite app_nil_r|]. destruct (write_one w s) as [s' r]. rewrite IH, (IH ([] ++ [r])).
    destruct (foldl _ (s', []) ws) as [s'' rs'']. by rewrite <-app_assoc. }
  by rewrite (Hacc ws [r] s').
Qed.

(** Whole blocks wedge the journal.  On any disk, a transaction with a block
    as long as the journal's block size cannot be committed; it is thrown away
    but keeps counting as running, so after four such transactions every further
    one is refused. *)
Theorem full_blocks_wedge {D} `{BlockDevice D} ws j (d : D) now credits :
  (12 <= bsize j)%nat -> running_trans j = 0 -> length ws = 4%nat -> Forall (fun w => length w.2 = bsize j) ws ->
  exists j' d', write_all ws (j, d) = ((j', d'), [false; false; false; false]) /\ start_transaction now credits j' = (j', inl TransactionRunning).
Proof.
  intros Hbs Hr Hl Hw. destruct ws as [|[[n0 b0] d0] [|[[n1 b1] d1] [|[[n2 b2] d2] [|[[n3 b3] d3] [|]]]]]; try done. clear Hl.
  rewrite !Forall_cons in Hw. cbn [snd] in Hw. destruct Hw as (L0 & L1 & L2 & L3 & _).
  destruct (full_write_fails n0 b0 d0 j d) as (j1 & e1 & E1 & B1 & R1); [lia..|]. destruct (full_write_fails n1 b1 d1 j1 e1) as (j2 & e2 & E2 & B2 & R2); [lia..|].
  destruct (full_write_fails n2 b2 d2 j2 e2) as (j3 & e3 & E3 & B3 & R3); [lia..|]. destruct (full_write_fails n3 b3 d3 j3 e3) as (j4 & e4 & E4 & B4 & R4); [lia..|].
  exists j4, e4. rewrite (write_all_cons _ _ _ _ _ E1), (write_all_cons _ _ _ _ _ E2), (write_all_cons _ _ _ _ _ E3), (write_all_cons _ _ _ _ _ E4). split; [done|].
  unfold start_transaction, MAX_CONCURRENT_TRANSACTIONS. by replace (4 <=? running_trans j4) with true by lia.
Qed.

(** Recovery stops at the first data block.  If the journal starts with the
    descriptor block of a transaction and the block after it, the transaction's
    first data block, does not look like a journal block, then recovery replays
    nothing, even if the commit block follows: it only marks the journal clean
    and reports success. *)
Theorem recover_stops_at_data {D} `{BlockDevice D} j (d : D) h :
  let pos := Z.to_nat (s_start (superblock j)) in
  0 < s_start (superblock j) -> s_start (superblock j) + 1 < s_maxlen (superblock j) -> (SB_SIZE + 4 <= bsize j)%nat -> length (s_uuid (superblock j)) = 16%nat ->
  length (read_journal_block j pos d) = bsize j -> verify_journal_block_checksum (read_journal_block j pos d) (bsize j) = true ->
  header_parse (read_journal_block j pos d) = Some h -> h_blocktype h = JBD2_DESCRIPTOR_BLOCK ->
  header_parse (read_journal_block j (S pos) d) = None ->
  let sb := set_start 0 1 (superblock j) in
  recover j d = (set_superblock sb j, (write_sectors (as_u32 (journal_offset j / 512)) (stamped (bsize j) (splice 0 (sb_serialize sb) (zeros (bsize j)))) d).1,
                 inr (mkResult Complete 0 0 0 1 true)).
Proof.
  intros pos Hs Hm Hbs Hu Hl Hv Hh Ht Hn sb. unfold recover. replace (s_start (superblock j) =? 0) with false by lia. fold pos.
  set (len := Z.to_nat (s_maxlen (superblock j))). destruct (len - pos)%nat as [|[|f]] eqn:Ef; [lia|lia|].
  assert (scan (S (S f)) j d len pos (mkSt [] [] None 0) = mkSt [] [] (Some (mkScan (h_sequence h) pos 0 (scan_tags (bsize j) (read_journal_block j pos d) (bsize j) len pos 12) false)) 0) as ->.
  { cbn [scan]. replace (len <=? pos)%nat with false by (symmetry; apply Nat.leb_gt; lia). rewrite Hl.
    replace ((bsize j =? 0)%nat || (bsize j <? bsize j)%nat) with false by (symmetry; apply orb_false_iff; split; [apply Nat.eqb_neq; unfold SB_SIZE in *; lia|apply Nat.ltb_irrefl]).
    rewrite Hv, Hh. unfold scan_block. rewrite Ht. cbn. rewrite Hn. by repeat case_match. }
  cbn [close_txn st_current has_commit st_txns st_revoke st_max fmap list_fmap concat foldl length sumZ].
  change (u32_add 0 1) with 1. fold sb. cbn [superblock set_superblock]. change (bsize (set_superblock sb j)) with (bsize j).
  rewrite superblock_stamped by done. by destruct (write_sectors _ _ d).
Qed.

(** ** Witnesses *)
(** A disk as the list of its writes, newest first, with one block per address. *)
Definition RamDisk : BlockDevice (list (Z * list Z)) := {|
  read_sectors := fun lba _ d => match find (fun w => w.1 =? lba) d with Some w => w.2 | None => [] end;
  write_sectors := fun lba data d => ((lba, data) :: d, true);
  flush := fun d => (d, true) |}.
Definition example_journal : Journal := journal_new 512 0 (100 * 512).
Definition example_transaction : Transaction := mkTrans 1 Running [mkTb 50 [1; 2; 3] true false] [] 0.
Definition open_journal : Journal := set_current (Some example_transaction) example_journal.
Definition crashed : list (Z * list Z) :=
  Eval vm_compute in
  (bind (D := list (Z * list Z)) (write_descriptors (H := RamDisk) example_transaction) (fun _ => bind (write_data_blocks (H := RamDisk) example_transaction)
    (fun _ => write_commit_block (H := RamDisk) example_transaction)) (example_journal, [])).1.2.
(** The crash comes after the commit block: descriptor, data and commit block are on the disk. *)
Example crashed_after_commit : map (fun w => (w.1, header_parse w.2)) crashed =
  [(3, Some (mkHeader JBD2_MAGIC JBD2_COMMIT_BLOCK 1)); (2, None); (1, Some (mkHeader JBD2_MAGIC JBD2_DESCRIPTOR_BLOCK 1))].
Proof. vm_compute. done. Qed.

Lemma journal_block_protected_witness : verify_journal_block_checksum ([1; 2] ++ [9] ++ [4; 5; 6; 7; 8; 8; 130; 153; 233]) 12 = false.
Proof.
  apply (journal_block_protected 12 (replicate 12 7) [1; 2] [3] [9] [4; 5; 6; 7; 8; 8; 130; 153; 233]);
    [lia|reflexivity|apply bytes_check; reflexivity|apply bytes_check; reflexivity|apply bytes_check; reflexivity|reflexivity|reflexivity|cbn; lia|cbn; lia|congruence|vm_compute; reflexivity|vm_compute; congruence].
Defined.
Lemma superblock_roundtrip_witness : exists d, serialize_block_checked (superblock example_journal) 512 = inr d /\ length d = 512%nat /\ parse_checked (d ++ [7]) 512 = inr (superblock example_journal).
Proof.
  apply (superblock_roundtrip (superblock example_journal) 512 [7]); [|unfold SB_SIZE; lia].
  split_and!; [repeat constructor; done|split; done|apply bytes_check; reflexivity|reflexivity|reflexivity].
Defined.
Lemma commit_write_ahead_witness :
  (commit_transaction (H := TraceDisk (fun n => (n =? 4)%nat)) (open_journal, [])).1.2 `prefix_of` log_trace open_journal example_transaction ++ checkpoint_trace open_journal example_transaction.
Proof.
  pose proof (commit_write_ahead (fun n => (n =? 4)%nat) open_journal example_transaction eq_refl ltac:(vm_compute; lia) eq_refl) as H.
  destruct (commit_transaction _) as [[j tr] [e|x]]; [exact (proj1 H)|rewrite (proj1 H); reflexivity].
Defined.
Lemma full_blocks_wedge_witness : exists j d,
  write_all (H := RamDisk) (replicate 4 (0, 50, replicate 512 1)) (example_journal, []) = ((j, d), [false; false; false; false]) /\ start_transaction 0 1 j = (j, inl TransactionRunning).
Proof.
  apply (full_blocks_wedge (H := RamDisk) (replicate 4 (0, 50, replicate 512 1)) example_journal [] 0 1); [vm_compute; lia|reflexivity|reflexivity|].
  repeat constructor.
Defined.
Lemma recover_stops_at_data_witness : (recover (H := RamDisk) example_journal crashed).2 = inr (mkResult Complete 0 0 0 1 true).
Proof.
  assert (SB_SIZE + 4 <= bsize example_journal)%nat as Hbs by (vm_compute; lia).
  rewrite (recover_stops_at_data (H := RamDisk) example_journal crashed (mkHeader JBD2_MAGIC JBD2_DESCRIPTOR_BLOCK 1) eq_refl eq_refl Hbs eq_refl
    ltac:(vm_compute; reflexivity) ltac:(vm_compute; reflexivity) ltac:(vm_compute; reflexivity) eq_refl ltac:(vm_compute; reflexivity)). reflexivity.
Defined.
End Ext4Journal.
