(* ===== verification/Dcache.v ===== *)
(** * The dentry cache

    Models [src/src/fs/dcache.rs] and the functions of [fs/mod.rs] that use it:
    the entry vector with its holes, the 8192 hash buckets of indices into it,
    the LRU vector with its index, compaction and shrinking.

    Dentries are shared objects ([Rc]): the cache keeps references to objects of
    a heap, and [rename] changes the object every holder of the reference sees.
    A [None] of a function of the cache is a panic (an index out of range).
    Names are lists of bytes.

    [dcache_refines]: as long as nothing is shrunk, the cache never panics and
    answers like an association list of names in order of arrival;
    [resolve_stable]: a resolved name stays resolved.  The examples at the end
    show what shrinking does: after a compaction it panics, and so does the
    lookup of a name it evicted. *)
From S2P Require Import Prelude.

Module Dcache.

Definition DCACHE_HASH_BITS : Z := 13.
Definition DCACHE_HASH_SIZE : Z := Z.shiftl 1 DCACHE_HASH_BITS.
Definition DCACHE_MAX_ENTRIES : Z := 32768.
Definition DCACHE_SHRINK_BATCH : Z := 1024.
Definition DCACHE_STALE_CLEANUP_RATIO : Z := 4.

Record Dentry := mkDentry {
  name : list Z; parent_ino : Z; ino : Z; is_dir : bool; mode : Z; uid : Z; gid : Z; size : Z; generation : Z }.
Definition Key : Type := Z * list Z.
Definition key_of (d : Dentry) : Key := (parent_ino d, name d).
Definition set_key (k : Key) (d : Dentry) : Dentry :=
  mkDentry k.2 k.1 (ino d) (is_dir d) (mode d) (uid d) (gid d) (size d) (generation d).
Definition hash_key (k : Key) : Z := foldl (fun h b => u64_add (u64_mul h 33) b) (u64_mul k.1 33) k.2.
Definition hash_bucket (h : Z) : Z := Z.land h (DCACHE_HASH_SIZE - 1).
Definition bucket_of (k : Key) : Z := hash_bucket (hash_key k).

(** [objects] and [next_object] are the memory of the [Rc]s. *)
Record Dcache := mkDcache {
  entries : list (option Z); hash_table : gmap Z (list nat); lru : list nat; lru_index : gmap nat nat; count : Z; stale_count : Z;
  objects : gmap Z Dentry; next_object : Z }.
Definition new : Dcache := mkDcache [] ∅ [] ∅ 0 0 ∅ 0.
Definition bucket (b : Z) (d : Dcache) : list nat := default [] (hash_table d !! b).
Definition set_table (t : gmap Z (list nat)) (d : Dcache) : Dcache :=
  mkDcache (entries d) t (lru d) (lru_index d) (count d) (stale_count d) (objects d) (next_object d).
Definition set_lru (l : list nat) (ix : gmap nat nat) (d : Dcache) : Dcache :=
  mkDcache (entries d) (hash_table d) l ix (count d) (stale_count d) (objects d) (next_object d).
(** [entries[idx] = None; stale_count += 1; count -= 1] *)
Definition drop_entry (idx : nat) (d : Dcache) : Dcache :=
  mkDcache (<[idx := None]> (entries d)) (hash_table d) (lru d) (lru_index d) (u64_sub (count d) 1) (u64_add (stale_count d) 1) (objects d) (next_object d).
(** [Vec::swap_remove]; [None]: out of range. *)
Definition swap_remove {A} (i : nat) (l : list A) : option (A * list A) :=
  match l !! i, last l with
  | Some x, Some y => Some (x, take (length l - 1) (<[i := y]> l))
  | _, _ => None
  end.

(** Does the entry at [idx] have this parent and name? *)
Definition is_entry (k : Key) (idx : nat) (d : Dcache) : option bool :=
  match entries d !! idx with
  | None => None
  | Some None => Some false
  | Some (Some o) => Some match objects d !! o with Some e => bool_decide (key_of e = k) | None => false end
  end.
(** The first match of a bucket, with its position. *)
Fixpoint find_from (k : Key) (i : nat) (l : list nat) (d : Dcache) : option (option (nat * nat)) :=
  match l with
  | [] => Some None
  | idx :: l' => match is_entry k idx d with
                 | None => None
                 | Some true => Some (Some (i, idx))
                 | Some false => find_from k (S i) l' d
                 end
  end.
Definition find_in (k : Key) (d : Dcache) : option (option (nat * nat)) := find_from k 0 (bucket (bucket_of k) d) d.

Definition touch_lru (idx : nat) (d : Dcache) : option Dcache :=
  match lru_index d !! idx with
  | None => Some d
  | Some pos =>
      match swap_remove pos (lru d) with
      | None => None
      | Some (_, l) =>
          let ix := match l !! pos with Some swapped => <[swapped := pos]> (lru_index d) | None => lru_index d end in
          Some (set_lru (l ++ [idx]) (<[idx := length l]> ix) d)
      end
  end.
Definition lookup (k : Key) (d : Dcache) : option (Dcache * option Z) :=
  match find_in k d with
  | None => None
  | Some None => Some (d, None)
  | Some (Some (_, idx)) => match touch_lru idx d with Some d => Some (d, mjoin (entries d !! idx)) | None => None end
  end.

Definition should_compact (d : Dcache) : bool :=
  let cap := Z.of_nat (length (entries d)) in (0 <? cap) && (cap / DCACHE_STALE_CLEANUP_RATIO <? stale_count d).
Definition is_live (es : list (option Z)) (i : nat) : bool := match es !! i with Some (Some _) => true | _ => false end.
Definition live_indices (es : list (option Z)) : list nat := List.filter (is_live es) (seq 0 (length es)).
Definition swap {A} (a b : nat) (l : list A) : list A :=
  match l !! a, l !! b with Some x, Some y => <[a := y]> (<[b := x]> l) | _, _ => l end.
Fixpoint swap_live (new_idx : nat) (live : list nat) (es : list (option Z)) : list (option Z) :=
  match live with
  | [] => es
  | old_idx :: live' => swap_live (S new_idx) live' (if (new_idx =? old_idx)%nat then es else swap new_idx old_idx es)
  end.
Fixpoint remap_from (new_idx : nat) (live : list nat) (m : list (option nat)) : list (option nat) :=
  match live with [] => m | old_idx :: live' => remap_from (S new_idx) live' (<[old_idx := Some new_idx]> m) end.
Definition remap_index (m : list (option nat)) (idx : nat) : nat := match m !! idx with Some (Some n) => n | _ => idx end.
(** The LRU is rebuilt from the old indices, as in the source. *)
Definition compact (d : Dcache) : option Dcache :=
  let live := live_indices (entries d) in
  let old_len := length (entries d) in
  if (length live =? old_len)%nat then Some (mkDcache (entries d) (hash_table d) (lru d) (lru_index d) (count d) 0 (objects d) (next_object d))
  else
    let es := take (Z.to_nat (count d)) (swap_live 0 live (entries d)) in
    let m := remap_from 0 live (replicate old_len None) in
    if forallb (fun p => forallb (fun idx => (idx <? old_len)%nat) p.2) (map_to_list (hash_table d)) then
      Some (mkDcache es (fmap (M := gmap Z) (map (remap_index m)) (hash_table d)) live (list_to_map (imap (fun pos idx => (idx, pos)) live)) (count d) 0 (objects d) (next_object d))
    else None.
Definition maybe_compact (d : Dcache) : option Dcache := if should_compact d then compact d else Some d.

(** The loop of [shrink]; the number says whether something was evicted. *)
Fixpoint shrink_loop (fuel : nat) (target : Z) (evicted : nat) (d : Dcache) : option (Dcache * nat) :=
  match fuel with
  | O => Some (d, evicted)
  | S f =>
      if (target <? count d) && negb (length (lru d) =? 0)%nat then
        match swap_remove 0 (lru d) with
        | None => None
        | Some (idx, l) =>
            let d := set_lru l (base.delete idx (lru_index d)) d in
            match entries d !! idx with
            | None => None
            | Some (Some _) => shrink_loop f target (S evicted) (drop_entry idx d)
            | Some None => shrink_loop f target evicted d
            end
        end
      else Some (d, evicted)
  end.
Definition shrink (target : Z) (d : Dcache) : option Dcache :=
  match shrink_loop (S (length (lru d))) target 0 d with
  | None => None
  | Some (d, evicted) => if (0 <? evicted)%nat && should_compact d then compact d else Some d
  end.

Definition alloc (e : Dentry) (d : Dcache) : option (Dcache * Z) :=
  match (if DCACHE_MAX_ENTRIES <=? count d then shrink DCACHE_SHRINK_BATCH d else Some d) with
  | None => None
  | Some d =>
      let idx := length (entries d) in
      let b := bucket_of (key_of e) in
      let o := next_object d in
      Some (mkDcache (entries d ++ [Some o]) (<[b := bucket b d ++ [idx]]> (hash_table d)) (lru d ++ [idx]) (<[idx := length (lru d)]> (lru_index d))
              (u64_add (count d) 1) (stale_count d) (<[o := e]> (objects d)) (o + 1), o)
  end.
(** [hash_table[b].remove(i)] *)
Definition bucket_remove (b : Z) (i : nat) (d : Dcache) : Dcache := set_table (<[b := base.delete i (bucket b d)]> (hash_table d)) d.
Definition delete (k : Key) (d : Dcache) : option Dcache :=
  match find_in k d with
  | None => None
  | Some None => Some d
  | Some (Some (bi, idx)) =>
      let d := drop_entry idx (bucket_remove (bucket_of k) bi d) in
      match lru_index d !! idx with
      | None => maybe_compact d
      | Some pos =>
          match swap_remove pos (lru d) with
          | None => None
          | Some (_, l) =>
              let ix := match l !! pos with Some swapped => <[swapped := pos]> (lru_index d) | None => lru_index d end in
              maybe_compact (set_lru l (base.delete idx ix) d)
          end
      end
  end.
Definition rename (k k' : Key) (d : Dcache) : option Dcache :=
  if bool_decide (k = k') then Some d
  else match find_in k d with
  | None => None
  | Some None => Some d
  | Some (Some (bi, idx)) =>
      let d := bucket_remove (bucket_of k) bi d in
      match mjoin (entries d !! idx) with
      | None => Some d
      | Some o =>
          let d := mkDcache (entries d) (hash_table d) (lru d) (lru_index d) (count d) (stale_count d) (alter (set_key k') o (objects d)) (next_object d) in
          Some (set_table (<[bucket_of k' := bucket (bucket_of k') d ++ [idx]]> (hash_table d)) d)
      end
  end.
Definition steal (k : Key) (d : Dcache) : option (Dcache * option Z) :=
  match find_in k d with
  | None => None
  | Some None => Some (d, None)
  | Some (Some (bi, idx)) =>
      let r := mjoin (entries d !! idx) in
      let d := drop_entry idx (bucket_remove (bucket_of k) bi d) in
      Some (set_lru (lru d) (base.delete idx (lru_index d)) d, r)
  end.
Definition clear (d : Dcache) : Dcache := mkDcache [] ∅ [] ∅ 0 0 (objects d) (next_object d).
Definition len (d : Dcache) : Z := count d.

(** ** The cache of the file system layer *)
Section Vfs.
(** [f2fs::open_entry]: inode, directory flag, mode, owner, group and size of a path. *)
Context (open_entry : list Z -> option (Z * bool * Z * Z * Z * Z)).
Definition slash : Z := 47.
Definition vfs_dcache_resolve (k : Key) (d : Dcache) : option (Dcache * option Z) :=
  match lookup k d with
  | None => None
  | Some (d, Some o) => Some (d, Some o)
  | Some (d, None) =>
      let path := if k.1 =? 0 then slash :: k.2 else k.2 in
      match open_entry path with
      | Some (i, dir, m, u, g, s) =>
          match alloc (mkDentry k.2 k.1 i dir (m mod 2 ^ 16) u g s 0) d with Some (d, o) => Some (d, Some o) | None => None end
      | None => Some (d, None)
      end
  end.
Fixpoint split_on (sep : Z) (l : list Z) : list (list Z) :=
  match l with
  | [] => [[]]
  | c :: l' => if c =? sep then [] :: split_on sep l' else match split_on sep l' with p :: ps => (c :: p) :: ps | [] => [[c]] end
  end.
Fixpoint trim_start (sep : Z) (l : list Z) : list Z := match l with c :: l' => if c =? sep then trim_start sep l' else l | [] => [] end.
Fixpoint resolve_parts (parts : list (list Z)) (parent : Z) (result : option Z) (d : Dcache) : option (Dcache * option Z) :=
  match parts with
  | [] => Some (d, result)
  | [] :: parts' => resolve_parts parts' parent result d
  | part :: parts' =>
      match vfs_dcache_resolve (parent, part) d with
      | None => None
      | Some (d, Some o) => resolve_parts parts' (match objects d !! o with Some e => ino e | None => 0 end) (Some o) d
      | Some (d, None) => Some (d, None)
      end
  end.
Definition vfs_dcache_resolve_full (path : list Z) (d : Dcache) : option (Dcache * option Z) :=
  match trim_start slash path with
  | [] => Some (d, None)
  | trimmed => resolve_parts (split_on slash trimmed) 0 None d
  end.
Definition vfs_dcache_shrink (d : Dcache) : option Dcache := shrink (sat_sub (len d) 4096) d.
End Vfs.

(** ** What the cache holds *)
Definition resolve (d : Dcache) (idx : nat) : option (Key * Z) :=
  match mjoin (entries d !! idx) with
  | Some o => match objects d !! o with Some e => Some (key_of e, o) | None => None end
  | None => None
  end.
Definition view (b : Z) (d : Dcache) : list (Key * Z) := omap (resolve d) (bucket b d).
Definition lru_ok (l : list nat) (ix : gmap nat nat) : Prop := forall idx pos, ix !! idx = Some pos -> l !! pos = Some idx.
Record wf (d : Dcache) : Prop := {
  wf_bucket : forall b i idx, bucket b d !! i = Some idx -> exists k o, resolve d idx = Some (k, o) /\ bucket_of k = b;
  wf_once : forall b b' i i' idx, bucket b d !! i = Some idx -> bucket b' d !! i' = Some idx -> b = b' /\ i = i';
  wf_distinct : forall i j o, entries d !! i = Some (Some o) -> entries d !! j = Some (Some o) -> i = j;
  wf_object : forall i o, entries d !! i = Some (Some o) -> is_Some (objects d !! o) /\ o < next_object d;
  wf_lru : lru_ok (lru d) (lru_index d);
  wf_count : count d = Z.of_nat (length (live_indices (entries d)));
  wf_bound : count d <= DCACHE_MAX_ENTRIES }.
(** The association list the cache stands for, oldest first. *)
Definition in_bucket (b : Z) (e : Key * Z) : bool := bucket_of e.1 =? b.
Definition refines (d : Dcache) (l : list (Key * Z)) : Prop := wf d /\ forall b, view b d = List.filter (in_bucket b) l.
Definition has_key (k : Key) (e : Key * Z) : bool := bool_decide (e.1 = k).
Definition s_lookup (k : Key) (l : list (Key * Z)) : option Z := snd <$> find (has_key k) l.
Fixpoint s_delete (k : Key) (l : list (Key * Z)) : list (Key * Z) :=
  match l with [] => [] | e :: l' => if has_key k e then l' else e :: s_delete k l' end.
Definition s_rename (k k' : Key) (l : list (Key * Z)) : list (Key * Z) :=
  if bool_decide (k = k') then l else match s_lookup k l with Some o => s_delete k l ++ [(k', o)] | None => l end.

Lemma has_key_true k e : has_key k e = true -> e.1 = k.
Proof. apply bool_decide_eq_true_1. Qed.
Lemma has_key_same k o : has_key k (k, o) = true.
Proof. by apply bool_decide_eq_true_2. Qed.
Lemma has_key_other k k' o : k' <> k -> has_key k (k', o) = false.
Proof. apply bool_decide_eq_false_2. Qed.
Lemma find_filter k l : find (has_key k) (List.filter (in_bucket (bucket_of k)) l) = find (has_key k) l.
Proof.
  induction l as [|e l IH]; [done|]. cbn [List.filter find]. destruct (has_key k e) eqn:E.
  - apply has_key_true in E as Hk. unfold in_bucket at 1. rewrite Hk. rewrite Z.eqb_refl. cbn [find]. by rewrite E.
  - destruct (in_bucket _ e); cbn [find]; [by rewrite E|done].
Qed.
Lemma delete_filter k b l : List.filter (in_bucket b) (s_delete k l) = if bucket_of k =? b then s_delete k (List.filter (in_bucket b) l) else List.filter (in_bucket b) l.
Proof.
  induction l as [|e l IH]; [by destruct (_ =? b)|]. cbn [List.filter s_delete]. destruct (has_key k e) eqn:E.
  - apply has_key_true in E as Hk. assert (in_bucket b e = (bucket_of k =? b)) as -> by (unfold in_bucket; by rewrite Hk). destruct (bucket_of k =? b); [|done]. cbn [s_delete]. by rewrite E.
  - cbn [List.filter]. rewrite IH. destruct (in_bucket b e); destruct (bucket_of k =? b); cbn [s_delete]; rewrite ?E; done.
Qed.
Lemma resolve_entry d idx k o : resolve d idx = Some (k, o) -> entries d !! idx = Some (Some o) /\ exists e, objects d !! o = Some e /\ key_of e = k.
Proof.
  unfold resolve. destruct (entries d !! idx) as [[o'|]|]; cbn; try done. destruct (objects d !! o') as [e|] eqn:E; [|done]. intros [= <- <-]. eauto.
Qed.
Lemma is_entry_resolve d idx k k' o : resolve d idx = Some (k', o) -> is_entry k idx d = Some (bool_decide (k' = k)).
Proof. intros H. apply resolve_entry in H as (He & e & Ho & <-). unfold is_entry. by rewrite He, Ho. Qed.
(** A search in a bucket finds what a search in its view finds. *)
Lemma find_from_view d k i l : Forall (fun idx => is_Some (resolve d idx)) l ->
  match find_from k i l d with
  | None => False
  | Some None => find (has_key k) (omap (resolve d) l) = None
  | Some (Some (bi, idx)) => exists j o, bi = (i + j)%nat /\ l !! j = Some idx /\ resolve d idx = Some (k, o) /\
      find (has_key k) (omap (resolve d) l) = Some (k, o) /\ omap (resolve d) (base.delete j l) = s_delete k (omap (resolve d) l)
  end.
Proof.
  revert i. induction l as [|x l IH]; intros i Hl; [done|]. apply Forall_cons in Hl as [[[k' o] Hx] Hl]. cbn [find_from omap list_omap].
  rewrite (is_entry_resolve _ _ k _ _ Hx), Hx. case_bool_decide as E.
  - subst k'. exists 0%nat, o. cbn [find s_delete]. rewrite has_key_same. split_and!; done || lia.
  - specialize (IH (S i) Hl). destruct (find_from k (S i) l d) as [[[bi idx]|]|]; [|cbn [find]; by rewrite has_key_other|done].
    destruct IH as (j & o' & -> & Hj & Hr & Hf & Hd). exists (S j), o'. split_and!; [lia|done|done| |].
    + cbn [find]. by rewrite has_key_other.
    + change (base.delete (S j) (x :: l)) with (x :: base.delete j l). cbn [omap list_omap s_delete]. rewrite Hx. cbn [s_delete]. rewrite has_key_other by done. by f_equal.
Qed.
Lemma bucket_resolves d b : wf d -> Forall (fun idx => is_Some (resolve d idx)) (bucket b d).
Proof. intros Hw. apply Forall_lookup. intros i idx Hi. destruct (wf_bucket d Hw _ _ _ Hi) as (k & o & H & _). eauto. Qed.
Lemma find_in_refines d l k : refines d l ->
  match find_in k d with
  | None => False
  | Some None => s_lookup k l = None
  | Some (Some (bi, idx)) => exists o, bucket (bucket_of k) d !! bi = Some idx /\ resolve d idx = Some (k, o) /\ s_lookup k l = Some o /\
      omap (resolve d) (base.delete bi (bucket (bucket_of k) d)) = s_delete k (view (bucket_of k) d)
  end.
Proof.
  intros [Hw Hv]. pose proof (find_from_view d k 0 _ (bucket_resolves d (bucket_of k) Hw)) as Hf. fold (find_in k d) in Hf. fold (view (bucket_of k) d) in Hf.
  unfold s_lookup. rewrite <-(find_filter k l), <-Hv. destruct (find_in k d) as [[[bi idx]|]|]; [|by rewrite Hf|done].
  destruct Hf as (j & o & -> & Hj & Hr & Hk & Hd). exists o. rewrite Hk. done.
Qed.

(** ** The LRU index *)
Lemma swap_remove_ok l ix idx pos : lru_ok l ix -> ix !! idx = Some pos ->
  exists l', swap_remove pos l = Some (idx, l') /\
    forall k p, k <> idx -> match l' !! pos with Some s => <[s := pos]> ix | None => ix end !! k = Some p -> l' !! p = Some k.
Proof.
  intros Hl Hi. pose proof (Hl _ _ Hi) as Hp. assert (pos < length l)%nat as Hlt by (by apply lookup_lt_Some in Hp).
  unfold swap_remove. rewrite Hp. destruct (last l) as [y|] eqn:Hy; [|apply last_None in Hy; subst; cbn in *; lia]. rewrite last_lookup in Hy.
  eexists. split; [done|]. set (l' := take _ _).
  assert (forall p, p < length l - 1 -> p <> pos -> l' !! p = l !! p)%nat as Hsame.
  { intros p Hp1 Hp2. unfold l'. rewrite lookup_take_lt by lia. by rewrite list_lookup_insert_ne by lia. }
  intros k p Hk Hx. destruct (Nat.eq_dec pos (length l - 1)%nat) as [Hend|Hend].
  - assert (l' !! pos = None) as E by (apply lookup_ge_None; unfold l'; rewrite length_take; lia). rewrite E in Hx. specialize (Hl _ _ Hx).
    assert (p <> pos) by (intros ->; congruence). rewrite Hsame; [done| |done]. apply lookup_lt_Some in Hl. lia.
  - assert (l' !! pos = Some y) as E by (unfold l'; rewrite lookup_take_lt by lia; by rewrite list_lookup_insert_eq by lia). rewrite E in Hx.
    destruct (decide (y = k)) as [->|Hne]; [rewrite lookup_insert_eq in Hx; injection Hx as <-; done|]. rewrite lookup_insert_ne in Hx by done. specialize (Hl _ _ Hx).
    assert (p <> pos) by (intros ->; congruence). rewrite Hsame; [done| |done]. pose proof (lookup_lt_Some _ _ _ Hl).
    destruct (Nat.eq_dec p (length l - 1)%nat) as [->|]; [|lia]. replace (Nat.pred (length l)) with (length l - 1)%nat in Hy by lia. congruence.
Qed.
Lemma wf_set_lru l ix d : wf d -> lru_ok l ix -> wf (set_lru l ix d).
Proof. intros Hw Hl. destruct Hw. by split. Qed.
Lemma refines_set_lru l ix d m : refines d m -> lru_ok l ix -> refines (set_lru l ix d) m.
Proof. intros [Hw Hv] Hl. split; [by apply wf_set_lru|done]. Qed.
Lemma touch_refines idx d m : refines d m -> exists d', touch_lru idx d = Some d' /\ refines d' m /\ entries d' = entries d.
Proof.
  intros Hr. unfold touch_lru. destruct (lru_index d !! idx) as [pos|] eqn:E; [|eauto].
  destruct (swap_remove_ok _ _ _ _ (wf_lru d (proj1 Hr)) E) as (l' & -> & Hl). eexists. split; [done|]. split; [|done]. apply refines_set_lru; [done|].
  intros k p. destruct (decide (idx = k)) as [->|Hne].
  - rewrite lookup_insert_eq. intros [= <-]. rewrite lookup_app_r, Nat.sub_diag by lia. done.
  - rewrite lookup_insert_ne by done. intros Hx. apply Hl in Hx; [|done]. by apply lookup_app_l_Some.
Qed.
Lemma lookup_refines k d m : refines d m -> exists d', lookup k d = Some (d', s_lookup k m) /\ refines d' m.
Proof.
  intros Hr. unfold lookup. pose proof (find_in_refines d m k Hr) as Hf. destruct (find_in k d) as [[[bi idx]|]|]; [|rewrite Hf; eauto|done].
  destruct Hf as (o & _ & Ho & -> & _). destruct (touch_refines idx d m Hr) as (d' & -> & Hr' & He). exists d'. split; [|done].
  rewrite He. apply resolve_entry in Ho as [-> _]. done.
Qed.

(** ** Live entries *)
Lemma live_app es x : live_indices (es ++ [Some x]) = live_indices es ++ [length es].
Proof.
  unfold live_indices. rewrite length_app. cbn [length]. rewrite seq_app, List.filter_app. f_equal.
  - apply List.filter_ext_in. intros i Hi. apply in_seq in Hi. unfold is_live. by rewrite lookup_app_l by lia.
  - cbn. unfold is_live. by rewrite list_lookup_middle by lia.
Qed.
Lemma elem_of_live es i : i ∈ live_indices es <-> exists o, es !! i = Some (Some o).
Proof.
  unfold live_indices. rewrite list_elem_of_In, filter_In, in_seq. unfold is_live. split.
  - intros [_ H]. destruct (es !! i) as [[o|]|]; try done. eauto.
  - intros [o H]. rewrite H. split; [|done]. apply lookup_lt_Some in H. lia.
Qed.
Lemma live_nodup es : NoDup (live_indices es).
Proof. apply NoDup_ListNoDup, List.NoDup_filter, seq_NoDup. Qed.
Lemma live_drop es i o : es !! i = Some (Some o) -> length (live_indices es) = S (length (live_indices (<[i := None]> es))).
Proof.
  intros Hi. assert (live_indices es ≡ₚ i :: live_indices (<[i := None]> es)) as Hp; [|by apply Permutation_length in Hp].
  apply NoDup_Permutation; [apply live_nodup| |].
  - constructor; [|apply live_nodup]. rewrite elem_of_live. intros [x Hx]. rewrite list_lookup_insert_eq in Hx; [done|]. by apply lookup_lt_Some in Hi.
  - intros j. rewrite elem_of_cons, !elem_of_live. destruct (decide (j = i)) as [->|Hne]; [naive_solver|]. rewrite list_lookup_insert_ne by done. naive_solver.
Qed.

(** ** Adding an entry *)
Lemma omap_same {A B} (f g : A -> option B) (l : list A) : (forall i x, l !! i = Some x -> f x = g x) -> omap f l = omap g l.
Proof.
  induction l as [|x l IH]; intros H; [done|]. cbn. rewrite (H 0%nat x eq_refl). rewrite IH; [done|]. intros i y Hy. by apply (H (S i)).
Qed.
Lemma bucket_insert t b b' l d : bucket b' (set_table (<[b := l]> t) d) = if decide (b = b') then l else default [] (t !! b').
Proof. unfold bucket, set_table. cbn [hash_table]. case_decide as E; [subst; by rewrite lookup_insert_eq|by rewrite lookup_insert_ne]. Qed.
Lemma bucket_live d b i idx : wf d -> bucket b d !! i = Some idx -> exists o, entries d !! idx = Some (Some o).
Proof. intros Hw Hi. destruct (wf_bucket d Hw _ _ _ Hi) as (k & o & Hr & _). apply resolve_entry in Hr as [He _]. eauto. Qed.
(** What an operation has to keep for the entries it does not name. *)
Lemma resolve_ext d d' idx o : entries d !! idx = Some (Some o) -> entries d' !! idx = Some (Some o) -> objects d' !! o = objects d !! o -> resolve d' idx = resolve d idx.
Proof. intros H1 H2 H3. unfold resolve. rewrite H1, H2. cbn. by rewrite H3. Qed.
Lemma alloc_resolve e d d' idx o o' : wf d -> alloc e d = Some (d', o) -> count d < DCACHE_MAX_ENTRIES -> entries d !! idx = Some (Some o') -> resolve d' idx = resolve d idx.
Proof.
  intros Hw Ha Hc Hi. unfold alloc in Ha. replace (DCACHE_MAX_ENTRIES <=? count d) with false in Ha by lia. injection Ha as <- <-.
  apply (resolve_ext _ _ _ o'); [done|cbn; by apply lookup_app_l_Some|]. cbn. destruct (wf_object d Hw _ _ Hi) as [_ Hn]. rewrite lookup_insert_ne by lia. done.
Qed.
Lemma alloc_wf e d d' b : wf d -> count d < DCACHE_MAX_ENTRIES -> b = bucket_of (key_of e) -> alloc e d = Some (d', next_object d) ->
  (forall b' i idx, bucket b' d' !! i = Some idx -> bucket b' d !! i = Some idx \/ (b' = b /\ i = length (bucket b d) /\ idx = length (entries d))) ->
  (forall b' i, bucket b' d !! i <> Some (length (entries d))) -> (forall b' i idx, bucket b' d !! i = Some idx -> resolve d' idx = resolve d idx) ->
  resolve d' (length (entries d)) = Some (key_of e, next_object d) -> wf d'.
Proof.
  intros Hw Hc -> Ha Hcase Hfresh Hold Hn. unfold alloc in Ha. replace (DCACHE_MAX_ENTRIES <=? count d) with false in Ha by lia.
  assert (entries d' = entries d ++ [Some (next_object d)] /\ objects d' = <[next_object d := e]> (objects d) /\ next_object d' = next_object d + 1) as (He & Ho & Hx) by (by injection Ha as <-).
  split.
  - intros b' i idx Hi. apply Hcase in Hi as [Hi|(-> & -> & ->)]; [|eauto]. rewrite (Hold _ _ _ Hi). by apply (wf_bucket d Hw _ i).
  - intros b1 b2 i1 i2 idx H1 H2. apply Hcase in H1, H2. destruct H1 as [H1|(-> & -> & ->)], H2 as [H2|(-> & -> & ?)]; try done; try (subst; by apply Hfresh in H1 || by apply Hfresh in H2).
    by apply (wf_once d Hw _ _ _ _ idx).
  - intros i j o'. rewrite He, !lookup_app_Some, !list_lookup_singleton_Some. intros [H1|(L1 & E1 & [= <-])] [H2|(L2 & E2 & H2)]; try (by apply (wf_distinct d Hw _ _ o')); try lia.
    + injection H2 as <-. destruct (wf_object d Hw _ _ H1) as [_ ?]. lia.
    + destruct (wf_object d Hw _ _ H2) as [_ ?]. lia.
  - intros i o'. rewrite He, Ho, Hx, lookup_app_Some, list_lookup_singleton_Some. intros [H1|(L1 & E1 & [= <-])].
    + destruct (wf_object d Hw _ _ H1) as [H2 H3]. split; [|lia]. by rewrite lookup_insert_ne by lia.
    + rewrite lookup_insert_eq. split; [eauto|lia].
  - injection Ha as <-. cbn. intros idx pos. destruct (decide (length (entries d) = idx)) as [<-|Hne].
    + rewrite lookup_insert_eq. intros [= <-]. by apply list_lookup_middle.
    + rewrite lookup_insert_ne by done. intros H. apply (wf_lru d Hw) in H. by apply lookup_app_l_Some.
  - rewrite He, live_app, length_app. injection Ha as <-. cbn. unfold u64_add. rewrite (wf_count d Hw) in *. rewrite Z.mod_small; [lia|]. unfold u64_mod, DCACHE_MAX_ENTRIES in *. lia.
  - injection Ha as <-. cbn. unfold u64_add. pose proof (wf_count d Hw). rewrite Z.mod_small; [lia|]. unfold u64_mod, DCACHE_MAX_ENTRIES in *. lia.
Qed.
Lemma alloc_refines e d m : refines d m -> count d < DCACHE_MAX_ENTRIES -> exists d', alloc e d = Some (d', next_object d) /\ refines d' (m ++ [(key_of e, next_object d)]).
Proof.
  intros [Hw Hv] Hc. destruct (alloc e d) as [[d' o]|] eqn:Ha; [|unfold alloc in Ha; by replace (DCACHE_MAX_ENTRIES <=? count d) with false in Ha by lia].
  pose proof (fun idx o' => alloc_resolve e d d' idx o o' Hw Ha Hc) as Hres.
  pose proof Ha as Ha0. unfold alloc in Ha. replace (DCACHE_MAX_ENTRIES <=? count d) with false in Ha by lia. set (b := bucket_of (key_of e)) in *.
  assert (o = next_object d) as -> by congruence. exists d'. split; [done|].
  assert (forall b', bucket b' d' = if decide (b = b') then bucket b d ++ [length (entries d)] else bucket b' d) as Hb.
  { intros b'. injection Ha as <-. unfold bucket at 1. cbn [hash_table]. case_decide; [subst; by rewrite lookup_insert_eq|by rewrite lookup_insert_ne]. }
  assert (resolve d' (length (entries d)) = Some (key_of e, next_object d)) as Hn.
  { injection Ha as <-. unfold resolve. cbn. rewrite list_lookup_middle by done. cbn. by rewrite lookup_insert_eq. }
  assert (forall b' i idx, bucket b' d' !! i = Some idx -> bucket b' d !! i = Some idx \/ (b' = b /\ i = length (bucket b d) /\ idx = length (entries d))) as Hcase.
  { intros b' i idx. rewrite Hb. case_decide as E; [|by left]. subst b'. rewrite lookup_app_Some. intros [H|[H1 H2]]; [by left|]. right.
    apply list_lookup_singleton_Some in H2 as [H2 <-]. split_and!; [done|lia|done]. }
  assert (forall b' i, bucket b' d !! i <> Some (length (entries d))) as Hfresh.
  { intros b' i H. destruct (bucket_live d _ _ _ Hw H) as [x Hx]. apply lookup_lt_Some in Hx. lia. }
  assert (forall b' i idx, bucket b' d !! i = Some idx -> resolve d' idx = resolve d idx) as Hold.
  { intros b' i idx Hi. destruct (bucket_live d _ _ _ Hw Hi) as [x Hx]. by apply (Hres _ x). }
  split; [by apply (alloc_wf e d d' b)|].
  intros b'. unfold view. rewrite Hb, List.filter_app. cbn [List.filter]. unfold in_bucket at 2. cbn [fst]. fold b. rewrite <-Hv. case_decide as E.
  - subst b'. rewrite omap_app, Z.eqb_refl. f_equal; [apply omap_same; apply Hold|]. cbn. by rewrite Hn.
  - replace (b =? b') with false by lia. rewrite app_nil_r. apply omap_same, Hold.
Qed.

(** ** Taking an entry out of its bucket *)
Lemma bucket_remove_lookup k bi d b i x : bucket b (bucket_remove k bi d) !! i = Some x ->
  bucket b d !! (if decide (k = b /\ bi <= i)%nat then S i else i) = Some x.
Proof.
  unfold bucket_remove. rewrite bucket_insert. fold (bucket b d). destruct (decide (k = b)) as [->|Hne].
  - destruct (decide (bi <= i)%nat).
    + rewrite decide_True by done. by rewrite list_lookup_delete_ge by lia.
    + rewrite decide_False by naive_solver. by rewrite list_lookup_delete_lt by lia.
  - by rewrite decide_False by naive_solver.
Qed.
Lemma bucket_remove_refines d m k bi idx o : refines d m -> bucket (bucket_of k) d !! bi = Some idx -> resolve d idx = Some (k, o) ->
  omap (resolve d) (base.delete bi (bucket (bucket_of k) d)) = s_delete k (view (bucket_of k) d) ->
  refines (bucket_remove (bucket_of k) bi d) (s_delete k m) /\ forall b i, bucket b (bucket_remove (bucket_of k) bi d) !! i <> Some idx.
Proof.
  intros [Hw Hv] Hb Hr Hd. split; [split|].
  - destruct Hw as [W1 W2 W3 W4 W5 W6 W7]. split; try done.
    + intros b i x Hx. apply bucket_remove_lookup in Hx. by apply W1 in Hx.
    + intros b b' i i' x H1 H2. apply bucket_remove_lookup in H1, H2. destruct (W2 _ _ _ _ _ H1 H2) as [-> E]. split; [done|]. repeat case_decide; naive_solver lia.
  - intros b. rewrite delete_filter, <-Hv. unfold view at 1, bucket_remove. rewrite bucket_insert. change (resolve (set_table _ d)) with (resolve d). fold (bucket b d).
    case_decide as E; [subst b; by rewrite Z.eqb_refl|]. by replace (bucket_of k =? b) with false by lia.
  - intros b i Hx. apply bucket_remove_lookup in Hx. destruct (wf_once d Hw _ _ _ _ _ Hx Hb) as [-> E]. case_decide as C; [lia|]. apply C. split; [done|lia].
Qed.
Lemma drop_refines d m idx o : refines d m -> entries d !! idx = Some (Some o) -> (forall b i, bucket b d !! i <> Some idx) -> refines (drop_entry idx d) m.
Proof.
  intros [Hw Hv] He Hn. assert (forall b i x, bucket b d !! i = Some x -> resolve (drop_entry idx d) x = resolve d x) as Hold.
  { intros b i x Hx. destruct (bucket_live d _ _ _ Hw Hx) as [o' Ho]. apply (resolve_ext _ _ _ o'); [done| |done]. cbn.
    rewrite list_lookup_insert_ne; [done|]. intros ->. by apply Hn in Hx. }
  pose proof (live_drop _ _ _ He) as Hl. destruct Hw as [W1 W2 W3 W4 W5 W6 W7].
  assert (forall i o', <[idx := None]> (entries d) !! i = Some (Some o') -> entries d !! i = Some (Some o')) as Hsub.
  { intros i o'. rewrite list_lookup_insert_Some. naive_solver. }
  assert (u64_sub (count d) 1 = Z.of_nat (length (live_indices (<[idx := None]> (entries d))))) as Hc.
  { unfold u64_sub. rewrite W6, Hl. rewrite Z.mod_small; [lia|]. unfold u64_mod, DCACHE_MAX_ENTRIES in *. lia. }
  split; [split|]; cbn [entries objects count lru lru_index next_object drop_entry]; try done.
  - intros b i x Hx. change (bucket b (drop_entry idx d)) with (bucket b d) in Hx. rewrite (Hold b i x) by done. by apply (W1 b i).
  - intros i j o' H1 H2. by apply (W3 _ _ o'); apply Hsub.
  - intros i o' H1. by apply (W4 i), Hsub.
  - lia.
  - intros b. rewrite <-Hv. apply omap_same. apply Hold.
Qed.

(** ** Renaming *)
Lemma rename_adds d1 d2 m k' idx o e : refines d1 m -> (forall b i, bucket b d1 !! i <> Some idx) -> entries d1 !! idx = Some (Some o) -> objects d1 !! o = Some e ->
  d2 = mkDcache (entries d1) (hash_table d1) (lru d1) (lru_index d1) (count d1) (stale_count d1) (alter (set_key k') o (objects d1)) (next_object d1) ->
  refines (set_table (<[bucket_of k' := bucket (bucket_of k') d2 ++ [idx]]> (hash_table d2)) d2) (m ++ [(k', o)]).
Proof.
  intros [Hw Hv] Hn He Ho ->. set (d2 := mkDcache _ _ _ _ _ _ _ _). set (b0 := bucket_of k'). set (d3 := set_table _ _).
  assert (forall b, bucket b d3 = if decide (b0 = b) then bucket b d1 ++ [idx] else bucket b d1) as Hb.
  { intros b. unfold d3. rewrite bucket_insert. case_decide; by subst. }
  assert (resolve d3 idx = Some (k', o)) as Hi by (unfold resolve; cbn; rewrite He; cbn; rewrite lookup_alter_eq, Ho; by destruct k').
  assert (forall b i x, bucket b d1 !! i = Some x -> resolve d3 x = resolve d1 x) as Hold.
  { intros b i x Hx. destruct (bucket_live d1 _ _ _ Hw Hx) as [o' Ho']. apply (resolve_ext _ _ _ o'); [done|done|]. cbn.
    rewrite lookup_alter_ne; [done|]. intros <-. apply (Hn b i). rewrite Hx. f_equal. by apply (wf_distinct d1 Hw _ _ o). }
  assert (forall b i x, bucket b d3 !! i = Some x -> bucket b d1 !! i = Some x \/ (b = b0 /\ i = length (bucket b0 d1) /\ x = idx)) as Hcase.
  { intros b i x. rewrite Hb. case_decide as E; [|by left]. subst b. rewrite lookup_app_Some. intros [H|[H1 H2]]; [by left|]. right.
    apply list_lookup_singleton_Some in H2 as [H2 <-]. split_and!; [done|lia|done]. }
  split; [|intros b; unfold view; rewrite Hb, List.filter_app; cbn [List.filter]; unfold in_bucket at 2; cbn [fst]; fold b0; rewrite <-Hv; case_decide as E].
  - destruct Hw as [W1 W2 W3 W4 W5 W6 W7]. split; try done.
    + intros b i x Hx. apply Hcase in Hx as [Hx|(-> & -> & ->)]; [|eauto]. rewrite (Hold _ _ _ Hx). by apply (W1 b i).
    + intros b1 b2 i1 i2 x H1 H2. apply Hcase in H1, H2. destruct H1 as [H1|(-> & -> & ->)], H2 as [H2|(-> & -> & ?)]; try done; try (subst; by apply Hn in H1 || by apply Hn in H2).
      by apply (W2 _ _ _ _ x).
    + intros i o' H1. destruct (W4 i o' H1) as [[e' H2] H3]. split; [|done]. cbn. destruct (decide (o = o')) as [<-|]; [rewrite lookup_alter_eq, Ho|rewrite lookup_alter_ne by done; rewrite H2]; eauto.
  - subst b. rewrite omap_app, Z.eqb_refl. f_equal; [apply omap_same, Hold|]. cbn. by rewrite Hi.
  - replace (b0 =? b) with false by lia. rewrite app_nil_r. apply omap_same, Hold.
Qed.
Lemma rename_refines k k' d m : refines d m -> exists d', rename k k' d = Some d' /\ refines d' (s_rename k k' m).
Proof.
  intros Hr. unfold rename, s_rename. case_bool_decide as Ek; [eauto|]. pose proof (find_in_refines d m k Hr) as Hf.
  destruct (find_in k d) as [[[bi idx]|]|]; [|rewrite Hf; eauto|done]. destruct Hf as (o & Hb & Hro & -> & Hd).
  destruct (bucket_remove_refines d m k bi idx o Hr Hb Hro Hd) as [Hr1 Hn]. set (d1 := bucket_remove (bucket_of k) bi d) in *.
  change (entries d1) with (entries d). apply resolve_entry in Hro as (He & e & Ho & Hk). rewrite He. cbn [mjoin option_join]. eexists. split; [done|].
  set (d2 := mkDcache _ _ _ _ _ _ (alter (set_key k') o (objects d1)) _). by apply (rename_adds d1 d2 _ k' idx o e).
Qed.

(** ** Compaction *)
Lemma live_sorted es : StronglySorted lt (live_indices es).
Proof.
  unfold live_indices. generalize 0%nat. induction (length es) as [|n IH]; intros a; [constructor|]. cbn [seq List.filter]. destruct (is_live es a); [|apply IH].
  constructor; [apply IH|]. apply Forall_forall. intros x Hx. apply list_elem_of_In, filter_In in Hx as [Hx _]. apply in_seq in Hx. lia.
Qed.
Lemma swap_lookup {A} a b (l : list A) j : (a < length l)%nat -> (b < length l)%nat ->
  swap a b l !! j = if decide (j = a) then l !! b else if decide (j = b) then l !! a else l !! j.
Proof.
  intros Ha Hb. unfold swap. destruct (lookup_lt_is_Some_2 l a Ha) as [x Hx], (lookup_lt_is_Some_2 l b Hb) as [y Hy]. rewrite Hx, Hy. repeat case_decide; subst.
  - by rewrite list_lookup_insert_eq by (rewrite length_insert; lia).
  - rewrite list_lookup_insert_ne by done. by rewrite list_lookup_insert_eq by lia.
  - by rewrite !list_lookup_insert_ne by done.
Qed.
Lemma swap_length {A} a b (l : list A) : length (swap a b l) = length l.
Proof. unfold swap. repeat case_match; rewrite ?length_insert; done. Qed.
Lemma swap_live_ok (orig : list (option Z)) rest n es : StronglySorted lt rest -> Forall (fun x => n <= x < length es)%nat rest -> Forall (fun x => es !! x = orig !! x) rest ->
  length (swap_live n rest es) = length es /\
  (forall m, (m < n)%nat -> swap_live n rest es !! m = es !! m) /\ (forall m x, rest !! m = Some x -> swap_live n rest es !! (n + m)%nat = orig !! x).
Proof.
  revert n es. induction rest as [|old rest IH]; intros n es Hs Hr Ho; [done|]. cbn [swap_live].
  apply StronglySorted_inv in Hs as [Hs Hlt]. apply Forall_cons in Hr as [Hr0 Hr], Ho as [Ho0 Ho].
  set (es1 := if (n =? old)%nat then es else swap n old es).
  assert (length es1 = length es) as Hl by (unfold es1; case_match; [done|apply swap_length]).
  assert (forall j, es1 !! j = if decide (j = n) then es !! old else if decide (j = old) then es !! n else es !! j) as He.
  { intros j. unfold es1. destruct (Nat.eqb_spec n old) as [->|]; [repeat case_decide; by subst|]. apply swap_lookup; lia. }
  destruct (IH (S n) es1) as (H1 & H2 & H3); [done| | |].
  - rewrite Hl. rewrite Forall_forall in Hr, Hlt |- *. intros x Hx. specialize (Hr x Hx). specialize (Hlt x Hx). lia.
  - rewrite Forall_forall in Ho, Hlt |- *. intros x Hx. specialize (Hlt x Hx). rewrite He, !decide_False by lia. by apply Ho.
  - split_and!; [lia| |].
    + intros m Hm. rewrite H2 by lia. by rewrite He, !decide_False by lia.
    + intros [|m] x Hx; [|rewrite Nat.add_succ_r; by apply (H3 m)]. injection Hx as <-. rewrite Nat.add_0_r, H2 by lia. by rewrite He, decide_True.
Qed.
Lemma remap_frame rest n m x : x ∉ rest -> remap_from n rest m !! x = m !! x.
Proof.
  revert n m. induction rest as [|y rest IH]; intros n m Hx; [done|]. apply not_elem_of_cons in Hx as [Hy Hx]. cbn. rewrite IH by done. by rewrite list_lookup_insert_ne by done.
Qed.
Lemma remap_rank rest n m j x : NoDup rest -> Forall (fun y => y < length m)%nat rest -> rest !! j = Some x -> remap_from n rest m !! x = Some (Some (n + j)%nat).
Proof.
  revert n m j. induction rest as [|y rest IH]; intros n m j Hd Hl Hj; [done|]. apply NoDup_cons in Hd as [Hy Hd]. apply Forall_cons in Hl as [Hl0 Hl]. cbn. destruct j as [|j].
  - injection Hj as ->. rewrite remap_frame by done. rewrite list_lookup_insert_eq by done. by rewrite Nat.add_0_r.
  - rewrite (IH (S n) _ j); [by rewrite Nat.add_succ_r|done|by rewrite length_insert|done].
Qed.
Lemma live_all es : Forall (fun x => is_Some x) es -> live_indices es = seq 0 (length es).
Proof.
  intros H. unfold live_indices. rewrite <-(List.filter_ext_in (fun _ => true)).
  - induction (seq _ _) as [|x l IH]; [done|]. cbn. by rewrite IH.
  - intros i Hi. apply in_seq in Hi. unfold is_live. destruct (lookup_lt_is_Some_2 es i ltac:(lia)) as [x Hx]. rewrite Hx. rewrite Forall_lookup in H. by destruct (H _ _ Hx) as [o ->].
Qed.
(** The entries and the index map of a compaction. *)
Section Compact.
Context (d : Dcache) (Hw : wf d).
Definition c_live := live_indices (entries d).
Definition c_entries := take (Z.to_nat (count d)) (swap_live 0 c_live (entries d)).
Definition c_map := remap_from 0 c_live (replicate (length (entries d)) None).
Lemma c_live_lt : Forall (fun x => x < length (entries d))%nat c_live.
Proof. apply Forall_forall. intros x Hx. apply elem_of_live in Hx as [o Ho]. by apply lookup_lt_Some in Ho. Qed.
Lemma c_rank x o : entries d !! x = Some (Some o) -> exists j, c_live !! j = Some x /\ remap_index c_map x = j.
Proof.
  intros Hx. assert (x ∈ c_live) as Hl by (apply elem_of_live; eauto). apply list_elem_of_lookup in Hl as [j Hj]. exists j. split; [done|].
  unfold remap_index, c_map. rewrite (remap_rank c_live 0 _ j x); [done|apply live_nodup|rewrite length_replicate; apply c_live_lt|done].
Qed.
Lemma c_count : Z.to_nat (count d) = length c_live.
Proof. rewrite (wf_count d Hw). unfold c_live. lia. Qed.
Lemma c_lookup j x : c_live !! j = Some x -> c_entries !! j = entries d !! x.
Proof.
  intros Hj. unfold c_entries. rewrite lookup_take_lt by (rewrite c_count; by apply lookup_lt_Some in Hj).
  destruct (swap_live_ok (entries d) c_live 0 (entries d)) as (_ & _ & H); [apply live_sorted| |by apply Forall_forall|by apply (H j)].
  eapply Forall_impl; [apply c_live_lt|]. cbn. lia.
Qed.
Lemma c_length : length c_entries = length c_live.
Proof.
  unfold c_entries. rewrite length_take, c_count. destruct (swap_live_ok (entries d) c_live 0 (entries d)) as (-> & _ & _); [apply live_sorted| |by apply Forall_forall|].
  - eapply Forall_impl; [apply c_live_lt|]. cbn. lia.
  - unfold c_live, live_indices. pose proof (List.filter_length_le (is_live (entries d)) (seq 0 (length (entries d)))) as H. rewrite length_seq in H. lia.
Qed.
Lemma c_entry i o : c_entries !! i = Some (Some o) -> exists x, c_live !! i = Some x /\ entries d !! x = Some (Some o).
Proof.
  intros Hi. destruct (lookup_lt_is_Some_2 c_live i) as [x Hx]; [rewrite <-c_length; by apply lookup_lt_Some in Hi|]. exists x. split; [done|]. by rewrite <-(c_lookup i x Hx).
Qed.
Lemma c_all_live : length (live_indices c_entries) = length c_live.
Proof.
  rewrite live_all, length_seq; [apply c_length|]. apply Forall_lookup. intros i e Hi. destruct (lookup_lt_is_Some_2 c_live i) as [x Hx]; [rewrite <-c_length; by apply lookup_lt_Some in Hi|].
  rewrite (c_lookup i x Hx) in Hi. assert (x ∈ c_live) as Hl by (apply list_elem_of_lookup; eauto). apply elem_of_live in Hl as [o Ho]. rewrite Ho in Hi. injection Hi as <-. eauto.
Qed.
End Compact.
Lemma buckets_in_range d : wf d -> forallb (fun p => forallb (fun idx => (idx <? length (entries d))%nat) p.2) (map_to_list (hash_table d)) = true.
Proof.
  intros Hw. apply forallb_forall. intros [b l] Hp. apply forallb_forall. intros x Hx. apply list_elem_of_In, elem_of_map_to_list in Hp.
  apply list_elem_of_In, list_elem_of_lookup in Hx as [i Hi]. destruct (bucket_live d b i x Hw) as [o Ho]; [unfold bucket; by rewrite Hp|]. apply lookup_lt_Some in Ho. by apply Nat.ltb_lt.
Qed.
Lemma compact_wf d d' : wf d -> d' = mkDcache (c_entries d) (fmap (M := gmap Z) (map (remap_index (c_map d))) (hash_table d)) (c_live d)
    (list_to_map (imap (fun pos idx => (idx, pos)) (c_live d))) (count d) 0 (objects d) (next_object d) ->
  (forall b, bucket b d' = map (remap_index (c_map d)) (bucket b d)) ->
  (forall b i x, bucket b d !! i = Some x -> resolve d' (remap_index (c_map d) x) = resolve d x) -> wf d'.
Proof.
  intros Hw -> Hb Hres. set (d' := mkDcache _ _ _ _ _ _ _ _) in *. split; cbn [entries objects count lru lru_index next_object d'].
  - intros b i x'. rewrite Hb, list_lookup_fmap. intros H. apply fmap_Some in H as (x & Hx & ->). rewrite (Hres _ _ _ Hx). by apply (wf_bucket d Hw _ i).
  - intros b b' i i' x'. rewrite !Hb, !list_lookup_fmap. intros H1 H2. apply fmap_Some in H1 as (x & Hx & ->), H2 as (y & Hy & E).
    destruct (bucket_live d _ _ _ Hw Hx) as [o Ho], (bucket_live d _ _ _ Hw Hy) as [o' Ho']. destruct (c_rank d x o Ho) as (j & Hj & Ej), (c_rank d y o' Ho') as (j' & Hj' & Ej').
    apply (wf_once d Hw _ _ _ _ x Hx). rewrite Hy. congruence.
  - intros i j o H1 H2. apply c_entry in H1 as (x & Hx & Ho), H2 as (y & Hy & Ho'); [|done..]. pose proof (wf_distinct d Hw _ _ _ Ho Ho') as <-.
    by apply (NoDup_lookup (c_live d) i j x); [apply live_nodup|..].
  - intros i o H1. apply c_entry in H1 as (x & _ & Ho); [|done]. by apply (wf_object d Hw x).
  - intros idx pos H. apply elem_of_list_to_map_2, list_elem_of_lookup in H as [i Hi]. apply list_lookup_imap_Some in Hi as (x & Hx & [= <- <-]). done.
  - rewrite c_all_live by done. apply (wf_count d Hw).
  - apply (wf_bound d Hw).
Qed.
Lemma compact_ok d m : refines d m -> exists d', compact d = Some d' /\ refines d' m /\ count d' = count d /\ objects d' = objects d /\ next_object d' = next_object d.
Proof.
  intros [Hw Hv]. unfold compact. destruct (Nat.eqb_spec (length (live_indices (entries d))) (length (entries d))) as [_|Hne].
  { eexists. split; [done|]. split_and!; try done. split; [|done]. destruct Hw. by split. }
  fold (c_live d). fold (c_entries d). fold (c_map d).
  replace (forallb _ _) with true by (symmetry; by apply buckets_in_range). eexists. split; [done|]. split_and!; try done. set (d' := mkDcache _ _ _ _ _ _ _ _).
  assert (forall b, bucket b d' = map (remap_index (c_map d)) (bucket b d)) as Hb.
  { intros b. unfold bucket. cbn. rewrite lookup_fmap. by destruct (hash_table d !! b). }
  assert (forall b i x, bucket b d !! i = Some x -> resolve d' (remap_index (c_map d) x) = resolve d x) as Hres.
  { intros b i x Hx. destruct (bucket_live d _ _ _ Hw Hx) as [o Ho]. destruct (c_rank d x o Ho) as (j & Hj & ->).
    unfold resolve. cbn. rewrite (c_lookup d Hw j x Hj). by rewrite Ho. }
  split; [by apply (compact_wf d d')|]. intros b. unfold view. rewrite Hb, <-Hv. unfold view. generalize (Hres b). induction (bucket b d) as [|x l IH]; intros H; [done|].
  cbn. rewrite (H 0%nat x eq_refl). rewrite IH; [done|]. intros i y Hy. by apply (H (S i)).
Qed.

(** ** Deleting *)
Lemma maybe_compact_ok d m : refines d m -> exists d', maybe_compact d = Some d' /\ refines d' m /\ count d' = count d /\ objects d' = objects d /\ next_object d' = next_object d.
Proof. intros Hr. unfold maybe_compact. destruct (should_compact d); [by apply compact_ok|eauto 10]. Qed.
Lemma count_drop d m idx o : refines d m -> entries d !! idx = Some (Some o) -> count (drop_entry idx d) <= count d.
Proof.
  intros [Hw _] He. cbn. unfold u64_sub. rewrite (wf_count d Hw). apply live_drop in He. rewrite Z.mod_small; [lia|]. pose proof (wf_bound d Hw) as H. rewrite (wf_count d Hw) in H.
  unfold u64_mod, DCACHE_MAX_ENTRIES in *. lia.
Qed.
Lemma found_dropped d m k bi idx : refines d m -> find_in k d = Some (Some (bi, idx)) ->
  exists o, s_lookup k m = Some o /\ entries d !! idx = Some (Some o) /\ refines (drop_entry idx (bucket_remove (bucket_of k) bi d)) (s_delete k m) /\
    count (drop_entry idx (bucket_remove (bucket_of k) bi d)) <= count d.
Proof.
  intros Hr Hf. pose proof (find_in_refines d m k Hr) as H. rewrite Hf in H. destruct H as (o & Hb & Hro & Hs & Hd).
  destruct (bucket_remove_refines d m k bi idx o Hr Hb Hro Hd) as [Hr1 Hn]. apply resolve_entry in Hro as [He _]. exists o. split_and!; [done|done| |].
  - by apply (drop_refines _ _ _ o).
  - by apply (count_drop (bucket_remove (bucket_of k) bi d) _ idx o Hr1).
Qed.
Lemma s_delete_absent k m : s_lookup k m = None -> s_delete k m = m.
Proof.
  unfold s_lookup. induction m as [|e m IH]; [done|]. cbn [find s_delete]. destruct (has_key k e); [done|]. intros H. by rewrite IH.
Qed.
Lemma delete_refines k d m : refines d m -> exists d', delete k d = Some d' /\ refines d' (s_delete k m) /\ count d' <= count d /\ objects d' = objects d /\ next_object d' = next_object d.
Proof.
  intros Hr. unfold delete. destruct (find_in k d) as [[[bi idx]|]|] eqn:Hf; [|pose proof (find_in_refines d m k Hr) as H; rewrite Hf in H..].
  - destruct (found_dropped d m k bi idx Hr Hf) as (o & _ & _ & Hr1 & Hc). set (d1 := drop_entry idx _) in *. destruct (lru_index d1 !! idx) as [pos|] eqn:Ei.
    + destruct (swap_remove_ok _ _ _ _ (wf_lru d1 (proj1 Hr1)) Ei) as (l' & -> & Hl). set (ix := match l' !! pos with Some _ => _ | None => _ end) in *.
      destruct (maybe_compact_ok (set_lru l' (base.delete idx ix) d1) (s_delete k m)) as (d' & -> & Hr' & Hc' & Ho & Hx); [|exists d'; by rewrite Hc', Ho, Hx].
      apply refines_set_lru; [done|]. intros x p Hp. apply lookup_delete_Some in Hp as [Hne Hp]. by apply Hl.
    + destruct (maybe_compact_ok d1 _ Hr1) as (d' & -> & Hr' & Hc' & Ho & Hx). exists d'. by rewrite Hc', Ho, Hx.
  - exists d. rewrite s_delete_absent by done. split_and!; done || lia.
  - done.
Qed.
Lemma steal_refines k d m : refines d m -> exists d', steal k d = Some (d', s_lookup k m) /\ refines d' (s_delete k m) /\ count d' <= count d /\ objects d' = objects d /\ next_object d' = next_object d.
Proof.
  intros Hr. unfold steal. destruct (find_in k d) as [[[bi idx]|]|] eqn:Hf; [|pose proof (find_in_refines d m k Hr) as H; rewrite Hf in H..].
  - destruct (found_dropped d m k bi idx Hr Hf) as (o & -> & -> & Hr1 & Hc). eexists. split; [done|]. split_and!; try done. apply refines_set_lru; [done|].
    intros x p Hp. apply lookup_delete_Some in Hp as [Hne Hp]. by apply (wf_lru _ (proj1 Hr1)).
  - exists d. rewrite s_delete_absent, H by done. split_and!; done || lia.
  - done.
Qed.

(** ** Histories *)
Inductive op := Lookup (k : Key) | Alloc (e : Dentry) | Delete (k : Key) | Rename (k k' : Key) | Steal (k : Key) | Clear.
(** The answer of an operation: an object and what it holds now. *)
Definition Answer : Type := option (Z * option Dentry).
Definition seen (objs : gmap Z Dentry) (r : option Z) : Answer := (fun o => (o, objs !! o)) <$> r.
Definition exec (o : op) (d : Dcache) : option (Dcache * Answer) :=
  match o with
  | Lookup k => (fun '(d, r) => (d, seen (objects d) r)) <$> lookup k d
  | Alloc e => (fun '(d, r) => (d, seen (objects d) (Some r))) <$> alloc e d
  | Delete k => (fun d => (d, None)) <$> delete k d
  | Rename k k' => (fun d => (d, None)) <$> rename k k' d
  | Steal k => (fun '(d, r) => (d, seen (objects d) r)) <$> steal k d
  | Clear => Some (clear d, None)
  end.
Fixpoint run (os : list op) (d : Dcache) : option (list Answer) :=
  match os with
  | [] => Some []
  | o :: os' => match exec o d with Some (d, a) => (fun l => a :: l) <$> run os' d | None => None end
  end.
Record Spec := mkSpec { s_list : list (Key * Z); s_objects : gmap Z Dentry; s_next : Z }.
Definition s_exec (o : op) (s : Spec) : Spec * Answer :=
  match o with
  | Lookup k => (s, seen (s_objects s) (s_lookup k (s_list s)))
  | Alloc e => let s' := mkSpec (s_list s ++ [(key_of e, s_next s)]) (<[s_next s := e]> (s_objects s)) (s_next s + 1) in (s', Some (s_next s, Some e))
  | Delete k => (mkSpec (s_delete k (s_list s)) (s_objects s) (s_next s), None)
  | Rename k k' =>
      let objs := match s_lookup k (s_list s) with Some o => if bool_decide (k = k') then s_objects s else alter (set_key k') o (s_objects s) | None => s_objects s end in
      (mkSpec (s_rename k k' (s_list s)) objs (s_next s), None)
  | Steal k => (mkSpec (s_delete k (s_list s)) (s_objects s) (s_next s), seen (s_objects s) (s_lookup k (s_list s)))
  | Clear => (mkSpec [] (s_objects s) (s_next s), None)
  end.
Fixpoint s_run (os : list op) (s : Spec) : list Answer :=
  match os with [] => [] | o :: os' => let '(s, a) := s_exec o s in a :: s_run os' s end.
Definition allocs (os : list op) : Z := sumZ (fun o => match o with Alloc _ => 1 | _ => 0 end) os.
Definition simulates (d : Dcache) (s : Spec) : Prop := refines d (s_list s) /\ objects d = s_objects s /\ next_object d = s_next s.
Lemma lookup_frame k d d' r : lookup k d = Some (d', r) -> objects d' = objects d /\ next_object d' = next_object d /\ count d' = count d.
Proof. unfold lookup, touch_lru. intros H. repeat case_match; simplify_eq; done. Qed.
Lemma rename_frame k k' d m d' : refines d m -> rename k k' d = Some d' ->
  objects d' = match s_lookup k m with Some o => if bool_decide (k = k') then objects d else alter (set_key k') o (objects d) | None => objects d end /\
  next_object d' = next_object d /\ count d' = count d.
Proof.
  intros Hr. unfold rename. pose proof (find_in_refines d m k Hr) as Hf. case_bool_decide; [intros [= <-]; by destruct (s_lookup k m)|].
  destruct (find_in k d) as [[[bi idx]|]|]; [|intros [= <-]; by rewrite Hf|done]. destruct Hf as (o & _ & Ho & -> & _). apply resolve_entry in Ho as [He _].
  change (entries (bucket_remove (bucket_of k) bi d)) with (entries d). rewrite He. cbn. by intros [= <-].
Qed.
Lemma exec_simulates o d s : simulates d s -> count d + allocs [o] <= DCACHE_MAX_ENTRIES ->
  exists d', exec o d = Some (d', (s_exec o s).2) /\ simulates d' (s_exec o s).1 /\ count d' <= count d + allocs [o].
Proof.
  destruct s as [m objs n]. intros (Hr & Ho & Hn) Hc. cbn [s_list s_objects s_next] in *. subst objs n. unfold allocs in *. destruct o as [k|e|k|k k'|k|]; cbn in Hc |- *.
  - destruct (lookup_refines k d m Hr) as (d' & E & Hr'). pose proof (lookup_frame _ _ _ _ E) as (H1 & H2 & H3). rewrite E. exists d'. cbn. rewrite H1. split_and!; [done|done|lia].
  - destruct (alloc_refines e d m Hr ltac:(lia)) as (d' & E & Hr'). rewrite E. exists d'. pose proof E as E'. unfold alloc in E'. replace (DCACHE_MAX_ENTRIES <=? count d) with false in E' by lia.
    assert (objects d' = <[next_object d := e]> (objects d) /\ next_object d' = next_object d + 1 /\ count d' = u64_add (count d) 1) as (H1 & H2 & H3) by (by injection E' as <-).
    cbn. rewrite H1, lookup_insert_eq. split_and!; try done. rewrite H3. unfold u64_add. pose proof (wf_count d (proj1 Hr)). rewrite Z.mod_small; [lia|]. unfold u64_mod, DCACHE_MAX_ENTRIES in *. lia.
  - destruct (delete_refines k d m Hr) as (d' & -> & Hr' & H1 & H2 & H3). exists d'. split_and!; done || lia.
  - destruct (rename_refines k k' d m Hr) as (d' & E & Hr'). rewrite E. exists d'. split; [done|]. destruct (rename_frame k k' d m d' Hr E) as (H1 & H2 & H3). split_and!; done || lia.
  - destruct (steal_refines k d m Hr) as (d' & -> & Hr' & H1 & H2 & H3). exists d'. cbn. rewrite H2. split_and!; done || lia.
  - exists (clear d). split; [done|]. split; [split; [|done]|cbn; pose proof (wf_count d (proj1 Hr)); lia]. split; [|done]. split; cbn; try done.
Qed.

(** The code's own effect: an association list searched from its oldest end.  A
    duplicate name goes unseen behind the older entry. *)
Lemma dcache_list os : allocs os <= DCACHE_MAX_ENTRIES -> run os new = Some (s_run os (mkSpec [] ∅ 0)).
Proof.
  assert (forall d s, simulates d s -> count d + allocs os <= DCACHE_MAX_ENTRIES -> run os d = Some (s_run os s)) as H.
  { induction os as [|o os IH]; intros d s Hs Hc; [done|]. change (allocs (o :: os)) with (match o with Alloc _ => 1 | _ => 0 end + allocs os) in Hc.
    assert (0 <= allocs os) as Hp by (apply sumZ_nonneg; intros []; lia). assert (allocs [o] = match o with Alloc _ => 1 | _ => 0 end) as Ho by (cbn; lia).
    destruct (exec_simulates o d s Hs ltac:(lia)) as (d' & He & Hs' & Hc'). cbn [run s_run]. rewrite He. destruct (s_exec o s) as [s' a]. rewrite (IH d' s') by (done || lia). done. }
  intros Hc. apply H; [|done]. split; [split; [|done]|done]. split; cbn; try done.
Qed.

(** ** The contract: a finite map
    Names lead to shared objects; a rename onto a name replaces what it led to. *)
Record FSpec := mkF { f_map : gmap Key Z; f_objects : gmap Z Dentry; f_next : Z }.
Definition f_exec (o : op) (s : FSpec) : FSpec * Answer :=
  match o with
  | Lookup k => (s, seen (f_objects s) (f_map s !! k))
  | Alloc e => (mkF (<[key_of e := f_next s]> (f_map s)) (<[f_next s := e]> (f_objects s)) (f_next s + 1), Some (f_next s, Some e))
  | Delete k => (mkF (base.delete k (f_map s)) (f_objects s) (f_next s), None)
  | Rename k k' =>
      match f_map s !! k with
      | Some o => (mkF (<[k' := o]> (base.delete k (f_map s))) (if bool_decide (k = k') then f_objects s else alter (set_key k') o (f_objects s)) (f_next s), None)
      | None => (s, None)
      end
  | Steal k => (mkF (base.delete k (f_map s)) (f_objects s) (f_next s), seen (f_objects s) (f_map s !! k))
  | Clear => (mkF ∅ (f_objects s) (f_next s), None)
  end.
Fixpoint f_run (os : list op) (s : FSpec) : list Answer :=
  match os with [] => [] | o :: os' => let '(s, a) := f_exec o s in a :: f_run os' s end.
(** Entries are inserted, and renamed, under names that are not cached. *)
Definition fresh_name (o : op) (m : gmap Key Z) : bool :=
  match o with
  | Alloc e => bool_decide (m !! key_of e = None)
  | Rename k k' => bool_decide (k = k' \/ m !! k = None \/ m !! k' = None)
  | _ => true
  end.
Fixpoint fresh_names (os : list op) (s : FSpec) : bool :=
  match os with [] => true | o :: os' => fresh_name o (f_map s) && fresh_names os' (f_exec o s).1 end.

Definition same_map (l : list (Key * Z)) (m : gmap Key Z) : Prop := NoDup (l.*1) /\ list_to_map l = m.
Lemma s_lookup_map k l : s_lookup k l = (list_to_map l : gmap Key Z) !! k.
Proof.
  unfold s_lookup. induction l as [|[k' o] l IH]; [done|]. cbn [find list_to_map foldr uncurry fst snd]. destruct (decide (k' = k)) as [<-|Hk]; [rewrite has_key_same; by rewrite lookup_insert_eq|].
  rewrite has_key_other by done. by rewrite lookup_insert_ne.
Qed.
Lemma s_delete_sub k l k' : k' ∈ (s_delete k l).*1 -> k' ∈ l.*1.
Proof. induction l as [|e l IH]; [done|]. cbn [s_delete]. destruct (has_key k e); cbn [fmap list_fmap]; rewrite ?elem_of_cons; naive_solver. Qed.
Lemma s_delete_map k l m : same_map l m -> same_map (s_delete k l) (base.delete k m).
Proof.
  intros [Hn <-]. induction l as [|[k' o] l IH]; cbn [s_delete]; [split; [done|]; cbn; by rewrite delete_empty|]. cbn [fmap list_fmap] in Hn. apply NoDup_cons in Hn as [Hk Hn]. cbn [list_to_map foldr uncurry fst snd]. destruct (IH Hn) as [H1 H2].
  destruct (decide (k' = k)) as [->|Hne]; [rewrite has_key_same; split; [done|]|rewrite has_key_other by done; split; cbn [fmap list_fmap fst list_to_map foldr uncurry snd]].
  - rewrite delete_insert_eq, delete_id; [done|]. by apply not_elem_of_list_to_map.
  - apply NoDup_cons. split; [|done]. intros H. by apply Hk, (s_delete_sub k).
  - rewrite delete_insert_ne by done. f_equal. exact H2.
Qed.
Lemma snoc_map k o l m : same_map l m -> m !! k = None -> same_map (l ++ [(k, o)]) (<[k := o]> m).
Proof.
  intros [Hn <-] Hk. apply not_elem_of_list_to_map in Hk. split.
  - rewrite fmap_app. apply NoDup_app. split; [done|]. split; [|apply NoDup_singleton]. intros x Hx ->%list_elem_of_singleton. done.
  - rewrite list_to_map_snoc by done. done.
Qed.
Lemma f_exec_same o l s : same_map l (f_map s) -> fresh_name o (f_map s) = true ->
  let '(s1, a) := s_exec o (mkSpec l (f_objects s) (f_next s)) in
  a = (f_exec o s).2 /\ same_map (s_list s1) (f_map (f_exec o s).1) /\ s_objects s1 = f_objects (f_exec o s).1 /\ s_next s1 = f_next (f_exec o s).1.
Proof.
  intros Hs Hf. assert (forall k, s_lookup k l = f_map s !! k) as Hl by (intros k; rewrite s_lookup_map; by destruct Hs as [_ <-]).
  destruct o as [k|e|k|k k'|k|]; cbn [s_exec f_exec s_list s_objects s_next f_map f_objects f_next fst snd fresh_name] in *; rewrite ?Hl.
  - done.
  - apply bool_decide_eq_true in Hf. split; [done|]. split; [by apply snoc_map|done].
  - split; [done|]. split; [by apply s_delete_map|done].
  - unfold s_rename. rewrite Hl. apply bool_decide_eq_true in Hf. destruct (f_map s !! k) as [o|] eqn:Ek; cbn [fst snd f_map f_objects f_next]; [|by case_bool_decide].
    case_bool_decide as Hk; [subst k'; split; [done|]; split; [by rewrite insert_delete_id|done]|]. split; [done|]. split; [|done]. apply snoc_map; [by apply s_delete_map|]. rewrite lookup_delete_ne by done. naive_solver.
  - split; [done|]. split; [by apply s_delete_map|done].
  - split; [done|]. by split; [split; [constructor|]|].
Qed.
Lemma f_run_same os : forall l s, same_map l (f_map s) -> fresh_names os s = true -> s_run os (mkSpec l (f_objects s) (f_next s)) = f_run os s.
Proof.
  induction os as [|o os IH]; intros l s Hs Hf; [done|]. cbn [fresh_names] in Hf. apply andb_prop in Hf as [Hf Hfs]. pose proof (f_exec_same o l s Hs Hf) as H. cbn [s_run f_run].
  destruct (s_exec o (mkSpec l (f_objects s) (f_next s))) as [[l1 ob1 n1] a], (f_exec o s) as [s' a']. cbn [fst snd s_list s_objects s_next] in *. destruct H as (-> & H1 & -> & ->). f_equal. by apply IH.
Qed.

(** C19: The dentry cache is a finite map.  In every history of lookups,
    insertions, deletions, renames, removals and clears that inserts at most
    32768 entries (beyond that the cache is shrunk), in which entries are inserted
    and renamed under names that are not cached (a rename onto a cached name keeps
    the old entry in front, see [rename_keeps_existing]), no operation panics, and
    every answer (which shared object is found and what it holds) is that of a
    finite map from parent and name to shared objects. *)
Theorem dcache_refines os : allocs os <= DCACHE_MAX_ENTRIES -> fresh_names os (mkF ∅ ∅ 0) = true -> run os new = Some (f_run os (mkF ∅ ∅ 0)).
Proof.
  intros Hc Hf. rewrite (dcache_list os Hc). f_equal. apply (f_run_same os [] (mkF ∅ ∅ 0)); [|done]. by split; [constructor|].
Qed.

Lemma s_lookup_app k m o : s_lookup k m = None -> s_lookup k (m ++ [(k, o)]) = Some o.
Proof. unfold s_lookup. induction m as [|e m IH]; cbn [find app]; [by rewrite has_key_same|]. by destruct (has_key k e). Qed.
(** A name that was resolved stays resolved: the next resolution is answered
    from the cache with the same object, whatever the file system would say. *)
Theorem resolve_stable open1 open2 k d m d1 o : refines d m -> count d < DCACHE_MAX_ENTRIES -> vfs_dcache_resolve open1 k d = Some (d1, Some o) ->
  exists d2, vfs_dcache_resolve open2 k d1 = Some (d2, Some o).
Proof.
  intros Hr Hc. assert (forall d0 m0, refines d0 m0 -> s_lookup k m0 = Some o -> exists d2, vfs_dcache_resolve open2 k d0 = Some (d2, Some o)) as Hhit.
  { intros d0 m0 Hr0 Hs. unfold vfs_dcache_resolve. destruct (lookup_refines k d0 m0 Hr0) as (d2 & -> & _). rewrite Hs. eauto. }
  unfold vfs_dcache_resolve at 1. destruct (lookup_refines k d m Hr) as (d' & E & Hr'). rewrite E. destruct (s_lookup k m) as [o'|] eqn:Hs.
  - intros [= <- <-]. by apply (Hhit d' m).
  - destruct (open1 _) as [[[[[[i dir] md] u] g] sz]|]; [|done]. set (e := mkDentry _ _ _ _ _ _ _ _ _). destruct (lookup_frame _ _ _ _ E) as (_ & _ & Hcd).
    destruct (alloc_refines e d' m Hr' ltac:(lia)) as (d'' & -> & Hr''). intros [= <- <-]. apply (Hhit d'' _ Hr''). destruct k as [p nm]. by apply s_lookup_app.
Qed.
Definition file (n parent i : Z) : Dentry := mkDentry [n] parent i false 420 0 0 0 0.
(** Renaming onto a name that is cached leaves the old entry in front. *)
Example rename_keeps_existing :
  run [Alloc (file 97 1 42); Alloc (file 98 1 99); Rename (1, [97]) (1, [98]); Lookup (1, [98])] new =
    Some [Some (0, Some (file 97 1 42)); Some (1, Some (file 98 1 99)); None; Some (1, Some (file 98 1 99))].
Proof. vm_compute. done. Qed.
(** After a compaction the LRU vector still names the old positions, and shrinking panics. *)
Example shrink_after_compact_panics :
  (d ← fst <$> alloc (file 97 1 10) new; d ← fst <$> alloc (file 98 1 20) d; d ← delete (1, [97]) d; shrink 0 d) = None.
Proof. vm_compute. done. Qed.
(** Shrinking leaves the index of an evicted entry in its bucket; after the
    compaction that follows, a lookup of that name panics. *)
Example lookup_after_shrink_panics :
  (d ← fst <$> alloc (file 97 1 10) new; d ← fst <$> alloc (file 98 1 20) d; d ← shrink 0 d; lookup (1, [98]) d) = None.
Proof. vm_compute. done. Qed.

(** ** Witness *)
Lemma dcache_refines_witness :
  run [Alloc (file 97 1 10); Alloc (file 98 1 20); Delete (1, [97]); Rename (1, [98]) (2, [99]); Lookup (2, [99]); Lookup (1, [98])] new =
  Some [Some (0, Some (file 97 1 10)); Some (1, Some (file 98 1 20)); None; None; Some (1, Some (file 99 2 20)); None].
Proof.
  rewrite (dcache_refines [Alloc (file 97 1 10); Alloc (file 98 1 20); Delete (1, [97]); Rename (1, [98]) (2, [99]); Lookup (2, [99]); Lookup (1, [98])]);
    [reflexivity|vm_compute; congruence|vm_compute; reflexivity].
Defined.
Lemma resolve_stable_witness : exists d1 d2 o, vfs_dcache_resolve (fun _ => Some (7, false, 420, 0, 0, 9)) (0, [97]) new = Some (d1, Some o) /\
  vfs_dcache_resolve (fun _ => None) (0, [97]) d1 = Some (d2, Some o).
Proof.
  edestruct (resolve_stable (fun _ => Some (7, false, 420, 0, 0, 9)) (fun _ => None) (0, [97]) new []) as [d2 H]; [|done|reflexivity|].
  - split; [|done]. split; cbn; try done.
  - eexists _, d2, _. split; [reflexivity|exact H].
Defined.
End Dcache.
