(* ===== verification/PageCache.v ===== *)
(** * The page cache

    Models [src/src/fs/page_cache.rs]: cached pages by inode and page index, the
    counters of dirty pages, eviction by access bits, writeback to a block
    device, readahead, the throttle and the periodic writeback worker.

    The ordered map of pages is a finite map with the order of its keys written
    out where the code iterates.  Devices are the class [BlockDevice] (the trait
    of [drivers/block.rs], as far as it is used); [GoodDevice] adds what a device
    that keeps its data promises and [RamDevice] is one.  Locking the global
    cache is taking the argument; the global functions are the methods.

    [page_cache_invariant]: sizes and counters stay right in every history;
    [writeback_all_exact]: writeback writes exactly the dirty pages, in order;
    [writeback_durable]: afterwards the device has their data;
    [worker_discards_writes]: the background worker only forgets them. *)
From S2P Require Import Prelude.

Module PageCache.

Definition MAX_CACHED_PAGES_PER_INODE : Z := 1024.
Definition MAX_GLOBAL_CACHED_PAGES : Z := 65536.
Record CachedPage := mkPage { data : list Z; dirty : bool; accessed : bool; disk_lba : Z }.
Definition page_new (bytes : list Z) (lba : Z) : CachedPage := mkPage bytes false true lba.
Definition set_dirty (b : bool) (p : CachedPage) : CachedPage := mkPage (data p) b (accessed p) (disk_lba p).
Definition set_accessed (b : bool) (p : CachedPage) : CachedPage := mkPage (data p) (dirty p) b (disk_lba p).
Definition set_lba (l : Z) (p : CachedPage) : CachedPage := mkPage (data p) (dirty p) (accessed p) l.
(** Inode number and page index. *)
Definition PageKey : Type := Z * Z.
Record PageCache := mkCache { entries : gmap PageKey CachedPage; per_inode_dirty : gmap Z Z; total_entries : Z }.
Definition new : PageCache := mkCache ∅ ∅ 0.
Definition set_entries (m : gmap PageKey CachedPage) (c : PageCache) : PageCache := mkCache m (per_inode_dirty c) (total_entries c).

(** ** Iteration order *)
Definition key_le (a b : PageKey) : Prop := a.1 < b.1 \/ (a.1 = b.1 /\ a.2 <= b.2).
#[export] Instance key_le_dec a b : Decision (key_le a b).
Proof. unfold key_le. apply _. Defined.
Definition keys (c : PageCache) : list PageKey := merge_sort key_le (elements (dom (entries c))).
Definition inodes_in_order (m : gmap Z Z) : list Z := merge_sort Z.le (elements (dom m)).

(** ** Pages *)
Definition find_page (k : PageKey) (c : PageCache) : PageCache * option CachedPage :=
  let m := alter (set_accessed true) k (entries c) in (set_entries m c, m !! k).
Definition find_page_mut (k : PageKey) (c : PageCache) : option CachedPage := entries c !! k.
Definition find_eviction_candidate (target_value : bool) (c : PageCache) : option PageKey :=
  find (fun k => match entries c !! k with Some p => eqb (accessed p) target_value | None => false end) (keys c).
Definition drop_page (k : PageKey) (c : PageCache) : PageCache := mkCache (delete k (entries c)) (per_inode_dirty c) (sat_sub (total_entries c) 1).
Definition evict_one (c : PageCache) : PageCache :=
  match find_eviction_candidate false c with
  | Some k => drop_page k c
  | None =>
      let c := set_entries (set_accessed false <$> entries c) c in
      match find_eviction_candidate false c with Some k => drop_page k c | None => c end
  end.
Definition add_page (k : PageKey) (bytes : list Z) (lba : Z) (c : PageCache) : PageCache :=
  match entries c !! k with
  | Some p => set_entries (<[k := set_lba lba p]> (entries c)) c
  | None =>
      let c := if MAX_GLOBAL_CACHED_PAGES <=? total_entries c then evict_one c else c in
      mkCache (<[k := page_new bytes lba]> (entries c)) (per_inode_dirty c) (u64_add (total_entries c) 1)
  end.
Definition mark_dirty (k : PageKey) (c : PageCache) : PageCache * bool :=
  match entries c !! k with
  | None => (c, false)
  | Some p =>
      (if dirty p then c
       else mkCache (<[k := set_dirty true p]> (entries c)) (<[k.1 := u64_add (default 0 (per_inode_dirty c !! k.1)) 1]> (per_inode_dirty c)) (total_entries c), true)
  end.
Definition mark_clean (k : PageKey) (c : PageCache) : PageCache * bool :=
  match entries c !! k with
  | None => (c, false)
  | Some p =>
      (if dirty p then
         let n := match per_inode_dirty c !! k.1 with
                  | Some n => let n := sat_sub n 1 in if n =? 0 then delete k.1 (per_inode_dirty c) else <[k.1 := n]> (per_inode_dirty c)
                  | None => per_inode_dirty c
                  end in
         mkCache (<[k := set_dirty false p]> (entries c)) n (total_entries c)
       else c, true)
  end.
Definition mark_all_clean (c : PageCache) : PageCache := mkCache (set_dirty false <$> entries c) ∅ (total_entries c).
Definition update_page (k : PageKey) (bytes : list Z) (c : PageCache) : PageCache * bool :=
  match entries c !! k with
  | None => (c, false)
  | Some p => (set_entries (<[k := mkPage bytes false true (disk_lba p)]> (entries c)) c, true)
  end.
Definition has_page (k : PageKey) (c : PageCache) : bool := bool_decide (is_Some (entries c !! k)).
Definition remove_page (k : PageKey) (c : PageCache) : PageCache := if has_page k c then drop_page k c else c.
Definition invalidate_inode (inode : Z) (c : PageCache) : PageCache :=
  let m := foldl (fun m k => delete k m) (entries c) (filter (fun k => k.1 = inode) (keys c)) in
  mkCache m (delete inode (per_inode_dirty c)) (Z.of_nat (size m)).
Definition touch_page (k : PageKey) (c : PageCache) : PageCache := set_entries (alter (set_accessed true) k (entries c)) c.
Definition inode_dirty_count (inode : Z) (c : PageCache) : Z := default 0 (per_inode_dirty c !! inode).
Definition total_dirty_pages (c : PageCache) : Z := sumZ (fun i => inode_dirty_count i c) (inodes_in_order (per_inode_dirty c)).
Definition total_cached_pages (c : PageCache) : Z := total_entries c.
Definition dirty_inodes (c : PageCache) : list Z := inodes_in_order (per_inode_dirty c).
Definition sync_cache : PageCache -> PageCache := mark_all_clean.

(** ** Devices *)
Class BlockDevice (D : Type) := {
  read_block : Z -> Z -> D -> D * option (list Z);
  write_block : Z -> list Z -> D -> D * bool }.
Section Device.
Context {D : Type} `{BlockDevice D}.
(** The result of the write is thrown away, as in the source. *)
Definition write_page (c : PageCache) (s : D * Z) (k : PageKey) : D * Z :=
  match entries c !! k with
  | Some p => ((write_block (disk_lba p) (data p) s.1).1, u64_add s.2 1)
  | None => s
  end.
Definition is_dirty (c : PageCache) (k : PageKey) : bool := match entries c !! k with Some p => dirty p | None => false end.
Definition writeback_inode (inode : Z) (c : PageCache) (d : D) : PageCache * D * Z :=
  let dirty_keys := filter (fun k => k.1 = inode /\ is_dirty c k = true) (keys c) in
  let '(d, written) := foldl (write_page c) (d, 0) dirty_keys in
  (foldl (fun c k => (mark_clean (inode, k.2) c).1) c dirty_keys, d, written).
Definition writeback_all (c : PageCache) (d : D) : PageCache * D * Z :=
  foldl (fun '(c, d, total) i => let '(c, d, n) := writeback_inode i c d in (c, d, u64_add total n)) (c, d, 0) (dirty_inodes c).
Fixpoint readahead (inode start : Z) (count : nat) (page_size : Z) (lba_fn : Z -> Z) (c : PageCache) (d : D) : PageCache * D :=
  match count with
  | O => (c, d)
  | S n =>
      let k := (inode, start) in
      if has_page k c then readahead inode (u64_add start 1) n page_size lba_fn c d
      else
        let lba := lba_fn start in
        let '(d, r) := read_block lba page_size d in
        let c := match r with Some buf => add_page k buf lba c | None => c end in
        readahead inode (u64_add start 1) n page_size lba_fn c d
  end.
Definition balance_dirty_pages (throttle : bool) (c : PageCache) (d : D) : PageCache * D :=
  if negb throttle then (c, d)
  else if MAX_CACHED_PAGES_PER_INODE / 4 <? total_dirty_pages c then (writeback_all c d).1 else (c, d).
End Device.

(** ** The worker *)
Record WritebackWorker := mkWorker {
  active : bool; last_writeback_tick : Z; writeback_interval : Z; dirty_background_ratio : Z; dirty_expire_interval : Z; writeback_count : Z }.
Definition worker_new : WritebackWorker := mkWorker false 0 500 10 3000 0.
Definition writeback_all_dirty (w : WritebackWorker) (c : PageCache) : WritebackWorker * PageCache :=
  (mkWorker (active w) (last_writeback_tick w) (writeback_interval w) (dirty_background_ratio w) (dirty_expire_interval w) (u64_add (writeback_count w) 1), mark_all_clean c).
Definition wb_do_writeback (w : WritebackWorker) (c : PageCache) : WritebackWorker * PageCache :=
  let n := total_dirty_pages c in
  let total := total_cached_pages c in
  if total =? 0 then (w, c)
  else
    let '(w, c) := if dirty_background_ratio w <=? u64_mul n 100 / total then writeback_all_dirty w c else (w, c) in
    if 0 <? n then writeback_all_dirty w c else (w, c).
Definition wb_workfn (w : WritebackWorker) (c : PageCache) : WritebackWorker * PageCache :=
  let '(w, c) := wb_do_writeback w c in
  if 0 <? total_dirty_pages c
  then (mkWorker true (last_writeback_tick w) (writeback_interval w) (dirty_background_ratio w) (dirty_expire_interval w) (writeback_count w), c)
  else (w, c).
Definition start_writeback_timer (current_tick : Z) (w : WritebackWorker) (c : PageCache) : WritebackWorker * PageCache :=
  if writeback_interval w <=? sat_sub current_tick (last_writeback_tick w)
  then wb_workfn (mkWorker (active w) current_tick (writeback_interval w) (dirty_background_ratio w) (dirty_expire_interval w) (writeback_count w)) c
  else (w, c).
Definition force_writeback_all : WritebackWorker -> PageCache -> WritebackWorker * PageCache := writeback_all_dirty.
Definition get_writeback_stats (w : WritebackWorker) (c : PageCache) : Z * Z * Z := (writeback_count w, total_dirty_pages c, total_cached_pages c).

(** ** The order of keys *)
#[export] Instance key_le_total : Total key_le.
Proof. intros [a b] [c e]. unfold key_le. cbn. lia. Qed.
#[export] Instance key_le_trans : Transitive key_le.
Proof. intros [a b] [c e] [f g]. unfold key_le. cbn. lia. Qed.
#[export] Instance key_le_antisymm : AntiSymm (=) key_le.
Proof. intros [a b] [c e]. unfold key_le. cbn. intros H1 H2. f_equal; lia. Qed.
Lemma elem_of_keys k c : k ∈ keys c <-> is_Some (entries c !! k).
Proof. unfold keys. rewrite merge_sort_Permutation, elem_of_elements. apply elem_of_dom. Qed.
Lemma keys_nodup c : NoDup (keys c).
Proof. unfold keys. rewrite merge_sort_Permutation. apply NoDup_elements. Qed.
Lemma keys_sorted c : StronglySorted key_le (keys c).
Proof. apply StronglySorted_merge_sort; apply _. Qed.
Lemma elem_of_inodes i m : i ∈ inodes_in_order m <-> is_Some (m !! i).
Proof. unfold inodes_in_order. rewrite merge_sort_Permutation, elem_of_elements. apply elem_of_dom. Qed.

(** ** Counting dirty pages *)
Definition counts (i : Z) (e : PageKey * CachedPage) : Prop := e.1.1 = i /\ dirty e.2 = true.
#[export] Instance counts_dec i e : Decision (counts i e).
Proof. unfold counts. apply _. Defined.
Definition dirty_of (i : Z) (m : gmap PageKey CachedPage) : Z := Z.of_nat (size (filter (counts i) m)).
Definition weight (i : Z) (k : PageKey) (p : option CachedPage) : Z := match p with Some p => if decide (counts i (k, p)) then 1 else 0 | None => 0 end.
Lemma dirty_fresh i k p m : m !! k = None -> dirty_of i (<[k := p]> m) = dirty_of i m + weight i k (Some p).
Proof.
  intros Hk. unfold dirty_of, weight. rewrite map_filter_insert. case_decide as E.
  - rewrite map_size_insert_None; [lia|]. apply map_lookup_filter_None. by left.
  - rewrite delete_id by done. lia.
Qed.
Lemma dirty_delete i k m : dirty_of i m = dirty_of i (delete k m) + weight i k (m !! k).
Proof.
  destruct (m !! k) as [p|] eqn:E; [|rewrite delete_id by done; cbn; lia]. rewrite <-(insert_delete_id m k p E) at 1. apply dirty_fresh, lookup_delete_eq.
Qed.
Lemma dirty_insert i k p m : dirty_of i (<[k := p]> m) = dirty_of i (delete k m) + weight i k (Some p).
Proof. rewrite <-insert_delete_eq. apply dirty_fresh, lookup_delete_eq. Qed.
Lemma dirty_fmap i f m : (forall p, dirty (f p) = dirty p) -> dirty_of i (f <$> m) = dirty_of i m.
Proof.
  intros Hf. unfold dirty_of. f_equal. rewrite map_filter_fmap, map_size_fmap. f_equal. apply map_filter_ext. intros k p _. unfold counts. cbn. by rewrite Hf.
Qed.
Lemma dirty_nonneg i m : 0 <= dirty_of i m.
Proof. unfold dirty_of. lia. Qed.
Lemma weight_bounds i k p : 0 <= weight i k p <= 1.
Proof. unfold weight. repeat case_match; lia. Qed.
Lemma alter_insert_Some (f : CachedPage -> CachedPage) (m : gmap PageKey CachedPage) k p : m !! k = Some p -> alter f k m = <[k := f p]> m.
Proof.
  intros Hk. apply map_eq. intros j. destruct (decide (k = j)) as [<-|Hne]; [by rewrite lookup_alter_eq, lookup_insert_eq, Hk|by rewrite lookup_alter_ne, lookup_insert_ne].
Qed.
Lemma alter_id_None (f : CachedPage -> CachedPage) (m : gmap PageKey CachedPage) k : m !! k = None -> alter f k m = m.
Proof. intros Hk. apply map_eq. intros j. destruct (decide (k = j)) as [<-|Hne]; [by rewrite lookup_alter_eq, Hk|by rewrite lookup_alter_ne]. Qed.
Lemma dirty_alter i k f m : (forall p, dirty (f p) = dirty p) -> dirty_of i (alter f k m) = dirty_of i m.
Proof.
  intros Hf. destruct (m !! k) as [p|] eqn:E.
  - rewrite (alter_insert_Some f m k p E), dirty_insert. rewrite (dirty_delete i k m), E. f_equal. unfold weight, counts. cbn. specialize (Hf p). repeat case_decide; naive_solver congruence.
  - by rewrite alter_id_None.
Qed.

(** ** The invariant; [n] bounds the counters. *)
Record wf (n : Z) (c : PageCache) : Prop := {
  wf_total : total_entries c = Z.of_nat (size (entries c));
  wf_size : total_entries c <= MAX_GLOBAL_CACHED_PAGES;
  wf_dirty : forall i, dirty_of i (entries c) <= inode_dirty_count i c;
  wf_pos : forall i x, per_inode_dirty c !! i = Some x -> 0 < x <= n }.
(** Replacing a page by one that is not dirtier, with the same counters. *)
Lemma wf_replace n c k p p' : wf n c -> entries c !! k = Some p -> (dirty p' = true -> dirty p = true) -> wf n (set_entries (<[k := p']> (entries c)) c).
Proof.
  intros [W1 W2 W3 W4] Hk Hd. split; cbn; [|done| |done].
  - rewrite map_size_insert_Some by eauto. done.
  - intros i. change (inode_dirty_count i _) with (inode_dirty_count i c). rewrite dirty_insert. specialize (W3 i). rewrite (dirty_delete i k), Hk in W3.
    assert (weight i k (Some p') <= weight i k (Some p)); [|lia]. unfold weight, counts. cbn. repeat case_decide; naive_solver lia.
Qed.
Lemma wf_alter n c k f : wf n c -> (forall p, dirty (f p) = dirty p) -> wf n (set_entries (alter f k (entries c)) c).
Proof.
  intros Hw Hf. destruct (entries c !! k) as [p|] eqn:E.
  - rewrite (alter_insert_Some f _ k p E). apply (wf_replace n c k p); [done|done|by rewrite Hf].
  - rewrite alter_id_None by done. by destruct c, Hw.
Qed.
Lemma wf_drop n c k : wf n c -> is_Some (entries c !! k) -> wf n (drop_page k c).
Proof.
  intros [W1 W2 W3 W4] [p Hp]. assert (size (entries c) <> 0%nat) as Hs by (rewrite map_size_non_empty_iff; intros E; rewrite E, lookup_empty in Hp; done).
  split; cbn; [|unfold sat_sub; lia| |done].
  - rewrite map_size_delete, Hp. unfold sat_sub. lia.
  - intros i. change (inode_dirty_count i _) with (inode_dirty_count i c). specialize (W3 i). rewrite (dirty_delete i k) in W3. pose proof (weight_bounds i k (entries c !! k)). lia.
Qed.
Lemma wf_fmap n c f : wf n c -> (forall p, dirty (f p) = dirty p) -> wf n (set_entries (f <$> entries c) c).
Proof.
  intros [W1 W2 W3 W4] Hf. split; cbn; [by rewrite map_size_fmap|done| |done]. intros i. rewrite dirty_fmap by done. apply W3.
Qed.
Lemma candidate_spec b c k : find_eviction_candidate b c = Some k -> exists p, entries c !! k = Some p /\ accessed p = b.
Proof.
  unfold find_eviction_candidate. intros H. apply find_some in H as [_ H]. destruct (entries c !! k) as [p|]; [|done]. exists p. split; [done|]. by apply eqb_prop.
Qed.
Lemma candidate_none b c : find_eviction_candidate b c = None -> forall k p, entries c !! k = Some p -> accessed p <> b.
Proof.
  intros H k p Hk Hb. pose proof (find_none _ _ H k) as Hn. cbn in Hn. rewrite Hk, Hb in Hn. rewrite eqb_reflx in Hn. discriminate Hn. apply list_elem_of_In, elem_of_keys. eauto.
Qed.
(** Eviction takes out exactly one page. *)
Lemma evict_one_drops n c : wf n c -> entries c <> ∅ -> exists k c', evict_one c = drop_page k c' /\ wf n c' /\ is_Some (entries c' !! k) /\
  total_entries c' = total_entries c /\ per_inode_dirty c' = per_inode_dirty c /\ (c' = c \/ c' = set_entries (set_accessed false <$> entries c) c).
Proof.
  intros Hw He. unfold evict_one. destruct (find_eviction_candidate false c) as [k|] eqn:E.
  - apply candidate_spec in E as (p & Hp & _). exists k, c. split_and!; [done|done|by eexists|done|done|by left].
  - set (c' := set_entries _ c). destruct (find_eviction_candidate false c') as [k|] eqn:E'.
    + apply candidate_spec in E' as (p & Hp & _). exists k, c'. split_and!; [done|by apply wf_fmap|by eexists|done|done|by right].
    + exfalso. destruct (map_choose (entries c) He) as (k & p & Hk). apply (candidate_none false c' E' k (set_accessed false p)); [|done].
      unfold c'. cbn. by rewrite lookup_fmap, Hk.
Qed.
Lemma wf_mono n n' c : wf n c -> n <= n' -> wf n' c.
Proof. intros [W1 W2 W3 W4] Hn. split; try done. intros i x Hx. specialize (W4 i x Hx). lia. Qed.
Lemma wf_find n k c : wf n c -> wf n (find_page k c).1.
Proof. intros Hw. by apply wf_alter. Qed.
Lemma wf_touch n k c : wf n c -> wf n (touch_page k c).
Proof. intros Hw. by apply wf_alter. Qed.
Lemma wf_evict n c : wf n c -> MAX_GLOBAL_CACHED_PAGES <= total_entries c -> wf n (evict_one c) /\ total_entries (evict_one c) < MAX_GLOBAL_CACHED_PAGES.
Proof.
  intros Hw Ht. destruct (evict_one_drops n c Hw) as (k & c' & -> & Hw' & Hk & Htot & _).
  - intros E. rewrite (wf_total n c Hw), E, map_size_empty in Ht. unfold MAX_GLOBAL_CACHED_PAGES in Ht. lia.
  - split; [by apply wf_drop|]. cbn. unfold sat_sub. rewrite Htot. pose proof (wf_size n c Hw). unfold MAX_GLOBAL_CACHED_PAGES in *. lia.
Qed.
Lemma evict_absent c k : entries c !! k = None -> entries (evict_one c) !! k = None.
Proof.
  intros Hk. unfold evict_one. repeat case_match; cbn; rewrite ?lookup_delete_None, ?lookup_fmap, ?Hk; auto.
Qed.
Lemma wf_insert_clean n c k bytes lba : wf n c -> entries c !! k = None -> total_entries c < MAX_GLOBAL_CACHED_PAGES ->
  wf n (mkCache (<[k := page_new bytes lba]> (entries c)) (per_inode_dirty c) (u64_add (total_entries c) 1)).
Proof.
  intros [W1 W2 W3 W4] Hk Ht. assert (u64_add (total_entries c) 1 = total_entries c + 1) as E by (apply u64_add_small; unfold MAX_GLOBAL_CACHED_PAGES, u64_mod in *; lia).
  split; cbn; rewrite ?E; [rewrite map_size_insert_None by done; lia|lia| |done]. intros i. rewrite dirty_fresh by done. specialize (W3 i). unfold weight, counts. cbn.
  rewrite decide_False by naive_solver. unfold inode_dirty_count in *. cbn. lia.
Qed.
Lemma wf_add n k bytes lba c : wf n c -> wf n (add_page k bytes lba c).
Proof.
  intros Hw. unfold add_page. destruct (entries c !! k) as [p|] eqn:E; [by apply (wf_replace n c k p)|].
  destruct (Z.leb_spec MAX_GLOBAL_CACHED_PAGES (total_entries c)) as [Hle|Hlt]; [|by apply wf_insert_clean].
  destruct (wf_evict n c Hw Hle) as [Hw' Ht]. apply wf_insert_clean; [done|by apply evict_absent|done].
Qed.
Lemma wf_mark_dirty n k c : wf n c -> 0 <= n -> n + 1 < u64_mod -> wf (n + 1) (mark_dirty k c).1.
Proof.
  intros Hw Hn Hb. unfold mark_dirty. destruct (entries c !! k) as [p|] eqn:E; cbn; [|by apply (wf_mono n); [|lia]]. destruct (dirty p) eqn:Hd; [by apply (wf_mono n); [|lia]|].
  destruct Hw as [W1 W2 W3 W4]. assert (0 <= default 0 (per_inode_dirty c !! k.1) <= n) as Hr by (destruct (per_inode_dirty c !! k.1) as [x|] eqn:Ex; cbn; [specialize (W4 _ _ Ex)|]; lia).
  assert (u64_add (default 0 (per_inode_dirty c !! k.1)) 1 = default 0 (per_inode_dirty c !! k.1) + 1) as Ea by (apply u64_add_small; lia). rewrite Ea.
  split; cbn; [by rewrite map_size_insert_Some by eauto|done| |].
  - intros i. rewrite dirty_insert. specialize (W3 i). rewrite (dirty_delete i k), E in W3. unfold inode_dirty_count in *. cbn [per_inode_dirty]. pose proof (weight_bounds i k (Some p)).
    destruct (decide (k.1 = i)) as [<-|Hne]; [rewrite lookup_insert_eq; pose proof (weight_bounds k.1 k (Some (set_dirty true p))); change (default 0 (Some ?x)) with x; lia|].
    rewrite lookup_insert_ne by done. unfold weight at 1, counts. cbn. rewrite decide_False by naive_solver. lia.
  - intros i x. destruct (decide (k.1 = i)) as [<-|Hne]; [rewrite lookup_insert_eq; intros [= <-]; lia|rewrite lookup_insert_ne by done; intros Hx; specialize (W4 _ _ Hx); lia].
Qed.
Lemma wf_mark_clean n k c : wf n c -> wf n (mark_clean k c).1.
Proof.
  intros Hw. unfold mark_clean. destruct (entries c !! k) as [p|] eqn:E; [|done]. destruct (dirty p) eqn:Hd; cbn; [|done]. destruct Hw as [W1 W2 W3 W4].
  assert (forall i, weight i k (Some p) = if decide (k.1 = i) then 1 else 0) as Hp by (intros i; unfold weight, counts; cbn; repeat case_decide; naive_solver).
  assert (forall i, weight i k (Some (set_dirty false p)) = 0) as Hp' by (intros i; unfold weight, counts; cbn; by rewrite decide_False by naive_solver).
  assert (forall i, dirty_of i (delete k (entries c)) + (if decide (k.1 = i) then 1 else 0) <= inode_dirty_count i c) as W3' by (intros i; rewrite <-Hp, <-E, <-dirty_delete; apply W3).
  split; cbn; [by rewrite map_size_insert_Some by eauto|done| |].
  - intros i. rewrite dirty_insert, Hp'. specialize (W3' i). unfold inode_dirty_count in *. cbn. destruct (per_inode_dirty c !! k.1) as [x|] eqn:Ex.
    + pose proof (W4 _ _ Ex). destruct (decide (k.1 = i)) as [<-|Hne].
      * rewrite Ex in W3'. cbn in W3'. unfold sat_sub. destruct (Z.eqb_spec (Z.max 0 (x - 1)) 0); [rewrite lookup_delete_eq|rewrite lookup_insert_eq]; cbn; lia.
      * destruct (sat_sub x 1 =? 0); [rewrite lookup_delete_ne by done|rewrite lookup_insert_ne by done]; lia.
    + destruct (decide (k.1 = i)) as [<-|Hne]; lia.
  - intros i x. destruct (per_inode_dirty c !! k.1) as [y|] eqn:Ey; [|apply W4]. pose proof (W4 _ _ Ey). unfold sat_sub. destruct (Z.eqb_spec (Z.max 0 (y - 1)) 0) as [_|Hy].
    + intros Hx. apply lookup_delete_Some in Hx as [_ Hx]. by apply (W4 i).
    + destruct (decide (k.1 = i)) as [<-|Hne]; [rewrite lookup_insert_eq; intros [= <-]; lia|rewrite lookup_insert_ne by done; apply W4].
Qed.
Lemma clean_count i m : (forall k p, m !! k = Some p -> k.1 = i -> dirty p = false) -> dirty_of i m = 0.
Proof.
  intros H. unfold dirty_of. replace (filter (counts i) m) with (∅ : gmap PageKey CachedPage); [done|]. symmetry. apply map_empty. intros k. apply map_lookup_filter_None. right. intros p Hk [Hi Hd]. cbn in *.
  rewrite (H k p) in Hd; done.
Qed.
Lemma wf_all_clean n c : wf n c -> wf n (mark_all_clean c).
Proof.
  intros [W1 W2 W3 W4]. split; cbn; [by rewrite map_size_fmap|done| |done]. intros i. rewrite clean_count; [done|]. intros k p Hk _. rewrite lookup_fmap in Hk. apply fmap_Some in Hk as (q & _ & ->). done.
Qed.
Lemma wf_update n k bytes c : wf n c -> wf n (update_page k bytes c).1.
Proof. intros Hw. unfold update_page. destruct (entries c !! k) as [p|] eqn:E; [|done]. by apply (wf_replace n c k p). Qed.
Lemma wf_remove n k c : wf n c -> wf n (remove_page k c).
Proof. intros Hw. unfold remove_page, has_page. case_bool_decide; [by apply wf_drop|done]. Qed.
Lemma delete_keys_lookup (m : gmap PageKey CachedPage) l k : foldl (fun m k => delete k m) m l !! k = if decide (k ∈ l) then None else m !! k.
Proof.
  revert m. induction l as [|x l IH]; intros m; [done|]. cbn. rewrite IH. destruct (decide (k ∈ l)); [by rewrite decide_True by set_solver|].
  destruct (decide (k = x)) as [->|Hne]; [rewrite decide_True by set_solver; by rewrite lookup_delete_eq|]. rewrite decide_False by set_solver. by rewrite lookup_delete_ne.
Qed.
Lemma invalidate_entries i c k : entries (invalidate_inode i c) !! k = if decide (k.1 = i) then None else entries c !! k.
Proof.
  unfold invalidate_inode. cbn. rewrite delete_keys_lookup. destruct (decide (k.1 = i)) as [Ei|Ei]; match goal with |- context [@decide ?P ?h] => destruct (@decide P h) as [E|E] end; try done.
  - rewrite list_elem_of_filter, elem_of_keys in E. destruct (entries c !! k) eqn:Ek; [|done]. exfalso. apply E. eauto.
  - apply list_elem_of_filter in E as [E _]. done.
Qed.
Lemma dirty_subset i m m' : m' ⊆ m -> dirty_of i m' <= dirty_of i m.
Proof. intros Hs. unfold dirty_of. apply inj_le, map_subseteq_size, map_filter_strong_subseteq_ext. intros k p [H1 H2]. split; [done|]. by apply (lookup_weaken m' m).  Qed.
Lemma wf_invalidate n i c : wf n c -> wf n (invalidate_inode i c).
Proof.
  intros [W1 W2 W3 W4]. pose proof (invalidate_entries i c) as He. set (c' := invalidate_inode i c) in *.
  assert (entries c' ⊆ entries c) as Hs by (apply map_subseteq_spec; intros k p; rewrite He; case_decide; done).
  split; [done| | |].
  - change (total_entries c') with (Z.of_nat (size (entries c'))). apply map_subseteq_size in Hs. lia.
  - intros j. unfold inode_dirty_count. cbn. destruct (decide (i = j)) as [<-|Hne].
    + rewrite lookup_delete_eq. rewrite clean_count; [done|]. intros k p Hk Hi. rewrite He, decide_True in Hk by done. done.
    + rewrite lookup_delete_ne by done. etrans; [by apply dirty_subset|]. apply W3.
  - intros j x Hx. change (per_inode_dirty c') with (delete i (per_inode_dirty c)) in Hx. apply lookup_delete_Some in Hx as [_ Hx]. by apply (W4 j).
Qed.
Lemma dirty_listed n c (k : PageKey) p : wf n c -> entries c !! k = Some p -> dirty p = true -> k.1 ∈ dirty_inodes c.
Proof.
  intros Hw Hk Hd. apply elem_of_inodes. pose proof (wf_dirty n c Hw k.1) as H. rewrite (dirty_delete k.1 k), Hk in H. pose proof (dirty_nonneg k.1 (delete k (entries c))).
  unfold weight in H. rewrite decide_True in H by done. unfold inode_dirty_count in H. destruct (per_inode_dirty c !! k.1); [eauto|]. cbn in H. lia.
Qed.
Section History.
Context {D : Type} `{BlockDevice D}.
Lemma wf_writeback_inode n i c (d : D) : wf n c -> wf n (writeback_inode i c d).1.1.
Proof.
  intros Hw. unfold writeback_inode. destruct (foldl (write_page c) _ _) as [d' w]. cbn. generalize (filter (fun k => k.1 = i /\ is_dirty c k = true) (keys c)). intros l. revert c Hw.
  induction l as [|k l IH]; intros c Hw; [done|]. by apply IH, wf_mark_clean.
Qed.
Lemma wf_writeback_all n c (d : D) : wf n c -> wf n (writeback_all c d).1.1.
Proof.
  intros Hw. unfold writeback_all. generalize (dirty_inodes c) 0. intros l. revert c d Hw. induction l as [|i l IH]; intros c d Hw t; [done|]. cbn.
  pose proof (wf_writeback_inode n i c d Hw) as Hw'. destruct (writeback_inode i c d) as [[c' d'] w]. by apply IH.
Qed.
Lemma wf_readahead n inode start m ps f c (d : D) : wf n c -> wf n (readahead inode start m ps f c d).1.
Proof.
  revert start c d. induction m as [|m IH]; intros start c d Hw; [done|]. cbn. destruct (has_page _ c); [by apply IH|]. destruct (read_block _ _ d) as [d' [buf|]]; apply IH; [by apply wf_add|done].
Qed.

(** ** Histories *)
Inductive op :=
| Find (k : PageKey) | Add (k : PageKey) (bytes : list Z) (lba : Z) | MarkDirty (k : PageKey) | MarkClean (k : PageKey) | Sync
| Update (k : PageKey) (bytes : list Z) | Remove (k : PageKey) | Invalidate (inode : Z) | Touch (k : PageKey)
| Writeback (inode : Z) | WritebackAll | Readahead (inode start : Z) (count : nat) (page_size : Z) (lba_fn : Z -> Z) | Balance (throttle : bool)
| TimerTick (tick : Z) | Force.
Definition Sys : Type := PageCache * WritebackWorker * D.
Definition exec (o : op) (s : Sys) : Sys :=
  let '(c, w, d) := s in
  match o with
  | Find k => ((find_page k c).1, w, d)
  | Add k bytes lba => (add_page k bytes lba c, w, d)
  | MarkDirty k => ((mark_dirty k c).1, w, d)
  | MarkClean k => ((mark_clean k c).1, w, d)
  | Sync => (sync_cache c, w, d)
  | Update k bytes => ((update_page k bytes c).1, w, d)
  | Remove k => (remove_page k c, w, d)
  | Invalidate i => (invalidate_inode i c, w, d)
  | Touch k => (touch_page k c, w, d)
  | Writeback i => let '(c, d, _) := writeback_inode i c d in (c, w, d)
  | WritebackAll => let '(c, d, _) := writeback_all c d in (c, w, d)
  | Readahead i st n ps f => let '(c, d) := readahead i st n ps f c d in (c, w, d)
  | Balance t => let '(c, d) := balance_dirty_pages t c d in (c, w, d)
  | TimerTick t => let '(w, c) := start_writeback_timer t w c in (c, w, d)
  | Force => let '(w, c) := force_writeback_all w c in (c, w, d)
  end.
Definition run (os : list op) (s : Sys) : Sys := foldl (fun s o => exec o s) s os.
Lemma wf_timer n t w c : wf n c -> wf n (start_writeback_timer t w c).2.
Proof.
  intros Hw. unfold start_writeback_timer, wb_workfn, wb_do_writeback, writeback_all_dirty. pose proof (wf_all_clean n c Hw). pose proof (wf_all_clean n _ H0). repeat case_match; simplify_eq; done.
Qed.
Lemma wf_exec n o s : wf n s.1.1 -> 0 <= n -> n + 1 < u64_mod -> wf (n + 1) (exec o s).1.1.
Proof.
  destruct s as [[c w] d]. cbn [fst]. intros Hw Hn Hb. assert (forall c', wf n c' -> wf (n + 1) c') as Hm by (intros c' Hc; apply (wf_mono n); [done|lia]).
  destruct o; cbn [exec fst].
  - by apply Hm, wf_find.
  - by apply Hm, wf_add.
  - by apply wf_mark_dirty.
  - by apply Hm, wf_mark_clean.
  - by apply Hm, wf_all_clean.
  - by apply Hm, wf_update.
  - by apply Hm, wf_remove.
  - by apply Hm, wf_invalidate.
  - by apply Hm, wf_touch.
  - pose proof (wf_writeback_inode n inode c d Hw) as H0. destruct (writeback_inode inode c d) as [[c' d'] x]. by apply Hm.
  - pose proof (wf_writeback_all n c d Hw) as H0. destruct (writeback_all c d) as [[c' d'] x]. by apply Hm.
  - pose proof (wf_readahead n inode start count page_size lba_fn c d Hw) as H0. destruct (readahead _ _ _ _ _ c d) as [c' d']. by apply Hm.
  - unfold balance_dirty_pages. pose proof (wf_writeback_all n c d Hw) as H0. destruct (writeback_all c d) as [[c' d'] x]. destruct (negb throttle); [by apply Hm|]. destruct (_ <? _); by apply Hm.
  - pose proof (wf_timer n tick w c Hw) as H0. destruct (start_writeback_timer tick w c) as [w' c']. by apply Hm.
  - by apply Hm, wf_all_clean.
Qed.
Lemma wf_run n os s : wf n s.1.1 -> 0 <= n -> n + Z.of_nat (length os) < u64_mod -> wf (n + Z.of_nat (length os)) (run os s).1.1.
Proof.
  revert n s. induction os as [|o os IH]; intros n s Hw Hn Hb; [cbn; by rewrite Z.add_0_r|]. cbn [length] in *. change (run (o :: os) s) with (run os (exec o s)).
  replace (n + Z.of_nat (S (length os))) with (n + 1 + Z.of_nat (length os)) by lia. apply IH; [apply wf_exec; [done|lia|lia]|lia|lia].
Qed.
Lemma wf_empty n : wf n new.
Proof. by split. Qed.

(** C23: The page cache keeps its books.  After any history of fewer than 2^64
    operations, background work included, the number of pages is what the cache
    says and at most 65536, and the counter of an inode is at least the number
    of its dirty pages, so that writeback finds every one of them. *)
Theorem page_cache_invariant os w (d : D) : Z.of_nat (length os) < u64_mod ->
  let c := (run os (new, w, d)).1.1 in
  total_cached_pages c = Z.of_nat (size (entries c)) /\ total_cached_pages c <= MAX_GLOBAL_CACHED_PAGES /\
  (forall i, Z.of_nat (size (filter (counts i) (entries c))) <= inode_dirty_count i c) /\
  (forall (k : PageKey) p, entries c !! k = Some p -> dirty p = true -> k.1 ∈ dirty_inodes c).
Proof.
  intros Hb c. pose proof (wf_run 0 os (new, w, d) (wf_empty 0) ltac:(lia) Hb) as Hw. fold c in Hw. split_and!; [apply Hw|apply Hw|apply Hw|intros k p; by apply (dirty_listed _ c k p Hw)].
Qed.

(** ** Writeback *)
Definition dirty_keys (c : PageCache) : list PageKey := filter (fun k => is_dirty c k = true) (keys c).
(** Sending the page at [k] to the device. *)
Definition send (c : PageCache) (d : D) (k : PageKey) : D := match entries c !! k with Some p => (write_block (disk_lba p) (data p) d).1 | None => d end.
Definition inode_keys (c : PageCache) (i : Z) : list PageKey := filter (fun k => k.1 = i /\ is_dirty c k = true) (keys c).
Lemma mark_clean_entries k c : entries (mark_clean k c).1 = alter (set_dirty false) k (entries c).
Proof.
  unfold mark_clean. destruct (entries c !! k) as [p|] eqn:E; [|by rewrite alter_id_None]. rewrite (alter_insert_Some _ _ _ p E). destruct (dirty p) eqn:Hd; [done|].
  cbn. symmetry. apply insert_id. rewrite E. destruct p as [b q a l]. cbn in *. by subst q.
Qed.
Lemma mark_all_lookup (l : list PageKey) i c (k : PageKey) : Forall (fun k => k.1 = i) l -> let c' := foldl (fun c k => (mark_clean (i, k.2) c).1) c l in
  (k ∈ l -> entries c' !! k = set_dirty false <$> entries c !! k) /\ (k ∉ l -> entries c' !! k = entries c !! k).
Proof.
  intros Hl. cbn zeta. revert c. induction Hl as [|[i' x] l Hx Hl IH]; intros c; [by split; [intros E%not_elem_of_nil|]|]. cbn in Hx. subst i'. cbn [foldl snd].
  destruct (IH (mark_clean (i, x) c).1) as [I1 I2]. rewrite mark_clean_entries in I1, I2. split.
  - intros Hk%elem_of_cons. destruct (list_elem_of_dec k l) as [E|E]; [rewrite I1 by done|rewrite I2 by done; destruct Hk as [->|]; [by rewrite lookup_alter_eq|done]].
    destruct (decide ((i, x) = k)) as [<-|Hne]; [|by rewrite lookup_alter_ne by done]. rewrite lookup_alter_eq. by destruct (entries c !! _).
  - intros [Hne E]%not_elem_of_cons. rewrite I2 by done. by rewrite lookup_alter_ne by done.
Qed.
Lemma sends c (l : list PageKey) d n : Forall (fun k => is_Some (entries c !! k)) l -> 0 <= n -> n + Z.of_nat (length l) < u64_mod ->
  foldl (write_page c) (d, n) l = (foldl (send c) d l, n + Z.of_nat (length l)).
Proof.
  revert d n. induction l as [|k l IH]; intros d n Hl Hn Hb; [cbn; f_equal; lia|]. apply Forall_cons in Hl as [[p Hp] Hl]. cbn [length] in *. cbn [foldl].
  unfold write_page at 2, send at 2. rewrite Hp. cbn [fst snd]. rewrite IH by (done || rewrite u64_add_small; lia). f_equal. rewrite u64_add_small; lia.
Qed.
Lemma inode_keys_spec c i (k : PageKey) : k ∈ inode_keys c i <-> k.1 = i /\ is_dirty c k = true.
Proof.
  unfold inode_keys. rewrite list_elem_of_filter, elem_of_keys. split; [naive_solver|]. intros [H1 H2]. split; [done|]. unfold is_dirty in H2. destruct (entries c !! k); [eauto|done].
Qed.
Lemma keys_length n c : wf n c -> Z.of_nat (length (keys c)) <= MAX_GLOBAL_CACHED_PAGES.
Proof.
  intros Hw. unfold keys. rewrite merge_sort_Permutation. change (length (elements (dom (entries c)))) with (size (dom (entries c))). rewrite size_dom.
  rewrite <-(wf_total n c Hw). apply Hw.
Qed.
Lemma writeback_inode_exact n i c d : wf n c ->
  exists c', writeback_inode i c d = (c', foldl (send c) d (inode_keys c i), Z.of_nat (length (inode_keys c i))) /\
    forall k : PageKey, entries c' !! k = (if decide (k.1 = i) then set_dirty false <$> entries c !! k else entries c !! k).
Proof.
  intros Hw. unfold writeback_inode. fold (inode_keys c i). rewrite sends; [|apply Forall_forall; intros k Hk; apply elem_of_keys; by apply list_elem_of_filter in Hk as [_ Hk]|lia|].
  - eexists. split; [done|]. intros k. destruct (mark_all_lookup (inode_keys c i) i c k) as [H1 H2]; [apply Forall_forall; intros x Hx; by apply inode_keys_spec in Hx as [Hx _]|].
    destruct (list_elem_of_dec k (inode_keys c i)) as [E|E]; [rewrite H1 by done; apply inode_keys_spec in E as [E _]; by rewrite decide_True|]. rewrite H2 by done. case_decide as Ei; [|done].
    rewrite inode_keys_spec in E. unfold is_dirty in E. destruct (entries c !! k) as [[b q a l]|]; [|done]. cbn in *. f_equal. unfold set_dirty. cbn. f_equal. destruct q; naive_solver.
  - pose proof (keys_length n c Hw). assert (length (inode_keys c i) <= length (keys c))%nat by apply length_filter. unfold MAX_GLOBAL_CACHED_PAGES, u64_mod in *. lia.
Qed.
(** A cache with the same pages, as far as writing them is concerned. *)
Lemma send_same c c' : (forall k : PageKey, (fun p => (data p, disk_lba p)) <$> entries c' !! k = (fun p => (data p, disk_lba p)) <$> entries c !! k) ->
  forall l d, foldl (send c') d l = foldl (send c) d l.
Proof.
  intros He l. induction l as [|k l IH]; intros d; [done|]. cbn. rewrite IH. f_equal. unfold send. specialize (He k).
  destruct (entries c' !! k) as [p'|], (entries c !! k) as [p|]; cbn in He; try done. injection He as H1 H2. by rewrite H1, H2.
Qed.
Lemma keys_same c c' : dom (entries c') = dom (entries c) -> keys c' = keys c.
Proof. intros E. unfold keys. by rewrite E. Qed.
Lemma inode_keys_same c c' i : dom (entries c') = dom (entries c) -> (forall k : PageKey, k.1 = i -> entries c' !! k = entries c !! k) -> inode_keys c' i = inode_keys c i.
Proof.
  intros Hd He. unfold inode_keys. rewrite (keys_same c c' Hd). apply list_filter_iff. intros k. unfold is_dirty. split; intros [H1 H2]; split; try done.
  - by rewrite <-He.
  - by rewrite He.
Qed.
Lemma writeback_list n (I : list Z) c d t : wf n c -> NoDup I -> 0 <= t -> t + Z.of_nat (length (concat (inode_keys c <$> I))) < u64_mod ->
  exists c', foldl (fun '(c, d, total) i => let '(c, d, n) := writeback_inode i c d in (c, d, u64_add total n)) (c, d, t) I =
      (c', foldl (send c) d (concat (inode_keys c <$> I)), t + Z.of_nat (length (concat (inode_keys c <$> I)))) /\
    forall k : PageKey, (k.1 ∈ I -> entries c' !! k = set_dirty false <$> entries c !! k) /\ (k.1 ∉ I -> entries c' !! k = entries c !! k).
Proof.
  revert c d t. induction I as [|i I IH]; intros c d t Hw Hd Ht Hb.
  { exists c. cbn. split; [by rewrite Z.add_0_r|]. intros k. split; [by intros E%not_elem_of_nil|done]. }
  apply NoDup_cons in Hd as [Hi Hd]. cbn [fmap list_fmap concat foldl] in *. rewrite length_app in Hb.
  destruct (writeback_inode_exact n i c d Hw) as (c1 & E & He). pose proof (wf_writeback_inode n i c d Hw) as Hw1. rewrite E in Hw1. cbn [fst] in Hw1. rewrite E.
  assert (dom (entries c1) = dom (entries c)) as Hdom by (apply set_eq; intros k; rewrite !elem_of_dom, He; case_decide; [by rewrite fmap_is_Some|done]).
  assert (inode_keys c1 <$> I = inode_keys c <$> I) as Hk.
  { apply list_fmap_ext. intros m j Hj. apply inode_keys_same; [done|]. intros k Hkj. rewrite He, decide_False; [done|]. intros Ei. apply Hi. rewrite <-Ei, Hkj. apply list_elem_of_lookup. eauto. }
  destruct (IH c1 (foldl (send c) d (inode_keys c i)) (u64_add t (Z.of_nat (length (inode_keys c i))))) as (c2 & E2 & He2); [done|done|rewrite u64_add_small; lia|rewrite Hk, u64_add_small; lia|].
  exists c2. rewrite E2, Hk, length_app, foldl_app. split; [f_equal; [f_equal|rewrite u64_add_small; lia]|].
  - apply send_same. intros k. rewrite He. case_decide; [|done]. by destruct (entries c !! k).
  - intros k. destruct (He2 k) as [H1 H2]. split.
    + intros [Ek|Ek]%elem_of_cons; [|rewrite H1, He by done; case_decide; [|done]; by destruct (entries c !! k)].
      rewrite H2, He, decide_True by (rewrite ?Ek; done). done.
    + intros [Hne Hn]%not_elem_of_cons. by rewrite H2, He, decide_False.
Qed.
(** The dirty pages of all inodes in order are the dirty pages in order. *)
Lemma concat_sorted c I : StronglySorted Z.lt I -> StronglySorted key_le (concat (inode_keys c <$> I)).
Proof.
  induction 1 as [|i I Hs IH Hi]; [constructor|]. cbn. apply StronglySorted_app_2; [|apply sorted_filter, keys_sorted|exact IH].
  intros k k' Hk Hk'. apply inode_keys_spec in Hk as [E _]. apply list_elem_of_In, in_concat in Hk' as (l & Hl & Hk'). apply list_elem_of_In, list_elem_of_fmap in Hl as (j & -> & Hj).
  apply list_elem_of_In, inode_keys_spec in Hk' as [E' _]. rewrite Forall_forall in Hi. specialize (Hi j Hj). left. lia.
Qed.
Lemma elem_of_concat_keys c I (k : PageKey) : k ∈ concat (inode_keys c <$> I) <-> k.1 ∈ I /\ is_dirty c k = true.
Proof.
  etrans; [apply list_elem_of_In|]. etrans; [apply in_concat|]. split.
  - intros (l & Hl & Hk). apply list_elem_of_In, list_elem_of_fmap in Hl as (j & -> & Hj). apply list_elem_of_In, inode_keys_spec in Hk as [<- Hk]. done.
  - intros [Hi Hd]. exists (inode_keys c k.1). split; [apply list_elem_of_In, list_elem_of_fmap; eauto|]. apply list_elem_of_In, inode_keys_spec. done.
Qed.
Lemma inodes_strict m : StronglySorted Z.lt (inodes_in_order m).
Proof.
  assert (StronglySorted Z.le (inodes_in_order m)) as Hs by (apply StronglySorted_merge_sort; apply _).
  assert (NoDup (inodes_in_order m)) as Hd by (unfold inodes_in_order; rewrite merge_sort_Permutation; apply NoDup_elements).
  induction Hs as [|i l Hs IH Hi]; [constructor|]. apply NoDup_cons in Hd as [Hn Hd]. constructor; [by apply IH|]. rewrite Forall_forall in Hi |- *. intros j Hj.
  specialize (Hi j Hj). assert (i <> j) by (by intros ->). lia.
Qed.
Lemma concat_all n c : wf n c -> concat (inode_keys c <$> dirty_inodes c) = dirty_keys c.
Proof.
  intros Hw. apply (StronglySorted_unique key_le); [apply concat_sorted, inodes_strict|apply sorted_filter, keys_sorted|].
  apply NoDup_Permutation; [|apply NoDup_filter, keys_nodup|].
  - generalize (inodes_strict (per_inode_dirty c)). unfold dirty_inodes. induction 1 as [|i l Hs IH Hi]; [constructor|]. cbn. apply NoDup_app. split_and!; [apply NoDup_filter, keys_nodup| |done].
    intros k Hk Hk'. apply inode_keys_spec in Hk as [E _]. apply elem_of_concat_keys in Hk' as [E' _]. rewrite Forall_forall in Hi. specialize (Hi _ E'). lia.
  - intros k. rewrite elem_of_concat_keys. unfold dirty_keys. rewrite list_elem_of_filter, elem_of_keys. unfold is_dirty. destruct (entries c !! k) as [p|] eqn:E; [|naive_solver].
    split; [naive_solver|]. intros [Hd _]. split; [|done]. by apply (dirty_listed n c k p).
Qed.
Lemma writeback_all_eq n c d : wf n c -> exists c', writeback_all c d = (c', foldl (send c) d (dirty_keys c), Z.of_nat (length (dirty_keys c))) /\ entries c' = set_dirty false <$> entries c.
Proof.
  intros Hw. assert (NoDup (dirty_inodes c)) as Hd by (unfold dirty_inodes, inodes_in_order; rewrite merge_sort_Permutation; apply NoDup_elements).
  assert (length (dirty_keys c) <= length (keys c))%nat as Hl by apply length_filter. pose proof (keys_length n c Hw) as Hk.
  destruct (writeback_list n (dirty_inodes c) c d 0 Hw Hd) as (c' & E & He); [done|rewrite (concat_all n c Hw); unfold MAX_GLOBAL_CACHED_PAGES, u64_mod in *; lia|].
  rewrite (concat_all n c Hw) in E. exists c'. split; [exact E|]. apply map_eq. intros k. rewrite lookup_fmap. destruct (He k) as [H1 H2].
  destruct (list_elem_of_dec k.1 (dirty_inodes c)) as [Ei|Ei]; [by apply H1|]. rewrite H2 by done. destruct (entries c !! k) as [[b q a l]|] eqn:Ek; [|done]. cbn. do 2 f_equal.
  unfold set_dirty. cbn. f_equal. destruct q; [|done]. exfalso. apply Ei. by apply (dirty_listed n c k _ Hw Ek).
Qed.

(** Writeback is complete and exact.  After any history, [writeback_all]
    sends to the device the data of exactly the dirty pages, each to its block
    address and in the order of their keys, answers their number, and leaves all
    pages in the cache, clean and otherwise unchanged. *)
Theorem writeback_all_exact os w (d0 : D) d : Z.of_nat (length os) < u64_mod ->
  let c := (run os (new, w, d0)).1.1 in
  exists c', writeback_all c d = (c', foldl (send c) d (dirty_keys c), Z.of_nat (length (dirty_keys c))) /\ entries c' = set_dirty false <$> entries c.
Proof. intros Hb c. apply (writeback_all_eq (0 + Z.of_nat (length os))). by apply wf_run; [apply wf_empty|..]. Qed.

(** The background worker discards writes.  Whatever is in the cache, a
    forced writeback and a due pass of the timer with dirty pages send nothing
    to a device and leave no page dirty: a later writeback of everything writes
    no block. *)
Theorem worker_discards_writes w c tick (d : D) : (writeback_all (force_writeback_all w c).2 d) = (mark_all_clean c, d, 0) /\
  (0 < total_cached_pages c -> 0 < total_dirty_pages c -> writeback_interval w <= sat_sub tick (last_writeback_tick w) ->
   entries (start_writeback_timer tick w c).2 = set_dirty false <$> entries c /\ writeback_all (start_writeback_timer tick w c).2 d = ((start_writeback_timer tick w c).2, d, 0)).
Proof.
  assert (forall c, dirty_inodes (mark_all_clean c) = []) as He by done.
  assert (forall c, writeback_all (mark_all_clean c) d = (mark_all_clean c, d, 0)) as Hn by (intros c'; unfold writeback_all; by rewrite He).
  split; [apply Hn|]. intros Ht Hd Hi. assert (exists c', (start_writeback_timer tick w c).2 = mark_all_clean c' /\ (set_dirty false <$> entries c') = set_dirty false <$> entries c) as (c' & -> & E).
  - unfold start_writeback_timer, wb_workfn, wb_do_writeback. replace (_ <=? _) with true by lia. replace (total_cached_pages c =? 0) with false by lia. replace (0 <? total_dirty_pages c) with true by lia.
    destruct (_ <=? _); unfold writeback_all_dirty; destruct (0 <? _); cbn; eexists; (split; [done|]); try done; cbn; rewrite <-map_fmap_compose; by apply map_fmap_ext.
  - split; [exact E|]. apply Hn.
Qed.
End History.

(** ** Devices that keep their data *)
Class GoodDevice (D : Type) `{BlockDevice D} := {
  content : Z -> D -> list Z;
  content_write : forall lba x d lba', content lba' (write_block lba x d).1 = if decide (lba = lba') then x else content lba' d;
  content_read : forall lba n d, read_block lba n d = (d, Some (content lba d)) }.
Abbreviation RamDisk := (gmap Z (list Z)).
#[export] Instance RamDevice : BlockDevice RamDisk := {| read_block := fun lba _ d => (d, Some (default [] (d !! lba))); write_block := fun lba x d => (<[lba := x]> d, true) |}.
Definition ram_content (lba : Z) (d : RamDisk) : list Z := default [] (d !! lba).
Lemma ram_write lba x d lba' : ram_content lba' (write_block lba x d).1 = if decide (lba = lba') then x else ram_content lba' d.
Proof. unfold ram_content. cbn. case_decide as E; [subst; by rewrite lookup_insert_eq|by rewrite lookup_insert_ne]. Qed.
#[export] Instance RamGood : GoodDevice RamDisk := {| content := ram_content; content_write := ram_write; content_read := fun _ _ _ => eq_refl |}.
Section Durable.
Context {D : Type} `{GoodDevice D}.
Lemma sent_content c l d k p : NoDup l -> (forall k k' p p', entries c !! k = Some p -> entries c !! k' = Some p' -> k ∈ l -> k' ∈ l -> disk_lba p = disk_lba p' -> k = k') ->
  k ∈ l -> entries c !! k = Some p -> content (disk_lba p) (foldl (send c) d l) = data p.
Proof.
  intros Hd Hinj Hk Hp. assert (forall l' d', (forall k', k' ∈ l' -> k' ∈ l /\ k' <> k) -> content (disk_lba p) (foldl (send c) d' l') = content (disk_lba p) d') as Hframe.
  { induction l' as [|x l' IH]; intros d' Hl; [done|]. cbn. rewrite IH by (intros; apply Hl; by apply elem_of_cons; right). unfold send. destruct (entries c !! x) as [q|] eqn:Hq; [|done].
    rewrite content_write, decide_False; [done|]. intros E. destruct (Hl x ltac:(apply list_elem_of_here)) as [Hx Hne]. by apply Hne, (Hinj x k q p). }
  apply list_elem_of_split in Hk as (l1 & l2 & ->). apply NoDup_app in Hd as (_ & H1 & Hd). apply NoDup_cons in Hd as [H2 Hd]. rewrite foldl_app. cbn [foldl].
  rewrite Hframe by (intros x Hx; split; [set_solver|by intros ->]). unfold send at 1. rewrite Hp. by rewrite content_write, decide_True.
Qed.
(** Written pages are durable.  On a device that keeps its data, if no two
    dirty pages share a block address, then after any history and
    [writeback_all] reading the block of a page that was dirty gives its data. *)
Theorem writeback_durable os w (d0 : D) d : Z.of_nat (length os) < u64_mod ->
  let c := (run os (new, w, d0)).1.1 in
  (forall (k k' : PageKey) p p', entries c !! k = Some p -> entries c !! k' = Some p' -> dirty p = true -> dirty p' = true -> disk_lba p = disk_lba p' -> k = k') ->
  forall (k : PageKey) p n, entries c !! k = Some p -> dirty p = true -> (read_block (disk_lba p) n (writeback_all c d).1.2).2 = Some (data p).
Proof.
  intros Hb c Hinj k p n Hk Hd. assert (wf (0 + Z.of_nat (length os)) c) as Hw by (by apply wf_run; [apply wf_empty|..]).
  destruct (writeback_all_eq _ c d Hw) as (c' & -> & _). cbn [fst snd]. rewrite content_read. cbn. f_equal. apply (sent_content c _ d k).
  - apply NoDup_filter, keys_nodup.
  - intros k1 k2 p1 p2 H1 H2 D1 D2. apply (Hinj k1 k2 p1 p2); [done|done| |]; unfold dirty_keys in *; [apply list_elem_of_filter in D1 as [D1 _]|apply list_elem_of_filter in D2 as [D2 _]]; unfold is_dirty in *; by rewrite ?H1, ?H2 in *.
  - unfold dirty_keys. apply list_elem_of_filter. unfold is_dirty. rewrite Hk. split; [done|]. apply elem_of_keys. eauto.
  - done.
Qed.
End Durable.

(** ** Examples and witnesses *)
(** Eviction takes a dirty page without writing it, and its inode stays counted as dirty. *)
Example evict_drops_dirty : let c := evict_one (mkCache {[ (7, 0) := mkPage [1; 2] true false 40 ]} {[ 7 := 1 ]} 1) in entries c = ∅ /\ inode_dirty_count 7 c = 1.
Proof. vm_compute. done. Qed.
Definition example_ops : list op := [Add (7, 1) [1; 2] 40; Add (7, 0) [3; 4] 41; Add (2, 5) [5; 6] 42; MarkDirty (7, 1); MarkDirty (2, 5); MarkDirty (7, 0); MarkClean (7, 0)].
Lemma page_cache_invariant_witness :
  let c := (run example_ops (new, worker_new, (∅ : RamDisk))).1.1 in total_cached_pages c = Z.of_nat (size (entries c)) /\ total_cached_pages c <= MAX_GLOBAL_CACHED_PAGES.
Proof. pose proof (page_cache_invariant example_ops worker_new (∅ : RamDisk) ltac:(done)) as (H1 & H2 & _). exact (conj H1 H2). Defined.
Lemma writeback_all_exact_witness : exists c',
  writeback_all (run example_ops (new, worker_new, (∅ : RamDisk))).1.1 (∅ : RamDisk) = (c', <[40 := [1; 2]]> {[ 42 := [5; 6] ]}, 2).
Proof. destruct (writeback_all_exact example_ops worker_new (∅ : RamDisk) (∅ : RamDisk) ltac:(done)) as (c' & E & _). exists c'. rewrite E. vm_compute. reflexivity. Defined.
Lemma worker_discards_writes_witness :
  let c := (run example_ops (new, worker_new, (∅ : RamDisk))).1.1 in
  total_dirty_pages c = 2 /\ writeback_all (start_writeback_timer 600 worker_new c).2 (∅ : RamDisk) = ((start_writeback_timer 600 worker_new c).2, ∅, 0).
Proof.
  split; [vm_compute; reflexivity|].
  apply (worker_discards_writes worker_new (run example_ops (new, worker_new, (∅ : RamDisk))).1.1 600 (∅ : RamDisk)); vm_compute; congruence.
Defined.
Lemma writeback_durable_witness :
  (read_block 40 2 (writeback_all (run [Add (7, 1) [1; 2] 40; MarkDirty (7, 1)] (new, worker_new, (∅ : RamDisk))).1.1 (∅ : RamDisk)).1.2).2 = Some [1; 2].
Proof.
  apply (writeback_durable [Add (7, 1) [1; 2] 40; MarkDirty (7, 1)] worker_new (∅ : RamDisk) (∅ : RamDisk) ltac:(done)) with (k := (7, 1)) (p := mkPage [1; 2] true true 40); [|vm_compute; reflexivity|reflexivity].
  intros k k' p p' H1 H2 _ _ _. change (entries _) with (<[(7, 1) := mkPage [1; 2] true true 40]> (<[(7, 1) := page_new [1; 2] 40]> (∅ : gmap PageKey CachedPage))) in H1, H2.
  rewrite insert_insert_eq in H1, H2. apply lookup_insert_Some in H1 as [[<- _]|[_ H1]], H2 as [[<- _]|[_ H2]]; done.
Defined.
End PageCache.
