(* ===== verification/Namei.v ===== *)
(** * Path names

    Models [src/src/fs/namei.rs] (resolution of a path component by component
    with symbolic links) and the path functions of [fs/vfs_unified.rs]:
    [normalize_vfs_path], [validate_path], the mount table lookup [resolve_fs],
    [relative_mount_path], [mount], [umount], [follow_up] and the checks of a
    mount's flags.  Of a back end's feature matrix only the four fields that
    decide about a mount are kept.

    Paths are lists of bytes.  Directory lookup and reading of links are
    callbacks of [resolve]; they are arguments here, functions that answer the
    same throughout one resolution.  The calls of [cache_one] are collected and
    then applied to the dentry cache of [Dcache].

    [resolve_inner] recurses once per link followed and refuses the
    forty-first, so 41 units of fuel are enough ([resolve_terminates]).

    [normalize_canonical]: normalisation computes the canonical form;
    [resolve_sound]: a resolved path is canonical and is walked from the root
    without meeting a link; [mounts_refine]: the table is a map and the mount
    found is the innermost one above the path; [resolve_cached]: what is found
    on the way is in the dentry cache afterwards. *)
From S2P Require Import Prelude Dcache.

Module Namei.

Definition path : Type := list Z.
Definition SLASH : Z := 47.
Definition BACKSLASH : Z := 92.
Definition DOT : path := [46].
Definition DOTDOT : path := [46; 46].
Definition ROOT : path := [SLASH].
Definition MAXSYMLINKS : nat := 40.
Definition S_IFMT : Z := 0xF000.
Definition S_IFLNK : Z := 0xA000.
Definition S_IFDIR : Z := 0x4000.
Definition PATH_MAX : Z := 4096.
Definition NAME_MAX : Z := 255.

(** [str::split] at bytes that satisfy [sep]. *)
Fixpoint split (sep : Z -> bool) (l : path) : list path :=
  match l with
  | [] => [[]]
  | c :: l' => if sep c then [] :: split sep l' else match split sep l' with p :: ps => (c :: p) :: ps | [] => [[c]] end
  end.
Definition is_slash (c : Z) : bool := c =? SLASH.
Definition is_separator (c : Z) : bool := (c =? SLASH) || (c =? BACKSLASH).
Fixpoint trim_start_matches (l : path) : path := match l with c :: l' => if is_slash c then trim_start_matches l' else l | [] => [] end.
Definition trim_end_matches (l : path) : path := reverse (trim_start_matches (reverse l)).
(** [rfind('/')], [rsplit_once('/')]: what is before the last slash. *)
Fixpoint before_last_slash (l : path) : option path :=
  match l with
  | [] => None
  | c :: l' => match before_last_slash l' with Some p => Some (c :: p) | None => if is_slash c then Some [] else None end
  end.

(** ** Normalisation *)
Definition push_component (components : list path) (raw : path) : list path :=
  if bool_decide (raw = []) || bool_decide (raw = DOT) then components
  else if bool_decide (raw = DOTDOT) then removelast components
  else components ++ [raw].
Fixpoint join_components (components : list path) : path :=
  match components with [] => [] | c :: cs => SLASH :: c ++ join_components cs end.
Definition normalize_vfs_path (p : path) : path :=
  match foldl push_component [] (split is_separator p) with
  | [] => ROOT
  | components => join_components components
  end.
Inductive FsError := NotFound | InvalidPath | NameTooLong | ComponentTooLong | NotDirectory | ReadOnlyFs | UnsupportedFeature.
Definition component_too_long (c : path) : bool :=
  negb (bool_decide (c = []) || bool_decide (c = DOT) || bool_decide (c = DOTDOT)) && (NAME_MAX <? Z.of_nat (length c)).
Definition validate_path (p : path) : FsError + unit :=
  if (length p =? 0)%nat then inl NotFound
  else if existsb (fun c => c =? 0) p then inl InvalidPath
  else if PATH_MAX <? Z.of_nat (length p) then inl NameTooLong
  else if existsb component_too_long (split is_slash p) then inl ComponentTooLong
  else inr tt.
Definition ends_with_slash (p : path) : bool := match last p with Some c => is_slash c | None => false end.
Definition check_trailing_slash_notdir (p : path) (is_dir : bool) : FsError + unit := if ends_with_slash p && negb is_dir then inl NotDirectory else inr tt.

(** ** Mounts *)
Inductive VfsFsType := F2fs | Ext4 | Xfs | Btrfs | Fat32 | ExFat | Ntfs | ProcFs | DevFs | SysFs | TmpFs | Erofs | Squashfs.
(** The fields of [BackendFeatureMatrix] that decide whether a mount is allowed. *)
Record BackendFeatureMatrix := mkMatrix { m_readonly : bool; m_write : bool; m_encryption : bool; m_multi_device : bool }.
Definition build_feature_matrix (t : VfsFsType) (readonly : bool) : BackendFeatureMatrix :=
  let writable := mkMatrix false true false false in
  let fixed := mkMatrix true false false false in
  let matrix := match t with
    | F2fs | Ext4 | Fat32 | ExFat | ProcFs | DevFs | SysFs | TmpFs => writable
    | Xfs | Btrfs | Ntfs | Erofs | Squashfs => fixed
    end in
  if readonly then mkMatrix true false (m_encryption matrix) (m_multi_device matrix) else matrix.
Definition enforce_mount_gates (m : BackendFeatureMatrix) (readonly : bool) : FsError + unit :=
  if negb readonly && negb (m_write m) then inl ReadOnlyFs
  else if m_multi_device m then inl UnsupportedFeature
  else if m_encryption m then inl UnsupportedFeature
  else inr tt.
Record VfsMountFlags := mkFlags { noexec : bool; nosuid : bool; nodev : bool; noatime : bool; relatime : bool }.
Record VfsMountEntry := mkMount { mount_point : path; fs_type : VfsFsType; source : path; flags : VfsMountFlags; readonly : bool; feature_matrix : BackendFeatureMatrix }.
(** The mount table is an ordered map from mount points to entries that carry
    the same mount point: the list of the entries in the order of the keys. *)
Record VfsUnified := mkVfs { mount_table : list VfsMountEntry; fs_count : Z }.
Definition new : VfsUnified := mkVfs [] 0.
Fixpoint path_compare (a b : path) : comparison :=
  match a, b with
  | [], [] => Eq
  | [], _ :: _ => Lt
  | _ :: _, [] => Gt
  | x :: a', y :: b' => match x ?= y with Eq => path_compare a' b' | c => c end
  end.
Fixpoint table_insert (e : VfsMountEntry) (l : list VfsMountEntry) : list VfsMountEntry :=
  match l with
  | [] => [e]
  | x :: l' => match path_compare (mount_point e) (mount_point x) with Lt => e :: l | Eq => e :: l' | Gt => x :: table_insert e l' end
  end.
Definition mount_with_readonly (mp : path) (t : VfsFsType) (src : path) (fl : VfsMountFlags) (ro : bool) (v : VfsUnified) : FsError + VfsUnified :=
  match validate_path mp with
  | inl e => inl e
  | inr _ =>
      let matrix := build_feature_matrix t ro in
      match enforce_mount_gates matrix ro with
      | inl e => inl e
      | inr _ => inr (mkVfs (table_insert (mkMount (normalize_vfs_path mp) t src fl ro matrix) (mount_table v)) (u64_add (fs_count v) 1))
      end
  end.
Definition mount (mp : path) (t : VfsFsType) (src : path) (fl : VfsMountFlags) (v : VfsUnified) : FsError + VfsUnified :=
  let ro := (noexec fl && nosuid fl) || negb (m_write (build_feature_matrix t false)) in
  mount_with_readonly mp t src fl ro v.
Fixpoint strip_prefix (pre l : path) : option path :=
  match pre, l with
  | [], _ => Some l
  | a :: pre', c :: l' => if a =? c then strip_prefix pre' l' else None
  | _ :: _, [] => None
  end.
Definition starts_with_slash (l : path) : bool := match l with c :: _ => is_slash c | [] => false end.
Definition mount_matches_path (mp p : path) : bool :=
  if bool_decide (mp = ROOT) then starts_with_slash p
  else if bool_decide (p = mp) then true
  else match strip_prefix mp p with Some suffix => starts_with_slash suffix | None => false end.
Definition relative_mount_path (mp p : path) : path :=
  if bool_decide (mp = ROOT) then p
  else if bool_decide (p = mp) then ROOT
  else default p (strip_prefix mp p).
Definition resolve_fs (v : VfsUnified) (p : path) : option VfsMountEntry :=
  let p := normalize_vfs_path p in
  (foldl (fun '(best_match, best_len) e =>
            if mount_matches_path (mount_point e) p && (best_len <? length (mount_point e))%nat then (Some e, length (mount_point e)) else (best_match, best_len))
     (None, 0%nat) (mount_table v)).1.
Definition umount (mp : path) (v : VfsUnified) : VfsUnified * bool :=
  let mp := normalize_vfs_path mp in
  if existsb (fun e => bool_decide (mount_point e = mp)) (mount_table v)
  then (mkVfs (filter (fun e => mount_point e <> mp) (mount_table v)) (u64_sub (fs_count v) 1), true) else (v, false).
Definition follow_up (v : VfsUnified) (p : path) : option path :=
  let normalized := normalize_vfs_path p in
  if bool_decide (normalized = ROOT) then None
  else if existsb (fun e => bool_decide (mount_point e = normalized)) (mount_table v) then
    let parent := match before_last_slash (trim_end_matches normalized) with Some [] => ROOT | Some parent => parent | None => ROOT end in
    mount_point <$> resolve_fs v parent
  else None.
(** ** What a mount changes of its files *)
Record VfsFileInfo := mkInfo { inode : Z; isize : Z; imode : Z; nlink : Z; iuid : Z; igid : Z; ifs_type : VfsFsType; iblock_size : Z; iblocks : Z }.
Definition set_mode (m : Z) (i : VfsFileInfo) : VfsFileInfo := mkInfo (inode i) (isize i) m (nlink i) (iuid i) (igid i) (ifs_type i) (iblock_size i) (iblocks i).
(** On a nosuid mount the set-user and set-group bits are cleared. *)
Definition apply_mount_flags (v : VfsUnified) (p : path) (i : VfsFileInfo) : VfsFileInfo :=
  match resolve_fs v (normalize_vfs_path p) with
  | Some e => if nosuid (flags e) then set_mode (Z.ldiff (imode i) (Z.lor 0x800 0x400)) i else i
  | None => i
  end.
(** Whether a file with the mode [mode] may be executed; [false] is the error. *)
Definition check_noexec (v : VfsUnified) (p : path) (mode : Z) : bool :=
  match resolve_fs v (normalize_vfs_path p) with
  | Some e => negb (noexec (flags e) && negb (Z.land mode 0x49 =? 0))
  | None => true
  end.

(** ** Resolution *)
Definition is_symlink (i : VfsFileInfo) : bool := Z.land (imode i) S_IFMT =? S_IFLNK.
Definition parent_path (p : path) : path :=
  let normalized := normalize_vfs_path p in
  if bool_decide (normalized = ROOT) then ROOT
  else match before_last_slash (trim_end_matches normalized) with Some [] => ROOT | Some pre => pre | None => ROOT end.
Definition split_components (p : path) : list path := filter (fun c => c <> []) (split is_slash (trim_end_matches (trim_start_matches p))).
Definition join_path (parent name : path) : path := if bool_decide (parent = ROOT) then SLASH :: name else parent ++ SLASH :: name.
(** [core::str::from_utf8], as the ranges of well-formed byte sequences. *)
Definition in_range (lo hi b : Z) : bool := (lo <=? b) && (b <=? hi).
Fixpoint valid_utf8 (l : list Z) : bool :=
  match l with
  | [] => true
  | a :: l1 =>
      if a <? 0x80 then valid_utf8 l1
      else match l1 with
      | b :: l2 =>
          if in_range 0xC2 0xDF a then in_range 0x80 0xBF b && valid_utf8 l2
          else match l2 with
          | c :: l3 =>
              if in_range 0xE0 0xEF a then
                in_range (if a =? 0xE0 then 0xA0 else 0x80) (if a =? 0xED then 0x9F else 0xBF) b && in_range 0x80 0xBF c && valid_utf8 l3
              else match l3 with
              | e :: l4 =>
                  in_range 0xF0 0xF4 a && in_range (if a =? 0xF0 then 0x90 else 0x80) (if a =? 0xF4 then 0x8F else 0xBF) b &&
                  in_range 0x80 0xBF c && in_range 0x80 0xBF e && valid_utf8 l4
              | [] => false
              end
          | [] => false
          end
      | [] => false
      end
  end.
Inductive NameiError := TooManyLinks | NotUtf8 | NoComponent | NoEntry | Callback (e : Z).
Record ResolvedPath := mkResolved { resolved_path : path; info : VfsFileInfo }.
(** One call of [cache_one]: the directory's inode, the name, what was found. *)
Definition CacheCall : Type := Z * path * VfsFileInfo.
Section Resolve.
Context (lookup_component : Z -> path -> path -> Z + VfsFileInfo) (readlink : path -> Z + list Z) (follow_final : bool).
(** The end of a walk: an answer, or the path to go on with after a link. *)
Inductive WalkResult := Done (r : NameiError + ResolvedPath) | Follow (p : path).
(** The path a link leads to: its target, in the directory of the link if it is relative, and the components that remain. *)
Definition link_path (component_path : path) (target : path) (remaining : list path) : path :=
  let start := if starts_with_slash target then normalize_vfs_path target else join_path (parent_path component_path) target in
  normalize_vfs_path (foldl join_path start remaining).
Fixpoint walk (depth : nat) (components : list path) (current_path : path) (current_ino : Z) (last_info : option VfsFileInfo) (log : list CacheCall) : list CacheCall * WalkResult :=
  match components with
  | [] => (log, Done match last_info with Some i => inr (mkResolved current_path i) | None => inl NoEntry end)
  | component :: remaining =>
      let is_last := bool_decide (remaining = []) in
      let component_path := join_path current_path component in
      match lookup_component current_ino current_path component with
      | inl e => (log, Done (inl (Callback e)))
      | inr i =>
          if is_symlink i && (follow_final || negb is_last) then
            if (MAXSYMLINKS <=? depth)%nat then (log, Done (inl TooManyLinks))
            else match readlink component_path with
            | inl e => (log, Done (inl (Callback e)))
            | inr target =>
                if negb (valid_utf8 target) then (log, Done (inl NotUtf8))
                else if bool_decide (target = []) then (log, Done (inl NoComponent))
                else (log, Follow (link_path component_path target remaining))
            end
          else walk depth remaining component_path (inode i) (Some i) (log ++ [(current_ino, component, i)])
      end
  end.
Fixpoint resolve_inner (fuel depth : nat) (p : path) (log : list CacheCall) : list CacheCall * (NameiError + ResolvedPath) :=
  match fuel with
  | O => (log, inl TooManyLinks)
  | S f =>
      let normalized := normalize_vfs_path p in
      if bool_decide (normalized = ROOT) then
        (log, match lookup_component 0 [] ROOT with inl e => inl (Callback e) | inr i => inr (mkResolved normalized i) end)
      else match walk depth (split_components normalized) ROOT 0 None log with
      | (log, Done r) => (log, r)
      | (log, Follow p') => resolve_inner f (S depth) p' log
      end
  end.
Definition resolve (p : path) : list CacheCall * (NameiError + ResolvedPath) := resolve_inner (S MAXSYMLINKS) 0 p [].
End Resolve.
Definition cache_one (call : CacheCall) (d : Dcache.Dcache) : option Dcache.Dcache :=
  let '(parent_ino, name, i) := call in
  if bool_decide (name = []) || bool_decide (name = ROOT) then Some d
  else match Dcache.lookup (parent_ino, name) d with
  | None => None
  | Some (d, Some _) => Some d
  | Some (d, None) =>
      fst <$> Dcache.alloc (Dcache.mkDentry name parent_ino (inode i) (negb (Z.land (imode i) S_IFDIR =? 0)) (imode i mod 2 ^ 16) (iuid i) (igid i) (isize i) 0) d
  end.
Definition cache_all (calls : list CacheCall) (d : Dcache.Dcache) : option Dcache.Dcache := foldl (fun d c => d ≫= cache_one c) (Some d) calls.

(** ** Splitting and joining *)
Definition free (sep : Z -> bool) (l : path) : Prop := Forall (fun c => sep c = false) l.
Lemma split_free sep c : free sep c -> split sep c = [c].
Proof. induction 1 as [|x c Hx _ IH]; [done|]. cbn. by rewrite Hx, IH. Qed.
Lemma split_nonempty sep l : split sep l <> [].
Proof. destruct l as [|c l]; [done|]. cbn. repeat case_match; done. Qed.
Lemma split_app sep p s r : sep s = true -> split sep (p ++ s :: r) = split sep p ++ split sep r.
Proof.
  intros Hs. induction p as [|c p IH]; [cbn; by rewrite Hs|]. cbn [app split]. rewrite IH. destruct (sep c); [done|].
  destruct (split sep p) eqn:E; [by apply split_nonempty in E|done].
Qed.
Lemma split_pieces sep l : Forall (free sep) (split sep l).
Proof.
  induction l as [|c l IH]; [by repeat constructor|]. cbn. destruct (sep c) eqn:E; [by constructor; [constructor|]|].
  destruct (split sep l) as [|q qs]; [repeat constructor; done|]. apply Forall_cons in IH as [H1 H2]. constructor; [by constructor|done].
Qed.
Lemma join_app cs c : join_components (cs ++ [c]) = join_components cs ++ SLASH :: c.
Proof. induction cs as [|x cs IH]; cbn; [by rewrite app_nil_r|]. rewrite IH. by rewrite <-app_assoc. Qed.
Lemma split_join sep cs : sep SLASH = true -> Forall (free sep) cs -> split sep (join_components cs) = [] :: cs.
Proof.
  intros Hs. induction cs as [|c cs IH] using rev_ind; intros Hc; [done|]. apply Forall_app in Hc as [Hc Hx]. rewrite Forall_singleton in Hx.
  rewrite join_app, (split_app sep _ SLASH) by done. rewrite IH by done. by rewrite (split_free sep c Hx).
Qed.

(** ** Canonical paths *)
Definition proper (c : path) : Prop := c <> [] /\ c <> DOT /\ c <> DOTDOT /\ free is_separator c.
Definition canon (cs : list path) : path := match cs with [] => ROOT | _ => join_components cs end.
Definition components_of (p : path) : list path := foldl push_component [] (split is_separator p).
Lemma normalize_canon p : normalize_vfs_path p = canon (components_of p).
Proof. unfold normalize_vfs_path, components_of. by destruct (foldl _ _ _). Qed.
Lemma push_proper cs raw : Forall proper cs -> free is_separator raw -> Forall proper (push_component cs raw).
Proof.
  intros Hcs Hr. unfold push_component. repeat case_bool_decide; cbn; try done.
  - apply Forall_forall. intros c Hc. rewrite Forall_forall in Hcs. apply Hcs. destruct cs as [|x cs]; [done|]. rewrite (app_removelast_last [] (l := x :: cs)) by done. apply elem_of_app. by left.
  - apply Forall_app. split; [done|]. by repeat constructor.
Qed.
Lemma fold_proper l cs : Forall (free is_separator) l -> Forall proper cs -> Forall proper (foldl push_component cs l).
Proof. revert cs. induction l as [|x l IH]; intros cs Hl Hc; [done|]. apply Forall_cons in Hl as [Hx Hl]. apply IH; [done|by apply push_proper]. Qed.
Lemma components_proper p : Forall proper (components_of p).
Proof. apply fold_proper; [apply split_pieces|constructor]. Qed.
Lemma push_good cs c : proper c -> push_component cs c = cs ++ [c].
Proof. intros (H1 & H2 & H3 & _). unfold push_component. by rewrite !bool_decide_false. Qed.
Lemma fold_good cs l : Forall proper l -> foldl push_component cs l = cs ++ l.
Proof.
  intros Hl. revert cs. induction Hl as [|c l Hc _ IH]; intros cs; [by rewrite app_nil_r|]. cbn. by rewrite push_good, IH, <-app_assoc.
Qed.
Lemma proper_free cs : Forall proper cs -> Forall (free is_separator) cs.
Proof. intros H. apply (Forall_impl _ _ _ H). by intros c (_ & _ & _ & Hc). Qed.
Lemma components_canon cs : Forall proper cs -> components_of (canon cs) = cs.
Proof.
  intros Hc. destruct cs as [|c cs]; [done|]. unfold components_of, canon. rewrite (split_join is_separator (c :: cs) eq_refl (proper_free _ Hc)).
  change (foldl push_component [] (c :: cs) = c :: cs). by rewrite fold_good.
Qed.
Lemma normalize_fixed cs : Forall proper cs -> normalize_vfs_path (canon cs) = canon cs.
Proof. intros Hc. by rewrite normalize_canon, components_canon. Qed.
Lemma components_join p r : components_of (p ++ SLASH :: r) = foldl push_component (components_of p) (split is_separator r).
Proof. unfold components_of. by rewrite split_app, foldl_app. Qed.
Lemma canon_root cs : Forall proper cs -> canon cs = ROOT <-> cs = [].
Proof.
  intros Hc. split; [|by intros ->]. destruct cs as [|x cs]; [done|]. apply Forall_cons in Hc as [(Hx & _) _]. cbn. unfold ROOT.
  intros E. injection E as E. by apply app_eq_nil in E as [-> _].
Qed.
Lemma canon_app cs c : Forall proper cs -> join_path (canon cs) c = canon (cs ++ [c]).
Proof.
  intros Hc. unfold join_path. destruct (decide (cs = [])) as [->|Hn]; [rewrite bool_decide_true by done; cbn; by rewrite app_nil_r|].
  rewrite bool_decide_false by (by rewrite canon_root). destruct cs as [|x cs]; [done|].
  change (canon ((x :: cs) ++ [c])) with (join_components ((x :: cs) ++ [c])). by rewrite join_app.
Qed.

(** ** Parents and components of canonical paths *)
Lemma sep_slash c : free is_separator c -> free is_slash c.
Proof. intros H. apply (Forall_impl _ _ _ H). intros x. unfold is_separator, is_slash. by destruct (x =? SLASH). Qed.
Lemma proper_slash_free cs : Forall proper cs -> Forall (free is_slash) cs.
Proof. intros H. apply (Forall_impl _ _ _ H). intros c (_ & _ & _ & Hc). by apply sep_slash. Qed.
Lemma proper_head c : proper c -> exists x c', c = x :: c' /\ is_slash x = false.
Proof. intros (Hn & _ & _ & Hf). apply sep_slash in Hf. destruct c as [|x c]; [done|]. apply Forall_cons in Hf as [Hx _]. eauto. Qed.
Lemma trim_start_stop c l : proper c -> trim_start_matches (c ++ l) = c ++ l.
Proof. intros Hc. destruct (proper_head c Hc) as (x & c' & -> & Hx). cbn. by rewrite Hx. Qed.
Lemma proper_reverse c : proper c -> exists x c', reverse c = x :: c' /\ is_slash x = false.
Proof.
  intros (Hn & _ & _ & Hf). apply sep_slash in Hf. destruct (reverse c) as [|x c'] eqn:E.
  - apply (f_equal reverse) in E. by rewrite reverse_involutive in E.
  - exists x, c'. split; [done|]. apply (f_equal reverse) in E. rewrite reverse_involutive, reverse_cons in E. subst c.
    unfold free in Hf. rewrite Forall_app, Forall_singleton in Hf. tauto.
Qed.
Lemma trim_end_stop l c : proper c -> trim_end_matches (l ++ c) = l ++ c.
Proof.
  intros Hc. unfold trim_end_matches. rewrite reverse_app. destruct (proper_reverse c Hc) as (x & c' & E & Hx). rewrite E. cbn [app trim_start_matches]. rewrite Hx.
  rewrite app_comm_cons, <-E, <-reverse_app. apply reverse_involutive.
Qed.
Lemma before_last_free c : free is_slash c -> before_last_slash c = None.
Proof. induction 1 as [|x c Hx _ IH]; [done|]. cbn. by rewrite IH, Hx. Qed.
Lemma before_last_app l c : free is_slash c -> before_last_slash (l ++ SLASH :: c) = Some l.
Proof. intros Hc. induction l as [|x l IH]; cbn; [by rewrite before_last_free|by rewrite IH]. Qed.
Lemma join_nil cs : join_components cs = [] -> cs = [].
Proof. by destruct cs. Qed.
(** The last component of a canonical path, and what is above it. *)
Lemma last_component cs : Forall proper cs -> cs <> [] ->
  match before_last_slash (trim_end_matches (canon cs)) with Some [] => ROOT | Some pre => pre | None => ROOT end = canon (removelast cs).
Proof.
  intros Hc Hn. destruct (exists_last Hn) as (cs' & c & ->). apply Forall_app in Hc as [Hc Hx]. rewrite Forall_singleton in Hx.
  assert (canon (cs' ++ [c]) = join_components cs' ++ SLASH :: c) as -> by (rewrite <-join_app; by destruct cs').
  replace (join_components cs' ++ SLASH :: c) with ((join_components cs' ++ [SLASH]) ++ c) at 1 by (by rewrite <-app_assoc).
  rewrite trim_end_stop, <-app_assoc by done. cbn [app]. rewrite before_last_app by (apply sep_slash, Hx). rewrite removelast_last. by destruct cs'.
Qed.
Lemma parent_canon p : parent_path p = canon (removelast (components_of p)).
Proof.
  unfold parent_path. rewrite normalize_canon. pose proof (components_proper p) as Hc. case_bool_decide as E.
  - apply (canon_root _ Hc) in E. by rewrite E.
  - apply last_component; [done|]. by rewrite <-canon_root.
Qed.
Lemma split_components_canon cs : Forall proper cs -> cs <> [] -> split_components (canon cs) = cs.
Proof.
  intros Hc Hn. unfold split_components. destruct cs as [|c cs]; [done|]. pose proof (proper_slash_free _ Hc) as Hf. pose proof (split_join is_slash (c :: cs) eq_refl Hf) as Hs.
  cbn [canon join_components] in *. cbn [trim_start_matches is_slash]. change (is_slash SLASH) with true. cbn iota.
  inversion Hc as [|? ? Hc1 Hc2]; subst. rewrite trim_start_stop by done.
  assert (trim_end_matches (c ++ join_components cs) = c ++ join_components cs) as ->.
  { destruct (decide (cs = [])) as [->|Hn']; [cbn; rewrite app_nil_r; by apply (trim_end_stop [])|]. destruct (exists_last Hn') as (cs' & x & ->).
    apply Forall_app in Hc2 as [_ Hx]. rewrite Forall_singleton in Hx. rewrite join_app.
    replace (c ++ join_components cs' ++ SLASH :: x) with ((c ++ join_components cs' ++ [SLASH]) ++ x) by (by rewrite <-!app_assoc). by apply trim_end_stop. }
  cbn [split] in Hs. change (is_slash SLASH) with true in Hs. cbn iota in Hs. injection Hs as Hs. rewrite Hs.
  apply filter_all. intros x Hx. rewrite Forall_forall in Hc. by apply Hc.
Qed.

(** Normalising a path yields its canonical form: components that are neither
    empty, nor [.], nor [..], nor hold a separator, joined by slashes.  Canonical
    paths are left alone, so it is idempotent; a component [.] changes nothing,
    [..] leads to the parent as [parent_path] computes it and never above the
    root, and a proper component is appended. *)
Theorem normalize_canonical p :
  (exists cs, Forall proper cs /\ normalize_vfs_path p = canon cs) /\
  (forall cs, Forall proper cs -> normalize_vfs_path (canon cs) = canon cs /\ (cs <> [] -> split_components (canon cs) = cs)) /\
  normalize_vfs_path (normalize_vfs_path p) = normalize_vfs_path p /\
  normalize_vfs_path (p ++ SLASH :: DOT) = normalize_vfs_path p /\
  normalize_vfs_path (p ++ SLASH :: DOTDOT) = parent_path p /\
  (forall c, proper c -> normalize_vfs_path (p ++ SLASH :: c) = join_path (normalize_vfs_path p) c).
Proof.
  pose proof (components_proper p) as Hp. repeat split.
  - exists (components_of p). by rewrite normalize_canon.
  - by apply normalize_fixed.
  - by apply split_components_canon.
  - by rewrite (normalize_canon p), normalize_fixed.
  - by rewrite !normalize_canon, components_join.
  - by rewrite parent_canon, normalize_canon, components_join.
  - intros c Hc. rewrite !normalize_canon, components_join, canon_app by done. f_equal. rewrite split_free by apply Hc. by apply fold_good; constructor.
Qed.

(** ** Mount points above a path *)
Lemma strip_prefix_app pre l s : strip_prefix pre l = Some s <-> l = pre ++ s.
Proof.
  revert l. induction pre as [|a pre IH]; intros l; cbn; [naive_solver|]. destruct l as [|c l]; [done|].
  destruct (Z.eqb_spec a c) as [->|]; [rewrite IH|]; naive_solver.
Qed.
Lemma join_components_app a b : join_components (a ++ b) = join_components a ++ join_components b.
Proof. induction a as [|x a IH]; [done|]. cbn. by rewrite IH, app_assoc. Qed.
Lemma canon_starts cs : starts_with_slash (canon cs) = true.
Proof. by destruct cs. Qed.
Lemma canon_cons cs : cs <> [] -> canon cs = join_components cs.
Proof. by destruct cs. Qed.
Lemma canon_inj a b : Forall proper a -> Forall proper b -> canon a = canon b -> a = b.
Proof. intros Ha Hb E. apply (f_equal components_of) in E. by rewrite !components_canon in E. Qed.
Lemma matches_prefix ms cs : Forall proper ms -> Forall proper cs -> mount_matches_path (canon ms) (canon cs) = true <-> ms `prefix_of` cs.
Proof.
  intros Hm Hc. unfold mount_matches_path. case_bool_decide as E1.
  { apply (canon_root _ Hm) in E1 as ->. rewrite canon_starts. split; [intros _; apply prefix_nil|done]. }
  rewrite canon_root in E1 by done. case_bool_decide as E2; [apply canon_inj in E2 as ->; done|]. split.
  - destruct (strip_prefix _ _) as [s|] eqn:E; [|done]. apply strip_prefix_app in E. destruct s as [|x s]; [done|]. cbn. intros Hx. apply Z.eqb_eq in Hx as ->.
    apply (f_equal (split is_slash)) in E. rewrite (split_app _ _ SLASH), (canon_cons ms E1), (split_join is_slash ms eq_refl (proper_slash_free _ Hm)) in E by done.
    destruct cs as [|c cs]; [exfalso; injection E as E; destruct ms as [|m ms]; [done|]; injection E as _ E; symmetry in E; apply app_eq_nil in E as [_ E]; by apply split_nonempty in E|].
    rewrite canon_cons, (split_join is_slash _ eq_refl (proper_slash_free _ Hc)) in E by done. injection E as E. by exists (split is_slash s).
  - intros [k ->]. destruct k as [|x k]; [by rewrite app_nil_r in E2|]. rewrite !canon_cons by (by destruct ms). rewrite join_components_app.
    by rewrite (proj2 (strip_prefix_app _ _ _) eq_refl).
Qed.
Lemma relative_rest ms k : Forall proper (ms ++ k) -> relative_mount_path (canon ms) (canon (ms ++ k)) = canon k.
Proof.
  intros Hmk. pose proof Hmk as [Hm Hk]%Forall_app. unfold relative_mount_path. case_bool_decide as E1; [by apply (canon_root _ Hm) in E1 as ->|].
  rewrite canon_root in E1 by done. case_bool_decide as E2.
  { apply canon_inj in E2; [|done|done]. apply (f_equal length) in E2. rewrite length_app in E2. by destruct k; [|cbn in E2; lia]. }
  destruct k as [|x k]; [by rewrite app_nil_r in E2|]. rewrite !canon_cons by (by destruct ms). rewrite join_components_app.
  by rewrite (proj2 (strip_prefix_app _ _ _) eq_refl).
Qed.
Lemma canon_longer ms k : Forall proper (ms ++ k) -> k <> [] -> (length (canon ms) < length (canon (ms ++ k)))%nat.
Proof.
  intros Hmk Hk. apply Forall_app in Hmk as [Hm Hp]. destruct k as [|x k]; [done|]. apply Forall_cons in Hp as [(Hx & _) _]. destruct x as [|y x]; [done|].
  rewrite (canon_cons (ms ++ _)) by (by destruct ms). rewrite join_components_app, length_app. destruct ms as [|m ms]; cbn; lia.
Qed.

(** The scan of the table keeps the longest match. *)
Definition best (p : path) : option VfsMountEntry * nat -> VfsMountEntry -> option VfsMountEntry * nat := fun '(best_match, best_len) e =>
  if mount_matches_path (mount_point e) p && (best_len <? length (mount_point e))%nat then (Some e, length (mount_point e)) else (best_match, best_len).
Definition scanned (p : path) (l : list VfsMountEntry) (r : option VfsMountEntry * nat) : Prop :=
  (forall e, e ∈ l -> mount_matches_path (mount_point e) p = true -> length (mount_point e) <= r.2)%nat /\
  match r.1 with Some e => e ∈ l /\ mount_matches_path (mount_point e) p = true /\ r.2 = length (mount_point e) | None => r.2 = 0%nat end.
Lemma scan_ok p l : scanned p l (foldl (best p) (None, 0%nat) l).
Proof.
  induction l as [|e l IH] using rev_ind; [split; [by intros e ?%elem_of_nil|done]|]. rewrite foldl_app. cbn [foldl]. destruct (foldl _ _ l) as [bm bl]. destruct IH as [H1 H2]. cbn [fst snd] in *.
  unfold best. destruct (mount_matches_path (mount_point e) p) eqn:Em; [destruct (Nat.ltb_spec bl (length (mount_point e)))|]; cbn [andb]; split; cbn [fst snd].
  1, 3, 5: intros x [Hx| ->%list_elem_of_singleton]%elem_of_app Hm; try congruence; try lia; specialize (H1 x Hx Hm); lia.
  - split; [apply elem_of_app; right; apply list_elem_of_singleton; done|done].
  - destruct bm as [b|]; [|done]. destruct H2 as (? & ? & ?). split; [by apply elem_of_app; left|done].
  - destruct bm as [b|]; [|done]. destruct H2 as (? & ? & ?). split; [by apply elem_of_app; left|done].
Qed.
Lemma resolve_fs_scan v p : resolve_fs v p = (foldl (best (normalize_vfs_path p)) (None, 0%nat) (mount_table v)).1.
Proof. done. Qed.

(** ** The mount table *)
Definition canonical (p : path) : Prop := exists cs, Forall proper cs /\ p = canon cs.
Definition before (a b : VfsMountEntry) : Prop := path_compare (mount_point a) (mount_point b) = Lt.
Record wf (v : VfsUnified) : Prop := {
  wf_sorted : StronglySorted before (mount_table v);
  wf_canonical : forall e, e ∈ mount_table v -> canonical (mount_point e) }.
Lemma normalize_is_canonical p : canonical (normalize_vfs_path p).
Proof. exists (components_of p). split; [apply components_proper|apply normalize_canon]. Qed.
Lemma compare_eq a b : path_compare a b = Eq <-> a = b.
Proof.
  revert b. induction a as [|x a IH]; intros [|y b]; cbn; try (by split). destruct (Z.compare_spec x y) as [->| |]; [rewrite IH; naive_solver| |]; (split; [done|intros [= -> ->]; lia]).
Qed.
Lemma compare_gt a b : path_compare a b = Gt -> path_compare b a = Lt.
Proof.
  revert b. induction a as [|x a IH]; intros [|y b]; cbn; try done. rewrite (Z.compare_antisym x y). destruct (x ?= y); cbn; [apply IH|done|done].
Qed.
Lemma compare_trans a b c : path_compare a b = Lt -> path_compare b c = Lt -> path_compare a c = Lt.
Proof.
  revert b c. induction a as [|x a IH]; intros [|y b] [|z c]; cbn; try done.
  destruct (Z.compare_spec x y), (Z.compare_spec y z), (Z.compare_spec x z); try done; try lia; eauto.
Qed.
Lemma insert_elem e l x : StronglySorted before l -> x ∈ table_insert e l <-> x = e \/ (x ∈ l /\ mount_point x <> mount_point e).
Proof.
  induction 1 as [|y l Hl IH Hy]; cbn; [rewrite list_elem_of_singleton, elem_of_nil; tauto|]. rewrite Forall_forall in Hy.
  destruct (path_compare (mount_point e) (mount_point y)) eqn:E; rewrite ?elem_of_cons, ?IH.
  - apply compare_eq in E. split; [intros [->|Hx]; [by left|right]|intros [->|[[->|Hx] Hn]]; [by left|congruence|by right]]. split; [by right|].
    intros Ex. specialize (Hy x Hx). unfold before in Hy. rewrite Ex, E in Hy. by rewrite (proj2 (compare_eq _ _) eq_refl) in Hy.
  - split; [intros [->|[->|Hx]]|tauto]; [by left|right; split; [by left|]|right; split; [by right|]]; intros Ex.
    + rewrite Ex in E. by rewrite (proj2 (compare_eq _ _) eq_refl) in E.
    + specialize (Hy x Hx). unfold before in Hy. rewrite <-Ex in E. pose proof (compare_trans _ _ _ E Hy) as C. by rewrite (proj2 (compare_eq _ _) eq_refl) in C.
  - assert (mount_point y <> mount_point e) as Hn by (intros Ey; rewrite Ey in E; by rewrite (proj2 (compare_eq _ _) eq_refl) in E). naive_solver.
Qed.
Lemma insert_sorted e l : StronglySorted before l -> StronglySorted before (table_insert e l).
Proof.
  induction 1 as [|y l Hl IH Hy]; cbn; [by repeat constructor|]. destruct (path_compare (mount_point e) (mount_point y)) eqn:E.
  - apply compare_eq in E. constructor; [done|]. apply (Forall_impl _ _ _ Hy). intros z. unfold before. by rewrite E.
  - constructor; [by constructor|]. constructor; [done|]. apply (Forall_impl _ _ _ Hy). intros z. by apply compare_trans.
  - constructor; [done|]. rewrite Forall_forall in *. intros z. rewrite insert_elem by done. intros [->|[Hz _]]; [by apply compare_gt|by apply Hy].
Qed.
Lemma insert_length e l : StronglySorted before l -> (length (table_insert e l) <= S (length l))%nat.
Proof. induction 1 as [|y l _ IH _]; cbn; [lia|]. case_match; cbn; lia. Qed.
Lemma filter_sorted (P : VfsMountEntry -> Prop) `{forall x, Decision (P x)} l : StronglySorted before l -> StronglySorted before (filter P l).
Proof.
  induction 1 as [|y l Hl IH Hy]; [constructor|]. rewrite filter_cons. case_decide; [|done]. constructor; [done|]. rewrite Forall_forall in *. intros z [_ Hz]%list_elem_of_filter. by apply Hy.
Qed.
Lemma sorted_unique l x y : StronglySorted before l -> x ∈ l -> y ∈ l -> mount_point x = mount_point y -> x = y.
Proof.
  induction 1 as [|z l Hl IH Hz]; [by intros ?%elem_of_nil|]. rewrite !elem_of_cons. rewrite Forall_forall in Hz. intros [->|Hx] [->|Hy] E; [done| | |by apply IH].
  - specialize (Hz y Hy). unfold before in Hz. by rewrite E, (proj2 (compare_eq _ _) eq_refl) in Hz.
  - specialize (Hz x Hx). unfold before in Hz. by rewrite E, (proj2 (compare_eq _ _) eq_refl) in Hz.
Qed.

(** *** Histories of mounts *)
Inductive op := Mount (mp : path) (t : VfsFsType) (src : path) (fl : VfsMountFlags) | MountRo (mp : path) (t : VfsFsType) (src : path) (fl : VfsMountFlags) (ro : bool) | Umount (mp : path).
Definition exec (o : op) (v : VfsUnified) : VfsUnified :=
  match o with
  | Mount mp t src fl => match mount mp t src fl v with inr v' => v' | inl _ => v end
  | MountRo mp t src fl ro => match mount_with_readonly mp t src fl ro v with inr v' => v' | inl _ => v end
  | Umount mp => (umount mp v).1
  end.
Definition run (os : list op) (v : VfsUnified) : VfsUnified := foldl (fun v o => exec o v) v os.
(** What is mounted: a map from mount points. *)
Abbreviation MountMap := (gmap (list Z) VfsMountEntry).
Definition s_mount (mp : path) (t : VfsFsType) (src : path) (fl : VfsMountFlags) (ro : bool) (m : MountMap) : MountMap :=
  match validate_path mp with
  | inr _ => if ro || m_write (build_feature_matrix t false) then <[normalize_vfs_path mp := mkMount (normalize_vfs_path mp) t src fl ro (build_feature_matrix t ro)]> m else m
  | inl _ => m
  end.
Definition s_exec (o : op) (m : MountMap) : MountMap :=
  match o with
  | Mount mp t src fl => s_mount mp t src fl ((noexec fl && nosuid fl) || negb (m_write (build_feature_matrix t false))) m
  | MountRo mp t src fl ro => s_mount mp t src fl ro m
  | Umount mp => delete (normalize_vfs_path mp) m
  end.
Definition s_run (os : list op) (m : MountMap) : MountMap := foldl (fun m o => s_exec o m) m os.
(** The table holds what the map holds, and the counter never runs below it. *)
Definition holds (v : VfsUnified) (m : MountMap) : Prop :=
  wf v /\ Z.of_nat (length (mount_table v)) <= fs_count v < u64_mod /\ forall k e, m !! k = Some e <-> e ∈ mount_table v /\ mount_point e = k.
Lemma holds_insert e v m : holds v m -> canonical (mount_point e) -> fs_count v + 1 < u64_mod ->
  holds (mkVfs (table_insert e (mount_table v)) (u64_add (fs_count v) 1)) (<[mount_point e := e]> m).
Proof.
  intros ([Hs Hc] & Hn & Hm) He Hb. split; [|split]; cbn [mount_table fs_count].
  - split; cbn; [by apply insert_sorted|]. intros x [->|[Hx _]]%insert_elem; eauto.
  - pose proof (insert_length e _ Hs). rewrite u64_add_small by lia. lia.
  - intros k x. rewrite insert_elem by done. destruct (decide (k = mount_point e)) as [->|Hk].
    + rewrite lookup_insert_eq. naive_solver.
    + rewrite lookup_insert_ne by done. rewrite Hm. naive_solver.
Qed.
Lemma gate_spec t ro : enforce_mount_gates (build_feature_matrix t ro) ro = if ro || m_write (build_feature_matrix t false) then inr tt else inl ReadOnlyFs.
Proof. by destruct t, ro. Qed.
Lemma holds_mount mp t src fl ro v m : holds v m -> fs_count v + 1 < u64_mod ->
  holds (match mount_with_readonly mp t src fl ro v with inr v' => v' | inl _ => v end) (s_mount mp t src fl ro m).
Proof.
  intros Hh Hb. unfold mount_with_readonly, s_mount. destruct (validate_path mp) as [|[]]; [done|]. rewrite gate_spec. destruct (ro || _); [|done].
  by apply (holds_insert (mkMount _ _ _ _ _ _)); [|apply normalize_is_canonical|].
Qed.
Lemma mount_found v m k : holds v m -> existsb (fun e => bool_decide (mount_point e = k)) (mount_table v) = bool_decide (is_Some (m !! k)).
Proof.
  intros (_ & _ & Hm). apply eq_bool_prop_intro. rewrite Is_true_true, existsb_exists, bool_decide_spec. split.
  - intros (e & He & Hk). apply bool_decide_eq_true in Hk. exists e. apply Hm. split; [by apply list_elem_of_In|done].
  - intros [e [He Hk]%Hm]. exists e. split; [by apply list_elem_of_In|by apply bool_decide_eq_true].
Qed.
Lemma holds_umount mp v m : holds v m -> holds (umount mp v).1 (delete (normalize_vfs_path mp) m) /\ (umount mp v).2 = bool_decide (is_Some (m !! normalize_vfs_path mp)).
Proof.
  intros Hh. unfold umount. set (k := normalize_vfs_path mp). rewrite (mount_found v m k Hh). case_bool_decide as Hk; (split; [|done]); cbn [fst].
  - destruct Hh as ([Hs Hc] & Hn & Hm). destruct Hk as [e Hk]. apply Hm in Hk as [He Hk]. assert (length (filter (fun x => mount_point x <> k) (mount_table v)) < length (mount_table v))%nat as Hl.
    { apply length_filter_lt with e; [done|]. intros H. done. }
    split; [|split]; cbn [mount_table fs_count].
    + split; cbn; [by apply filter_sorted|]. intros x [_ Hx]%list_elem_of_filter. eauto.
    + rewrite u64_sub_small by lia. lia.
    + intros k' x. rewrite list_elem_of_filter, lookup_delete_Some, Hm. naive_solver.
  - rewrite delete_id; [done|]. by apply eq_None_not_Some.
Qed.
Lemma holds_exec o v m : holds v m -> fs_count v + 1 < u64_mod -> holds (exec o v) (s_exec o m).
Proof. intros Hh Hb. destruct o; cbn [exec s_exec]; [by apply holds_mount|by apply holds_mount|by apply holds_umount]. Qed.
Lemma exec_count o v m : holds v m -> fs_count v + 1 < u64_mod -> fs_count (exec o v) <= fs_count v + 1.
Proof.
  intros (_ & Hn & _) Hb. assert (forall mp t src fl ro, fs_count (match mount_with_readonly mp t src fl ro v with inr v' => v' | inl _ => v end) <= fs_count v + 1) as Hmount.
  { intros mp t src fl ro. unfold mount_with_readonly. repeat case_match; simplify_eq; cbn; try lia. rewrite u64_add_small by lia. lia. }
  destruct o; cbn [exec]; [apply Hmount|apply Hmount|]. unfold umount. destruct (existsb _ _) eqn:E; cbn [fst fs_count]; [|lia].
  apply existsb_exists in E as (e & He & _). destruct (mount_table v); [done|]. cbn in Hn. rewrite u64_sub_small by lia. lia.
Qed.
Lemma holds_run os v m : holds v m -> fs_count v + Z.of_nat (length os) < u64_mod -> holds (run os v) (s_run os m).
Proof.
  revert v m. induction os as [|o os IH]; intros v m Hh Hb; [done|]. cbn [length] in Hb. apply (IH (exec o v) (s_exec o m)); [apply holds_exec; [done|lia]|].
  pose proof (exec_count o v m Hh ltac:(lia)). lia.
Qed.
Lemma holds_new : holds new ∅.
Proof. split; [split; [constructor|by intros e ?%elem_of_nil]|]. split; [done|]. intros k e. rewrite lookup_empty. cbn. rewrite elem_of_nil. naive_solver. Qed.

(** The mount found is the innermost one above the path. *)
Lemma resolve_fs_spec v p : wf v ->
  match resolve_fs v p with
  | Some e => e ∈ mount_table v /\ exists ms k, mount_point e = canon ms /\ components_of p = ms ++ k /\
      relative_mount_path (mount_point e) (normalize_vfs_path p) = canon k /\
      forall e' ms', e' ∈ mount_table v -> Forall proper ms' -> mount_point e' = canon ms' -> ms' `prefix_of` components_of p -> ms' `prefix_of` ms
  | None => forall e ms, e ∈ mount_table v -> Forall proper ms -> mount_point e = canon ms -> ~ ms `prefix_of` components_of p
  end.
Proof.
  intros [_ Hc]. rewrite resolve_fs_scan, normalize_canon. pose proof (components_proper p) as Hp. set (cs := components_of p) in *.
  destruct (scan_ok (canon cs) (mount_table v)) as [H1 H2]. destruct (foldl _ _ _) as [[e|] n]; cbn [fst snd] in *.
  - destruct H2 as (He & Hm & ->). split; [done|]. destruct (Hc e He) as (ms & Hms & E). rewrite E in Hm. apply matches_prefix in Hm as [k Hk]; [|done|done].
    exists ms, k. rewrite E, Hk. split; [done|]. split; [done|]. split; [apply relative_rest; by rewrite <-Hk|]. intros e' ms' He' Hp' E' Hpre.
    destruct (prefix_weak_total ms ms' (ms ++ k)) as [[k' ->]|]; [by exists k|done| |done]. specialize (H1 e' He'). rewrite E', E, matches_prefix, Hk in H1 by done. specialize (H1 Hpre).
    destruct (decide (k' = [])) as [->|Hn]; [by rewrite app_nil_r|]. pose proof (canon_longer ms k' Hp' Hn). lia.
  - intros e ms He Hms E Hpre. specialize (H1 e He). rewrite E, matches_prefix in H1 by done. specialize (H1 Hpre). subst n. by destruct ms; cbn in H1; lia.
Qed.
(** C21: Mounting and unmounting keep a map from normalised mount points: after any
    history the table holds exactly what was mounted last at each point and not
    unmounted (attempts with an invalid path, or writable on a read-only back
    end, change nothing), and the file system that answers for a path is that of
    the innermost mount point above it, which sees the rest of the path. *)
Theorem mounts_refine os p : Z.of_nat (length os) < u64_mod ->
  let v := run os new in
  (forall k e, s_run os ∅ !! k = Some e <-> e ∈ mount_table v /\ mount_point e = k) /\
  Z.of_nat (length (mount_table v)) <= fs_count v /\
  match resolve_fs v p with
  | Some e => s_run os ∅ !! mount_point e = Some e /\ exists ms k, mount_point e = canon ms /\ components_of p = ms ++ k /\
      relative_mount_path (mount_point e) (normalize_vfs_path p) = canon k /\
      forall ms', Forall proper ms' -> is_Some (s_run os ∅ !! canon ms') -> ms' `prefix_of` components_of p -> ms' `prefix_of` ms
  | None => forall ms, Forall proper ms -> is_Some (s_run os ∅ !! canon ms) -> ~ ms `prefix_of` components_of p
  end.
Proof.
  intros Hb v. destruct (holds_run os new ∅ holds_new Hb) as (Hw & Hn & Hm). fold v in Hw, Hn, Hm. split; [done|]. split; [lia|].
  pose proof (resolve_fs_spec v p Hw) as Hr. destruct (resolve_fs v p) as [e|].
  - destruct Hr as (He & ms & k & E & Hk & Hrel & Hmax). split; [by apply Hm|]. exists ms, k. do 3 (split; [done|]). intros ms' Hp [e' [He' E']%Hm]. by apply (Hmax e').
  - intros ms Hp [e [He E]%Hm]. by apply (Hr e).
Qed.

(** ** Resolution *)
Section Resolution.
Context (lookup_component : Z -> path -> path -> Z + VfsFileInfo) (readlink : path -> Z + list Z) (follow_final : bool).
Local Abbreviation walk := (walk lookup_component readlink follow_final).
Local Abbreviation resolve_inner := (resolve_inner lookup_component readlink follow_final).
Local Abbreviation resolve := (resolve lookup_component readlink follow_final).
(** Walking the components without ever following a link: every component but
    the last is found and is no link, the last one may be one if links are not
    followed there.  The calls that cache what was found, and the last entry. *)
Fixpoint direct (pre : list path) (ino : Z) (cs : list path) : option (list CacheCall * VfsFileInfo) :=
  match cs with
  | [] => None
  | c :: cs' =>
      match lookup_component ino (canon pre) c with
      | inl _ => None
      | inr i =>
          if is_symlink i && (follow_final || negb (bool_decide (cs' = []))) then None
          else match cs' with
          | [] => Some ([(ino, c, i)], i)
          | _ => match direct (pre ++ [c]) (inode i) cs' with Some (log, r) => Some ((ino, c, i) :: log, r) | None => None end
          end
      end
  end.
Lemma proper_snoc cs c : Forall proper cs -> proper c -> Forall proper (cs ++ [c]).
Proof. intros Hcs Hc. apply Forall_app. split; [done|by constructor]. Qed.
Lemma walk_direct cs : forall pre depth ino li log log' i, Forall proper pre -> Forall proper cs -> direct pre ino cs = Some (log', i) ->
  walk depth cs (canon pre) ino li log = (log ++ log', Done (inr (mkResolved (canon (pre ++ cs)) i))).
Proof.
  induction cs as [|c cs IH]; intros pre depth ino li log log' i Hp Hcs Hd; [done|]. apply Forall_cons in Hcs as [Hc Hcs]. cbn [direct Namei.walk] in *.
  destruct (lookup_component ino (canon pre) c) as [|j]; [done|]. destruct (is_symlink j && _); [done|]. rewrite canon_app by done. destruct cs as [|c' cs].
  - injection Hd as <- <-. done.
  - destruct (direct (pre ++ [c]) (inode j) (c' :: cs)) as [[l r]|] eqn:E; [|done]. injection Hd as <- <-.
    rewrite (IH (pre ++ [c]) depth _ _ _ l r) by (done || by apply proper_snoc). by rewrite <-!app_assoc.
Qed.
Lemma walk_sound cs : forall pre depth ino li log log2 r, Forall proper pre -> Forall proper cs -> cs <> [] ->
  walk depth cs (canon pre) ino li log = (log2, Done (inr r)) ->
  resolved_path r = canon (pre ++ cs) /\ exists log', log2 = log ++ log' /\ direct pre ino cs = Some (log', info r).
Proof.
  induction cs as [|c cs IH]; intros pre depth ino li log log2 r Hp Hcs Hn; [done|]. apply Forall_cons in Hcs as [Hc Hcs]. cbn [direct Namei.walk].
  destruct (lookup_component ino (canon pre) c) as [|j]; [done|]. destruct (is_symlink j && _); [by repeat case_match|]. rewrite canon_app by done. destruct cs as [|c' cs].
  - intros [= <- <-]. split; [done|]. by exists [(ino, c, j)].
  - intros H. apply (IH (pre ++ [c])) in H as (H1 & log' & -> & ->); [|by apply proper_snoc|done|done].
    split; [by rewrite <-app_assoc in H1|]. exists ((ino, c, j) :: log'). by rewrite <-app_assoc.
Qed.
Lemma walk_follow cs : forall depth cur ino li log log' p, walk depth cs cur ino li log = (log', Follow p) -> (depth < MAXSYMLINKS)%nat.
Proof.
  induction cs as [|c cs IH]; intros depth cur ino li log log' p; cbn [Namei.walk]; [done|]. destruct (lookup_component ino cur c); [done|].
  destruct (is_symlink _ && _); [|apply IH]. destruct (Nat.leb_spec MAXSYMLINKS depth); [done|done].
Qed.
Lemma inner_fuel f : forall g depth p log, (MAXSYMLINKS < f + depth)%nat -> (MAXSYMLINKS < g + depth)%nat -> (depth <= MAXSYMLINKS)%nat ->
  resolve_inner f depth p log = resolve_inner g depth p log.
Proof.
  induction f as [|f IH]; intros [|g] depth p log Hf Hg Hd; [lia|lia|lia|]. cbn [Namei.resolve_inner]. case_bool_decide; [done|].
  destruct (walk depth _ ROOT 0 None log) as [log' [r|p']] eqn:E; [done|]. apply walk_follow in E. apply IH; lia.
Qed.
(** Resolution of the path [canon cs] without links. *)
Definition reaches (cs : list path) (i : VfsFileInfo) : Prop :=
  match cs with [] => lookup_component 0 [] ROOT = inr i | _ => snd <$> direct [] 0 cs = Some i end.
Lemma inner_sound f : forall depth p log log' r, resolve_inner f depth p log = (log', inr r) ->
  exists cs, Forall proper cs /\ resolved_path r = canon cs /\ reaches cs (info r).
Proof.
  induction f as [|f IH]; intros depth p log log' r; cbn [Namei.resolve_inner]; [done|]. rewrite normalize_canon. pose proof (components_proper p) as Hp. case_bool_decide as E.
  - rewrite canon_root in E by done. rewrite E. destruct (lookup_component 0 [] ROOT) as [|i] eqn:El; [done|]. intros [= _ <-]. by exists [].
  - rewrite canon_root in E by done. rewrite split_components_canon by done. change ROOT with (canon []).
    destruct (walk depth (components_of p) (canon []) 0 None log) as [log2 [[|x]|p']] eqn:Ew; [done| |apply IH].
    intros [= -> ->]. apply walk_sound in Ew as (H1 & l & _ & H2); [|done|done|done]. exists (components_of p). split; [done|]. split; [done|].
    unfold reaches. rewrite H2. by destruct (components_of p).
Qed.
Lemma inner_complete f depth log cs i : Forall proper cs -> reaches cs i ->
  exists log', resolve_inner (S f) depth (canon cs) log = (log', inr (mkResolved (canon cs) i)).
Proof.
  intros Hp Hr. cbn [Namei.resolve_inner]. rewrite normalize_fixed by done. case_bool_decide as E.
  - rewrite canon_root in E by done. subst cs. cbn in Hr. rewrite Hr. eauto.
  - rewrite canon_root in E by done. rewrite split_components_canon by done. change ROOT with (canon []).
    assert (exists l, direct [] 0 cs = Some (l, i)) as [l Hd] by (unfold reaches in Hr; destruct cs; [done|]; destruct (direct _ _ _) as [[l j]|]; [injection Hr as <-; eauto|done]).
    rewrite (walk_direct cs [] depth 0 None log l i) by done. eauto.
Qed.
End Resolution.

(** C20: The answer of a resolution: the path is canonical and, walked from the root,
    reaches the file found without meeting a link (but for a final one if it is
    not followed).  So resolving it again gives the same answer, and a path that
    can be walked without links resolves to itself. *)
Theorem resolve_sound lookup_component readlink follow_final p r : (resolve lookup_component readlink follow_final p).2 = inr r ->
  (exists cs, Forall proper cs /\ resolved_path r = canon cs /\ reaches lookup_component follow_final cs (info r)) /\
  (resolve lookup_component readlink follow_final (resolved_path r)).2 = inr r /\
  forall cs i, Forall proper cs -> reaches lookup_component follow_final cs i -> (resolve lookup_component readlink follow_final (canon cs)).2 = inr (mkResolved (canon cs) i).
Proof.
  intros H. assert (forall cs i, Forall proper cs -> reaches lookup_component follow_final cs i -> (resolve lookup_component readlink follow_final (canon cs)).2 = inr (mkResolved (canon cs) i)) as Hc.
  { intros cs i Hp Hr. unfold resolve. destruct (inner_complete lookup_component readlink follow_final MAXSYMLINKS 0 [] cs i Hp Hr) as (l & ->). done. }
  unfold resolve in H. destruct (resolve_inner _ _ _ _ _ _ _) as [l x] eqn:E. cbn in H. subst x. destruct (inner_sound _ _ _ _ _ _ _ _ _ E) as (cs & Hp & Hr & Hd).
  split; [by exists cs|]. split; [|done]. rewrite Hr, (Hc cs (info r)) by done. destruct r. cbn in *. by subst.
Qed.
(** Resolution ends: after forty links the next one is refused, so more fuel
    never changes the answer, whatever the links are. *)
Theorem resolve_terminates lookup_component readlink follow_final p f : (MAXSYMLINKS < f)%nat ->
  resolve_inner lookup_component readlink follow_final f 0 p [] = resolve lookup_component readlink follow_final p.
Proof. intros Hf. apply inner_fuel; unfold MAXSYMLINKS in *; lia. Qed.

(** ** Caching what was found *)
Lemma alloc_count e d d' o : Dcache.wf d -> Dcache.alloc e d = Some (d', o) -> Dcache.count d < Dcache.DCACHE_MAX_ENTRIES -> Dcache.count d' <= Dcache.count d + 1.
Proof. intros Hw. pose proof (Dcache.wf_count _ Hw). unfold Dcache.alloc. intros H0 Hc. replace (Dcache.DCACHE_MAX_ENTRIES <=? Dcache.count d) with false in H0 by lia. simplify_eq. cbn. rewrite u64_add_small; unfold Dcache.DCACHE_MAX_ENTRIES, u64_mod in *; lia. Qed.
Lemma s_lookup_grow k e m o : Dcache.s_lookup k m = Some o -> Dcache.s_lookup k (m ++ [e]) = Some o.
Proof. unfold Dcache.s_lookup. induction m as [|x m IH]; cbn [find app]; [done|]. by destruct (Dcache.has_key k x). Qed.
Definition call_key (c : CacheCall) : Dcache.Key := (c.1.1, c.1.2).
Definition named (c : CacheCall) : Prop := c.1.2 <> [] /\ c.1.2 <> ROOT.
Lemma cache_one_ok c d m : named c -> Dcache.refines d m -> Dcache.count d < Dcache.DCACHE_MAX_ENTRIES ->
  exists d' m', cache_one c d = Some d' /\ Dcache.refines d' m' /\ Dcache.count d' <= Dcache.count d + 1 /\
    (forall k o, Dcache.s_lookup k m = Some o -> Dcache.s_lookup k m' = Some o) /\ is_Some (Dcache.s_lookup (call_key c) m').
Proof.
  destruct c as [[ino name] i]. intros [Hn1 Hn2] Hr Hc. cbn in Hn1, Hn2. unfold cache_one, call_key. cbn [fst snd]. rewrite !bool_decide_false by done. cbn [orb].
  destruct (Dcache.lookup_refines (ino, name) d m Hr) as (d1 & E & Hr1). rewrite E. destruct (Dcache.lookup_frame _ _ _ _ E) as (_ & _ & Hc1).
  destruct (Dcache.s_lookup (ino, name) m) as [o|] eqn:Es; [exists d1, m; rewrite Es; eauto with lia|].
  set (e := Dcache.mkDentry _ _ _ _ _ _ _ _ _). destruct (Dcache.alloc_refines e d1 m Hr1 ltac:(lia)) as (d2 & Ea & Hr2). rewrite Ea.
  exists d2, (m ++ [(Dcache.key_of e, Dcache.next_object d1)]). pose proof (alloc_count _ _ _ _ (proj1 Hr1) Ea ltac:(lia)). split; [done|]. split; [done|]. split; [lia|]. split; [intros; by apply s_lookup_grow|].
  exists (Dcache.next_object d1). by apply Dcache.s_lookup_app.
Qed.
Lemma cache_all_ok calls : forall d m, Forall named calls -> Dcache.refines d m -> Dcache.count d + Z.of_nat (length calls) <= Dcache.DCACHE_MAX_ENTRIES ->
  exists d' m', cache_all calls d = Some d' /\ Dcache.refines d' m' /\ (forall k o, Dcache.s_lookup k m = Some o -> Dcache.s_lookup k m' = Some o) /\
    forall c, c ∈ calls -> is_Some (Dcache.s_lookup (call_key c) m').
Proof.
  induction calls as [|c calls IH]; intros d m Hn Hr Hc; [exists d, m; split; [done|]; split; [done|]; split; [done|]; by intros c ?%elem_of_nil|]. apply Forall_cons in Hn as [Hc1 Hn]. cbn [length] in Hc.
  destruct (cache_one_ok c d m Hc1 Hr ltac:(lia)) as (d1 & m1 & E1 & Hr1 & Hcd & Hk1 & [o Ho]). destruct (IH d1 m1 Hn Hr1 ltac:(lia)) as (d' & m' & E' & Hr' & Hk' & Hall).
  exists d', m'. unfold cache_all. cbn [foldl]. change (Some d ≫= cache_one c) with (cache_one c d). rewrite E1. split; [done|]. split; [done|]. split; [by eauto|]. intros x [->|Hx]%elem_of_cons; [|by apply Hall]. exists o. by apply Hk'.
Qed.
(** Every call that a walk makes names a component of its path. *)
Section Calls.
Context (lookup_component : Z -> path -> path -> Z + VfsFileInfo) (readlink : path -> Z + list Z) (follow_final : bool).
Lemma walk_named cs : forall depth cur ino li log, Forall proper cs -> Forall named log -> Forall named (walk lookup_component readlink follow_final depth cs cur ino li log).1.
Proof.
  induction cs as [|c cs IH]; intros depth cur ino li log Hcs Hl; [done|]. apply Forall_cons in Hcs as [Hc Hcs]. cbn [walk]. destruct (lookup_component ino cur c) as [|i]; [done|].
  destruct (is_symlink i && _); [by repeat case_match|]. apply IH; [done|]. apply Forall_app. split; [done|]. constructor; [|done]. destruct Hc as (H1 & _ & _ & Hf). split; cbn; [done|].
  intros ->. by apply Forall_cons in Hf as [Hf _].
Qed.
Lemma inner_named f : forall depth p log, Forall named log -> Forall named (resolve_inner lookup_component readlink follow_final f depth p log).1.
Proof.
  induction f as [|f IH]; intros depth p log Hl; [done|]. cbn [resolve_inner]. rewrite normalize_canon. pose proof (components_proper p) as Hp. case_bool_decide as E; [done|].
  rewrite canon_root in E by done. rewrite split_components_canon by done. pose proof (walk_named (components_of p) depth ROOT 0 None log Hp Hl) as Hw.
  destruct (walk _ _ _ _ _ _ _ _ _) as [log' [r|p']]; [done|]. by apply IH.
Qed.
End Calls.
(** Resolution fills the dentry cache: with room for the components it walks, no
    insertion panics, what was cached stays, and afterwards every component that
    was found on the way, also before a link was followed or an error met, is in
    the cache under its directory and name. *)
Theorem resolve_cached lookup_component readlink follow_final p d m log r : resolve lookup_component readlink follow_final p = (log, r) ->
  Dcache.refines d m -> Dcache.count d + Z.of_nat (length log) <= Dcache.DCACHE_MAX_ENTRIES ->
  exists d' m', cache_all log d = Some d' /\ Dcache.refines d' m' /\ (forall k o, Dcache.s_lookup k m = Some o -> Dcache.s_lookup k m' = Some o) /\
    forall c, c ∈ log -> exists o, Dcache.s_lookup (call_key c) m' = Some o.
Proof.
  intros E Hr Hc. pose proof (inner_named lookup_component readlink follow_final (S MAXSYMLINKS) 0 p [] ltac:(constructor)) as Hn. unfold resolve in E. rewrite E in Hn.
  by apply cache_all_ok.
Qed.

(** ** A small tree *)
Module Tree.
Definition inf (n m : Z) : VfsFileInfo := mkInfo n 0 m 1 0 0 TmpFs 4096 0.
Definition a : path := [97].
Definition b : path := [98].
Definition l : path := [108].
(** Directory [/a] holds the file [b] and the link [l] to [../a]; [/l] is a link to itself, [/b] a socket. *)
Definition lookup (ino : Z) (dir c : path) : Z + VfsFileInfo :=
  if bool_decide (c = ROOT) then inr (inf 1 0x41ED)
  else if bool_decide (dir = ROOT) then (if bool_decide (c = a) then inr (inf 2 0x41ED) else if bool_decide (c = l) then inr (inf 4 0xA1FF) else if bool_decide (c = b) then inr (inf 5 0xC1ED) else inl 2)
  else if bool_decide (dir = SLASH :: a) then (if bool_decide (c = b) then inr (inf 3 0x81A4) else if bool_decide (c = l) then inr (inf 6 0xA1FF) else inl 2)
  else inl 20.
Definition readlink (p : path) : Z + list Z := if bool_decide (p = SLASH :: l) then inr l else inr (DOTDOT ++ SLASH :: a).
End Tree.
(** A link is followed in the directory it is in. *)
Example follow_relative : (resolve Tree.lookup Tree.readlink true (join_components [Tree.a; Tree.l; Tree.b])).2 = inr (mkResolved (join_components [Tree.a; Tree.b]) (Tree.inf 3 0x81A4)).
Proof. vm_compute. done. Qed.
(** A link to itself is refused after forty steps. *)
Example self_link : (resolve Tree.lookup Tree.readlink true (SLASH :: Tree.l)).2 = inl TooManyLinks.
Proof. vm_compute. done. Qed.
(** [..] after a link leads to the parent of the link, not of the directory the
    link leads to: it is removed with the link's name before any lookup. *)
Example dotdot_is_lexical readlink : (resolve Tree.lookup readlink true (join_components [Tree.l; DOTDOT; Tree.a])).2 = inr (mkResolved (SLASH :: Tree.a) (Tree.inf 2 0x41ED)).
Proof. vm_compute. done. Qed.
(** A socket is cached as a directory. *)
Example socket_cached_as_dir : (d ← cache_all (resolve Tree.lookup Tree.readlink true (SLASH :: Tree.b)).1 Dcache.new; Dcache.is_dir <$> Dcache.objects d !! 0) = Some true.
Proof. vm_compute. done. Qed.
(** Mounting over a mount point counts it twice. *)
Example remount_counts_twice :
  let o := Mount (SLASH :: Tree.a) TmpFs [] (mkFlags false false false false false) in
  let v := run [o; o] new in length (mount_table v) = 1%nat /\ fs_count v = 2.
Proof. vm_compute. done. Qed.

(** ** Witnesses *)
Lemma mounts_refine_witness :
  let os := [Mount ROOT Ext4 [] (mkFlags false false false false false); Mount (SLASH :: Tree.a) TmpFs [] (mkFlags true true false false false); Mount (SLASH :: Tree.b) Xfs [] (mkFlags false false false false false); Umount (SLASH :: Tree.b)] in
  (mount_point <$> resolve_fs (run os new) (join_components [Tree.a; Tree.b])) = Some (SLASH :: Tree.a) /\ Z.of_nat (length (mount_table (run os new))) <= fs_count (run os new).
Proof.
  split; [reflexivity|]. apply (mounts_refine [Mount ROOT Ext4 [] (mkFlags false false false false false); Mount (SLASH :: Tree.a) TmpFs [] (mkFlags true true false false false);
    Mount (SLASH :: Tree.b) Xfs [] (mkFlags false false false false false); Umount (SLASH :: Tree.b)] []). reflexivity.
Defined.
Lemma resolve_sound_witness : (resolve Tree.lookup Tree.readlink true (join_components [Tree.a; Tree.b])).2 = inr (mkResolved (join_components [Tree.a; Tree.b]) (Tree.inf 3 0x81A4)).
Proof. apply (resolve_sound Tree.lookup Tree.readlink true (join_components [Tree.a; Tree.l; Tree.b]) (mkResolved (join_components [Tree.a; Tree.b]) (Tree.inf 3 0x81A4))). reflexivity. Defined.
Lemma resolve_terminates_witness : resolve_inner Tree.lookup Tree.readlink true 100 0 (SLASH :: Tree.l) [] = resolve Tree.lookup Tree.readlink true (SLASH :: Tree.l).
Proof. apply (resolve_terminates Tree.lookup Tree.readlink true (SLASH :: Tree.l) 100). unfold MAXSYMLINKS. lia. Defined.
Lemma resolve_cached_witness : exists d', cache_all [(0, Tree.a, Tree.inf 2 0x41ED); (0, Tree.a, Tree.inf 2 0x41ED); (2, Tree.b, Tree.inf 3 0x81A4)] Dcache.new = Some d'.
Proof.
  edestruct (resolve_cached Tree.lookup Tree.readlink true (join_components [Tree.a; Tree.l; Tree.b]) Dcache.new []) as (d' & m' & H & _); [reflexivity| |vm_compute; congruence|exists d'; exact H].
  split; [|done]. split; cbn; try done.
Defined.
End Namei.
