(* ===== verification/Vma.v ===== *)
(** * Virtual memory areas

    Models [src/src/memory/vma.rs]: the map of an address space from intervals
    of addresses to their attributes, a skip list of raw pointers whose links
    carry lock and deletion flags in their low bits; and the reader of
    [memory/cils.rs].

    Nodes live in a heap from addresses (multiples of four) to nodes; following
    a null or freed pointer is [None], and so is a loop that runs out of fuel.
    Writers are serialised by the lock of the address space, so an operation runs
    alone: a compare-exchange loop succeeds at its first turn.  The random
    heights come from the counter of [random_u32_bounded], which is part of the
    state.  A walk gets the number of nodes of the heap plus one as fuel.

    [vma_map_refines]: over every history of insertions, removals and changes of
    flags no pointer is followed that is null or freed, every walk ends, and the
    map is the list of areas of a reference on lists; [insert_effect]: when an
    insertion succeeds and what lookups see after it.  The examples at the end
    show what removal, changes of flags and overlap tests do to several areas.

    Not modelled: interleavings of several writers (the lock flags they would
    meet are modelled, and [lock_held_twice] shows what they do not exclude), and
    the grace periods before [reclaim_retired]. *)
From S2P Require Import Prelude.

Module Vma.

Definition MAX_HEIGHT : nat := 16.
Definition FRACTION_NUM : Z := 1.
Definition FRACTION_DEN : Z := 2.
Definition LOCKED : Z := 1.
Definition INVALIDATED : Z := 2.
Definition ptr_with_flag (p flag : Z) : Z := Z.lor p flag.
Definition flag_of (p : Z) : Z := Z.land p 3.
Definition ptr_strip (p : Z) : Z := Z.ldiff p 3.
Definition is_locked (p : Z) : bool := negb (Z.land (flag_of p) LOCKED =? 0).
Definition is_invalidated (p : Z) : bool := negb (Z.land (flag_of p) INVALIDATED =? 0).

Inductive VmaKind :=
  | Anonymous (id : Z)
  | Image (seg_start file_offset file_size : Z)
  | File (file_inode file_offset file_size : Z).
Record Vma := mkVma { vstart : Z; vend : Z; vflags : Z; kind : VmaKind; cow : bool; shared : bool; locked : bool }.
Definition set_range (s e : Z) (v : Vma) : Vma := mkVma s e (vflags v) (kind v) (cow v) (shared v) (locked v).
Definition set_flags (f : Z) (v : Vma) : Vma := mkVma (vstart v) (vend v) f (kind v) (cow v) (shared v) (locked v).
Definition kind_anonymous_id (v : Vma) : option Z := match kind v with Anonymous id => Some id | _ => None end.
Definition is_file (v : Vma) : bool := match kind v with File _ _ _ => true | _ => false end.
Definition is_image (v : Vma) : bool := match kind v with Image _ _ _ => true | _ => false end.
Definition can_merge_with (self other : Vma) : bool :=
  if negb (vend self =? vstart other) then false
  else if negb (vflags self =? vflags other) || negb (eqb (cow self) (cow other)) || negb (eqb (shared self) (shared other)) || negb (eqb (locked self) (locked other)) then false
  else
    let expected_off lo := Z.min u64_max (lo + sat_sub (vend self) (vstart self)) in
    match kind self, kind other with
    | Anonymous lid, Anonymous rid => lid =? rid
    | Image ls lo _, Image rs ro _ => (ls =? rs) && (ro =? expected_off lo)
    | File li lo _, File ri ro _ => (li =? ri) && (ro =? expected_off lo)
    | _, _ => false
    end.
(** The area that replaces [a] and its neighbour [b]. *)
Definition merged_vma (a b : Vma) : Vma := mkVma (vstart a) (vend b) (vflags a) (kind a) (cow a && cow b) (shared a && shared b) (locked a && locked b).

Record Node := mkNode { nstart : Z; nend : Z; vma : Vma; nheight : nat; next : list Z }.
Record VmaMap := mkMap { heap : gmap Z Node; height : nat; len : Z; retired : list Z; fresh : Z; seed : Z }.
(** The sentinel's address: it is allocated with the map and never freed. *)
Definition HEAD : Z := 4.
Definition no_links : list Z := replicate MAX_HEIGHT 0.
Definition new (sd : Z) : VmaMap :=
  mkMap {[ HEAD := mkNode 0 0 (mkVma 0 0 0 (Anonymous 0) false false false) MAX_HEIGHT no_links ]} 1 0 [] 8 sd.
Definition set_heap (h : gmap Z Node) (m : VmaMap) : VmaMap := mkMap h (height m) (len m) (retired m) (fresh m) (seed m).
Definition set_height (h : nat) (m : VmaMap) : VmaMap := mkMap (heap m) h (len m) (retired m) (fresh m) (seed m).
Definition set_len (n : Z) (m : VmaMap) : VmaMap := mkMap (heap m) (height m) n (retired m) (fresh m) (seed m).
Definition set_retired (l : list Z) (m : VmaMap) : VmaMap := mkMap (heap m) (height m) (len m) l (fresh m) (seed m).
Definition set_links (l : list Z) (n : Node) : Node := mkNode (nstart n) (nend n) (vma n) (nheight n) l.
Definition node_new (v : Vma) (h : nat) (m : VmaMap) : VmaMap * Z :=
  (mkMap (<[fresh m := mkNode (vstart v) (vend v) v h no_links]> (heap m)) (height m) (len m) (retired m) (fresh m + 4) (seed m), fresh m).
Definition free_node (p : Z) (m : VmaMap) : VmaMap := set_heap (delete p (heap m)) m.
Definition is_empty (m : VmaMap) : bool := len m =? 0.
Definition push_retired (p : Z) (m : VmaMap) : VmaMap := if p =? 0 then m else set_retired (retired m ++ [p]) m.
Definition drain_retired (m : VmaMap) : VmaMap * list Z := (set_retired [] m, retired m).

(** ** Links *)
Definition deref (p : Z) (m : VmaMap) : option Node := heap m !! p.
Definition next_raw (p : Z) (i : nat) (m : VmaMap) : option Z := n ← deref p m; next n !! i.
Definition next_ptr (p : Z) (i : nat) (m : VmaMap) : option Z := ptr_strip <$> next_raw p i m.
Definition set_next (p : Z) (i : nat) (w : Z) (m : VmaMap) : option VmaMap :=
  n ← deref p m; if (i <? length (next n))%nat then Some (set_heap (<[p := set_links (<[i := w]> (next n)) n]> (heap m)) m) else None.
Definition cas_next (p : Z) (i : nat) (old new : Z) (m : VmaMap) : option (VmaMap * bool) :=
  raw ← next_raw p i m; if raw =? old then m' ← set_next p i new m; Some (m', true) else Some (m, false).
(** [loop { raw = load; if cas(raw, f(raw)) break }], alone. *)
Definition update_next (p : Z) (i : nat) (f : Z -> Z) (m : VmaMap) : option VmaMap := raw ← next_raw p i m; '(m', ok) ← cas_next p i raw (f raw) m; if ok : bool then Some m' else None.
Definition walk_fuel (m : VmaMap) : nat := S (size (heap m)).

(** ** Random heights *)
Definition random_u32_bounded (bound : Z) (m : VmaMap) : VmaMap * Z :=
  let old := seed m in
  let golden := 0x9e3779b97f4a7c15 in
  let z := u64_add old golden in
  let z := u64_mul (Z.lxor z (Z.shiftr z 30)) 0xbf58476d1ce4e5b9 in
  let z := u64_mul (Z.lxor z (Z.shiftr z 27)) 0x94d049bb133111eb in
  let z := Z.lxor z (Z.shiftr z 31) in
  (mkMap (heap m) (height m) (len m) (retired m) (fresh m) (u64_add old golden), (z mod u32_mod) mod bound).
Fixpoint height_loop (fuel : nat) (h : nat) (m : VmaMap) : VmaMap * nat :=
  match fuel with
  | O => (m, h)
  | S f => let '(m, r) := random_u32_bounded FRACTION_DEN m in if r <? FRACTION_NUM then height_loop f (S h) m else (m, h)
  end.
Definition random_height (m : VmaMap) : VmaMap * nat := height_loop (MAX_HEIGHT - 1) 1 m.
Definition node_random (v : Vma) (m : VmaMap) : VmaMap * Z := let '(m, h) := random_height m in node_new v h m.

(** ** Searching *)
(** The inner loop of [find_preds]: go on while the next node starts at or before [addr]. *)
Fixpoint advance (fuel : nat) (i : nat) (addr x : Z) (m : VmaMap) : option Z :=
  match fuel with
  | O => None
  | S f =>
      nx ← next_ptr x i m;
      if nx =? 0 then Some x
      else n ← deref nx m; if nstart n <=? addr then advance f i addr nx m else Some x
  end.
(** The levels below [k], from the highest to the lowest; the answer lists them from the lowest. *)
Fixpoint find_levels (k : nat) (addr x : Z) (m : VmaMap) : option (list Z) :=
  match k with
  | O => Some []
  | S i => y ← advance (walk_fuel m) i addr x m; l ← find_levels i addr y m; Some (l ++ [y])
  end.
Definition find_preds (addr : Z) (m : VmaMap) : option (list Z) :=
  l ← find_levels (height m) addr HEAD m; Some (l ++ replicate (MAX_HEIGHT - height m) HEAD).
Definition find (addr : Z) (m : VmaMap) : option (option Vma) :=
  preds ← find_preds addr m;
  node ← preds !! 0%nat;
  if negb (node =? 0) && negb (node =? HEAD) then
    n ← deref node m; Some (if (nstart n <=? addr) && (addr <? nend n) then Some (vma n) else None)
  else Some None.
(** The traversal of [find_vma_cils]: all levels of the sentinel; with no writer
    at work the reader's epoch stays valid. *)
Definition find_vma_cils (addr : Z) (m : VmaMap) : option (option Vma) :=
  preds ← find_levels MAX_HEIGHT addr HEAD m;
  x ← preds !! 0%nat;
  if negb (x =? HEAD) then n ← deref x m; Some (if (nstart n <=? addr) && (addr <? nend n) then Some (vma n) else None) else Some None.
(** The areas from [cur] on, by [next[0]]. *)
Fixpoint collect_from (fuel : nat) (cur : Z) (m : VmaMap) : option (list Vma) :=
  match fuel with
  | O => None
  | S f => if cur =? 0 then Some [] else n ← deref cur m; nx ← next_ptr cur 0 m; l ← collect_from f nx m; Some (vma n :: l)
  end.
Definition collect_all (m : VmaMap) : option (list Vma) := first ← next_ptr HEAD 0 m; collect_from (walk_fuel m) first m.
Definition collect_filtered (f : Vma -> bool) (m : VmaMap) : option (list Vma) := l ← collect_all m; Some (List.filter f l).
Definition find_cow_regions : VmaMap -> option (list Vma) := collect_filtered (fun v => cow v || shared v).
(** The areas from [cur] on that overlap [start, end), up to the first that starts at or after the end. *)
Fixpoint overlapping_from (fuel : nat) (s e cur : Z) (m : VmaMap) : option (list Vma) :=
  match fuel with
  | O => None
  | S f =>
      if cur =? 0 then Some []
      else n ← deref cur m;
        if e <=? nstart n then Some []
        else nx ← next_ptr cur 0 m; l ← overlapping_from f s e nx m; Some (if (s <? nend n) && (nstart n <? e) then vma n :: l else l)
  end.
Definition find_overlapping (s e : Z) (m : VmaMap) : option (list Vma) :=
  if e <=? s then Some []
  else preds ← find_preds s m; pred ← preds !! 0%nat; cur ← next_ptr pred 0 m; overlapping_from (walk_fuel m) s e cur m.
Fixpoint overlaps_from (fuel : nat) (s e cur : Z) (m : VmaMap) : option bool :=
  match fuel with
  | O => None
  | S f =>
      if cur =? 0 then Some false
      else n ← deref cur m;
        if e <=? nstart n then Some false
        else if (nstart n <? e) && (s <? nend n) then Some true
        else nx ← next_ptr cur 0 m; overlaps_from f s e nx m
  end.
Definition overlaps (s e : Z) (m : VmaMap) : option bool :=
  if e <=? s then Some false
  else preds ← find_preds s m; pred ← preds !! 0%nat; cur ← next_ptr pred 0 m; overlaps_from (walk_fuel m) s e cur m.
Fixpoint mark_cow_from (fuel : nat) (cur : Z) (m : VmaMap) : option VmaMap :=
  match fuel with
  | O => None
  | S f =>
      if cur =? 0 then Some m
      else n ← deref cur m;
        let v := vma n in
        let v := if negb (shared v) && Z.testbit (vflags v) 1 then mkVma (vstart v) (vend v) (vflags v) (kind v) true (shared v) (locked v) else v in
        let m := set_heap (<[cur := mkNode (nstart n) (nend n) v (nheight n) (next n)]> (heap m)) m in
        nx ← next_ptr cur 0 m; mark_cow_from f nx m
  end.
Definition mark_cow (m : VmaMap) : option VmaMap := first ← next_ptr HEAD 0 m; mark_cow_from (walk_fuel m) first m.
Fixpoint committed_from (fuel : nat) (cur total : Z) (m : VmaMap) : option Z :=
  match fuel with
  | O => None
  | S f =>
      if cur =? 0 then Some total
      else n ← deref cur m;
        let bytes := sat_sub (nend n) (nstart n) in
        nx ← next_ptr cur 0 m; committed_from f nx (Z.min u64_max (total + Z.min u64_max (bytes + 4095) / 4096)) m
  end.
Definition committed_pages (m : VmaMap) : option Z := first ← next_ptr HEAD 0 m; committed_from (walk_fuel m) first 0 m.

(** ** Locking an interval *)
(** Where a level's search stands: the node before, its link, the node after. *)
Definition Cursor : Type := Z * Z * Z.
(** Past the nodes that end at or before [s]; [None] inside is a restart. *)
Fixpoint phase1 (fuel : nat) (i : nat) (s prev raw node : Z) (m : VmaMap) : option (VmaMap * option Cursor) :=
  match fuel with
  | O => None
  | S f =>
      if node =? 0 then Some (m, Some (prev, raw, node))
      else
        n ← deref node m;
        n_raw ← next_raw node i m;
        let n_flag := flag_of n_raw in
        if n_flag =? INVALIDATED then Some (m, None)
        else if negb (n_flag =? 0) && negb (n_flag =? LOCKED) then
          '(m, ok) ← cas_next prev i raw (ptr_with_flag (ptr_strip n_raw) n_flag) m;
          if ok : bool then raw ← next_raw prev i m; phase1 f i s prev raw (ptr_strip raw) m else Some (m, None)
        else if n_flag =? LOCKED then Some (m, Some (prev, raw, node))
        else if nend n <=? s then raw ← next_raw node i m; phase1 f i s node raw (ptr_strip raw) m
        else Some (m, Some (prev, raw, node))
  end.
(** On while a next node starts before [e]. *)
Fixpoint phase2 (fuel : nat) (i : nat) (s e prev raw node : Z) (m : VmaMap) : option (VmaMap * option Cursor) :=
  match fuel with
  | O => None
  | S f =>
      if node =? 0 then Some (m, Some (prev, raw, node))
      else
        n ← deref node m;
        n_raw ← next_raw node i m;
        let n_flag := flag_of n_raw in
        let nn := ptr_strip n_raw in
        if n_flag =? INVALIDATED then Some (m, None)
        else if e <=? nstart n then Some (m, Some (prev, raw, node))
        else if nn =? 0 then Some (m, Some (prev, raw, node))
        else
          k ← deref nn m;
          if e <=? nstart k then Some (m, Some (prev, raw, node))
          else if (i =? 0)%nat && (nend k <=? s) then Some (m, Some (prev, raw, node))
          else if negb (n_flag =? 0) && negb (n_flag =? LOCKED) then
            '(m, ok) ← cas_next node i n_raw (ptr_with_flag nn n_flag) m;
            if ok : bool then phase2 f i s e prev raw node m else Some (m, None)
          else phase2 f i s e node n_raw nn m
  end.
Fixpoint search_level (fuel : nat) (i : nat) (s e prev raw node : Z) (m : VmaMap) : option (VmaMap * option (Z * Z)) :=
  match fuel with
  | O => None
  | S f =>
      '(m, r) ← phase1 (walk_fuel m) i s prev raw node m;
      match r with
      | None => Some (m, None)
      | Some (prev, raw, node) =>
          '(m, r) ← phase2 (walk_fuel m) i s e prev raw node m;
          match r with
          | None => Some (m, None)
          | Some (prev, raw, node) =>
              if node =? 0 then Some (m, Some (prev, node))
              else
                n ← deref node m;
                if e <=? nstart n then Some (m, Some (prev, node))
                else if (i =? 0)%nat && (nend n <=? s) then raw ← next_raw node i m; search_level f i s e node raw (ptr_strip raw) m
                else Some (m, Some (prev, node))
          end
      end
  end.
(** The levels below [k], from the highest; the answer lists predecessor and successor from the lowest. *)
Fixpoint search_levels (k : nat) (s e x : Z) (m : VmaMap) : option (VmaMap * option (list (Z * Z))) :=
  match k with
  | O => Some (m, Some [])
  | S i =>
      raw ← next_raw x i m;
      '(m, r) ← search_level (walk_fuel m) i s e x raw (ptr_strip raw) m;
      match r with
      | None => Some (m, None)
      | Some (prev, node) =>
          '(m, r) ← search_levels i s e prev m;
          Some (m, match r with Some l => Some (l ++ [(prev, node)]) | None => None end)
      end
  end.
Fixpoint get_pred_succ_concurrent (fuel : nat) (s e : Z) (m : VmaMap) : option (VmaMap * list (Z * Z)) :=
  match fuel with
  | O => None
  | S f =>
      '(m, r) ← search_levels (height m) s e HEAD m;
      match r with
      | Some l => Some (m, l ++ replicate (MAX_HEIGHT - height m) (HEAD, 0))
      | None => get_pred_succ_concurrent f s e m
      end
  end.
(** Clear the LOCKED flag. *)
Definition unlock_node (p : Z) (m : VmaMap) : option VmaMap := update_next p 0 ptr_strip m.
Definition unlock_list (ps : list Z) (m : VmaMap) : option VmaMap := foldl (fun o p => m ← o; unlock_node p m) (Some m) ps.
(** Lock the nodes after [pred] that start before [e]; the list grows at its end. *)
Fixpoint lock_walk (fuel : nat) (s e pred : Z) (nodes : list Z) (m : VmaMap) : option (VmaMap * list Z) :=
  match fuel with
  | O => None
  | S f =>
      raw ← next_raw pred 0 m;
      let nx := ptr_strip raw in
      if nx =? 0 then Some (m, nodes)
      else
        n ← deref nx m;
        if e <=? nstart n then Some (m, nodes)
        else
          n_raw ← next_raw nx 0 m;
          if is_invalidated n_raw then m ← unlock_list nodes m; lock_walk f s e pred nodes m
          else if negb (flag_of n_raw =? 0) && negb (is_locked n_raw) then
            '(m, _) ← cas_next pred 0 raw (ptr_with_flag (ptr_strip n_raw) LOCKED) m; lock_walk f s e pred nodes m
          else
            '(m, ok) ← cas_next nx 0 n_raw (ptr_with_flag (ptr_strip n_raw) LOCKED) m;
            if negb ok then lock_walk f s e pred nodes m
            else
              let nodes := nodes ++ [nx] in
              if nend n <=? s then
                old ← nodes !! 0%nat; m ← unlock_node old m; lock_walk f s e nx (tail nodes) m
              else lock_walk f s e nx nodes m
  end.
(** The guard: the locked nodes, the predecessor first. *)
Definition IntervalGuard : Type := list Z.
Fixpoint lock_interval (fuel : nat) (s e : Z) (m : VmaMap) : option (VmaMap * IntervalGuard) :=
  match fuel with
  | O => None
  | S f =>
      '(m, preds) ← get_pred_succ_concurrent (walk_fuel m) s e m;
      '(node, _) ← preds !! 0%nat;
      raw ← next_raw node 0 m;
      if is_locked raw || is_invalidated raw then lock_interval f s e m
      else if negb (flag_of raw =? 0) then lock_interval f s e m
      else
        '(m, ok) ← cas_next node 0 raw (ptr_with_flag (ptr_strip raw) LOCKED) m;
        if negb ok then lock_interval f s e m
        else lock_walk (walk_fuel m) s e node [node] m
  end.
Definition lock (s e : Z) (m : VmaMap) : option (VmaMap * IntervalGuard) := lock_interval (walk_fuel m) s e m.
Definition unlock_interval (g : IntervalGuard) (m : VmaMap) : option VmaMap := unlock_list g m.

(** ** Replacing the locked nodes *)
(** Run [f] on the elements in order. *)
Fixpoint for_each {A} (f : A -> VmaMap -> option VmaMap) (l : list A) (m : VmaMap) : option VmaMap :=
  match l with [] => Some m | x :: l' => m ← f x m; for_each f l' m end.
(** The levels [h-1] down to 1. *)
Definition upper_levels (h : nat) : list nat := rev (seq 1 (h - 1)).
(** Steps 1 and 5: mark the links of an old node. *)
Definition mark_deleted (p : Z) (m : VmaMap) : option VmaMap :=
  n ← deref p m; for_each (fun i => update_next p i (fun raw => ptr_with_flag (ptr_strip raw) LOCKED)) (upper_levels (nheight n)) m.
Definition mark_invalidated (p : Z) (m : VmaMap) : option VmaMap :=
  raw ← next_raw p 0 m; set_next p 0 (ptr_with_flag (ptr_strip raw) INVALIDATED) m.
(** Step 2: take an old node out of a level. *)
Fixpoint unlink_from (fuel : nat) (i : nat) (node x : Z) (m : VmaMap) : option VmaMap :=
  match fuel with
  | O => None
  | S f =>
      x_raw ← next_raw x i m;
      let x_next := ptr_strip x_raw in
      if x_next =? 0 then Some m
      else if x_next =? node then
        succ_raw ← next_raw node i m;
        '(m, ok) ← cas_next x i x_raw (ptr_strip succ_raw) m;
        if ok : bool then Some m else unlink_from f i node HEAD m
      else unlink_from f i node x_next m
  end.
Definition unlink (p : Z) (m : VmaMap) : option VmaMap :=
  n ← deref p m; for_each (fun i m => unlink_from (walk_fuel m) i p HEAD m) (upper_levels (nheight n)) m.
(** Step 3: link the new nodes to each other and the last one to what follows. *)
Fixpoint windows (l : list Z) : list (Z * Z) := match l with a :: (b :: _) as l' => (a, b) :: windows l' | _ => [] end.
Fixpoint skip_old (k i : nat) (x : Z) (m : VmaMap) : option Z :=
  match k with O => Some x | S k' => if x =? 0 then skip_old k' i x m else y ← next_ptr x i m; skip_old k' i y m end.
Definition wire_level (pred : Z) (olds : nat) (news : list Z) (i : nat) (m : VmaMap) : option VmaMap :=
  m ← for_each (fun '(n0, n1) m => k ← deref n1 m; if (i <? nheight k)%nat then set_next n0 i n1 m else Some m) (windows news) m;
  match last news with
  | None => Some m
  | Some l =>
      k ← deref l m;
      if (i <? nheight k)%nat then succ ← next_raw pred 0 m; x ← skip_old olds i (ptr_strip succ) m; set_next l i x m else Some m
  end.
Definition heights (ps : list Z) (m : VmaMap) : option (list nat) := mapM (fun p => nheight <$> deref p m) ps.
Definition swap_interval (g : IntervalGuard) (news : list Z) (m : VmaMap) : option VmaMap :=
  pred ← g !! 0%nat;
  let olds := tail g in
  let n_old := Z.of_nat (length olds) in
  m ← for_each mark_deleted olds m;
  m ← for_each unlink olds m;
  m ← match news with
      | first :: _ =>
          hs ← heights news m;
          m ← for_each (wire_level pred (length olds) news) (seq 0 (foldr Nat.max 0%nat hs)) m;
          set_next pred 0 first (set_len (u64_add (u64_sub (len m) n_old) (Z.of_nat (length news))) m)
      | [] =>
          let m := set_len (u64_sub (len m) n_old) m in
          first ← next_ptr pred 0 m; succ ← skip_old (length olds) 0 first m; set_next pred 0 succ m
      end;
  m ← for_each mark_invalidated olds m;
  Some (foldl (fun m p => push_retired p m) m olds).

(** ** Operations *)
(** The node before [ptr] at the lowest level. *)
Fixpoint walk_to (fuel : nat) (ptr pred : Z) (m : VmaMap) : option Z :=
  match fuel with
  | O => None
  | S f => w ← next_ptr pred 0 m; if (w =? 0) || (w =? ptr) then Some pred else walk_to f ptr w m
  end.
(** Put a merged node in the place of [a] and take its neighbour [b] out of the list; [false] if the nodes have changed. *)
Definition merge_nodes (a b : Z) (m : VmaMap) : option (VmaMap * bool) :=
  na ← deref a m;
  nb ← deref b m;
  let '(m, merged) := node_random (merged_vma (vma na) (vma nb)) m in
  '(m, g) ← lock (vstart (vma na)) (vend (vma na)) m;
  let olds := tail g in
  same ← match olds with [o] => n ← deref o m; Some (nstart n =? vstart (vma na)) | _ => Some false end;
  if same : bool then
    m ← swap_interval g [merged] m;
    succ ← next_ptr b 0 m;
    m ← for_each (fun i => update_next b i (fun raw => ptr_with_flag (ptr_strip raw) LOCKED)) (upper_levels (nheight nb)) m;
    m ← set_next merged 0 succ (set_len (u64_sub (len m) 1) m);
    Some (push_retired b m, true)
  else m ← unlock_interval g m; Some (m, false).
Definition try_merge (a b : Z) (m : VmaMap) : option (VmaMap * bool) :=
  na ← deref a m; nb ← deref b m; if can_merge_with (vma na) (vma nb) then merge_nodes a b m else Some (m, false).
Definition insert (v : Vma) (m : VmaMap) : option (VmaMap * bool) :=
  if vend v <=? vstart v then Some (m, false)
  else
    '(m, g) ← lock (vstart v) (vend v) m;
    has_overlap ← foldr (fun p r => n ← deref p m; b ← r; Some (((nstart n <? vend v) && (vstart v <? nend n)) || b)) (Some false) (tail g);
    if has_overlap : bool then m ← unlock_interval g m; Some (m, false)
    else
      let '(m, h) := random_height m in
      let '(m, ptr) := node_new v h m in
      let m := if (height m <? h)%nat then set_height h m else m in
      m ← swap_interval g [ptr] m;
      found_pred ← walk_to (walk_fuel m) ptr HEAD m;
      '(m, done) ← (if found_pred =? HEAD then Some (m, false) else try_merge found_pred ptr m);
      if done : bool then Some (m, true)
      else
        succ ← next_ptr ptr 0 m;
        if succ =? 0 then Some (m, true) else '(m, _) ← try_merge ptr succ m; Some (m, true).
Definition remove (s e : Z) (m : VmaMap) : option VmaMap :=
  if e <=? s then Some m
  else
    '(m, g) ← lock s e m;
    if (length g <=? 1)%nat then unlock_interval g m else swap_interval g [] m.
Definition remove_overlapping : Z -> Z -> VmaMap -> option VmaMap := remove.
(** Allocate nodes for the areas, in order. *)
Fixpoint nodes_for (vs : list Vma) (m : VmaMap) : VmaMap * list Z :=
  match vs with [] => (m, []) | v :: vs' => let '(m, p) := node_random v m in let '(m, ps) := nodes_for vs' m in (m, p :: ps) end.
Definition left_part (s : Z) (v : Vma) : list Vma := if vstart v <? s then [set_range (vstart v) s v] else [].
Definition right_part (e : Z) (v : Vma) : list Vma := if e <? vend v then [set_range e (vend v) v] else [].
Definition flag_pieces (s e f : Z) (v : Vma) : list Vma :=
  let ms := Z.max (vstart v) s in
  let me := Z.min (vend v) e in
  left_part s v ++ (if ms <? me then [set_flags f (set_range ms me v)] else []) ++ right_part e v.
Definition vmas_of (ps : list Z) (m : VmaMap) : option (list Vma) := mapM (fun p => vma <$> deref p m) ps.
Definition update_flags (s e f : Z) (m : VmaMap) : option VmaMap :=
  if e <=? s then Some m
  else
    '(m, g) ← lock s e m;
    vs ← vmas_of (tail g) m;
    let '(m, news) := nodes_for (concat (map (flag_pieces s e f) vs)) m in
    swap_interval g news m.
Definition insert_or_update (s e : Z) (v : Vma) (m : VmaMap) : option (VmaMap * bool) :=
  if e <=? s then Some (m, false)
  else
    '(m, g) ← lock s e m;
    vs ← vmas_of (tail g) m;
    let '(m, news) := nodes_for (concat (map (fun o => left_part s o ++ right_part e o) vs) ++ [set_range s e v]) m in
    m ← swap_interval g news m; Some (m, true).
Definition insert_skip_merge (v : Vma) (m : VmaMap) : option VmaMap :=
  if vend v <=? vstart v then Some m
  else
    preds ← find_preds (vstart v) m;
    let '(m, h) := random_height m in
    let '(m, ptr) := node_new v h m in
    m ← for_each (fun i m => p ← preds !! i; nx ← next_ptr p i m; m ← set_next ptr i nx m; set_next p i ptr m) (seq 0 h) m;
    let m := if (height m <? h)%nat then set_height h m else m in
    Some (set_len (u64_add (len m) 1) m).
Definition clone (m : VmaMap) : option VmaMap := vs ← collect_all m; for_each insert_skip_merge vs (new (seed m)).
Fixpoint clear_from (fuel : nat) (cur : Z) (m : VmaMap) : option VmaMap :=
  match fuel with O => None | S f => if cur =? 0 then Some m else nx ← next_ptr cur 0 m; clear_from f nx (free_node cur m) end.
Definition clear (m : VmaMap) : option VmaMap :=
  first ← next_ptr HEAD 0 m;
  m ← clear_from (walk_fuel m) first m;
  let m := foldl (fun m p => if p =? 0 then m else free_node p m) (set_retired [] m) (retired m) in
  m ← for_each (fun i => set_next HEAD i 0) (seq 0 MAX_HEIGHT) m;
  Some (set_len 0 (set_height 1 m)).
(** [cils::reclaim_retired], after a grace period. *)
Definition reclaim_retired (drained : list Z) (m : VmaMap) : VmaMap := foldl (fun m p => if p =? 0 then m else free_node p m) m drained.

(** ** Pointers and flags *)
Definition aligned (p : Z) : Prop := exists q, 0 <= q /\ p = Z.shiftl q 2.
Lemma aligned_mul q : 0 <= q -> aligned (4 * q).
Proof. intros. exists q. split; [done|]. rewrite Z.shiftl_mul_pow2 by lia. lia. Qed.
Lemma aligned_add p : aligned p -> aligned (p + 4).
Proof. intros (q & Hq & ->). exists (q + 1). split; [lia|]. rewrite !Z.shiftl_mul_pow2 by lia. lia. Qed.
Lemma strip_flag p f : aligned p -> 0 <= f < 4 -> ptr_strip (ptr_with_flag p f) = p /\ flag_of (ptr_with_flag p f) = f.
Proof.
  intros (q & Hq & ->) Hf. unfold ptr_strip, ptr_with_flag, flag_of. change 3 with (Z.ones 2). rewrite Z.ldiff_ones_r, Z.land_ones, Z.shiftr_lor, Z.shiftr_shiftl_l by lia.
  replace (Z.shiftr f 2) with 0 by (rewrite Z.shiftr_div_pow2 by lia; symmetry; apply Z.div_small; lia). rewrite Z.sub_diag, Z.lor_0_r. change (Z.shiftl q 0) with q. split; [done|].
  rewrite <-(Z.land_ones (Z.lor _ _)), Z.land_lor_distr_l, !Z.land_ones, Z.shiftl_mul_pow2 by lia. rewrite Z.mod_mul by lia. rewrite Z.lor_0_l. by apply Z.mod_small.
Qed.
Lemma strip_clean p : aligned p -> ptr_strip p = p /\ flag_of p = 0.
Proof. intros Ha. pose proof (strip_flag p 0 Ha ltac:(lia)) as H. unfold ptr_with_flag in H. by rewrite Z.lor_0_r in H. Qed.
Lemma aligned_0 : aligned 0.
Proof. by exists 0. Qed.

(** ** Frames *)
(** What a node is apart from its links. *)
Definition core (n : Node) : Z * Z * Vma * nat * nat := (nstart n, nend n, vma n, nheight n, length (next n)).
Definition shape (m : VmaMap) : gmap Z (Z * Z * Vma * nat * nat) := core <$> heap m.
(** From [m] to [m'] only links in [P] change. *)
Record upd (P : Z -> nat -> Prop) (m m' : VmaMap) : Prop := {
  upd_shape : shape m' = shape m;
  upd_height : height m' = height m;
  upd_len : len m' = len m;
  upd_fresh : fresh m' = fresh m;
  upd_links : forall x i, ~ P x i -> next_raw x i m' = next_raw x i m }.
Lemma upd_refl P m : upd P m m.
Proof. by split. Qed.
Lemma upd_trans (P Q R : Z -> nat -> Prop) m1 m2 m3 : upd P m1 m2 -> upd Q m2 m3 -> (forall x i, P x i \/ Q x i -> R x i) -> upd R m1 m3.
Proof.
  intros [A1 A2 A3 A4 A5] [B1 B2 B3 B4 B5] H. split; try congruence. intros x i Hn. rewrite B5, A5; naive_solver.
Qed.
Lemma upd_weaken (P Q : Z -> nat -> Prop) m m' : upd P m m' -> (forall x i, P x i -> Q x i) -> upd Q m m'.
Proof. intros [] HQ. split; naive_solver. Qed.
Lemma shape_deref m p c : shape m !! p = Some c -> exists n, deref p m = Some n /\ core n = c.
Proof. unfold shape. rewrite lookup_fmap. unfold deref. destruct (heap m !! p) as [n|]; [|done]. intros [= <-]. eauto. Qed.
Lemma deref_shape m p n : deref p m = Some n -> shape m !! p = Some (core n).
Proof. unfold deref, shape. rewrite lookup_fmap. by intros ->. Qed.
Lemma shape_raw m p c i : shape m !! p = Some c -> (i < c.2)%nat -> exists w, next_raw p i m = Some w.
Proof.
  intros (n & E & <-)%shape_deref Hi. unfold next_raw. rewrite E. cbn in *. by apply lookup_lt_is_Some_2 in Hi as [w Hw]; eauto.
Qed.
Lemma walk_fuel_shape m m' : shape m' = shape m -> walk_fuel m' = walk_fuel m.
Proof. intros H. unfold walk_fuel. f_equal. apply (f_equal size) in H. unfold shape in H. by rewrite !map_size_fmap in H. Qed.
Lemma set_next_ok p i w m c : shape m !! p = Some c -> (i < c.2)%nat ->
  exists m', set_next p i w m = Some m' /\ upd (fun x j => x = p /\ j = i) m m' /\ next_raw p i m' = Some w /\ retired m' = retired m.
Proof.
  intros (n & E & <-)%shape_deref Hi. unfold set_next. rewrite E. cbn [mbind option_bind]. cbn in Hi. replace (i <? length (next n))%nat with true by (symmetry; by apply Nat.ltb_lt).
  eexists. split; [done|]. unfold deref in E. split; [|split; [|done]].
  - split; try done.
    + unfold shape. cbn. rewrite fmap_insert. apply insert_id. rewrite lookup_fmap, E. cbn. unfold core. cbn. by rewrite length_insert.
    + intros x j Hn. unfold next_raw, deref. cbn. destruct (decide (x = p)) as [->|Hx]; [|by rewrite lookup_insert_ne]. rewrite lookup_insert_eq, E. cbn.
      apply list_lookup_insert_ne. naive_solver.
  - unfold next_raw, deref. cbn. rewrite lookup_insert_eq. cbn. by apply list_lookup_insert_eq.
Qed.
Lemma update_next_ok p i f m c w : shape m !! p = Some c -> next_raw p i m = Some w -> (i < c.2)%nat ->
  exists m', update_next p i f m = Some m' /\ upd (fun x j => x = p /\ j = i) m m' /\ next_raw p i m' = Some (f w) /\ retired m' = retired m.
Proof.
  intros Hs Hw Hi. destruct (set_next_ok p i (f w) m c Hs Hi) as (m' & E & H). exists m'. split; [|done].
  unfold update_next, cas_next. rewrite Hw. cbn [mbind option_bind]. by rewrite Z.eqb_refl, E.
Qed.
Lemma cas_ok p i new m c w : shape m !! p = Some c -> next_raw p i m = Some w -> (i < c.2)%nat ->
  exists m', cas_next p i w new m = Some (m', true) /\ upd (fun x j => x = p /\ j = i) m m' /\ next_raw p i m' = Some new /\ retired m' = retired m.
Proof.
  intros Hs Hw Hi. destruct (set_next_ok p i new m c Hs Hi) as (m' & E & H). exists m'. split; [|done].
  unfold cas_next. rewrite Hw. cbn [mbind option_bind]. by rewrite Z.eqb_refl, E.
Qed.

(** ** The list a map represents *)
(** A link out of a locked node carries the flag. *)
Definition tag (L : list Z) (x w : Z) : Z := if decide (x ∈ L) then ptr_with_flag w LOCKED else w.
Fixpoint path (m : VmaMap) (L : list Z) (x : Z) (ps : list Z) : Prop :=
  match ps with [] => True | p :: ps' => next_raw x 0 m = Some (tag L x p) /\ path m L p ps' end.
Fixpoint lastp (x : Z) (ps : list Z) : Z := match ps with [] => x | p :: ps' => lastp p ps' end.
Definition headp (ps : list Z) : Z := match ps with [] => 0 | p :: _ => p end.
Definition node_ok (m : VmaMap) (e : Z * Vma) : Prop :=
  exists h, (1 <= h <= MAX_HEIGHT)%nat /\ shape m !! e.1 = Some (vstart e.2, vend e.2, e.2, h, MAX_HEIGHT).
(** The map [m] holds the areas of [l], in order, at these addresses; the nodes
    of [L] are locked.  Only the lowest level is linked. *)
Record rep (L : list Z) (l : list (Z * Vma)) (m : VmaMap) : Prop := {
  r_path : path m L HEAD (l.*1 ++ [0]);
  r_nodes : Forall (node_ok m) l;
  r_head : exists c, shape m !! HEAD = Some (c, MAX_HEIGHT);
  r_upper : forall i, (1 <= i < MAX_HEIGHT)%nat -> next_raw HEAD i m = Some 0;
  r_nodup : NoDup (HEAD :: l.*1);
  r_addr : forall p c, shape m !! p = Some c -> aligned p /\ 0 < p < fresh m;
  r_fresh : aligned (fresh m);
  r_height : (1 <= height m <= MAX_HEIGHT)%nat;
  r_len : len m = Z.of_nat (length l) mod u64_mod }.
Lemma path_app m L x a b : path m L x (a ++ b) <-> path m L x a /\ path m L (lastp x a) b.
Proof. revert x. induction a as [|p a IH]; intros x; cbn; [tauto|]. rewrite IH. tauto. Qed.
Lemma lastp_app x a b : lastp x (a ++ b) = lastp (lastp x a) b.
Proof. revert x. by induction a as [|p a IH]; intros x; cbn. Qed.
Lemma lastp_elem x a : lastp x a ∈ x :: a.
Proof. revert x. induction a as [|p a IH]; intros x; cbn; [by left|]. right. apply IH. Qed.
Lemma path_frame m m' L L' x ps : (forall y, y ∈ removelast (x :: ps) -> next_raw y 0 m' = next_raw y 0 m /\ (y ∈ L <-> y ∈ L')) -> path m L x ps -> path m' L' x ps.
Proof.
  revert x. induction ps as [|p ps IH]; intros x H; [done|]. intros [H1 H2]. cbn [path]. destruct (H x) as [Hx HL]; [by left|]. split.
  - rewrite Hx, H1. unfold tag. destruct (decide (x ∈ L)), (decide (x ∈ L')); naive_solver.
  - apply IH; [|done]. intros y Hy. apply H. by right.
Qed.
(** All pointers that start a link of the list are not locked. *)
Lemma rep_clean_link l m l1 l2 : rep [] l m -> l = l1 ++ l2 ->
  let nx := headp (l2.*1) in next_raw (lastp HEAD (l1.*1)) 0 m = Some nx /\ aligned nx /\ (nx = 0 <-> l2 = []).
Proof.
  intros Hr -> nx. pose proof (r_path _ _ _ Hr) as Hp. rewrite fmap_app, <-app_assoc, path_app in Hp. destruct Hp as [_ Hp]. subst nx. destruct l2 as [|[q v] l2]; cbn in *.
  - destruct Hp as [Hp _]. split; [by rewrite Hp|]. split; [apply aligned_0|done].
  - destruct Hp as [Hp _]. split; [by rewrite Hp|]. pose proof (r_nodes _ _ _ Hr) as Hn. rewrite Forall_app, Forall_cons in Hn. destruct Hn as (_ & (h & _ & Hs) & _).
    destruct (r_addr _ _ _ Hr _ _ Hs) as [Ha Hq]. cbn in *. split; [done|]. split; [intros ->; lia|done].
Qed.
Lemma rep_node L l m q v : rep L l m -> (q, v) ∈ l -> exists n, deref q m = Some n /\ nstart n = vstart v /\ nend n = vend v /\ vma n = v /\ (1 <= nheight n <= MAX_HEIGHT)%nat /\ length (next n) = MAX_HEIGHT.
Proof.
  intros Hr Hq. pose proof (r_nodes _ _ _ Hr) as Hn. rewrite Forall_forall in Hn. destruct (Hn _ Hq) as (h & Hh & Hs). apply shape_deref in Hs as (n & Hd & Hc).
  unfold core in Hc. injection Hc as H1 H2 H3 H4 H5. exists n. by rewrite H4.
Qed.
Lemma rep_fuel L l m : rep L l m -> (length l + 2 <= walk_fuel m)%nat.
Proof.
  intros Hr. assert (length (HEAD :: l.*1) <= size (shape m))%nat as H.
  { rewrite <-size_dom, <-(size_list_to_set (C := gset Z) (HEAD :: l.*1)) by apply (r_nodup _ _ _ Hr). apply subseteq_size. intros p. rewrite elem_of_list_to_set, elem_of_dom, elem_of_cons.
    intros [->|([q v] & -> & He)%list_elem_of_fmap]; [destruct (r_head _ _ _ Hr); eauto|].
    destruct (rep_node _ _ _ _ _ Hr He) as (n & Hd%deref_shape & _). eauto. }
  unfold walk_fuel, shape in *. rewrite map_size_fmap in H. cbn in H. rewrite length_fmap in H. lia.
Qed.

(** *** Searching the represented list *)
Lemma advance_level_ok m l addr : rep [] l m -> forall r2 l1 fuel, l = l1 ++ r2 -> (length r2 < fuel)%nat ->
  exists a b, r2 = a ++ b /\ advance fuel 0 addr (lastp HEAD (l1.*1)) m = Some (lastp HEAD ((l1 ++ a).*1)) /\
    Forall (fun e => vstart e.2 <= addr) a /\ match b with [] => True | e :: _ => addr < vstart e.2 end.
Proof.
  intros Hr. induction r2 as [|[q v] r2 IH]; intros l1 [|f] -> Hf; try (cbn in Hf; lia); cbn [advance]; unfold next_ptr.
  - destruct (rep_clean_link _ _ l1 [] Hr eq_refl) as (-> & _). exists [], []. by rewrite (app_nil_r l1).
  - destruct (rep_clean_link _ _ l1 ((q, v) :: r2) Hr eq_refl) as (-> & Ha & Hz). cbn [fmap list_fmap headp fst option_fmap option_map mbind option_bind] in *.
    rewrite (proj1 (strip_clean q Ha)). destruct (Z.eqb_spec q 0) as [->|_]; [by apply proj1 in Hz; specialize (Hz eq_refl)|].
    destruct (rep_node _ _ _ q v Hr) as (n & -> & Hs & _); [apply elem_of_app; right; by left|]. cbn [mbind option_bind]. rewrite Hs. destruct (Z.leb_spec (vstart v) addr).
    + destruct (IH (l1 ++ [(q, v)]) f) as (a & b & -> & Hadv & Hall & Hb); [by rewrite <-app_assoc|cbn in Hf; lia|]. exists ((q, v) :: a), b.
      split; [done|]. split; [|split; [by constructor|done]]. rewrite fmap_app, lastp_app in Hadv. cbn in Hadv. rewrite Hadv. by rewrite <-app_assoc.
    + exists [], ((q, v) :: r2). by rewrite (app_nil_r l1).
Qed.
Lemma find_levels_ok m l addr k : rep [] l m -> (1 <= k <= MAX_HEIGHT)%nat ->
  exists a b ps, l = a ++ b /\ find_levels k addr HEAD m = Some (lastp HEAD (a.*1) :: ps) /\ Forall (fun e => vstart e.2 <= addr) a /\ match b with [] => True | e :: _ => addr < vstart e.2 end.
Proof.
  intros Hr. induction k as [|k IH]; [lia|]. intros Hk. pose proof (rep_fuel _ _ _ Hr) as Hf. cbn [find_levels]. destruct k as [|k].
  - destruct (advance_level_ok m l addr Hr l [] (walk_fuel m)) as (a & b & E & Hadv & H); [done|lia|]. cbn [fmap list_fmap lastp app] in Hadv. rewrite Hadv. cbn. by exists a, b, [].
  - destruct IH as (a & b & ps & E & Hl & H); [lia|]. assert (advance (walk_fuel m) (S k) addr HEAD m = Some HEAD) as ->.
    { destruct (walk_fuel m) as [|f]; [lia|]. cbn [advance]. unfold next_ptr. by rewrite (r_upper _ _ _ Hr) by lia. }
    cbn [mbind option_bind]. rewrite Hl. cbn. by exists a, b, (ps ++ [HEAD]).
Qed.
Lemma find_preds_ok m l addr : rep [] l m ->
  exists a b ps, l = a ++ b /\ find_preds addr m = Some (lastp HEAD (a.*1) :: ps) /\ Forall (fun e => vstart e.2 <= addr) a /\ match b with [] => True | e :: _ => addr < vstart e.2 end.
Proof.
  intros Hr. destruct (find_levels_ok m l addr (height m) Hr (r_height _ _ _ Hr)) as (a & b & ps & E & Hl & H). exists a, b, (ps ++ replicate (MAX_HEIGHT - height m) HEAD).
  unfold find_preds. rewrite Hl. done.
Qed.
(** Areas in order, none of them empty. *)
Definition ordered (vs : list Vma) : Prop := StronglySorted (fun a b => vend a <= vstart b) vs /\ Forall (fun v => vstart v < vend v) vs.
Lemma ordered_cons v vs : ordered (v :: vs) <-> vstart v < vend v /\ Forall (fun w => vend v <= vstart w) vs /\ ordered vs.
Proof.
  unfold ordered. split.
  - intros [H1 H2]. inversion H1; inversion H2; subst. tauto.
  - intros (H1 & H2 & H3 & H4). split; by constructor.
Qed.
Lemma ordered_app a b : ordered (a ++ b) <-> ordered a /\ ordered b /\ forall x y, x ∈ a -> y ∈ b -> vend x <= vstart y.
Proof.
  induction a as [|v a IH]; cbn [app].
  - split; [|tauto]. intros H. split; [split; constructor|]. split; [done|]. by intros x y ?%elem_of_nil.
  - rewrite !ordered_cons, IH, Forall_app, !Forall_forall. split.
    + intros (H1 & [H2 H3] & H4 & H5 & H6). do 2 (split; [tauto|]). intros x y [->|Hx]%elem_of_cons Hy; eauto.
    + intros ((H1 & H2 & H3) & H4 & H5). split; [done|]. split; [split; [done|]|].
      * intros y Hy. apply H5; [by left|done].
      * split; [done|]. split; [done|]. intros x y Hx. apply H5. by right.
Qed.
Definition covers (addr : Z) (v : Vma) : bool := (vstart v <=? addr) && (addr <? vend v).
Definition overlapping (s e : Z) (v : Vma) : bool := (vstart v <? e) && (s <? vend v).
(** The reference of [find]: the first area that covers the address. *)
Definition s_find (addr : Z) (vs : list Vma) : option Vma := List.find (covers addr) vs.
Lemma s_find_app_r addr a b : Forall (fun v => covers addr v = false) a -> s_find addr (a ++ b) = s_find addr b.
Proof. induction 1 as [|v a Hv _ IH]; [done|]. unfold s_find in *. cbn. by rewrite Hv. Qed.
Lemma s_find_none addr vs : Forall (fun v => covers addr v = false) vs -> s_find addr vs = None.
Proof. intros H. rewrite <-(app_nil_r vs). by rewrite s_find_app_r. Qed.
Lemma s_find_at addr a b : ordered (a ++ b) -> Forall (fun v => vstart v <= addr) a -> match b with [] => True | v :: _ => addr < vstart v end ->
  s_find addr (a ++ b) = v ← last a; if covers addr v then Some v else None.
Proof.
  intros Ho Ha Hb. apply ordered_app in Ho as (Hoa & Hob & Hab). assert (Forall (fun v => covers addr v = false) b) as Hnb.
  { destruct b as [|v b]; [done|]. apply ordered_cons in Hob as (Hv & Hvb & _). constructor; [unfold covers; lia|]. apply (Forall_impl _ _ _ Hvb). intros w Hw. unfold covers. lia. }
  destruct a as [|v0 a0 _] using rev_ind; [by apply s_find_none|]. rewrite last_snoc. cbn [mbind option_bind]. apply ordered_app in Hoa as (_ & _ & Hlast). apply Forall_app in Ha as [_ Ha].
  rewrite Forall_singleton in Ha. rewrite <-app_assoc, s_find_app_r.
  - unfold s_find. cbn. destruct (covers addr v0); [done|by apply s_find_none].
  - apply Forall_forall. intros x Hx. specialize (Hlast x v0 Hx ltac:(by left)). unfold covers. lia.
Qed.
Lemma lastp_last (l : list (Z * Vma)) : lastp HEAD (l.*1) = match last l with Some e => e.1 | None => HEAD end.
Proof. destruct l as [|e l _] using rev_ind; [done|]. rewrite fmap_app, lastp_app, last_snoc. done. Qed.
Lemma lookup_at m l addr a b : rep [] l m -> ordered (l.*2) -> l = a ++ b -> Forall (fun e => vstart e.2 <= addr) a -> match b with [] => True | e :: _ => addr < vstart e.2 end ->
  (if negb (lastp HEAD (a.*1) =? HEAD) then n ← deref (lastp HEAD (a.*1)) m; Some (if (nstart n <=? addr) && (addr <? nend n) then Some (vma n) else None) else Some None) = Some (s_find addr (l.*2)).
Proof.
  intros Hr Ho -> Ha Hb. rewrite fmap_app in Ho |- *. rewrite s_find_at; [|done|by apply Forall_fmap|by destruct b]. rewrite fmap_last, lastp_last. destruct (last a) as [[q v]|] eqn:El; [|by rewrite Z.eqb_refl].
  assert ((q, v) ∈ a ++ b) as Hin. { apply elem_of_app. left. by apply last_Some_elem_of. }
  assert (q <> HEAD) as Hq. { pose proof (r_nodup _ _ _ Hr) as Hd. apply NoDup_cons in Hd as [Hd _]. intros ->. apply Hd. apply list_elem_of_fmap. by exists (HEAD, v). }
  cbn [fst snd fmap option_fmap option_map mbind option_bind]. destruct (Z.eqb_spec q HEAD) as [|_]; [done|]. cbn [negb]. destruct (rep_node _ _ _ q v Hr Hin) as (n & -> & H1 & H2 & H3 & _). cbn [mbind option_bind]. by rewrite H1, H2, H3.
Qed.
Lemma find_ok m l addr : rep [] l m -> ordered (l.*2) -> find addr m = Some (s_find addr (l.*2)).
Proof.
  intros Hr Ho. destruct (find_preds_ok m l addr Hr) as (a & b & ps & E & Hf & Ha & Hb). rewrite <-(lookup_at m l addr a b Hr Ho E Ha Hb). unfold find. rewrite Hf. cbn [mbind option_bind lookup list_lookup].
  destruct (Z.eqb_spec (lastp HEAD (a.*1)) 0) as [E0|_]; [|done]. exfalso. rewrite lastp_last in E0. destruct (last a) as [[q v]|] eqn:El; [|done]. cbn in E0. subst q.
  assert ((0, v) ∈ l) as Hin by (subst l; apply elem_of_app; left; by apply last_Some_elem_of). pose proof (r_nodes _ _ _ Hr) as Hn. rewrite Forall_forall in Hn. destruct (Hn _ Hin) as (h & _ & Hs).
  apply (r_addr _ _ _ Hr) in Hs as [_ Hs]. cbn in Hs. lia.
Qed.
Lemma find_vma_cils_ok m l addr : rep [] l m -> ordered (l.*2) -> find_vma_cils addr m = Some (s_find addr (l.*2)).
Proof.
  intros Hr Ho. destruct (find_levels_ok m l addr MAX_HEIGHT Hr ltac:(unfold MAX_HEIGHT; lia)) as (a & b & ps & E & Hf & Ha & Hb). rewrite <-(lookup_at m l addr a b Hr Ho E Ha Hb).
  unfold find_vma_cils. rewrite Hf. done.
Qed.

(** *** Which areas an interval lock takes *)
(** The reference: the areas before, the last one that overlaps [s, e) (if any), the areas after. *)
Fixpoint cut (s e : Z) (vs : list Vma) : list Vma * list Vma * list Vma :=
  match vs with
  | [] => ([], [], [])
  | v :: vs' =>
      if existsb (overlapping s e) vs' || (vend v <=? s) then let '(a, o, b) := cut s e vs' in (v :: a, o, b)
      else if overlapping s e v then ([], [v], vs') else ([], [], vs)
  end.
Definition is_cut (s e : Z) (a o b : list Vma) : Prop :=
  Forall (fun v => e <= vstart v) b /\ match o with [] => Forall (fun v => vend v <= s) a | [q] => overlapping s e q = true | _ => False end.
Lemma none_overlapping s e vs : Forall (fun v => e <= vstart v) vs -> existsb (overlapping s e) vs = false.
Proof. induction 1 as [|v vs Hv _ IH]; [done|]. cbn. rewrite IH. unfold overlapping. lia. Qed.
Lemma cut_spec s e a o b : s < e -> Forall (fun v => vstart v < vend v) b -> is_cut s e a o b -> cut s e (a ++ o ++ b) = (a, o, b).
Proof.
  intros Hse Hp [Hb Ho]. induction a as [|v a IH]; cbn [app].
  - destruct o as [|q [|]]; [|cbn; rewrite none_overlapping by done; rewrite Ho; unfold overlapping in Ho; by replace (vend q <=? s) with false by lia|done].
    destruct b as [|v b]; [done|]. apply Forall_cons in Hb as [Hv Hb]. apply Forall_cons in Hp as [Hv' _]. cbn. rewrite none_overlapping by done.
    unfold overlapping. replace (vend v <=? s) with false by lia. by replace (vstart v <? e) with false by lia.
  - destruct o as [|q [|]]; [| |done].
    + apply Forall_cons in Ho as [Hv Ho]. cbn [cut]. replace (vend v <=? s) with true by lia. rewrite orb_true_r. by rewrite IH.
    + cbn [cut]. assert (existsb (overlapping s e) (a ++ [q] ++ b) = true) as ->; [|cbn [orb]; by rewrite IH]. rewrite existsb_app. cbn. rewrite Ho. by rewrite orb_true_r.
Qed.

Section Search.
Context (s e : Z) (m : VmaMap) (l : list (Z * Vma)) (Hse : s < e) (Hr : rep [] l m) (Ho : ordered (l.*2)).
Lemma phase1_ok r2 : forall l1 fuel, l = l1 ++ r2 -> (length r2 < fuel)%nat ->
  exists a b, r2 = a ++ b /\ phase1 fuel 0 s (lastp HEAD (l1.*1)) (headp (r2.*1)) (headp (r2.*1)) m = Some (m, Some (lastp HEAD ((l1 ++ a).*1), headp (b.*1), headp (b.*1))) /\
    Forall (fun v => vend v <= s) (a.*2) /\ match b with [] => True | x :: _ => s < vend x.2 end.
Proof.
  induction r2 as [|[q v] r2 IH]; intros l1 [|f] E Hf; try (cbn in Hf; lia); cbn [phase1].
  - exists [], []. by rewrite (app_nil_r l1).
  - pose proof (rep_clean_link _ _ l1 _ Hr E) as (_ & _ & Hz). pose proof (rep_clean_link _ _ (l1 ++ [(q, v)]) r2 Hr ltac:(by rewrite <-app_assoc)) as (Hn & Ha & _).
    rewrite fmap_app, lastp_app in Hn. cbn [fmap list_fmap headp fst lastp] in *. destruct (Z.eqb_spec q 0) as [->|_]; [by apply proj1 in Hz; specialize (Hz eq_refl)|].
    destruct (rep_node _ _ _ q v Hr) as (n & -> & _ & He & _); [rewrite E; apply elem_of_app; right; by left|]. cbn [mbind option_bind]. rewrite Hn. cbn [mbind option_bind].
    destruct (strip_clean _ Ha) as [-> ->]. cbn [Z.eqb negb andb INVALIDATED LOCKED]. change (0 =? INVALIDATED) with false. change (0 =? LOCKED) with false. cbn iota. rewrite He.
    destruct (Z.leb_spec (vend v) s).
    + destruct (IH (l1 ++ [(q, v)]) f) as (a & b & -> & Hp & Hall & Hb); [by rewrite <-app_assoc|cbn in Hf; lia|]. exists ((q, v) :: a), b. rewrite fmap_app, lastp_app in Hp. cbn in Hp. rewrite Hp.
      rewrite <-app_assoc. split; [done|]. split; [done|]. split; [by constructor|done].
    + exists [], ((q, v) :: r2). rewrite (app_nil_r l1). split; [done|]. split; [done|]. split; [constructor|cbn; lia].
Qed.
Definition stops (c d : list (Z * Vma)) : Prop :=
  match d with
  | [] => c = []
  | q :: d' => (c = [] /\ e <= vstart q.2) \/ (vstart q.2 < e /\ match d' with [] => True | k :: _ => e <= vstart k.2 end)
  end.
Lemma phase2_ok r2 : forall l1 fuel, l = l1 ++ r2 -> (length r2 < fuel)%nat -> Forall (fun v => s < vend v) (r2.*2) ->
  exists c d, r2 = c ++ d /\ phase2 fuel 0 s e (lastp HEAD (l1.*1)) (headp (r2.*1)) (headp (r2.*1)) m = Some (m, Some (lastp HEAD ((l1 ++ c).*1), headp (d.*1), headp (d.*1))) /\ stops c d.
Proof.
  induction r2 as [|[q v] r2 IH]; intros l1 [|f] E Hf Hs; try (cbn in Hf; lia); cbn [phase2].
  - exists [], []. by rewrite (app_nil_r l1).
  - pose proof (rep_clean_link _ _ l1 _ Hr E) as (_ & _ & Hz). pose proof (rep_clean_link _ _ (l1 ++ [(q, v)]) r2 Hr ltac:(by rewrite <-app_assoc)) as (Hn & Ha & Hz2).
    rewrite fmap_app, lastp_app in Hn. cbn [fmap list_fmap headp fst snd lastp] in *. destruct (Z.eqb_spec q 0) as [->|_]; [by apply proj1 in Hz; specialize (Hz eq_refl)|].
    destruct (rep_node _ _ _ q v Hr) as (n & -> & Hv & _); [rewrite E; apply elem_of_app; right; by left|]. cbn [mbind option_bind]. rewrite Hn. cbn [mbind option_bind].
    destruct (strip_clean _ Ha) as [-> ->]. cbn zeta. change (0 =? INVALIDATED) with false. cbn iota. rewrite Hv.
    destruct (Z.leb_spec e (vstart v)) as [Hev|Hev]; [exists [], ((q, v) :: r2); rewrite (app_nil_r l1); split; [done|]; split; [done|]; left; cbn; done|].
    destruct r2 as [|[k w] r2]; [cbn [fmap list_fmap headp]; cbn; exists [], [(q, v)]; rewrite (app_nil_r l1); split; [done|]; split; [done|]; right; cbn; done|].
    cbn [fmap list_fmap headp fst] in *. destruct (Z.eqb_spec k 0) as [->|_]; [by apply proj1 in Hz2; specialize (Hz2 eq_refl)|].
    destruct (rep_node _ _ _ k w Hr) as (nk & -> & Hkv & Hke & _); [rewrite E; apply elem_of_app; right; right; by left|]. cbn [mbind option_bind]. rewrite Hkv, Hke.
    destruct (Z.leb_spec e (vstart w)) as [Hew|Hew]; [exists [], ((q, v) :: (k, w) :: r2); rewrite (app_nil_r l1); split; [done|]; split; [done|]; right; cbn; done|].
    inversion Hs as [|? ? _ Hs']; subst. inversion Hs' as [|? ? Hw _]; subst. cbn in Hw. replace (vend w <=? s) with false by lia. cbn [Nat.eqb andb negb Z.eqb].
    destruct (IH (l1 ++ [(q, v)]) f) as (c & d & Ecd & Hp & Hst); [by rewrite <-app_assoc|cbn in *; lia|done|]. exists ((q, v) :: c), d. rewrite fmap_app, lastp_app in Hp. cbn in Hp. rewrite Hp.
    rewrite <-app_assoc, Ecd. split; [done|]. split; [done|]. destruct d as [|x d]; [by rewrite Hst in Ecd|]. destruct Hst as [[-> Hst]|Hst]; [|by right]. cbn in Ecd. injection Ecd as <- <-. cbn in Hst. lia.
Qed.
End Search.
Section Lock.
Context (s e : Z) (m : VmaMap) (l : list (Z * Vma)) (Hse : s < e) (Hr : rep [] l m) (Ho : ordered (l.*2)).
Lemma ordered_from (x : Vma) vs b : ordered (x :: vs) -> b <= vstart x -> Forall (fun v => b <= vstart v) (x :: vs).
Proof. intros (Hx & Hxs & _)%ordered_cons Hb. constructor; [done|]. apply (Forall_impl _ _ _ Hxs). intros v Hv. cbn in Hv. lia. Qed.
Lemma search_0_ok fuel : (0 < fuel)%nat ->
  exists l1 lo l2, l = l1 ++ lo ++ l2 /\ is_cut s e (l1.*2) (lo.*2) (l2.*2) /\
    search_level fuel 0 s e HEAD (headp (l.*1)) (headp (l.*1)) m = Some (m, Some (lastp HEAD (l1.*1), headp ((lo ++ l2).*1))).
Proof.
  destruct fuel as [|f]; [lia|]. intros _. pose proof (rep_fuel _ _ _ Hr) as Hfu. destruct (phase1_ok s m l Hr l [] (walk_fuel m) eq_refl ltac:(lia)) as (a & b & E & Hp1 & Ha & Hb).
  cbn [fmap list_fmap lastp app] in Hp1. cbn [search_level]. rewrite Hp1. cbn [mbind option_bind]. pose proof Ho as Ho'. rewrite E, fmap_app in Ho'. apply ordered_app in Ho' as (_ & Hob & _).
  assert (Forall (fun v => s < vend v) (b.*2)) as Hbs.
  { destruct b as [|x b]; [constructor|]. cbn [fmap list_fmap] in *. constructor; [done|]. apply ordered_cons in Hob as (_ & Hx & [_ Hne]). rewrite Forall_forall in Hx, Hne |- *. intros v Hv. specialize (Hx v Hv). specialize (Hne v Hv). cbn in *. lia. }
  assert (length b <= length l)%nat as Hlb by (rewrite E, length_app; lia).
  destruct (phase2_ok s e m l Hr Ho b a (walk_fuel m) E ltac:(lia) Hbs) as (c & d & Ecd & Hp2 & Hst). rewrite Hp2. cbn [mbind option_bind]. destruct d as [|[q v] d].
  - exists a, [], []. cbn in Hst. subst c. cbn in Ecd. subst b. cbn. rewrite (app_nil_r a) in *. split; [done|]. split; [by split|done].
  - pose proof (rep_clean_link _ _ (a ++ c) ((q, v) :: d) Hr ltac:(by rewrite <-app_assoc, <-Ecd)) as (_ & _ & Hz). cbn [fmap list_fmap headp fst snd] in *.
    destruct (Z.eqb_spec q 0) as [->|_]; [by apply proj1 in Hz; specialize (Hz eq_refl)|]. destruct (rep_node _ _ _ q v Hr) as (n & -> & Hv & Hve & _); [rewrite E, Ecd; apply elem_of_app; right; apply elem_of_app; right; by left|].
    cbn [mbind option_bind]. rewrite Hv, Hve. rewrite Ecd, fmap_app in Hob, Hbs. apply Forall_app in Hbs as [_ Hbs]. apply ordered_app in Hob as (_ & Hod & _).
    destruct Hst as [[-> Hq]|[Hq Hk]]; cbn [fst snd] in *.
    + exists a, [], ((q, v) :: d). rewrite (app_nil_r a). replace (e <=? vstart v) with true by lia. split; [by rewrite E, Ecd|]. split; [|done]. split; [by apply ordered_from|done].
    + exists (a ++ c), [(q, v)], d. replace (e <=? vstart v) with false by lia. cbn [fmap list_fmap] in Hbs. apply Forall_cons in Hbs as [Hvs _]. cbn in Hvs. replace (vend v <=? s) with false by lia.
      split; [by rewrite E, Ecd, <-app_assoc|]. split; [|done]. split; [|cbn; unfold overlapping; lia]. apply ordered_cons in Hod as (_ & _ & Hod). destruct d as [|[k w] d]; [constructor|]. by apply ordered_from.
Qed.
Lemma search_levels_ok k : (1 <= k <= MAX_HEIGHT)%nat ->
  exists l1 lo l2 x ps, l = l1 ++ lo ++ l2 /\ is_cut s e (l1.*2) (lo.*2) (l2.*2) /\ search_levels k s e HEAD m = Some (m, Some ((lastp HEAD (l1.*1), x) :: ps)).
Proof.
  pose proof (rep_fuel _ _ _ Hr) as Hfu. induction k as [|k IH]; [lia|]. intros Hk. cbn [search_levels]. destruct k as [|k].
  - destruct (rep_clean_link _ _ [] l Hr eq_refl) as (Hn & Ha & _). cbn [fmap list_fmap lastp] in Hn. rewrite Hn. cbn [mbind option_bind]. rewrite (proj1 (strip_clean _ Ha)).
    destruct (search_0_ok (walk_fuel m) ltac:(lia)) as (l1 & lo & l2 & E & Hc & Hs). rewrite Hs. cbn. exists l1, lo, l2. eauto.
  - rewrite (r_upper _ _ _ Hr) by lia. cbn [mbind option_bind]. change (ptr_strip 0) with 0. destruct IH as (l1 & lo & l2 & x & ps & E & Hc & Hs); [lia|].
    assert (search_level (walk_fuel m) (S k) s e HEAD 0 0 m = Some (m, Some (HEAD, 0))) as ->.
    { destruct (walk_fuel m) as [|f] eqn:Ef; [lia|]. cbn [search_level]. rewrite Ef. done. }
    cbn [mbind option_bind]. rewrite Hs. cbn. exists l1, lo, l2. eauto.
Qed.
Lemma get_pred_succ_ok fuel : (0 < fuel)%nat ->
  exists l1 lo l2 x ps, l = l1 ++ lo ++ l2 /\ is_cut s e (l1.*2) (lo.*2) (l2.*2) /\ get_pred_succ_concurrent fuel s e m = Some (m, (lastp HEAD (l1.*1), x) :: ps).
Proof.
  destruct fuel as [|f]; [lia|]. intros _. destruct (search_levels_ok (height m) (r_height _ _ _ Hr)) as (l1 & lo & l2 & x & ps & E & Hc & Hs). cbn [get_pred_succ_concurrent]. rewrite Hs. cbn.
  exists l1, lo, l2. eauto.
Qed.
End Lock.
Lemma path_retag m m' L x ps : path m [] x ps -> (forall y w, y ∈ removelast (x :: ps) -> next_raw y 0 m = Some w -> next_raw y 0 m' = Some (tag L y w)) -> path m' L x ps.
Proof.
  revert x. induction ps as [|p ps IH]; intros x; [done|]. intros [H1 H2] H. cbn [path]. split; [apply H; [by left|done]|]. apply IH; [done|]. intros y w Hy. apply H. by right.
Qed.
Lemma node_ok_shape m m' e : shape m' = shape m -> node_ok m e -> node_ok m' e.
Proof. intros H (h & Hh & Hs). exists h. by rewrite H. Qed.
(** A change of links of the lowest level. *)
Lemma rep_links L L' l m m' : rep L l m -> upd (fun _ i => i = 0%nat) m m' -> path m' L' HEAD (l.*1 ++ [0]) -> rep L' l m'.
Proof.
  intros [] [A1 A2 A3 A4 A5] Hp. split; rewrite ?A1, ?A2, ?A3, ?A4; try done.
  - apply (Forall_impl _ _ _ r_nodes0). intros x. by apply node_ok_shape.
  - intros i Hi. rewrite A5 by lia. by apply r_upper0.
Qed.
Lemma ptr_shape L l m x : rep L l m -> x ∈ HEAD :: l.*1 -> exists c, shape m !! x = Some (c, MAX_HEIGHT).
Proof.
  intros Hr. rewrite elem_of_cons, list_elem_of_fmap. intros [->|([q v] & -> & Hq)]; [apply (r_head _ _ _ Hr)|].
  pose proof (r_nodes _ _ _ Hr) as Hn. rewrite Forall_forall in Hn. destruct (Hn _ Hq) as (h & _ & Hs). eauto.
Qed.
Lemma removelast_ptrs (l : list (Z * Vma)) : removelast (HEAD :: l.*1 ++ [0]) = HEAD :: l.*1.
Proof. rewrite app_comm_cons. apply removelast_last. Qed.
Lemma MAX_pos : (0 < MAX_HEIGHT)%nat.
Proof. unfold MAX_HEIGHT. lia. Qed.
Lemma path_elem m L x ps y : path m L x ps -> y ∈ removelast (x :: ps) -> exists w, w ∈ ps /\ next_raw y 0 m = Some (tag L y w).
Proof.
  revert x. induction ps as [|p ps IH]; intros x; cbn [path]; [by intros _ ?%elem_of_nil|]. intros [H1 H2]. change (removelast (x :: p :: ps)) with (x :: removelast (p :: ps)).
  intros [->|Hy]%elem_of_cons; [exists p; split; [by left|done]|]. destruct (IH p H2 Hy) as (w & Hw & E). exists w. split; [by right|done].
Qed.
(** Unlocking one node of a locked list. *)
Lemma ptr_aligned L l m w : rep L l m -> w ∈ l.*1 ++ [0] -> aligned w.
Proof.
  intros Hr [Hw|Hw]%elem_of_app; [|apply list_elem_of_singleton in Hw as ->; apply aligned_0].
  destruct (ptr_shape L l m w Hr ltac:(by right)) as (c & Hs). by apply (r_addr _ _ _ Hr) in Hs as [Ha _].
Qed.
Lemma path_unlock p L m m' x ps : p ∉ L -> Forall aligned ps -> (forall y, y <> p -> next_raw y 0 m' = next_raw y 0 m) -> next_raw p 0 m' = ptr_strip <$> next_raw p 0 m ->
  path m (p :: L) x ps -> path m' L x ps.
Proof.
  intros Hp Ha Hother Hn. revert x. induction Ha as [|z ps Hz _ IH]; intros x; [done|]. intros [H1 H2]. cbn [path]. split; [|by apply IH]. destruct (decide (x = p)) as [->|Hx].
  - rewrite Hn, H1. cbn. unfold tag. rewrite decide_True by (by left). rewrite decide_False by done. f_equal. by apply strip_flag.
  - rewrite Hother, H1 by done. unfold tag. destruct (decide (x ∈ p :: L)) as [Hi|Hi], (decide (x ∈ L)) as [Hj|Hj]; try done; set_solver.
Qed.
Lemma ptrs_aligned L l m : rep L l m -> Forall aligned (l.*1 ++ [0]).
Proof. intros Hr. apply Forall_forall. intros w. by apply (ptr_aligned L l m). Qed.
Lemma unlock_ok p L l m : rep (p :: L) l m -> p ∉ L -> p ∈ HEAD :: l.*1 ->
  exists m', unlock_node p m = Some m' /\ rep L l m' /\ upd (fun x i => x = p /\ i = 0%nat) m m' /\ retired m' = retired m.
Proof.
  intros Hr Hp Hl. destruct (ptr_shape _ _ _ _ Hr Hl) as (c & Hs). pose proof (r_path _ _ _ Hr) as Hpath.
  destruct (path_elem m (p :: L) HEAD (l.*1 ++ [0]) p Hpath ltac:(by rewrite removelast_ptrs)) as (w & Hw & Eraw).
  destruct (update_next_ok p 0 ptr_strip m _ _ Hs Eraw MAX_pos) as (m' & E & Hu & Hn & Hret). exists m'. split; [done|]. split; [|done].
  apply (rep_links _ _ _ _ _ Hr); [by apply (upd_weaken _ _ _ _ Hu); intros ? ? [_ ->]|]. apply (path_unlock p L m); [done|by apply (ptrs_aligned _ _ _ Hr)| |by rewrite Hn, Eraw|done].
  intros y Hy. apply (upd_links _ _ _ Hu). naive_solver.
Qed.
Lemma unlock_list_ok g : forall l m, rep g l m -> NoDup g -> (forall p, p ∈ g -> p ∈ HEAD :: l.*1) -> exists m', unlock_list g m = Some m' /\ rep [] l m' /\ shape m' = shape m.
Proof.
  induction g as [|p g IH]; intros l m Hr Hd Hg; [by exists m|]. apply NoDup_cons in Hd as [Hp Hd]. destruct (unlock_ok p g l m Hr Hp (Hg p ltac:(by left))) as (m1 & E1 & Hr1 & Hu1 & _).
  destruct (IH l m1 Hr1 Hd) as (m' & E' & Hr' & Hs'); [intros q Hq; apply Hg; by right|]. exists m'. split; [|split; [done|by rewrite Hs', (upd_shape _ _ _ Hu1)]].
  unfold unlock_list. cbn [foldl mbind option_bind]. by rewrite E1.
Qed.
(** Locking one more node of the list. *)
Lemma tag_nil x w : tag [] x w = w.
Proof. unfold tag. by rewrite decide_False by (by intros ?%elem_of_nil). Qed.
Lemma path_lock p L m m' x ps : p ∉ L -> (forall y, y <> p -> next_raw y 0 m' = next_raw y 0 m) -> next_raw p 0 m' = (fun w => ptr_with_flag w LOCKED) <$> next_raw p 0 m ->
  path m L x ps -> path m' (L ++ [p]) x ps.
Proof.
  intros Hp Hother Hn. revert x. induction ps as [|z ps IH]; intros x; [done|]. intros [H1 H2]. cbn [path]. split; [|by apply IH]. destruct (decide (x = p)) as [->|Hx].
  - rewrite Hn, H1. cbn. unfold tag. rewrite decide_False by done. rewrite decide_True by set_solver. done.
  - rewrite Hother, H1 by done. unfold tag. destruct (decide (x ∈ L)) as [Hi|Hi], (decide (x ∈ L ++ [p])) as [Hj|Hj]; try done; set_solver.
Qed.
Lemma lock_one p L l m w : rep L l m -> p ∉ L -> p ∈ HEAD :: l.*1 -> next_raw p 0 m = Some w ->
  exists m', cas_next p 0 w (ptr_with_flag w LOCKED) m = Some (m', true) /\ rep (L ++ [p]) l m' /\ upd (fun x i => x = p /\ i = 0%nat) m m' /\ next_raw p 0 m' = Some (ptr_with_flag w LOCKED) /\ retired m' = retired m.
Proof.
  intros Hr Hp Hl Hw. destruct (ptr_shape _ _ _ _ Hr Hl) as (c & Hs). destruct (cas_ok p 0 (ptr_with_flag w LOCKED) m _ w Hs Hw MAX_pos) as (m' & E & Hu & Hn & Hret).
  exists m'. split; [done|]. split; [|done]. apply (rep_links _ _ _ _ _ Hr); [by apply (upd_weaken _ _ _ _ Hu); intros ? ? [_ ->]|].
  apply (path_lock p L m); [done| |by rewrite Hn, Hw|by apply (r_path _ _ _ Hr)]. intros y Hy. apply (upd_links _ _ _ Hu). naive_solver.
Qed.
Lemma clean_flags w : aligned w -> is_locked w = false /\ is_invalidated w = false.
Proof. intros Ha. unfold is_locked, is_invalidated. by rewrite (proj2 (strip_clean w Ha)). Qed.
Lemma headp_aligned L l1 l2 m : rep L (l1 ++ l2) m -> aligned (headp (l2.*1)).
Proof.
  intros Hr. destruct l2 as [|[q v] l2]; [apply aligned_0|]. apply (ptr_aligned _ _ _ _ Hr). rewrite fmap_app. apply elem_of_app. left. apply elem_of_app. right. by left.
Qed.
(** The walk ends at the first node behind the interval. *)
Lemma walk_stops L l1 l2 m s e g f : rep L (l1 ++ l2) m -> Forall (fun v => e <= vstart v) (l2.*2) -> next_raw (lastp HEAD (l1.*1)) 0 m = Some (ptr_with_flag (headp (l2.*1)) LOCKED) ->
  (0 < f)%nat -> lock_walk f s e (lastp HEAD (l1.*1)) g m = Some (m, g).
Proof.
  intros Hr He Hn Hf. destruct f as [|f]; [lia|]. cbn [lock_walk]. rewrite Hn. cbn [mbind option_bind]. rewrite (proj1 (strip_flag (headp (l2.*1)) LOCKED (headp_aligned _ _ _ _ Hr) ltac:(done))).
  destruct l2 as [|[q v] l2]; [done|]. cbn [fmap list_fmap headp fst snd] in *. apply Forall_cons in He as [He _]. destruct (Z.eqb_spec q 0); [done|].
  destruct (rep_node _ _ _ q v Hr) as (nd & -> & Hv & _); [apply elem_of_app; right; by left|]. cbn [mbind option_bind]. rewrite Hv. cbn in He. by replace (e <=? vstart v) with true by lia.
Qed.
Lemma link_of L l1 l2 m : rep L (l1 ++ l2) m -> next_raw (lastp HEAD (l1.*1)) 0 m = Some (tag L (lastp HEAD (l1.*1)) (headp (l2.*1))) /\ aligned (headp (l2.*1)).
Proof.
  intros Hr. split; [|by apply (headp_aligned _ _ _ _ Hr)].
  pose proof (r_path _ _ _ Hr) as Hp. rewrite fmap_app, <-app_assoc, path_app in Hp. destruct Hp as [_ Hp]. by destruct l2 as [|[q v] l2]; destruct Hp as [Hp _].
Qed.
Lemma lastp_in (l1 l2 : list (Z * Vma)) : lastp HEAD (l1.*1) ∈ HEAD :: (l1 ++ l2).*1.
Proof. pose proof (lastp_elem HEAD (l1.*1)) as H. rewrite fmap_app. set_solver. Qed.
Lemma pred_not_old L l1 q v l2 m : rep L (l1 ++ (q, v) :: l2) m -> q ∉ [lastp HEAD (l1.*1)].
Proof.
  intros Hr [E|[]%elem_of_nil]%elem_of_cons. pose proof (r_nodup _ _ _ Hr) as Hd. rewrite fmap_app in Hd. cbn in Hd. rewrite app_comm_cons in Hd.
  apply NoDup_app in Hd as (_ & Hd & _). apply (Hd q); [rewrite E; apply lastp_elem|by left].
Qed.
(** Locking an interval locks the node before it and the last area that overlaps it. *)
Lemma lock_ok s e l m : s < e -> rep [] l m -> ordered (l.*2) ->
  exists l1 lo l2 m', l = l1 ++ lo ++ l2 /\ is_cut s e (l1.*2) (lo.*2) (l2.*2) /\
    let g := lastp HEAD (l1.*1) :: lo.*1 in lock s e m = Some (m', g) /\ rep g l m' /\ upd (fun x i => x ∈ g /\ i = 0%nat) m m' /\ retired m' = retired m.
Proof.
  intros Hse Hr Ho. pose proof (rep_fuel _ _ _ Hr) as Hfu. destruct (get_pred_succ_ok s e m l Hr Ho (walk_fuel m) ltac:(lia)) as (l1 & lo & l2 & x & ps & -> & Hc & Hg).
  unfold lock. destruct (walk_fuel m) as [|f] eqn:Ef; [lia|]. cbn [lock_interval]. rewrite Ef, Hg. cbn [mbind option_bind lookup list_lookup].
  destruct (link_of _ _ _ _ Hr) as [Hn Ha]. rewrite tag_nil in Hn. rewrite Hn. cbn [mbind option_bind]. destruct (clean_flags _ Ha) as [-> ->]. destruct (strip_clean _ Ha) as [-> ->]. cbn [orb Z.eqb negb].
  destruct (lock_one _ _ _ _ _ Hr ltac:(by intros ?%elem_of_nil) (lastp_in l1 (lo ++ l2)) Hn) as (m1 & E1 & Hr1 & Hu1 & Hn1 & Hret1). rewrite E1. cbn [mbind option_bind negb].
  rewrite (walk_fuel_shape _ _ (upd_shape _ _ _ Hu1)), Ef. cbn [app] in Hr1. destruct Hc as [Hb Hlo]. exists l1, lo, l2. destruct lo as [|[q v] [|? ?]]; [| |done].
  - exists m1. split; [done|]. split; [done|]. cbn zeta. cbn [fmap list_fmap app] in *. split; [by rewrite (walk_stops [lastp HEAD (l1.*1)] l1 l2) by (done || lia)|]. split; [done|]. split; [|done].
    apply (upd_weaken _ _ _ _ Hu1). intros ? ? [-> ->]. split; [by left|done].
  - cbn [fmap list_fmap app headp fst snd] in *. destruct f as [|f]; [cbn in Hfu; rewrite length_app in Hfu; cbn in Hfu; lia|]. cbn [lock_walk]. rewrite Hn1. cbn [mbind option_bind].
    rewrite (proj1 (strip_flag q LOCKED Ha ltac:(done))). destruct (rep_node _ _ _ q v Hr) as (nd & _); [apply elem_of_app; right; by left|].
    assert (q <> 0) as Hq0. { destruct (ptr_shape _ _ _ q Hr) as (c & Hs); [right; rewrite fmap_app; apply elem_of_app; right; by left|]. apply (r_addr _ _ _ Hr) in Hs as [_ Hs]. lia. }
    destruct (Z.eqb_spec q 0); [done|]. clear nd. destruct (rep_node _ _ _ q v Hr1) as (nd & -> & Hv & Hve & _); [apply elem_of_app; right; by left|]. cbn [mbind option_bind]. rewrite Hv, Hve.
    unfold overlapping in Hlo. replace (e <=? vstart v) with false by lia. pose proof (pred_not_old _ _ _ _ _ _ Hr) as Hqp. replace (l1 ++ (q, v) :: l2) with ((l1 ++ [(q, v)]) ++ l2) in Hr1 by (by rewrite <-app_assoc).
    destruct (link_of _ _ _ _ Hr1) as [Hnq Haq]. rewrite fmap_app, lastp_app in Hnq. cbn [fmap list_fmap lastp fst] in Hnq. unfold tag in Hnq. rewrite decide_False in Hnq by done. rewrite Hnq. cbn [mbind option_bind].
    destruct (clean_flags _ Haq) as [_ ->]. destruct (strip_clean _ Haq) as [-> ->]. cbn [Z.eqb negb andb].
    destruct (lock_one q _ _ _ (headp (l2.*1)) Hr1 Hqp) as (m2 & E2 & Hr2 & Hu2 & Hn2 & Hret2); [right; rewrite fmap_app; apply elem_of_app; left; rewrite fmap_app; apply elem_of_app; right; by left|done|].
    rewrite E2. cbn [mbind option_bind negb]. replace (vend v <=? s) with false by lia. cbn [app] in *. exists m2. split; [done|]. split; [done|]. cbn zeta.
    split. { pose proof (walk_stops _ (l1 ++ [(q, v)]) l2 m2 s e [lastp HEAD (l1.*1); q] (S f) Hr2 Hb) as Hw. rewrite fmap_app, lastp_app in Hw. apply Hw; [exact Hn2|lia]. }
    split; [by rewrite <-app_assoc in Hr2|]. split; [|congruence]. apply (upd_trans _ _ _ _ _ _ Hu1 Hu2). intros ? ? [[-> ->]|[-> ->]]; set_solver.
Qed.

(** *** Replacing the locked nodes *)
(** New nodes: allocated, distinct and not in the list yet. *)
Record new_nodes (l ln : list (Z * Vma)) (m : VmaMap) : Prop := {
  nn_ok : Forall (node_ok m) ln;
  nn_nodup : NoDup (ln.*1);
  nn_fresh : forall p, p ∈ ln.*1 -> p ∉ (HEAD :: l.*1) }.
Lemma nodup_split (l1 lo l2 : list (Z * Vma)) : NoDup (HEAD :: (l1 ++ lo ++ l2).*1) ->
  NoDup (HEAD :: (l1 ++ l2).*1) /\ (forall x, x ∈ lo.*1 -> x ∉ (HEAD :: (l1 ++ l2).*1)) /\
  (forall x, x ∈ removelast (HEAD :: l1.*1) -> x <> lastp HEAD (l1.*1) /\ (x ∉ lo.*1) /\ x ∈ (HEAD :: l1.*1)) /\ (forall x, x ∈ l2.*1 -> x <> lastp HEAD (l1.*1) /\ (x ∉ lo.*1)).
Proof.
  rewrite !fmap_app. intros Hd. rewrite !app_comm_cons in Hd. apply NoDup_app in Hd as (H1 & H12 & Hd). apply NoDup_app in Hd as (H2 & H23 & H3). rewrite !app_comm_cons. split; [|split; [|split]].
  - apply NoDup_app. split; [done|]. split; [|done]. intros x Hx Hx2. apply (H12 x Hx). apply elem_of_app. by right.
  - intros x Hx [Hx1|Hx2]%elem_of_app; [apply (H12 x Hx1); apply elem_of_app; by left|by apply (H23 x)].
  - assert (HEAD :: l1.*1 = removelast (HEAD :: l1.*1) ++ [lastp HEAD (l1.*1)]) as E. { clear. generalize HEAD. induction (l1.*1) as [|p ps IH]; intros x; [done|]. change (removelast (x :: p :: ps)) with (x :: removelast (p :: ps)). cbn [app lastp]. by rewrite <-IH. }
    intros x Hx. assert (x ∈ HEAD :: l1.*1) as Hx' by (rewrite E; apply elem_of_app; by left). split; [|split; [|done]].
    + intros ->. rewrite E in H1. apply NoDup_app in H1 as (_ & H1 & _). apply (H1 _ Hx). by left.
    + intros Ho. apply (H12 x Hx'). apply elem_of_app. by left.
  - intros x Hx. split; [|intros Ho; by apply (H23 x)]. intros ->. apply (H12 (lastp HEAD (l1.*1)) (lastp_elem _ _)). apply elem_of_app. by right.
Qed.
Lemma path_splice m L x a b : path m L x (a ++ [headp (b ++ [0])]) -> path m L (headp (b ++ [0])) (tail (b ++ [0])) -> path m L x (a ++ b ++ [0]).
Proof. rewrite (path_app _ _ _ a (b ++ [0])), (path_app _ _ _ a [_]). intros [H1 H2] H3. split; [done|]. destruct b as [|k b]; cbn in *; tauto. Qed.
Lemma headp_app (b : list Z) : headp (b ++ [0]) = headp b.
Proof. by destruct b. Qed.
(** What a swap must establish. *)
Lemma rep_swap L l1 lo l2 ln m m' : let pred := lastp HEAD (l1.*1) in (forall x, x ∈ L -> x ∈ pred :: lo.*1) -> rep L (l1 ++ lo ++ l2) m -> new_nodes (l1 ++ lo ++ l2) ln m ->
  shape m' = shape m -> fresh m' = fresh m -> height m' = height m -> len m' = Z.of_nat (length (l1 ++ ln ++ l2)) mod u64_mod ->
  (forall x i, x ∉ pred :: lo.*1 -> x ∉ ln.*1 -> next_raw x i m' = next_raw x i m) -> (forall i, (1 <= i)%nat -> next_raw HEAD i m' = next_raw HEAD i m) ->
  path m' [] pred (ln.*1 ++ [headp (l2.*1)]) -> rep [] (l1 ++ ln ++ l2) m'.
Proof.
  intros pred HL Hr [Hok Hnd Hfr] Hs Hf Hh Hl Hframe Hup Hp. destruct (nodup_split _ _ _ (r_nodup _ _ _ Hr)) as (Hd & Hd1 & Hd2 & Hd3). rewrite fmap_app in Hd. rewrite !fmap_app in Hfr.
  assert (forall x, x ∈ HEAD :: l1.*1 \/ x ∈ l2.*1 -> x ∉ ln.*1) as Hnew.
  { intros x Hx Hin. apply (Hfr x Hin). destruct Hx as [Hx|Hx]; [apply elem_of_cons in Hx as [->|Hx]; [by left|right; apply elem_of_app; by left]|right; apply elem_of_app; right; apply elem_of_app; by right]. }
  split; rewrite ?Hs, ?Hf, ?Hh; try apply Hr; try done.
  - rewrite !fmap_app, <-app_assoc. apply path_app. pose proof (r_path _ _ _ Hr) as Hold. rewrite !fmap_app, <-!app_assoc in Hold. rewrite path_app in Hold. destruct Hold as [Ho1 Hold]. rewrite path_app in Hold. destruct Hold as [_ Ho2]. split.
    + apply (path_frame m m' L []); [|done]. intros y Hy. destruct (Hd2 y Hy) as (H1 & H2 & H3). split; [apply Hframe; [|by apply Hnew; left]|]; [set_solver|]. split; [intros Hin%HL; set_solver|by intros ?%elem_of_nil].
    + rewrite <-app_assoc. apply path_splice; [by rewrite headp_app|]. destruct l2 as [|[k w] l2]; [done|]. cbn [fmap list_fmap fst app headp tail path] in *. destruct Ho2 as [_ Ho2].
      apply (path_frame m m' L []); [|done]. intros y Hy. rewrite app_comm_cons, removelast_last in Hy. destruct (Hd3 y Hy) as (H1 & H2). split; [apply Hframe; [|by apply Hnew; right]|]; [set_solver|]. split; [intros Hin%HL; set_solver|by intros ?%elem_of_nil].
  - pose proof (r_nodes _ _ _ Hr) as Hn. rewrite !Forall_app in *. destruct Hn as (Hn1 & _ & Hn2). split; [|split].
    + apply (Forall_impl _ _ _ Hn1). intros e. by apply node_ok_shape.
    + apply (Forall_impl _ _ _ Hok). intros e. by apply node_ok_shape.
    + apply (Forall_impl _ _ _ Hn2). intros e. by apply node_ok_shape.
  - intros i Hi. rewrite Hup by lia. by apply (r_upper _ _ _ Hr).
  - rewrite !fmap_app. rewrite app_comm_cons in Hd |- *. apply NoDup_app in Hd as (N1 & N2 & N3). apply NoDup_app. split; [done|]. split.
    + intros x Hx [Hn|Hn]%elem_of_app; [|by apply (N2 x)]. apply (Hnew x); [by left|done].
    + apply NoDup_app. split; [done|]. split; [|done]. intros x Hx Hx2. apply (Hnew x); [by right|done].
Qed.
(** A loop whose body changes links of [P x]. *)
Lemma for_each_upd {A} (f : A -> VmaMap -> option VmaMap) (P : A -> Z -> nat -> Prop) (I : VmaMap -> Prop) (xs : list A) : forall m, I m ->
  (forall x m, x ∈ xs -> I m -> exists m', f x m = Some m' /\ upd (P x) m m' /\ I m' /\ retired m' = retired m) ->
  exists m', for_each f xs m = Some m' /\ upd (fun z i => exists x, x ∈ xs /\ P x z i) m m' /\ I m' /\ retired m' = retired m.
Proof.
  induction xs as [|x xs IH]; intros m HI Hf; [exists m; split; [done|]; split; [apply upd_refl|done]|].
  destruct (Hf x m ltac:(by left) HI) as (m1 & E1 & Hu1 & HI1 & Hr1). destruct (IH m1 HI1) as (m' & E' & Hu' & HI' & Hr'); [intros y k Hy; apply Hf; by right|].
  exists m'. cbn [for_each]. rewrite E1. cbn [mbind option_bind]. split; [done|]. split; [|split; [done|congruence]]. apply (upd_trans _ _ _ _ _ _ Hu1 Hu').
  intros z i [Hz|(y & Hy & Hz)]; [exists x; split; [by left|done]|exists y; split; [by right|done]].
Qed.
(** The loops below never change what nodes are apart from links. *)
Definition same_shape (m0 m : VmaMap) : Prop := shape m = shape m0.
Lemma elem_of_upper h i : i ∈ upper_levels h -> (1 <= i < h)%nat.
Proof. unfold upper_levels. rewrite list_elem_of_In, <-in_rev, in_seq. lia. Qed.
Lemma update_levels_ok p h f m c : shape m !! p = Some (c, MAX_HEIGHT) -> (h <= MAX_HEIGHT)%nat ->
  exists m', for_each (fun i => update_next p i f) (upper_levels h) m = Some m' /\ upd (fun x i => x = p /\ (1 <= i)%nat) m m' /\ retired m' = retired m.
Proof.
  intros Hs Hh. destruct (for_each_upd (fun i => update_next p i f) (fun i x j => x = p /\ j = i) (same_shape m) (upper_levels h) m) as (m' & E & Hu & _ & Hret); [done| |].
  - intros i m1 Hi%elem_of_upper Hsh. assert (shape m1 !! p = Some (c, MAX_HEIGHT)) as Hs1 by (by rewrite Hsh). destruct (shape_raw m1 p _ i Hs1) as [w Hw]; [cbn; lia|].
    destruct (update_next_ok p i f m1 _ w Hs1 Hw) as (m2 & E & Hu & _ & Hret); [cbn; lia|]. exists m2. repeat (split; [done|]). split; [|done]. unfold same_shape. by rewrite (upd_shape _ _ _ Hu).
  - exists m'. split; [done|]. split; [|done]. apply (upd_weaken _ _ _ _ Hu). intros x i (j & Hj%elem_of_upper & -> & ->). split; [done|lia].
Qed.
Lemma mark_deleted_ok p v m : node_ok m (p, v) -> exists m', mark_deleted p m = Some m' /\ upd (fun x i => x = p /\ (1 <= i)%nat) m m' /\ retired m' = retired m.
Proof.
  intros (h & Hh & Hs). cbn in Hs. unfold mark_deleted. destruct (shape_deref _ _ _ Hs) as (n & -> & Hc). injection Hc as _ _ _ Hnh _. cbn [mbind option_bind]. rewrite Hnh. apply (update_levels_ok _ _ _ _ _ Hs). lia.
Qed.
Lemma unlink_ok p v m : node_ok m (p, v) -> (forall i, (1 <= i < MAX_HEIGHT)%nat -> next_raw HEAD i m = Some 0) -> unlink p m = Some m.
Proof.
  intros (h & Hh & Hs) Hup. cbn in Hs. unfold unlink. destruct (shape_deref _ _ _ Hs) as (n & -> & Hc). injection Hc as _ _ _ Hnh _. cbn [mbind option_bind]. rewrite Hnh.
  assert (forall ks, (forall i, i ∈ ks -> (1 <= i < MAX_HEIGHT)%nat) -> for_each (fun i m => unlink_from (walk_fuel m) i p HEAD m) ks m = Some m) as Hloop.
  { induction ks as [|i ks IH]; intros Hi; [done|]. cbn [for_each]. unfold walk_fuel. cbn [unlink_from]. rewrite Hup by (apply Hi; by left). cbn [mbind option_bind]. change (ptr_strip 0 =? 0) with true. cbn iota. cbn [mbind option_bind]. apply IH. intros j Hj. apply Hi. by right. }
  apply Hloop. intros i Hi%elem_of_upper. lia.
Qed.
Lemma mark_invalidated_ok p v m : node_ok m (p, v) -> exists m', mark_invalidated p m = Some m' /\ upd (fun x i => x = p /\ i = 0%nat) m m' /\ retired m' = retired m.
Proof.
  intros (h & Hh & Hs). cbn in Hs. unfold mark_invalidated. destruct (shape_raw m p _ 0 Hs) as [w ->]; [cbn; apply MAX_pos|]. cbn [mbind option_bind].
  destruct (set_next_ok p 0 (ptr_with_flag (ptr_strip w) INVALIDATED) m _ Hs MAX_pos) as (m' & E & Hu & _ & Hret). eauto.
Qed.
Lemma removelast_sub (l : list Z) x : x ∈ removelast l -> x ∈ l.
Proof. destruct l as [|y l _] using rev_ind; [done|]. rewrite removelast_last. intros H. apply elem_of_app. by left. Qed.
(** Linking the new nodes at one level. *)
Definition wire_pair (i : nat) : Z * Z -> VmaMap -> option VmaMap := fun '(n0, n1) m => k ← deref n1 m; if (i <? nheight k)%nat then set_next n0 i n1 m else Some m.
Lemma wire_windows i ln : forall m, (i < MAX_HEIGHT)%nat -> Forall (node_ok m) ln -> NoDup (ln.*1) ->
  exists m', for_each (wire_pair i) (windows (ln.*1)) m = Some m' /\ upd (fun x j => x ∈ removelast (ln.*1) /\ j = i) m m' /\ retired m' = retired m /\
    (i = 0%nat -> match ln.*1 with [] => True | p :: ps => path m' [] p ps end).
Proof.
  induction ln as [|[p v] ln IH]; intros m Hi Hok Hd; [exists m; split; [done|]; split; [apply upd_refl|done]|]. destruct ln as [|[q w] ln]; [exists m; split; [done|]; split; [apply upd_refl|done]|].
  apply Forall_cons in Hok as [(hp & _ & Hp) Hok]. pose proof Hok as [(hq & Hhq & Hq) _]%Forall_cons. apply NoDup_cons in Hd as [Hpn Hd]. cbn [fmap list_fmap fst windows for_each] in *. fold (windows (q :: ln.*1)).
  assert (exists m1, wire_pair i (p, q) m = Some m1 /\ upd (fun x j => x = p /\ j = i) m m1 /\ retired m1 = retired m /\ (i = 0%nat -> next_raw p 0 m1 = Some q)) as (m1 & E1 & Hu1 & Hr1 & Hn1).
  { unfold wire_pair. destruct (shape_deref _ _ _ Hq) as (n & -> & Hc). injection Hc as _ _ _ Hnh _. cbn [mbind option_bind]. rewrite Hnh. destruct (Nat.ltb_spec i hq); [|exists m; split; [done|]; split; [apply upd_refl|split; [done|lia]]].
    destruct (set_next_ok p i q m _ Hp Hi) as (m1 & E & Hu & Hn & Hret). exists m1. repeat (split; [done|]). by intros ->. }
  rewrite E1. cbn [mbind option_bind]. destruct (IH m1 Hi) as (m' & E' & Hu' & Hr' & Hp'); [apply (Forall_impl _ _ _ Hok); intros x; by apply node_ok_shape, (upd_shape _ _ _ Hu1)|done|].
  exists m'. split; [done|]. split; [|split; [congruence|]].
  - apply (upd_trans _ _ _ _ _ _ Hu1 Hu'). change (removelast (p :: q :: ln.*1)) with (p :: removelast (q :: ln.*1)). intros x j [[-> ->]|[Hx ->]]; (split; [|done]); [by left|by right].
  - intros ->. split; [|by apply Hp']. rewrite (upd_links _ _ _ Hu'); [by rewrite tag_nil, Hn1|]. intros [Hx _]. apply Hpn. by apply removelast_sub.
Qed.
Lemma last_lastp x (ps : list Z) : ps <> [] -> last ps = Some (lastp x ps).
Proof. intros H. destruct ps as [|p ps _] using rev_ind; [done|]. by rewrite last_snoc, lastp_app. Qed.
Section Swap.
Context (l1 lo l2 ln : list (Z * Vma)) (Hone : (length lo <= 1)%nat).
Abbreviation pred := (lastp HEAD (l1.*1)).
Abbreviation old_list := (l1 ++ lo ++ l2).
(** What stays true while the new nodes are linked: nodes, and the links of the old list. *)
Definition swapping (m0 m : VmaMap) : Prop := shape m = shape m0 /\ forall x, x ∉ ln.*1 -> next_raw x 0 m = next_raw x 0 m0.
Lemma skip_old_ok i m : rep (pred :: lo.*1) old_list m -> (i < MAX_HEIGHT)%nat ->
  exists w x, next_raw pred 0 m = Some w /\ skip_old (length lo) i (ptr_strip w) m = Some x /\ (i = 0%nat -> x = headp (l2.*1)).
Proof.
  intros Hr Hi. destruct (link_of _ _ _ _ Hr) as [Hn Ha]. unfold tag in Hn. rewrite decide_True in Hn by (by left). exists (ptr_with_flag (headp ((lo ++ l2).*1)) LOCKED). rewrite (proj1 (strip_flag _ LOCKED Ha ltac:(done))).
  destruct lo as [|[q v] [|? ?]]; [|clear Hone|cbn in Hone; lia].
  - exists (headp (l2.*1)). by rewrite Hn.
  - cbn [fmap list_fmap headp app fst length skip_old] in *. destruct (ptr_shape _ _ _ q Hr) as (c & Hs); [right; rewrite fmap_app; apply elem_of_app; right; by left|].
    destruct (r_addr _ _ _ Hr _ _ Hs) as [_ Hq]. destruct (Z.eqb_spec q 0); [lia|]. unfold next_ptr. destruct i as [|i].
    + replace (l1 ++ (q, v) :: l2) with ((l1 ++ [(q, v)]) ++ l2) in Hr by (by rewrite <-app_assoc). destruct (link_of _ _ _ _ Hr) as [Hnq Haq]. rewrite fmap_app, lastp_app in Hnq. cbn [fmap list_fmap lastp fst] in Hnq.
      exists (headp (l2.*1)). rewrite Hnq. unfold tag. rewrite decide_True by (by right; left). cbn. by rewrite (proj1 (strip_flag _ LOCKED Haq ltac:(done))).
    + destruct (shape_raw m q _ (S i) Hs) as [w Hw]; [cbn; lia|]. exists (ptr_strip w). rewrite Hw. done.
Qed.
Lemma wire_level_ok i m : rep (pred :: lo.*1) old_list m -> new_nodes old_list ln m -> ln <> [] -> (i < MAX_HEIGHT)%nat ->
  exists m', wire_level pred (length lo) (ln.*1) i m = Some m' /\ upd (fun x j => x ∈ ln.*1 /\ j = i) m m' /\ retired m' = retired m /\
    (i = 0%nat -> match ln.*1 with [] => True | p :: ps => path m' [] p (ps ++ [headp (l2.*1)]) end).
Proof.
  intros Hr [Hok Hd Hf] Hne Hi. unfold wire_level. destruct (wire_windows i ln m Hi Hok Hd) as (m1 & E1 & Hu1 & Hr1 & Hp1). fold (wire_pair i). rewrite E1. cbn [mbind option_bind].
  destruct (exists_last Hne) as (ln' & [p v] & Eln). assert (last (ln.*1) = Some p) as -> by (by rewrite Eln, fmap_last, last_snoc).
  assert (node_ok m (p, v)) as (h & Hh & Hs) by (rewrite Forall_forall in Hok; apply Hok; rewrite Eln; apply elem_of_app; right; by left). cbn in Hs.
  assert (shape m1 !! p = Some (vstart v, vend v, v, h, MAX_HEIGHT)) as Hs1 by (by rewrite (upd_shape _ _ _ Hu1)). destruct (shape_deref _ _ _ Hs1) as (n & -> & Hc). injection Hc as _ _ _ Hnh _. cbn [mbind option_bind]. rewrite Hnh.
  assert (forall x, x ∈ HEAD :: (old_list).*1 -> forall j, next_raw x j m1 = next_raw x j m) as Hsame. { intros x Hx j. apply (upd_links _ _ _ Hu1). intros [Hx' _]. by apply (Hf x (removelast_sub _ _ Hx')). }
  destruct (Nat.ltb_spec i h) as [Hih|Hih]; [|exists m1; split; [done|]; split; [|split; [done|lia]]; apply (upd_weaken _ _ _ _ Hu1); intros x j [Hx ->]; split; [by apply removelast_sub|done]].
  destruct (skip_old_ok i m Hr Hi) as (w & x & Hw & Hx & Hx0). rewrite (Hsame pred) by apply lastp_in. rewrite Hw. cbn [mbind option_bind].
  assert (skip_old (length lo) i (ptr_strip w) m1 = Some x) as ->.
  { clear -Hx Hsame Hone Hw Hr. destruct lo as [|[q v] [|? ?]]; [done| |cbn in Hone; lia]. cbn [length skip_old] in *. destruct (ptr_strip w =? 0); [done|]. unfold next_ptr in *. rewrite Hsame; [done|].
    destruct (link_of _ _ _ _ Hr) as [Hn Ha]. cbn [app fmap list_fmap headp fst] in Hn, Ha. rewrite Hw in Hn. injection Hn as ->. unfold tag. rewrite decide_True by (by left). rewrite (proj1 (strip_flag _ LOCKED Ha ltac:(done))). cbn. right. rewrite fmap_app. apply elem_of_app. right. by left. }
  cbn [mbind option_bind]. destruct (set_next_ok p i x m1 _ Hs1 Hi) as (m' & E' & Hu' & Hn' & Hr'). exists m'. split; [done|]. split; [|split; [congruence|]].
  - apply (upd_trans _ _ _ _ _ _ Hu1 Hu'). intros y j [[Hy ->]|[-> ->]]; (split; [|done]); [by apply removelast_sub|]. rewrite Eln, fmap_app. apply elem_of_app. right. by left.
  - intros ->. specialize (Hx0 eq_refl). subst x. specialize (Hp1 eq_refl). destruct ln as [|[p0 v0] ln0]; [done|]. cbn [fmap list_fmap fst] in *. apply path_app. split.
    + apply (path_frame m1 m' [] []); [|done]. intros y Hy. split; [|done]. apply (upd_links _ _ _ Hu'). intros [-> _]. assert (p0 :: ln0.*1 = ln'.*1 ++ [p]) as E by (change (p0 :: ln0.*1) with (((p0, v0) :: ln0).*1); by rewrite Eln, fmap_app).
      rewrite E in Hd, Hy. rewrite removelast_last in Hy. apply NoDup_app in Hd as (_ & Hd & _). apply (Hd _ Hy). by left.
    + assert (lastp p0 (ln0.*1) = p) as ->. { change (lastp p0 (ln0.*1)) with (lastp 0 (((p0, v0) :: ln0).*1)). rewrite Eln, fmap_app, lastp_app. done. } split; [by rewrite tag_nil|done].
Qed.
End Swap.
Lemma rep_frame P L l m m' : rep L l m -> upd P m m' -> (forall x, x ∈ HEAD :: l.*1 -> ~ P x 0%nat) -> (forall i, (1 <= i)%nat -> ~ P HEAD i) -> rep L l m'.
Proof.
  intros Hr Hu H0 H1. destruct Hr. destruct Hu as [A1 A2 A3 A4 A5]. split; rewrite ?A1, ?A2, ?A3, ?A4; try done.
  - apply (path_frame m m' L L); [|done]. rewrite removelast_ptrs. intros y Hy. split; [|done]. apply A5. by apply H0.
  - apply (Forall_impl _ _ _ r_nodes0). intros x. by apply node_ok_shape.
  - intros i Hi. rewrite A5 by (apply H1; lia). by apply r_upper0.
Qed.
Lemma new_nodes_shape l ln m m' : shape m' = shape m -> new_nodes l ln m -> new_nodes l ln m'.
Proof. intros H [A B C]. split; try done. apply (Forall_impl _ _ _ A). intros e. by apply node_ok_shape. Qed.
Lemma push_all_retired ps m : Forall (fun p => p <> 0) ps -> foldl (fun m p => push_retired p m) m ps = set_retired (retired m ++ ps) m.
Proof.
  intros H. revert m. induction H as [|p ps Hp _ IH]; intros m; cbn [foldl]; [rewrite app_nil_r; by destruct m|]. rewrite IH. unfold push_retired. destruct (Z.eqb_spec p 0); [done|]. cbn. by rewrite <-app_assoc.
Qed.
Lemma heights_ok ln m : Forall (node_ok m) ln -> exists hs, heights (ln.*1) m = Some hs /\ Forall (fun h => 1 <= h <= MAX_HEIGHT)%nat hs /\ length hs = length ln.
Proof.
  induction 1 as [|[p v] ln (h & Hh & Hs) _ (hs & E & Hf & Hl)]; [by exists []|]. exists (h :: hs). unfold heights in *. cbn [fmap list_fmap fst mapM] in *. destruct (shape_deref _ _ _ Hs) as (n & -> & Hc). injection Hc as _ _ _ <- _. cbn.
  rewrite E. cbn. split; [done|]. split; [by constructor|by rewrite <-Hl].
Qed.
Lemma max_bounds hs : Forall (fun h => 1 <= h <= MAX_HEIGHT)%nat hs -> hs <> [] -> (1 <= foldr Nat.max 0 hs <= MAX_HEIGHT)%nat.
Proof.
  intros H. destruct H as [|h hs Hh H]; [done|]. intros _. cbn [foldr]. assert (foldr Nat.max 0 hs <= MAX_HEIGHT)%nat; [|lia]. induction H; cbn [foldr]; lia.
Qed.
Section Swap2.
Context (l1 lo l2 ln : list (Z * Vma)) (Hone : (length lo <= 1)%nat).
Abbreviation pred := (lastp HEAD (l1.*1)).
Abbreviation old_list := (l1 ++ lo ++ l2).
Lemma new_not_old m : new_nodes old_list ln m -> forall x, x ∈ HEAD :: (old_list).*1 -> x ∉ ln.*1.
Proof. intros Hn x Hx Hin. by apply (nn_fresh _ _ _ Hn x). Qed.
Lemma wire_upper ks : forall m, rep (pred :: lo.*1) old_list m -> new_nodes old_list ln m -> ln <> [] -> Forall (fun i => 1 <= i < MAX_HEIGHT)%nat ks ->
  exists m', for_each (wire_level pred (length lo) (ln.*1)) ks m = Some m' /\ upd (fun x j => x ∈ ln.*1 /\ (1 <= j)%nat) m m' /\ retired m' = retired m.
Proof.
  intros m Hr Hn Hne Hk. revert m Hr Hn. induction Hk as [|i ks Hi _ IH]; intros m Hr Hn; [exists m; split; [done|]; split; [apply upd_refl|done]|]. cbn [for_each].
  destruct (wire_level_ok l1 lo l2 ln Hone i m Hr Hn Hne ltac:(lia)) as (m1 & E1 & Hu1 & Hr1 & _). rewrite E1. cbn [mbind option_bind].
  destruct (IH m1) as (m' & E' & Hu' & Hr'). { apply (rep_frame _ _ _ _ _ Hr Hu1); [intros x Hx [Hx' _]; by apply (new_not_old m Hn x)|]. intros j _ [Hx' _]. apply (new_not_old m Hn HEAD); [by left|done]. }
  { by apply (new_nodes_shape _ _ m); [apply (upd_shape _ _ _ Hu1)|]. }
  exists m'. split; [done|]. split; [|congruence]. apply (upd_trans _ _ _ _ _ _ Hu1 Hu'). intros x j [[Hx ->]|Hx]; [split; [done|lia]|done].
Qed.
Lemma wire_all m : rep (pred :: lo.*1) old_list m -> new_nodes old_list ln m -> ln <> [] ->
  exists m' hs, heights (ln.*1) m = Some hs /\ for_each (wire_level pred (length lo) (ln.*1)) (seq 0 (foldr Nat.max 0%nat hs)) m = Some m' /\ upd (fun x j => x ∈ ln.*1) m m' /\ retired m' = retired m /\
    match ln.*1 with [] => True | p :: ps => path m' [] p (ps ++ [headp (l2.*1)]) end.
Proof.
  intros Hr Hn Hne. destruct (heights_ok ln m (nn_ok _ _ _ Hn)) as (hs & Eh & Hh & Hlen). destruct (max_bounds hs Hh) as [Hm1 Hm2]; [intros ->; by destruct ln|]. destruct (foldr Nat.max 0%nat hs) as [|k] eqn:Ek; [lia|].
  destruct (wire_level_ok l1 lo l2 ln Hone 0 m Hr Hn Hne MAX_pos) as (m1 & E1 & Hu1 & Hr1 & Hp1).
  destruct (wire_upper (seq 1 k) m1) as (m' & E' & Hu' & Hr').
  { apply (rep_frame _ _ _ _ _ Hr Hu1); [intros x Hx [Hx' _]; by apply (new_not_old m Hn x)|]. intros j _ [Hx' _]. apply (new_not_old m Hn HEAD); [by left|done]. }
  { by apply (new_nodes_shape _ _ m); [apply (upd_shape _ _ _ Hu1)|]. } { done. } { apply Forall_forall. intros i Hi. apply elem_of_seq in Hi. lia. }
  exists m', hs. split; [done|]. split; [rewrite Ek; cbn [seq for_each]; rewrite E1; done|]. split; [|split; [congruence|]].
  - apply (upd_trans _ _ _ _ _ _ Hu1 Hu'). by intros x j [[Hx _]|[Hx _]].
  - specialize (Hp1 eq_refl). destruct (ln.*1) as [|p ps]; [done|]. apply (path_frame m1 m' [] []); [|done]. intros y _. split; [|done]. apply (upd_links _ _ _ Hu'). intros [_ Hj]. lia.
Qed.
End Swap2.
(** Step 4 to 6: the commit, and what is left of the old nodes. *)
Lemma rep_old_nodes L l1 lo l2 m : rep L (l1 ++ lo ++ l2) m -> Forall (node_ok m) lo /\ Forall (fun p => p <> 0) (lo.*1) /\ (forall x, x ∈ lo.*1 -> x ∉ (HEAD :: (l1 ++ l2).*1)).
Proof.
  intros Hr. pose proof (r_nodes _ _ _ Hr) as Hn. rewrite !Forall_app in Hn. destruct Hn as (_ & Hn & _). split; [done|]. split; [|apply (nodup_split _ _ _ (r_nodup _ _ _ Hr))].
  apply Forall_fmap. apply (Forall_impl _ _ _ Hn). intros [p v] (h & _ & Hs). apply (r_addr _ _ _ Hr) in Hs as [_ Hs]. cbn in *. lia.
Qed.
Lemma finish_ok lo m : Forall (node_ok m) lo -> Forall (fun p => p <> 0) (lo.*1) ->
  exists m', (m1 ← for_each mark_invalidated (lo.*1) m; Some (foldl (fun m p => push_retired p m) m1 (lo.*1))) = Some m' /\ upd (fun x i => x ∈ lo.*1) m m' /\ retired m' = retired m ++ lo.*1.
Proof.
  intros Hok H0. destruct (for_each_upd mark_invalidated (fun p x i => x = p /\ i = 0%nat) (same_shape m) (lo.*1) m) as (m1 & E & Hu & _ & Hret); [done| |].
  - intros p m1 ([q v] & -> & Hq)%list_elem_of_fmap Hs. rewrite Forall_forall in Hok. destruct (mark_invalidated_ok q v m1) as (m2 & E & Hu & Hret); [by apply (node_ok_shape m); [|apply Hok]|].
    exists m2. repeat (split; [done|]). split; [|done]. unfold same_shape. by rewrite (upd_shape _ _ _ Hu).
  - rewrite E. cbn [mbind option_bind]. rewrite push_all_retired by done. eexists. split; [done|]. cbn. rewrite Hret. split; [|done]. destruct Hu as [A1 A2 A3 A4 A5]. split; try done.
    intros x i Hx. apply A5. intros (p & Hp & -> & _). done.
Qed.
Lemma mark_all_deleted L l1 lo l2 m : rep L (l1 ++ lo ++ l2) m ->
  exists m', for_each mark_deleted (lo.*1) m = Some m' /\ for_each unlink (lo.*1) m' = Some m' /\ upd (fun x i => x ∈ lo.*1 /\ (1 <= i)%nat) m m' /\ rep L (l1 ++ lo ++ l2) m' /\ retired m' = retired m.
Proof.
  intros Hr. destruct (rep_old_nodes _ _ _ _ _ Hr) as (Hok & _ & Hnot). destruct (for_each_upd mark_deleted (fun p x i => x = p /\ (1 <= i)%nat) (same_shape m) (lo.*1) m) as (m1 & E & Hu & _ & Hret); [done| |].
  - intros p m1 ([q v] & -> & Hq)%list_elem_of_fmap Hs. rewrite Forall_forall in Hok. destruct (mark_deleted_ok q v m1) as (m2 & E & Hu & Hret); [by apply (node_ok_shape m); [|apply Hok]|].
    exists m2. repeat (split; [done|]). split; [|done]. unfold same_shape. by rewrite (upd_shape _ _ _ Hu).
  - assert (upd (fun x i => x ∈ lo.*1 /\ (1 <= i)%nat) m m1) as Hu1 by (apply (upd_weaken _ _ _ _ Hu); by intros x i (p & Hp & -> & Hi)).
    assert (rep L (l1 ++ lo ++ l2) m1) as Hr1. { apply (rep_frame _ _ _ _ _ Hr Hu1); [intros x _ [_ Hi]; lia|]. intros i _ [Hx _]. apply (Hnot HEAD Hx). by left. }
    exists m1. split; [done|]. split; [|done]. destruct (rep_old_nodes _ _ _ _ _ Hr1) as (Hok1 & _ & _). clear -Hok1 Hr1.
    assert (forall ps, Forall (fun p => exists v, node_ok m1 (p, v)) ps -> for_each unlink ps m1 = Some m1) as Hloop.
    { induction 1 as [|p ps [v Hp] _ IH]; [done|]. cbn [for_each]. rewrite (unlink_ok p v m1 Hp); [done|]. apply (r_upper _ _ _ Hr1). }
    apply Hloop. apply Forall_fmap. apply (Forall_impl _ _ _ Hok1). intros [p v] Hp. by exists v.
Qed.
Lemma rep_set_len n L l m : rep L l m -> len m = n -> rep L l (set_len n m).
Proof. intros Hr <-. by destruct m. Qed.
Lemma upd_set_len n P m m' : upd P (set_len n m) m' -> shape m' = shape m /\ height m' = height m /\ len m' = n /\ fresh m' = fresh m /\ forall x i, ~ P x i -> next_raw x i m' = next_raw x i m.
Proof. by intros [A1 A2 A3 A4 A5]. Qed.
Lemma len_swap a o n b : u64_add (u64_sub (Z.of_nat (a + (o + b)) mod u64_mod) (Z.of_nat o)) (Z.of_nat n) = Z.of_nat (a + (n + b)) mod u64_mod.
Proof. unfold u64_add, u64_sub. rewrite Zminus_mod_idemp_l, Zplus_mod_idemp_l. f_equal. lia. Qed.
Lemma skip_old_len k z n m : skip_old k 0 z (set_len n m) = skip_old k 0 z m.
Proof.
  revert z. induction k as [|k IH]; intros z; cbn [skip_old]; [done|]. destruct (z =? 0); [apply IH|]. change (next_ptr z 0 (set_len n m)) with (next_ptr z 0 m). destruct (next_ptr z 0 m); cbn; [apply IH|done].
Qed.
Section Commit.
Context (l1 lo l2 ln : list (Z * Vma)).
Abbreviation pred := (lastp HEAD (l1.*1)).
Abbreviation old_list := (l1 ++ lo ++ l2).
(** The store that commits a swap, and the end of it. *)
Lemma commit_ok m m2 w : rep (pred :: lo.*1) old_list m -> new_nodes old_list ln m -> upd (fun x i => x ∈ ln.*1 \/ (x ∈ lo.*1 /\ (1 <= i)%nat)) m m2 -> retired m2 = retired m ->
  path m2 [] w (tail (ln.*1 ++ [headp (l2.*1)])) -> w = headp (ln.*1 ++ [headp (l2.*1)]) ->
  exists m', (m3 ← set_next pred 0 w (set_len (Z.of_nat (length (l1 ++ ln ++ l2)) mod u64_mod) m2); m4 ← for_each mark_invalidated (lo.*1) m3; Some (foldl (fun m p => push_retired p m) m4 (lo.*1))) = Some m' /\
    rep [] (l1 ++ ln ++ l2) m' /\ shape m' = shape m /\ retired m' = retired m ++ lo.*1.
Proof.
  intros Hr Hn Hu2 Hret2 Hp Hw. destruct (rep_old_nodes _ _ _ _ _ Hr) as (Hok & Hz & Hnot). pose proof (lastp_in l1 (lo ++ l2)) as Hpin. destruct (ptr_shape _ _ _ _ Hr Hpin) as (c & Hs).
  rewrite <-(upd_shape _ _ _ Hu2) in Hs. destruct (set_next_ok pred 0 w (set_len (Z.of_nat (length (l1 ++ ln ++ l2)) mod u64_mod) m2) _ Hs MAX_pos) as (m3 & -> & Hu3 & Hn3 & Hret3). cbn [mbind option_bind].
  apply upd_set_len in Hu3 as (S3 & H3 & L3 & F3 & U3). destruct (finish_ok lo m3) as (m' & E' & [S4 H4 L4 F4 U4] & Hret4); [apply (Forall_impl _ _ _ Hok); intros x; apply node_ok_shape; by rewrite S3, (upd_shape _ _ _ Hu2)|done|].
  exists m'. split; [done|]. assert (pred ∉ lo.*1) as Hpl by (intros Hx; apply (Hnot _ Hx); apply lastp_in). pose proof (upd_links _ _ _ Hu2) as U2. assert (shape m' = shape m) as Hsh by (by rewrite S4, S3, (upd_shape _ _ _ Hu2)).
  assert (pred ∉ ln.*1) as Hpn by (by apply (new_not_old l1 lo l2 ln m)). split; [|split; [done|rewrite Hret4, Hret3; cbn; by rewrite Hret2]].
  apply (rep_swap (pred :: lo.*1) l1 lo l2 ln m m'); try done.
  - by rewrite F4, F3, (upd_fresh _ _ _ Hu2).
  - by rewrite H4, H3, (upd_height _ _ _ Hu2).
  - by rewrite L4, L3.
  - intros x i Hx1 Hx2. rewrite U4, U3, U2; set_solver.
  - intros i Hi. rewrite U4, U3, U2; [done| | |].
    + intros [Hx|[Hx _]]; [apply (new_not_old l1 lo l2 ln m Hn HEAD); [by left|done]|apply (Hnot _ Hx); by left].
    + intros [_ ->]. lia.
    + intros Hx. apply (Hnot _ Hx). by left.
  - destruct (ln.*1 ++ [headp (l2.*1)]) as [|z ps] eqn:E; [by destruct (ln.*1)|]. cbn [path]. cbn in Hw, Hp. subst w. split; [rewrite U4, Hn3 by done; by rewrite tag_nil|].
    apply (path_frame m2 m' [] []); [|done]. intros y Hy. split; [|done]. assert (z :: ps = ln.*1 ++ [headp (l2.*1)]) as E2 by done. rewrite E2, removelast_last in Hy. pose proof (nn_fresh _ _ _ Hn y Hy) as Hfy.
    rewrite U4, U3; [done|intros [-> _]; by apply Hpn|]. intros Hx. apply Hfy. right. rewrite !fmap_app. apply elem_of_app. right. apply elem_of_app. by left.
Qed.
End Commit.
Lemma swap_ok l1 lo l2 ln m : let pred := lastp HEAD (l1.*1) in (length lo <= 1)%nat -> rep (pred :: lo.*1) (l1 ++ lo ++ l2) m -> new_nodes (l1 ++ lo ++ l2) ln m ->
  exists m', swap_interval (pred :: lo.*1) (ln.*1) m = Some m' /\ rep [] (l1 ++ ln ++ l2) m' /\ shape m' = shape m /\ retired m' = retired m ++ lo.*1.
Proof.
  intros pred Hone Hr Hn. subst pred. unfold swap_interval. cbn [lookup list_lookup tail mbind option_bind]. destruct (mark_all_deleted _ _ _ _ _ Hr) as (m1 & E1 & E2 & Hu1 & Hr1 & Hret1). rewrite E1. cbn [mbind option_bind]. rewrite E2. cbn [mbind option_bind].
  pose proof (new_nodes_shape _ _ _ _ (upd_shape _ _ _ Hu1) Hn) as Hn1. rewrite length_fmap. destruct (decide (ln = [])) as [->|Hne].
  - cbn [fmap list_fmap]. destruct (skip_old_ok l1 lo l2 Hone 0 m1 Hr1 MAX_pos) as (w & x & Hw & Hx & Hx0). specialize (Hx0 eq_refl). subst x. change (next_ptr (lastp HEAD (l1.*1)) 0 (set_len (u64_sub (len m1) (Z.of_nat (length lo))) m1)) with (next_ptr (lastp HEAD (l1.*1)) 0 m1). unfold next_ptr. rewrite Hw. cbn [fmap option_fmap option_map mbind option_bind].
    rewrite skip_old_len.
    rewrite Hx. cbn [mbind option_bind]. replace (u64_sub (len m1) (Z.of_nat (length lo))) with (Z.of_nat (length (l1 ++ [] ++ l2)) mod u64_mod).
    + apply (commit_ok l1 lo l2 [] m m1 (headp (l2.*1))); try done. apply (upd_weaken _ _ _ _ Hu1). intros x i Hi. by right.
    + rewrite (r_len _ _ _ Hr1). pose proof (len_swap (length l1) (length lo) 0 (length l2)) as Hl. rewrite !length_app. cbn [length]. rewrite <-Hl. unfold u64_add. rewrite Z.add_0_r. symmetry. unfold u64_sub. by rewrite Z.mod_mod by (unfold u64_mod; lia).
  - destruct (wire_all l1 lo l2 ln Hone m1 Hr1 Hn1 Hne) as (m2 & hs & Eh & E3 & Hu2 & Hret2 & Hp). destruct (ln.*1) as [|first rest] eqn:Eln; [by destruct ln|]. rewrite Eh. cbn [mbind option_bind]. rewrite E3. cbn [mbind option_bind].
    replace (u64_add (u64_sub (len m2) (Z.of_nat (length lo))) (Z.of_nat (length (first :: rest)))) with (Z.of_nat (length (l1 ++ ln ++ l2)) mod u64_mod).
    + apply (commit_ok l1 lo l2 ln m m2 first); rewrite ?Eln; try done; [|congruence]. apply (upd_trans _ _ _ _ _ _ Hu1 Hu2). intros x i [Hx|Hx]; [by right|by left].
    + rewrite (upd_len _ _ _ Hu2), (r_len _ _ _ Hr1), !length_app. rewrite <-Eln, length_fmap. symmetry. apply len_swap.
Qed.

(** *** Allocation *)
Lemma height_loop_ok f : forall h m, exists sd h', height_loop f h m = (mkMap (heap m) (height m) (len m) (retired m) (fresh m) sd, h') /\ (h <= h' <= h + f)%nat.
Proof.
  induction f as [|f IH]; intros h m; cbn [height_loop]; [exists (seed m), h; split; [by destruct m|lia]|]. destruct (random_u32_bounded FRACTION_DEN m) as [m1 r] eqn:E. destruct (IH (S h) m1) as (sd & h' & E2 & Hh). unfold random_u32_bounded in E. injection E as <- _.
  destruct (r <? FRACTION_NUM); [|eexists _, h; split; [reflexivity|lia]]. rewrite E2. exists sd, h'. split; [done|lia].
Qed.
Lemma random_height_ok m : exists sd h, random_height m = (mkMap (heap m) (height m) (len m) (retired m) (fresh m) sd, h) /\ (1 <= h <= MAX_HEIGHT)%nat.
Proof. destruct (height_loop_ok (MAX_HEIGHT - 1) 1 m) as (sd & h & E & Hh). exists sd, h. split; [done|]. unfold MAX_HEIGHT in *. lia. Qed.
Lemma rep_alloc L l m v h sd p m' : rep L l m -> (1 <= h <= MAX_HEIGHT)%nat -> node_new v h (mkMap (heap m) (height m) (len m) (retired m) (fresh m) sd) = (m', p) ->
  rep L l m' /\ node_ok m' (p, v) /\ (forall e, node_ok m e -> node_ok m' e) /\ p = fresh m /\ fresh m' = fresh m + 4 /\ retired m' = retired m /\ height m' = height m /\ (p ∉ HEAD :: l.*1).
Proof.
  intros Hr Hh [= <- <-]. assert (shape m !! fresh m = None) as Hfresh. { destruct (shape m !! fresh m) as [c|] eqn:E; [|done]. apply (r_addr _ _ _ Hr) in E. lia. }
  set (m' := mkMap _ _ _ _ _ _). assert (shape m' = <[fresh m := (vstart v, vend v, v, h, MAX_HEIGHT)]> (shape m)) as Hs by (unfold shape, m'; cbn [heap]; rewrite fmap_insert; unfold core; cbn; done).
  assert (forall x i, x <> fresh m -> next_raw x i m' = next_raw x i m) as Hl. { intros x i Hx. unfold next_raw, deref, m'. cbn [heap]. by rewrite lookup_insert_ne. }
  assert (forall x, x ∈ HEAD :: l.*1 -> x <> fresh m) as Hold. { intros x Hx ->. destruct (ptr_shape _ _ _ _ Hr Hx) as (c & Hc). congruence. }
  assert (forall e, node_ok m e -> node_ok m' e) as Hok. { intros e (k & Hk & Hc). exists k. split; [done|]. rewrite Hs, lookup_insert_ne; [done|]. intros E. congruence. }
  split; [|split; [exists h; split; [done|]; by rewrite Hs, lookup_insert_eq|split; [done|repeat (split; [done|])]]]; [|intros Hx; by apply (Hold (fresh m))].
  destruct Hr. split; cbn [fresh height len m']; try done.
  - apply (path_frame m m' L L); [|done]. rewrite removelast_ptrs. intros y Hy. split; [|done]. apply Hl. by apply Hold.
  - apply (Forall_impl _ _ _ r_nodes0). done.
  - destruct r_head0 as (c & Hc). exists c. rewrite Hs, lookup_insert_ne; [done|]. apply not_eq_sym, Hold. by left.
  - intros i Hi. rewrite Hl by (apply Hold; by left). by apply r_upper0.
  - intros q c. rewrite Hs. destruct (decide (fresh m = q)) as [<-|Hq]; [|rewrite lookup_insert_ne by done; intros Hc; apply r_addr0 in Hc; naive_solver lia].
    intros _. split; [done|]. destruct r_head0 as (c' & Hc). apply r_addr0 in Hc. unfold HEAD in Hc. lia.
  - by apply aligned_add.
Qed.
Lemma node_random_ok L l m v : rep L l m -> exists m' p, node_random v m = (m', p) /\
  rep L l m' /\ node_ok m' (p, v) /\ (forall e, node_ok m e -> node_ok m' e) /\ p = fresh m /\ fresh m' = fresh m + 4 /\ retired m' = retired m /\ height m' = height m /\ (p ∉ HEAD :: l.*1).
Proof.
  intros Hr. unfold node_random. destruct (random_height_ok m) as (sd & h & -> & Hh). destruct (node_new v h _) as [m' p] eqn:E. exists m', p. split; [done|]. by apply (rep_alloc L l m v h sd).
Qed.
Lemma nodes_for_ok vs : forall L l m, rep L l m ->
  exists m' ln, nodes_for vs m = (m', ln.*1) /\ ln.*2 = vs /\ rep L l m' /\ new_nodes l ln m' /\ (forall e, node_ok m e -> node_ok m' e) /\ (forall p, p ∈ ln.*1 -> fresh m <= p) /\ retired m' = retired m.
Proof.
  induction vs as [|v vs IH]; intros L l m Hr; cbn [nodes_for]; [exists m, []; repeat (split; [done|]); split; [split; [constructor|constructor|by intros p ?%elem_of_nil]|split; [done|split; [by intros p ?%elem_of_nil|done]]]|].
  destruct (node_random_ok L l m v Hr) as (m1 & p & -> & Hr1 & Hok1 & Hk1 & Hp & Hf1 & Hret1 & _ & Hnp). destruct (IH L l m1 Hr1) as (m' & ln & -> & Ev & Hr' & [A B C] & Hk' & Hf' & Hret').
  exists m', ((p, v) :: ln). cbn. split; [done|]. split; [by rewrite <-Ev|]. split; [done|]. split; [|split; [by eauto|split; [|congruence]]].
  - split; cbn; [constructor; [by apply Hk'|done]|constructor; [|done]|].
    + intros Hin. specialize (Hf' p Hin). lia.
    + intros q [->|Hq]%elem_of_cons; [done|by apply C].
  - intros q [->|Hq]%elem_of_cons; [lia|]. specialize (Hf' q Hq). lia.
Qed.

(** ** What the operations do to the list of areas
    The code's own effect on the list, in which the pointer structure is abstracted
    away; the contract it is compared with is [c_step] below. *)
Definition s_merge (a : list Vma) (v : Vma) (b : list Vma) : list Vma :=
  match last a with
  | Some p => if can_merge_with p v then removelast a ++ merged_vma p v :: b else match b with n :: b' => if can_merge_with v n then a ++ merged_vma v n :: b' else a ++ v :: b | [] => a ++ [v] end
  | None => match b with n :: b' => if can_merge_with v n then merged_vma v n :: b' else v :: b | [] => [v] end
  end.
Definition s_insert (v : Vma) (vs : list Vma) : list Vma * bool :=
  if vend v <=? vstart v then (vs, false)
  else let '(a, o, b) := cut (vstart v) (vend v) vs in if bool_decide (o = []) then (s_merge a v b, true) else (vs, false).
Definition s_remove (s e : Z) (vs : list Vma) : list Vma := if e <=? s then vs else let '(a, o, b) := cut s e vs in a ++ b.
Definition s_update (s e f : Z) (vs : list Vma) : list Vma := if e <=? s then vs else let '(a, o, b) := cut s e vs in a ++ concat (map (flag_pieces s e f) o) ++ b.

(** Locking where the cut is known. *)
Lemma lock_at s e l1 lo l2 m : s < e -> rep [] (l1 ++ lo ++ l2) m -> ordered ((l1 ++ lo ++ l2).*2) -> is_cut s e (l1.*2) (lo.*2) (l2.*2) ->
  exists m', let g := lastp HEAD (l1.*1) :: lo.*1 in lock s e m = Some (m', g) /\ rep g (l1 ++ lo ++ l2) m' /\ shape m' = shape m /\ fresh m' = fresh m /\ retired m' = retired m.
Proof.
  intros Hse Hr Ho Hc. destruct (lock_ok s e _ m Hse Hr Ho) as (k1 & ko & k2 & m' & E & Hk & Hl & Hr' & Hu & Hret).
  assert (forall x y : list (Z * Vma), ordered ((x ++ y).*2) -> Forall (fun v => vstart v < vend v) (y.*2)) as Hne. { intros x y. rewrite fmap_app. intros (_ & [_ H] & _)%ordered_app. done. }
  pose proof (cut_spec s e _ _ _ Hse ltac:(apply (Hne (l1 ++ lo) l2); by rewrite <-app_assoc) Hc) as E1. pose proof (cut_spec s e _ _ _ Hse ltac:(apply (Hne (k1 ++ ko) k2); by rewrite <-app_assoc, <-E) Hk) as E2.
  rewrite <-!fmap_app in E1, E2. rewrite E, E2 in E1. injection E1 as F1 F2 _. apply (f_equal length) in F1. apply (f_equal length) in F2. rewrite !length_fmap in F1, F2.
  apply app_inj_1 in E as [-> E]; [|done]. apply app_inj_1 in E as [-> ->]; [|done]. exists m'. cbn zeta. split; [done|]. split; [done|]. split; [apply (upd_shape _ _ _ Hu)|]. split; [apply (upd_fresh _ _ _ Hu)|done].
Qed.
(** Locking and what the reference cuts. *)
Lemma lock_cut s e l m : s < e -> rep [] l m -> ordered (l.*2) ->
  exists l1 lo l2 m', l = l1 ++ lo ++ l2 /\ cut s e (l.*2) = (l1.*2, lo.*2, l2.*2) /\ is_cut s e (l1.*2) (lo.*2) (l2.*2) /\ (length lo <= 1)%nat /\
    lock s e m = Some (m', lastp HEAD (l1.*1) :: lo.*1) /\ rep (lastp HEAD (l1.*1) :: lo.*1) l m' /\ shape m' = shape m.
Proof.
  intros Hse Hr Ho. destruct (lock_ok s e _ m Hse Hr Ho) as (l1 & lo & l2 & m' & -> & Hc & Hl & Hr' & Hu & Hret). exists l1, lo, l2, m'. split; [done|]. rewrite !fmap_app in Ho |- *.
  apply ordered_app in Ho as (_ & Ho & _). apply ordered_app in Ho as (_ & [_ Ho] & _). split; [by apply cut_spec|]. split; [done|]. split; [|split; [done|split; [done|apply (upd_shape _ _ _ Hu)]]].
  destruct Hc as [_ Hc]. destruct lo as [|? [|? ?]]; cbn in *; [lia|lia|done].
Qed.
Lemma unlock_guard l1 lo l2 m : rep (lastp HEAD (l1.*1) :: lo.*1) (l1 ++ lo ++ l2) m -> (length lo <= 1)%nat ->
  exists m', unlock_interval (lastp HEAD (l1.*1) :: lo.*1) m = Some m' /\ rep [] (l1 ++ lo ++ l2) m' /\ shape m' = shape m.
Proof.
  intros Hr Hone. apply unlock_list_ok; [done| |].
  - destruct lo as [|[q v] [|? ?]]; [|apply pred_not_old in Hr; cbn; apply NoDup_cons; split; [set_solver|apply NoDup_singleton]|cbn in Hone; lia]. apply NoDup_singleton.
  - intros p [->|Hp]%elem_of_cons; [apply lastp_in|]. right. rewrite !fmap_app. apply elem_of_app. right. apply elem_of_app. by left.
Qed.
Lemma remove_ok s e l m : rep [] l m -> ordered (l.*2) -> exists m' l', remove s e m = Some m' /\ rep [] l' m' /\ l'.*2 = s_remove s e (l.*2).
Proof.
  intros Hr Ho. unfold remove, s_remove. destruct (Z.leb_spec e s) as [|Hse]; [by exists m, l|]. destruct (lock_cut s e l m Hse Hr Ho) as (l1 & lo & l2 & m1 & E & Hcut & _ & Hone & Hl & Hr1 & Hs1).
  rewrite Hl, Hcut. cbn [mbind option_bind length]. rewrite length_fmap. destruct lo as [|x lo].
  - cbn [length Nat.leb]. subst l. destruct (unlock_guard _ _ _ _ Hr1 ltac:(cbn; lia)) as (m2 & E2 & Hr2 & _). exists m2, (l1 ++ l2). by rewrite fmap_app.
  - cbn [length Nat.leb]. subst l. destruct (swap_ok l1 (x :: lo) l2 [] m1 Hone Hr1) as (m2 & E2 & Hr2 & _); [split; [constructor|constructor|by intros p ?%elem_of_nil]|].
    exists m2, (l1 ++ l2). cbn [fmap list_fmap] in E2. rewrite fmap_app. done.
Qed.
Lemma vmas_of_ok l m : Forall (node_ok m) l -> vmas_of (l.*1) m = Some (l.*2).
Proof.
  induction 1 as [|[p v] l (h & _ & Hs) _ IH]; [done|]. unfold vmas_of in *. cbn [fmap list_fmap fst snd mapM] in *. destruct (shape_deref _ _ _ Hs) as (n & -> & Hc). injection Hc as _ _ <- _ _. cbn. by rewrite IH.
Qed.
Lemma update_flags_ok s e f l m : rep [] l m -> ordered (l.*2) -> exists m' l', update_flags s e f m = Some m' /\ rep [] l' m' /\ l'.*2 = s_update s e f (l.*2).
Proof.
  intros Hr Ho. unfold update_flags, s_update. destruct (Z.leb_spec e s) as [|Hse]; [by exists m, l|]. destruct (lock_cut s e l m Hse Hr Ho) as (l1 & lo & l2 & m1 & E & Hcut & _ & Hone & Hl & Hr1 & Hs1).
  rewrite Hl, Hcut. cbn [mbind option_bind tail]. subst l. rewrite vmas_of_ok by apply (rep_old_nodes _ _ _ _ _ Hr1). cbn [mbind option_bind].
  destruct (nodes_for_ok (concat (map (flag_pieces s e f) (lo.*2))) _ _ _ Hr1) as (m2 & ln & -> & Ev & Hr2 & Hn2 & _). destruct (swap_ok l1 lo l2 ln m2 Hone Hr2 Hn2) as (m3 & E3 & Hr3 & _).
  exists m3, (l1 ++ ln ++ l2). split; [done|]. split; [done|]. by rewrite !fmap_app, Ev.
Qed.
Lemma walk_to_ok l1 p v l2 m : rep [] (l1 ++ (p, v) :: l2) m -> forall b a fuel, l1 = a ++ b -> (length b < fuel)%nat -> walk_to fuel p (lastp HEAD (a.*1)) m = Some (lastp HEAD (l1.*1)).
Proof.
  intros Hr. induction b as [|[q u] b IH]; intros a [|f] E Hf; try (cbn in Hf; lia); cbn [walk_to]; unfold next_ptr.
  - rewrite app_nil_r in E. subst a. destruct (link_of _ _ _ _ Hr) as [-> Ha]. rewrite tag_nil. cbn [fmap list_fmap headp fst option_fmap option_map mbind option_bind] in *. rewrite (proj1 (strip_clean _ Ha)), Z.eqb_refl. by rewrite orb_true_r.
  - rewrite E, <-app_assoc in Hr. destruct (link_of _ _ _ _ Hr) as [-> Ha]. rewrite tag_nil. cbn [fmap list_fmap headp fst app option_fmap option_map mbind option_bind] in *. rewrite (proj1 (strip_clean _ Ha)).
    destruct (ptr_shape _ _ _ q Hr) as (c & Hs); [right; rewrite fmap_app; apply elem_of_app; right; by left|]. destruct (r_addr _ _ _ Hr _ _ Hs) as [_ Hq]. destruct (Z.eqb_spec q 0); [lia|].
    destruct (Z.eqb_spec q p) as [->|_]; [exfalso|].
    + pose proof (r_nodup _ _ _ Hr) as Hd. apply NoDup_cons in Hd as [_ Hd]. rewrite fmap_app in Hd. apply NoDup_app in Hd as (_ & _ & Hd). cbn in Hd. apply NoDup_cons in Hd as [Hd _]. apply Hd. rewrite fmap_app. apply elem_of_app. right. by left.
    + cbn [orb]. rewrite <-(IH (a ++ [(q, u)]) f); [|by rewrite <-app_assoc|cbn in Hf; lia]. by rewrite fmap_app, lastp_app.
Qed.
(** Taking the successor of a node out of the list. *)
Lemma drop_next k1 b vb l2 m hb : rep [] (k1 ++ [(b, vb)] ++ l2) m -> (hb <= MAX_HEIGHT)%nat ->
  exists m', (succ ← next_ptr b 0 m; m ← for_each (fun i => update_next b i (fun raw => ptr_with_flag (ptr_strip raw) LOCKED)) (upper_levels hb) m;
              m ← set_next (lastp HEAD (k1.*1)) 0 succ (set_len (u64_sub (len m) 1) m); Some (push_retired b m, true)) = Some (m', true) /\ rep [] (k1 ++ l2) m'.
Proof.
  intros Hr Hh. destruct (rep_old_nodes _ _ _ _ _ Hr) as (_ & _ & Hnot). destruct (link_of [] (k1 ++ [(b, vb)]) l2 m) as [Hn Ha]; [by rewrite <-app_assoc|]. rewrite fmap_app, lastp_app, tag_nil in Hn. cbn [fmap list_fmap lastp fst] in Hn.
  unfold next_ptr. rewrite Hn. cbn [fmap option_fmap option_map mbind option_bind]. rewrite (proj1 (strip_clean _ Ha)).
  destruct (ptr_shape _ _ _ b Hr) as (c & Hs); [right; rewrite !fmap_app; apply elem_of_app; right; apply elem_of_app; left; by left|].
  destruct (update_levels_ok b hb (fun raw => ptr_with_flag (ptr_strip raw) LOCKED) m c Hs Hh) as (m1 & -> & Hu1 & Hret1). cbn [mbind option_bind].
  destruct (ptr_shape _ _ _ _ Hr (lastp_in k1 ([(b, vb)] ++ l2))) as (c' & Hs'). rewrite <-(upd_shape _ _ _ Hu1) in Hs'.
  destruct (set_next_ok _ 0 (headp (l2.*1)) (set_len (u64_sub (len m1) 1) m1) _ Hs' MAX_pos) as (m2 & -> & Hu2 & Hn2 & Hret2). cbn [mbind option_bind]. eexists. split; [done|].
  destruct (r_addr _ _ _ Hr _ _ Hs) as [_ Hb]. unfold push_retired. destruct (Z.eqb_spec b 0); [lia|]. apply upd_set_len in Hu2 as (S2 & H2 & L2 & F2 & U2). pose proof (upd_links _ _ _ Hu1) as U1.
  assert (b ∉ HEAD :: (k1 ++ l2).*1) as Hbn by (apply Hnot; by left). change (k1 ++ l2) with (k1 ++ [] ++ l2). apply (rep_swap [] k1 [(b, vb)] l2 [] m); cbn [fresh height len set_retired]; try done.
  - by intros x ?%elem_of_nil.
  - split; [constructor|constructor|by intros p ?%elem_of_nil].
  - change (shape m2 = shape m). by rewrite S2, (upd_shape _ _ _ Hu1).
  - by rewrite F2, (upd_fresh _ _ _ Hu1).
  - by rewrite H2, (upd_height _ _ _ Hu1).
  - rewrite L2, (upd_len _ _ _ Hu1), (r_len _ _ _ Hr), !length_app. cbn [length]. unfold u64_sub. rewrite Zminus_mod_idemp_l. f_equal. lia.
  - intros x i Hx _. change (next_raw x i (set_retired (retired m2 ++ [b]) m2)) with (next_raw x i m2). rewrite U2, U1; [done| |]; intros [-> _]; set_solver.
  - intros i Hi. change (next_raw HEAD i (set_retired (retired m2 ++ [b]) m2)) with (next_raw HEAD i m2). rewrite U2, U1; [done| |]; [intros [<- _]; apply Hbn; by left|intros [_ ->]; lia].
Qed.
Lemma merge_ok l1 a va b vb l2 m : rep [] (l1 ++ (a, va) :: (b, vb) :: l2) m -> ordered ((l1 ++ (a, va) :: (b, vb) :: l2).*2) ->
  exists m' p, merge_nodes a b m = Some (m', true) /\ rep [] (l1 ++ (p, merged_vma va vb) :: l2) m'.
Proof.
  intros Hr Ho. unfold merge_nodes. destruct (rep_node _ _ _ a va Hr) as (na & -> & _ & _ & Hva & _); [apply elem_of_app; right; by left|].
  destruct (rep_node _ _ _ b vb Hr) as (nb & -> & _ & _ & Hvb & Hhb & _); [apply elem_of_app; right; right; by left|]. cbn [mbind option_bind]. rewrite Hva, Hvb.
  destruct (node_random_ok _ _ _ (merged_vma va vb) Hr) as (m1 & p & -> & Hr1 & Hok1 & _ & _ & _ & _ & _ & Hp). pose proof Ho as Ho'. rewrite fmap_app in Ho'. apply ordered_app in Ho' as (_ & Ho' & _). cbn [fmap list_fmap snd] in Ho'.
  apply ordered_cons in Ho' as (Hlt & Hafter & _). change (l1 ++ (a, va) :: (b, vb) :: l2) with (l1 ++ [(a, va)] ++ (b, vb) :: l2) in *.
  destruct (lock_at (vstart va) (vend va) l1 [(a, va)] ((b, vb) :: l2) m1 Hlt Hr1 Ho) as (m2 & -> & Hr2 & Hs2 & _); [split; [done|cbn; unfold overlapping; lia]|]. cbn [mbind option_bind tail fmap list_fmap fst].
  destruct (rep_node _ _ _ a va Hr2) as (na2 & -> & Hna2 & _); [apply elem_of_app; right; by left|]. cbn [mbind option_bind]. rewrite Hna2, Z.eqb_refl.
  destruct (swap_ok l1 [(a, va)] ((b, vb) :: l2) [(p, merged_vma va vb)] m2) as (m3 & E3 & Hr3 & Hs3 & _); [cbn; lia|done| |].
  { split; [constructor; [by apply (node_ok_shape m1)|constructor]|apply NoDup_singleton|]. intros q ->%list_elem_of_singleton. done. }
  cbn [fmap list_fmap fst] in E3. rewrite E3. cbn [mbind option_bind]. destruct (drop_next (l1 ++ [(p, merged_vma va vb)]) b vb l2 m3 (nheight nb)) as (m4 & E4 & Hr4); [by rewrite <-app_assoc|lia|].
  rewrite fmap_app, lastp_app in E4. cbn [fmap list_fmap fst lastp] in E4. exists m4, p. split; [exact E4|]. by rewrite <-app_assoc in Hr4.
Qed.
Lemma try_merge_ok l1 a va b vb l2 m : rep [] (l1 ++ (a, va) :: (b, vb) :: l2) m -> ordered ((l1 ++ (a, va) :: (b, vb) :: l2).*2) ->
  if can_merge_with va vb then exists m' p, try_merge a b m = Some (m', true) /\ rep [] (l1 ++ (p, merged_vma va vb) :: l2) m' else try_merge a b m = Some (m, false).
Proof.
  intros Hr Ho. unfold try_merge. destruct (rep_node _ _ _ a va Hr) as (na & -> & _ & _ & Hva & _); [apply elem_of_app; right; by left|].
  destruct (rep_node _ _ _ b vb Hr) as (nb & -> & _ & _ & Hvb & _); [apply elem_of_app; right; right; by left|]. cbn [mbind option_bind]. rewrite Hva, Hvb. destruct (can_merge_with va vb); [by apply merge_ok|done].
Qed.
Lemma ordered_insert a v b : vstart v < vend v -> ordered (a ++ b) -> is_cut (vstart v) (vend v) a [] b -> ordered (a ++ v :: b).
Proof.
  intros Hv (Ha & Hb & Hab)%ordered_app [Hcb Hca]. apply ordered_app. split; [done|]. split; [by apply ordered_cons|]. rewrite Forall_forall in Hca. intros x y Hx [->|Hy]%elem_of_cons; [by apply Hca|by apply Hab].
Qed.
Lemma rep_set_height h L l m : rep L l m -> (1 <= h <= MAX_HEIGHT)%nat -> rep L l (set_height h m).
Proof.
  intros [] Hh. split; try done. apply (path_frame m (set_height h m) L L); [by intros y _|done].
Qed.
Lemma new_nodes_height h l ln m : new_nodes l ln m -> new_nodes l ln (set_height h m).
Proof. by apply new_nodes_shape. Qed.
(** The merges after an insertion. *)
Lemma merge_after l1 p v l2 m : rep [] (l1 ++ (p, v) :: l2) m -> ordered ((l1 ++ (p, v) :: l2).*2) ->
  exists m' l', (found_pred ← walk_to (walk_fuel m) p HEAD m;
      '(m, done) ← (if found_pred =? HEAD then Some (m, false) else try_merge found_pred p m);
      if done : bool then Some (m, true) else succ ← next_ptr p 0 m; if succ =? 0 then Some (m, true) else '(m, _) ← try_merge p succ m; Some (m, true)) = Some (m', true) /\
    rep [] l' m' /\ l'.*2 = s_merge (l1.*2) v (l2.*2).
Proof.
  intros Hr Ho. pose proof (rep_fuel _ _ _ Hr) as Hfu. rewrite length_app in Hfu. pose proof (walk_to_ok l1 p v l2 m Hr l1 [] (walk_fuel m) eq_refl ltac:(lia)) as Hw. cbn [fmap list_fmap lastp] in Hw. rewrite Hw. cbn [mbind option_bind].
  assert (exists m' l', (succ ← next_ptr p 0 m; if succ =? 0 then Some (m, true) else '(m, _) ← try_merge p succ m; Some (m, true)) = Some (m', true) /\ rep [] l' m' /\
     l'.*2 = match l2.*2 with n :: b' => if can_merge_with v n then l1.*2 ++ merged_vma v n :: b' else l1.*2 ++ v :: l2.*2 | [] => l1.*2 ++ [v] end) as Hsucc.
  { replace (l1 ++ (p, v) :: l2) with ((l1 ++ [(p, v)]) ++ l2) in Hr by (by rewrite <-app_assoc). destruct (link_of _ _ _ _ Hr) as [Hn Ha]. rewrite tag_nil, fmap_app, lastp_app in Hn. cbn [fmap list_fmap lastp fst] in Hn. rewrite <-app_assoc in Hr. cbn [app] in Hr.
    unfold next_ptr. rewrite Hn. cbn [fmap option_fmap option_map mbind option_bind]. rewrite (proj1 (strip_clean _ Ha)). destruct l2 as [|[k w] l2]; cbn [fmap list_fmap headp fst snd] in *.
    - exists m, (l1 ++ [(p, v)]). by rewrite fmap_app.
    - destruct (ptr_shape _ _ _ k Hr) as (c & Hs); [right; rewrite fmap_app; apply elem_of_app; right; right; by left|]. destruct (r_addr _ _ _ Hr _ _ Hs) as [_ Hk]. destruct (Z.eqb_spec k 0); [lia|].
      pose proof (try_merge_ok l1 p v k w l2 m Hr Ho) as Ht. destruct (can_merge_with v w); [destruct Ht as (m' & q & -> & Hr')|rewrite Ht; exists m, (l1 ++ (p, v) :: (k, w) :: l2); cbn; by rewrite fmap_app].
      exists m', (l1 ++ (q, merged_vma v w) :: l2). cbn. by rewrite fmap_app. }
  unfold s_merge. destruct l1 as [|[a va] k1 _] using rev_ind; [cbn [fmap list_fmap lastp last] in *; rewrite Z.eqb_refl; cbn [mbind option_bind]; destruct Hsucc as (m' & l' & E & H); exists m', l'; done|].
  rewrite fmap_app, lastp_app. cbn [fmap list_fmap lastp fst]. rewrite <-app_assoc in Hr, Ho. cbn [app] in Hr, Ho. rewrite fmap_last, last_snoc. cbn [fmap option_fmap option_map snd].
  assert (a <> HEAD) as Hah. { pose proof (r_nodup _ _ _ Hr) as Hd. apply NoDup_cons in Hd as [Hd _]. intros ->. apply Hd. rewrite fmap_app. apply elem_of_app. right. by left. }
  destruct (Z.eqb_spec a HEAD); [done|]. pose proof (try_merge_ok k1 a va p v l2 m Hr Ho) as Ht. destruct (can_merge_with va v).
  - destruct Ht as (m' & q & -> & Hr'). cbn [mbind option_bind]. exists m', (k1 ++ (q, merged_vma va v) :: l2). split; [done|]. split; [done|]. rewrite !fmap_app. cbn. by rewrite removelast_last.
  - rewrite Ht. cbn [mbind option_bind]. destruct Hsucc as (m' & l' & E & Hr' & Hl'). exists m', l'. split; [exact E|]. split; [done|]. rewrite Hl'. by destruct (l2.*2).
Qed.
Lemma insert_ok v l m : rep [] l m -> ordered (l.*2) -> exists m' l', insert v m = Some (m', (s_insert v (l.*2)).2) /\ rep [] l' m' /\ l'.*2 = (s_insert v (l.*2)).1.
Proof.
  intros Hr Ho. unfold insert, s_insert. destruct (Z.leb_spec (vend v) (vstart v)) as [|Hv]; [by exists m, l|]. destruct (lock_cut _ _ l m Hv Hr Ho) as (l1 & lo & l2 & m1 & E & Hcut & Hc & Hone & Hl & Hr1 & Hs1).
  rewrite Hl, Hcut. cbn [mbind option_bind tail]. destruct lo as [|[q u] [|? ?]]; [| |cbn in Hone; lia]; cbn [fmap list_fmap fst snd foldr] in *.
  - cbn [mbind option_bind]. destruct (random_height_ok m1) as (sd & h & -> & Hh). destruct (node_new v h _) as [m2 p] eqn:En. destruct (rep_alloc _ _ _ _ _ _ _ _ Hr1 Hh En) as (Hr2 & Hok2 & _ & _ & _ & _ & _ & Hp).
    set (m2' := if (height m2 <? h)%nat then set_height h m2 else m2). assert (rep [lastp HEAD (l1.*1)] l m2') as Hr2' by (unfold m2'; case_match; [by apply rep_set_height|done]).
    assert (new_nodes l [(p, v)] m2') as Hn2'. { assert (new_nodes l [(p, v)] m2) by (split; [by constructor|apply NoDup_singleton|intros x ->%list_elem_of_singleton; done]). unfold m2'. case_match; [by apply new_nodes_height|done]. }
    subst l. destruct (swap_ok l1 [] l2 [(p, v)] m2' ltac:(cbn; lia) Hr2' Hn2') as (m3 & E3 & Hr3 & _). cbn [fmap list_fmap fst] in E3. rewrite E3. cbn [mbind option_bind]. rewrite bool_decide_true by done. cbn [fst snd].
    apply (merge_after l1 p v l2 m3 Hr3). cbn [app]. rewrite fmap_app in Ho |- *. by apply ordered_insert.
  - destruct (rep_node _ _ _ q u Hr1) as (n & -> & H1 & H2 & _); [rewrite E; apply elem_of_app; right; by left|]. cbn [mbind option_bind]. rewrite H1, H2. destruct Hc as [_ Hc]. unfold overlapping in Hc. rewrite Hc. cbn [orb].
    subst l. destruct (unlock_guard l1 [(q, u)] l2 m1 Hr1 Hone) as (m2 & E2 & Hr2 & _). cbn [fmap list_fmap fst] in E2. rewrite E2. cbn [mbind option_bind]. rewrite bool_decide_false by done. cbn [fst snd]. eauto.
Qed.
(** *** The reference keeps areas in order *)
Lemma ordered_merge a x y b : ordered (a ++ x :: y :: b) -> ordered (a ++ merged_vma x y :: b).
Proof.
  rewrite !ordered_app, !ordered_cons. intros (Ha & (Hx & Hxb & Hy & Hyb & Hb) & Hab). apply Forall_cons in Hxb as [Hxy Hxb]. split; [done|]. split; [split; [cbn; lia|split; [done|done]]|].
  intros z w Hz [->|Hw]%elem_of_cons; [cbn; apply Hab; [done|by left]|apply Hab; [done|by right; right]].
Qed.
Lemma s_merge_cases a v b : (exists a' p, a = a' ++ [p] /\ can_merge_with p v = true /\ s_merge a v b = a' ++ merged_vma p v :: b) \/
  (exists n b', b = n :: b' /\ can_merge_with v n = true /\ s_merge a v b = a ++ merged_vma v n :: b') \/ s_merge a v b = a ++ v :: b.
Proof.
  unfold s_merge. destruct a as [|p a' _] using rev_ind; cbn [last].
  - destruct b as [|n b]; [by right; right|]. destruct (can_merge_with v n) eqn:E; [right; left; by exists n, b|by right; right].
  - rewrite last_snoc, removelast_last. destruct (can_merge_with p v) eqn:E; [left; by exists a', p|]. destruct b as [|n b]; [by right; right|]. destruct (can_merge_with v n) eqn:En; [right; left; by exists n, b|by right; right].
Qed.
Lemma s_merge_ordered a v b : ordered (a ++ v :: b) -> ordered (s_merge a v b).
Proof.
  intros Ho. destruct (s_merge_cases a v b) as [(a' & p & -> & _ & ->)|[(n & b' & -> & _ & ->)| ->]]; [|by apply ordered_merge|done]. apply ordered_merge. by rewrite <-app_assoc in Ho.
Qed.
Lemma cut_is_cut s e vs a o b : s < e -> ordered vs -> cut s e vs = (a, o, b) -> vs = a ++ o ++ b /\ is_cut s e a o b.
Proof.
  intros Hse. revert a o b. induction vs as [|v vs IH]; intros a o b Ho; cbn [cut]; [by intros [= <- <- <-]|]. apply ordered_cons in Ho as (Hv & Hvs & Ho). destruct (cut s e vs) as [[a' o'] b'] eqn:Ec. destruct (IH a' o' b' Ho eq_refl) as [E1 [E2 E3]].
  destruct (existsb (overlapping s e) vs) eqn:Ex; cbn [orb].
  - intros [= <- <- <-]. split; [by rewrite E1|]. split; [done|]. destruct o' as [|q [|]]; [|done|done]. apply existsb_exists in Ex as (x & Hx & Hox). apply list_elem_of_In in Hx. exfalso. rewrite E1 in Hx. cbn [app] in Hx.
    rewrite Forall_forall in E2, E3. unfold overlapping in Hox. apply elem_of_app in Hx as [Hx|Hx]; [specialize (E3 x Hx)|specialize (E2 x Hx)]; cbn in *; lia.
  - destruct (Z.leb_spec (vend v) s); [|destruct (overlapping s e v) eqn:Eo].
    + intros [= <- <- <-]. split; [by rewrite E1|]. split; [done|]. destruct o' as [|q [|]]; [by constructor|done|done].
    + intros [= <- <- <-]. split; [done|]. split; [|done]. apply Forall_forall. intros x Hx. rewrite Forall_forall in Hvs. specialize (Hvs x Hx). assert (overlapping s e x = false) as Hn.
      { destruct (overlapping s e x) eqn:Hn; [|done]. rewrite <-Ex. symmetry. apply existsb_exists. exists x. split; [by apply list_elem_of_In|done]. } unfold overlapping in *. destruct Ho as [_ Ho]. rewrite Forall_forall in Ho. specialize (Ho x Hx). cbn in *. lia.
    + intros [= <- <- <-]. split; [done|]. split; [|done]. unfold overlapping in Eo. constructor; [lia|]. apply (Forall_impl _ _ _ Hvs). intros x Hx. cbn in Hx. lia.
Qed.
Lemma s_insert_ordered v vs : ordered vs -> ordered (s_insert v vs).1.
Proof.
  intros Ho. unfold s_insert. destruct (Z.leb_spec (vend v) (vstart v)); [done|]. destruct (cut _ _ vs) as [[a o] b] eqn:E. apply cut_is_cut in E as [-> Hc]; [|done|done]. case_bool_decide as Eo; [subst o|done]. cbn in *. by apply s_merge_ordered, ordered_insert.
Qed.
Lemma s_remove_ordered s e vs : ordered vs -> ordered (s_remove s e vs).
Proof.
  intros Ho. unfold s_remove. destruct (Z.leb_spec e s); [done|]. destruct (cut _ _ vs) as [[a o] b] eqn:E. apply cut_is_cut in E as [-> _]; [|done|done]. rewrite !ordered_app in *. destruct Ho as (H1 & (_ & H3 & _) & H4). split; [done|]. split; [done|].
  intros x y Hx Hy. apply H4; [done|]. apply elem_of_app. by right.
Qed.
Lemma pieces_ordered s e f v : s < e -> vstart v < vend v -> overlapping s e v = true -> ordered (flag_pieces s e f v) /\ forall x, x ∈ flag_pieces s e f v -> vstart v <= vstart x /\ vend x <= vend v.
Proof.
  intros Hse Hv Ho. unfold overlapping in Ho. unfold flag_pieces, left_part, right_part. destruct (Z.ltb_spec (vstart v) s), (Z.ltb_spec (Z.max (vstart v) s) (Z.min (vend v) e)), (Z.ltb_spec e (vend v)); cbn [app]; (split; [rewrite ?ordered_cons; repeat (first [split|constructor]); cbn; try lia|]);
    intros x; rewrite ?elem_of_cons, ?elem_of_nil; intros; repeat (match goal with H : _ \/ _ |- _ => destruct H as [->|H] end; [cbn; lia|]); try done.
Qed.
Lemma s_update_ordered s e f vs : ordered vs -> ordered (s_update s e f vs).
Proof.
  intros Ho. unfold s_update. destruct (Z.leb_spec e s); [done|]. destruct (cut _ _ vs) as [[a o] b] eqn:E. apply cut_is_cut in E as [-> [_ Hc]]; [|done|done]. destruct o as [|q [|]]; [done| |done]. cbn [map concat]. rewrite app_nil_r.
  rewrite !ordered_app in *. destruct Ho as (H1 & (Hq & H3 & H4) & H5). apply ordered_cons in Hq as (Hq & _ & _). destruct (pieces_ordered s e f q) as [Hp Hin]; [done|done|done|]. split; [done|]. split.
  - split; [done|]. split; [done|]. intros x y Hx Hy. specialize (Hin x Hx). specialize (H4 q y ltac:(by left) Hy). lia.
  - intros x y Hx [Hy|Hy]%elem_of_app; [specialize (Hin y Hy); specialize (H5 x q Hx ltac:(apply elem_of_app; left; by left)); lia|]. apply H5; [done|]. apply elem_of_app. by right.
Qed.

(** ** Histories *)
Inductive op := Insert (v : Vma) | Remove (s e : Z) | UpdateFlags (s e f : Z) | Find (addr : Z) | FindCils (addr : Z).
Inductive answer := Inserted (b : bool) | Found (r : option Vma) | Done.
Definition exec (o : op) (m : VmaMap) : option (VmaMap * answer) :=
  match o with
  | Insert v => '(m, b) ← insert v m; Some (m, Inserted b)
  | Remove s e => m ← remove s e m; Some (m, Done)
  | UpdateFlags s e f => m ← update_flags s e f m; Some (m, Done)
  | Find a => r ← find a m; Some (m, Found r)
  | FindCils a => r ← find_vma_cils a m; Some (m, Found r)
  end.
Fixpoint run (os : list op) (m : VmaMap) : option (VmaMap * list answer) :=
  match os with [] => Some (m, []) | o :: os' => '(m, a) ← exec o m; '(m, l) ← run os' m; Some (m, a :: l) end.
Definition s_exec (o : op) (vs : list Vma) : list Vma * answer :=
  match o with
  | Insert v => let '(vs, b) := s_insert v vs in (vs, Inserted b)
  | Remove s e => (s_remove s e vs, Done)
  | UpdateFlags s e f => (s_update s e f vs, Done)
  | Find a | FindCils a => (vs, Found (s_find a vs))
  end.
Fixpoint s_run (os : list op) (vs : list Vma) : list Vma * list answer :=
  match os with [] => (vs, []) | o :: os' => let '(vs, a) := s_exec o vs in let '(vs, l) := s_run os' vs in (vs, a :: l) end.
Lemma vma_exec_ok o l m : rep [] l m -> ordered (l.*2) -> exists m' l', exec o m = Some (m', (s_exec o (l.*2)).2) /\ rep [] l' m' /\ l'.*2 = (s_exec o (l.*2)).1 /\ ordered (l'.*2).
Proof.
  intros Hr Ho. destruct o as [v|s e|s e f|a|a]; cbn [exec s_exec].
  - destruct (insert_ok v l m Hr Ho) as (m' & l' & E & Hr' & El). rewrite E. cbn [mbind option_bind]. pose proof (s_insert_ordered v _ Ho) as Hp. destruct (s_insert v (l.*2)) as [vs b]. cbn in *. exists m', l'. by rewrite El.
  - destruct (remove_ok s e l m Hr Ho) as (m' & l' & E & Hr' & El). rewrite E. cbn. exists m', l'. rewrite El. repeat (split; [done|]). by apply s_remove_ordered.
  - destruct (update_flags_ok s e f l m Hr Ho) as (m' & l' & E & Hr' & El). rewrite E. cbn. exists m', l'. rewrite El. repeat (split; [done|]). by apply s_update_ordered.
  - rewrite (find_ok m l a Hr Ho). cbn. by exists m, l.
  - rewrite (find_vma_cils_ok m l a Hr Ho). cbn. by exists m, l.
Qed.
Lemma vma_run_ok os : forall l m, rep [] l m -> ordered (l.*2) -> exists m' l', run os m = Some (m', (s_run os (l.*2)).2) /\ rep [] l' m' /\ l'.*2 = (s_run os (l.*2)).1 /\ ordered (l'.*2).
Proof.
  induction os as [|o os IH]; intros l m Hr Ho; [by exists m, l|]. destruct (vma_exec_ok o l m Hr Ho) as (m1 & l1 & E1 & Hr1 & El1 & Ho1). destruct (IH l1 m1 Hr1 Ho1) as (m' & l' & E' & Hr' & El' & Ho').
  exists m', l'. cbn [run s_run]. rewrite E1. cbn [mbind option_bind]. rewrite E'. cbn [mbind option_bind]. rewrite El1 in E', El' |- *. destruct (s_exec o (l.*2)) as [vs a]. cbn in *. destruct (s_run os vs) as [vs' ans]. done.
Qed.
Lemma rep_new sd : rep [] [] (new sd).
Proof.
  assert (shape (new sd) = {[ HEAD := (0, 0, mkVma 0 0 0 (Anonymous 0) false false false, MAX_HEIGHT, MAX_HEIGHT) ]}) as Hs by (unfold shape, new; cbn [heap]; by rewrite map_fmap_singleton).
  split; try done.
  - eexists. by rewrite Hs, lookup_singleton_eq.
  - intros i Hi. unfold next_raw, deref, new. cbn [heap]. rewrite lookup_singleton_eq. cbn [mbind option_bind next]. unfold no_links. apply lookup_replicate_2. lia.
  - apply NoDup_singleton.
  - intros p c. rewrite Hs, lookup_singleton_Some. intros [<- _]. split; [by apply (aligned_mul 1)|unfold HEAD; cbn; lia].
  - by apply (aligned_mul 2).
  - cbn. unfold MAX_HEIGHT. lia.
Qed.

(** ** What an insertion changes *)
(** What holds at every address of an area. *)
Definition object (v : Vma) : Z * Z := match kind v with Anonymous id => (0, id) | Image seg _ _ => (1, seg) | File ino _ _ => (2, ino) end.
Definition attributes (v : Vma) : Z * bool * bool * bool * (Z * Z) := (vflags v, cow v, shared v, locked v, object v).
Lemma merge_attributes a b : can_merge_with a b = true -> attributes b = attributes a /\ attributes (merged_vma a b) = attributes a /\ vend a = vstart b.
Proof.
  unfold can_merge_with. intros H. destruct (Z.eqb_spec (vend a) (vstart b)); [|done]. cbn [negb] in H. destruct (Z.eqb_spec (vflags a) (vflags b)); [|done]. cbn [negb orb] in H.
  destruct (eqb (cow a) (cow b)) eqn:E1; [|done]. destruct (eqb (shared a) (shared b)) eqn:E2; [|done]. destruct (eqb (locked a) (locked b)) eqn:E3; [|done]. apply eqb_prop in E1, E2, E3.
  assert (object b = object a) as Eo by (unfold object; destruct (kind a), (kind b); cbn in H; try done; f_equal; lia).
  split; [unfold attributes; congruence|]. split; [|done]. unfold attributes. cbn. unfold object at 1. cbn. rewrite <-E1, <-E2, <-E3, !andb_diag. done.
Qed.
Lemma s_find_mid addr a v b : ordered (a ++ v :: b) -> s_find addr (a ++ v :: b) = if covers addr v then Some v else s_find addr (a ++ b).
Proof.
  intros (Ha & Hb & Hab)%ordered_app. apply ordered_cons in Hb as (Hv & Hvb & _). rewrite Forall_forall in Hvb. destruct (covers addr v) eqn:Ec.
  - rewrite s_find_app_r; [unfold s_find; cbn; by rewrite Ec|]. apply Forall_forall. intros x Hx. specialize (Hab x v Hx ltac:(by left)). unfold covers in *. lia.
  - clear Ha Hab Hvb. induction a as [|x a IH]; unfold s_find in *; cbn; [by rewrite Ec|]. by destruct (covers addr x).
Qed.
Lemma find_merged addr a x y b : ordered (a ++ x :: y :: b) -> can_merge_with x y = true -> attributes <$> s_find addr (a ++ merged_vma x y :: b) = attributes <$> s_find addr (a ++ x :: y :: b).
Proof.
  intros Ho Hm. destruct (merge_attributes _ _ Hm) as (E1 & E2 & E3). rewrite s_find_mid by (by apply ordered_merge). rewrite s_find_mid by done.
  pose proof Ho as (_ & Hxy & _)%ordered_app. apply ordered_cons in Hxy as (Hx & _ & Hy). apply ordered_cons in Hy as (Hy & _ & _). unfold covers at 1. cbn [vstart vend merged_vma].
  assert (ordered (a ++ y :: b)) as Hoy. { rewrite ordered_app in Ho |- *. destruct Ho as (H1 & H2 & H3). apply ordered_cons in H2 as (_ & _ & H2). split; [done|]. split; [done|]. intros z w Hz Hw. apply H3; [done|by right]. }
  destruct (covers addr x) eqn:Cx; [unfold covers in Cx; replace ((vstart x <=? addr) && (addr <? vend y)) with true by lia; cbn; by rewrite E2|]. rewrite s_find_mid by done.
  destruct (covers addr y) eqn:Cy; unfold covers in Cx, Cy.
  - replace ((vstart x <=? addr) && (addr <? vend y)) with true by lia. cbn. by rewrite E2, E1.
  - by replace ((vstart x <=? addr) && (addr <? vend y)) with false by lia.
Qed.
Lemma s_insert_spec v vs : ordered vs ->
  ((s_insert v vs).2 = true <-> vstart v < vend v /\ forall a, covers a v = true -> s_find a vs = None) /\
  forall addr, attributes <$> s_find addr (s_insert v vs).1 = if (s_insert v vs).2 && covers addr v then Some (attributes v) else attributes <$> s_find addr vs.
Proof.
  intros Ho. unfold s_insert. destruct (Z.leb_spec (vend v) (vstart v)) as [Hv|Hv]; [split; [cbn; split; [done|lia]|done]|]. destruct (cut _ _ vs) as [[a o] b] eqn:Ec. pose proof Ec as [-> [Hb Hc]]%cut_is_cut; [|done|done].
  destruct o as [|q [|]]; [rewrite bool_decide_true by done; cbn [app fst snd andb] in *|rewrite bool_decide_false by done; cbn [fst snd andb]|done].
  - pose proof (ordered_insert a v b Hv Ho (conj Hb Hc)) as Hi. split.
    + split; [|done]. intros _. split; [done|]. intros x Hx. apply s_find_none. apply Forall_app. split; [apply (Forall_impl _ _ _ Hc)|apply (Forall_impl _ _ _ Hb)]; intros y Hy; unfold covers in *; cbn in Hy; lia.
    + intros addr. transitivity (attributes <$> s_find addr (a ++ v :: b)).
      * destruct (s_merge_cases a v b) as [(a' & p & -> & Hm & ->)|[(n & b' & -> & Hm & ->)| ->]]; [|by apply find_merged|done]. rewrite find_merged; [by rewrite <-app_assoc|by rewrite <-app_assoc in Hi|done].
      * rewrite s_find_mid by done. by destruct (covers addr v).
  - split; [|done]. split; [done|]. intros [_ H]. exfalso. change (a ++ [q] ++ b) with (a ++ q :: b) in *. unfold overlapping in Hc. specialize (H (Z.max (vstart v) (vstart q))). rewrite s_find_mid in H by done.
    assert (ordered (q :: b)) as Hqb by (apply ordered_app in Ho as (_ & Ho & _); done). apply ordered_cons in Hqb as (Hq & _ & _). unfold covers in H. replace ((vstart q <=? Z.max (vstart v) (vstart q)) && (Z.max (vstart v) (vstart q) <? vend q)) with true in H by lia.
    by discriminate H; lia.
Qed.
(** What an insertion changes, in terms of lookups.  After any history an
    insertion succeeds exactly if the area is not empty and no address of it is
    mapped; then every address of it is found with its attributes, also where it
    was merged with a neighbour, and every other address with what it had; an
    insertion that fails changes nothing that lookups see. *)
Theorem insert_effect sd os v : exists m ans m' ok, run os (new sd) = Some (m, ans) /\ insert v m = Some (m', ok) /\
  (ok = true <-> vstart v < vend v /\ forall a, covers a v = true -> find a m = Some None) /\
  forall addr, exists r r', find addr m = Some r /\ find addr m' = Some r' /\ attributes <$> r' = if ok && covers addr v then Some (attributes v) else attributes <$> r.
Proof.
  destruct (vma_run_ok os [] (new sd) (rep_new sd)) as (m & l & E & Hr & El & Ho); [by split; constructor|]. destruct (insert_ok v l m Hr Ho) as (m' & l' & Ei & Hr' & El'). pose proof (s_insert_ordered v _ Ho) as Ho'. rewrite <-El' in Ho'.
  destruct (s_insert_spec v (l.*2) Ho) as [H1 H2]. eexists m, _, m', _. split; [exact E|]. split; [exact Ei|]. split.
  - rewrite H1. split; intros [Hv Ha]; (split; [done|]); intros a Hc; specialize (Ha a Hc); rewrite (find_ok m l a Hr Ho) in *; congruence.
  - intros addr. rewrite (find_ok m l addr Hr Ho), (find_ok m' l' addr Hr' Ho'). eexists _, _. split; [done|]. split; [done|]. rewrite El'. apply H2.
Qed.





(** ** Examples and limits *)
Definition area (s e id : Z) : Vma := mkVma s e 7 (Anonymous id) false false false.
Definition SEED : Z := 0x123456789abcdef.
Definition build (vs : list Vma) : option VmaMap := for_each (fun v m => '(m, _) ← insert v m; Some m) vs (new SEED).
Definition ranges (m : VmaMap) : option (list (Z * Z)) := l ← collect_all m; Some (map (fun v => (vstart v, vend v)) l).
(** A removal that spans several areas removes only the last of them. *)
Example remove_leaves_areas : (m ← build [area 0 10 1; area 10 20 2; area 20 30 3]; m ← remove 5 30 m; ranges m) = Some [(0, 10); (10, 20)].
Proof. vm_compute. done. Qed.
(** A removal of part of an area removes all of it. *)
Example remove_takes_whole_area : (m ← build [area 0 100 1]; m ← remove 40 50 m; ranges m) = Some [].
Proof. vm_compute. done. Qed.
(** A change of flags over several areas reaches only the last of them. *)
Example update_flags_last_only : (m ← build [area 0 10 1; area 10 20 2]; m ← update_flags 0 20 9 m; l ← collect_all m; Some (map vflags l)) = Some [7; 9].
Proof. vm_compute. done. Qed.
(** [overlaps] and [find_overlapping] miss the area that contains the start of the interval. *)
Example overlaps_misses_cover : (m ← build [area 0 100 1]; a ← overlaps 40 50 m; b ← find_overlapping 40 50 m; c ← overlaps 0 100 m; Some (a, length b, c)) = Some (false, 0%nat, false).
Proof. vm_compute. done. Qed.
(** [insert_or_update] inside an area puts the new area behind the right remainder. *)
Example insert_or_update_disorder : (m ← build [area 0 100 1]; '(m, _) ← insert_or_update 40 50 (area 0 0 2) m; ranges m) = Some [(0, 40); (50, 100); (40, 50)].
Proof. vm_compute. done. Qed.
(** In a clone, whose upper levels are linked, merging with the next area leaves
    that area linked above; once it is freed a lookup follows a dangling link. *)
Example clone_merge_dangling :
  (m ← build [area 100 200 1; area 300 400 2]; m ← clone m; '(m, _) ← insert (area 50 100 1) m;
   Some (ranges m, find 150 (let '(m, drained) := drain_retired m in reclaim_retired drained m))) = Some (Some [(50, 200); (300, 400)], None).
Proof. vm_compute. done. Qed.
(** A node locked by one holder is locked again by another: both guards hold node 12. *)
Example lock_held_twice :
  (m ← build [area 0 10 1; area 20 30 2; area 40 50 3]; '(m, g) ← lock 40 50 m; '(m, g') ← lock 15 25 m; Some (g, g')) = Some ([12; 16], [8; 12]).
Proof. vm_compute. done. Qed.
(** The interval lock makes a second holder of the predecessor wait: alone it never returns. *)
Example lock_waits : (m ← build [area 0 10 1; area 20 30 2]; '(m, _) ← lock 20 30 m; lock 25 40 m) = None.
Proof. vm_compute. done. Qed.
End Vma.
