(* ===== verification/Heap.v ===== *)
(** * The kernel heap

    Models [src/src/allocator/tlsf.rs] (the global allocator), [allocator/slab.rs]
    (per-CPU caches of small blocks) and the page ownership table and the
    header-carrying calls of [allocator/mod.rs].

    The TLSF algorithm itself is the crate [rlsf]; it is a type with operations
    (class [Tlsf]) whose documented behaviour is the class [TlsfLaws]: a block
    handed out lies in a region that was inserted, has the alignment asked for
    and overlaps no block in use.  [first_gap] is a small instance.

    The free lists of the slabs run through the free blocks themselves, so the
    model has the words of the heap's memory.  Calls run one after the other: the
    early heap advances by compare-exchange, the slabs run with interrupts off,
    TLSF is behind a lock.  A layout is a size
    and a power of two; the address of the early heap is a parameter.

    [heap_disjoint]: over every history of allocations, releases of what was
    allocated and stores into it, what is in use is aligned, long enough, inside
    the heap and disjoint, and keeps what was stored in it; [heap_free_reuses]: a
    small block that is released is the next one its CPU hands out;
    [heap_alloc_header], [heap_free_dealloc]: the calls with a size word. *)
From S2P Require Import Prelude.

Module Heap.

Definition EARLY_HEAP_SIZE : Z := 512 * 1024.
Definition HEAP_START : Z := 0x444444440000.
Definition HEAP_SIZE : Z := 100 * 1024 * 1024.
Definition HEAP_PAGE_SIZE : Z := 4096.
Definition HEAP_PAGE_COUNT : Z := HEAP_SIZE / HEAP_PAGE_SIZE.
Definition MAX_CPUS : Z := 64.
Definition NUM_CLASSES : Z := 5.
(** [CLASS_SIZES[class]]. *)
Definition class_size (c : Z) : Z := match c with 0 => 32 | 1 => 64 | 2 => 128 | 3 => 256 | _ => 512 end.
Definition ISIZE_MAX : Z := 2 ^ 63 - 1.

(** ** The crate rlsf *)
Class Tlsf (T : Type) := {
  t_new : T;
  t_insert_free_block : Z -> Z -> T -> T;
  t_allocate : Z -> Z -> T -> T * option Z;
  t_deallocate : Z -> Z -> T -> T }.
(** A block: address, size and alignment asked for. *)
Record block := mkBlock { b_addr : Z; b_size : Z; b_align : Z }.
Definition apart (a n b k : Z) : Prop := a + n <= b \/ b + k <= a.
Class TlsfLaws (T : Type) `{Tlsf T} := {
  t_blocks : T -> list block;
  t_regions : T -> list (Z * Z);
  t_new_empty : t_blocks t_new = [] /\ t_regions t_new = [];
  t_insert_region : forall s n t, t_blocks (t_insert_free_block s n t) = t_blocks t /\ t_regions (t_insert_free_block s n t) = (s, n) :: t_regions t;
  t_allocate_ok : forall n al t t' p, 0 < n -> 0 < al -> t_allocate n al t = (t', Some p) ->
    t_blocks t' = mkBlock p n al :: t_blocks t /\ t_regions t' = t_regions t /\ (al | p) /\
    (exists s k, (s, k) ∈ t_regions t /\ s <= p /\ p + n <= s + k) /\ Forall (fun b => apart p n (b_addr b) (b_size b)) (t_blocks t);
  t_allocate_none : forall n al t t', t_allocate n al t = (t', None) -> t_blocks t' = t_blocks t /\ t_regions t' = t_regions t;
  t_deallocate_ok : forall l1 b l2 t, NoDup (b_addr <$> t_blocks t) -> t_blocks t = l1 ++ b :: l2 ->
    t_blocks (t_deallocate (b_addr b) (b_align b) t) = l1 ++ l2 /\ t_regions (t_deallocate (b_addr b) (b_align b) t) = t_regions t }.

(** ** State *)
Inductive PageOwner := Unassigned | Slab | TlsfPage | Large.
Record SlabClass := mkSlab { head : Z; pages : Z }.
Section Model.
Context {T : Type} `{Tlsf T} (EARLY_HEAP : Z).
Record Heap := mkHeap {
  early_offset : Z; heap_ready : bool; main_start : Z; main_end : Z; tlsf : option T;
  page_info : gmap Z (PageOwner * option Z);  (* entries that are not the initial one *)
  slab_active : bool; cpu_slabs : gmap (Z * Z) SlabClass; heap_initialized : bool;
  memory : gmap Z Z }.
Definition heap_new (mem : gmap Z Z) : Heap := mkHeap 0 false 0 0 None ∅ false ∅ false mem.
Definition set_early (o : Z) (h : Heap) : Heap := mkHeap o (heap_ready h) (main_start h) (main_end h) (tlsf h) (page_info h) (slab_active h) (cpu_slabs h) (heap_initialized h) (memory h).
Definition set_tlsf (t : option T) (h : Heap) : Heap := mkHeap (early_offset h) (heap_ready h) (main_start h) (main_end h) t (page_info h) (slab_active h) (cpu_slabs h) (heap_initialized h) (memory h).
Definition set_info (i : gmap Z (PageOwner * option Z)) (h : Heap) : Heap := mkHeap (early_offset h) (heap_ready h) (main_start h) (main_end h) (tlsf h) i (slab_active h) (cpu_slabs h) (heap_initialized h) (memory h).
Definition set_slabs (s : gmap (Z * Z) SlabClass) (h : Heap) : Heap := mkHeap (early_offset h) (heap_ready h) (main_start h) (main_end h) (tlsf h) (page_info h) (slab_active h) s (heap_initialized h) (memory h).
Definition set_memory (m : gmap Z Z) (h : Heap) : Heap := mkHeap (early_offset h) (heap_ready h) (main_start h) (main_end h) (tlsf h) (page_info h) (slab_active h) (cpu_slabs h) (heap_initialized h) m.
(** Words of memory; a word that was never stored is 0. *)
Definition read_word (p : Z) (h : Heap) : Z := default 0 (memory h !! p).
Definition write_word (p v : Z) (h : Heap) : Heap := set_memory (<[p := v]> (memory h)) h.
Definition write_bytes_0 (p n : Z) (h : Heap) : Heap := set_memory (filter (fun '(a, _) => ~ (p <= a < p + n)) (memory h)) h.

(** ** Page ownership *)
Definition heap_page_index (p : Z) : option Z := if (p <? HEAP_START) || (HEAP_START + HEAP_SIZE <=? p) then None else Some ((p - HEAP_START) / HEAP_PAGE_SIZE).
Definition info_at (i : Z) (h : Heap) : PageOwner * option Z := default (Unassigned, None) (page_info h !! i).
Definition page_owner_for_ptr (p : Z) (h : Heap) : PageOwner := match heap_page_index p with Some i => (info_at i h).1 | None => Unassigned end.
Definition slab_class_for_ptr (p : Z) (h : Heap) : option Z := match heap_page_index p with Some i => (info_at i h).2 | None => None end.
Definition tag_heap_range (p n : Z) (o : PageOwner) (c : option Z) (h : Heap) : Heap :=
  if (p =? 0) || (n =? 0) then h
  else match heap_page_index p, heap_page_index (Z.min u64_max (p + sat_sub n 1)) with
  | Some s, Some e => set_info (foldl (fun m i => <[i := (o, c)]> m) (page_info h) (seqZ s (e - s + 1))) h
  | _, _ => h
  end.
Definition init_heap_page_ownership (h : Heap) : Heap := set_info (foldl (fun m i => <[i := (TlsfPage, None)]> m) (page_info h) (seqZ 0 HEAP_PAGE_COUNT)) h.

(** ** The early heap *)
Definition round8 (n : Z) : Z := Z.ldiff (n + 7) 7.
Definition align_to (a al : Z) : Z := Z.ldiff (u64_sub (u64_add a al) 1) (al - 1).
(** A null pointer is 0. *)
Definition early_alloc (size al : Z) (h : Heap) : Heap * Z :=
  let al := Z.max (Z.max al 1) 8 in
  let size := round8 size in
  let absolute := Z.min u64_max (EARLY_HEAP + early_offset h) in
  let aligned := align_to absolute al in
  let next := Z.min u64_max (aligned + size) in
  let next_offset := sat_sub next EARLY_HEAP in
  if EARLY_HEAP_SIZE <? next_offset then (h, 0)
  else (write_bytes_0 aligned size (set_early next_offset h), aligned).

(** ** The main heap *)
Definition insert_free_region_ptr (p n : Z) (h : Heap) : Heap :=
  let t := default t_new (tlsf h) in
  if p =? 0 then set_tlsf (Some t) h
  else mkHeap (early_offset h) true p (p + n) (Some (t_insert_free_block p n t)) (page_info h) (slab_active h) (cpu_slabs h) (heap_initialized h) (memory h).
(** [map_result]: whether every page of the heap could be mapped. *)
Definition init_heap (map_result : bool) (h : Heap) : Heap * bool :=
  if heap_initialized h then (h, true)
  else if negb map_result then (h, false)
  else
    let h := init_heap_page_ownership (insert_free_region_ptr HEAP_START HEAP_SIZE h) in
    (mkHeap (early_offset h) (heap_ready h) (main_start h) (main_end h) (tlsf h) (page_info h) (slab_active h) (cpu_slabs h) true (memory h), true).
Definition is_early_heap (p : Z) : bool := (EARLY_HEAP <=? p) && (p <? EARLY_HEAP + EARLY_HEAP_SIZE).
Definition is_main_heap (p : Z) (h : Heap) : bool := heap_ready h && ((main_start h <=? p) && (p <? main_end h)).
Definition is_valid_heap_ptr (p : Z) (h : Heap) : bool := is_early_heap p || is_main_heap p h.
Definition alloc_from_main_heap (size al : Z) (h : Heap) : Heap * Z :=
  if negb (heap_ready h) then (h, 0)
  else let '(t, r) := t_allocate size al (default t_new (tlsf h)) in (set_tlsf (Some t) h, default 0 r).
Definition dealloc_to_main_heap (p al : Z) (h : Heap) : Heap :=
  if (p =? 0) || negb (heap_ready h) then h
  else match tlsf h with Some t => set_tlsf (Some (t_deallocate p (Z.max al 8) t)) h | None => h end.

(** ** Slabs *)
Definition slab_at (cpu c : Z) (h : Heap) : SlabClass := default (mkSlab 0 0) (cpu_slabs h !! (cpu, c)).
Definition set_slab (cpu c : Z) (s : SlabClass) (h : Heap) : Heap := set_slabs (<[(cpu, c) := s]> (cpu_slabs h)) h.
Definition push (cpu c p : Z) (h : Heap) : Heap :=
  let s := slab_at cpu c h in set_slab cpu c (mkSlab p (pages s)) (write_word p (head s) h).
Definition pop (cpu c : Z) (h : Heap) : Heap * option Z :=
  let s := slab_at cpu c h in
  if head s =? 0 then (h, None) else (set_slab cpu c (mkSlab (read_word (head s) h) (pages s)) h, Some (head s)).
Definition size_to_class (n : Z) : option Z :=
  if n <=? 32 then Some 0 else if n <=? 64 then Some 1 else if n <=? 128 then Some 2 else if n <=? 256 then Some 3 else if n <=? 512 then Some 4 else None.
Definition current_cpu_slot (cpu : Z) : Z := Z.min cpu (MAX_CPUS - 1).
(** The slots of a page, pushed from the last to the first. *)
Definition push_slots (cpu c page : Z) (h : Heap) : Heap :=
  foldl (fun h k => let p := page + k * class_size c in push cpu c p (write_bytes_0 p (class_size c) h)) h (rev (seqZ 0 (HEAP_PAGE_SIZE / class_size c))).
Definition provision_slab_page (cpu c : Z) (h : Heap) : Heap * bool :=
  let '(h, page) := alloc_from_main_heap HEAP_PAGE_SIZE HEAP_PAGE_SIZE h in
  if page =? 0 then (h, false)
  else
    let h := tag_heap_range page HEAP_PAGE_SIZE Slab (Some c) h in
    let s := slab_at cpu c h in
    let h := set_slab cpu c (mkSlab (head s) (Z.min u64_max (pages s + 1))) h in
    (push_slots cpu c page h, true).
Definition slab_alloc (cpu size al : Z) (h : Heap) : Heap * option Z :=
  if negb (slab_active h) then (h, None)
  else if 16 <? al then (h, None)
  else match size_to_class (round8 size) with
  | None => (h, None)
  | Some c =>
      let cpu := current_cpu_slot cpu in
      if head (slab_at cpu c h) =? 0 then
        let '(h, ok) := provision_slab_page cpu c h in if ok : bool then pop cpu c h else (h, None)
      else pop cpu c h
  end.
Definition slab_dealloc (cpu p : Z) (h : Heap) : Heap * bool :=
  if negb (slab_active h) || (p =? 0) then (h, false)
  else match slab_class_for_ptr p h with
  | Some c => if c <? NUM_CLASSES then (push (current_cpu_slot cpu) c p h, true) else (h, false)
  | None => (h, false)
  end.
Definition activate (h : Heap) : Heap := mkHeap (early_offset h) (heap_ready h) (main_start h) (main_end h) (tlsf h) (page_info h) true (cpu_slabs h) (heap_initialized h) (memory h).

(** ** The global allocator *)
Definition alloc (cpu size al : Z) (h : Heap) : Heap * Z :=
  let al := Z.max al 8 in
  let size := round8 size in
  if ISIZE_MAX - (al - 1) <? size then (h, 0)
  else if negb (heap_ready h) then early_alloc size al h
  else match slab_alloc cpu size al h with
  | (h, Some p) => (h, p)
  | (h, None) => let '(h, p) := alloc_from_main_heap size al h in if p =? 0 then early_alloc size al h else (h, p)
  end.
Definition dealloc (cpu p al : Z) (h : Heap) : Heap :=
  if p =? 0 then h
  else if is_early_heap p then h
  else if negb (is_main_heap p h) then h
  else if negb (heap_ready h) then h
  else match page_owner_for_ptr p h with
  | Slab => (slab_dealloc cpu p h).1
  | _ => dealloc_to_main_heap p (Z.max al 8) h
  end.
(** Allocation with the size in a word in front. *)
Definition heap_alloc (cpu size : Z) (h : Heap) : Heap * Z :=
  if size =? 0 then (h, 0)
  else
    let total := Z.min u64_max (size + 8) in
    if ISIZE_MAX - 7 <? total then (h, 0)
    else let '(h, raw) := alloc cpu total 8 h in if raw =? 0 then (h, 0) else (write_word raw size h, raw + 8).
Definition heap_free (cpu p : Z) (h : Heap) : Heap :=
  if p =? 0 then h
  else
    let raw := p - 8 in
    let total := Z.min u64_max (read_word raw h + 8) in
    if ISIZE_MAX - 7 <? total then h else dealloc cpu raw 8 h.
End Model.
Arguments Heap : clear implicits.

(** ** Arithmetic of sizes and addresses *)
Ltac divlia := Z.to_euclidean_division_equations; lia.
Lemma ldiff_pow a k : 0 <= k -> Z.ldiff a (2 ^ k - 1) = a / 2 ^ k * 2 ^ k.
Proof. intros Hk. replace (2 ^ k - 1) with (Z.ones k) by (rewrite Z.ones_equiv; lia). by rewrite Z.ldiff_ones_r, Z.shiftl_mul_pow2, Z.shiftr_div_pow2. Qed.
Lemma round8_eq n : round8 n = (n + 7) / 8 * 8.
Proof. apply (ldiff_pow (n + 7) 3). lia. Qed.
Lemma round8_spec n : n <= round8 n < n + 8 /\ (8 | round8 n).
Proof. rewrite round8_eq. split; [divlia|by exists ((n + 7) / 8)]. Qed.
Lemma round8_twice n : round8 (round8 n) = round8 n.
Proof. rewrite !round8_eq. divlia. Qed.
Lemma align_to_spec a k : 0 <= k < 64 -> 0 <= a -> a + 2 ^ k < u64_mod -> a <= align_to a (2 ^ k) < a + 2 ^ k /\ (2 ^ k | align_to a (2 ^ k)).
Proof.
  intros Hk Ha Hb. unfold align_to. assert (0 < 2 ^ k) as Hp by lia. rewrite u64_add_small by lia. rewrite u64_sub_small by lia. rewrite ldiff_pow by lia. split; [|by exists ((a + 2 ^ k - 1) / 2 ^ k)].
  pose proof (Z.div_mod (a + 2 ^ k - 1) (2 ^ k) ltac:(lia)) as E. pose proof (Z.mod_pos_bound (a + 2 ^ k - 1) (2 ^ k) Hp). nia.
Qed.
Lemma class_bounds n c : size_to_class n = Some c -> n <= class_size c /\ 0 <= c < NUM_CLASSES.
Proof. unfold size_to_class, NUM_CLASSES. intros H. repeat case_match; simplify_eq; cbn; lia. Qed.
(** A class size is a power of two from 32 to 512. *)
Lemma class_cases c : class_size c = 32 \/ class_size c = 64 \/ class_size c = 128 \/ class_size c = 256 \/ class_size c = 512.
Proof. unfold class_size. repeat case_match; tauto. Qed.
Lemma class_size_pow c : 32 <= class_size c <= 512 /\ (32 | class_size c) /\ HEAP_PAGE_SIZE = HEAP_PAGE_SIZE / class_size c * class_size c.
Proof.
  destruct (class_cases c) as [->|[->|[->|[->| ->]]]]; (split; [lia|]; split; [|reflexivity]); [by exists 1|by exists 2|by exists 4|by exists 8|by exists 16].
Qed.
Lemma HEAP_START_pages : (HEAP_PAGE_SIZE | HEAP_START).
Proof. by exists (HEAP_START / HEAP_PAGE_SIZE). Qed.
(** The page of an address of the heap. *)
Definition page_addr (i : Z) : Z := HEAP_START + i * HEAP_PAGE_SIZE.
Lemma page_index_spec p i : heap_page_index p = Some i <-> page_addr i <= p < page_addr i + HEAP_PAGE_SIZE /\ 0 <= i < HEAP_PAGE_COUNT.
Proof.
  unfold heap_page_index, page_addr, HEAP_PAGE_COUNT. unfold HEAP_START, HEAP_SIZE, HEAP_PAGE_SIZE. change (100 * 1024 * 1024 / 4096) with 25600.
  destruct ((p <? 0x444444440000) || (0x444444440000 + 100 * 1024 * 1024 <=? p)) eqn:E; split; intros Hx; try done; try lia; [injection Hx as <-; divlia|]. f_equal. divlia.
Qed.
Lemma page_of_block q : (HEAP_PAGE_SIZE | q) -> HEAP_START <= q -> q + HEAP_PAGE_SIZE <= HEAP_START + HEAP_SIZE -> exists i, q = page_addr i /\ 0 <= i < HEAP_PAGE_COUNT.
Proof.
  intros [a ->] H1 H2. destruct HEAP_START_pages as [b Hb]. exists (a - b). unfold page_addr. rewrite Hb. split; [lia|]. unfold HEAP_PAGE_COUNT. change (HEAP_SIZE / HEAP_PAGE_SIZE) with 25600. unfold HEAP_START, HEAP_PAGE_SIZE, HEAP_SIZE in *. lia.
Qed.
(** The blocks of a list do not overlap. *)
Definition sep (l : list block) : Prop := ForallOrdPairs (fun x y => apart (b_addr x) (b_size x) (b_addr y) (b_size y)) l.
Lemma sep_apart l x y : sep l -> x ∈ l -> y ∈ l -> x <> y -> apart (b_addr x) (b_size x) (b_addr y) (b_size y).
Proof.
  induction 1 as [|z l Hz _ IH]; [by intros ?%elem_of_nil|]. rewrite Forall_forall in Hz. rewrite !elem_of_cons. intros [->|Hx] [->|Hy] Hn; [done|by apply Hz| |by apply IH].
  specialize (Hz x Hx). unfold apart in *. lia.
Qed.
Lemma sep_remove l1 x l2 : sep (l1 ++ x :: l2) -> sep (l1 ++ l2).
Proof.
  induction l1 as [|y l1 IH]; cbn; inversion 1; subst; [done|]. constructor; [|by apply IH]. rewrite Forall_app, Forall_cons in *. tauto.
Qed.
Lemma sep_nodup l : sep l -> Forall (fun b => 0 < b_size b) l -> NoDup (b_addr <$> l).
Proof.
  induction 1 as [|x l Hx _ IH]; cbn; [constructor|]. intros [Px Pl]%Forall_cons. constructor; [|by apply IH]. intros (y & E & Hy)%list_elem_of_fmap. rewrite Forall_forall in Hx, Pl. specialize (Hx y Hy). specialize (Pl y Hy). unfold apart in Hx. cbn in Pl. lia.
Qed.

(** ** The invariant *)
Section Invariant.
Context {T : Type} `{TlsfLaws T} (EARLY_HEAP : Z).
Implicit Types h : Heap T.
Definition blocks h : list block := match tlsf h with Some t => t_blocks t | None => [] end.
Definition regions h : list (Z * Z) := match tlsf h with Some t => t_regions t | None => [] end.
(** [p] is a block of class [c] on a page of a slab. *)
Definition is_slot h (c p : Z) : Prop :=
  exists i k, 0 <= i < HEAP_PAGE_COUNT /\ info_at i h = (Slab, Some c) /\ 0 <= c < NUM_CLASSES /\ 0 <= k < HEAP_PAGE_SIZE / class_size c /\ p = page_addr i + k * class_size c.
(** The free list that starts at [p] and runs through memory. *)
Fixpoint chain h (p : Z) (l : list Z) : Prop := match l with [] => p = 0 | q :: l' => p = q /\ q <> 0 /\ chain h (read_word q h) l' end.
(** Where a block in use comes from. *)
Definition in_early h (b : block) : Prop := EARLY_HEAP <= b_addr b /\ b_addr b + b_size b <= EARLY_HEAP + early_offset h.
Definition in_slab h (b : block) : Prop := exists c, is_slot h c (b_addr b) /\ b_size b <= class_size c.
Definition in_main h (b : block) : Prop :=
  mkBlock (b_addr b) (round8 (b_size b)) (Z.max (b_align b) 8) ∈ blocks h /\ page_owner_for_ptr (b_addr b) h <> Slab.
Record inv h (live : list block) (fl : Z -> Z -> list Z) : Prop := {
  i_early : 0 <= early_offset h <= EARLY_HEAP_SIZE;
  i_init : heap_initialized h = heap_ready h;
  i_cold : heap_ready h = false -> blocks h = [] /\ regions h = [] /\ forall i, info_at i h = (Unassigned, None);
  i_main : heap_ready h = true -> main_start h = HEAP_START /\ main_end h = HEAP_START + HEAP_SIZE /\ regions h = [(HEAP_START, HEAP_SIZE)] /\ is_Some (tlsf h);
  i_blocks : sep (blocks h) /\ Forall (fun b => 0 < b_size b /\ HEAP_START <= b_addr b /\ b_addr b + b_size b <= HEAP_START + HEAP_SIZE) (blocks h);
  i_pages : forall i, (info_at i h).1 = Slab -> mkBlock (page_addr i) HEAP_PAGE_SIZE HEAP_PAGE_SIZE ∈ blocks h;
  i_chain : forall cpu c, chain h (head (slab_at cpu c h)) (fl cpu c) /\ NoDup (fl cpu c) /\ forall p, p ∈ fl cpu c -> is_slot h c p;
  i_once : forall cpu c cpu' c' p, p ∈ fl cpu c -> p ∈ fl cpu' c' -> cpu = cpu' /\ c = c';
  i_free : forall cpu c p, p ∈ fl cpu c -> p ∉ b_addr <$> live;
  i_live : NoDup (b_addr <$> live) /\ Forall (fun b => 0 < b_size b /\ (b_align b | b_addr b) /\ (in_early h b \/ in_slab h b \/ in_main h b)) live;
  i_early_apart : forall x y, x ∈ live -> y ∈ live -> x <> y -> in_early h x -> in_early h y -> apart (b_addr x) (b_size x) (b_addr y) (b_size y) }.

(** *** Places do not overlap *)
Lemma page_addr_inj i j : page_addr i = page_addr j -> i = j.
Proof. unfold page_addr, HEAP_PAGE_SIZE. lia. Qed.
Lemma slot_in_page c k : 0 <= k < HEAP_PAGE_SIZE / class_size c -> 0 <= k * class_size c /\ k * class_size c + class_size c <= HEAP_PAGE_SIZE.
Proof. destruct (class_size_pow c) as (H1 & _ & H2). intros Hk. nia. Qed.
Lemma slots_apart h c c' p p' : is_slot h c p -> is_slot h c' p' -> p <> p' -> apart p (class_size c) p' (class_size c').
Proof.
  intros (i & k & Hi & Ei & Hc & Hk & ->) (i' & k' & Hi' & Ei' & Hc' & Hk' & ->) Hn. apply slot_in_page in Hk as Hs. apply slot_in_page in Hk' as Hs'. unfold apart. destruct (decide (i = i')) as [<-|Hii].
  - assert (c = c') as <- by congruence. destruct (class_size_pow c) as (H1 & _). destruct (Z.lt_trichotomy k k') as [Hl|[->|Hl]]; [left; nia|done|right; nia].
  - unfold page_addr, HEAP_PAGE_SIZE in *. destruct (Z.lt_trichotomy i i') as [Hl|[->|Hl]]; [left; lia|done|right; lia].
Qed.
Lemma slot_page h c p : is_slot h c p -> exists i, heap_page_index p = Some i /\ info_at i h = (Slab, Some c) /\ page_addr i <= p /\ p + class_size c <= page_addr i + HEAP_PAGE_SIZE.
Proof.
  intros (i & k & Hi & Ei & Hc & Hk & ->). apply slot_in_page in Hk. destruct (class_size_pow c) as (H1 & _). exists i. rewrite page_index_spec. split; [lia|]. split; [done|]. lia.
Qed.
Lemma slot_unique_class h c c' p : is_slot h c p -> is_slot h c' p -> c = c'.
Proof. intros (i & E & Hi & _)%slot_page (j & E' & Hj & _)%slot_page. congruence. Qed.
Lemma slot_nonzero h c p : is_slot h c p -> 0 < p.
Proof. intros (i & k & Hi & Ei & Hc & Hk & ->). apply slot_in_page in Hk. unfold page_addr, HEAP_START, HEAP_PAGE_SIZE in *. lia. Qed.
Lemma slot_aligned h c p : is_slot h c p -> (32 | p).
Proof.
  intros (i & k & Hi & Ei & Hc & Hk & ->). destruct (class_size_pow c) as (_ & [q Hq] & _). exists (HEAP_START / 32 + i * 128 + k * q). unfold page_addr. rewrite Hq. unfold HEAP_PAGE_SIZE. change HEAP_START with (HEAP_START / 32 * 32) at 1. lia.
Qed.
Section WithInv.
Context (h : Heap T) (live : list block) (fl : Z -> Z -> list Z) (Hi : inv h live fl).
Lemma slot_in_block c p : is_slot h c p -> exists i, mkBlock (page_addr i) HEAP_PAGE_SIZE HEAP_PAGE_SIZE ∈ blocks h /\ info_at i h = (Slab, Some c) /\ page_addr i <= p /\ p + class_size c <= page_addr i + HEAP_PAGE_SIZE.
Proof. intros (i & _ & Ei & H1 & H2)%slot_page. exists i. split; [apply (i_pages _ _ _ Hi); by rewrite Ei|done]. Qed.
Lemma main_not_page b i : in_main h b -> 0 < b_size b -> (info_at i h).1 = Slab -> 0 <= i < HEAP_PAGE_COUNT -> mkBlock (b_addr b) (round8 (b_size b)) (Z.max (b_align b) 8) <> mkBlock (page_addr i) HEAP_PAGE_SIZE HEAP_PAGE_SIZE.
Proof.
  intros [_ Hn] Hs Ei Hr E. injection E as E _ _. apply Hn. unfold page_owner_for_ptr. rewrite E. assert (heap_page_index (page_addr i) = Some i) as -> by (apply page_index_spec; unfold HEAP_PAGE_SIZE; lia). done.
Qed.
Lemma block_range b : b ∈ blocks h -> 0 < b_size b /\ HEAP_START <= b_addr b /\ b_addr b + b_size b <= HEAP_START + HEAP_SIZE.
Proof. intros Hb. destruct (i_blocks _ _ _ Hi) as [_ Hf]. rewrite Forall_forall in Hf. by apply Hf. Qed.
Lemma page_range i : (info_at i h).1 = Slab -> 0 <= i < HEAP_PAGE_COUNT.
Proof.
  intros Ei. apply (i_pages _ _ _ Hi) in Ei. apply block_range in Ei. cbn in Ei. unfold page_addr, HEAP_PAGE_COUNT in *. change (HEAP_SIZE / HEAP_PAGE_SIZE) with 25600. unfold HEAP_START, HEAP_SIZE, HEAP_PAGE_SIZE in *. lia.
Qed.
Lemma in_heap_range b : in_slab h b \/ in_main h b -> 0 < b_size b -> HEAP_START <= b_addr b /\ b_addr b + b_size b <= HEAP_START + HEAP_SIZE.
Proof.
  intros [(c & Hs & Hb)|[Hb _]] Hp.
  - destruct (slot_in_block c _ Hs) as (i & Hin & _ & H1 & H2). apply block_range in Hin. cbn in Hin. lia.
  - apply block_range in Hb. cbn in Hb. pose proof (round8_spec (b_size b)). lia.
Qed.
Lemma live_apart (Hap : apart EARLY_HEAP EARLY_HEAP_SIZE HEAP_START HEAP_SIZE) x y : x ∈ live -> y ∈ live -> x <> y -> apart (b_addr x) (b_size x) (b_addr y) (b_size y).
Proof.
  intros Hx Hy Hn. destruct (i_live _ _ _ Hi) as [Hd Hl]. rewrite Forall_forall in Hl. destruct (Hl x Hx) as (Px & _ & Wx). destruct (Hl y Hy) as (Py & _ & Wy). pose proof (i_early _ _ _ Hi) as He.
  assert (b_addr x <> b_addr y) as Ha. { intros E. apply Hn. apply list_elem_of_lookup in Hx as [i Ex]. apply list_elem_of_lookup in Hy as [j Ey]. assert (i = j) as <-; [|congruence]. apply (NoDup_lookup _ i j (b_addr x) Hd); rewrite list_lookup_fmap, ?Ex, ?Ey; cbn; congruence. }
  pose proof (in_heap_range x) as Rx. pose proof (in_heap_range y) as Ry. pose proof (round8_spec (b_size x)) as [Sx _]. pose proof (round8_spec (b_size y)) as [Sy _].
  destruct Wx as [Wx|Wx], Wy as [Wy|Wy]; [by apply (i_early_apart _ _ _ Hi)|specialize (Ry Wy Py); unfold in_early, apart in *; lia|specialize (Rx Wx Px); unfold in_early, apart in *; lia|]. clear Rx Ry.
  destruct Wx as [(c & Wx & Cx)|Wx], Wy as [(c' & Wy & Cy)|Wy].
  - pose proof (slots_apart h c c' _ _ Wx Wy Ha). unfold apart in *. lia.
  - destruct (slot_in_block c _ Wx) as (i & Hin & Ei & H1 & H2). pose proof (main_not_page y i Wy Py ltac:(by rewrite Ei) (page_range i ltac:(by rewrite Ei))) as Hne.
    pose proof (sep_apart _ _ _ (proj1 (i_blocks _ _ _ Hi)) (proj1 Wy) Hin Hne) as Hs. unfold apart in *. cbn in Hs. lia.
  - destruct (slot_in_block c' _ Wy) as (i & Hin & Ei & H1 & H2). pose proof (main_not_page x i Wx Px ltac:(by rewrite Ei) (page_range i ltac:(by rewrite Ei))) as Hne.
    pose proof (sep_apart _ _ _ (proj1 (i_blocks _ _ _ Hi)) (proj1 Wx) Hin Hne) as Hs. unfold apart in *. cbn in Hs. lia.
  - pose proof (sep_apart _ _ _ (proj1 (i_blocks _ _ _ Hi)) (proj1 Wx) (proj1 Wy) ltac:(congruence)) as Hs. unfold apart in *. cbn in Hs. lia.
Qed.
End WithInv.
End Invariant.

(** ** Every step keeps the invariant *)
Section Steps.
Context {T : Type} `{TlsfLaws T} (EARLY_HEAP : Z).
Implicit Types h : Heap T.
Lemma chain_ext h h' p l : (forall q, q ∈ l -> read_word q h' = read_word q h) -> chain h p l -> chain h' p l.
Proof.
  revert p. induction l as [|q l IH]; intros p He; [done|]. intros (H1 & H2 & H3). cbn. split; [done|]. split; [done|]. rewrite He by (by left). apply IH; [|done]. intros x Hx. apply He. by right.
Qed.
(** Changes of memory outside the free blocks, and of flags, do not matter. *)
Lemma inv_frame h h' live fl : inv EARLY_HEAP h live fl -> early_offset h' = early_offset h -> heap_initialized h' = heap_initialized h -> heap_ready h' = heap_ready h ->
  main_start h' = main_start h -> main_end h' = main_end h -> tlsf h' = tlsf h -> page_info h' = page_info h -> cpu_slabs h' = cpu_slabs h ->
  (forall cpu c q, q ∈ fl cpu c -> read_word q h' = read_word q h) -> inv EARLY_HEAP h' live fl.
Proof.
  intros Hi E1 E2 E3 E4 E5 E6 E7 E8 Hm. assert (forall i, info_at i h' = info_at i h) as Hinfo by (intros i; unfold info_at; by rewrite E7).
  assert (forall c p, is_slot h' c p <-> is_slot h c p) as Hslot by (intros c p; unfold is_slot; by setoid_rewrite Hinfo).
  assert (blocks h' = blocks h) as Hb by (unfold blocks; by rewrite E6). assert (regions h' = regions h) as Hg by (unfold regions; by rewrite E6).
  assert (forall p, page_owner_for_ptr p h' = page_owner_for_ptr p h) as Ho by (intros p; unfold page_owner_for_ptr; by case_match; rewrite ?Hinfo).
  destruct Hi. split; rewrite ?E1, ?E2, ?E3, ?E4, ?E5, ?E6, ?Hb, ?Hg; try done; try (by setoid_rewrite Hinfo).
  - intros cpu c. destruct (i_chain0 cpu c) as (C1 & C2 & C3). unfold slab_at in *. rewrite E8. split; [|split; [done|]].
    + by apply (chain_ext h); [apply Hm|].
    + intros p Hp. apply Hslot. by apply C3.
  - destruct i_live0 as [Hd Hl]. split; [done|]. apply (Forall_impl _ _ _ Hl). intros b (P & A & W). split; [done|]. split; [done|]. unfold in_early, in_slab, in_main in *. rewrite E1, Hb, Ho. by setoid_rewrite Hslot.
  - unfold in_early in *. by rewrite E1.
Qed.
Lemma inv_activate h live fl : inv EARLY_HEAP h live fl -> inv EARLY_HEAP (activate h) live fl.
Proof. intros Hi. by apply (inv_frame h). Qed.
(** Free blocks are in the main heap. *)
Lemma free_range h live fl cpu c q : inv EARLY_HEAP h live fl -> q ∈ fl cpu c -> HEAP_START <= q /\ q + class_size c <= HEAP_START + HEAP_SIZE.
Proof.
  intros Hi Hq. destruct (i_chain _ _ _ _ Hi cpu c) as (_ & _ & Hs). destruct (slot_in_block EARLY_HEAP h live fl Hi c q (Hs q Hq)) as (i & Hb & _ & H1 & H2).
  pose proof (block_range EARLY_HEAP h live fl Hi _ Hb) as Hr. cbn in Hr. lia.
Qed.
Lemma read_zeroed h p n q : ~ (p <= q < p + n) -> read_word q (write_bytes_0 p n h) = read_word q h.
Proof. intros Hn. unfold read_word, write_bytes_0. cbn. rewrite map_lookup_filter. destruct (memory h !! q) as [v|]; [|done]. cbn. by rewrite option_guard_True. Qed.
Lemma read_written h p v q : read_word q (write_word p v h) = if decide (q = p) then v else read_word q h.
Proof. unfold read_word, write_word. cbn. destruct (decide (q = p)) as [->|Hq]; [by rewrite lookup_insert_eq|by rewrite lookup_insert_ne]. Qed.
(** The steps before the main heap exists. *)
Lemma cold_empty h live fl : inv EARLY_HEAP h live fl -> heap_ready h = false -> (forall cpu c, fl cpu c = []) /\ Forall (in_early EARLY_HEAP h) live.
Proof.
  intros Hi Hr. destruct (i_cold _ _ _ _ Hi Hr) as (Hb & _ & Hinfo). assert (forall c p, ~ is_slot h c p) as Hns by (intros c p (i & k & _ & E & _); by rewrite Hinfo in E). split.
  - intros cpu c. destruct (fl cpu c) as [|p l] eqn:E; [done|]. exfalso. destruct (i_chain _ _ _ _ Hi cpu c) as (_ & _ & Hs). apply (Hns c p), Hs. rewrite E. by left.
  - destruct (i_live _ _ _ _ Hi) as [_ Hl]. apply (Forall_impl _ _ _ Hl). intros b (_ & _ & [W|[(c & W & _)|[W _]]]); [done|by apply Hns in W|]. rewrite Hb in W. by apply elem_of_nil in W.
Qed.
Lemma fold_insert_lookup (v : PageOwner * option Z) (l : list Z) m i : foldl (fun m i => <[i := v]> m) m l !! i = if decide (i ∈ l) then Some v else (m : gmap Z _) !! i.
Proof.
  revert m. induction l as [|x l IH]; intros m; [by rewrite decide_False by (by intros ?%elem_of_nil)|]. cbn [foldl]. rewrite IH. destruct (decide (i ∈ l)) as [Hl|Hl]; [by rewrite decide_True by (by right)|].
  destruct (decide (i = x)) as [->|Hx]; [rewrite decide_True by (by left); by rewrite lookup_insert_eq|]. rewrite decide_False by (by intros [?|?]%elem_of_cons). by rewrite lookup_insert_ne.
Qed.
Lemma inv_init r h live fl : inv EARLY_HEAP h live fl -> inv EARLY_HEAP (init_heap r h).1 live fl.
Proof.
  intros Hi. unfold init_heap. destruct (heap_initialized h) eqn:E; [done|]. destruct r; [|done]. cbn [negb fst]. rewrite (i_init _ _ _ _ Hi) in E. destruct (cold_empty _ _ _ Hi E) as [Hfl Hl]. destruct (i_cold _ _ _ _ Hi E) as (Hb & Hg & Hinfo).
  set (h1 := init_heap_page_ownership _). set (h' := mkHeap _ _ _ _ _ _ _ _ _ _).
  assert (blocks h' = [] /\ regions h' = [(HEAP_START, HEAP_SIZE)]) as [Hb' Hg'].
  { unfold blocks, regions, h', h1, init_heap_page_ownership, insert_free_region_ptr. change (HEAP_START =? 0) with false. cbn iota. cbn [tlsf set_info]. unfold blocks, regions in Hb, Hg. destruct (tlsf h) as [t|]; cbn [default from_option]; unfold id; [destruct (t_insert_region HEAP_START HEAP_SIZE t) as [-> ->]; by rewrite Hb, Hg|].
    destruct (t_insert_region HEAP_START HEAP_SIZE (t_new : T)) as [-> ->]. destruct (t_new_empty (T := T)) as [-> ->]. done. }
  assert (forall i, (info_at i h').1 <> Slab) as Hns.
  { intros i. unfold info_at, h', h1, init_heap_page_ownership. cbn [page_info set_info]. rewrite fold_insert_lookup. destruct (decide _); [done|]. specialize (Hinfo i). unfold info_at in Hinfo. unfold insert_free_region_ptr. change (HEAP_START =? 0) with false. cbn iota. cbn [page_info]. by rewrite Hinfo. }
  assert (forall c p, ~ is_slot h' c p) as Hnslot by (intros c p (i & k & _ & Ei & _); apply (Hns i); by rewrite Ei).
  assert (early_offset h' = early_offset h /\ heap_initialized h' = true /\ heap_ready h' = true /\ main_start h' = HEAP_START /\ main_end h' = HEAP_START + HEAP_SIZE /\ is_Some (tlsf h') /\ cpu_slabs h' = cpu_slabs h /\ memory h' = memory h)
    as (F1 & F2 & F3 & F4 & F5 & F6 & F7 & F8) by (unfold h', h1, init_heap_page_ownership, insert_free_region_ptr; change (HEAP_START =? 0) with false; cbn iota; cbn [early_offset heap_initialized heap_ready main_start main_end tlsf cpu_slabs memory set_info]; eauto 10).
  clearbody h1. clearbody h'. destruct Hi. split; rewrite ?F1, ?F2, ?F3, ?F4, ?F5, ?Hb', ?Hg'; try done.
  - split; [constructor|constructor].
  - intros i Ei. by apply Hns in Ei.
  - intros cpu c. destruct (i_chain0 cpu c) as (C1 & C2 & C3). rewrite Hfl in *. unfold slab_at in *. rewrite F7. split; [exact C1|]. split; [done|]. by intros p ?%elem_of_nil.
  - destruct i_live0 as [Hd Hlv]. split; [done|]. rewrite Forall_forall in *. intros b Hin. destruct (Hlv b Hin) as (P & A & _). split; [done|]. split; [done|]. left. unfold in_early. rewrite F1. by apply Hl.
  - unfold in_early in *. by rewrite F1.
Qed.
Definition upd_fl (fl : Z -> Z -> list Z) (cpu c : Z) (l : list Z) : Z -> Z -> list Z := fun cpu' c' => if decide (cpu' = cpu /\ c' = c) then l else fl cpu' c'.
Lemma upd_fl_eq fl cpu c l : upd_fl fl cpu c l cpu c = l.
Proof. unfold upd_fl. by rewrite decide_True. Qed.
Lemma upd_fl_ne fl cpu c l cpu' c' : ~ (cpu' = cpu /\ c' = c) -> upd_fl fl cpu c l cpu' c' = fl cpu' c'.
Proof. intros Hn. unfold upd_fl. by rewrite decide_False. Qed.
(** Addresses of the early heap are not in use elsewhere. *)
Lemma early_new h live fl b : apart EARLY_HEAP EARLY_HEAP_SIZE HEAP_START HEAP_SIZE -> inv EARLY_HEAP h live fl -> EARLY_HEAP + early_offset h <= b_addr b -> 0 < b_size b -> b_addr b + b_size b <= EARLY_HEAP + EARLY_HEAP_SIZE ->
  (b_addr b ∉ b_addr <$> live) /\ (forall cpu c, b_addr b ∉ fl cpu c) /\ forall x, x ∈ live -> in_early EARLY_HEAP h x -> apart (b_addr b) (b_size b) (b_addr x) (b_size x).
Proof.
  intros Hap Hi H1 H2 H3. pose proof (i_early _ _ _ _ Hi) as He. destruct (i_live _ _ _ _ Hi) as [_ Hl]. rewrite Forall_forall in Hl. split; [|split].
  - intros (x & E & Hx)%list_elem_of_fmap. destruct (Hl x Hx) as (P & _ & [W|W]); [unfold in_early in W; lia|]. pose proof (in_heap_range EARLY_HEAP h live fl Hi x W P). unfold apart in Hap. lia.
  - intros cpu c Hq. pose proof (free_range _ _ _ _ _ _ Hi Hq). pose proof (class_size_pow c) as [Hc _]. unfold apart in Hap. lia.
  - intros x Hx W. unfold in_early, apart in *. lia.
Qed.
(** The alignment of the early heap, and where a block of it lies. *)
Lemma align_pow k : 0 <= k <= 32 -> exists j, Z.max (Z.max (Z.max (2 ^ k) 8) 1) 8 = 2 ^ j /\ 3 <= j <= 32 /\ (2 ^ k | 2 ^ j).
Proof.
  intros Hk. exists (Z.max k 3). destruct (Z.le_gt_cases 3 k) as [H3|H3].
  - assert (2 ^ 3 <= 2 ^ k) by (apply Z.pow_le_mono_r; lia). rewrite (Z.max_l k) by lia. split; [lia|]. split; [lia|done].
  - assert (2 ^ k <= 2 ^ 3) by (apply Z.pow_le_mono_r; lia). rewrite (Z.max_r k) by lia. split; [lia|]. split; [lia|]. exists (2 ^ (3 - k)). rewrite <-Z.pow_add_r by lia. f_equal. lia.
Qed.
Lemma early_place o size k : 0 < EARLY_HEAP -> EARLY_HEAP + EARLY_HEAP_SIZE + 2 ^ 32 < u64_mod -> 0 <= o <= EARLY_HEAP_SIZE -> 0 < size <= ISIZE_MAX -> 0 <= k <= 32 ->
  let a := align_to (Z.min u64_max (EARLY_HEAP + o)) (Z.max (Z.max (Z.max (2 ^ k) 8) 1) 8) in
  EARLY_HEAP + o <= a /\ (2 ^ k | a) /\ (sat_sub (Z.min u64_max (a + round8 (round8 size))) EARLY_HEAP <= EARLY_HEAP_SIZE -> sat_sub (Z.min u64_max (a + round8 (round8 size))) EARLY_HEAP = a + round8 size - EARLY_HEAP).
Proof.
  intros He1 He2 Ho Hs Hk. destruct (align_pow k Hk) as (j & -> & Hj & Hdiv). rewrite round8_twice. destruct (round8_spec size) as [Hr _]. rewrite (Z.min_r u64_max (EARLY_HEAP + o)) by (unfold u64_max; lia).
  assert (2 ^ j <= 2 ^ 32) as Hj2 by (apply Z.pow_le_mono_r; lia). destruct (align_to_spec (EARLY_HEAP + o) j) as [Ha Hd]; [lia|lia|lia|]. cbn zeta. set (a := align_to _ _) in *.
  split; [lia|]. split; [by apply (Z.divide_trans _ _ _ Hdiv Hd)|]. unfold sat_sub, u64_max, ISIZE_MAX, EARLY_HEAP_SIZE, u64_mod in *. lia.
Qed.
Lemma inv_early_alloc h live fl size k : apart EARLY_HEAP EARLY_HEAP_SIZE HEAP_START HEAP_SIZE -> 0 < EARLY_HEAP -> EARLY_HEAP + EARLY_HEAP_SIZE + 2 ^ 32 < u64_mod ->
  inv EARLY_HEAP h live fl -> 0 < size <= ISIZE_MAX -> 0 <= k <= 32 ->
  match early_alloc EARLY_HEAP (round8 size) (Z.max (2 ^ k) 8) h with (h', p) => (p = 0 /\ h' = h) \/ (p <> 0 /\ inv EARLY_HEAP h' (mkBlock p size (2 ^ k) :: live) fl) end.
Proof.
  intros Hap He1 He2 Hi Hs Hk. unfold early_alloc. pose proof (i_early _ _ _ _ Hi) as Heo. destruct (early_place (early_offset h) size k He1 He2 Heo Hs Hk) as (Ha & Hd & En). set (a := align_to _ _) in *. rewrite round8_twice in *. destruct (round8_spec size) as [Hr _].
  destruct (Z.ltb_spec EARLY_HEAP_SIZE (sat_sub (Z.min u64_max (a + round8 size)) EARLY_HEAP)) as [Hfull|Hfit]; [by left|]. right. split; [lia|]. specialize (En Hfit). rewrite En in *. unfold EARLY_HEAP_SIZE in *.
  destruct (early_new h live fl (mkBlock a size (2 ^ k)) Hap Hi) as (N1 & N2 & N3); [cbn; lia|cbn; lia|cbn; unfold EARLY_HEAP_SIZE; lia|]. cbn [b_addr b_size] in *.
  set (h' := write_bytes_0 _ _ _). assert (forall cpu c q, q ∈ fl cpu c -> read_word q h' = read_word q h) as Hm.
  { intros cpu c q Hq. pose proof (free_range _ _ _ _ _ _ Hi Hq). pose proof (class_size_pow c) as [Hc _]. unfold h'. rewrite read_zeroed; [done|]. unfold apart, EARLY_HEAP_SIZE in Hap. lia. }
  assert (early_offset h' = a + round8 size - EARLY_HEAP) as Eo by done. assert (heap_initialized h' = heap_initialized h /\ heap_ready h' = heap_ready h /\ main_start h' = main_start h /\ main_end h' = main_end h /\ tlsf h' = tlsf h /\ page_info h' = page_info h /\ cpu_slabs h' = cpu_slabs h) as (E2 & E3 & E4 & E5 & E6 & E7 & E8) by done.
  clearbody h'. assert (inv EARLY_HEAP (set_early (early_offset h) h') live fl) as Hi0 by (apply (inv_frame h); done).
  assert (forall x, in_early EARLY_HEAP h x -> in_early EARLY_HEAP h' x) as Hmono by (intros x; unfold in_early; rewrite Eo; lia).
  pose proof Hi as Hi'. destruct Hi0, Hi. split; [|exact i_init0|exact i_cold0|exact i_main0|exact i_blocks0|exact i_pages0| |exact i_once0| | |].
  - rewrite Eo. unfold EARLY_HEAP_SIZE. lia.
  - intros cpu c. destruct (i_chain0 cpu c) as (C1 & C2 & C3). split; [|split; [done|exact C3]]. apply (chain_ext (set_early (early_offset h) h')); [done|exact C1].
  - intros cpu c p Hp0 Hin. cbn in Hin. apply elem_of_cons in Hin as [->|Hin]; [by apply (N2 cpu c)|by apply (i_free0 cpu c p)].
  - destruct i_live1 as [L1 L2]. destruct i_live0 as [_ L0]. split; [by constructor|]. constructor; [cbn; split; [lia|]; split; [exact Hd|left; unfold in_early; cbn; rewrite Eo; lia]|].
    rewrite Forall_forall in *. intros x Hx. destruct (L0 x Hx) as (P & A & W). split; [done|]. split; [done|]. destruct W as [W|W]; [left; apply Hmono; exact W|right; exact W].
  - assert (forall x, x ∈ live -> in_early EARLY_HEAP h' x -> in_early EARLY_HEAP h x) as Hback.
    { intros x Hx W. destruct i_live1 as [_ L2]. rewrite Forall_forall in L2. destruct (L2 x Hx) as (P & _ & [W'|W']); [done|]. exfalso. unfold in_early in W. rewrite Eo in W.
      assert (HEAP_START <= b_addr x /\ b_addr x + b_size x <= HEAP_START + HEAP_SIZE) as Hrg by (by apply (in_heap_range EARLY_HEAP h live fl Hi')). unfold apart, EARLY_HEAP_SIZE in Hap. lia. }
    intros x y [->|Hx]%elem_of_cons [->|Hy]%elem_of_cons Hne Wx Wy; [done|cbn; by apply N3, Hback|cbn; pose proof (N3 x Hx (Hback x Hx Wx)); unfold apart in *; lia|]. apply i_early_apart1; auto.
Qed.
Lemma not_early h live fl b : apart EARLY_HEAP EARLY_HEAP_SIZE HEAP_START HEAP_SIZE -> inv EARLY_HEAP h live fl -> 0 < b_size b -> in_slab h b \/ in_main h b -> ~ in_early EARLY_HEAP h b.
Proof.
  intros Hap Hi Hs W. pose proof (in_heap_range EARLY_HEAP h live fl Hi b W Hs). pose proof (i_early _ _ _ _ Hi). unfold in_early, apart in *. lia.
Qed.
(** One more block in use. *)
Lemma inv_add h live fl b : apart EARLY_HEAP EARLY_HEAP_SIZE HEAP_START HEAP_SIZE -> inv EARLY_HEAP h live fl -> 0 < b_size b -> (b_align b | b_addr b) -> b_addr b ∉ b_addr <$> live ->
  (forall cpu c, b_addr b ∉ fl cpu c) -> in_slab h b \/ in_main h b -> inv EARLY_HEAP h (b :: live) fl.
Proof.
  intros Hap Hi Hs Hal Hnew Hfree W. pose proof (not_early h live fl b Hap Hi Hs W) as Hne. destruct Hi. split; try done.
  - intros cpu c p Hp Hin. cbn in Hin. apply elem_of_cons in Hin as [->|Hin]; [by apply (Hfree cpu c)|by apply (i_free0 cpu c p)].
  - destruct i_live0 as [L1 L2]. split; [by constructor|]. constructor; [tauto|done].
  - intros x y [->|Hx]%elem_of_cons [->|Hy]%elem_of_cons Hxy Wx Wy; [done|done|done|]. by apply i_early_apart0.
Qed.
(** A change of what TLSF holds, and fewer blocks in use. *)
Lemma inv_set_tlsf h live live' fl t : inv EARLY_HEAP h live fl -> heap_ready h = true -> t_regions t = regions h -> sep (t_blocks t) ->
  Forall (fun b => 0 < b_size b /\ HEAP_START <= b_addr b /\ b_addr b + b_size b <= HEAP_START + HEAP_SIZE) (t_blocks t) ->
  (forall i, (info_at i h).1 = Slab -> mkBlock (page_addr i) HEAP_PAGE_SIZE HEAP_PAGE_SIZE ∈ t_blocks t) ->
  NoDup (b_addr <$> live') -> (forall b, b ∈ live' -> b ∈ live) -> (forall b, b ∈ live' -> in_main h b -> mkBlock (b_addr b) (round8 (b_size b)) (Z.max (b_align b) 8) ∈ t_blocks t) ->
  inv EARLY_HEAP (set_tlsf (Some t) h) live' fl.
Proof.
  intros [] Hr Hreg Hsep Hrange Hpages Hd Hsub Hmain. split; try done.
  - intros Hc. cbn in Hc. congruence.
  - intros _. destruct (i_main0 Hr) as (M1 & M2 & M3 & M4). cbn. split; [done|]. split; [done|]. split; [|by eauto]. change (regions (set_tlsf (Some t) h)) with (t_regions t). by rewrite Hreg.
  - intros cpu c. destruct (i_chain0 cpu c) as (C1 & C2 & C3). split; [|done]. by apply (chain_ext h).
  - intros cpu c p Hp (b & -> & Hb)%list_elem_of_fmap. apply (i_free0 cpu c _ Hp). apply list_elem_of_fmap. exists b. auto.
  - split; [done|]. destruct i_live0 as [_ L]. rewrite Forall_forall in *. intros b Hb. destruct (L b (Hsub b Hb)) as (P & A & W). split; [done|]. split; [done|]. destruct W as [W|[W|W]]; [by left|by right; left|]. right; right. split; [by apply Hmain|apply W].
  - intros x y Hx Hy. apply i_early_apart0; auto.
Qed.
Lemma tlsf_some h live fl : inv EARLY_HEAP h live fl -> heap_ready h = true -> exists t, tlsf h = Some t /\ blocks h = t_blocks t /\ regions h = t_regions t.
Proof. intros Hi Hr. destruct (i_main _ _ _ _ Hi Hr) as (_ & _ & _ & [t Ht]). exists t. unfold blocks, regions. by rewrite Ht. Qed.
Lemma main_alloc h live fl n al h' p : inv EARLY_HEAP h live fl -> heap_ready h = true -> 0 < n -> 0 < al -> alloc_from_main_heap n al h = (h', p) ->
  inv EARLY_HEAP h' live fl /\ (exists t, h' = set_tlsf (Some t) h) /\
  (p = 0 \/ (HEAP_START <= p /\ p + n <= HEAP_START + HEAP_SIZE /\ (al | p) /\ mkBlock p n al ∈ blocks h' /\ Forall (fun b => apart p n (b_addr b) (b_size b)) (blocks h))).
Proof.
  intros Hi Hr Hn Hal. unfold alloc_from_main_heap. rewrite Hr. cbn [negb]. destruct (tlsf_some _ _ _ Hi Hr) as (t & Et & Eb & Eg). rewrite Et. cbn [default from_option]. unfold id. destruct (t_allocate n al t) as [t' [q|]] eqn:Ea; cbn [default from_option]; unfold id; intros [= <- <-].
  - destruct (t_allocate_ok n al t t' q Hn Hal Ea) as (Hb & Hg & Hd & (s & k & Hin & H1 & H2) & Hap). destruct (i_main _ _ _ _ Hi Hr) as (_ & _ & Hreg & _). rewrite <-Eg, Hreg in Hin. apply list_elem_of_singleton in Hin as [= -> ->].
    destruct (i_blocks _ _ _ _ Hi) as [Hsep Hrg]. rewrite Eb in Hsep, Hrg. split; [|split; [by eauto|right]].
    + apply (inv_set_tlsf h live); try done; try (by destruct (i_live _ _ _ _ Hi)); rewrite ?Hb.
      * by rewrite Hg.
      * constructor; [done|done].
      * constructor; [cbn; lia|done].
      * intros i Ei. right. rewrite <-Eb. by apply (i_pages _ _ _ _ Hi).
      * intros b Hbl [W _]. right. by rewrite <-Eb.
    + split; [lia|]. split; [lia|]. split; [done|]. split; [unfold blocks; cbn; rewrite Hb; by left|by rewrite Eb].
  - destruct (t_allocate_none n al t t' Ea) as (Hb & Hg). destruct (i_blocks _ _ _ _ Hi) as [Hsep Hrg]. rewrite Eb in Hsep, Hrg. split; [|split; [by eauto|by left]].
    apply (inv_set_tlsf h live); rewrite ?Hb; try done; try (by destruct (i_live _ _ _ _ Hi)); [by rewrite Hg| |].
    + intros i Ei. rewrite <-Eb. by apply (i_pages _ _ _ _ Hi).
    + intros b Hbl [W _]. by rewrite <-Eb.
Qed.
(** A block of the main heap is on no slab page and is new. *)
Lemma new_block_free h live fl p n : apart EARLY_HEAP EARLY_HEAP_SIZE HEAP_START HEAP_SIZE -> inv EARLY_HEAP h live fl -> 0 < n -> HEAP_START <= p -> p + n <= HEAP_START + HEAP_SIZE -> Forall (fun b => apart p n (b_addr b) (b_size b)) (blocks h) ->
  (forall i, (info_at i h).1 = Slab -> apart p n (page_addr i) HEAP_PAGE_SIZE) /\ (page_owner_for_ptr p h <> Slab) /\ (p ∉ b_addr <$> live) /\ forall cpu c, p ∉ fl cpu c.
Proof.
  intros Hap Hi Hn H1 H2 Hf. rewrite Forall_forall in Hf. assert (forall i, (info_at i h).1 = Slab -> apart p n (page_addr i) HEAP_PAGE_SIZE) as Hpg by (intros i Ei; apply (Hf _ (i_pages _ _ _ _ Hi i Ei))).
  assert (forall c, ~ is_slot h c p) as Hns. { intros c (i & _ & Ei & A1 & A2)%slot_page. specialize (Hpg i ltac:(by rewrite Ei)). pose proof (class_size_pow c) as [Hc _]. unfold apart in Hpg. lia. }
  split; [done|]. split; [|split].
  - unfold page_owner_for_ptr. destruct (heap_page_index p) as [i|] eqn:E; [|done]. intros Ei. apply page_index_spec in E. specialize (Hpg i Ei). unfold apart in Hpg. lia.
  - intros (b & -> & Hb)%list_elem_of_fmap. destruct (i_live _ _ _ _ Hi) as [_ L]. rewrite Forall_forall in L. destruct (L b Hb) as (P & _ & [W|[(c & W & _)|[W _]]]).
    + pose proof (i_early _ _ _ _ Hi). unfold in_early, apart in *. lia.
    + by apply (Hns c).
    + specialize (Hf _ W). pose proof (round8_spec (b_size b)). unfold apart in Hf. cbn in Hf. lia.
  - intros cpu c Hp. destruct (i_chain _ _ _ _ Hi cpu c) as (_ & _ & Hs). by apply (Hns c), Hs.
Qed.
(** A change of memory and of the free lists. *)
Lemma inv_lists h h' live fl fl' : inv EARLY_HEAP h live fl -> (exists m s, h' = set_slabs s (set_memory m h)) ->
  (forall cpu c, chain h' (head (slab_at cpu c h')) (fl' cpu c) /\ NoDup (fl' cpu c) /\ forall p, p ∈ fl' cpu c -> is_slot h c p) ->
  (forall cpu c cpu' c' p, p ∈ fl' cpu c -> p ∈ fl' cpu' c' -> cpu = cpu' /\ c = c') -> (forall cpu c p, p ∈ fl' cpu c -> p ∉ b_addr <$> live) -> inv EARLY_HEAP h' live fl'.
Proof. intros [] (m & s & ->) Hc Ho Hf. by split. Qed.
(** A slot that is neither free nor in use becomes free. *)
Lemma inv_push h live fl cpu c p : inv EARLY_HEAP h live fl -> is_slot h c p -> (p ∉ b_addr <$> live) -> (forall cpu' c', p ∉ fl cpu' c') -> inv EARLY_HEAP (push cpu c p h) live (upd_fl fl cpu c (p :: fl cpu c)).
Proof.
  intros Hi Hs Hl Hn. apply (inv_lists h _ live fl); [done|by eexists _, _| | |].
  - intros cpu' c'. destruct (i_chain _ _ _ _ Hi cpu' c') as (C1 & C2 & C3). assert (forall q, q ∈ fl cpu' c' -> read_word q (push cpu c p h) = read_word q h) as Hext.
    { intros q Hq. change (read_word q (push cpu c p h)) with (read_word q (write_word p (head (slab_at cpu c h)) h)). rewrite read_written, decide_False; [done|]. intros ->. by apply (Hn cpu' c'). }
    unfold slab_at in *. cbn [push set_slab set_slabs cpu_slabs write_word set_memory]. destruct (decide (cpu' = cpu /\ c' = c)) as [[-> ->]|Hne].
    + rewrite upd_fl_eq, lookup_insert_eq. cbn [default from_option id head]. split; [|split; [by constructor|intros q [->|Hq]%elem_of_cons; [done|by apply C3]]].
      cbn [chain]. split; [done|]. split; [pose proof (slot_nonzero h c p Hs); lia|]. change (read_word p (push cpu c p h)) with (read_word p (write_word p (head (slab_at cpu c h)) h)). rewrite read_written, decide_True by done. apply (chain_ext h); [exact Hext|exact C1].
    + rewrite upd_fl_ne by done. rewrite lookup_insert_ne by (intros [= -> ->]; by apply Hne). split; [|done]. by apply (chain_ext h).
  - intros cpu1 c1 cpu2 c2 q. unfold upd_fl. destruct (decide (cpu1 = cpu /\ c1 = c)) as [[-> ->]|H1], (decide (cpu2 = cpu /\ c2 = c)) as [[-> ->]|H2]; rewrite ?elem_of_cons; intros A B; [done| | |by apply (i_once _ _ _ _ Hi cpu1 c1 cpu2 c2 q)].
    + destruct A as [->|A]; [by apply Hn in B|by apply (i_once _ _ _ _ Hi cpu c cpu2 c2 q)].
    + destruct B as [->|B]; [by apply Hn in A|by apply (i_once _ _ _ _ Hi cpu1 c1 cpu c q)].
  - intros cpu1 c1 q. unfold upd_fl. destruct (decide (cpu1 = cpu /\ c1 = c)) as [[-> ->]|H1]; [|by apply (i_free _ _ _ _ Hi)]. intros [->|Hq]%elem_of_cons; [done|by apply (i_free _ _ _ _ Hi cpu c)].
Qed.
(** The first free block is handed out. *)
Lemma inv_pop h live fl cpu c h' p : inv EARLY_HEAP h live fl -> pop cpu c h = (h', Some p) ->
  exists l, fl cpu c = p :: l /\ inv EARLY_HEAP h' live (upd_fl fl cpu c l) /\ is_slot h' c p /\ (p ∉ b_addr <$> live) /\ forall cpu' c', p ∉ upd_fl fl cpu c l cpu' c'.
Proof.
  intros Hi. unfold pop. destruct (Z.eqb_spec (head (slab_at cpu c h)) 0) as [E|E]; [done|]. intros [= Eh <-]. destruct (i_chain _ _ _ _ Hi cpu c) as (C1 & C2 & C3). destruct (fl cpu c) as [|p l] eqn:El; [done|]. destruct C1 as (Ep & Hp0 & C1). rewrite Ep in *. exists l. split; [done|].
  assert (p ∈ fl cpu c) as Hin by (rewrite El; by left). apply NoDup_cons in C2 as [Hnl Hd]. assert (forall cpu' c', p ∉ upd_fl fl cpu c l cpu' c') as Hgone.
  { intros cpu' c'. unfold upd_fl. destruct (decide (cpu' = cpu /\ c' = c)) as [_|Hne]; [done|]. intros Hx. apply Hne. by destruct (i_once _ _ _ _ Hi cpu c cpu' c' p Hin Hx) as [-> ->]. }
  assert (forall cpu' c' q, q ∈ upd_fl fl cpu c l cpu' c' -> q ∈ fl cpu' c') as Hsub. { intros cpu' c' q. unfold upd_fl. destruct (decide (cpu' = cpu /\ c' = c)) as [[-> ->]|_]; [rewrite El; by right|done]. }
  split; [|split; [subst h'; apply (C3 p); by left|split; [by apply (i_free _ _ _ _ Hi cpu c)|done]]]. apply (inv_lists h _ live fl); [done|subst h'; by eexists (memory h), _| | |].
  - intros cpu' c'. split; [|split; [|intros q Hq; apply (i_chain _ _ _ _ Hi cpu' c'); by apply Hsub]]; subst h'; unfold slab_at; cbn [set_slab set_slabs cpu_slabs]; (destruct (decide (cpu' = cpu /\ c' = c)) as [[-> ->]|Hne]; [rewrite upd_fl_eq|rewrite upd_fl_ne by done]).
    + rewrite lookup_insert_eq. by apply (chain_ext h).
    + rewrite lookup_insert_ne by (intros [= -> ->]; by apply Hne). apply (chain_ext h); [done|]. apply (i_chain _ _ _ _ Hi cpu' c').
    + done.
    + apply (i_chain _ _ _ _ Hi cpu' c').
  - intros ????? A%Hsub B%Hsub. by apply (i_once _ _ _ _ Hi) with (1 := A).
  - intros cpu' c' q Hq%Hsub. by apply (i_free _ _ _ _ Hi cpu' c').
Qed.
(** A new slab page. *)
Lemma inv_tag h live fl i c : inv EARLY_HEAP h live fl -> heap_ready h = true -> mkBlock (page_addr i) HEAP_PAGE_SIZE HEAP_PAGE_SIZE ∈ blocks h -> (info_at i h).1 <> Slab ->
  (forall b, b ∈ live -> in_main h b -> heap_page_index (b_addr b) <> Some i) -> inv EARLY_HEAP (set_info (<[i := (Slab, Some c)]> (page_info h)) h) live fl.
Proof.
  intros Hi Hr Hb Hn Hm. set (h' := set_info _ h). assert (forall j, info_at j h' = if decide (j = i) then (Slab, Some c) else info_at j h) as Hinfo.
  { intros j. unfold info_at, h'. cbn [set_info page_info]. destruct (decide (j = i)) as [->|Hj]; [by rewrite lookup_insert_eq|by rewrite lookup_insert_ne]. }
  assert (forall c' p, is_slot h c' p -> is_slot h' c' p) as Hmono. { intros c' p (j & k & Hj & Ej & Hc & Hk & ->). exists j, k. rewrite Hinfo, decide_False; [done|]. intros ->. apply Hn. by rewrite Ej. }
  destruct Hi. split; try done.
  - intros Hc. cbn in Hc. congruence.
  - intros j. rewrite Hinfo. destruct (decide (j = i)) as [->|Hj]; [done|apply i_pages0].
  - intros cpu c'. destruct (i_chain0 cpu c') as (C1 & C2 & C3). split; [apply (chain_ext h); [done|exact C1]|]. split; [done|]. intros p Hp. by apply Hmono, C3.
  - destruct i_live0 as [Hd L]. split; [done|]. rewrite Forall_forall in *. intros b Hbl. destruct (L b Hbl) as (P & A & W). split; [done|]. split; [done|]. destruct W as [W|[(c' & W & W')|W]]; [by left|right; left; exists c'; eauto|]. right; right. split; [apply W|]. pose proof (Hm b Hbl W) as Hnot. destruct W as [_ W2]. unfold page_owner_for_ptr in *.
    destruct (heap_page_index (b_addr b)) as [j|] eqn:Ej; [|done]. rewrite Hinfo, decide_False; [done|]. intros ->. by apply Hnot.
Qed.
Lemma inv_set_pages h live fl cpu c n : inv EARLY_HEAP h live fl -> inv EARLY_HEAP (set_slab cpu c (mkSlab (head (slab_at cpu c h)) n) h) live fl.
Proof.
  intros Hi. apply (inv_lists h _ live fl); [done|by eexists (memory h), _| |apply (i_once _ _ _ _ Hi)|apply (i_free _ _ _ _ Hi)]. intros cpu' c'. destruct (i_chain _ _ _ _ Hi cpu' c') as (C1 & C2 & C3). split; [|done].
  unfold slab_at in *. cbn [set_slab set_slabs cpu_slabs]. destruct (decide ((cpu, c) = (cpu', c'))) as [[= <- <-]|Hne]; [rewrite lookup_insert_eq|rewrite lookup_insert_ne by done]; apply (chain_ext h); done.
Qed.
(** No slot of a page that TLSF just handed out is in use or free. *)
Lemma fresh_page_slot h live fl i c k : inv EARLY_HEAP h live fl -> apart EARLY_HEAP EARLY_HEAP_SIZE HEAP_START HEAP_SIZE -> 0 <= i < HEAP_PAGE_COUNT -> Forall (fun b => apart (page_addr i) HEAP_PAGE_SIZE (b_addr b) (b_size b)) (blocks h) -> 0 <= k < HEAP_PAGE_SIZE / class_size c ->
  (page_addr i + k * class_size c ∉ b_addr <$> live) /\ forall cpu' c', page_addr i + k * class_size c ∉ fl cpu' c'.
Proof.
  intros Hi Hap Hir Hf Hk. apply slot_in_page in Hk as [K1 K2]. pose proof (class_size_pow c) as [Hcs _]. assert (HEAP_START <= page_addr i /\ page_addr i + HEAP_PAGE_SIZE <= HEAP_START + HEAP_SIZE) as Hp. { unfold page_addr, HEAP_PAGE_COUNT in *. change (HEAP_SIZE / HEAP_PAGE_SIZE) with 25600 in Hir. unfold HEAP_START, HEAP_SIZE, HEAP_PAGE_SIZE in *. lia. }
  apply (new_block_free h live fl _ (class_size c) Hap Hi); [lia|lia|lia|]. apply (Forall_impl _ _ _ Hf). intros b Hb. unfold apart in *. lia.
Qed.
(** The page of a fresh slab holds nothing in use and nothing free; its slots are pushed one by one. *)
Lemma slot_zeroed h live fl c p : inv EARLY_HEAP h live fl -> is_slot h c p -> (forall cpu' c', p ∉ fl cpu' c') -> inv EARLY_HEAP (write_bytes_0 p (class_size c) h) live fl.
Proof.
  intros Hi Hs Hn. apply (inv_frame h); try done. intros cpu' c' q Hq. apply read_zeroed. destruct (i_chain _ _ _ _ Hi cpu' c') as (_ & _ & C3). assert (p <> q) as Hpq by (intros ->; by apply (Hn cpu' c')).
  pose proof (slots_apart h c c' p q Hs (C3 q Hq) Hpq). pose proof (class_size_pow c') as [Hc' _]. unfold apart in *. lia.
Qed.
Lemma inv_push_slots cpu c i ks h live fl : inv EARLY_HEAP h live fl -> 0 <= i < HEAP_PAGE_COUNT -> 0 <= c < NUM_CLASSES -> info_at i h = (Slab, Some c) -> NoDup ks -> (forall k, k ∈ ks -> 0 <= k < HEAP_PAGE_SIZE / class_size c) ->
  (forall k, k ∈ ks -> (page_addr i + k * class_size c ∉ b_addr <$> live) /\ forall cpu' c', page_addr i + k * class_size c ∉ fl cpu' c') ->
  let h' := foldl (fun h k => push cpu c (page_addr i + k * class_size c) (write_bytes_0 (page_addr i + k * class_size c) (class_size c) h)) h ks in
  (exists fl', inv EARLY_HEAP h' live fl') /\ heap_ready h' = heap_ready h.
Proof.
  revert h fl. induction ks as [|k ks IH]; intros h fl Hi Hr Hc Ei Hd Hk Hn; [by split; [exists fl|]|]. cbn [foldl]. apply NoDup_cons in Hd as [Hk0 Hd]. set (p := page_addr i + k * class_size c).
  assert (is_slot h c p) as Hs by (exists i, k; split; [done|]; split; [done|]; split; [done|]; split; [apply Hk; by left|done]). destruct (Hn k ltac:(by left)) as [N1 N2].
  pose proof (slot_zeroed h live fl c p Hi Hs N2) as Hz. pose proof (inv_push _ live fl cpu c p Hz Hs N1 N2) as Hp.
  destruct (IH _ _ Hp Hr Hc Ei Hd) as [Hex Hrd]; [intros k' Hk'; apply Hk; by right| |by split]. intros k' Hk'. destruct (Hn k' ltac:(by right)) as [M1 M2]. split; [done|]. intros cpu' c'. unfold upd_fl. destruct (decide _) as [_|_]; [|apply M2].
  rewrite not_elem_of_cons. split; [|apply M2]. unfold p. intros E. pose proof (class_size_pow c) as [Hcs _]. assert (k' = k) as -> by nia. done.
Qed.
Lemma tag_one_page h i c : 0 <= i < HEAP_PAGE_COUNT -> tag_heap_range (page_addr i) HEAP_PAGE_SIZE Slab (Some c) h = set_info (<[i := (Slab, Some c)]> (page_info h)) h.
Proof.
  intros Hr. unfold tag_heap_range. assert (HEAP_START <= page_addr i /\ page_addr i + HEAP_PAGE_SIZE <= HEAP_START + HEAP_SIZE) as Hp. { unfold page_addr, HEAP_PAGE_COUNT in *. change (HEAP_SIZE / HEAP_PAGE_SIZE) with 25600 in Hr. unfold HEAP_START, HEAP_SIZE, HEAP_PAGE_SIZE in *. lia. }
  assert (page_addr i <> 0) as Hz by (unfold HEAP_START in *; lia). rewrite (proj2 (Z.eqb_neq _ _) Hz). change (HEAP_PAGE_SIZE =? 0) with false. cbn [orb].
  assert (heap_page_index (page_addr i) = Some i) as -> by (apply page_index_spec; unfold HEAP_PAGE_SIZE; lia). assert (heap_page_index (Z.min u64_max (page_addr i + sat_sub HEAP_PAGE_SIZE 1)) = Some i) as ->.
  { change (sat_sub HEAP_PAGE_SIZE 1) with 4095. rewrite Z.min_r by (unfold u64_max, u64_mod, HEAP_START, HEAP_SIZE, HEAP_PAGE_SIZE in *; lia). apply page_index_spec. unfold HEAP_PAGE_SIZE. lia. }
  replace (i - i + 1) with 1 by lia. rewrite (seqZ_cons i 1) by lia. by rewrite seqZ_nil by lia.
Qed.
Lemma inv_provision h live fl cpu c h' ok : apart EARLY_HEAP EARLY_HEAP_SIZE HEAP_START HEAP_SIZE -> inv EARLY_HEAP h live fl -> heap_ready h = true -> 0 <= c < NUM_CLASSES -> provision_slab_page cpu c h = (h', ok) ->
  (exists fl', inv EARLY_HEAP h' live fl') /\ heap_ready h' = true.
Proof.
  intros Hap Hi Hr Hc. unfold provision_slab_page. destruct (alloc_from_main_heap HEAP_PAGE_SIZE HEAP_PAGE_SIZE h) as [h1 page] eqn:Ea. destruct (main_alloc h live fl HEAP_PAGE_SIZE HEAP_PAGE_SIZE h1 page Hi Hr ltac:(done) ltac:(done) Ea) as (Hi1 & [t Eh1] & Hp).
  assert (heap_ready h1 = true) as Hr1 by (by subst h1). destruct (Z.eqb_spec page 0) as [Hz|Hz]; [intros [= <- <-]; eauto|]. destruct Hp as [Hp|(P1 & P2 & Hal & Hb & Hf)]; [done|]. destruct (page_of_block page Hal P1 P2) as (i & -> & Hir).
  destruct (new_block_free h live fl _ HEAP_PAGE_SIZE Hap Hi ltac:(done) P1 P2 Hf) as (N1 & N2 & N3 & N4). rewrite Forall_forall in Hf. rewrite tag_one_page by done.
  assert ((info_at i h1).1 <> Slab) as Hns. { subst h1. intros Ei. specialize (N1 i Ei). unfold apart, HEAP_PAGE_SIZE in N1. lia. }
  assert (forall b, b ∈ live -> in_main h1 b -> heap_page_index (b_addr b) <> Some i) as Hmain.
  { intros b Hbl W E. apply page_index_spec in E as [E _]. destruct (i_live _ _ _ _ Hi) as [_ L]. rewrite Forall_forall in L. destruct (L b Hbl) as (Pb & _ & Wb). pose proof (not_early h1 live fl b Hap Hi1 Pb (or_intror W)) as Hne.
    destruct Wb as [Wb|[(c' & Wb & _)|Wb]]; [by apply Hne; subst h1| |].
    - destruct (slot_in_block EARLY_HEAP h live fl Hi c' _ Wb) as (j & _ & Ej & J1 & J2). specialize (N1 j ltac:(by rewrite Ej)). pose proof (class_size_pow c') as [Hcs _]. unfold apart in N1. lia.
    - destruct Wb as [Wb _]. specialize (Hf _ Wb). pose proof (round8_spec (b_size b)). unfold apart in Hf. cbn in Hf. lia. }
  pose proof (inv_tag h1 live fl i c Hi1 Hr1 Hb Hns Hmain) as Hi2. set (h2 := set_info _ h1) in *. set (h3 := set_slab _ _ _ h2).
  assert (inv EARLY_HEAP h3 live fl) as Hi3 by (apply inv_set_pages, Hi2). intros [= <- <-]. unfold push_slots.
  destruct (inv_push_slots cpu c i (rev (seqZ 0 (HEAP_PAGE_SIZE / class_size c))) h3 live fl Hi3 Hir Hc) as [Hex Hrd].
  - change (info_at i h3) with (info_at i h2). unfold info_at, h2. cbn [set_info page_info]. by rewrite lookup_insert_eq.
  - apply NoDup_ListNoDup, NoDup_rev, NoDup_ListNoDup, NoDup_seqZ.
  - intros k Hk. rewrite list_elem_of_In, <-in_rev, <-list_elem_of_In, elem_of_seqZ in Hk. lia.
  - intros k Hk. rewrite list_elem_of_In, <-in_rev, <-list_elem_of_In, elem_of_seqZ in Hk. assert (0 <= k < HEAP_PAGE_SIZE / class_size c) as Hk' by lia. apply (fresh_page_slot h live fl); [done|done|done|by apply Forall_forall|done].
  - split; [done|]. rewrite Hrd. done.
Qed.
Lemma max8_divide k : 0 <= k -> (2 ^ k | Z.max (2 ^ k) 8).
Proof.
  intros Hk. destruct (Z.le_gt_cases 3 k) as [H3|H3].
  - assert (2 ^ 3 <= 2 ^ k) by (apply Z.pow_le_mono_r; lia). by rewrite Z.max_l by lia.
  - assert (2 ^ k <= 2 ^ 3) by (apply Z.pow_le_mono_r; lia). rewrite Z.max_r by lia. exists (2 ^ (3 - k)). rewrite <-Z.pow_add_r by lia. by replace (3 - k + k) with 3 by lia.
Qed.
(** *** The calls of the allocator *)
Hypothesis Hap : apart EARLY_HEAP EARLY_HEAP_SIZE HEAP_START HEAP_SIZE.
Hypothesis Hlow : 0 < EARLY_HEAP.
Hypothesis Hhigh : EARLY_HEAP + EARLY_HEAP_SIZE + 2 ^ 32 < u64_mod.
Lemma pop_ready h cpu c h' r : pop cpu c h = (h', r) -> heap_ready h' = heap_ready h.
Proof. unfold pop. case_match; by intros [= <- <-]. Qed.
(** What a slab hands out: a slot large enough that is neither in use nor free any more. *)
Lemma inv_pop_add h live fl cpu c h' p size k : inv EARLY_HEAP h live fl -> pop cpu c h = (h', Some p) -> 0 < size <= class_size c -> 0 <= k <= 5 -> p <> 0 /\ exists fl', inv EARLY_HEAP h' (mkBlock p size (2 ^ k) :: live) fl'.
Proof.
  intros Hi Hp Hs Hk. destruct (inv_pop _ _ _ _ _ _ _ Hi Hp) as (l & _ & Hi' & Hsl & N1 & N2). pose proof (slot_nonzero h' c p Hsl). split; [lia|]. exists (upd_fl fl cpu c l). apply inv_add; try done; cbn; [lia| |left; exists c; split; [done|cbn; lia]].
  apply (Z.divide_trans _ 32); [|by apply (slot_aligned h' c)]. exists (2 ^ (5 - k)). rewrite <-Z.pow_add_r by lia. by replace (5 - k + k) with 5 by lia.
Qed.
Lemma inv_slab_alloc h live fl cpu size k h' r : inv EARLY_HEAP h live fl -> heap_ready h = true -> 0 < size -> 0 <= k -> slab_alloc cpu (round8 size) (Z.max (2 ^ k) 8) h = (h', r) ->
  heap_ready h' = true /\ match r with Some p => p <> 0 /\ exists fl', inv EARLY_HEAP h' (mkBlock p size (2 ^ k) :: live) fl' | None => exists fl', inv EARLY_HEAP h' live fl' end.
Proof.
  intros Hi Hr Hs Hk. unfold slab_alloc. destruct (negb (slab_active h)); [intros [= <- <-]; eauto|]. destruct (Z.ltb_spec 16 (Z.max (2 ^ k) 8)) as [Hbig|Hal]; [intros [= <- <-]; eauto|].
  assert (k <= 5) as Hk5. { destruct (Z.le_gt_cases k 5) as [|Hgt]; [done|]. assert (2 ^ 5 <= 2 ^ k) by (apply Z.pow_le_mono_r; lia). lia. }
  rewrite round8_twice. destruct (size_to_class (round8 size)) as [c|] eqn:Ec; [|intros [= <- <-]; eauto]. apply class_bounds in Ec as [Hc1 Hc2]. pose proof (round8_spec size) as [Hr8 _]. set (cp := current_cpu_slot cpu).
  assert (forall h fl h' r, inv EARLY_HEAP h live fl -> heap_ready h = true -> pop cp c h = (h', r) -> heap_ready h' = true /\ match r with Some p => p <> 0 /\ exists fl', inv EARLY_HEAP h' (mkBlock p size (2 ^ k) :: live) fl' | None => exists fl', inv EARLY_HEAP h' live fl' end) as Hpop.
  { intros h0 fl0 h0' [p|] Hi0 Hr0 Hp0; (split; [by rewrite (pop_ready _ _ _ _ _ Hp0)|]); [apply (inv_pop_add h0 live fl0 cp c); [done|done|lia|lia]|]. unfold pop in Hp0. case_match; simplify_eq. eauto. }
  destruct (Z.eqb_spec (head (slab_at cp c h)) 0) as [Hz|Hz]; [|by apply (Hpop h fl)]. destruct (provision_slab_page cp c h) as [h1 ok] eqn:Ep. destruct (inv_provision _ _ _ _ _ _ _ Hap Hi Hr Hc2 Ep) as [[fl1 Hi1] Hr1].
  destruct ok; [by apply (Hpop h1 fl1)|]. intros [= <- <-]. eauto.
Qed.
Lemma inv_alloc h live fl cpu size k h' p : inv EARLY_HEAP h live fl -> 0 < size <= ISIZE_MAX -> 0 <= k <= 32 -> alloc EARLY_HEAP cpu size (2 ^ k) h = (h', p) ->
  exists fl', inv EARLY_HEAP h' (if p =? 0 then live else mkBlock p size (2 ^ k) :: live) fl'.
Proof.
  intros Hi Hs Hk. unfold alloc. destruct (ISIZE_MAX - _ <? round8 size); [intros [= <- <-]; eauto|].
  assert (forall h fl, inv EARLY_HEAP h live fl -> early_alloc EARLY_HEAP (round8 size) (Z.max (2 ^ k) 8) h = (h', p) -> exists fl', inv EARLY_HEAP h' (if p =? 0 then live else mkBlock p size (2 ^ k) :: live) fl') as Hearly.
  { intros h0 fl0 Hi0 E. pose proof (inv_early_alloc h0 live fl0 size k Hap Hlow Hhigh Hi0 Hs Hk) as Hx. rewrite E in Hx. destruct Hx as [[-> ->]|[Hp Hx]]; [eauto|]. apply Z.eqb_neq in Hp as ->. eauto. }
  destruct (heap_ready h) eqn:Hr; cbn [negb]; [|by apply (Hearly h fl)]. destruct (slab_alloc _ _ _ h) as [h1 r] eqn:Es. destruct (inv_slab_alloc h live fl cpu size k h1 r Hi Hr ltac:(lia) ltac:(lia) Es) as [Hr1 Hx]. destruct r as [q|].
  { intros [= <- <-]. destruct Hx as [Hq Hx]. by apply Z.eqb_neq in Hq as ->. }
  destruct Hx as [fl1 Hi1]. pose proof (round8_spec size) as [Hr8 _]. destruct (alloc_from_main_heap (round8 size) (Z.max (2 ^ k) 8) h1) as [h2 q] eqn:Ea. destruct (main_alloc h1 live fl1 (round8 size) (Z.max (2 ^ k) 8) h2 q Hi1 Hr1 ltac:(lia) ltac:(lia) Ea) as (Hi2 & [t Eh2] & Hq).
  destruct (Z.eqb_spec q 0) as [Hz|Hz]; [by apply (Hearly h2 fl1)|]. intros [= <- <-]. rewrite (proj2 (Z.eqb_neq q 0) Hz). destruct Hq as [Hq|(Q1 & Q2 & Q3 & Q4 & Q5)]; [done|].
  destruct (new_block_free h1 live fl1 q (round8 size) Hap Hi1 ltac:(lia) Q1 Q2 Q5) as (N1 & N2 & N3 & N4). exists fl1. apply inv_add; try done; cbn; [lia| |right; split; [done|by subst h2]].
  apply (Z.divide_trans _ _ _ (max8_divide k ltac:(lia)) Q3).
Qed.
(** A block that is no longer used; it may stay where it is. *)
Lemma inv_remove h l1 b l2 fl : inv EARLY_HEAP h (l1 ++ b :: l2) fl -> inv EARLY_HEAP h (l1 ++ l2) fl.
Proof.
  intros []. assert (forall x, x ∈ l1 ++ l2 -> x ∈ l1 ++ b :: l2) as Hsub by (intros x; rewrite !elem_of_app, elem_of_cons; tauto). split; try done.
  - intros cpu c p Hp (x & -> & Hx)%list_elem_of_fmap. apply (i_free0 cpu c _ Hp), list_elem_of_fmap. eauto.
  - destruct i_live0 as [Hd L]. split; [|rewrite Forall_forall in *; auto]. rewrite fmap_app in *. cbn in Hd. apply NoDup_app in Hd as (D1 & D2 & D3). apply NoDup_cons in D3 as [_ D3]. apply NoDup_app. split; [done|]. split; [|done]. intros x Hx Hx'. apply (D2 x Hx). by right.
  - intros x y Hx Hy. auto.
Qed.
Lemma removed_addr (l1 : list block) b l2 : NoDup (b_addr <$> l1 ++ b :: l2) -> b_addr b ∉ b_addr <$> l1 ++ l2.
Proof.
  rewrite !fmap_app. cbn. intros (D1 & D2 & D3)%NoDup_app. apply NoDup_cons in D3 as [D3 _]. rewrite elem_of_app. intros [Hx|Hx]; [|done]. apply (D2 _ Hx). by left.
Qed.
Lemma inv_slab_dealloc h l1 b l2 fl cpu : inv EARLY_HEAP h (l1 ++ b :: l2) fl -> in_slab h b -> exists fl', inv EARLY_HEAP (slab_dealloc cpu (b_addr b) h).1 (l1 ++ l2) fl'.
Proof.
  intros Hi (c & Hs & _). pose proof (inv_remove _ _ _ _ _ Hi) as Hi'. unfold slab_dealloc. destruct (_ || _); [by exists fl|]. pose proof Hs as Hs'. destruct (slot_page h c _ Hs) as (i & Ei & Hinfo & _). unfold slab_class_for_ptr. rewrite Ei, Hinfo. cbn [snd]. destruct (c <? NUM_CLASSES); [|by exists fl]. cbn [fst]. eexists. apply inv_push; try done.
  - apply removed_addr. apply (i_live _ _ _ _ Hi).
  - intros cpu' c' Hin. apply (i_free _ _ _ _ Hi cpu' c' _ Hin). apply list_elem_of_fmap. exists b. split; [done|]. rewrite elem_of_app, elem_of_cons. auto.
Qed.
Lemma inv_main_dealloc h l1 b l2 fl : inv EARLY_HEAP h (l1 ++ b :: l2) fl -> heap_ready h = true -> 0 < b_size b -> in_main h b -> inv EARLY_HEAP (dealloc_to_main_heap (b_addr b) (Z.max (b_align b) 8) h) (l1 ++ l2) fl.
Proof.
  intros Hi Hr Hs Hm. pose proof (inv_remove _ _ _ _ _ Hi) as Hi'. destruct (tlsf_some _ _ _ Hi Hr) as (t & Et & Eb & Eg). unfold dealloc_to_main_heap. rewrite Hr, Et, orb_false_r. destruct (_ =? _); [done|]. replace (Z.max (Z.max (b_align b) 8) 8) with (Z.max (b_align b) 8) by lia.
  pose proof Hm as [Hb _]. rewrite Eb in Hb. apply list_elem_of_split in Hb as (k1 & k2 & Ek). set (bb := mkBlock (b_addr b) (round8 (b_size b)) (Z.max (b_align b) 8)) in *. destruct (i_blocks _ _ _ _ Hi) as [Hsep Hrg].
  assert (NoDup (b_addr <$> t_blocks t)) as Hnd by (rewrite <-Eb; apply sep_nodup; [done|]; apply (Forall_impl _ _ _ Hrg); tauto). destruct (t_deallocate_ok k1 bb k2 t Hnd Ek) as [Hd Hg]. change (b_addr bb) with (b_addr b) in *. change (b_align bb) with (Z.max (b_align b) 8) in *.
  rewrite Eb, Ek in Hsep, Hrg. assert (forall x, x <> bb -> x ∈ blocks h -> x ∈ k1 ++ k2) as Hkeep by (intros x Hx; rewrite Eb, Ek, !elem_of_app, elem_of_cons; tauto).
  apply (inv_set_tlsf h (l1 ++ l2)); rewrite ?Hd; try done.
  - by rewrite Hg.
  - by apply sep_remove in Hsep.
  - rewrite Forall_app, Forall_cons in Hrg. rewrite Forall_app. tauto.
  - intros i Ei. apply Hkeep; [|by apply (i_pages _ _ _ _ Hi)]. intros E. symmetry in E. by apply (main_not_page h b i Hm Hs Ei (page_range EARLY_HEAP h _ fl Hi i Ei)).
  - apply (i_live _ _ _ _ Hi').
  - intros x Hx [Wx _]. apply Hkeep; [|done]. intros [= E _ _]. apply (removed_addr l1 b l2 (proj1 (i_live _ _ _ _ Hi))). rewrite <-E. apply list_elem_of_fmap. eauto.
Qed.
Lemma inv_dealloc h l1 b l2 fl cpu : inv EARLY_HEAP h (l1 ++ b :: l2) fl -> exists fl', inv EARLY_HEAP (dealloc EARLY_HEAP cpu (b_addr b) (b_align b) h) (l1 ++ l2) fl'.
Proof.
  intros Hi. pose proof (inv_remove _ _ _ _ _ Hi) as Hi'. destruct (i_live _ _ _ _ Hi) as [_ L]. rewrite Forall_forall in L. destruct (L b) as (P & _ & W); [rewrite elem_of_app, elem_of_cons; auto|].
  unfold dealloc. destruct (_ =? 0); [eauto|]. destruct (is_early_heap EARLY_HEAP (b_addr b)) eqn:Ee; [eauto|]. destruct (negb (is_main_heap _ h)); [eauto|]. destruct (heap_ready h) eqn:Hr; cbn [negb]; [|eauto].
  destruct W as [W|[W|W]].
  - exfalso. pose proof (i_early _ _ _ _ Hi). unfold in_early, is_early_heap in *. lia.
  - pose proof W as (c & Hs & _). destruct (slot_page h c _ Hs) as (i & Ei & Hinfo & _). unfold page_owner_for_ptr. rewrite Ei, Hinfo. cbn [fst]. by apply (inv_slab_dealloc h l1 b l2 fl).
  - exists fl. pose proof (inv_main_dealloc h l1 b l2 fl Hi Hr P W). destruct W as [_ W]. by destruct (page_owner_for_ptr (b_addr b) h).
Qed.
(** A free block and a block in use do not overlap, so stores by the users keep the free lists. *)
Lemma free_apart h live fl cpu c q b : inv EARLY_HEAP h live fl -> q ∈ fl cpu c -> b ∈ live -> apart q (class_size c) (b_addr b) (b_size b).
Proof.
  intros Hi Hq Hb. destruct (i_chain _ _ _ _ Hi cpu c) as (_ & _ & C3). specialize (C3 q Hq) as Hs. destruct (i_live _ _ _ _ Hi) as [_ L]. rewrite Forall_forall in L. destruct (L b Hb) as (P & _ & W). pose proof (free_range _ _ _ _ _ _ Hi Hq) as Hfr. pose proof (i_early _ _ _ _ Hi).
  destruct W as [W|[(c' & W & Wc)|W]]; [unfold in_early, apart in *; lia| |].
  - assert (q <> b_addr b) as Hne. { intros ->. apply (i_free _ _ _ _ Hi cpu c _ Hq), list_elem_of_fmap. eauto. } pose proof (slots_apart h c c' _ _ Hs W Hne). unfold apart in *. lia.
  - destruct (slot_in_block EARLY_HEAP h live fl Hi c q Hs) as (i & Hin & Ei & J1 & J2). pose proof (main_not_page h b i W P ltac:(by rewrite Ei) (page_range EARLY_HEAP h live fl Hi i ltac:(by rewrite Ei))) as Hne.
    pose proof (sep_apart _ _ _ (proj1 (i_blocks _ _ _ _ Hi)) (proj1 W) Hin Hne) as Hsp. pose proof (round8_spec (b_size b)). unfold apart in *. cbn in Hsp. lia.
Qed.
Lemma inv_store h live fl b a v : inv EARLY_HEAP h live fl -> b ∈ live -> b_addr b <= a -> a + 8 <= b_addr b + b_size b -> inv EARLY_HEAP (write_word a v h) live fl.
Proof.
  intros Hi Hb H1 H2. apply (inv_frame h); try done. intros cpu c q Hq. rewrite read_written, decide_False; [done|]. intros ->. pose proof (free_apart _ _ _ _ _ _ _ Hi Hq Hb) as Hf. pose proof (class_size_pow c) as [Hc _]. unfold apart in Hf. lia.
Qed.
(** ** Histories
    The users: allocations, releases of blocks in use, stores of words into them, and the two steps of start-up. *)
Inductive op := Alloc (cpu size k : Z) | Free (cpu : Z) (n : nat) | Store (n : nat) (off v : Z) | InitHeap (r : bool) | Activate.
Definition step (o : op) (s : Heap T * list block) : Heap T * list block :=
  let '(h, live) := s in
  match o with
  | Alloc cpu size k => let '(h', p) := alloc EARLY_HEAP cpu size (2 ^ k) h in (h', if p =? 0 then live else mkBlock p size (2 ^ k) :: live)
  | Free cpu n => match live !! n with Some b => (dealloc EARLY_HEAP cpu (b_addr b) (b_align b) h, delete n live) | None => s end
  | Store n off v => match live !! n with Some b => if (0 <=? off) && (off mod 8 =? 0) && (off + 8 <=? b_size b) then (write_word (b_addr b + off) v h, live) else s | None => s end
  | InitHeap r => ((init_heap r h).1, live)
  | Activate => (activate h, live)
  end.
Definition run (os : list op) (s : Heap T * list block) : Heap T * list block := foldl (fun s o => step o s) s os.
(** A layout: a size from 1 to [isize::MAX], an alignment that is a power of two, here up to 4 GiB. *)
Definition valid_op (o : op) : bool := match o with Alloc _ size k => (0 <? size) && (size <=? ISIZE_MAX) && ((0 <=? k) && (k <=? 32)) | _ => true end.
Lemma delete_split {A} (l : list A) n x : l !! n = Some x -> exists l1 l2, l = l1 ++ x :: l2 /\ delete n l = l1 ++ l2.
Proof.
  revert n. induction l as [|y l IH]; intros [|n]; [done|done|intros [= ->]; by exists [], l|]. cbn. intros (l1 & l2 & -> & Hd)%IH. exists (y :: l1), l2. split; [done|]. cbn. f_equal. exact Hd.
Qed.
Lemma heap_inv_new mem : inv EARLY_HEAP (heap_new mem : Heap T) [] (fun _ _ => []).
Proof.
  split; try done.
  - split; [apply FOP_nil|by apply Forall_nil].
  - intros cpu c. split; [done|]. split; [apply NoDup_nil_2|]. by intros p ?%elem_of_nil.
  - by intros cpu c cpu' c' p ?%elem_of_nil.
  - by intros cpu c p ?%elem_of_nil.
  - split; [apply NoDup_nil_2|by apply Forall_nil].
  - by intros x y ?%elem_of_nil.
Qed.
Lemma inv_step o h live fl h' live' : inv EARLY_HEAP h live fl -> valid_op o = true -> step o (h, live) = (h', live') -> exists fl', inv EARLY_HEAP h' live' fl'.
Proof.
  intros Hi Hv. destruct o as [cpu size k|cpu n|n off v|r|]; cbn [step].
  - cbn [valid_op] in Hv. destruct (alloc _ _ _ _ h) as [h1 p] eqn:E. intros [= <- <-]. apply (inv_alloc h live fl cpu size k h1 p); [done|lia|lia|done].
  - destruct (live !! n) as [b|] eqn:E; [|intros [= <- <-]; eauto]. destruct (delete_split _ _ _ E) as (l1 & l2 & -> & ->). intros [= <- <-]. by apply (inv_dealloc h l1 b l2 fl).
  - destruct (live !! n) as [b|] eqn:E; [|intros [= <- <-]; eauto]. apply list_elem_of_lookup_2 in E. destruct (_ && _) eqn:Eb; intros [= <- <-]; exists fl; [|done]. apply (inv_store h live fl b); [done|done|lia|lia].
  - intros [= <- <-]. exists fl. by apply inv_init.
  - intros [= <- <-]. exists fl. by apply inv_activate.
Qed.
Lemma inv_run os h live fl : inv EARLY_HEAP h live fl -> Forall (fun o => valid_op o = true) os -> exists fl', inv EARLY_HEAP (run os (h, live)).1 (run os (h, live)).2 fl'.
Proof.
  revert h live fl. induction os as [|o os IH]; intros h live fl Hi; [by exists fl|]. intros [Ho Hos]%Forall_cons. cbn [run foldl]. destruct (step o (h, live)) as [h' live'] eqn:E. destruct (inv_step o h live fl h' live' Hi Ho E) as [fl' Hi']. by apply (IH h' live' fl').
Qed.
(** *** What is stored in a block in use stays *)
Lemma new_block_apart h live fl p n b : inv EARLY_HEAP h live fl -> HEAP_START <= p -> p + n <= HEAP_START + HEAP_SIZE -> Forall (fun b => apart p n (b_addr b) (b_size b)) (blocks h) -> b ∈ live -> apart p n (b_addr b) (b_size b).
Proof.
  intros Hi P1 P2 Hf Hb. rewrite Forall_forall in Hf. destruct (i_live _ _ _ _ Hi) as [_ L]. rewrite Forall_forall in L. destruct (L b Hb) as (P & _ & [W|[(c & W & Wc)|[W _]]]).
  - pose proof (i_early _ _ _ _ Hi). unfold in_early, apart in *. lia.
  - destruct (slot_in_block EARLY_HEAP h live fl Hi c _ W) as (i & Hin & _ & J1 & J2). specialize (Hf _ Hin). unfold apart in *. cbn in Hf. lia.
  - specialize (Hf _ W). pose proof (round8_spec (b_size b)). unfold apart in *. cbn in Hf. lia.
Qed.
(** The word [a] lies in a block in use. *)
Definition word_of (live : list block) (a : Z) : Prop := exists b, b ∈ live /\ b_addr b <= a /\ a + 8 <= b_addr b + b_size b.
Lemma push_slots_memory cpu c page ks h a : (forall k, k ∈ ks -> 0 <= k < HEAP_PAGE_SIZE / class_size c) -> ~ (page <= a < page + HEAP_PAGE_SIZE) ->
  read_word a (foldl (fun h k => push cpu c (page + k * class_size c) (write_bytes_0 (page + k * class_size c) (class_size c) h)) h ks) = read_word a h.
Proof.
  revert h. induction ks as [|k ks IH]; intros h Hk Ha; [done|]. cbn [foldl]. rewrite IH; [|intros k' Hk'; apply Hk; by right|done]. destruct (slot_in_page c k (Hk k ltac:(by left))) as [K1 K2]. pose proof (class_size_pow c) as [Hc _]. set (h1 := write_bytes_0 _ _ h).
  change (read_word a (push cpu c (page + k * class_size c) h1)) with (read_word a (write_word (page + k * class_size c) (head (slab_at cpu c h1)) h1)). rewrite read_written, decide_False by lia. unfold h1. apply read_zeroed. lia.
Qed.
Lemma provision_memory h live fl cpu c a : inv EARLY_HEAP h live fl -> heap_ready h = true -> word_of live a -> read_word a (provision_slab_page cpu c h).1 = read_word a h.
Proof.
  intros Hi Hr (b & Hb & A1 & A2). unfold provision_slab_page. destruct (alloc_from_main_heap HEAP_PAGE_SIZE HEAP_PAGE_SIZE h) as [h1 page] eqn:Ea. destruct (main_alloc h live fl HEAP_PAGE_SIZE HEAP_PAGE_SIZE h1 page Hi Hr ltac:(done) ltac:(done) Ea) as (_ & [t Eh1] & Hp).
  destruct (Z.eqb_spec page 0) as [Hz|Hz]; [by subst h1|]. destruct Hp as [Hp|(P1 & P2 & Hal & _ & Hf)]; [done|]. destruct (page_of_block page Hal P1 P2) as (i & -> & Hir). pose proof (new_block_apart h live fl _ HEAP_PAGE_SIZE b Hi P1 P2 Hf Hb) as Hx. rewrite tag_one_page by done. cbn [fst]. unfold push_slots.
  rewrite push_slots_memory; [by subst h1| |unfold apart in Hx; lia]. intros k Hk. rewrite list_elem_of_In, <-in_rev, <-list_elem_of_In, elem_of_seqZ in Hk. lia.
Qed.
Lemma pop_memory (h : Heap T) cpu c a : read_word a (pop cpu c h).1 = read_word a h.
Proof. unfold pop. by case_match. Qed.
Lemma slab_alloc_memory h live fl cpu size al a : inv EARLY_HEAP h live fl -> heap_ready h = true -> word_of live a -> read_word a (slab_alloc cpu size al h).1 = read_word a h.
Proof.
  intros Hi Hr Hw. unfold slab_alloc. destruct (negb _); [done|]. destruct (16 <? al); [done|]. destruct (size_to_class _) as [c|]; [|done]. destruct (_ =? 0); [|apply pop_memory]. pose proof (provision_memory h live fl (current_cpu_slot cpu) c a Hi Hr Hw) as Hp. destruct (provision_slab_page _ c h) as [h1 []]; [by rewrite pop_memory|done].
Qed.
Lemma early_alloc_memory h live fl size k a : inv EARLY_HEAP h live fl -> 0 < size <= ISIZE_MAX -> 0 <= k <= 32 -> word_of live a -> read_word a (early_alloc EARLY_HEAP (round8 size) (Z.max (2 ^ k) 8) h).1 = read_word a h.
Proof.
  intros Hi Hs Hk (b & Hb & A1 & A2). unfold early_alloc. pose proof (i_early _ _ _ _ Hi) as Heo. destruct (early_place (early_offset h) size k Hlow Hhigh Heo Hs Hk) as (Ha & _ & En). set (q := align_to _ _) in *. rewrite round8_twice in *.
  destruct (Z.ltb_spec EARLY_HEAP_SIZE (sat_sub (Z.min u64_max (q + round8 size)) EARLY_HEAP)) as [Hfull|Hfit]; [done|]. specialize (En Hfit). rewrite En in *. cbn [fst]. rewrite read_zeroed; [done|]. destruct (i_live _ _ _ _ Hi) as [_ L]. rewrite Forall_forall in L. destruct (L b Hb) as (P & _ & [W|W]); [unfold in_early in W; lia|].
  pose proof (in_heap_range EARLY_HEAP h live fl Hi b W P). unfold apart in Hap. lia.
Qed.
Lemma alloc_memory h live fl cpu size k a : inv EARLY_HEAP h live fl -> 0 < size <= ISIZE_MAX -> 0 <= k <= 32 -> word_of live a -> read_word a (alloc EARLY_HEAP cpu size (2 ^ k) h).1 = read_word a h.
Proof.
  intros Hi Hs Hk Hw. unfold alloc. destruct (ISIZE_MAX - _ <? round8 size); [done|]. destruct (heap_ready h) eqn:Hr; cbn [negb]; [|by apply (early_alloc_memory h live fl)].
  pose proof (slab_alloc_memory h live fl cpu (round8 size) (Z.max (2 ^ k) 8) a Hi Hr Hw) as Hsm. destruct (slab_alloc _ _ _ h) as [h1 r] eqn:Es. destruct (inv_slab_alloc h live fl cpu size k h1 r Hi Hr ltac:(lia) ltac:(lia) Es) as [Hr1 Hx]. cbn [fst] in Hsm. destruct r as [q|]; [exact Hsm|]. destruct Hx as [fl1 Hi1].
  pose proof (round8_spec size) as [Hr8 _]. destruct (alloc_from_main_heap (round8 size) (Z.max (2 ^ k) 8) h1) as [h2 q] eqn:Ea. destruct (main_alloc h1 live fl1 (round8 size) (Z.max (2 ^ k) 8) h2 q Hi1 Hr1 ltac:(lia) ltac:(lia) Ea) as (Hi2 & [t Eh2] & _).
  assert (read_word a h2 = read_word a h) as Hm by (rewrite <-Hsm; by subst h2). destruct (q =? 0); [|exact Hm]. by rewrite (early_alloc_memory h2 live fl1).
Qed.
Lemma dealloc_memory h l1 b l2 fl cpu a : inv EARLY_HEAP h (l1 ++ b :: l2) fl -> word_of (l1 ++ l2) a -> read_word a (dealloc EARLY_HEAP cpu (b_addr b) (b_align b) h) = read_word a h.
Proof.
  intros Hi (x & Hx & A1 & A2). unfold dealloc. destruct (_ =? 0); [done|]. destruct (is_early_heap _ _); [done|]. destruct (negb (is_main_heap _ h)); [done|]. destruct (negb (heap_ready h)); [done|].
  assert (forall al, read_word a (dealloc_to_main_heap (b_addr b) al h) = read_word a h) as Hmain by (intros al; unfold dealloc_to_main_heap; destruct (_ || _); [done|]; by destruct (tlsf h)). destruct (page_owner_for_ptr (b_addr b) h); try apply Hmain.
  unfold slab_dealloc. destruct (_ || _); [done|]. destruct (slab_class_for_ptr _ h) as [c|]; [|done]. destruct (c <? NUM_CLASSES); [|done]. cbn [fst]. set (cp := current_cpu_slot cpu).
  change (read_word a (push cp c (b_addr b) h)) with (read_word a (write_word (b_addr b) (head (slab_at cp c h)) h)). rewrite read_written, decide_False; [done|]. intros ->.
  assert (b ∈ l1 ++ b :: l2 /\ x ∈ l1 ++ b :: l2) as [Hb Hx'] by (rewrite !elem_of_app, !elem_of_cons; rewrite elem_of_app in Hx; tauto). assert (b <> x) as Hne. { intros ->. apply (removed_addr l1 x l2 (proj1 (i_live _ _ _ _ Hi))). apply list_elem_of_fmap. eauto. }
  pose proof (live_apart EARLY_HEAP h _ fl Hi Hap b x Hb Hx' Hne) as Hxa. destruct (i_live _ _ _ _ Hi) as [_ L]. rewrite Forall_forall in L. destruct (L b Hb) as (P & _). unfold apart in Hxa. lia.
Qed.
(** The word a step stores for its user. *)
Definition stored (o : op) (live : list block) : option Z := match o with Store n off _ => b ← live !! n; Some (b_addr b + off) | _ => None end.
Lemma step_memory o h live fl a : inv EARLY_HEAP h live fl -> valid_op o = true -> word_of live a -> word_of (step o (h, live)).2 a -> stored o live <> Some a -> read_word a (step o (h, live)).1 = read_word a h.
Proof.
  intros Hi Hv Hw Hw' Hst. destruct o as [cpu size k|cpu n|n off v|r|]; cbn [step] in *.
  - cbn [valid_op] in Hv. pose proof (alloc_memory h live fl cpu size k a Hi ltac:(lia) ltac:(lia) Hw) as Hm. by destruct (alloc _ _ _ _ h).
  - destruct (live !! n) as [b|] eqn:E; [|done]. destruct (delete_split _ _ _ E) as (l1 & l2 & -> & Ed). rewrite Ed in Hw'. by apply (dealloc_memory h l1 b l2 fl).
  - cbn [stored] in Hst. destruct (live !! n) as [b|] eqn:E; [|done]. destruct (_ && _); [|done]. cbn [fst]. rewrite read_written, decide_False; [done|]. intros ->. by apply Hst.
  - cbn [fst]. unfold init_heap. destruct (heap_initialized h); [done|]. by destruct r.
  - done.
Qed.
End Steps.
(** C5: the heap hands out memory safely.  Over every history of allocations of any
    size and alignment, releases of blocks in use, word stores into them and the
    steps of start-up, with the early heap apart from the main one: any two blocks
    in use are disjoint, each is aligned as asked and lies in the early or the main
    heap; and a further step changes no word of a block that stays in use, unless
    it is the user's own store to that word, although the free lists of the slabs
    run through the memory of the blocks. *)
Theorem heap_disjoint {T : Type} `{TlsfLaws T} (EARLY_HEAP : Z) (mem : gmap Z Z) (os : list op) :
  0 < EARLY_HEAP -> EARLY_HEAP + EARLY_HEAP_SIZE + 2 ^ 32 < u64_mod -> apart EARLY_HEAP EARLY_HEAP_SIZE HEAP_START HEAP_SIZE -> Forall (fun o => valid_op o = true) os ->
  let '(h, live) := run (T := T) EARLY_HEAP os (heap_new mem, []) in
  (forall i j x y, live !! i = Some x -> live !! j = Some y -> i <> j -> apart (b_addr x) (b_size x) (b_addr y) (b_size y)) /\
  Forall (fun b => 0 < b_size b /\ (b_align b | b_addr b) /\
    ((EARLY_HEAP <= b_addr b /\ b_addr b + b_size b <= EARLY_HEAP + EARLY_HEAP_SIZE) \/ (HEAP_START <= b_addr b /\ b_addr b + b_size b <= HEAP_START + HEAP_SIZE))) live /\
  (forall o a, valid_op o = true -> word_of live a -> word_of (step EARLY_HEAP o (h, live)).2 a -> stored o live <> Some a -> read_word a (step EARLY_HEAP o (h, live)).1 = read_word a h).
Proof.
  intros Hlow Hhigh Hap Hos. destruct (inv_run EARLY_HEAP Hap Hlow Hhigh os _ _ _ (heap_inv_new EARLY_HEAP mem) Hos) as [fl Hi]. destruct (run EARLY_HEAP os (heap_new mem, [])) as [h live]. cbn [fst snd] in Hi. destruct (i_live _ _ _ _ Hi) as [Hd L]. split; [|split].
  - intros i j x y Ex Ey Hij. apply (live_apart EARLY_HEAP h live fl Hi Hap); [by apply list_elem_of_lookup_2 in Ex|by apply list_elem_of_lookup_2 in Ey|]. intros ->. apply Hij. apply (NoDup_lookup _ i j (b_addr y) Hd); by rewrite list_lookup_fmap, ?Ex, ?Ey.
  - apply (Forall_impl _ _ _ L). intros b (P & A & W). split; [done|]. split; [done|]. pose proof (i_early _ _ _ _ Hi). destruct W as [W|W]; [left; unfold in_early in W; lia|right; by apply (in_heap_range EARLY_HEAP h live fl Hi)].
  - intros o a Hv Hw Hw' Hst. by apply (step_memory EARLY_HEAP Hap Hlow Hhigh o h live fl).
Qed.

(** ** More of the calls *)
Section Calls.
Context {T : Type} `{Tlsf T} (EARLY_HEAP : Z).
Implicit Types h : Heap T.
(** A slot that is released is the next one its CPU hands out, and the free list is as it was. *)
Lemma heap_free_reuses h cpu p size al c : slab_active h = true -> p <> 0 -> slab_class_for_ptr p h = Some c -> size_to_class (round8 size) = Some c -> al <= 16 ->
  let '(h', r) := slab_alloc cpu size al (slab_dealloc cpu p h).1 in r = Some p /\ slab_at (current_cpu_slot cpu) c h' = slab_at (current_cpu_slot cpu) c h /\ tlsf h' = tlsf h /\ page_info h' = page_info h.
Proof.
  intros Ha Hp Hc Hs Hal. unfold slab_dealloc. rewrite Ha. cbn [negb orb]. rewrite (proj2 (Z.eqb_neq p 0) Hp), Hc. pose proof (class_bounds _ _ Hs) as [_ Hb]. rewrite (proj2 (Z.ltb_lt c NUM_CLASSES)) by lia. cbn [fst]. set (cp := current_cpu_slot cpu). set (h1 := push cp c p h).
  assert (slab_at cp c h1 = mkSlab p (pages (slab_at cp c h))) as Eh by (unfold slab_at at 1, h1, push; cbn [set_slab set_slabs cpu_slabs]; by rewrite lookup_insert_eq). unfold slab_alloc. change (slab_active h1) with (slab_active h). rewrite Ha. cbn [negb]. rewrite (proj2 (Z.ltb_ge 16 al) Hal), Hs. fold cp.
  unfold pop. rewrite Eh. cbn [head pages]. rewrite (proj2 (Z.eqb_neq p 0) Hp). split; [done|]. split; [|done]. unfold slab_at at 1. cbn [set_slab set_slabs cpu_slabs]. rewrite lookup_insert_eq. cbn [default from_option]. unfold id.
  change (read_word p h1) with (read_word p (write_word p (head (slab_at cp c h)) h)). rewrite read_written, decide_True by done. by destruct (slab_at cp c h).
Qed.
(** The word in front of a block holds its size, and releasing the block releases the whole. *)
Lemma heap_alloc_header h cpu size h' p : heap_alloc EARLY_HEAP cpu size h = (h', p) -> p <> 0 ->
  exists h1, alloc EARLY_HEAP cpu (Z.min u64_max (size + 8)) 8 h = (h1, p - 8) /\ p <> 8 /\ h' = write_word (p - 8) size h1 /\ read_word (p - 8) h' = size.
Proof.
  unfold heap_alloc. destruct (size =? 0); [intros [= <- <-]; done|]. destruct (ISIZE_MAX - 7 <? _); [intros [= <- <-]; done|]. destruct (alloc _ _ _ _ h) as [h1 raw] eqn:E. destruct (Z.eqb_spec raw 0) as [Hz|Hz]; [intros [= <- <-]; done|]. intros [= <- <-] _. exists h1. replace (raw + 8 - 8) with raw by lia. split; [done|]. split; [lia|]. split; [done|]. by rewrite read_written, decide_True.
Qed.
Lemma heap_free_dealloc h cpu p : p <> 0 -> 0 <= read_word (p - 8) h <= ISIZE_MAX - 15 -> heap_free EARLY_HEAP cpu p h = dealloc EARLY_HEAP cpu (p - 8) 8 h.
Proof.
  intros Hp Hr. unfold heap_free. rewrite (proj2 (Z.eqb_neq p 0) Hp). unfold u64_max, u64_mod, ISIZE_MAX in *. rewrite Z.min_r by lia. by rewrite (proj2 (Z.ltb_ge _ _)) by lia.
Qed.
End Calls.

(** ** A small TLSF: the first gap after the start of a region or after a block *)
Record FirstGap := mkGap { g_blocks : list block; g_regions : list (Z * Z) }.
Definition apartb (a n b k : Z) : bool := (a + n <=? b) || (b + k <=? a).
Definition fits (t : FirstGap) (p n : Z) : bool := existsb (fun r => (r.1 <=? p) && (p + n <=? r.1 + r.2)) (g_regions t) && forallb (fun b => apartb p n (b_addr b) (b_size b)) (g_blocks t).
Definition gaps (t : FirstGap) (al : Z) : list Z := (fun a => (a + al - 1) / al * al) <$> ((g_regions t).*1 ++ ((fun b => b_addr b + b_size b) <$> g_blocks t)).
Fixpoint remove_at (p : Z) (l : list block) : list block := match l with [] => [] | b :: l' => if b_addr b =? p then l' else b :: remove_at p l' end.
#[export] Instance first_gap : Tlsf FirstGap := {
  t_new := mkGap [] [];
  t_insert_free_block s n t := mkGap (g_blocks t) ((s, n) :: g_regions t);
  t_allocate n al t := match find (fun p => fits t p n) (gaps t al) with Some p => (mkGap (mkBlock p n al :: g_blocks t) (g_regions t), Some p) | None => (t, None) end;
  t_deallocate p _ t := mkGap (remove_at p (g_blocks t)) (g_regions t) }.
Lemma remove_at_split l1 b l2 : NoDup (b_addr <$> l1 ++ b :: l2) -> remove_at (b_addr b) (l1 ++ b :: l2) = l1 ++ l2.
Proof.
  induction l1 as [|x l1 IH]; cbn; [by rewrite Z.eqb_refl|]. intros [Hx Hd]%NoDup_cons. destruct (Z.eqb_spec (b_addr x) (b_addr b)) as [E|E]; [|by rewrite IH]. exfalso. apply Hx. rewrite E, list_elem_of_fmap. exists b. split; [done|]. rewrite elem_of_app, elem_of_cons. auto.
Qed.
#[export] Instance first_gap_laws : TlsfLaws FirstGap.
Proof.
  refine {| t_blocks := g_blocks; t_regions := g_regions |}; try done.
  - intros n al t t' p Hn Hal. cbn. destruct (find _ _) as [q|] eqn:E; [|done]. intros [= <- <-]. apply find_some in E as [Hin Hf]. cbn. split; [done|]. split; [done|]. split; [|split].
    + rewrite <-list_elem_of_In in Hin. apply list_elem_of_fmap in Hin as (a & -> & _). by exists ((a + al - 1) / al).
    + apply andb_prop in Hf as [Hf _]. apply existsb_exists in Hf as ([s k] & Hin' & Hr). rewrite <-list_elem_of_In in Hin'. exists s, k. cbn in Hr. split; [done|lia].
    + apply andb_prop in Hf as [_ Hf]. rewrite forallb_forall in Hf. apply Forall_forall. intros b Hb. rewrite list_elem_of_In in Hb. specialize (Hf b Hb). unfold apartb, apart in *. lia.
  - intros n al t t'. cbn. destruct (find _ _); [done|]. by intros [= <-].
  - intros l1 b l2 t Hd E. cbn. rewrite E in Hd |- *. by rewrite remove_at_split.
Qed.
(** A block of the early heap, then with the main heap there, slots of a page, the second of which is released and handed out again, and a large block behind the slab page; the blocks in use are newest first. *)
Example heap_start_up :
  (fun '(h, live) => (live, early_offset h, read_word (HEAP_START + 40) h, head (slab_at 0 0 h)))
    (run (T := FirstGap) 0x200000 [Activate; Alloc 0 24 3; Alloc 0 32 3; Store 0 8 7; Free 0 0; Alloc 0 17 0; Alloc 1 4096 12; Free 0 3] (let '(h, live) := run 0x200000 [Alloc 0 100 0] (heap_new ∅, []) in (insert_free_region_ptr HEAP_START HEAP_SIZE h, live)))
  = ([mkBlock (HEAP_START + 4096) 4096 4096; mkBlock (HEAP_START + 32) 17 1; mkBlock HEAP_START 24 8], 104, 7, HEAP_START + 64).
Proof. by vm_compute. Qed.
Lemma heap_disjoint_witness : let '(h, live) := run (T := FirstGap) 0x200000 [Alloc 0 100 0; InitHeap true; Activate; Alloc 0 24 3; Store 0 8 7; Free 0 0; Alloc 0 17 0] (heap_new ∅, []) in
  forall i j x y, live !! i = Some x -> live !! j = Some y -> i <> j -> apart (b_addr x) (b_size x) (b_addr y) (b_size y).
Proof.
  pose proof (heap_disjoint (T := FirstGap) 0x200000 ∅ [Alloc 0 100 0; InitHeap true; Activate; Alloc 0 24 3; Store 0 8 7; Free 0 0; Alloc 0 17 0] ltac:(lia) ltac:(unfold EARLY_HEAP_SIZE, u64_mod; lia) ltac:(left; vm_compute; discriminate) ltac:(repeat constructor)) as Hx.
  destruct (run _ _ _) as [h live]. exact (proj1 Hx).
Defined.
End Heap.
