(* ===== verification/Ebpf.v ===== *)
(** * eBPF: the virtual machine and its verifier

    Models the first half of [src/src/net/ebpf.rs]: the interpreter of [EbpfVm] and the verifier
    (an abstract interpretation of registers and stack over the control flow graph).
    Arithmetic wraps as in a release build.

    The maps a program reaches through helper calls are the interface [BpfMaps]; the
    clock, the random numbers and the CPU number an instruction may see are functions of
    the number of instructions executed.  A run of code that [ebpf_jit.rs]
    generated is a parameter that gives a result or, since that code divides
    without a test for zero, faults ([None]); the theorems on ends and results are
    about interpreted programs.  A Rust panic (an index out of range) is [None].

    [verified_terminates]: a program the verifier accepts runs to a result within as
    many steps as it has instructions, never panics and meets no invalid opcode.
    [verifier_sound]: its stack accesses never fail, for programs that keep pointers
    into the stack apart at joins and do not look up maps; the examples at the end
    show why both conditions are needed.  [verifier_post_fixpoint] is the loop
    invariant behind both: the states computed cover every edge. *)
From S2P Require Import Prelude.

Module Ebpf.

Definition BPF_LD : Z := 0x00.
Definition BPF_LDX : Z := 0x01.
Definition BPF_STX : Z := 0x03.
Definition BPF_ALU : Z := 0x04.
Definition BPF_JMP : Z := 0x05.
Definition BPF_ADD : Z := 0x00.
Definition BPF_SUB : Z := 0x10.
Definition BPF_MUL : Z := 0x20.
Definition BPF_DIV : Z := 0x30.
Definition BPF_OR : Z := 0x40.
Definition BPF_AND : Z := 0x50.
Definition BPF_LSH : Z := 0x60.
Definition BPF_RSH : Z := 0x70.
Definition BPF_NEG : Z := 0x80.
Definition BPF_MOD : Z := 0x90.
Definition BPF_XOR : Z := 0xa0.
Definition BPF_MOV : Z := 0xb0.
Definition BPF_ARSH : Z := 0xc0.
Definition BPF_SRC_X : Z := 0x08.
Definition BPF_JA : Z := 0x00.
Definition BPF_JEQ : Z := 0x10.
Definition BPF_JGT : Z := 0x20.
Definition BPF_JGE : Z := 0x30.
Definition BPF_JSET : Z := 0x40.
Definition BPF_JNE : Z := 0x50.
Definition BPF_JSGT : Z := 0x60.
Definition BPF_JSGE : Z := 0x70.
Definition BPF_CALL : Z := 0x80.
Definition BPF_EXIT : Z := 0x90.
Definition BPF_W : Z := 0x00.
Definition BPF_H : Z := 0x08.
Definition BPF_B : Z := 0x10.
Definition BPF_DW : Z := 0x18.
Definition BPF_MAXINSNS : Z := 4096.
Definition BPF_STACK_SIZE : Z := 512.
Definition VERIFIER_COMPLEXITY_LIMIT : Z := 1000000.
Definition VERIFIER_CTX_MAX_ACCESS : Z := 256.

Inductive EbpfError := InvalidOpcode | InvalidRegister | MemoryAccess | SegmentationFault | StackOverflow | InfiniteLoop | CallError | JitError | InvalidElf | VerifierRejected.
(** [Result<A, EbpfError>], with the operator [?]. *)
Abbreviation result A := (A + EbpfError)%type.
Notation "'try!' x := e 'in' k" := (match e with inl x => k | inr err => inr err end) (at level 10, x name, e at level 200, k at level 200, only parsing).

(** ** Instructions *)
Record DecodedInsn := mkInsn { opcode : Z; dst : nat; src : nat; off : Z; imm : Z; class : Z; op : Z; uses_src_reg : bool }.
Definition as_i16 (x : Z) : Z := let y := x mod u16_mod in if y <? 2 ^ 15 then y else y - u16_mod.
Definition as_i32 (x : Z) : Z := let y := x mod u32_mod in if y <? 2 ^ 31 then y else y - u32_mod.
Definition decode_instruction (insn : Z) : DecodedInsn :=
  let opcode := Z.land (Z.shiftr insn 56) 0xff in
  mkInsn opcode (Z.to_nat (Z.land (Z.shiftr insn 48) 0xff)) (Z.to_nat (Z.land (Z.shiftr insn 40) 0xff)) (as_i16 (Z.land (Z.shiftr insn 32) 0xffff)) (as_i32 insn)
    (Z.land opcode 0x07) (Z.land opcode 0xf0) (Z.land opcode BPF_SRC_X =? BPF_SRC_X).
Definition checked_jump_target (pc : nat) (off : Z) (program_len : nat) : option nat :=
  let target := Z.of_nat pc + 1 + off in
  if (target <? 0) || (Z.of_nat program_len <=? target) then None else Some (Z.to_nat target).
Definition access_size_bytes (size : Z) : option nat :=
  if size =? BPF_B then Some 1%nat else if size =? BPF_H then Some 2%nat else if size =? BPF_W then Some 4%nat else if size =? BPF_DW then Some 8%nat else None.

(** ** The machine *)
Class BpfMaps (M : Type) := {
  map_lookup_elem : Z -> list Z -> M -> option (list Z);
  map_update_elem : Z -> list Z -> list Z -> Z -> M -> M * bool;
  map_delete_elem : Z -> list Z -> M -> M * bool }.
Record Env := mkEnv { get_ticks : Z -> Z; next_u32 : Z -> Z; get_current_cpu_id : Z -> Z }.
Record EbpfVm := mkVm { registers : list Z; stack : list Z; program : list Z; prog_type : Z; verified : bool; insn_count : Z; jit_program : option (list DecodedInsn) }.
Definition ebpf_vm_new (p : list Z) (ty : Z) : EbpfVm := mkVm (replicate 11 0) (replicate 512 0) p ty false 0 None.
Definition set_registers (r : list Z) (vm : EbpfVm) : EbpfVm := mkVm r (stack vm) (program vm) (prog_type vm) (verified vm) (insn_count vm) (jit_program vm).
Definition set_stack (s : list Z) (vm : EbpfVm) : EbpfVm := mkVm (registers vm) s (program vm) (prog_type vm) (verified vm) (insn_count vm) (jit_program vm).
Definition count_insn (vm : EbpfVm) : EbpfVm := mkVm (registers vm) (stack vm) (program vm) (prog_type vm) (verified vm) (u64_add (insn_count vm) 1) (jit_program vm).
Definition reg (r : nat) (vm : EbpfVm) : option Z := registers vm !! r.
Definition set_reg (r : nat) (v : Z) (vm : EbpfVm) : option EbpfVm := if (r <? length (registers vm))%nat then Some (set_registers (<[r := v]> (registers vm)) vm) else None.
(** Little-endian bytes. *)
Definition to_le (n : nat) (v : Z) : list Z := (fun i => Z.shiftr v (8 * Z.of_nat i) mod u8_mod) <$> seq 0 n.
Fixpoint of_le (l : list Z) : Z := match l with [] => 0 | b :: l' => b + 256 * of_le l' end.
Definition read_at (n k : nat) (l : list Z) : list Z := take k (drop n l).
Definition write_at (n : nat) (bs l : list Z) : list Z := take n l ++ bs ++ drop (n + length bs) l.
Definition memory_read (addr size : Z) (vm : EbpfVm) : result Z :=
  if (BPF_STACK_SIZE - 512 <=? addr) && (addr <? BPF_STACK_SIZE) then
    match access_size_bytes size with
    | None => inr MemoryAccess
    | Some k => if BPF_STACK_SIZE <? addr + Z.of_nat k then inr MemoryAccess else inl (of_le (read_at (Z.to_nat addr) k (stack vm)))
    end
  else inr MemoryAccess.
Definition memory_write (addr value size : Z) (vm : EbpfVm) : result EbpfVm :=
  if (BPF_STACK_SIZE - 512 <=? addr) && (addr <? BPF_STACK_SIZE) then
    match access_size_bytes size with
    | None => inr MemoryAccess
    | Some k => if BPF_STACK_SIZE <? addr + Z.of_nat k then inr MemoryAccess else inl (set_stack (write_at (Z.to_nat addr) (to_le k value) (stack vm)) vm)
    end
  else inr MemoryAccess.
Definition read_stack_bytes (addr : Z) (count : nat) (vm : EbpfVm) : result (list Z) :=
  if (BPF_STACK_SIZE - 512 <=? addr) && (addr <? BPF_STACK_SIZE) then
    if BPF_STACK_SIZE <? addr + Z.of_nat count then inr MemoryAccess else inl (read_at (Z.to_nat addr) count (stack vm))
  else inl (replicate count 0).

Section Machine.
Context {M : Type} `{BpfMaps M} (env : Env).
(** Registers 1 to 4 exist: [r] reads them. *)
Definition builtin_call (func_id : Z) (vm : EbpfVm) (m : M) : result (EbpfVm * M * Z) :=
  let r i := registers vm !!! i in
  if func_id =? 1 then
    try! key := read_stack_bytes (r 2%nat) 4 vm in
    match map_lookup_elem (r 1%nat mod u32_mod) key m with
    | Some value => let value_offset := sat_sub BPF_STACK_SIZE 64 in inl (set_stack (write_at (Z.to_nat value_offset) (take 8 value) (stack vm)) vm, m, value_offset)
    | None => inl (vm, m, 0)
    end
  else if func_id =? 2 then
    try! key := read_stack_bytes (r 2%nat) 4 vm in
    try! value := read_stack_bytes (r 3%nat) 4 vm in
    let '(m, ok) := map_update_elem (r 1%nat mod u32_mod) key value (r 4%nat) m in inl (vm, m, if ok : bool then 0 else u64_max)
  else if func_id =? 3 then
    try! key := read_stack_bytes (r 2%nat) 4 vm in
    let '(m, ok) := map_delete_elem (r 1%nat mod u32_mod) key m in inl (vm, m, if ok : bool then 0 else u64_max)
  else if func_id =? 4 then inl (vm, m, 0)
  else if func_id =? 5 then inl (vm, m, u64_mul (get_ticks env (insn_count vm)) 1000000)
  else if func_id =? 6 then inl (vm, m, 0)
  else if func_id =? 7 then inl (vm, m, next_u32 env (insn_count vm) mod u32_mod)
  else if func_id =? 12 then inl (vm, m, u64_max)
  else if func_id =? 14 then inl (vm, m, Z.shiftl (get_current_cpu_id env (insn_count vm)) 32 mod u64_mod)
  else if func_id =? 16 then inl (vm, m, 0)
  else inr CallError.

(** The second operand; an immediate is sign-extended. *)
Definition operand (d : DecodedInsn) (vm : EbpfVm) : option Z := if uses_src_reg d then reg (src d) vm else Some (imm d mod u64_mod).
Definition exec_alu (d : DecodedInsn) (vm : EbpfVm) : option (result EbpfVm) :=
  let binary (f : Z -> Z -> Z) := x ← reg (dst d) vm; v ← operand d vm; vm' ← set_reg (dst d) (f x v) vm; Some (inl vm') in
  let shift (f : Z -> Z -> Z) := binary (fun x v => f x ((v mod u32_mod) mod 64)) in
  let divide (f : Z -> Z -> Z) := v ← operand d vm; if v =? 0 then Some (inr CallError) else binary f in
  if op d =? BPF_ADD then binary u64_add
  else if op d =? BPF_SUB then binary u64_sub
  else if op d =? BPF_MUL then binary u64_mul
  else if op d =? BPF_DIV then divide Z.div
  else if op d =? BPF_MOD then divide Z.modulo
  else if op d =? BPF_OR then binary Z.lor
  else if op d =? BPF_AND then binary Z.land
  else if op d =? BPF_XOR then binary Z.lxor
  else if op d =? BPF_LSH then shift (fun x s => Z.shiftl x s mod u64_mod)
  else if op d =? BPF_RSH then shift Z.shiftr
  else if op d =? BPF_ARSH then shift (fun x s => Z.shiftr (as_i64 x) s mod u64_mod)
  else if op d =? BPF_NEG then x ← reg (dst d) vm; vm' ← set_reg (dst d) ((- as_i64 x) mod u64_mod) vm; Some (inl vm')
  else if op d =? BPF_MOV then v ← operand d vm; vm' ← set_reg (dst d) v vm; Some (inl vm')
  else Some (inr InvalidOpcode).
Definition exec_ldx (d : DecodedInsn) (vm : EbpfVm) : option (result EbpfVm) :=
  a ← reg (src d) vm;
  match memory_read (u64_add a (off d)) (Z.land (opcode d) 0x18) vm with
  | inl v => vm' ← set_reg (dst d) v vm; Some (inl vm')
  | inr e => Some (inr e)
  end.
Definition exec_stx (d : DecodedInsn) (vm : EbpfVm) : option (result EbpfVm) :=
  a ← reg (dst d) vm; v ← reg (src d) vm; Some (memory_write (u64_add a (off d)) v (Z.land (opcode d) 0x18) vm).
(** The condition of a jump. *)
Definition jump_taken (d : DecodedInsn) (vm : EbpfVm) : option bool :=
  let test (f : Z -> Z -> bool) := v ← operand d vm; x ← reg (dst d) vm; Some (f x v) in
  let signed (f : Z -> Z -> bool) := test (fun x v => f (as_i64 x) (as_i64 v)) in
  if op d =? BPF_JEQ then test Z.eqb
  else if op d =? BPF_JGT then test (fun x v => v <? x)
  else if op d =? BPF_JGE then test (fun x v => v <=? x)
  else if op d =? BPF_JNE then test (fun x v => negb (x =? v))
  else if op d =? BPF_JSET then test (fun x v => negb (Z.land x v =? 0))
  else if op d =? BPF_JSGT then signed (fun x v => v <? x)
  else signed (fun x v => v <=? x).

(** One turn of the interpreter's loop at [pc]: go on at another place, or the call ends; [None] is a panic. *)
Inductive turn := Go (vm : EbpfVm) (m : M) (pc : nat) | Stop (vm : EbpfVm) (m : M) (r : result Z).
Definition next_insn (vm : EbpfVm) (m : M) (pc : nat) : turn := if 1000000 <? insn_count vm then Stop vm m (inr InfiniteLoop) else Go vm m (pc + 1).
Definition goto (d : DecodedInsn) (vm : EbpfVm) (m : M) (pc : nat) : turn :=
  match checked_jump_target pc (off d) (length (program vm)) with Some t => Go vm m t | None => Stop vm m (inr InvalidOpcode) end.
Definition exec_jump (d : DecodedInsn) (vm : EbpfVm) (m : M) (pc : nat) : option turn :=
  if op d =? BPF_JA then Some (goto d vm m pc)
  else if existsb (Z.eqb (op d)) [BPF_JEQ; BPF_JGT; BPF_JGE; BPF_JNE; BPF_JSET; BPF_JSGT; BPF_JSGE] then
    taken ← jump_taken d vm; Some (if taken : bool then goto d vm m pc else next_insn vm m pc)
  else if op d =? BPF_CALL then
    match builtin_call (imm d) vm m with
    | inl (vm, m, v) => vm' ← set_reg 0 v vm; Some (next_insn vm' m pc)
    | inr e => Some (Stop vm m (inr e))
    end
  else if op d =? BPF_EXIT then v ← reg 0 vm; Some (Stop vm m (inl v))
  else Some (Stop vm m (inr InvalidOpcode)).
Definition exec_ld (d : DecodedInsn) (vm : EbpfVm) : option EbpfVm :=
  if (opcode d =? Z.lor (Z.lor BPF_LD BPF_DW) 0) && (dst d =? 1)%nat then
    let map_id := imm d mod u32_mod in if 0 <? map_id then set_reg 0 map_id vm else Some vm
  else Some vm.
Definition interpret (vm : EbpfVm) (m : M) (pc : nat) : option turn :=
  match program vm !! pc with
  | None => v ← reg 0 vm; Some (Stop vm m (inl v))
  | Some insn =>
      let vm := count_insn vm in
      let d := decode_instruction insn in
      let after (r : result EbpfVm) := match r with inl vm' => next_insn vm' m pc | inr e => Stop vm m (inr e) end in
      if class d =? BPF_LD then vm' ← exec_ld d vm; Some (next_insn vm' m (pc + 1))
      else if class d =? BPF_ALU then r ← exec_alu d vm; Some (after r)
      else if class d =? BPF_LDX then r ← exec_ldx d vm; Some (after r)
      else if class d =? BPF_STX then r ← exec_stx d vm; Some (after r)
      else if class d =? BPF_JMP then exec_jump d vm m pc
      else Some (Stop vm m (inr InvalidOpcode))
  end.
(** [execute_interpreter], at most [fuel] turns; [None] when they are not enough, [Some None] is a panic. *)
Fixpoint run (fuel : nat) (vm : EbpfVm) (m : M) (pc : nat) : option (option (EbpfVm * M * result Z)) :=
  match fuel with
  | O => None
  | S fuel' => match interpret vm m pc with
      | None => Some None
      | Some (Go vm' m' pc') => run fuel' vm' m' pc'
      | Some (Stop vm' m' r) => Some (Some (vm', m', r))
      end
  end.
End Machine.

(** ** The verifier *)
#[export] Instance insn_inhabited : Inhabited DecodedInsn := populate (decode_instruction 0).
Inductive VerifierRegKind := Uninit | Scalar | CtxPtr | StackPtr | MapFd (map_id : Z) | MapValuePtr.
#[export] Instance VerifierRegKind_eq_dec : EqDecision VerifierRegKind.
Proof. solve_decision. Defined.
Record VerifierRegState := mkRS { kind : VerifierRegKind; stack_offset : Z }.
#[export] Instance VerifierRegState_eq_dec : EqDecision VerifierRegState.
Proof. solve_decision. Defined.
Definition VERIFIER_REG_UNINIT : VerifierRegState := mkRS Uninit 0.
Definition VERIFIER_REG_SCALAR : VerifierRegState := mkRS Scalar 0.
Definition VERIFIER_REG_CTX : VerifierRegState := mkRS CtxPtr 0.
Definition VERIFIER_REG_STACK_FP : VerifierRegState := mkRS StackPtr 0.
Definition verifier_reg_map_fd (map_id : Z) : VerifierRegState := mkRS (MapFd map_id) 0.
Definition verifier_reg_map_value_ptr : VerifierRegState := mkRS MapValuePtr (-64).
Record VerifierState := mkVS { regs : list VerifierRegState; stack_init : list bool; stack_spill : list (option VerifierRegState) }.
Definition entry : VerifierState := mkVS (<[10%nat := VERIFIER_REG_STACK_FP]> (<[1%nat := VERIFIER_REG_CTX]> (replicate 11 VERIFIER_REG_UNINIT))) (replicate 512 false) (replicate 64 None).
#[export] Instance rs_inhabited : Inhabited VerifierRegState := populate VERIFIER_REG_UNINIT.
Definition set_regs (r : list VerifierRegState) (s : VerifierState) : VerifierState := mkVS r (stack_init s) (stack_spill s).
Definition set_vreg (i : nat) (v : VerifierRegState) (s : VerifierState) : VerifierState := set_regs (<[i := v]> (regs s)) s.
Definition verifier_merge_reg_state (lhs rhs : VerifierRegState) : VerifierRegState :=
  match kind lhs, kind rhs with
  | Uninit, _ | _, Uninit => VERIFIER_REG_UNINIT
  | Scalar, Scalar => VERIFIER_REG_SCALAR
  | CtxPtr, CtxPtr => VERIFIER_REG_CTX
  | StackPtr, StackPtr => VERIFIER_REG_STACK_FP
  | MapFd a, MapFd b => if a =? b then verifier_reg_map_fd a else VERIFIER_REG_SCALAR
  | MapValuePtr, MapValuePtr => verifier_reg_map_value_ptr
  | _, _ => VERIFIER_REG_SCALAR
  end.
Definition merge_spill (a b : option VerifierRegState) : option VerifierRegState :=
  match a, b with Some l, Some r => if decide (l = r) then Some l else None | _, _ => None end.
Definition stack_bytes_initialized (start size : nat) (s : VerifierState) : bool := forallb id (take size (drop start (stack_init s))).
Definition invalidate_spills_for_uninitialized_bytes (s : VerifierState) : VerifierState :=
  mkVS (regs s) (stack_init s) (imap (fun slot v => if stack_bytes_initialized (slot * 8) 8 s then v else None) (stack_spill s)).
Definition merge_from (self incoming : VerifierState) : VerifierState * bool :=
  let r := zip_with verifier_merge_reg_state (regs self) (regs incoming) in
  let i := zip_with andb (stack_init self) (stack_init incoming) in
  let p := zip_with merge_spill (stack_spill self) (stack_spill incoming) in
  let changed := negb (bool_decide (r = regs self) && bool_decide (i = stack_init self) && bool_decide (p = stack_spill self)) || negb (bool_decide (r !!! 10%nat = VERIFIER_REG_STACK_FP)) in
  let s := mkVS (<[10%nat := VERIFIER_REG_STACK_FP]> r) i p in
  ((if changed then invalidate_spills_for_uninitialized_bytes s else s), changed).
Definition reg_readable (r : nat) (s : VerifierState) : bool := (r <? length (regs s))%nat && negb (bool_decide (kind (regs s !!! r) = Uninit)).
Definition clear_spills_for_stack_range (start size : nat) (s : VerifierState) : VerifierState :=
  let first := (start / 8)%nat in let last := ((start + size - 1) / 8)%nat in
  mkVS (regs s) (stack_init s) (imap (fun slot v => if (first <=? slot)%nat && (slot <=? last)%nat then None else v) (stack_spill s)).
Definition mark_stack_write (start size : nat) (s : VerifierState) : VerifierState :=
  clear_spills_for_stack_range start size (mkVS (regs s) (imap (fun idx b => if (start <=? idx)%nat && (idx <? start + size)%nat then true else b) (stack_init s)) (stack_spill s)).
Definition verifier_stack_access_start (base_stack_offset off : Z) (size : nat) : option nat :=
  let start := BPF_STACK_SIZE + base_stack_offset + off in
  if (start <? 0) || (BPF_STACK_SIZE <? start + Z.of_nat size) then None
  else if (1 <? size)%nat && negb (start mod Z.of_nat size =? 0) then None else Some (Z.to_nat start).
Definition verifier_ctx_access_valid (off : Z) (size : nat) (write : bool) : bool :=
  if write || (off <? 0) then false
  else if VERIFIER_CTX_MAX_ACCESS <? off + Z.of_nat size then false
  else negb ((1 <? size)%nat && negb (off mod Z.of_nat size =? 0)).
Definition verifier_is_supported_helper (helper_id : Z) : bool := (1 <=? helper_id) && (helper_id <=? 3).
Definition verifier_validate_helper_args (s : VerifierState) (helper_id : Z) : result unit :=
  if helper_id =? 1 then if negb (reg_readable 1 s) then inr VerifierRejected else if negb (reg_readable 2 s) then inr VerifierRejected else inl tt
  else if helper_id =? 2 then if negb (forallb (fun r => reg_readable r s) [1; 2; 3]%nat) then inr VerifierRejected else inl tt
  else if helper_id =? 3 then if negb (forallb (fun r => reg_readable r s) [1; 2]%nat) then inr VerifierRejected else inl tt
  else if helper_id =? 12 then if negb (forallb (fun r => reg_readable r s) [1; 2; 3]%nat) then inr VerifierRejected else inl tt
  else if existsb (Z.eqb helper_id) [4; 5; 6; 7; 13; 14; 16; 23] then inl tt
  else inr CallError.
Definition verifier_check_register_bounds (d : DecodedInsn) : result unit := if (10 <? dst d)%nat || (10 <? src d)%nat then inr InvalidRegister else inl tt.
Definition verifier_check_opcode_support (d : DecodedInsn) : result unit :=
  if class d =? BPF_ALU then
    if existsb (Z.eqb (op d)) [BPF_ADD; BPF_SUB; BPF_MUL; BPF_DIV; BPF_OR; BPF_AND; BPF_LSH; BPF_RSH; BPF_NEG; BPF_MOD; BPF_XOR; BPF_MOV; BPF_ARSH] then inl tt else inr InvalidOpcode
  else if (class d =? BPF_LDX) || (class d =? BPF_STX) then match access_size_bytes (Z.land (opcode d) 0x18) with Some _ => inl tt | None => inr InvalidOpcode end
  else if class d =? BPF_JMP then
    if negb (existsb (Z.eqb (op d)) [BPF_JA; BPF_JEQ; BPF_JGT; BPF_JGE; BPF_JSET; BPF_JNE; BPF_JSGT; BPF_JSGE; BPF_CALL; BPF_EXIT]) then inr InvalidOpcode
    else if (op d =? BPF_CALL) && negb (off d =? 0) then inr VerifierRejected
    else if (op d =? BPF_EXIT) && (negb (dst d =? 0)%nat || negb (src d =? 0)%nat || negb (off d =? 0) || negb (imm d =? 0)) then inr VerifierRejected
    else inl tt
  else inr InvalidOpcode.
(** The successors of an instruction: the next one, then the target of a jump. *)
Abbreviation edges := (option nat * option nat)%type.
Definition insn_successors (n pc : nat) (d : DecodedInsn) : result edges :=
  let next := if (pc + 1 <? n)%nat then Some (pc + 1)%nat else None in
  if class d =? BPF_JMP then
    if op d =? BPF_EXIT then inl (None, None)
    else if op d =? BPF_CALL then match next with None => inr VerifierRejected | _ => inl (next, None) end
    else if op d =? BPF_JA then match checked_jump_target pc (off d) n with Some t => inl (Some t, None) | None => inr VerifierRejected end
    else match checked_jump_target pc (off d) n with
      | Some t => match next with None => inr VerifierRejected | _ => inl (next, Some t) end
      | None => inr VerifierRejected
      end
  else match next with None => inr VerifierRejected | _ => inl (next, None) end.
Fixpoint successors_from (n pc : nat) (l : list DecodedInsn) : result (list edges) :=
  match l with
  | [] => inl []
  | d :: l' => try! e := insn_successors n pc d in try! rest := successors_from n (S pc) l' in inl (e :: rest)
  end.
Definition verifier_build_cfg_successors (decoded : list DecodedInsn) : result (list edges) := successors_from (length decoded) 0 decoded.
Definition flatten (e : edges) : list nat := option_list e.1 ++ option_list e.2.
(** Marks what can be reached from the places on the stack, whose top is the head of the list. *)
Fixpoint mark_loop (fuel : nat) (next : nat -> list nat) (stk : list nat) (mask : list bool) : list bool :=
  match fuel, stk with
  | S fuel', pc :: stk' => if (mask !!! pc : bool) then mark_loop fuel' next stk' mask else mark_loop fuel' next (rev (next pc) ++ stk') (<[pc := true]> mask)
  | _, _ => mask
  end.
Definition verifier_reachable_mask (succ : list edges) : list bool := mark_loop (2 * length succ + 2) (fun pc => flatten (succ !!! pc)) [0%nat] (replicate (length succ) false).
(** The edges between reachable instructions, in the order in which they are entered into the reverse lists. *)
Definition reachable_edges (succ : list edges) (reachable : list bool) : list (nat * nat) :=
  flat_map (fun pc => if (reachable !!! pc : bool) then (fun next => (pc, next)) <$> filter (fun next => reachable !!! next = true) (flatten (succ !!! pc)) else []) (seq 0 (length succ)).
Definition reverse_edges (succ : list edges) (reachable : list bool) (pc : nat) : list nat := (filter (fun e => e.2 = pc) (reachable_edges succ reachable)).*1.
Definition verifier_can_reach_exit_mask (succ : list edges) (reachable : list bool) (exits : list nat) : list bool :=
  mark_loop (2 * length succ + length exits + 2) (reverse_edges succ reachable) (rev exits) (replicate (length succ) false).
(** *** Transfer functions *)
Definition verifier_apply_alu (d : DecodedInsn) (s : VerifierState) : result VerifierState :=
  if (dst d =? 10)%nat then inr VerifierRejected
  else if op d =? BPF_MOV then
    if uses_src_reg d then if negb (reg_readable (src d) s) then inr VerifierRejected else inl (set_vreg (dst d) (regs s !!! src d) s)
    else inl (set_vreg (dst d) VERIFIER_REG_SCALAR s)
  else if negb (reg_readable (dst d) s) then inr VerifierRejected
  else
    let k := kind (regs s !!! dst d) in
    if uses_src_reg d && (negb (reg_readable (src d) s) || bool_decide (k = StackPtr) || bool_decide (k = CtxPtr)) then inr VerifierRejected
    else if negb (uses_src_reg d) && ((op d =? BPF_DIV) || (op d =? BPF_MOD)) && (imm d =? 0) then inr VerifierRejected
    else match k with
    | StackPtr =>
        if negb ((op d =? BPF_ADD) || (op d =? BPF_SUB)) || uses_src_reg d then inr VerifierRejected
        else
          let next_offset := stack_offset (regs s !!! dst d) + (if op d =? BPF_ADD then imm d else - imm d) in
          if (next_offset <? - 2 ^ 31) || (2 ^ 31 - 1 <? next_offset) then inr VerifierRejected else inl (set_vreg (dst d) (mkRS StackPtr next_offset) s)
    | CtxPtr | Uninit | MapValuePtr => inr VerifierRejected
    | Scalar | MapFd _ => inl (set_vreg (dst d) VERIFIER_REG_SCALAR s)
    end.
Definition verifier_apply_ldx (d : DecodedInsn) (s : VerifierState) : result VerifierState :=
  match access_size_bytes (Z.land (opcode d) 0x18) with
  | None => inr InvalidOpcode
  | Some size =>
      if (dst d =? 10)%nat || negb (reg_readable (src d) s) then inr VerifierRejected
      else match kind (regs s !!! src d) with
      | StackPtr =>
          match verifier_stack_access_start (stack_offset (regs s !!! src d)) (off d) size with
          | None => inr MemoryAccess
          | Some start =>
              if negb (stack_bytes_initialized start size s) then inr VerifierRejected
              else if (size =? 8)%nat && (start mod 8 =? 0)%nat then inl (set_vreg (dst d) (default VERIFIER_REG_SCALAR (stack_spill s !!! (start / 8)%nat)) s)
              else inl (set_vreg (dst d) VERIFIER_REG_SCALAR s)
          end
      | CtxPtr => if negb (verifier_ctx_access_valid (off d) size false) then inr VerifierRejected else inl (set_vreg (dst d) VERIFIER_REG_SCALAR s)
      | _ => inr VerifierRejected
      end
  end.
Definition verifier_apply_stx (d : DecodedInsn) (s : VerifierState) : result VerifierState :=
  match access_size_bytes (Z.land (opcode d) 0x18) with
  | None => inr InvalidOpcode
  | Some size =>
      if negb (reg_readable (src d) s) || negb (reg_readable (dst d) s) then inr VerifierRejected
      else if negb (bool_decide (kind (regs s !!! dst d) = StackPtr)) then inr VerifierRejected
      else match verifier_stack_access_start (stack_offset (regs s !!! dst d)) (off d) size with
      | None => inr MemoryAccess
      | Some start =>
          let s' := mark_stack_write start size s in
          inl (if (size =? 8)%nat && (start mod 8 =? 0)%nat then mkVS (regs s') (stack_init s') (<[(start / 8)%nat := Some (regs s' !!! src d)]> (stack_spill s')) else s')
      end
  end.
Definition verifier_transfer_jump (d : DecodedInsn) (s : VerifierState) (e : edges) : result (list (nat * VerifierState)) :=
  if op d =? BPF_EXIT then if negb (reg_readable 0 s) || negb (bool_decide (kind (regs s !!! 0%nat) = Scalar)) then inr VerifierRejected else inl []
  else if op d =? BPF_CALL then
    if negb (verifier_is_supported_helper (imm d)) then inr CallError
    else
      try! u := verifier_validate_helper_args s (imm d) in
      let next := set_vreg 0 VERIFIER_REG_SCALAR (foldl (fun s r => set_vreg r VERIFIER_REG_UNINIT s) s (seq 1 5)) in
      match e.1 with Some next_pc => inl [(next_pc, next)] | None => inr VerifierRejected end
  else if existsb (Z.eqb (op d)) [BPF_JA; BPF_JEQ; BPF_JGT; BPF_JGE; BPF_JSET; BPF_JNE; BPF_JSGT; BPF_JSGE] then
    if negb (op d =? BPF_JA) && (negb (reg_readable (dst d) s) || (uses_src_reg d && negb (reg_readable (src d) s))) then inr VerifierRejected
    else inl ((fun next_pc => (next_pc, s)) <$> flatten e)
  else inr InvalidOpcode.
Definition verifier_transfer_instruction (d : DecodedInsn) (s : VerifierState) (e : edges) : result (list (nat * VerifierState)) :=
  let on (r : result VerifierState) := try! next := r in match e.1 with Some next_pc => inl [(next_pc, next)] | None => inr VerifierRejected end in
  if class d =? BPF_ALU then on (verifier_apply_alu d s)
  else if class d =? BPF_LDX then on (verifier_apply_ldx d s)
  else if class d =? BPF_STX then on (verifier_apply_stx d s)
  else if class d =? BPF_JMP then verifier_transfer_jump d s e
  else inr InvalidOpcode.

(** *** The worklist *)
(** At most [p] turns of a loop whose body goes on with a state or ends with a result. *)
Fixpoint turns {S R} (p : positive) (f : S -> S + R) (s : S) : S + R :=
  match p with
  | xH => f s
  | xO q => match turns q f s with inl s' => turns q f s' | r => r end
  | xI q => match f s with inl s0 => match turns q f s0 with inl s' => turns q f s' | r => r end | r => r end
  end.
Record Work := mkWork { in_states : list (option VerifierState); worklist : list (nat * VerifierState); processed : Z }.
Abbreviation verdict := (result (list (option VerifierState))).
Definition work_turn (decoded : list DecodedInsn) (succ : list edges) (w : Work) : Work + verdict :=
  match worklist w with
  | [] => inr (inl (in_states w))
  | (pc, incoming) :: wl =>
      let n := processed w + 1 in
      if VERIFIER_COMPLEXITY_LIMIT <? n then inr (inr InfiniteLoop)
      else
        let visit current := match verifier_transfer_instruction (decoded !!! pc) current (succ !!! pc) with
          | inl next => inl (mkWork (<[pc := Some current]> (in_states w)) (rev next ++ wl) n)
          | inr e => inr (inr e)
          end in
        match in_states w !!! pc with
        | Some existing => match merge_from existing incoming with (_, false) => inl (mkWork (in_states w) wl n) | (current, true) => visit current end
        | None => visit incoming
        end
  end.
Definition work_start (n : nat) : Work := mkWork (replicate n None) [(0%nat, entry)] 0.
Fixpoint decode_all (l : list Z) : result (list DecodedInsn) :=
  match l with
  | [] => inl []
  | raw :: l' =>
      let d := decode_instruction raw in
      try! u := verifier_check_register_bounds d in
      try! v := verifier_check_opcode_support d in
      try! rest := decode_all l' in inl (d :: rest)
  end.
(** The states the verifier ends with, or why it rejects; the last turn of the loop sees the limit exceeded. *)
Definition verify_states (p : list Z) : verdict :=
  if (length p =? 0)%nat || (BPF_MAXINSNS <? Z.of_nat (length p)) then inr VerifierRejected
  else
    try! decoded := decode_all p in
    try! succ := verifier_build_cfg_successors decoded in
    let reachable := verifier_reachable_mask succ in
    if negb (forallb id reachable) then inr VerifierRejected
    else
      let exits := filter (fun pc => (reachable !!! pc : bool) = true /\ class (decoded !!! pc) = BPF_JMP /\ op (decoded !!! pc) = BPF_EXIT) (seq 0 (length decoded)) in
      if (length exits =? 0)%nat then inr VerifierRejected
      else
        let can_reach_exit := verifier_can_reach_exit_mask succ reachable exits in
        if existsb (fun pc => (reachable !!! pc : bool) && negb (can_reach_exit !!! pc)) (seq 0 (length reachable)) then inr VerifierRejected
        else match turns 1000001 (work_turn decoded succ) (work_start (length decoded)) with
          | inl _ => inr InfiniteLoop
          | inr (inr e) => inr e
          | inr (inl states) => if existsb (fun pc => (reachable !!! pc : bool) && negb (bool_decide (is_Some (states !!! pc)))) (seq 0 (length reachable)) then inr VerifierRejected else inl states
          end.
Definition verify_program (p : list Z) (prog_type : Z) : result unit := try! states := verify_states p in inl tt.

(** ** Running programs *)
Section Execute.
Context {M : Type} `{BpfMaps M} (env : Env).
(** The machine code compiled from a program and run: [None] where it does not come back (it
    divides by zero without a test, [src/src/ebpf_jit.rs]). *)
Context (jit_compile_and_run : list DecodedInsn -> Z -> option (result Z)).
Definition start_vm (ctx : Z) (vm : EbpfVm) : EbpfVm := mkVm (<[1%nat := ctx]> (<[10%nat := BPF_STACK_SIZE]> (replicate 11 0))) (stack vm) (program vm) (prog_type vm) true (insn_count vm) (jit_program vm).
(** The fuel covers every program the verifier accepts ([verified_terminates]). *)
Definition execute (ctx : Z) (vm : EbpfVm) (m : M) : option (EbpfVm * M * result Z) :=
  match (if verified vm then inl tt else verify_program (program vm) (prog_type vm)) with
  | inr e => Some (vm, m, inr e)
  | inl _ =>
      let vm := start_vm ctx vm in
      match jit_program vm with
      | Some p => r ← jit_compile_and_run p ctx; Some (vm, m, r)
      | None => default None (run env (S (length (program vm))) vm m 0)
      end
  end.
Fixpoint translate_program_to_linux_abi (p : list Z) : result (list DecodedInsn) :=
  match p with
  | [] => inl []
  | insn :: p' => let d := decode_instruction insn in if (10 <? dst d)%nat || (10 <? src d)%nat then inr InvalidRegister else try! rest := translate_program_to_linux_abi p' in inl (d :: rest)
  end.
Definition jit_compile (vm : EbpfVm) : result EbpfVm :=
  try! t := translate_program_to_linux_abi (program vm) in inl (mkVm (registers vm) (stack vm) (program vm) (prog_type vm) (verified vm) (insn_count vm) (Some t)).
End Execute.
(** [encode_insn] of the tests. *)
Definition encode_insn (opcode dst src off imm : Z) : Z :=
  Z.lor (Z.lor (Z.lor (Z.lor (Z.shiftl opcode 56) (Z.shiftl dst 48)) (Z.shiftl src 40)) (Z.shiftl (off mod u16_mod) 32)) (imm mod u32_mod).
Definition create_simple_program : list Z :=
  [Z.lor (Z.lor (Z.shiftl (Z.lor (Z.lor BPF_ALU BPF_MOV) 0) 56) (Z.shiftl 0 48)) 1; Z.lor 0x95 (Z.shiftl (Z.lor BPF_JMP BPF_EXIT) 56)].

(** ** Decoding *)
Lemma land_ones_mod x k : 0 <= k -> Z.land x (2 ^ k - 1) = x mod 2 ^ k.
Proof. intros Hk. replace (2 ^ k - 1) with (Z.ones k) by (rewrite Z.ones_equiv; lia). by apply Z.land_ones. Qed.
(** The high byte of the offset is the source register: with a register that exists an offset is not negative. *)
Lemma off_nonneg insn : (src (decode_instruction insn) <= 10)%nat -> 0 <= off (decode_instruction insn).
Proof.
  unfold decode_instruction. cbn [src off]. change 0xff with (2 ^ 8 - 1). change 0xffff with (2 ^ 16 - 1). rewrite !land_ones_mod, !Z.shiftr_div_pow2 by lia. intros Hs. unfold as_i16, u16_mod. rewrite Z.mod_mod by lia.
  replace (insn / 2 ^ 40) with (insn / 2 ^ 32 / 2 ^ 8) in Hs by (rewrite Z.div_div by lia; done). set (x := insn / 2 ^ 32) in *.
  assert (x mod 2 ^ 16 / 2 ^ 8 = x / 2 ^ 8 mod 2 ^ 8) as E by (change (2 ^ 16) with (2 ^ 8 * 2 ^ 8); rewrite Z.rem_mul_r by lia; Z.to_euclidean_division_equations; lia).
  pose proof (Z.mod_pos_bound x (2 ^ 16) ltac:(lia)). destruct (Z.ltb_spec (x mod 2 ^ 16) (2 ^ 15)); [lia|]. exfalso. assert (2 ^ 7 <= x mod 2 ^ 16 / 2 ^ 8) by (apply Z.div_le_lower_bound; lia). lia.
Qed.
Lemma as_i32_range x : - 2 ^ 31 <= as_i32 x < 2 ^ 31.
Proof. unfold as_i32, u32_mod. pose proof (Z.mod_pos_bound x (2 ^ 32) ltac:(lia)). destruct (Z.ltb_spec (x mod 2 ^ 32) (2 ^ 31)); lia. Qed.
(** What the first pass of the verifier guarantees of an instruction. *)
Definition insn_ok (d : DecodedInsn) : Prop := (dst d <= 10)%nat /\ (src d <= 10)%nat /\ 0 <= off d /\ verifier_check_opcode_support d = inl tt /\ - 2 ^ 31 <= imm d < 2 ^ 31.
Lemma decode_all_spec p decoded : decode_all p = inl decoded -> decoded = decode_instruction <$> p /\ Forall insn_ok decoded.
Proof.
  revert decoded. induction p as [|raw p IH]; intros decoded; cbn [decode_all]; [intros [= <-]; by split|]. unfold verifier_check_register_bounds. set (d := decode_instruction raw).
  destruct ((10 <? dst d)%nat || (10 <? src d)%nat) eqn:Eb; [done|]. destruct (verifier_check_opcode_support d) as [[]|] eqn:Es; [|done]. destruct (decode_all p) as [rest|]; [|done]. intros [= <-]. destruct (IH rest eq_refl) as [-> Hf].
  apply orb_false_elim in Eb as [B1 B2]. apply Nat.ltb_ge in B1, B2. split; [done|]. constructor; [|done]. split; [done|]. split; [done|]. split; [by apply off_nonneg|]. split; [done|]. apply as_i32_range.
Qed.
Lemma successors_spec n pc l succ : successors_from n pc l = inl succ -> length succ = length l /\ forall i d, l !! i = Some d -> exists e, succ !! i = Some e /\ insn_successors n (pc + i) d = inl e.
Proof.
  revert pc succ. induction l as [|d l IH]; intros pc succ; cbn [successors_from]; [intros [= <-]; split; [done|]; by intros []|]. destruct (insn_successors n pc d) as [e|] eqn:E; [|done]. destruct (successors_from n (S pc) l) as [rest|] eqn:Er; [|done]. intros [= <-]. destruct (IH _ _ Er) as [Hl Hs]. split; [cbn; lia|].
  intros [|i] d' Hd; cbn in *; [injection Hd as <-; exists e; by rewrite Nat.add_0_r|]. replace (pc + S i)%nat with (S pc + i)%nat by lia. by apply Hs.
Qed.
(** *** Bounded loops *)
Lemma turns_ind {S R} (I : S -> Prop) (Q : R -> Prop) (f : S -> S + R) : (forall s, I s -> match f s with inl s' => I s' | inr r => Q r end) -> forall p s, I s -> match turns p f s with inl s' => I s' | inr r => Q r end.
Proof.
  intros Hf p. induction p as [q IH|q IH|]; intros s Hs; cbn [turns]; [| |by apply Hf].
  - specialize (Hf s Hs). destruct (f s) as [s0|r]; [|done]. pose proof (IH s0 Hf) as H1. destruct (turns q f s0) as [s1|r]; [|done]. by apply IH.
  - pose proof (IH s Hs) as H1. destruct (turns q f s) as [s1|r]; [|done]. by apply IH.
Qed.
Lemma turns_count {S R} (m : S -> Z) (f : S -> S + R) : (forall s s', f s = inl s' -> m s' = m s + 1) -> forall p s s', turns p f s = inl s' -> m s' = m s + Zpos p.
Proof.
  intros Hf p. induction p as [q IH|q IH|]; intros s s'; cbn [turns]; [| |by apply Hf].
  - destruct (f s) as [s0|r] eqn:E0; [|done]. destruct (turns q f s0) as [s1|r] eqn:E1; [|done]. intros E2. apply Hf in E0. apply IH in E1, E2. lia.
  - destruct (turns q f s) as [s1|r] eqn:E1; [|done]. intros E2. apply IH in E1, E2. lia.
Qed.
(** The loop of the verifier ends by itself, within its limit. *)
Lemma work_turn_count decoded succ w w' : work_turn decoded succ w = inl w' -> processed w' = processed w + 1 /\ processed w + 1 <= VERIFIER_COMPLEXITY_LIMIT.
Proof.
  unfold work_turn. destruct (worklist w) as [|[pc inc] wl]; [done|]. destruct (Z.ltb_spec VERIFIER_COMPLEXITY_LIMIT (processed w + 1)) as [Hl|Hl]; [done|]. intros E.
  assert (processed w' = processed w + 1); [|done]. destruct (in_states w !!! pc) as [ex|]; [destruct (merge_from ex inc) as [cur []]; [|by injection E as <-]|];
    (destruct (verifier_transfer_instruction _ _ _); [by injection E as <-|done]).
Qed.
Lemma work_ends decoded succ n : exists r, turns 1000001 (work_turn decoded succ) (work_start n) = inr r.
Proof.
  destruct (turns 1000001 (work_turn decoded succ) (work_start n)) as [w|r] eqn:E; [exfalso|by exists r].
  pose proof (turns_count processed (work_turn decoded succ) (fun s s' Hs => proj1 (work_turn_count _ _ s s' Hs)) _ _ _ E) as Hc. cbn [work_start processed] in Hc.
  pose proof (turns_ind (fun w => processed w <= VERIFIER_COMPLEXITY_LIMIT) (fun _ => True) (work_turn decoded succ)) as Hi. specialize (Hi ltac:(intros s Hs; destruct (work_turn decoded succ s) as [s'|] eqn:Es; [apply work_turn_count in Es; lia|done]) 1000001%positive (work_start n) ltac:(cbn; unfold VERIFIER_COMPLEXITY_LIMIT; lia)).
  rewrite E in Hi. unfold VERIFIER_COMPLEXITY_LIMIT in Hi. lia.
Qed.
(** *** What acceptance means *)
Lemma mark_loop_length fuel next stk mask : length (mark_loop fuel next stk mask) = length mask.
Proof. revert stk mask. induction fuel as [|fuel IH]; intros [|pc stk] mask; cbn [mark_loop]; try done. destruct (mask !!! pc); rewrite IH; [done|apply length_insert]. Qed.
Lemma forallb_lookup (l : list bool) i : forallb id l = true -> (i < length l)%nat -> l !!! i = true.
Proof. intros Hf Hi. rewrite forallb_forall in Hf. destruct (lookup_lt_is_Some_2 l i Hi) as [b E]. rewrite (list_lookup_total_correct _ _ _ E). apply (Hf b), list_elem_of_In. by apply list_elem_of_lookup_2 in E. Qed.
Record accepted (p : list Z) (decoded : list DecodedInsn) (succ : list edges) (states : list (option VerifierState)) : Prop := {
  a_decode : decoded = decode_instruction <$> p;
  a_ok : Forall insn_ok decoded;
  a_len : (0 < length p)%nat /\ Z.of_nat (length p) <= BPF_MAXINSNS;
  a_succ : length succ = length p /\ forall pc d, decoded !! pc = Some d -> exists e, succ !! pc = Some e /\ insn_successors (length p) pc d = inl e;
  a_build : verifier_build_cfg_successors decoded = inl succ;
  a_run : turns 1000001 (work_turn decoded succ) (work_start (length p)) = inr (inl states);
  a_states : forall pc, (pc < length p)%nat -> is_Some (states !!! pc) }.
Lemma verify_accepts p states : verify_states p = inl states -> exists decoded succ, accepted p decoded succ states.
Proof.
  unfold verify_states. destruct (_ || _) eqn:El; [done|]. destruct (decode_all p) as [decoded|] eqn:Ed; [|done]. destruct (verifier_build_cfg_successors decoded) as [succ|] eqn:Es; [|done].
  destruct (forallb id (verifier_reachable_mask succ)) eqn:Er; cbn [negb]; [|done]. set (exits := filter _ _). destruct (length exits =? 0)%nat; [done|]. destruct (existsb _ _); [done|]. apply decode_all_spec in Ed as [Ed Hok]. assert (length decoded = length p) as Hn by (subst decoded; apply length_fmap).
  rewrite Hn. destruct (turns _ _ _) as [w|[st|e]] eqn:Et; [done| |done]. destruct (existsb _ _) eqn:Ex; [done|]. intros [= ->]. exists decoded, succ. unfold verifier_build_cfg_successors in Es. rewrite Hn in Es. destruct (successors_spec _ _ _ _ Es) as [Hl Hs].
  apply orb_false_elim in El as [L1 L2]. apply Nat.eqb_neq in L1. apply Z.ltb_ge in L2. split; [done|done|lia|split; [lia|exact Hs]|unfold verifier_build_cfg_successors; by rewrite Hn|done|].
  intros pc Hpc. destruct (decide (is_Some (states !!! pc))) as [Hy|Hy]; [done|]. exfalso. assert (length (verifier_reachable_mask succ) = length p) as Hm by (unfold verifier_reachable_mask; rewrite mark_loop_length, length_replicate; lia).
  assert (true = false); [|done]. rewrite <-Ex. symmetry. apply existsb_exists. exists pc. split; [apply in_seq; lia|]. rewrite (forallb_lookup _ pc Er) by lia. by rewrite bool_decide_false.
Qed.
Lemma verify_program_ok p ty : verify_program p ty = inl tt -> exists states decoded succ, accepted p decoded succ states.
Proof. unfold verify_program. destruct (verify_states p) as [st|] eqn:E; [|done]. intros _. destruct (verify_accepts _ _ E) as (d & s & Ha). by exists st, d, s. Qed.

(** ** Every accepted program runs to its end *)
Lemma set_reg_some r v vm : length (registers vm) = 11%nat -> (r <= 10)%nat -> exists vm', set_reg r v vm = Some vm' /\ length (registers vm') = 11%nat /\ program vm' = program vm /\ insn_count vm' = insn_count vm.
Proof. intros Hl Hr. unfold set_reg. rewrite Hl. rewrite (proj2 (Nat.ltb_lt r 11)) by lia. eexists. split; [done|]. cbn [set_registers registers program insn_count]. by rewrite length_insert. Qed.
Lemma reg_some r vm : length (registers vm) = 11%nat -> (r <= 10)%nat -> exists v, reg r vm = Some v.
Proof. intros Hl Hr. apply lookup_lt_is_Some_2. lia. Qed.
(** A machine of the same program with all its registers. *)
Definition kept (vm vm' : EbpfVm) : Prop := length (registers vm') = 11%nat /\ program vm' = program vm /\ insn_count vm' = insn_count vm.
(** How an instruction may fail: never by its opcode. *)
Definition run_error (e : EbpfError) : Prop := e = MemoryAccess \/ e = CallError.
Definition fine (vm : EbpfVm) (r : option (result EbpfVm)) : Prop := match r with Some (inl vm') => kept vm vm' | Some (inr e) => run_error e | None => False end.
Section Fine.
Context (vm : EbpfVm) (Hl : length (registers vm) = 11%nat) (d : DecodedInsn) (Hok : insn_ok d).
Lemma operand_some : exists v, operand d vm = Some v.
Proof. destruct Hok as (_ & Hs & _). unfold operand. destruct (uses_src_reg d); [by apply reg_some|by eexists]. Qed.
Lemma set_fine v : fine vm (vm' ← set_reg (dst d) v vm; Some (inl vm')).
Proof. destruct Hok as (Hd & _). destruct (set_reg_some (dst d) v vm Hl Hd) as (vm' & -> & H1 & H2 & H3). by split. Qed.
Lemma alu_fine : class d = BPF_ALU -> fine vm (exec_alu d vm).
Proof.
  intros Hc. destruct Hok as (Hd & _ & _ & Hsup & _). destruct operand_some as [v Ev]. destruct (reg_some (dst d) vm Hl Hd) as [x Ex]. unfold exec_alu. rewrite Ev, Ex. cbn [mbind option_bind].
  assert (forall z w, fine vm (if (z =? 0) then Some (inr CallError) else (vm' ← set_reg (dst d) w vm; Some (inl vm')))) as Hdiv by (intros z w; destruct (z =? 0); [by right|apply set_fine]).
  repeat match goal with |- fine _ (if ?b then _ else _) => destruct b eqn:?; [first [apply set_fine|apply Hdiv]|] end. exfalso. unfold verifier_check_opcode_support in Hsup. rewrite Hc in Hsup. change (BPF_ALU =? BPF_ALU) with true in Hsup. cbn iota in Hsup.
  destruct (existsb _ _) eqn:E; [|done]. apply existsb_exists in E as (o & Hin & Ho). apply Z.eqb_eq in Ho. rewrite <-Ho in *. cbn [In] in Hin. repeat match goal with H : (op d =? _) = false |- _ => apply Z.eqb_neq in H end. intuition congruence.
Qed.
Lemma ldx_fine : fine vm (exec_ldx d vm).
Proof.
  destruct Hok as (Hd & Hs & _). destruct (reg_some (src d) vm Hl Hs) as [a Ea]. unfold exec_ldx. rewrite Ea. cbn [mbind option_bind]. unfold memory_read. destruct (_ && _); [|by left]. destruct (access_size_bytes _); [|by left]. destruct (_ <? _); [by left|apply set_fine].
Qed.
Lemma stx_fine : fine vm (exec_stx d vm).
Proof.
  destruct Hok as (Hd & Hs & _). destruct (reg_some (src d) vm Hl Hs) as [a Ea]. destruct (reg_some (dst d) vm Hl Hd) as [b Eb]. unfold exec_stx. rewrite Ea, Eb. cbn [mbind option_bind]. unfold memory_write. destruct (_ && _); [|by left]. destruct (access_size_bytes _); [|by left]. destruct (_ <? _); [by left|by split].
Qed.
Lemma jump_taken_some : exists b, jump_taken d vm = Some b.
Proof.
  destruct Hok as (Hd & _). destruct operand_some as [v Ev]. destruct (reg_some (dst d) vm Hl Hd) as [x Ex]. unfold jump_taken. rewrite Ev, Ex. cbn [mbind option_bind]. repeat (case_match; [by eexists|]). by eexists.
Qed.
End Fine.
Section Runs.
Context {M : Type} `{BpfMaps M} (env : Env).
Lemma call_fine f vm (m : M) : length (registers vm) = 11%nat -> match builtin_call env f vm m with inl (vm', _, _) => kept vm vm' | inr e => run_error e end.
Proof.
  intros Hl. assert (kept vm vm) as Hk by done. assert (forall a n, match read_stack_bytes a n vm with inl _ => True | inr e => run_error e end) as Hr by (intros a n; unfold read_stack_bytes; destruct (_ && _); [destruct (_ <? _); [by left|done]|done]).
  unfold builtin_call. destruct (f =? 1); [|destruct (f =? 2); [|destruct (f =? 3)]].
  - pose proof (Hr (registers vm !!! 2%nat) 4%nat) as R. destruct (read_stack_bytes _ _ _); [|done]. by destruct (map_lookup_elem _ _ _).
  - pose proof (Hr (registers vm !!! 2%nat) 4%nat) as R. destruct (read_stack_bytes (registers vm !!! 2%nat) _ _); [|done]. pose proof (Hr (registers vm !!! 3%nat) 4%nat) as R'. destruct (read_stack_bytes _ _ _); [|done]. by destruct (map_update_elem _ _ _ _ _).
  - pose proof (Hr (registers vm !!! 2%nat) 4%nat) as R. destruct (read_stack_bytes _ _ _); [|done]. by destruct (map_delete_elem _ _ _).
  - repeat match goal with |- context [f =? ?k] => destruct (f =? k); [done|] end. by right.
Qed.
(** One turn of an accepted program: it stays inside and goes forward, or the call ends. *)
Definition good_turn (p : list Z) (vm : EbpfVm) (pc : nat) (t : turn (M := M)) : Prop :=
  match t with
  | Go vm' _ pc' => (pc < pc' < length p)%nat /\ kept (count_insn vm) vm'
  | Stop vm' _ r => program vm' = p /\ insn_count vm' = insn_count (count_insn vm) /\ match r with inl _ => True | inr e => run_error e \/ (e = InfiniteLoop /\ 1000000 < insn_count vm') end
  end.
Lemma next_good p vm vm' (m : M) pc : program vm = p -> kept (count_insn vm) vm' -> (pc + 1 < length p)%nat -> good_turn p vm pc (next_insn vm' m pc).
Proof. intros Hp (K1 & K2 & K3) Hn. unfold next_insn. destruct (Z.ltb_spec 1000000 (insn_count vm')) as [Hc|Hc]; [|split; [lia|done]]. split; [by rewrite K2|]. split; [done|]. by right. Qed.
Lemma goto_good p d vm (m : M) pc t : program vm = p -> length (registers vm) = 11%nat -> 0 <= off d -> checked_jump_target pc (off d) (length p) = Some t -> good_turn p vm pc (goto d (count_insn vm) m pc).
Proof.
  intros Hp Hl Ho Ht. unfold goto. change (program (count_insn vm)) with (program vm). rewrite Hp, Ht. unfold checked_jump_target in Ht. destruct (_ || _) eqn:E; [done|]. injection Ht as <-. split; [lia|done].
Qed.
Lemma fallthrough n pc d e : class d <> BPF_JMP \/ (op d <> BPF_EXIT /\ op d <> BPF_JA) -> insn_successors n pc d = inl e -> e.1 = Some (pc + 1)%nat /\ (pc + 1 < n)%nat.
Proof.
  intros Hc. unfold insn_successors. destruct (Nat.ltb_spec (pc + 1) n) as [Hn|Hn]; (destruct (Z.eqb_spec (class d) BPF_JMP) as [Ej|Ej]; [destruct Hc as [Hc|[H1 H2]]; [done|]; rewrite (proj2 (Z.eqb_neq _ _) H1), (proj2 (Z.eqb_neq _ _) H2)|]); repeat case_match; intros [= <-]; try done.
Qed.
Lemma jump_edges n pc d e : class d = BPF_JMP -> op d <> BPF_EXIT -> op d <> BPF_CALL -> insn_successors n pc d = inl e -> exists t, checked_jump_target pc (off d) n = Some t /\ t ∈ flatten e.
Proof.
  intros Hc He Hcall. unfold insn_successors. rewrite Hc. change (BPF_JMP =? BPF_JMP) with true. cbn iota. rewrite (proj2 (Z.eqb_neq _ _) He), (proj2 (Z.eqb_neq _ _) Hcall). destruct (checked_jump_target pc (off d) n) as [t|]; [|by destruct (op d =? BPF_JA)]. intros E. exists t. split; [done|].
  destruct (op d =? BPF_JA); [injection E as <-; by left|]. destruct (pc + 1 <? n)%nat; [|done]. injection E as <-. right. by left.
Qed.
Lemma jump_good p d e vm (m : M) pc : program vm = p -> length (registers vm) = 11%nat -> insn_ok d -> class d = BPF_JMP -> insn_successors (length p) pc d = inl e -> exists t, exec_jump env d (count_insn vm) m pc = Some t /\ good_turn p vm pc t.
Proof.
  intros Hp Hl Hok Hc He. set (vm1 := count_insn vm). assert (kept vm1 vm1) as Hk by done. pose proof Hok as (Hd & Hs & Ho & Hsup & _). unfold exec_jump. destruct (Z.eqb_spec (op d) BPF_JA) as [Eja|Eja].
  { assert (op d <> BPF_EXIT /\ op d <> BPF_CALL) as [N1 N2] by (by rewrite Eja). destruct (jump_edges _ _ _ _ Hc N1 N2 He) as (t & Ht & _). eexists. split; [done|]. by apply (goto_good p d vm m pc t). }
  destruct (existsb _ _) eqn:Ex.
  { apply existsb_exists in Ex as (o & Hin & Eo). apply Z.eqb_eq in Eo. subst o. assert (op d <> BPF_EXIT /\ op d <> BPF_CALL) as [N1 N2] by (split; intros E; rewrite E in Hin; cbn in Hin; intuition discriminate).
    destruct (jump_edges _ _ _ _ Hc N1 N2 He) as (t & Ht & _). destruct (fallthrough _ _ _ _ (or_intror (conj N1 Eja)) He) as [_ Hn]. destruct (jump_taken_some vm1 Hl d Hok) as [[] ->]; cbn [mbind option_bind]; (eexists; split; [done|]); [by apply (goto_good p d vm m pc t)|by apply next_good]. }
  destruct (Z.eqb_spec (op d) BPF_CALL) as [Ec|Ec].
  { assert (op d <> BPF_EXIT) as N1 by (by rewrite Ec). destruct (fallthrough _ _ _ _ (or_intror (conj N1 Eja)) He) as [_ Hn]. pose proof (call_fine (imm d) vm1 m Hl) as Hf. destruct (builtin_call env (imm d) vm1 m) as [[[vm2 m2] v]|e']; [|eexists; split; [done|]; split; [done|]; split; [done|by left]].
    destruct Hf as (K1 & K2 & K3). destruct (set_reg_some 0 v vm2 K1 ltac:(lia)) as (vm3 & -> & S1 & S2 & S3). eexists. split; [done|]. apply next_good; [done| |done]. split; [done|]. split; [by rewrite S2, K2|by rewrite S3, K3]. }
  destruct (Z.eqb_spec (op d) BPF_EXIT) as [Ee|Ee]; [|exfalso].
  { destruct (reg_some 0 vm1 Hl ltac:(lia)) as [v ->]. eexists. split; [done|]. done. }
  unfold verifier_check_opcode_support in Hsup. rewrite Hc in Hsup. change (BPF_JMP =? BPF_ALU) with false in Hsup. change (BPF_JMP =? BPF_JMP) with true in Hsup. change ((BPF_JMP =? BPF_LDX) || (BPF_JMP =? BPF_STX)) with false in Hsup. cbn iota in Hsup.
  destruct (existsb _ _) eqn:Ey in Hsup; [|done]. apply existsb_exists in Ey as (o & Hin & Eo). apply Z.eqb_eq in Eo. subst o. assert (forall o, op d = o -> existsb (Z.eqb o) [BPF_JEQ; BPF_JGT; BPF_JGE; BPF_JNE; BPF_JSET; BPF_JSGT; BPF_JSGE] = false) as Hno by (by intros ? <-).
  cbn [In] in Hin. repeat (destruct Hin as [Hin|Hin]; [first [by apply Eja|by apply Ec|by apply Ee|by specialize (Hno _ (eq_sym Hin))]|]). done.
Qed.
Lemma interpret_good p decoded succ states vm (m : M) pc : accepted p decoded succ states -> program vm = p -> length (registers vm) = 11%nat -> (pc < length p)%nat -> exists t, interpret env vm m pc = Some t /\ good_turn p vm pc t.
Proof.
  intros Ha Hp Hl Hpc. destruct (lookup_lt_is_Some_2 p pc Hpc) as [insn Ei]. unfold interpret. rewrite Hp, Ei. set (d := decode_instruction insn). assert (decoded !! pc = Some d) as Ed by (rewrite (a_decode _ _ _ _ Ha), list_lookup_fmap, Ei; done).
  assert (insn_ok d) as Hok by (apply (Forall_lookup_1 _ _ _ _ (a_ok _ _ _ _ Ha) Ed)). destruct (a_succ _ _ _ _ Ha) as [_ Hs]. destruct (Hs pc d Ed) as (e & _ & He). set (vm1 := count_insn vm). assert (length (registers vm1) = 11%nat) as Hl1 by done.
  assert (class d <> BPF_JMP -> forall r, fine vm1 r -> exists t, (r ← r; Some (match r with inl vm' => next_insn vm' m pc | inr e => Stop vm1 m (inr e) end)) = Some t /\ good_turn p vm pc t) as Hafter.
  { intros Hj r Hf. destruct (fallthrough _ _ _ _ (or_introl Hj) He) as [_ Hn]. destruct r as [[vm'|er]|]; [| |done]; (eexists; split; [done|]); [by apply next_good|]. split; [done|]. split; [done|by left]. }
  pose proof Hok as (_ & _ & _ & Hsup & _). destruct (Z.eqb_spec (class d) BPF_LD) as [Ec|_]; [unfold verifier_check_opcode_support in Hsup; by rewrite Ec in Hsup|]. destruct (Z.eqb_spec (class d) BPF_ALU) as [Ec|N0]; [apply Hafter; [by rewrite Ec|by apply alu_fine]|].
  destruct (Z.eqb_spec (class d) BPF_LDX) as [Ec|N1]; [apply Hafter; [by rewrite Ec|by apply ldx_fine]|]. destruct (Z.eqb_spec (class d) BPF_STX) as [Ec|N2]; [apply Hafter; [by rewrite Ec|by apply stx_fine]|].
  destruct (Z.eqb_spec (class d) BPF_JMP) as [Ec|N3]; [by apply (jump_good p d e)|]. exfalso. unfold verifier_check_opcode_support in Hsup. fold d in Hsup. rewrite (proj2 (Z.eqb_neq _ _) N0), (proj2 (Z.eqb_neq _ _) N1), (proj2 (Z.eqb_neq _ _) N2), (proj2 (Z.eqb_neq _ _) N3) in Hsup. done.
Qed.
End Runs.
Section Terminates.
Context {M : Type} `{BpfMaps M} (env : Env).
Lemma run_good p decoded succ states fuel vm (m : M) pc : accepted p decoded succ states -> program vm = p -> length (registers vm) = 11%nat -> (pc < length p)%nat -> (length p - pc <= fuel)%nat -> 0 <= insn_count vm -> insn_count vm + Z.of_nat fuel < u64_mod ->
  exists vm' m' r, run env fuel vm m pc = Some (Some (vm', m', r)) /\ program vm' = p /\ insn_count vm < insn_count vm' <= insn_count vm + Z.of_nat (length p - pc) /\ match r with inl _ => True | inr e => run_error e \/ (e = InfiniteLoop /\ 1000000 < insn_count vm') end.
Proof.
  intros Ha. revert vm m pc. induction fuel as [|fuel IH]; intros vm m pc Hp Hl Hpc Hf Hc1 Hc2; [lia|]. cbn [run]. destruct (interpret_good env p decoded succ states vm m pc Ha Hp Hl Hpc) as (t & -> & Hg).
  assert (insn_count (count_insn vm) = insn_count vm + 1) as Ec by (cbn; apply u64_add_small; lia). destruct t as [vm' m' pc'|vm' m' r].
  - destruct Hg as [Hpc' (K1 & K2 & K3)]. rewrite Ec in K3. destruct (IH vm' m' pc') as (vm2 & m2 & r & E & P2 & C2 & R2); [by rewrite K2|done|lia|lia|lia|lia|]. exists vm2, m2, r. split; [done|]. split; [done|]. split; [lia|done].
  - destruct Hg as (P1 & C1 & R1). exists vm', m', r. split; [done|]. split; [done|]. split; [lia|done].
Qed.
End Terminates.

Lemma verified_runs {M : Type} `{BpfMaps M} env jit p ty ctx vm (m : M) : verify_program p ty = inl tt -> program vm = p -> prog_type vm = ty -> jit_program vm = None -> 0 <= insn_count vm < 2 ^ 63 ->
  exists vm' m' r, execute env jit ctx vm m = Some (vm', m', r) /\ program vm' = p /\ insn_count vm < insn_count vm' <= insn_count vm + Z.of_nat (length p) /\
    match r with inl _ => True | inr e => e = MemoryAccess \/ e = CallError \/ (e = InfiniteLoop /\ 1000000 < insn_count vm') end.
Proof.
  intros Hv Hp Hty Hj Hc. destruct (verify_program_ok p ty Hv) as (states & decoded & succ & Ha). destruct (a_len _ _ _ _ Ha) as [L1 L2]. unfold execute. rewrite Hp, Hty, Hv. replace (if verified vm then inl tt else inl tt) with (@inl unit EbpfError tt) by (by destruct (verified vm)). change (jit_program (start_vm ctx vm)) with (jit_program vm). rewrite Hj. change (program (start_vm ctx vm)) with (program vm). rewrite Hp.
  destruct (run_good env p decoded succ states (S (length p)) (start_vm ctx vm) m 0 Ha) as (vm' & m' & r & -> & P & C & R); [done|done|lia|lia|cbn; lia|cbn [start_vm insn_count]; unfold u64_mod, BPF_MAXINSNS in *; lia|]. cbn [start_vm insn_count] in C. cbn [default from_option]. unfold id. exists vm', m', r. split; [done|]. split; [done|]. split; [lia|]. destruct r as [|e]; [done|]. destruct R as [[R|R]|R]; auto.
Qed.
(** C7: accepted programs end.  Running a program that the verifier accepts in the interpreter (not
    compiled, with fewer than 2^63 instructions counted in earlier runs) ends within
    as many turns as it has instructions, without a panic; it returns a value, or
    fails with a memory access, a division by zero or a helper, or with the
    instruction limit when the count of earlier runs has come close to a million;
    it never meets an invalid opcode or register or a jump out of the program. *)
Theorem verified_terminates {M : Type} `{BpfMaps M} env jit p ty ctx vm (m : M) : verify_program p ty = inl tt -> program vm = p -> prog_type vm = ty -> jit_program vm = None -> 0 <= insn_count vm < 2 ^ 63 ->
  exists vm' m' r, execute env jit ctx vm m = Some (vm', m', r) /\ program vm' = p /\ insn_count vm < insn_count vm' <= insn_count vm + Z.of_nat (length p) /\
    match r with inl _ => True | inr e => e = MemoryAccess \/ e = CallError \/ (e = InfiniteLoop /\ 1000000 < insn_count vm') end.
Proof. apply verified_runs. Qed.

(** ** The states computed are a post-fixpoint *)
Definition vs_wf (s : VerifierState) : Prop := length (regs s) = 11%nat /\ length (stack_init s) = 512%nat /\ length (stack_spill s) = 64%nat /\ regs s !!! 10%nat = VERIFIER_REG_STACK_FP.
(** The state [t] of an instruction accounts for the state [s] that flows into it. *)
Definition reg_covered (t s : VerifierRegState) : Prop := t = s \/ verifier_merge_reg_state t s = t.
Definition covered (t s : VerifierState) : Prop :=
  (forall i, (i < 11)%nat -> reg_covered (regs t !!! i) (regs s !!! i)) /\ (forall i, (i < 512)%nat -> stack_init t !!! i = true -> stack_init s !!! i = true) /\
  (forall k v, (k < 64)%nat -> stack_spill t !!! k = Some v -> stack_spill s !!! k = Some v).
Lemma covered_refl s : covered s s.
Proof. split; [by left|done]. Qed.
Ltac merge_cases := repeat (unfold verifier_merge_reg_state, VERIFIER_REG_UNINIT, VERIFIER_REG_SCALAR, VERIFIER_REG_CTX, VERIFIER_REG_STACK_FP, verifier_reg_map_fd, verifier_reg_map_value_ptr in *; cbn in *; try done; try congruence;
  match goal with |- context [?a =? ?b] => destruct (Z.eqb_spec a b); subst | H : context [?a =? ?b] |- _ => destruct (Z.eqb_spec a b); subst end).
Lemma reg_covered_merge t s u : reg_covered t s -> reg_covered (verifier_merge_reg_state t u) s.
Proof.
  intros Hc. right. destruct t as [kt ot], s as [ks os], u as [ku ou]. destruct Hc as [[= -> ->]|Hc]; [destruct ks, ku; merge_cases|destruct kt, ks, ku; merge_cases].
Qed.
Lemma reg_covered_incoming t u : reg_covered (verifier_merge_reg_state t u) u.
Proof. right. destruct t as [kt ot], u as [ku ou]. destruct kt, ku; merge_cases. Qed.
Lemma zip_with_total {A B C} `{Inhabited A, Inhabited B, Inhabited C} (f : A -> B -> C) l k i : (i < length l)%nat -> (i < length k)%nat -> zip_with f l k !!! i = f (l !!! i) (k !!! i).
Proof.
  intros H3 H4. destruct (lookup_lt_is_Some_2 l i H3) as [x Ex]. destruct (lookup_lt_is_Some_2 k i H4) as [y Ey]. rewrite (list_lookup_total_correct l i x Ex), (list_lookup_total_correct k i y Ey). apply list_lookup_total_correct. rewrite lookup_zip_with, Ex, Ey. done.
Qed.
Lemma imap_total {A B} `{Inhabited A, Inhabited B} (f : nat -> A -> B) l i : (i < length l)%nat -> imap f l !!! i = f i (l !!! i).
Proof. intros H3. destruct (lookup_lt_is_Some_2 l i H3) as [x Ex]. rewrite (list_lookup_total_correct l i x Ex). apply list_lookup_total_correct. by rewrite list_lookup_imap, Ex. Qed.
Lemma merge_spill_some a b v : merge_spill a b = Some v -> a = Some v /\ b = Some v.
Proof. unfold merge_spill. destruct a as [x|], b as [y|]; try done. destruct (decide (x = y)) as [->|]; [|done]. by intros [= ->]. Qed.
(** What a merge gives, component by component. *)
Lemma merge_from_spec t u : vs_wf t -> vs_wf u -> let m := (merge_from t u).1 in
  vs_wf m /\ (forall i, (i < 11)%nat -> regs m !!! i = verifier_merge_reg_state (regs t !!! i) (regs u !!! i)) /\ (forall i, (i < 512)%nat -> stack_init m !!! i = stack_init t !!! i && stack_init u !!! i) /\
  (forall k v, (k < 64)%nat -> stack_spill m !!! k = Some v -> stack_spill t !!! k = Some v /\ stack_spill u !!! k = Some v).
Proof.
  intros (T1 & T2 & T3 & T4) (U1 & U2 & U3 & U4). unfold merge_from. set (r := zip_with verifier_merge_reg_state (regs t) (regs u)). set (i0 := zip_with andb (stack_init t) (stack_init u)). set (p := zip_with merge_spill (stack_spill t) (stack_spill u)).
  assert (length r = 11%nat) as Lr by (unfold r; rewrite length_zip_with; lia). assert (length i0 = 512%nat) as Li by (unfold i0; rewrite length_zip_with; lia). assert (length p = 64%nat) as Lp by (unfold p; rewrite length_zip_with; lia).
  assert (forall k v, (k < 64)%nat -> p !!! k = Some v -> stack_spill t !!! k = Some v /\ stack_spill u !!! k = Some v) as Hsp by (intros k v Hk; unfold p; rewrite zip_with_total by lia; apply merge_spill_some).
  assert (forall i, (i < 11)%nat -> <[10%nat := VERIFIER_REG_STACK_FP]> r !!! i = verifier_merge_reg_state (regs t !!! i) (regs u !!! i)) as Hr.
  { intros i Hi. destruct (decide (i = 10%nat)) as [->|Hne]; [rewrite list_lookup_total_insert_eq by lia; by rewrite T4, U4|]. rewrite list_lookup_total_insert_ne by done. unfold r. by rewrite zip_with_total by lia. }
  assert (forall i, (i < 512)%nat -> i0 !!! i = stack_init t !!! i && stack_init u !!! i) as Hin by (intros i Hi; unfold i0; by rewrite zip_with_total by lia).
  set (changed := _ || _). cbn zeta. cbn [fst]. set (s := mkVS _ i0 p). assert (regs s !!! 10%nat = VERIFIER_REG_STACK_FP) as Hfp by (cbn; rewrite list_lookup_total_insert_eq by lia; done).
  destruct changed; (split; [|split; [exact Hr|split; [exact Hin|]]]).
  - split; [cbn; by rewrite length_insert|]. split; [done|]. split; [cbn; by rewrite length_imap|exact Hfp].
  - intros k v Hk. cbn [invalidate_spills_for_uninitialized_bytes stack_spill]. rewrite imap_total by (cbn; lia). destruct (stack_bytes_initialized _ _ _); [|done]. by apply Hsp.
  - split; [cbn; by rewrite length_insert|]. done.
  - exact Hsp.
Qed.
Lemma merge_covers t u : vs_wf t -> vs_wf u -> covered (merge_from t u).1 u /\ forall s, covered t s -> covered (merge_from t u).1 s.
Proof.
  intros Ht Hu. destruct (merge_from_spec t u Ht Hu) as (_ & Hr & Hi & Hs). split.
  - split; [intros i Hlt; rewrite Hr by done; apply reg_covered_incoming|]. split; [intros i Hlt; rewrite Hi by done; by intros [_ ?]%andb_prop|]. intros k v Hlt E. by apply (Hs k v Hlt E).
  - intros s (C1 & C2 & C3). split; [intros i Hlt; rewrite Hr by done; by apply reg_covered_merge, C1|]. split; [intros i Hlt; rewrite Hi by done; intros [? _]%andb_prop; by apply C2|]. intros k v Hlt E. apply C3; [done|]. by apply (Hs k v Hlt E).
Qed.
Lemma merge_unchanged t u : vs_wf t -> vs_wf u -> (merge_from t u).2 = false -> covered t u.
Proof.
  intros Ht Hu. pose proof Ht as (T1 & T2 & T3 & T4). pose proof Hu as (U1 & U2 & U3 & U4). unfold merge_from. cbn [snd]. intros [E _]%orb_false_elim. apply negb_false_iff in E. apply andb_prop in E as [E E3]. apply andb_prop in E as [E1 E2]. apply bool_decide_eq_true in E1, E2, E3.
  split; [|split].
  - intros i Hi. right. rewrite <-E1 at 2. by rewrite zip_with_total by lia.
  - intros i Hi Ht'. rewrite <-E2 in Ht'. rewrite zip_with_total in Ht' by lia. by apply andb_prop in Ht' as [_ ?].
  - intros k v Hk Hv. rewrite <-E3 in Hv. rewrite zip_with_total in Hv by lia. by apply merge_spill_some in Hv as [_ ?].
Qed.
Lemma set_vreg_wf i v s : vs_wf s -> i <> 10%nat -> vs_wf (set_vreg i v s).
Proof. intros (S1 & S2 & S3 & S4) Hi. split; [cbn; by rewrite length_insert|]. split; [done|]. split; [done|]. cbn. by rewrite list_lookup_total_insert_ne. Qed.
Lemma mark_stack_write_wf start size s : vs_wf s -> vs_wf (mark_stack_write start size s).
Proof. intros (S1 & S2 & S3 & S4). split; [done|]. split; [cbn; by rewrite length_imap|]. split; [cbn; by rewrite length_imap|done]. Qed.
Lemma apply_alu_wf d s s' : vs_wf s -> verifier_apply_alu d s = inl s' -> vs_wf s'.
Proof.
  intros Hw. unfold verifier_apply_alu. destruct (Nat.eqb_spec (dst d) 10) as [|Hd]; [done|]. assert (forall v, vs_wf (set_vreg (dst d) v s)) as Hs by (intros v; by apply set_vreg_wf). intros E. repeat case_match; simplify_eq; apply Hs.
Qed.
Lemma apply_ldx_wf d s s' : vs_wf s -> verifier_apply_ldx d s = inl s' -> vs_wf s'.
Proof.
  intros Hw. unfold verifier_apply_ldx. destruct (access_size_bytes _) as [size|]; [|done]. destruct (Nat.eqb_spec (dst d) 10) as [|Hd]; [done|]. cbn [orb]. assert (forall v, vs_wf (set_vreg (dst d) v s)) as Hs by (intros v; by apply set_vreg_wf). intros E. repeat case_match; simplify_eq; apply Hs.
Qed.
Lemma apply_stx_wf d s s' : vs_wf s -> verifier_apply_stx d s = inl s' -> vs_wf s'.
Proof.
  intros Hw. unfold verifier_apply_stx. destruct (access_size_bytes _) as [size|]; [|done]. destruct (_ || _); [done|]. destruct (negb _); [done|]. destruct (verifier_stack_access_start _ _ _) as [start|]; [|done]. pose proof (mark_stack_write_wf start size s Hw) as (S1 & S2 & S3 & S4). intros [= <-]. destruct (_ && _); [|done]. split; [done|]. split; [done|]. split; [cbn; rewrite length_insert; exact S3|done].
Qed.
(** States that flow out are well-formed and go to successors. *)
Lemma transfer_wf d s e outs pc' s' : vs_wf s -> verifier_transfer_instruction d s e = inl outs -> (pc', s') ∈ outs -> vs_wf s' /\ pc' ∈ flatten e.
Proof.
  intros Hw. unfold verifier_transfer_instruction.
  assert (forall r : result VerifierState, (forall x, r = inl x -> vs_wf x) -> match r with inl next => match e.1 with Some next_pc => inl [(next_pc, next)] | None => inr VerifierRejected end | inr err => inr err end = inl outs -> (pc', s') ∈ outs -> vs_wf s' /\ pc' ∈ flatten e) as Hon.
  { intros r Hr. destruct r as [x|]; [|done]. unfold flatten. destruct e as [[t|] e2]; cbn [fst]; [|done]. intros [= <-] [= -> ->]%list_elem_of_singleton. split; [by apply Hr|by left]. }
  destruct (class d =? BPF_ALU); [apply Hon; intros x; by apply apply_alu_wf|]. destruct (class d =? BPF_LDX); [apply Hon; intros x; by apply apply_ldx_wf|]. destruct (class d =? BPF_STX); [apply Hon; intros x; by apply apply_stx_wf|]. destruct (class d =? BPF_JMP); [|done]. clear Hon.
  unfold verifier_transfer_jump. destruct (op d =? BPF_EXIT); [destruct (_ || _); [done|]; intros [= <-] ?%elem_of_nil; done|]. destruct (op d =? BPF_CALL).
  - destruct (negb _); [done|]. destruct (verifier_validate_helper_args _ _); [|done]. destruct e as [[t|] e2]; cbn [fst]; [|done]. intros [= <-] [= -> ->]%list_elem_of_singleton. split; [|by left]. apply set_vreg_wf; [|done]. cbn [seq foldl]. by repeat apply set_vreg_wf.
  - destruct (existsb _ _); [|done]. destruct (_ && _); [done|]. intros [= <-] (t & [= -> ->] & Ht)%list_elem_of_fmap. done.
Qed.
Lemma successors_in_range n pc d e t : (pc < n)%nat -> insn_successors n pc d = inl e -> t ∈ flatten e -> (t < n)%nat.
Proof.
  intros Hpc. unfold insn_successors, flatten, checked_jump_target. destruct (Nat.ltb_spec (pc + 1) n) as [Hn|Hn]; intros E Ht;
    repeat (case_match; simplify_eq; try done); unfold option_list in Ht; cbn [fst snd option_rect app] in Ht; rewrite ?elem_of_cons, ?elem_of_nil in Ht; destruct_or?; subst; try done; lia.
Qed.
(** The invariant of the worklist. *)
Section Worklist.
Context (decoded : list DecodedInsn) (succ : list edges) (n : nat) (Hn : (0 < n)%nat) (Hlen : length succ = n /\ length decoded = n) (Hsucc : forall pc, (pc < n)%nat -> insn_successors n pc (decoded !!! pc) = inl (succ !!! pc)).
Definition accounted (w : Work) (x : nat * VerifierState) : Prop := (exists t, in_states w !!! x.1 = Some t /\ covered t x.2) \/ x ∈ worklist w.
Record work_inv (w : Work) : Prop := {
  w_len : length (in_states w) = n;
  w_wf : (forall pc s, in_states w !!! pc = Some s -> vs_wf s) /\ (forall x, x ∈ worklist w -> vs_wf x.2 /\ (x.1 < n)%nat);
  w_entry : accounted w (0%nat, entry);
  w_flow : forall pc s, (pc < n)%nat -> in_states w !!! pc = Some s -> exists outs, verifier_transfer_instruction (decoded !!! pc) s (succ !!! pc) = inl outs /\ forall x, x ∈ outs -> accounted w x }.
Lemma work_start_inv : work_inv (work_start n).
Proof.
  assert (forall pc, replicate n (@None VerifierState) !!! pc = None) as Hnone. { intros pc. destruct (decide (pc < n)%nat); [by apply lookup_total_replicate_2|]. rewrite list_lookup_total_alt, lookup_ge_None_2; [done|]. rewrite length_replicate. lia. }
  split; cbn [in_states worklist work_start].
  - apply length_replicate.
  - split; [intros pc s; by rewrite Hnone|]. intros x ->%list_elem_of_singleton. by split.
  - right. by left.
  - intros pc s _. by rewrite Hnone.
Qed.
Lemma visit_inv w pc inc wl cur outs k : work_inv w -> worklist w = (pc, inc) :: wl -> vs_wf cur -> covered cur inc -> (forall t s, in_states w !!! pc = Some t -> covered t s -> covered cur s) ->
  verifier_transfer_instruction (decoded !!! pc) cur (succ !!! pc) = inl outs -> work_inv (mkWork (<[pc := Some cur]> (in_states w)) (rev outs ++ wl) k).
Proof.
  intros [W1 [W2 W3] W4 W5] Ew Hc Hinc Hold Ht. set (w' := mkWork _ _ _). assert ((pc < n)%nat) as Hpc by (apply (W3 (pc, inc)); rewrite Ew; by left).
  assert (in_states w' !!! pc = Some cur) as Hat by (cbn; rewrite list_lookup_total_insert_eq by lia; done). assert (forall q, q <> pc -> in_states w' !!! q = in_states w !!! q) as Hne by (intros q Hq; cbn; by rewrite list_lookup_total_insert_ne).
  assert (forall x, accounted w x -> accounted w' x) as Hacc.
  { intros [q s] [(t & Et & Cs)|Hin]; cbn [fst snd] in *.
    - left. cbn [fst snd]. destruct (decide (q = pc)) as [->|Hq]; [exists cur; split; [done|by apply (Hold t)]|exists t; by rewrite Hne].
    - rewrite Ew in Hin. apply elem_of_cons in Hin as [[= -> ->]|Hin]; [left; by exists cur|right]. cbn. apply elem_of_app. by right. }
  split.
  - cbn. by rewrite length_insert.
  - split.
    + intros q s Eq. destruct (decide (q = pc)) as [->|Hq]; [by simplify_eq|]. rewrite Hne in Eq by done. by apply (W2 q).
    + cbn. intros x [Hx|Hx]%elem_of_app; [|apply W3; rewrite Ew; by right]. apply list_elem_of_In, in_rev, list_elem_of_In in Hx. destruct x as [q s]. destruct (transfer_wf _ _ _ _ _ _ Hc Ht Hx) as [Hs Hq]. split; [done|]. cbn. by apply (successors_in_range n pc (decoded !!! pc) (succ !!! pc)); [|apply Hsucc|].
  - by apply Hacc.
  - intros q s Hq Eq. destruct (decide (q = pc)) as [->|Hqne].
    + assert (s = cur) as -> by congruence. exists outs. split; [done|]. intros x Hx. right. cbn. apply elem_of_app. left. by apply list_elem_of_In, in_rev; rewrite rev_involutive; apply list_elem_of_In.
    + rewrite Hne in Eq by done. destruct (W5 q s Hq Eq) as (outs' & Ho & Hall). exists outs'. split; [done|]. intros x Hx. by apply Hacc, Hall.
Qed.
Lemma work_turn_inv w : work_inv w -> match work_turn decoded succ w with inl w' => work_inv w' | inr (inl states) => states = in_states w /\ worklist w = [] | inr (inr _) => True end.
Proof.
  intros Hi. unfold work_turn. destruct (worklist w) as [|[pc inc] wl] eqn:Ew; [done|]. destruct (_ <? _); [done|]. pose proof Hi as [W1 [W2 W3] W4 W5]. assert (vs_wf inc) as Hwi by (apply (W3 (pc, inc)); rewrite Ew; by left).
  destruct (in_states w !!! pc) as [ex|] eqn:Ex.
  - pose proof (W2 pc ex Ex) as Hwe. destruct (merge_covers ex inc Hwe Hwi) as [M1 M2]. destruct (merge_from_spec ex inc Hwe Hwi) as [M3 _]. pose proof (merge_unchanged ex inc Hwe Hwi) as M4. destruct (merge_from ex inc) as [cur []]; cbn [fst snd] in *.
    + destruct (verifier_transfer_instruction _ _ _) as [outs|] eqn:Et; [|done]. apply (visit_inv w pc inc); try done. intros t s Et' Hs. assert (t = ex) as -> by congruence. by apply M2.
    + specialize (M4 eq_refl). assert (forall x, accounted w x -> accounted (mkWork (in_states w) wl (processed w + 1)) x) as Hacc.
      { intros x [Hx|Hx]; [by left|]. rewrite Ew in Hx. apply elem_of_cons in Hx as [->|Hx]; [left; by exists ex|by right]. }
      split; [done|split; [done|intros x Hx; apply W3; rewrite Ew; by right]|by apply Hacc|]. intros q s Hq Eq. destruct (W5 q s Hq Eq) as (outs & Ho & Hall). exists outs. split; [done|]. intros x Hx. by apply Hacc, Hall.
  - destruct (verifier_transfer_instruction _ _ _) as [outs|] eqn:Et; [|done]. apply (visit_inv w pc inc); try done; [apply covered_refl|]. intros t s E. congruence.
Qed.
End Worklist.
(** The states of an accepted program account for its entry and for every flow between its instructions. *)
Lemma verifier_post_fixpoint p decoded succ states : accepted p decoded succ states ->
  (exists t, states !!! 0%nat = Some t /\ covered t entry) /\
  forall pc, (pc < length p)%nat -> exists s outs, states !!! pc = Some s /\ vs_wf s /\ verifier_transfer_instruction (decoded !!! pc) s (succ !!! pc) = inl outs /\ forall x, x ∈ outs -> exists t, states !!! x.1 = Some t /\ covered t x.2.
Proof.
  intros Ha. destruct (a_succ _ _ _ _ Ha) as [Hl Hs]. destruct (a_len _ _ _ _ Ha) as [L1 _]. assert (length decoded = length p) as Hd by (rewrite (a_decode _ _ _ _ Ha); apply length_fmap).
  assert (forall pc, (pc < length p)%nat -> insn_successors (length p) pc (decoded !!! pc) = inl (succ !!! pc)) as Hsucc.
  { intros pc Hpc. destruct (lookup_lt_is_Some_2 decoded pc ltac:(lia)) as [d Ed]. destruct (Hs pc d Ed) as (e & Ee & He). by rewrite (list_lookup_total_correct _ _ _ Ed), (list_lookup_total_correct _ _ _ Ee). }
  pose proof (conj Hl Hd) as Hlen. pose proof (turns_ind (work_inv decoded succ (length p)) (fun r => match r with inl st => exists w, work_inv decoded succ (length p) w /\ st = in_states w /\ worklist w = [] | inr _ => True end) (work_turn decoded succ)) as Hind.
  specialize (Hind ltac:(intros w Hw; pose proof (work_turn_inv decoded succ (length p) L1 Hlen Hsucc w Hw) as Ht; destruct (work_turn decoded succ w) as [|[|]]; [done|destruct Ht; by exists w|done]) 1000001%positive (work_start (length p)) (work_start_inv decoded succ (length p) L1 Hlen)).
  rewrite (a_run _ _ _ _ Ha) in Hind. destruct Hind as (w & [W1 [W2 W3] W4 W5] & -> & Ew). assert (forall x, accounted w x -> exists t, in_states w !!! x.1 = Some t /\ covered t x.2) as Hacc by (intros x [Hx|Hx]; [done|rewrite Ew in Hx; by apply elem_of_nil in Hx]).
  split; [by apply (Hacc (0%nat, entry))|]. intros pc Hpc. destruct (a_states _ _ _ _ Ha pc Hpc) as [s Es]. destruct (W5 pc s Hpc Es) as (outs & Ho & Hall). exists s, outs. split; [done|]. split; [by apply (W2 pc)|]. split; [done|]. intros x Hx. by apply Hacc, Hall.
Qed.

(** ** What the states mean *)
Definition ptr_ok (rs : VerifierRegState) (v : Z) : Prop := kind rs = StackPtr -> v = (BPF_STACK_SIZE + stack_offset rs) mod u64_mod.
Record gamma (s : VerifierState) (vm : EbpfVm) : Prop := {
  g_len : length (registers vm) = 11%nat /\ length (stack vm) = 512%nat;
  g_reg : forall i, (i < 11)%nat -> ptr_ok (regs s !!! i) (registers vm !!! i);
  g_spill : forall k rs, (k < 64)%nat -> stack_spill s !!! k = Some rs -> ptr_ok rs (of_le (read_at (8 * k) 8 (stack vm))) }.
(** *** Bytes *)
Lemma of_le_to_le n v : of_le (to_le n v) = v mod 2 ^ (8 * Z.of_nat n).
Proof.
  revert v. induction n as [|n IH]; intros v; [by rewrite Z.mod_1_r|]. unfold to_le. cbn [seq fmap list_fmap of_le]. rewrite <-(fmap_S_seq 0 n), <-list_fmap_compose. cbn [Z.of_nat]. rewrite Z.mul_0_r, Z.shiftr_0_r.
  assert ((fun i => Z.shiftr v (8 * Z.of_nat i) mod u8_mod) ∘ S <$> seq 0 n = to_le n (v / 256)) as ->.
  { unfold to_le. apply list_fmap_ext. intros _ i _. unfold compose. rewrite !Z.shiftr_div_pow2 by lia. replace (8 * Z.of_nat (S i)) with (8 + 8 * Z.of_nat i) by lia. rewrite Z.pow_add_r by lia. by rewrite <-Z.div_div by lia. }
  rewrite IH. unfold u8_mod. replace (8 * Z.of_nat (S n)) with (8 + 8 * Z.of_nat n) by lia. rewrite Z.pow_add_r by lia. change (2 ^ 8) with 256. rewrite Z.rem_mul_r by lia. lia.
Qed.
Lemma length_to_le n v : length (to_le n v) = n.
Proof. unfold to_le. by rewrite length_fmap, length_seq. Qed.
Lemma read_write_same n bs l : (n + length bs <= length l)%nat -> read_at n (length bs) (write_at n bs l) = bs.
Proof.
  intros Hl. unfold read_at, write_at. rewrite drop_app_length' by (rewrite length_take; lia). by apply take_app_length'.
Qed.
Lemma read_write_apart n bs l i k : (n + length bs <= length l)%nat -> (i + k <= n \/ n + length bs <= i)%nat -> read_at i k (write_at n bs l) = read_at i k l.
Proof.
  intros Hl Ha. unfold read_at. apply list_eq. intros j. destruct (decide (j < k)%nat) as [Hj|Hj]; [|by rewrite !lookup_take_ge by lia]. rewrite !lookup_take_lt, !lookup_drop by done. unfold write_at. destruct Ha as [Ha|Ha].
  - rewrite lookup_app_l by (rewrite length_take; lia). by rewrite lookup_take_lt by lia.
  - rewrite lookup_app_r by (rewrite length_take; lia). rewrite lookup_app_r by (rewrite length_take; lia). rewrite lookup_drop. f_equal. rewrite length_take. lia.
Qed.
Lemma length_write_at n bs l : (n + length bs <= length l)%nat -> length (write_at n bs l) = length l.
Proof. intros Hl. unfold write_at. rewrite !length_app, length_take, length_drop. lia. Qed.
(** *** Registers *)
Lemma gamma_set s vm i rs v vm' : vs_wf s -> gamma s vm -> (i <= 10)%nat -> ptr_ok rs v -> set_reg i v vm = Some vm' -> gamma (set_vreg i rs s) vm'.
Proof.
  intros (S1 & S2 & S3 & S4) [[G1 G2] G3 G4] Hi Hp. unfold set_reg. destruct (_ <? _)%nat; [|done]. intros [= <-]. split; [split; [cbn; by rewrite length_insert|done]| |done].
  intros j Hj. cbn. destruct (decide (j = i)) as [->|Hne]; [by rewrite !list_lookup_total_insert_eq by lia|]. rewrite !list_lookup_total_insert_ne by done. by apply G3.
Qed.
Lemma scalar_ok v : ptr_ok VERIFIER_REG_SCALAR v.
Proof. by intros ?. Qed.
Lemma uninit_ok v : ptr_ok VERIFIER_REG_UNINIT v.
Proof. by intros ?. Qed.
Lemma reg_total r vm v : reg r vm = Some v -> registers vm !!! r = v.
Proof. apply list_lookup_total_correct. Qed.
(** *** Each transfer function is sound *)
Lemma alu_cases d vm r : exec_alu d vm = Some r ->
  (exists v vm', set_reg (dst d) v vm = Some vm' /\ r = inl vm') \/ r = inr InvalidOpcode \/ (r = inr CallError /\ (op d = BPF_DIV \/ op d = BPF_MOD) /\ operand d vm = Some 0).
Proof.
  unfold exec_alu. assert (forall w, (vm' ← set_reg (dst d) w vm; Some (inl vm')) = Some r -> exists v vm', set_reg (dst d) v vm = Some vm' /\ r = inl vm') as Hset by (intros w E; destruct (set_reg (dst d) w vm) as [vm'|] eqn:Es; [injection E as <-; eauto|done]).
  destruct (reg (dst d) vm) as [x|], (operand d vm) as [v|]; cbn [mbind option_bind]; intros E;
    repeat match type of E with (if op d =? ?k then _ else _) = _ => destruct (Z.eqb_spec (op d) k) end; try done; try (by left; eapply Hset); try (by injection E as <-; auto);
    (match type of E with (if ?w =? 0 then _ else _) = _ => destruct (Z.eqb_spec w 0) as [Hz|Hz] end; [injection E as <-; right; right; rewrite Hz; auto|]); try done; left; by eapply Hset.
Qed.
Section Sound.
Context (s : VerifierState) (vm : EbpfVm) (Hw : vs_wf s) (Hg : gamma s vm) (d : DecodedInsn) (Hok : insn_ok d).
Lemma gamma_reg r v : reg r vm = Some v -> (r <= 10)%nat -> ptr_ok (regs s !!! r) v.
Proof. intros E Hr. rewrite <-(reg_total _ _ _ E). apply (g_reg _ _ Hg). lia. Qed.
Lemma gamma_dst v vm' rs : set_reg (dst d) v vm = Some vm' -> ptr_ok rs v -> gamma (set_vreg (dst d) rs s) vm'.
Proof. destruct Hok as (Hd & _). intros E Hp. by apply (gamma_set s vm (dst d) rs v). Qed.
(** The offset of a pointer moves with the pointer. *)
Lemma pointer_moves o delta x : x = (BPF_STACK_SIZE + o) mod u64_mod -> (x + delta) mod u64_mod = (BPF_STACK_SIZE + (o + delta)) mod u64_mod.
Proof. intros ->. rewrite Z.add_mod_idemp_l by done. f_equal. lia. Qed.
(** Only a division by a register can fail. *)
Lemma alu_sound s' r : class d = BPF_ALU -> verifier_apply_alu d s = inl s' -> exec_alu d vm = Some r ->
  match r with inl vm' => gamma s' vm' | inr e => e = CallError /\ uses_src_reg d = true /\ (op d = BPF_DIV \/ op d = BPF_MOD) end.
Proof.
  intros Hc Hv He. pose proof Hok as (Hd & Hs & _ & _ & Hi). pose proof (alu_fine vm (proj1 (g_len _ _ Hg)) d Hok Hc) as Hf. rewrite He in Hf. pose proof (alu_cases d vm r He) as Hcases. unfold verifier_apply_alu in Hv. destruct (dst d =? 10)%nat; [done|]. destruct (Z.eqb_spec (op d) BPF_MOV) as [Em|Em].
  { unfold exec_alu in He. rewrite Em in He. cbn -[set_reg] in He. unfold operand in He. destruct (uses_src_reg d) eqn:Eu; [destruct (negb _); [done|]; destruct (reg (src d) vm) as [v|] eqn:Ev; [|done]|]; cbn -[set_reg] in He; destruct (set_reg _ _ vm) as [vm'|] eqn:Es; try done; injection He as <-; injection Hv as <-; (eapply gamma_dst; [done|]); [by apply gamma_reg|apply scalar_ok]. }
  destruct (negb (reg_readable (dst d) s)); [done|]. destruct (uses_src_reg d && _) eqn:Eu; [done|]. destruct (negb (uses_src_reg d) && _ && _) eqn:Ez; [done|].
  assert (forall e, r = inr e -> e = CallError /\ uses_src_reg d = true /\ (op d = BPF_DIV \/ op d = BPF_MOD)) as Herr.
  { intros e ->. destruct Hcases as [(v & vm' & _ & ?)|[E|([= ->] & Hop & E0)]]; [done|by injection E as ->; destruct Hf|]. split; [done|]. split; [|done]. destruct (uses_src_reg d) eqn:Ex; [done|]. exfalso. unfold operand in E0. rewrite Ex in E0. injection E0 as E0. unfold u64_mod in E0.
    assert (imm d = 0) as E1 by (Z.to_euclidean_division_equations; lia). rewrite E1 in Ez. destruct Hop as [Hop|Hop]; rewrite Hop in Ez; done. }
  destruct r as [vm'|e]; [|by apply Herr]. destruct Hcases as [(v & vm1 & Es & [= <-])|[?|[? _]]]; [|done|done]. destruct (kind (regs s !!! dst d)) eqn:Ek; try done; [injection Hv as <-; eapply gamma_dst; [done|apply scalar_ok]| |injection Hv as <-; eapply gamma_dst; [done|apply scalar_ok]].
  destruct (negb _ || uses_src_reg d) eqn:Eas; [done|]. apply orb_false_elim in Eas as [Eas Eus]. destruct (_ || _) eqn:Erange in Hv; [done|]. injection Hv as <-. unfold exec_alu, operand in He. rewrite Eus in He. destruct (reg (dst d) vm) as [x|] eqn:Ex; [|by destruct (op d =? BPF_ADD), (op d =? BPF_SUB)]. pose proof (gamma_reg _ _ Ex Hd Ek) as Hx. cbn -[set_reg] in He.
  destruct (Z.eqb_spec (op d) BPF_ADD) as [Ea|Ea]; [|destruct (Z.eqb_spec (op d) BPF_SUB) as [Eb|Eb]; [|done]]; (destruct (set_reg _ _ vm) as [vm2|] eqn:Es2 in He; [|done]); injection He as <-; (eapply gamma_dst; [exact Es2|]); intros _; cbn [stack_offset].
  - rewrite <-(pointer_moves _ _ _ Hx). unfold u64_add. by rewrite Z.add_mod_idemp_r by done.
  - rewrite <-(pointer_moves _ _ _ Hx). unfold u64_sub. by rewrite Zminus_mod_idemp_r.
Qed.
(** The address of a stack access that the verifier allows. *)
Lemma stack_access o a size start : verifier_stack_access_start o (off d) size = Some start -> a = (BPF_STACK_SIZE + o) mod u64_mod -> u64_add a (off d) = Z.of_nat start /\ (start + size <= 512)%nat /\ ((1 < size)%nat -> (start mod size = 0)%nat).
Proof.
  unfold verifier_stack_access_start, BPF_STACK_SIZE. destruct (_ || _) eqn:E; [done|]. destruct (_ && _) eqn:E2; [done|]. intros [= <-] ->. apply orb_false_elim in E as [E1 E3]. apply Z.ltb_ge in E1, E3. split; [|split; [lia|]].
  - unfold u64_add. rewrite Z.add_mod_idemp_l by done. rewrite Z2Nat.id by lia. apply Z.mod_small. unfold u64_mod. lia.
  - intros Hs. rewrite (proj2 (Nat.ltb_lt 1 size) Hs) in E2. cbn [andb] in E2. apply negb_false_iff, Z.eqb_eq in E2. apply Nat2Z.inj. rewrite Nat2Z.inj_mod, Z2Nat.id by lia. exact E2.
Qed.
Lemma access_size_pos sz k : access_size_bytes sz = Some k -> k = 1%nat \/ k = 2%nat \/ k = 4%nat \/ k = 8%nat.
Proof. unfold access_size_bytes. intros E. repeat case_match; simplify_eq; auto. Qed.
Lemma ldx_sound s' : verifier_apply_ldx d s = inl s' ->
  exists r, exec_ldx d vm = Some r /\ match r with inl vm' => gamma s' vm' | inr e => e = MemoryAccess /\ kind (regs s !!! src d) = CtxPtr end.
Proof.
  pose proof Hok as (Hd & Hs & _). destruct (g_len _ _ Hg) as [G1 G2]. unfold verifier_apply_ldx, exec_ldx. destruct (reg_some (src d) vm G1 Hs) as [a Ea]. rewrite Ea. cbn [mbind option_bind]. destruct (access_size_bytes _) as [size|] eqn:Esz; [|done]. destruct (_ || _); [done|].
  destruct (kind (regs s !!! src d)) eqn:Ek; try done.
  - destruct (negb _); [done|]. intros [= <-]. unfold memory_read. rewrite Esz. assert (forall v, exists r, (vm' ← set_reg (dst d) v vm; Some (inl vm')) = Some r /\ match r with inl vm' => gamma (set_vreg (dst d) VERIFIER_REG_SCALAR s) vm' | inr e => e = MemoryAccess /\ CtxPtr = CtxPtr end) as Hset.
    { intros v. destruct (set_reg_some (dst d) v vm G1 Hd) as (vm' & E & _). rewrite E. eexists. split; [done|]. eapply gamma_dst; [done|apply scalar_ok]. }
    destruct (_ && _); [|by eexists]. destruct (_ <? _); [by eexists|]. apply Hset.
  - destruct (verifier_stack_access_start _ _ _) as [start|] eqn:Est; [|done]. destruct (negb _); [done|]. destruct (stack_access _ a _ _ Est (gamma_reg _ _ Ea Hs Ek)) as (Haddr & Hend & Hdiv). rewrite Haddr. unfold memory_read, BPF_STACK_SIZE. rewrite Esz. pose proof (access_size_pos _ _ Esz) as Hpos.
    rewrite (proj2 (Z.leb_le (512 - 512) _)), (proj2 (Z.ltb_lt (Z.of_nat start) 512)) by lia. cbn [andb]. rewrite (proj2 (Z.ltb_ge 512 _)) by lia. rewrite Nat2Z.id. set (v := of_le _). destruct (set_reg_some (dst d) v vm G1 Hd) as (vm' & E & _). rewrite E. intros Hv. eexists. split; [done|]. cbn.
    destruct (_ && _) eqn:E8; injection Hv as <-; (eapply gamma_dst; [done|]); [|apply scalar_ok]. apply andb_prop in E8 as [E8 _]. apply Nat.eqb_eq in E8. subst size. specialize (Hdiv ltac:(lia)). destruct (stack_spill s !!! (start / 8)%nat) as [rs|] eqn:Esp; [|apply scalar_ok].
    assert ((start / 8 < 64)%nat) as Hslot by (apply Nat.Div0.div_lt_upper_bound; lia). pose proof (g_spill _ _ Hg _ _ Hslot Esp) as Hok'. unfold v. replace (8 * (start / 8))%nat with start in Hok'; [exact Hok'|]. pose proof (Nat.div_mod start 8 ltac:(lia)). lia.
Qed.
Lemma stx_sound s' : verifier_apply_stx d s = inl s' -> exists vm', exec_stx d vm = Some (inl vm') /\ gamma s' vm'.
Proof.
  pose proof Hok as (Hd & Hs & _). destruct (g_len _ _ Hg) as [G1 G2]. destruct Hw as (S1 & S2 & S3 & S4). unfold verifier_apply_stx, exec_stx. destruct (reg_some (dst d) vm G1 Hd) as [a Ea]. destruct (reg_some (src d) vm G1 Hs) as [v Ev]. rewrite Ea, Ev. cbn [mbind option_bind]. destruct (access_size_bytes _) as [size|] eqn:Esz; [|done]. destruct (_ || _); [done|].
  destruct (bool_decide _) eqn:Ek; [|done]. apply bool_decide_eq_true in Ek. cbn [negb]. destruct (verifier_stack_access_start _ _ _) as [start|] eqn:Est; [|done]. intros Hinl. apply (inj inl) in Hinl as <-. destruct (stack_access _ a _ _ Est (gamma_reg _ _ Ea Hd Ek)) as (Haddr & Hend & Hdiv). pose proof (access_size_pos _ _ Esz) as Hpos. rewrite Haddr. unfold memory_write, BPF_STACK_SIZE. rewrite Esz.
  rewrite (proj2 (Z.leb_le (512 - 512) _)), (proj2 (Z.ltb_lt (Z.of_nat start) 512)) by lia. cbn [andb]. rewrite (proj2 (Z.ltb_ge 512 _)) by lia. rewrite Nat2Z.id. eexists. split; [done|]. assert (start + length (to_le size v) <= length (stack vm))%nat as Hfit by (rewrite length_to_le; lia).
  set (bytes := to_le size v) in *. assert (forall k rs, (k < 64)%nat -> stack_spill (mark_stack_write start size s) !!! k = Some rs -> ptr_ok rs (of_le (read_at (8 * k) 8 (write_at start bytes (stack vm))))) as Hother.
  { intros k rs Hk. cbn [mark_stack_write clear_spills_for_stack_range stack_spill]. rewrite imap_total by (cbn; lia). destruct (_ && _) eqn:Er; [done|]. intros E. rewrite read_write_apart; [by apply (g_spill _ _ Hg)|done|]. unfold bytes. rewrite length_to_le. apply andb_false_iff in Er as [Er|Er]; [left; apply Nat.leb_gt in Er; pose proof (Nat.div_mod start 8 ltac:(lia)); lia|right; apply Nat.leb_gt in Er].
    pose proof (Nat.div_mod (start + size - 1) 8 ltac:(lia)). pose proof (Nat.mod_upper_bound (start + size - 1) 8 ltac:(lia)). lia. }
  destruct (_ && _) eqn:E8; (split; [split; [done|cbn; by rewrite length_write_at]|apply (g_reg _ _ Hg)|]); [|exact Hother].
  apply andb_prop in E8 as [E8 _]. apply Nat.eqb_eq in E8. subst size. specialize (Hdiv ltac:(lia)). pose proof (Nat.div_mod start 8 ltac:(lia)) as Hst. assert ((start / 8 < 64)%nat) as Hslot by lia. intros k rs Hk. cbn [stack_spill set_stack stack]. destruct (decide (k = (start / 8)%nat)) as [->|Hne].
  - pose proof (mark_stack_write_wf start 8 s (conj S1 (conj S2 (conj S3 S4)))) as (_ & _ & Hlsp & _). rewrite list_lookup_total_insert_eq by (rewrite Hlsp; lia). intros Hsome. apply (inj Some) in Hsome as <-. replace (8 * (start / 8))%nat with start by lia. pose proof (read_write_same start bytes (stack vm) Hfit) as Hrd. replace (length bytes) with 8%nat in Hrd by (symmetry; apply length_to_le). rewrite Hrd. intros Hk'. unfold bytes. rewrite of_le_to_le. change (regs (mark_stack_write start 8 s)) with (regs s) in *. rewrite (gamma_reg _ _ Ev Hs Hk') at 1. change (2 ^ (8 * Z.of_nat 8)) with u64_mod. by rewrite Z.mod_mod.
  - rewrite list_lookup_total_insert_ne by done. by apply Hother.
Qed.
End Sound.
(** *** Joins *)
Definition offsets_agree (t s : VerifierState) : bool :=
  forallb (fun i => negb (bool_decide (kind (regs t !!! i) = StackPtr) && bool_decide (kind (regs s !!! i) = StackPtr)) || (stack_offset (regs t !!! i) =? stack_offset (regs s !!! i))) (seq 0 11).
(** Where control flow joins, a register that points into the stack on both sides has the same offset in the state kept. *)
Definition joins_agree (p : list Z) (states : list (option VerifierState)) : bool :=
  let decoded := decode_instruction <$> p in
  match verifier_build_cfg_successors decoded with
  | inr _ => true
  | inl succ => forallb (fun pc => match states !!! pc with
      | None => true
      | Some s => match verifier_transfer_instruction (decoded !!! pc) s (succ !!! pc) with
          | inr _ => true
          | inl outs => forallb (fun '(pc', s') => match states !!! pc' with Some t => offsets_agree t s' | None => true end) outs
          end
      end) (seq 0 (length p))
  end.
Definition is_call (d : DecodedInsn) : bool := (class d =? BPF_JMP) && (op d =? BPF_CALL).
Definition no_lookup (p : list Z) : bool := forallb (fun w => let d := decode_instruction w in negb (is_call d && (imm d =? 1))) p.
Lemma gamma_covered t s vm : gamma s vm -> covered t s -> offsets_agree t s = true -> gamma t vm.
Proof.
  intros [G1 G2 G3] (C1 & _ & C3) Ha. split; [done| |intros k rs Hk Hrs; apply (G3 k rs Hk); by apply C3]. intros i Hi Hk. specialize (C1 i Hi). specialize (G2 i Hi). unfold ptr_ok in G2. destruct C1 as [E|Hm]; [rewrite E in *; by apply G2|].
  unfold offsets_agree in Ha. rewrite forallb_forall in Ha. specialize (Ha i ltac:(apply in_seq; lia)). assert (kind (regs s !!! i) = StackPtr) as Hks. { destruct (regs t !!! i) as [kt ot], (regs s !!! i) as [ks os]. cbn in *. subst kt. destruct ks; merge_cases. }
  rewrite !bool_decide_true in Ha by done. cbn in Ha. apply Z.eqb_eq in Ha. rewrite Ha. by apply G2.
Qed.
Lemma gamma_entry ctx vm : length (stack vm) = 512%nat -> gamma entry (start_vm ctx vm).
Proof.
  intros Hl. split; [done| |].
  - intros i Hi. destruct (decide (i = 10%nat)) as [->|H10]; [by vm_compute|]. destruct (decide (i = 1%nat)) as [->|H1]; [done|]. cbn [entry regs]. rewrite !list_lookup_total_insert_ne by done. rewrite lookup_total_replicate_2 by done. apply uninit_ok.
  - intros k rs Hk. cbn [entry stack_spill]. by rewrite lookup_total_replicate_2.
Qed.
Section Steps.
Context {M : Type} `{BpfMaps M} (env : Env) (p : list Z) (decoded : list DecodedInsn) (succ : list edges) (states : list (option VerifierState)) (Ha : accepted p decoded succ states).
Lemma joins_at pc s outs pc' s' t : joins_agree p states = true -> (pc < length p)%nat -> states !!! pc = Some s -> verifier_transfer_instruction (decoded !!! pc) s (succ !!! pc) = inl outs -> (pc', s') ∈ outs -> states !!! pc' = Some t -> offsets_agree t s' = true.
Proof.
  unfold joins_agree. rewrite <-(a_decode _ _ _ _ Ha), (a_build _ _ _ _ Ha). rewrite forallb_forall. intros Hj Hpc Es Ho Hin Et. specialize (Hj pc ltac:(apply in_seq; lia)). rewrite Es, Ho, forallb_forall in Hj. specialize (Hj (pc', s') ltac:(by apply list_elem_of_In)). cbn in Hj. by rewrite Et in Hj.
Qed.
(** Nothing but the frame pointer points into the stack at the entry. *)
Lemma entry_agrees t : covered t entry -> offsets_agree t entry = true.
Proof.
  intros (C1 & _). unfold offsets_agree. apply forallb_forall. intros i Hi%in_seq. destruct (decide (i = 10%nat)) as [->|Hne].
  - specialize (C1 10%nat ltac:(lia)). change (regs entry !!! 10%nat) with VERIFIER_REG_STACK_FP in *. destruct C1 as [->|Hm]; [done|]. destruct (regs t !!! 10%nat) as [[] o]; try done. injection Hm as <-. done.
  - assert (kind (regs entry !!! i) <> StackPtr) as Hk by (do 11 (destruct i as [|i]; [done|]); lia). rewrite (bool_decide_false (kind (regs entry !!! i) = StackPtr)) by done. by rewrite andb_false_r.
Qed.
(** How an instruction of an accepted program may fail. *)
Definition may_fail (s : VerifierState) (d : DecodedInsn) (e : EbpfError) : Prop :=
  e = InfiniteLoop \/ (e = CallError /\ class d = BPF_ALU /\ uses_src_reg d = true /\ (op d = BPF_DIV \/ op d = BPF_MOD)) \/
  (e = MemoryAccess /\ ((class d = BPF_LDX /\ kind (regs s !!! src d) = CtxPtr) \/ is_call d = true)).
Definition sound_turn (s : VerifierState) (d : DecodedInsn) (outs : list (nat * VerifierState)) (t : turn (M := M)) : Prop :=
  match t with
  | Go vm' _ pc' => exists s', (pc', s') ∈ outs /\ gamma s' vm'
  | Stop _ _ (inr e) => may_fail s d e
  | Stop _ _ (inl _) => True
  end.
Lemma next_sound s d outs s' vm' (m : M) pc : (pc + 1, s')%nat ∈ outs -> gamma s' vm' -> sound_turn s d outs (next_insn vm' m pc).
Proof. intros Hin Hg. unfold next_insn. destruct (_ <? _); [by left|]. by exists s'. Qed.
Lemma call_keeps f vm (m : M) vm' m' v : f = 2 \/ f = 3 -> builtin_call env f vm m = inl (vm', m', v) -> vm' = vm.
Proof.
  unfold builtin_call. intros [->| ->]; cbn [Z.eqb Pos.eqb]; (destruct (read_stack_bytes (registers vm !!! 2%nat) 4 vm); [|done]).
  - destruct (read_stack_bytes (registers vm !!! 3%nat) 4 vm); [|done]. destruct (map_update_elem _ _ _ _ _). by intros [= <- _ _].
  - destruct (map_delete_elem _ _ _). by intros [= <- _ _].
Qed.
Lemma call_error f vm (m : M) e : f = 2 \/ f = 3 -> builtin_call env f vm m = inr e -> e = MemoryAccess.
Proof.
  assert (forall a e, read_stack_bytes a 4 vm = inr e -> e = MemoryAccess) as Hr by (intros a e'; unfold read_stack_bytes; destruct (_ && _); [|done]; destruct (_ <? _); [by intros [= <-]|done]).
  unfold builtin_call. intros [->| ->]; cbn [Z.eqb Pos.eqb]; (destruct (read_stack_bytes (registers vm !!! 2%nat) 4 vm) as [key|er] eqn:E1; [|intros [= ->]; by apply (Hr _ _ E1)]).
  - destruct (read_stack_bytes (registers vm !!! 3%nat) 4 vm) as [val|er] eqn:E2; [|intros [= ->]; by apply (Hr _ _ E2)]. by destruct (map_update_elem _ _ _ _ _).
  - by destruct (map_delete_elem _ _ _).
Qed.
Lemma call_sound s d e outs vm (m : M) pc t : vs_wf s -> gamma s vm -> is_call d = true -> imm d <> 1 -> verifier_transfer_jump d s e = inl outs -> e.1 = Some (pc + 1)%nat -> exec_jump env d vm m pc = Some t -> sound_turn s d outs t.
Proof.
  intros Hw Hg Hc Hi. apply andb_prop in Hc as Hc2. destruct Hc2 as [_ Ho]. apply Z.eqb_eq in Ho. unfold verifier_transfer_jump, exec_jump. rewrite Ho. change (BPF_CALL =? BPF_EXIT) with false. change (BPF_CALL =? BPF_CALL) with true. change (BPF_CALL =? BPF_JA) with false. cbn [existsb Z.eqb]. cbn iota.
  destruct (verifier_is_supported_helper (imm d)) eqn:Eh; cbn [negb]; [|done]. destruct (verifier_validate_helper_args _ _); [|done]. intros Hv He1. rewrite He1 in Hv. injection Hv as <-. unfold verifier_is_supported_helper in Eh. assert (imm d = 2 \/ imm d = 3) as Hf by lia.
  change (existsb _ _) with false. cbn iota. destruct (builtin_call env (imm d) vm m) as [[[vm1 m1] v]|er] eqn:Eb.
  - apply call_keeps in Eb as ->; [|done]. destruct (set_reg 0 v vm) as [vm2|] eqn:Es; [|done]. intros [= <-]. eapply next_sound; [by left|]. apply (gamma_set _ vm 0 _ v); [by repeat apply set_vreg_wf| |lia|apply scalar_ok|done]. cbn [seq foldl].
    assert (forall i s0, (i < 11)%nat -> vs_wf s0 -> i <> 10%nat -> gamma s0 vm -> gamma (set_vreg i VERIFIER_REG_UNINIT s0) vm) as Hun.
    { intros i s0 Hlt (W1 & _) _ [U1 U2 U3]. split; [done| |done]. intros j Hj. cbn. destruct (decide (j = i)) as [->|Hne]; [rewrite list_lookup_total_insert_eq by lia; apply uninit_ok|]. rewrite list_lookup_total_insert_ne by done. by apply U2. }
    do 5 (apply Hun; [lia|by repeat apply set_vreg_wf|lia|]). done.
  - intros [= <-]. right; right. split; [by apply (call_error (imm d) vm m)|by right].
Qed.
Lemma jump_sound s d e outs vm (m : M) pc t : vs_wf s -> gamma s vm -> insn_ok d -> class d = BPF_JMP -> (is_call d = true -> imm d <> 1) -> program vm = p -> insn_successors (length p) pc d = inl e -> verifier_transfer_jump d s e = inl outs -> exec_jump env d vm m pc = Some t -> sound_turn s d outs t.
Proof.
  intros Hw Hg Hok Hc Hcall Hp He Hv Hx. destruct (Z.eqb_spec (op d) BPF_CALL) as [Eo|Eo].
  { assert (is_call d = true) as Hic by (unfold is_call; by rewrite Hc, Eo). assert (op d <> BPF_EXIT /\ op d <> BPF_JA) as Hne by (by rewrite Eo). destruct (fallthrough _ _ _ _ (or_intror Hne) He) as [He1 _]. by apply (call_sound s d e outs vm m pc t Hw Hg Hic (Hcall Hic)). }
  unfold verifier_transfer_jump in Hv. unfold exec_jump in Hx. destruct (Z.eqb_spec (op d) BPF_EXIT) as [Ee|Ee].
  { rewrite Ee in Hx. cbn in Hx. destruct (reg 0 vm); [|done]. by injection Hx as <-. }
  rewrite (proj2 (Z.eqb_neq _ _) Eo) in Hv, Hx. destruct (existsb _ _) eqn:Eex in Hv; [|done]. destruct (_ && _) in Hv; [done|]. injection Hv as <-. destruct (jump_edges _ _ _ _ Hc Ee Eo He) as (tgt & Ht & Hin).
  assert (forall vm', vm' = vm -> sound_turn s d ((fun next_pc => (next_pc, s)) <$> flatten e) (goto d vm' m pc)) as Hgoto by (intros vm' ->; unfold goto; rewrite Hp, Ht; exists s; split; [apply list_elem_of_fmap; eauto|done]).
  destruct (Z.eqb_spec (op d) BPF_JA) as [Ej|Ej]; [injection Hx as <-; by apply Hgoto|]. destruct (fallthrough _ _ _ _ (or_intror (conj Ee Ej)) He) as [He1 _].
  assert (existsb (Z.eqb (op d)) [BPF_JEQ; BPF_JGT; BPF_JGE; BPF_JNE; BPF_JSET; BPF_JSGT; BPF_JSGE] = true) as Hex.
  { apply existsb_exists in Eex as (o & Hio & Eo'). apply Z.eqb_eq in Eo'. subst o. cbn [In] in Hio. repeat (destruct Hio as [Hio|Hio]; [first [by destruct Ej|by rewrite <-Hio]|]). done. }
  rewrite Hex in Hx. destruct (jump_taken d vm) as [[]|]; [| |done]; injection Hx as <-; [by apply Hgoto|]. apply (next_sound s d _ s); [|done]. apply list_elem_of_fmap. exists (pc + 1)%nat. split; [done|]. unfold flatten. rewrite He1. by left.
Qed.
(** One turn from a state that the verifier describes. *)
Lemma interpret_sound s outs vm (m : M) pc t : no_lookup p = true -> (pc < length p)%nat -> program vm = p -> vs_wf s -> gamma s vm -> verifier_transfer_instruction (decoded !!! pc) s (succ !!! pc) = inl outs -> interpret env vm m pc = Some t -> sound_turn s (decoded !!! pc) outs t.
Proof.
  intros Hnl Hpc Hp Hw Hg. destruct (lookup_lt_is_Some_2 p pc Hpc) as [insn Ei]. assert (decoded !! pc = Some (decode_instruction insn)) as Ed by (rewrite (a_decode _ _ _ _ Ha), list_lookup_fmap, Ei; done). rewrite (list_lookup_total_correct _ _ _ Ed). destruct (a_succ _ _ _ _ Ha) as [_ Hs]. destruct (Hs pc _ Ed) as (e & Ee & He). rewrite (list_lookup_total_correct _ _ _ Ee).
  assert (insn_ok (decode_instruction insn)) as Hok by (apply (Forall_lookup_1 _ _ _ _ (a_ok _ _ _ _ Ha) Ed)). assert (is_call (decode_instruction insn) = true -> imm (decode_instruction insn) <> 1) as Hcall.
  { intros Hic E. unfold no_lookup in Hnl. rewrite forallb_forall in Hnl. specialize (Hnl insn ltac:(apply list_elem_of_In; by apply list_elem_of_lookup_2 in Ei)). cbn zeta in Hnl. rewrite Hic, E in Hnl. done. }
  unfold interpret. rewrite Hp, Ei. cbn zeta. set (d := decode_instruction insn) in *. set (vm1 := count_insn vm). assert (gamma s vm1) as Hg1 by (by destruct Hg). unfold verifier_transfer_instruction.
  assert (class d <> BPF_JMP -> forall (v : result VerifierState) (r : option (result EbpfVm)), (forall s' x, v = inl s' -> r = Some x -> match x with inl vm' => gamma s' vm' | inr er => may_fail s d er end) -> match v with inl next => match e.1 with Some next_pc => inl [(next_pc, next)] | None => inr VerifierRejected end | inr err => inr err end = inl outs ->
    (r ← r; Some (match r with inl vm' => next_insn vm' m pc | inr er => Stop vm1 m (inr er) end)) = Some t -> sound_turn s d outs t) as Hon.
  { intros Hj v r Hvr. destruct v as [s'|]; [|done]. destruct (fallthrough _ _ _ _ (or_introl Hj) He) as [-> _]. intros [= <-]. destruct r as [x|]; [|done]. specialize (Hvr s' x eq_refl eq_refl). cbn [mbind option_bind]. intros [= <-]. destruct x as [vm'|er]; [|done]. eapply next_sound; [by left|done]. }
  destruct (Z.eqb_spec (class d) BPF_LD) as [Ec|_]; [by rewrite Ec|]. destruct (Z.eqb_spec (class d) BPF_ALU) as [Ec|_].
  { apply Hon; [by rewrite Ec|]. intros s' x Ev Ex. pose proof (alu_sound s vm1 Hw Hg1 d Hok s' x Ec Ev Ex) as Hx. destruct x; [done|]. right; left. destruct Hx as (-> & Hu & Hop). done. }
  destruct (Z.eqb_spec (class d) BPF_LDX) as [Ec|_].
  { apply Hon; [by rewrite Ec|]. intros s' x Ev Ex. destruct (ldx_sound s vm1 Hw Hg1 d Hok s' Ev) as (r & Er & Hr). assert (r = x) as -> by congruence. destruct x; [done|]. destruct Hr as [-> Hk]. right; right. split; [done|by left]. }
  destruct (Z.eqb_spec (class d) BPF_STX) as [Ec|_].
  { apply Hon; [by rewrite Ec|]. intros s' x Ev Ex. destruct (stx_sound s vm1 Hw Hg1 d Hok s' Ev) as (vm' & Er & Hr). assert (x = inl vm') as -> by congruence. done. }
  destruct (Z.eqb_spec (class d) BPF_JMP) as [Ec|_]; [|done]. intros Hv Hx. by apply (jump_sound s d e outs vm1 m pc t).
Qed.
(** The configurations a run goes through. *)
Inductive reaches (vm : EbpfVm) (m : M) (pc : nat) : EbpfVm -> M -> nat -> Prop :=
| reaches_here : reaches vm m pc vm m pc
| reaches_step vm1 m1 pc1 vm2 m2 pc2 : reaches vm m pc vm1 m1 pc1 -> interpret env vm1 m1 pc1 = Some (Go vm2 m2 pc2) -> reaches vm m pc vm2 m2 pc2.
Lemma reached_states vm (m : M) ctx vm' m' pc' : no_lookup p = true -> joins_agree p states = true -> program vm = p -> length (stack vm) = 512%nat -> reaches (start_vm ctx vm) m 0 vm' m' pc' ->
  (pc' < length p)%nat /\ program vm' = p /\ length (registers vm') = 11%nat /\ exists s, states !!! pc' = Some s /\ vs_wf s /\ gamma s vm'.
Proof.
  intros Hnl Hj Hp Hst. destruct (verifier_post_fixpoint p decoded succ states Ha) as [(t0 & Et0 & C0) Hpf]. destruct (a_len _ _ _ _ Ha) as [L1 _]. induction 1 as [|vm1 m1 pc1 vm2 m2 pc2 _ IH Hi].
  - split; [done|]. split; [done|]. split; [done|]. destruct (Hpf 0%nat L1) as (s & outs & Es & Hws & _). exists s. split; [done|]. split; [done|]. assert (t0 = s) as -> by congruence. apply (gamma_covered s entry); [by apply gamma_entry|done|]. apply (entry_agrees _ C0).
  - destruct IH as (Hpc & Hp1 & Hl1 & s & Es & Hws & Hg). destruct (interpret_good env p decoded succ states vm1 m1 pc1 Ha Hp1 Hl1 Hpc) as (t & Et & Hgood). assert (t = Go vm2 m2 pc2) as -> by congruence. destruct Hgood as [Hpc2 (K1 & K2 & K3)]. split; [lia|]. split; [by rewrite K2|]. split; [done|].
    destruct (Hpf pc1 Hpc) as (s1 & outs & Es1 & _ & Ho & Hall). assert (s1 = s) as -> by congruence. destruct (interpret_sound s outs vm1 m1 pc1 _ Hnl Hpc Hp1 Hws Hg Ho Hi) as (s' & Hin & Hg'). destruct (Hall _ Hin) as (t & Et2 & Ct). cbn [fst snd] in *. destruct (Hpf pc2 ltac:(lia)) as (s2 & _ & Es2 & Hw2 & _). assert (s2 = t) as -> by congruence. exists t. split; [done|]. split; [done|].
    apply (gamma_covered t s'); [done|done|]. by apply (joins_at pc1 s outs pc2 s' t).
Qed.
End Steps.
Section Result.
Context {M : Type} `{BpfMaps M} (env : Env).
Lemma reaches_front vm (m : M) pc vm1 m1 pc1 vm2 m2 pc2 : interpret env vm m pc = Some (Go vm1 m1 pc1) -> reaches env vm1 m1 pc1 vm2 m2 pc2 -> reaches env vm m pc vm2 m2 pc2.
Proof. intros Hi. induction 1 as [|vm3 m3 pc3 vm4 m4 pc4 _ IH Hs]; [eapply reaches_step; [constructor|done]|by eapply reaches_step]. Qed.
(** A run ends in a configuration it reaches. *)
Lemma run_stops fuel vm (m : M) pc vm' m' r : run env fuel vm m pc = Some (Some (vm', m', r)) -> exists vm1 m1 pc1, reaches env vm m pc vm1 m1 pc1 /\ interpret env vm1 m1 pc1 = Some (Stop vm' m' r).
Proof.
  revert vm m pc. induction fuel as [|fuel IH]; intros vm m pc; [done|]. cbn [run]. destruct (interpret env vm m pc) as [[vm1 m1 pc1|vm1 m1 r1]|] eqn:E; [|intros [= -> -> ->]; exists vm, m, pc; split; [constructor|done]|done].
  intros (vm2 & m2 & pc2 & Hr & Hs)%IH. exists vm2, m2, pc2. split; [by apply (reaches_front _ _ _ vm1 m1 pc1)|done].
Qed.
(** How a configuration that a run reaches may fail. *)
Lemma reached_failure p states ctx vm (m : M) vm' m' pc' vm'' m'' e : verify_states p = inl states -> joins_agree p states = true -> no_lookup p = true -> program vm = p -> length (stack vm) = 512%nat ->
  reaches env (start_vm ctx vm) m 0 vm' m' pc' -> interpret env vm' m' pc' = Some (Stop vm'' m'' (inr e)) -> exists s insn, states !!! pc' = Some s /\ p !! pc' = Some insn /\ may_fail s (decode_instruction insn) e.
Proof.
  intros Hv Hj Hn Hp Hl Hr Hi. destruct (verify_accepts p states Hv) as (decoded & succ & Ha). destruct (reached_states env p decoded succ states Ha vm m ctx vm' m' pc' Hn Hj Hp Hl Hr) as (Hpc & Hp' & _ & s & Es & Hw & Hg).
  destruct (verifier_post_fixpoint p decoded succ states Ha) as [_ Hpf]. destruct (Hpf pc' Hpc) as (s1 & outs & Es1 & _ & Ho & _). assert (s1 = s) as -> by congruence. pose proof (interpret_sound env p decoded succ states Ha s outs vm' m' pc' _ Hn Hpc Hp' Hw Hg Ho Hi) as Hs. cbn [sound_turn] in Hs.
  destruct (lookup_lt_is_Some_2 p pc' Hpc) as [insn Ei]. exists s, insn. split; [done|]. split; [done|]. assert (decoded !! pc' = Some (decode_instruction insn)) as Ed by (rewrite (a_decode _ _ _ _ Ha), list_lookup_fmap, Ei; done). by rewrite (list_lookup_total_correct _ _ _ Ed) in Hs.
Qed.
End Result.

(** C6: the verifier is sound for the stack.  Let a program be accepted with states that
    agree on the offsets of stack pointers where control flow joins, and let it not look up
    maps.  Then in every configuration a run reaches, an instruction fails only as a
    division by a register that holds zero, a load through the context pointer, or a
    helper call, besides the limit on instructions: loads and stores through pointers into the
    stack never fail, whatever the stack and the registers hold. *)
Theorem verifier_sound {M : Type} `{BpfMaps M} env p states ctx vm (m : M) vm' m' pc' vm'' m'' e :
  verify_states p = inl states -> joins_agree p states = true -> no_lookup p = true -> program vm = p -> length (stack vm) = 512%nat ->
  reaches env (start_vm ctx vm) m 0 vm' m' pc' -> interpret env vm' m' pc' = Some (Stop vm'' m'' (inr e)) ->
  exists s insn, states !!! pc' = Some s /\ p !! pc' = Some insn /\ may_fail s (decode_instruction insn) e.
Proof. apply reached_failure. Qed.
(** No calls, no division by a register and no load through the context pointer. *)
Definition plain (p : list Z) (states : list (option VerifierState)) : bool :=
  forallb (fun pc => let d := decode_instruction (p !!! pc) in
    negb (is_call d) && negb ((class d =? BPF_ALU) && uses_src_reg d && ((op d =? BPF_DIV) || (op d =? BPF_MOD))) &&
    match states !!! pc with Some s => negb ((class d =? BPF_LDX) && bool_decide (kind (regs s !!! src d) = CtxPtr)) | None => true end) (seq 0 (length p)).
Lemma plain_at p states pc insn s : plain p states = true -> p !! pc = Some insn -> states !!! pc = Some s -> is_call (decode_instruction insn) = false /\ forall e, may_fail s (decode_instruction insn) e -> e = InfiniteLoop.
Proof.
  unfold plain. rewrite forallb_forall. intros Hpl Ei Es. specialize (Hpl pc ltac:(apply in_seq; apply lookup_lt_Some in Ei; lia)). rewrite (list_lookup_total_correct _ _ _ Ei), Es in Hpl. cbn zeta in Hpl. set (d := decode_instruction insn) in *. apply andb_prop in Hpl as [Hpl P3]. apply andb_prop in Hpl as [P1 P2]. apply negb_true_iff in P1, P2, P3. split; [done|].
  intros e [?|[(_ & Hc & Hu & Ho)|[_ [[Hc Hk]|Hc]]]]; [done|exfalso|exfalso|congruence].
  - rewrite Hc, Hu in P2. destruct Ho as [Ho|Ho]; by rewrite Ho in P2.
  - rewrite Hc, bool_decide_true in P3 by done. done.
Qed.
Lemma plain_no_lookup p states : plain p states = true -> (forall pc, (pc < length p)%nat -> is_Some (states !!! pc)) -> no_lookup p = true.
Proof.
  intros Hpl Hs. unfold no_lookup. apply forallb_forall. intros w Hw. apply list_elem_of_In, list_elem_of_lookup in Hw as [i Ei]. destruct (Hs i ltac:(by apply lookup_lt_Some in Ei)) as [s Es]. destruct (plain_at p states i w s Hpl Ei Es) as [Hc _]. cbn zeta. by rewrite Hc.
Qed.
(** C16: programs that compute return.  A program that the verifier accepts, that has none
    of the three kinds of instructions that may fail and whose joins agree, run by the
    interpreter (not compiled), returns a value, whatever the context, the 512 bytes of stack
    left by earlier runs and the maps are, provided that the instructions counted in
    earlier runs and the length of the program together are at most a million. *)
Theorem verified_returns {M : Type} `{BpfMaps M} env jit p ty states ctx vm (m : M) :
  verify_states p = inl states -> joins_agree p states = true -> plain p states = true -> program vm = p -> prog_type vm = ty -> jit_program vm = None -> length (stack vm) = 512%nat -> 0 <= insn_count vm -> insn_count vm + Z.of_nat (length p) <= 1000000 ->
  exists vm' m' v, execute env jit ctx vm m = Some (vm', m', inl v) /\ insn_count vm' <= insn_count vm + Z.of_nat (length p).
Proof.
  intros Hv Hj Hpl Hp Hty Hjit Hst Hc1 Hc2. destruct (verify_accepts p states Hv) as (decoded & succ & Ha). destruct (a_len _ _ _ _ Ha) as [L1 L2]. pose proof (plain_no_lookup p states Hpl (a_states _ _ _ _ Ha)) as Hn.
  assert (execute env jit ctx vm m = default None (run env (S (length p)) (start_vm ctx vm) m 0)) as ->.
  { unfold execute, verify_program. rewrite Hp, Hv. replace (if verified vm then inl tt else inl tt) with (@inl unit EbpfError tt) by (by destruct (verified vm)). change (jit_program (start_vm ctx vm)) with (jit_program vm). rewrite Hjit. change (program (start_vm ctx vm)) with (program vm). by rewrite Hp. }
  destruct (run_good env p decoded succ states (S (length p)) (start_vm ctx vm) m 0 Ha) as (vm' & m' & r & Er & _ & C & R); [done|done|lia|lia|done|cbn [start_vm insn_count]; unfold u64_mod, BPF_MAXINSNS in *; lia|]. rewrite Er. cbn [default from_option]. unfold id. cbn [start_vm insn_count] in C. destruct r as [v|e]; [exists vm', m', v; split; [done|lia]|exfalso].
  destruct (run_stops env _ _ _ _ _ _ _ Er) as (vm1 & m1 & pc1 & Hr & Hs). destruct (reached_failure env p states ctx vm m vm1 m1 pc1 vm' m' e Hv Hj Hn Hp Hst Hr Hs) as (s & insn & Es & Ei & Hf). destruct (plain_at p states pc1 insn s Hpl Ei Es) as [_ He]. rewrite (He e Hf) in R. destruct R as [[R|R]|[_ R]]; [done|done|lia].
Qed.

(** ** The marks on the control flow graph *)
Section Marks.
Context (next : nat -> list nat) (n : nat) (Hnext : forall v t, t ∈ next v -> (t < n)%nat).
Definition edge (v t : nat) : Prop := t ∈ next v.
(** The places still to be pushed: the successors of what is not marked. *)
Definition unmarked_out (mask : list bool) : nat := sum_list ((fun v => if (mask !!! v : bool) then 0%nat else length (next v)) <$> seq 0 n).
Lemma sum_list_update (f g : nat -> nat) (l : list nat) x : NoDup l -> x ∈ l -> (forall y, y <> x -> f y = g y) -> (sum_list (f <$> l) + g x = sum_list (g <$> l) + f x)%nat.
Proof.
  intros Hd Hx He. induction Hd as [|y l Hy Hd IH]; [by apply elem_of_nil in Hx|]. cbn. apply elem_of_cons in Hx as [->|Hx].
  - assert (f <$> l = g <$> l) as ->; [|lia]. apply list_fmap_ext. intros j z Hz. apply He. intros ->. apply Hy. by apply list_elem_of_lookup_2 in Hz.
  - specialize (IH Hx). assert (f y = g y) by (apply He; by intros ->). lia.
Qed.
Lemma unmarked_out_mark mask pc : length mask = n -> (pc < n)%nat -> mask !!! pc = false -> (unmarked_out (<[pc := true]> mask) + length (next pc) = unmarked_out mask)%nat.
Proof.
  intros Hl Hpc Hm. unfold unmarked_out. pose proof (sum_list_update (fun v => if (<[pc := true]> mask !!! v : bool) then 0%nat else length (next v)) (fun v => if (mask !!! v : bool) then 0%nat else length (next v)) (seq 0 n) pc (NoDup_seq 0 n) ltac:(apply elem_of_seq; lia)) as Hs.
  cbn beta in Hs. rewrite list_lookup_total_insert_eq in Hs by lia. rewrite Hm in Hs. rewrite Hs; [lia|]. intros y Hy. by rewrite list_lookup_total_insert_ne by done.
Qed.
(** With enough turns the marks are the places that can be reached from the stack. *)
Lemma mark_loop_spec fuel stk mask : length mask = n -> Forall (fun v => (v < n)%nat) stk -> (length stk + unmarked_out mask <= fuel)%nat -> (forall v t, (v < n)%nat -> mask !!! v = true -> edge v t -> mask !!! t = true \/ t ∈ stk) ->
  let r := mark_loop fuel next stk mask in
  (forall v, (v < n)%nat -> r !!! v = true -> mask !!! v = true \/ exists u, u ∈ stk /\ rtc edge u v) /\ (forall v, v ∈ stk -> r !!! v = true) /\ (forall v, mask !!! v = true -> r !!! v = true) /\ (forall v t, (v < n)%nat -> r !!! v = true -> edge v t -> r !!! t = true).
Proof.
  revert stk mask. induction fuel as [|fuel IH]; intros stk mask Hl Hs Hf Hc; (destruct stk as [|pc stk]; [cbn zeta; cbn [mark_loop]; split; [by left|]; split; [by intros v ?%elem_of_nil|]; split; [done|]; intros v t Hv Hm He; destruct (Hc v t Hv Hm He) as [?|Hn]; [done|by apply elem_of_nil in Hn]|]); [cbn in Hf; lia|].
  apply Forall_cons in Hs as [Hpc Hs]. cbn [mark_loop length] in *. destruct (mask !!! pc) eqn:Em.
  - destruct (IH stk mask Hl Hs ltac:(lia)) as (R1 & R2 & R3 & R4). { intros v t Hv Hm He. destruct (Hc v t Hv Hm He) as [?|[->|?]%elem_of_cons]; auto. }
    split; [|split; [|split; [done|done]]].
    + intros v Hv Hr. destruct (R1 v Hv Hr) as [?|(u & Hu & Hp)]; [by left|right]. exists u. split; [by right|done].
    + intros v [->|Hv]%elem_of_cons; [by apply R3|by apply R2].
  - pose proof (unmarked_out_mark mask pc Hl Hpc Em) as Hu. assert (forall t, t ∈ rev (next pc) ++ stk <-> t ∈ next pc \/ t ∈ stk) as Hin by (intros t; rewrite elem_of_app, list_elem_of_In, <-in_rev, <-list_elem_of_In; done).
    assert (forall v, v <> pc -> <[pc := true]> mask !!! v = mask !!! v) as Hne by (intros v Hv; by rewrite list_lookup_total_insert_ne). assert (<[pc := true]> mask !!! pc = true) as Heq by (by rewrite list_lookup_total_insert_eq by lia).
    destruct (IH (rev (next pc) ++ stk) (<[pc := true]> mask)) as (R1 & R2 & R3 & R4); [by rewrite length_insert| |rewrite length_app, length_rev; lia| |].
    + apply Forall_forall. intros t [Ht|Ht]%Hin; [by apply (Hnext pc)|]. rewrite Forall_forall in Hs. by apply Hs.
    + intros v t Hv Hm He. destruct (decide (v = pc)) as [->|Hvp]; [right; apply Hin; by left|]. rewrite Hne in Hm by done. destruct (decide (t = pc)) as [->|Htp]; [by left|]. rewrite Hne by done. destruct (Hc v t Hv Hm He) as [?|[->|Ht]%elem_of_cons]; [by left|done|right; apply Hin; by right].
    + split; [|split; [|split; [|done]]].
      * intros v Hv Hr. destruct (R1 v Hv Hr) as [Hm|(u & [Hu'|Hu']%Hin & Hp)].
        -- destruct (decide (v = pc)) as [->|Hvp]; [right; exists pc; split; [by left|done]|left; by rewrite Hne in Hm].
        -- right. exists pc. split; [by left|]. by apply (rtc_l _ _ u).
        -- right. exists u. split; [by right|done].
      * intros v [->|Hv]%elem_of_cons; [by apply R3|]. apply R2, Hin. by right.
      * intros v Hm. apply R3. destruct (decide (v = pc)) as [->|Hvp]; [done|by rewrite Hne].
Qed.
End Marks.
(** In a list of edges no more than all edges end in distinct places. *)
Lemma ends_bound (l : list (nat * nat)) (vs : list nat) : NoDup vs -> (sum_list ((fun v => length (filter (fun e => e.2 = v) l).*1) <$> vs) <= length l)%nat.
Proof.
  intros Hd. induction l as [|e l IH]; [cbn; induction vs as [|v vs IHv]; [done|apply NoDup_cons in Hd as [_ Hd]; cbn; by apply IHv]|].
  transitivity (S (sum_list ((fun v => length (filter (fun e => e.2 = v) l).*1) <$> vs))); [|cbn; lia]. clear IH. induction Hd as [|v vs Hv Hd IH]; [cbn; lia|]. cbn [fmap list_fmap sum_list]. rewrite filter_cons. destruct (decide (e.2 = v)) as [E|Hne]; [subst v|cbn in IH |- *; lia].
  assert ((fun v => length (filter (fun e0 => e0.2 = v) (e :: l)).*1) <$> vs = (fun v => length (filter (fun e0 => e0.2 = v) l).*1) <$> vs) as ->; [|cbn; lia].
  apply list_fmap_ext. intros j w Hw. rewrite filter_cons. rewrite decide_False; [done|]. intros <-. apply Hv. by apply list_elem_of_lookup_2 in Hw.
Qed.
Lemma flatten_length e : (length (flatten e) <= 2)%nat.
Proof. by destruct e as [[|] [|]]; cbn; lia. Qed.
Section Graph.
Context (succ : list edges) (Hrange : forall pc t, t ∈ flatten (succ !!! pc) -> (t < length succ)%nat) (Hne : (0 < length succ)%nat).
Lemma no_marks pc : (pc < length succ)%nat -> replicate (length succ) false !!! pc = false.
Proof. apply lookup_total_replicate_2. Qed.
Lemma sum_list_le {A} (f : A -> nat) k (l : list A) : (forall x, (f x <= k)%nat) -> (sum_list (f <$> l) <= k * length l)%nat.
Proof. intros Hf. induction l as [|x l IH]; cbn; [lia|]. specialize (Hf x). lia. Qed.
Lemma path_range v : rtc (edge (fun pc => flatten (succ !!! pc))) 0%nat v -> (v < length succ)%nat.
Proof. revert v. apply rtc_ind_r; [done|]. intros u t _ Hut _. by apply (Hrange u). Qed.
Lemma flat_map_length {A B} k (f : A -> list B) l : (forall x, (length (f x) <= k)%nat) -> (length (flat_map f l) <= k * length l)%nat.
Proof. intros Hf. induction l as [|x l IH]; cbn; [lia|]. rewrite length_app. specialize (Hf x). lia. Qed.
(** The first mask marks what can be reached from the first instruction. *)
Lemma reachable_mask_spec pc : (pc < length succ)%nat -> verifier_reachable_mask succ !!! pc = true <-> rtc (edge (fun pc => flatten (succ !!! pc))) 0%nat pc.
Proof.
  intros Hpc. unfold verifier_reachable_mask. set (next := fun pc => flatten (succ !!! pc)). destruct (mark_loop_spec next (length succ) Hrange (2 * length succ + 2) [0%nat] (replicate (length succ) false)) as (R1 & R2 & _ & R4).
  - apply length_replicate.
  - by constructor.
  - cbn [length]. unfold unmarked_out. pose proof (sum_list_le (fun v => if (replicate (length succ) false !!! v : bool) then 0%nat else length (next v)) 2 (seq 0 (length succ))) as Hb. rewrite length_seq in Hb. specialize (Hb ltac:(intros v; destruct (_ !!! v); [lia|apply flatten_length])). lia.
  - intros v t Hv. by rewrite no_marks.
  - split; [intros Hr; destruct (R1 pc Hpc Hr) as [Hm|(u & ->%list_elem_of_singleton & Hp)]; [by rewrite no_marks in Hm|done]|]. clear Hpc.
    revert pc. apply rtc_ind_r; [apply R2; by left|]. intros v t Hvt Hedge IH. apply (R4 v t); [|done|done]. by apply (path_range v).
Qed.
(** The second mask marks what can reach an exit, when everything can be reached. *)
Lemma exit_mask_spec reachable exits pc : length reachable = length succ -> forallb id reachable = true -> Forall (fun v => (v < length succ)%nat) exits -> (pc < length succ)%nat ->
  verifier_can_reach_exit_mask succ reachable exits !!! pc = true <-> exists x, x ∈ exits /\ rtc (edge (fun pc => flatten (succ !!! pc))) pc x.
Proof.
  intros Hl Hall Hex Hpc. unfold verifier_can_reach_exit_mask. set (next := fun pc => flatten (succ !!! pc)). set (back := reverse_edges succ reachable).
  assert (forall t v, v ∈ back t <-> (v < length succ)%nat /\ (t < length succ)%nat /\ edge next v t) as Hback.
  { intros t v. unfold back, reverse_edges. rewrite list_elem_of_fmap. split.
    - intros ([a b] & -> & Hin). apply list_elem_of_filter in Hin as [Eb Hin]. cbn in Eb. subst b. unfold reachable_edges in Hin. apply list_elem_of_In, in_flat_map in Hin as (u & Hu & Hin). apply in_seq in Hu. destruct (reachable !!! u); [|done]. apply list_elem_of_In, list_elem_of_fmap in Hin as (w & [= -> ->] & Hw). apply list_elem_of_filter in Hw as [_ Hw]. cbn. split; [lia|]. split; [by apply (Hrange u)|done].
    - intros (Hv & Ht & He). exists (v, t). split; [done|]. apply list_elem_of_filter. split; [done|]. unfold reachable_edges. apply list_elem_of_In, in_flat_map. exists v. split; [apply in_seq; lia|]. rewrite (forallb_lookup reachable v Hall) by lia. apply list_elem_of_In, list_elem_of_fmap. exists t. split; [done|]. apply list_elem_of_filter. split; [by rewrite (forallb_lookup reachable t Hall) by lia|done]. }
  assert (forall v, v ∈ rev exits <-> v ∈ exits) as Hrev by (intros v; rewrite !list_elem_of_In, <-in_rev; done).
  destruct (mark_loop_spec back (length succ) ltac:(intros v t Ht; apply Hback in Ht; tauto) (2 * length succ + length exits + 2) (rev exits) (replicate (length succ) false)) as (R1 & R2 & _ & R4).
  - apply length_replicate.
  - rewrite Forall_forall in *. intros v Hv. by apply Hex, Hrev.
  - rewrite length_rev. assert (unmarked_out back (length succ) (replicate (length succ) false) <= 2 * length succ)%nat; [|lia]. transitivity (sum_list ((fun v => length (filter (fun e => e.2 = v) (reachable_edges succ reachable)).*1) <$> seq 0 (length succ))).
    + unfold unmarked_out. apply Nat.eq_le_incl. f_equal. apply list_fmap_ext. intros i v Hv. apply lookup_seq in Hv as [-> Hi]. by rewrite no_marks by done.
    + etransitivity; [apply ends_bound, NoDup_seq|]. unfold reachable_edges. etransitivity; [apply (flat_map_length 2)|by rewrite length_seq]. intros v. destruct (reachable !!! v); [|cbn; lia]. rewrite length_fmap. etransitivity; [apply length_filter|apply flatten_length].
  - intros v t Hv. by rewrite no_marks.
  - split.
    + intros Hr. destruct (R1 pc Hpc Hr) as [Hm|(u & Hu%Hrev & Hp)]; [by rewrite no_marks in Hm|]. exists u. split; [done|]. clear -Hp Hback. induction Hp as [|a b c Hab _ IH]; [done|]. eapply rtc_r; [exact IH|]. by apply Hback in Hab as (_ & _ & ?).
    + intros (x & Hx%Hrev & Hp). induction Hp as [v|v w x Hvw Hp IH]; [by apply R2|]. assert ((w < length succ)%nat) as Hw by (by apply (Hrange v)). apply (R4 w v Hw); [by apply IH|]. apply Hback. done.
Qed.
End Graph.
(** In an accepted program every instruction can be reached from the first, and an exit from it. *)
Lemma verified_graph p states : verify_states p = inl states -> exists succ, verifier_build_cfg_successors (decode_instruction <$> p) = inl succ /\ forall pc, (pc < length p)%nat ->
  rtc (edge (fun pc => flatten (succ !!! pc))) 0%nat pc /\ exists x insn, rtc (edge (fun pc => flatten (succ !!! pc))) pc x /\ p !! x = Some insn /\ class (decode_instruction insn) = BPF_JMP /\ op (decode_instruction insn) = BPF_EXIT.
Proof.
  intros Hv. destruct (verify_accepts p states Hv) as (decoded & succ & Ha). pose proof (a_build _ _ _ _ Ha) as Hb. destruct (a_succ _ _ _ _ Ha) as [Hl Hs]. destruct (a_len _ _ _ _ Ha) as [L1 _]. assert (length decoded = length p) as Hd by (rewrite (a_decode _ _ _ _ Ha); apply length_fmap). exists succ. rewrite <-(a_decode _ _ _ _ Ha). split; [done|].
  unfold verify_states in Hv. destruct (_ || _); [done|]. destruct (decode_all p) as [dec|] eqn:Ed; [|done]. apply decode_all_spec in Ed as [Ed _]. rewrite <-(a_decode _ _ _ _ Ha) in Ed. subst dec. rewrite Hb in Hv. destruct (forallb id (verifier_reachable_mask succ)) eqn:Er; [|done]. cbn [negb] in Hv. set (exits := filter _ _) in *. destruct (length exits =? 0)%nat; [done|]. destruct (existsb _ _) eqn:Ex; [done|]. clear Hv.
  assert (forall pc t, t ∈ flatten (succ !!! pc) -> (t < length succ)%nat) as Hrange.
  { intros pc t Ht. destruct (decide (pc < length p)%nat) as [Hpc|Hpc]; [|rewrite list_lookup_total_alt, lookup_ge_None_2 in Ht by lia; by apply elem_of_nil in Ht]. destruct (lookup_lt_is_Some_2 decoded pc ltac:(lia)) as [d Edd]. destruct (Hs pc d Edd) as (e & Ee & He). rewrite (list_lookup_total_correct _ _ _ Ee) in Ht. rewrite Hl. by apply (successors_in_range (length p) pc d e). }
  assert (length (verifier_reachable_mask succ) = length succ) as Hm by (unfold verifier_reachable_mask; by rewrite mark_loop_length, length_replicate).
  assert (forall v, v ∈ exits -> (v < length succ)%nat /\ class (decoded !!! v) = BPF_JMP /\ op (decoded !!! v) = BPF_EXIT) as Hexits by (intros v Hin; apply list_elem_of_filter in Hin as [(_ & ? & ?) Hin]; apply elem_of_seq in Hin; split; [lia|done]).
  intros pc Hpc. split; [apply (reachable_mask_spec succ Hrange ltac:(lia)); [lia|apply forallb_lookup; [done|lia]]|].
  assert (verifier_can_reach_exit_mask succ (verifier_reachable_mask succ) exits !!! pc = true) as Hc.
  { destruct (verifier_can_reach_exit_mask succ (verifier_reachable_mask succ) exits !!! pc) eqn:E; [done|]. rewrite <-Ex. apply existsb_exists. exists pc. split; [apply in_seq; lia|]. rewrite E, (forallb_lookup _ pc Er) by lia. done. }
  assert (Forall (fun v => (v < length succ)%nat) exits) as Hfe by (apply Forall_forall; intros v Hin; apply (Hexits v Hin)). apply (exit_mask_spec succ Hrange ltac:(lia) (verifier_reachable_mask succ) exits pc Hm Er Hfe) in Hc as (x & Hx & Hp); [|lia]. destruct (Hexits x Hx) as (Hxl & Hc & Ho). destruct (lookup_lt_is_Some_2 p x ltac:(lia)) as [insn Ei]. exists x, insn. split; [done|]. split; [done|].
  assert (decoded !! x = Some (decode_instruction insn)) as Edx by (rewrite (a_decode _ _ _ _ Ha), list_lookup_fmap, Ei; done). by rewrite (list_lookup_total_correct _ _ _ Edx) in Hc, Ho.
Qed.

(** ** What a run may do to the maps *)
Section MapsKept.
Context {M : Type} `{BpfMaps M} (env : Env) (P : M -> Prop).
Context (Hupdate : forall id k v f m, P m -> P (map_update_elem id k v f m).1) (Hdelete : forall id k m, P m -> P (map_delete_elem id k m).1).
Lemma call_keeps_maps f vm m vm' m' v : builtin_call env f vm m = inl (vm', m', v) -> P m -> P m'.
Proof.
  unfold builtin_call. intros E Hp. destruct (f =? 1); [destruct (read_stack_bytes _ _ _); [|done]; destruct (map_lookup_elem _ _ _); by simplify_eq|]. destruct (f =? 2).
  { destruct (read_stack_bytes (registers vm !!! 2%nat) _ _); [|done]. destruct (read_stack_bytes _ _ _); [|done]. match type of E with context [map_update_elem ?i ?k ?v ?f m] => pose proof (Hupdate i k v f m Hp) as Hu; destruct (map_update_elem i k v f m) end. by simplify_eq. }
  destruct (f =? 3).
  { destruct (read_stack_bytes _ _ _); [|done]. match type of E with context [map_delete_elem ?i ?k m] => pose proof (Hdelete i k m Hp) as Hu; destruct (map_delete_elem i k m) end. by simplify_eq. }
  repeat match type of E with context [f =? ?k] => destruct (f =? k); [by simplify_eq|] end. done.
Qed.
Definition turn_maps (t : turn (M := M)) : M := match t with Go _ m _ => m | Stop _ m _ => m end.
Lemma next_insn_maps vm m pc : turn_maps (next_insn vm m pc) = m.
Proof. unfold next_insn. by destruct (_ <? _). Qed.
Lemma goto_maps d vm m pc : turn_maps (goto d vm m pc) = m.
Proof. unfold goto. by destruct (checked_jump_target _ _ _). Qed.
Lemma jump_keeps_maps d vm m pc t : exec_jump env d vm m pc = Some t -> P m -> P (turn_maps t).
Proof.
  unfold exec_jump. intros E Hp. destruct (op d =? BPF_JA); [simplify_eq; by rewrite goto_maps|]. destruct (existsb _ _); [destruct (jump_taken d vm) as [[]|]; simplify_eq/=; by rewrite ?goto_maps, ?next_insn_maps|]. destruct (op d =? BPF_CALL).
  - destruct (builtin_call env (imm d) vm m) as [[[vm' m'] v]|] eqn:Ec; [|by simplify_eq]. destruct (set_reg 0 v vm'); simplify_eq/=. rewrite next_insn_maps. by apply (call_keeps_maps _ _ _ _ _ _ Ec).
  - destruct (op d =? BPF_EXIT); [destruct (reg 0 vm); by simplify_eq/=|by simplify_eq].
Qed.
Lemma interpret_keeps_maps vm m pc t : interpret env vm m pc = Some t -> P m -> P (turn_maps t).
Proof.
  unfold interpret. intros E Hp. destruct (program vm !! pc) as [insn|]; [|destruct (reg 0 vm); by simplify_eq/=]. cbv zeta in E. set (d := decode_instruction insn) in *.
  destruct (class d =? BPF_LD); [destruct (exec_ld _ _); cbn [mbind option_bind] in E; [|done]; injection E as <-; by rewrite next_insn_maps|]. assert (forall r : option (result EbpfVm), (x ← r; Some (match x with inl vm' => next_insn vm' m pc | inr e => Stop (count_insn vm) m (inr e) end)) = Some t -> P (turn_maps t)) as Ha.
  { clear E. intros [[|]|] Ex; cbn [mbind option_bind] in Ex; [|by simplify_eq|done]. injection Ex as <-. by rewrite next_insn_maps. }
  destruct (class d =? BPF_ALU); [by apply (Ha _ E)|]. destruct (class d =? BPF_LDX); [by apply (Ha _ E)|]. destruct (class d =? BPF_STX); [by apply (Ha _ E)|]. destruct (class d =? BPF_JMP); [by apply (jump_keeps_maps _ _ _ _ _ E)|by simplify_eq].
Qed.
Lemma run_keeps_maps fuel vm m pc vm' m' r : run env fuel vm m pc = Some (Some (vm', m', r)) -> P m -> P m'.
Proof.
  revert vm m pc. induction fuel as [|fuel IH]; intros vm m pc; cbn [run]; [done|]. destruct (interpret env vm m pc) as [t|] eqn:E; [|done]. intros Er Hp. pose proof (interpret_keeps_maps _ _ _ _ E Hp) as Ht. destruct t as [vm1 m1 pc1|vm1 m1 r1]; cbn [turn_maps] in Ht; [by apply (IH _ _ _ Er)|by simplify_eq].
Qed.
Lemma execute_keeps_maps jit ctx vm m vm' m' r : execute env jit ctx vm m = Some (vm', m', r) -> P m -> P m'.
Proof.
  unfold execute. intros E Hp. destruct (if verified vm then _ else _); [|by simplify_eq]. destruct (jit_program (start_vm ctx vm)) as [q|]; [destruct (jit q ctx); cbn [mbind option_bind] in E; by simplify_eq|]. destruct (run env _ _ _ _) as [[[[vm1 m1] r1]|]|] eqn:Er; [|done|done]. cbn [default from_option id] in E. injection E as -> -> ->. by apply (run_keeps_maps _ _ _ _ _ _ _ Er).
Qed.
End MapsKept.
(** *** A run does not compile *)
Lemma set_reg_jit r v vm vm' : set_reg r v vm = Some vm' -> jit_program vm' = jit_program vm.
Proof. unfold set_reg. destruct (_ <? _)%nat; [|done]. by intros [= <-]. Qed.
Lemma bind_set_jit {A} r v vm (f : EbpfVm -> A) y : (vm' ← set_reg r v vm; Some (f vm')) = Some y -> exists vm', y = f vm' /\ jit_program vm' = jit_program vm.
Proof. destruct (set_reg r v vm) as [vm'|] eqn:E; cbn [mbind option_bind]; [|done]. intros [= <-]. exists vm'. split; [done|]. by apply set_reg_jit in E. Qed.
Lemma alu_jit d vm vm' : exec_alu d vm = Some (inl vm') -> jit_program vm' = jit_program vm.
Proof.
  assert (forall v, (vm' ← set_reg (dst d) v vm; Some (inl vm' : result EbpfVm)) = Some (inl vm') -> jit_program vm' = jit_program vm) as Hs by (intros v E; apply bind_set_jit in E as (w & [= ->] & ?); done).
  unfold exec_alu. cbv zeta. destruct (operand d vm) as [v|], (reg (dst d) vm) as [x|]; cbn [mbind option_bind]; repeat match goal with |- (if ?b then _ else _) = _ -> _ => destruct b end; try done; apply Hs.
Qed.
Lemma ldx_jit d vm vm' : exec_ldx d vm = Some (inl vm') -> jit_program vm' = jit_program vm.
Proof. unfold exec_ldx. destruct (reg (src d) vm); cbn [mbind option_bind]; [|done]. destruct (memory_read _ _ _); [|done]. intros E. by apply bind_set_jit in E as (w & [= ->] & ?). Qed.
Lemma stx_jit d vm vm' : exec_stx d vm = Some (inl vm') -> jit_program vm' = jit_program vm.
Proof. unfold exec_stx. destruct (reg (dst d) vm), (reg (src d) vm); cbn [mbind option_bind]; try done. unfold memory_write. repeat case_match; try done. by intros [= <-]. Qed.
Section JitKept.
Context {M : Type} `{BpfMaps M} (env : Env).
Definition turn_vm (t : turn (M := M)) : EbpfVm := match t with Go vm _ _ => vm | Stop vm _ _ => vm end.
Lemma next_insn_vm vm (m : M) pc : turn_vm (next_insn vm m pc) = vm.
Proof. unfold next_insn. by destruct (_ <? _). Qed.
Lemma goto_vm d vm (m : M) pc : turn_vm (goto d vm m pc) = vm.
Proof. unfold goto. by destruct (checked_jump_target _ _ _). Qed.
Lemma call_jit f vm (m : M) vm' m' v : builtin_call env f vm m = inl (vm', m', v) -> jit_program vm' = jit_program vm.
Proof.
  unfold builtin_call. intros E. destruct (f =? 1); [destruct (read_stack_bytes _ _ _); [|done]; destruct (map_lookup_elem _ _ _); by simplify_eq|]. destruct (f =? 2).
  { destruct (read_stack_bytes (registers vm !!! 2%nat) _ _); [|done]. destruct (read_stack_bytes _ _ _); [|done]. destruct (map_update_elem _ _ _ _ _). by simplify_eq. }
  destruct (f =? 3); [destruct (read_stack_bytes _ _ _); [|done]; destruct (map_delete_elem _ _ _); by simplify_eq|].
  repeat match type of E with context [f =? ?k] => destruct (f =? k); [by simplify_eq|] end. done.
Qed.
Lemma jump_jit d vm (m : M) pc t : exec_jump env d vm m pc = Some t -> jit_program (turn_vm t) = jit_program vm.
Proof.
  unfold exec_jump. intros E. destruct (op d =? BPF_JA); [simplify_eq; by rewrite goto_vm|]. destruct (existsb _ _); [destruct (jump_taken d vm) as [[]|]; simplify_eq/=; by rewrite ?goto_vm, ?next_insn_vm|]. destruct (op d =? BPF_CALL).
  - destruct (builtin_call env (imm d) vm m) as [[[vm' m'] v]|] eqn:Ec; [|by simplify_eq]. apply bind_set_jit in E as (w & -> & Hw). rewrite next_insn_vm, Hw. by apply (call_jit _ _ _ _ _ _ Ec).
  - destruct (op d =? BPF_EXIT); [destruct (reg 0 vm); by simplify_eq/=|by simplify_eq].
Qed.
Lemma interpret_jit vm (m : M) pc t : interpret env vm m pc = Some t -> jit_program (turn_vm t) = jit_program vm.
Proof.
  unfold interpret. intros E. destruct (program vm !! pc) as [insn|]; [|destruct (reg 0 vm); by simplify_eq/=]. cbv zeta in E. set (d := decode_instruction insn) in *. change (jit_program vm) with (jit_program (count_insn vm)). set (vm1 := count_insn vm) in *. clearbody vm1 d.
  destruct (class d =? BPF_LD).
  { unfold exec_ld in E. cbv zeta in E. destruct (_ && _); [destruct (0 <? _); [apply bind_set_jit in E as (w & -> & Hw); by rewrite next_insn_vm|]|]; cbn [mbind option_bind] in E; injection E as <-; by rewrite next_insn_vm. }
  assert (forall r : option (result EbpfVm), (forall vm', r = Some (inl vm') -> jit_program vm' = jit_program vm1) -> (x ← r; Some (match x with inl vm' => next_insn vm' m pc | inr e => Stop vm1 m (inr e) end)) = Some t -> jit_program (turn_vm t) = jit_program vm1) as Ha.
  { clear E. intros [[vm'|]|] Hr Ex; cbn [mbind option_bind] in Ex; [|by simplify_eq|done]. injection Ex as <-. rewrite next_insn_vm. by apply Hr. }
  destruct (class d =? BPF_ALU); [apply (Ha _ (fun vm' => alu_jit d vm1 vm') E)|]. destruct (class d =? BPF_LDX); [apply (Ha _ (fun vm' => ldx_jit d vm1 vm') E)|]. destruct (class d =? BPF_STX); [apply (Ha _ (fun vm' => stx_jit d vm1 vm') E)|]. destruct (class d =? BPF_JMP); [by apply (jump_jit _ _ _ _ _ E)|by simplify_eq].
Qed.
Lemma run_jit fuel vm (m : M) pc vm' m' r : run env fuel vm m pc = Some (Some (vm', m', r)) -> jit_program vm' = jit_program vm.
Proof.
  revert vm m pc. induction fuel as [|fuel IH]; intros vm m pc; cbn [run]; [done|]. destruct (interpret env vm m pc) as [t|] eqn:E; [|done]. intros Er. pose proof (interpret_jit _ _ _ _ E) as Ht. destruct t as [vm1 m1 pc1|vm1 m1 r1]; cbn [turn_vm] in Ht; [by rewrite (IH _ _ _ Er)|by simplify_eq].
Qed.
Lemma execute_jit jit ctx vm (m : M) vm' m' r : execute env jit ctx vm m = Some (vm', m', r) -> jit_program vm' = jit_program vm.
Proof.
  unfold execute. intros E. destruct (if verified vm then _ else _); [|by simplify_eq]. destruct (jit_program (start_vm ctx vm)) as [q|] eqn:Eq; [destruct (jit q ctx); cbn [mbind option_bind] in E; by simplify_eq|]. destruct (run env _ _ _ _) as [[[[vm1 m1] r1]|]|] eqn:Er; [|done|done]. cbn [default from_option id] in E. injection E as -> -> ->. by apply run_jit in Er.
Qed.
End JitKept.

(** ** Examples *)
Definition MOVK (r v : Z) : Z := encode_insn (BPF_ALU + BPF_MOV) r 0 0 v.
Definition MOVX (r q : Z) : Z := encode_insn (BPF_ALU + BPF_MOV + BPF_SRC_X) r q 0 0.
Definition ADDK (r v : Z) : Z := encode_insn (BPF_ALU + BPF_ADD) r 0 0 v.
Definition EXIT : Z := encode_insn (BPF_JMP + BPF_EXIT) 0 0 0 0.
Definition STXDW (d s o : Z) : Z := encode_insn (BPF_STX + BPF_DW) d s o 0.
Definition LDXDW (d s o : Z) : Z := encode_insn (BPF_LDX + BPF_DW) d s o 0.
Definition JEQK (r v o : Z) : Z := encode_insn (BPF_JMP + BPF_JEQ) r 0 o v.
Definition CALL (f : Z) : Z := encode_insn (BPF_JMP + BPF_CALL) 0 0 0 f.
(** Maps whose lookups find the bytes of [v]. *)
Record OneValue := mkOne { one_value : option (list Z) }.
#[export] Instance one_maps : BpfMaps OneValue := { map_lookup_elem _ _ m := one_value m; map_update_elem _ _ _ _ m := (m, true); map_delete_elem _ _ m := (m, false) }.
Definition env0 : Env := mkEnv (fun _ => 0) (fun _ => 0) (fun _ => 0).
Definition run_once (p : list Z) (m : OneValue) : option (result Z) := (fun '(_, _, r) => r) <$> execute env0 (fun _ _ => Some (inr JitError)) 0xffff800000000000 (ebpf_vm_new p 1) m.
(** Stores a value below the frame pointer, loads it back and returns it, on two paths. *)
Definition spill_program : list Z := [MOVK 0 7; MOVX 2 10; ADDK 2 (-8); STXDW 2 0 0; MOVK 2 0; JEQK 0 9 1; MOVK 0 3; MOVX 0 10; ADDK 0 (-8); LDXDW 3 0 0; MOVX 0 3; EXIT].
Definition spill_states : list (option VerifierState) := match verify_states spill_program with inl st => st | inr _ => [] end.
Lemma spill_checked : verify_states spill_program = inl spill_states /\ no_lookup spill_program = true.
Proof. by vm_compute. Qed.
Example spill_runs : run_once spill_program (mkOne None) = Some (inl 7).
Proof. by vm_compute. Qed.
(** At a join a pointer into the stack gets offset 0 even when both paths agree on another offset. *)
Example merge_loses_offset : verifier_merge_reg_state (mkRS StackPtr (-8)) (mkRS StackPtr (-8)) = mkRS StackPtr 0.
Proof. done. Qed.
(** So a program is accepted whose store lies below the stack on the path that is taken. *)
Definition join_program : list Z := [MOVK 0 0; MOVX 2 10; JEQK 0 1 1; ADDK 2 (-512); ADDK 2 (-8); STXDW 2 0 0; EXIT].
Example join_accepted_and_fails : verify_program join_program 1 = inl tt /\ run_once join_program (mkOne None) = Some (inr MemoryAccess).
Proof. by vm_compute. Qed.
(** A lookup writes what it finds over the stack; a pointer kept there is still taken for a pointer. *)
Definition lookup_program : list Z :=
  [MOVX 6 10; ADDK 6 (-64); MOVX 0 10; STXDW 6 0 0; MOVK 0 0; MOVX 2 10; ADDK 2 (-8); MOVK 1 1; CALL 1; MOVX 0 6; LDXDW 3 0 0; MOVX 0 3; ADDK 0 (-8); MOVK 7 5; MOVX 2 0; MOVK 0 0; STXDW 2 0 0; EXIT].
Example lookup_clobbers_pointer : verify_program lookup_program 1 = inl tt /\ run_once lookup_program (mkOne (Some [0; 0; 1; 0; 0; 0; 0; 0])) = Some (inr MemoryAccess) /\ run_once lookup_program (mkOne None) = Some (inl 0).
Proof. by vm_compute. Qed.
(** Loads from the context are accepted, but the machine addresses only its stack. *)
Example context_load_fails : verify_program [MOVX 0 1; LDXDW 3 0 0; MOVX 0 3; EXIT] 1 = inl tt /\ run_once [MOVX 0 1; LDXDW 3 0 0; MOVX 0 3; EXIT] (mkOne None) = Some (inr MemoryAccess).
Proof. by vm_compute. Qed.
(** The source register is the high byte of the offset: no load can use the frame pointer, nor any base but register 0 with an offset below 256. *)
Example source_is_offset : off (decode_instruction (LDXDW 0 10 0)) = 2560 /\ verify_program [MOVK 0 0; STXDW 10 0 (-8); EXIT] 1 = inr InvalidRegister.
Proof. by vm_compute. Qed.
(** The program the module offers as an example is rejected: its exit carries an immediate. *)
Example simple_program_rejected : verify_program create_simple_program 1 = inr VerifierRejected.
Proof. by vm_compute. Qed.
(** The count of instructions is never reset, so a program that was run often enough fails for good. *)
Example count_exhausts : let vm := mkVm (replicate 11 0) (replicate 512 0) [MOVK 0 1; EXIT] 1 true 1000000 None in (fun '(_, _, r) => r) <$> execute env0 (fun _ _ => Some (inr JitError)) 0 vm (mkOne None) = Some (inr InfiniteLoop).
Proof. by vm_compute. Qed.
Lemma verified_terminates_witness : exists vm' m' r, execute env0 (fun _ _ => Some (inr JitError)) 0 (ebpf_vm_new spill_program 1) (mkOne None) = Some (vm', m', r).
Proof.
  destruct (verified_terminates env0 (fun _ _ => Some (inr JitError)) spill_program 1 0 (ebpf_vm_new spill_program 1) (mkOne None)) as (vm' & m' & r & E & _); [vm_compute; reflexivity|reflexivity|reflexivity|reflexivity|vm_compute; split; [discriminate|reflexivity]|]. exists vm', m', r. exact E.
Defined.
Lemma verified_returns_witness : exists vm' m' v, execute env0 (fun _ _ => Some (inr JitError)) 0 (ebpf_vm_new spill_program 1) (mkOne None) = Some (vm', m', inl v) /\ insn_count vm' <= 12.
Proof.
  apply (verified_returns env0 (fun _ _ => Some (inr JitError)) spill_program 1 spill_states 0 (ebpf_vm_new spill_program 1) (mkOne None)); [vm_compute; reflexivity|vm_compute; reflexivity|vm_compute; reflexivity|reflexivity|reflexivity|reflexivity|reflexivity|vm_compute; discriminate|vm_compute; discriminate].
Defined.
Definition divide_program : list Z := [MOVK 0 1; MOVK 2 0; encode_insn (BPF_ALU + BPF_DIV + BPF_SRC_X) 0 2 0 0; EXIT].
Definition divide_states : list (option VerifierState) := match verify_states divide_program with inl st => st | inr _ => [] end.
Definition divide_vm (n : Z) (r0 : Z) : EbpfVm := mkVm [r0; 0; 0; 0; 0; 0; 0; 0; 0; 0; 512] (replicate 512 0) divide_program 1 true n None.
Lemma verifier_sound_witness : exists s insn, divide_states !!! 2%nat = Some s /\ divide_program !! 2%nat = Some insn /\ may_fail s (decode_instruction insn) CallError.
Proof.
  apply (verifier_sound env0 divide_program divide_states 0 (ebpf_vm_new divide_program 1) (mkOne None) (divide_vm 2 1) (mkOne None) 2 (divide_vm 3 1) (mkOne None) CallError); [vm_compute; reflexivity|vm_compute; reflexivity|vm_compute; reflexivity|reflexivity|reflexivity| |vm_compute; reflexivity].
  apply (reaches_step env0 _ _ _ (divide_vm 1 1) (mkOne None) 1); [|vm_compute; reflexivity].
  apply (reaches_step env0 _ _ _ (divide_vm 0 0) (mkOne None) 0); [apply reaches_here|vm_compute; reflexivity].
Defined.
End Ebpf.
