(* ===== verification/EbpfMaps.v ===== *)
(** * eBPF: maps

    Models [src/src/net/ebpf_maps.rs]: the map types behind the trait [BpfMapOps], the
    ring buffer, and the registry of maps and ring buffers by number, with
    which the machine of [Ebpf] is instantiated.

    The trait is the class [BpfMapOps]; what every implementation promises is the class
    [BpfMapSpec], stated on the contents of a map as a finite function: lookups, updates
    (with the cause of every refusal), deletions and iteration.  The registry and the
    machine are verified against that interface.

    [maps_refine]: the boxed maps of the registry satisfy the interface.
    [lru_refines]: the LRU map is a queue of keys by their last update.  [ringbuf_fifo]: the
    ring buffer is a queue of bytes as long as it is never filled to the brim.
    [programs_keep_maps]: no program breaks a map. *)
From S2P Require Import Prelude Ebpf.
Import Ebpf.

Module EbpfMaps.

Inductive BpfMapType := Unspec | Hash | Array | ProgArray | PerfEventArray | PerCpuHash | PerCpuArray | StackTrace | CgroupArray | LruHash | LruPerCpuHash | LpmTrie | ArrayOfMaps | HashOfMaps | Devmap | Sockmap | Cpumap | Xskmap | Sockhash | CgroupStorage | ReuseportSockarray | PerCpuCgroupStorage | Queue | Stack | SkStorage | DevmapHash | StructOps | Ringbuf | InodeStorage | TaskStorage.
#[export] Instance BpfMapType_eq_dec : EqDecision BpfMapType.
Proof. solve_decision. Defined.
Definition BPF_NOEXIST : Z := 1.
Definition BPF_EXIST : Z := 2.
Definition BPF_MAP_MAX_ENTRIES : Z := Z.shiftl 1 24.
Inductive BpfMapError := InvalidType | InvalidKeySize | InvalidValueSize | InvalidMaxEntries | NotFound | AlreadyExists | Full | PermissionDenied | OutOfMemory.
Abbreviation bytes := (list Z).
Abbreviation res A := (A + BpfMapError)%type.
Definition flag (f bit : Z) : bool := negb (Z.land f bit =? 0).
Definition len (l : bytes) : Z := Z.of_nat (length l).

(** The keys of a [BTreeMap<Vec<u8>, _>] in order. *)
Fixpoint bytes_leb (a b : bytes) : bool :=
  match a, b with
  | [], _ => true
  | _ :: _, [] => false
  | x :: a', y :: b' => if x <? y then true else if y <? x then false else bytes_leb a' b'
  end.
Definition bytes_le (a b : bytes) : Prop := bytes_leb a b = true.
#[export] Instance bytes_le_dec a b : Decision (bytes_le a b) := decide (bytes_leb a b = true).
Definition keys {A} (m : gmap bytes A) : list bytes := merge_sort bytes_le (elements (dom m)).
(** The loop of [get_next_key]. *)
Fixpoint key_after (found : bool) (k : bytes) (l : list bytes) : option bytes :=
  match l with
  | [] => None
  | existing :: l' => if found then Some existing else key_after (bool_decide (existing = k)) k l'
  end.
Definition next_key {A} (key : option bytes) (m : gmap bytes A) : option bytes :=
  match key with None => head (keys m) | Some k => key_after false k (keys m) end.

(** ** The trait *)
Class BpfMapOps (A : Type) := {
  map_type : A -> BpfMapType;
  key_size : A -> Z;
  value_size : A -> Z;
  max_entries : A -> Z;
  entry_count : A -> Z;
  ops_lookup : bytes -> A -> option bytes;
  ops_update : bytes -> bytes -> Z -> A -> A * res unit;
  ops_delete : bytes -> A -> A * res unit;
  ops_next_key : option bytes -> A -> option bytes }.

(** *** Hash maps *)
Record BpfHashMap := mkHash { h_key_size : Z; h_value_size : Z; h_max_entries : Z; h_data : gmap bytes bytes }.
Definition hash_new (ks vs mx : Z) : BpfHashMap := mkHash ks vs mx ∅.
Definition hash_set (d : gmap bytes bytes) (h : BpfHashMap) : BpfHashMap := mkHash (h_key_size h) (h_value_size h) (h_max_entries h) d.
Definition hash_update (key value : bytes) (flags : Z) (h : BpfHashMap) : BpfHashMap * res unit :=
  if negb (len key =? h_key_size h) || negb (len value =? h_value_size h) then (h, inr InvalidKeySize)
  else
    let exists_ := bool_decide (is_Some (h_data h !! key)) in
    if flag flags BPF_NOEXIST && exists_ then (h, inr AlreadyExists)
    else if flag flags BPF_EXIST && negb exists_ then (h, inr NotFound)
    else if negb exists_ && (h_max_entries h <=? Z.of_nat (size (h_data h))) then (h, inr Full)
    else (hash_set (<[key := value]> (h_data h)) h, inl tt).
Definition hash_delete (key : bytes) (h : BpfHashMap) : BpfHashMap * res unit :=
  match h_data h !! key with Some _ => (hash_set (delete key (h_data h)) h, inl tt) | None => (h, inr NotFound) end.
#[export] Instance hash_ops : BpfMapOps BpfHashMap := {
  map_type _ := Hash; key_size := h_key_size; value_size := h_value_size; max_entries := h_max_entries; entry_count h := Z.of_nat (size (h_data h)) mod u32_mod;
  ops_lookup key h := h_data h !! key; ops_update := hash_update; ops_delete := hash_delete; ops_next_key key h := next_key key (h_data h) }.

(** *** Arrays *)
Record BpfArrayMap := mkArray { a_value_size : Z; a_data : list bytes; a_initialized : list bool }.
Definition array_new (vs mx : Z) : BpfArrayMap := mkArray vs (replicate (Z.to_nat mx) (replicate (Z.to_nat vs) 0)) (replicate (Z.to_nat mx) false).
Definition key_to_index (key : bytes) (a : BpfArrayMap) : res nat :=
  if len key <? 4 then inr InvalidKeySize
  else let index := of_le (take 4 key) in if Z.of_nat (length (a_data a)) <=? index then inr NotFound else inl (Z.to_nat index).
Definition array_lookup (key : bytes) (a : BpfArrayMap) : option bytes :=
  match key_to_index key a with
  | inl index => if (a_initialized a !!! index : bool) then Some (a_data a !!! index) else Some (replicate (Z.to_nat (a_value_size a)) 0)
  | inr _ => None
  end.
Definition array_update (key value : bytes) (flags : Z) (a : BpfArrayMap) : BpfArrayMap * res unit :=
  match key_to_index key a with
  | inr e => (a, inr e)
  | inl index => if negb (len value =? a_value_size a) then (a, inr InvalidValueSize) else (mkArray (a_value_size a) (<[index := value]> (a_data a)) (<[index := true]> (a_initialized a)), inl tt)
  end.
Definition array_next_key (key : option bytes) (a : BpfArrayMap) : option bytes :=
  match key with
  | None => Some (to_le 4 0)
  | Some k => match key_to_index k a with
      | inr _ => None
      | inl index => if (length (a_data a) <=? index + 1)%nat then None else Some (to_le 4 (Z.of_nat (index + 1)))
      end
  end.
#[export] Instance array_ops : BpfMapOps BpfArrayMap := {
  map_type _ := Array; key_size _ := 4; value_size := a_value_size; max_entries a := Z.of_nat (length (a_data a)) mod u32_mod; entry_count a := Z.of_nat (length (filter (fun b => b = true) (a_initialized a))) mod u32_mod;
  ops_lookup := array_lookup; ops_update := array_update; ops_delete _ a := (a, inr PermissionDenied); ops_next_key := array_next_key }.

(** *** LRU hash maps *)
Record BpfLruHashMap := mkLru { l_key_size : Z; l_value_size : Z; l_max_entries : Z; l_data : gmap bytes (bytes * Z); access_counter : Z }.
Definition lru_new (ks vs mx : Z) : BpfLruHashMap := mkLru ks vs mx ∅ 0.
(** [iter().min_by_key(..)]: the first of the entries with the least time stamp. *)
Definition oldest (m : gmap bytes (bytes * Z)) : option (bytes * Z) :=
  foldl (fun acc k => match m !! k with
    | None => acc
    | Some (_, ts) => match acc with Some (_, best) => if ts <? best then Some (k, ts) else acc | None => Some (k, ts) end
    end) None (keys m).
Definition evict_lru (m : BpfLruHashMap) : BpfLruHashMap :=
  if Z.of_nat (size (l_data m)) <? l_max_entries m then m
  else match oldest (l_data m) with
    | Some (oldest_key, _) => mkLru (l_key_size m) (l_value_size m) (l_max_entries m) (delete oldest_key (l_data m)) (access_counter m)
    | None => m
    end.
Definition lru_update (key value : bytes) (flags : Z) (m : BpfLruHashMap) : BpfLruHashMap * res unit :=
  if negb (len key =? l_key_size m) || negb (len value =? l_value_size m) then (m, inr InvalidKeySize)
  else
    let exists_ := bool_decide (is_Some (l_data m !! key)) in
    if flag flags BPF_NOEXIST && exists_ then (m, inr AlreadyExists)
    else
      let m := if negb exists_ then evict_lru m else m in
      let n := u64_add (access_counter m) 1 in
      (mkLru (l_key_size m) (l_value_size m) (l_max_entries m) (<[key := (value, n)]> (l_data m)) n, inl tt).
Definition lru_delete (key : bytes) (m : BpfLruHashMap) : BpfLruHashMap * res unit :=
  match l_data m !! key with Some _ => (mkLru (l_key_size m) (l_value_size m) (l_max_entries m) (delete key (l_data m)) (access_counter m), inl tt) | None => (m, inr NotFound) end.
#[export] Instance lru_ops : BpfMapOps BpfLruHashMap := {
  map_type _ := LruHash; key_size := l_key_size; value_size := l_value_size; max_entries := l_max_entries; entry_count m := Z.of_nat (size (l_data m)) mod u32_mod;
  ops_lookup key m := fst <$> l_data m !! key; ops_update := lru_update; ops_delete := lru_delete; ops_next_key key m := next_key key (l_data m) }.

(** *** Maps to sockets, devices and CPU queues *)
Record BpfSockmap := mkSock { s_key_size : Z; s_value_size : Z; s_max_entries : Z; s_entries : gmap bytes Z }.
Definition sock_new (ks mx : Z) : BpfSockmap := mkSock ks 4 mx ∅.
Definition sock_set (d : gmap bytes Z) (s : BpfSockmap) : BpfSockmap := mkSock (s_key_size s) (s_value_size s) (s_max_entries s) d.
Definition sock_update (key value : bytes) (flags : Z) (s : BpfSockmap) : BpfSockmap * res unit :=
  if negb (len key =? s_key_size s) then (s, inr InvalidKeySize)
  else if len value <? 4 then (s, inr InvalidValueSize)
  else
    let exists_ := bool_decide (is_Some (s_entries s !! key)) in
    if flag flags BPF_NOEXIST && exists_ then (s, inr AlreadyExists)
    else if negb exists_ && (s_max_entries s <=? Z.of_nat (size (s_entries s))) then (s, inr Full)
    else (sock_set (<[key := of_le (take 4 value)]> (s_entries s)) s, inl tt).
Definition sock_delete (key : bytes) (s : BpfSockmap) : BpfSockmap * res unit :=
  match s_entries s !! key with Some _ => (sock_set (delete key (s_entries s)) s, inl tt) | None => (s, inr NotFound) end.
#[export] Instance sock_ops : BpfMapOps BpfSockmap := {
  map_type _ := Sockmap; key_size := s_key_size; value_size := s_value_size; max_entries := s_max_entries; entry_count s := Z.of_nat (size (s_entries s)) mod u32_mod;
  ops_lookup key s := to_le 4 <$> s_entries s !! key; ops_update := sock_update; ops_delete := sock_delete; ops_next_key key s := next_key key (s_entries s) }.

Record BpfDevmap := mkDev { d_key_size : Z; d_max_entries : Z; d_entries : gmap bytes Z }.
Definition dev_new (mx : Z) : BpfDevmap := mkDev 4 mx ∅.
Definition dev_set (e : gmap bytes Z) (d : BpfDevmap) : BpfDevmap := mkDev (d_key_size d) (d_max_entries d) e.
Definition dev_update (key value : bytes) (flags : Z) (d : BpfDevmap) : BpfDevmap * res unit :=
  if negb (len key =? 4) || (len value <? 4) then (d, inr InvalidKeySize)
  else
    let exists_ := bool_decide (is_Some (d_entries d !! key)) in
    if flag flags BPF_NOEXIST && exists_ then (d, inr AlreadyExists)
    else if negb exists_ && (d_max_entries d <=? Z.of_nat (size (d_entries d))) then (d, inr Full)
    else (dev_set (<[key := of_le (take 4 value)]> (d_entries d)) d, inl tt).
Definition dev_delete (key : bytes) (d : BpfDevmap) : BpfDevmap * res unit :=
  match d_entries d !! key with Some _ => (dev_set (delete key (d_entries d)) d, inl tt) | None => (d, inr NotFound) end.
#[export] Instance dev_ops : BpfMapOps BpfDevmap := {
  map_type _ := Devmap; key_size := d_key_size; value_size _ := 4; max_entries := d_max_entries; entry_count d := Z.of_nat (size (d_entries d)) mod u32_mod;
  ops_lookup key d := to_le 4 <$> d_entries d !! key; ops_update := dev_update; ops_delete := dev_delete; ops_next_key key d := next_key key (d_entries d) }.

Record BpfCpumap := mkCpu { c_max_entries : Z; c_entries : gmap bytes Z }.
Definition cpu_new (mx : Z) : BpfCpumap := mkCpu mx ∅.
Definition cpu_set (e : gmap bytes Z) (c : BpfCpumap) : BpfCpumap := mkCpu (c_max_entries c) e.
Definition cpu_update (key value : bytes) (flags : Z) (c : BpfCpumap) : BpfCpumap * res unit :=
  if negb (len key =? 4) || (len value <? 4) then (c, inr InvalidKeySize)
  else
    let exists_ := bool_decide (is_Some (c_entries c !! key)) in
    if flag flags BPF_NOEXIST && exists_ then (c, inr AlreadyExists)
    else if negb exists_ && (c_max_entries c <=? Z.of_nat (size (c_entries c))) then (c, inr Full)
    else (cpu_set (<[key := of_le (take 4 value)]> (c_entries c)) c, inl tt).
Definition cpu_delete (key : bytes) (c : BpfCpumap) : BpfCpumap * res unit :=
  match c_entries c !! key with Some _ => (cpu_set (delete key (c_entries c)) c, inl tt) | None => (c, inr NotFound) end.
#[export] Instance cpu_ops : BpfMapOps BpfCpumap := {
  map_type _ := Cpumap; key_size _ := 4; value_size _ := 4; max_entries := c_max_entries; entry_count c := Z.of_nat (size (c_entries c)) mod u32_mod;
  ops_lookup key c := to_le 4 <$> c_entries c !! key; ops_update := cpu_update; ops_delete := cpu_delete; ops_next_key key c := next_key key (c_entries c) }.

(** [Box<dyn BpfMapOps>] *)
Inductive BoxedMap := BHash (m : BpfHashMap) | BArray (m : BpfArrayMap) | BLru (m : BpfLruHashMap) | BSock (m : BpfSockmap) | BDev (m : BpfDevmap) | BCpu (m : BpfCpumap).
Definition with_box {R} (b : BoxedMap) (f : forall A, BpfMapOps A -> A -> R) : R :=
  match b with BHash m => f _ _ m | BArray m => f _ _ m | BLru m => f _ _ m | BSock m => f _ _ m | BDev m => f _ _ m | BCpu m => f _ _ m end.
Definition on_box {R} (b : BoxedMap) (f : forall A, BpfMapOps A -> A -> A * R) : BoxedMap * R :=
  match b with
  | BHash m => let '(m, r) := f _ _ m in (BHash m, r)
  | BArray m => let '(m, r) := f _ _ m in (BArray m, r)
  | BLru m => let '(m, r) := f _ _ m in (BLru m, r)
  | BSock m => let '(m, r) := f _ _ m in (BSock m, r)
  | BDev m => let '(m, r) := f _ _ m in (BDev m, r)
  | BCpu m => let '(m, r) := f _ _ m in (BCpu m, r)
  end.
#[export] Instance box_ops : BpfMapOps BoxedMap := {
  map_type b := with_box b (fun _ _ => map_type); key_size b := with_box b (fun _ _ => key_size); value_size b := with_box b (fun _ _ => value_size);
  max_entries b := with_box b (fun _ _ => max_entries); entry_count b := with_box b (fun _ _ => entry_count);
  ops_lookup key b := with_box b (fun _ _ => ops_lookup key); ops_update key value flags b := on_box b (fun _ _ => ops_update key value flags);
  ops_delete key b := on_box b (fun _ _ => ops_delete key); ops_next_key key b := with_box b (fun _ _ => ops_next_key key) }.

(** ** The ring buffer *)
Record BpfRingbuf := mkRb { buffer : bytes; capacity : nat; rb_head : nat; rb_tail : nat; dropped_count : Z }.
Definition ringbuf_new (cap : Z) : BpfRingbuf := let cap := Z.to_nat (2 ^ Z.log2_up cap) in mkRb (replicate cap 0) cap 0 0 0.
Definition available (rb : BpfRingbuf) : nat := (if (rb_tail rb <=? rb_head rb)%nat then rb_head rb - rb_tail rb else capacity rb - rb_tail rb + rb_head rb)%nat.
(** Writes the bytes one by one from position [i] of the data on. *)
Fixpoint put (cap head i : nat) (data buf : bytes) : bytes :=
  match data with [] => buf | byte :: data' => put cap head (S i) data' (<[((head + i) mod cap)%nat := byte]> buf) end.
Definition output (data : bytes) (rb : BpfRingbuf) : BpfRingbuf * res unit :=
  let n := length data in
  if (capacity rb <? n)%nat then (rb, inr OutOfMemory)
  else if (capacity rb <? available rb + n)%nat then (mkRb (buffer rb) (capacity rb) (rb_head rb) (rb_tail rb) (u64_add (dropped_count rb) 1), inr Full)
  else (mkRb (put (capacity rb) (rb_head rb) 0 data (buffer rb)) (capacity rb) ((rb_head rb + n) mod capacity rb)%nat (rb_tail rb) (dropped_count rb), inl tt).
Definition consume (max_len : nat) (rb : BpfRingbuf) : BpfRingbuf * option bytes :=
  if (rb_tail rb =? rb_head rb)%nat then (rb, None)
  else
    let avail := (if (rb_tail rb <? rb_head rb)%nat then rb_head rb - rb_tail rb else capacity rb - rb_tail rb + rb_head rb)%nat in
    let read_len := Nat.min avail max_len in
    (mkRb (buffer rb) (capacity rb) (rb_head rb) ((rb_tail rb + read_len) mod capacity rb)%nat (dropped_count rb), Some ((fun i => buffer rb !!! ((rb_tail rb + i) mod capacity rb)%nat) <$> seq 0 read_len)).

(** ** The registry *)
Record Registry := mkReg { next_map_id : Z; maps : gmap Z BoxedMap; ringbufs : gmap Z BpfRingbuf }.
Definition registry0 : Registry := mkReg 1 ∅ ∅.
Definition set_maps (m : gmap Z BoxedMap) (r : Registry) : Registry := mkReg (next_map_id r) m (ringbufs r).
Definition set_ringbufs (m : gmap Z BpfRingbuf) (r : Registry) : Registry := mkReg (next_map_id r) (maps r) m.
Definition create_map (ty : BpfMapType) (ks vs mx : Z) (r : Registry) : Registry * res Z :=
  if (mx =? 0) || (BPF_MAP_MAX_ENTRIES <? mx) then (r, inr InvalidMaxEntries)
  else
    let map_id := next_map_id r in
    let r := mkReg (u32_add map_id 1) (maps r) (ringbufs r) in
    let add b := (set_maps (<[map_id := b]> (maps r)) r, inl map_id) in
    match ty with
    | Hash => if (ks =? 0) || (vs =? 0) then (r, inr InvalidKeySize) else add (BHash (hash_new ks vs mx))
    | Array => if vs =? 0 then (r, inr InvalidValueSize) else add (BArray (array_new vs mx))
    | LruHash => if (ks =? 0) || (vs =? 0) then (r, inr InvalidKeySize) else add (BLru (lru_new ks vs mx))
    | Ringbuf => (set_ringbufs (<[map_id := ringbuf_new mx]> (ringbufs r)) r, inl map_id)
    | Sockmap => add (BSock (sock_new ks mx))
    | Devmap => add (BDev (dev_new mx))
    | Cpumap => add (BCpu (cpu_new mx))
    | _ => (r, inr InvalidType)
    end.
Definition map_lookup_elem (map_id : Z) (key : bytes) (r : Registry) : option bytes := m ← maps r !! map_id; ops_lookup key m.
Definition map_update_elem (map_id : Z) (key value : bytes) (flags : Z) (r : Registry) : Registry * res unit :=
  match maps r !! map_id with
  | None => (r, inr NotFound)
  | Some m => let '(m, x) := ops_update key value flags m in (set_maps (<[map_id := m]> (maps r)) r, x)
  end.
Definition map_delete_elem (map_id : Z) (key : bytes) (r : Registry) : Registry * res unit :=
  match maps r !! map_id with
  | None => (r, inr NotFound)
  | Some m => let '(m, x) := ops_delete key m in (set_maps (<[map_id := m]> (maps r)) r, x)
  end.
Definition map_get_next_key (map_id : Z) (key : option bytes) (r : Registry) : option bytes := m ← maps r !! map_id; ops_next_key key m.
Definition ringbuf_output (map_id : Z) (data : bytes) (r : Registry) : Registry * res unit :=
  match ringbufs r !! map_id with
  | None => (r, inr NotFound)
  | Some rb => let '(rb, x) := output data rb in (set_ringbufs (<[map_id := rb]> (ringbufs r)) r, x)
  end.
Definition ringbuf_consume (map_id : Z) (max_len : nat) (r : Registry) : Registry * option bytes :=
  match ringbufs r !! map_id with
  | None => (r, None)
  | Some rb => let '(rb, x) := consume max_len rb in (set_ringbufs (<[map_id := rb]> (ringbufs r)) r, x)
  end.
Definition free_map (map_id : Z) (r : Registry) : Registry * bool :=
  match maps r !! map_id with
  | Some _ => (set_maps (delete map_id (maps r)) r, true)
  | None => match ringbufs r !! map_id with Some _ => (set_ringbufs (delete map_id (ringbufs r)) r, true) | None => (r, false) end
  end.
Definition map_info (map_id : Z) (r : Registry) : option (BpfMapType * Z * Z * Z * Z) :=
  match maps r !! map_id with
  | Some m => Some (map_type m, key_size m, value_size m, max_entries m, entry_count m)
  | None => match ringbufs r !! map_id with Some rb => Some (Ringbuf, 0, 0, Z.of_nat (capacity rb) mod u32_mod, Z.of_nat (available rb) mod u32_mod) | None => None end
  end.
(** The maps a program sees. *)
#[export] Instance registry_maps : BpfMaps Registry := {
  Ebpf.map_lookup_elem := map_lookup_elem;
  Ebpf.map_update_elem id key value flags r := let '(r, x) := map_update_elem id key value flags r in (r, match x with inl _ => true | inr _ => false end);
  Ebpf.map_delete_elem id key r := let '(r, x) := map_delete_elem id key r in (r, match x with inl _ => true | inr _ => false end) }.

(** ** What every map promises *)
Definition is_key {A} `{BpfMapOps A} (k : bytes) (m : A) : Prop := Forall is_u8 k /\ len k = key_size m.
Definition shape {A} `{BpfMapOps A} (m : A) : BpfMapType * Z * Z * Z := (map_type m, key_size m, value_size m, max_entries m).
(** Why an update of [m], whose contents are [c], is refused. *)
Definition update_refused {A} `{BpfMapOps A} (c : gmap bytes bytes) (k v : bytes) (f : Z) (m : A) (e : BpfMapError) : Prop :=
  (e = InvalidKeySize \/ e = InvalidValueSize) /\ len v <> value_size m \/
  e = NotFound /\ map_type m = Array /\ c !! k = None \/
  c !! k = None /\ (e = NotFound /\ flag f BPF_EXIST = true \/ e = Full /\ Z.of_nat (size c) = max_entries m) \/
  e = AlreadyExists /\ flag f BPF_NOEXIST = true /\ is_Some (c !! k).
Class BpfMapSpec (A : Type) `{BpfMapOps A} := {
  contents : A -> gmap bytes bytes;
  map_wf : A -> Prop;
  contents_sized m k v : map_wf m -> contents m !! k = Some v -> len k = key_size m /\ len v = value_size m;
  contents_bounded m : map_wf m -> Z.of_nat (size (contents m)) <= max_entries m;
  count_exact m : map_wf m -> map_type m <> Array -> entry_count m = Z.of_nat (size (contents m));
  lookup_spec m k : map_wf m -> is_key k m -> ops_lookup k m = contents m !! k;
  update_keeps m k v f : map_wf m -> map_wf (ops_update k v f m).1 /\ shape (ops_update k v f m).1 = shape m;
  update_spec m k v f : map_wf m -> is_key k m -> Forall is_u8 v ->
    match ops_update k v f m with
    | (m', inl _) => exists gone, contents m' = <[k := take (Z.to_nat (value_size m)) v]> (filter (fun p => Some p.1 <> gone) (contents m)) /\
        forall g, gone = Some g -> map_type m = LruHash /\ contents m !! k = None /\ Z.of_nat (size (contents m)) = max_entries m
    | (m', inr e) => m' = m /\ update_refused (contents m) k v f m e
    end;
  delete_keeps m k : map_wf m -> map_wf (ops_delete k m).1 /\ shape (ops_delete k m).1 = shape m;
  delete_spec m k : map_wf m -> is_key k m ->
    match ops_delete k m with
    | (m', inl _) => is_Some (contents m !! k) /\ contents m' = delete k (contents m)
    | (m', inr e) => m' = m /\ (map_type m = Array \/ e = NotFound /\ contents m !! k = None)
    end;
  iteration m : map_wf m -> exists l, NoDup l /\ (forall k, k ∈ l <-> is_Some (contents m !! k)) /\ ops_next_key None m = head l /\ forall i k, l !! i = Some k -> ops_next_key (Some k) m = l !! S i }.

(** *** Maps from bytes *)
Lemma elem_of_map_keys {A} (m : gmap bytes A) k : k ∈ keys m <-> is_Some (m !! k).
Proof. unfold keys. rewrite merge_sort_Permutation, elem_of_elements. apply elem_of_dom. Qed.
Lemma NoDup_keys {A} (m : gmap bytes A) : NoDup (keys m).
Proof. unfold keys. rewrite merge_sort_Permutation. apply NoDup_elements. Qed.
Lemma key_after_spec k l i : NoDup l -> l !! i = Some k -> key_after false k l = l !! S i.
Proof.
  revert i. induction l as [|x l IH]; intros i Hn; [done|]. inversion Hn as [|? ? Hx Hn']; subst. destruct i as [|i]; cbn [lookup list_lookup key_after]; intros E.
  - injection E as ->. rewrite bool_decide_true by done. by destruct l.
  - rewrite bool_decide_false by (intros ->; apply Hx; by apply list_elem_of_lookup_2 in E). by apply IH.
Qed.
Lemma btree_iteration {A} (m : gmap bytes A) (c : gmap bytes bytes) : dom c = dom m -> exists l, NoDup l /\ (forall k, k ∈ l <-> is_Some (c !! k)) /\ next_key None m = head l /\ forall i k, l !! i = Some k -> next_key (Some k) m = l !! S i.
Proof.
  intros Hd. exists (keys m). split; [apply NoDup_keys|]. split; [|split; [done|]].
  - intros k. rewrite elem_of_map_keys, <-!elem_of_dom. by rewrite Hd.
  - intros i k Hi. apply key_after_spec; [apply NoDup_keys|done].
Qed.
(** *** Words in bytes *)
Lemma to_le_length n v : length (to_le n v) = n.
Proof. unfold to_le. by rewrite length_fmap, length_seq. Qed.
Lemma to_le_cons n v : to_le (S n) v = v mod 256 :: to_le n (v / 256).
Proof.
  unfold to_le. rewrite <-cons_seq, fmap_cons. apply f_equal2; [by rewrite Z.shiftr_0_r|]. rewrite <-fmap_S_seq, <-list_fmap_compose. apply list_fmap_ext. intros i j _. unfold compose. rewrite !Z.shiftr_div_pow2 by lia.
  replace (8 * Z.of_nat (S j)) with (8 + 8 * Z.of_nat j) by lia. rewrite Z.pow_add_r by lia. change (2 ^ 8) with 256. by rewrite Z.div_div by lia.
Qed.
Lemma to_le_of_le l : Forall is_u8 l -> to_le (length l) (of_le l) = l.
Proof.
  induction 1 as [|b l Hb _ IH]; [done|]. unfold is_u8, u8_mod in Hb. cbn [length of_le]. rewrite to_le_cons. f_equal; [rewrite Z.mul_comm, Z_mod_plus_full by done; by apply Z.mod_small|].
  rewrite Z.mul_comm, Z.div_add, (Z.div_small b) by lia. done.
Qed.
Lemma of_le_range l : Forall is_u8 l -> 0 <= of_le l < 256 ^ Z.of_nat (length l).
Proof. induction 1 as [|b l Hb _ IH]; [done|]. unfold is_u8, u8_mod in Hb. cbn [length of_le]. rewrite Nat2Z.inj_succ, Z.pow_succ_r by lia. lia. Qed.
Lemma word_round_trip n v : 0 <= v < 256 ^ Z.of_nat n -> of_le (to_le n v) = v.
Proof.
  revert v. induction n as [|n IH]; intros v Hv; [change (256 ^ Z.of_nat 0) with 1 in Hv; cbn; lia|]. rewrite to_le_cons. cbn [of_le]. rewrite Nat2Z.inj_succ, Z.pow_succ_r in Hv by lia. rewrite IH; [pose proof (Z.div_mod v 256); lia|]. split; [apply Z.div_pos; lia|apply Z.div_lt_upper_bound; lia].
Qed.
Lemma to_le_bytes n v : Forall is_u8 (to_le n v).
Proof. unfold to_le. apply Forall_fmap, Forall_true. intros i. unfold compose, is_u8. apply Z.mod_pos_bound. done. Qed.
(** *** Bounded maps *)
Definition sized {A} (ks mx : Z) (P : A -> Prop) (m : gmap bytes A) : Prop := map_Forall (fun k v => len k = ks /\ P v) m /\ Z.of_nat (size m) <= mx <= BPF_MAP_MAX_ENTRIES.
Lemma sized_empty {A} ks mx (P : A -> Prop) : 0 < mx <= BPF_MAP_MAX_ENTRIES -> sized ks mx P ∅.
Proof. split; [apply map_Forall_empty|]. rewrite map_size_empty. lia. Qed.
Lemma sized_insert {A} ks mx (P : A -> Prop) m k v : sized ks mx P m -> len k = ks -> P v -> is_Some (m !! k) \/ Z.of_nat (size m) < mx -> sized ks mx P (<[k := v]> m).
Proof.
  intros [Hf Hs] Hk Hv Hr. split; [by apply map_Forall_insert_2|]. destruct (m !! k) as [x|] eqn:E.
  - rewrite map_size_insert_Some by (by eexists). done.
  - rewrite map_size_insert_None by done. destruct Hr as [[? ?]|Hr]; [done|]. lia.
Qed.
Lemma sized_delete {A} ks mx (P : A -> Prop) m k : sized ks mx P m -> sized ks mx P (delete k m).
Proof. intros [Hf Hs]. split; [by apply map_Forall_delete|]. rewrite map_size_delete. destruct (m !! k); cbn; lia. Qed.
Lemma sized_count {A} (ks mx : Z) (P : A -> Prop) (m : gmap bytes A) : sized ks mx P m -> Z.of_nat (size m) mod u32_mod = Z.of_nat (size m).
Proof. intros [_ Hs]. apply Z.mod_small. unfold BPF_MAP_MAX_ENTRIES, u32_mod in *. change (Z.shiftl 1 24) with (2 ^ 24) in Hs. lia. Qed.
(** Nothing was evicted. *)
Lemma nothing_gone (k w : bytes) (c : gmap bytes bytes) : exists gone : option bytes, <[k := w]> c = <[k := w]> (filter (fun p => Some p.1 <> gone) c) /\ forall g, gone = Some g -> False.
Proof. exists None. split; [|done]. f_equal. symmetry. apply map_filter_id. by intros. Qed.

Definition hash_wf (h : BpfHashMap) : Prop := 0 <= h_value_size h /\ sized (h_key_size h) (h_max_entries h) (fun v => len v = h_value_size h) (h_data h).
Lemma hash_update_cases k v f h : match hash_update k v f h with
  | (h', inl _) => h' = hash_set (<[k := v]> (h_data h)) h /\ len k = h_key_size h /\ len v = h_value_size h /\ (is_Some (h_data h !! k) \/ Z.of_nat (size (h_data h)) < h_max_entries h)
  | (h', inr e) => h' = h /\ (e = InvalidKeySize /\ (len k <> h_key_size h \/ len v <> h_value_size h) \/ e = AlreadyExists /\ flag f BPF_NOEXIST = true /\ is_Some (h_data h !! k) \/
      h_data h !! k = None /\ (e = NotFound /\ flag f BPF_EXIST = true \/ e = Full /\ h_max_entries h <= Z.of_nat (size (h_data h))))
  end.
Proof.
  unfold hash_update. destruct (Z.eqb_spec (len k) (h_key_size h)) as [E1|E1], (Z.eqb_spec (len v) (h_value_size h)) as [E2|E2]; cbn [negb orb]; try (split; [done|]; left; tauto).
  destruct (h_data h !! k) as [x|] eqn:Ek; [rewrite bool_decide_true by (by eexists)|rewrite bool_decide_false by (by intros [? ?])]; cbn [negb]; rewrite ?andb_true_r, ?andb_false_r; cbn [andb].
  - destruct (flag f BPF_NOEXIST); [split; [done|]; right; left; by eauto|]. split; [done|]. eauto.
  - destruct (flag f BPF_EXIST); [split; [done|]; right; right; eauto|]. destruct (Z.leb_spec (h_max_entries h) (Z.of_nat (size (h_data h)))); [split; [done|]; right; right; eauto|]. eauto.
Qed.
#[export] Instance hash_spec : BpfMapSpec BpfHashMap.
Proof.
  refine (Build_BpfMapSpec _ _ h_data hash_wf _ _ _ _ _ _ _ _ _).
  - intros h k v [_ [Hf _]] E. exact (Hf k v E).
  - intros h [_ [_ Hs]]. cbn [max_entries hash_ops]. lia.
  - intros h [_ Hs] _. exact (sized_count _ _ _ _ Hs).
  - done.
  - intros h k v f [H0 Hs]. cbn [ops_update hash_ops]. pose proof (hash_update_cases k v f h) as Hc. destruct (hash_update k v f h) as [h' []]; cbn [fst]; [destruct Hc as (-> & C1 & C2 & C3)|by destruct Hc as [-> _]]. split; [split; [done|]; by apply sized_insert|done].
  - intros h k v f [H0 [_ Hs]] [_ Hk] _. cbn [ops_update hash_ops]. pose proof (hash_update_cases k v f h) as Hc. destruct (hash_update k v f h) as [h' []].
    + destruct Hc as (-> & C1 & C2 & C3). cbn [hash_set h_data value_size hash_ops]. rewrite take_ge by (unfold len in C2; lia). destruct (nothing_gone k v (h_data h)) as (g & Hg & Hn). exists g. split; [done|]. intros x Hx. by destruct (Hn x).
    + destruct Hc as [-> Hc]. split; [done|]. unfold update_refused. cbn [value_size map_type max_entries key_size hash_ops] in *. destruct Hc as [[-> [?|?]]|[?|[? [?|[? ?]]]]]; [done|tauto|tauto|tauto|]. right; right; left. split; [done|]. right. split; [done|lia].
  - intros h k [H0 Hs]. cbn [ops_delete hash_ops]. unfold hash_delete. destruct (h_data h !! k); [split; [split; [done|]; by apply sized_delete|done]|done].
  - intros h k _ _. cbn [ops_delete hash_ops]. unfold hash_delete. destruct (h_data h !! k) eqn:E; [by split; [eexists|]|]. split; [done|]. right. done.
  - intros h _. cbn [ops_next_key hash_ops]. by apply btree_iteration.
Defined.
(** *** Maps of words *)
Definition words (e : gmap bytes Z) : gmap bytes bytes := to_le 4 <$> e.
Lemma dom_words e : dom (words e) = dom e.
Proof. apply dom_fmap_L. Qed.
Lemma size_words e : size (words e) = size e.
Proof. apply map_size_fmap. Qed.
Lemma words_present e k : is_Some (words e !! k) <-> is_Some (e !! k).
Proof. unfold words. rewrite lookup_fmap. apply fmap_is_Some. Qed.
Lemma words_absent e k : words e !! k = None <-> e !! k = None.
Proof. unfold words. rewrite lookup_fmap. apply fmap_None. Qed.
Lemma words_insert e k v : Forall is_u8 v -> 4 <= len v -> words (<[k := of_le (take 4 v)]> e) = <[k := take 4 v]> (words e).
Proof.
  intros Hv Hl. unfold len in Hl. assert (length (take 4 v) = 4%nat) as E by (rewrite length_take; lia). assert (Forall is_u8 (take 4 v)) as Hf by (by apply Forall_take).
  unfold words. rewrite fmap_insert. f_equal. rewrite <-E at 1. by apply to_le_of_le.
Qed.
Lemma words_sized ks mx e k v : sized ks mx (fun _ => True) e -> words e !! k = Some v -> len k = ks /\ len v = 4.
Proof. intros [Hf _]. unfold words. rewrite lookup_fmap. intros (x & Hx & ->)%fmap_Some. split; [by apply (Hf k x Hx)|]. unfold len. by rewrite to_le_length. Qed.
(** How the updates of the three types end: [ks] and [mx] are the sizes of the map, [set] replaces its entries. *)
Definition word_update {A : Type} (ks mx : Z) (e : gmap bytes Z) (set : gmap bytes Z -> A -> A) (m : A) (k v : bytes) (f : Z) (o : A * res unit) : Prop :=
  match o with
  | (m', inl _) => m' = set (<[k := of_le (take 4 v)]> e) m /\ len k = ks /\ 4 <= len v /\ (is_Some (e !! k) \/ Z.of_nat (size e) < mx)
  | (m', inr x) => m' = m /\ ((x = InvalidKeySize \/ x = InvalidValueSize) /\ (len k <> ks \/ len v < 4) \/ x = AlreadyExists /\ flag f BPF_NOEXIST = true /\ is_Some (e !! k) \/ e !! k = None /\ x = Full /\ mx <= Z.of_nat (size e))
  end.
Lemma word_update_cases {A : Type} (ks mx : Z) (e : gmap bytes Z) (set : gmap bytes Z -> A -> A) m k v f : len k = ks -> 4 <= len v -> word_update ks mx e set m k v f
  (let exists_ := bool_decide (is_Some (e !! k)) in if flag f BPF_NOEXIST && exists_ then (m, inr AlreadyExists) else if negb exists_ && (mx <=? Z.of_nat (size e)) then (m, inr Full) else (set (<[k := of_le (take 4 v)]> e) m, inl tt)).
Proof.
  intros Hk Hv. cbn zeta. destruct (e !! k) as [x|] eqn:Ek; [rewrite bool_decide_true by (by eexists)|rewrite bool_decide_false by (by intros [? ?])]; cbn [negb]; rewrite ?andb_true_r, ?andb_false_r; cbn [andb].
  - destruct (flag f BPF_NOEXIST) eqn:Ef; cbn [word_update]; (split; [done|]); [right; left; by eauto|]. eauto.
  - destruct (Z.leb_spec mx (Z.of_nat (size e))); cbn [word_update]; (split; [done|]); [right; right; by eauto|]. eauto.
Qed.
Lemma sock_update_cases k v f s : word_update (s_key_size s) (s_max_entries s) (s_entries s) sock_set s k v f (sock_update k v f s).
Proof.
  unfold sock_update. destruct (Z.eqb_spec (len k) (s_key_size s)); cbn [negb]; [|split; [done|]; left; tauto]. destruct (Z.ltb_spec (len v) 4); [split; [done|]; left; tauto|]. by apply word_update_cases.
Qed.
Lemma dev_update_cases k v f d : word_update 4 (d_max_entries d) (d_entries d) dev_set d k v f (dev_update k v f d).
Proof.
  unfold dev_update. destruct (Z.eqb_spec (len k) 4), (Z.ltb_spec (len v) 4); cbn [negb orb]; try (split; [done|]; left; tauto). by apply word_update_cases.
Qed.
Lemma cpu_update_cases k v f c : word_update 4 (c_max_entries c) (c_entries c) cpu_set c k v f (cpu_update k v f c).
Proof.
  unfold cpu_update. destruct (Z.eqb_spec (len k) 4), (Z.ltb_spec (len v) 4); cbn [negb orb]; try (split; [done|]; left; tauto). by apply word_update_cases.
Qed.
(** The laws of a map whose entries are words, from the shape of its operations. *)
Section WordMap.
Context {A : Type} `{BpfMapOps A} (entries : A -> gmap bytes Z) (set : gmap bytes Z -> A -> A).
Context (Hget : forall m e, entries (set e m) = e) (Hshape : forall m e, shape (set e m) = shape m).
Context (Hcount : forall m, entry_count m = Z.of_nat (size (entries m)) mod u32_mod) (Hlook : forall m k, ops_lookup k m = to_le 4 <$> entries m !! k) (Hnext : forall m k, ops_next_key k m = next_key k (entries m)).
Context (P : A -> Prop) (HP : forall m e, P m -> P (set e m)) (Hvs : forall m, P m -> value_size m = 4) (Hupd : forall m k v f, P m -> word_update (key_size m) (max_entries m) (entries m) set m k v f (ops_update k v f m)).
Context (Hdel : forall m k, ops_delete k m = match entries m !! k with Some _ => (set (delete k (entries m)) m, inl tt) | None => (m, inr NotFound) end).
Definition word_wf (m : A) : Prop := P m /\ sized (key_size m) (max_entries m) (fun _ => True) (entries m).
Lemma word_wf_set m e : word_wf m -> sized (key_size m) (max_entries m) (fun _ => True) e -> word_wf (set e m).
Proof. intros [Hv _] Hs. pose proof (Hshape m e) as E. unfold shape in E. unfold word_wf. rewrite Hget. injection E as _ -> _ ->. split; [by apply HP|done]. Qed.
Lemma word_spec : BpfMapSpec A.
Proof.
  refine (Build_BpfMapSpec _ _ (fun m => words (entries m)) word_wf _ _ _ _ _ _ _ _ _).
  - intros m k v [Hp Hs] E. rewrite (Hvs m Hp). by apply (words_sized _ _ _ _ _ Hs) in E.
  - intros m [_ [_ Hs]]. rewrite size_words. lia.
  - intros m [_ Hs] _. rewrite size_words, Hcount. exact (sized_count _ _ _ _ Hs).
  - intros m k _ _. rewrite Hlook. unfold words. by rewrite lookup_fmap.
  - intros m k v f [Hv Hs]. pose proof (Hupd m k v f Hv) as Hc. destruct (ops_update k v f m) as [m' []]; cbn [fst word_update] in *; [|by destruct Hc as [-> _]]. destruct Hc as (-> & C1 & C2 & C3). split; [|by apply Hshape]. apply word_wf_set; [done|]. by apply sized_insert.
  - intros m k v f [Hv Hs] [_ Hk] Hb. pose proof (Hupd m k v f Hv) as Hc. destruct (ops_update k v f m) as [m' []]; cbn [word_update] in Hc.
    + destruct Hc as (-> & C1 & C2 & C3). rewrite Hget, (Hvs m Hv). change (Z.to_nat 4) with 4%nat. rewrite (words_insert (entries m) k v Hb C2). destruct (nothing_gone k (take 4 v) (words (entries m))) as (g & Hg & Hn). exists g. split; [done|]. intros x Hx. by destruct (Hn x).
    + destruct Hc as [-> Hc]. split; [done|]. unfold update_refused. rewrite words_absent, words_present, size_words. destruct Hc as [[? [?|?]]|[?|(? & ? & ?)]]; [done|left; split; [done|rewrite (Hvs m Hv); lia]|tauto|]. right; right; left. split; [done|]. right. split; [done|]. destruct Hs as [_ Hs]. lia.
  - intros m k [Hv Hs]. rewrite Hdel. destruct (entries m !! k); cbn [fst]; [split; [apply word_wf_set; [done|by apply sized_delete]|by apply Hshape]|done].
  - intros m k _ _. rewrite Hdel. destruct (entries m !! k) eqn:E; [split; [apply words_present; by eexists|]; rewrite Hget; unfold words; apply fmap_delete|]. split; [done|]. right. by rewrite words_absent.
  - intros m _. destruct (btree_iteration (entries m) (words (entries m)) (dom_words _)) as (l & H1 & H2 & H3 & H4). exists l. rewrite Hnext. split; [done|]. split; [done|]. split; [done|]. intros i k Hi. rewrite Hnext. by apply H4.
Defined.
End WordMap.
#[export] Instance sock_spec : BpfMapSpec BpfSockmap.
Proof. refine (word_spec s_entries sock_set _ _ _ _ _ (fun s => s_value_size s = 4) _ _ _ _); try done. intros m k v f _. apply sock_update_cases. Defined.
#[export] Instance dev_spec : BpfMapSpec BpfDevmap.
Proof. refine (word_spec d_entries dev_set _ _ _ _ _ (fun d => d_key_size d = 4) _ _ _ _); try done. intros m k v f Hk. cbn [key_size dev_ops]. rewrite Hk. apply dev_update_cases. Defined.
#[export] Instance cpu_spec : BpfMapSpec BpfCpumap.
Proof. refine (word_spec c_entries cpu_set _ _ _ _ _ (fun _ => True) _ _ _ _); try done. intros m k v f _. apply cpu_update_cases. Defined.
(** *** LRU maps *)
Lemma oldest_fold (m : gmap bytes (bytes * Z)) l acc : (forall k ts, acc = Some (k, ts) -> exists v, m !! k = Some (v, ts)) ->
  match foldl (fun acc k => match m !! k with
    | None => acc
    | Some (_, ts) => match acc with Some (_, best) => if ts <? best then Some (k, ts) else acc | None => Some (k, ts) end
    end) acc l with
  | None => acc = None /\ forall k, k ∈ l -> m !! k = None
  | Some (k, ts) => (exists v, m !! k = Some (v, ts)) /\ (forall k' v' ts', k' ∈ l -> m !! k' = Some (v', ts') -> ts <= ts') /\ (forall k' ts', acc = Some (k', ts') -> ts <= ts')
  end.
Proof.
  revert acc. induction l as [|x l IH]; intros acc Ha; cbn [foldl].
  - destruct acc as [[k ts]|]; [|split; [done|]; by intros k ?%elem_of_nil]. split; [by apply Ha|]. split; [by intros ? ? ? ?%elem_of_nil|]. intros k' ts' [= <- <-]. done.
  - set (acc' := match m !! x with Some _ => _ | None => _ end). assert (forall k ts, acc' = Some (k, ts) -> exists v, m !! k = Some (v, ts)) as Ha'.
    { intros k ts. subst acc'. destruct (m !! x) as [[v t]|] eqn:Ex; [|by apply Ha]. destruct acc as [[k0 b]|]; [destruct (t <? b); [intros [= <- <-]; by eexists|apply Ha]|intros [= <- <-]; by eexists]. }
    specialize (IH acc' Ha'). destruct (foldl _ acc' l) as [[k ts]|].
    + destruct IH as (H1 & H2 & H3). assert (forall v t, m !! x = Some (v, t) -> ts <= t) as Hx.
      { intros v t Ex. subst acc'. rewrite Ex in H3. destruct acc as [[k0 b]|]; [|by apply (H3 x)]. destruct (Z.ltb_spec t b); [by apply (H3 x)|]. specialize (H3 k0 b eq_refl). lia. }
      split; [done|]. split; [intros k' v' ts' [->|Hin]%elem_of_cons E; [by apply (Hx v')|by apply (H2 k' v')]|]. intros k' ts' ->. subst acc'. destruct (m !! x) as [[v t]|]; [|by apply (H3 k')]. destruct (Z.ltb_spec t ts'); [specialize (H3 x t eq_refl); lia|by apply (H3 k')].
    + destruct IH as [H1 H2]. subst acc'. destruct (m !! x) as [[v t]|] eqn:Ex; [destruct acc as [[k0 b]|]; [by destruct (t <? b)|done]|]. split; [done|]. intros k [->|Hin]%elem_of_cons; [done|by apply H2].
Qed.
Lemma oldest_spec m : m <> ∅ -> exists k v ts, oldest m = Some (k, ts) /\ m !! k = Some (v, ts) /\ forall k' v' ts', m !! k' = Some (v', ts') -> ts <= ts'.
Proof.
  intros Hne. pose proof (oldest_fold m (keys m) None ltac:(done)) as H. unfold oldest. destruct (foldl _ _ _) as [[k ts]|].
  - destruct H as ([v E] & H2 & _). exists k, v, ts. split; [done|]. split; [done|]. intros k' v' ts' E'. apply (H2 k' v' ts'); [apply elem_of_map_keys; by eexists|done].
  - destruct H as [_ H]. destruct (map_choose m Hne) as (k & x & E). exfalso. assert (m !! k = None) as E0 by (apply H, elem_of_map_keys; by eexists). congruence.
Qed.
Definition lru_wf (m : BpfLruHashMap) : Prop := 0 <= l_value_size m /\ 0 < l_max_entries m /\ sized (l_key_size m) (l_max_entries m) (fun p => len p.1 = l_value_size m) (l_data m).
Definition lru_contents (m : BpfLruHashMap) : gmap bytes bytes := fst <$> l_data m.
(** What is removed to make room for [k]. *)
Definition victim (k : bytes) (m : BpfLruHashMap) : option bytes :=
  if bool_decide (is_Some (l_data m !! k)) || (Z.of_nat (size (l_data m)) <? l_max_entries m) then None else fst <$> oldest (l_data m).
Definition without {A} (g : option bytes) (m : gmap bytes A) : gmap bytes A := match g with Some g => delete g m | None => m end.
Lemma lru_update_cases k v f m : lru_wf m -> match lru_update k v f m with
  | (m', inl _) => len k = l_key_size m /\ len v = l_value_size m /\ m' = mkLru (l_key_size m) (l_value_size m) (l_max_entries m) (<[k := (v, u64_add (access_counter m) 1)]> (without (victim k m) (l_data m))) (u64_add (access_counter m) 1)
  | (m', inr e) => m' = m /\ (e = InvalidKeySize /\ (len k <> l_key_size m \/ len v <> l_value_size m) \/ e = AlreadyExists /\ flag f BPF_NOEXIST = true /\ is_Some (l_data m !! k))
  end.
Proof.
  intros Hw. unfold lru_update. destruct (Z.eqb_spec (len k) (l_key_size m)) as [E1|E1], (Z.eqb_spec (len v) (l_value_size m)) as [E2|E2]; cbn [negb orb]; try (split; [done|]; left; tauto).
  unfold victim. destruct (bool_decide (is_Some (l_data m !! k))) eqn:Eb; cbn [negb orb andb]; rewrite ?andb_true_r, ?andb_false_r.
  - apply bool_decide_eq_true in Eb. destruct (flag f BPF_NOEXIST); [split; [done|]; right; by auto|]. by split_and!.
  - split; [done|]. split; [done|]. unfold evict_lru. destruct (Z.of_nat (size (l_data m)) <? l_max_entries m); [done|]. by destruct (oldest (l_data m)) as [[g ts]|].
Qed.
Lemma victim_spec k m : lru_wf m -> match victim k m with
  | Some g => l_data m !! k = None /\ Z.of_nat (size (l_data m)) = l_max_entries m /\ exists v ts, l_data m !! g = Some (v, ts) /\ forall k' v' ts', l_data m !! k' = Some (v', ts') -> ts <= ts'
  | None => is_Some (l_data m !! k) \/ Z.of_nat (size (l_data m)) < l_max_entries m
  end.
Proof.
  intros (_ & H0 & _ & Hs). unfold victim. destruct (decide (is_Some (l_data m !! k))) as [Hk|Hk]; [rewrite bool_decide_true by done; by left|]. rewrite bool_decide_false by done. cbn [orb]. destruct (Z.ltb_spec (Z.of_nat (size (l_data m))) (l_max_entries m)); [by right|].
  destruct (oldest_spec (l_data m)) as (g & v & ts & -> & E & Hm); [intros E; rewrite E, map_size_empty in *; lia|]. cbn. split; [by apply eq_None_not_Some|]. split; [lia|]. by exists v, ts.
Qed.
Lemma lru_room k m : lru_wf m -> let d := without (victim k m) (l_data m) in sized (l_key_size m) (l_max_entries m) (fun p => len p.1 = l_value_size m) d /\ (is_Some (d !! k) \/ Z.of_nat (size d) < l_max_entries m).
Proof.
  intros Hw. pose proof (victim_spec k m Hw) as Hv. destruct Hw as (_ & H0 & Hs). destruct (victim k m) as [g|]; cbn [without]; [|done]. destruct Hv as (Hk & Hsz & v & ts & Hg & _). split; [by apply sized_delete|]. right. rewrite map_size_delete, Hg. cbn. lia.
Qed.
Lemma lru_keeps k v f m : lru_wf m -> lru_wf (lru_update k v f m).1 /\ shape (lru_update k v f m).1 = shape m.
Proof.
  intros Hw. pose proof (lru_update_cases k v f m Hw) as Hc. destruct (lru_update k v f m) as [m' []]; cbn [fst]; [|by destruct Hc as [-> _]]. destruct Hc as (C1 & C2 & ->). split; [|done]. destruct (lru_room k m Hw) as [R1 R2]. destruct Hw as (W1 & W2 & _). split; [done|]. split; [done|]. by apply sized_insert.
Qed.
Lemma without_filter (g : option bytes) (c : gmap bytes bytes) : without g c = filter (fun p => Some p.1 <> g) c.
Proof.
  destruct g as [g|]; cbn [without]; [|symmetry; apply map_filter_id; by intros]. apply map_eq. intros k. rewrite map_lookup_filter. destruct (decide (k = g)) as [->|Hne].
  - rewrite lookup_delete_eq. destruct (c !! g); cbn; [|done]. by case_guard.
  - rewrite lookup_delete_ne by done. destruct (c !! k); cbn; [|done]. case_guard; [done|]. exfalso. naive_solver.
Qed.
#[export] Instance lru_spec : BpfMapSpec BpfLruHashMap.
Proof.
  refine (Build_BpfMapSpec _ _ lru_contents lru_wf _ _ _ _ _ _ _ _ _).
  - intros m k v (_ & _ & Hf & _). unfold lru_contents. rewrite lookup_fmap. intros (x & Hx & ->)%fmap_Some. exact (Hf k x Hx).
  - intros m (_ & _ & _ & Hs). unfold lru_contents. rewrite map_size_fmap. cbn [max_entries lru_ops]. lia.
  - intros m (_ & _ & Hs) _. unfold lru_contents. rewrite map_size_fmap. exact (sized_count _ _ _ _ Hs).
  - intros m k _ _. unfold lru_contents. by rewrite lookup_fmap.
  - intros m k v f Hw. by apply lru_keeps.
  - intros m k v f Hw Hkey _. cbn [ops_update lru_ops]. pose proof (lru_update_cases k v f m Hw) as Hc. destruct (lru_update k v f m) as [m' []].
    + destruct Hc as (C1 & C2 & ->). exists (victim k m). cbn [value_size lru_ops max_entries map_type]. rewrite take_ge by (unfold len in C2; lia). rewrite <-without_filter. unfold lru_contents. cbn [l_data]. rewrite fmap_insert, map_size_fmap, lookup_fmap. split.
      * f_equal. destruct (victim k m); [apply fmap_delete|done].
      * intros g Eg. pose proof (victim_spec k m Hw) as Hv. rewrite Eg in Hv. destruct Hv as (-> & Hs & _). done.
    + destruct Hc as [-> Hc]. split; [done|]. unfold update_refused, lru_contents. rewrite lookup_fmap, fmap_is_Some, fmap_None. cbn [value_size lru_ops]. destruct Hc as [[-> [?|?]]|?]; [|tauto|tauto]. by destruct Hkey.
  - intros m k (W1 & W2 & Hs). cbn [ops_delete lru_ops]. unfold lru_delete. destruct (l_data m !! k); [|done]. split; [split; [done|]; split; [done|]; by apply sized_delete|done].
  - intros m k _ _. cbn [ops_delete lru_ops]. unfold lru_delete, lru_contents. rewrite lookup_fmap. destruct (l_data m !! k) eqn:E; [split; [by eexists|apply fmap_delete]|]. split; [done|]. by right.
  - intros m _. cbn [ops_next_key lru_ops]. apply btree_iteration. apply dom_fmap_L.
Defined.
(** *** Arrays *)
Definition array_value (a : BpfArrayMap) (i : nat) : bytes := if (a_initialized a !!! i : bool) then a_data a !!! i else replicate (Z.to_nat (a_value_size a)) 0.
Definition index_key (i : nat) : bytes := to_le 4 (Z.of_nat i).
Definition array_contents (a : BpfArrayMap) : gmap bytes bytes := list_to_map ((fun i => (index_key i, array_value a i)) <$> seq 0 (length (a_data a))).
Definition array_wf (a : BpfArrayMap) : Prop := 0 <= a_value_size a /\ length (a_initialized a) = length (a_data a) /\ 0 < Z.of_nat (length (a_data a)) <= BPF_MAP_MAX_ENTRIES /\ Forall (fun v => len v = a_value_size a) (a_data a).
Section ArrayMap.
Context (a : BpfArrayMap) (Hw : array_wf a).
Abbreviation n := (length (a_data a)).
Lemma index_range i : (i < n)%nat -> 0 <= Z.of_nat i < 256 ^ 4.
Proof. destruct Hw as (_ & _ & Hn & _). unfold BPF_MAP_MAX_ENTRIES in Hn. change (Z.shiftl 1 24) with (256 ^ 3) in Hn. lia. Qed.
Lemma index_key_inj i j : (i < n)%nat -> (j < n)%nat -> index_key i = index_key j -> i = j.
Proof. intros Hi Hj E. apply (f_equal of_le) in E. unfold index_key in E. rewrite !word_round_trip in E by (by apply index_range). lia. Qed.
Lemma index_keys_NoDup : NoDup (index_key <$> seq 0 n).
Proof. apply NoDup_fmap_2_strong; [|apply NoDup_seq]. intros i j Hi%elem_of_seq Hj%elem_of_seq. apply index_key_inj; lia. Qed.
Lemma array_contents_spec k v : array_contents a !! k = Some v <-> exists i, (i < n)%nat /\ k = index_key i /\ v = array_value a i.
Proof.
  unfold array_contents. rewrite <-elem_of_list_to_map by (rewrite <-list_fmap_compose; exact index_keys_NoDup). rewrite list_elem_of_fmap. split.
  - intros (i & [= -> ->] & Hi%elem_of_seq). exists i. split; [lia|done].
  - intros (i & Hi & -> & ->). exists i. split; [done|]. apply elem_of_seq. lia.
Qed.
Lemma array_contents_size : size (array_contents a) = n.
Proof. unfold array_contents. rewrite map_size_list_to_map by (rewrite <-list_fmap_compose; exact index_keys_NoDup). by rewrite length_fmap, length_seq. Qed.
Lemma array_index i : (i < n)%nat -> key_to_index (index_key i) a = inl i.
Proof.
  intros Hi. unfold key_to_index, len. unfold index_key at 1. rewrite to_le_length. change (Z.of_nat 4 <? 4) with false. cbn iota. rewrite take_ge by (unfold index_key; rewrite to_le_length; lia). unfold index_key. rewrite word_round_trip by (by apply index_range). rewrite (proj2 (Z.leb_gt _ _)) by lia. by rewrite Nat2Z.id.
Qed.
Lemma array_index_cases k : Forall is_u8 k -> len k = 4 -> (exists i, (i < n)%nat /\ k = index_key i) \/ key_to_index k a = inr NotFound /\ array_contents a !! k = None.
Proof.
  intros Hb Hk. assert (length k = 4%nat) as Hl by (unfold len in Hk; lia). pose proof (of_le_range k Hb) as Hr. rewrite Hl in Hr. pose proof (to_le_of_le k Hb) as Ek. rewrite Hl in Ek. destruct (decide (of_le k < Z.of_nat n)) as [Hlt|Hge].
  - left. exists (Z.to_nat (of_le k)). split; [lia|]. unfold index_key. by rewrite Z2Nat.id by lia.
  - right. split; [unfold key_to_index; rewrite Hk, take_ge by lia; change (4 <? 4) with false; cbn iota; by rewrite (proj2 (Z.leb_le _ _)) by lia|]. destruct (array_contents a !! k) as [v|] eqn:E; [|done]. apply array_contents_spec in E as (i & Hi & -> & _). unfold index_key in Hge. rewrite word_round_trip in Hge by (by apply index_range). lia.
Qed.
Lemma array_value_len i : (i < n)%nat -> len (array_value a i) = a_value_size a.
Proof.
  destruct Hw as (H0 & _ & _ & Hf). intros Hi. unfold array_value. destruct (a_initialized a !!! i); [|unfold len; rewrite length_replicate; lia]. rewrite Forall_lookup in Hf. destruct (lookup_lt_is_Some_2 _ _ Hi) as [v E]. rewrite (list_lookup_total_correct _ _ _ E). by apply (Hf i).
Qed.
Lemma array_value_update i j v : (i < n)%nat -> array_value (mkArray (a_value_size a) (<[i := v]> (a_data a)) (<[i := true]> (a_initialized a))) j = if decide (j = i) then v else array_value a j.
Proof.
  destruct Hw as (_ & Hl & _). intros Hi. unfold array_value. cbn [a_initialized a_data a_value_size]. destruct (decide (j = i)) as [->|Hne].
  - rewrite !list_lookup_total_insert_eq by lia. done.
  - by rewrite !list_lookup_total_insert_ne by done.
Qed.
End ArrayMap.
Lemma array_set_wf a i v : array_wf a -> len v = a_value_size a -> array_wf (mkArray (a_value_size a) (<[i := v]> (a_data a)) (<[i := true]> (a_initialized a))).
Proof. intros (H0 & H1 & H2 & H3) Hv. unfold array_wf. cbn [a_value_size a_data a_initialized]. rewrite !length_insert. split; [done|]. split; [done|]. split; [done|]. by apply Forall_insert. Qed.
Lemma array_keeps k v f a : array_wf a -> array_wf (array_update k v f a).1 /\ shape (array_update k v f a).1 = shape a.
Proof.
  intros Hw. unfold array_update. destruct (key_to_index k a); [|done]. destruct (Z.eqb_spec (len v) (a_value_size a)); cbn [negb fst]; [|done]. split; [by apply array_set_wf|]. unfold shape. cbn. by rewrite length_insert.
Qed.
Lemma array_update_spec k v f a : array_wf a -> is_key k a -> match array_update k v f a with
  | (a', inl _) => array_contents a' = <[k := v]> (array_contents a) /\ len v = a_value_size a
  | (a', inr e) => a' = a /\ update_refused (array_contents a) k v f a e
  end.
Proof.
  intros Hw [Hb Hk]. unfold array_update. destruct (array_index_cases a Hw k Hb Hk) as [(i & Hi & ->)|[-> Hn]]; [|split; [done|]; right; left; done]. rewrite array_index by done. destruct (Z.eqb_spec (len v) (a_value_size a)) as [Hv|Hv]; cbn [negb]; [|split; [done|]; left; tauto]. split; [|done].
  pose proof (array_set_wf a i v Hw Hv) as Hw'. apply map_eq. intros k'. destruct (decide (k' = index_key i)) as [->|Hne]; [rewrite lookup_insert_eq|rewrite lookup_insert_ne by done].
  - apply array_contents_spec; [done|]. exists i. cbn [a_data]. rewrite length_insert, array_value_update, decide_True by done. done.
  - apply option_eq. intros x. rewrite !array_contents_spec by done. cbn [a_data]. rewrite length_insert. split; intros (j & Hj & -> & ->); exists j; (split; [done|]); (split; [done|]); rewrite array_value_update, decide_False by (done || naive_solver); done.
Qed.
#[export] Instance array_spec : BpfMapSpec BpfArrayMap.
Proof.
  refine (Build_BpfMapSpec _ _ array_contents array_wf _ _ _ _ _ _ _ _ _).
  - intros a k v Hw (i & Hi & -> & ->)%array_contents_spec; [|done]. split; [unfold len, index_key; by rewrite to_le_length|by apply array_value_len].
  - intros a Hw. rewrite array_contents_size by done. cbn [max_entries array_ops]. destruct Hw as (_ & _ & Hn & _). unfold BPF_MAP_MAX_ENTRIES, u32_mod in *. change (Z.shiftl 1 24) with (2 ^ 24) in Hn. rewrite Z.mod_small by lia. done.
  - done.
  - intros a k Hw [Hb Hk]. cbn [ops_lookup array_ops]. unfold array_lookup. destruct (array_index_cases a Hw k Hb Hk) as [(i & Hi & ->)|[-> ->]]; [|done]. rewrite array_index by done. symmetry.
    assert (forall b x y, (if b : bool then Some x else Some y) = Some (if b then x else y : bytes)) as -> by (by intros []). apply array_contents_spec; [done|]. by exists i.
  - intros a k v f Hw. by apply array_keeps.
  - intros a k v f Hw Hk _. pose proof (array_update_spec k v f a Hw Hk) as Hs. cbn [ops_update array_ops]. destruct (array_update k v f a) as [a' []]; [|done]. destruct Hs as [-> Hl]. cbn [value_size array_ops]. rewrite take_ge by (unfold len in Hl; lia). destruct (nothing_gone k v (array_contents a)) as (g & Hg & Hn). exists g. split; [done|]. intros x Hx. by destruct (Hn x).
  - done.
  - intros a k _ _. split; [done|]. by left.
  - intros a Hw. exists (index_key <$> seq 0 (length (a_data a))). split; [by apply index_keys_NoDup|]. split.
    + intros k. rewrite list_elem_of_fmap. split; [intros (i & -> & Hi%elem_of_seq); exists (array_value a i); apply array_contents_spec; [done|]; exists i; split; [lia|done]|]. intros [v (i & Hi & -> & _)%array_contents_spec]; [|done]. exists i. split; [done|]. apply elem_of_seq. lia.
    + cbn [ops_next_key array_ops array_next_key]. pose proof Hw as (_ & _ & Hn & _). split; [destruct (a_data a); [cbn in Hn; lia|done]|]. intros i k. rewrite !list_lookup_fmap. intros (j & Hj & ->)%fmap_Some. apply lookup_seq in Hj as [-> Hj]. rewrite array_index by done. cbn [plus]. destruct (Nat.leb_spec (length (a_data a)) (i + 1)).
      * rewrite lookup_seq_ge by lia. done.
      * rewrite lookup_seq_lt by lia. replace (i + 1)%nat with (0 + S i)%nat by lia. done.
Defined.
(** *** The ring buffer as a queue *)
Definition rb_wf (rb : BpfRingbuf) : Prop := length (buffer rb) = capacity rb /\ (rb_head rb < capacity rb)%nat /\ (rb_tail rb < capacity rb)%nat.
Definition ring_at (rb : BpfRingbuf) (i : nat) : Z := buffer rb !!! ((rb_tail rb + i) mod capacity rb)%nat.
Definition queue (rb : BpfRingbuf) : bytes := ring_at rb <$> seq 0 (available rb).
Lemma ring_mod_inj c h x y : (x < c)%nat -> (y < c)%nat -> ((h + x) mod c = (h + y) mod c)%nat -> x = y.
Proof.
  intros Hx Hy E. assert (Z.of_nat h + Z.of_nat x = Z.of_nat h + Z.of_nat y + Z.of_nat c * ((Z.of_nat h + Z.of_nat x) / Z.of_nat c - (Z.of_nat h + Z.of_nat y) / Z.of_nat c)) as Ez.
  { apply (f_equal Z.of_nat) in E. rewrite !Nat2Z.inj_mod, !Nat2Z.inj_add in E. pose proof (Z.div_mod (Z.of_nat h + Z.of_nat x) (Z.of_nat c) ltac:(lia)). pose proof (Z.div_mod (Z.of_nat h + Z.of_nat y) (Z.of_nat c) ltac:(lia)). lia. }
  set (q := _ - _) in Ez. assert (q = 0) by nia. nia.
Qed.
Lemma ring_add_mod c a b : c <> 0%nat -> ((a mod c + b) mod c = (a + b) mod c)%nat.
Proof. intros Hc. by rewrite Nat.Div0.add_mod_idemp_l. Qed.
Lemma ring_put_length cap h i data buf : length (put cap h i data buf) = length buf.
Proof. revert i buf. induction data as [|b data IH]; intros i buf; cbn [put]; [done|]. by rewrite IH, length_insert. Qed.
Lemma put_at cap h i data buf x : length buf = cap -> (x < cap)%nat -> (i + length data <= cap)%nat ->
  put cap h i data buf !!! ((h + x) mod cap)%nat = if decide (i <= x < i + length data)%nat then data !!! (x - i)%nat else buf !!! ((h + x) mod cap)%nat.
Proof.
  revert i buf. induction data as [|b data IH]; intros i buf Hb Hx Hl; cbn [put length] in *; [rewrite decide_False by lia; done|]. rewrite IH by (rewrite ?length_insert; lia). destruct (decide (x = i)) as [->|Hne].
  - rewrite decide_False, decide_True by lia. rewrite Nat.sub_diag, list_lookup_total_insert_eq; [done|]. rewrite Hb. apply Nat.mod_upper_bound. lia.
  - destruct (decide (S i <= x < S i + length data)%nat); [rewrite decide_True by lia; by replace (x - i)%nat with (S (x - S i)) by lia|]. rewrite decide_False by lia. apply list_lookup_total_insert_ne. intros E. apply ring_mod_inj in E; lia.
Qed.
Lemma available_lt rb : rb_wf rb -> (available rb < capacity rb)%nat /\ ((rb_tail rb + available rb) mod capacity rb = rb_head rb)%nat.
Proof.
  intros (_ & Hh & Ht). unfold available. destruct (Nat.leb_spec (rb_tail rb) (rb_head rb)); split; try lia.
  - replace (rb_tail rb + (rb_head rb - rb_tail rb))%nat with (rb_head rb) by lia. by apply Nat.mod_small.
  - replace (rb_tail rb + (capacity rb - rb_tail rb + rb_head rb))%nat with (rb_head rb + 1 * capacity rb)%nat by lia. rewrite Nat.Div0.mod_add. by apply Nat.mod_small.
Qed.
(** A position between head and tail is where the distance says. *)
Lemma available_unique rb h t n b d : rb_wf rb -> rb_head rb = h -> rb_tail rb = t -> (n < capacity rb)%nat -> ((t + n) mod capacity rb = h)%nat -> available (mkRb b (capacity rb) h t d) = n.
Proof.
  intros (Hb & Hh & Ht) <- <- Hn E. pose proof (available_lt (mkRb (buffer rb) (capacity rb) (rb_head rb) (rb_tail rb) d) (conj Hb (conj Hh Ht))) as [A1 A2]. change (available (mkRb b _ _ _ _)) with (available (mkRb (buffer rb) (capacity rb) (rb_head rb) (rb_tail rb) d)). cbn [capacity rb_tail rb_head] in *. apply (ring_mod_inj (capacity rb) (rb_tail rb)); [lia|lia|congruence].
Qed.
Lemma queue_length rb : length (queue rb) = available rb.
Proof. unfold queue. by rewrite length_fmap, length_seq. Qed.
Definition output_result (rb : BpfRingbuf) (data : bytes) : BpfRingbuf := mkRb (put (capacity rb) (rb_head rb) 0 data (buffer rb)) (capacity rb) ((rb_head rb + length data) mod capacity rb)%nat (rb_tail rb) (dropped_count rb).
Lemma output_wf rb data : rb_wf rb -> rb_wf (output_result rb data).
Proof. intros (Hb & Hh & Ht). split; [cbn; by rewrite ring_put_length|]. split; [|done]. cbn. apply Nat.mod_upper_bound. lia. Qed.
Lemma output_queue rb data : rb_wf rb -> (available rb + length data <= capacity rb)%nat -> queue (output_result rb data) = if decide (available rb + length data = capacity rb)%nat then [] else queue rb ++ data.
Proof.
  intros Hw Hl. pose proof (available_lt rb Hw) as [A1 A2]. pose proof (output_wf rb data Hw) as Hw'. pose proof Hw as (Hb & Hh & Ht).
  assert ((rb_head rb + length data) mod capacity rb = (rb_tail rb + (available rb + length data)) mod capacity rb)%nat as Eh by (rewrite <-A2, ring_add_mod by lia; f_equal; lia). destruct (decide _) as [Hfull|Hne].
  - apply nil_length_inv. rewrite queue_length. apply (available_unique (output_result rb data) _ _ 0 (buffer (output_result rb data)) (dropped_count rb)); [done|done|done|cbn; lia|]. cbn [output_result capacity rb_head rb_tail]. rewrite Eh, Hfull, Nat.add_0_r. replace (rb_tail rb + capacity rb)%nat with (rb_tail rb + 1 * capacity rb)%nat by lia. by rewrite Nat.Div0.mod_add.
  - assert (available (output_result rb data) = (available rb + length data)%nat) as Ea by (apply (available_unique (output_result rb data) _ _ (available rb + length data) (buffer (output_result rb data)) (dropped_count rb)); [done|done|done|cbn; lia|symmetry; exact Eh]).
    unfold queue. rewrite Ea, seq_app, fmap_app. f_equal.
    + apply list_fmap_ext. intros i j Hj%lookup_seq. unfold ring_at. cbn [output_result buffer capacity rb_tail]. destruct Hj as [-> Hj]. assert ((rb_tail rb + (0 + i)) mod capacity rb = (rb_head rb + (i + capacity rb - available rb)) mod capacity rb)%nat as ->.
      { rewrite <-A2, ring_add_mod by lia. replace (rb_tail rb + available rb + (i + capacity rb - available rb))%nat with (rb_tail rb + i + 1 * capacity rb)%nat by lia. by rewrite Nat.Div0.mod_add. }
      rewrite put_at by lia. by rewrite decide_False by lia.
    + apply list_eq_same_length with (length data); [done|by rewrite length_fmap, length_seq|]. intros i x y Hi Hx Hy. apply list_lookup_fmap_Some in Hx as (j & -> & Hj). apply lookup_seq in Hj as [-> _]. unfold ring_at. cbn [output_result buffer capacity rb_tail].
      replace (rb_tail rb + (0 + available rb + i))%nat with ((rb_tail rb + available rb) + i)%nat by lia. rewrite <-(ring_add_mod _ (rb_tail rb + available rb) i), A2 by lia. rewrite put_at by lia. rewrite decide_True, Nat.sub_0_r by lia. by apply list_lookup_total_correct.
Qed.
Lemma available_zero rb : rb_wf rb -> available rb = 0%nat <-> rb_tail rb = rb_head rb.
Proof. intros (_ & Hh & Ht). unfold available. destruct (Nat.leb_spec (rb_tail rb) (rb_head rb)); lia. Qed.
Lemma consume_spec max_len rb : rb_wf rb -> rb_wf (consume max_len rb).1 /\ capacity (consume max_len rb).1 = capacity rb /\ queue (consume max_len rb).1 = drop max_len (queue rb) /\ (consume max_len rb).2 = match queue rb with [] => None | q => Some (take max_len q) end.
Proof.
  intros Hw. pose proof (available_lt rb Hw) as [A1 A2]. pose proof Hw as (Hb & Hh & Ht). pose proof (queue_length rb) as Ql. unfold consume. destruct (Nat.eqb_spec (rb_tail rb) (rb_head rb)) as [E|E]; cbn [fst snd].
  - apply available_zero in E; [|done]. assert (queue rb = []) as -> by (apply nil_length_inv; lia). by rewrite drop_nil.
  - assert ((if (rb_tail rb <? rb_head rb)%nat then rb_head rb - rb_tail rb else capacity rb - rb_tail rb + rb_head rb)%nat = available rb) as -> by (unfold available; destruct (Nat.ltb_spec (rb_tail rb) (rb_head rb)), (Nat.leb_spec (rb_tail rb) (rb_head rb)); lia).
    set (r := Nat.min (available rb) max_len). set (rb' := mkRb _ _ _ _ _). assert (rb_wf rb') as Hw' by (split; [done|]; split; [done|]; cbn; apply Nat.mod_upper_bound; lia). split; [done|]. split; [done|].
    assert (available rb' = (available rb - r)%nat) as Ea by (apply (available_unique rb' _ _ _ (buffer rb) (dropped_count rb) Hw'); [done|done|cbn; lia|]; cbn [rb' rb_tail capacity rb_head]; rewrite ring_add_mod by lia; etransitivity; [|exact A2]; f_equal; lia). split.
    + assert (drop max_len (queue rb) = drop r (queue rb)) as -> by (subst r; destruct (decide (max_len <= available rb)%nat); [by rewrite Nat.min_r by lia|rewrite Nat.min_l by lia; rewrite !drop_ge by lia; done]).
      unfold queue. rewrite Ea, <-fmap_drop, drop_seq. replace (0 + r)%nat with (r + 0)%nat by lia. rewrite <-(fmap_add_seq r 0), <-list_fmap_compose. apply list_fmap_ext. intros i j _. unfold compose, ring_at. cbn [rb' buffer rb_tail capacity]. rewrite ring_add_mod by lia. f_equal. f_equal. lia.
    + assert (queue rb <> []) as Hq by (intros Q; rewrite Q in Ql; cbn in Ql; symmetry in Ql; by apply available_zero in Ql). assert ((fun i => buffer rb !!! ((rb_tail rb + i) mod capacity rb)%nat) <$> seq 0 r = take max_len (queue rb)) as ->; [|by destruct (queue rb)].
      unfold queue. rewrite <-fmap_take, take_seq. subst r. by rewrite Nat.min_comm.
Qed.
Lemma ringbuf_new_wf mx : rb_wf (ringbuf_new mx) /\ queue (ringbuf_new mx) = [].
Proof. assert (0 < 2 ^ Z.log2_up mx) by (apply Z.pow_pos_nonneg; [done|apply Z.log2_up_nonneg]). split; [|done]. unfold ringbuf_new, rb_wf. cbn [buffer capacity rb_head rb_tail]. rewrite length_replicate. lia. Qed.

(** *** Boxed maps *)
Definition box_contents (b : BoxedMap) : gmap bytes bytes := match b with BHash m => contents m | BArray m => contents m | BLru m => contents m | BSock m => contents m | BDev m => contents m | BCpu m => contents m end.
Definition box_wf (b : BoxedMap) : Prop := match b with BHash m => map_wf m | BArray m => map_wf m | BLru m => map_wf m | BSock m => map_wf m | BDev m => map_wf m | BCpu m => map_wf m end.
#[export] Instance box_spec : BpfMapSpec BoxedMap.
Proof.
  refine (Build_BpfMapSpec _ _ box_contents box_wf _ _ _ _ _ _ _ _ _).
  - intros [m|m|m|m|m|m]; apply (contents_sized m).
  - intros [m|m|m|m|m|m]; apply (contents_bounded m).
  - intros [m|m|m|m|m|m]; apply (count_exact m).
  - intros [m|m|m|m|m|m] k; apply (lookup_spec m).
  - intros [m|m|m|m|m|m] k v f Hw; pose proof (update_keeps m k v f Hw) as H; cbn [ops_update box_ops on_box]; destruct (ops_update k v f m); exact H.
  - intros [m|m|m|m|m|m] k v f Hw Hk Hv; pose proof (update_spec m k v f Hw Hk Hv) as H; cbn [ops_update box_ops on_box]; destruct (ops_update k v f m) as [m' []]; try exact H; destruct H as [-> H]; split; [done|exact H| ..]; done.
  - intros [m|m|m|m|m|m] k Hw; pose proof (delete_keeps m k Hw) as H; cbn [ops_delete box_ops on_box]; destruct (ops_delete k m); exact H.
  - intros [m|m|m|m|m|m] k Hw Hk; pose proof (delete_spec m k Hw Hk) as H; cbn [ops_delete box_ops on_box]; destruct (ops_delete k m) as [m' []]; try exact H; destruct H as [-> H]; split; done.
  - intros [m|m|m|m|m|m]; apply (iteration m).
Defined.

(** ** The registry as a store of finite functions and queues *)
Definition registry_wf (r : Registry) : Prop := map_Forall (fun _ m => map_wf m) (maps r) /\ map_Forall (fun _ rb => rb_wf rb) (ringbufs r).
Record AMap := mkA { a_shape : BpfMapType * Z * Z * Z; a_contents : gmap bytes bytes }.
Record ARing := mkAR { ar_capacity : nat; ar_queue : bytes }.
Record AState := mkAS { a_next : Z; a_maps : gmap Z AMap; a_rings : gmap Z ARing }.
Definition view_map (m : BoxedMap) : AMap := mkA (shape m) (contents m).
Definition view_ring (rb : BpfRingbuf) : ARing := mkAR (capacity rb) (queue rb).
Definition view (r : Registry) : AState := mkAS (next_map_id r) (view_map <$> maps r) (view_ring <$> ringbufs r).

Inductive op := OCreate (ty : BpfMapType) (ks vs mx : Z) | OLookup (id : Z) (k : bytes) | OUpdate (id : Z) (k v : bytes) (f : Z) | ODelete (id : Z) (k : bytes) | OOutput (id : Z) (data : bytes) | OConsume (id : Z) (n : nat) | OFree (id : Z).
Inductive out := RId (x : res Z) | RBytes (x : option bytes) | RUnit (x : res unit) | RBool (x : bool).
Definition step (o : op) (r : Registry) : Registry * out :=
  match o with
  | OCreate ty ks vs mx => let '(r, x) := create_map ty ks vs mx r in (r, RId x)
  | OLookup id k => (r, RBytes (map_lookup_elem id k r))
  | OUpdate id k v f => let '(r, x) := map_update_elem id k v f r in (r, RUnit x)
  | ODelete id k => let '(r, x) := map_delete_elem id k r in (r, RUnit x)
  | OOutput id data => let '(r, x) := ringbuf_output id data r in (r, RUnit x)
  | OConsume id n => let '(r, x) := ringbuf_consume id n r in (r, RBytes x)
  | OFree id => let '(r, x) := free_map id r in (r, RBool x)
  end.
(** The arguments are words and bytes; the key has the length the map was created with. *)
Definition key_ok (id : Z) (k : bytes) (r : Registry) : Prop := forall m, maps r !! id = Some m -> is_key k m.
Definition op_ok (o : op) (r : Registry) : Prop :=
  match o with
  | OCreate _ ks vs mx => 0 <= ks /\ 0 <= vs /\ 0 <= mx
  | OLookup id k | ODelete id k => key_ok id k r
  | OUpdate id k v _ => key_ok id k r /\ Forall is_u8 v
  | _ => True
  end.
(** No write fills a ring buffer to its last byte: the code takes a ring that is full for an empty one. *)
Definition fills_none (o : op) (r : Registry) : Prop :=
  match o with OOutput id data => forall rb, ringbufs r !! id = Some rb -> (available rb + length data)%nat <> capacity rb | _ => True end.
(** What an operation does to a store of finite functions and queues. *)
Definition one_of (ty : BpfMapType) (l : list BpfMapType) : bool := existsb (fun t => bool_decide (t = ty)) l.
Definition spec_create (s : AState) (ty : BpfMapType) (ks vs mx : Z) (x : res Z) (s' : AState) : Prop :=
  if (mx =? 0) || (BPF_MAP_MAX_ENTRIES <? mx) then s' = s /\ x = inr InvalidMaxEntries
  else a_next s' = u32_add (a_next s) 1 /\ match x with
    | inr e => a_maps s' = a_maps s /\ a_rings s' = a_rings s /\ (e = InvalidType /\ one_of ty [Hash; Array; LruHash; Ringbuf; Sockmap; Devmap; Cpumap] = false \/ e = InvalidKeySize /\ one_of ty [Hash; LruHash] = true /\ (ks = 0 \/ vs = 0) \/ e = InvalidValueSize /\ ty = Array /\ vs = 0)
    | inl id => id = a_next s /\ if decide (ty = Ringbuf) then a_maps s' = a_maps s /\ a_rings s' = <[id := mkAR (Z.to_nat (2 ^ Z.log2_up mx)) []]> (a_rings s)
        else a_rings s' = a_rings s /\ exists c, a_maps s' = <[id := mkA (ty, if one_of ty [Hash; LruHash; Sockmap] then ks else 4, if one_of ty [Hash; Array; LruHash] then vs else 4, mx) c]> (a_maps s) /\
          forall k, c !! k = if decide (ty = Array /\ Forall is_u8 k /\ len k = 4 /\ of_le k < mx) then Some (replicate (Z.to_nat vs) 0) else None
    end.
Definition spec_update (m : AMap) (k v : bytes) (f : Z) (x : res unit) (m' : AMap) : Prop :=
  let '(ty, ks, vs, mx) := a_shape m in
  let c := a_contents m in
  a_shape m' = a_shape m /\ match x with
  | inl _ => exists gone, a_contents m' = <[k := take (Z.to_nat vs) v]> (filter (fun p => Some p.1 <> gone) c) /\ forall g, gone = Some g -> ty = LruHash /\ c !! k = None /\ Z.of_nat (size c) = mx
  | inr e => a_contents m' = c /\ ((e = InvalidKeySize \/ e = InvalidValueSize) /\ len v <> vs \/ e = NotFound /\ ty = Array /\ c !! k = None \/
      c !! k = None /\ (e = NotFound /\ flag f BPF_EXIST = true \/ e = Full /\ Z.of_nat (size c) = mx) \/ e = AlreadyExists /\ flag f BPF_NOEXIST = true /\ is_Some (c !! k))
  end.
Definition spec_delete (m : AMap) (k : bytes) (x : res unit) (m' : AMap) : Prop :=
  a_shape m' = a_shape m /\ match x with
  | inl _ => is_Some (a_contents m !! k) /\ a_contents m' = delete k (a_contents m)
  | inr e => a_contents m' = a_contents m /\ ((a_shape m).1.1.1 = Array \/ e = NotFound /\ a_contents m !! k = None)
  end.
(** A queue of bytes: data that does not fit is refused. *)
Definition spec_output (q : ARing) (data : bytes) (x : res unit) (q' : ARing) : Prop :=
  let used := (length (ar_queue q) + length data)%nat in
  ar_capacity q' = ar_capacity q /\
  if (ar_capacity q <? length data)%nat then x = inr OutOfMemory /\ ar_queue q' = ar_queue q
  else if (ar_capacity q <? used)%nat then x = inr Full /\ ar_queue q' = ar_queue q
  else x = inl tt /\ ar_queue q' = ar_queue q ++ data.
Definition spec_consume (q : ARing) (n : nat) (x : option bytes) (q' : ARing) : Prop :=
  q' = mkAR (ar_capacity q) (drop n (ar_queue q)) /\ x = match ar_queue q with [] => None | b => Some (take n b) end.
(** [f] relates the object with number [id] before and after; the others stay. *)
Definition on_object {A} (id : Z) (s s' : gmap Z A) (absent : Prop) (f : A -> A -> Prop) : Prop :=
  match s !! id with None => s' = s /\ absent | Some m => exists m', s' = <[id := m']> s /\ f m m' end.
Definition spec_step (s : AState) (o : op) (x : out) (s' : AState) : Prop :=
  match o, x with
  | OCreate ty ks vs mx, RId x => spec_create s ty ks vs mx x s'
  | OLookup id k, RBytes x => s' = s /\ x = (m ← a_maps s !! id; a_contents m !! k)
  | OUpdate id k v f, RUnit x => a_next s' = a_next s /\ a_rings s' = a_rings s /\ on_object id (a_maps s) (a_maps s') (x = inr NotFound) (fun m m' => spec_update m k v f x m')
  | ODelete id k, RUnit x => a_next s' = a_next s /\ a_rings s' = a_rings s /\ on_object id (a_maps s) (a_maps s') (x = inr NotFound) (fun m m' => spec_delete m k x m')
  | OOutput id data, RUnit x => a_next s' = a_next s /\ a_maps s' = a_maps s /\ on_object id (a_rings s) (a_rings s') (x = inr NotFound) (fun q q' => spec_output q data x q')
  | OConsume id n, RBytes x => a_next s' = a_next s /\ a_maps s' = a_maps s /\ on_object id (a_rings s) (a_rings s') (x = None) (fun q q' => spec_consume q n x q')
  | OFree id, RBool x => a_next s' = a_next s /\ x = bool_decide (is_Some (a_maps s !! id) \/ is_Some (a_rings s !! id)) /\ a_maps s' = delete id (a_maps s) /\ a_rings s' = if decide (is_Some (a_maps s !! id)) then a_rings s else delete id (a_rings s)
  | _, _ => False
  end.
Lemma maps_insert_wf r id m : registry_wf r -> map_wf m -> registry_wf (set_maps (<[id := m]> (maps r)) r).
Proof. intros [H1 H2] Hm. split; [by apply map_Forall_insert_2|done]. Qed.
Lemma rings_insert_wf r id rb : registry_wf r -> rb_wf rb -> registry_wf (set_ringbufs (<[id := rb]> (ringbufs r)) r).
Proof. intros [H1 H2] Hm. split; [done|by apply map_Forall_insert_2]. Qed.
(** The operations on one map. *)
Lemma update_refines r id k v f : registry_wf r -> key_ok id k r -> Forall is_u8 v -> let '(r', x) := map_update_elem id k v f r in registry_wf r' /\ spec_step (view r) (OUpdate id k v f) (RUnit x) (view r').
Proof.
  intros Hw Hk Hv. unfold map_update_elem. cbn [spec_step view a_maps]. unfold on_object. rewrite lookup_fmap. destruct (maps r !! id) as [m|] eqn:E; cbn [fmap option_fmap option_map]; [|done]. pose proof (proj1 Hw id m E) as Hm. cbn in Hm.
  pose proof (update_keeps m k v f Hm) as [K1 K2]. pose proof (update_spec m k v f Hm (Hk m E) Hv) as Hs. destruct (ops_update k v f m) as [m' x]; cbn [fst] in *. split; [by apply maps_insert_wf|]. split; [done|]. split; [done|]. exists (view_map m'). split; [cbn; by rewrite fmap_insert|].
  unfold spec_update, view_map. cbn [a_shape a_contents]. rewrite K2. unfold shape at 1. split; [done|]. destruct x; [done|]. destruct Hs as [-> Hs]. done.
Qed.
Lemma map_delete_refines r id k : registry_wf r -> key_ok id k r -> let '(r', x) := map_delete_elem id k r in registry_wf r' /\ spec_step (view r) (ODelete id k) (RUnit x) (view r').
Proof.
  intros Hw Hk. unfold map_delete_elem. cbn [spec_step view a_maps]. unfold on_object. rewrite lookup_fmap. destruct (maps r !! id) as [m|] eqn:E; cbn [fmap option_fmap option_map]; [|done]. pose proof (proj1 Hw id m E) as Hm. cbn in Hm.
  pose proof (delete_keeps m k Hm) as [K1 K2]. pose proof (delete_spec m k Hm (Hk m E)) as Hs. destruct (ops_delete k m) as [m' x]; cbn [fst] in *. split; [by apply maps_insert_wf|]. split; [done|]. split; [done|]. exists (view_map m'). split; [cbn; by rewrite fmap_insert|].
  unfold spec_delete, view_map. cbn [a_shape a_contents]. split; [done|]. destruct x; [done|]. destruct Hs as [-> Hs]. done.
Qed.
Lemma output_refines r id data : registry_wf r -> let '(r', x) := ringbuf_output id data r in registry_wf r' /\ (fills_none (OOutput id data) r -> spec_step (view r) (OOutput id data) (RUnit x) (view r')).
Proof.
  intros Hw. unfold ringbuf_output. cbn [spec_step view a_rings fills_none]. unfold on_object. rewrite lookup_fmap. destruct (ringbufs r !! id) as [rb|] eqn:E; cbn [fmap option_fmap option_map]; [|done]. pose proof (proj2 Hw id rb E) as Hr. cbn in Hr.
  assert (rb_wf (output data rb).1 /\ ((available rb + length data)%nat <> capacity rb -> spec_output (view_ring rb) data (output data rb).2 (view_ring (output data rb).1))) as [K1 K2].
  { unfold output, spec_output. cbn [view_ring ar_capacity ar_queue]. rewrite queue_length. destruct (capacity rb <? length data)%nat; [done|]. destruct (Nat.ltb_spec (capacity rb) (available rb + length data)); [done|]. split; [by apply (output_wf rb data)|]. intros Hn. split; [done|]. split; [done|]. pose proof (output_queue rb data Hr ltac:(done)) as Hq. rewrite decide_False in Hq by done. exact Hq. }
  destruct (output data rb) as [rb' x]. split; [by apply rings_insert_wf|]. intros Hn. split; [done|]. split; [done|]. exists (view_ring rb'). split; [cbn; by rewrite fmap_insert|by apply K2, Hn].
Qed.
Lemma consume_refines r id n : registry_wf r -> let '(r', x) := ringbuf_consume id n r in registry_wf r' /\ spec_step (view r) (OConsume id n) (RBytes x) (view r').
Proof.
  intros Hw. unfold ringbuf_consume. cbn [spec_step view a_rings]. unfold on_object. rewrite lookup_fmap. destruct (ringbufs r !! id) as [rb|] eqn:E; cbn [fmap option_fmap option_map]; [|done]. pose proof (proj2 Hw id rb E) as Hr. cbn in Hr.
  destruct (consume_spec n rb Hr) as (K1 & K2 & K3 & K4). destruct (consume n rb) as [rb' x]; cbn [fst snd] in *. split; [by apply rings_insert_wf|]. split; [done|]. split; [done|]. exists (view_ring rb'). split; [cbn; by rewrite fmap_insert|]. split; [unfold view_ring; by rewrite K2, K3|done].
Qed.
Lemma free_refines r id : registry_wf r -> let '(r', x) := free_map id r in registry_wf r' /\ spec_step (view r) (OFree id) (RBool x) (view r').
Proof.
  intros [H1 H2]. unfold free_map. cbn [spec_step view a_maps a_rings]. rewrite !lookup_fmap. destruct (maps r !! id) as [m|] eqn:E; cbn [fmap option_fmap option_map].
  - split; [split; [by apply map_Forall_delete|done]|]. split; [done|]. rewrite bool_decide_true, decide_True by eauto. split; [done|]. split; [apply fmap_delete|done].
  - rewrite decide_False by (by intros [? ?]). destruct (ringbufs r !! id) as [rb|] eqn:Er; cbn [fmap option_fmap option_map].
    + split; [split; [done|by apply map_Forall_delete]|]. split; [done|]. rewrite bool_decide_true by eauto. split; [done|]. cbn. split; [symmetry; apply delete_id; by rewrite lookup_fmap, E|apply fmap_delete].
    + split; [done|]. split; [done|]. rewrite bool_decide_false by (by intros [[? ?]|[? ?]]). split; [done|]. cbn. split; symmetry; apply delete_id; rewrite lookup_fmap; [by rewrite E|by rewrite Er].
Qed.
(** *** New maps *)
Lemma array_new_wf vs mx : 0 <= vs -> 0 < mx <= BPF_MAP_MAX_ENTRIES -> array_wf (array_new vs mx).
Proof.
  intros Hv Hm. unfold array_wf, array_new. cbn [a_value_size a_data a_initialized]. rewrite !length_replicate. split; [done|]. split; [done|]. split; [lia|]. apply Forall_replicate. unfold len. rewrite length_replicate. lia.
Qed.
Lemma array_new_contents vs mx k : 0 <= vs -> 0 < mx <= BPF_MAP_MAX_ENTRIES ->
  array_contents (array_new vs mx) !! k = if decide (Forall is_u8 k /\ len k = 4 /\ of_le k < mx) then Some (replicate (Z.to_nat vs) 0) else None.
Proof.
  intros Hv Hm. pose proof (array_new_wf vs mx Hv Hm) as Hw. assert (length (a_data (array_new vs mx)) = Z.to_nat mx) as Hn by (cbn; apply length_replicate). assert (forall i, (i < Z.to_nat mx)%nat -> array_value (array_new vs mx) i = replicate (Z.to_nat vs) 0) as Hz.
  { intros i Hi. unfold array_value. cbn [array_new a_initialized]. by rewrite lookup_total_replicate_2. }
  destruct (decide _) as [(D1 & D2 & D3)|Hno].
  - destruct (array_index_cases _ Hw k D1 D2) as [(i & Hi & ->)|[_ Hnone]].
    + apply array_contents_spec; [done|]. exists i. split; [done|]. split; [done|]. symmetry. apply Hz. lia.
    + exfalso. pose proof (of_le_range k D1) as Hr. assert (length k = 4%nat) as Hl by (unfold len in D2; lia). rewrite Hl in Hr. pose proof (to_le_of_le k D1) as Ek. rewrite Hl in Ek. assert (array_contents (array_new vs mx) !! k = Some (array_value (array_new vs mx) (Z.to_nat (of_le k)))) as E; [|congruence]. apply array_contents_spec; [done|]. eexists. split; [|split; [|done]]; [lia|]. unfold index_key. by rewrite Z2Nat.id by lia.
  - destruct (array_contents (array_new vs mx) !! k) as [v|] eqn:E; [|done]. exfalso. apply Hno. apply array_contents_spec in E as (i & Hi & -> & _); [|done]. split; [apply to_le_bytes|]. split; [unfold len, index_key; by rewrite to_le_length|]. unfold index_key. rewrite word_round_trip by (by apply (index_range _ Hw)). lia.
Qed.
(** Creating a map takes the next number. *)
Definition taken_id (r : Registry) : Registry := mkReg (u32_add (next_map_id r) 1) (maps r) (ringbufs r).
Lemma create_adds r ty ks vs mx b : registry_wf r -> 0 < mx <= BPF_MAP_MAX_ENTRIES -> map_wf b -> shape b = (ty, if one_of ty [Hash; LruHash; Sockmap] then ks else 4, if one_of ty [Hash; Array; LruHash] then vs else 4, mx) -> ty <> Ringbuf ->
  (forall k, contents b !! k = if decide (ty = Array /\ Forall is_u8 k /\ len k = 4 /\ of_le k < mx) then Some (replicate (Z.to_nat vs) 0) else None) ->
  registry_wf (set_maps (<[next_map_id r := b]> (maps r)) (taken_id r)) /\ spec_create (view r) ty ks vs mx (inl (next_map_id r)) (view (set_maps (<[next_map_id r := b]> (maps r)) (taken_id r))).
Proof.
  intros Hw Hm Hb Hs Ht Hc. split; [by apply (maps_insert_wf (taken_id r))|]. unfold spec_create. rewrite (proj2 (Z.eqb_neq mx 0)), (proj2 (Z.ltb_ge BPF_MAP_MAX_ENTRIES mx)) by lia. cbn [orb]. split; [done|]. split; [done|]. rewrite decide_False by done. split; [done|]. exists (contents b). split; [|done]. cbn [view a_maps maps set_maps]. rewrite fmap_insert. unfold view_map at 1. by rewrite Hs.
Qed.
Lemma create_refuses r ty ks vs mx e : registry_wf r -> 0 < mx <= BPF_MAP_MAX_ENTRIES -> (e = InvalidType /\ one_of ty [Hash; Array; LruHash; Ringbuf; Sockmap; Devmap; Cpumap] = false \/ e = InvalidKeySize /\ one_of ty [Hash; LruHash] = true /\ (ks = 0 \/ vs = 0) \/ e = InvalidValueSize /\ ty = Array /\ vs = 0) ->
  registry_wf (taken_id r) /\ spec_create (view r) ty ks vs mx (inr e) (view (taken_id r)).
Proof. intros Hw Hm He. split; [done|]. unfold spec_create. rewrite (proj2 (Z.eqb_neq mx 0)), (proj2 (Z.ltb_ge BPF_MAP_MAX_ENTRIES mx)) by lia. cbn [orb]. by split_and!. Qed.
Lemma no_array ty (k : bytes) vs mx : ty <> Array -> None = if decide (ty = Array /\ Forall is_u8 k /\ len k = 4 /\ of_le k < mx) then Some (replicate (Z.to_nat vs) 0) else None.
Proof. intros Ht. rewrite decide_False; [done|]. by intros [? _]. Qed.
Lemma create_sized_refines r ty ks vs mx (b : BoxedMap) : registry_wf r -> 0 < mx <= BPF_MAP_MAX_ENTRIES -> one_of ty [Hash; LruHash] = true -> shape b = (ty, ks, vs, mx) -> map_wf b -> contents b = ∅ ->
  let '(r', x) := (if (ks =? 0) || (vs =? 0) then (taken_id r, inr InvalidKeySize) else (set_maps (<[next_map_id r := b]> (maps r)) (taken_id r), inl (next_map_id r))) in registry_wf r' /\ spec_create (view r) ty ks vs mx x (view r').
Proof.
  intros Hw Hm Ht Hs Hb Hc. destruct ((ks =? 0) || (vs =? 0)) eqn:E.
  - apply create_refuses; [done|done|]. right; left. split; [done|]. split; [done|]. apply orb_true_elim in E as [E|E]; apply Z.eqb_eq in E; [by left|by right].
  - apply create_adds; [done|done|done|by destruct ty|by intros ->|]. intros k. rewrite Hc, lookup_empty. apply no_array. by intros ->.
Qed.
Lemma create_refines r ty ks vs mx : registry_wf r -> 0 <= ks -> 0 <= vs -> 0 <= mx -> let '(r', x) := create_map ty ks vs mx r in registry_wf r' /\ spec_create (view r) ty ks vs mx x (view r').
Proof.
  intros Hw Hk Hv Hm. unfold create_map. destruct ((mx =? 0) || (BPF_MAP_MAX_ENTRIES <? mx)) eqn:Eb; [split; [done|]; unfold spec_create; by rewrite Eb|]. assert (0 < mx <= BPF_MAP_MAX_ENTRIES) as Hr by (apply orb_false_elim in Eb as [?%Z.eqb_neq ?%Z.ltb_ge]; lia). cbv zeta. fold (taken_id r).
  change (maps (taken_id r)) with (maps r). change (ringbufs (taken_id r)) with (ringbufs r).
  destruct ty; try (apply create_refuses; [done|done|by left]).
  - apply create_sized_refines; try done. split; [done|by apply sized_empty].
  - destruct (Z.eqb_spec vs 0) as [->|?]; [apply create_refuses; [done|done|]; by right; right|]. apply create_adds; [done|done|by apply array_new_wf| |done|].
    + unfold shape. cbn [map_type key_size value_size max_entries box_ops with_box array_ops array_new a_data a_value_size]. rewrite length_replicate, Z2Nat.id by lia. rewrite Z.mod_small; [done|]. unfold BPF_MAP_MAX_ENTRIES, u32_mod in *. change (Z.shiftl 1 24) with (2 ^ 24) in Hr. lia.
    + intros k. cbn [contents box_spec box_contents array_spec]. rewrite array_new_contents by done. destruct (decide (Forall is_u8 k /\ _)) as [D|D]; [by rewrite decide_True|]. rewrite decide_False; [done|]. by intros [_ ?].
  - apply create_sized_refines; try done. split; [done|]. split; [exact (proj1 Hr)|by apply sized_empty].
  - apply create_adds; [done|done|split; [done|by apply sized_empty]|done|done|]. intros k. by apply no_array.
  - apply create_adds; [done|done|split; [done|by apply sized_empty]|done|done|]. intros k. by apply no_array.
  - apply create_adds; [done|done|split; [done|by apply sized_empty]|done|done|]. intros k. by apply no_array.
  - destruct (ringbuf_new_wf mx) as [Hb Hq]. split; [by apply (rings_insert_wf (taken_id r))|]. unfold spec_create. rewrite Eb. split; [done|]. split; [done|]. rewrite decide_True by done. split; [done|]. cbn [view a_rings ringbufs set_ringbufs]. rewrite fmap_insert. unfold view_ring at 1. by rewrite Hq.
Qed.
Fixpoint run_ops (l : list op) (r : Registry) : Registry * list out :=
  match l with [] => (r, []) | o :: l' => let '(r1, x) := step o r in let '(r2, xs) := run_ops l' r1 in (r2, x :: xs) end.
Fixpoint ops_ok (l : list op) (r : Registry) : Prop := match l with [] => True | o :: l' => op_ok o r /\ ops_ok l' (step o r).1 end.
Fixpoint none_fills (l : list op) (r : Registry) : Prop := match l with [] => True | o :: l' => fills_none o r /\ none_fills l' (step o r).1 end.
Inductive spec_run : list op -> list out -> AState -> AState -> Prop :=
| spec_done s : spec_run [] [] s s
| spec_more o l x xs s s1 s2 : spec_step s o x s1 -> spec_run l xs s1 s2 -> spec_run (o :: l) (x :: xs) s s2.
Lemma map_lookup_refines r id k : registry_wf r -> key_ok id k r -> map_lookup_elem id k r = (m ← a_maps (view r) !! id; a_contents m !! k).
Proof.
  intros Hw Hk. unfold map_lookup_elem. cbn [view a_maps]. rewrite lookup_fmap. destruct (maps r !! id) as [m|] eqn:E; cbn [fmap option_fmap option_map mbind option_bind]; [|done]. apply lookup_spec; [exact (proj1 Hw id m E)|by apply Hk].
Qed.
Lemma op_refines o r : registry_wf r -> op_ok o r -> registry_wf (step o r).1 /\ (fills_none o r -> spec_step (view r) o (step o r).2 (view (step o r).1)).
Proof.
  intros Hw. destruct o as [ty ks vs mx|id k|id k v f|id k|id data|id n|id]; cbn [op_ok step].
  - intros (H1 & H2 & H3). pose proof (create_refines r ty ks vs mx Hw H1 H2 H3) as H. destruct (create_map ty ks vs mx r). naive_solver.
  - intros Hk. split; [done|]. intros _. split; [done|]. by apply map_lookup_refines.
  - intros [Hk Hv]. pose proof (update_refines r id k v f Hw Hk Hv) as H. destruct (map_update_elem id k v f r). naive_solver.
  - intros Hk. pose proof (map_delete_refines r id k Hw Hk) as H. destruct (map_delete_elem id k r). naive_solver.
  - intros _. pose proof (output_refines r id data Hw) as H. by destruct (ringbuf_output id data r).
  - intros _. pose proof (consume_refines r id n Hw) as H. destruct (ringbuf_consume id n r). naive_solver.
  - intros _. pose proof (free_refines r id Hw) as H. destruct (free_map id r). naive_solver.
Qed.
Lemma ops_refine l r : registry_wf r -> ops_ok l r -> registry_wf (run_ops l r).1 /\ (none_fills l r -> spec_run l (run_ops l r).2 (view r) (view (run_ops l r).1)).
Proof.
  revert r. induction l as [|o l IH]; intros r Hw; cbn [ops_ok run_ops none_fills]; [intros _; split; [done|constructor]|]. intros [Ho Hl]. destruct (op_refines o r Hw Ho) as [Hw1 Hs]. destruct (step o r) as [r1 x]; cbn [fst snd] in *. destruct (IH r1 Hw1 Hl) as [Hw2 Hs2]. destruct (run_ops l r1) as [r2 xs]; cbn [fst snd] in *. split; [done|]. intros [Hn1 Hn2]. apply (spec_more o l x xs _ (view r1)); [by apply Hs|by apply Hs2].
Qed.
(** Iterating from no key visits every key once. *)
Fixpoint visit {A} `{BpfMapOps A} (fuel : nat) (k : option bytes) (m : A) : list bytes :=
  match fuel with O => [] | S fuel' => match ops_next_key k m with None => [] | Some k' => k' :: visit fuel' (Some k') m end end.
Lemma visit_all {A} `{BpfMapSpec A} (m : A) : map_wf m -> exists l, visit (S (length l)) None m = l /\ NoDup l /\ forall k, k ∈ l <-> is_Some (contents m !! k).
Proof.
  intros Hw. destruct (iteration m Hw) as (l & Hn & Hk & Hfirst & Hs). exists l. split; [|done]. assert (forall i fuel k, l !! i = Some k -> (length l - i <= fuel)%nat -> visit fuel (Some k) m = drop (S i) l) as Hv.
  { intros i fuel. revert i. induction fuel as [|fuel IH]; intros i k Hi Hf; [apply lookup_lt_Some in Hi; lia|]. cbn [visit]. rewrite (Hs i k Hi). destruct (l !! S i) as [k'|] eqn:E; [rewrite (IH (S i) k' E) by (apply lookup_lt_Some in Hi; lia); by rewrite (drop_S l k' (S i) E)|]. apply lookup_ge_None in E. by rewrite drop_ge. }
  cbn [visit]. rewrite Hfirst. destruct l as [|k l']; [done|]. cbn [head]. rewrite (Hv 0%nat _ k) by (done || (cbn; lia)). done.
Qed.

(** ** The LRU map as a queue *)
Inductive lru_op := LLookup (k : bytes) | LUpdate (k v : bytes) (f : Z) | LDelete (k : bytes).
Definition lru_step (o : lru_op) (m : BpfLruHashMap) : BpfLruHashMap * out :=
  match o with
  | LLookup k => (m, RBytes (ops_lookup k m))
  | LUpdate k v f => let '(m, x) := ops_update k v f m in (m, RUnit x)
  | LDelete k => let '(m, x) := ops_delete k m in (m, RUnit x)
  end.
Fixpoint lru_run (l : list lru_op) (m : BpfLruHashMap) : BpfLruHashMap * list out :=
  match l with [] => (m, []) | o :: l' => let '(m1, x) := lru_step o m in let '(m2, xs) := lru_run l' m1 in (m2, x :: xs) end.
(** A queue of bindings: the key updated last stands at the end, the one to be evicted at the front. *)
Abbreviation lru_queue := (list (bytes * bytes)).
Definition q_find (k : bytes) (q : lru_queue) : option bytes := snd <$> find (fun p => bool_decide (p.1 = k)) q.
Definition q_remove (k : bytes) (q : lru_queue) : lru_queue := filter (fun p => p.1 <> k) q.
Definition q_step (ks vs mx : Z) (o : lru_op) (q : lru_queue) : lru_queue * out :=
  match o with
  | LLookup k => (q, RBytes (q_find k q))
  | LUpdate k v f =>
      if negb (len k =? ks) || negb (len v =? vs) then (q, RUnit (inr InvalidKeySize))
      else match q_find k q with
        | Some _ => if flag f BPF_NOEXIST then (q, RUnit (inr AlreadyExists)) else (q_remove k q ++ [(k, v)], RUnit (inl tt))
        | None => ((if mx <=? Z.of_nat (length q) then tail q else q) ++ [(k, v)], RUnit (inl tt))
        end
  | LDelete k => match q_find k q with Some _ => (q_remove k q, RUnit (inl tt)) | None => (q, RUnit (inr NotFound)) end
  end.
Fixpoint q_run (ks vs mx : Z) (l : list lru_op) (q : lru_queue) : lru_queue * list out :=
  match l with [] => (q, []) | o :: l' => let '(q1, x) := q_step ks vs mx o q in let '(q2, xs) := q_run ks vs mx l' q1 in (q2, x :: xs) end.
(** The entries in the order of their time stamps. *)
Abbreviation stamped := (list (bytes * (bytes * Z))).
Definition earlier (p p' : bytes * (bytes * Z)) : Prop := p.2.2 < p'.2.2.
Record in_order (m : BpfLruHashMap) (l : stamped) : Prop := {
  io_sorted : StronglySorted earlier l;
  io_data : forall k x, (k, x) ∈ l <-> l_data m !! k = Some x;
  io_stamps : Forall (fun p => p.2.2 <= access_counter m) l }.
Definition unstamped (l : stamped) : lru_queue := (fun p => (p.1, p.2.1)) <$> l.
Lemma earlier_NoDup l : StronglySorted earlier l -> NoDup l.
Proof. induction 1 as [|x l Hs IH Hx]; constructor; [|done]. intros Hin. rewrite Forall_forall in Hx. specialize (Hx x Hin). unfold earlier in Hx. lia. Qed.
Lemma in_order_NoDup m l : in_order m l -> NoDup l.*1.
Proof.
  intros [Hs Hd _]. apply NoDup_fmap_2_strong; [|by apply earlier_NoDup]. intros [k x] [k' x'] Hx Hy E. cbn in E. subst k'. apply Hd in Hx, Hy. congruence.
Qed.
Lemma in_order_size m l : in_order m l -> length l = size (l_data m).
Proof.
  intros Hi. rewrite <-length_map_to_list. apply Permutation_length, NoDup_Permutation; [apply earlier_NoDup, (io_sorted _ _ Hi)|apply NoDup_map_to_list|]. intros [k x]. by rewrite elem_of_map_to_list, (io_data _ _ Hi).
Qed.
Lemma in_order_find m l k : in_order m l -> q_find k (unstamped l) = fst <$> l_data m !! k.
Proof.
  intros Hi. assert (forall l', NoDup l'.*1 -> forall k, q_find k (unstamped l') = fst <$> (list_to_map l' : gmap bytes (bytes * Z)) !! k) as Hf.
  { clear. intros l'. induction l' as [|[k0 [v ts]] l' IH]; intros Hn k; [done|]. apply NoDup_cons in Hn as [_ Hn]. unfold q_find, unstamped in *. cbn [fmap list_fmap find fst snd list_to_map foldr uncurry]. destruct (decide (k0 = k)) as [->|Hne]; [rewrite bool_decide_true, lookup_insert_eq by done; done|rewrite bool_decide_false, lookup_insert_ne by done; by apply IH]. }
  rewrite Hf by (by apply (in_order_NoDup m)). f_equal. apply option_eq. intros x. rewrite <-elem_of_list_to_map by (by apply (in_order_NoDup m)). apply (io_data _ _ Hi).
Qed.
Lemma unstamped_remove k l : q_remove k (unstamped l) = unstamped (filter (fun p => p.1 <> k) l).
Proof. induction l as [|[k0 [v ts]] l IH]; [done|]. unfold q_remove, unstamped in *. cbn [fmap list_fmap]. rewrite !filter_cons. cbn [fst]. case_decide; cbn [fmap list_fmap]; by rewrite IH. Qed.
Lemma in_order_remove m l k : in_order m l -> in_order (mkLru (l_key_size m) (l_value_size m) (l_max_entries m) (delete k (l_data m)) (access_counter m)) (filter (fun p => p.1 <> k) l).
Proof.
  intros [Hs Hd Ht]. split; cbn [l_data access_counter]; [by apply sorted_filter| |apply Forall_forall; intros p [_ Hp]%list_elem_of_filter; rewrite Forall_forall in Ht; by apply Ht].
  intros k' x. rewrite list_elem_of_filter, lookup_delete_Some, Hd. cbn [fst]. naive_solver.
Qed.
Lemma in_order_push m l k v : in_order m l -> l_data m !! k = None -> access_counter m < u64_max -> 0 <= access_counter m ->
  in_order (mkLru (l_key_size m) (l_value_size m) (l_max_entries m) (<[k := (v, u64_add (access_counter m) 1)]> (l_data m)) (u64_add (access_counter m) 1)) (l ++ [(k, (v, u64_add (access_counter m) 1))]).
Proof.
  intros [Hs Hd Ht] Hk Hc H0. assert (u64_add (access_counter m) 1 = access_counter m + 1) as -> by (apply u64_add_small; unfold u64_max in Hc; lia). split; cbn [l_data access_counter].
  - clear Hd. induction Hs as [|p l Hs IH Hp]; cbn [app]; [by repeat constructor|]. apply Forall_cons in Ht as [Hp0 Ht]. constructor; [by apply IH|]. apply Forall_app. split; [done|]. constructor; [|done]. unfold earlier. cbn. lia.
  - intros k' x. rewrite elem_of_app, list_elem_of_singleton, Hd, lookup_insert_Some. split; [intros [E|[= -> ->]]; [right; split; [congruence|done]|by left]|naive_solver].
  - apply Forall_app. split; [|constructor; [cbn; lia|done]]. apply (Forall_impl _ _ _ Ht). intros p Hp. lia.
Qed.
(** The oldest entry is the first. *)
Lemma in_order_oldest m p l : in_order m (p :: l) -> fst <$> oldest (l_data m) = Some p.1.
Proof.
  intros [Hs Hd _]. destruct p as [k0 [v0 t0]]. assert (l_data m !! k0 = Some (v0, t0)) as E0 by (apply Hd; by left). destruct (oldest_spec (l_data m)) as (k & v & ts & -> & E & Hm); [intros Em; rewrite Em, lookup_empty in E0; done|]. cbn. f_equal. apply Hd in E as Ein. apply elem_of_cons in Ein as [[= -> -> ->]|Hin]; [done|]. exfalso.
  apply StronglySorted_inv in Hs as [_ Hf]. rewrite Forall_forall in Hf. specialize (Hf _ Hin). unfold earlier in Hf. cbn in Hf. specialize (Hm _ _ _ E0). lia.
Qed.
Lemma in_order_tail m p l : in_order m (p :: l) -> filter (fun p' => p'.1 <> p.1) (p :: l) = l.
Proof.
  intros Hi. pose proof (in_order_NoDup _ _ Hi) as Hn. apply NoDup_cons in Hn as [Hp _]. rewrite filter_cons, decide_False by naive_solver. apply filter_all. intros y Hy E. apply Hp. rewrite <-E. by apply list_elem_of_fmap_2.
Qed.
Definition lru_repr (ks vs mx : Z) (m : BpfLruHashMap) (q : lru_queue) (n : Z) : Prop :=
  lru_wf m /\ l_key_size m = ks /\ l_value_size m = vs /\ l_max_entries m = mx /\ 0 <= access_counter m <= n /\ exists l, in_order m l /\ q = unstamped l.
Lemma lru_room_in_order k m l : lru_wf m -> in_order m l -> l_data m !! k = None ->
  in_order (mkLru (l_key_size m) (l_value_size m) (l_max_entries m) (without (victim k m) (l_data m)) (access_counter m)) (if l_max_entries m <=? Z.of_nat (length l) then tail l else l) /\ without (victim k m) (l_data m) !! k = None.
Proof.
  intros Hw Hi Hk. rewrite (in_order_size _ _ Hi). unfold victim. rewrite bool_decide_false by (rewrite Hk; by intros [? ?]). cbn [orb]. rewrite Z.ltb_antisym. destruct (Z.leb_spec (l_max_entries m) (Z.of_nat (size (l_data m)))) as [Hfull|Hfree]; cbn [negb]; [|split; [by destruct m|done]].
  destruct l as [|p l]; [pose proof (in_order_size _ _ Hi) as E; cbn in E; destruct Hw as (_ & H0 & _); lia|]. rewrite (in_order_oldest _ _ _ Hi). cbn [without tail]. split; [|by rewrite lookup_delete_None; right]. pose proof (in_order_remove _ _ p.1 Hi) as Hr. by rewrite (in_order_tail _ _ _ Hi) in Hr.
Qed.
Lemma unstamped_push l k v n : unstamped (l ++ [(k, (v, n))]) = unstamped l ++ [(k, v)].
Proof. unfold unstamped. by rewrite fmap_app. Qed.
Lemma lru_update_queue ks vs mx k v f m q n : lru_repr ks vs mx m q n -> 0 <= n < u64_max ->
  lru_repr ks vs mx (lru_step (LUpdate k v f) m).1 (q_step ks vs mx (LUpdate k v f) q).1 (n + 1) /\ (lru_step (LUpdate k v f) m).2 = (q_step ks vs mx (LUpdate k v f) q).2.
Proof.
  intros (Hw & <- & <- & <- & Hc & l & Hi & ->) Hn. pose proof (lru_update_cases k v f m Hw) as Hu. pose proof (lru_keeps k v f m Hw) as [Hkeep _]. cbn [lru_step ops_update lru_ops q_step]. rewrite (in_order_find m l k Hi).
  assert (lru_repr (l_key_size m) (l_value_size m) (l_max_entries m) m (unstamped l) (n + 1)) as Hsame by (split_and!; try done; try lia; by exists l).
  destruct (negb (len k =? l_key_size m) || negb (len v =? l_value_size m)) eqn:Esz; [unfold lru_update; rewrite Esz; done|]. assert (u64_add (access_counter m) 1 = access_counter m + 1) as Ec by (apply u64_add_small; unfold u64_max in Hn; lia).
  destruct (l_data m !! k) as [x|] eqn:Ek; cbn [fmap option_fmap option_map].
  - destruct (flag f BPF_NOEXIST) eqn:Ef; [unfold lru_update; rewrite Esz, Ek, bool_decide_true, Ef by (by eexists); done|].
    destruct (lru_update k v f m) as [m' [[]|e]]; [|destruct Hu as [_ [[_ [?|?]]|(_ & ? & _)]]; [apply orb_false_elim in Esz as [?%negb_false_iff%Z.eqb_eq ?]; done|apply orb_false_elim in Esz as [? ?%negb_false_iff%Z.eqb_eq]; done|congruence]]. cbn [fst snd] in *. split; [|done]. destruct Hu as (U1 & U2 & U3). assert (victim k m = None) as Ev by (unfold victim; by rewrite Ek, bool_decide_true by (by eexists)). rewrite Ev in U3. cbn [without] in U3. subst m'.
    split; [done|]. cbn [l_key_size l_value_size l_max_entries access_counter]. split_and!; [done|done|done|lia|lia|]. pose proof (in_order_push _ _ k v (in_order_remove m l k Hi) (lookup_delete_eq _ _) ltac:(cbn; lia) ltac:(cbn; lia)) as Hp. cbn [l_data access_counter l_key_size l_value_size l_max_entries] in Hp. rewrite insert_delete_eq in Hp. exists (filter (fun p => p.1 <> k) l ++ [(k, (v, u64_add (access_counter m) 1))]). split; [done|]. by rewrite unstamped_push, unstamped_remove.
  - destruct (lru_update k v f m) as [m' [[]|e]]; [|destruct Hu as [_ [[_ [?|?]]|(_ & _ & [? ?])]]; [apply orb_false_elim in Esz as [?%negb_false_iff%Z.eqb_eq ?]; done|apply orb_false_elim in Esz as [? ?%negb_false_iff%Z.eqb_eq]; done|congruence]]. cbn [fst snd] in *. split; [|done]. destruct Hu as (U1 & U2 & ->). destruct (lru_room_in_order k m l Hw Hi Ek) as [Hr Hrk].
    split; [done|]. cbn [l_key_size l_value_size l_max_entries access_counter]. split_and!; [done|done|done|lia|lia|]. pose proof (in_order_push _ _ k v Hr Hrk ltac:(cbn; lia) ltac:(cbn; lia)) as Hp. cbn [l_data access_counter l_key_size l_value_size l_max_entries] in Hp. eexists. split; [exact Hp|]. rewrite unstamped_push. f_equal. unfold unstamped. rewrite length_fmap. destruct (_ <=? _); [|done]. by destruct l.
Qed.
Lemma lru_step_queue ks vs mx o m q n : lru_repr ks vs mx m q n -> 0 <= n < u64_max -> lru_repr ks vs mx (lru_step o m).1 (q_step ks vs mx o q).1 (n + 1) /\ (lru_step o m).2 = (q_step ks vs mx o q).2.
Proof.
  intros Hr Hn. destruct o as [k|k v f|k]; [|by apply lru_update_queue|]; destruct Hr as (Hw & <- & <- & <- & Hc & l & Hi & ->).
  - cbn [lru_step q_step fst snd ops_lookup lru_ops]. rewrite (in_order_find m l k Hi). split; [|done]. split_and!; try done; try lia; by exists l.
  - cbn [lru_step q_step ops_delete lru_ops]. rewrite (in_order_find m l k Hi). pose proof (delete_keeps m k Hw) as [Hk _]. cbn [ops_delete lru_ops] in Hk. unfold lru_delete in *. destruct (l_data m !! k); cbn [fmap option_fmap option_map fst snd] in *; (split; [|done]); (split; [done|]); cbn [l_key_size l_value_size l_max_entries access_counter]; split_and!; try done; try lia; [|by exists l]. exists (filter (fun p => p.1 <> k) l). split; [by apply in_order_remove|]. by rewrite unstamped_remove.
Qed.
Lemma lru_run_queue ks vs mx l m q n : lru_repr ks vs mx m q n -> 0 <= n -> n + Z.of_nat (length l) < u64_max -> (lru_run l m).2 = (q_run ks vs mx l q).2.
Proof.
  revert m q n. induction l as [|o l IH]; intros m q n Hr H0 Hb; [done|]. cbn [lru_run q_run length] in *.
  destruct (lru_step_queue ks vs mx o m q n Hr ltac:(lia)) as [Hr' Ho]. destruct (lru_step o m) as [m1 x], (q_step ks vs mx o q) as [q1 y]; cbn [fst snd] in *. subst y. specialize (IH m1 q1 (n + 1) Hr' ltac:(lia) ltac:(lia)). destruct (lru_run l m1), (q_run ks vs mx l q1); cbn [snd] in *. by rewrite IH.
Qed.
(** The LRU map evicts the key whose last update is the oldest.  From an empty map, any
    sequence of fewer than 2^64 lookups, updates and deletions returns what a queue of
    bindings returns in which an update moves its key to the end and, when the
    key is new and the queue full, drops the front. *)
Theorem lru_refines ks vs mx l : 0 <= vs -> 0 < mx <= BPF_MAP_MAX_ENTRIES -> Z.of_nat (length l) < u64_max -> (lru_run l (lru_new ks vs mx)).2 = (q_run ks vs mx l []).2.
Proof.
  intros Hv Hm Hl. assert (lru_repr ks vs mx (lru_new ks vs mx) [] 0) as Hr.
  { split; [split; [done|]; split; [cbn; lia|by apply sized_empty]|]. split_and!; try done. exists []. split; [|done]. split; [constructor| |constructor]. intros k x. cbn. rewrite lookup_empty. split; [by intros ?%elem_of_nil|done]. }
  apply (lru_run_queue ks vs mx l _ _ 0 Hr); lia.
Qed.

(** ** Programs and maps *)
(** What no program changes. *)
Definition same_maps (r r' : Registry) : Prop := next_map_id r' = next_map_id r /\ ringbufs r' = ringbufs r /\ shape <$> maps r' = shape <$> maps r.
Definition kept_registry (r0 r : Registry) : Prop := registry_wf r /\ same_maps r0 r.
Lemma kept_set r0 r id m m' : kept_registry r0 r -> maps r !! id = Some m -> map_wf m' -> shape m' = shape m -> kept_registry r0 (set_maps (<[id := m']> (maps r)) r).
Proof.
  intros [Hw (S1 & S2 & S3)] E Hm Hs. split; [by apply maps_insert_wf|]. split; [done|]. split; [done|]. cbn [set_maps maps]. rewrite fmap_insert, Hs, <-S3. apply insert_id. by rewrite lookup_fmap, E.
Qed.
Lemma update_kept r0 id k v f r : kept_registry r0 r -> kept_registry r0 (Ebpf.map_update_elem id k v f r).1.
Proof.
  intros Hk. cbn [Ebpf.map_update_elem registry_maps]. unfold map_update_elem. destruct (maps r !! id) as [m|] eqn:E; [|done]. pose proof (update_keeps m k v f (proj1 (proj1 Hk) id m E)) as [K1 K2]. destruct (ops_update k v f m) as [m' x]; cbn [fst] in *. by apply (kept_set r0 r id m m').
Qed.
Lemma delete_kept r0 id k r : kept_registry r0 r -> kept_registry r0 (Ebpf.map_delete_elem id k r).1.
Proof.
  intros Hk. cbn [Ebpf.map_delete_elem registry_maps]. unfold map_delete_elem. destruct (maps r !! id) as [m|] eqn:E; [|done]. pose proof (delete_keeps m k (proj1 (proj1 Hk) id m E)) as [K1 K2]. destruct (ops_delete k m) as [m' x]; cbn [fst] in *. by apply (kept_set r0 r id m m').
Qed.
(** C15: programs and maps together.  A program that the verifier accepts, run by the interpreter (not
    compiled) with the registry of maps as it is after any operations, ends, and leaves every map
    well-formed: the same maps exist, with the same types, sizes and capacities,
    none holds more than its capacity, and the ring buffers are untouched. *)
Theorem programs_keep_maps env jit p ty ctx vm l : ops_ok l registry0 -> verify_program p ty = inl tt -> program vm = p -> prog_type vm = ty -> jit_program vm = None -> 0 <= insn_count vm < 2 ^ 63 ->
  let r := (run_ops l registry0).1 in
  exists vm' r' x, execute env jit ctx vm r = Some (vm', r', x) /\ same_maps r r' /\
    forall id m, maps r' !! id = Some m -> Z.of_nat (size (contents m)) <= max_entries m /\ forall k v, contents m !! k = Some v -> len k = key_size m /\ len v = value_size m.
Proof.
  intros Hl Hv Hp Hty Hj Hc r. destruct (ops_refine l registry0 ltac:(by split; apply map_Forall_empty) Hl) as [Hw _]. fold r in Hw. destruct (verified_runs env jit p ty ctx vm r Hv Hp Hty Hj Hc) as (vm' & r' & x & E & _). exists vm', r', x. split; [done|].
  destruct (execute_keeps_maps env (kept_registry r) (update_kept r) (delete_kept r) jit ctx vm r vm' r' x E ltac:(by split)) as [Hw' Hs]. split; [done|]. intros id m Em. pose proof (proj1 Hw' id m Em) as Hm. split; [by apply contents_bounded|]. intros k v Hk. by apply (contents_sized m).
Qed.

(** ** Examples *)
Definition key4 (i : Z) : bytes := to_le 4 i.
Definition script : list op := [OCreate LruHash 4 4 2; OUpdate 1 (key4 7) [1; 0; 0; 0] 0; OUpdate 1 (key4 8) [2; 0; 0; 0] 0; OLookup 1 (key4 7); OUpdate 1 (key4 9) [3; 0; 0; 0] 0; OLookup 1 (key4 7); OCreate Array 0 4 3; OUpdate 2 (key4 2) [5; 6; 7; 8] 0; OLookup 2 (key4 2); OCreate Ringbuf 0 0 4; OOutput 3 [1; 2; 3]; OConsume 3 2; OOutput 3 [4; 5; 6]; OConsume 3 9].
(** A lookup does not count as a use: key 7 goes although it was just read; a ring that is filled loses all. *)
Example script_outputs : (run_ops script registry0).2 = [RId (inl 1); RUnit (inl tt); RUnit (inl tt); RBytes (Some [1; 0; 0; 0]); RUnit (inl tt); RBytes None; RId (inl 2); RUnit (inl tt); RBytes (Some [5; 6; 7; 8]); RId (inl 3); RUnit (inl tt); RBytes (Some [1; 2]); RUnit (inl tt); RBytes None].
Proof. vm_compute. reflexivity. Qed.
(** The machine passes four bytes as the value, whatever the map holds: a program cannot update a map of longer values. *)
Example long_values_refused : (Ebpf.map_update_elem 1 (key4 1) [1; 2; 3; 4] 0 (step (OCreate Hash 4 8 10) registry0).1).2 = false.
Proof. vm_compute. reflexivity. Qed.
(** A check of [ops_ok]. *)
Definition byteb (b : Z) : bool := (0 <=? b) && (b <? 256).
Definition key_okb (id : Z) (k : bytes) (r : Registry) : bool := match maps r !! id with Some m => forallb byteb k && (len k =? key_size m) | None => true end.
Definition op_okb (o : op) (r : Registry) : bool :=
  match o with
  | OCreate _ ks vs mx => (0 <=? ks) && (0 <=? vs) && (0 <=? mx)
  | OLookup id k | ODelete id k => key_okb id k r
  | OUpdate id k v _ => key_okb id k r && forallb byteb v
  | _ => true
  end.
Fixpoint ops_okb (l : list op) (r : Registry) : bool := match l with [] => true | o :: l' => op_okb o r && ops_okb l' (step o r).1 end.
Lemma byteb_ok l : forallb byteb l = true -> Forall is_u8 l.
Proof. rewrite forallb_forall. intros Hl. apply Forall_forall. intros b Hb. apply is_u8_bool, Hl. by apply list_elem_of_In. Qed.
Lemma key_okb_ok id k r : key_okb id k r = true -> key_ok id k r.
Proof. unfold key_okb. intros Hk m E. rewrite E in Hk. apply andb_prop in Hk as [H1 H2%Z.eqb_eq]. split; [by apply byteb_ok|done]. Qed.
Lemma ops_okb_ok l r : ops_okb l r = true -> ops_ok l r.
Proof.
  revert r. induction l as [|o l IH]; intros r; cbn [ops_okb ops_ok]; [done|]. intros [Ho Hl]%andb_prop. split; [|by apply IH]. destruct o; cbn [op_okb op_ok] in *; try done; try by apply key_okb_ok.
  - apply andb_prop in Ho as [[H1%Z.leb_le H2%Z.leb_le]%andb_prop H3%Z.leb_le]. done.
  - apply andb_prop in Ho as [H1 H2]. split; [by apply key_okb_ok|by apply byteb_ok].
Qed.
Definition lru_script : list lru_op := [LUpdate [1] [10] 0; LUpdate [2] [20] 0; LUpdate [1] [11] 0; LUpdate [3] [30] BPF_NOEXIST; LLookup [2]; LLookup [1]; LDelete [1]; LUpdate [4] [40; 41] 0; LUpdate [3] [31] BPF_NOEXIST].
Lemma lru_refines_witness : (lru_run lru_script (lru_new 1 1 2)).2 = (q_run 1 1 2 lru_script []).2.
Proof. apply (lru_refines 1 1 2 lru_script); [discriminate|split; [reflexivity|vm_compute; discriminate]|reflexivity]. Defined.
(** Binds 2 to 2 in map 2. *)
Definition map_program : list Z := [MOVX 6 10; ADDK 6 (-8); MOVK 0 2; STXDW 6 0 0; MOVX 2 6; MOVX 3 6; MOVK 1 2; MOVK 4 0; CALL 2; EXIT].
Example map_program_updates : (fun '(_, r, x) => (map_lookup_elem 2 (key4 2) r, x)) <$> execute env0 (fun _ _ => Some (inr JitError)) 0 (ebpf_vm_new map_program 1) (run_ops script registry0).1 = Some (Some [2; 0; 0; 0], inl 0).
Proof. vm_compute. reflexivity. Qed.
Lemma programs_keep_maps_witness : exists vm' r' x, execute env0 (fun _ _ => Some (inr JitError)) 0 (ebpf_vm_new map_program 1) (run_ops script registry0).1 = Some (vm', r', x) /\ same_maps (run_ops script registry0).1 r'.
Proof.
  destruct (programs_keep_maps env0 (fun _ _ => Some (inr JitError)) map_program 1 0 (ebpf_vm_new map_program 1) script) as (vm' & r' & x & E & Hs & _); [apply ops_okb_ok; vm_compute; reflexivity|vm_compute; reflexivity|reflexivity|reflexivity|reflexivity|vm_compute; split; [discriminate|reflexivity]|]. exists vm', r', x. split; [exact E|exact Hs].
Defined.
End EbpfMaps.
