(* ===== verification/EbpfLoader.v ===== *)
(** * eBPF: loading and attaching programs

    Models the second half of [src/src/net/ebpf.rs]: the program types, the table of loaded programs
    and attachments ([EbpfLoader]), the ELF reader [load_elf], and the registries of
    program types and attach points, and the hooks built on them.

    [loaded_run_ends]: whatever was loaded, attached, detached and run before, and
    nothing compiled, a program attached at a point runs to an end when an event arrives.
    [attach_lookup_spec] and [attach_trace_runs]: which program that is.
    A Rust panic (a slice out of range) is [None]. *)
From stdpp Require Import strings pretty.
From S2P Require Import Prelude Ebpf.
Import Ebpf.

Module EbpfLoader.

Definition BPF_PROG_TYPE_SOCKET_FILTER : Z := 1.
Definition BPF_PROG_TYPE_KPROBE : Z := 2.
Definition BPF_PROG_TYPE_SCHED_CLS : Z := 3.
Definition BPF_PROG_TYPE_SCHED_ACT : Z := 4.
Definition BPF_PROG_TYPE_TRACEPOINT : Z := 5.
Definition BPF_PROG_TYPE_XDP : Z := 6.
Definition BPF_PROG_TYPE_PERF_EVENT : Z := 7.
Definition BPF_PROG_TYPE_CGROUP_SKB : Z := 8.
Definition BPF_PROG_TYPE_CGROUP_SOCK : Z := 9.
Definition BPF_PROG_TYPE_LWT_IN : Z := 10.
Definition BPF_PROG_TYPE_LWT_OUT : Z := 11.
Definition BPF_PROG_TYPE_LWT_XMIT : Z := 12.
Definition BPF_PROG_TYPE_SOCK_OPS : Z := 13.
Definition BPF_PROG_TYPE_SK_SKB : Z := 14.
Definition BPF_PROG_TYPE_CGROUP_DEVICE : Z := 15.
Definition BPF_PROG_TYPE_SK_MSG : Z := 16.
Definition BPF_PROG_TYPE_RAW_TRACEPOINT : Z := 17.
Definition BPF_PROG_TYPE_CGROUP_SOCK_ADDR : Z := 18.
Definition BPF_PROG_TYPE_LWT_SEG6LOCAL : Z := 19.
Definition BPF_PROG_TYPE_LIRC_MODE2 : Z := 20.
Definition BPF_PROG_TYPE_SK_REUSEPORT : Z := 21.
Definition BPF_PROG_TYPE_FLOW_DISSECTOR : Z := 22.
Definition BPF_PROG_TYPE_CGROUP_SYSCTL : Z := 23.
Definition BPF_PROG_TYPE_RAW_TRACEPOINT_WRITABLE : Z := 24.
Definition BPF_PROG_TYPE_CGROUP_SOCKOPT : Z := 25.
Definition named (s : string) (l : list string) : bool := existsb (fun t => bool_decide (s = t)) l.
Definition one_of (x : Z) (l : list Z) : bool := existsb (Z.eqb x) l.
(** A table from names to answers; the first line that names [s] counts. *)
Fixpoint table {A} (s : string) (l : list (list string * A)) : option A := match l with [] => None | (names, a) :: l' => if named s names then Some a else table s l' end.

(** ** Names *)
Definition normalize_attach_point (attach_point : string) : string :=
  default attach_point (table attach_point [
    (["ingress"; "net:rx"; "socket:ingress"], "net:ingress"); (["egress"; "net:tx"; "socket:egress"], "net:egress");
    (["classifier"; "tc:classifier"; "tc:ingress"], "net:classifier"); (["xdp"; "xdp:ingress"; "driver:xdp"], "net:xdp");
    (["reuseport"; "socket:reuseport"], "net:reuseport"); (["flow-dissector"; "flow:dissector"], "net:flow-dissector");
    (["tracepoint"; "trace:tp"], "trace:tracepoint"); (["kprobe"; "trace:kp"], "trace:kprobe"); (["perf"; "trace:perf-event"], "trace:perf");
    (["raw-tracepoint"; "trace:raw-tracepoint"], "trace:raw"); (["cgroup-skb"; "cgroup:skb/ingress"; "cgroup:skb/egress"], "cgroup:skb");
    (["cgroup-sock"; "cgroup:sock/create"], "cgroup:sock"); (["cgroup-sock-addr"; "cgroup:connect4"; "cgroup:connect6"], "cgroup:sock-addr");
    (["cgroup-device"], "cgroup:device"); (["cgroup-sysctl"], "cgroup:sysctl"); (["cgroup-sockopt"], "cgroup:sockopt");
    (["lwt-in"; "lwt:ingress"], "lwt:in"); (["lwt-out"; "lwt:egress"], "lwt:out"); (["lwt-xmit"; "lwt:transmit"], "lwt:xmit"); (["lwt-seg6local"; "lwt:seg6"], "lwt:seg6local");
    (["lirc-mode2"; "lirc:rx"], "lirc:mode2"); (["sock-ops"; "sock:operations"], "sock:ops"); (["sock-msg"; "sock:message"], "sock:msg"); (["sk-skb"; "sock:skb-stream"], "sock:skb")]).
Definition test_point (name : string) : string :=
  default name (table name [
    (["ingress"], "net:ingress"); (["egress"], "net:egress"); (["classifier"], "net:classifier"); (["xdp"], "net:xdp"); (["reuseport"], "net:reuseport"); (["flow-dissector"], "net:flow-dissector");
    (["kprobe"], "trace:kprobe"); (["tracepoint"], "trace:tracepoint"); (["perf"], "trace:perf"); (["raw-tracepoint"], "trace:raw");
    (["cgroup-skb"], "cgroup:skb"); (["cgroup-sock"], "cgroup:sock"); (["cgroup-sock-addr"], "cgroup:sock-addr"); (["cgroup-device"], "cgroup:device"); (["cgroup-sysctl"], "cgroup:sysctl"); (["cgroup-sockopt"], "cgroup:sockopt");
    (["lwt-in"], "lwt:in"); (["lwt-out"], "lwt:out"); (["lwt-xmit"], "lwt:xmit"); (["lwt-seg6local"], "lwt:seg6local"); (["lirc-mode2"], "lirc:mode2"); (["sock-ops"], "sock:ops"); (["sock-msg"], "sock:msg"); (["sk-skb"], "sock:skb")]).
Fixpoint starts_with (prefix s : string) : bool :=
  match prefix, s with
  | EmptyString, _ => true
  | String a p, String b t => Ascii.eqb a b && starts_with p t
  | _, _ => false
  end.
Fixpoint drop_chars (n : nat) (s : string) : string := match n, s with S n', String _ t => drop_chars n' t | _, _ => s end.
(** [trim_start_matches]: the prefix is removed as often as it stands there; a round removes at least a character. *)
Fixpoint trim_start_fuel (fuel : nat) (prefix s : string) : string :=
  match fuel with O => s | S fuel' => if starts_with prefix s then trim_start_fuel fuel' prefix (drop_chars (String.length prefix) s) else s end.
Definition trim_start_matches (prefix s : string) : string := trim_start_fuel (String.length s) prefix s.
Definition slash : Ascii.ascii := Ascii.ascii_of_nat 47.
Definition colon : Ascii.ascii := Ascii.ascii_of_nat 58.
(** [split(c).next()] *)
Fixpoint before (c : Ascii.ascii) (s : string) : string := match s with EmptyString => EmptyString | String a t => if Ascii.eqb a c then EmptyString else String a (before c t) end.

Definition trace_prog_type (t : Z) : bool := one_of t [BPF_PROG_TYPE_KPROBE; BPF_PROG_TYPE_TRACEPOINT; BPF_PROG_TYPE_PERF_EVENT; BPF_PROG_TYPE_RAW_TRACEPOINT; BPF_PROG_TYPE_RAW_TRACEPOINT_WRITABLE].
Definition cgroup_prog_type (t : Z) : bool := one_of t [BPF_PROG_TYPE_CGROUP_SKB; BPF_PROG_TYPE_CGROUP_SOCK; BPF_PROG_TYPE_CGROUP_SOCK_ADDR; BPF_PROG_TYPE_CGROUP_DEVICE; BPF_PROG_TYPE_CGROUP_SYSCTL; BPF_PROG_TYPE_CGROUP_SOCKOPT].
Definition lwt_prog_type (t : Z) : bool := one_of t [BPF_PROG_TYPE_LWT_IN; BPF_PROG_TYPE_LWT_OUT; BPF_PROG_TYPE_LWT_XMIT; BPF_PROG_TYPE_LWT_SEG6LOCAL].
Definition sock_prog_type (t : Z) : bool := one_of t [BPF_PROG_TYPE_SOCK_OPS; BPF_PROG_TYPE_SK_MSG; BPF_PROG_TYPE_SK_SKB].
Definition builtin_types (attach_point : string) : option (list Z) :=
  table attach_point [
    (["net:ingress"; "net:egress"], [BPF_PROG_TYPE_SOCKET_FILTER; BPF_PROG_TYPE_SCHED_ACT; BPF_PROG_TYPE_SCHED_CLS]); (["net:classifier"], [BPF_PROG_TYPE_SCHED_CLS]); (["net:xdp"], [BPF_PROG_TYPE_XDP]);
    (["net:reuseport"], [BPF_PROG_TYPE_SK_REUSEPORT]); (["net:flow-dissector"], [BPF_PROG_TYPE_FLOW_DISSECTOR]); (["trace:kprobe"], [BPF_PROG_TYPE_KPROBE]); (["trace:tracepoint"], [BPF_PROG_TYPE_TRACEPOINT]);
    (["trace:perf"], [BPF_PROG_TYPE_PERF_EVENT]); (["trace:raw"], [BPF_PROG_TYPE_RAW_TRACEPOINT; BPF_PROG_TYPE_RAW_TRACEPOINT_WRITABLE]); (["cgroup:skb"], [BPF_PROG_TYPE_CGROUP_SKB]); (["cgroup:sock"], [BPF_PROG_TYPE_CGROUP_SOCK]);
    (["cgroup:sock-addr"], [BPF_PROG_TYPE_CGROUP_SOCK_ADDR]); (["cgroup:device"], [BPF_PROG_TYPE_CGROUP_DEVICE]); (["cgroup:sysctl"], [BPF_PROG_TYPE_CGROUP_SYSCTL]); (["cgroup:sockopt"], [BPF_PROG_TYPE_CGROUP_SOCKOPT]);
    (["lwt:in"], [BPF_PROG_TYPE_LWT_IN]); (["lwt:out"], [BPF_PROG_TYPE_LWT_OUT]); (["lwt:xmit"], [BPF_PROG_TYPE_LWT_XMIT]); (["lwt:seg6local"], [BPF_PROG_TYPE_LWT_SEG6LOCAL]); (["lirc:mode2"], [BPF_PROG_TYPE_LIRC_MODE2]);
    (["sock:ops"], [BPF_PROG_TYPE_SOCK_OPS]); (["sock:msg"], [BPF_PROG_TYPE_SK_MSG]); (["sock:skb"], [BPF_PROG_TYPE_SK_SKB])].
Definition builtin_match (attach_point : string) (t : Z) : bool :=
  match builtin_types attach_point with Some l => one_of t l | None => starts_with "socket:" attach_point && (t =? BPF_PROG_TYPE_SOCKET_FILTER) end.

(** ** The registries *)
Abbreviation EbpfAttachVerifier := (Z -> bool).
Record Registries := mkRegs { prog_types : gmap Z bool; attach_points : gmap string EbpfAttachVerifier; attach_families : gmap string EbpfAttachVerifier }.
Definition registries0 : Registries := mkRegs ∅ ∅ ∅.
Definition register_program_type (t : Z) (r : Registries) : Registries := mkRegs (<[t := true]> (prog_types r)) (attach_points r) (attach_families r).
Definition register_attach_point (p : string) (v : EbpfAttachVerifier) (r : Registries) : Registries := mkRegs (prog_types r) (<[normalize_attach_point p := v]> (attach_points r)) (attach_families r).
Definition register_attach_family (f : string) (v : EbpfAttachVerifier) (r : Registries) : Registries :=
  let family_key := if bool_decide (f = "*") then "*" else normalize_attach_point f in mkRegs (prog_types r) (attach_points r) (<[family_key := v]> (attach_families r)).
Definition prog_type_is_registered (t : Z) (r : Registries) : bool := default false (prog_types r !! t).
Definition is_supported_packet_prog_type (t : Z) (r : Registries) : bool :=
  one_of t [BPF_PROG_TYPE_SOCKET_FILTER; BPF_PROG_TYPE_SCHED_CLS; BPF_PROG_TYPE_SCHED_ACT; BPF_PROG_TYPE_XDP; BPF_PROG_TYPE_KPROBE; BPF_PROG_TYPE_TRACEPOINT; BPF_PROG_TYPE_PERF_EVENT; BPF_PROG_TYPE_CGROUP_SKB; BPF_PROG_TYPE_CGROUP_SOCK; BPF_PROG_TYPE_LWT_IN; BPF_PROG_TYPE_LWT_OUT; BPF_PROG_TYPE_LWT_XMIT; BPF_PROG_TYPE_SOCK_OPS; BPF_PROG_TYPE_SK_SKB; BPF_PROG_TYPE_SK_MSG; BPF_PROG_TYPE_CGROUP_DEVICE; BPF_PROG_TYPE_RAW_TRACEPOINT; BPF_PROG_TYPE_CGROUP_SOCK_ADDR; BPF_PROG_TYPE_LWT_SEG6LOCAL; BPF_PROG_TYPE_LIRC_MODE2; BPF_PROG_TYPE_FLOW_DISSECTOR; BPF_PROG_TYPE_SK_REUSEPORT; BPF_PROG_TYPE_CGROUP_SYSCTL; BPF_PROG_TYPE_RAW_TRACEPOINT_WRITABLE; BPF_PROG_TYPE_CGROUP_SOCKOPT]
  || prog_type_is_registered t r.
Definition generic_attach_accepts_prog_type (t : Z) : bool := true.
(** The longest candidate with an entry; of equally long ones the first. *)
Fixpoint best_candidate {A} (m : gmap string A) (l : list string) (best : option (string * A)) : option (string * A) :=
  match l with
  | [] => best
  | c :: l' =>
      let best := match m !! c with
        | None => best
        | Some v => match best with Some (b, _) => if (String.length b <? String.length c)%nat then Some (c, v) else best | None => Some (c, v) end
        end in best_candidate m l' best
  end.
Definition lookup_attach_verifier (attach_point : string) (r : Registries) : option EbpfAttachVerifier :=
  let normalized := normalize_attach_point attach_point in
  if bool_decide (normalized = "*") then Some generic_attach_accepts_prog_type
  else match attach_points r !! normalized with
    | Some v => Some v
    | None => match best_candidate (attach_families r) [normalized; before slash normalized; before colon normalized; "*"] None with Some (_, v) => Some v | None => Some generic_attach_accepts_prog_type end
    end.
Definition attach_point_accepts_prog_type (attach_point : string) (t : Z) (r : Registries) : bool :=
  let p := if starts_with "test:" attach_point then normalize_attach_point (test_point (trim_start_matches "test:" attach_point)) else normalize_attach_point attach_point in
  if starts_with "trace:" p && trace_prog_type t then true
  else if starts_with "cgroup:" p && cgroup_prog_type t then true
  else if starts_with "lwt:" p && lwt_prog_type t then true
  else if starts_with "sock:" p && sock_prog_type t then true
  else if starts_with "lirc:" p && (t =? BPF_PROG_TYPE_LIRC_MODE2) then true
  else if starts_with "socket:" p && (t =? BPF_PROG_TYPE_SOCKET_FILTER) then true
  else if builtin_match p t then true
  else match lookup_attach_verifier p r with Some v => v t | None => false end.

(** ** The loader *)
Record EbpfLoader := mkLoader { programs : gmap string EbpfVm; attachments : gmap string string }.
Definition loader_new : EbpfLoader := mkLoader ∅ ∅.
Definition set_program (id : string) (vm : EbpfVm) (l : EbpfLoader) : EbpfLoader := mkLoader (<[id := vm]> (programs l)) (attachments l).
Definition load_program (id : string) (p : list Z) (t : Z) (l : EbpfLoader) : EbpfLoader * result unit :=
  match verify_program p t with inr e => (l, inr e) | inl _ => (set_program id (ebpf_vm_new p t) l, inl tt) end.
Definition attach_program (point id : string) (r : Registries) (l : EbpfLoader) : EbpfLoader * result unit :=
  match programs l !! id with
  | None => (l, inr CallError)
  | Some vm =>
      let point := normalize_attach_point point in
      if negb (attach_point_accepts_prog_type point (prog_type vm) r) then (l, inr VerifierRejected) else (mkLoader (programs l) (<[point := id]> (attachments l)), inl tt)
  end.
Definition attach_socket_filter (point id : string) (r : Registries) (l : EbpfLoader) : EbpfLoader * result unit := attach_program point id r l.
Definition detach_socket_filter (point : string) (l : EbpfLoader) : EbpfLoader * result unit :=
  let point := normalize_attach_point point in
  match attachments l !! point with Some _ => (mkLoader (programs l) (delete point (attachments l)), inl tt) | None => (l, inr CallError) end.
Definition lookup_attached_program_id (attachments : gmap string string) (attach_point : string) : option string :=
  let normalized := normalize_attach_point attach_point in
  match attachments !! normalized with
  | Some id => Some id
  | None => snd <$> best_candidate attachments [before slash normalized; before colon normalized; "*"] None
  end.
Definition loader_jit_compile (id : string) (l : EbpfLoader) : EbpfLoader * result unit :=
  match programs l !! id with
  | None => (l, inr CallError)
  | Some vm => match jit_compile vm with inl vm' => (set_program id vm' l, inl tt) | inr e => (l, inr e) end
  end.
Section Run.
Context {M : Type} `{BpfMaps M} (env : Env) (jit : list DecodedInsn -> Z -> option (result Z)).
Definition execute_program (id : string) (ctx : Z) (l : EbpfLoader) (m : M) : option (EbpfLoader * M * result Z) :=
  match programs l !! id with
  | None => Some (l, m, inr CallError)
  | Some vm => '(vm', m', r) ← execute env jit ctx vm m; Some (set_program id vm' l, m', r)
  end.
(** The context is the address of the packet. *)
Definition run_attached_program (point : string) (packet : Z) (l : EbpfLoader) (m : M) : option (EbpfLoader * M * result Z) :=
  match lookup_attached_program_id (attachments l) point with None => Some (l, m, inr CallError) | Some id => execute_program id packet l m end.
Definition run_socket_filter (point : string) (packet : Z) (l : EbpfLoader) (m : M) : option (EbpfLoader * M * result Z) := run_attached_program point packet l m.
End Run.

(** *** ELF files *)
Definition elf_section_matches_prog_type (name : string) (t : Z) : bool :=
  if bool_decide (name = ".text") then true
  else match table name [
    (["socket_filter"], [BPF_PROG_TYPE_SOCKET_FILTER]); (["classifier"; "sched_cls"], [BPF_PROG_TYPE_SCHED_CLS]); (["sched_act"], [BPF_PROG_TYPE_SCHED_ACT]); (["xdp"], [BPF_PROG_TYPE_XDP]); (["flow_dissector"], [BPF_PROG_TYPE_FLOW_DISSECTOR]);
    (["reuseport"], [BPF_PROG_TYPE_SK_REUSEPORT]); (["kprobe"], [BPF_PROG_TYPE_KPROBE]); (["tracepoint"], [BPF_PROG_TYPE_TRACEPOINT]); (["perf_event"], [BPF_PROG_TYPE_PERF_EVENT]);
    (["raw_tracepoint"; "raw_tracepoint_writable"], [BPF_PROG_TYPE_RAW_TRACEPOINT; BPF_PROG_TYPE_RAW_TRACEPOINT_WRITABLE]); (["cgroup_skb"], [BPF_PROG_TYPE_CGROUP_SKB]); (["cgroup_sock"], [BPF_PROG_TYPE_CGROUP_SOCK]);
    (["cgroup_sock_addr"], [BPF_PROG_TYPE_CGROUP_SOCK_ADDR]); (["cgroup_device"], [BPF_PROG_TYPE_CGROUP_DEVICE]); (["cgroup_sysctl"], [BPF_PROG_TYPE_CGROUP_SYSCTL]); (["cgroup_sockopt"], [BPF_PROG_TYPE_CGROUP_SOCKOPT]);
    (["lwt_in"], [BPF_PROG_TYPE_LWT_IN]); (["lwt_out"], [BPF_PROG_TYPE_LWT_OUT]); (["lwt_xmit"], [BPF_PROG_TYPE_LWT_XMIT]); (["lwt_seg6local"], [BPF_PROG_TYPE_LWT_SEG6LOCAL]); (["lirc_mode2"], [BPF_PROG_TYPE_LIRC_MODE2]);
    (["sock_ops"], [BPF_PROG_TYPE_SOCK_OPS]); (["sock_msg"], [BPF_PROG_TYPE_SK_MSG]); (["sk_skb"], [BPF_PROG_TYPE_SK_SKB])] with Some l => one_of t l | None => false end.
Definition len (l : list Z) : Z := Z.of_nat (length l).
(** [get(a..b)]: [None] when the range does not lie inside. *)
Definition get_range (l : list Z) (a b : Z) : option (list Z) := if (a <=? b) && (b <=? len l) then Some (take (Z.to_nat (b - a)) (drop (Z.to_nat a) l)) else None.
Definition read_word (n : Z) (offset : Z) (elf : list Z) : option Z := of_le <$> get_range elf offset (u64_add offset n).
Fixpoint chunks8 (fuel : nat) (l : list Z) : list Z := match fuel with O => [] | S fuel' => if (length l <? 8)%nat then [] else of_le (take 8 l) :: chunks8 fuel' (drop 8 l) end.
(** The bytes as a name; one that is not UTF-8 is none of the names below. *)
Definition bytes_name (l : list Z) : string := String.string_of_list_ascii ((fun b => Ascii.ascii_of_nat (Z.to_nat b)) <$> l).
Definition elf_prog_id (name : string) (n : nat) : string := "elf:" +:+ name +:+ ":" +:+ pretty n.
(** A section at header [shdr]: [None] panics, [Some None] goes on with the next. *)
Definition elf_section (elf shstrtab : list Z) (t : Z) (shdr : Z) (l : EbpfLoader) : option (option (EbpfLoader * result string)) :=
  match read_word 4 shdr elf, read_word 4 (u64_add shdr 4) elf, read_word 8 (u64_add shdr 24) elf, read_word 8 (u64_add shdr 32) elf with
  | Some name_off, Some section_type, Some data_off, Some data_size =>
      if (len shstrtab <=? name_off) || negb (section_type =? 1) || (data_size =? 0) || negb (data_size mod 8 =? 0) then Some None
      else
        let rest := drop (Z.to_nat name_off) shstrtab in
        let name := bytes_name (take (default (length rest) (position (fun b => b =? 0) rest)) rest) in
        if negb (elf_section_matches_prog_type name t) then Some None
        else if len elf <? u64_add data_off data_size then Some (Some (l, inr InvalidElf))
        else
          data ← get_range elf data_off (u64_add data_off data_size);
          let prog_id := elf_prog_id name (size (programs l)) in
          let '(l', r) := load_program prog_id (chunks8 (length data) data) t l in
          Some (Some (l', match r with inl _ => inl prog_id | inr e => inr e end))
  | _, _, _, _ => Some (Some (l, inr InvalidElf))
  end.
Fixpoint elf_sections (elf shstrtab : list Z) (t shoff shentsize : Z) (idx : list nat) (l : EbpfLoader) : option (EbpfLoader * result string) :=
  match idx with
  | [] => Some (l, inr InvalidElf)
  | i :: idx' =>
      r ← elf_section elf shstrtab t (u64_add shoff (u64_mul (Z.of_nat i) shentsize)) l;
      match r with Some x => Some x | None => elf_sections elf shstrtab t shoff shentsize idx' l end
  end.
Definition load_elf (elf : list Z) (t : Z) (l : EbpfLoader) : option (EbpfLoader * result string) :=
  let bad := Some (l, inr InvalidElf) in
  if (64 <=? len elf) && bool_decide (take 4 elf = [0x7f; 0x45; 0x4c; 0x46]) && bool_decide (elf !! 4%nat = Some 2) && bool_decide (elf !! 5%nat = Some 1) then
    match read_word 8 40 elf, read_word 2 58 elf, read_word 2 60 elf, read_word 2 62 elf with
    | Some shoff, Some shentsize, Some shnum, Some shstrndx =>
        if (64 <=? shentsize) && (0 <? shnum) && (shstrndx <? shnum) && (u64_add shoff (shentsize * shnum) <=? len elf) then
          let shstr_off := u64_add shoff (shentsize * shstrndx) in
          match read_word 8 (u64_add shstr_off 24) elf, read_word 8 (u64_add shstr_off 32) elf with
          | Some a, Some n =>
              if u64_add a n <=? len elf then
                shstrtab ← get_range elf a (u64_add a n);
                elf_sections elf shstrtab t shoff shentsize (seq 0 (Z.to_nat shnum)) l
              else bad
          | _, _ => bad
          end
        else bad
    | _, _, _, _ => bad
    end
  else bad.

(** ** The hooks of the kernel *)
Definition attach_trace_program (id : string) (p : list Z) (t : Z) (point : string) (r : Registries) (l : EbpfLoader) : EbpfLoader * result unit :=
  match load_program id p t l with (l, inl _) => attach_program point id r l | (l, inr e) => (l, inr e) end.
Definition attach_ingress_program (id : string) (p : list Z) : Registries -> EbpfLoader -> EbpfLoader * result unit := attach_trace_program id p BPF_PROG_TYPE_SOCKET_FILTER "net:ingress".
Definition attach_egress_program (id : string) (p : list Z) : Registries -> EbpfLoader -> EbpfLoader * result unit := attach_trace_program id p BPF_PROG_TYPE_SOCKET_FILTER "net:egress".
Definition attach_classifier_program (id : string) (p : list Z) : Registries -> EbpfLoader -> EbpfLoader * result unit := attach_trace_program id p BPF_PROG_TYPE_SCHED_CLS "net:classifier".
Definition attach_xdp_program (id : string) (p : list Z) : Registries -> EbpfLoader -> EbpfLoader * result unit := attach_trace_program id p BPF_PROG_TYPE_XDP "net:xdp".
Definition attach_reuseport_program (id : string) (p : list Z) : Registries -> EbpfLoader -> EbpfLoader * result unit := attach_trace_program id p BPF_PROG_TYPE_SK_REUSEPORT "net:reuseport".
Definition attach_flow_dissector_program (id : string) (p : list Z) : Registries -> EbpfLoader -> EbpfLoader * result unit := attach_trace_program id p BPF_PROG_TYPE_FLOW_DISSECTOR "net:flow-dissector".
Definition attach_lirc_program (id : string) (p : list Z) : Registries -> EbpfLoader -> EbpfLoader * result unit := attach_trace_program id p BPF_PROG_TYPE_LIRC_MODE2 "lirc:mode2".
Definition attach_cgroup_program (id : string) (p : list Z) (t : Z) (point : string) : Registries -> EbpfLoader -> EbpfLoader * result unit := attach_trace_program id p t point.
Definition attach_lwt_program (id : string) (p : list Z) (t : Z) (point : string) : Registries -> EbpfLoader -> EbpfLoader * result unit := attach_trace_program id p t point.
Definition attach_sock_program (id : string) (p : list Z) (t : Z) (point : string) : Registries -> EbpfLoader -> EbpfLoader * result unit := attach_trace_program id p t point.
Definition detach_ingress_program : EbpfLoader -> EbpfLoader * result unit := detach_socket_filter "net:ingress".
Definition detach_egress_program : EbpfLoader -> EbpfLoader * result unit := detach_socket_filter "net:egress".
Section Hooks.
Context {M : Type} `{BpfMaps M} (env : Env) (jit : list DecodedInsn -> Z -> option (result Z)).
(** A packet passes when the program returns something else than zero, or when the run ends with [CallError]. *)
Definition filter_packet_at (point : string) (packet : Z) (l : EbpfLoader) (m : M) : option (EbpfLoader * M * result bool) :=
  '(l, m, r) ← run_socket_filter env jit point packet l m;
  Some (l, m, match r with inl verdict => inl (negb (verdict =? 0)) | inr CallError => inl true | inr err => inr err end).
Definition filter_ingress_packet : Z -> EbpfLoader -> M -> option (EbpfLoader * M * result bool) := filter_packet_at "net:ingress".
Definition filter_egress_packet : Z -> EbpfLoader -> M -> option (EbpfLoader * M * result bool) := filter_packet_at "net:egress".
Definition run_trace_program (point : string) (ctx : Z) (l : EbpfLoader) (m : M) : option (EbpfLoader * M * result Z) := run_attached_program env jit point ctx l m.
Definition run_classifier : Z -> EbpfLoader -> M -> option (EbpfLoader * M * result Z) := run_attached_program env jit "net:classifier".
Definition run_xdp : Z -> EbpfLoader -> M -> option (EbpfLoader * M * result Z) := run_attached_program env jit "net:xdp".
Definition run_reuseport : Z -> EbpfLoader -> M -> option (EbpfLoader * M * result Z) := run_attached_program env jit "net:reuseport".
Definition run_flow_dissector : Z -> EbpfLoader -> M -> option (EbpfLoader * M * result Z) := run_attached_program env jit "net:flow-dissector".
Definition run_cgroup_program (point : string) : Z -> EbpfLoader -> M -> option (EbpfLoader * M * result Z) := run_trace_program point.
Definition run_lwt_program (point : string) : Z -> EbpfLoader -> M -> option (EbpfLoader * M * result Z) := run_trace_program point.
Definition run_lirc_program : Z -> EbpfLoader -> M -> option (EbpfLoader * M * result Z) := run_trace_program "lirc:mode2".
Definition run_sock_program (point : string) : Z -> EbpfLoader -> M -> option (EbpfLoader * M * result Z) := run_trace_program point.
(** *** Filters of single sockets *)
Definition socket_filter_new (p : list Z) : EbpfVm := ebpf_vm_new p BPF_PROG_TYPE_SOCKET_FILTER.
Definition from_verified_program (p : list Z) : result EbpfVm := try! u := verify_program p BPF_PROG_TYPE_SOCKET_FILTER in inl (socket_filter_new p).
Definition filter_packet (packet : Z) (vm : EbpfVm) (m : M) : option (EbpfVm * M * result Z) := execute env jit packet vm m.
End Hooks.

(** ** Names of attach points *)
Lemma table_in {A} s (l : list (list string * A)) a : table s l = Some a -> a ∈ l.*2.
Proof. induction l as [|[names b] l IH]; cbn [table fmap list_fmap]; [done|]. destruct (named s names); [intros [= <-]; by left|]. intros E. right. by apply IH. Qed.
(** Normalizing twice is normalizing once. *)
Lemma normalize_idemp p : normalize_attach_point (normalize_attach_point p) = normalize_attach_point p.
Proof.
  unfold normalize_attach_point at 2 3. set (t := [(["ingress"; "net:rx"; "socket:ingress"], "net:ingress"); _; _; _; _; _; _; _; _; _; _; _; _; _; _; _; _; _; _; _; _; _; _; _]). destruct (table p t) as [a|] eqn:E; cbn [default from_option]; unfold id.
  - apply table_in in E. assert (forallb (fun a => bool_decide (normalize_attach_point a = a)) t.*2 = true) as Hf by (vm_compute; reflexivity). rewrite forallb_forall in Hf. apply list_elem_of_In in E. specialize (Hf a E). by apply bool_decide_eq_true in Hf.
  - unfold normalize_attach_point. fold t. by rewrite E.
Qed.
(** Without registered verifiers every attach point takes every type: the fallback accepts all. *)
Lemma attach_accepts_all p t r : attach_points r = ∅ -> attach_families r = ∅ -> attach_point_accepts_prog_type p t r = true.
Proof.
  intros H1 H2. assert (forall q, lookup_attach_verifier q r = Some generic_attach_accepts_prog_type) as Hl by (intros q; unfold lookup_attach_verifier; rewrite H1, H2, lookup_empty; cbn [best_candidate]; rewrite !lookup_empty; by destruct (bool_decide _)).
  unfold attach_point_accepts_prog_type. cbv zeta. rewrite Hl. repeat match goal with |- (if ?b then true else _) = true => destruct b; [done|] end. done.
Qed.
(** The longest candidate that is attached, the first among equals. *)
Lemma best_candidate_spec {A} (m : gmap string A) l best : match best_candidate m l best with
  | Some (c, v) => best = Some (c, v) \/ c ∈ l /\ m !! c = Some v
  | None => best = None /\ forall c, c ∈ l -> m !! c = None
  end /\ forall c v, best_candidate m l best = Some (c, v) -> (forall b w, best = Some (b, w) -> (String.length b <= String.length c)%nat) /\ forall c', c' ∈ l -> is_Some (m !! c') -> (String.length c' <= String.length c)%nat.
Proof.
  revert best. induction l as [|x l IH]; intros best; cbn [best_candidate].
  - split; [destruct best as [[c v]|]; [by left|split; [done|]; by intros c ?%elem_of_nil]|]. intros c v ->. split; [by intros b w [= <- <-]|]. by intros c' ?%elem_of_nil.
  - set (best' := match m !! x with Some _ => _ | None => _ end). destruct (IH best') as [I1 I2]. split.
    + destruct (best_candidate m l best') as [[c v]|].
      * destruct I1 as [I1|[I1 I3]]; [|right; split; [by right|done]]. subst best'. destruct (m !! x) as [w|] eqn:Ex; [|by left]. destruct best as [[b u]|]; [destruct (_ <? _)%nat; [injection I1 as <- <-; right; split; [by left|done]|by left]|injection I1 as <- <-; right; split; [by left|done]].
      * destruct I1 as [I1 I3]. subst best'. destruct (m !! x) as [w|] eqn:Ex; [destruct best as [[b u]|]; [by destruct (_ <? _)%nat|done]|]. split; [done|]. intros c [->|Hc]%elem_of_cons; [done|by apply I3].
    + intros c v E. destruct (I2 c v E) as [I3 I4]. split.
      * intros b w ->. subst best'. destruct (m !! x) as [u|]; [|by apply (I3 b w)]. destruct (Nat.ltb_spec (String.length b) (String.length x)); [specialize (I3 x u eq_refl); lia|by apply (I3 b w)].
      * intros c' [->|Hc]%elem_of_cons [u Hu]; [|by apply I4; [|eexists]]. subst best'. rewrite Hu in I3. destruct best as [[b w]|]; [|by apply (I3 x u)]. destruct (Nat.ltb_spec (String.length b) (String.length x)); [by apply (I3 x u)|]. specialize (I3 b w eq_refl). lia.
Qed.
(** What is attached at a point is found under each of its names. *)
Lemma attached_found (a : gmap string string) p q id : normalize_attach_point p = normalize_attach_point q -> lookup_attached_program_id (<[normalize_attach_point p := id]> a) q = Some id.
Proof. intros E. unfold lookup_attached_program_id. cbv zeta. rewrite <-E. by rewrite lookup_insert_eq. Qed.
(** What is found for an event is attached at the point itself, or else at the longest of its family names. *)
Lemma attach_lookup_spec (a : gmap string string) p : let n := normalize_attach_point p in let family := [before slash n; before colon n; "*"] in
  match lookup_attached_program_id a p with
  | Some id => a !! n = Some id \/ a !! n = None /\ exists c, c ∈ family /\ a !! c = Some id /\ forall c', c' ∈ family -> is_Some (a !! c') -> (String.length c' <= String.length c)%nat
  | None => a !! n = None /\ forall c, c ∈ family -> a !! c = None
  end.
Proof.
  cbv zeta. unfold lookup_attached_program_id. cbv zeta. set (n := normalize_attach_point p). destruct (a !! n) as [id|]; [by left|]. destruct (best_candidate_spec a [before slash n; before colon n; "*"] None) as [B1 B2]. destruct (best_candidate a _ None) as [[c v]|]; cbn [fmap option_fmap option_map snd].
  - right. split; [done|]. destruct B1 as [?|[B1 B3]]; [done|]. exists c. split; [done|]. split; [done|]. apply (B2 c v eq_refl).
  - by destruct B1.
Qed.

(** ** Histories of the loader *)
Inductive event := ELoad (id : string) (p : list Z) (t : Z) | EElf (elf : list Z) (t : Z) | EAttach (point id : string) (r : Registries) | EDetach (point : string) | EJit (id : string) | ERun (point : string) (packet : Z) | EExecute (id : string) (ctx : Z).
Section History.
Context {M : Type} `{BpfMaps M} (env : Env) (jit : list DecodedInsn -> Z -> option (result Z)).
Definition event_step (e : event) (l : EbpfLoader) (m : M) : option (EbpfLoader * M) :=
  match e with
  | ELoad id p t => Some ((load_program id p t l).1, m)
  | EElf elf t => x ← load_elf elf t l; Some (x.1, m)
  | EAttach point id r => Some ((attach_program point id r l).1, m)
  | EDetach point => Some ((detach_socket_filter point l).1, m)
  | EJit id => Some ((loader_jit_compile id l).1, m)
  | ERun point packet => x ← run_attached_program env jit point packet l m; Some x.1
  | EExecute id ctx => x ← execute_program env jit id ctx l m; Some x.1
  end.
Fixpoint history (es : list event) (l : EbpfLoader) (m : M) : option (EbpfLoader * M) :=
  match es with [] => Some (l, m) | e :: es' => '(l', m') ← event_step e l m; history es' l' m' end.
(** Programs are verified, not compiled, have run at most [n] times, and attachments name programs. *)
Definition vm_ok (n : Z) (vm : EbpfVm) : Prop := verify_program (program vm) (prog_type vm) = inl tt /\ (0 <= insn_count vm <= BPF_MAXINSNS * n) /\ jit_program vm = None.
Definition interpreted (e : event) : Prop := match e with EJit _ => False | _ => True end.
Definition loader_ok (n : Z) (l : EbpfLoader) : Prop := map_Forall (fun _ vm => vm_ok n vm) (programs l) /\ forall p id, attachments l !! p = Some id -> is_Some (programs l !! id).
Lemma vm_ok_more n vm : vm_ok n vm -> vm_ok (n + 1) vm.
Proof. intros (H1 & H2 & H3). split; [done|]. split; [unfold BPF_MAXINSNS in *; lia|done]. Qed.
Lemma loader_ok_more n l : loader_ok n l -> loader_ok (n + 1) l.
Proof. intros [H1 H2]. split; [|done]. intros id vm E. apply vm_ok_more, (H1 id vm E). Qed.
Lemma set_program_ok n id vm l : loader_ok n l -> vm_ok n vm -> loader_ok n (set_program id vm l).
Proof. intros [H1 H2] Hv. split; [by apply map_Forall_insert_2|]. intros p i E. cbn [set_program programs attachments] in *. rewrite lookup_insert_is_Some. destruct (decide (id = i)); [by left|right]. split; [done|by apply (H2 p)]. Qed.
Lemma load_program_ok n id p t l : 0 <= n -> loader_ok n l -> loader_ok n (load_program id p t l).1.
Proof. intros Hn Hl. unfold load_program. destruct (verify_program p t) as [[]|] eqn:E; [|done]. apply set_program_ok; [done|]. split; [done|]. split; [cbn; unfold BPF_MAXINSNS; lia|done]. Qed.
Lemma elf_section_ok n elf tab t shdr l x : 0 <= n -> loader_ok n l -> elf_section elf tab t shdr l = Some (Some x) -> loader_ok n x.1.
Proof.
  intros Hn Hl. unfold elf_section. destruct (read_word 4 shdr elf), (read_word 4 (u64_add shdr 4) elf), (read_word 8 (u64_add shdr 24) elf), (read_word 8 (u64_add shdr 32) elf); try (by intros [= <-]). destruct (_ || _); [done|]. cbv zeta. destruct (elf_section_matches_prog_type _ t); cbn [negb]; [|done]. destruct (len elf <? _); [by intros [= <-]|].
  destruct (get_range elf _ _) as [data|]; cbn [mbind option_bind]; [|done]. match goal with |- context [load_program ?i ?p t l] => pose proof (load_program_ok n i p t l Hn Hl) as H'; destruct (load_program i p t l) as [l' r] end. by intros [= <-].
Qed.
Lemma elf_sections_ok n elf tab t shoff sz idx l x : 0 <= n -> loader_ok n l -> elf_sections elf tab t shoff sz idx l = Some x -> loader_ok n x.1.
Proof.
  intros Hn Hl. induction idx as [|i idx IH]; cbn [elf_sections]; [by intros [= <-]|]. destruct (elf_section elf tab t _ l) as [[y|]|] eqn:E; cbn [mbind option_bind]; [|done|done]. intros [= <-]. by apply (elf_section_ok _ _ _ _ _ _ _ Hn Hl E).
Qed.
Lemma load_elf_ok n elf t l x : 0 <= n -> loader_ok n l -> load_elf elf t l = Some x -> loader_ok n x.1.
Proof.
  intros Hn Hl. unfold load_elf. cbv zeta. destruct (_ && _); [|by intros [= <-]]. destruct (read_word 8 40 elf), (read_word 2 58 elf), (read_word 2 60 elf), (read_word 2 62 elf); try (by intros [= <-]). destruct (_ && _); [|by intros [= <-]]. do 2 (case_match; [|by intros [= <-]]). destruct (_ <=? _); [|by intros [= <-]].
  destruct (get_range elf _ _); cbn [mbind option_bind]; [|done]. by apply elf_sections_ok.
Qed.
(** A verified program runs to an end. *)
Definition run_ends (r : result Z) : Prop := forall e, r = inr e -> e = MemoryAccess \/ e = CallError \/ e = InfiniteLoop.
Lemma execute_vm_ok n vm ctx (m : M) : 0 <= n <= 2 ^ 50 -> vm_ok n vm -> exists vm' m' r, execute env jit ctx vm m = Some (vm', m', r) /\ vm_ok (n + 1) vm' /\ run_ends r.
Proof.
  intros Hn (Hv & Hc & Ej). destruct (verify_program_ok _ _ Hv) as (states & decoded & succ & Ha). destruct (a_len _ _ _ _ Ha) as [_ Hlen].
  destruct (verified_runs env jit (program vm) (prog_type vm) ctx vm m Hv eq_refl eq_refl Ej ltac:(unfold BPF_MAXINSNS in *; lia)) as (vm' & m' & r & E & Hp & Hi & Hr). exists vm', m', r. split; [done|]. split.
  - split; [rewrite Hp; exact Hv|]. split; [unfold BPF_MAXINSNS in *; lia|]. by rewrite (execute_jit env jit ctx vm m vm' m' r E).
  - intros e ->. tauto.
Qed.
Lemma execute_program_ok n id ctx l (m : M) : 0 <= n <= 2 ^ 50 -> loader_ok n l -> exists l' m' r, execute_program env jit id ctx l m = Some (l', m', r) /\ loader_ok (n + 1) l' /\
  match programs l !! id with
  | None => r = inr CallError /\ l' = l
  | Some vm => verify_program (program vm) (prog_type vm) = inl tt /\ run_ends r
  end.
Proof.
  intros Hn Hl. unfold execute_program. destruct (programs l !! id) as [vm|] eqn:E; [|exists l, m, (inr CallError); split; [done|]; split; [by apply loader_ok_more|done]]. pose proof (proj1 Hl id vm E) as Hv. cbn in Hv. destruct (execute_vm_ok n vm ctx m Hn Hv) as (vm' & m' & r & -> & Hv' & Hr). cbn [mbind option_bind]. exists (set_program id vm' l), m', r. split; [done|]. split; [apply set_program_ok; [by apply loader_ok_more|done]|]. split; [apply Hv|done].
Qed.
Lemma event_ok n e l (m : M) l' m' : 0 <= n <= 2 ^ 50 -> interpreted e -> loader_ok n l -> event_step e l m = Some (l', m') -> loader_ok (n + 1) l'.
Proof.
  intros Hn He Hl. pose proof (loader_ok_more n l Hl) as Hl1. destruct e as [id p t|elf t|point id r|point|id|point packet|id ctx]; cbn [event_step].
  - intros [= <- <-]. apply load_program_ok; [lia|done].
  - destruct (load_elf elf t l) as [x|] eqn:E; cbn [mbind option_bind]; [|done]. intros [= <- <-]. apply loader_ok_more. apply (load_elf_ok n elf t l x); [lia|done|done].
  - intros [= <- <-]. unfold attach_program. destruct (programs l !! id) as [vm|] eqn:E; [|done]. destruct (attach_point_accepts_prog_type _ _ _); cbn [negb fst]; [|done]. split; [apply Hl1|]. intros q i. cbn [attachments programs]. rewrite lookup_insert_Some. intros [[_ <-]|[_ Hq]]; [by eexists|by apply (proj2 Hl q)].
  - intros [= <- <-]. unfold detach_socket_filter. destruct (attachments l !! _); [|done]. split; [apply Hl1|]. intros q i. cbn [fst attachments programs]. intros [_ Hq]%lookup_delete_Some. by apply (proj2 Hl q).
  - done.
  - unfold run_attached_program. destruct (lookup_attached_program_id _ _) as [id|]; [|by intros [= <- <-]]. destruct (execute_program_ok n id packet l m Hn Hl) as (l1 & m1 & r & -> & Ho & _). by intros [= <- <-].
  - destruct (execute_program_ok n id ctx l m Hn Hl) as (l1 & m1 & r & -> & Ho & _). by intros [= <- <-].
Qed.
Lemma history_ok es n l (m : M) l' m' : Forall interpreted es -> 0 <= n -> n + Z.of_nat (length es) <= 2 ^ 50 -> loader_ok n l -> history es l m = Some (l', m') -> exists n', 0 <= n' <= 2 ^ 50 /\ loader_ok n' l'.
Proof.
  intros He. revert n l m. induction He as [|e es He _ IH]; intros n l m H0 Hn Hl; cbn [history length] in *; [intros [= <- <-]; exists n; split; [lia|done]|]. destruct (event_step e l m) as [[l1 m1]|] eqn:E; cbn [mbind option_bind]; [|done]. apply (IH (n + 1)); [lia|lia|]. apply (event_ok n e l m l1 m1); [lia|done|done|done].
Qed.
End History.
Lemma loader_new_ok : loader_ok 0 loader_new.
Proof. split; [apply map_Forall_empty|]. intros p id. cbn. by rewrite lookup_empty. Qed.
(** C31: every event is answered.  After any history of up to 2^50 loads (from memory, or from ELF
    files on which the parser does not panic, see [wrapping_section_panics]), attachments,
    detachments and interpreted runs, no program having been compiled (compiled code divides
    without a test and may fault), running what is attached at a point ends: nothing attached gives
    an error and changes neither the loader nor the maps; otherwise the program found exists, was
    accepted by the verifier and fails at most by a memory access, a helper or division, or the
    limit on instructions. *)
Theorem loaded_run_ends {M : Type} `{BpfMaps M} env jit es (m m' : M) l point packet : Z.of_nat (length es) <= 2 ^ 50 -> Forall interpreted es -> history env jit es loader_new m = Some (l, m') ->
  exists l' m'' r, run_attached_program env jit point packet l m' = Some (l', m'', r) /\
  match lookup_attached_program_id (attachments l) point with
  | None => r = inr CallError /\ l' = l /\ m'' = m'
  | Some id => exists vm, programs l !! id = Some vm /\ verify_program (program vm) (prog_type vm) = inl tt /\ forall e, r = inr e -> e = MemoryAccess \/ e = CallError \/ e = InfiniteLoop
  end.
Proof.
  intros Hn He Hh. destruct (history_ok env jit es 0 loader_new m l m' He ltac:(lia) ltac:(lia) loader_new_ok Hh) as (n & Hn' & Hl). unfold run_attached_program. pose proof (attach_lookup_spec (attachments l) point) as Hs. cbv zeta in Hs. destruct (lookup_attached_program_id (attachments l) point) as [id|]; [|by exists l, m', (inr CallError)].
  destruct (execute_program_ok env jit n id packet l m' Hn' Hl) as (l' & m'' & r & E & _ & Hr). exists l', m'', r. split; [done|]. assert (is_Some (programs l !! id)) as [vm Ev] by (destruct Hs as [Hs|(_ & c & _ & Hs & _)]; by apply (proj2 Hl _ _ Hs)). rewrite Ev in Hr. exists vm. split; [done|]. done.
Qed.
(** A hook that was attached runs the program given, under each name of its point. *)
Lemma attach_trace_runs {M : Type} `{BpfMaps M} env jit id p t point q r l ctx (m : M) : verify_program p t = inl tt -> attach_point_accepts_prog_type (normalize_attach_point point) t r = true -> normalize_attach_point q = normalize_attach_point point ->
  let '(l', x) := attach_trace_program id p t point r l in x = inl tt /\ run_attached_program env jit q ctx l' m = execute_program env jit id ctx l' m /\ programs l' !! id = Some (ebpf_vm_new p t).
Proof.
  intros Hv Ha Hq. unfold attach_trace_program, load_program. rewrite Hv. unfold attach_program. cbn [set_program programs]. rewrite lookup_insert_eq. cbn [prog_type ebpf_vm_new]. rewrite Ha. cbn [negb]. split; [done|]. split; [|cbn [programs]; apply lookup_insert_eq]. unfold run_attached_program. cbn [attachments]. by rewrite attached_found.
Qed.

(** ** Examples *)
Definition filter_program : list Z := [MOVK 0 7; EXIT].
Definition events : list event := [ELoad "accept" filter_program 1; EAttach "net:rx" "accept" registries0; ERun "ingress" 0; EDetach "egress"].
Definition after_events : option (EbpfLoader * OneValue) := history env0 (fun _ _ => Some (inr JitError)) events loader_new (mkOne None).
Definition loader_after : EbpfLoader := match after_events with Some (l, _) => l | None => loader_new end.
Example attached_runs : (fun '(_, _, r) => r) <$> run_attached_program env0 (fun _ _ => Some (inr JitError)) "socket:ingress" 0 loader_after (mkOne None) = Some (inl 7).
Proof. vm_compute. reflexivity. Qed.
Lemma loaded_run_ends_witness : exists l' m'' r, run_attached_program env0 (fun _ _ => Some (inr JitError)) "net:ingress" 0 loader_after (mkOne None) = Some (l', m'', r).
Proof. destruct (loaded_run_ends env0 (fun _ _ => Some (inr JitError)) events (mkOne None) (mkOne None) loader_after "net:ingress" 0) as (l' & m'' & r & E & _); [discriminate|repeat constructor|vm_compute; reflexivity|]. exists l', m'', r. exact E. Defined.
(** A socket filter may be attached to a trace point. *)
Example any_type_anywhere : attach_point_accepts_prog_type "trace:kprobe" BPF_PROG_TYPE_SOCKET_FILTER registries0 = true.
Proof. vm_compute. reflexivity. Qed.
(** Offsets of a section that wrap around pass the check of the end and the slice panics. *)
Definition bad_elf : list Z :=
  [0x7f; 0x45; 0x4c; 0x46; 2; 1] ++ replicate 34 0 ++ to_le 8 64 ++ replicate 10 0 ++ to_le 2 64 ++ to_le 2 1 ++ to_le 2 0 ++ replicate 24 0 ++ to_le 8 (u64_max) ++ to_le 8 2 ++ replicate 24 0.
Example wrapping_section_panics : length bad_elf = 128%nat /\ load_elf bad_elf 1 loader_new = None.
Proof. vm_compute. split; reflexivity. Qed.
(** A filter that fails by dividing by zero lets the packet pass, as if none were attached. *)
Example failing_filter_accepts : (fun '(_, _, r) => r) <$> filter_ingress_packet env0 (fun _ _ => Some (inr JitError)) 0 (attach_ingress_program "deny" divide_program registries0 loader_new).1 (mkOne None) = Some (inl true).
Proof. vm_compute. reflexivity. Qed.
End EbpfLoader.
