(* ===== verification/Tmpfs.v ===== *)
(** * tmpfs

    Models [src/src/fs/tmpfs.rs]: inodes, the file system with its operations, and the
    table of mounted instances.  The time stamp counter is an argument of the operations that read it.

    [tmpfs_refines]: from a new file system, any sequence of operations returns what a
    tree of directories and files, given as a finite function from paths, returns;
    paths with [.] and [..] resolve lexically, and the bytes counted are those of the files.
    The examples show how a sparse write exceeds the limit and what an overwrite needs. *)
From S2P Require Import Prelude.

Module Tmpfs.

Definition TMPFS_MAGIC : Z := 0x01021994.
Definition TMPFS_DEFAULT_SIZE : Z := 256 * 1024 * 1024.
Definition TMPFS_NAME_MAX : Z := 255.
Definition TMPFS_MAX_INODES : nat := Z.to_nat 65536.
Definition ENOENT : Z := -2.
Definition EBUSY : Z := -16.
Definition EEXIST : Z := -17.
Definition ENOTDIR : Z := -20.
Definition EISDIR : Z := -21.
Definition EINVAL : Z := -22.
Definition ENOSPC : Z := -28.
Abbreviation bytes := (list Z).
(** [Result<A, i32>] *)
Abbreviation res A := (A + Z)%type.

Inductive TmpfsNodeType := RegularFile | Directory | Symlink | SharedMemory | Socket | Fifo.
#[export] Instance TmpfsNodeType_eq_dec : EqDecision TmpfsNodeType.
Proof. solve_decision. Defined.
Record TmpfsInode := mkInode { ino : Z; node_type : TmpfsNodeType; mode : Z; uid : Z; gid : Z; nlink : Z; isize : Z; data : bytes; entries : gmap string Z; symlink_target : string; ctime : Z; mtime : Z; atime : Z }.
Definition new_file (i md tsc : Z) : TmpfsInode := mkInode i RegularFile md 0 0 1 0 [] ∅ "" tsc tsc tsc.
Definition new_dir (i parent_ino md tsc : Z) : TmpfsInode := mkInode i Directory md 0 0 2 0 [] (<[".." := parent_ino]> (<["." := i]> ∅)) "" tsc tsc tsc.
Definition new_symlink (i : Z) (target : string) (tsc : Z) : TmpfsInode := mkInode i Symlink 511 0 0 1 (Z.of_nat (String.length target)) [] ∅ target tsc tsc tsc.
Definition new_shm (i : Z) (sz : nat) (tsc : Z) : TmpfsInode := mkInode i SharedMemory 384 0 0 1 (Z.of_nat sz) (replicate sz 0) ∅ "" tsc tsc tsc.
Definition set_data (d : bytes) (sz m a : Z) (n : TmpfsInode) : TmpfsInode := mkInode (ino n) (node_type n) (mode n) (uid n) (gid n) (nlink n) sz d (entries n) (symlink_target n) (ctime n) m a.
Definition set_entries (e : gmap string Z) (links : Z) (n : TmpfsInode) : TmpfsInode := mkInode (ino n) (node_type n) (mode n) (uid n) (gid n) links (isize n) (data n) e (symlink_target n) (ctime n) (mtime n) (atime n).
(** [data.resize(n, 0)] *)
Definition resize (n : nat) (d : bytes) : bytes := take n d ++ replicate (n - length d) 0.
Definition splice (offset : nat) (buf d : bytes) : bytes := take offset d ++ buf ++ drop (offset + length buf) d.
Definition write (offset : nat) (buf : bytes) (tsc : Z) (n : TmpfsInode) : TmpfsInode * nat :=
  if negb (bool_decide (node_type n = RegularFile)) && negb (bool_decide (node_type n = SharedMemory)) then (n, 0%nat)
  else
    let fin := (offset + length buf)%nat in
    let d := if (length (data n) <? fin)%nat then resize fin (data n) else data n in
    let d := splice offset buf d in
    (set_data d (Z.of_nat (length d)) tsc (atime n) n, length buf).
(** Reads into a buffer of [len] bytes: the node and the bytes read. *)
Definition read (offset len : nat) (tsc : Z) (n : TmpfsInode) : TmpfsInode * bytes :=
  if (length (data n) <=? offset)%nat then (n, [])
  else
    let avail := (length (data n) - offset)%nat in
    let k := Nat.min len avail in
    (set_data (data n) (isize n) (mtime n) tsc n, take k (drop offset (data n))).
Definition truncate (new_size : nat) (tsc : Z) (n : TmpfsInode) : TmpfsInode := set_data (resize new_size (data n)) (Z.of_nat new_size) tsc (atime n) n.
Definition is_dir (n : TmpfsInode) : bool := bool_decide (node_type n = Directory).
Definition is_file (n : TmpfsInode) : bool := bool_decide (node_type n = RegularFile).

(** ** The file system *)
Record TmpfsFilesystem := mkFs { label : string; inodes : gmap Z TmpfsInode; next_ino : Z; used_bytes : Z; max_bytes : Z; max_inodes : nat }.
Definition fs_new (lbl : string) (mx tsc : Z) : TmpfsFilesystem := mkFs lbl {[ 1 := new_dir 1 1 1023 tsc ]} 2 0 mx TMPFS_MAX_INODES.
Definition set_inodes (m : gmap Z TmpfsInode) (next used : Z) (f : TmpfsFilesystem) : TmpfsFilesystem := mkFs (label f) m next used (max_bytes f) (max_inodes f).
(** The guards shared by [create_file] and [mkdir]. *)
Definition check_parent (parent_ino : Z) (name : string) (f : TmpfsFilesystem) : option Z :=
  if (max_inodes f <=? size (inodes f))%nat then Some ENOSPC
  else match inodes f !! parent_ino with
    | Some parent => if negb (is_dir parent) then Some ENOTDIR else if bool_decide (is_Some (entries parent !! name)) then Some EEXIST else None
    | None => Some ENOENT
    end.
Definition create_file (parent_ino : Z) (name : string) (md tsc : Z) (f : TmpfsFilesystem) : TmpfsFilesystem * res Z :=
  match check_parent parent_ino name f with
  | Some e => (f, inr e)
  | None =>
      let i := next_ino f in
      let m := <[i := new_file i md tsc]> (inodes f) in
      let m := match m !! parent_ino with Some parent => <[parent_ino := set_entries (<[name := i]> (entries parent)) (nlink parent) parent]> m | None => m end in
      (set_inodes m (u64_add i 1) (used_bytes f) f, inl i)
  end.
Definition mkdir (parent_ino : Z) (name : string) (md tsc : Z) (f : TmpfsFilesystem) : TmpfsFilesystem * res Z :=
  match check_parent parent_ino name f with
  | Some e => (f, inr e)
  | None =>
      let i := next_ino f in
      let m := <[i := new_dir i parent_ino md tsc]> (inodes f) in
      let m := match m !! parent_ino with Some parent => <[parent_ino := set_entries (<[name := i]> (entries parent)) (u32_add (nlink parent) 1) parent]> m | None => m end in
      (set_inodes m (u64_add i 1) (used_bytes f) f, inl i)
  end.
Definition unlink (parent_ino : Z) (name : string) (f : TmpfsFilesystem) : TmpfsFilesystem * res unit :=
  match parent ← inodes f !! parent_ino; entries parent !! name with
  | None => (f, inr ENOENT)
  | Some i =>
      match (match inodes f !! i with Some n => if is_dir n then inr EISDIR else inl (sat_sub (used_bytes f) (isize n)) | None => inl (used_bytes f) end) with
      | inr e => (f, inr e)
      | inl used =>
          let m := delete i (inodes f) in
          let m := match m !! parent_ino with Some parent => <[parent_ino := set_entries (delete name (entries parent)) (nlink parent) parent]> m | None => m end in
          (set_inodes m (next_ino f) used f, inl tt)
      end
  end.
Definition write_file (i : Z) (offset : nat) (buf : bytes) (tsc : Z) (f : TmpfsFilesystem) : TmpfsFilesystem * res nat :=
  if max_bytes f <? u64_add (used_bytes f) (Z.of_nat (length buf)) then (f, inr ENOSPC)
  else match inodes f !! i with
    | Some n =>
        let '(n', written) := write offset buf tsc n in
        (set_inodes (<[i := n']> (inodes f)) (next_ino f) (u64_sub (u64_add (used_bytes f) (isize n')) (isize n)) f, inl written)
    | None => (f, inr ENOENT)
    end.
Definition read_file (i : Z) (offset len : nat) (tsc : Z) (f : TmpfsFilesystem) : TmpfsFilesystem * res bytes :=
  match inodes f !! i with
  | Some n => let '(n', b) := read offset len tsc n in (set_inodes (<[i := n']> (inodes f)) (next_ino f) (used_bytes f) f, inl b)
  | None => (f, inr ENOENT)
  end.
(** The names of a directory in the order of the [BTreeMap]. *)
Fixpoint string_leb (a b : string) : bool :=
  match a, b with
  | EmptyString, _ => true
  | String _ _, EmptyString => false
  | String x a', String y b' => if (Ascii.nat_of_ascii x <? Ascii.nat_of_ascii y)%nat then true else if (Ascii.nat_of_ascii y <? Ascii.nat_of_ascii x)%nat then false else string_leb a' b'
  end.
Definition string_le (a b : string) : Prop := string_leb a b = true.
#[export] Instance string_le_dec a b : Decision (string_le a b) := decide (string_leb a b = true).
Definition names (m : gmap string Z) : list string := merge_sort string_le (elements (dom m)).
Definition readdir (i : Z) (f : TmpfsFilesystem) : res (list (string * Z * TmpfsNodeType)) :=
  match inodes f !! i with
  | None => inr ENOENT
  | Some n =>
      if negb (is_dir n) then inr ENOTDIR
      else inl (omap (fun name => child ← entries n !! name; Some (name, child, match inodes f !! child with Some c => node_type c | None => RegularFile end)) (names (entries n)))
  end.
(** [split('/')] without the empty parts. *)
Fixpoint split_slash (cur s : string) : list string :=
  match s with
  | EmptyString => [cur]
  | String c t => if Ascii.eqb c (Ascii.ascii_of_nat 47) then cur :: split_slash "" t else split_slash (cur +:+ String c "") t
  end.
Definition components (path : string) : list string := filter (fun c => c <> "") (split_slash "" path).
Fixpoint walk (current : Z) (l : list string) (m : gmap Z TmpfsInode) : option Z :=
  match l with
  | [] => Some current
  | c :: l' => n ← m !! current; child ← entries n !! c; walk child l' m
  end.
Definition lookup_path (path : string) (f : TmpfsFilesystem) : option Z := walk 1 (components path) (inodes f).
Record TmpfsStatfs := mkStat { f_type : Z; f_bsize : Z; f_blocks : Z; f_bfree : Z; f_bavail : Z; f_files : Z; f_ffree : Z; f_namelen : Z }.
Definition statfs (f : TmpfsFilesystem) : TmpfsStatfs :=
  let free := u64_sub (max_bytes f) (used_bytes f) / 4096 in
  mkStat TMPFS_MAGIC 4096 (max_bytes f / 4096) free free (Z.of_nat (max_inodes f)) (u64_sub (Z.of_nat (max_inodes f)) (Z.of_nat (size (inodes f)))) TMPFS_NAME_MAX.
Definition inode_count (f : TmpfsFilesystem) : nat := size (inodes f).

(** ** Mounted instances *)
Abbreviation Instances := (gmap string TmpfsFilesystem).
Definition mount (mount_point : string) (mx tsc : Z) (s : Instances) : Instances * res unit :=
  match s !! mount_point with Some _ => (s, inr EBUSY) | None => (<[mount_point := fs_new mount_point mx tsc]> s, inl tt) end.
Definition umount (mount_point : string) (s : Instances) : Instances * res unit :=
  match s !! mount_point with Some _ => (delete mount_point s, inl tt) | None => (s, inr EINVAL) end.
Definition mounted_count (s : Instances) : nat := size s.
Definition get_fs (mount_point : string) (s : Instances) : res TmpfsFilesystem := match s !! mount_point with Some f => inl f | None => inr ENOENT end.
(** An operation under the lock of an instance. *)
Definition locked {A} (mount_point : string) (op : TmpfsFilesystem -> TmpfsFilesystem * res A) (s : Instances) : Instances * res A :=
  match get_fs mount_point s with inl f => let '(f', r) := op f in (<[mount_point := f']> s, r) | inr e => (s, inr e) end.
Definition create_file_at (mp : string) (parent : Z) (name : string) (md tsc : Z) : Instances -> Instances * res Z := locked mp (create_file parent name md tsc).
Definition mkdir_at (mp : string) (parent : Z) (name : string) (md tsc : Z) : Instances -> Instances * res Z := locked mp (mkdir parent name md tsc).
Definition unlink_at (mp : string) (parent : Z) (name : string) : Instances -> Instances * res unit := locked mp (unlink parent name).
Definition write_file_at (mp : string) (i : Z) (offset : nat) (buf : bytes) (tsc : Z) : Instances -> Instances * res nat := locked mp (write_file i offset buf tsc).
Definition read_file_at (mp : string) (i : Z) (offset len : nat) (tsc : Z) : Instances -> Instances * res bytes := locked mp (read_file i offset len tsc).
Definition readdir_at (mp : string) (i : Z) (s : Instances) : res (list (string * Z * TmpfsNodeType)) := match get_fs mp s with inl f => readdir i f | inr e => inr e end.
Definition lookup_at (mp path : string) (s : Instances) : option Z := match get_fs mp s with inl f => lookup_path path f | inr _ => None end.
Definition statfs_at (mp : string) (s : Instances) : res TmpfsStatfs := match get_fs mp s with inl f => inl (statfs f) | inr e => inr e end.
Definition inode_count_at (mp : string) (s : Instances) : res nat := match get_fs mp s with inl f => inl (inode_count f) | inr e => inr e end.
Definition init (tsc : Z) (s : Instances) : Instances :=
  let s := (mount "/tmp" TMPFS_DEFAULT_SIZE tsc s).1 in
  let s := (mount "/run" (64 * 1024 * 1024) tsc s).1 in
  (mount "/dev/shm" (128 * 1024 * 1024) tsc s).1.

(** ** The tree *)
Definition proper (name : string) : Prop := name <> "." /\ name <> "..".
#[export] Instance proper_dec name : Decision (proper name) := ltac:(unfold proper; apply _).
Record tree (m : gmap Z TmpfsInode) (next : Z) : Prop := {
  t_root : exists r, m !! 1 = Some r /\ is_dir r = true /\ entries r !! ".." = Some 1;
  t_range : forall i n, m !! i = Some n -> 1 <= i < next;
  t_file : forall i n, m !! i = Some n -> is_dir n = false -> node_type n = RegularFile /\ entries n = ∅ /\ isize n = Z.of_nat (length (data n));
  t_dir : forall i n, m !! i = Some n -> is_dir n = true -> entries n !! "." = Some i /\ data n = [] /\ isize n = 0 /\ is_Some (entries n !! "..");
  t_child : forall i n name c, m !! i = Some n -> proper name -> entries n !! name = Some c -> i < c /\ exists nc, m !! c = Some nc /\ (is_dir nc = true -> entries nc !! ".." = Some i);
  t_parent : forall c n, m !! c = Some n -> c <> 1 -> exists i ni name, m !! i = Some ni /\ proper name /\ entries ni !! name = Some c;
  t_unique : forall i n name i' n' name' c, m !! i = Some n -> proper name -> entries n !! name = Some c -> m !! i' = Some n' -> proper name' -> entries n' !! name' = Some c -> i = i' /\ name = name' }.
Lemma names_snoc l x : Forall proper (l ++ [x]) <-> Forall proper l /\ proper x.
Proof. by rewrite Forall_app, Forall_singleton. Qed.
Lemma walk_app i l k m : walk i (l ++ k) m = j ← walk i l m; walk j k m.
Proof. revert i. induction l as [|c l IH]; intros i; cbn [app walk]; [done|]. destruct (m !! i) as [n|]; cbn [mbind option_bind]; [|done]. destruct (entries n !! c); cbn [mbind option_bind]; [apply IH|done]. Qed.
Lemma walk_snoc i l x m j : walk i (l ++ [x]) m = Some j <-> exists k n, walk i l m = Some k /\ m !! k = Some n /\ entries n !! x = Some j.
Proof.
  rewrite walk_app. destruct (walk i l m) as [k|]; cbn [mbind option_bind walk]; [|split; [done|by intros (? & ? & ? & _)]]. destruct (m !! k) as [n|] eqn:E; cbn [mbind option_bind].
  - destruct (entries n !! x) eqn:Ex; cbn [mbind option_bind]; split; [intros [= <-]; by exists k, n|intros (k' & n' & [= <-] & E' & Ex'); simplify_eq; congruence|done|intros (k' & n' & [= <-] & E' & Ex'); simplify_eq; congruence].
  - split; [done|]. intros (k' & n' & [= <-] & E' & _). congruence.
Qed.
Section Tree.
Context (m : gmap Z TmpfsInode) (next : Z) (Ht : tree m next).
Lemma dir_of i n x j : m !! i = Some n -> entries n !! x = Some j -> is_dir n = true.
Proof. intros E Ex. destruct (is_dir n) eqn:Ed; [done|]. destruct (t_file _ _ Ht i n E Ed) as (_ & He & _). by rewrite He, lookup_empty in Ex. Qed.
Lemma walk_exists l j : Forall proper l -> walk 1 l m = Some j -> is_Some (m !! j).
Proof.
  destruct l as [|x l' _] using rev_ind; intros Hl; [intros [= <-]; destruct (t_root _ _ Ht) as (r & E & _); by exists r|]. rewrite walk_snoc. apply names_snoc in Hl as [_ Hx]. intros (k & n & _ & En & Ex). destruct (t_child _ _ Ht k n x j En Hx Ex) as (_ & nc & E & _). by exists nc.
Qed.
Lemma walk_unique l l' j : Forall proper l -> Forall proper l' -> walk 1 l m = Some j -> walk 1 l' m = Some j -> l = l'.
Proof.
  assert (forall k n x, m !! k = Some n -> proper x -> entries n !! x = Some 1 -> False) as Hroot by (intros k n x Ek Hx Ex; destruct (t_child _ _ Ht k n x 1 Ek Hx Ex) as [H1 _]; pose proof (t_range _ _ Ht k n Ek); lia).
  revert l' j. induction l as [|x l IH] using rev_ind; intros l' j Hl Hl'.
  - intros [= <-]. destruct l' as [|y l' _] using rev_ind; [done|]. rewrite walk_snoc. apply names_snoc in Hl' as [_ Hy]. intros (k & n & _ & En & Ey). by destruct (Hroot k n y).
  - rewrite walk_snoc. apply names_snoc in Hl as [Hl Hx]. intros (k & n & Ew & En & Ex). destruct l' as [|y l' _] using rev_ind; [intros [= <-]; by destruct (Hroot k n x)|]. rewrite walk_snoc. apply names_snoc in Hl' as [Hl' Hy]. intros (k' & n' & Ew' & En' & Ey).
    destruct (t_unique _ _ Ht k n x k' n' y j En Hx Ex En' Hy Ey) as [-> ->]. f_equal. by apply (IH l' k').
Qed.
Lemma walk_path j : is_Some (m !! j) -> exists l, Forall proper l /\ walk 1 l m = Some j.
Proof.
  intros [n En]. pose proof (t_range _ _ Ht j n En) as [Hj _]. revert n En. pattern j. apply Z_lt_induction; [|lia]. clear j Hj. intros j IH n En. destruct (decide (j = 1)) as [->|Hne]; [by exists []|]. destruct (t_parent _ _ Ht j n En Hne) as (i & ni & x & Ei & Hx & Ex).
  destruct (t_child _ _ Ht i ni x j Ei Hx Ex) as [Hlt _]. pose proof (t_range _ _ Ht i ni Ei). destruct (IH i ltac:(lia) ni Ei) as (l & Hl & Ew). exists (l ++ [x]). split; [by apply names_snoc|]. apply walk_snoc. by exists i, ni.
Qed.
(** The directory above the one at [l ++ [x]]. *)
Lemma walk_dotdot l x j n : Forall proper (l ++ [x]) -> walk 1 (l ++ [x]) m = Some j -> m !! j = Some n -> is_dir n = true -> exists i, walk 1 l m = Some i /\ entries n !! ".." = Some i.
Proof.
  intros Hl. rewrite walk_snoc. apply names_snoc in Hl as [Hl Hx]. intros (k & nk & Ew & Ek & Ex) En Hd. exists k. split; [done|]. destruct (t_child _ _ Ht k nk x j Ek Hx Ex) as (_ & nc & Ec & Hup). assert (nc = n) as -> by congruence. by apply Hup.
Qed.
End Tree.
(** *** Adding a node *)
Definition added (m : gmap Z TmpfsInode) (par i links : Z) (P n : TmpfsInode) (name : string) : gmap Z TmpfsInode := <[par := set_entries (<[name := i]> (entries P)) links P]> (<[i := n]> m).
Section Add.
Context (m : gmap Z TmpfsInode) (next : Z) (Ht : tree m next) (par links : Z) (P n : TmpfsInode) (name : string).
Context (EP : m !! par = Some P) (HP : is_dir P = true) (Hfree : entries P !! name = None) (Hnew : forall x j, proper x -> entries n !! x = Some j -> False).
Abbreviation m' := (added m par next links P n name).
Lemma name_proper : proper name.
Proof. destruct (t_dir _ _ Ht par P EP HP) as (E1 & _ & _ & [p E2]). split; intros ->; congruence. Qed.
Lemma par_old : par <> next.
Proof. pose proof (t_range _ _ Ht par P EP). lia. Qed.
Lemma added_new : m' !! next = Some n.
Proof. unfold added. rewrite lookup_insert_ne by apply par_old. apply lookup_insert_eq. Qed.
Lemma added_par : m' !! par = Some (set_entries (<[name := next]> (entries P)) links P).
Proof. unfold added. apply lookup_insert_eq. Qed.
Lemma added_other i : i <> par -> i <> next -> m' !! i = m !! i.
Proof. intros H1 H2. unfold added. by rewrite !lookup_insert_ne by done. Qed.
Lemma added_size : size m' = S (size m).
Proof.
  unfold added. rewrite map_size_insert_Some; [|rewrite lookup_insert_ne by (intros E; by apply par_old); by eexists]. apply map_size_insert_None. destruct (m !! next) as [x|] eqn:E; [|done]. pose proof (t_range _ _ Ht next x E). lia.
Qed.
(** The old nodes, with their new entries. *)
Lemma added_entries k nk x j : m !! k = Some nk -> exists nk', m' !! k = Some nk' /\ is_dir nk' = is_dir nk /\ data nk' = data nk /\ (entries nk' !! x = Some j <-> entries nk !! x = Some j \/ k = par /\ x = name /\ j = next).
Proof.
  intros Ek. pose proof (t_range _ _ Ht k nk Ek) as Hr. destruct (decide (k = par)) as [->|Hne].
  - assert (nk = P) as -> by congruence. eexists. split; [apply added_par|]. cbn [set_entries is_dir node_type entries data]. split; [done|]. split; [done|]. rewrite lookup_insert_Some. split; [intros [[<- <-]|[_ ?]]; [by right|by left]|]. intros [E|(_ & -> & ->)]; [right; split; [intros ->; congruence|done]|by left].
  - exists nk. split; [rewrite added_other by (done || lia); done|]. split; [done|]. split; [done|]. split; [by left|]. intros [?|(? & _)]; done.
Qed.
Lemma walk_added q j : Forall proper q -> walk 1 q m' = Some j <-> walk 1 q m = Some j \/ exists p, q = p ++ [name] /\ walk 1 p m = Some par /\ j = next.
Proof.
  intros Hq. revert j. induction q as [|x q IH] using rev_ind; intros j; [split; [by left|intros [?|(p & E & _)]; [done|by destruct p]]|]. apply names_snoc in Hq as [Hq Hx]. specialize (IH Hq). rewrite !walk_snoc. split.
  - intros (k & nk & Ew & Ek & Ex). apply IH in Ew as [Ew|(p & -> & _ & ->)]; [|rewrite added_new in Ek; injection Ek as <-; by destruct (Hnew x j)]. destruct (walk_exists m next Ht q k Hq Ew) as [nk0 Ek0]. destruct (added_entries k nk0 x j Ek0) as (nk' & Ek' & _ & _ & He). rewrite Ek' in Ek. injection Ek as Ekk. rewrite <-Ekk in Ex. apply He in Ex. destruct Ex as [Ex1|(Ek1 & Ex1 & Ej1)]; [left; by exists k, nk0|right; exists q]. rewrite Ex1, <-Ek1. done.
  - intros [(k & nk & Ew & Ek & Ex)|(p & E & Ew & ->)].
    + destruct (added_entries k nk x j Ek) as (nk' & Ek' & _ & _ & He). exists k, nk'. split; [apply IH; by left|]. split; [done|]. apply He. by left.
    + apply app_inj_tail in E as [-> ->]. exists par. eexists. split; [apply IH; by left|]. split; [apply added_par|]. apply lookup_insert_eq.
Qed.
Context (Hfile : is_dir n = false -> node_type n = RegularFile /\ entries n = ∅ /\ isize n = Z.of_nat (length (data n))) (Hdir : is_dir n = true -> entries n !! "." = Some next /\ data n = [] /\ isize n = 0 /\ entries n !! ".." = Some par).
Lemma added_back i ni : m' !! i = Some ni -> (i = next /\ ni = n) \/ exists ni0, m !! i = Some ni0 /\ is_dir ni = is_dir ni0 /\ data ni = data ni0 /\ isize ni = isize ni0 /\ node_type ni = node_type ni0 /\ forall x j, entries ni !! x = Some j <-> entries ni0 !! x = Some j \/ i = par /\ x = name /\ j = next.
Proof.
  intros E. destruct (decide (i = next)) as [->|H1]; [left; rewrite added_new in E; by simplify_eq|]. right. destruct (decide (i = par)) as [->|H2].
  - rewrite added_par in E. injection E as <-. exists P. cbn [set_entries is_dir node_type data isize entries]. split_and!; try done. intros x j. rewrite lookup_insert_Some. split; [intros [[<- <-]|[_ ?]]; [by right|by left]|]. intros [Ex|(_ & -> & ->)]; [right; split; [intros <-; congruence|done]|by left].
  - rewrite added_other in E by done. exists ni. split_and!; try done. intros x j. split; [by left|]. intros [?|(? & _)]; done.
Qed.
Lemma tree_added : tree m' (next + 1).
Proof.
  pose proof name_proper as Hnp. pose proof (t_range _ _ Ht par P EP) as Hpr. split.
  - destruct (t_root _ _ Ht) as (r & Er & Hr & Hup). destruct (added_entries 1 r ".." 1 Er) as (r' & Er' & Hd & _ & He). exists r'. split; [done|]. split; [by rewrite Hd|]. apply He. by left.
  - intros i ni [[-> ->]|(ni0 & E & _)]%added_back; [lia|]. pose proof (t_range _ _ Ht i ni0 E). lia.
  - intros i ni [[-> ->]|(ni0 & E & Hd & Hda & Hsz & Hty & He)]%added_back Hnd; [by apply Hfile|]. rewrite Hd in Hnd. destruct (t_file _ _ Ht i ni0 E Hnd) as (F1 & F2 & F3). split; [by rewrite Hty|]. split; [|by rewrite Hsz, Hda]. apply map_empty. intros x. destruct (entries ni !! x) as [j|] eqn:Ex; [|done]. apply He in Ex as [Ex|(-> & _)]; [by rewrite F2, lookup_empty in Ex|congruence].
  - intros i ni [[-> ->]|(ni0 & E & Hd & Hda & Hsz & Hty & He)]%added_back Hdd; [destruct (Hdir Hdd) as (D1 & D2 & D3 & D4); split_and!; try done; by eexists|]. rewrite Hd in Hdd. destruct (t_dir _ _ Ht i ni0 E Hdd) as (D1 & D2 & D3 & [p D4]). split_and!; [apply He; by left|by rewrite Hda|by rewrite Hsz|]. exists p. apply He. by left.
  - intros i ni x c [[-> ->]|(ni0 & E & Hd & Hda & Hsz & Hty & He)]%added_back Hx Ex; [by destruct (Hnew x c)|]. apply He in Ex; destruct Ex as [Ex|(-> & -> & ->)].
    + destruct (t_child _ _ Ht i ni0 x c E Hx Ex) as (Hlt & nc & Ec & Hup). split; [done|]. destruct (added_entries c nc ".." i Ec) as (nc' & Ec' & Hdc & _ & Hec). exists nc'. split; [done|]. rewrite Hdc. intros Hcd. apply Hec. left. by apply Hup.
    + split; [lia|]. exists n. split; [apply added_new|]. intros Hnd. apply (Hdir Hnd).
  - intros c nc [[-> ->]|(nc0 & E & _)]%added_back Hc.
    + exists par. eexists. exists name. split; [apply added_par|]. split; [done|]. apply lookup_insert_eq.
    + destruct (t_parent _ _ Ht c nc0 E Hc) as (i & ni & x & Ei & Hx & Ex). destruct (added_entries i ni x c Ei) as (ni' & Ei' & _ & _ & He). exists i, ni', x. split; [done|]. split; [done|]. apply He. by left.
  - intros i ni x i' ni' x' c [[-> ->]|(ni0 & E & _ & _ & _ & _ & He)]%added_back Hx Ex [[-> ->]|(ni0' & E' & _ & _ & _ & _ & He')]%added_back Hx' Ex'; [by destruct (Hnew x c)|by destruct (Hnew x c)|by destruct (Hnew x' c)|].
    assert (forall k nk y, m !! k = Some nk -> proper y -> entries nk !! y = Some next -> False) as Hno by (intros k nk y Ek Hy Ey; destruct (t_child _ _ Ht k nk y next Ek Hy Ey) as (_ & nc & Ec & _); pose proof (t_range _ _ Ht next nc Ec); lia).
    apply He in Ex as [Ex|(-> & -> & ->)]; apply He' in Ex' as [Ex'|(-> & -> & ?)]; simplify_eq; [by apply (t_unique _ _ Ht i ni0 x i' ni0' x' c)|by destruct (Hno i ni0 x)|by destruct (Hno i' ni0' x')|done].
Qed.
End Add.
(** *** Removing a file *)
Definition removed (m : gmap Z TmpfsInode) (par c : Z) (P : TmpfsInode) (name : string) : gmap Z TmpfsInode := <[par := set_entries (delete name (entries P)) (nlink P) P]> (delete c m).
Section Remove.
Context (m : gmap Z TmpfsInode) (next : Z) (Ht : tree m next) (par c : Z) (P n : TmpfsInode) (name : string).
Context (EP : m !! par = Some P) (HP : is_dir P = true) (Hnp : proper name) (Hname : entries P !! name = Some c) (Ec : m !! c = Some n) (Hn : is_dir n = false).
Abbreviation m' := (removed m par c P name).
Lemma removed_ne : par <> c.
Proof. intros ->. congruence. Qed.
Lemma removed_size : S (size m') = size m.
Proof.
  unfold removed. rewrite map_size_insert_Some; [|rewrite lookup_delete_ne by (intros E; by apply removed_ne); by eexists]. rewrite map_size_delete, Ec. cbn. destruct (size m) eqn:E; [|done]. apply map_size_empty_inv in E. rewrite E, lookup_empty in Ec. done.
Qed.
Lemma removed_back i ni : m' !! i = Some ni -> i <> c /\ exists ni0, m !! i = Some ni0 /\ is_dir ni = is_dir ni0 /\ data ni = data ni0 /\ isize ni = isize ni0 /\ node_type ni = node_type ni0 /\ forall x j, entries ni !! x = Some j <-> entries ni0 !! x = Some j /\ ~ (i = par /\ x = name).
Proof.
  unfold removed. intros E. destruct (decide (i = par)) as [->|Hne].
  - rewrite lookup_insert_eq in E. injection E as <-. split; [apply removed_ne|]. exists P. cbn [set_entries is_dir node_type data isize entries]. split_and!; try done. intros x j. rewrite lookup_delete_Some. naive_solver.
  - rewrite lookup_insert_ne, lookup_delete_Some in E by done. destruct E as [H1 E]. split; [done|]. exists ni. split_and!; try done. intros x j. naive_solver.
Qed.
Lemma removed_there i ni0 : m !! i = Some ni0 -> i <> c -> exists ni, m' !! i = Some ni /\ is_dir ni = is_dir ni0 /\ data ni = data ni0 /\ forall x j, entries ni !! x = Some j <-> entries ni0 !! x = Some j /\ ~ (i = par /\ x = name).
Proof.
  intros E Hne. assert (is_Some (m' !! i)) as [ni Ei] by (unfold removed; destruct (decide (i = par)) as [->|?]; [rewrite lookup_insert_eq; by eexists|rewrite lookup_insert_ne, lookup_delete_ne by done; by eexists]). exists ni. split; [done|]. destruct (removed_back i ni Ei) as (_ & ni1 & E1 & H1 & H2 & _ & _ & H3). assert (ni1 = ni0) as -> by congruence. done.
Qed.
(** The file is named nowhere else. *)
Lemma only_name i ni x : m !! i = Some ni -> proper x -> entries ni !! x = Some c -> i = par /\ x = name.
Proof. intros Ei Hx Ex. by apply (t_unique _ _ Ht i ni x par P name c). Qed.
Lemma walk_removed q j : Forall proper q -> walk 1 q m' = Some j <-> walk 1 q m = Some j /\ j <> c.
Proof.
  intros Hq. revert j. induction q as [|x q IH] using rev_ind; intros j.
  - cbn [walk]. split; [intros [= <-]|by intros [? _]]. split; [done|]. intros <-. destruct (t_root _ _ Ht) as (r & Er & Hr & _). congruence.
  - apply names_snoc in Hq as [Hq Hx]. specialize (IH Hq). rewrite !walk_snoc. split.
    + intros (k & nk & Ew & Ek & Ex). apply IH in Ew as [Ew Hk]. destruct (removed_back k nk Ek) as (_ & nk0 & Ek0 & _ & _ & _ & _ & He). apply He in Ex; destruct Ex as [Ex Hno]. split; [by exists k, nk0|]. intros ->. apply Hno. by apply (only_name k nk0).
    + intros [(k & nk & Ew & Ek & Ex) Hj]. assert (k <> c) as Hk by (intros ->; pose proof (dir_of m next Ht c nk x j Ek Ex); congruence). destruct (removed_there k nk Ek Hk) as (nk' & Ek' & _ & _ & He). exists k, nk'. split; [by apply IH|]. split; [done|]. apply He. split; [done|]. intros [-> ->]. congruence.
Qed.
Lemma tree_removed : tree m' next.
Proof.
  split.
  - destruct (t_root _ _ Ht) as (r & Er & Hr & Hup). destruct (removed_there 1 r Er ltac:(intros <-; congruence)) as (r' & Er' & Hd & _ & He). exists r'. split; [done|]. split; [by rewrite Hd|]. apply He. split; [done|]. intros [_ E]. by destruct Hnp.
  - intros i ni (_ & ni0 & E & _)%removed_back. by apply (t_range _ _ Ht i ni0).
  - intros i ni (_ & ni0 & E & Hd & Hda & Hsz & Hty & He)%removed_back Hnd. rewrite Hd in Hnd. destruct (t_file _ _ Ht i ni0 E Hnd) as (F1 & F2 & F3). split; [by rewrite Hty|]. split; [|by rewrite Hsz, Hda]. apply map_empty. intros x. destruct (entries ni !! x) as [j|] eqn:Ex; [|done]. apply He in Ex; destruct Ex as [Ex _]. by rewrite F2, lookup_empty in Ex.
  - intros i ni (_ & ni0 & E & Hd & Hda & Hsz & Hty & He)%removed_back Hdd. rewrite Hd in Hdd. destruct (t_dir _ _ Ht i ni0 E Hdd) as (D1 & D2 & D3 & [p D4]). destruct Hnp as [N1 N2]. split_and!; [apply He; split; [done|]; by intros [_ E1]|by rewrite Hda|by rewrite Hsz|]. exists p. apply He. split; [done|]. by intros [_ E1].
  - intros i ni x c' (_ & ni0 & E & Hd & Hda & Hsz & Hty & He)%removed_back Hx Ex. apply He in Ex; destruct Ex as [Ex Hno]. destruct (t_child _ _ Ht i ni0 x c' E Hx Ex) as (Hlt & nc & Ec' & Hup). split; [done|]. assert (c' <> c) as Hcc by (intros ->; apply Hno; by apply (only_name i ni0)). destruct (removed_there c' nc Ec' Hcc) as (nc' & E' & Hdc & _ & Hec). exists nc'. split; [done|]. rewrite Hdc. intros Hcd. apply Hec. split; [by apply Hup|]. destruct Hnp. by intros [_ E1].
  - intros c' nc (Hcc & nc0 & E & _)%removed_back Hc1. destruct (t_parent _ _ Ht c' nc0 E Hc1) as (i & ni & x & Ei & Hx & Ex). assert (i <> c) as Hi by (intros ->; pose proof (dir_of m next Ht c ni x c' Ei Ex); congruence). destruct (removed_there i ni Ei Hi) as (ni' & Ei' & _ & _ & He). exists i, ni', x. split; [done|]. split; [done|]. apply He. split; [done|]. intros [-> ->]. congruence.
  - intros i ni x i' ni' x' d (_ & ni0 & E & _ & _ & _ & _ & He)%removed_back Hx Ex (_ & ni0' & E' & _ & _ & _ & _ & He')%removed_back Hx' Ex'. apply He in Ex; destruct Ex as [Ex _]. apply He' in Ex'; destruct Ex' as [Ex' _]. by apply (t_unique _ _ Ht i ni0 x i' ni0' x' d).
Qed.
End Remove.

(** ** A tree of directories and files *)
Abbreviation path := (list string).
Inductive anode := ADir | AFile (d : bytes).
Abbreviation Tree := (gmap path (Z * anode)).
(** What each path names, the next number, and the limits. *)
Record Spec := mkSpec { s_tree : Tree; s_next : Z; s_max : Z; s_inodes : nat }.
Definition spec0 (mx : Z) : Spec := mkSpec {[ [] := (1, ADir) ]} 2 mx TMPFS_MAX_INODES.
Definition alen (a : anode) : Z := match a with ADir => 0 | AFile d => Z.of_nat (length d) end.
Definition s_used (t : Tree) : Z := sumZ (fun x => alen x.2.2) (map_to_list t).
Definition path_of (i : Z) (t : Tree) : option path := fst <$> find (fun x => x.2.1 =? i) (map_to_list t).
Inductive op := OCreate (parent : Z) (name : string) (md tsc : Z) | OMkdir (parent : Z) (name : string) (md tsc : Z) | OUnlink (parent : Z) (name : string) | OWrite (i : Z) (offset : nat) (buf : bytes) (tsc : Z) | ORead (i : Z) (offset len : nat) (tsc : Z) | OLookup (path : string) | OReaddir (i : Z) | OStatfs.
Inductive out := RIno (r : res Z) | RUnit (r : res unit) | RLen (r : res nat) | RData (r : res bytes) | RFound (r : option Z) | RDir (r : res (list (string * Z * TmpfsNodeType))) | RStat (r : TmpfsStatfs).
Definition step (o : op) (f : TmpfsFilesystem) : TmpfsFilesystem * out :=
  match o with
  | OCreate p name md tsc => let '(f, r) := create_file p name md tsc f in (f, RIno r)
  | OMkdir p name md tsc => let '(f, r) := mkdir p name md tsc f in (f, RIno r)
  | OUnlink p name => let '(f, r) := unlink p name f in (f, RUnit r)
  | OWrite i offset buf tsc => let '(f, r) := write_file i offset buf tsc f in (f, RLen r)
  | ORead i offset n tsc => let '(f, r) := read_file i offset n tsc f in (f, RData r)
  | OLookup p => (f, RFound (lookup_path p f))
  | OReaddir i => (f, RDir (readdir i f))
  | OStatfs => (f, RStat (statfs f))
  end.
Definition set_tree (t : Tree) (next : Z) (s : Spec) : Spec := mkSpec t next (s_max s) (s_inodes s).
Definition spec_add (parent : Z) (name : string) (a : anode) (s : Spec) : Spec * res Z :=
  if (s_inodes s <=? size (s_tree s))%nat then (s, inr ENOSPC)
  else match path_of parent (s_tree s) with
    | None => (s, inr ENOENT)
    | Some p => match s_tree s !! p with
        | Some (_, ADir) => if bool_decide (proper name) && bool_decide (s_tree s !! (p ++ [name]) = None) then (set_tree (<[p ++ [name] := (s_next s, a)]> (s_tree s)) (s_next s + 1) s, inl (s_next s)) else (s, inr EEXIST)
        | _ => (s, inr ENOTDIR)
        end
    end.
Definition spec_unlink (parent : Z) (name : string) (s : Spec) : Spec * res unit :=
  match path_of parent (s_tree s) with
  | None => (s, inr ENOENT)
  | Some p => match s_tree s !! p with
      | Some (_, ADir) =>
          if bool_decide (proper name) then match s_tree s !! (p ++ [name]) with
            | Some (_, ADir) => (s, inr EISDIR)
            | Some (_, AFile _) => (set_tree (delete (p ++ [name]) (s_tree s)) (s_next s) s, inl tt)
            | None => (s, inr ENOENT)
            end
          else (s, inr EISDIR)
      | _ => (s, inr ENOENT)
      end
  end.
(** The file with the bytes written at the offset; a gap is filled with zeros. *)
Definition written (offset : nat) (buf d : bytes) : bytes := take offset d ++ replicate (offset - length d) 0 ++ buf ++ drop (offset + length buf) d.
Definition tree_write (i : Z) (offset : nat) (buf : bytes) (s : Spec) : Spec * res nat :=
  if s_max s <? s_used (s_tree s) + Z.of_nat (length buf) then (s, inr ENOSPC)
  else match path_of i (s_tree s) with
    | None => (s, inr ENOENT)
    | Some p => match s_tree s !! p with
        | Some (_, AFile d) => (set_tree (<[p := (i, AFile (written offset buf d))]> (s_tree s)) (s_next s) s, inl (length buf))
        | _ => (s, inl 0%nat)
        end
    end.
Definition spec_read (i : Z) (offset n : nat) (s : Spec) : res bytes :=
  match path_of i (s_tree s) with
  | None => inr ENOENT
  | Some p => match s_tree s !! p with Some (_, AFile d) => inl (take n (drop offset d)) | _ => inl [] end
  end.
(** Resolution from the directory at [p]: [.] stays, [..] goes up, above the root it stays there. *)
Fixpoint spec_walk (p : path) (l : list string) (t : Tree) : option Z :=
  match l with
  | [] => fst <$> t !! p
  | c :: l' => match t !! p with Some (_, ADir) => spec_walk (if decide (c = ".") then p else if decide (c = "..") then removelast p else p ++ [c]) l' t | _ => None end
  end.
(** The directory at [p]: itself, the one above, and the paths one name longer. *)
Definition child_of (p : path) (x : path * (Z * anode)) : option (string * Z) := name ← last x.1; if decide (x.1 = p ++ [name]) then Some (name, x.2.1) else None.
Definition spec_entries (p : path) (t : Tree) : gmap string Z :=
  let here := from_option fst 0 (t !! p) in let up := from_option fst 0 (t !! removelast p) in
  <[".." := up]> (<["." := here]> (list_to_map (omap (child_of p) (map_to_list t)))).
Definition kind (a : anode) : TmpfsNodeType := match a with ADir => Directory | AFile _ => RegularFile end.
Definition spec_kind (i : Z) (t : Tree) : TmpfsNodeType := from_option (fun x => kind x.2) RegularFile (p ← path_of i t; t !! p).
Definition spec_readdir (i : Z) (s : Spec) : res (list (string * Z * TmpfsNodeType)) :=
  match path_of i (s_tree s) with
  | None => inr ENOENT
  | Some p => match s_tree s !! p with
      | Some (_, ADir) => let m := spec_entries p (s_tree s) in inl (omap (fun name => child ← m !! name; Some (name, child, spec_kind child (s_tree s))) (names m))
      | _ => inr ENOTDIR
      end
  end.
Definition spec_statfs (s : Spec) : TmpfsStatfs :=
  let free := (s_max s - s_used (s_tree s)) mod u64_mod / 4096 in
  mkStat TMPFS_MAGIC 4096 (s_max s / 4096) free free (Z.of_nat (s_inodes s)) ((Z.of_nat (s_inodes s) - Z.of_nat (size (s_tree s))) mod u64_mod) TMPFS_NAME_MAX.
Definition tree_step (o : op) (s : Spec) : Spec * out :=
  match o with
  | OCreate p name _ _ => let '(s, r) := spec_add p name (AFile []) s in (s, RIno r)
  | OMkdir p name _ _ => let '(s, r) := spec_add p name ADir s in (s, RIno r)
  | OUnlink p name => let '(s, r) := spec_unlink p name s in (s, RUnit r)
  | OWrite i offset buf _ => let '(s, r) := tree_write i offset buf s in (s, RLen r)
  | ORead i offset n _ => (s, RData (spec_read i offset n s))
  | OLookup p => (s, RFound (spec_walk [] (components p) (s_tree s)))
  | OReaddir i => (s, RDir (spec_readdir i s))
  | OStatfs => (s, RStat (spec_statfs s))
  end.
(** *** Sums over the tree *)
Lemma s_used_insert t p x : t !! p = None -> s_used (<[p := x]> t) = s_used t + alen x.2.
Proof.
  intros E. unfold s_used. assert (forall l k, l ≡ₚ k -> sumZ (fun x : path * (Z * anode) => alen x.2.2) l = sumZ (fun x => alen x.2.2) k) as Hp by (unfold sumZ; induction 1; cbn [foldr]; lia). rewrite (Hp _ _ (map_to_list_insert t p x E)). cbn [sumZ foldr snd]. unfold sumZ. lia.
Qed.
Lemma s_used_delete t p x : t !! p = Some x -> s_used (delete p t) = s_used t - alen x.2.
Proof. intros E. rewrite <-(insert_delete_id t p x E) at 2. rewrite s_used_insert by apply lookup_delete_eq. lia. Qed.
Lemma s_used_update t p x y : t !! p = Some x -> s_used (<[p := y]> t) = s_used t - alen x.2 + alen y.2.
Proof. intros E. rewrite <-insert_delete_eq. rewrite s_used_insert by apply lookup_delete_eq. rewrite (s_used_delete t p x E). lia. Qed.
Lemma alen_nonneg a : 0 <= alen a.
Proof. destruct a; cbn; lia. Qed.
Lemma s_used_ge t p x : t !! p = Some x -> alen x.2 <= s_used t.
Proof. intros E. pose proof (s_used_delete t p x E) as Hd. assert (0 <= s_used (delete p t)) by (apply sumZ_nonneg; intros ?; apply alen_nonneg). lia. Qed.
(** *** The relation between a file system and a tree *)
Definition node_view (n : TmpfsInode) : anode := if is_dir n then ADir else AFile (data n).
Record repr (f : TmpfsFilesystem) (s : Spec) : Prop := {
  r_tree : tree (inodes f) (next_ino f);
  r_next : s_next s = next_ino f;
  r_max : s_max s = max_bytes f;
  r_inodes : s_inodes s = max_inodes f;
  r_used : used_bytes f = s_used (s_tree s);
  r_size : size (s_tree s) = size (inodes f);
  r_paths : forall p i a, s_tree s !! p = Some (i, a) <-> Forall proper p /\ walk 1 p (inodes f) = Some i /\ exists n, inodes f !! i = Some n /\ a = node_view n }.
Section Repr.
Context (f : TmpfsFilesystem) (s : Spec) (Hr : repr f s).
Abbreviation m := (inodes f).
Abbreviation t := (s_tree s).
Lemma path_walk p i n : Forall proper p -> walk 1 p m = Some i -> m !! i = Some n -> t !! p = Some (i, node_view n).
Proof. intros Hp Hw En. apply (r_paths _ _ Hr). split; [done|]. split; [done|]. by exists n. Qed.
Lemma path_of_spec i : match path_of i t with
  | Some p => exists n, m !! i = Some n /\ Forall proper p /\ walk 1 p m = Some i /\ t !! p = Some (i, node_view n)
  | None => m !! i = None
  end.
Proof.
  unfold path_of. destruct (find _ (map_to_list t)) as [[p [j a]]|] eqn:E; cbn [fmap option_fmap option_map fst].
  - apply find_some in E as [Hin Hj%Z.eqb_eq]. cbn in Hj. subst j. apply list_elem_of_In, elem_of_map_to_list in Hin. pose proof Hin as Hin'. apply (r_paths _ _ Hr) in Hin' as (Hp & Hw & n & En & ->). exists n. done.
  - destruct (m !! i) as [n|] eqn:En; [exfalso|done]. destruct (walk_path m (next_ino f) (r_tree _ _ Hr) i ltac:(by eexists)) as (p & Hp & Hw). pose proof (path_walk p i n Hp Hw En) as Et. apply find_none with (x := (p, (i, node_view n))) in E; [cbn in E; lia|]. by apply list_elem_of_In, elem_of_map_to_list.
Qed.
(** The children of a directory. *)
Lemma child_spec p i n x : Forall proper p -> walk 1 p m = Some i -> m !! i = Some n -> proper x -> match t !! (p ++ [x]) with
  | Some (c, a) => entries n !! x = Some c /\ exists nc, m !! c = Some nc /\ a = node_view nc
  | None => entries n !! x = None
  end.
Proof.
  intros Hp Hw En Hx. destruct (t !! (p ++ [x])) as [[c a]|] eqn:E.
  - apply (r_paths _ _ Hr) in E as (_ & Ew & nc & Ec & ->). apply walk_snoc in Ew as (k & nk & Ek & Enk & Ex). assert (k = i) as -> by congruence. assert (nk = n) as -> by congruence. split; [done|]. by exists nc.
  - destruct (entries n !! x) as [c|] eqn:Ex; [exfalso|done]. assert (walk 1 (p ++ [x]) m = Some c) as Ew by (apply walk_snoc; by exists i, n). destruct (walk_exists m _ (r_tree _ _ Hr) (p ++ [x]) c ltac:(by apply names_snoc) Ew) as [nc Ec]. rewrite (path_walk (p ++ [x]) c nc) in E; [done|by apply names_snoc|done|done].
Qed.
Lemma unique_path p q i : Forall proper p -> walk 1 p m = Some i -> Forall proper q -> walk 1 q m = Some i -> p = q.
Proof. intros Hp Hw Hq Hw'. by apply (walk_unique m _ (r_tree _ _ Hr) p q i). Qed.
End Repr.
(** *** Every operation agrees with the tree *)
Lemma check_parent_spec f s parent name a : repr f s -> match check_parent parent name f with
  | Some e => spec_add parent name a s = (s, inr e)
  | None => exists P p, inodes f !! parent = Some P /\ is_dir P = true /\ entries P !! name = None /\ Forall proper p /\ walk 1 p (inodes f) = Some parent /\ proper name /\ s_tree s !! (p ++ [name]) = None /\
      spec_add parent name a s = (set_tree (<[p ++ [name] := (s_next s, a)]> (s_tree s)) (s_next s + 1) s, inl (s_next s))
  end.
Proof.
  intros Hr. unfold check_parent, spec_add. rewrite (r_inodes _ _ Hr), (r_size _ _ Hr). destruct (max_inodes f <=? size (inodes f))%nat; [done|]. pose proof (path_of_spec f s Hr parent) as Hp. destruct (path_of parent (s_tree s)) as [p|]; [|by rewrite Hp]. destruct Hp as (P & EP & Hpp & Hw & ->). rewrite EP. unfold node_view. destruct (is_dir P) eqn:Hd; cbn [negb]; [|done].
  destruct (decide (proper name)) as [Hn|Hn].
  - rewrite (bool_decide_true (proper name)) by done. cbn [andb]. pose proof (child_spec f s Hr p parent P name Hpp Hw EP Hn) as Hc. destruct (s_tree s !! (p ++ [name])) as [[c b]|] eqn:Et.
    + destruct Hc as [-> _]. rewrite bool_decide_true by (by eexists). by rewrite bool_decide_false.
    + rewrite Hc, bool_decide_false by (by intros [? ?]). rewrite bool_decide_true by done. exists P, p. do 3 (split; [done|]). split; [done|]. split; [exact Hw|]. split; [done|]. split; [done|]. done.
  - rewrite (bool_decide_false (proper name)) by done. cbn [andb]. destruct (t_dir _ _ (r_tree _ _ Hr) parent P EP Hd) as (D1 & _ & _ & [q D2]). rewrite bool_decide_true; [done|]. unfold proper in Hn. destruct (decide (name = ".")) as [->|]; [by eexists|]. destruct (decide (name = "..")) as [->|]; [by eexists|]. naive_solver.
Qed.
Lemma repr_added f s P n par p name links : repr f s -> inodes f !! par = Some P -> is_dir P = true -> entries P !! name = None -> Forall proper p -> walk 1 p (inodes f) = Some par -> proper name -> s_tree s !! (p ++ [name]) = None ->
  next_ino f + 1 < u64_mod -> alen (node_view n) = 0 -> (is_dir n = false -> node_type n = RegularFile /\ entries n = ∅ /\ isize n = Z.of_nat (length (data n))) -> (is_dir n = true -> entries n = <[".." := par]> (<["." := next_ino f]> ∅) /\ data n = [] /\ isize n = 0) ->
  repr (set_inodes (added (inodes f) par (next_ino f) links P n name) (u64_add (next_ino f) 1) (used_bytes f) f) (set_tree (<[p ++ [name] := (s_next s, node_view n)]> (s_tree s)) (s_next s + 1) s).
Proof.
  intros Hr EP HP Hfree Hp Hw Hn Hnone Hroom Hlen Hfile Hdir. pose proof (r_tree _ _ Hr) as Ht. assert (forall x j, proper x -> entries n !! x = Some j -> False) as Hnew.
  { intros x j [X1 X2] Ex. destruct (is_dir n) eqn:Ed; [destruct (Hdir eq_refl) as (E & _); rewrite E, !lookup_insert_ne, lookup_empty in Ex by done; done|destruct (Hfile eq_refl) as (_ & E & _); by rewrite E, lookup_empty in Ex]. }
  assert (1 <= next_ino f) by (destruct (t_root _ _ Ht) as (r & Er & _); pose proof (t_range _ _ Ht 1 r Er); lia). assert (u64_add (next_ino f) 1 = next_ino f + 1) as -> by (apply u64_add_small; lia).
  split; cbn [set_inodes set_tree inodes next_ino max_bytes max_inodes used_bytes s_tree s_next s_max s_inodes]; try apply Hr.
  - apply tree_added; try done. intros Hd. destruct (Hdir Hd) as (-> & -> & ->). by rewrite lookup_insert_ne, !lookup_insert_eq by done.
  - by rewrite (r_next _ _ Hr).
  - rewrite s_used_insert by done. cbn [snd]. rewrite Hlen, <-(r_used _ _ Hr). lia.
  - rewrite map_size_insert_None by done. rewrite (r_size _ _ Hr). symmetry. by apply (added_size _ _ Ht).
  - intros q i a. rewrite lookup_insert_Some. rewrite (r_next _ _ Hr). split.
    + intros [[<- [= <- <-]]|[Hne Hq]].
      * split; [by apply names_snoc|]. split; [apply (walk_added _ _ Ht _ links P n name EP Hfree Hnew); [by apply names_snoc|]; right; by exists p|]. exists n. split; [by apply (added_new _ _ Ht _ _ P)|done].
      * apply (r_paths _ _ Hr) in Hq as (H1 & H2 & nq & H3 & ->). split; [done|]. split; [apply (walk_added _ _ Ht _ links P n name EP Hfree Hnew); [done|]; by left|]. destruct (added_entries _ _ Ht par links P n name EP Hfree i nq "" 0 H3) as (nq' & Eq & Hd & Hda & _). exists nq'. split; [done|]. unfold node_view. by rewrite Hd, Hda.
    + intros (H1 & H2 & nq & H3 & ->). apply (walk_added _ _ Ht _ links P n name EP Hfree Hnew) in H2; [|done]. destruct H2 as [H2|(p' & -> & H2 & ->)].
      * destruct (walk_exists _ _ Ht q i H1 H2) as [n0 E0]. right. split; [intros <-; rewrite (path_walk f s Hr _ _ _ H1 H2 E0) in Hnone; done|]. destruct (added_entries _ _ Ht par links P n name EP Hfree i n0 "" 0 E0) as (nq' & Eq & Hd & Hda & _). rewrite (path_walk f s Hr q i n0 H1 H2 E0). assert (nq' = nq) as <- by congruence. unfold node_view. by rewrite Hd, Hda.
      * left. apply names_snoc in H1 as [H1 _]. split; [f_equal; by apply (unique_path f s Hr p p' par)|]. rewrite (added_new _ _ Ht _ _ P n name EP) in H3. by injection H3 as <-.
Qed.
Lemma create_agrees f s parent name md tsc : repr f s -> next_ino f + 1 < u64_mod -> let '(f', r) := create_file parent name md tsc f in let '(s', r') := spec_add parent name (AFile []) s in repr f' s' /\ r = r'.
Proof.
  intros Hr Hroom. unfold create_file. pose proof (check_parent_spec f s parent name (AFile []) Hr) as Hc. destruct (check_parent parent name f) as [e|]; [by rewrite Hc|]. destruct Hc as (P & p & EP & HP & Hfree & Hp & Hw & Hn & Hnone & ->). cbv zeta. rewrite lookup_insert_ne, EP by (pose proof (t_range _ _ (r_tree _ _ Hr) parent P EP); lia). split; [|f_equal; symmetry; apply (r_next _ _ Hr)]. by apply (repr_added f s P (new_file (next_ino f) md tsc) parent p name (nlink P)).
Qed.
Lemma mkdir_agrees f s parent name md tsc : repr f s -> next_ino f + 1 < u64_mod -> let '(f', r) := mkdir parent name md tsc f in let '(s', r') := spec_add parent name ADir s in repr f' s' /\ r = r'.
Proof.
  intros Hr Hroom. unfold mkdir. pose proof (check_parent_spec f s parent name ADir Hr) as Hc. destruct (check_parent parent name f) as [e|]; [by rewrite Hc|]. destruct Hc as (P & p & EP & HP & Hfree & Hp & Hw & Hn & Hnone & ->). cbv zeta. rewrite lookup_insert_ne, EP by (pose proof (t_range _ _ (r_tree _ _ Hr) parent P EP); lia). split; [|f_equal; symmetry; apply (r_next _ _ Hr)]. by apply (repr_added f s P (new_dir (next_ino f) parent md tsc) parent p name (u32_add (nlink P) 1)).
Qed.
Lemma repr_removed f s P n par c p name : repr f s -> inodes f !! par = Some P -> is_dir P = true -> Forall proper p -> walk 1 p (inodes f) = Some par -> proper name -> entries P !! name = Some c -> inodes f !! c = Some n -> is_dir n = false ->
  repr (set_inodes (removed (inodes f) par c P name) (next_ino f) (sat_sub (used_bytes f) (isize n)) f) (set_tree (delete (p ++ [name]) (s_tree s)) (s_next s) s).
Proof.
  intros Hr EP HP Hp Hw Hn Hname Ec Hnd. pose proof (r_tree _ _ Hr) as Ht. assert (walk 1 (p ++ [name]) (inodes f) = Some c) as Hwc by (apply walk_snoc; by exists par, P). assert (Forall proper (p ++ [name])) as Hpn by (by apply names_snoc). pose proof (path_walk f s Hr _ _ _ Hpn Hwc Ec) as Et. unfold node_view in Et. rewrite Hnd in Et. destruct (t_file _ _ Ht c n Ec Hnd) as (_ & _ & Hsz).
  split; cbn [set_inodes set_tree inodes next_ino max_bytes max_inodes used_bytes s_tree s_next s_max s_inodes]; try apply Hr.
  - by apply (tree_removed _ _ Ht par c P n name).
  - pose proof (s_used_delete _ _ _ Et) as Hd. pose proof (s_used_ge _ _ _ Et) as Hge. cbn [snd alen] in *. rewrite Hd, Hsz, (r_used _ _ Hr). unfold sat_sub. lia.
  - rewrite map_size_delete, Et. pose proof (removed_size (inodes f) par c P n name EP HP Ec Hnd) as Hs. rewrite (r_size _ _ Hr). cbn. lia.
  - intros q i a. rewrite lookup_delete_Some. split.
    + intros [Hne Hq]. apply (r_paths _ _ Hr) in Hq as (H1 & H2 & nq & H3 & ->). assert (i <> c) as Hic by (intros ->; apply Hne; by apply (unique_path f s Hr _ _ c)). split; [done|]. split; [by apply (walk_removed _ _ Ht par c P n name EP HP Hn Hname Ec Hnd)|]. destruct (removed_there _ par c P n name EP HP Hn Hname Ec Hnd i nq H3 Hic) as (nq' & Eq & Hd & Hda & _). exists nq'. split; [done|]. unfold node_view. by rewrite Hd, Hda.
    + intros (H1 & H2 & nq & H3 & ->). apply (walk_removed _ _ Ht par c P n name EP HP Hn Hname Ec Hnd) in H2; [|done]. destruct H2 as [H2 Hic]. split; [intros <-; congruence|]. destruct (removed_back _ par c P n name EP HP Hn Hname Ec Hnd i nq H3) as (_ & n0 & E0 & Hd & Hda & _). rewrite (path_walk f s Hr q i n0 H1 H2 E0). unfold node_view. by rewrite Hd, Hda.
Qed.
Lemma unlink_agrees f s parent name : repr f s -> let '(f', r) := unlink parent name f in let '(s', r') := spec_unlink parent name s in repr f' s' /\ r = r'.
Proof.
  intros Hr. unfold unlink, spec_unlink. pose proof (r_tree _ _ Hr) as Ht. pose proof (path_of_spec f s Hr parent) as Hp. destruct (path_of parent (s_tree s)) as [p|]; [|by rewrite Hp]. destruct Hp as (P & EP & Hpp & Hw & ->). rewrite EP. cbn [mbind option_bind]. unfold node_view. destruct (is_dir P) eqn:Hd.
  2:{ destruct (t_file _ _ Ht parent P EP Hd) as (_ & -> & _). by rewrite lookup_empty. }
  destruct (decide (proper name)) as [Hn|Hn].
  - rewrite bool_decide_true by done. pose proof (child_spec f s Hr p parent P name Hpp Hw EP Hn) as Hc. destruct (s_tree s !! (p ++ [name])) as [[c b]|]; [|by rewrite Hc]. destruct Hc as (Ex & nc & Ec & ->). rewrite Ex, Ec. unfold node_view. destruct (is_dir nc) eqn:Hcd; [done|]. cbv zeta. rewrite lookup_delete_ne, EP by (intros ->; congruence). split; [|done]. by apply repr_removed.
  - rewrite bool_decide_false by done. destruct (t_dir _ _ Ht parent P EP Hd) as (D1 & _ & _ & [q D2]). assert (exists j nj, entries P !! name = Some j /\ inodes f !! j = Some nj /\ is_dir nj = true) as (j & nj & -> & -> & ->); [|done].
    assert (name = "." \/ name = "..") as [->| ->] by (unfold proper in Hn; destruct (decide (name = ".")), (decide (name = "..")); naive_solver); [by exists parent, P|]. destruct p as [|x p _] using rev_ind.
    + injection Hw as <-. destruct (t_root _ _ Ht) as (r & Er & Hrd & Hup). assert (r = P) as -> by congruence. by exists 1, P.
    + destruct (walk_dotdot _ _ Ht p x parent P Hpp Hw EP Hd) as (i & Hi & Hup). apply names_snoc in Hpp as [Hpp Hx]. apply walk_snoc in Hw as (k & nk & Ek & Enk & Ex). assert (k = i) as -> by congruence. exists i, nk. split; [done|]. split; [done|]. by apply (dir_of _ _ Ht i nk x parent).
Qed.
(** Changes of a node that keep its place. *)
Lemma walk_same m i n n' l j : m !! i = Some n -> entries n' = entries n -> walk j l (<[i := n']> m) = walk j l m.
Proof.
  intros E He. revert j. induction l as [|c l IH]; intros j; cbn [walk]; [done|]. destruct (decide (i = j)) as [->|Hne]; [rewrite lookup_insert_eq, E|rewrite lookup_insert_ne by done; destruct (m !! j) as [nj|]; [|done]]; cbn [mbind option_bind].
  - rewrite He. destruct (entries n !! c); cbn [mbind option_bind]; [apply IH|done].
  - destruct (entries nj !! c); cbn [mbind option_bind]; [apply IH|done].
Qed.
Lemma tree_same m next i n n' : tree m next -> m !! i = Some n -> entries n' = entries n -> node_type n' = node_type n -> (is_dir n = false -> isize n' = Z.of_nat (length (data n'))) -> (is_dir n = true -> data n' = data n /\ isize n' = isize n) -> tree (<[i := n']> m) next.
Proof.
  intros Ht E He Hty Hf Hd. assert (is_dir n' = is_dir n) as Hdir by (unfold is_dir; by rewrite Hty). assert (forall j x, <[i := n']> m !! j = Some x -> exists y, m !! j = Some y /\ is_dir x = is_dir y /\ entries x = entries y) as Hback by (intros j x; rewrite lookup_insert_Some; intros [[<- <-]|[_ Ex]]; [by exists n|by exists x]).
  assert (forall j y, m !! j = Some y -> exists x, <[i := n']> m !! j = Some x /\ is_dir x = is_dir y /\ entries x = entries y) as Hfwd by (intros j y Ey; destruct (decide (i = j)) as [->|Hne]; [exists n'; rewrite lookup_insert_eq; split; [done|]; assert (y = n) as -> by congruence; done|exists y; by rewrite lookup_insert_ne]).
  split.
  - destruct (t_root _ _ Ht) as (r & Er & Hr & Hup). destruct (Hfwd 1 r Er) as (x & Ex & H1 & H2). exists x. by rewrite H1, H2.
  - intros j x (y & Ey & _)%Hback. by apply (t_range _ _ Ht j y).
  - intros j x. rewrite lookup_insert_Some. intros [[<- <-]|[_ Ex]]; [|by apply (t_file _ _ Ht j x)]. rewrite Hdir, Hty, He. intros Hnd. destruct (t_file _ _ Ht i n E Hnd) as (F1 & F2 & F3). split; [done|]. split; [done|]. by apply Hf.
  - intros j x. rewrite lookup_insert_Some. intros [[<- <-]|[_ Ex]]; [|by apply (t_dir _ _ Ht j x)]. rewrite Hdir, He. intros Hdd. destruct (Hd Hdd) as [-> ->]. by apply (t_dir _ _ Ht i n).
  - intros j x name c (y & Ey & _ & ->)%Hback Hx Ex. destruct (t_child _ _ Ht j y name c Ey Hx Ex) as (Hlt & nc & Ec & Hup). split; [done|]. destruct (Hfwd c nc Ec) as (z & Ez & H1 & H2). exists z. by rewrite H1, H2.
  - intros c x (y & Ey & _)%Hback Hc. destruct (t_parent _ _ Ht c y Ey Hc) as (j & nj & name & Ej & Hn & Ex). destruct (Hfwd j nj Ej) as (z & Ez & _ & H2). exists j, z, name. by rewrite H2.
  - intros j x name j' x' name' c (y & Ey & _ & ->)%Hback Hn Ex (y' & Ey' & _ & ->)%Hback Hn' Ex'. by apply (t_unique _ _ Ht j y name j' y' name' c).
Qed.
Lemma repr_same f s i n n' p used : repr f s -> inodes f !! i = Some n -> Forall proper p -> walk 1 p (inodes f) = Some i -> entries n' = entries n -> node_type n' = node_type n -> (is_dir n = false -> isize n' = Z.of_nat (length (data n'))) -> (is_dir n = true -> data n' = data n /\ isize n' = isize n) ->
  used = s_used (s_tree s) - alen (node_view n) + alen (node_view n') -> repr (set_inodes (<[i := n']> (inodes f)) (next_ino f) used f) (set_tree (<[p := (i, node_view n')]> (s_tree s)) (s_next s) s).
Proof.
  intros Hr En Hp Hw He Hty Hf Hd Hu. pose proof (path_walk f s Hr p i n Hp Hw En) as Et. split; cbn [set_inodes set_tree inodes next_ino max_bytes max_inodes used_bytes s_tree s_next s_max s_inodes]; try apply Hr.
  - apply (tree_same _ _ i n); try done. apply (r_tree _ _ Hr).
  - rewrite (s_used_update _ _ _ _ Et). exact Hu.
  - rewrite !map_size_insert_Some by (by eexists). apply (r_size _ _ Hr).
  - intros q j a. rewrite lookup_insert_Some, (walk_same _ i n) by done. split.
    + intros [[<- [= <- <-]]|[Hne Hq]]; [split; [done|]; split; [done|]; exists n'; by rewrite lookup_insert_eq|]. apply (r_paths _ _ Hr) in Hq as (H1 & H2 & nq & H3 & ->). split; [done|]. split; [done|]. exists nq. rewrite lookup_insert_ne; [done|]. intros <-. apply Hne. by apply (unique_path f s Hr p q i).
    + intros (H1 & H2 & nq & H3 & ->). rewrite lookup_insert_Some in H3. destruct H3 as [[<- <-]|[Hne H3]]; [left; split; [by apply (unique_path f s Hr p q i)|done]|]. right. split; [intros <-; congruence|]. by apply (path_walk f s Hr).
Qed.
Lemma written_spec offset buf d : splice offset buf (if (length d <? offset + length buf)%nat then resize (offset + length buf) d else d) = written offset buf d.
Proof.
  unfold splice, written. destruct (Nat.ltb_spec (length d) (offset + length buf)) as [Hlt|Hge].
  - unfold resize. rewrite (take_ge d (offset + length buf)) by lia. rewrite (drop_ge (d ++ _)) by (rewrite length_app, length_replicate; lia). rewrite (drop_ge d) by lia. rewrite take_app, take_replicate, <-app_assoc. do 3 f_equal. lia.
  - replace (offset - length d)%nat with 0%nat by lia. done.
Qed.
Lemma written_length offset buf d : length (written offset buf d) = Nat.max (length d) (offset + length buf).
Proof. unfold written. rewrite !length_app, length_take, length_replicate, length_drop. lia. Qed.
Lemma write_data offset buf tsc n : node_type n = RegularFile -> isize n = Z.of_nat (length (data n)) -> exists n', write offset buf tsc n = (n', length buf) /\ entries n' = entries n /\ node_type n' = node_type n /\ data n' = written offset buf (data n) /\ isize n' = Z.of_nat (length (data n')).
Proof. intros Hty Hsz. unfold write. rewrite Hty, bool_decide_true by done. cbn [negb andb]. cbv zeta. rewrite written_spec. eexists. split; [done|]. by split_and!. Qed.
Lemma u64_add_sub a b c : 0 <= a + b - c < u64_mod -> u64_sub (u64_add a b) c = a + b - c.
Proof. intros H. unfold u64_sub, u64_add. rewrite Zminus_mod_idemp_l. by apply Z.mod_small. Qed.
Lemma write_agrees f s i offset buf tsc : repr f s -> s_used (s_tree s) + Z.of_nat (offset + length buf) < u64_mod -> let '(f', r) := write_file i offset buf tsc f in let '(s', r') := tree_write i offset buf s in repr f' s' /\ r = r' /\ s_used (s_tree s') <= s_used (s_tree s) + Z.of_nat (offset + length buf).
Proof.
  intros Hr Hb. assert (0 <= s_used (s_tree s)) as H0 by (apply sumZ_nonneg; intros ?; apply alen_nonneg). unfold write_file, tree_write. rewrite (r_used _ _ Hr), (r_max _ _ Hr), u64_add_small by lia. destruct (max_bytes f <? _); [split; [done|]; split; [done|lia]|]. pose proof (path_of_spec f s Hr i) as Hp. destruct (path_of i (s_tree s)) as [p|]; [|rewrite Hp; split; [done|]; split; [done|lia]]. destruct Hp as (n & En & Hp & Hw & Et). rewrite En, Et.
  pose proof (s_used_ge _ _ _ Et) as Hge. unfold node_view in *. destruct (is_dir n) eqn:Hd.
  - assert (write offset buf tsc n = (n, 0%nat)) as -> by (unfold is_dir in Hd; apply bool_decide_eq_true in Hd; unfold write; by rewrite Hd). destruct (t_dir _ _ (r_tree _ _ Hr) i n En Hd) as (_ & _ & Hsz & _). rewrite Hsz. rewrite (insert_id _ _ _ En), u64_add_sub by lia. split; [|split; [done|lia]]. replace (s_used (s_tree s) + 0 - 0) with (used_bytes f) by (rewrite (r_used _ _ Hr); lia). by destruct f.
  - destruct (t_file _ _ (r_tree _ _ Hr) i n En Hd) as (Hty & He & Hsz). destruct (write_data offset buf tsc n Hty Hsz) as (n' & -> & W1 & W2 & W3 & W4). assert (is_dir n' = false) as Hd' by (unfold is_dir; by rewrite W2). assert (node_view n' = AFile (written offset buf (data n))) as Ev by (unfold node_view; by rewrite Hd', W3). cbn [snd alen] in Hge.
    pose proof (written_length offset buf (data n)) as Hl. rewrite W3 in W4. rewrite u64_add_sub by lia. split; [|split; [done|]].
    + rewrite <-Ev. apply (repr_same f s i n n' p); try done; [intros _; by rewrite W4, W3|intros E; congruence|]. rewrite Ev. unfold node_view. rewrite Hd. cbn [alen]. lia.
    + cbn [set_tree s_tree]. rewrite (s_used_update _ _ _ _ Et). cbn [snd alen]. lia.
Qed.
Lemma read_agrees f s i offset n tsc : repr f s -> let '(f', r) := read_file i offset n tsc f in repr f' s /\ r = spec_read i offset n s.
Proof.
  intros Hr. unfold read_file, spec_read. pose proof (path_of_spec f s Hr i) as Hp. destruct (path_of i (s_tree s)) as [p|]; [|by rewrite Hp]. destruct Hp as (nd & En & Hp & Hw & Et). rewrite En, Et.
  assert (forall nd' : TmpfsInode, entries nd' = entries nd -> node_type nd' = node_type nd -> data nd' = data nd -> isize nd' = isize nd -> repr (set_inodes (<[i := nd']> (inodes f)) (next_ino f) (used_bytes f) f) s) as Hsame.
  { intros nd' H1 H2 H3 H4. assert (node_view nd' = node_view nd) as Ev by (unfold node_view, is_dir; by rewrite H2, H3). pose proof (repr_same f s i nd nd' p (used_bytes f) Hr En Hp Hw H1 H2) as Hs. rewrite Ev, (insert_id _ _ _ Et) in Hs. destruct s. apply Hs; [|done|rewrite (r_used _ _ Hr); cbn; lia]. intros Hd. rewrite H3, H4. by apply (t_file _ _ (r_tree _ _ Hr) i nd En Hd). }
  assert ((read offset n tsc nd).2 = take n (drop offset (data nd)) /\ repr (set_inodes (<[i := (read offset n tsc nd).1]> (inodes f)) (next_ino f) (used_bytes f) f) s) as [Hd Hr'].
  { unfold read. destruct (Nat.leb_spec (length (data nd)) offset); cbn [fst snd]; [split; [rewrite drop_ge by lia; by rewrite take_nil|by apply Hsame]|]. split; [|by apply Hsame]. destruct (decide (n <= length (data nd) - offset)%nat); [by rewrite Nat.min_l by lia|]. rewrite Nat.min_r by lia. rewrite !take_ge by (rewrite length_drop; lia). done. }
  destruct (read offset n tsc nd) as [nd' b]; cbn [fst snd] in *. split; [done|]. rewrite Hd. unfold node_view. destruct (is_dir nd) eqn:E; [|done]. destruct (t_dir _ _ (r_tree _ _ Hr) i nd En E) as (_ & -> & _). by rewrite drop_nil, take_nil.
Qed.
Lemma walk_agrees f s l p i : repr f s -> Forall proper p -> walk 1 p (inodes f) = Some i -> walk i l (inodes f) = spec_walk p l (s_tree s).
Proof.
  intros Hr. pose proof (r_tree _ _ Hr) as Ht. revert p i. induction l as [|c l IH]; intros p i Hp Hw; destruct (walk_exists _ _ Ht p i Hp Hw) as [n En]; cbn [walk spec_walk]; rewrite (path_walk f s Hr p i n Hp Hw En); [done|]. rewrite En. cbn [mbind option_bind]. unfold node_view. destruct (is_dir n) eqn:Hd.
  2:{ destruct (t_file _ _ Ht i n En Hd) as (_ & -> & _). by rewrite lookup_empty. }
  destruct (t_dir _ _ Ht i n En Hd) as (D1 & _ & _ & [up D2]). case_decide as H1; [subst c; rewrite D1; cbn [mbind option_bind]; by apply IH|]. case_decide as H2.
  - subst c. rewrite D2. cbn [mbind option_bind]. destruct p as [|x p _] using rev_ind.
    + injection Hw as <-. destruct (t_root _ _ Ht) as (r & Er & _ & Hup). assert (r = n) as -> by congruence. assert (up = 1) as -> by congruence. by apply IH.
    + destruct (walk_dotdot _ _ Ht p x i n Hp Hw En Hd) as (j & Hj & Hup). assert (up = j) as -> by congruence. rewrite removelast_last. apply IH; [by apply names_snoc in Hp as [? _]|done].
  - assert (proper c) as Hc by done. pose proof (child_spec f s Hr p i n c Hp Hw En Hc) as Hch. destruct (s_tree s !! (p ++ [c])) as [[j a]|] eqn:Et.
    + destruct Hch as (-> & _). cbn [mbind option_bind]. apply IH; [by apply names_snoc|]. apply (r_paths _ _ Hr) in Et. apply Et.
    + rewrite Hch. cbn [mbind option_bind]. destruct l; cbn [spec_walk]; by rewrite Et.
Qed.
Lemma child_of_spec p t name c : (list_to_map (omap (child_of p) (map_to_list t)) : gmap string Z) !! name = Some c <-> exists a, (t : Tree) !! (p ++ [name]) = Some (c, a).
Proof.
  assert (forall x d, (x, d) ∈ omap (child_of p) (map_to_list t) <-> exists a, t !! (p ++ [x]) = Some (d, a)) as Hin.
  { intros x d. rewrite list_elem_of_omap. split.
    - intros ([q [e a]] & Hq & Hc). apply elem_of_map_to_list in Hq. unfold child_of in Hc. cbn [fst snd] in Hc. destruct (last q) as [y|]; cbn [mbind option_bind] in Hc; [|done]. case_decide as E; [|done]. injection Hc as -> ->. subst q. by exists a.
    - intros [a Ea]. exists (p ++ [x], (d, a)). split; [by apply elem_of_map_to_list|]. unfold child_of. cbn [fst snd]. rewrite last_snoc. cbn [mbind option_bind]. by rewrite decide_True. }
  split; [intros E; apply Hin; by apply elem_of_list_to_map_2|]. intros [a Ea]. apply elem_of_list_to_map_1'; [|apply Hin; by exists a]. intros d Hd. apply Hin in Hd as [b Eb]. congruence.
Qed.
Lemma entries_spec f s p i n : repr f s -> Forall proper p -> walk 1 p (inodes f) = Some i -> inodes f !! i = Some n -> is_dir n = true -> spec_entries p (s_tree s) = entries n.
Proof.
  intros Hr Hp Hw En Hd. pose proof (r_tree _ _ Hr) as Ht. destruct (t_dir _ _ Ht i n En Hd) as (D1 & _ & _ & [up D2]). pose proof (path_walk f s Hr p i n Hp Hw En) as Et. unfold spec_entries. rewrite Et. cbn [from_option fst]. assert (from_option fst 0 (s_tree s !! removelast p) = up) as ->.
  { destruct p as [|x p _] using rev_ind.
    - injection Hw as <-. cbn [removelast]. rewrite Et. cbn. destruct (t_root _ _ Ht) as (r & Er & _ & Hup). assert (r = n) as -> by congruence. congruence.
    - rewrite removelast_last. destruct (walk_dotdot _ _ Ht p x i n Hp Hw En Hd) as (j & Hj & Hup). apply names_snoc in Hp as [Hp _]. destruct (walk_exists _ _ Ht p j Hp Hj) as [nj Ej]. rewrite (path_walk f s Hr p j nj Hp Hj Ej). cbn. congruence. }
  apply map_eq. intros name. destruct (decide (name = "..")) as [->|H1]; [by rewrite lookup_insert_eq, D2|]. rewrite lookup_insert_ne by done. destruct (decide (name = ".")) as [->|H2]; [by rewrite lookup_insert_eq, D1|]. rewrite lookup_insert_ne by done.
  pose proof (child_spec f s Hr p i n name Hp Hw En (conj H2 H1)) as Hc. apply option_eq. intros c. rewrite child_of_spec. destruct (s_tree s !! (p ++ [name])) as [[d a]|]; [destruct Hc as [-> _]; naive_solver|rewrite Hc; naive_solver].
Qed.
Lemma kind_spec f s i : repr f s -> spec_kind i (s_tree s) = match inodes f !! i with Some c => node_type c | None => RegularFile end.
Proof.
  intros Hr. unfold spec_kind. pose proof (path_of_spec f s Hr i) as Hp. destruct (path_of i (s_tree s)) as [p|]; cbn [mbind option_bind]; [|by rewrite Hp]. destruct Hp as (n & En & _ & _ & ->). rewrite En. cbn [from_option snd]. unfold node_view. destruct (is_dir n) eqn:E; cbn [kind].
  - by apply bool_decide_eq_true in E.
  - by destruct (t_file _ _ (r_tree _ _ Hr) i n En E) as (-> & _).
Qed.
Lemma readdir_agrees f s i : repr f s -> readdir i f = spec_readdir i s.
Proof.
  intros Hr. unfold readdir, spec_readdir. pose proof (path_of_spec f s Hr i) as Hp. destruct (path_of i (s_tree s)) as [p|]; [|by rewrite Hp]. destruct Hp as (n & En & Hp & Hw & ->). rewrite En. unfold node_view. destruct (is_dir n) eqn:Hd; cbn [negb]; [|done]. cbv zeta. rewrite (entries_spec f s p i n Hr Hp Hw En Hd). f_equal. apply list_omap_ext. apply Forall_Forall2_diag, Forall_forall. intros name _. destruct (entries n !! name) as [c|]; cbn [mbind option_bind]; [|done]. by rewrite (kind_spec f s c Hr).
Qed.
Lemma statfs_agrees f s : repr f s -> statfs f = spec_statfs s.
Proof. intros Hr. unfold statfs, spec_statfs, u64_sub. by rewrite (r_max _ _ Hr), (r_inodes _ _ Hr), (r_used _ _ Hr), (r_size _ _ Hr). Qed.
(** *** Sequences of operations *)
Fixpoint run (l : list op) (f : TmpfsFilesystem) : TmpfsFilesystem * list out :=
  match l with [] => (f, []) | o :: l' => let '(f, r) := step o f in let '(f, rs) := run l' f in (f, r :: rs) end.
Fixpoint tree_run (l : list op) (s : Spec) : Spec * list out :=
  match l with [] => (s, []) | o :: l' => let '(s, r) := tree_step o s in let '(s, rs) := tree_run l' s in (s, r :: rs) end.
(** What an operation can add to the inode numbers and to the bytes used. *)
Definition weight (o : op) : Z := match o with OWrite _ offset buf _ => 1 + Z.of_nat (offset + length buf) | _ => 1 end.
Definition weights (l : list op) : Z := sumZ weight l.
Lemma weight_pos o : 1 <= weight o.
Proof. destruct o; cbn [weight]; lia. Qed.
Lemma weights_pos l : 0 <= weights l.
Proof. apply sumZ_nonneg. intros o. pose proof (weight_pos o). lia. Qed.
Lemma s_used_nonneg t : 0 <= s_used t.
Proof. apply sumZ_nonneg. intros ?. apply alen_nonneg. Qed.
Lemma spec_add_weight parent name a s : alen a = 0 -> let s' := (spec_add parent name a s).1 in s_next s' + s_used (s_tree s') <= s_next s + s_used (s_tree s) + 1.
Proof.
  intros Ha. cbv zeta. unfold spec_add. destruct (_ <=? _)%nat; [cbn; lia|]. destruct (path_of parent (s_tree s)) as [p|]; [|cbn; lia]. destruct (s_tree s !! p) as [[? []]|]; try (cbn; lia). destruct (bool_decide (proper name)); cbn [andb]; [|cbn; lia]. destruct (bool_decide_reflect (s_tree s !! (p ++ [name]) = None)); [|cbn; lia]. cbn [fst set_tree s_tree s_next]. rewrite s_used_insert by done. cbn [snd]. lia.
Qed.
Lemma spec_unlink_weight parent name s : let s' := (spec_unlink parent name s).1 in s_next s' + s_used (s_tree s') <= s_next s + s_used (s_tree s).
Proof.
  cbv zeta. unfold spec_unlink. destruct (path_of parent (s_tree s)) as [p|]; [|cbn; lia]. destruct (s_tree s !! p) as [[? []]|]; try (cbn; lia). destruct (bool_decide _); [|cbn; lia]. destruct (s_tree s !! (p ++ [name])) as [[? []]|] eqn:E; try (cbn; lia). cbn [fst set_tree s_tree s_next]. rewrite (s_used_delete _ _ _ E). pose proof (alen_nonneg (AFile d)). cbn [snd]. lia.
Qed.
Lemma tree_write_next i offset buf s : s_next (tree_write i offset buf s).1 = s_next s.
Proof. unfold tree_write. by repeat case_match. Qed.
Lemma step_agrees f s o : repr f s -> s_next s + s_used (s_tree s) + weight o < u64_mod -> let '(f', r) := step o f in let '(s', r') := tree_step o s in repr f' s' /\ r = r' /\ s_next s' + s_used (s_tree s') <= s_next s + s_used (s_tree s) + weight o.
Proof.
  intros Hr Hw. pose proof (s_used_nonneg (s_tree s)) as H0. assert (1 <= s_next s) as H1 by (rewrite (r_next _ _ Hr); destruct (t_root _ _ (r_tree _ _ Hr)) as (r & Er & _); pose proof (t_range _ _ (r_tree _ _ Hr) 1 r Er); lia). pose proof (r_next _ _ Hr) as Hn. destruct o as [par name md tsc|par name md tsc|par name|i offset buf tsc|i offset n tsc|p|i|]; cbn [step tree_step weight] in *.
  - pose proof (create_agrees f s par name md tsc Hr ltac:(lia)) as Ha. pose proof (spec_add_weight par name (AFile []) s eq_refl) as Hs. destruct (create_file _ _ _ _ _), (spec_add _ _ _ _). destruct Ha as [? ->]. by split_and!.
  - pose proof (mkdir_agrees f s par name md tsc Hr ltac:(lia)) as Ha. pose proof (spec_add_weight par name ADir s eq_refl) as Hs. destruct (mkdir _ _ _ _ _), (spec_add _ _ _ _). destruct Ha as [? ->]. by split_and!.
  - pose proof (unlink_agrees f s par name Hr) as Ha. pose proof (spec_unlink_weight par name s) as Hs. destruct (unlink _ _ _), (spec_unlink _ _ _). destruct Ha as [? ->]. cbn [fst] in Hs. split_and!; [done..|lia].
  - pose proof (write_agrees f s i offset buf tsc Hr ltac:(lia)) as Ha. pose proof (tree_write_next i offset buf s) as Hs. destruct (write_file _ _ _ _ _), (tree_write _ _ _ _). destruct Ha as (? & -> & ?). cbn [fst] in Hs. split_and!; [done..|lia].
  - pose proof (read_agrees f s i offset n tsc Hr) as Ha. destruct (read_file _ _ _ _ _). destruct Ha as [? ->]. split_and!; [done..|lia].
  - split_and!; [done| |lia]. f_equal. unfold lookup_path. by apply walk_agrees.
  - split_and!; [done| |lia]. f_equal. by apply readdir_agrees.
  - split_and!; [done| |lia]. f_equal. by apply statfs_agrees.
Qed.
Lemma run_agrees l f s : repr f s -> s_next s + s_used (s_tree s) + weights l < u64_mod -> repr (run l f).1 (tree_run l s).1 /\ (run l f).2 = (tree_run l s).2.
Proof.
  revert f s. induction l as [|o l IH]; intros f s Hr Hw; [done|]. cbn [run tree_run]. change (weights (o :: l)) with (weight o + weights l) in Hw. pose proof (weights_pos l). pose proof (step_agrees f s o Hr ltac:(lia)) as Hs. destruct (step o f) as [f' r], (tree_step o s) as [s' r']. destruct Hs as (Hr' & -> & Hle). destruct (IH f' s' Hr' ltac:(lia)) as [H1 H2]. destruct (run l f'), (tree_run l s'). cbn [fst snd] in *. by rewrite H2.
Qed.
Lemma repr_new lbl mx tsc : repr (fs_new lbl mx tsc) (spec0 mx).
Proof.
  assert (forall i n, ({[1 := new_dir 1 1 1023 tsc]} : gmap Z TmpfsInode) !! i = Some n -> i = 1 /\ n = new_dir 1 1 1023 tsc) as Hin by (intros i n; rewrite lookup_singleton_Some; naive_solver). assert (forall x c, proper x -> entries (new_dir 1 1 1023 tsc) !! x = Some c -> False) as Hno by (intros x c [X1 X2]; cbn [new_dir entries]; by rewrite !lookup_insert_ne, lookup_empty by done).
  assert (forall q i, Forall proper q -> walk 1 q {[1 := new_dir 1 1 1023 tsc]} = Some i -> q = [] /\ i = 1) as Hwalk by (intros [|x q] i; [intros _ [= <-]; done|]; intros [Hx _]%Forall_cons; cbn [walk]; rewrite lookup_singleton_eq; cbn [mbind option_bind]; destruct (entries _ !! x) as [c|] eqn:E; [by destruct (Hno x c)|done]).
  split; cbn [fs_new spec0 inodes next_ino max_bytes max_inodes used_bytes s_tree s_next s_max s_inodes]; try done.
  - split; try (intros i n E; apply Hin in E as [-> ->]; by try lia).
    + eexists. by split.
    + intros i n name c E Hx Ex. apply Hin in E as [-> ->]. by destruct (Hno name c).
    + intros i n name i' n' name' c E Hx Ex. apply Hin in E as [-> ->]. by destruct (Hno name c).
  - intros p i a. rewrite lookup_singleton_Some. split; [intros [<- [= <- <-]]; split; [done|]; split; [done|]; by eexists|]. intros (Hp & Hw & n & En & ->). apply Hwalk in Hw as [-> ->]; [|done]. apply Hin in En as [_ ->]. done.
Qed.
(** ** The contract
    The size limit bounds the bytes the files hold; names are not empty, hold no
    slash and at most [TMPFS_NAME_MAX] bytes. *)
Definition growth (i : Z) (offset : nat) (buf : bytes) (s : Spec) : Z :=
  match p ← path_of i (s_tree s); s_tree s !! p with
  | Some (_, AFile d) => Z.max 0 (Z.of_nat (offset + length buf) - Z.of_nat (length d))
  | _ => Z.of_nat (length buf)
  end.
Definition spec_write (i : Z) (offset : nat) (buf : bytes) (s : Spec) : Spec * res nat :=
  if s_max s <? s_used (s_tree s) + growth i offset buf s then (s, inr ENOSPC)
  else match path_of i (s_tree s) with
    | None => (s, inr ENOENT)
    | Some p => match s_tree s !! p with
        | Some (_, AFile d) => (set_tree (<[p := (i, AFile (written offset buf d))]> (s_tree s)) (s_next s) s, inl (length buf))
        | _ => (s, inl 0%nat)
        end
    end.
Definition spec_step (o : op) (s : Spec) : Spec * out :=
  match o with OWrite i offset buf _ => let '(s, r) := spec_write i offset buf s in (s, RLen r) | _ => tree_step o s end.
Fixpoint spec_run (l : list op) (s : Spec) : Spec * list out :=
  match l with [] => (s, []) | o :: l' => let '(s, r) := spec_step o s in let '(s, rs) := spec_run l' s in (s, r :: rs) end.
Fixpoint name_chars (n : string) : bool := match n with EmptyString => true | String c n' => negb (Ascii.eqb c (Ascii.ascii_of_nat 47)) && name_chars n' end.
Definition name_ok (n : string) : bool := negb (String.eqb n "") && name_chars n && (Z.of_nat (String.length n) <=? TMPFS_NAME_MAX).
(** Names are in the documented form; for a write, the code's estimate (all its data is new)
    and the real growth of the file are on the same side of the limit. *)
Definition fair (o : op) (s : Spec) : bool :=
  match o with
  | OCreate _ n _ _ | OMkdir _ n _ _ | OUnlink _ n => name_ok n
  | OWrite i offset buf _ => eqb (s_max s <? s_used (s_tree s) + Z.of_nat (length buf)) (s_max s <? s_used (s_tree s) + growth i offset buf s)
  | _ => true
  end.
Fixpoint all_fair (l : list op) (s : Spec) : bool := match l with [] => true | o :: l' => fair o s && all_fair l' (spec_step o s).1 end.
Lemma fair_step o s : fair o s = true -> tree_step o s = spec_step o s.
Proof. destruct o; try done. cbn [fair tree_step spec_step]. intros H%eqb_prop. unfold tree_write, spec_write. by rewrite H. Qed.
Lemma fair_run l : forall s, all_fair l s = true -> tree_run l s = spec_run l s.
Proof.
  induction l as [|o l IH]; intros s; [done|]. cbn [all_fair tree_run spec_run]. intros [Ho Hl]%andb_prop. rewrite (fair_step o s Ho). destruct (spec_step o s) as [s' r]. cbn [fst] in Hl. by rewrite (IH s' Hl).
Qed.
(** The contract keeps the limit. *)
Lemma spec_add_limit p n a s : s_used (s_tree s) <= s_max s -> alen a = 0 -> s_max (spec_add p n a s).1 = s_max s /\ s_used (s_tree (spec_add p n a s).1) <= s_max s.
Proof.
  intros Hu Ha. unfold spec_add. destruct (_ <=? _)%nat; [done|]. destruct (path_of p (s_tree s)) as [q|]; [|done]. destruct (s_tree s !! q) as [[? []]|]; try done.
  destruct (bool_decide (proper n)); cbn [andb]; [|done]. case_bool_decide; [|done]. cbn [fst set_tree s_max s_tree]. split; [done|]. rewrite s_used_insert by done. cbn [snd]. lia.
Qed.
Lemma spec_step_limit o s : s_used (s_tree s) <= s_max s -> s_max (spec_step o s).1 = s_max s /\ s_used (s_tree (spec_step o s).1) <= s_max s.
Proof.
  intros Hu. destruct o as [p n md tsc|p n md tsc|p n|i offset buf tsc|i offset len tsc|p|i|]; cbn [spec_step tree_step]; try done.
  - pose proof (spec_add_limit p n (AFile []) s Hu eq_refl) as H. by destruct (spec_add _ _ _ _).
  - pose proof (spec_add_limit p n ADir s Hu eq_refl) as H. by destruct (spec_add _ _ _ _).
  - unfold spec_unlink. destruct (path_of p (s_tree s)) as [q|]; [|done]. destruct (s_tree s !! q) as [[? []]|]; try done. destruct (bool_decide (proper n)); [|done]. destruct (s_tree s !! (q ++ [n])) as [[? [|d]]|] eqn:E; try done.
    cbn [fst set_tree s_max s_tree]. split; [done|]. rewrite (s_used_delete _ _ _ E). pose proof (alen_nonneg (AFile d)). cbn [snd]. lia.
  - unfold spec_write, growth. destruct (Z.ltb_spec (s_max s) (s_used (s_tree s) + match p ← path_of i (s_tree s); s_tree s !! p with Some (_, AFile d) => Z.max 0 (Z.of_nat (offset + length buf) - Z.of_nat (length d)) | _ => Z.of_nat (length buf) end)) as [|Hl]; [done|].
    destruct (path_of i (s_tree s)) as [p|]; [|done]. cbn [mbind option_bind] in Hl. destruct (s_tree s !! p) as [[j [|d]]|] eqn:Ep; [done| |done]. cbn [fst set_tree s_max s_tree]. split; [done|]. rewrite (s_used_update _ _ _ _ Ep). cbn [snd alen]. rewrite written_length. lia.
Qed.
Lemma spec_run_limit l : forall s, s_used (s_tree s) <= s_max s -> s_used (s_tree (spec_run l s).1) <= s_max s.
Proof.
  induction l as [|o l IH]; intros s Hu; [done|]. cbn [spec_run]. destruct (spec_step_limit o s Hu) as [E L]. destruct (spec_step o s) as [s' r]. cbn [fst] in *. rewrite <-E in L |- *. specialize (IH s' L). by destruct (spec_run l s').
Qed.
(** C22: From a new file system, any sequence of creates, mkdirs, unlinks, writes,
    reads, look-ups, listings and statfs calls returns what a tree of
    directories and files returns: names lead to the nodes created under them,
    [.] and [..] resolve lexically, a read gives the bytes last written with gaps as zeros,
    a listing is the sorted names of the directory, statfs counts the bytes of the files,
    and the files never hold more than the size limit.  The names are not empty, hold no slash and at most
    255 bytes (the code does not check them, see [slash_name]); for each write, the
    code's estimate of the space it takes (the length of its data) and the real
    growth of the file are on the same side of the limit (else see [sparse_write_exceeds],
    [overwrite_refused]); the sequence is short enough that inode numbers and
    byte counts fit 64 bits. *)
Theorem tmpfs_refines lbl mx tsc l : 0 <= mx -> 2 + weights l < u64_mod -> all_fair l (spec0 mx) = true ->
  (run l (fs_new lbl mx tsc)).2 = (spec_run l (spec0 mx)).2 /\ used_bytes (run l (fs_new lbl mx tsc)).1 <= mx.
Proof.
  intros Hm Hw Hf. destruct (run_agrees l (fs_new lbl mx tsc) (spec0 mx) (repr_new lbl mx tsc)) as [Hr E]; [cbn [spec0 s_next s_tree]; change (s_used {[ [] := (1, ADir) ]}) with 0; lia|].
  rewrite (fair_run l _ Hf) in Hr, E. split; [done|]. rewrite (r_used _ _ Hr). apply (spec_run_limit l (spec0 mx)). cbn [spec0 s_tree s_max]. by change (s_used {[ [] := (1, ADir) ]}) with 0.
Qed.
Definition demo : list op := [OMkdir 1 "a" 493 7; OCreate 2 "f" 420 7; OWrite 3 2 [5; 6] 8; OLookup "/a/./f/"; OLookup "a/../a/f"; ORead 3 0 9 9; OReaddir 2; OUnlink 2 "."; OUnlink 2 "f"; OLookup "/a/f"; OStatfs].
Lemma tmpfs_refines_witness : 2 + weights demo < u64_mod /\ all_fair demo (spec0 4096) = true /\ (run demo (fs_new "/tmp" 4096 1)).2 = (spec_run demo (spec0 4096)).2.
Proof.
  assert (all_fair demo (spec0 4096) = true) as Hf by (vm_compute; reflexivity).
  split; [done|]. split; [exact Hf|]. apply (tmpfs_refines "/tmp" 4096 1 demo); [discriminate|reflexivity|exact Hf].
Defined.
Example demo_outputs : (run demo (fs_new "/tmp" 4096 1)).2 =
  [RIno (inl 2); RIno (inl 3); RLen (inl 2%nat); RFound (Some 3); RFound (Some 3); RData (inl [0; 0; 5; 6]); RDir (inl [(".", 2, Directory); ("..", 1, Directory); ("f", 3, RegularFile)]); RUnit (inr EISDIR); RUnit (inl tt); RFound None; RStat (mkStat TMPFS_MAGIC 4096 1 1 1 65536 65534 255)].
Proof. vm_compute. reflexivity. Qed.
(** ** What the limit counts *)
(** The check of [write_file] adds the length of the data to the bytes used: a write past the end of a file also pays for the gap, and the limit can be passed. *)
Example sparse_write_exceeds : let '(f, r) := run [OCreate 1 "f" 420 0; OWrite 2 100 [1] 0; OStatfs] (fs_new "/tmp" 10 0) in used_bytes f = 101 /\ max_bytes f = 10 /\ r !! 1%nat = Some (RLen (inl 1%nat)).
Proof. vm_compute. done. Qed.
(** Rewriting bytes that are already there is refused when the file system is nearly full. *)
Example overwrite_refused : (run [OCreate 1 "f" 420 0; OWrite 2 0 [1; 2; 3; 4; 5; 6] 0; OWrite 2 0 [9; 9; 9; 9; 9; 9] 0] (fs_new "/tmp" 10 0)).2 = [RIno (inl 2); RLen (inl 6%nat); RLen (inr ENOSPC)].
Proof. vm_compute. done. Qed.
(** A name with a slash is accepted and no path leads to the file. *)
Example slash_name : (run [OCreate 1 "a/b" 420 0; OLookup "a/b"] (fs_new "/tmp" 10 0)).2 = [RIno (inl 2); RFound None].
Proof. vm_compute. done. Qed.
(** ** The table of instances *)
(** An operation of one instance leaves the others as they are. *)
Lemma locked_frame {A : Type} (mp mp' : string) (op : TmpfsFilesystem -> TmpfsFilesystem * res A) (s : Instances) : mp <> mp' -> (locked mp op s).1 !! mp' = s !! mp'.
Proof. intros Hne. unfold locked, get_fs. destruct (s !! mp) as [f|]; [|done]. destruct (op f). cbn [fst]. by rewrite lookup_insert_ne. Qed.
Lemma mount_umount mp (mx tsc : Z) (s : Instances) : s !! mp = None -> umount mp (mount mp mx tsc s).1 = (s, inl tt).
Proof. intros E. unfold mount, umount. rewrite E. cbn [fst]. rewrite lookup_insert_eq. by rewrite delete_insert_id. Qed.
Example init_mounts tsc : (init tsc ∅) !! "/run" = Some (fs_new "/run" (64 * 1024 * 1024) tsc) /\ mounted_count (init tsc ∅) = 3%nat.
Proof. done. Qed.
End Tmpfs.
