(* ===== verification/Ipv4.v ===== *)
(** * The Internet protocol, version 4

    Models [src/src/net/ip.rs] and the address types of [net/mod.rs] it uses: headers and
    packets as bytes, their checksum, the reassembly of fragments with its
    table, the path of a received packet (filter hooks, source route
    options, forwarding, delivery), routes, and ICMP echo and time exceeded.

    Bytes are integers below 256, addresses lists of four bytes.  The packet
    filter, the link below and the protocols above are arguments; what is sent, delivered and counted
    is a list of effects.  An index of the code that could lie outside a slice is
    tested first, so slices are total here.

    [parse_serialized]: what is serialized parses back.
    [reassembly_exact]: fragments of a datagram, in any order and repeated,
    give the datagram when the last missing one arrives and nothing before.
    [ping_roundtrip]: an echo request is answered by its reply.
    The examples show what fragments of odd lengths do. *)
From S2P Require Import Prelude Checksum.

Module Ipv4.

Abbreviation bytes := (list Z).
Abbreviation get := Checksum.get.
Abbreviation be_word := Checksum.be_word.

(** ** Types of [net/mod.rs] *)
Inductive NetError := NoInterface | NotUp | BufferFull | BufferEmpty | InvalidPacket | InvalidFd | InvalidParam | InvalidArg | ChecksumError | Timeout | ConnectionRefused | ConnectionReset | ConnectionClosed | WouldBlock | AddrInUse | AddrNotAvailable | NetworkUnreachable | HostUnreachable | ProtocolError | NotSupported | NotConnected | Unknown.
#[export] Instance NetError_eq_dec : EqDecision NetError.
Proof. solve_decision. Defined.
(** [Result<A, NetError>] *)
Abbreviation res A := (A + NetError)%type.
Abbreviation Ipv4Addr := (list Z).
Definition UNSPECIFIED : Ipv4Addr := [0; 0; 0; 0].
Definition BROADCAST : Ipv4Addr := [255; 255; 255; 255].
Definition is_unspecified (a : Ipv4Addr) : bool := bool_decide (a = UNSPECIFIED).
Definition is_multicast (a : Ipv4Addr) : bool := (224 <=? get a 0) && (get a 0 <=? 239).
Definition is_broadcast (a : Ipv4Addr) : bool := bool_decide (a = BROADCAST).
(** Big-endian words. *)
Definition be16 (x : Z) : bytes := [x / 256 mod 256; x mod 256].
Definition be32 (x : Z) : bytes := [x / 2 ^ 24 mod 256; x / 2 ^ 16 mod 256; x / 2 ^ 8 mod 256; x mod 256].
Definition be32_at (d : bytes) (o : nat) : Z := be_word d o * 65536 + be_word d (o + 2).
Definition to_u32 (a : Ipv4Addr) : Z := be32_at a 0.
(** [buf[off..off + src.len()].copy_from_slice(src)] *)
Definition blit (off : nat) (src buf : bytes) : bytes := take off buf ++ src ++ drop (off + length src) buf.

(** ** Headers *)
Inductive IpProtocol := ICMP | TCP | UDP | UNKNOWN.
#[export] Instance IpProtocol_eq_dec : EqDecision IpProtocol.
Proof. solve_decision. Defined.
Definition from_u8 (v : Z) : IpProtocol := if v =? 1 then ICMP else if v =? 6 then TCP else if v =? 17 then UDP else UNKNOWN.
Definition proto_u8 (p : IpProtocol) : Z := match p with ICMP => 1 | TCP => 6 | UDP => 17 | UNKNOWN => 0 end.
Record Ipv4Header := mkHeader { version : Z; ihl : Z; dscp : Z; ecn : Z; total_length : Z; identification : Z; flags : Z; fragment_offset : Z; ttl : Z; protocol : IpProtocol; checksum : Z; src : Ipv4Addr; dst : Ipv4Addr }.
Definition MIN_SIZE : nat := 20.
Definition header_len (h : Ipv4Header) : nat := (Z.to_nat (ihl h) * 4)%nat.
(** The loop over [data.chunks(2)]. *)
Fixpoint chunk_sum (data : bytes) (sum : Z) : Z :=
  match data with
  | a :: b :: t => chunk_sum t (u32_add sum (a * 256 + b))
  | [a] => u32_add sum (Z.shiftl a 8)
  | [] => sum
  end.
Definition compute_checksum (data : bytes) : Z := Checksum.not16 (Checksum.carry_fold (chunk_sum data 0)).
Definition parse_header (data : bytes) : res Ipv4Header :=
  if (length data <? MIN_SIZE)%nat then inr InvalidPacket
  else
    let version := Z.land (Z.shiftr (get data 0) 4) 0x0F in
    if negb (version =? 4) then inr InvalidPacket
    else
      let ihl := Z.land (get data 0) 0x0F in
      if ihl <? 5 then inr InvalidPacket
      else
        let h := mkHeader version ihl (Z.land (Z.shiftr (get data 1) 2) 0x3F) (Z.land (get data 1) 0x03) (be_word data 2) (be_word data 4)
          (Z.land (Z.shiftr (get data 6) 5) 0x07) (Z.land (get data 6) 0x1F * 256 + get data 7) (get data 8) (from_u8 (get data 9)) (be_word data 10)
          (take 4 (drop 12 data)) (take 4 (drop 16 data)) in
        let n := (Z.to_nat ihl * 4)%nat in
        if (length data <? n)%nat then inr InvalidPacket
        else if (total_length h <? Z.of_nat n) || (Z.of_nat (length data) <? total_length h) then inr InvalidPacket
        else if negb (compute_checksum (take n data) =? 0) then inr ChecksumError
        else inl h.
Definition u8_shl (x n : Z) : Z := Z.shiftl x n mod 256.
Definition header_bytes (h : Ipv4Header) : bytes :=
  [Z.lor (u8_shl (version h) 4) (ihl h); Z.lor (u8_shl (dscp h) 2) (ecn h)] ++ be16 (total_length h) ++ be16 (identification h)
  ++ [Z.lor (u8_shl (flags h) 5) (Z.land (Z.shiftr (fragment_offset h) 8) 0x1F); fragment_offset h mod 256; ttl h; proto_u8 (protocol h)] ++ be16 (checksum h) ++ src h ++ dst h.
Definition serialize_header (h : Ipv4Header) (buf : bytes) : res bytes :=
  if (length buf <? header_len h)%nat then inr BufferFull else inl (blit 0 (header_bytes h) buf).
Definition header_new (s d : Ipv4Addr) (p : IpProtocol) (total : Z) : Ipv4Header := mkHeader 4 5 0 0 total 0 2 0 64 p 0 s d.
Definition payload_len (h : Ipv4Header) : nat := (Z.to_nat (total_length h) - header_len h)%nat.

(** ** Packets *)
Record Ipv4Packet := mkPacket { header : Ipv4Header; payload : bytes }.
Definition parse_packet (data : bytes) : res Ipv4Packet :=
  match parse_header data with
  | inr e => inr e
  | inl h => if Z.of_nat (length data) <? total_length h then inr InvalidPacket else inl (mkPacket h (take (payload_len h) (drop (header_len h) data)))
  end.
Definition packet_new (s d : Ipv4Addr) (p : IpProtocol) (pl : bytes) : Ipv4Packet := mkPacket (header_new s d p (Z.of_nat (MIN_SIZE + length pl) mod u16_mod)) pl.
Definition set_checksum (c : Z) (h : Ipv4Header) : Ipv4Header := mkHeader (version h) (ihl h) (dscp h) (ecn h) (total_length h) (identification h) (flags h) (fragment_offset h) (ttl h) (protocol h) c (src h) (dst h).
(** The buffer after the call and the length written. *)
Definition serialize_packet (p : Ipv4Packet) (buf : bytes) : res (bytes * nat) :=
  let total := (header_len (header p) + length (payload p))%nat in
  if (length buf <? total)%nat then inr BufferFull
  else match serialize_header (set_checksum 0 (header p)) buf with
    | inr e => inr e
    | inl buf =>
        let buf := blit (header_len (header p)) (payload p) buf in
        let c := compute_checksum (take (header_len (header p)) buf) in
        inl (blit 10 (be16 c) buf, total)
    end.
(** The packet with our address as its source, cut from a buffer of [n] zeros. *)
Definition build_packet (local d : Ipv4Addr) (p : IpProtocol) (pl : bytes) (n : nat) : res bytes :=
  match serialize_packet (packet_new local d p pl) (replicate n 0) with inl (buf, len) => inl (take len buf) | inr e => inr e end.

(** ** Fragments *)
Abbreviation FragmentKey := (Z * Z * Z * Z)%type.
Record FragmentEntry := mkEntry { buffer : bytes; received_mask : list bool; total_len : option Z; timestamp : Z }.
Abbreviation FragmentTable := (gmap FragmentKey FragmentEntry).
Definition FRAGMENT_TIMEOUT_TICKS : Z := 15.
Definition entry_new (now : Z) : FragmentEntry := mkEntry (replicate (Z.to_nat 65535) 0) (replicate (Z.to_nat 8192) false) None now.
Definition key_of (h : Ipv4Header) : FragmentKey := (to_u32 (src h), to_u32 (dst h), identification h, proto_u8 (protocol h)).
(** [for i in a..b { mask[i] = true }] *)
Definition mark (a b : nat) (m : list bool) : list bool := imap (fun i x => x || ((a <=? i)%nat && (i <? b)%nat)) m.
Definition more_fragments (h : Ipv4Header) : bool := negb (Z.land (flags h) 1 =? 0).
Definition add_fragment (h : Ipv4Header) (pl : bytes) (e : FragmentEntry) : FragmentEntry :=
  let offset := (Z.to_nat (fragment_offset h) * 8)%nat in
  let fin := (offset + length pl)%nat in
  let mask := mark (offset / 8) (Nat.min ((fin + 7) / 8) (length (received_mask e))) (received_mask e) in
  mkEntry (blit offset pl (buffer e)) mask (if more_fragments h then total_len e else Some (Z.of_nat fin mod u16_mod)) (timestamp e).
(** The blocks the datagram needs have all been received. *)
Definition complete (e : FragmentEntry) : option bytes :=
  match total_len e with
  | Some total => if forallb id (take (Z.to_nat ((total + 7) / 8)) (received_mask e)) then Some (take (Z.to_nat total) (buffer e)) else None
  | None => None
  end.
Definition reassemble_fragment (now : Z) (h : Ipv4Header) (pl : bytes) (t : FragmentTable) : FragmentTable * option bytes :=
  let e := default (entry_new now) (t !! key_of h) in
  let fin := (Z.to_nat (fragment_offset h) * 8 + length pl)%nat in
  if (length (buffer e) <? fin)%nat then (<[key_of h := e]> t, None)
  else
    let e := add_fragment h pl e in
    match complete e with
    | Some d => (delete (key_of h) t, Some d)
    | None => (<[key_of h := e]> t, None)
    end.
Definition fragment_gc (now : Z) (t : FragmentTable) : FragmentTable := filter (fun x => u64_sub now (timestamp x.2) < FRAGMENT_TIMEOUT_TICKS) t.

(** ** Effects *)
Inductive Counter := InReceives | InDiscards | InHdrErrors | InAddrErrors | InDelivers | InUnknownProtos | IcmpInMsgs | IcmpInErrors | IcmpOutMsgs | IcmpOutErrors.
Inductive Effect := Count (c : Counter) | RawDeliver (data : bytes) (h : Ipv4Header) | ArpSend (d : Ipv4Addr) (data : bytes).
Inductive Hook := NF_INET_PRE_ROUTING | NF_INET_LOCAL_IN | NF_INET_FORWARD.
(** The echo requests waiting for a reply, and the replies with their round trip times. *)
Abbreviation IcmpEchoKey := (Ipv4Addr * Z * Z)%type.
Record IpState := mkState { fragments : FragmentTable; outstanding : gmap IcmpEchoKey Z; replies : gmap IcmpEchoKey Z }.

Section Handlers.
(** The filter (the packet it leaves and whether it accepts), the link, our address and the clock. *)
Context (filter_packet : Hook -> bytes -> res (bytes * bool)) (send_to_ip : Ipv4Addr -> bytes -> option NetError) (local : Ipv4Addr) (now : Z).

(** ** ICMP *)
Definition ICMP_TYPE_ECHO_REPLY : Z := 0.
Definition ICMP_TYPE_ECHO_REQUEST : Z := 8.
Definition ICMP_TYPE_TIME_EXCEEDED : Z := 11.
(** Sends over ARP; an unresolved neighbour ([WouldBlock]) counts as sent. *)
Definition icmp_output (d : Ipv4Addr) (pkt : bytes) : list Effect * res unit :=
  match send_to_ip d pkt with
  | None | Some WouldBlock => ([ArpSend d pkt; Count IcmpOutMsgs], inl tt)
  | Some e => ([ArpSend d pkt; Count IcmpOutErrors], inr e)
  end.
Definition with_checksum (b : bytes) : bytes := blit 2 (be16 (compute_checksum b)) b.
Definition send_icmp_echo_request (dest : Ipv4Addr) (identifier sequence : Z) (pl : bytes) (s : IpState) : IpState * list Effect * res unit :=
  let icmp := with_checksum ([ICMP_TYPE_ECHO_REQUEST; 0; 0; 0] ++ be16 identifier ++ be16 sequence ++ pl) in
  match build_packet local dest ICMP icmp 1500 with
  | inr e => (s, [], inr e)
  | inl pkt => match icmp_output dest pkt with
      | (eff, inl _) => (mkState (fragments s) (<[(dest, identifier, sequence) := now]> (outstanding s)) (replies s), eff, inl tt)
      | (eff, inr e) => (s, eff, inr e)
      end
  end.
Definition take_icmp_echo_reply (dest : Ipv4Addr) (identifier sequence : Z) (s : IpState) : IpState * option Z :=
  (mkState (fragments s) (outstanding s) (delete (dest, identifier, sequence) (replies s)), replies s !! (dest, identifier, sequence)).
Definition cancel_icmp_echo_request (dest : Ipv4Addr) (identifier sequence : Z) (s : IpState) : IpState :=
  mkState (fragments s) (delete (dest, identifier, sequence) (outstanding s)) (replies s).
Definition time_exceeded_bytes (h : Ipv4Header) : bytes :=
  with_checksum ([ICMP_TYPE_TIME_EXCEEDED; 0; 0; 0; 0; 0; 0; 0] ++ header_bytes h).
Definition send_icmp_time_exceeded (h : Ipv4Header) : list Effect :=
  match build_packet local (src h) ICMP (time_exceeded_bytes h) 64 with
  | inl pkt => (icmp_output (src h) pkt).1
  | inr _ => [Count IcmpOutErrors]
  end.
Definition echo_reply (pl : bytes) : bytes := with_checksum (blit 0 [ICMP_TYPE_ECHO_REPLY; 0; 0; 0] pl).
Definition icmp_process (p : Ipv4Packet) (s : IpState) : IpState * list Effect * res unit :=
  let pl := payload p in
  if (length pl <? 8)%nat then (s, [Count IcmpInMsgs; Count IcmpInErrors], inr InvalidPacket)
  else if (get pl 0 =? ICMP_TYPE_ECHO_REQUEST) && (get pl 1 =? 0) then
    match build_packet local (src (header p)) ICMP (echo_reply pl) 1500 with
    | inr e => (s, [Count IcmpInMsgs], inr e)
    | inl pkt => let '(eff, r) := icmp_output (src (header p)) pkt in (s, Count IcmpInMsgs :: eff, r)
    end
  else if (get pl 0 =? ICMP_TYPE_ECHO_REPLY) && (get pl 1 =? 0) then
    let key := (src (header p), be_word pl 4, be_word pl 6) in
    let rtt := match outstanding s !! key with Some sent => as_u32 (sat_sub now sent) | None => 0 end in
    (mkState (fragments s) (delete key (outstanding s)) (<[key := rtt]> (replies s)), [Count IcmpInMsgs], inl tt)
  else (s, [Count IcmpInMsgs], inl tt).

(** ** Received packets *)
(** The protocols above TCP and UDP, by what they return. *)
Context (upper : IpProtocol -> Ipv4Header -> bytes -> res unit).
Definition dispatch_protocol (h : Ipv4Header) (pl : bytes) (s : IpState) : IpState * list Effect * res unit :=
  match protocol h with
  | ICMP => icmp_process (mkPacket h pl) s
  | TCP => (s, [], upper TCP h pl)
  | UDP => (s, [], upper UDP h pl)
  | UNKNOWN => (s, [Count InUnknownProtos], inl tt)
  end.
(** Whether the options hold a source route. *)
Fixpoint source_routed (fuel idx : nat) (options : bytes) : bool :=
  match fuel with
  | O => false
  | S f =>
      if (length options <=? idx)%nat then false
      else
        let t := get options idx in
        if t =? 0 then false
        else if t =? 1 then source_routed f (S idx) options
        else if (t =? 0x83) || (t =? 0x89) then true
        else if (length options <=? S idx)%nat then false
        else let n := get options (S idx) in if n <? 2 then false else source_routed f (idx + Z.to_nat n) options
  end.
Definition forward (h : Ipv4Header) (data : bytes) : list Effect * res unit :=
  let ttl := get data 8 in
  if ttl <=? 1 then (send_icmp_time_exceeded h ++ [Count InDiscards], inl tt)
  else
    let d := blit 10 [0; 0] (<[8%nat := ttl - 1]> data) in
    let d := blit 10 (be16 (compute_checksum (take (header_len h) d))) d in
    match filter_packet NF_INET_FORWARD d with
    | inr e => ([], inr e)
    | inl (_, true) => ([], inl tt)
    | inl (_, false) => ([Count InAddrErrors], inl tt)
    end.
Definition set_fragments (t : FragmentTable) (s : IpState) : IpState := mkState t (outstanding s) (replies s).
Definition whole (h : Ipv4Header) (d : bytes) : Ipv4Header := mkHeader (version h) (ihl h) (dscp h) (ecn h) (Z.of_nat (header_len h + length d) mod u16_mod) (identification h) 0 0 (ttl h) (protocol h) (checksum h) (src h) (dst h).
Definition receive_fragment (h : Ipv4Header) (pl : bytes) (s : IpState) : IpState * list Effect * res unit :=
  let '(t, r) := reassemble_fragment now h pl (fragments s) in
  let s := set_fragments t s in
  match r with
  | None => (s, [], inl tt)
  | Some d =>
      let raw := match serialize_packet (mkPacket (whole h d) d) (replicate (header_len h + length d) 0) with inl (buf, len) => [RawDeliver (take len buf) (whole h d)] | inr _ => [] end in
      let '(s, eff, r) := dispatch_protocol h d s in (s, raw ++ eff, r)
  end.
Definition receive_local (filtered : bytes) (s : IpState) : IpState * list Effect * res unit :=
  match filter_packet NF_INET_LOCAL_IN filtered with
  | inr e => (s, [], inr e)
  | inl (_, false) => (s, [Count InDiscards], inl tt)
  | inl (filtered, true) => match parse_packet filtered with
      | inr e => (s, [], inr e)
      | inl p => let '(s, eff, r) := dispatch_protocol (header p) (payload p) s in (s, RawDeliver filtered (header p) :: Count InDelivers :: eff, r)
      end
  end.
Definition process_packet (data : bytes) (s : IpState) : IpState * list Effect * res unit :=
  let '(s, eff, r) :=
    match filter_packet NF_INET_PRE_ROUTING data with
    | inr e => (s, [], inr e)
    | inl (_, false) => (s, [Count InDiscards], inl tt)
    | inl (filtered, true) => match parse_packet filtered with
        | inr e => (s, [Count InHdrErrors], inr e)
        | inl p =>
            let h := header p in
            let options := take (header_len h - MIN_SIZE) (drop MIN_SIZE data) in
            if (5 <? ihl h) && source_routed (length options) 0 options then (s, [Count InDiscards], inl tt)
            else if negb (bool_decide (dst h = local)) && negb (is_broadcast (dst h)) && negb (is_multicast (dst h)) then let '(eff, r) := forward h filtered in (s, eff, r)
            else if more_fragments h || (0 <? fragment_offset h) then receive_fragment h (payload p) s
            else receive_local filtered s
        end
    end in (s, Count InReceives :: eff, r).
End Handlers.

(** ** Routes *)
Section Routes.
Context (local netmask gateway : Ipv4Addr).
Definition is_same_subnet (a b : Ipv4Addr) : bool := Z.land (to_u32 a) (to_u32 netmask) =? Z.land (to_u32 b) (to_u32 netmask).
Definition route (d : Ipv4Addr) : option Ipv4Addr :=
  if is_same_subnet local d then Some d else if negb (bool_decide (gateway = UNSPECIFIED)) then Some gateway else None.
End Routes.

(** ** Bytes and bits *)
Lemma blit_zeros k l n m : k = length l -> blit k m (l ++ replicate n 0) = l ++ m ++ replicate (n - length m) 0.
Proof. intros ->. unfold blit. rewrite take_app_length, drop_app_ge, drop_replicate by lia. do 3 f_equal. lia. Qed.
Lemma be16_word x : 0 <= x < 65536 -> x / 256 mod 256 * 256 + x mod 256 = x.
Proof. intros. mlia. Qed.
Lemma be16_bytes x : Checksum.bytes (be16 x).
Proof. repeat constructor; apply Z.mod_pos_bound; lia. Qed.
(** A byte made of a high part and [k] low bits. *)
Lemma pack_bits a b k : 0 <= k <= 8 -> 0 <= a < 2 ^ (8 - k) -> 0 <= b < 2 ^ k ->
  Z.lor (u8_shl a k) b = a * 2 ^ k + b.
Proof.
  intros Hk Ha Hb. unfold u8_shl. rewrite Z.shiftl_mul_pow2 by lia.
  assert (2 ^ (8 - k) * 2 ^ k = 256) as Hp by (rewrite <-Z.pow_add_r by lia; by replace (8 - k + k) with 8 by lia).
  rewrite Z.mod_small by nia. rewrite <-Z.shiftl_mul_pow2 by lia.
  rewrite <-Z.lxor_lor, <-Z.add_nocarry_lxor; [done|..].
  all: apply Z.bits_inj'; intros n Hn; rewrite Z.land_spec, Z.bits_0.
  all: destruct (decide (n < k)) as [?|?]; [by rewrite Z.shiftl_spec_low by lia|].
  all: rewrite <-(Z.mod_small b (2 ^ k)) by lia; rewrite Z.mod_pow2_bits_high by lia; apply andb_false_r.
Qed.
Lemma unpack_high a b k : 0 <= k <= 8 -> 0 <= a < 2 ^ (8 - k) -> 0 <= b < 2 ^ k -> Z.shiftr (a * 2 ^ k + b) k = a.
Proof. intros Hk Ha Hb. rewrite Z.shiftr_div_pow2 by lia. rewrite Z.div_add_l by (apply Z.pow_nonzero; lia). rewrite Z.div_small by lia. lia. Qed.
Lemma land_ones_id x k : 0 <= k -> 0 <= x < 2 ^ k -> Z.land x (Z.ones k) = x.
Proof. intros. rewrite Z.land_ones by lia. by apply Z.mod_small. Qed.
Lemma unpack_low a b k : 0 <= k -> 0 <= b < 2 ^ k -> Z.land (a * 2 ^ k + b) (Z.ones k) = b.
Proof. intros Hk Hb. rewrite Z.land_ones by lia. rewrite Z.add_comm, Z.mod_add by (apply Z.pow_nonzero; lia). by apply Z.mod_small. Qed.
Lemma pack_byte a b k : 0 <= k <= 8 -> 0 <= a < 2 ^ (8 - k) -> 0 <= b < 2 ^ k -> 0 <= a * 2 ^ k + b < 256.
Proof.
  intros Hk Ha Hb. assert (2 ^ (8 - k) * 2 ^ k = 256) as Hp by (rewrite <-Z.pow_add_r by lia; by replace (8 - k + k) with 8 by lia). nia.
Qed.
(** ** The checksum *)
Fixpoint chunk_sum_spec (l : bytes) : forall s, is_u32 s -> chunk_sum l s = u32_add s (Checksum.words l).
Proof.
  intros s Hs. destruct l as [|a [|b t]]; cbn [chunk_sum Checksum.words].
  - rewrite u32_add_small; [lia|]. unfold is_u32 in Hs. lia.
  - by rewrite Z.shiftl_mul_pow2 by lia.
  - rewrite chunk_sum_spec by apply u32_add_range. by rewrite Checksum.u32_add_add.
Qed.
Lemma compute_checksum_spec l : Checksum.bytes l -> Z.of_nat (length l) <= 131000 -> compute_checksum l = 65535 - Checksum.oc (Checksum.words l).
Proof.
  intros Hb Hl. unfold compute_checksum. rewrite chunk_sum_spec by done. pose proof (Checksum.words_bound l Hb) as [H0 H1].
  assert (is_u32 (Checksum.words l)) as Hw by (unfold is_u32, u32_mod; lia). rewrite u32_add_small by (exact Hw). cbn [Z.add]. rewrite Checksum.carry_fold_spec by done. unfold Checksum.not16. by rewrite Checksum.as_u16_small by (apply Checksum.oc_range; lia).
Qed.
(** ** Headers and packets *)
Definition addr_ok (a : Ipv4Addr) : Prop := length a = 4%nat /\ Checksum.bytes a.
Record header_ok (h : Ipv4Header) : Prop := {
  ok_version : version h = 4;
  ok_ihl : 5 <= ihl h <= 15;
  ok_dscp : 0 <= dscp h < 64;
  ok_ecn : 0 <= ecn h < 4;
  ok_total : 0 <= total_length h < 65536;
  ok_id : 0 <= identification h < 65536;
  ok_flags : 0 <= flags h < 8;
  ok_offset : 0 <= fragment_offset h < 8192;
  ok_ttl : 0 <= ttl h < 256;
  ok_checksum : 0 <= checksum h < 65536;
  ok_src : addr_ok (src h);
  ok_dst : addr_ok (dst h) }.
Lemma addr_cases a : addr_ok a -> exists w x y z, a = [w; x; y; z].
Proof. intros [Hl _]. destruct a as [|w [|x [|y [|z [|]]]]]; try done. by exists w, x, y, z. Qed.
Lemma from_proto p : from_u8 (proto_u8 p) = p.
Proof. by destruct p. Qed.
Lemma header_bytes_length h : addr_ok (src h) -> addr_ok (dst h) -> length (header_bytes h) = 20%nat.
Proof. intros [Hs _] [Hd _]. unfold header_bytes. rewrite !length_app, Hs, Hd. done. Qed.
(** The offset of a fragment, split into its two bytes. *)
Lemma offset_bytes x : 0 <= x < 8192 -> 0 <= Z.shiftr x 8 < 32 /\ Z.land (Z.shiftr x 8) 31 = Z.shiftr x 8 /\ Z.shiftr x 8 * 256 + x mod 256 = x.
Proof.
  intros Hx. rewrite Z.shiftr_div_pow2 by lia. change (2 ^ 8) with 256. assert (0 <= x / 256 < 32) as Hd by mlia. split; [done|]. split; [by apply (land_ones_id _ 5)|]. mlia.
Qed.
(** The bytes of a header as numbers. *)
Lemma header_bytes_eq h : header_ok h -> header_bytes h = [64 + ihl h; dscp h * 4 + ecn h; total_length h / 256 mod 256; total_length h mod 256; identification h / 256 mod 256; identification h mod 256; flags h * 32 + Z.shiftr (fragment_offset h) 8; fragment_offset h mod 256; ttl h; proto_u8 (protocol h); checksum h / 256 mod 256; checksum h mod 256] ++ src h ++ dst h.
Proof.
  intros H. unfold header_bytes. pose proof (offset_bytes _ (ok_offset _ H)) as (Ho & Eo & _). rewrite Eo. pose proof (ok_ihl _ H). pose proof (ok_dscp _ H). pose proof (ok_ecn _ H). pose proof (ok_flags _ H). rewrite (ok_version _ H).
  rewrite (pack_bits 4 (ihl h) 4), (pack_bits (dscp h) (ecn h) 2), (pack_bits (flags h) (Z.shiftr (fragment_offset h) 8) 5) by (cbn; lia). reflexivity.
Qed.
Lemma header_bytes_ok h : header_ok h -> Checksum.bytes (header_bytes h).
Proof.
  intros H. rewrite header_bytes_eq by done. pose proof (offset_bytes _ (ok_offset _ H)) as (Ho & _). pose proof (ok_ihl _ H). pose proof (ok_dscp _ H). pose proof (ok_ecn _ H). pose proof (ok_flags _ H). pose proof (ok_ttl _ H).
  apply Forall_app. split; [|apply Forall_app; split; apply H]. repeat (constructor; [mlia || (destruct (protocol h); cbn; lia)|]). constructor.
Qed.
Lemma parse_bytes h rest : header_ok h -> (header_len h <= 20 + length rest)%nat -> Z.of_nat (header_len h) <= total_length h <= Z.of_nat (20 + length rest) ->
  compute_checksum (take (header_len h) (header_bytes h ++ rest)) = 0 -> parse_header (header_bytes h ++ rest) = inl h.
Proof.
  intros H Hl Ht Hc. unfold parse_header. assert (length (header_bytes h ++ rest) = 20 + length rest)%nat as El by (rewrite length_app, header_bytes_length by apply H; done). rewrite El. cbv zeta. rewrite header_bytes_eq in Hc |- * by done.
  destruct (addr_cases _ (ok_src _ H)) as (s1 & s2 & s3 & s4 & Es). destruct (addr_cases _ (ok_dst _ H)) as (d1 & d2 & d3 & d4 & Ed). pose proof (offset_bytes _ (ok_offset _ H)) as (Ho & _ & Eo). pose proof (ok_ihl _ H). pose proof (ok_dscp _ H). pose proof (ok_ecn _ H). pose proof (ok_flags _ H).
  rewrite Es, Ed in Hc |- *. unfold be_word, Checksum.be_word, get, Checksum.get in *. cbn [lookup list_lookup default id app drop take] in *.
  replace (64 + ihl h) with (4 * 2 ^ 4 + ihl h) in * by (cbn; lia). change (dscp h * 4) with (dscp h * 2 ^ 2) in *. change (flags h * 32) with (flags h * 2 ^ 5) in *.
  change 15 with (Z.ones 4). change 63 with (Z.ones 6). change 3 with (Z.ones 2). change 7 with (Z.ones 3). change 31 with (Z.ones 5).
  rewrite !unpack_high, !unpack_low, !land_ones_id, !be16_word, Eo, from_proto, take_0 by (apply H || (cbn; lia)).
  rewrite <-Es, <-Ed. assert (mkHeader 4 (ihl h) (dscp h) (ecn h) (total_length h) (identification h) (flags h) (fragment_offset h) (ttl h) (protocol h) (checksum h) (src h) (dst h) = h) as -> by (rewrite <-(ok_version _ H); by destruct h).
  fold (header_len h). unfold MIN_SIZE. rewrite (proj2 (Nat.ltb_ge _ _)) by lia. cbn [Z.eqb Pos.eqb negb]. rewrite (proj2 (Z.ltb_ge _ 5)) by lia. rewrite (proj2 (Nat.ltb_ge _ _)) by lia. rewrite !(proj2 (Z.ltb_ge _ _)) by lia. cbn [orb]. by rewrite Hc.
Qed.
Lemma words_app_even (l k : bytes) : Nat.Even (length l) -> Checksum.words (l ++ k) = Checksum.words l + Checksum.words k.
Proof.
  intros [n Hn]. rewrite (Checksum.words_split (l ++ k) n), <-Hn. by rewrite take_app_length, drop_app_length.
Qed.
(** A block of bytes with its checksum stored in a field that was zero. *)
Lemma checksum_closes (a b : bytes) : Nat.Even (length a) -> Checksum.bytes a -> Checksum.bytes b -> Z.of_nat (length a + length b) <= 100000 ->
  compute_checksum (a ++ be16 (compute_checksum (a ++ [0; 0] ++ b)) ++ b) = 0.
Proof.
  intros He Ha Hb Hl. pose proof (proj1 (Checksum.words_bound a Ha)) as Wa. pose proof (proj1 (Checksum.words_bound b Hb)) as Wb.
  assert (Checksum.bytes (a ++ [0; 0] ++ b)) as H0 by (repeat (apply Forall_app; split); try done; repeat (constructor; [lia|]); constructor).
  rewrite (compute_checksum_spec (a ++ [0; 0] ++ b)) by (try done; rewrite !length_app; cbn [length]; lia). rewrite words_app_even by done. change (Checksum.words ([0; 0] ++ b)) with (0 * 256 + 0 + Checksum.words b).
  set (s := Checksum.words a + _). assert (0 <= s) as Hs by (unfold s; lia). pose proof (Checksum.oc_range s Hs) as Ho.
  rewrite compute_checksum_spec; [|repeat (apply Forall_app; split); try done; apply be16_bytes|rewrite !length_app; cbn [be16 length]; lia].
  rewrite words_app_even by done. change (Checksum.words (be16 ?x ++ b)) with (x / 256 mod 256 * 256 + x mod 256 + Checksum.words b).
  rewrite be16_word by lia. replace (_ + (_ + Checksum.words b)) with (s + (65535 - Checksum.oc s)) by (unfold s; lia). rewrite Checksum.csum_closes by done. done.
Qed.
(** The serialized form: header with its checksum, whatever options the buffer held, payload. *)
Definition checked (h : Ipv4Header) (opts : bytes) : Ipv4Header := set_checksum (compute_checksum (header_bytes (set_checksum 0 h) ++ opts)) h.
Lemma header_bytes_checksum c h : header_bytes (set_checksum c h) = take 10 (header_bytes h) ++ be16 c ++ src h ++ dst h.
Proof. reflexivity. Qed.
Lemma serialize_shape h pl buf : header_ok h -> (header_len h + length pl <= length buf)%nat ->
  let opts := take (header_len h - 20) (drop 20 buf) in
  serialize_packet (mkPacket h pl) buf = inl (header_bytes (checked h opts) ++ opts ++ pl ++ drop (header_len h + length pl) buf, (header_len h + length pl)%nat).
Proof.
  intros H Hl opts. unfold serialize_packet. cbn [header payload]. rewrite (proj2 (Nat.ltb_ge _ _)) by lia. unfold serialize_header. change (header_len (set_checksum 0 h)) with (header_len h). rewrite (proj2 (Nat.ltb_ge _ _)) by lia.
  assert (20 <= header_len h)%nat as Hh by (unfold header_len; pose proof (ok_ihl _ H); lia). assert (length (header_bytes (set_checksum 0 h)) = 20%nat) as Lb by (apply header_bytes_length; apply H).
  assert (length opts = header_len h - 20)%nat as Lo by (unfold opts; rewrite length_take, length_drop; lia).
  assert (blit (header_len h) pl (blit 0 (header_bytes (set_checksum 0 h)) buf) = header_bytes (set_checksum 0 h) ++ opts ++ pl ++ drop (header_len h + length pl) buf) as ->.
  { unfold blit. rewrite take_0, Lb. cbn [app Nat.add]. rewrite take_app_ge, drop_app_ge, Lb, drop_drop by (rewrite Lb; lia). rewrite <-app_assoc. do 2 f_equal. f_equal. f_equal. lia. }
  assert (take (header_len h) (header_bytes (set_checksum 0 h) ++ opts ++ pl ++ drop (header_len h + length pl) buf) = header_bytes (set_checksum 0 h) ++ opts) as ->.
  { rewrite take_app_ge by lia. f_equal. rewrite Lb, take_app_le, take_ge by lia. done. }
  unfold checked. cbv zeta. set (c := compute_checksum _). unfold blit. rewrite !header_bytes_checksum. change (take 10 (header_bytes (set_checksum 0 h))) with (take 10 (header_bytes h)).
  assert (length (take 10 (header_bytes h)) = 10%nat) as L10 by (rewrite length_take, header_bytes_length by apply H; done). rewrite <-!app_assoc. rewrite take_app_length' by done. rewrite drop_app_ge by (rewrite L10; cbn; lia). rewrite L10. reflexivity.
Qed.
Lemma header_prefix h : header_ok h -> Checksum.bytes (take 10 (header_bytes h)) /\ length (take 10 (header_bytes h)) = 10%nat.
Proof. intros H. split; [by apply Forall_take, header_bytes_ok|]. by rewrite length_take, header_bytes_length by apply H. Qed.
Lemma checked_ok h opts : header_ok h -> Checksum.bytes opts -> (length opts <= 40)%nat -> header_ok (checked h opts) /\ compute_checksum (header_bytes (checked h opts) ++ opts) = 0.
Proof.
  intros H Ho Hl. destruct (header_prefix h H) as (Hb & Hn). assert (Checksum.bytes (src h ++ dst h ++ opts)) as Ht by (repeat (apply Forall_app; split); try done; apply H). assert (length (src h ++ dst h ++ opts) <= 48)%nat as Lt by (rewrite !length_app, (proj1 (ok_src _ H)), (proj1 (ok_dst _ H)); lia).
  unfold checked. rewrite !header_bytes_checksum, <-!app_assoc. change (be16 0) with [0; 0]. set (a := take 10 (header_bytes h)) in *. set (b := src h ++ dst h ++ opts) in *. split.
  - assert (0 <= compute_checksum (a ++ [0; 0] ++ b) < 65536) as Hc; [|split; cbn [set_checksum version ihl dscp ecn total_length identification flags fragment_offset ttl protocol checksum src dst]; (exact Hc || apply H)].
    rewrite compute_checksum_spec; [|apply Forall_app; split; [done|]; apply Forall_app; split; [|done]; by repeat constructor|rewrite !length_app, Hn; cbn [length]; lia].
    pose proof (Checksum.oc_range (Checksum.words (a ++ [0; 0] ++ b))) as Hoc. rewrite words_app_even in * by (rewrite Hn; by exists 5%nat). change (Checksum.words ([0; 0] ++ b)) with (0 * 256 + 0 + Checksum.words b) in *. pose proof (proj1 (Checksum.words_bound b Ht)). pose proof (proj1 (Checksum.words_bound a Hb)). lia.
  - apply checksum_closes; try done; [rewrite Hn; by exists 5%nat|rewrite Hn; lia].
Qed.
Lemma parse_serialized h pl buf : header_ok h -> Checksum.bytes buf -> total_length h = Z.of_nat (header_len h + length pl) -> (header_len h + length pl <= length buf)%nat ->
  exists buf' opts, serialize_packet (mkPacket h pl) buf = inl (buf', (header_len h + length pl)%nat) /\ opts = take (header_len h - 20) (drop 20 buf) /\
    length (take (header_len h + length pl) buf') = (header_len h + length pl)%nat /\ (Checksum.bytes pl -> Checksum.bytes (take (header_len h + length pl) buf')) /\
    parse_packet (take (header_len h + length pl) buf') = inl (mkPacket (checked h opts) pl).
Proof.
  intros H Hb Ht Hl. eexists. eexists. rewrite (serialize_shape h pl buf H Hl). split; [reflexivity|]. split; [reflexivity|].
  set (opts := take (header_len h - 20) (drop 20 buf)). assert (20 <= header_len h <= 60)%nat as Hh by (unfold header_len; pose proof (ok_ihl _ H); lia).
  assert (length opts = header_len h - 20)%nat as Lo by (unfold opts; rewrite length_take, length_drop; lia). assert (Checksum.bytes opts) as Ho by (by apply Forall_take, Forall_drop). destruct (checked_ok h opts H Ho ltac:(lia)) as [Hk Hc].
  assert (length (header_bytes (checked h opts)) = 20%nat) as Lb by (apply header_bytes_length; apply Hk).
  assert (take (header_len h + length pl) (header_bytes (checked h opts) ++ opts ++ pl ++ drop (header_len h + length pl) buf) = header_bytes (checked h opts) ++ opts ++ pl) as ->.
  { rewrite !app_assoc. apply take_app_length'. rewrite !length_app. lia. }
  split; [rewrite !length_app; lia|]. split; [intros Hp; apply Forall_app; split; [by apply header_bytes_ok|by apply Forall_app]|].
  unfold parse_packet. pose proof (parse_bytes (checked h opts) (opts ++ pl) Hk) as Hpb. change (header_len (checked h opts)) with (header_len h) in Hpb. change (total_length (checked h opts)) with (total_length h) in Hpb.
  rewrite Hpb; [|rewrite length_app; lia|rewrite Ht, length_app; lia|].
  - change (total_length (checked h opts)) with (total_length h). rewrite (proj2 (Z.ltb_ge _ _)) by (rewrite Ht, !length_app; lia). f_equal. f_equal. unfold payload_len. change (header_len (checked h opts)) with (header_len h). change (total_length (checked h opts)) with (total_length h). rewrite Ht, Nat2Z.id. rewrite app_assoc, drop_app_length' by (rewrite length_app; lia). apply take_ge. lia.
  - rewrite app_assoc, take_app_length' by (rewrite length_app; lia). exact Hc.
Qed.
Lemma header_new_ok s d p total : addr_ok s -> addr_ok d -> 0 <= total < 65536 -> header_ok (header_new s d p total).
Proof. intros Hs Hd Ht. by split; cbn [header_new version ihl dscp ecn total_length identification flags fragment_offset ttl protocol checksum src dst]; try lia. Qed.
(** A packet built from an address, a protocol and a payload that fit. *)
Lemma build_parses local d p pl n : addr_ok local -> addr_ok d -> (20 + length pl <= n)%nat -> Z.of_nat (20 + length pl) < 65536 ->
  exists pkt, build_packet local d p pl n = inl pkt /\ length pkt = (20 + length pl)%nat /\ (Checksum.bytes pl -> Checksum.bytes pkt) /\
    parse_packet pkt = inl (mkPacket (checked (header_new local d p (Z.of_nat (20 + length pl))) []) pl).
Proof.
  intros Hs Hd Hn Ht. unfold build_packet, packet_new. unfold MIN_SIZE. rewrite Z.mod_small by (unfold u16_mod; lia). set (h := header_new local d p _). assert (header_ok h) as H by (by apply header_new_ok). assert (header_len h = 20%nat) as Hh by done.
  destruct (parse_serialized h pl (replicate n 0) H) as (buf' & opts & -> & -> & L & B & P); [apply Forall_replicate; lia|rewrite Hh; done|rewrite Hh, length_replicate; lia|]. rewrite Hh in *. exists (take (20 + length pl) buf'). done.
Qed.
(** ** Echo *)
Definition accept_all (_ : Hook) (d : bytes) : res (bytes * bool) := inl (d, true).
Definition link_up (_ : Ipv4Addr) (_ : bytes) : option NetError := None.
(** A packet we built arrives: it is dispatched with its payload. *)
Lemma receive_built send local from p pl pkt now upper s : addr_ok from -> addr_ok local -> Z.of_nat (20 + length pl) < 65536 ->
  parse_packet pkt = inl (mkPacket (checked (header_new from local p (Z.of_nat (20 + length pl))) []) pl) ->
  let h := checked (header_new from local p (Z.of_nat (20 + length pl))) [] in
  process_packet accept_all send local now upper pkt s = let '(s, eff, r) := dispatch_protocol send local now upper h pl s in (s, Count InReceives :: RawDeliver pkt h :: Count InDelivers :: eff, r).
Proof.
  intros Hf Hl Ht Hp h. unfold process_packet, accept_all at 1. rewrite Hp. cbn [header payload]. fold h. change (ihl h) with 5. cbn [Z.ltb Z.compare Pos.compare Pos.compare_cont andb]. change (dst h) with local. rewrite bool_decide_true by done. cbn [negb andb]. change (more_fragments h) with false. change (fragment_offset h) with 0. cbn [orb Z.ltb Z.compare]. unfold receive_local, accept_all. rewrite Hp. cbn [header payload]. fold h. by destruct (dispatch_protocol send local now upper h pl s) as [[s' eff] r].
Qed.
Lemma with_checksum_shape a b c d rest : with_checksum (a :: b :: c :: d :: rest) = [a; b] ++ be16 (compute_checksum (a :: b :: c :: d :: rest)) ++ rest.
Proof. reflexivity. Qed.
Lemma with_checksum_closes a b rest : Checksum.bytes (a :: b :: rest) -> Z.of_nat (length rest) <= 90000 -> compute_checksum (with_checksum (a :: b :: 0 :: 0 :: rest)) = 0.
Proof.
  intros Hb Hl. rewrite with_checksum_shape. change (a :: b :: 0 :: 0 :: rest) with ([a; b] ++ [0; 0] ++ rest). apply Forall_cons in Hb as [Ha Hb]. apply Forall_cons in Hb as [Hb Hr]. apply checksum_closes; [by exists 1%nat|apply Forall_cons; split; [done|]; by apply Forall_singleton|done|cbn [length]; lia].
Qed.
Lemma link_up_output d pkt : icmp_output link_up d pkt = ([ArpSend d pkt; Count IcmpOutMsgs], inl tt).
Proof. reflexivity. Qed.
Section Echo.
Context (A B : Ipv4Addr) (idn seq : Z) (data : bytes) (HA : addr_ok A) (HB : addr_ok B) (Hid : 0 <= idn < 65536) (Hseq : 0 <= seq < 65536) (Hlen : (length data <= 1472)%nat).
Definition request : bytes := with_checksum ([ICMP_TYPE_ECHO_REQUEST; 0; 0; 0] ++ be16 idn ++ be16 seq ++ data).
Definition reply : bytes := echo_reply request.
Lemma request_shape : exists c, request = 8 :: 0 :: c / 256 mod 256 :: c mod 256 :: be16 idn ++ be16 seq ++ data.
Proof. eexists. reflexivity. Qed.
Lemma reply_shape : exists c, reply = 0 :: 0 :: c / 256 mod 256 :: c mod 256 :: be16 idn ++ be16 seq ++ data.
Proof. unfold reply. destruct request_shape as [c ->]. eexists. reflexivity. Qed.
Lemma echo_length (c e a b : Z) : length (a :: b :: c :: e :: be16 idn ++ be16 seq ++ data) = (8 + length data)%nat.
Proof. reflexivity. Qed.
Lemma answer_request now h s pkt : src h = A -> build_packet B A ICMP reply 1500 = inl pkt -> icmp_process link_up B now (mkPacket h request) s = (s, [Count IcmpInMsgs; ArpSend A pkt; Count IcmpOutMsgs], inl tt).
Proof. intros Hs E. unfold icmp_process. cbn [payload header]. rewrite Hs. fold reply. destruct request_shape as [c Ec]. rewrite E, link_up_output. by rewrite Ec. Qed.
Lemma take_reply now h s : src h = B -> icmp_process link_up A now (mkPacket h reply) s = (mkState (fragments s) (delete (B, idn, seq) (outstanding s)) (<[(B, idn, seq) := match outstanding s !! (B, idn, seq) with Some sent => as_u32 (sat_sub now sent) | None => 0 end]> (replies s)), [Count IcmpInMsgs], inl tt).
Proof.
  intros Hs. unfold icmp_process. cbn [payload header]. rewrite Hs. destruct reply_shape as [c ->]. rewrite echo_length. cbn [Nat.ltb Nat.leb Nat.add].
  assert (forall a b, be_word (0 :: 0 :: a :: b :: be16 idn ++ be16 seq ++ data) 4 = idn) as -> by (intros a b; unfold be_word, Checksum.be_word, get, Checksum.get; cbn [be16 app lookup list_lookup default id]; by apply be16_word).
  assert (forall a b, be_word (0 :: 0 :: a :: b :: be16 idn ++ be16 seq ++ data) 6 = seq) as -> by (intros a b; unfold be_word, Checksum.be_word, get, Checksum.get; cbn [be16 app lookup list_lookup default id]; by apply be16_word). reflexivity.
Qed.
Lemma echo_closes : Checksum.bytes data -> compute_checksum reply = 0 /\ compute_checksum request = 0.
Proof.
  intros Hd. assert (Checksum.bytes (be16 idn ++ be16 seq ++ data)) as Hb by (apply Forall_app; split; [apply be16_bytes|]; apply Forall_app; split; [apply be16_bytes|done]). assert (Z.of_nat (length (be16 idn ++ be16 seq ++ data)) <= 90000) as Hl by (rewrite !length_app; cbn [be16 length]; lia). split.
  - unfold reply. destruct request_shape as [c ->]. apply (with_checksum_closes 0 0); [|done]. by repeat (apply Forall_cons; split; [lia|]).
  - apply (with_checksum_closes 8 0); [|done]. by repeat (apply Forall_cons; split; [lia|]).
Qed.
End Echo.
(** C32: An echo request to a host that is up is answered: the host sends one reply to the
    sender, with the identifier, sequence number and data of the request and valid
    checksums, and the sender finds the reply with the time that has passed. *)
Theorem ping_roundtrip A B idn seq data t0 t1 t2 upper sa sb : addr_ok A -> addr_ok B -> 0 <= idn < 65536 -> 0 <= seq < 65536 -> Checksum.bytes data -> (length data <= 1472)%nat ->
  exists pkt back c, (send_icmp_echo_request link_up A t0 B idn seq data sa).1.2 = [ArpSend B pkt; Count IcmpOutMsgs] /\
    (exists h, process_packet accept_all link_up B t1 upper pkt sb = (sb, [Count InReceives; RawDeliver pkt h; Count InDelivers; Count IcmpInMsgs; ArpSend A back; Count IcmpOutMsgs], inl tt)) /\
    (exists h, parse_packet back = inl (mkPacket h ([0; 0] ++ be16 c ++ be16 idn ++ be16 seq ++ data)) /\ compute_checksum ([0; 0] ++ be16 c ++ be16 idn ++ be16 seq ++ data) = 0) /\
    let sa' := (process_packet accept_all link_up A t2 upper back (send_icmp_echo_request link_up A t0 B idn seq data sa).1.1).1.1 in
    (take_icmp_echo_reply B idn seq sa').2 = Some (as_u32 (sat_sub t2 t0)) /\ outstanding sa' !! (B, idn, seq) = None.
Proof.
  intros HA HB Hid Hseq Hd Hl. destruct (request_shape idn seq data) as [c1 E1]. destruct (reply_shape idn seq data) as [c2 E2]. assert (length (request idn seq data) = 8 + length data)%nat as L1 by (by rewrite E1). assert (length (reply idn seq data) = 8 + length data)%nat as L2 by (by rewrite E2).
  destruct (build_parses A B ICMP (request idn seq data) 1500 HA HB) as (pkt & Hpkt & _ & _ & Hparse); [lia..|]. destruct (build_parses B A ICMP (reply idn seq data) 1500 HB HA) as (back & Hback & _ & _ & Hparse2); [lia..|].
  exists pkt, back, c2. unfold send_icmp_echo_request. fold (request idn seq data). rewrite Hpkt. rewrite link_up_output. cbn [fst snd]. split; [done|]. split; [|split].
  - eexists. rewrite (receive_built link_up B A ICMP (request idn seq data)) by (done || lia). unfold dispatch_protocol. change (protocol (checked _ _)) with ICMP. cbv iota. by rewrite (answer_request A B idn seq data t1 _ sb back).
  - eexists. split; [rewrite Hparse2; f_equal; f_equal; exact E2|]. pose proof (proj1 (echo_closes idn seq data Hl Hd)) as Hc. rewrite E2 in Hc. exact Hc.
  - cbv zeta. rewrite (receive_built link_up A B ICMP (reply idn seq data)) by (done || lia). unfold dispatch_protocol. change (protocol (checked _ _)) with ICMP. cbv iota. rewrite (take_reply A B idn seq data Hid Hseq) by done. cbn [fst snd outstanding replies take_icmp_echo_reply]. rewrite lookup_insert_eq, lookup_insert_eq, lookup_delete_eq. done.
Qed.
(** ** Reassembly *)
Ltac divide_by_8 a := pose proof (Nat.div_mod_eq a 8); pose proof (Nat.mod_upper_bound a 8 ltac:(done)); generalize dependent (a / 8)%nat; generalize dependent (a mod 8)%nat; intros.
Ltac nlia := repeat match goal with
  | |- context [(?a / 8)%nat] => divide_by_8 a
  | H : context [(?a / 8)%nat] |- _ => divide_by_8 a
  | H : context [(?a mod 8)%nat] |- _ => divide_by_8 a
  end; lia.
Abbreviation fragment := (Ipv4Header * bytes)%type.
Definition start (x : fragment) : nat := (Z.to_nat (fragment_offset x.1) * 8)%nat.
Definition stop (x : fragment) : nat := (start x + length x.2)%nat.
Definition is_last (x : fragment) : bool := negb (more_fragments x.1).
(** A piece of the datagram [D]: the last one ends it, the others are multiples of eight bytes. *)
Definition fragment_of (D : bytes) (x : fragment) : Prop :=
  (stop x <= length D)%nat /\ x.2 = take (length x.2) (drop (start x) D) /\ is_last x = (stop x =? length D)%nat /\ (is_last x = false -> (length x.2 mod 8 = 0)%nat).
Definition covered (fs : list fragment) (i : nat) : bool := existsb (fun x => (start x <=? i)%nat && (i <? stop x)%nat) fs.
Definition covers (D : bytes) (fs : list fragment) : bool := forallb (covered fs) (seq 0 (length D)).
Definition marked (fs : list fragment) (j : nat) : bool := existsb (fun x => (start x / 8 <=? j)%nat && (j <? (stop x + 7) / 8)%nat) fs.
Record entry_of (D : bytes) (fs : list fragment) (e : FragmentEntry) : Prop := {
  e_buffer : length (buffer e) = Z.to_nat 65535;
  e_data : forall i, covered fs i = true -> buffer e !! i = D !! i;
  e_mask_length : length (received_mask e) = Z.to_nat 8192;
  e_mask : forall j, (j < Z.to_nat 8192)%nat -> received_mask e !! j = Some (marked fs j);
  e_total : total_len e = if existsb is_last fs then Some (Z.of_nat (length D)) else None }.
Lemma entry_new_of D now : entry_of D [] (entry_new now).
Proof.
  unfold entry_new. split; cbn [buffer received_mask total_len].
  - apply length_replicate.
  - intros i Hi. cbn in Hi. discriminate Hi.
  - apply length_replicate.
  - intros j Hj. by apply lookup_replicate_2.
  - reflexivity.
Qed.
Lemma blit_lookup off pl d i : (off + length pl <= length d)%nat -> blit off pl d !! i = if (off <=? i)%nat && (i <? off + length pl)%nat then pl !! (i - off)%nat else d !! i.
Proof.
  intros Hl. unfold blit. destruct (Nat.leb_spec off i) as [H1|H1]; cbn [andb].
  - rewrite lookup_app_r by (rewrite length_take; lia). rewrite length_take, Nat.min_l by lia. destruct (Nat.ltb_spec i (off + length pl)) as [H2|H2]; [by rewrite lookup_app_l by lia|]. rewrite lookup_app_r by lia. rewrite lookup_drop. f_equal. lia.
  - rewrite lookup_app_l by (rewrite length_take; lia). by rewrite lookup_take_lt by lia.
Qed.
Lemma blit_length off pl d : (off + length pl <= length d)%nat -> length (blit off pl d) = length d.
Proof. intros Hl. unfold blit. rewrite !length_app, length_take, length_drop. lia. Qed.
Lemma mark_lookup a b m j : mark a b m !! j = (fun x => x || ((a <=? j)%nat && (j <? b)%nat)) <$> m !! j.
Proof. unfold mark. apply list_lookup_imap. Qed.
Lemma existsb_snoc {A : Type} (f : A -> bool) (l : list A) x : existsb f (l ++ [x]) = existsb f l || f x.
Proof. rewrite existsb_app. cbn [existsb]. by rewrite orb_false_r. Qed.
Lemma entry_added D fs e x : Z.of_nat (length D) <= 65535 -> entry_of D fs e -> fragment_of D x -> entry_of D (fs ++ [x]) (add_fragment x.1 x.2 e).
Proof.
  intros HD He (H1 & H2 & H3 & H4). unfold add_fragment. fold (start x). assert (start x + length x.2 = stop x)%nat as Es by done. rewrite Es. split; cbn [buffer received_mask total_len].
  - rewrite blit_length; [apply He|]. rewrite (e_buffer _ _ _ He), Es. lia.
  - intros i. unfold covered. rewrite existsb_snoc. rewrite blit_lookup by (rewrite (e_buffer _ _ _ He), Es; lia). rewrite Es. destruct ((start x <=? i)%nat && (i <? stop x)%nat) eqn:E; [|rewrite orb_false_r; apply (e_data _ _ _ He)]. intros _. apply andb_prop in E as [E1%Nat.leb_le E2%Nat.ltb_lt]. rewrite H2, lookup_take_lt, lookup_drop by lia. f_equal. lia.
  - unfold mark. rewrite length_imap. apply He.
  - intros j Hj. rewrite mark_lookup, (e_mask _ _ _ He) by done. cbn [fmap option_fmap option_map]. f_equal. unfold marked. rewrite existsb_snoc. f_equal. f_equal. rewrite (e_mask_length _ _ _ He). destruct (Nat.ltb_spec j ((stop x + 7) / 8)), (Nat.ltb_spec j (Nat.min ((stop x + 7) / 8) (Z.to_nat 8192))); lia.
  - rewrite existsb_snoc, (e_total _ _ _ He). unfold is_last in *. destruct (more_fragments x.1); cbn [negb] in *; [by rewrite orb_false_r|]. rewrite orb_true_r. symmetry in H3. apply Nat.eqb_eq in H3. rewrite H3, Z.mod_small by (unfold u16_mod; lia). done.
Qed.
Lemma covers_spec D fs : covers D fs = true <-> forall i, (i < length D)%nat -> covered fs i = true.
Proof. unfold covers. rewrite forallb_forall. split; intros H i Hi; apply H; apply in_seq || (apply in_seq in Hi); lia. Qed.
Lemma existsb_elem {A : Type} (f : A -> bool) (l : list A) : existsb f l = true <-> exists x, x ∈ l /\ f x = true.
Proof. rewrite existsb_exists. split; intros (x & H1 & H2); exists x; split; try done; by apply list_elem_of_In. Qed.
(** All blocks are marked exactly when all bytes have come. *)
Lemma blocks_cover D fs : Forall (fragment_of D) fs -> (forall j, (j < (length D + 7) / 8)%nat -> marked fs j = true) <-> covers D fs = true.
Proof.
  intros Hfs. rewrite Forall_forall in Hfs. rewrite covers_spec. split.
  - intros H i Hi. specialize (H (i / 8)%nat ltac:(nlia)). apply existsb_elem in H as (x & Hx & Hm). apply andb_prop in Hm as [M1%Nat.leb_le M2%Nat.ltb_lt]. destruct (Hfs x Hx) as (F1 & _ & F3 & F4). apply existsb_elem. exists x. split; [done|]. unfold start in M1 at 1. rewrite Nat.div_mul in M1 by done. rewrite (proj2 (Nat.leb_le _ _)) by (unfold start; nlia). cbn [andb]. apply Nat.ltb_lt. destruct (is_last x); [symmetry in F3; apply Nat.eqb_eq in F3; lia|]. specialize (F4 eq_refl). unfold stop, start in *. nlia.
  - intros H j Hj. specialize (H (8 * j)%nat ltac:(nlia)). apply existsb_elem in H as (x & Hx & Hm). apply andb_prop in Hm as [M1%Nat.leb_le M2%Nat.ltb_lt]. apply existsb_elem. exists x. split; [done|]. apply andb_true_intro. split; [apply Nat.leb_le|apply Nat.ltb_lt; nlia]. unfold start in *. rewrite Nat.div_mul by done. lia.
Qed.
Lemma last_needed D fs : (0 < length D)%nat -> Forall (fragment_of D) fs -> covers D fs = true -> existsb is_last fs = true.
Proof.
  intros HD Hfs Hc. rewrite covers_spec in Hc. specialize (Hc (length D - 1)%nat ltac:(lia)). apply existsb_elem in Hc as (x & Hx & Hm). apply andb_prop in Hm as [_ M2%Nat.ltb_lt]. apply existsb_elem. exists x. split; [done|]. rewrite Forall_forall in Hfs. destruct (Hfs x Hx) as (F1 & _ & F3 & _). rewrite F3. apply Nat.eqb_eq. lia.
Qed.
Lemma complete_spec D fs e : (0 < length D)%nat -> Z.of_nat (length D) <= 65535 -> Forall (fragment_of D) fs -> entry_of D fs e -> complete e = if covers D fs then Some D else None.
Proof.
  intros H0 HD Hfs He. unfold complete. rewrite (e_total _ _ _ He). destruct (existsb is_last fs) eqn:El.
  2:{ destruct (covers D fs) eqn:Ec; [|done]. rewrite (last_needed D fs H0 Hfs Ec) in El. done. }
  rewrite Nat2Z.id. assert (Z.to_nat ((Z.of_nat (length D) + 7) / 8) = ((length D + 7) / 8)%nat) as -> by (rewrite <-(Nat2Z.id ((length D + 7) / 8)); f_equal; rewrite Nat2Z.inj_div, Nat2Z.inj_add; done).
  assert (forallb id (take ((length D + 7) / 8) (received_mask e)) = covers D fs) as ->.
  - apply eq_true_iff_eq. rewrite <-blocks_cover by done. rewrite forallb_forall. split.
    + intros H j Hj. assert (j < Z.to_nat 8192)%nat as Hj' by nlia. apply H. apply list_elem_of_In, list_elem_of_lookup. exists j. rewrite lookup_take_lt by done. by apply (e_mask _ _ _ He).
    + intros H b Hb. apply list_elem_of_In, list_elem_of_lookup in Hb as [j Hj]. apply lookup_take_Some in Hj as [Hj Hlt]. rewrite (e_mask _ _ _ He) in Hj by nlia. injection Hj as <-. by apply H.
  - destruct (covers D fs) eqn:Ec; [|done]. f_equal. apply list_eq. intros i. rewrite covers_spec in Ec. destruct (decide (i < length D)%nat) as [Hi|Hi]; [rewrite lookup_take_lt by done; by apply (e_data _ _ _ He), Ec|]. rewrite !lookup_ge_None_2; [done|lia|rewrite length_take; lia].
Qed.
(** A sequence of arrivals, each with the time it comes. *)
Definition arrival := (Z * fragment)%type.
Fixpoint feed (l : list arrival) (t : FragmentTable) : FragmentTable :=
  match l with [] => t | (now, x) :: l' => feed l' (reassemble_fragment now x.1 x.2 t).1 end.
Definition of_key (k : FragmentKey) (l : list arrival) : list fragment := filter (fun x => key_of x.1 = k) l.*2.
Definition holds (k : FragmentKey) (D : bytes) (fs : list fragment) (t : FragmentTable) : Prop := forall now, entry_of D fs (default (entry_new now) (t !! k)).
Lemma other_key k now x t : key_of x.1 <> k -> (reassemble_fragment now x.1 x.2 t).1 !! k = t !! k.
Proof.
  intros Hk. unfold reassemble_fragment. cbv zeta. destruct (_ <? _)%nat; cbn [fst]; [by rewrite lookup_insert_ne|]. destruct (complete _); cbn [fst]; [by rewrite lookup_delete_ne|by rewrite lookup_insert_ne].
Qed.
Lemma arrival_step k D fs now x t : (0 < length D)%nat -> Z.of_nat (length D) <= 65535 -> Forall (fragment_of D) (fs ++ [x]) -> key_of x.1 = k -> holds k D fs t ->
  (reassemble_fragment now x.1 x.2 t).2 = (if covers D (fs ++ [x]) then Some D else None) /\ (covers D (fs ++ [x]) = false -> holds k D (fs ++ [x]) (reassemble_fragment now x.1 x.2 t).1).
Proof.
  intros H0 HD Hfs Hk Hh. unfold reassemble_fragment. rewrite Hk. pose proof (Hh now) as He. set (e := default (entry_new now) (t !! k)) in *. pose proof Hfs as Hx. apply Forall_app in Hx as [_ Hx]. rewrite Forall_singleton in Hx.
  pose proof (entry_added D fs e x HD He Hx) as Ha. fold (start x). rewrite (proj2 (Nat.ltb_ge _ _)) by (rewrite (e_buffer _ _ _ He); destruct Hx as [Hx _]; unfold stop in Hx; lia). cbv zeta. rewrite (complete_spec D (fs ++ [x]) _ H0 HD Hfs Ha). destruct (covers D (fs ++ [x])); [by split|]. split; [done|]. intros _ now'. cbn [fst]. rewrite lookup_insert_eq. exact Ha.
Qed.
Lemma covers_mono D fs gs : covers D (fs ++ gs) = false -> covers D fs = false.
Proof. intros H. destruct (covers D fs) eqn:E; [|done]. rewrite <-H. symmetry. rewrite covers_spec in E |- *. intros i Hi. unfold covered. rewrite existsb_app. by rewrite (E i Hi : existsb _ fs = true). Qed.
Lemma of_key_cons k now x l : of_key k ((now, x) :: l) = if decide (key_of x.1 = k) then x :: of_key k l else of_key k l.
Proof. unfold of_key. rewrite fmap_cons. cbn [snd]. rewrite filter_cons. done. Qed.
Lemma feed_holds k D l : (0 < length D)%nat -> Z.of_nat (length D) <= 65535 -> forall fs t, Forall (fragment_of D) (fs ++ of_key k l) -> covers D (fs ++ of_key k l) = false -> holds k D fs t -> holds k D (fs ++ of_key k l) (feed l t).
Proof.
  intros H0 HD. induction l as [|[now x] l IH]; intros fs t Hfs Hc Hh; cbn [feed]; [unfold of_key; cbn; by rewrite app_nil_r|]. rewrite of_key_cons in *. destruct (decide (key_of x.1 = k)) as [Hk|Hk].
  - rewrite cons_middle, app_assoc in *. assert (covers D (fs ++ [x]) = false) as Hc1 by (by eapply covers_mono). assert (Forall (fragment_of D) (fs ++ [x])) as Hf1 by (by apply Forall_app in Hfs as [? _]). apply IH; try done. by apply (arrival_step k D fs now x t).
  - apply IH; try done. intros now'. rewrite other_key by done. apply Hh.
Qed.
(** C13: Reassembly is exact.  A datagram of at most 65535 bytes arrives in fragments, in any
    order, repeated and overlapping, between arbitrary packets of other
    datagrams.  As long as bytes are missing nothing is delivered; the fragment
    that completes it delivers exactly the datagram. *)
Theorem reassembly_exact D k l now x t : (0 < length D)%nat -> Z.of_nat (length D) <= 65535 -> t !! k = None -> key_of x.1 = k -> Forall (fragment_of D) (of_key k l ++ [x]) -> covers D (of_key k l) = false ->
  (reassemble_fragment now x.1 x.2 (feed l t)).2 = if covers D (of_key k l ++ [x]) then Some D else None.
Proof.
  intros H0 HD Ht Hk Hfs Hc. apply (arrival_step k D (of_key k l) now x (feed l t)); try done. apply (feed_holds k D l H0 HD []); [by apply Forall_app in Hfs as [? _]|done|]. intros now'. rewrite Ht. apply entry_new_of.
Qed.
(** A datagram of ten bytes: its end first, a repeated end, then its beginning. *)
Definition frag_header (off fl : Z) : Ipv4Header := mkHeader 4 5 0 0 0 7 fl off 64 UDP 0 [10; 0; 0; 1] [10; 0; 0; 2].
Definition sample : bytes := [1; 2; 3; 4; 5; 6; 7; 8; 9; 10].
Definition sample_end : fragment := (frag_header 1 0, [9; 10]).
Definition sample_begin : fragment := (frag_header 0 1, [1; 2; 3; 4; 5; 6; 7; 8]).
Lemma reassembly_exact_witness : covers sample (of_key (key_of sample_end.1) [(0, sample_end); (1, sample_end)]) = false /\ (reassemble_fragment 2 sample_begin.1 sample_begin.2 (feed [(0, sample_end); (1, sample_end)] ∅)).2 = Some sample.
Proof.
  split; [done|]. assert (Forall (fragment_of sample) [sample_end; sample_end; sample_begin]) as Hf by (repeat (apply Forall_cons; split; [unfold fragment_of; split_and!; first [done | by apply Nat.leb_le]|]); by apply Forall_nil).
  exact (reassembly_exact sample (key_of sample_end.1) [(0, sample_end); (1, sample_end)] 2 sample_begin ∅ ltac:(cbn; lia) ltac:(cbn; lia) eq_refl eq_refl Hf eq_refl).
Defined.
(** A fragment that is not a multiple of eight bytes marks its last block as received: the gap is delivered as zeros. *)
Example odd_fragment_leaves_zeros : let e := mkEntry (replicate 16 0) (replicate 2 false) None 0 in
  complete (add_fragment (frag_header 1 0) [9] (add_fragment (frag_header 0 1) [1; 2; 3; 4; 5] e)) = Some [1; 2; 3; 4; 5; 0; 0; 0; 9].
Proof. reflexivity. Qed.
(** Two last fragments: the later one sets the length. *)
Example second_end_truncates : let e := mkEntry (replicate 16 0) (replicate 2 false) None 0 in
  complete (add_fragment (frag_header 0 0) [7] (add_fragment (frag_header 1 0) [9; 10] e)) = Some [7].
Proof. reflexivity. Qed.
Lemma ping_roundtrip_witness : exists pkt back, (send_icmp_echo_request link_up [10; 0; 0; 1] 5 [10; 0; 0; 2] 3 4 [1; 2; 3] (mkState ∅ ∅ ∅)).1.2 = [ArpSend [10; 0; 0; 2] pkt; Count IcmpOutMsgs] /\
  (process_packet accept_all link_up [10; 0; 0; 2] 6 (fun _ _ _ => inl tt) pkt (mkState ∅ ∅ ∅)).1.2 !! 4%nat = Some (ArpSend [10; 0; 0; 1] back).
Proof.
  destruct (ping_roundtrip [10; 0; 0; 1] [10; 0; 0; 2] 3 4 [1; 2; 3] 5 6 9 (fun _ _ _ => inl tt) (mkState ∅ ∅ ∅) (mkState ∅ ∅ ∅)) as (pkt & back & c & H1 & (h & H2) & _); [by split; [|repeat constructor]|by split; [|repeat constructor]|lia|lia|by repeat constructor|cbn; lia|].
  exists pkt, back. split; [exact H1|]. by rewrite H2.
Defined.
(** The scan of the options ends: an option takes at least one byte. *)
Lemma source_routed_fuel f g idx o : (length o - idx <= f)%nat -> (length o - idx <= g)%nat -> source_routed f idx o = source_routed g idx o.
Proof.
  revert g idx. induction f as [|f IH]; intros [|g] idx Hf Hg; cbn [source_routed]; [done|rewrite (proj2 (Nat.leb_le _ _)) by lia; done|rewrite (proj2 (Nat.leb_le _ _)) by lia; done|]. destruct (Nat.leb_spec (length o) idx); [done|]. destruct (get o idx =? 0); [done|]. destruct (get o idx =? 1); [apply IH; lia|]. destruct ((get o idx =? 131) || (get o idx =? 137)); [done|]. destruct (length o <=? S idx)%nat; [done|]. destruct (Z.ltb_spec (get o (S idx)) 2); [done|]. apply IH; lia.
Qed.
End Ipv4.
