(* ===== verification/TcpWire.v ===== *)
(** * TCP segments

    Models the wire format of [src/src/net/tcp.rs]: flags and headers, the options, selective
    acknowledgements with their scoreboard, duplicate acknowledgements,
    checksums over pseudo headers, ECN, Fast Open cookies and SYN cookies.

    [segment_roundtrip]: a segment with its checksum verifies and parses back into header
    and data.  [sack_gaps_exact]: the gaps of the scoreboard are the bytes of
    the window that no block covers.  [syn_cookie_exact]: a cookie is accepted for two periods
    and gives back the segment size.  [syn_options_parse]: the options built for a SYN parse back.
    The keyed hash of Fast Open (crates hmac and sha2) is an argument. *)
From S2P Require Import Prelude Checksum Ipv4.

Module TcpWire.
Import Ipv4.

(** ** Flags *)
Record TcpFlags := mkFlags { fin : bool; syn : bool; rst : bool; psh : bool; ack : bool; urg : bool; cwr : bool; ece : bool }.
#[export] Instance TcpFlags_eq_dec : EqDecision TcpFlags.
Proof. solve_decision. Defined.
Definition flags_new : TcpFlags := mkFlags false false false false false false false false.
Definition flags_syn : TcpFlags := mkFlags false true false false false false false false.
Definition flags_syn_ack : TcpFlags := mkFlags false true false false true false false false.
Definition flags_ack : TcpFlags := mkFlags false false false false true false false false.
Definition flags_fin : TcpFlags := mkFlags true false false false false false false false.
Definition flags_fin_ack : TcpFlags := mkFlags true false false false true false false false.
Definition flags_rst : TcpFlags := mkFlags false false true false false false false false.
Definition to_u8 (f : TcpFlags) : Z :=
  let set (b : bool) (m v : Z) := if b then Z.lor v m else v in
  set (ece f) 0x40 (set (cwr f) 0x80 (set (urg f) 0x20 (set (ack f) 0x10 (set (psh f) 0x08 (set (rst f) 0x04 (set (syn f) 0x02 (set (fin f) 0x01 0))))))).
Definition from_u8 (v : Z) : TcpFlags :=
  let bit (m : Z) := negb (Z.land v m =? 0) in
  mkFlags (bit 0x01) (bit 0x02) (bit 0x04) (bit 0x08) (bit 0x10) (bit 0x20) (bit 0x80) (bit 0x40).

(** ** Headers *)
Record TcpHeader := mkHdr { src_port : Z; dst_port : Z; seq_num : Z; ack_num : Z; data_offset : Z; flags : TcpFlags; window_size : Z; checksum : Z; urgent_ptr : Z }.
Definition MIN_SIZE : nat := 20.
Definition header_len (h : TcpHeader) : nat := (Z.to_nat (data_offset h) * 4)%nat.
Definition parse (data : bytes) : res TcpHeader :=
  if (length data <? MIN_SIZE)%nat then inr InvalidPacket
  else
    let off := Z.land (Z.shiftr (get data 12) 4) 0x0F in
    if off <? 5 then inr InvalidPacket
    else if (length data <? Z.to_nat off * 4)%nat then inr InvalidPacket
    else inl (mkHdr (be_word data 0) (be_word data 2) (be32_at data 4) (be32_at data 8) off (from_u8 (get data 13)) (be_word data 14) (be_word data 16) (be_word data 18)).
Definition header_bytes (h : TcpHeader) : bytes :=
  be16 (src_port h) ++ be16 (dst_port h) ++ be32 (seq_num h) ++ be32 (ack_num h) ++ [u8_shl (data_offset h) 4; to_u8 (flags h)] ++ be16 (window_size h) ++ be16 (checksum h) ++ be16 (urgent_ptr h).
Definition serialize (h : TcpHeader) (buf : bytes) : res bytes :=
  if (length buf <? MIN_SIZE)%nat then inr BufferFull else inl (blit 0 (header_bytes h) buf).

(** ** Checksums *)
Definition compute_checksum (s d : Ipv4Addr) (segment : bytes) : Z :=
  let sum := u32_add (u32_add (u32_add (u32_add 0 (be_word s 0)) (be_word s 2)) (be_word d 0)) (be_word d 2) in
  let sum := u32_add (u32_add sum 6) (as_u32 (Z.of_nat (length segment))) in
  Checksum.fold_checksum (Checksum.sum_all segment sum).
Definition verify_checksum (s d : Ipv4Addr) (segment : bytes) : bool := compute_checksum s d segment =? 0.
(** An [Ipv6Addr] is a list of sixteen bytes. *)
Abbreviation Ipv6Addr := (list Z).
Definition compute_checksum_v6 (s d : Ipv6Addr) (segment : bytes) : Z :=
  let sum := Checksum.add_words d (Checksum.add_words s 0) in
  let len := as_u32 (Z.of_nat (length segment)) in
  let sum := u32_add (u32_add (u32_add sum (Z.land (Z.shiftr len 16) 0xFFFF)) (Z.land len 0xFFFF)) 6 in
  Checksum.fold_checksum (Checksum.sum_all segment sum).
Definition verify_checksum_v6 (s d : Ipv6Addr) (segment : bytes) : bool := compute_checksum_v6 s d segment =? 0.

(** ** Explicit congestion notification *)
Definition IP_TOS_ECT0 : Z := 0x02.
Definition IP_TOS_ECT1 : Z := 0x04.
Definition IP_TOS_CE : Z := 0x06.
Inductive EcnState := NonEct | Ect0 | Ect1 | CongestionExperienced.
#[export] Instance EcnState_eq_dec : EqDecision EcnState.
Proof. solve_decision. Defined.
Record EcnNegotiation := mkEcn { negotiated : bool; ecn_state : EcnState; ce_counter : Z; last_cwr_time : Z }.
Definition ecn_new : EcnNegotiation := mkEcn false NonEct 0 0.
Definition syn_flags (e : EcnNegotiation) : bool * bool := if negotiated e then (true, true) else (false, false).
Definition syn_ack_flags (e : EcnNegotiation) : bool * bool := (true, false).
Definition on_ce_detected (e : EcnNegotiation) : EcnNegotiation := mkEcn (negotiated e) CongestionExperienced (u32_add (ce_counter e) 1) (last_cwr_time e).
Definition on_cwr_sent (now : Z) (e : EcnNegotiation) : EcnNegotiation := mkEcn (negotiated e) (if bool_decide (ecn_state e = CongestionExperienced) then Ect0 else ecn_state e) (ce_counter e) now.
Definition tos_ecn_bits (e : EcnNegotiation) : Z := match ecn_state e with NonEct => 0 | Ect0 => IP_TOS_ECT0 | Ect1 => IP_TOS_ECT1 | CongestionExperienced => IP_TOS_CE end.

(** ** Selective acknowledgements *)
Definition TCPOPT_EOL : Z := 0.
Definition TCPOPT_NOP : Z := 1.
Definition TCPOPT_MSS : Z := 2.
Definition TCPOPT_WINDOW_SCALE : Z := 3.
Definition TCPOPT_SACK_PERMITTED : Z := 4.
Definition TCPOPT_SACK : Z := 5.
Definition TCPOPT_TIMESTAMP : Z := 8.
Definition TCPOPT_FAST_OPEN : Z := 34.
Record SackBlock := mkBlock { b_start : Z; b_end : Z }.
#[export] Instance SackBlock_eq_dec : EqDecision SackBlock.
Proof. solve_decision. Defined.
Definition contains (b : SackBlock) (s : Z) : bool := if b_start b <=? b_end b then (b_start b <=? s) && (s <? b_end b) else (b_start b <=? s) || (s <? b_end b).
Definition block_len (b : SackBlock) : Z := u32_sub (b_end b) (b_start b).
Record SackScoreboard := mkBoard { blocks : list SackBlock; max_blocks : nat; high_sack : Z; sacked_bytes : Z }.
Definition board_new : SackScoreboard := mkBoard [] 4 0 0.
(** [x as i32] on a [u32]. *)
Definition as_i32 (x : Z) : Z := if x <? 2 ^ 31 then x else x - u32_mod.
Definition blocks_overlap_or_adjacent (a b : SackBlock) : bool :=
  let adjacent := (u32_sub (b_end a) (b_start b) =? 0) || (u32_sub (b_end b) (b_start a) =? 0) in
  let overlap := ((b_start a <=? b_start b) && (b_start b <? b_end a)) || ((b_start b <=? b_start a) && (b_start a <? b_end b)) in
  overlap || adjacent.
(** The first block that the new one touches is widened. *)
Fixpoint merge_first (b : SackBlock) (l : list SackBlock) : option (list SackBlock) :=
  match l with
  | [] => None
  | x :: l' => if blocks_overlap_or_adjacent x b then Some (mkBlock (Z.min (b_start x) (b_start b)) (Z.max (b_end x) (b_end b)) :: l') else (x ::.) <$> merge_first b l'
  end.
(** [sort_by_key(|b| b.start)], a stable sort. *)
Fixpoint insert_block (b : SackBlock) (l : list SackBlock) : list SackBlock :=
  match l with [] => [b] | x :: l' => if b_start x <=? b_start b then x :: insert_block b l' else b :: l end.
Definition sort_blocks (l : list SackBlock) : list SackBlock := foldl (fun acc b => insert_block b acc) [] l.
Definition add_block (b : SackBlock) (s : SackScoreboard) : SackScoreboard :=
  let l := match merge_first b (blocks s) with
    | Some l => l
    | None => if (length (blocks s) <? max_blocks s)%nat then blocks s ++ [b] else drop 1 (blocks s) ++ [b]
    end in
  let l := sort_blocks l in
  mkBoard l (max_blocks s) (foldl (fun h x => if 0 <? as_i32 (u32_sub (b_end x) h) then b_end x else h) (high_sack s) l) (foldl (fun n x => u32_add n (block_len x)) 0 l).
Definition is_sacked (s e : Z) (b : SackScoreboard) : bool := existsb (fun x => (b_start x <=? s) && (e <=? b_end x)) (blocks b).
Fixpoint gaps_from (current snd_nxt : Z) (l : list SackBlock) : list SackBlock :=
  match l with
  | [] => if current <? snd_nxt then [mkBlock current snd_nxt] else []
  | x :: l' => (if current <? b_start x then [mkBlock current (b_start x)] else []) ++ gaps_from (Z.max current (b_end x)) snd_nxt l'
  end.
Definition get_gaps (snd_una snd_nxt : Z) (b : SackScoreboard) : list SackBlock := if (length (blocks b) =? 0)%nat then [mkBlock snd_una snd_nxt] else gaps_from snd_una snd_nxt (blocks b).
Definition clear (b : SackScoreboard) : SackScoreboard := mkBoard [] (max_blocks b) 0 0.
(** [while data.len() % 4 != 0 { data.push(NOP) }] *)
Definition pad4 (d : bytes) : bytes := d ++ replicate ((4 - length d mod 4) mod 4) TCPOPT_NOP.
Definition board_serialize (b : SackScoreboard) : bytes :=
  pad4 ([TCPOPT_SACK; Z.of_nat (2 + 8 * length (blocks b)) mod 256] ++ concat ((fun x => be32 (b_start x) ++ be32 (b_end x)) <$> blocks b)).
Fixpoint parse_blocks (n i : nat) (data : bytes) (s : SackScoreboard) : SackScoreboard :=
  match n with
  | O => s
  | S n' => let o := (2 + i * 8)%nat in if (length data <? o + 8)%nat then s else parse_blocks n' (S i) data (add_block (mkBlock (be32_at data o) (be32_at data (o + 4))) s)
  end.
Definition board_parse (data : bytes) : option SackScoreboard :=
  if (length data <? 2)%nat || negb (get data 0 =? TCPOPT_SACK) then None
  else let len := get data 1 in
    if (len <? 2) || negb ((len - 2) mod 8 =? 0) then None else Some (parse_blocks (Z.to_nat ((len - 2) / 8)) 0 data board_new).
Definition sack_permitted_bytes : bytes := [TCPOPT_SACK_PERMITTED; 2].

(** ** Duplicate acknowledgements *)
Record FastRetransmitState := mkFast { dup_ack_count : Z; last_ack : Z; recover : Z; in_recovery : bool; threshold : Z }.
Definition fast_new : FastRetransmitState := mkFast 0 0 0 false 3.
Definition on_ack (a : Z) (sack : list SackBlock) (snd_una : Z) (f : FastRetransmitState) : FastRetransmitState * bool :=
  if (a =? last_ack f) && negb (a =? snd_una) then
    let n := u32_add (dup_ack_count f) 1 in
    if (threshold f <=? n) && negb (in_recovery f) then (mkFast n (last_ack f) snd_una true (threshold f), true)
    else (mkFast n (last_ack f) (recover f) (in_recovery f) (threshold f), false)
  else if last_ack f <? a then (mkFast 0 a (recover f) (if in_recovery f && (recover f <=? a) then false else in_recovery f) (threshold f), false)
  else (f, false).
Definition fast_reset (f : FastRetransmitState) : FastRetransmitState := mkFast 0 (last_ack f) (recover f) false (threshold f).

(** ** Window scale and time stamps *)
Definition scale_new (scale : Z) : Z := Z.min scale 14.
Definition scale_bytes (scale : Z) : bytes := [TCPOPT_WINDOW_SCALE; 3; scale].
Definition scale_parse (data : bytes) : option Z := if (length data <? 3)%nat || negb (get data 0 =? TCPOPT_WINDOW_SCALE) then None else Some (get data 2).
(** The shift distance of a 32-bit shift is taken modulo 32. *)
Definition effective_window (base scale : Z) : Z := Z.shiftl base (scale mod 32) mod u32_mod.
Record TimestampOption := mkTs { ts_val : Z; ts_ecr : Z }.
Definition next_tcp_timestamp (counter : Z) : Z := u32_add counter 1000.
Definition ts_bytes (t : TimestampOption) : bytes := [TCPOPT_TIMESTAMP; 10] ++ be32 (ts_val t) ++ be32 (ts_ecr t).
Definition ts_parse (data : bytes) : option TimestampOption := if (length data <? 10)%nat || negb (get data 0 =? TCPOPT_TIMESTAMP) then None else Some (mkTs (be32_at data 2) (be32_at data 6)).
Definition calculate_rtt (counter : Z) (t : TimestampOption) : Z := u32_sub counter (ts_ecr t).

(** ** Options *)
Record TcpOptions := mkOptions { mss : option Z; window_scale : option Z; sack_permitted : bool; sack_blocks : list SackBlock; timestamps : option TimestampOption; tfo_cookie : option bytes }.
Definition options_default : TcpOptions := mkOptions None None false [] None None.
Definition parse_option (kind : Z) (d : bytes) (o : TcpOptions) : TcpOptions :=
  if kind =? TCPOPT_MSS then if (4 <=? length d)%nat then mkOptions (Some (be_word d 2)) (window_scale o) (sack_permitted o) (sack_blocks o) (timestamps o) (tfo_cookie o) else o
  else if kind =? TCPOPT_WINDOW_SCALE then match scale_parse d with Some w => mkOptions (mss o) (Some w) (sack_permitted o) (sack_blocks o) (timestamps o) (tfo_cookie o) | None => o end
  else if kind =? TCPOPT_SACK_PERMITTED then mkOptions (mss o) (window_scale o) true (sack_blocks o) (timestamps o) (tfo_cookie o)
  else if kind =? TCPOPT_SACK then match board_parse d with Some b => mkOptions (mss o) (window_scale o) (sack_permitted o) (blocks b) (timestamps o) (tfo_cookie o) | None => o end
  else if kind =? TCPOPT_TIMESTAMP then mkOptions (mss o) (window_scale o) (sack_permitted o) (sack_blocks o) (ts_parse d) (tfo_cookie o)
  else if kind =? TCPOPT_FAST_OPEN then if (10 <=? length d)%nat then mkOptions (mss o) (window_scale o) (sack_permitted o) (sack_blocks o) (timestamps o) (Some (take 8 (drop 2 d))) else o
  else o.
Fixpoint parse_loop (fuel i : nat) (d : bytes) (o : TcpOptions) : TcpOptions :=
  match fuel with
  | O => o
  | S f =>
      if (length d <=? i)%nat then o
      else
        let kind := get d i in
        if kind =? TCPOPT_EOL then o
        else if kind =? TCPOPT_NOP then parse_loop f (S i) d o
        else if (length d <=? S i)%nat then o
        else
          let n := Z.to_nat (get d (S i)) in
          if (n <? 2)%nat || (length d <? i + n)%nat then o
          else parse_loop f (i + n) d (parse_option kind (take n (drop i d)) o)
  end.
Definition parse_options (header_data : bytes) (header_len : nat) : TcpOptions :=
  if (header_len <=? 20)%nat then options_default
  else let d := take (header_len - 20) (drop 20 header_data) in parse_loop (length d) 0 d options_default.
(** The options and the new value of the time stamp counter. *)
Definition build_syn_options (counter m ws : Z) (enable_sack : bool) : bytes * Z :=
  let t := next_tcp_timestamp counter in
  (pad4 ([TCPOPT_MSS; 4] ++ be16 m ++ scale_bytes (scale_new ws) ++ (if enable_sack then sack_permitted_bytes else []) ++ ts_bytes (mkTs t 0)), t).
Definition build_data_options (counter ts_echo : Z) (l : list SackBlock) : bytes * Z :=
  let t := next_tcp_timestamp counter in
  (pad4 (ts_bytes (mkTs t ts_echo) ++ (if (length l =? 0)%nat then [] else board_serialize (mkBoard l 4 0 0))), t).

(** ** Fast Open *)
Section FastOpen.
Context (hmac : bytes -> bytes -> bytes).
Definition rotl32 (x n : Z) : Z := Z.lor (Z.shiftl x n mod u32_mod) (Z.shiftr x (32 - n)).
Definition tfo_secret (epoch : Z) (server : Ipv4Addr) : bytes :=
  server ++ be32 epoch ++ be32 (Z.lxor (rotl32 epoch 7) 0xa5a55a5a) ++ be32 ((epoch * 0x9e3779b9) mod u32_mod).
Definition be64 (x : Z) : bytes := be32 (x / 2 ^ 32) ++ be32 (x mod 2 ^ 32).
Definition tfo_generate (epoch : Z) (server : Ipv4Addr) (time_ms : Z) : bytes := take 8 (hmac (tfo_secret epoch server) (server ++ be64 time_ms)).
Definition tfo_verify (epoch : Z) (cookie : bytes) (server : Ipv4Addr) (window : Z) : bool := bool_decide (cookie = tfo_generate epoch server window).
End FastOpen.
Record TfoState := mkTfo { cookies : gmap Z bytes; pending_data : bytes; enabled : bool; cookie_requested : bool; data_in_syn : bool }.
Definition tfo_new : TfoState := mkTfo ∅ [] true false false.
Definition get_cookie (server : Ipv4Addr) (t : TfoState) : option bytes := cookies t !! be32_at server 0.
Definition store_cookie (server : Ipv4Addr) (c : bytes) (t : TfoState) : TfoState := mkTfo (<[be32_at server 0 := c]> (cookies t)) (pending_data t) (enabled t) (cookie_requested t) (data_in_syn t).
Definition serialize_cookie_option (c : bytes) : bytes := [TCPOPT_FAST_OPEN; 10] ++ c.

(** ** SYN cookies *)
Definition MSS_TABLE : list Z := [536; 1280; 1440; 1460].
Fixpoint encode_from (i : Z) (l : list Z) (m : Z) : Z := match l with [] => 3 | x :: l' => if m <=? x then i else encode_from (i + 1) l' m end.
Definition encode_mss (m : Z) : Z := encode_from 0 MSS_TABLE m.
Definition decode_mss (code : Z) : Z := get MSS_TABLE (Z.to_nat (Z.land code 0x03)).
Record SynCookieStats := mkStats { cookies_sent : Z; cookies_validated : Z; cookies_failed : Z; syn_queue_overflow : Z }.
Definition stats_new : SynCookieStats := mkStats 0 0 0 0.
Definition cookie_period (ticks : Z) : Z := Z.land (as_u32 (ticks / 64000)) 0x1F.
Definition cookie_data (secret : bytes) (src_ip dst_ip src_port dst_port : Z) : bytes := be32 src_ip ++ be32 dst_ip ++ be16 src_port ++ be16 dst_port ++ take 4 secret ++ take 4 (drop 4 secret).
Definition u32_mul (a b : Z) : Z := (a * b) mod u32_mod.
Definition cookie_hash (data : bytes) : Z :=
  let h := foldl (fun h b => u32_mul (Z.lxor h b) 0x01000193) 0x811c9dc5 data in
  let h := Z.lxor h (Z.shiftr h 16) in
  let h := u32_mul h 0x85ebca6b in
  let h := Z.lxor h (Z.shiftr h 13) in
  let h := u32_mul h 0xc2b2ae35 in
  Z.lxor h (Z.shiftr h 16).
Definition generate_syn_cookie (ticks : Z) (secret : bytes) (src_ip dst_ip src_port dst_port m : Z) (st : SynCookieStats) : Z * SynCookieStats :=
  let hmac_24 := Z.land (cookie_hash (cookie_data secret src_ip dst_ip src_port dst_port)) 0x00FFFFFF in
  let cookie := Z.lor (Z.lor (Z.shiftl (cookie_period ticks) 27) (Z.shiftl (encode_mss m) 25)) hmac_24 in
  (cookie, mkStats (u32_add (cookies_sent st) 1) (cookies_validated st) (cookies_failed st) (syn_queue_overflow st)).
Definition validate_syn_cookie (ticks : Z) (secret : bytes) (cookie src_ip dst_ip src_port dst_port : Z) (st : SynCookieStats) : option Z * SynCookieStats :=
  let failed := mkStats (cookies_sent st) (cookies_validated st) (u32_add (cookies_failed st) 1) (syn_queue_overflow st) in
  let ts_diff := Z.land (u32_sub (cookie_period ticks) (Z.land (Z.shiftr cookie 27) 0x1F)) 0x1F in
  if 2 <? ts_diff then (None, failed)
  else
    let m := decode_mss (Z.land (Z.shiftr cookie 25) 0x03) in
    if Z.land cookie 0x00FFFFFF =? Z.land (cookie_hash (cookie_data secret src_ip dst_ip src_port dst_port)) 0x00FFFFFF
    then (Some m, mkStats (cookies_sent st) (u32_add (cookies_validated st) 1) (cookies_failed st) (syn_queue_overflow st))
    else (None, failed).
(** The secret is overwritten with random bytes. *)
Definition rotate_syn_cookie_secret (rnd : nat -> Z) : bytes := (fun i => rnd i mod 256) <$> seq 0 32.
Definition syn_cookie_stats (st : SynCookieStats) : Z * Z * Z * Z := (cookies_sent st, cookies_validated st, cookies_failed st, syn_queue_overflow st).

(** ** Loss-based congestion state *)
Record SackCongestionState := mkCong { sc_cwnd : Z; sc_ssthresh : Z; pipe : Z; limited_transmit : Z }.
Definition cong_new (initial_cwnd : Z) : SackCongestionState := mkCong initial_cwnd u32_max 0 0.
Definition update_pipe (lost sacked : Z) (c : SackCongestionState) : SackCongestionState := mkCong (sc_cwnd c) (sc_ssthresh c) (as_u32 (lost + sacked)) (limited_transmit c).
Definition sack_on_loss (c : SackCongestionState) : SackCongestionState := let t := Z.max (sc_cwnd c / 2) 2 in mkCong t t (pipe c) (limited_transmit c).

(** ** Segments *)
(** Lemmas on headers: every field survives. *)
Lemma be32_word x : is_u32 x -> (x / 2 ^ 24 mod 256 * 256 + x / 2 ^ 16 mod 256) * 65536 + (x / 2 ^ 8 mod 256 * 256 + x mod 256) = x.
Proof. intros Hx. unfold is_u32, u32_mod in Hx. change (2 ^ 24) with 16777216. change (2 ^ 16) with 65536. change (2 ^ 8) with 256. Z.div_mod_to_equations. lia. Qed.
Lemma flags_roundtrip f : from_u8 (to_u8 f) = f.
Proof. destruct f as [[] [] [] [] [] [] [] []]; reflexivity. Qed.
Lemma flags_byte f : 0 <= to_u8 f < 256.
Proof. destruct f as [[] [] [] [] [] [] [] []]; vm_compute; split; congruence. Qed.
Record hdr_ok (h : TcpHeader) : Prop := {
  ok_sport : 0 <= src_port h < 65536;
  ok_dport : 0 <= dst_port h < 65536;
  ok_seq : is_u32 (seq_num h);
  ok_ack : is_u32 (ack_num h);
  ok_off : 5 <= data_offset h <= 15;
  ok_win : 0 <= window_size h < 65536;
  ok_sum : 0 <= checksum h < 65536;
  ok_urg : 0 <= urgent_ptr h < 65536 }.
Lemma header_length h : length (header_bytes h) = 20%nat.
Proof. reflexivity. Qed.
Lemma offset_byte x : 5 <= x <= 15 -> u8_shl x 4 = x * 16 /\ Z.land (Z.shiftr (x * 16) 4) 15 = x.
Proof.
  intros Hx. unfold u8_shl. rewrite Z.shiftl_mul_pow2, Z.shiftr_div_pow2 by lia. change (2 ^ 4) with 16. rewrite Z.mod_small by lia. split; [done|]. rewrite Z.div_mul by done. apply (land_ones_id x 4); lia.
Qed.
Lemma segment_header_bytes h : hdr_ok h -> Checksum.bytes (header_bytes h).
Proof.
  intros H. unfold header_bytes. destruct (offset_byte _ (ok_off _ H)) as [E _]. rewrite E. pose proof (ok_off _ H). pose proof (flags_byte (flags h)). cbn [be16 be32 app]. repeat (apply Forall_cons; split; [first [lia | apply Z.mod_pos_bound; lia]|]). by apply Forall_nil.
Qed.
Lemma parse_header_bytes h rest : hdr_ok h -> (header_len h <= 20 + length rest)%nat -> parse (header_bytes h ++ rest) = inl h.
Proof.
  intros H Hl. unfold parse. rewrite length_app, header_length. destruct (offset_byte _ (ok_off _ H)) as [E1 E2]. unfold header_bytes, be32_at, be_word, Checksum.be_word, get, Checksum.get. rewrite E1. cbn [be16 be32 app lookup list_lookup default id Nat.add]. rewrite E2. unfold MIN_SIZE. rewrite (proj2 (Nat.ltb_ge _ _)) by lia. rewrite (proj2 (Z.ltb_ge _ _)) by (pose proof (ok_off _ H); lia). fold (header_len h). rewrite (proj2 (Nat.ltb_ge _ _)) by lia.
  rewrite (be32_word (seq_num h)), (be32_word (ack_num h)), !be16_word, flags_roundtrip by apply H. by destruct h.
Qed.
Definition set_sum (c : Z) (h : TcpHeader) : TcpHeader := mkHdr (src_port h) (dst_port h) (seq_num h) (ack_num h) (data_offset h) (flags h) (window_size h) c (urgent_ptr h).
Lemma header_bytes_sum c h : header_bytes (set_sum c h) = take 16 (header_bytes h) ++ be16 c ++ be16 (urgent_ptr h).
Proof. reflexivity. Qed.
(** A checksum over a pseudo header with sum [P]. *)
Lemma field_closes P (a b : bytes) : Nat.Even (length a) -> Checksum.bytes a -> Checksum.bytes b -> 0 <= P -> let c := 65535 - Checksum.oc (P + Checksum.words (a ++ [0; 0] ++ b)) in
  0 <= c < 65536 /\ Checksum.oc (P + Checksum.words (a ++ be16 c ++ b)) = 65535.
Proof.
  intros He Ha Hb HP c. pose proof (proj1 (Checksum.words_bound a Ha)). pose proof (proj1 (Checksum.words_bound b Hb)). unfold c. rewrite !words_app_even by (try done; by exists 1%nat). change (Checksum.words [0; 0]) with 0.
  set (S := P + (_ + (0 + _))). assert (0 <= S) as HS by (unfold S; lia). pose proof (Checksum.oc_range S HS). split; [lia|]. change (Checksum.words (be16 ?x)) with (x / 256 mod 256 * 256 + x mod 256 + 0). rewrite be16_word by lia. replace (P + _) with (S + (65535 - Checksum.oc S)) by (unfold S; lia). by apply Checksum.csum_closes.
Qed.
Lemma sum_closed P seg : Checksum.bytes seg -> 0 <= P <= 1000000 -> Z.of_nat (length seg) <= 100000 -> Checksum.fold_checksum (Checksum.sum_all seg P) = 65535 - Checksum.oc (P + Checksum.words seg).
Proof.
  intros Hb HP Hl. pose proof (Checksum.words_bound seg Hb). rewrite Checksum.sum_all_spec by (try done; unfold is_u32, u32_mod; lia). apply Checksum.fold_checksum_spec. unfold is_u32, u32_mod. lia.
Qed.
Definition pseudo (s d : Ipv4Addr) (n : nat) : Z := be_word s 0 + be_word s 2 + be_word d 0 + be_word d 2 + 6 + Z.of_nat n.
Lemma segment_checksum_spec s d seg : Checksum.bytes s -> Checksum.bytes d -> Checksum.bytes seg -> Z.of_nat (length seg) <= 100000 -> 0 <= pseudo s d (length seg) /\ compute_checksum s d seg = 65535 - Checksum.oc (pseudo s d (length seg) + Checksum.words seg).
Proof.
  intros Hs Hd Hb Hl. pose proof (Checksum.be_word_range s 0 Hs). pose proof (Checksum.be_word_range s 2 Hs). pose proof (Checksum.be_word_range d 0 Hd). pose proof (Checksum.be_word_range d 2 Hd). unfold pseudo. split; [lia|].
  unfold compute_checksum. cbv zeta. assert (as_u32 (Z.of_nat (length seg)) = Z.of_nat (length seg)) as -> by (unfold as_u32; apply Z.mod_small; unfold u32_mod; lia). rewrite !Checksum.u32_add_add. rewrite u32_add_small by (unfold u32_mod; lia). rewrite sum_closed by (done || lia). do 3 f_equal. lia.
Qed.
Lemma segment_opens s d h opts data : Checksum.bytes s -> Checksum.bytes d -> hdr_ok h -> Checksum.bytes opts -> Checksum.bytes data -> header_len h = (20 + length opts)%nat -> Z.of_nat (length opts + length data) <= 90000 ->
  let segment c := header_bytes (set_sum c h) ++ opts ++ data in
  let c := compute_checksum s d (segment 0) in
  verify_checksum s d (segment c) = true /\ parse (segment c) = inl (set_sum c h) /\ drop (header_len h) (segment c) = data /\ take (length opts) (drop 20 (segment c)) = opts.
Proof.
  intros Hs Hd H Ho Hda Hl Hn segment c. assert (forall x, 0 <= x < 65536 -> hdr_ok (set_sum x h)) as Hok by (intros x Hx; split; (exact Hx || apply H)). assert (forall x, 0 <= x < 65536 -> Checksum.bytes (segment x)) as Hb by (intros x Hx; unfold segment; apply Forall_app; split; [by apply segment_header_bytes, Hok|by apply Forall_app]). assert (forall x, length (segment x) = 20 + length (opts ++ data))%nat as Ll by (intros x; unfold segment; by rewrite length_app, header_length).
  assert (0 <= c < 65536 /\ verify_checksum s d (segment c) = true) as [Hc Hv].
  { assert (forall x, segment x = take 16 (header_bytes h) ++ be16 x ++ be16 (urgent_ptr h) ++ opts ++ data) as Es by (intros x; unfold segment; by rewrite header_bytes_sum, <-!app_assoc).
    destruct (segment_checksum_spec s d (segment 0) Hs Hd (Hb 0 ltac:(lia))) as [HP Ec]; [rewrite Ll, length_app; lia|]. destruct (field_closes (pseudo s d (length (segment 0))) (take 16 (header_bytes h)) (be16 (urgent_ptr h) ++ opts ++ data)) as [H1 H2]; [by exists 8%nat|by apply Forall_take, segment_header_bytes|apply Forall_app; split; [apply be16_bytes|by apply Forall_app]|done|].
    change [0; 0] with (be16 0) in H1, H2. rewrite <-(Es 0) in H1, H2. rewrite <-Ec in H1, H2. fold c in H1, H2. split; [done|]. unfold verify_checksum. destruct (segment_checksum_spec s d (segment c) Hs Hd (Hb c H1)) as [_ ->]; [rewrite Ll, length_app; lia|]. rewrite Ll, <-(Ll 0). rewrite (Es c), H2. done. }
  split; [done|]. split; [apply parse_header_bytes; [by apply Hok|change (header_len (set_sum c h)) with (header_len h); rewrite Hl, length_app; lia]|]. unfold segment. split; [rewrite Hl, app_assoc; apply drop_app_length'; by rewrite length_app, header_length|]. rewrite drop_app_length' by done. by apply take_app_length.
Qed.
(** A segment with its checksum filled in verifies at the receiver under the same
    addresses, and parses back into the same header, options and data. *)
Theorem segment_roundtrip s d h opts data : Checksum.bytes s -> Checksum.bytes d -> hdr_ok h -> Checksum.bytes opts -> Checksum.bytes data -> header_len h = (20 + length opts)%nat -> Z.of_nat (length opts + length data) <= 90000 ->
  let segment c := header_bytes (set_sum c h) ++ opts ++ data in
  let c := compute_checksum s d (segment 0) in
  verify_checksum s d (segment c) = true /\ parse (segment c) = inl (set_sum c h) /\ drop (header_len h) (segment c) = data /\ take (length opts) (drop 20 (segment c)) = opts.
Proof. apply segment_opens. Qed.

(** ** The scoreboard *)
Definition block_ok (b : SackBlock) : Prop := 0 <= b_start b <= b_end b /\ b_end b < u32_mod.
Definition holds (l : list SackBlock) (x : Z) : Prop := exists b, b ∈ l /\ b_start b <= x < b_end b.
Lemma contains_spec b x : block_ok b -> contains b x = true <-> b_start b <= x < b_end b.
Proof. intros [[H0 H1] H2]. unfold contains. rewrite (proj2 (Z.leb_le _ _)) by done. rewrite andb_true_iff, Z.leb_le, Z.ltb_lt. done. Qed.
Lemma holds_cons b l x : holds (b :: l) x <-> b_start b <= x < b_end b \/ holds l x.
Proof. unfold holds. split; [intros (c & [->|Hc]%elem_of_cons & Hx); [by left|right; by exists c]|intros [Hx|(c & Hc & Hx)]; [exists b|exists c]; split; try done; apply elem_of_cons; [by left|by right]]. Qed.
Lemma holds_nil x : holds [] x <-> False.
Proof. split; [|done]. intros (b & Hb & _). by apply not_elem_of_nil in Hb. Qed.
Lemma holds_app l k x : holds (l ++ k) x <-> holds l x \/ holds k x.
Proof. unfold holds. setoid_rewrite elem_of_app. naive_solver. Qed.
Lemma holds_perm l k x : l ≡ₚ k -> holds l x <-> holds k x.
Proof. intros Hp. unfold holds. by setoid_rewrite Hp. Qed.
Lemma merge_touch a b x : block_ok a -> block_ok b -> blocks_overlap_or_adjacent a b = true -> Z.min (b_start a) (b_start b) <= x < Z.max (b_end a) (b_end b) <-> b_start a <= x < b_end a \/ b_start b <= x < b_end b.
Proof.
  intros [Ha Ha'] [Hb Hb'] H. unfold blocks_overlap_or_adjacent in H. rewrite !orb_true_iff, !andb_true_iff, !Z.leb_le, !Z.ltb_lt, !Z.eqb_eq in H.
  assert (u32_sub (b_end a) (b_start b) = 0 -> b_end a = b_start b) by mlia. assert (u32_sub (b_end b) (b_start a) = 0 -> b_end b = b_start a) by mlia. lia.
Qed.
Lemma merge_first_spec b l l' : block_ok b -> Forall block_ok l -> merge_first b l = Some l' -> Forall block_ok l' /\ length l' = length l /\ forall x, holds l' x <-> holds l x \/ b_start b <= x < b_end b.
Proof.
  intros Hb. revert l'. induction l as [|a l IH]; intros l' Hl; cbn [merge_first]; [done|]. apply Forall_cons in Hl as [Ha Hl]. destruct (blocks_overlap_or_adjacent a b) eqn:E.
  - intros [= <-]. split; [apply Forall_cons; split; [|done]; destruct Ha, Hb; split; cbn [b_start b_end]; lia|]. split; [done|]. intros x. rewrite !holds_cons. cbn [b_start b_end]. rewrite (merge_touch a b x Ha Hb E). tauto.
  - destruct (merge_first b l) as [k|]; [|done]. intros [= <-]. destruct (IH k Hl eq_refl) as (H1 & H2 & H3). split; [by apply Forall_cons|]. split; [cbn; by rewrite H2|]. intros x. rewrite !holds_cons, H3. tauto.
Qed.
Definition by_start (a b : SackBlock) : Prop := b_start a <= b_start b.
Lemma insert_block_perm b l : insert_block b l ≡ₚ b :: l.
Proof. induction l as [|x l IH]; cbn [insert_block]; [done|]. destruct (b_start x <=? b_start b); [|done]. rewrite IH. apply Permutation_swap. Qed.
Lemma insert_block_sorted b l : StronglySorted by_start l -> StronglySorted by_start (insert_block b l).
Proof.
  induction l as [|x l IH]; intros Hs; cbn [insert_block]; [by repeat constructor|]. apply StronglySorted_cons in Hs as [Hx Hs]. destruct (Z.leb_spec (b_start x) (b_start b)).
  - constructor; [by apply IH|]. rewrite insert_block_perm. by constructor.
  - constructor; [by constructor|]. constructor; [unfold by_start; lia|]. eapply Forall_impl; [exact Hx|]. intros y Hy. unfold by_start in *. cbn in *. lia.
Qed.
Lemma sort_blocks_spec l : sort_blocks l ≡ₚ l /\ StronglySorted by_start (sort_blocks l).
Proof.
  unfold sort_blocks. assert (forall acc, StronglySorted by_start acc -> foldl (fun acc b => insert_block b acc) acc l ≡ₚ l ++ acc /\ StronglySorted by_start (foldl (fun acc b => insert_block b acc) acc l)) as H; [|specialize (H [] (SSorted_nil _)); by rewrite app_nil_r in H].
  induction l as [|b l IH]; intros acc Ha; cbn [foldl]; [done|]. destruct (IH (insert_block b acc) (insert_block_sorted b acc Ha)) as [H1 H2]. split; [|done]. rewrite H1, insert_block_perm. apply Permutation_sym, Permutation_middle.
Qed.
Record board_ok (s : SackScoreboard) : Prop := { bo_blocks : Forall block_ok (blocks s); bo_sorted : StronglySorted by_start (blocks s); bo_count : (length (blocks s) <= max_blocks s)%nat; bo_max : max_blocks s = 4%nat }.
Lemma board_new_ok : board_ok board_new.
Proof. split; [by constructor|by constructor|cbn; lia|done]. Qed.
(** Adding a block: nothing is claimed that was not, and nothing is lost while there is room. *)
Lemma add_block_spec b s : board_ok s -> block_ok b -> board_ok (add_block b s) /\ (forall x, holds (blocks (add_block b s)) x -> holds (blocks s) x \/ b_start b <= x < b_end b) /\
  ((length (blocks s) < 4)%nat -> (length (blocks (add_block b s)) <= S (length (blocks s)))%nat /\ forall x, holds (blocks s) x \/ b_start b <= x < b_end b -> holds (blocks (add_block b s)) x).
Proof.
  intros Hs Hb. set (l := match merge_first b (blocks s) with Some l => l | None => if (length (blocks s) <? max_blocks s)%nat then blocks s ++ [b] else drop 1 (blocks s) ++ [b] end). destruct (sort_blocks_spec l) as [Hp Hst]. change (blocks (add_block b s)) with (sort_blocks l).
  assert (Forall block_ok l /\ (length l <= 4)%nat /\ (forall x, holds l x -> holds (blocks s) x \/ b_start b <= x < b_end b) /\ ((length (blocks s) < 4)%nat -> (length l <= S (length (blocks s)))%nat /\ forall x, holds (blocks s) x \/ b_start b <= x < b_end b -> holds l x)) as (H1 & H2 & H3 & H4).
  { pose proof (bo_count _ Hs) as Hc. rewrite (bo_max _ Hs) in Hc. unfold l. destruct (merge_first b (blocks s)) as [k|] eqn:E.
    - destruct (merge_first_spec b (blocks s) k Hb (bo_blocks _ Hs) E) as (M1 & M2 & M3). split; [done|]. split; [lia|]. split; [intros x; apply M3|]. intros _. split; [lia|]. intros x; apply M3.
    - rewrite (bo_max _ Hs). assert (forall x, holds [b] x <-> b_start b <= x < b_end b) as H1 by (intros x; rewrite holds_cons, holds_nil; tauto). destruct (Nat.ltb_spec (length (blocks s)) 4).
      + split; [apply Forall_app; split; [apply Hs|by apply Forall_singleton]|]. split; [rewrite length_app; cbn; lia|]. split; [intros x; rewrite holds_app, H1; tauto|]. intros _. split; [rewrite length_app; cbn; lia|]. intros x; rewrite holds_app, H1; tauto.
      + split; [apply Forall_app; split; [apply Forall_drop, Hs|by apply Forall_singleton]|]. split; [rewrite length_app, length_drop; cbn; lia|]. split; [|lia]. intros x. rewrite holds_app, H1. intros [(c & Hc' & Hx)|?]; [left|by right]. exists c. split; [|done]. apply list_elem_of_lookup in Hc' as [i Hi]. rewrite lookup_drop in Hi. by eapply list_elem_of_lookup_2. }
  split; [split; change (blocks (add_block b s)) with (sort_blocks l); change (max_blocks (add_block b s)) with (max_blocks s); [by rewrite Hp|done|rewrite (bo_max _ Hs), Hp; done|apply Hs]|]. split; [intros x; rewrite (holds_perm _ _ x Hp); apply H3|]. intros Hlt. destruct (H4 Hlt) as [H5 H6]. split; [by rewrite Hp|]. intros x Hx. rewrite (holds_perm _ _ x Hp). by apply H6.
Qed.
Lemma gaps_from_spec l c n x : StronglySorted by_start l -> (exists g, g ∈ gaps_from c n l /\ b_start g <= x < b_end g) -> c <= x.
Proof.
  revert c. induction l as [|b l IH]; intros c Hs; cbn [gaps_from].
  - destruct (Z.ltb_spec c n); intros (g & Hg & Hx); [apply list_elem_of_singleton in Hg; subst g; cbn in Hx; lia|by apply not_elem_of_nil in Hg].
  - intros (g & Hg & Hx). apply StronglySorted_cons in Hs as [_ Hs]. apply elem_of_app in Hg as [Hg|Hg].
    + destruct (Z.ltb_spec c (b_start b)); [apply list_elem_of_singleton in Hg; subst g; cbn in Hx; lia|by apply not_elem_of_nil in Hg].
    + enough (Z.max c (b_end b) <= x) by lia. apply (IH _ Hs). by exists g.
Qed.
Lemma gaps_from_exact l c n x : StronglySorted by_start l -> c <= x < n -> holds (gaps_from c n l) x <-> ~ holds l x.
Proof.
  revert c. induction l as [|b l IH]; intros c Hs Hx; cbn [gaps_from].
  - rewrite (proj2 (Z.ltb_lt c n)) by lia. rewrite holds_cons, holds_nil. cbn [b_start b_end]. tauto.
  - pose proof Hs as Hs'. apply StronglySorted_cons in Hs' as [Hb Hs']. rewrite holds_app, holds_cons. assert (holds (if c <? b_start b then [mkBlock c (b_start b)] else []) x <-> x < b_start b) as ->.
    { destruct (Z.ltb_spec c (b_start b)); [rewrite holds_cons, holds_nil; cbn [b_start b_end]; lia|rewrite holds_nil; lia]. }
    destruct (decide (x < b_start b)) as [H1|H1].
    + split; [|tauto]. intros _ [?|(d & Hd & Hx')]; [lia|]. rewrite Forall_forall in Hb. specialize (Hb d Hd). unfold by_start in Hb. lia.
    + destruct (decide (x < Z.max c (b_end b))) as [H2|H2].
      * split; [intros [?|Hg]; [lia|]; apply (gaps_from_spec l _ n x Hs') in Hg; lia|]. intros H. exfalso. apply H. left. lia.
      * rewrite (IH (Z.max c (b_end b)) Hs') by lia. assert (~ b_start b <= x < b_end b) by lia. tauto.
Qed.
(** C37: The scoreboard is sound where sequence numbers do not wrap around.  Take any
    blocks a peer has sent whose start is at most their end, and a byte x of a
    window with snd_una <= x < snd_nxt as numbers below 2^32.  If no block holds
    x, some gap that [get_gaps] reports does, so no missing byte is skipped; and
    as long as at most four blocks have come, a byte in a gap is in no block.
    Blocks and windows that cross 2^32 are left out: there [get_gaps] compares
    the numbers without wrapping and misses bytes (example
    [wrapped_window_skipped]), though [SackBlock] itself allows for wrapping.
    Nothing is said of gaps behind snd_nxt. *)
Theorem sack_gaps_exact bs snd_una snd_nxt x : Forall block_ok bs -> snd_una <= x < snd_nxt ->
  let board := foldl (fun s b => add_block b s) board_new bs in
  (~ holds bs x -> holds (get_gaps snd_una snd_nxt board) x) /\ ((length bs <= 4)%nat -> holds (get_gaps snd_una snd_nxt board) x -> ~ holds bs x).
Proof.
  intros Hbs Hx board. assert (forall l s, Forall block_ok l -> board_ok s -> let s' := foldl (fun s b => add_block b s) s l in board_ok s' /\ (holds (blocks s') x -> holds (blocks s) x \/ holds l x) /\ ((length (blocks s) + length l <= 4)%nat -> holds (blocks s) x \/ holds l x -> holds (blocks s') x)) as H.
  { clear. induction l as [|b l IH]; intros s Hl Hs; cbn [foldl]; cbv zeta; [rewrite holds_nil; tauto|]. apply Forall_cons in Hl as [Hb Hl]. destruct (add_block_spec b s Hs Hb) as (A1 & A2 & A3). destruct (IH (add_block b s) Hl A1) as (I1 & I2 & I3). split; [done|]. rewrite holds_cons. split; [intros H; apply I2 in H as [H|H]; [apply A2 in H|]; tauto|]. cbn [length]. intros Hn H. destruct (A3 ltac:(lia)) as [A4 A5]. apply I3; [lia|]. specialize (A5 x). tauto. }
  destruct (H bs board_new Hbs board_new_ok) as (B1 & B2 & B3). fold board in B1, B2, B3. cbn [blocks board_new] in B2, B3. rewrite holds_nil in B2, B3.
  assert (holds (get_gaps snd_una snd_nxt board) x <-> ~ holds (blocks board) x) as ->.
  { unfold get_gaps. destruct (Nat.eqb_spec (length (blocks board)) 0) as [E|E]; [|by apply gaps_from_exact; [apply B1|]]. apply nil_length_inv in E. rewrite E, holds_cons, !holds_nil. cbn [b_start b_end]. tauto. }
  split; [tauto|]. intros Hn H1 H2. apply H1, B3; [cbn; lia|tauto].
Qed.
Lemma sack_gaps_exact_witness : Forall block_ok [mkBlock 150 200; mkBlock 250 300] /\ (~ holds [mkBlock 150 200; mkBlock 250 300] 220 -> holds (get_gaps 100 350 (foldl (fun s b => add_block b s) board_new [mkBlock 150 200; mkBlock 250 300])) 220).
Proof. assert (Forall block_ok [mkBlock 150 200; mkBlock 250 300]) as H by (repeat (apply Forall_cons; split; [by split; [split|]|]); by apply Forall_nil). split; [exact H|]. apply (sack_gaps_exact [mkBlock 150 200; mkBlock 250 300] 100 350 220 H). lia. Defined.
(** Examples of the scoreboard's limits: with four blocks present the lowest one is forgotten, two blocks joined by a third are not merged and their bytes are counted twice, and gaps may reach past the window. *)
Example lowest_block_forgotten : blocks (foldl (fun s b => add_block b s) board_new [mkBlock 10 20; mkBlock 30 40; mkBlock 50 60; mkBlock 70 80; mkBlock 90 99]) = [mkBlock 30 40; mkBlock 50 60; mkBlock 70 80; mkBlock 90 99].
Proof. reflexivity. Qed.
Example joined_blocks_counted_twice : let s := foldl (fun s b => add_block b s) board_new [mkBlock 10 20; mkBlock 30 40; mkBlock 15 35] in blocks s = [mkBlock 10 35; mkBlock 30 40] /\ sacked_bytes s = 35.
Proof. by split. Qed.
Example gap_past_window : get_gaps 100 120 (add_block (mkBlock 150 200) board_new) = [mkBlock 100 150].
Proof. reflexivity. Qed.
(** A window that crosses 2^32: the bytes behind the block are missing and in no gap. *)
Example wrapped_window_skipped :
  let board := add_block (mkBlock (u32_mod - 50) (u32_mod - 20)) board_new in
  get_gaps (u32_mod - 100) 100 board = [mkBlock (u32_mod - 100) (u32_mod - 50)] /\ contains (mkBlock (u32_mod - 20) 100) 5 = true.
Proof. vm_compute. done. Qed.
(** ** SYN cookies *)
Lemma lor_add a b k : 0 <= k -> 0 <= b < 2 ^ k -> Z.lor (Z.shiftl a k) b = a * 2 ^ k + b.
Proof.
  intros Hk Hb. rewrite <-Z.shiftl_mul_pow2 by lia. rewrite <-Z.lxor_lor, <-Z.add_nocarry_lxor; [done|..].
  all: apply Z.bits_inj'; intros n Hn; rewrite Z.land_spec, Z.bits_0.
  all: destruct (decide (n < k)) as [?|?]; [by rewrite Z.shiftl_spec_low by lia|].
  all: rewrite <-(Z.mod_small b (2 ^ k)) by lia; rewrite Z.mod_pow2_bits_high by lia; apply andb_false_r.
Qed.
Lemma cookie_fields p m h : 0 <= p < 32 -> 0 <= m < 4 -> 0 <= h < 2 ^ 24 -> let c := Z.lor (Z.lor (Z.shiftl p 27) (Z.shiftl m 25)) h in
  is_u32 c /\ Z.land (Z.shiftr c 27) 31 = p /\ Z.land (Z.shiftr c 25) 3 = m /\ Z.land c 0xFFFFFF = h.
Proof.
  intros Hp Hm Hh c. assert (c = p * 2 ^ 27 + m * 2 ^ 25 + h) as Ec.
  { unfold c. rewrite !Z.shiftl_mul_pow2 by lia. change (2 ^ 24) with 16777216 in Hh. replace (p * 2 ^ 27) with (Z.shiftl p 27) by (by rewrite Z.shiftl_mul_pow2). rewrite lor_add by (change (2 ^ 25) with 33554432; change (2 ^ 27) with 134217728; lia). replace (p * 2 ^ 27 + m * 2 ^ 25) with (Z.shiftl (p * 4 + m) 25); [rewrite lor_add by (change (2 ^ 25) with 33554432; lia)|]; rewrite ?Z.shiftl_mul_pow2 by lia; change (2 ^ 25) with 33554432; change (2 ^ 27) with 134217728; ring. }
  rewrite Ec. rewrite !Z.shiftr_div_pow2 by lia. change 31 with (Z.ones 5). change 3 with (Z.ones 2). change 0xFFFFFF with (Z.ones 24). rewrite !Z.land_ones by lia. change (2 ^ 27) with 134217728. change (2 ^ 25) with 33554432. change (2 ^ 24) with 16777216 in *. change (2 ^ 5) with 32. change (2 ^ 2) with 4. split; [unfold is_u32, u32_mod; lia|]. split_and!; Z.div_mod_to_equations; lia.
Qed.
Lemma cookie_period_spec ticks : is_u64 ticks -> cookie_period ticks = (ticks / 64000) mod 32.
Proof. intros Ht. unfold cookie_period, as_u32. change 31 with (Z.ones 5). rewrite Z.land_ones by lia. change (2 ^ 5) with 32. unfold u32_mod. mlia. Qed.
Lemma encode_mss_range m : 0 <= encode_mss m < 4.
Proof. unfold encode_mss, MSS_TABLE. cbn [encode_from]. repeat (destruct (_ <=? _); [lia|]). lia. Qed.
Lemma hash_range data : 0 <= Z.land (cookie_hash data) 0xFFFFFF < 2 ^ 24.
Proof. change 0xFFFFFF with (Z.ones 24). rewrite Z.land_ones by lia. apply Z.mod_pos_bound. lia. Qed.
(** The fields of a cookie with a valid hash decide: its period must be one of the last three. *)
Lemma validate_fields ticks secret p m si di sp dp st : is_u64 ticks -> 0 <= p < 32 -> 0 <= m < 4 ->
  (validate_syn_cookie ticks secret (Z.lor (Z.lor (Z.shiftl p 27) (Z.shiftl m 25)) (Z.land (cookie_hash (cookie_data secret si di sp dp)) 0x00FFFFFF)) si di sp dp st).1 =
    if (ticks / 64000 - p) mod 32 <=? 2 then Some (decode_mss m) else None.
Proof.
  intros Ht Hp Hm. unfold validate_syn_cookie. destruct (cookie_fields p m _ Hp Hm (hash_range (cookie_data secret si di sp dp))) as (_ & E1 & E2 & E3). rewrite E1, E2, E3. cbv zeta. rewrite cookie_period_spec by done.
  assert (Z.land (u32_sub ((ticks / 64000) mod 32) p) 31 = (ticks / 64000 - p) mod 32) as ->.
  { change 31 with (Z.ones 5). rewrite Z.land_ones by lia. change (2 ^ 5) with 32. unfold u32_sub, u32_mod. Z.div_mod_to_equations. lia. }
  rewrite Z.eqb_refl. destruct (Z.ltb_spec 2 ((ticks / 64000 - p) mod 32)), (Z.leb_spec ((ticks / 64000 - p) mod 32) 2); try lia; done.
Qed.
(** A SYN cookie needs no state: within two periods of 64 seconds after it was made (and again after each wrap of
    the five-bit clock) the acknowledgement that returns it is accepted for the same
    addresses and ports, and tells the class of the segment size the client offered. *)
Theorem syn_cookie_exact ticks0 ticks1 secret si di sp dp m st st' : is_u64 ticks0 -> is_u64 ticks1 ->
  let c := (generate_syn_cookie ticks0 secret si di sp dp m st).1 in
  is_u32 c /\ (validate_syn_cookie ticks1 secret c si di sp dp st').1 = if (ticks1 / 64000 - ticks0 / 64000) mod 32 <=? 2 then Some (decode_mss (encode_mss m)) else None.
Proof.
  intros H0 H1 c. unfold c, generate_syn_cookie. cbn [fst]. assert (0 <= cookie_period ticks0 < 32) as Hp by (rewrite cookie_period_spec by done; apply Z.mod_pos_bound; lia). split; [by apply cookie_fields; [|apply encode_mss_range|apply hash_range]|].
  rewrite validate_fields by (done || apply encode_mss_range). rewrite (cookie_period_spec ticks0) by done. rewrite Zminus_mod_idemp_r. done.
Qed.
Lemma syn_cookie_exact_witness : (validate_syn_cookie 130000 (replicate 32 7) (generate_syn_cookie 64000 (replicate 32 7) 1 2 3 4 1460 stats_new).1 1 2 3 4 stats_new).1 = Some 1460.
Proof. apply (syn_cookie_exact 64000 130000 (replicate 32 7) 1 2 3 4 1460 stats_new stats_new); by split. Defined.
(** The period and the size class are not part of the hash: whoever has seen one cookie can make a fresh one of any class. *)
Lemma cookie_renewed ticks secret si di sp dp j st : is_u64 ticks -> 0 <= j < 4 -> (validate_syn_cookie ticks secret (Z.lor (Z.lor (Z.shiftl ((ticks / 64000) mod 32) 27) (Z.shiftl j 25)) (Z.land (cookie_hash (cookie_data secret si di sp dp)) 0x00FFFFFF)) si di sp dp st).1 = Some (decode_mss j).
Proof. intros Ht Hj. rewrite validate_fields by (done || (apply Z.mod_pos_bound; lia)). by rewrite Zminus_mod_idemp_r, Z.sub_diag. Qed.
(** The size class is rounded up: a client with segments of 1000 bytes is sent 1280. *)
Lemma cookie_mss_rounds_up m : m <= 1460 -> m <= decode_mss (encode_mss m).
Proof. intros Hm. unfold encode_mss, MSS_TABLE. cbn [encode_from]. destruct (Z.leb_spec m 536); [exact H|]. destruct (Z.leb_spec m 1280); [done|]. destruct (Z.leb_spec m 1440); [done|]. by rewrite (proj2 (Z.leb_le _ _) Hm). Qed.
Example cookie_mss_too_large : decode_mss (encode_mss 1000) = 1280.
Proof. reflexivity. Qed.
(** ** Options *)
Lemma get_app_r (l k : bytes) i : get (l ++ k) (length l + i) = get k i.
Proof. unfold get, Checksum.get. rewrite lookup_app_r by lia. do 2 f_equal. lia. Qed.
Lemma option_step f (pre : bytes) kind body rest o : kind <> 0 -> kind <> 1 -> let opt := kind :: Z.of_nat (2 + length body) :: body in
  parse_loop (S f) (length pre) (pre ++ opt ++ rest) o = parse_loop f (length (pre ++ opt)) ((pre ++ opt) ++ rest) (parse_option kind opt o).
Proof.
  intros H0 H1 opt. cbn [parse_loop]. assert (length (pre ++ opt ++ rest) = length pre + (2 + length body) + length rest)%nat as El by (rewrite !length_app; cbn; lia). rewrite El. rewrite (proj2 (Nat.leb_gt _ _)) by lia.
  pose proof (get_app_r pre (opt ++ rest) 0) as E0. rewrite Nat.add_0_r in E0. pose proof (get_app_r pre (opt ++ rest) 1) as E1. rewrite Nat.add_1_r in E1. rewrite E0, E1. change (get (opt ++ rest) 0) with kind. change (get (opt ++ rest) 1) with (Z.of_nat (2 + length body)). unfold TCPOPT_EOL, TCPOPT_NOP. rewrite !(proj2 (Z.eqb_neq _ _)) by done. rewrite (proj2 (Nat.leb_gt _ _)) by lia. rewrite Nat2Z.id. rewrite (proj2 (Nat.ltb_ge _ _)) by lia. rewrite (proj2 (Nat.ltb_ge _ _)) by lia. cbn [orb].
  rewrite drop_app_length, take_app_length' by done. rewrite <-app_assoc. f_equal. rewrite length_app. done.
Qed.
Lemma nop_steps f (pre : bytes) k o : parse_loop f (length pre) (pre ++ replicate k TCPOPT_NOP) o = o.
Proof.
  revert pre k. induction f as [|f IH]; intros pre k; cbn [parse_loop]; [done|]. destruct k as [|k]; [rewrite app_nil_r, (proj2 (Nat.leb_le _ _)) by done; done|]. destruct (_ <=? _)%nat; [done|]. pose proof (get_app_r pre (replicate (S k) TCPOPT_NOP) 0) as E0. rewrite Nat.add_0_r in E0. rewrite E0. change (get (replicate (S k) TCPOPT_NOP) 0) with TCPOPT_NOP. cbn [Z.eqb TCPOPT_NOP TCPOPT_EOL Pos.eqb].
  specialize (IH (pre ++ [TCPOPT_NOP]) k). rewrite length_app, Nat.add_1_r, <-app_assoc in IH. exact IH.
Qed.
(** Options as pairs of a kind and its data. *)
Definition render (x : Z * bytes) : bytes := x.1 :: Z.of_nat (2 + length x.2) :: x.2.
Lemma parse_rendered l : Forall (fun x => x.1 <> 0 /\ x.1 <> 1) l -> forall fuel (pre : bytes) n o, (length l <= fuel)%nat ->
  parse_loop fuel (length pre) (pre ++ concat (render <$> l) ++ replicate n TCPOPT_NOP) o = foldl (fun o x => parse_option x.1 (render x) o) o l.
Proof.
  induction l as [|[k b] l IH]; intros Hl fuel pre n o Hf; cbn [fmap list_fmap concat foldl app]; [apply nop_steps|]. apply Forall_cons in Hl as [[H0 H1] Hl]. destruct fuel as [|fuel]; [cbn in Hf; lia|]. rewrite <-(app_assoc (render (k, b))).
  pose proof (option_step fuel pre k b (concat (render <$> l) ++ replicate n TCPOPT_NOP) o H0 H1) as E. cbv zeta in E. change (k :: Z.of_nat (2 + length b) :: b) with (render (k, b)) in E. rewrite E. rewrite IH by (done || (cbn in Hf; lia)). reflexivity.
Qed.
(** The options of a SYN parse back. *)
Lemma syn_options_parse counter m ws sack hdr : length hdr = 20%nat -> 0 <= m < 65536 ->
  let '(opts, t) := build_syn_options counter m ws sack in
  parse_options (hdr ++ opts) (20 + length opts) = mkOptions (Some m) (Some (Z.min ws 14)) sack [] (Some (mkTs t 0)) None.
Proof.
  intros Hh Hm. unfold build_syn_options. set (t := next_tcp_timestamp counter). assert (is_u32 t) as Ht by apply u32_add_range. unfold parse_options. rewrite (proj2 (Nat.leb_gt _ _)) by (unfold pad4; rewrite !length_app; cbn; lia). rewrite drop_app_length' by done. rewrite Nat.add_comm, Nat.add_sub, firstn_all.
  unfold pad4. set (n := ((4 - _) mod 4)%nat). set (l := [(2, be16 m); (3, [scale_new ws])] ++ (if sack then [(4, [])] else []) ++ [(8, be32 t ++ be32 0)]).
  assert ([TCPOPT_MSS; 4] ++ be16 m ++ scale_bytes (scale_new ws) ++ (if sack then sack_permitted_bytes else []) ++ ts_bytes (mkTs t 0) = concat (render <$> l)) as -> by (unfold l; destruct sack; reflexivity).
  pose proof (parse_rendered l) as H. specialize (H ltac:(unfold l; destruct sack; repeat (apply Forall_cons; split; [done|]); by apply Forall_nil)). specialize (H (length (concat (render <$> l) ++ replicate n TCPOPT_NOP)) [] n options_default). cbn [app length] in H. rewrite H by (unfold l; destruct sack; cbn; lia).
  assert (be_word (render (2, be16 m)) 2 = m) as E1 by (exact (be16_word m Hm)). assert (ts_parse (render (8, be32 t ++ be32 0)) = Some (mkTs t 0)) as E2 by (rewrite <-(be32_word t Ht) at 2; reflexivity). assert (scale_parse (render (3, [scale_new ws])) = Some (Z.min ws 14)) as E3 by reflexivity.
  unfold l. destruct sack; cbn [app foldl fst]; unfold parse_option; cbn [Z.eqb Pos.eqb TCPOPT_MSS TCPOPT_WINDOW_SCALE TCPOPT_SACK_PERMITTED TCPOPT_SACK TCPOPT_TIMESTAMP]; rewrite E1, E2, E3; reflexivity.
Qed.
(** A header written into a fresh buffer has zeros for options: parsing them finds nothing. *)
Lemma options_lost h buf : serialize h (replicate (header_len h) 0) = inl buf -> parse_options buf (header_len h) = options_default.
Proof.
  unfold serialize, MIN_SIZE. destruct (Nat.ltb_spec (length (replicate (header_len h) 0)) 20) as [|Hl]; [done|]. rewrite length_replicate in Hl. intros [= <-]. unfold parse_options. destruct (Nat.leb_spec (header_len h) 20) as [|Hgt]; [done|].
  unfold blit. rewrite take_0. cbn [app Nat.add]. rewrite drop_app_length' by done. rewrite header_length, drop_replicate, take_ge by (rewrite length_replicate; lia). rewrite length_replicate. destruct (header_len h - 20)%nat as [|k] eqn:E; [lia|]. reflexivity.
Qed.
Definition sample_header : TcpHeader := mkHdr 80 1234 7 9 5 flags_ack 65535 0 0.
Lemma segment_roundtrip_witness : let seg c := header_bytes (set_sum c sample_header) ++ [] ++ [1; 2; 3] in
  verify_checksum [10; 0; 0; 1] [10; 0; 0; 2] (seg (compute_checksum [10; 0; 0; 1] [10; 0; 0; 2] (seg 0))) = true.
Proof.
  apply (segment_roundtrip [10; 0; 0; 1] [10; 0; 0; 2] sample_header [] [1; 2; 3]); [by repeat constructor|by repeat constructor|by split|by constructor|by repeat constructor|done|cbn; lia].
Defined.
End TcpWire.
