(* ===== verification/Tcp.v ===== *)
(** * TCP connections

    Models the connections of [src/src/net/tcp.rs] and the tables that hold them: the state
    machine, sending with Nagle's algorithm, receiving, the retransmission, keep-alive and SYN
    timers, demultiplexing of packets, listeners with accept queues, SYN cookies, and the periodic tick.

    A call on a connection is a computation that may fail and keeps the changes made
    before it failed, as [?] does; packets sent, counters and metrics are a list of effects.
    The clock, random numbers, our addresses and the link are arguments.  Congestion control is
    the class [CongestionControl] (the algorithms but Reno use floating point); Reno is an instance.
    Fields that no operation reads or writes are left out.

    [tcp_stream]: over a link that keeps order, what one side reads is a prefix of what the
    other has written, whatever else happens, and nothing is missing while the receiver is established.
    [connect_gives_up]: without an answer a connection attempt ends after three more SYNs.
    [accept_once]: [accept_step] splits [accept] at the locks it takes ([accept_uninterrupted]: alone it does what
    [tcp_accept] does); calls on one listener that do not overlap never return a connection
    twice, whatever happens in between; overlapping ones can ([accepted_twice]).
    The examples show what the acknowledgement numbers of the code lead to. *)
From S2P Require Import Prelude Checksum Ipv4 TcpWire.

Module Tcp.
Import Ipv4 TcpWire.

(** ** Addresses *)
Inductive IpAddr := V4 (a : Ipv4Addr) | V6 (a : Ipv6Addr).
#[export] Instance IpAddr_eq_dec : EqDecision IpAddr.
Proof. solve_decision. Defined.
Record SocketAddr := mkAddr { ip : IpAddr; port : Z }.
#[export] Instance SocketAddr_eq_dec : EqDecision SocketAddr.
Proof. solve_decision. Defined.
Inductive AddressFamily := UNSPEC | IPV4 | IPV6 | PACKET.
#[export] Instance AddressFamily_eq_dec : EqDecision AddressFamily.
Proof. solve_decision. Defined.
Definition family_nat (f : AddressFamily) : nat := match f with UNSPEC => 0 | IPV4 => 2 | IPV6 => 10 | PACKET => 17 end.
Definition nat_family (n : nat) : option AddressFamily := match n with 0%nat => Some UNSPEC | 2%nat => Some IPV4 | 10%nat => Some IPV6 | 17%nat => Some PACKET | _ => None end.
#[export] Instance AddressFamily_countable : Countable AddressFamily.
Proof. apply (inj_countable family_nat nat_family). by intros []. Defined.
Definition UNSPECIFIED6 : Ipv6Addr := replicate 16 0.
Definition addr_default : SocketAddr := mkAddr (V4 UNSPECIFIED) 0.
Definition unspecified_v6 (p : Z) : SocketAddr := mkAddr (V6 UNSPECIFIED6) p.

(** ** Congestion control *)
Class CongestionControl := {
  cc : Type;
  cc_new : cc;
  cc_cwnd : cc -> Z;
  cc_ssthresh : cc -> Z;
  cc_on_ack : Z -> Z -> Z -> cc -> cc;
  cc_on_loss : Z -> cc -> cc;
  cc_on_timeout : Z -> cc -> cc }.
Record RenoState := mkReno { r_cwnd : Z; r_ssthresh : Z; r_rtt : Z; r_rtt_var : Z; r_rto : Z }.
Definition reno_default : RenoState := mkReno (1460 * 10) (1460 * 100) 1000 500 1000.
Definition reno_on_ack (acked : Z) (r : RenoState) : RenoState :=
  let grow := if r_cwnd r <? r_ssthresh r then acked else u32_mul 1460 acked / r_cwnd r in
  mkReno (u32_add (r_cwnd r) grow) (r_ssthresh r) (r_rtt r) (r_rtt_var r) (r_rto r).
Definition reno_on_loss (r : RenoState) : RenoState := mkReno (r_cwnd r / 2) (r_cwnd r / 2) (r_rtt r) (r_rtt_var r) (r_rto r).
Definition reno_on_timeout (r : RenoState) : RenoState := mkReno 1460 (r_cwnd r / 2) (r_rtt r) (r_rtt_var r) (r_rto r).
#[export] Instance Reno : CongestionControl := {| cc := RenoState; cc_new := reno_default; cc_cwnd := r_cwnd; cc_ssthresh := r_ssthresh; cc_on_ack := fun acked _ _ => reno_on_ack acked; cc_on_loss := fun _ => reno_on_loss; cc_on_timeout := fun _ => reno_on_timeout |}.

Definition TIME_WAIT_DURATION : Z := 120.
Definition NAGLE_DELAY_TICKS : Z := 20.
Definition SYN_TIMEOUT_TICKS : Z := 100.
Definition SYN_MAX_RETRANSMIT : Z := 3.
Definition SYN_BACKLOG_MAX : nat := 128.
Inductive TcpState := Closed | Listen | SynSent | SynReceived | Established | FinWait1 | FinWait2 | CloseWait | Closing | LastAck | TimeWait.
#[export] Instance TcpState_eq_dec : EqDecision TcpState.
Proof. solve_decision. Defined.
Abbreviation in_state s c := (bool_decide (s = c)).

Section Connection.
Context {CC : CongestionControl}.
(** The connection, one field per field of the struct that is used, and its updates. *)
Record TcpConnection := mkConn { cid : Z; family : AddressFamily; local : SocketAddr; remote : SocketAddr; state : TcpState; seqn : Z; ackn : Z; window : Z; rx_buffer : bytes; tx_buffer : bytes; listen_backlog : Z; cwnd : Z; ssthresh : Z; rtt : Z; rtt_var : Z; rto : Z; retransmit_count : Z; peer_ws_scale : Z; sack_ok : bool; fast_retx : FastRetransmitState; snd_una : Z; snd_nxt : Z; ccs : cc; time_wait_start : Z; last_send_time : Z; keepalive_enabled : bool; keepalive_idle : Z; keepalive_intvl : Z; keepalive_probes : Z; keepalive_last_ping : Z; keepalive_probe_count : Z; nagle_enabled : bool; nagle_buffer : bytes; nagle_last_send : Z; cmss : Z; syn_retransmit_count : Z; syn_first_send_time : Z }.
Definition set_local (x : SocketAddr) (c : TcpConnection) : TcpConnection := mkConn (cid c) (family c) x (remote c) (state c) (seqn c) (ackn c) (window c) (rx_buffer c) (tx_buffer c) (listen_backlog c) (cwnd c) (ssthresh c) (rtt c) (rtt_var c) (rto c) (retransmit_count c) (peer_ws_scale c) (sack_ok c) (fast_retx c) (snd_una c) (snd_nxt c) (ccs c) (time_wait_start c) (last_send_time c) (keepalive_enabled c) (keepalive_idle c) (keepalive_intvl c) (keepalive_probes c) (keepalive_last_ping c) (keepalive_probe_count c) (nagle_enabled c) (nagle_buffer c) (nagle_last_send c) (cmss c) (syn_retransmit_count c) (syn_first_send_time c).
Definition set_remote (x : SocketAddr) (c : TcpConnection) : TcpConnection := mkConn (cid c) (family c) (local c) x (state c) (seqn c) (ackn c) (window c) (rx_buffer c) (tx_buffer c) (listen_backlog c) (cwnd c) (ssthresh c) (rtt c) (rtt_var c) (rto c) (retransmit_count c) (peer_ws_scale c) (sack_ok c) (fast_retx c) (snd_una c) (snd_nxt c) (ccs c) (time_wait_start c) (last_send_time c) (keepalive_enabled c) (keepalive_idle c) (keepalive_intvl c) (keepalive_probes c) (keepalive_last_ping c) (keepalive_probe_count c) (nagle_enabled c) (nagle_buffer c) (nagle_last_send c) (cmss c) (syn_retransmit_count c) (syn_first_send_time c).
Definition set_state (x : TcpState) (c : TcpConnection) : TcpConnection := mkConn (cid c) (family c) (local c) (remote c) x (seqn c) (ackn c) (window c) (rx_buffer c) (tx_buffer c) (listen_backlog c) (cwnd c) (ssthresh c) (rtt c) (rtt_var c) (rto c) (retransmit_count c) (peer_ws_scale c) (sack_ok c) (fast_retx c) (snd_una c) (snd_nxt c) (ccs c) (time_wait_start c) (last_send_time c) (keepalive_enabled c) (keepalive_idle c) (keepalive_intvl c) (keepalive_probes c) (keepalive_last_ping c) (keepalive_probe_count c) (nagle_enabled c) (nagle_buffer c) (nagle_last_send c) (cmss c) (syn_retransmit_count c) (syn_first_send_time c).
Definition set_seqn (x : Z) (c : TcpConnection) : TcpConnection := mkConn (cid c) (family c) (local c) (remote c) (state c) x (ackn c) (window c) (rx_buffer c) (tx_buffer c) (listen_backlog c) (cwnd c) (ssthresh c) (rtt c) (rtt_var c) (rto c) (retransmit_count c) (peer_ws_scale c) (sack_ok c) (fast_retx c) (snd_una c) (snd_nxt c) (ccs c) (time_wait_start c) (last_send_time c) (keepalive_enabled c) (keepalive_idle c) (keepalive_intvl c) (keepalive_probes c) (keepalive_last_ping c) (keepalive_probe_count c) (nagle_enabled c) (nagle_buffer c) (nagle_last_send c) (cmss c) (syn_retransmit_count c) (syn_first_send_time c).
Definition set_ackn (x : Z) (c : TcpConnection) : TcpConnection := mkConn (cid c) (family c) (local c) (remote c) (state c) (seqn c) x (window c) (rx_buffer c) (tx_buffer c) (listen_backlog c) (cwnd c) (ssthresh c) (rtt c) (rtt_var c) (rto c) (retransmit_count c) (peer_ws_scale c) (sack_ok c) (fast_retx c) (snd_una c) (snd_nxt c) (ccs c) (time_wait_start c) (last_send_time c) (keepalive_enabled c) (keepalive_idle c) (keepalive_intvl c) (keepalive_probes c) (keepalive_last_ping c) (keepalive_probe_count c) (nagle_enabled c) (nagle_buffer c) (nagle_last_send c) (cmss c) (syn_retransmit_count c) (syn_first_send_time c).
Definition set_window (x : Z) (c : TcpConnection) : TcpConnection := mkConn (cid c) (family c) (local c) (remote c) (state c) (seqn c) (ackn c) x (rx_buffer c) (tx_buffer c) (listen_backlog c) (cwnd c) (ssthresh c) (rtt c) (rtt_var c) (rto c) (retransmit_count c) (peer_ws_scale c) (sack_ok c) (fast_retx c) (snd_una c) (snd_nxt c) (ccs c) (time_wait_start c) (last_send_time c) (keepalive_enabled c) (keepalive_idle c) (keepalive_intvl c) (keepalive_probes c) (keepalive_last_ping c) (keepalive_probe_count c) (nagle_enabled c) (nagle_buffer c) (nagle_last_send c) (cmss c) (syn_retransmit_count c) (syn_first_send_time c).
Definition set_rx_buffer (x : bytes) (c : TcpConnection) : TcpConnection := mkConn (cid c) (family c) (local c) (remote c) (state c) (seqn c) (ackn c) (window c) x (tx_buffer c) (listen_backlog c) (cwnd c) (ssthresh c) (rtt c) (rtt_var c) (rto c) (retransmit_count c) (peer_ws_scale c) (sack_ok c) (fast_retx c) (snd_una c) (snd_nxt c) (ccs c) (time_wait_start c) (last_send_time c) (keepalive_enabled c) (keepalive_idle c) (keepalive_intvl c) (keepalive_probes c) (keepalive_last_ping c) (keepalive_probe_count c) (nagle_enabled c) (nagle_buffer c) (nagle_last_send c) (cmss c) (syn_retransmit_count c) (syn_first_send_time c).
Definition set_listen_backlog (x : Z) (c : TcpConnection) : TcpConnection := mkConn (cid c) (family c) (local c) (remote c) (state c) (seqn c) (ackn c) (window c) (rx_buffer c) (tx_buffer c) x (cwnd c) (ssthresh c) (rtt c) (rtt_var c) (rto c) (retransmit_count c) (peer_ws_scale c) (sack_ok c) (fast_retx c) (snd_una c) (snd_nxt c) (ccs c) (time_wait_start c) (last_send_time c) (keepalive_enabled c) (keepalive_idle c) (keepalive_intvl c) (keepalive_probes c) (keepalive_last_ping c) (keepalive_probe_count c) (nagle_enabled c) (nagle_buffer c) (nagle_last_send c) (cmss c) (syn_retransmit_count c) (syn_first_send_time c).
Definition set_cwnd (x : Z) (c : TcpConnection) : TcpConnection := mkConn (cid c) (family c) (local c) (remote c) (state c) (seqn c) (ackn c) (window c) (rx_buffer c) (tx_buffer c) (listen_backlog c) x (ssthresh c) (rtt c) (rtt_var c) (rto c) (retransmit_count c) (peer_ws_scale c) (sack_ok c) (fast_retx c) (snd_una c) (snd_nxt c) (ccs c) (time_wait_start c) (last_send_time c) (keepalive_enabled c) (keepalive_idle c) (keepalive_intvl c) (keepalive_probes c) (keepalive_last_ping c) (keepalive_probe_count c) (nagle_enabled c) (nagle_buffer c) (nagle_last_send c) (cmss c) (syn_retransmit_count c) (syn_first_send_time c).
Definition set_ssthresh (x : Z) (c : TcpConnection) : TcpConnection := mkConn (cid c) (family c) (local c) (remote c) (state c) (seqn c) (ackn c) (window c) (rx_buffer c) (tx_buffer c) (listen_backlog c) (cwnd c) x (rtt c) (rtt_var c) (rto c) (retransmit_count c) (peer_ws_scale c) (sack_ok c) (fast_retx c) (snd_una c) (snd_nxt c) (ccs c) (time_wait_start c) (last_send_time c) (keepalive_enabled c) (keepalive_idle c) (keepalive_intvl c) (keepalive_probes c) (keepalive_last_ping c) (keepalive_probe_count c) (nagle_enabled c) (nagle_buffer c) (nagle_last_send c) (cmss c) (syn_retransmit_count c) (syn_first_send_time c).
Definition set_rtt (x : Z) (c : TcpConnection) : TcpConnection := mkConn (cid c) (family c) (local c) (remote c) (state c) (seqn c) (ackn c) (window c) (rx_buffer c) (tx_buffer c) (listen_backlog c) (cwnd c) (ssthresh c) x (rtt_var c) (rto c) (retransmit_count c) (peer_ws_scale c) (sack_ok c) (fast_retx c) (snd_una c) (snd_nxt c) (ccs c) (time_wait_start c) (last_send_time c) (keepalive_enabled c) (keepalive_idle c) (keepalive_intvl c) (keepalive_probes c) (keepalive_last_ping c) (keepalive_probe_count c) (nagle_enabled c) (nagle_buffer c) (nagle_last_send c) (cmss c) (syn_retransmit_count c) (syn_first_send_time c).
Definition set_rtt_var (x : Z) (c : TcpConnection) : TcpConnection := mkConn (cid c) (family c) (local c) (remote c) (state c) (seqn c) (ackn c) (window c) (rx_buffer c) (tx_buffer c) (listen_backlog c) (cwnd c) (ssthresh c) (rtt c) x (rto c) (retransmit_count c) (peer_ws_scale c) (sack_ok c) (fast_retx c) (snd_una c) (snd_nxt c) (ccs c) (time_wait_start c) (last_send_time c) (keepalive_enabled c) (keepalive_idle c) (keepalive_intvl c) (keepalive_probes c) (keepalive_last_ping c) (keepalive_probe_count c) (nagle_enabled c) (nagle_buffer c) (nagle_last_send c) (cmss c) (syn_retransmit_count c) (syn_first_send_time c).
Definition set_rto (x : Z) (c : TcpConnection) : TcpConnection := mkConn (cid c) (family c) (local c) (remote c) (state c) (seqn c) (ackn c) (window c) (rx_buffer c) (tx_buffer c) (listen_backlog c) (cwnd c) (ssthresh c) (rtt c) (rtt_var c) x (retransmit_count c) (peer_ws_scale c) (sack_ok c) (fast_retx c) (snd_una c) (snd_nxt c) (ccs c) (time_wait_start c) (last_send_time c) (keepalive_enabled c) (keepalive_idle c) (keepalive_intvl c) (keepalive_probes c) (keepalive_last_ping c) (keepalive_probe_count c) (nagle_enabled c) (nagle_buffer c) (nagle_last_send c) (cmss c) (syn_retransmit_count c) (syn_first_send_time c).
Definition set_retransmit_count (x : Z) (c : TcpConnection) : TcpConnection := mkConn (cid c) (family c) (local c) (remote c) (state c) (seqn c) (ackn c) (window c) (rx_buffer c) (tx_buffer c) (listen_backlog c) (cwnd c) (ssthresh c) (rtt c) (rtt_var c) (rto c) x (peer_ws_scale c) (sack_ok c) (fast_retx c) (snd_una c) (snd_nxt c) (ccs c) (time_wait_start c) (last_send_time c) (keepalive_enabled c) (keepalive_idle c) (keepalive_intvl c) (keepalive_probes c) (keepalive_last_ping c) (keepalive_probe_count c) (nagle_enabled c) (nagle_buffer c) (nagle_last_send c) (cmss c) (syn_retransmit_count c) (syn_first_send_time c).
Definition set_peer_ws_scale (x : Z) (c : TcpConnection) : TcpConnection := mkConn (cid c) (family c) (local c) (remote c) (state c) (seqn c) (ackn c) (window c) (rx_buffer c) (tx_buffer c) (listen_backlog c) (cwnd c) (ssthresh c) (rtt c) (rtt_var c) (rto c) (retransmit_count c) x (sack_ok c) (fast_retx c) (snd_una c) (snd_nxt c) (ccs c) (time_wait_start c) (last_send_time c) (keepalive_enabled c) (keepalive_idle c) (keepalive_intvl c) (keepalive_probes c) (keepalive_last_ping c) (keepalive_probe_count c) (nagle_enabled c) (nagle_buffer c) (nagle_last_send c) (cmss c) (syn_retransmit_count c) (syn_first_send_time c).
Definition set_sack_ok (x : bool) (c : TcpConnection) : TcpConnection := mkConn (cid c) (family c) (local c) (remote c) (state c) (seqn c) (ackn c) (window c) (rx_buffer c) (tx_buffer c) (listen_backlog c) (cwnd c) (ssthresh c) (rtt c) (rtt_var c) (rto c) (retransmit_count c) (peer_ws_scale c) x (fast_retx c) (snd_una c) (snd_nxt c) (ccs c) (time_wait_start c) (last_send_time c) (keepalive_enabled c) (keepalive_idle c) (keepalive_intvl c) (keepalive_probes c) (keepalive_last_ping c) (keepalive_probe_count c) (nagle_enabled c) (nagle_buffer c) (nagle_last_send c) (cmss c) (syn_retransmit_count c) (syn_first_send_time c).
Definition set_fast_retx (x : FastRetransmitState) (c : TcpConnection) : TcpConnection := mkConn (cid c) (family c) (local c) (remote c) (state c) (seqn c) (ackn c) (window c) (rx_buffer c) (tx_buffer c) (listen_backlog c) (cwnd c) (ssthresh c) (rtt c) (rtt_var c) (rto c) (retransmit_count c) (peer_ws_scale c) (sack_ok c) x (snd_una c) (snd_nxt c) (ccs c) (time_wait_start c) (last_send_time c) (keepalive_enabled c) (keepalive_idle c) (keepalive_intvl c) (keepalive_probes c) (keepalive_last_ping c) (keepalive_probe_count c) (nagle_enabled c) (nagle_buffer c) (nagle_last_send c) (cmss c) (syn_retransmit_count c) (syn_first_send_time c).
Definition set_snd_una (x : Z) (c : TcpConnection) : TcpConnection := mkConn (cid c) (family c) (local c) (remote c) (state c) (seqn c) (ackn c) (window c) (rx_buffer c) (tx_buffer c) (listen_backlog c) (cwnd c) (ssthresh c) (rtt c) (rtt_var c) (rto c) (retransmit_count c) (peer_ws_scale c) (sack_ok c) (fast_retx c) x (snd_nxt c) (ccs c) (time_wait_start c) (last_send_time c) (keepalive_enabled c) (keepalive_idle c) (keepalive_intvl c) (keepalive_probes c) (keepalive_last_ping c) (keepalive_probe_count c) (nagle_enabled c) (nagle_buffer c) (nagle_last_send c) (cmss c) (syn_retransmit_count c) (syn_first_send_time c).
Definition set_snd_nxt (x : Z) (c : TcpConnection) : TcpConnection := mkConn (cid c) (family c) (local c) (remote c) (state c) (seqn c) (ackn c) (window c) (rx_buffer c) (tx_buffer c) (listen_backlog c) (cwnd c) (ssthresh c) (rtt c) (rtt_var c) (rto c) (retransmit_count c) (peer_ws_scale c) (sack_ok c) (fast_retx c) (snd_una c) x (ccs c) (time_wait_start c) (last_send_time c) (keepalive_enabled c) (keepalive_idle c) (keepalive_intvl c) (keepalive_probes c) (keepalive_last_ping c) (keepalive_probe_count c) (nagle_enabled c) (nagle_buffer c) (nagle_last_send c) (cmss c) (syn_retransmit_count c) (syn_first_send_time c).
Definition set_ccs (x : cc) (c : TcpConnection) : TcpConnection := mkConn (cid c) (family c) (local c) (remote c) (state c) (seqn c) (ackn c) (window c) (rx_buffer c) (tx_buffer c) (listen_backlog c) (cwnd c) (ssthresh c) (rtt c) (rtt_var c) (rto c) (retransmit_count c) (peer_ws_scale c) (sack_ok c) (fast_retx c) (snd_una c) (snd_nxt c) x (time_wait_start c) (last_send_time c) (keepalive_enabled c) (keepalive_idle c) (keepalive_intvl c) (keepalive_probes c) (keepalive_last_ping c) (keepalive_probe_count c) (nagle_enabled c) (nagle_buffer c) (nagle_last_send c) (cmss c) (syn_retransmit_count c) (syn_first_send_time c).
Definition set_time_wait_start (x : Z) (c : TcpConnection) : TcpConnection := mkConn (cid c) (family c) (local c) (remote c) (state c) (seqn c) (ackn c) (window c) (rx_buffer c) (tx_buffer c) (listen_backlog c) (cwnd c) (ssthresh c) (rtt c) (rtt_var c) (rto c) (retransmit_count c) (peer_ws_scale c) (sack_ok c) (fast_retx c) (snd_una c) (snd_nxt c) (ccs c) x (last_send_time c) (keepalive_enabled c) (keepalive_idle c) (keepalive_intvl c) (keepalive_probes c) (keepalive_last_ping c) (keepalive_probe_count c) (nagle_enabled c) (nagle_buffer c) (nagle_last_send c) (cmss c) (syn_retransmit_count c) (syn_first_send_time c).
Definition set_last_send_time (x : Z) (c : TcpConnection) : TcpConnection := mkConn (cid c) (family c) (local c) (remote c) (state c) (seqn c) (ackn c) (window c) (rx_buffer c) (tx_buffer c) (listen_backlog c) (cwnd c) (ssthresh c) (rtt c) (rtt_var c) (rto c) (retransmit_count c) (peer_ws_scale c) (sack_ok c) (fast_retx c) (snd_una c) (snd_nxt c) (ccs c) (time_wait_start c) x (keepalive_enabled c) (keepalive_idle c) (keepalive_intvl c) (keepalive_probes c) (keepalive_last_ping c) (keepalive_probe_count c) (nagle_enabled c) (nagle_buffer c) (nagle_last_send c) (cmss c) (syn_retransmit_count c) (syn_first_send_time c).
Definition set_keepalive_last_ping (x : Z) (c : TcpConnection) : TcpConnection := mkConn (cid c) (family c) (local c) (remote c) (state c) (seqn c) (ackn c) (window c) (rx_buffer c) (tx_buffer c) (listen_backlog c) (cwnd c) (ssthresh c) (rtt c) (rtt_var c) (rto c) (retransmit_count c) (peer_ws_scale c) (sack_ok c) (fast_retx c) (snd_una c) (snd_nxt c) (ccs c) (time_wait_start c) (last_send_time c) (keepalive_enabled c) (keepalive_idle c) (keepalive_intvl c) (keepalive_probes c) x (keepalive_probe_count c) (nagle_enabled c) (nagle_buffer c) (nagle_last_send c) (cmss c) (syn_retransmit_count c) (syn_first_send_time c).
Definition set_keepalive_probe_count (x : Z) (c : TcpConnection) : TcpConnection := mkConn (cid c) (family c) (local c) (remote c) (state c) (seqn c) (ackn c) (window c) (rx_buffer c) (tx_buffer c) (listen_backlog c) (cwnd c) (ssthresh c) (rtt c) (rtt_var c) (rto c) (retransmit_count c) (peer_ws_scale c) (sack_ok c) (fast_retx c) (snd_una c) (snd_nxt c) (ccs c) (time_wait_start c) (last_send_time c) (keepalive_enabled c) (keepalive_idle c) (keepalive_intvl c) (keepalive_probes c) (keepalive_last_ping c) x (nagle_enabled c) (nagle_buffer c) (nagle_last_send c) (cmss c) (syn_retransmit_count c) (syn_first_send_time c).
Definition set_nagle_buffer (x : bytes) (c : TcpConnection) : TcpConnection := mkConn (cid c) (family c) (local c) (remote c) (state c) (seqn c) (ackn c) (window c) (rx_buffer c) (tx_buffer c) (listen_backlog c) (cwnd c) (ssthresh c) (rtt c) (rtt_var c) (rto c) (retransmit_count c) (peer_ws_scale c) (sack_ok c) (fast_retx c) (snd_una c) (snd_nxt c) (ccs c) (time_wait_start c) (last_send_time c) (keepalive_enabled c) (keepalive_idle c) (keepalive_intvl c) (keepalive_probes c) (keepalive_last_ping c) (keepalive_probe_count c) (nagle_enabled c) x (nagle_last_send c) (cmss c) (syn_retransmit_count c) (syn_first_send_time c).
Definition set_nagle_last_send (x : Z) (c : TcpConnection) : TcpConnection := mkConn (cid c) (family c) (local c) (remote c) (state c) (seqn c) (ackn c) (window c) (rx_buffer c) (tx_buffer c) (listen_backlog c) (cwnd c) (ssthresh c) (rtt c) (rtt_var c) (rto c) (retransmit_count c) (peer_ws_scale c) (sack_ok c) (fast_retx c) (snd_una c) (snd_nxt c) (ccs c) (time_wait_start c) (last_send_time c) (keepalive_enabled c) (keepalive_idle c) (keepalive_intvl c) (keepalive_probes c) (keepalive_last_ping c) (keepalive_probe_count c) (nagle_enabled c) (nagle_buffer c) x (cmss c) (syn_retransmit_count c) (syn_first_send_time c).
Definition set_cmss (x : Z) (c : TcpConnection) : TcpConnection := mkConn (cid c) (family c) (local c) (remote c) (state c) (seqn c) (ackn c) (window c) (rx_buffer c) (tx_buffer c) (listen_backlog c) (cwnd c) (ssthresh c) (rtt c) (rtt_var c) (rto c) (retransmit_count c) (peer_ws_scale c) (sack_ok c) (fast_retx c) (snd_una c) (snd_nxt c) (ccs c) (time_wait_start c) (last_send_time c) (keepalive_enabled c) (keepalive_idle c) (keepalive_intvl c) (keepalive_probes c) (keepalive_last_ping c) (keepalive_probe_count c) (nagle_enabled c) (nagle_buffer c) (nagle_last_send c) x (syn_retransmit_count c) (syn_first_send_time c).
Definition set_syn_retransmit_count (x : Z) (c : TcpConnection) : TcpConnection := mkConn (cid c) (family c) (local c) (remote c) (state c) (seqn c) (ackn c) (window c) (rx_buffer c) (tx_buffer c) (listen_backlog c) (cwnd c) (ssthresh c) (rtt c) (rtt_var c) (rto c) (retransmit_count c) (peer_ws_scale c) (sack_ok c) (fast_retx c) (snd_una c) (snd_nxt c) (ccs c) (time_wait_start c) (last_send_time c) (keepalive_enabled c) (keepalive_idle c) (keepalive_intvl c) (keepalive_probes c) (keepalive_last_ping c) (keepalive_probe_count c) (nagle_enabled c) (nagle_buffer c) (nagle_last_send c) (cmss c) x (syn_first_send_time c).
Definition set_syn_first_send_time (x : Z) (c : TcpConnection) : TcpConnection := mkConn (cid c) (family c) (local c) (remote c) (state c) (seqn c) (ackn c) (window c) (rx_buffer c) (tx_buffer c) (listen_backlog c) (cwnd c) (ssthresh c) (rtt c) (rtt_var c) (rto c) (retransmit_count c) (peer_ws_scale c) (sack_ok c) (fast_retx c) (snd_una c) (snd_nxt c) (ccs c) (time_wait_start c) (last_send_time c) (keepalive_enabled c) (keepalive_idle c) (keepalive_intvl c) (keepalive_probes c) (keepalive_last_ping c) (keepalive_probe_count c) (nagle_enabled c) (nagle_buffer c) (nagle_last_send c) (cmss c) (syn_retransmit_count c) x.
Definition conn_new (id : Z) (l : SocketAddr) (f : AddressFamily) : TcpConnection :=
  mkConn id f l addr_default Closed 0 0 65535 [] [] 0 (10 * 1460) 65535 100 50 200 0 0 false fast_new 0 0 cc_new 0 0 false 7200 75 9 0 0 true [] 0 536 0 0.

(** ** Computations on a connection *)
Inductive TcpCounter := ActiveOpens | PassiveOpens | AttemptFails | EstabResets | CurrEstab | InSegs | OutSegs | RetransSegs | InErrs | OutRsts | SynCookiesSent | SynCookiesRecv | SynCookiesFailed.
Inductive TcpEffect := Sent (packet : bytes) | Stat (c : TcpCounter) (d : Z) | Metrics (saddr daddr rtt rtt_var ssthresh cwnd : Z).
Definition M (A : Type) : Type := TcpConnection -> TcpConnection * list TcpEffect * res A.
#[export] Instance M_ret : MRet M := fun A x c => (c, [], inl x).
#[export] Instance M_bind : MBind M := fun A B k m c =>
  match m c with
  | (c, l, inl x) => let '(c, l', r) := k x c in (c, l ++ l', r)
  | (c, l, inr e) => (c, l, inr e)
  end.
Definition getc : M TcpConnection := fun c => (c, [], inl c).
Definition modify (f : TcpConnection -> TcpConnection) : M unit := fun c => (f c, [], inl tt).
Definition emit (e : TcpEffect) : M unit := fun c => (c, [e], inl tt).
Definition fail {A} (e : NetError) : M A := fun c => (c, [], inr e).
Definition when (b : bool) (m : M unit) : M unit := if b then m else mret tt.

(** The clock, a random number, our addresses, and what the link returns for a packet. *)
Record Env := mkEnv { now : Z; rnd : Z; local_ip : Ipv4Addr; local_ipv6 : Ipv6Addr; link : bytes -> option NetError }.
Section Calls.
Context (env : Env).

(** ** Sending a segment *)
Definition syn_option_bytes (m : Z) : bytes := [TCPOPT_MSS; 4] ++ be16 m ++ [TCPOPT_WINDOW_SCALE; 3; 8] ++ [TCPOPT_SACK_PERMITTED; 2].
Definition header_of (f : TcpFlags) (words : nat) (c : TcpConnection) : TcpHeader := mkHdr (port (local c)) (port (remote c)) (seqn c) (ackn c) (5 + Z.of_nat words) f (window c) 0 0.
(** Header, padded options and data in a fresh buffer. *)
Definition segment_of (h : TcpHeader) (opts : bytes) (words : nat) (data : bytes) : res bytes :=
  match serialize h (replicate (20 + words * 4 + length data) 0) with
  | inl buf => inl (blit (20 + words * 4) data (blit 20 opts buf))
  | inr e => inr e
  end.
Definition ipv6_packet (s d : Ipv6Addr) (next : Z) (pl : bytes) : bytes := [0x60; 0; 0; 0] ++ be16 (Z.of_nat (length pl) mod u16_mod) ++ [next; 64] ++ s ++ d ++ pl.
Definition transmit (packet : bytes) : M unit := match link env packet with Some e => fail e | None => emit (Sent packet) end.
Definition send_packet (f : TcpFlags) (data : bytes) : M unit :=
  c ← getc;
  let opts := if syn f then syn_option_bytes (cmss c) else [] in
  let words := ((length opts + 3) / 4)%nat in
  let h := header_of f words c in
  match segment_of h opts words data with
  | inr e => fail e
  | inl segment =>
      match ip (local c), ip (remote c) with
      | V4 s, V4 d =>
          let s := if is_unspecified s then local_ip env else s in
          match serialize (set_sum (compute_checksum s d segment) h) segment with
          | inr e => fail e
          | inl segment => match build_packet (local_ip env) d TCP segment 1500 with inr e => fail e | inl p => transmit p end
          end
      | V6 s, V6 d =>
          let s := if bool_decide (s = UNSPECIFIED6) then local_ipv6 env else s in
          match serialize (set_sum (compute_checksum_v6 s d segment) h) segment with
          | inr e => fail e
          | inl segment => transmit (ipv6_packet s d 6 segment)
          end
      | _, _ => fail InvalidParam
      end
  end;;
  emit (Stat OutSegs 1).

(** ** Calls of the application *)
Definition connect (r : SocketAddr) : M unit :=
  c ← getc;
  if negb (in_state (state c) Closed) then fail ProtocolError
  else
    modify (fun c => set_syn_retransmit_count 0 (set_syn_first_send_time (now env) (set_state SynSent (set_seqn (as_u32 (rnd env)) (set_remote r c)))));;
    send_packet flags_syn [];;
    emit (Stat ActiveOpens 1).
Definition listen (backlog : Z) : M unit :=
  c ← getc;
  if negb (in_state (state c) Closed) then fail ProtocolError else modify (fun c => set_listen_backlog backlog (set_state Listen c)).
(** Sends data at the current sequence number and advances it. *)
Definition send_data (data : bytes) : M unit :=
  send_packet flags_ack data;;
  modify (fun c => let s := u32_add (seqn c) (as_u32 (Z.of_nat (length data))) in set_last_send_time (now env) (set_snd_nxt s (set_seqn s c))).
Definition send (data : bytes) : M nat :=
  c ← getc;
  if negb (in_state (state c) Established) then fail ConnectionClosed
  else if negb (nagle_enabled c) then send_data data;; mret (length data)
  else if negb (snd_una c =? snd_nxt c) then modify (fun c => set_nagle_buffer (nagle_buffer c ++ data) c);; mret (length data)
  else if (Z.of_nat (length data) <? cmss c) && (length (nagle_buffer c) =? 0)%nat then modify (fun c => set_nagle_last_send (now env) (set_nagle_buffer (nagle_buffer c ++ data) c));; mret (length data)
  else if negb (length (nagle_buffer c) =? 0)%nat then modify (set_nagle_buffer []);; send_data (nagle_buffer c ++ data);; mret (length data)
  else send_data data;; mret (length data).
Definition flush_nagle : M unit :=
  c ← getc;
  if negb (nagle_enabled c) || (length (nagle_buffer c) =? 0)%nat then mret tt
  else when ((snd_una c =? snd_nxt c) || (NAGLE_DELAY_TICKS <=? u64_sub (now env) (nagle_last_send c))) (modify (set_nagle_buffer []);; send_data (nagle_buffer c)).
(** Reads into a buffer of [n] bytes: the bytes read. *)
Definition recv (n : nat) : M bytes :=
  c ← getc;
  if (length (rx_buffer c) =? 0)%nat then fail (if in_state (state c) CloseWait || in_state (state c) Closed then ConnectionClosed else WouldBlock)
  else let len := Nat.min n (length (rx_buffer c)) in modify (fun c => set_rx_buffer (drop len (rx_buffer c)) c);; mret (take len (rx_buffer c)).
Definition record_metrics_on_close : M unit :=
  c ← getc;
  match ip (local c), ip (remote c) with
  | V4 s, V4 d => emit (Metrics (to_u32 s) (to_u32 d) (rtt c) (rtt_var c) (ssthresh c) (cwnd c))
  | _, _ => mret tt
  end.
Definition close : M unit :=
  record_metrics_on_close;;
  c ← getc;
  match state c with
  | Established => modify (set_state FinWait1);; send_packet flags_fin_ack []
  | CloseWait => modify (set_state LastAck);; send_packet flags_fin_ack []
  | _ => modify (set_state Closed)
  end.

(** ** Received segments *)
Definition on_rst : M unit :=
  c ← getc;
  match state c with
  | SynSent | SynReceived => modify (set_state Closed)
  | Established => record_metrics_on_close;; emit (Stat EstabResets 1);; emit (Stat CurrEstab (-1));; modify (set_state Closed)
  | CloseWait => record_metrics_on_close;; emit (Stat EstabResets 1);; modify (set_state Closed)
  | _ => mret tt
  end.
(** The peer's segment size, if it is smaller than ours. *)
Definition negotiate_mss (o : TcpOptions) (c : TcpConnection) : TcpConnection := match mss o with Some m => if (0 <? m) && (m <? cmss c) then set_cmss m c else c | None => c end.
Definition on_listen (h : TcpHeader) (o : TcpOptions) : M unit :=
  when (syn (flags h)) (
    modify (fun c => set_remote (mkAddr (match family c with IPV6 => V6 UNSPECIFIED6 | _ => V4 UNSPECIFIED end) (src_port h)) c);;
    modify (fun c => set_ackn (u32_add (seq_num h) 1) (set_seqn (as_u32 (rnd env)) c));;
    modify (negotiate_mss o);;
    modify (set_state SynReceived);;
    send_packet flags_syn_ack []).
Definition on_syn_sent (h : TcpHeader) (o : TcpOptions) : M unit :=
  if syn (flags h) && ack (flags h) then
    modify (set_ackn (u32_add (seq_num h) 1));;
    modify (negotiate_mss o);;
    modify (fun c => match window_scale o with Some w => set_peer_ws_scale w c | None => c end);;
    modify (fun c => if sack_permitted o then set_sack_ok true c else c);;
    modify (fun c => set_syn_retransmit_count 0 (set_state Established c));;
    emit (Stat CurrEstab 1);;
    send_packet flags_ack []
  else when (syn (flags h)) (modify (fun c => set_state SynReceived (set_ackn (u32_add (seq_num h) 1) c));; send_packet flags_syn_ack []).
Definition update_cwnd (f : cc -> cc) (c : TcpConnection) : TcpConnection := let s := f (ccs c) in set_ssthresh (cc_ssthresh s) (set_cwnd (cc_cwnd s) (set_ccs s c)).
Definition resend : M unit := c ← getc; when (negb (length (tx_buffer c) =? 0)%nat) (send_packet flags_ack (tx_buffer c)).
Definition on_established_ack (h : TcpHeader) (o : TcpOptions) : M unit :=
  c ← getc;
  let '(f, lost) := on_ack (ack_num h) (sack_blocks o) (snd_una c) (fast_retx c) in
  modify (set_fast_retx f);;
  when lost (modify (update_cwnd (cc_on_loss (now env)));; emit (Stat RetransSegs 1);; resend);;
  let acked := u32_sub (ack_num h) (snd_una c) in
  when ((0 <? acked) && (acked <? 0x80000000)) (
    modify (fun c => set_keepalive_probe_count 0 (set_keepalive_last_ping (now env) (set_snd_una (ack_num h) (update_cwnd (cc_on_ack acked (now env) (rtt c)) c))))).
Definition store_data (data : bytes) (c : TcpConnection) : TcpConnection := set_ackn (u32_add (ackn c) (as_u32 (Z.of_nat (length data)))) (set_rx_buffer (rx_buffer c ++ data) c).
Definition on_established (h : TcpHeader) (o : TcpOptions) (data : bytes) : M unit :=
  when (ack (flags h)) (on_established_ack h o);;
  when (negb (length data =? 0)%nat) (
    modify (store_data data);;
    send_packet flags_ack []);;
  when (fin (flags h)) (
    modify (set_state CloseWait);; emit (Stat CurrEstab (-1));;
    modify (fun c => set_ackn (u32_add (ackn c) 1) c);; send_packet flags_ack []);;
  c ← getc;
  when (ack (flags h) && negb (length data =? 0)%nat && (u32_sub (ack_num h) (snd_nxt c) <? 0x80000000) && negb (ack_num h =? snd_nxt c)) (send_packet flags_rst [];; emit (Stat OutRsts 1)).
(** The peer's FIN: acknowledge it and wait. *)
Definition on_peer_fin : M unit :=
  modify (fun c => set_ackn (u32_add (ackn c) 1) c);; send_packet flags_ack [];; modify (fun c => set_time_wait_start (now env) (set_state TimeWait c)).
Definition on_packet (h : TcpHeader) (data : bytes) : M unit :=
  if rst (flags h) then on_rst
  else
    when (ack (flags h)) (modify (set_ackn (ack_num h)));;
    match serialize h (replicate (header_len h) 0) with
    | inr e => fail e
    | inl raw =>
        let o := parse_options raw (header_len h) in
        c ← getc;
        match state c with
        | Listen => on_listen h o
        | SynSent => on_syn_sent h o
        | SynReceived => when (ack (flags h)) (modify (set_state Established);; emit (Stat CurrEstab 1))
        | Established => on_established h o data
        | FinWait1 => when (ack (flags h)) (modify (set_state FinWait2));; when (fin (flags h)) on_peer_fin
        | FinWait2 => when (fin (flags h)) on_peer_fin
        | LastAck => when (ack (flags h)) (record_metrics_on_close;; modify (set_state Closed))
        | Closing => when (ack (flags h)) (modify (fun c => set_time_wait_start (now env) (set_state TimeWait c)))
        | Closed | CloseWait | TimeWait => mret tt
        end
    end.

(** ** Timers *)
Definition update_rtt (measured : Z) (c : TcpConnection) : TcpConnection :=
  let delta := if rtt c <? measured then measured - rtt c else rtt c - measured in
  let var := as_u32 (3 * rtt_var c + delta) / 4 in
  let r := as_u32 (7 * rtt c + measured) / 8 in
  let o := as_u32 (r + 4 * var) in
  let o := if o <? 200 then 200 else o in
  set_rto (if 60000 <? o then 60000 else o) (set_rtt r (set_rtt_var var c)).
Definition backoff (c : TcpConnection) : TcpConnection := set_rto (Z.min (as_u32 (rto c * 2)) 60000) c.
Definition check_retransmit : M unit :=
  c ← getc;
  if negb (in_state (state c) Established) then mret tt
  else when (negb (snd_nxt c =? snd_una c) && (rto c <? u64_sub (now env) (last_send_time c)) && (0 <? last_send_time c)) (
    modify (update_cwnd (cc_on_timeout (now env)));;
    modify (fun c => set_retransmit_count (Z.min (retransmit_count c + 1) 255) c);;
    emit (Stat RetransSegs 1);;
    modify backoff;;
    when (negb (length (tx_buffer c) =? 0)%nat) (send_packet flags_ack (tx_buffer c);; modify (set_last_send_time (now env)))).
Definition check_keepalive : M unit :=
  c ← getc;
  if negb (keepalive_enabled c) || negb (in_state (state c) Established) then mret tt
  else
    let idle := u64_sub (now env) (keepalive_last_ping c) in
    if (keepalive_probe_count c =? 0) && (idle <? keepalive_idle c) then mret tt
    else when (keepalive_intvl c <=? idle) (
      modify (fun c => set_keepalive_last_ping (now env) (set_keepalive_probe_count (u32_add (keepalive_probe_count c) 1) c));;
      send_packet flags_ack [];;
      c ← getc;
      when (keepalive_probes c <=? keepalive_probe_count c) (record_metrics_on_close;; emit (Stat CurrEstab (-1));; modify (set_state Closed))).
Definition check_syn_retransmit : M unit :=
  c ← getc;
  if negb (in_state (state c) SynSent) || (syn_first_send_time c =? 0) then mret tt
  else when (SYN_TIMEOUT_TICKS <=? u64_sub (now env) (syn_first_send_time c)) (
    if SYN_MAX_RETRANSMIT <=? syn_retransmit_count c then modify (set_state Closed);; emit (Stat AttemptFails 1)
    else
      modify (fun c => set_syn_retransmit_count (syn_retransmit_count c + 1) c);;
      send_packet flags_syn [];;
      modify (set_syn_first_send_time (now env));;
      modify backoff).
End Calls.
End Connection.

(** ** The tables *)
Abbreviation Tcp4Tuple := (Ipv4Addr * Z * Ipv4Addr * Z)%type.
Section Manager.
Context {CC : CongestionControl}.
Record Tcp := mkTcp { conns : gmap Z TcpConnection; listeners : gmap (AddressFamily * Z) Z; accept_queue : gmap Z (list Z); hash4 : gmap Tcp4Tuple Z; next_socket : Z; cookies_enabled : bool; secret : bytes; cookie_stats : SynCookieStats }.
Definition tcp_new : Tcp := mkTcp ∅ ∅ ∅ ∅ 1 true (replicate 32 0) stats_new.
Definition set_conns (m : gmap Z TcpConnection) (t : Tcp) : Tcp := mkTcp m (listeners t) (accept_queue t) (hash4 t) (next_socket t) (cookies_enabled t) (secret t) (cookie_stats t).
Definition set_hash4 (m : gmap Tcp4Tuple Z) (t : Tcp) : Tcp := mkTcp (conns t) (listeners t) (accept_queue t) m (next_socket t) (cookies_enabled t) (secret t) (cookie_stats t).
Definition set_accept_queue (m : gmap Z (list Z)) (t : Tcp) : Tcp := mkTcp (conns t) (listeners t) m (hash4 t) (next_socket t) (cookies_enabled t) (secret t) (cookie_stats t).
Definition set_listeners (m : gmap (AddressFamily * Z) Z) (t : Tcp) : Tcp := mkTcp (conns t) m (accept_queue t) (hash4 t) (next_socket t) (cookies_enabled t) (secret t) (cookie_stats t).
Definition set_stats (s : SynCookieStats) (t : Tcp) : Tcp := mkTcp (conns t) (listeners t) (accept_queue t) (hash4 t) (next_socket t) (cookies_enabled t) (secret t) s.
(** [allocate_socket_id]: the identifier and the state with the counter advanced. *)
Definition allocate_socket_id (t : Tcp) : Z * Tcp := (next_socket t, mkTcp (conns t) (listeners t) (accept_queue t) (hash4 t) (u32_add (next_socket t) 1) (cookies_enabled t) (secret t) (cookie_stats t)).
Definition tuple_of (c : TcpConnection) : option Tcp4Tuple := match ip (remote c), ip (local c) with V4 s, V4 d => Some (s, port (remote c), d, port (local c)) | _, _ => None end.
Definition tcp_hash_insert (c : TcpConnection) (t : Tcp) : Tcp :=
  if in_state (state c) Listen || in_state (state c) Closed then t
  else match tuple_of c with Some k => set_hash4 (<[k := cid c]> (hash4 t)) t | None => t end.
Definition tcp_hash_remove (c : TcpConnection) (t : Tcp) : Tcp := match tuple_of c with Some k => set_hash4 (delete k (hash4 t)) t | None => t end.
Definition tcp_hash_lookup (k : Tcp4Tuple) (t : Tcp) : option Z := hash4 t !! k.
(** The identifiers in the order of the [BTreeMap]. *)
Definition ids (t : Tcp) : list Z := merge_sort Z.le (elements (dom (conns t))).

Section Handlers.
Context (env : Env).
(** A call on the connection of a socket, under the lock of the table. *)
Definition on_conn {A} (id : Z) (none : NetError) (m : M A) (t : Tcp) : Tcp * list TcpEffect * res A :=
  match conns t !! id with
  | None => (t, [], inr none)
  | Some c => let '(c, l, r) := m c in (set_conns (<[id := c]> (conns t)) t, l, r)
  end.
Definition create_socket (f : AddressFamily) (t : Tcp) : Tcp * Z :=
  let l := match f with IPV6 => unspecified_v6 0 | _ => addr_default end in
  let '(id, t) := allocate_socket_id t in (set_conns (<[id := conn_new id l f]> (conns t)) t, id).
Definition tcp_bind (id : Z) (a : SocketAddr) (t : Tcp) : Tcp * list TcpEffect * res unit := on_conn id ProtocolError (modify (set_local a)) t.
Definition tcp_connect (id : Z) (r : SocketAddr) (t : Tcp) : Tcp * list TcpEffect * res unit :=
  match on_conn id ProtocolError (connect env r) t with
  | (t, l, inl _) => (match conns t !! id with Some c => tcp_hash_insert c t | None => t end, l, inl tt)
  | x => x
  end.
Definition tcp_listen (id backlog : Z) (t : Tcp) : Tcp * list TcpEffect * res unit :=
  match on_conn id ProtocolError (listen backlog) t with
  | (t, l, inl _) => (match conns t !! id with Some c => set_listeners (<[(family c, port (local c)) := id]> (listeners t)) t | None => t end, l, inl tt)
  | x => x
  end.
Definition established (t : Tcp) (id : Z) : bool := match conns t !! id with Some c => in_state (state c) Established | None => false end.
Definition tcp_accept (id : Z) (t : Tcp) : Tcp * res (Z * SocketAddr) :=
  match conns t !! id with
  | None => (t, inr ProtocolError)
  | Some c =>
      if negb (in_state (state c) Listen) then (t, inr ProtocolError)
      else match find (established t) (default [] (accept_queue t !! id)) with
        | Some child =>
            let r := match conns t !! child with Some c => remote c | None => addr_default end in
            (match accept_queue t !! id with Some l => set_accept_queue (<[id := filter (fun x => x <> child) l]> (accept_queue t)) t | None => t end, inl (child, r))
        | None => (t, inr WouldBlock)
        end
  end.
(** [TcpConnection::accept], which nothing calls: it drops the child and returns the listener's peer. *)
Definition conn_accept (c : TcpConnection) (t : Tcp) : Tcp * res SocketAddr :=
  if negb (in_state (state c) Listen) then (t, inr ProtocolError)
  else match accept_queue t !! cid c with
    | Some (_ :: l) => (set_accept_queue (<[cid c := l]> (accept_queue t)) t, inl (remote c))
    | _ => (t, inr WouldBlock)
    end.
Definition tcp_send (id : Z) (data : bytes) : Tcp -> Tcp * list TcpEffect * res nat := on_conn id ProtocolError (send env data).
Definition tcp_recv (id : Z) (n : nat) : Tcp -> Tcp * list TcpEffect * res bytes := on_conn id ProtocolError (recv n).
Definition try_send (id : Z) (data : bytes) : Tcp -> Tcp * list TcpEffect * res nat :=
  on_conn id ProtocolError (c ← getc; if negb (in_state (state c) Established) then fail ConnectionClosed else send env data).
Definition try_recv (id : Z) (n : nat) : Tcp -> Tcp * list TcpEffect * res bytes :=
  on_conn id ProtocolError (c ← getc; if (length (rx_buffer c) =? 0)%nat then fail (if in_state (state c) CloseWait || in_state (state c) Closed then ConnectionClosed else WouldBlock) else recv n).
Definition peek (id : Z) (n : nat) (t : Tcp) : res bytes :=
  match conns t !! id with
  | None => inr ProtocolError
  | Some c => if (length (rx_buffer c) =? 0)%nat then inr (if in_state (state c) CloseWait || in_state (state c) Closed then ConnectionClosed else WouldBlock) else inl (take (Nat.min n (length (rx_buffer c))) (rx_buffer c))
  end.
(** One turn of [recv_all], which still wants [n] bytes, with nothing happening between its two looks at the table; [Again]: yield and try again. *)
Inductive Turn := Got (b : bytes) | Again | Eof | Failed (e : NetError).
Definition recv_all_turn (id : Z) (n : nat) (t : Tcp) : Tcp * Turn :=
  match conns t !! id with
  | None => (t, Failed ProtocolError)
  | Some c =>
      if (length (rx_buffer c) =? 0)%nat then (t, if in_state (state c) CloseWait || in_state (state c) Closed then Eof else Again)
      else let len := Nat.min n (length (rx_buffer c)) in (set_conns (<[id := set_rx_buffer (drop len (rx_buffer c)) c]> (conns t)) t, Got (take len (rx_buffer c)))
  end.
Definition recv_all_result (total : nat) : res nat := if (total =? 0)%nat then inr ConnectionClosed else inl total.
Definition tcp_close (id : Z) (t : Tcp) : Tcp * list TcpEffect * res unit :=
  match conns t !! id with Some _ => on_conn id ProtocolError (close env) t | None => (t, [], inl tt) end.
Definition get_connection (id : Z) (t : Tcp) : option TcpConnection := conns t !! id.
Definition get_all_connections (t : Tcp) : list TcpConnection := omap (fun id => conns t !! id) (ids t).
Definition get_connection_local_addr (id : Z) (t : Tcp) : res SocketAddr := match conns t !! id with Some c => inl (local c) | None => inr InvalidFd end.
Definition get_connection_remote_addr (id : Z) (t : Tcp) : res SocketAddr := match conns t !! id with Some c => inl (remote c) | None => inr InvalidFd end.
Record TcpConnInfo := mkInfo { local_addr : IpAddr; local_port : Z; remote_addr : IpAddr; remote_port : Z; info_state : TcpState }.
Definition list_connections (t : Tcp) : list TcpConnInfo := (fun c => mkInfo (ip (local c)) (port (local c)) (ip (remote c)) (port (remote c)) (state c)) <$> get_all_connections t.

(** ** Demultiplexing *)
(** [listener]: the half-open connections waiting decide; the state counts an overflow. *)
Definition should_use_syn_cookies (listener : Z) (t : Tcp) : bool * Tcp :=
  if negb (cookies_enabled t) then (false, t)
  else if (SYN_BACKLOG_MAX <=? length (default [] (accept_queue t !! listener)))%nat then
    let s := cookie_stats t in (true, set_stats (mkStats (cookies_sent s) (cookies_validated s) (cookies_failed s) (u32_add (syn_queue_overflow s) 1)) t)
  else (false, t).
(** The options read from the header written into a fresh buffer. *)
Definition reread_options (h : TcpHeader) : TcpOptions :=
  let buf := replicate (header_len h) 0 in parse_options (match serialize h buf with inl b => b | inr _ => buf end) (header_len h).
(** A child of the listener, stored, hashed and queued. *)
Definition add_child (listener : Z) (c : TcpConnection) (t : Tcp) : Tcp :=
  let t := tcp_hash_insert c (set_conns (<[cid c := c]> (conns t)) t) in
  set_accept_queue (<[listener := default [] (accept_queue t !! listener) ++ [cid c]]> (accept_queue t)) t.
Definition opening (src_addr : IpAddr) (h : TcpHeader) (iss : Z) (c : TcpConnection) : TcpConnection := set_state SynReceived (set_ackn (u32_add (seq_num h) 1) (set_seqn iss (set_remote (mkAddr src_addr (src_port h)) c))).
(** [let _ = child.send_packet(...)]: what the child is afterwards and what was sent. *)
Definition answer_syn (c : TcpConnection) : TcpConnection * list TcpEffect := let '(c, l, _) := send_packet env flags_syn_ack [] c in (c, l).
(** A SYN for a listener; [cookie]: whether this family answers an overflow with a cookie and keeps nothing. *)
Definition passive_open (f : AddressFamily) (listener : Z) (src_addr : IpAddr) (h : TcpHeader) (cookie : option (Z -> Tcp -> Z * Tcp)) (t : Tcp) : Tcp * list TcpEffect :=
  let '(use_cookies, t) := should_use_syn_cookies listener t in
  let o := reread_options h in
  match conns t !! listener with
  | None => (t, [])
  | Some lc =>
      if use_cookies then
        let peer_mss := default 1460 (mss o) in
        match cookie with
        | Some generate =>
            let '(k, t) := generate peer_mss t in
            let '(id, t) := allocate_socket_id t in
            let '(_, l) := answer_syn (set_cmss peer_mss (opening src_addr h k (conn_new id (local lc) f))) in
            (t, Stat SynCookiesSent 1 :: l)
        | None =>
            let '(id, t) := allocate_socket_id t in
            let '(c, l) := answer_syn (set_cmss peer_mss (opening src_addr h (as_u32 (rnd env)) (conn_new id (local lc) f))) in
            (add_child listener c t, l ++ [Stat PassiveOpens 1])
        end
      else
        let '(id, t) := allocate_socket_id t in
        let '(c, l) := answer_syn (negotiate_mss o (opening src_addr h (as_u32 (rnd env)) (conn_new id (local lc) f))) in
        (add_child listener c t, l ++ [Stat PassiveOpens 1])
  end.
(** The packet of a listener that is neither a SYN nor a valid cookie goes to the listener itself. *)
Definition to_listener (listener : Z) (src_addr : IpAddr) (h : TcpHeader) (data : bytes) (t : Tcp) : Tcp * list TcpEffect * res unit :=
  match conns t !! listener with
  | None => (t, [], inl tt)
  | Some _ => on_conn listener ProtocolError (modify (fun c => set_remote (mkAddr src_addr (port (remote c))) c);; on_packet env h data) t
  end.
(** A received packet for the connection [id]. *)
Definition to_conn (id : Z) (src_addr : IpAddr) (h : TcpHeader) (data : bytes) (t : Tcp) : Tcp * list TcpEffect * res unit :=
  on_conn id ProtocolError (modify (fun c => set_remote (mkAddr src_addr (port (remote c))) c);; on_packet env h data) t.
Definition validate (ticks cookie si di sp dp : Z) (t : Tcp) : option Z * Tcp * list TcpEffect :=
  let '(r, s) := validate_syn_cookie ticks (secret t) cookie si di sp dp (cookie_stats t) in
  (r, set_stats s t, [Stat (if bool_decide (is_Some r) then SynCookiesRecv else SynCookiesFailed) 1]).
(** [ticks]: the clock of the interrupt controller, which the cookies use. *)
Definition process_packet (ticks : Z) (s d : Ipv4Addr) (payload : bytes) (t : Tcp) : Tcp * list TcpEffect * res unit :=
  if negb (verify_checksum s d payload) then (t, [Stat InSegs 1; Stat InErrs 1], inr ChecksumError)
  else match parse payload with
    | inr e => (t, [Stat InSegs 1], inr e)
    | inl h =>
        let data := drop (header_len h) payload in
        let found := id ← tcp_hash_lookup (s, src_port h, d, dst_port h) t; if bool_decide (is_Some (conns t !! id)) then Some id else None in
        let '(t, l, r) :=
          match found with
          | Some id => to_conn id (V4 s) h data t
          | None => match listeners t !! (IPV4, dst_port h) with
              | None => (t, [], inl tt)
              | Some listener =>
                  if syn (flags h) then
                    let generate m t := let '(k, st) := generate_syn_cookie ticks (secret t) (to_u32 s) (to_u32 d) (src_port h) (dst_port h) m (cookie_stats t) in (k, set_stats st t) in
                    let '(t, l) := passive_open IPV4 listener (V4 s) h (Some generate) t in (t, l, inl tt)
                  else if ack (flags h) then
                    let cookie := u32_sub (ack_num h) 1 in
                    match validate ticks cookie (to_u32 s) (to_u32 d) (src_port h) (dst_port h) t with
                    | (Some m, t, l) => match conns t !! listener with
                        | None => (t, l, inl tt)
                        | Some lc =>
                            let '(id, t) := allocate_socket_id t in
                            let c := conn_new id (local lc) IPV4 in
                            let c := set_cmss m (set_state Established (set_ackn (seq_num h) (set_seqn cookie (set_remote (mkAddr (V4 s) (src_port h)) c)))) in
                            let c := set_window (window_size h) (set_snd_nxt cookie (set_snd_una cookie c)) in
                            (add_child listener c t, l ++ [Stat PassiveOpens 1; Stat CurrEstab 1], inl tt)
                        end
                    | (None, t, l) => let '(t, l', r) := to_listener listener (V4 s) h data t in (t, l ++ l', r)
                    end
                  else to_listener listener (V4 s) h data t
              end
          end in (t, Stat InSegs 1 :: l, r)
    end.
(** The first four bytes of an IPv6 address, as the code forms them for the cookie. *)
Definition v6_word (a : Ipv6Addr) : Z := Z.lor (Z.shiftl (be_word a 0) 16) (be_word a 2).
Definition process_ipv6_packet (ticks : Z) (s d : Ipv6Addr) (payload : bytes) (t : Tcp) : Tcp * list TcpEffect * res unit :=
  if negb (verify_checksum_v6 s d payload) then (t, [Stat InSegs 1; Stat InErrs 1], inr ChecksumError)
  else match parse payload with
    | inr e => (t, [Stat InSegs 1], inr e)
    | inl h =>
        let data := drop (header_len h) payload in
        let matches id := match conns t !! id with Some c => bool_decide (family c = IPV6) && (port (local c) =? dst_port h) && (port (remote c) =? src_port h) | None => false end in
        let found := k ← find matches (ids t); c ← conns t !! k; if bool_decide (is_Some (conns t !! cid c)) then Some (cid c) else None in
        let '(t, l, r) :=
          match found with
          | Some id => to_conn id (V6 s) h data t
          | None => match listeners t !! (IPV6, dst_port h) with
              | None => (t, [], inl tt)
              | Some listener =>
                  if syn (flags h) then let '(t, l) := passive_open IPV6 listener (V6 s) h None t in (t, l, inl tt)
                  else if ack (flags h) then
                    match validate ticks (u32_sub (ack_num h) 1) (v6_word s) (v6_word d) (src_port h) (dst_port h) t with
                    | (Some _, t, l) => match conns t !! listener with
                        | None => (t, l, inl tt)
                        | Some lc =>
                            let '(id, t) := allocate_socket_id t in
                            let c := set_state Established (set_ackn (seq_num h) (set_seqn (as_u32 (rnd env)) (set_remote (mkAddr (V6 s) (src_port h)) (conn_new id (local lc) IPV6)))) in
                            (add_child listener (set_window (window_size h) c) t, l ++ [Stat PassiveOpens 1; Stat CurrEstab 1], inl tt)
                        end
                    | (None, t, l) => let '(t, l', r) := to_listener listener (V6 s) h data t in (t, l ++ l', r)
                    end
                  else to_listener listener (V6 s) h data t
              end
          end in (t, Stat InSegs 1 :: l, r)
    end.

(** ** The tick *)
Definition expired (c : TcpConnection) : bool := in_state (state c) TimeWait && (0 <? time_wait_start c) && (TIME_WAIT_DURATION <=? u64_sub (now env) (time_wait_start c)).
Definition drop_conn (t : Tcp) (id : Z) : Tcp := match conns t !! id with Some c => let t := tcp_hash_remove c t in set_conns (delete id (conns t)) t | None => t end.
Definition time_wait_gc (t : Tcp) : Tcp := foldl drop_conn t (List.filter (fun id => match conns t !! id with Some c => expired c | None => false end) (ids t)).
(** [let _ = m]: an error is ignored. *)
Definition ignore (m : M unit) : M unit := fun c => let '(c, l, _) := m c in (c, l, inl tt).
Definition conn_tick : M unit := ignore (flush_nagle env);; ignore (check_retransmit env);; ignore (check_keepalive env);; ignore (check_syn_retransmit env).
Definition tick_one (x : Tcp * list TcpEffect) (id : Z) : Tcp * list TcpEffect := let '(t, l) := x in let '(t, l', _) := on_conn id ProtocolError conn_tick t in (t, l ++ l').
Definition tcp_timer_tick (t : Tcp) : Tcp * list TcpEffect :=
  let '(t, l) := foldl tick_one (t, []) (ids t) in
  let closed := List.filter (fun id => match conns t !! id with Some c => in_state (state c) Closed | None => false end) (ids t) in
  let waited := List.filter (fun id => match conns t !! id with Some c => expired c | None => false end) (ids t) in
  (foldl drop_conn t (closed ++ waited), l).
End Handlers.
End Manager.

(** ** What a sent packet carries *)
(** The packet as the receiver opens it: addresses, header and data. *)
Definition open_packet (p : bytes) : option (Ipv4Addr * Ipv4Addr * TcpHeader * bytes) :=
  match parse_packet p with
  | inl pk => let '(s, d) := (src (header pk), dst (header pk)) in
      if verify_checksum s d (payload pk) then match parse (payload pk) with inl h => Some (s, d, h, drop (header_len h) (payload pk)) | inr _ => None end else None
  | inr _ => None
  end.
Lemma segment_of_shape h opts w data : (length opts <= w * 4)%nat -> segment_of h opts w data = inl (header_bytes h ++ (opts ++ replicate (w * 4 - length opts) 0) ++ data).
Proof.
  intros Hl. unfold segment_of, serialize, MIN_SIZE. rewrite length_replicate, (proj2 (Nat.ltb_ge _ _)) by lia. f_equal. unfold blit at 3. rewrite take_0, drop_replicate, header_length, Nat.add_0_l, app_nil_l. replace (20 + w * 4 + length data - 20)%nat with (w * 4 + length data)%nat by lia. rewrite blit_zeros by done.
  replace (w * 4 + length data - length opts)%nat with (w * 4 - length opts + length data)%nat by lia. rewrite replicate_add. rewrite !app_assoc. rewrite <-(app_assoc (header_bytes h)). rewrite blit_zeros by (rewrite !length_app, header_length, length_replicate; lia). rewrite Nat.sub_diag. cbn [replicate]. by rewrite app_nil_r.
Qed.
Lemma serialize_over c h rest : serialize (set_sum c h) (header_bytes h ++ rest) = inl (header_bytes (set_sum c h) ++ rest).
Proof. unfold serialize, MIN_SIZE. rewrite length_app, header_length, (proj2 (Nat.ltb_ge _ _)) by lia. unfold blit. rewrite take_0, app_nil_l, Nat.add_0_l. by rewrite drop_app_length' by reflexivity. Qed.
Section Stream.
Context {CC : CongestionControl}.
(** A connection between two IPv4 hosts, with its numbers in range and nothing to retransmit. *)
Record conn_ok (A B : Ipv4Addr) (c : TcpConnection) : Prop := {
  k_local : exists a, ip (local c) = V4 a /\ (a = UNSPECIFIED \/ a = A);
  k_remote : ip (remote c) = V4 B;
  k_lport : 0 <= port (local c) < 65536;
  k_rport : 0 <= port (remote c) < 65536;
  k_seq : is_u32 (seqn c);
  k_ack : is_u32 (ackn c);
  k_win : 0 <= window c < 65536;
  k_mss : 0 <= cmss c < 65536;
  k_tx : tx_buffer c = [];
  k_nagle : Checksum.bytes (nagle_buffer c);
  k_plain : nagle_enabled c = false -> nagle_buffer c = [];
  k_past : state c <> Listen /\ state c <> SynSent /\ state c <> SynReceived }.
Definition env_ok (A : Ipv4Addr) (e : Env) : Prop := local_ip e = A /\ forall p, link e p = None.
Definition opens (A B : Ipv4Addr) (f : TcpFlags) (data p : bytes) : Prop := exists h, open_packet p = Some (A, B, h, data) /\ flags h = f /\ hdr_ok h.
Definition words_of (f : TcpFlags) : nat := if syn f then 3 else 0.
Lemma send_packet_spec A B env f data c : addr_ok A -> addr_ok B -> A <> UNSPECIFIED -> env_ok A env -> conn_ok A B c -> Checksum.bytes data ->
  if (40 + words_of f * 4 + length data <=? 1500)%nat then exists p, send_packet env f data c = (c, [Sent p; Stat OutSegs 1], inl tt) /\ opens A B f data p else send_packet env f data c = (c, [], inr BufferFull).
Proof.
  intros HA HB HU [He1 He2] Hc Hd. destruct (k_local _ _ _ Hc) as (a & Ea & Ha). set (opts := if syn f then syn_option_bytes (cmss c) else []). assert (((length opts + 3) / 4)%nat = words_of f) as Ew by (unfold opts, words_of; by destruct (syn f)). assert (length opts <= words_of f * 4)%nat as Hl by (unfold opts, words_of; destruct (syn f); cbn; lia).
  set (h := header_of f (words_of f) c). set (popts := opts ++ replicate (words_of f * 4 - length opts) 0). assert (length popts = words_of f * 4)%nat as Lp by (unfold popts; rewrite length_app, length_replicate; lia).
  assert ((if is_unspecified a then local_ip env else a) = A) as Es by (unfold is_unspecified; destruct Ha as [->| ->]; [by rewrite bool_decide_true|by rewrite bool_decide_false]).
  set (ck := compute_checksum A B (header_bytes h ++ popts ++ data)). set (seg := header_bytes (set_sum ck h) ++ popts ++ data). assert (length seg = 20 + words_of f * 4 + length data)%nat as Ls by (unfold seg; rewrite !length_app, header_length, Lp; lia).
  assert (send_packet env f data c = match build_packet A B TCP seg 1500 with inr e => (c, [], inr e) | inl p => (c, [Sent p; Stat OutSegs 1], inl tt) end) as ->.
  { unfold send_packet, getc, mbind, M_bind. cbv zeta. fold opts. rewrite Ew. fold h. rewrite segment_of_shape by done. fold popts. rewrite Ea, (k_remote _ _ _ Hc), Es, He1. fold ck. rewrite serialize_over. fold seg. destruct (build_packet A B TCP seg 1500); [|done]. unfold transmit, emit. rewrite He2. done. }
  assert (hdr_ok h) as Hh by (split; cbn [h header_of src_port dst_port seq_num ack_num data_offset flags window_size checksum urgent_ptr]; try apply Hc; try lia; unfold words_of; destruct (syn f); lia).
  destruct (Nat.leb_spec (40 + words_of f * 4 + length data) 1500) as [Hfit|Hbig].
  - destruct (build_parses A B TCP seg 1500 HA HB) as (p & -> & _ & _ & Hp); [lia..|]. exists p. split; [done|]. exists (set_sum ck h).
    assert (Checksum.bytes popts) as Hpo by (unfold popts, opts; apply Forall_app; split; [destruct (syn f); [|by constructor]; unfold syn_option_bytes; repeat (apply Forall_app; split); try apply be16_bytes; by repeat constructor|apply Forall_replicate; lia]).
    destruct (segment_opens A B h popts data) as (V & P & D & _); [apply HA|apply HB|done|done|done|unfold header_len; cbn [h header_of data_offset]; rewrite Lp; unfold words_of; destruct (syn f); cbn; lia|lia|]. change (set_sum 0 h) with h in *. fold ck in V, P, D. fold seg in V, P, D.
    split; [|split; [done|]].
    + unfold open_packet. rewrite Hp. cbn [header payload]. change (src (checked _ _)) with A. change (dst (checked _ _)) with B. rewrite V, P. change (header_len (set_sum ck h)) with (header_len h). by rewrite D.
    + split; try apply Hh. cbn [set_sum checksum]. unfold ck. destruct (segment_checksum_spec A B (header_bytes h ++ popts ++ data)) as [HP ->]; [apply HA|apply HB|apply Forall_app; split; [by apply segment_header_bytes|by apply Forall_app]|rewrite !length_app, header_length; lia|]. pose proof (Checksum.words_bound (header_bytes h ++ popts ++ data)) as W. specialize (W ltac:(apply Forall_app; split; [by apply segment_header_bytes|by apply Forall_app])). pose proof (Checksum.oc_range (pseudo A B (length (header_bytes h ++ popts ++ data)) + Checksum.words (header_bytes h ++ popts ++ data)) ltac:(lia)). lia.
  - unfold build_packet, serialize_packet, packet_new. cbn [header payload]. change (Ipv4.header_len (header_new _ _ _ _)) with 20%nat. rewrite length_replicate, (proj2 (Nat.ltb_lt _ _)) by lia. done.
Qed.

(** ** Computations that send no data *)
Definition sent (l : list TcpEffect) : list bytes := omap (fun e => match e with Sent p => Some p | _ => None end) l.
Lemma sent_app l k : sent (l ++ k) = sent l ++ sent k.
Proof. apply omap_app. Qed.
Definition quiet (c c' : TcpConnection) : Prop := nagle_buffer c' = nagle_buffer c /\ rx_buffer c' = rx_buffer c /\ (state c <> Established -> state c' <> Established).
Lemma quiet_compose a b c : quiet a b -> quiet b c -> quiet a c.
Proof. intros (H1 & H2 & H3) (K1 & K2 & K3). split; [congruence|]. split; [congruence|]. auto. Qed.
Section Host.
Context (A B : Ipv4Addr) (HA : addr_ok A) (HB : addr_ok B) (HU : A <> UNSPECIFIED).
Definition empty_packet (p : bytes) : Prop := exists f, opens A B f [] p.
(** [m] succeeds, keeps the connection well formed and its data as it is, and sends only empty segments. *)
Definition keeps {X : Type} (m : M X) : Prop := forall c, conn_ok A B c -> exists c' l x, m c = (c', l, inl x) /\ conn_ok A B c' /\ Forall empty_packet (sent l) /\ quiet c c'.
Lemma keeps_ret {X : Type} (x : X) : keeps (mret x).
Proof. intros c Hc. exists c, [], x. by split_and!. Qed.
Lemma keeps_bind {X Y : Type} (m : M X) (k : X -> M Y) : keeps m -> (forall x, keeps (k x)) -> keeps (m ≫= k).
Proof.
  intros Hm Hk c Hc. destruct (Hm c Hc) as (c1 & l1 & x & E1 & H1 & F1 & Q1). destruct (Hk x c1 H1) as (c2 & l2 & y & E2 & H2 & F2 & Q2). exists c2, (l1 ++ l2), y. unfold mbind, M_bind. rewrite E1, E2. split; [done|]. split; [done|]. split; [rewrite sent_app; by apply Forall_app|by eapply quiet_compose].
Qed.
Lemma keeps_getc {Y : Type} (k : TcpConnection -> M Y) : (forall c, conn_ok A B c -> keeps (k c)) -> keeps (getc ≫= k).
Proof.
  intros Hk c Hc. destruct (Hk c Hc c Hc) as (c2 & l2 & y & E2 & H2 & F2 & Q2). exists c2, l2, y. unfold mbind, M_bind, getc. rewrite E2. by split_and!.
Qed.
Lemma keeps_modify f : (forall c, conn_ok A B c -> conn_ok A B (f c) /\ quiet c (f c)) -> keeps (modify f).
Proof. intros Hf c Hc. destruct (Hf c Hc) as [H1 H2]. exists (f c), [], tt. by split_and!. Qed.
Lemma keeps_stat s d : keeps (emit (Stat s d)).
Proof. intros c Hc. exists c, [Stat s d], tt. by split_and!. Qed.
Lemma keeps_metrics : keeps record_metrics_on_close.
Proof. apply keeps_getc. intros c _. destruct (ip (local c)), (ip (remote c)); try apply keeps_ret. intros c' Hc'. eexists _, _, _. by split_and!. Qed.
Lemma keeps_when b m : (b = true -> keeps m) -> keeps (when b m).
Proof. intros Hm. destruct b; [by apply Hm|apply keeps_ret]. Qed.
Lemma keeps_send env f : env_ok A env -> keeps (send_packet env f []).
Proof.
  intros He c Hc. pose proof (send_packet_spec A B env f [] c HA HB HU He Hc ltac:(constructor)) as H. rewrite (proj2 (Nat.leb_le _ _)) in H by (unfold words_of; destruct (syn f); cbn; lia). destruct H as (p & E & Hp). exists c, [Sent p; Stat OutSegs 1], tt. split; [done|]. split; [done|]. split; [apply Forall_singleton; by exists f|done].
Qed.
(** Updates of fields that the data does not depend on, and the structure of the code. *)
Ltac solve_modify := let Hc := fresh "Hc" in intros ? Hc; split; [split; cbn; first [apply Hc | apply u32_add_range | done | by split_and!]|split; [done|]; split; [done|]; cbn; try done; try (apply Hc)].
Ltac keep := repeat lazymatch goal with
  | |- keeps (mret _) => apply keeps_ret
  | |- keeps record_metrics_on_close => apply keeps_metrics
  | |- keeps (emit (Stat _ _)) => apply keeps_stat
  | |- keeps (send_packet _ _ []) => apply keeps_send; assumption
  | |- keeps (when _ _) => apply keeps_when; intros ?
  | |- keeps (mbind _ getc) => apply keeps_getc; intros ? ?
  | |- keeps (mbind _ _) => apply keeps_bind; [|intros ?]
  | |- keeps (modify _) => apply keeps_modify; solve_modify
  end.
Lemma keeps_rst : keeps on_rst.
Proof. apply keeps_getc. intros c Hc. destruct (state c); keep. Qed.
Lemma keeps_close env : env_ok A env -> keeps (close env).
Proof. intros He. apply keeps_bind; [apply keeps_metrics|]. intros _. apply keeps_getc. intros c Hc. destruct (state c) eqn:E; keep. Qed.
Lemma keeps_resend env : env_ok A env -> keeps (resend env).
Proof. intros He. apply keeps_getc. intros c Hc. rewrite (k_tx _ _ _ Hc). apply keeps_ret. Qed.
Lemma keeps_established_ack env h o : env_ok A env -> keeps (on_established_ack env h o).
Proof. intros He. apply keeps_getc. intros c Hc. destruct (on_ack _ _ _ _) as [f lost]. keep; [by apply keeps_resend|]. cbv zeta. keep. Qed.
Lemma keeps_retransmit env : env_ok A env -> keeps (check_retransmit env).
Proof. intros He. apply keeps_getc. intros c Hc. destruct (negb _); [apply keeps_ret|]. rewrite (k_tx _ _ _ Hc). keep. Qed.
Lemma keeps_keepalive env : env_ok A env -> keeps (check_keepalive env).
Proof. intros He. apply keeps_getc. intros c Hc. destruct (_ || _); [apply keeps_ret|]. cbv zeta. destruct (_ && _); [apply keeps_ret|]. keep. Qed.
Lemma keeps_syn env : keeps (check_syn_retransmit env).
Proof. apply keeps_getc. intros c Hc. destruct (in_state (state c) SynSent) eqn:E; [|apply keeps_ret]. apply bool_decide_eq_true in E. destruct (k_past _ _ _ Hc) as (_ & ? & _). done. Qed.
Lemma keeps_peer_fin env : env_ok A env -> keeps (on_peer_fin env).
Proof. intros He. unfold on_peer_fin. keep. Qed.
(** ** Receiving *)
Lemma rst_closes c : conn_ok A B c -> state c = Established -> exists l, on_rst c = (set_state Closed c, l, inl tt) /\ sent l = [].
Proof.
  intros Hc E. destruct (k_local _ _ _ Hc) as (a & Ea & _). unfold on_rst, record_metrics_on_close, getc, mbind, M_bind, emit, modify. rewrite E, Ea, (k_remote _ _ _ Hc). by eexists.
Qed.
(** The data of a segment is appended, whatever its sequence number, and acknowledged. *)
Lemma take_data env data c : env_ok A env -> conn_ok A B c -> exists c' l, when (negb (length data =? 0)%nat) (modify (store_data data);; send_packet env flags_ack []) c = (c', l, inl tt) /\
  conn_ok A B c' /\ Forall empty_packet (sent l) /\ nagle_buffer c' = nagle_buffer c /\ rx_buffer c' = rx_buffer c ++ data /\ state c' = state c.
Proof.
  intros He Hc. destruct data as [|b data]; [exists c, []; cbn; by rewrite app_nil_r|]. cbn [length Nat.eqb negb when]. set (f := store_data (b :: data)). assert (conn_ok A B (f c)) as Hf by (split; cbn; first [apply Hc | apply u32_add_range]). destruct (keeps_send env flags_ack He (f c) Hf) as (c' & l & [] & E & H1 & H2 & H3 & H4 & H5).
  exists c', l. unfold modify, mbind, M_bind. rewrite E. cbn [app]. split; [done|]. split; [done|]. split; [done|]. split; [done|]. split; [done|]. pose proof (send_packet_spec A B env flags_ack [] (f c) HA HB HU He Hf ltac:(constructor)) as Hs. cbn in Hs. destruct Hs as (p & E' & _). rewrite E in E'. by injection E' as -> _.
Qed.
Definition received (rst_flag : bool) (data : bytes) (c c' : TcpConnection) : Prop :=
  nagle_buffer c' = nagle_buffer c /\ (state c <> Established -> state c' <> Established /\ rx_buffer c' = rx_buffer c) /\
  (state c = Established -> if rst_flag then state c' <> Established /\ rx_buffer c' = rx_buffer c else rx_buffer c' = rx_buffer c ++ data).
Lemma on_established_spec env h o data c : env_ok A env -> conn_ok A B c -> state c = Established -> exists c' l, on_established env h o data c = (c', l, inl tt) /\ conn_ok A B c' /\ Forall empty_packet (sent l) /\ received false data c c'.
Proof.
  intros He Hc E. unfold on_established. unfold mbind at 1, M_bind at 1. assert (keeps (when (ack (flags h)) (on_established_ack env h o))) as K1 by (apply keeps_when; intros _; by apply keeps_established_ack). destruct (K1 c Hc) as (c1 & l1 & x1 & E1 & H1 & F1 & Q1 & Q2 & Q3). rewrite E1.
  unfold mbind at 1, M_bind at 1. destruct (take_data env data c1 He H1) as (c2 & l2 & E2 & H2 & F2 & N2 & R2 & S2). rewrite E2.
  match goal with |- context [match (match ?m c2 with _ => _ end) with _ => _ end] => assert (keeps m) as K2 by keep; destruct (K2 c2 H2) as (c3 & l3 & x3 & E3 & H3 & F3 & Q4 & Q5 & Q6) end. rewrite E3. destruct x3.
  exists c3, (l1 ++ l2 ++ l3). split; [done|]. split; [done|]. split; [rewrite !sent_app; by repeat (apply Forall_app; split)|]. split; [congruence|]. split; [congruence|]. intros _. congruence.
Qed.
Lemma serialize_header_ok h : hdr_ok h -> exists raw, serialize h (replicate (header_len h) 0) = inl raw.
Proof. intros Hh. unfold serialize, MIN_SIZE. rewrite length_replicate, (proj2 (Nat.ltb_ge _ _)) by (unfold header_len; pose proof (ok_off _ Hh); lia). by eexists. Qed.
Lemma on_packet_spec env h data c : env_ok A env -> conn_ok A B c -> hdr_ok h -> exists c' l, on_packet env h data c = (c', l, inl tt) /\ conn_ok A B c' /\ Forall empty_packet (sent l) /\ received (rst (flags h)) data c c'.
Proof.
  intros He Hc Hh. unfold on_packet. destruct (rst (flags h)) eqn:Er.
  - destruct (decide (state c = Established)) as [E|E].
    + destruct (rst_closes c Hc E) as (l & El & Hl). rewrite El. exists (set_state Closed c), l. split; [done|]. split; [split; cbn; first [apply Hc | by split_and!]|]. split; [by rewrite Hl|]. by split_and!.
    + destruct (keeps_rst c Hc) as (c' & l & [] & -> & H1 & F1 & Q1 & Q2 & Q3). exists c', l. split; [done|]. split; [done|]. split; [done|]. split; [done|]. split; [intros Hne; by split; [apply Q3|]|intros; done].
  - destruct (serialize_header_ok h Hh) as [raw Eraw]. rewrite Eraw. unfold mbind at 1, M_bind at 1. set (c1 := if ack (flags h) then set_ackn (ack_num h) c else c). assert (when (ack (flags h)) (modify (set_ackn (ack_num h))) c = (c1, [], inl tt)) as -> by (unfold c1, when; by destruct (ack (flags h))).
    assert (conn_ok A B c1) as H1 by (unfold c1; destruct (ack (flags h)); [split; cbn; first [apply Hc | apply Hh]|done]). assert (state c1 = state c /\ rx_buffer c1 = rx_buffer c /\ nagle_buffer c1 = nagle_buffer c) as (S1 & R1 & N1) by (unfold c1; by destruct (ack (flags h))). unfold mbind at 1, M_bind at 1, getc. cbv zeta. cbn [app].
    destruct (decide (state c1 = Established)) as [E|E].
    + rewrite E. destruct (on_established_spec env h (parse_options raw (header_len h)) data c1 He H1 E) as (c' & l & -> & H2 & F2 & Q1 & Q2 & Q3). exists c', l. split; [done|]. split; [done|]. split; [done|]. split; [congruence|]. split; [intros; congruence|]. intros _. rewrite (Q3 E). congruence.
    + match goal with |- context [match ?m c1 with _ => _ end] => assert (keeps m) as K end.
      { destruct (k_past _ _ _ H1) as (P1 & P2 & P3). destruct (state c1); try done; keep; by apply keeps_peer_fin. }
      destruct (K c1 H1) as (c' & l & [] & -> & H2 & F2 & Q1 & Q2 & Q3). exists c', l. split; [done|]. split; [done|]. split; [done|]. split; [congruence|]. split; [|intros; congruence]. intros _. split; [by apply Q3|congruence].
Qed.
End Host.
(** ** Sending *)
Definition data_of (p : bytes) : bytes := match open_packet p with Some (_, _, _, d) => d | None => [] end.
Definition good (A B : Ipv4Addr) (p : bytes) : Prop := exists f d, opens A B f d p.
Lemma opens_data A B f d p : opens A B f d p -> data_of p = d.
Proof. intros (h & E & _). unfold data_of. by rewrite E. Qed.
Lemma empties_good A B l : Forall (empty_packet A B) l -> Forall (good A B) l /\ concat (data_of <$> l) = [].
Proof.
  induction 1 as [|p l [f Hp] _ [IH1 IH2]]; [done|]. split; [constructor; [by exists f, []|done]|]. rewrite fmap_cons. cbn [concat]. rewrite (opens_data A B f [] p Hp), IH2. done.
Qed.
Definition same (c c' : TcpConnection) : Prop := rx_buffer c' = rx_buffer c /\ state c' = state c.
(** What a sending call does with the data: it goes out or stays buffered, in order, unless it did not fit. *)
Definition sends {X : Type} (A B : Ipv4Addr) (data : bytes) (m : M X) (c : TcpConnection) : Prop :=
  exists c' l r, m c = (c', l, r) /\ conn_ok A B c' /\ same c c' /\ Forall (good A B) (sent l) /\
    match r with inl _ => concat (data_of <$> sent l) ++ nagle_buffer c' = nagle_buffer c ++ data | inr BufferFull => True | inr _ => l = [] /\ nagle_buffer c' = nagle_buffer c end.
Lemma send_data_spec A B env data c : addr_ok A -> addr_ok B -> A <> UNSPECIFIED -> env_ok A env -> conn_ok A B c -> Checksum.bytes data -> nagle_buffer c = [] ->
  exists c' l r, send_data env data c = (c', l, r) /\ conn_ok A B c' /\ same c c' /\ nagle_buffer c' = [] /\ ((r = inr BufferFull /\ l = []) \/ exists p, r = inl tt /\ sent l = [p] /\ opens A B flags_ack data p).
Proof.
  intros HA HB HU He Hc Hd Hn. unfold send_data, mbind, M_bind. pose proof (send_packet_spec A B env flags_ack data c HA HB HU He Hc Hd) as H. destruct (_ <=? _)%nat.
  - destruct H as (p & -> & Hp). unfold modify. eexists _, _, _. split; [reflexivity|]. split; [split; cbn; first [apply Hc | apply u32_add_range]|]. split; [done|]. split; [done|]. right. by exists p.
  - rewrite H. eexists _, _, _. split; [reflexivity|]. split; [done|]. split; [done|]. split; [done|]. by left.
Qed.
Lemma sends_data {X : Type} A B env data more (x : X) c c0 : addr_ok A -> addr_ok B -> A <> UNSPECIFIED -> env_ok A env -> conn_ok A B c -> Checksum.bytes data -> nagle_buffer c = [] -> same c0 c -> nagle_buffer c0 ++ more = data ->
  forall m : M X, m c0 = (send_data env data;; mret x) c -> sends A B more m c0.
Proof.
  intros HA HB HU He Hc Hd Hn [Hs1 Hs2] Hm m Em. destruct (send_data_spec A B env data c HA HB HU He Hc Hd Hn) as (c' & l & r & E & H1 & [H2 H3] & H4 & H5). unfold sends. rewrite Em. unfold mbind, M_bind. rewrite E. destruct H5 as [[-> ->]|(p & -> & El & Hp)].
  - eexists _, _, _. split; [reflexivity|]. split; [done|]. split; [split; congruence|]. by split.
  - eexists _, _, _. split; [reflexivity|]. split; [done|]. split; [split; congruence|]. rewrite app_nil_r, El. split; [apply Forall_singleton; by exists flags_ack, data|]. cbn [fmap list_fmap concat]. rewrite (opens_data A B flags_ack data p Hp), H4, !app_nil_r. by rewrite Hm.
Qed.
Lemma modify_then {X : Type} f (k : M X) c : (modify f;; k) c = k (f c).
Proof. unfold mbind, M_bind, modify. by destruct (k (f c)) as [[? ?] ?]. Qed.
Lemma send_spec A B env data c : addr_ok A -> addr_ok B -> A <> UNSPECIFIED -> env_ok A env -> conn_ok A B c -> Checksum.bytes data -> sends A B data (send env data) c.
Proof.
  intros HA HB HU He Hc Hd. unfold send. assert (forall k : TcpConnection -> M nat, sends A B data (k c) c -> sends A B data (getc ≫= k) c) as Hget by (intros k (c' & l & r & E & H); exists c', l, r; unfold mbind, M_bind, getc; rewrite E; done). apply Hget.
  destruct (negb (in_state (state c) Established)); [eexists _, _, _; split; [reflexivity|]; by split_and!|]. destruct (nagle_enabled c) eqn:En; cbn [negb]. 2:{ eapply (sends_data A B env data data (length data) c c); try done; [by apply (k_plain _ _ _ Hc)|by rewrite (k_plain _ _ _ Hc En)]. }
  assert (forall f, nagle_buffer (f c) = nagle_buffer c ++ data -> conn_ok A B (f c) -> same c (f c) -> sends A B data (modify f;; mret (length data)) c) as Hbuf by (intros f E H1 H2; eexists _, _, _; split; [reflexivity|]; by split_and!).
  assert (Checksum.bytes (nagle_buffer c ++ data)) as Hb by (apply Forall_app; split; [apply Hc|done]).
  destruct (negb (snd_una c =? snd_nxt c)); [apply Hbuf; [done| |done]; split; cbn; first [done | apply Hc | congruence]|]. destruct ((_ <? _) && _); [apply Hbuf; [done| |done]; split; cbn; first [done | apply Hc | congruence]|].
  destruct (Nat.eqb_spec (length (nagle_buffer c)) 0) as [E0|E0]; cbn [negb].
  - apply nil_length_inv in E0. eapply (sends_data A B env data data (length data) c c); try done. by rewrite E0.
  - eapply (sends_data A B env (nagle_buffer c ++ data) data (length data) (set_nagle_buffer [] c) c); try done; [split; cbn; first [apply Hc | by constructor | done]|apply modify_then].
Qed.
Lemma flush_spec A B env c : addr_ok A -> addr_ok B -> A <> UNSPECIFIED -> env_ok A env -> conn_ok A B c -> sends A B [] (flush_nagle env) c.
Proof.
  intros HA HB HU He Hc. unfold flush_nagle. assert (forall k : TcpConnection -> M unit, sends A B [] (k c) c -> sends A B [] (getc ≫= k) c) as Hget by (intros k (c' & l & r & E & H); exists c', l, r; unfold mbind, M_bind, getc; rewrite E; done). apply Hget.
  assert (sends A B [] (mret tt) c) as Hret by (eexists _, _, _; split; [reflexivity|]; split_and!; try done; by rewrite app_nil_r). destruct (_ || _); [exact Hret|]. destruct (_ || _); [|exact Hret]. cbn [when].
  eapply (sends_data A B env (nagle_buffer c) [] tt (set_nagle_buffer [] c) c); try done; [split; cbn; first [apply Hc | by constructor | done]|apply Hc|apply app_nil_r|].
  unfold mbind, M_bind, modify. destruct (send_data env (nagle_buffer c) (set_nagle_buffer [] c)) as [[c' l] [[]|e]]; [|done]. unfold mret, M_ret. by rewrite app_nil_r.
Qed.
End Stream.
(** ** Two hosts over links that keep order *)
Inductive Act := Send (data : bytes) | Recv (n : nat) | Close | Tick.
Inductive Event := AtA (e : Env) (a : Act) | AtB (e : Env) (a : Act) | ToA (e : Env) | ToB (e : Env).
Section Pair.
Context {CC : CongestionControl}.
Definition call (env : Env) (a : Act) : M bytes :=
  match a with
  | Send d => send env d;; mret []
  | Recv n => recv n
  | Close => close env;; mret []
  | Tick => conn_tick env;; mret []
  end.
(** Whether the call drops buffered data because a segment of it would not fit a packet. *)
Definition overflows (env : Env) (a : Act) (c : TcpConnection) : bool :=
  match a with
  | Send d => match (send env d c).2 with inr BufferFull => true | _ => false end
  | Tick => match (flush_nagle env c).2 with inr BufferFull => true | _ => false end
  | _ => false
  end.
Definition accepted (a : Act) (r : res bytes) : bytes := match a, r with Send d, inl _ => d | _, _ => [] end.
Definition obtained (r : res bytes) : bytes := match r with inl b => b | inr _ => [] end.
(** A packet at the connection it belongs to, as [to_conn] passes it on. *)
Definition deliver (env : Env) (p : bytes) (c : TcpConnection) : TcpConnection * list TcpEffect :=
  match open_packet p with
  | Some (s, _, h, data) => let '(c, l, _) := (modify (fun c => set_remote (mkAddr (V4 s) (port (remote c))) c);; on_packet env h data) c in (c, l)
  | None => (c, [])
  end.
(** Both ends, the packets on the way, what A's writes have accepted and B's reads returned. *)
Record Pair := mkPair { ca : TcpConnection; cb : TcpConnection; qab : list bytes; qba : list bytes; written : bytes; readb : bytes; lost : bool }.
Definition pstep (p : Pair) (e : Event) : Pair :=
  match e with
  | AtA env a => let '(c, l, r) := call env a (ca p) in mkPair c (cb p) (qab p ++ sent l) (qba p) (written p ++ accepted a r) (readb p) (lost p || overflows env a (ca p))
  | AtB env a => let '(c, l, r) := call env a (cb p) in mkPair (ca p) c (qab p) (qba p ++ sent l) (written p) (readb p ++ obtained r) (lost p)
  | ToB env => match qab p with [] => p | k :: q => let '(c, l) := deliver env k (cb p) in mkPair (ca p) c q (qba p ++ sent l) (written p) (readb p) (lost p) end
  | ToA env => match qba p with [] => p | k :: q => let '(c, l) := deliver env k (ca p) in mkPair c (cb p) (qab p ++ sent l) q (written p) (readb p) (lost p) end
  end.
Definition prun (es : list Event) (p : Pair) : Pair := foldl pstep p es.
Definition in_flight (q : list bytes) : bytes := concat (data_of <$> q).
#[local] Arguments in_flight : simpl never.
Definition act_ok (a : Act) : Prop := match a with Send d => Checksum.bytes d | _ => True end.
Definition event_ok (A B : Ipv4Addr) (e : Event) : Prop := match e with AtA env a => env_ok A env /\ act_ok a | AtB env a => env_ok B env /\ act_ok a | ToA env => env_ok A env | ToB env => env_ok B env end.
Lemma in_flight_app k l : in_flight (k ++ l) = in_flight k ++ in_flight l.
Proof. unfold in_flight. by rewrite fmap_app, concat_app. Qed.
(** What a call at one end does, in both directions. *)
Record call_ok (A B : Ipv4Addr) (env : Env) (a : Act) (c c' : TcpConnection) (l : list TcpEffect) (r : res bytes) : Prop := {
  o_conn : conn_ok A B c';
  o_good : Forall (good A B) (sent l);
  o_down : state c <> Established -> state c' <> Established;
  o_out : overflows env a c = false -> in_flight (sent l) ++ nagle_buffer c' = nagle_buffer c ++ accepted a r;
  o_in : rx_buffer c = obtained r ++ rx_buffer c' }.
Section Ends.
Context (A B : Ipv4Addr) (HA : addr_ok A) (HB : addr_ok B) (HU : A <> UNSPECIFIED).
Lemma call_send env d c : env_ok A env -> conn_ok A B c -> Checksum.bytes d -> exists c' l r, call env (Send d) c = (c', l, r) /\ call_ok A B env (Send d) c c' l r.
Proof.
  intros He Hc Hd. destruct (send_spec A B env d c HA HB HU He Hc Hd) as (c' & l & r & E & H1 & [H2 H3] & H4 & H5). unfold call, mbind, M_bind. rewrite E. destruct r as [n|e]; eexists _, _, _; (split; [reflexivity|]); rewrite ?app_nil_r; split; rewrite ?H3; try done.
  unfold overflows. rewrite E. cbn. destruct e; try done; intros _; destruct H5 as [-> ->]; by rewrite app_nil_r.
Qed.
Lemma call_recv env n c : conn_ok A B c -> exists c' l r, call env (Recv n) c = (c', l, r) /\ call_ok A B env (Recv n) c c' l r.
Proof.
  intros Hc. unfold call, recv, getc, mbind, M_bind. destruct (Nat.eqb_spec (length (rx_buffer c)) 0) as [E|E]; eexists _, _, _; (split; [reflexivity|]); split; cbn; rewrite ?app_nil_r; try done.
  - split; cbn; apply Hc.
  - by rewrite take_drop.
Qed.
Lemma keeps_call env a (m : M unit) c : call env a = (m;; mret []) -> keeps A B m -> conn_ok A B c -> (match a with Send _ => False | _ => True end) -> exists c' l r, call env a c = (c', l, r) /\ call_ok A B env a c c' l r.
Proof.
  intros Ec Hm Hc Ha. destruct (Hm c Hc) as (c' & l & [] & E & H1 & H2 & H3 & H4 & H5). rewrite Ec. unfold mbind, M_bind. rewrite E. eexists _, _, _. split; [reflexivity|]. rewrite app_nil_r. destruct (empties_good A B _ H2) as [G1 G2].
  split; try done. intros _. unfold in_flight. rewrite G2, H3. by destruct a; rewrite ?app_nil_r.
Qed.
Lemma keeps_ignore m : keeps A B m -> keeps A B (ignore m).
Proof. intros Hm c Hc. destruct (Hm c Hc) as (c' & l & x & E & H). exists c', l, tt. unfold ignore. by rewrite E. Qed.
Lemma call_tick env c : env_ok A env -> conn_ok A B c -> exists c' l r, call env Tick c = (c', l, r) /\ call_ok A B env Tick c c' l r.
Proof.
  intros He Hc. destruct (flush_spec A B env c HA HB HU He Hc) as (c1 & l1 & r1 & E1 & H1 & [H2 H3] & H4 & H5).
  assert (keeps A B (ignore (check_retransmit env);; ignore (check_keepalive env);; ignore (check_syn_retransmit env))) as K.
  { repeat (apply keeps_bind; [apply keeps_ignore|intros _]); [by apply keeps_retransmit|by apply keeps_keepalive|apply keeps_ignore; by apply keeps_syn]. }
  destruct (K c1 H1) as (c2 & l2 & [] & E2 & K1 & K2 & K3 & K4 & K5). destruct (empties_good A B _ K2) as [G1 G2].
  assert (conn_tick env c = (c2, l1 ++ l2, inl tt)) as Ec by (unfold conn_tick; unfold mbind at 1, M_bind at 1, ignore at 1; by rewrite E1, E2).
  unfold call. unfold mbind, M_bind. rewrite Ec. eexists _, _, _. split; [reflexivity|]. rewrite app_nil_r. split; try done.
  - rewrite sent_app. by apply Forall_app.
  - intros Hn. apply K5. by rewrite H3.
  - unfold overflows. rewrite E1. cbn [snd accepted]. intros Ho. rewrite sent_app, in_flight_app. unfold in_flight. rewrite G2, app_nil_r, K3. destruct r1 as [[]|e]; [by rewrite H5|]. destruct e; try done; destruct H5 as [-> ->]; by rewrite app_nil_r.
  - cbn. by rewrite K4, H2.
Qed.
Lemma call_spec env a c : env_ok A env -> act_ok a -> conn_ok A B c -> exists c' l r, call env a c = (c', l, r) /\ call_ok A B env a c c' l r.
Proof.
  intros He Ha Hc. destruct a as [d|n| |]; [by apply call_send|by apply call_recv|by apply (keeps_call env Close (close env)); [|apply keeps_close| |]|by apply call_tick].
Qed.
Lemma deliver_spec env p c : env_ok A env -> conn_ok A B c -> good B A p -> exists c' l f, deliver env p c = (c', l) /\ conn_ok A B c' /\ Forall (empty_packet A B) (sent l) /\ received f (data_of p) c c'.
Proof.
  intros He Hc (f & d & h & Ep & Ef & Hh). unfold deliver, data_of. rewrite Ep, modify_then. set (c0 := set_remote _ c).
  assert (conn_ok A B c0) as H0 by (split; cbn; first [apply Hc | done]).
  destruct (on_packet_spec A B HA HB HU env h d c0 He H0 Hh) as (c' & l & E & H1 & H2 & H3). rewrite E. by exists c', l, (rst (flags h)).
Qed.
End Ends.
(** The invariant: what B has is the start of what A wrote, and the rest is on its way while B is open. *)
Record stream_ok (A B : Ipv4Addr) (p : Pair) : Prop := {
  s_a : conn_ok A B (ca p);
  s_b : conn_ok B A (cb p);
  s_ab : Forall (good A B) (qab p);
  s_ba : Forall (good B A) (qba p);
  s_prefix : lost p = false -> (readb p ++ rx_buffer (cb p)) `prefix_of` written p;
  s_all : lost p = false -> state (cb p) = Established -> written p = readb p ++ rx_buffer (cb p) ++ in_flight (qab p) ++ nagle_buffer (ca p) }.
Definition hosts_ok (A B : Ipv4Addr) : Prop := addr_ok A /\ addr_ok B /\ A <> UNSPECIFIED /\ B <> UNSPECIFIED.
Lemma at_a_ok A B p env a : hosts_ok A B -> env_ok A env -> act_ok a -> stream_ok A B p -> stream_ok A B (pstep p (AtA env a)).
Proof.
  intros (HA & HB & UA & UB) He Ha [H1 H2 H3 H4 H5 H6]. cbn. destruct (call_spec A B HA HB UA env a (ca p) He Ha H1) as (c' & l & r & -> & [O1 O2 O3 O4 O5]). split; cbn; try done; [by apply Forall_app| |].
  - intros [L _]%orb_false_iff. by apply prefix_app_r, H5.
  - intros [L Lo]%orb_false_iff Hs. rewrite (H6 L Hs), in_flight_app, <-!app_assoc. by rewrite (O4 Lo).
Qed.
Lemma at_b_ok A B p env a : hosts_ok A B -> env_ok B env -> act_ok a -> stream_ok A B p -> stream_ok A B (pstep p (AtB env a)).
Proof.
  intros (HA & HB & UA & UB) He Ha [H1 H2 H3 H4 H5 H6]. cbn. destruct (call_spec B A HB HA UB env a (cb p) He Ha H2) as (c' & l & r & -> & [O1 O2 O3 O4 O5]). rewrite O5 in H5, H6. split; cbn; try done; [by apply Forall_app| |].
  - by rewrite <-app_assoc.
  - intros L Hs. rewrite (H6 L), <-!app_assoc; [done|]. destruct (decide (state (cb p) = Established)) as [|Hn]; [done|by destruct (O3 Hn)].
Qed.
Lemma to_a_ok A B p env : hosts_ok A B -> env_ok A env -> stream_ok A B p -> stream_ok A B (pstep p (ToA env)).
Proof.
  intros (HA & HB & UA & UB) He Hp. pose proof Hp as [H1 H2 H3 H4 H5 H6]. cbn. destruct (qba p) as [|k q]; [done|]. apply Forall_cons_1 in H4 as [Hk H4]. destruct (deliver_spec A B HA HB UA env k (ca p) He H1 Hk) as (c' & l & f & -> & D1 & D2 & D3 & _). destruct (empties_good A B _ D2) as [G1 G2].
  split; cbn; try done; [by apply Forall_app|]. intros L Hs. rewrite (H6 L Hs), in_flight_app, D3. change (in_flight (sent l)) with (concat (data_of <$> sent l)). by rewrite G2, app_nil_r.
Qed.
Lemma to_b_ok A B p env : hosts_ok A B -> env_ok B env -> stream_ok A B p -> stream_ok A B (pstep p (ToB env)).
Proof.
  intros (HA & HB & UA & UB) He Hp. pose proof Hp as [H1 H2 H3 H4 H5 H6]. cbn. destruct (qab p) as [|k q]; [done|]. apply Forall_cons_1 in H3 as [Hk H3]. destruct (deliver_spec B A HB HA UB env k (cb p) He H2 Hk) as (c' & l & f & -> & D1 & D2 & D3 & D4 & D5). destruct (empties_good B A _ D2) as [G1 G2].
  assert (in_flight (k :: q) = data_of k ++ in_flight q) as Ef by done. rewrite Ef in H6.
  destruct (decide (state (cb p) = Established)) as [Es|Es].
  - specialize (D5 Es). destruct f; [destruct D5 as [D5 D6]; split; cbn; rewrite ?D6; try done; by apply Forall_app|].
    assert (lost p = false -> written p = readb p ++ rx_buffer c' ++ in_flight q ++ nagle_buffer (ca p)) as Hw by (intros L; rewrite (H6 L Es), D5, <-!app_assoc; done). split; cbn; try done; [by apply Forall_app| |intros L _; by apply Hw]. intros L. rewrite (Hw L), app_assoc. by apply prefix_app_r.
  - destruct (D4 Es) as [D6 D7]. split; cbn; rewrite ?D7; try done. by apply Forall_app.
Qed.
Lemma prun_ok A B es p : hosts_ok A B -> Forall (event_ok A B) es -> stream_ok A B p -> stream_ok A B (prun es p).
Proof.
  intros Hh He. unfold prun. revert p. induction He as [|e es He _ IH]; intros p Hp; [done|]. cbn [foldl]. apply IH.
  destruct e as [env a|env a|env|env]; cbn in He; [by apply at_a_ok; try apply He|by apply at_b_ok; try apply He|by apply to_a_ok|by apply to_b_ok].
Qed.
(** Two connected ends, nothing sent yet. *)
Definition connected (A B : Ipv4Addr) (a b : TcpConnection) : Prop := conn_ok A B a /\ conn_ok B A b /\ nagle_buffer a = [] /\ rx_buffer b = [].
Definition pair_of (a b : TcpConnection) : Pair := mkPair a b [] [] [] [] false.

(** C12: Over links that keep order, whatever the two ends call and whenever the timers run: as long as no write of A was refused or dropped for exceeding a packet, what B has read and buffered is the start of what A's writes accepted; and while B is established nothing is missing: the rest is in packets on the way or in A's Nagle buffer, in order. *)
Theorem tcp_stream A B a b es : hosts_ok A B -> connected A B a b -> Forall (event_ok A B) es -> let p := prun es (pair_of a b) in lost p = false ->
  (readb p ++ rx_buffer (cb p)) `prefix_of` written p /\
  (state (cb p) = Established -> written p = readb p ++ rx_buffer (cb p) ++ in_flight (qab p) ++ nagle_buffer (ca p)).
Proof.
  intros Hh (H1 & H2 & H3 & H4) He p L. destruct (prun_ok A B es (pair_of a b) Hh He) as [_ _ _ _ P1 P2]; [|by split; [apply P1|apply P2]].
  split; cbn; try done; rewrite ?H3, ?H4; [by intros|done].
Qed.
Lemma open_packet_inv p s d h data : open_packet p = Some (s, d, h, data) -> exists pk, parse_packet p = inl pk /\ verify_checksum s d (payload pk) = true /\ parse (payload pk) = inl h /\ data = drop (header_len h) (payload pk).
Proof.
  unfold open_packet. destruct (parse_packet p) as [pk|]; [|done]. cbv zeta. destruct (verify_checksum _ _ _) eqn:E2; [|done]. destruct (parse (payload pk)) as [h'|] eqn:E3; [|done]. intros [= <- <- <- <-]. by exists pk.
Qed.
(** The tables hand a packet to the connection its addresses and ports are hashed to, as [deliver] does. *)
Lemma process_delivers env ticks p s d h data t id c : open_packet p = Some (s, d, h, data) -> tcp_hash_lookup (s, src_port h, d, dst_port h) t = Some id -> conns t !! id = Some c ->
  exists pk, parse_packet p = inl pk /\ let '(t', l, _) := process_packet env ticks s d (payload pk) t in t' = set_conns (<[id := (deliver env p c).1]> (conns t)) t /\ sent l = sent (deliver env p c).2.
Proof.
  intros Ep Eh Ec. unfold deliver. rewrite Ep. destruct (open_packet_inv _ _ _ _ _ Ep) as (pk & E1 & E2 & E3 & ->). exists pk. split; [done|].
  unfold process_packet. rewrite E2, E3. cbn [negb]. cbv zeta. rewrite Eh. cbn [mbind option_bind]. rewrite bool_decide_true by by rewrite Ec. unfold to_conn, on_conn. rewrite Ec. match goal with |- context [match ?m c with _ => _ end] => by destruct (m c) as [[c' l] r] end.
Qed.
End Pair.
(** ** Opening *)
Section Opening.
Context {CC : CongestionControl}.
(** A segment does not depend on the state of the connection, and sending it changes nothing. *)
Lemma send_packet_state env f data s c : send_packet env f data (set_state s c) = (let '(_, l, r) := send_packet env f data c in (set_state s c, l, r)).
Proof.
  unfold send_packet, getc, mbind, M_bind. cbn [set_state cmss]. cbv zeta. set (opts := if syn f then _ else _). set (w := ((_ + _) / 4)%nat). change (header_of f w (set_state s c)) with (header_of f w c).
  destruct (segment_of _ _ _ _) as [seg|e]; [|done]. cbn [set_state local remote]. unfold transmit, fail, emit. destruct (ip (local c)) as [s4|s6], (ip (remote c)) as [d4|d6]; try done.
  - destruct (serialize _ _) as [b|e]; [|done]. destruct (build_packet _ _ _ _ _) as [p|e]; [|done]. by destruct (link env p).
  - destruct (serialize _ _) as [b|e]; [|done]. by destruct (link env _).
Qed.
Lemma state_eta s c : state c = s -> c = set_state s (set_state Established c).
Proof. destruct c. cbn. by intros ->. Qed.
(** A connection attempt: as an open connection but for the state, with its SYN timer running. *)
Record dialing (A B : Ipv4Addr) (c : TcpConnection) : Prop := {
  d_state : state c = SynSent;
  d_wire : conn_ok A B (set_state Established c);
  d_first : syn_first_send_time c <> 0 }.
Definition syn_ticks (envs : list Env) (c : TcpConnection) : TcpConnection * list TcpEffect := foldl (fun '(c, l) env => let '(c, l', _) := check_syn_retransmit env c in (c, l ++ l')) (c, []) envs.
(** How often the timer runs out when each expiry starts it again. *)
Fixpoint expiries (first : Z) (times : list Z) : nat :=
  match times with
  | [] => 0
  | t :: times => if SYN_TIMEOUT_TICKS <=? u64_sub t first then S (expiries t times) else expiries first times
  end.
(** A SYN goes out whatever the state. *)
Lemma send_syn A B env c : addr_ok A -> addr_ok B -> A <> UNSPECIFIED -> env_ok A env -> conn_ok A B (set_state Established c) -> exists p, send_packet env flags_syn [] c = (c, [Sent p; Stat OutSegs 1], inl tt) /\ opens A B flags_syn [] p.
Proof.
  intros HA HB HU He Hc. pose proof (send_packet_spec A B env flags_syn [] (set_state Established c) HA HB HU He Hc ltac:(constructor)) as Hs. cbn [words_of flags_syn syn length Nat.mul Nat.add Nat.leb] in Hs. destruct Hs as (p & Es & Hp). exists p. split; [|done].
  rewrite (state_eta (state c) c) at 1 by done. rewrite send_packet_state, Es, <-state_eta by done. done.
Qed.
Lemma syn_timer A B env c : addr_ok A -> addr_ok B -> A <> UNSPECIFIED -> env_ok A env -> now env <> 0 -> dialing A B c -> syn_retransmit_count c < 3 ->
  exists c' l, check_syn_retransmit env c = (c', l, inl tt) /\ dialing A B c' /\
    if SYN_TIMEOUT_TICKS <=? u64_sub (now env) (syn_first_send_time c) then syn_retransmit_count c' = syn_retransmit_count c + 1 /\ syn_first_send_time c' = now env /\ exists p, sent l = [p] /\ opens A B flags_syn [] p else c' = c /\ l = [].
Proof.
  intros HA HB HU He Hn [D1 D2 D3] Hc. unfold check_syn_retransmit. unfold mbind at 1, M_bind at 1, getc. rewrite D1, (proj2 (Z.eqb_neq _ _)) by done. cbn [bool_decide negb orb]. rewrite bool_decide_true by done. cbn [negb orb].
  destruct (SYN_TIMEOUT_TICKS <=? _); cbn [when]; [|by exists c, []]. rewrite (proj2 (Z.leb_gt _ _)) by (unfold SYN_MAX_RETRANSMIT; lia). rewrite modify_then. set (c1 := set_syn_retransmit_count _ c).
  
  destruct (send_syn A B env c1 HA HB HU He) as (p & Es & Hp); [split; cbn; apply D2|]. unfold mbind at 1, M_bind at 1. rewrite Es. eexists _, _. split; [reflexivity|]. split; [|by split_and!; try done; exists p].
  split; [done| |done]. split; cbn; apply D2.
Qed.
Lemma syn_gives_up env c : state c = SynSent -> syn_first_send_time c <> 0 -> syn_retransmit_count c = 3 ->
  check_syn_retransmit env c = if SYN_TIMEOUT_TICKS <=? u64_sub (now env) (syn_first_send_time c) then (set_state Closed c, [Stat AttemptFails 1], inl tt) else (c, [], inl tt).
Proof.
  intros D1 D3 Hc. unfold check_syn_retransmit, mbind, M_bind, getc. rewrite bool_decide_true, (proj2 (Z.eqb_neq _ _)) by done. cbn [negb orb]. destruct (SYN_TIMEOUT_TICKS <=? _); cbn [when]; [|done]. by rewrite Hc.
Qed.
Lemma syn_idle env c : state c <> SynSent -> check_syn_retransmit env c = (c, [], inl tt).
Proof. intros H. unfold check_syn_retransmit, mbind, M_bind, getc. by rewrite bool_decide_false. Qed.
Lemma syn_ticks_cons env envs c : syn_ticks (env :: envs) c = let '(c', l, _) := check_syn_retransmit env c in let '(c'', l') := syn_ticks envs c' in (c'', l ++ l').
Proof.
  unfold syn_ticks. cbn [foldl app]. destruct (check_syn_retransmit env c) as [[c' l] r]. cbn [app]. generalize c'. clear. assert (forall k c0, foldl (fun '(c, l) env => let '(c, l', _) := check_syn_retransmit env c in (c, l ++ l')) (c0, k) envs = let '(c'', l') := foldl (fun '(c, l) env => let '(c, l', _) := check_syn_retransmit env c in (c, l ++ l')) (c0, []) envs in (c'', k ++ l')) as H; [|apply H].
  induction envs as [|e envs IH]; intros k c0; cbn [foldl]; [by rewrite app_nil_r|]. destruct (check_syn_retransmit e c0) as [[c1 l1] r1]. rewrite IH, (IH ([] ++ l1)). destruct (foldl _ _ _) as [c2 l2]. by rewrite <-!app_assoc.
Qed.
Lemma closed_ticks envs c : state c = Closed -> syn_ticks envs c = (c, []).
Proof. intros H. induction envs as [|e envs IH]; [done|]. rewrite syn_ticks_cons, syn_idle, IH by congruence. done. Qed.
Lemma dialing_ticks A B envs : addr_ok A -> addr_ok B -> A <> UNSPECIFIED -> Forall (fun env => env_ok A env /\ now env <> 0) envs -> forall c, dialing A B c -> 0 <= syn_retransmit_count c <= 3 ->
  let k := expiries (syn_first_send_time c) (now <$> envs) in let left := (3 - Z.to_nat (syn_retransmit_count c))%nat in
  exists c' l, syn_ticks envs c = (c', l) /\ Forall (opens A B flags_syn []) (sent l) /\ length (sent l) = Nat.min left k /\ state c' = (if (k <=? left)%nat then SynSent else Closed).
Proof.
  intros HA HB HU. induction 1 as [|env envs [He Hn] _ IH]; intros c Hc Hr k left; [exists c, []; split_and!; [done|constructor|cbn; lia|apply Hc]|]. rewrite syn_ticks_cons. unfold k. rewrite fmap_cons. cbn [expiries].
  destruct (decide (syn_retransmit_count c = 3)) as [E3|E3].
  - rewrite syn_gives_up by (done || apply Hc). destruct (SYN_TIMEOUT_TICKS <=? _).
    + rewrite closed_ticks by done. eexists _, _. split; [reflexivity|]. unfold left. rewrite E3. by split_and!; [constructor|..].
    + destruct (IH c Hc Hr) as (c' & l & -> & H). by exists c', l.
  - destruct (syn_timer A B env c HA HB HU He Hn Hc ltac:(lia)) as (c1 & l1 & -> & D1 & H1). destruct (SYN_TIMEOUT_TICKS <=? _).
    + destruct H1 as (R1 & F1 & p & S1 & P1). destruct (IH c1 D1 ltac:(lia)) as (c' & l & -> & H2 & H3 & H4). rewrite F1, R1 in *. exists c', (l1 ++ l). split; [done|]. rewrite sent_app, S1. unfold left. replace (Z.to_nat (syn_retransmit_count c + 1)) with (S (Z.to_nat (syn_retransmit_count c))) in * by lia.
      split; [by constructor|]. split; [cbn [app length]; lia|]. rewrite H4. repeat case_match; try done; rewrite ?Nat.leb_gt, ?Nat.leb_le in *; lia.
    + destruct H1 as [-> ->]. destruct (IH c Hc Hr) as (c' & l & -> & H). by exists c', l.
Qed.
Lemma dial_next A B env c : addr_ok A -> addr_ok B -> A <> UNSPECIFIED -> env_ok A env -> dialing A B c -> exists p l, (send_packet env flags_syn [];; emit (Stat ActiveOpens 1)) c = (c, l, inl tt) /\ sent l = [p] /\ opens A B flags_syn [] p.
Proof.
  intros HA HB HU He [D1 D2 D3]. destruct (send_syn A B env c HA HB HU He D2) as (p & Es & Hp). unfold mbind, M_bind. rewrite Es. by eexists p, _.
Qed.
Lemma connect_dials A B env r c : addr_ok A -> addr_ok B -> A <> UNSPECIFIED -> env_ok A env -> now env <> 0 -> state c = Closed -> conn_ok A B (set_state Established (set_remote r c)) ->
  exists c' p l, connect env r c = (c', l, inl tt) /\ sent l = [p] /\ opens A B flags_syn [] p /\ dialing A B c' /\ syn_retransmit_count c' = 0 /\ syn_first_send_time c' = now env.
Proof.
  intros HA HB HU He Hn Hc Hw. unfold connect. unfold mbind at 1, M_bind at 1, getc. rewrite bool_decide_true by done. cbn [negb]. rewrite modify_then.
  match goal with |- context [(_ ≫= _) ?x] => assert (dialing A B x) as Hd by (split; [done|split; cbn; first [apply Hw | by apply Z.mod_pos_bound | done]|done]); destruct (dial_next A B env x HA HB HU He Hd) as (p & l & -> & H1 & H2); by exists x, p, l end.
Qed.
(** C38: An attempt to connect that is never answered: [connect] sends a SYN, each of the first three expiries of its timer sends another, the fourth closes the connection and after that nothing is sent; the number of SYNs and the final state are exact for every sequence of timer calls. *)
Theorem connect_gives_up A B env r c envs : addr_ok A -> addr_ok B -> A <> UNSPECIFIED -> env_ok A env -> now env <> 0 -> state c = Closed -> conn_ok A B (set_state Established (set_remote r c)) -> Forall (fun env => env_ok A env /\ now env <> 0) envs ->
  let k := expiries (now env) (now <$> envs) in
  exists c1 l1 c2 l2, connect env r c = (c1, l1, inl tt) /\ syn_ticks envs c1 = (c2, l2) /\ Forall (opens A B flags_syn []) (sent (l1 ++ l2)) /\ length (sent (l1 ++ l2)) = S (Nat.min 3 k) /\ state c2 = (if (k <=? 3)%nat then SynSent else Closed).
Proof.
  intros HA HB HU He Hn Hs Hc Hes k. destruct (connect_dials A B env r c HA HB HU He Hn Hs Hc) as (c1 & p & l1 & E1 & S1 & P1 & D1 & R1 & F1). destruct (dialing_ticks A B envs HA HB HU Hes c1 D1 ltac:(lia)) as (c2 & l2 & E2 & H1 & H2 & H3).
  rewrite R1, F1 in *. exists c1, l1, c2, l2. rewrite sent_app, S1. split_and!; try done; [by constructor|]. cbn [app length]. by rewrite H2.
Qed.
End Opening.
(** ** Accepting *)
Inductive TEvent := ECreate (f : AddressFamily) | EBind (id : Z) (a : SocketAddr) | EConnect (env : Env) (id : Z) (r : SocketAddr) | EListen (id backlog : Z) | ESend (env : Env) (id : Z) (data : bytes) | ERecv (id : Z) (n : nat) | EClose (env : Env) (id : Z) | EPacket (env : Env) (ticks : Z) (s d : Ipv4Addr) (payload : bytes) | EPacket6 (env : Env) (ticks : Z) (s d : Ipv6Addr) (payload : bytes) | ETick (env : Env) | EGc (env : Env).
Section Accepting.
Context {CC : CongestionControl}.
(** What the operations other than [accept] do to the tables. *)
Definition tstep (t : Tcp) (e : TEvent) : Tcp :=
  match e with
  | ECreate f => (create_socket f t).1
  | EBind id a => (tcp_bind id a t).1.1
  | EConnect env id r => (tcp_connect env id r t).1.1
  | EListen id backlog => (tcp_listen id backlog t).1.1
  | ESend env id data => (tcp_send env id data t).1.1
  | ERecv id n => (tcp_recv id n t).1.1
  | EClose env id => (tcp_close env id t).1.1
  | EPacket env ticks s d p => (process_packet env ticks s d p t).1.1
  | EPacket6 env ticks s d p => (process_ipv6_packet env ticks s d p t).1.1
  | ETick env => (tcp_timer_tick env t).1
  | EGc env => time_wait_gc env t
  end.
(** A call of [accept] between the locks it takes: the state of the listener; a copy of the queue; the state of a
    child; its peer; the queue again. *)
Inductive AcceptPoint := AListening | ACopy | ATest (children : list Z) | APeer (child : Z) | ARemove (child : Z) (peer : SocketAddr).
Definition accept_step (id : Z) (p : AcceptPoint) (t : Tcp) : Tcp * (AcceptPoint + res (Z * SocketAddr)) :=
  match p with
  | AListening => (t, match conns t !! id with Some c => if negb (in_state (state c) Listen) then inr (inr ProtocolError) else inl ACopy | None => inr (inr ProtocolError) end)
  | ACopy => (t, inl (ATest (default [] (accept_queue t !! id))))
  | ATest [] => (t, inr (inr WouldBlock))
  | ATest (child :: l) => (t, inl (if established t child then APeer child else ATest l))
  | APeer child => (t, inl (ARemove child (match conns t !! child with Some c => remote c | None => addr_default end)))
  | ARemove child peer => (match accept_queue t !! id with Some l => set_accept_queue (<[id := filter (fun x => x <> child) l]> (accept_queue t)) t | None => t end, inr (inl (child, peer)))
  end.
(** The tables, the calls of [accept] that are under way (listener and place), and the children returned. *)
Record World := mkWorld { w_tcp : Tcp; w_calls : gmap Z (Z * AcceptPoint); w_out : list Z }.
Inductive WEvent := Other (e : TEvent) | Accept (thread id : Z) | Resume (thread : Z).
Definition wstep (w : World) (e : WEvent) : World :=
  match e with
  | Other e => mkWorld (tstep (w_tcp w) e) (w_calls w) (w_out w)
  | Accept th id => match w_calls w !! th with Some _ => w | None => mkWorld (w_tcp w) (<[th := (id, AListening)]> (w_calls w)) (w_out w) end
  | Resume th => match w_calls w !! th with
      | None => w
      | Some (id, p) => let '(t, r) := accept_step id p (w_tcp w) in
          match r with
          | inl p' => mkWorld t (<[th := (id, p')]> (w_calls w)) (w_out w)
          | inr r => mkWorld t (delete th (w_calls w)) (w_out w ++ match r with inl (child, _) => [child] | inr _ => [] end)
          end
      end
  end.
(** A call that is not interrupted does what [tcp_accept] does. *)
Fixpoint accept_alone (fuel : nat) (id : Z) (p : AcceptPoint) (t : Tcp) : option (Tcp * res (Z * SocketAddr)) :=
  match fuel with
  | O => None
  | S f => match accept_step id p t with (t', inl p') => accept_alone f id p' t' | (t', inr r) => Some (t', r) end
  end.
Lemma accept_search id l t f : (length l + 2 < f)%nat -> accept_alone f id (ATest l) t = match find (established t) l with
  | Some child => Some (match accept_queue t !! id with Some l => set_accept_queue (<[id := filter (fun x => x <> child) l]> (accept_queue t)) t | None => t end, inl (child, match conns t !! child with Some c => remote c | None => addr_default end))
  | None => Some (t, inr WouldBlock)
  end.
Proof.
  revert f. induction l as [|c l IH]; intros [|f] Hf; cbn [length] in Hf; [lia|done|lia|]. cbn [accept_alone accept_step find]. destruct (established t c); [|apply IH; lia]. destruct f as [|[|f]]; [lia|lia|]. done.
Qed.
Lemma accept_uninterrupted id t : accept_alone (length (default [] (accept_queue t !! id)) + 5) id AListening t = Some (tcp_accept id t).
Proof.
  replace (length (default [] (accept_queue t !! id)) + 5)%nat with (S (S (length (default [] (accept_queue t !! id)) + 3)))%nat by lia. assert (length (default [] (accept_queue t !! id)) + 2 < length (default [] (accept_queue t !! id)) + 3)%nat as Hf by lia. revert Hf. generalize (length (default [] (accept_queue t !! id)) + 3)%nat as f. intros f Hf.
  unfold tcp_accept. cbn [accept_alone accept_step]. destruct (conns t !! id) as [c|]; [|done]. destruct (negb _); [done|]. cbn [accept_step]. rewrite accept_search by done. by destruct (find _ _).
Qed.
(** Calls of [accept] on one listener do not overlap. *)
Definition may_start (th id : Z) (w : World) : bool := forallb (fun x => negb (x.2.1 =? id)) (map_to_list (delete th (w_calls w))).
Fixpoint serial (es : list WEvent) (w : World) : bool :=
  match es with [] => true | e :: es' => match e with Accept th id => may_start th id w | _ => true end && serial es' (wstep w e) end.
Definition same_queue (t t' : Tcp) : Prop := accept_queue t' = accept_queue t /\ next_socket t' = next_socket t.
#[local] Instance same_queue_preorder : PreOrder same_queue.
Proof. split; [by split|]. intros a b c [H1 H2] [H3 H4]. split; congruence. Qed.
(** One identifier may be taken, and queued at a listener. *)
Inductive grown (t t' : Tcp) : Prop :=
| grown_same : same_queue t t' -> grown t t'
| grown_id : accept_queue t' = accept_queue t -> next_socket t' = u32_add (next_socket t) 1 -> grown t t'
| grown_child l : accept_queue t' = <[l := default [] (accept_queue t !! l) ++ [next_socket t]]> (accept_queue t) -> next_socket t' = u32_add (next_socket t) 1 -> grown t t'.
Lemma grown_after t t1 t' : same_queue t t1 -> grown t1 t' -> grown t t'.
Proof.
  intros [H1 H2] [S|E1 E2|l E1 E2]; [apply grown_same; by etrans; [split|]|apply grown_id; congruence|apply (grown_child _ _ l); congruence].
Qed.
Lemma on_conn_same {X : Type} id e (m : M X) t : same_queue t (on_conn id e m t).1.1.
Proof. unfold on_conn. destruct (conns t !! id) as [c|]; [|done]. by destruct (m c) as [[c' l] r]. Qed.
Lemma hash_insert_same c t : same_queue t (tcp_hash_insert c t).
Proof. unfold tcp_hash_insert. destruct (_ || _); [done|]. by destruct (tuple_of c). Qed.
Lemma drop_conn_same t l : same_queue t (foldl drop_conn t l).
Proof.
  revert t. induction l as [|id l IH]; intros t; [done|]. cbn [foldl]. etrans; [|apply IH]. unfold drop_conn, tcp_hash_remove. destruct (conns t !! id) as [c|]; [|done]. by destruct (tuple_of c).
Qed.
Lemma tick_same env t : same_queue t (tcp_timer_tick env t).1.
Proof.
  unfold tcp_timer_tick. assert (forall l x, same_queue x.1 (foldl (tick_one env) x l).1) as H.
  { induction l as [|id l IH]; intros [u k]; [done|]. cbn [foldl]. etrans; [|apply IH]. unfold tick_one. pose proof (on_conn_same id ProtocolError (conn_tick env) u) as H. by destruct (on_conn _ _ _ u) as [[u' k'] r]. }
  specialize (H (ids t) (t, [])). destruct (foldl _ _ _) as [u k]. cbn [fst] in *. etrans; [exact H|apply drop_conn_same].
Qed.
(** Sending leaves the connection as it is. *)
Lemma send_packet_same env f data c : (send_packet env f data c).1.1 = c.
Proof.
  unfold send_packet, getc, mbind, M_bind. cbv zeta. destruct (segment_of _ _ _ _) as [seg|e]; [|done]. unfold transmit, fail, emit. destruct (ip (local c)) as [s4|s6], (ip (remote c)) as [d4|d6]; try done.
  - destruct (serialize _ _) as [b|e]; [|done]. destruct (build_packet _ _ _ _ _) as [p|e]; [|done]. by destruct (link env p).
  - destruct (serialize _ _) as [b|e]; [|done]. by destruct (link env _).
Qed.
Lemma answer_syn_same env c : (answer_syn env c).1 = c.
Proof. unfold answer_syn. pose proof (send_packet_same env flags_syn_ack [] c) as H. by destruct (send_packet _ _ _ _) as [[c' l] r]. Qed.
Lemma child_grown listener c t : cid c = next_socket t -> grown t (add_child listener c (allocate_socket_id t).2).
Proof.
  intros E. unfold add_child. set (t1 := set_conns _ _). destruct (hash_insert_same c t1) as [H1 H2]. apply (grown_child _ _ listener); cbn [accept_queue set_accept_queue next_socket]; [by rewrite H1, E|by rewrite H2].
Qed.
Lemma cookies_same listener t : same_queue t (should_use_syn_cookies listener t).2.
Proof. unfold should_use_syn_cookies. destruct (negb _); [done|]. by destruct (_ <=? _)%nat. Qed.
Lemma validate_same ticks k si di sp dp t : same_queue t (validate ticks k si di sp dp t).1.2.
Proof. unfold validate. by destruct (validate_syn_cookie _ _ _ _ _ _ _ _) as [r s]. Qed.
Lemma passive_open_grown env f listener a h cookie t : (forall m u g, cookie = Some g -> same_queue u (g m u).2) -> grown t (passive_open env f listener a h cookie t).1.
Proof.
  intros Hg. unfold passive_open. pose proof (cookies_same listener t) as H0. destruct (should_use_syn_cookies listener t) as [use u]. cbn [snd] in H0. apply (grown_after t u _ H0). cbv zeta. destruct (conns u !! listener) as [lc|]; [|by apply grown_same].
  assert (forall c l0, cid c = next_socket u -> grown u (let '(c', l) := answer_syn env c in (add_child listener c' (allocate_socket_id u).2, l ++ l0)).1) as Hc.
  { intros c l0 Ec. pose proof (answer_syn_same env c) as E. destruct (answer_syn env c) as [c' l]. cbn [fst] in *. subst c'. by apply child_grown. }
  destruct use; [|cbn [allocate_socket_id]; apply Hc; unfold negotiate_mss; destruct (mss _) as [m|]; [destruct (_ && _)|]; reflexivity].
  destruct cookie as [g|]; [|cbn [allocate_socket_id]; by apply Hc]. specialize (Hg (default 1460 (mss (reread_options h))) u g eq_refl). destruct (g _ u) as [k u']. cbn [snd] in Hg. apply (grown_after u u' _ Hg). cbn [allocate_socket_id]. destruct (answer_syn _ _) as [c' l]. by apply grown_id.
Qed.
Lemma to_listener_same env listener a h data t : same_queue t (to_listener env listener a h data t).1.1.
Proof. unfold to_listener. destruct (conns t !! listener); [|done]. apply on_conn_same. Qed.
Lemma prepend_fst {X Y : Type} (m : Tcp * list X * Y) k : (let '(t, l, r) := m in (t, k :: l, r)).1.1 = m.1.1.
Proof. by destruct m as [[? ?] ?]. Qed.
Lemma prepend_all_fst {X Y : Type} (m : Tcp * list X * Y) k : (let '(t, l, r) := m in (t, k ++ l, r)).1.1 = m.1.1.
Proof. by destruct m as [[? ?] ?]. Qed.
Lemma process_grown env ticks s d p t : grown t (process_packet env ticks s d p t).1.1.
Proof.
  unfold process_packet. destruct (negb _); [by apply grown_same|]. destruct (parse p) as [h|e]; [|by apply grown_same]. cbv zeta. rewrite prepend_fst. destruct (tcp_hash_lookup _ _ ≫= _) as [id|]; [apply grown_same, on_conn_same|].
  destruct (listeners t !! _) as [listener|]; [|by apply grown_same]. destruct (syn (flags h)).
  { match goal with |- grown _ (let '(a, b) := ?m in _).1.1 => assert (grown t m.1) as H end; [|by destruct (passive_open _ _ _ _ _ _ _)]. apply passive_open_grown. intros m u g [= <-]. by destruct (generate_syn_cookie ticks (secret u) (to_u32 s) (to_u32 d) (src_port h) (dst_port h) m (cookie_stats u)). }
  destruct (ack (flags h)); [|apply grown_same, to_listener_same]. pose proof (validate_same ticks (u32_sub (ack_num h) 1) (to_u32 s) (to_u32 d) (src_port h) (dst_port h) t) as H. destruct (validate _ _ _ _ _ _ _) as [[[m|] u] l]; cbn [fst snd] in H; apply (grown_after t u _ H).
  - destruct (conns u !! listener) as [lc|]; [|by apply grown_same]. by apply child_grown.
  - rewrite prepend_all_fst. apply grown_same, to_listener_same.
Qed.
Lemma process6_grown env ticks s d p t : grown t (process_ipv6_packet env ticks s d p t).1.1.
Proof.
  unfold process_ipv6_packet. destruct (negb _); [by apply grown_same|]. destruct (parse p) as [h|e]; [|by apply grown_same]. cbv zeta. rewrite prepend_fst. destruct (find _ _ ≫= _) as [id|]; [apply grown_same, on_conn_same|].
  destruct (listeners t !! _) as [listener|]; [|by apply grown_same]. destruct (syn (flags h)).
  { match goal with |- grown _ (let '(a, b) := ?m in _).1.1 => assert (grown t m.1) as H end; [|by destruct (passive_open _ _ _ _ _ _ _)]. by apply passive_open_grown. }
  destruct (ack (flags h)); [|apply grown_same, to_listener_same]. pose proof (validate_same ticks (u32_sub (ack_num h) 1) (v6_word s) (v6_word d) (src_port h) (dst_port h) t) as H. destruct (validate _ _ _ _ _ _ _) as [[[m|] u] l]; cbn [fst snd] in H; apply (grown_after t u _ H).
  - destruct (conns u !! listener) as [lc|]; [|by apply grown_same]. by apply child_grown.
  - rewrite prepend_all_fst. apply grown_same, to_listener_same.
Qed.
(** Identifiers in the queues and those returned are below the counter and all different. *)
Record queues_ok (t : Tcp) (acc : list Z) : Prop := {
  q_below l q x : accept_queue t !! l = Some q -> x ∈ q -> x < next_socket t /\ x ∉ acc;
  q_nodup l q : accept_queue t !! l = Some q -> NoDup q;
  q_apart l l' q q' x : accept_queue t !! l = Some q -> accept_queue t !! l' = Some q' -> x ∈ q -> x ∈ q' -> l = l';
  q_acc : NoDup acc;
  q_acc_below : Forall (fun x => x < next_socket t) acc }.
Lemma queues_child (m : gmap Z (list Z)) n l l' q x : <[l := default [] (m !! l) ++ [n]]> m !! l' = Some q -> x ∈ q -> (l' = l /\ x = n) \/ exists q', m !! l' = Some q' /\ x ∈ q'.
Proof.
  destruct (decide (l = l')) as [<-|Hne]; [|rewrite lookup_insert_ne by done; eauto]. rewrite lookup_insert_eq. intros [= <-] [Hx|Hx]%elem_of_app; [|apply list_elem_of_singleton in Hx; auto]. destruct (m !! l) as [q'|]; [eauto|by apply not_elem_of_nil in Hx].
Qed.
Lemma grown_ok t t' acc : queues_ok t acc -> 0 <= next_socket t < u32_mod - 1 -> grown t t' -> queues_ok t' acc /\ next_socket t <= next_socket t' <= next_socket t + 1.
Proof.
  intros [Q1 Q2 Q3 Q4 Q5] Hn Hg. assert (u32_add (next_socket t) 1 = next_socket t + 1) as E by (apply Z.mod_small; lia).
  assert (Forall (fun x => x < next_socket t + 1) acc) as Q5' by (eapply Forall_impl; [exact Q5|cbn; lia]). assert (next_socket t ∉ acc) as Hfresh by (intros Hi; rewrite Forall_forall in Q5; specialize (Q5 _ Hi); lia). assert (forall l q, accept_queue t !! l = Some q -> next_socket t ∉ q) as Hnew by (intros k q Hq Hi; destruct (Q1 k q _ Hq Hi); lia).
  destruct Hg as [[Ea En]|Ea En|l Ea En]; rewrite ?E in En; (split; [split; rewrite ?Ea, ?En; try done|lia]); intros l0 *.
  - intros Hq Hx. destruct (Q1 _ _ _ Hq Hx). split; [lia|done].
  - intros Hq Hx. destruct (queues_child _ _ _ _ _ _ Hq Hx) as [[-> ->]|(q' & Hq' & Hx')]; [split; [lia|done]|]. destruct (Q1 _ _ _ Hq' Hx'). split; [lia|done].
  - intros Hq. destruct (decide (l = l0)) as [<-|Hne]; [|rewrite lookup_insert_ne in Hq by done; by eapply Q2]. rewrite lookup_insert_eq in Hq. injection Hq as <-. apply NoDup_app. destruct (accept_queue t !! l) as [q|] eqn:El; cbn; [|split_and!; [constructor|by intros ? ?%not_elem_of_nil|apply NoDup_singleton]].
    split_and!; [by eapply Q2| |apply NoDup_singleton]. intros x Hx ->%list_elem_of_singleton. by eapply Hnew.
  - intros Hq Hq' Hx Hx'. destruct (queues_child _ _ _ _ _ _ Hq Hx) as [[-> ->]|(k & Hk & Hx1)], (queues_child _ _ _ _ _ _ Hq' Hx') as [[-> E']|(k' & Hk' & Hx2)]; try done; [by destruct (Hnew _ _ Hk')|subst; by destruct (Hnew _ _ Hk)|by eapply Q3].
Qed.
(** Taking a queued child out. *)
Lemma take_child_ok id child q t acc : queues_ok t acc -> accept_queue t !! id = Some q -> child ∈ q ->
  queues_ok (set_accept_queue (<[id := filter (fun x => x <> child) q]> (accept_queue t)) t) (acc ++ [child]).
Proof.
  intros [Q1 Q2 Q3 Q4 Q5] Eq Hin. destruct (Q1 _ _ _ Eq Hin) as [Hb Hna].
  assert (forall l q0, <[id:=filter (fun x => (x <> child)) q]> (accept_queue t) !! l = Some q0 -> exists q1, accept_queue t !! l = Some q1 /\ (q0 ⊆ q1) /\ (child ∉ q0) /\ NoDup q0) as Hsub.
  { intros l q0. destruct (decide (id = l)) as [<-|Hne]; [rewrite lookup_insert_eq; intros [= <-]|rewrite lookup_insert_ne by done; intros Hl].
    - exists q. split_and!; [done|by intros x [_ Hx]%list_elem_of_filter|by intros [Hx _]%list_elem_of_filter|by apply NoDup_filter, (Q2 _ _ Eq)].
    - exists q0. split_and!; [done|done| |by eapply Q2]. intros Hi. by destruct (Hne (Q3 _ _ _ _ _ Eq Hl Hin Hi)). }
  split; cbn [accept_queue set_accept_queue next_socket].
  - intros l q0 x Hl Hx. destruct (Hsub _ _ Hl) as (q1 & Hq1 & Hs & Hc & _). destruct (Q1 _ _ _ Hq1 (Hs _ Hx)) as [H1 H2]. split; [done|]. intros [?| ->%list_elem_of_singleton]%elem_of_app; done.
  - intros l q0 Hl. by destruct (Hsub _ _ Hl) as (q1 & _ & _ & _ & H).
  - intros l l' q0 q0' x Hl Hl' Hx Hx'. destruct (Hsub _ _ Hl) as (q1 & Hq1 & Hs & _), (Hsub _ _ Hl') as (q1' & Hq1' & Hs' & _). eapply Q3; eauto.
  - apply NoDup_app. split_and!; [done| |apply NoDup_singleton]. by intros x Hx ->%list_elem_of_singleton.
  - apply Forall_app. split; [done|by apply Forall_singleton].
Qed.
Lemma tstep_grown t e : grown t (tstep t e).
Proof.
  destruct e; cbn [tstep].
  - by apply grown_id.
  - apply grown_same, on_conn_same.
  - apply grown_same. unfold tcp_connect. pose proof (on_conn_same id ProtocolError (connect env r) t) as H. destruct (on_conn _ _ _ t) as [[u l] [?|?]]; [|done]. cbn [fst] in *. destruct (conns u !! id); [etrans; [exact H|apply hash_insert_same]|done].
  - apply grown_same. unfold tcp_listen. pose proof (on_conn_same id ProtocolError (listen backlog) t) as H. destruct (on_conn _ _ _ t) as [[u l] [?|?]]; [|done]. cbn [fst] in *. by destruct (conns u !! id).
  - apply grown_same, on_conn_same.
  - apply grown_same, on_conn_same.
  - apply grown_same. unfold tcp_close. destruct (conns t !! id); [apply on_conn_same|done].
  - apply process_grown.
  - apply process6_grown.
  - apply grown_same, tick_same.
  - apply grown_same, drop_conn_same.
Qed.
(** The children a call has copied are in the queue of its listener. *)
Definition candidates (p : AcceptPoint) : list Z := match p with AListening | ACopy => [] | ATest l => l | APeer c | ARemove c _ => [c] end.
Record world_ok (w : World) : Prop := {
  k_queues : queues_ok (w_tcp w) (w_out w);
  k_calls th id p : w_calls w !! th = Some (id, p) -> candidates p ⊆ default [] (accept_queue (w_tcp w) !! id);
  k_serial th th' id p p' : w_calls w !! th = Some (id, p) -> w_calls w !! th' = Some (id, p') -> th = th' }.
Lemma grown_queue t t' id : grown t t' -> default [] (accept_queue t !! id) ⊆ default [] (accept_queue t' !! id).
Proof.
  intros [[E _]|E _|l E _]; rewrite E; [done|done|]. destruct (decide (l = id)) as [->|Hne]; [|by rewrite lookup_insert_ne]. rewrite lookup_insert_eq. cbn. intros x Hx. apply elem_of_app. by left.
Qed.
(** A call goes on in the table of calls. *)
Lemma calls_set w th id p p' t out : world_ok w -> w_calls w !! th = Some (id, p) -> queues_ok t out -> candidates p' ⊆ default [] (accept_queue t !! id) ->
  (forall id', id' <> id -> default [] (accept_queue (w_tcp w) !! id') ⊆ default [] (accept_queue t !! id')) -> world_ok (mkWorld t (<[th := (id, p')]> (w_calls w)) out).
Proof.
  intros [K1 K2 K3] Ht Hq Hp Ho. split; cbn [w_tcp w_calls w_out]; [done| |].
  - intros u i q. rewrite lookup_insert_Some. intros [[<- [= <- <-]]|[Hne Hu]]; [done|]. destruct (decide (i = id)) as [->|Hi]; [by destruct (Hne (K3 _ _ _ _ _ Ht Hu))|]. etrans; [by apply (K2 u)|by apply Ho].
  - intros u u' i q q'. rewrite !lookup_insert_Some. intros [[<- [= <- <-]]|[N1 H1]] [[<- [= ?]]|[N2 H2]]; subst; try done; [by eapply K3|by eapply K3|by eapply K3].
Qed.
Lemma calls_end w th id p t out : world_ok w -> w_calls w !! th = Some (id, p) -> queues_ok t out ->
  (forall id', id' <> id -> default [] (accept_queue (w_tcp w) !! id') ⊆ default [] (accept_queue t !! id')) -> world_ok (mkWorld t (delete th (w_calls w)) out).
Proof.
  intros [K1 K2 K3] Ht Hq Ho. split; cbn [w_tcp w_calls w_out]; [done| |].
  - intros u i q [Hne Hu]%lookup_delete_Some. destruct (decide (i = id)) as [->|Hi]; [by destruct (Hne (K3 _ _ _ _ _ Ht Hu))|]. etrans; [by apply (K2 u)|by apply Ho].
  - intros u u' i q q' [_ H1]%lookup_delete_Some [_ H2]%lookup_delete_Some. by apply (K3 u u' i q q').
Qed.
Lemma resume_ok w th : world_ok w -> world_ok (wstep w (Resume th)).
Proof.
  intros Hw. cbn [wstep]. destruct (w_calls w !! th) as [[id p]|] eqn:Et; [|done]. pose proof (k_calls _ Hw _ _ _ Et) as Hc. pose proof (k_queues _ Hw) as Hq. destruct p as [| |[|c l]|c|c peer]; cbn [accept_step candidates] in *.
  - assert (world_ok (mkWorld (w_tcp w) (delete th (w_calls w)) (w_out w ++ []))) as He by (rewrite app_nil_r; by apply (calls_end w th id AListening)). destruct (conns (w_tcp w) !! id) as [c|]; [|done]. destruct (negb _); [done|]. by apply (calls_set w th id AListening).
  - by apply (calls_set w th id ACopy).
  - rewrite app_nil_r. by apply (calls_end w th id (ATest [])).
  - apply (calls_set w th id (ATest (c :: l))); [done|done|done| |done]. destruct (established _ _); cbn [candidates]; set_solver.
  - by apply (calls_set w th id (APeer c)).
  - destruct (accept_queue (w_tcp w) !! id) as [q|] eqn:Eq; [|exfalso; cbn in Hc; set_solver]. assert (c ∈ q) as Hin by (cbn in Hc; set_solver).
    apply (calls_end w th id (ARemove c peer)); [done|done|by apply take_child_ok|]. intros i Hi. cbn [accept_queue set_accept_queue]. by rewrite lookup_insert_ne.
Qed.
Lemma accept_start_ok w th id : may_start th id w = true -> world_ok w -> world_ok (wstep w (Accept th id)).
Proof.
  intros Hm [K1 K2 K3]. cbn [wstep]. destruct (w_calls w !! th) as [x|] eqn:Et; [by split|]. assert (forall u p, w_calls w !! u = Some (id, p) -> False) as Hno.
  { intros u p Hu. unfold may_start in Hm. rewrite delete_id in Hm by done. rewrite forallb_forall in Hm. specialize (Hm (u, (id, p)) ltac:(by apply list_elem_of_In, elem_of_map_to_list)). cbn in Hm. by rewrite Z.eqb_refl in Hm. }
  split; cbn [w_tcp w_calls w_out]; [done| |].
  - intros u i q. rewrite lookup_insert_Some. intros [[<- [= <- <-]]|[_ Hu]]; [by apply list_subseteq_nil|by apply (K2 u)].
  - intros u u' i q q'. rewrite !lookup_insert_Some. intros [[<- [= <- <-]]|[N1 H1]] [[<- [= ?]]|[N2 H2]]; subst; try done; [by destruct (Hno _ _ H2)|by destruct (Hno _ _ H1)|by eapply K3].
Qed.
Lemma world_run_ok es : forall w, serial es w = true -> world_ok w -> 0 <= next_socket (w_tcp w) -> next_socket (w_tcp w) + Z.of_nat (length es) < u32_mod -> world_ok (foldl wstep w es).
Proof.
  induction es as [|e es IH]; intros w Hs Hw H0 Hn; [done|]. cbn [foldl length serial] in *. apply andb_prop in Hs as [He Hs]. assert (world_ok (wstep w e) /\ next_socket (w_tcp w) <= next_socket (w_tcp (wstep w e)) <= next_socket (w_tcp w) + 1) as [H1 H2]; [|apply IH; [done|done|lia|lia]].
  destruct e as [e|th id|th].
  - pose proof (tstep_grown (w_tcp w) e) as Hg. destruct Hw as [K1 K2 K3]. destruct (grown_ok _ _ _ K1 ltac:(lia) Hg) as [Q1 Q2]. split; [|done]. split; cbn [wstep w_tcp w_calls w_out]; [done| |done]. intros u i q Hu. etrans; [by apply (K2 u)|by apply grown_queue].
  - split; [by apply accept_start_ok|]. cbn [wstep]. destruct (w_calls w !! th); cbn [w_tcp]; lia.
  - split; [by apply resume_ok|]. cbn [wstep]. destruct (w_calls w !! th) as [[id p]|]; [|lia]. assert (next_socket (accept_step id p (w_tcp w)).1 = next_socket (w_tcp w)) as E by (destruct p as [| |[|c l]|c|c peer]; try done; cbn; by destruct (accept_queue _ !! id)).
    destruct (accept_step id p (w_tcp w)) as [t [p'|r]]; cbn [fst w_tcp] in *; lia.
Qed.
(** C33: Whatever sockets are created, bound, connected and closed, whatever packets arrive over IPv4 or IPv6 and whenever the timers run, also between the locks that a call of [accept] takes, a connection is handed out by [accept] at most once, provided that calls on one listener do not overlap (two that do can return the same connection, see [accepted_twice]) and that the counter of socket identifiers has not wrapped around. *)
Theorem accept_once es : Z.of_nat (length es) < u32_mod - 1 -> serial es (mkWorld tcp_new ∅ []) = true -> NoDup (w_out (foldl wstep (mkWorld tcp_new ∅ []) es)).
Proof.
  intros Hn Hs. pose proof (world_run_ok es (mkWorld tcp_new ∅ []) Hs) as H. apply H; [|done|cbn; lia]. split; [split; try done; by constructor|intros th id p; cbn [w_calls]; by rewrite lookup_empty|intros th th' id p p'; cbn [w_calls]; by rewrite lookup_empty].
Qed.
End Accepting.
(** ** Examples *)
Section Runs.
Definition host_a : Ipv4Addr := [10; 0; 0; 1].
Definition host_b : Ipv4Addr := [10; 0; 0; 2].
Lemma host_a_ok : addr_ok host_a.
Proof. split; [done|]. by repeat constructor. Qed.
Lemma host_b_ok : addr_ok host_b.
Proof. split; [done|]. by repeat constructor. Qed.
Definition env_at (a : Ipv4Addr) (t r : Z) : Env := mkEnv t r a UNSPECIFIED6 (fun _ => None).
(** A packet at the tables of the host it is for. *)
Definition arrive (env : Env) (t : Tcp) (p : bytes) : Tcp * list bytes :=
  match parse_packet p with
  | inl pk => let '(t, l, _) := process_packet env 0 (src (header pk)) (dst (header pk)) (payload pk) t in (t, sent l)
  | inr _ => (t, [])
  end.
Definition arrive_all (env : Env) (t : Tcp) (ps : list bytes) : Tcp * list bytes := foldl (fun '(t, l) p => let '(t, l') := arrive env t p in (t, l ++ l')) (t, []) ps.
Definition client (a : Ipv4Addr) : Tcp * list bytes :=
  let '(t, id) := create_socket IPV4 tcp_new in
  let t := (tcp_bind id (mkAddr (V4 a) 1000) t).1.1 in
  let '(t, l, _) := tcp_connect (env_at host_a 1 500) id (mkAddr (V4 host_b) 80) t in (t, sent l).
Definition server : Tcp :=
  let '(t, id) := create_socket IPV4 tcp_new in
  let t := (tcp_bind id (mkAddr (V4 host_b) 80) t).1.1 in (tcp_listen id 5 t).1.1.
Definition handshake (a : Ipv4Addr) : Tcp * Tcp :=
  let '(ta, l) := client a in
  let '(tb, l) := arrive_all (env_at host_b 2 900) server l in
  let '(ta, l) := arrive_all (env_at host_a 3 0) ta l in
  let '(tb, l) := arrive_all (env_at host_b 4 0) tb l in (ta, tb).
Definition states (t : Tcp) : list (Z * TcpState) := (fun c => (cid c, state c)) <$> get_all_connections t.
Definition read_from (id : Z) (t : Tcp) : bytes := match conns t !! id with Some c => rx_buffer c | None => [] end.
(** The three packets of the handshake open both ends, and the server accepts the client. *)
Example handshake_opens : (fun '(ta, tb) => (states ta, states tb, (tcp_accept 1 tb).2)) (handshake host_a) = ([(1, Established)], [(1, Listen); (2, Established)], inl (2, mkAddr (V4 host_a) 1000)).
Proof. vm_compute. reflexivity. Qed.
(** A client that has not bound an address is hashed under 0.0.0.0, and no packet ever finds it. *)
Example unbound_never_opens : (fun '(ta, tb) => (states ta, states tb)) (handshake UNSPECIFIED) = ([(1, SynSent)], [(1, Listen); (2, SynReceived)]).
Proof. vm_compute. reflexivity. Qed.
(** A write, the timer, and the packets they cause, until nothing is on the way. *)
Definition write_at_a (data : bytes) (x : Tcp * Tcp) : Tcp * Tcp * list bytes :=
  let '(ta, tb) := x in
  let '(ta, l, _) := tcp_send (env_at host_a 10 0) 1 data ta in
  let '(ta, l') := tcp_timer_tick (env_at host_a 40 0) ta in (ta, tb, sent (l ++ l')).
Definition exchange (x : Tcp * Tcp * list bytes) : Tcp * Tcp :=
  let '(ta, tb, ps) := x in
  let '(tb, back) := arrive_all (env_at host_b 41 0) tb ps in
  let '(ta, _) := arrive_all (env_at host_a 42 0) ta back in (ta, tb).
(** [snd_nxt] is still 0 after the handshake, so the acknowledgement in the first data segment counts as one of data never sent: the data is delivered, and the connection reset. *)
Example first_data_resets : (fun '(ta, tb) => (states ta, read_from 2 tb)) (exchange (write_at_a [1; 2; 3] (handshake host_a))) = ([(1, Closed)], [1; 2; 3]).
Proof. vm_compute. reflexivity. Qed.
(** Sequence numbers are not looked at: a segment that arrives twice is delivered twice. *)
Example duplicate_delivered_twice : (let '(ta, tb, ps) := write_at_a [1; 2; 3] (handshake host_a) in read_from 2 (exchange (ta, tb, ps ++ ps)).2) = [1; 2; 3; 1; 2; 3].
Proof. vm_compute. reflexivity. Qed.
(** Data accepted and buffered is lost when what follows makes the segment too long. *)
Example buffered_data_lost : (let t := (handshake host_a).1 in let '(t1, _, r1) := tcp_send (env_at host_a 10 0) 1 (replicate 500 7) t in let '(t2, l, r2) := tcp_send (env_at host_a 11 0) 1 (replicate 1000 7) t1 in
  (r1, r2, sent l, nagle_buffer <$> conns t2 !! 1)) = (inl 500%nat, inr BufferFull, [], Some []).
Proof. vm_compute. reflexivity. Qed.
(** A close sends its FIN before data still buffered, which the peer then ignores. *)
Example close_before_data : (let '(ta, tb) := handshake host_a in let ta := (tcp_send (env_at host_a 10 0) 1 [1; 2; 3] ta).1.1 in let '(ta, l, _) := tcp_close (env_at host_a 11 0) 1 ta in let '(ta, l') := tcp_timer_tick (env_at host_a 40 0) ta in
  (data_of <$> sent (l ++ l'), (fun tb => (states tb, read_from 2 tb)) (exchange (ta, tb, sent (l ++ l'))).2)) = ([[]; [1; 2; 3]], ([(1, Listen); (2, CloseWait)], [])).
Proof. vm_compute. reflexivity. Qed.
Definition conn_between (a b : Ipv4Addr) (pa pb iss : Z) : TcpConnection := set_seqn iss (set_state Established (set_remote (mkAddr (V4 b) pb) (conn_new 1 (mkAddr (V4 a) pa) IPV4))).
Lemma conn_between_ok a b pa pb iss : 0 <= pa < 65536 -> 0 <= pb < 65536 -> is_u32 iss -> conn_ok a b (conn_between a b pa pb iss).
Proof. intros H1 H2 H3. split; cbn; try done; [exists a; auto|by constructor]. Qed.
Lemma env_at_ok a t r : env_ok a (env_at a t r).
Proof. done. Qed.
Definition stream_events : list Event := [AtA (env_at host_a 10 0) (Send [1; 2; 3]); AtA (env_at host_a 40 0) Tick; ToB (env_at host_b 41 0); AtB (env_at host_b 42 0) (Recv 2); AtA (env_at host_a 43 0) (Send [4; 5])].
Lemma tcp_stream_witness : let p := prun stream_events (pair_of (conn_between host_a host_b 1000 80 500) (conn_between host_b host_a 80 1000 900)) in
  readb p = [1; 2] /\ rx_buffer (cb p) = [3] /\ nagle_buffer (ca p) = [4; 5] /\ (readb p ++ rx_buffer (cb p)) `prefix_of` written p.
Proof.
  cbv zeta. split; [vm_compute; reflexivity|]. split; [vm_compute; reflexivity|]. split; [vm_compute; reflexivity|].
  refine (proj1 (tcp_stream host_a host_b (conn_between host_a host_b 1000 80 500) (conn_between host_b host_a 80 1000 900) stream_events _ _ _ _)).
  - split_and!; [apply host_a_ok|apply host_b_ok|done|done].
  - split_and!; try done; by apply conn_between_ok.
  - repeat constructor; done.
  - vm_compute. reflexivity.
Defined.
Definition closed_client : TcpConnection := conn_new 1 (mkAddr (V4 host_a) 1000) IPV4.
Lemma connect_gives_up_witness : exists c l, syn_ticks [env_at host_a 100 0; env_at host_a 200 0; env_at host_a 300 0; env_at host_a 400 0; env_at host_a 600 0] (connect (env_at host_a 50 7) (mkAddr (V4 host_b) 80) closed_client).1.1 = (c, l) /\ state c = Closed.
Proof.
  destruct (connect_gives_up host_a host_b (env_at host_a 50 7) (mkAddr (V4 host_b) 80) closed_client [env_at host_a 100 0; env_at host_a 200 0; env_at host_a 300 0; env_at host_a 400 0; env_at host_a 600 0]) as (c1 & l1 & c2 & l2 & E1 & E2 & _ & _ & E3); try done.
  - apply host_a_ok.
  - apply host_b_ok.
  - split; cbn; try done; [exists host_a; auto|by constructor].
  - repeat constructor; done.
  - rewrite E1. exists c2, l2. split; [exact E2|]. exact E3.
Defined.
(** The payload of a packet, as the IP layer hands it over. *)
Definition payload_of (p : bytes) : bytes := match parse_packet p with inl pk => payload pk | inr _ => [] end.
Definition accept_opening : list WEvent :=
  let syn := payload_of (List.hd [] (client host_a).2) in
  let ack := payload_of (List.hd [] (arrive_all (env_at host_a 3 0) (client host_a).1 (arrive_all (env_at host_b 2 900) server (client host_a).2).2).2) in
  Other <$> [ECreate IPV4; EBind 1 (mkAddr (V4 host_b) 80); EListen 1 5; EPacket (env_at host_b 2 900) 0 host_a host_b syn; EPacket (env_at host_b 4 0) 0 host_a host_b ack].
Definition accept_events : list WEvent := accept_opening ++ [Accept 1 1; Resume 1; Resume 1; Other (ECreate IPV4); Resume 1; Resume 1; Resume 1; Accept 2 1; Resume 2; Resume 2; Resume 2].
Lemma accept_once_witness : w_out (foldl wstep (mkWorld tcp_new ∅ []) accept_events) = [2] /\ NoDup (w_out (foldl wstep (mkWorld tcp_new ∅ []) accept_events)).
Proof. split; [vm_compute; reflexivity|]. apply (accept_once accept_events); vm_compute; reflexivity. Defined.
(** Two calls on one listener that both copy the queue before either has removed the child return the same connection. *)
Example accepted_twice : w_out (foldl wstep (mkWorld tcp_new ∅ []) (accept_opening ++ [Accept 1 1; Accept 2 1; Resume 1; Resume 1; Resume 2; Resume 2; Resume 1; Resume 1; Resume 1; Resume 2; Resume 2; Resume 2])) = [2; 2].
Proof. vm_compute. reflexivity. Qed.
End Runs.
End Tcp.
