(* ===== verification/Link.v ===== *)
(** * Ethernet and ARP

    Models [src/src/net/ethernet.rs], [src/src/net/arp.rs], the loopback interface of
    [src/src/net/netdev.rs], and what [src/src/net/mod.rs] does with a received frame and a
    packet to send: frames, the address cache with the packets that wait for an address, requests
    and replies, dispatch by type, and the packet filter on the way out.

    The default interface is a record of its addresses and of what its [send] returns; clock,
    configuration, packet filters and the protocols above are arguments.  Frames sent are a list.

    The handlers above are one step each; [proceed] splits them at the locks they take, so that
    handlers on several CPUs interleave ([send_alone]: a handler that is not interrupted does
    what [send_to_ip] does).  [arp_conserves]: in every interleaving no packet is lost
    or sent twice, and none goes to an address that was not announced for its next hop; order is kept only
    when the handlers run one after the other ([arp_fifo]; [waits_though_known] is the race).
    [arp_resolves]: the exchange of a request and a reply sends a waiting packet to the right host.
    The examples show that the loopback interface reverses the order and that packets of TCP and UDP leave
    without a frame header. *)
From S2P Require Import Prelude Checksum Ipv4.

Module Link.
Import Ipv4.

(** ** Ethernet frames *)
Abbreviation MacAddr := (list Z).
Definition MAC_BROADCAST : MacAddr := replicate 6 0xFF.
Definition MAC_ZERO : MacAddr := replicate 6 0.
Inductive EtherType := ET_IPV4 | ET_ARP | ET_IPV6 | ET_VLAN | ET_UNKNOWN.
#[export] Instance EtherType_eq_dec : EqDecision EtherType.
Proof. solve_decision. Defined.
Definition type_from_u16 (v : Z) : EtherType := if v =? 0x0800 then ET_IPV4 else if v =? 0x0806 then ET_ARP else if v =? 0x86DD then ET_IPV6 else if v =? 0x8100 then ET_VLAN else ET_UNKNOWN.
Definition type_to_u16 (t : EtherType) : Z := match t with ET_IPV4 => 0x0800 | ET_ARP => 0x0806 | ET_IPV6 => 0x86DD | ET_VLAN => 0x8100 | ET_UNKNOWN => 0 end.
Record EthernetHeader := mkEth { eth_dst : MacAddr; eth_src : MacAddr; ether_type : EtherType }.
Definition ETH_SIZE : nat := 14.
Definition eth_parse (data : bytes) : res EthernetHeader :=
  if (length data <? ETH_SIZE)%nat then inr InvalidPacket
  else inl (mkEth (take 6 data) (take 6 (drop 6 data)) (type_from_u16 (be_word data 12))).
Definition eth_bytes (h : EthernetHeader) : bytes := eth_dst h ++ eth_src h ++ be16 (type_to_u16 (ether_type h)).
Definition eth_serialize (h : EthernetHeader) (buf : bytes) : res bytes := if (length buf <? ETH_SIZE)%nat then inr BufferFull else inl (blit 0 (eth_bytes h) buf).
Record EthernetFrame := mkFrame { eth_header : EthernetHeader; eth_payload : bytes }.
Definition frame_parse (data : bytes) : res EthernetFrame := match eth_parse data with inl h => inl (mkFrame h (drop ETH_SIZE data)) | inr e => inr e end.
Definition frame_len (f : EthernetFrame) : nat := (ETH_SIZE + length (eth_payload f))%nat.
(** The buffer after the call and the length written. *)
Definition frame_serialize (f : EthernetFrame) (buf : bytes) : res (bytes * nat) :=
  if (length buf <? frame_len f)%nat then inr BufferFull
  else match eth_serialize (eth_header f) (take ETH_SIZE buf) with
    | inr e => inr e
    | inl head => inl (blit ETH_SIZE (eth_payload f) (head ++ drop ETH_SIZE buf), frame_len f)
    end.
(** A frame in a buffer of 1514 bytes, cut to its length. *)
Definition frame_in_buffer (d s : MacAddr) (t : EtherType) (pl : bytes) : res bytes :=
  match frame_serialize (mkFrame (mkEth d s t) pl) (replicate 1514 0) with inl (buf, len) => inl (take len buf) | inr e => inr e end.

(** ** ARP packets *)
Inductive ArpOperation := Request | Reply | Unknown.
#[export] Instance ArpOperation_eq_dec : EqDecision ArpOperation.
Proof. solve_decision. Defined.
Definition oper_from_u16 (v : Z) : ArpOperation := if v =? 1 then Request else if v =? 2 then Reply else Unknown.
Definition oper_u16 (o : ArpOperation) : Z := match o with Request => 1 | Reply => 2 | Unknown => 0 end.
Record ArpHeader := mkArp { htype : Z; ptype : Z; hlen : Z; plen : Z; oper : ArpOperation; sha : MacAddr; spa : Ipv4Addr; tha : MacAddr; tpa : Ipv4Addr }.
Definition ARP_SIZE : nat := 28.
Definition arp_parse (data : bytes) : res ArpHeader :=
  if (length data <? ARP_SIZE)%nat then inr InvalidPacket
  else inl (mkArp (be_word data 0) (be_word data 2) (get data 4) (get data 5) (oper_from_u16 (be_word data 6))
    (take 6 (drop 8 data)) (take 4 (drop 14 data)) (take 6 (drop 18 data)) (take 4 (drop 24 data))).
Definition arp_bytes (a : ArpHeader) : bytes :=
  be16 (htype a) ++ be16 (ptype a) ++ [hlen a; plen a] ++ be16 (oper_u16 (oper a)) ++ sha a ++ spa a ++ tha a ++ tpa a.
Definition arp_serialize (a : ArpHeader) (buf : bytes) : res bytes := if (length buf <? ARP_SIZE)%nat then inr BufferFull else inl (blit 0 (arp_bytes a) buf).
Definition new_request (s : MacAddr) (sp tp : Ipv4Addr) : ArpHeader := mkArp 1 0x0800 6 4 Request s sp MAC_ZERO tp.
Definition new_reply (s : MacAddr) (sp : Ipv4Addr) (t : MacAddr) (tp : Ipv4Addr) : ArpHeader := mkArp 1 0x0800 6 4 Reply s sp t tp.

(** ** The cache *)
Record ArpCacheEntry := mkEntry { mac : MacAddr; learned : Z }.
Definition ARP_CACHE_TIMEOUT : Z := 1200.
(** [ARP_CACHE], [ARP_PENDING] and [ARP_LAST_REQUEST]. *)
Record Arp := mkState { cache : gmap Z ArpCacheEntry; pending : gmap Z (list bytes); last_request : gmap Z Z }.
Definition arp_new : Arp := mkState ∅ ∅ ∅.
Definition set_cache (m : gmap Z ArpCacheEntry) (s : Arp) : Arp := mkState m (pending s) (last_request s).
Definition set_pending (m : gmap Z (list bytes)) (s : Arp) : Arp := mkState (cache s) m (last_request s).
Definition set_last_request (m : gmap Z Z) (s : Arp) : Arp := mkState (cache s) (pending s) m.
Definition resolve (ip : Ipv4Addr) (s : Arp) : option MacAddr := mac <$> cache s !! to_u32 ip.
(** The addresses and the outcome of a [send] of the interface; our configuration. *)
Record Iface := mkIface { if_mac : MacAddr; if_ip : Ipv4Addr; if_send : bytes -> option NetError }.
Record Config := mkConfig { ip_addr : Ipv4Addr; netmask : Ipv4Addr; gateway : Ipv4Addr }.
Section Handlers.
Context (iface : option Iface) (config : Config) (now : Z).
(** The frame if the interface takes it. *)
Definition transmit (i : Iface) (f : bytes) : list bytes * res unit := match if_send i f with None => ([f], inl tt) | Some e => ([], inr e) end.
Definition send_frame (i : Iface) (d s : MacAddr) (t : EtherType) (pl : bytes) : list bytes * res unit :=
  match frame_in_buffer d s t pl with inl f => transmit i f | inr e => ([], inr e) end.
Definition send_arp (i : Iface) (d s : MacAddr) (a : ArpHeader) : list bytes * res unit :=
  match arp_serialize a (replicate ARP_SIZE 0) with inl buf => send_frame i d s ET_ARP buf | inr e => ([], inr e) end.
Definition send_request (tp : Ipv4Addr) (s : Arp) : Arp * list bytes * res unit :=
  let k := to_u32 tp in
  if match last_request s !! k with Some t => u64_sub now t <? 1 | None => false end then (s, [], inl tt)
  else
    let s := set_last_request (<[k := now]> (last_request s)) s in
    match iface with
    | None => (s, [], inr NoInterface)
    | Some i => let '(l, r) := send_arp i MAC_BROADCAST (if_mac i) (new_request (if_mac i) (if_ip i) tp) in (s, l, r)
    end.
Definition next_hop (ip : Ipv4Addr) : Ipv4Addr := default ip (route (ip_addr config) (netmask config) (gateway config) ip).
Definition send_to_ip (ip : Ipv4Addr) (data : bytes) (s : Arp) : Arp * list bytes * res unit :=
  let hop := next_hop ip in
  match resolve hop s with
  | Some m => match iface with
      | None => (s, [], inr NoInterface)
      | Some i => let '(l, r) := send_frame i m (if_mac i) ET_IPV4 data in (s, l, r)
      end
  | None =>
      let k := to_u32 hop in
      let s := set_pending (<[k := default [] (pending s !! k) ++ [data]]> (pending s)) s in
      let '(s, l, r) := send_request hop s in
      (s, l, match r with inl _ => inr WouldBlock | inr e => inr e end)
  end.
(** Sends the packets one after the other, whatever each returns. *)
Definition send_each (ip : Ipv4Addr) (packets : list bytes) (s : Arp) : Arp * list bytes :=
  foldl (fun '(s, l) p => let '(s, l', _) := send_to_ip ip p s in (s, l ++ l')) (s, []) packets.
Definition add_entry (ip : Ipv4Addr) (m : MacAddr) (s : Arp) : Arp * list bytes :=
  let k := to_u32 ip in
  let s := set_cache (<[k := mkEntry m now]> (cache s)) s in
  match pending s !! k with
  | Some packets => send_each ip packets (set_pending (delete k (pending s)) s)
  | None => (s, [])
  end.
Definition arp_process (data : bytes) (s : Arp) : Arp * list bytes * res unit :=
  match arp_parse data with
  | inr e => (s, [], inr e)
  | inl a =>
      let '(s, l) := add_entry (spa a) (sha a) s in
      if bool_decide (tpa a = ip_addr config) && bool_decide (oper a = Request) then
        match iface with
        | None => (s, l, inr NoInterface)
        | Some i => let '(l', r) := send_arp i (sha a) (if_mac i) (new_reply (if_mac i) (ip_addr config) (sha a) (spa a)) in (s, l ++ l', r)
        end
      else (s, l, inl tt)
  end.
Definition arp_cache_gc (s : Arp) : Arp := set_cache (filter (fun x => u64_sub now (learned x.2) < ARP_CACHE_TIMEOUT) (cache s)) s.
(** The addresses and what they resolve to, in the order of the map. *)
Definition from_u32 (v : Z) : Ipv4Addr := be32 v.
Definition get_table (s : Arp) : list (Ipv4Addr * MacAddr) := omap (fun k => (fun e => (from_u32 k, mac e)) <$> cache s !! k) (merge_sort Z.le (elements (dom (cache s)))).
Definition send_gratuitous (ip : Ipv4Addr) (m : MacAddr) : list bytes * res unit :=
  match iface with
  | None => ([], inr NoInterface)
  | Some i => send_arp i MAC_BROADCAST m (new_reply m ip MAC_BROADCAST ip)
  end.

(** ** Received frames *)
(** The filter of received frames: pass, drop, or fail; and the handlers of the protocols above.  The copy of the frame for raw sockets is left out. *)
Context (ingress : bytes -> option bool) (ip_process ipv6_process : bytes -> res unit).
Definition net_process (data : bytes) (s : Arp) : Arp * list bytes * res unit :=
  match ingress data with
  | None => (s, [], inr ProtocolError)
  | Some false => (s, [], inl tt)
  | Some true => match frame_parse data with
      | inr e => (s, [], inr e)
      | inl f => match ether_type (eth_header f) with
          | ET_ARP => arp_process (eth_payload f) s
          | ET_IPV4 => (s, [], ip_process (eth_payload f))
          | ET_IPV6 => (s, [], ipv6_process (eth_payload f))
          | _ => (s, [], inl tt)
          end
      end
  end.

(** ** Packets to send *)
Inductive OutHook := NF_INET_LOCAL_OUT | NF_INET_POST_ROUTING.
Inductive OutCount := OutNoRoutes | OutRequests | OutDiscards.
(** The packet filters for the two versions of IP (the packet left and whether it passes), and whether a packet is IPv6. *)
Context (filter4 filter6 : OutHook -> bytes -> res (bytes * bool)) (is_ipv6 : bytes -> bool).
(** Both hooks in turn; [None] is a packet dropped. *)
Definition out_hooks (filter : OutHook -> bytes -> res (bytes * bool)) (data : bytes) : res (option bytes) :=
  match filter NF_INET_LOCAL_OUT data with
  | inr e => inr e
  | inl (_, false) => inl None
  | inl (data, true) => match filter NF_INET_POST_ROUTING data with
      | inr e => inr e
      | inl (_, false) => inl None
      | inl (data, true) => inl (Some data)
      end
  end.
Definition is_ipv4 (data : bytes) : bool := match parse_packet data with inl _ => true | inr _ => false end.
Definition net_send (data : bytes) : list OutCount * list bytes * res unit :=
  match iface with
  | None => (if is_ipv4 data then [OutNoRoutes] else [], [], inr NoInterface)
  | Some i =>
      if is_ipv4 data then
        match out_hooks filter4 data with
        | inr e => ([OutRequests], [], inr e)
        | inl None => ([OutRequests; OutDiscards], [], inl tt)
        | inl (Some d) => let '(l, r) := transmit i d in ([OutRequests], l, r)
        end
      else if is_ipv6 data then
        match out_hooks filter6 data with
        | inr e => ([], [], inr e)
        | inl None => ([], [], inl tt)
        | inl (Some d) => let '(l, r) := transmit i d in ([], l, r)
        end
      else let '(l, r) := transmit i data in ([], l, r)
  end.
End Handlers.

(** ** The loopback interface *)
Record Loopback := mkLoop { up : bool; rx_queue : list bytes; rx_packets : Z; rx_bytes : Z; tx_packets : Z; tx_bytes : Z }.
Definition loop_new : Loopback := mkLoop true [] 0 0 0 0.
Definition loop_send (data : bytes) (i : Loopback) : Loopback * res unit :=
  if negb (up i) then (i, inr NotUp)
  else (mkLoop (up i) (rx_queue i ++ [data]) (rx_packets i) (rx_bytes i) (u64_add (tx_packets i) 1) (u64_add (tx_bytes i) (Z.of_nat (length data))), inl tt).
(** [Vec::pop]: the packet that came last. *)
Definition loop_recv (i : Loopback) : Loopback * option bytes :=
  match last (rx_queue i) with
  | None => (i, None)
  | Some data => (mkLoop (up i) (take (length (rx_queue i) - 1) (rx_queue i)) (u64_add (rx_packets i) 1) (u64_add (rx_bytes i) (Z.of_nat (length data))) (tx_packets i) (tx_bytes i), Some data)
  end.

(** ** Frames and packets come back as they were sent *)
Lemma type_roundtrip t : type_from_u16 (type_to_u16 t) = t.
Proof. by destruct t. Qed.
Definition frame_bytes (d s : MacAddr) (t : EtherType) (pl : bytes) : bytes := eth_bytes (mkEth d s t) ++ pl.
Lemma eth_bytes_length d s t : length d = 6%nat -> length s = 6%nat -> length (eth_bytes (mkEth d s t)) = 14%nat.
Proof. intros Hd Hs. unfold eth_bytes. cbn [eth_dst eth_src]. rewrite !length_app, Hd, Hs. done. Qed.
Lemma frame_written d s t pl : length d = 6%nat -> length s = 6%nat -> (length pl <= 1500)%nat -> frame_in_buffer d s t pl = inl (frame_bytes d s t pl).
Proof.
  intros Hd Hs Hl. unfold frame_in_buffer, frame_serialize, frame_len, eth_serialize. cbn [eth_payload eth_header]. pose proof (eth_bytes_length d s t Hd Hs) as He. set (e := eth_bytes _) in *. rewrite length_replicate, take_replicate, length_replicate. unfold ETH_SIZE. rewrite (proj2 (Nat.ltb_ge _ _)), (proj2 (Nat.ltb_ge _ _)) by lia.
  change (replicate (14 `min` 1514) 0) with ([] ++ replicate 14 0). rewrite blit_zeros by done. rewrite app_nil_l, He, Nat.sub_diag. change (replicate 0 0) with (@nil Z). rewrite app_nil_r, drop_replicate, blit_zeros by done. rewrite app_assoc, take_app_length' by (rewrite length_app, He; lia). done.
Qed.
Lemma frame_read d s t pl : length d = 6%nat -> length s = 6%nat -> frame_parse (frame_bytes d s t pl) = inl (mkFrame (mkEth d s t) pl).
Proof.
  intros Hd Hs. pose proof (eth_bytes_length d s t Hd Hs) as He. unfold frame_parse, eth_parse, frame_bytes. rewrite length_app, He. unfold ETH_SIZE. rewrite (proj2 (Nat.ltb_ge _ _)) by lia. rewrite (drop_app_length' _ pl 14) by (by rewrite He). do 2 f_equal. unfold eth_bytes. cbn [eth_dst eth_src ether_type]. rewrite <-!app_assoc. rewrite take_app_length' by done. rewrite drop_app_length' by done. rewrite take_app_length' by done. f_equal.
  unfold be16. rewrite app_assoc. unfold be_word, Checksum.be_word, get, Checksum.get. rewrite !(lookup_app_r (d ++ s)) by (rewrite length_app; lia). rewrite length_app, Hd, Hs. cbn. rewrite be16_word by (destruct t; cbn; lia). apply type_roundtrip.
Qed.
Record arp_ok (a : ArpHeader) : Prop := {
  a_htype : 0 <= htype a < 65536;
  a_ptype : 0 <= ptype a < 65536;
  a_sha : length (sha a) = 6%nat;
  a_spa : length (spa a) = 4%nat;
  a_tha : length (tha a) = 6%nat;
  a_tpa : length (tpa a) = 4%nat }.
Lemma arp_bytes_length a : arp_ok a -> length (arp_bytes a) = 28%nat.
Proof. intros Ha. unfold arp_bytes. rewrite !length_app, (a_sha _ Ha), (a_spa _ Ha), (a_tha _ Ha), (a_tpa _ Ha). done. Qed.
Lemma arp_written a : arp_ok a -> arp_serialize a (replicate ARP_SIZE 0) = inl (arp_bytes a).
Proof.
  intros Ha. pose proof (arp_bytes_length a Ha) as Hl. unfold arp_serialize. rewrite length_replicate, Nat.ltb_irrefl. change (replicate ARP_SIZE 0) with ([] ++ replicate 28 0). rewrite blit_zeros by done. rewrite Hl, Nat.sub_diag. change (replicate 0 0) with (@nil Z). by rewrite app_nil_r.
Qed.
(** Lists of a known length, element by element. *)
Ltac elements l := repeat (destruct l as [|? l]; cbn [length] in *; try lia).
Lemma arp_read a : arp_ok a -> arp_parse (arp_bytes a) = inl a.
Proof.
  intros Ha. pose proof (arp_bytes_length a Ha) as Hl. destruct Ha as [H1 H2 H3 H4 H5 H6]. destruct a as [h p hl pl o s sp t tp]. cbn [htype ptype sha spa tha tpa] in *. unfold arp_parse. rewrite Hl. cbn [ARP_SIZE Nat.ltb Nat.leb]. clear Hl. elements s. elements sp. elements t. elements tp.
  unfold arp_bytes, be_word, Checksum.be_word, get, Checksum.get. cbn -[Z.div Z.modulo Z.mul Z.add]. rewrite !be16_word by (done || (destruct o; cbn; lia)). f_equal. by destruct o.
Qed.
(** ** Packets wait in order *)
(** What is sent, learned and forgotten, with the time it happens. *)
Inductive LinkEvent := SendTo (t : Z) (ip : Ipv4Addr) (data : bytes) | Learn (t : Z) (packet : bytes) | Expire (t : Z).
Definition ipv4_payloads (frames : list bytes) : list bytes :=
  omap (fun f => match frame_parse f with inl f => if bool_decide (ether_type (eth_header f) = ET_IPV4) then Some (eth_payload f) else None | inr _ => None end) frames.
Lemma ipv4_payloads_app k l : ipv4_payloads (k ++ l) = ipv4_payloads k ++ ipv4_payloads l.
Proof. apply omap_app. Qed.
(** The cache, the IPv4 packets that left with the next hop they were for, and those handed over. *)
Record History := mkHist { h_arp : Arp; h_left : list (Z * bytes); h_asked : list (Z * bytes) }.
Section Links.
Context (i : Iface) (config : Config).
Definition hop_key (ip : Ipv4Addr) : Z := to_u32 (next_hop config ip).
Definition sender_key (p : bytes) : Z := match arp_parse p with inl a => to_u32 (spa a) | inr _ => 0 end.
Definition link_step (h : History) (e : LinkEvent) : History :=
  match e with
  | SendTo t ip data => let '(s, l, _) := send_to_ip (Some i) config t ip data (h_arp h) in mkHist s (h_left h ++ (pair (hop_key ip) <$> ipv4_payloads l)) (h_asked h ++ [(hop_key ip, data)])
  | Learn t p => let '(s, l, _) := arp_process (Some i) config t p (h_arp h) in mkHist s (h_left h ++ (pair (sender_key p) <$> ipv4_payloads l)) (h_asked h)
  | Expire t => mkHist (arp_cache_gc t (h_arp h)) (h_left h) (h_asked h)
  end.
Definition for_hop (k : Z) (l : list (Z * bytes)) : list bytes := omap (fun x => if x.1 =? k then Some x.2 else None) l.
Lemma for_hop_app k l l' : for_hop k (l ++ l') = for_hop k l ++ for_hop k l'.
Proof. apply omap_app. Qed.
Lemma for_hop_pairs k k' l : for_hop k (pair k' <$> l) = if k' =? k then l else [].
Proof. induction l as [|x l IH]; [by destruct (k' =? k)|]. rewrite fmap_cons. unfold for_hop in *. cbn [omap list_omap fst snd]. rewrite IH. by destruct (k' =? k). Qed.
(** An interface that takes every frame, and a configuration of addresses. *)
Record link_ok : Prop := {
  l_mac : length (if_mac i) = 6%nat;
  l_ip : length (if_ip i) = 4%nat;
  l_own : addr_ok (ip_addr config);
  l_gw : addr_ok (gateway config);
  l_send : forall f, if_send i f = None }.
Definition event_ok (e : LinkEvent) : Prop := match e with SendTo _ ip data => addr_ok ip /\ (length data <= 1500)%nat | Learn _ p => Checksum.bytes p | Expire _ => True end.
Record hist_ok (h : History) : Prop := {
  w_cache k e : cache (h_arp h) !! k = Some e -> length (mac e) = 6%nat;
  w_apart k e : cache (h_arp h) !! k = Some e -> pending (h_arp h) !! k = None;
  w_hop k q : pending (h_arp h) !! k = Some q -> exists a, addr_ok a /\ to_u32 a = k /\ next_hop config a = a;
  w_len k q : pending (h_arp h) !! k = Some q -> Forall (fun d => length d <= 1500)%nat q;
  w_order k : for_hop k (h_left h) ++ default [] (pending (h_arp h) !! k) = for_hop k (h_asked h) }.
Lemma to_u32_inj a b : addr_ok a -> addr_ok b -> to_u32 a = to_u32 b -> a = b.
Proof.
  intros Ha Hb. pose proof Ha as [_ Ba]. pose proof Hb as [_ Bb]. destruct (addr_cases a Ha) as (a0 & a1 & a2 & a3 & ->), (addr_cases b Hb) as (b0 & b1 & b2 & b3 & ->). unfold to_u32, be32_at, be_word, Checksum.be_word, get, Checksum.get. cbn -[Z.mul Z.add].
  unfold Checksum.bytes in *. repeat match goal with H : Forall _ (_ :: _) |- _ => apply Forall_cons_1 in H as [? H] end. intros. repeat f_equal; lia.
Qed.
Lemma next_hop_ok ip : addr_ok (gateway config) -> addr_ok ip -> addr_ok (next_hop config ip) /\ next_hop config (next_hop config ip) = next_hop config ip.
Proof.
  intros Hg0 Hi. assert (next_hop config ip = ip \/ next_hop config ip = gateway config /\ forall x, is_same_subnet (netmask config) (ip_addr config) x = false -> next_hop config x = gateway config) as [E|[E Hg]].
  { unfold next_hop, route. destruct (is_same_subnet _ _ ip) eqn:Es; [by left|]. destruct (bool_decide (gateway config = UNSPECIFIED)) eqn:Eg; cbn [negb default]; [by left|]. right. split; [done|]. intros x ->. done. }
  - by rewrite !E.
  - rewrite E. split; [done|]. destruct (is_same_subnet (netmask config) (ip_addr config) (gateway config)) eqn:Es; [unfold next_hop, route; by rewrite Es|by apply Hg].
Qed.
Context (Hl : link_ok).
(** A frame that goes out, seen as an IPv4 packet or not. *)
Lemma frame_goes m t data : length m = 6%nat -> (length data <= 1500)%nat -> send_frame i m (if_mac i) t data = ([frame_bytes m (if_mac i) t data], inl tt).
Proof. intros Hm Hd. unfold send_frame. rewrite frame_written by (done || apply Hl). unfold transmit. by rewrite (l_send Hl). Qed.
Lemma payload_of_frame m t data : length m = 6%nat -> ipv4_payloads [frame_bytes m (if_mac i) t data] = if bool_decide (t = ET_IPV4) then [data] else [].
Proof. intros Hm. unfold ipv4_payloads. cbn [omap list_omap]. rewrite frame_read by (done || apply Hl). cbn [eth_header ether_type eth_payload]. by destruct (bool_decide _). Qed.
Lemma arp_goes d a : length d = 6%nat -> arp_ok a -> send_arp i d (if_mac i) a = ([frame_bytes d (if_mac i) ET_ARP (arp_bytes a)], inl tt).
Proof. intros Hd Ha. unfold send_arp. rewrite arp_written by done. apply frame_goes; [done|]. rewrite arp_bytes_length by done. lia. Qed.
Lemma request_goes t tp s : length tp = 4%nat -> exists s' l, send_request (Some i) t tp s = (s', l, inl tt) /\ cache s' = cache s /\ pending s' = pending s /\ ipv4_payloads l = [].
Proof.
  intros Ht. unfold send_request. destruct (match _ with Some _ => _ | None => _ end); [by exists s, []|]. unfold new_request. rewrite arp_goes; [|done|split; cbn; try done; apply Hl]. eexists _, _. split; [reflexivity|]. split; [done|]. split; [done|]. by rewrite payload_of_frame.
Qed.
(** Sending to a next hop whose address is known changes nothing and sends the packet. *)
Lemma send_known t ip data m s : resolve (next_hop config ip) s = Some m -> length m = 6%nat -> (length data <= 1500)%nat -> send_to_ip (Some i) config t ip data s = (s, [frame_bytes m (if_mac i) ET_IPV4 data], inl tt).
Proof. intros Hr Hm Hd. unfold send_to_ip. rewrite Hr, frame_goes by done. done. Qed.
Lemma send_each_known t ip q m s : resolve (next_hop config ip) s = Some m -> length m = 6%nat -> Forall (fun d => length d <= 1500)%nat q -> send_each (Some i) config t ip q s = (s, (fun d => frame_bytes m (if_mac i) ET_IPV4 d) <$> q).
Proof.
  intros Hr Hm. unfold send_each. assert (forall l0, Forall (fun d => length d <= 1500)%nat q -> foldl (fun '(s, l) p => let '(s, l', _) := send_to_ip (Some i) config t ip p s in (s, l ++ l')) (s, l0) q = (s, l0 ++ ((fun d => frame_bytes m (if_mac i) ET_IPV4 d) <$> q))) as H; [|apply (H [])].
  induction q as [|d q IH]; intros l0 Hq; cbn [foldl]; [by rewrite app_nil_r|]. apply Forall_cons_1 in Hq as [Hd Hq]. rewrite (send_known t ip d m s) by done. rewrite IH by done. rewrite fmap_cons. by rewrite <-app_assoc.
Qed.
Lemma payloads_of_frames m q : length m = 6%nat -> ipv4_payloads ((fun d => frame_bytes m (if_mac i) ET_IPV4 d) <$> q) = q.
Proof. intros Hm. induction q as [|d q IH]; [done|]. rewrite fmap_cons. change (?x :: ?l) with ([x] ++ l). rewrite ipv4_payloads_app, payload_of_frame, IH by done. done. Qed.
Lemma send_to_ok h t ip data : addr_ok ip -> (length data <= 1500)%nat -> hist_ok h -> hist_ok (link_step h (SendTo t ip data)).
Proof.
  intros Hi Hd [W1 W2 W3 W4 W5]. destruct (next_hop_ok ip (l_gw Hl) Hi) as [Hh Hhh]. cbn [link_step]. unfold hop_key. set (hop := next_hop config ip) in *. destruct (cache (h_arp h) !! to_u32 hop) as [e|] eqn:Ec.
  - pose proof (W1 _ _ Ec) as Hm. rewrite (send_known t ip data (mac e)) by (done || (unfold resolve; fold hop; by rewrite Ec)). split; cbn [h_arp h_left h_asked]; try done. intros k. rewrite payload_of_frame by done. rewrite bool_decide_true by done. change ([(to_u32 hop, data)]) with (pair (to_u32 hop) <$> [data]). rewrite !for_hop_app, <-W5, !for_hop_pairs. destruct (Z.eqb_spec (to_u32 hop) k) as [<-|Hne]; [|by rewrite !app_nil_r]. rewrite (W2 _ _ Ec). cbn [default]. by rewrite !app_nil_r.
  - unfold send_to_ip. fold hop. unfold resolve. rewrite Ec. cbn [fmap option_fmap option_map]. set (s1 := set_pending _ _). destruct (request_goes t hop s1 ltac:(apply Hh)) as (s2 & l & -> & C2 & P2 & Hl2). rewrite Hl2. split; cbn [h_arp h_left h_asked]; rewrite ?C2, ?P2; cbn [s1 set_pending cache pending]; try done.
    + intros k e Hk. rewrite lookup_insert_ne by (intros <-; congruence). by eapply W2.
    + intros k q Hk. destruct (decide (to_u32 hop = k)) as [<-|Hne]; [by exists hop|]. rewrite lookup_insert_ne in Hk by done. by eapply W3.
    + intros k q Hk. destruct (decide (to_u32 hop = k)) as [<-|Hne]; [|rewrite lookup_insert_ne in Hk by done; by eapply W4]. rewrite lookup_insert_eq in Hk. injection Hk as <-. apply Forall_app. split; [|by apply Forall_singleton]. destruct (pending (h_arp h) !! to_u32 hop) as [q|] eqn:Eq; [by eapply W4|by constructor].
    + intros k. rewrite app_nil_r. change ([(to_u32 hop, data)]) with (pair (to_u32 hop) <$> [data]). rewrite for_hop_app, <-W5, for_hop_pairs, <-app_assoc. f_equal. destruct (Z.eqb_spec (to_u32 hop) k) as [<-|Hne]; [by rewrite lookup_insert_eq|]. rewrite lookup_insert_ne by done. by rewrite app_nil_r.
Qed.
Lemma add_entry_ok h t ip m : addr_ok ip -> length m = 6%nat -> hist_ok h -> let '(s, l) := add_entry (Some i) config t ip m (h_arp h) in hist_ok (mkHist s (h_left h ++ (pair (to_u32 ip) <$> ipv4_payloads l)) (h_asked h)).
Proof.
  intros Hi Hm [W1 W2 W3 W4 W5]. unfold add_entry. set (s1 := set_cache _ _). change (pending s1) with (pending (h_arp h)). assert (forall k e, cache s1 !! k = Some e -> length (mac e) = 6%nat) as Hc by (intros k e; cbn; destruct (decide (to_u32 ip = k)) as [<-|Hne]; [rewrite lookup_insert_eq; by intros [= <-]|rewrite lookup_insert_ne by done; apply W1]).
  destruct (pending (h_arp h) !! to_u32 ip) as [q|] eqn:Eq.
  - destruct (W3 _ _ Eq) as (a & Ha & Ea & Hn). apply to_u32_inj in Ea as ->; [|done|done]. rewrite (send_each_known t ip q m) by (done || (by eapply W4) || (unfold resolve; rewrite Hn; cbn; by rewrite lookup_insert_eq)). rewrite payloads_of_frames by done. split; cbn [h_arp h_left h_asked set_pending pending cache]; try done.
    + intros k e Hk. destruct (decide (to_u32 ip = k)) as [<-|Hne]; [apply lookup_delete_eq|]. rewrite lookup_delete_ne by done. cbn in Hk. rewrite lookup_insert_ne in Hk by done. by eapply W2.
    + intros k q' [_ Hk]%lookup_delete_Some. by eapply W3.
    + intros k q' [_ Hk]%lookup_delete_Some. by eapply W4.
    + intros k. rewrite for_hop_app, for_hop_pairs, <-W5, <-app_assoc. f_equal. destruct (Z.eqb_spec (to_u32 ip) k) as [<-|Hne]; [by rewrite lookup_delete_eq, Eq, app_nil_r|]. by rewrite lookup_delete_ne.
  - split; cbn [h_arp h_left h_asked]; try done; [|intros k; by rewrite app_nil_r]. intros k e Hk. destruct (decide (to_u32 ip = k)) as [<-|Hne]; [done|]. cbn in Hk. rewrite lookup_insert_ne in Hk by done. by eapply W2.
Qed.
Lemma arp_parse_sender p a : Checksum.bytes p -> arp_parse p = inl a -> addr_ok (spa a) /\ length (sha a) = 6%nat /\ length (spa a) = 4%nat.
Proof.
  intros Hp Ea. unfold arp_parse in Ea. destruct (Nat.ltb_spec (length p) ARP_SIZE) as [|Hlen]; [done|]. unfold ARP_SIZE in Hlen. injection Ea as <-. cbn [spa sha]. rewrite !length_take, !length_drop. split; [split; [rewrite length_take, length_drop; lia|by apply Forall_take, Forall_drop]|]. split; lia.
Qed.
Lemma learn_ok h t p : Checksum.bytes p -> hist_ok h -> hist_ok (link_step h (Learn t p)).
Proof.
  intros Hp Hh. cbn [link_step]. unfold arp_process, sender_key. destruct (arp_parse p) as [a|e] eqn:Ea; [|destruct Hh as [W1 W2 W3 W4 W5]; split; try done; intros k; cbn [h_left h_arp h_asked ipv4_payloads omap list_omap fmap list_fmap]; rewrite app_nil_r; apply W5].
  destruct (arp_parse_sender p a Hp Ea) as (Hs & Hm & H4).
  pose proof (add_entry_ok h t (spa a) (sha a) Hs Hm Hh) as H. destruct (add_entry _ _ _ _ _ _) as [s l]. destruct (_ && _); [|done]. unfold new_reply. rewrite arp_goes; [|done|split; cbn; try done; apply Hl]. rewrite ipv4_payloads_app, payload_of_frame by done. cbn [bool_decide]. rewrite bool_decide_false by done. by rewrite app_nil_r.
Qed.
Lemma link_run_ok es h : Forall event_ok es -> hist_ok h -> hist_ok (foldl link_step h es).
Proof.
  intros He. revert h. induction He as [|e es He _ IH]; intros h Hh; [done|]. cbn [foldl]. apply IH. destruct e as [t ip data|t p|t]; [by apply send_to_ok; try apply He|by apply learn_ok|].
  destruct Hh as [W1 W2 W3 W4 W5]. split; cbn; try done; intros k e [Hk _]%map_lookup_filter_Some; [by eapply W1|by eapply W2].
Qed.
(** Handlers that run one after the other, on an interface that takes every frame, with packets of at most 1500 bytes: whatever addresses are learned and whenever entries expire, the IPv4 packets that have left for a next hop, followed by those that wait for its address, are the packets handed over for it, in order. *)
Theorem arp_fifo es k : Forall event_ok es -> let h := foldl link_step (mkHist arp_new [] []) es in for_hop k (h_left h) ++ default [] (pending (h_arp h) !! k) = for_hop k (h_asked h).
Proof. intros He. apply (link_run_ok es (mkHist arp_new [] []) He). by split. Qed.
End Links.
(** ** A request and its reply *)
Section Exchange.
(** Two hosts on one subnet, with nothing on the way between them. *)
Context (ia ib : Iface) (ca cb : Config).
Context (Ha : link_ok ia ca) (Hb : link_ok ib cb) (Ea : if_ip ia = ip_addr ca) (Hsub : next_hop ca (ip_addr cb) = ip_addr cb).
Definition pass (_ : bytes) : option bool := Some true.
Definition no_upper (_ : bytes) : res unit := inl tt.
Lemma frame_at i config t m s a st : length m = 6%nat -> length s = 6%nat -> net_process (Some i) config t pass no_upper no_upper (frame_bytes m s ET_ARP (arp_bytes a)) st = arp_process (Some i) config t (arp_bytes a) st.
Proof. intros Hm Hs. unfold net_process, pass. rewrite frame_read by done. done. Qed.
(** A packet for a host whose address is not known waits while a request goes out; the host answers the request, and the reply sends the packet, in a frame to the host's address, and leaves nothing waiting. *)
Theorem arp_resolves t1 t2 t3 data sa sb : (length data <= 1500)%nat ->
  cache sa !! to_u32 (ip_addr cb) = None -> pending sa !! to_u32 (ip_addr cb) = None -> last_request sa !! to_u32 (ip_addr cb) = None -> pending sb !! to_u32 (ip_addr ca) = None ->
  exists sa1 req sb1 rep sa2 frame,
    send_to_ip (Some ia) ca t1 (ip_addr cb) data sa = (sa1, [req], inr WouldBlock) /\
    net_process (Some ib) cb t2 pass no_upper no_upper req sb = (sb1, [rep], inl tt) /\
    net_process (Some ia) ca t3 pass no_upper no_upper rep sa1 = (sa2, [frame], inl tt) /\
    frame_parse frame = inl (mkFrame (mkEth (if_mac ib) (if_mac ia) ET_IPV4) data) /\
    pending sa2 !! to_u32 (ip_addr cb) = None /\ resolve (ip_addr ca) sb1 = Some (if_mac ia).
Proof.
  intros Hd Hc Hp Hr Hpb. set (B := ip_addr cb) in *. set (A := ip_addr ca) in *. assert (addr_ok A /\ addr_ok B) as [HA HB] by (split; [apply (l_own _ _ Ha)|apply (l_own _ _ Hb)]). pose proof (l_mac _ _ Ha) as Ma. pose proof (l_mac _ _ Hb) as Mb.
  assert (arp_ok (new_request (if_mac ia) A B)) as Oq by (split; cbn; try done; apply HA || apply HB). assert (arp_ok (new_reply (if_mac ib) B (if_mac ia) A)) as Op by (split; cbn; try done; apply HA || apply HB).
  eexists _, _, _, _, _, _. split.
  { unfold send_to_ip. rewrite Hsub. unfold resolve. rewrite Hc. cbn [fmap option_fmap option_map]. unfold send_request. cbn [set_pending last_request]. rewrite Hr. rewrite Ea. rewrite (arp_goes ia ca Ha) by done. reflexivity. }
  split.
  { rewrite frame_at by done. unfold arp_process. rewrite arp_read by done. cbn [new_request spa sha tpa oper]. unfold add_entry. cbn [set_cache pending]. rewrite Hpb. rewrite !bool_decide_true by done. cbn [andb]. rewrite (arp_goes ib cb Hb) by done. reflexivity. }
  split.
  { rewrite frame_at by done. unfold arp_process. rewrite arp_read by done. cbn [new_reply spa sha tpa oper]. unfold add_entry. cbn [set_cache set_last_request set_pending pending]. rewrite lookup_insert_eq, Hp. rewrite (send_each_known ia ca Ha t3 B ([] ++ [data]) (if_mac ib)); [|unfold resolve; rewrite Hsub; cbn; by rewrite lookup_insert_eq|done|by apply Forall_singleton]. rewrite (bool_decide_false (Reply = Request)) by done. rewrite andb_false_r. reflexivity. }
  split; [by apply frame_read|]. split; [cbn; apply lookup_delete_eq|]. unfold resolve. cbn. by rewrite lookup_insert_eq.
Qed.
End Exchange.
(** ** Handlers that run at the same time
    [send_to_ip], [send_request], [add_entry] and [process_packet] take the locks of the cache,
    of the waiting packets, of the request times and of the interface one after the other, so
    handlers on several CPUs interleave between them.  A handler is where it is between two locks,
    the packets it has still to send and the request it has still to answer. *)
Inductive Point :=
| PLearn (m : MacAddr) | PTake | PResolve (d : bytes) | PSend (m : MacAddr) (d : bytes) | PPark (d : bytes) | PAsk | PAskSend | PAnswer (a : ArpHeader).
Record Handler := mkHandler { h_ip : Ipv4Addr; h_point : Point; h_todo : list bytes; h_reply : option ArpHeader }.
(** What the handlers share, and what has happened: the frames on the wire; the packets that left, with next hop and
    address; those refused by the interface or too long; those handed over; the addresses learned. *)
Record Node := mkNode { n_arp : Arp; n_handlers : gmap Z Handler; n_frames : list bytes; n_left : list (Z * MacAddr * bytes); n_refused : list (Z * bytes); n_asked : list (Z * bytes); n_learned : list (Z * MacAddr) }.
Definition node_new : Node := mkNode arp_new ∅ [] [] [] [] [].
Section Interleaved.
Context (iface : option Iface) (config : Config).
Abbreviation key ip := (to_u32 (next_hop config ip)).
(** The next packet to send, then the answer, then the end. *)
Definition onward (ip : Ipv4Addr) (todo : list bytes) (reply : option ArpHeader) : option Handler :=
  match todo, reply with
  | d :: l, _ => Some (mkHandler ip (PResolve d) l reply)
  | [], Some a => Some (mkHandler ip (PAnswer a) [] None)
  | [], None => None
  end.
Definition set_handler (t : Z) (h : option Handler) (n : Node) : Node := mkNode (n_arp n) (partial_alter (fun _ => h) t (n_handlers n)) (n_frames n) (n_left n) (n_refused n) (n_asked n) (n_learned n).
Definition set_arp (s : Arp) (n : Node) : Node := mkNode s (n_handlers n) (n_frames n) (n_left n) (n_refused n) (n_asked n) (n_learned n).
Definition wire (l : list bytes) (n : Node) : Node := mkNode (n_arp n) (n_handlers n) (n_frames n ++ l) (n_left n) (n_refused n) (n_asked n) (n_learned n).
Definition learn (k : Z) (m : MacAddr) (n : Node) : Node := mkNode (n_arp n) (n_handlers n) (n_frames n) (n_left n) (n_refused n) (n_asked n) (n_learned n ++ [(k, m)]).
Definition outcome (k : Z) (m : MacAddr) (d : bytes) (r : res unit) (n : Node) : Node :=
  match r with
  | inl _ => mkNode (n_arp n) (n_handlers n) (n_frames n) (n_left n ++ [(k, m, d)]) (n_refused n) (n_asked n) (n_learned n)
  | inr _ => mkNode (n_arp n) (n_handlers n) (n_frames n) (n_left n) (n_refused n ++ [(k, d)]) (n_asked n) (n_learned n)
  end.
(** What a handler does while it holds its next lock. *)
Definition proceed (now : Z) (t : Z) (h : Handler) (n : Node) : Node :=
  let ip := h_ip h in
  let s := n_arp n in
  let stay p n := set_handler t (Some (mkHandler ip p (h_todo h) (h_reply h))) n in
  let go todo n := set_handler t (onward ip todo (h_reply h)) n in
  match h_point h with
  | PLearn m => stay PTake (learn (to_u32 ip) m (set_arp (set_cache (<[to_u32 ip := mkEntry m now]> (cache s)) s) n))
  | PTake => match pending s !! to_u32 ip with
      | Some q => go q (set_arp (set_pending (delete (to_u32 ip) (pending s)) s) n)
      | None => go [] n
      end
  | PResolve d => stay (match resolve (next_hop config ip) s with Some m => PSend m d | None => PPark d end) n
  | PSend m d =>
      let '(l, r) := match iface with Some i => send_frame i m (if_mac i) ET_IPV4 d | None => ([], inr NoInterface) end in
      go (h_todo h) (wire l (outcome (key ip) m d r n))
  | PPark d => stay PAsk (set_arp (set_pending (<[key ip := default [] (pending s !! key ip) ++ [d]]> (pending s)) s) n)
  | PAsk =>
      if match last_request s !! key ip with Some u => u64_sub now u <? 1 | None => false end then go (h_todo h) n
      else stay PAskSend (set_arp (set_last_request (<[key ip := now]> (last_request s)) s) n)
  | PAskSend =>
      let '(l, _) := match iface with Some i => send_arp i MAC_BROADCAST (if_mac i) (new_request (if_mac i) (if_ip i) (next_hop config ip)) | None => ([], inr NoInterface) end in
      go (h_todo h) (wire l n)
  | PAnswer a =>
      let '(l, _) := match iface with Some i => send_arp i (sha a) (if_mac i) (new_reply (if_mac i) (ip_addr config) (sha a) (spa a)) | None => ([], inr NoInterface) end in
      set_handler t None (wire l n)
  end.
Inductive NodeEvent := Call (t : Z) (ip : Ipv4Addr) (data : bytes) | Receive (t : Z) (packet : bytes) | Proceed (t : Z) (now : Z) | Forget (now : Z).
Definition node_step (n : Node) (e : NodeEvent) : Node :=
  match e with
  | Call t ip data => match n_handlers n !! t with
      | Some _ => n
      | None => let n := set_handler t (Some (mkHandler ip (PResolve data) [] None)) n in
          mkNode (n_arp n) (n_handlers n) (n_frames n) (n_left n) (n_refused n) (n_asked n ++ [(key ip, data)]) (n_learned n)
      end
  | Receive t p => match n_handlers n !! t, arp_parse p with
      | None, inl a => set_handler t (Some (mkHandler (spa a) (PLearn (sha a)) [] (if bool_decide (tpa a = ip_addr config) && bool_decide (oper a = Request) then Some a else None))) n
      | _, _ => n
      end
  | Proceed t now => match n_handlers n !! t with Some h => proceed now t h n | None => n end
  | Forget now => set_arp (arp_cache_gc now (n_arp n)) n
  end.

(** A handler that is not interrupted does what the functions do. *)
Fixpoint alone (fuel : nat) (now t : Z) (n : Node) : Node := match fuel with O => n | S f => alone f now t (node_step n (Proceed t now)) end.
Lemma alone_idle fuel now t n : n_handlers n !! t = None -> alone fuel now t n = n.
Proof. intros H. revert n H. induction fuel as [|f IH]; intros n H; [done|]. cbn [alone node_step]. rewrite H. by apply IH. Qed.
Lemma handler_set t h n : n_handlers (set_handler t h n) !! t = h.
Proof. unfold set_handler. cbn [n_handlers]. by rewrite lookup_partial_alter_eq. Qed.
Lemma send_alone now t ip d todo reply n : n_handlers n !! t = Some (mkHandler ip (PResolve d) todo reply) ->
  let '(s, l, r) := send_to_ip iface config now ip d (n_arp n) in
  exists k n', (k <= 4)%nat /\ alone k now t n = n' /\ n_arp n' = s /\ n_frames n' = n_frames n ++ l /\ n_handlers n' !! t = onward ip todo reply.
Proof.
  intros Ht. unfold send_to_ip, send_request. destruct (resolve (next_hop config ip) (n_arp n)) as [m|] eqn:Er.
  - assert (forall l r, match iface with Some i => send_frame i m (if_mac i) ET_IPV4 d | None => ([], inr NoInterface) end = (l, r) ->
      exists k n', (k <= 4)%nat /\ alone k now t n = n' /\ n_arp n' = n_arp n /\ n_frames n' = n_frames n ++ l /\ n_handlers n' !! t = onward ip todo reply) as H.
    { intros l r E. eexists 2%nat, _. split; [lia|]. cbn [alone]. unfold node_step at 2. rewrite Ht. unfold proceed at 1. cbn [h_point h_ip h_todo h_reply]. rewrite Er. unfold node_step. rewrite handler_set. unfold proceed. cbn [h_point h_ip h_todo h_reply]. rewrite E.
      split; [reflexivity|]. split; [by destruct r|]. split; [by destruct r|]. apply handler_set. }
    destruct iface as [i|]; [|exact (H [] (inr NoInterface) eq_refl)]. destruct (send_frame i m (if_mac i) ET_IPV4 d) as [l r]. by apply (H l r).
  - cbn [set_pending last_request]. destruct (match last_request (n_arp n) !! to_u32 (next_hop config ip) with Some u => u64_sub now u <? 1 | None => false end) eqn:Eq.
    + eexists 3%nat, _. split; [lia|]. cbn [alone]. unfold node_step at 3. rewrite Ht. unfold proceed at 1. cbn [h_point h_ip h_todo h_reply]. rewrite Er. unfold node_step at 2. rewrite handler_set. unfold proceed at 1. cbn [h_point h_ip h_todo h_reply]. unfold node_step. rewrite handler_set. unfold proceed. cbn [h_point h_ip h_todo h_reply n_arp set_handler set_arp set_pending last_request].
      rewrite Eq. split; [reflexivity|]. split; [done|]. split; [cbn; by rewrite app_nil_r|]. apply handler_set.
    + assert (forall l r, match iface with Some i => send_arp i MAC_BROADCAST (if_mac i) (new_request (if_mac i) (if_ip i) (next_hop config ip)) | None => ([], inr NoInterface) end = (l, r) ->
        exists k n', (k <= 4)%nat /\ alone k now t n = n' /\ n_arp n' = set_last_request (<[to_u32 (next_hop config ip) := now]> (last_request (n_arp n))) (set_pending (<[to_u32 (next_hop config ip) := default [] (pending (n_arp n) !! to_u32 (next_hop config ip)) ++ [d]]> (pending (n_arp n))) (n_arp n)) /\ n_frames n' = n_frames n ++ l /\ n_handlers n' !! t = onward ip todo reply) as H.
      { intros l r E. eexists 4%nat, _. split; [lia|]. cbn [alone]. unfold node_step at 4. rewrite Ht. unfold proceed at 1. cbn [h_point h_ip h_todo h_reply]. rewrite Er. unfold node_step at 3. rewrite handler_set. unfold proceed at 1. cbn [h_point h_ip h_todo h_reply]. unfold node_step at 2. rewrite handler_set. unfold proceed at 1. cbn [h_point h_ip h_todo h_reply n_arp set_handler set_arp set_pending last_request].
        rewrite Eq. unfold node_step. rewrite handler_set. unfold proceed. cbn [h_point h_ip h_todo h_reply]. rewrite E. split; [reflexivity|]. split; [done|]. split; [done|]. apply handler_set. }
      cbn [set_pending set_last_request cache pending last_request] in *. destruct iface as [i|]; [|exact (H [] (inr NoInterface) eq_refl)]. destruct (send_arp i MAC_BROADCAST (if_mac i) (new_request (if_mac i) (if_ip i) (next_hop config ip))) as [l r]. apply (H l r eq_refl).
Qed.
(** *** No packet is lost or sent twice *)
(** The packets a handler has in hand, with their next hop; those that wait. *)
Definition in_hand (h : Handler) : list (Z * bytes) :=
  pair (key (h_ip h)) <$> match h_point h with PResolve d | PSend _ d | PPark d => d :: h_todo h | _ => h_todo h end.
Definition held (x : Z * bytes) (m : gmap Z Handler) : Z := sumZ (fun p => cnt x (in_hand p.2)) (map_to_list m).
Definition waiting (x : Z * bytes) (m : gmap Z (list bytes)) : Z := sumZ (fun p => cnt x (pair p.1 <$> p.2)) (map_to_list m).
Definition sent (l : list (Z * MacAddr * bytes)) : list (Z * bytes) := (fun x => (x.1.1, x.2)) <$> l.
(** The sender of an ARP packet as it was read. *)
Definition sender_ok (a : ArpHeader) : Prop := length (sha a) = 6%nat /\ length (spa a) = 4%nat.
Definition handler_ok (learned : list (Z * MacAddr)) (h : Handler) : Prop :=
  addr_ok (h_ip h) /\ (forall a, h_reply h = Some a -> sender_ok a) /\
  match h_point h with
  | PLearn m => h_todo h = [] /\ length m = 6%nat
  | PTake => h_todo h = []
  | PSend m _ => (key (h_ip h), m) ∈ learned
  | PAnswer a => h_todo h = [] /\ sender_ok a
  | _ => True
  end.
(** The IPv4 frames among those on the wire. *)
Definition ipv4_frames (frames : list bytes) : list EthernetFrame :=
  omap (fun f => match frame_parse f with inl f => if bool_decide (ether_type (eth_header f) = ET_IPV4) then Some f else None | inr _ => None end) frames.
Definition frame_for (x : Z * MacAddr * bytes) : EthernetFrame := mkFrame (mkEth x.1.2 (from_option if_mac [] iface) ET_IPV4) x.2.
Record node_ok (n : Node) : Prop := {
  o_count x : cnt x (n_asked n) = cnt x (sent (n_left n)) + cnt x (n_refused n) + waiting x (pending (n_arp n)) + held x (n_handlers n);
  o_hop k q : pending (n_arp n) !! k = Some q -> exists a, addr_ok a /\ to_u32 a = k /\ next_hop config a = a;
  o_handlers t h : n_handlers n !! t = Some h -> handler_ok (n_learned n) h;
  o_cache k e : cache (n_arp n) !! k = Some e -> (k, mac e) ∈ n_learned n;
  o_left k m d : (k, m, d) ∈ n_left n -> (k, m) ∈ n_learned n;
  o_macs k m : (k, m) ∈ n_learned n -> length m = 6%nat;
  o_frames : ipv4_frames (n_frames n) = frame_for <$> n_left n }.
Lemma sumZ_perm {A} (f : A -> Z) l k : l ≡ₚ k -> sumZ f l = sumZ f k.
Proof. unfold sumZ. induction 1; cbn [foldr]; lia. Qed.
Lemma sum_delete {V} (f : Z * V -> Z) (m : gmap Z V) k v : m !! k = Some v -> sumZ f (map_to_list m) = f (k, v) + sumZ f (map_to_list (delete k m)).
Proof. intros E. rewrite <-(sumZ_perm f _ _ (map_to_list_delete m k v E)). done. Qed.
Lemma sum_insert {V} (f : Z * V -> Z) (m : gmap Z V) k v : sumZ f (map_to_list (<[k := v]> m)) = f (k, v) + sumZ f (map_to_list (delete k m)).
Proof. rewrite <-insert_delete_eq. rewrite (sumZ_perm f _ _ (map_to_list_insert (delete k m) k v (lookup_delete_eq m k))). done. Qed.
Lemma held_set x t h h' (m : gmap Z Handler) : m !! t = Some h -> held x (partial_alter (fun _ => h') t m) = held x m - cnt x (in_hand h) + from_option (fun h' => cnt x (in_hand h')) 0 h'.
Proof.
  intros E. unfold held. rewrite (sum_delete _ m t h E). destruct h' as [h'|]; cbn [from_option].
  - change (partial_alter (fun _ => Some h') t m) with (<[t := h']> m). rewrite sum_insert. cbn [snd]. lia.
  - change (partial_alter (fun _ => None) t m) with (delete t m). cbn [snd]. lia.
Qed.
Lemma held_start x t h (m : gmap Z Handler) : m !! t = None -> held x (partial_alter (fun _ => Some h) t m) = held x m + cnt x (in_hand h).
Proof. intros E. unfold held. change (partial_alter (fun _ => Some h) t m) with (<[t := h]> m). rewrite sum_insert. rewrite delete_id by done. cbn [snd]. lia. Qed.
Lemma waiting_push x k d (m : gmap Z (list bytes)) : waiting x (<[k := default [] (m !! k) ++ [d]]> m) = waiting x m + cnt x [(k, d)].
Proof.
  unfold waiting. rewrite sum_insert. cbn [fst snd]. rewrite fmap_app, cnt_app. destruct (m !! k) as [q|] eqn:E; cbn [default from_option]; unfold id; [rewrite (sum_delete _ m k q E); cbn [fst snd fmap list_fmap]; lia|].
  rewrite delete_id by done. cbn [fmap list_fmap]. rewrite cnt_nil. lia.
Qed.
Lemma waiting_take x k q (m : gmap Z (list bytes)) : m !! k = Some q -> waiting x (delete k m) = waiting x m - cnt x (pair k <$> q).
Proof. intros E. unfold waiting. rewrite (sum_delete _ m k q E). cbn [fst snd]. lia. Qed.
Lemma hand_onward x ip todo reply : from_option (fun h => cnt x (in_hand h)) 0 (onward ip todo reply) = cnt x (pair (key ip) <$> todo).
Proof. destruct todo as [|d l], reply as [a|]; done. Qed.
Lemma onward_ok learned ip todo reply h : addr_ok ip -> (forall a, reply = Some a -> sender_ok a) -> onward ip todo reply = Some h -> handler_ok learned h.
Proof. intros Hi Hr. destruct todo as [|d l], reply as [a|]; cbn; intros [= <-]; split_and!; try done; cbn; auto. Qed.
Lemma handler_weaken learned x h : handler_ok learned h -> handler_ok (learned ++ [x]) h.
Proof. intros (H1 & H2 & H3). split; [done|]. split; [done|]. destruct (h_point h); try done. apply elem_of_app. by left. Qed.
(** Replacing the handler of a thread. *)
Lemma handlers_set n t h' (P : Handler -> Prop) : (forall u h, n_handlers n !! u = Some h -> P h) -> (forall h, h' = Some h -> P h) ->
  forall u h, partial_alter (fun _ => h') t (n_handlers n) !! u = Some h -> P h.
Proof. intros H1 H2 u h. destruct (decide (t = u)) as [<-|Hne]; [rewrite lookup_partial_alter_eq; auto|rewrite lookup_partial_alter_ne by done; eauto]. Qed.
Lemma set_ok n t h h' : n_handlers n !! t = Some h ->
  (forall x, cnt x (n_asked n) = cnt x (sent (n_left n)) + cnt x (n_refused n) + waiting x (pending (n_arp n)) + held x (n_handlers n) - cnt x (in_hand h) + from_option (fun h' => cnt x (in_hand h')) 0 h') ->
  (forall k q, pending (n_arp n) !! k = Some q -> exists a, addr_ok a /\ to_u32 a = k /\ next_hop config a = a) ->
  (forall u h, n_handlers n !! u = Some h -> handler_ok (n_learned n) h) -> (forall h, h' = Some h -> handler_ok (n_learned n) h) ->
  (forall k e, cache (n_arp n) !! k = Some e -> (k, mac e) ∈ n_learned n) -> (forall k m d, (k, m, d) ∈ n_left n -> (k, m) ∈ n_learned n) ->
  (forall k m, (k, m) ∈ n_learned n -> length m = 6%nat) -> ipv4_frames (n_frames n) = frame_for <$> n_left n ->
  node_ok (set_handler t h' n).
Proof.
  intros Ht H1 H2 H3 H4 H5 H6 H7 H8. split; try done.
  - intros x. cbn [set_handler n_asked n_left n_refused n_arp n_handlers]. rewrite (held_set x t h h' _ Ht), H1. lia.
  - intros u h0. by apply (handlers_set n t h' (handler_ok (n_learned n))).
Qed.
End Interleaved.
Section Conservation.
Context (i : Iface) (config : Config).
(** Well-formed addresses; the interface may refuse frames. *)
Record station_ok : Prop := {
  st_mac : length (if_mac i) = 6%nat;
  st_ip : length (if_ip i) = 4%nat;
  st_own : addr_ok (ip_addr config);
  st_gw : addr_ok (gateway config) }.
Context (Hs : station_ok).
Abbreviation key ip := (to_u32 (next_hop config ip)).
Abbreviation iface := (Some i).
Lemma sent_snoc l k m d : sent (l ++ [(k, m, d)]) = sent l ++ [(k, d)].
Proof. unfold sent. by rewrite fmap_app. Qed.
Lemma ipv4_frames_app k l : ipv4_frames (k ++ l) = ipv4_frames k ++ ipv4_frames l.
Proof. apply omap_app. Qed.
Lemma ipv4_frames_one m t d : length m = 6%nat -> ipv4_frames [frame_bytes m (if_mac i) t d] = if bool_decide (t = ET_IPV4) then [mkFrame (mkEth m (if_mac i) t) d] else [].
Proof. intros Hm. unfold ipv4_frames. cbn [omap list_omap]. rewrite frame_read by (done || apply Hs). cbn [eth_header ether_type]. by destruct (bool_decide _). Qed.
(** A frame is on the wire, or nothing is and the sender is told. *)
Lemma send_frame_cases m t d : length m = 6%nat -> send_frame i m (if_mac i) t d = ([frame_bytes m (if_mac i) t d], inl tt) \/ exists e, send_frame i m (if_mac i) t d = ([], inr e).
Proof.
  intros Hm. unfold send_frame. destruct (Nat.le_gt_cases (length d) 1500) as [Hd|Hd].
  - rewrite frame_written by (done || apply Hs). unfold transmit. destruct (if_send i _) as [e|]; [right; by exists e|by left].
  - right. unfold frame_in_buffer, frame_serialize, frame_len, ETH_SIZE. cbn [eth_payload]. rewrite length_replicate. rewrite (proj2 (Nat.ltb_lt _ _)) by lia. by eexists.
Qed.
Lemma send_arp_silent d a : length d = 6%nat -> arp_ok a -> ipv4_frames (send_arp i d (if_mac i) a).1 = [].
Proof.
  intros Hd Ha. unfold send_arp. rewrite arp_written by done. destruct (send_frame_cases d ET_ARP (arp_bytes a) Hd) as [-> |[e ->]]; [|done]. cbn [fst]. rewrite ipv4_frames_one by done. done.
Qed.
Lemma request_silent ip : addr_ok ip -> ipv4_frames (send_arp i MAC_BROADCAST (if_mac i) (new_request (if_mac i) (if_ip i) (next_hop config ip))).1 = [].
Proof. intros Hi. destruct (next_hop_ok config ip (st_gw Hs) Hi) as [[H _] _]. apply send_arp_silent; [done|]. split; cbn; try done; apply Hs. Qed.
Lemma answer_silent a : sender_ok a -> ipv4_frames (send_arp i (sha a) (if_mac i) (new_reply (if_mac i) (ip_addr config) (sha a) (spa a))).1 = [].
Proof. intros [H1 H2]. apply send_arp_silent; [done|]. split; cbn; try done; apply Hs. Qed.
Lemma learn_case now t ip m todo reply n : node_ok iface config n -> n_handlers n !! t = Some (mkHandler ip (PLearn m) todo reply) -> node_ok iface config (proceed iface config now t (mkHandler ip (PLearn m) todo reply) n).
Proof.
  intros [W1 W2 W3 W4 W5 W6 W7] Ht. destruct (W3 _ _ Ht) as (Hi & Hr & Hp & Hm). cbn [h_ip h_reply h_todo] in *. unfold proceed. cbn [h_ip h_point h_todo h_reply].
  apply (set_ok iface config _ t (mkHandler ip (PLearn m) todo reply)); cbn [learn set_arp n_handlers n_asked n_left n_refused n_arp n_learned n_frames set_cache cache pending]; try done.
  - intros x. rewrite W1. cbn [from_option]. change (in_hand config (mkHandler ip PTake todo reply)) with (in_hand config (mkHandler ip (PLearn m) todo reply)). lia.
  - intros u h Hu. by apply handler_weaken, (W3 u).
  - intros h [= <-]. by split.
  - intros k e. destruct (decide (to_u32 ip = k)) as [<-|Hne]; [rewrite lookup_insert_eq; intros [= <-]; apply elem_of_app; right; by apply list_elem_of_singleton|]. rewrite lookup_insert_ne by done. intros He. apply elem_of_app. left. by apply W4.
  - intros k m' d' Hd. apply elem_of_app. left. by apply (W5 k m' d').
  - intros k m' [Hd|Hd]%elem_of_app; [by apply (W6 k)|]. by apply list_elem_of_singleton in Hd as [= -> ->].
Qed.
Lemma take_case now t ip todo reply n : node_ok iface config n -> n_handlers n !! t = Some (mkHandler ip PTake todo reply) -> node_ok iface config (proceed iface config now t (mkHandler ip PTake todo reply) n).
Proof.
  intros [W1 W2 W3 W4 W5 W6 W7] Ht. destruct (W3 _ _ Ht) as (Hi & Hr & Hp). cbn [h_ip h_reply h_todo h_point] in *. unfold proceed. cbn [h_ip h_point h_todo h_reply].
  destruct (pending (n_arp n) !! to_u32 ip) as [q|] eqn:Eq.
  - destruct (W2 _ _ Eq) as (a & Ha & Ea & Hn). apply to_u32_inj in Ea as ->; [|done|done]. apply (set_ok iface config _ t (mkHandler ip PTake todo reply)); cbn [set_arp n_handlers n_asked n_left n_refused n_arp n_learned n_frames set_pending cache pending]; try done.
    + intros x. rewrite W1, hand_onward, (waiting_take x _ q _ Eq). rewrite Hp. unfold in_hand. cbn [h_ip h_point h_todo]. rewrite Hn. cbn [fmap list_fmap]. rewrite cnt_nil. lia.
    + intros k q' [_ Hk]%lookup_delete_Some. by apply (W2 k q').
    + intros h. by apply onward_ok.
  - apply (set_ok iface config _ t (mkHandler ip PTake todo reply)); try done; [|intros h; by apply onward_ok]. intros x. rewrite W1, hand_onward, Hp. unfold in_hand. cbn [h_ip h_point h_todo fmap list_fmap]. lia.
Qed.
Lemma send_case now t ip m d todo reply n : node_ok iface config n -> n_handlers n !! t = Some (mkHandler ip (PSend m d) todo reply) -> node_ok iface config (proceed iface config now t (mkHandler ip (PSend m d) todo reply) n).
Proof.
  intros [W1 W2 W3 W4 W5 W6 W7] Ht. destruct (W3 _ _ Ht) as (Hi & Hr & Hp). cbn [h_ip h_reply h_todo h_point] in *. unfold proceed. cbn [h_ip h_point h_todo h_reply].
  assert (forall x, cnt x (in_hand config (mkHandler ip (PSend m d) todo reply)) = cnt x [(key ip, d)] + cnt x (pair (key ip) <$> todo)) as Hin by (intros x; unfold in_hand; cbn [h_ip h_point h_todo]; by rewrite fmap_cons, (cnt_cons x (key ip, d) (pair (key ip) <$> todo))).
  destruct (send_frame_cases m ET_IPV4 d (W6 _ _ Hp)) as [-> |[e ->]]; apply (set_ok iface config _ t (mkHandler ip (PSend m d) todo reply)); cbn [wire outcome n_asked n_left n_refused n_arp n_handlers n_learned n_frames]; try done; try (intros h; by apply onward_ok).
  - intros x. rewrite hand_onward, sent_snoc, cnt_app, W1, Hin. lia.
  - intros k m' d' [Hd|Hd]%elem_of_app; [by apply (W5 k m' d')|]. by apply list_elem_of_singleton in Hd as [= -> -> ->].
  - rewrite ipv4_frames_app, W7, fmap_app, ipv4_frames_one by (by apply (W6 (key ip))). done.
  - intros x. rewrite hand_onward, cnt_app, W1, Hin. lia.
  - by rewrite app_nil_r.
Qed.
Lemma park_case now t ip d todo reply n : node_ok iface config n -> n_handlers n !! t = Some (mkHandler ip (PPark d) todo reply) -> node_ok iface config (proceed iface config now t (mkHandler ip (PPark d) todo reply) n).
Proof.
  intros [W1 W2 W3 W4 W5 W6 W7] Ht. destruct (W3 _ _ Ht) as (Hi & Hr & Hp). cbn [h_ip h_reply h_todo h_point] in *. unfold proceed. cbn [h_ip h_point h_todo h_reply].
  apply (set_ok iface config _ t (mkHandler ip (PPark d) todo reply)); cbn [set_arp n_handlers n_asked n_left n_refused n_arp n_learned n_frames set_pending cache pending]; try done.
  - intros x. rewrite W1, waiting_push. cbn [from_option]. unfold in_hand. cbn [h_ip h_point h_todo]. rewrite fmap_cons, (cnt_cons x (key ip, d) (pair (key ip) <$> todo)). lia.
  - intros k q. destruct (decide (key ip = k)) as [<-|Hne]; [|rewrite lookup_insert_ne by done; apply W2]. intros _. exists (next_hop config ip). destruct (next_hop_ok config ip (st_gw Hs) Hi) as [H1 H2]. done.
  - intros h [= <-]. by split.
Qed.
Lemma proceed_ok now t h n : node_ok iface config n -> n_handlers n !! t = Some h -> node_ok iface config (proceed iface config now t h n).
Proof.
  intros Hn Ht. destruct h as [ip [m| |d|m d|d| | |a] todo reply]; [by apply learn_case|by apply take_case| |by apply send_case|by apply park_case| | |];
    destruct Hn as [W1 W2 W3 W4 W5 W6 W7]; destruct (W3 _ _ Ht) as (Hi & Hr & Hp); cbn [h_ip h_reply h_todo h_point] in *; unfold proceed; cbn [h_ip h_point h_todo h_reply].
  - apply (set_ok iface config _ t (mkHandler ip (PResolve d) todo reply)); try done.
    + intros x. rewrite W1. cbn [from_option]. unfold in_hand. cbn [h_ip h_point h_todo]. destruct (resolve _ _); lia.
    + intros h [= <-]. split; [done|]. split; [done|]. cbn [h_point h_ip]. unfold resolve. destruct (cache (n_arp n) !! key ip) as [e|] eqn:Ec; [|done]. by apply W4.
  - destruct (match last_request (n_arp n) !! key ip with Some u => u64_sub now u <? 1 | None => false end); apply (set_ok iface config _ t (mkHandler ip PAsk todo reply)); try done; try (intros h; by apply onward_ok).
    + intros x. rewrite W1, hand_onward. unfold in_hand. cbn [h_ip h_point h_todo]. lia.
    + intros x. cbn [set_arp n_asked n_left n_refused n_arp n_handlers set_last_request pending]. rewrite W1. cbn [from_option]. change (in_hand config (mkHandler ip PAskSend todo reply)) with (in_hand config (mkHandler ip PAsk todo reply)). lia.
    + intros h [= <-]. by split.
  - pose proof (request_silent ip Hi) as Hq. destruct (send_arp i MAC_BROADCAST (if_mac i) (new_request (if_mac i) (if_ip i) (next_hop config ip))) as [l r]. cbn [fst] in Hq. apply (set_ok iface config _ t (mkHandler ip PAskSend todo reply)); try done; try (intros h; by apply onward_ok).
    + intros x. cbn [wire n_asked n_left n_refused n_arp n_handlers]. rewrite W1, hand_onward. unfold in_hand. cbn [h_ip h_point h_todo]. lia.
    + cbn [wire n_frames n_left]. by rewrite ipv4_frames_app, Hq, app_nil_r.
  - destruct Hp as [Hp Ha]. pose proof (answer_silent a Ha) as Hq. destruct (send_arp i (sha a) (if_mac i) (new_reply (if_mac i) (ip_addr config) (sha a) (spa a))) as [l r]. cbn [fst] in Hq. apply (set_ok iface config _ t (mkHandler ip (PAnswer a) todo reply)); try done.
    + intros x. cbn [wire n_asked n_left n_refused n_arp n_handlers]. rewrite W1, Hp. cbn [from_option]. unfold in_hand. cbn [h_ip h_point h_todo fmap list_fmap]. rewrite cnt_nil. lia.
    + cbn [wire n_frames n_left]. by rewrite ipv4_frames_app, Hq, app_nil_r.
Qed.
Definition node_event_ok (e : NodeEvent) : Prop := match e with Call _ ip _ => addr_ok ip | Receive _ p => Checksum.bytes p | _ => True end.
Lemma node_step_ok n e : node_event_ok e -> node_ok iface config n -> node_ok iface config (node_step iface config n e).
Proof.
  intros He Hn. destruct e as [t ip d|t p|t now|now]; cbn [node_step].
  - destruct (n_handlers n !! t) as [h|] eqn:Et; [done|]. destruct Hn as [W1 W2 W3 W4 W5 W6 W7]. split; try done.
    + intros x. cbn [n_asked n_left n_refused n_arp n_handlers set_handler]. rewrite cnt_app, W1, held_start by done. unfold in_hand. cbn [h_ip h_point h_todo fmap list_fmap]. lia.
    + apply (handlers_set n t _ (handler_ok config (n_learned n)) W3). intros h [= <-]. by split.
  - destruct (n_handlers n !! t) as [h|] eqn:Et; [by destruct (arp_parse p)|]. destruct (arp_parse p) as [a|] eqn:Ea; [|done]. destruct (arp_parse_sender p a He Ea) as (Ha & H6 & H4). destruct Hn as [W1 W2 W3 W4 W5 W6 W7]. split; try done.
    + intros x. cbn [n_asked n_left n_refused n_arp n_handlers set_handler]. rewrite W1, held_start by done. unfold in_hand. cbn [h_ip h_point h_todo fmap list_fmap]. rewrite cnt_nil. lia.
    + apply (handlers_set n t _ (handler_ok config (n_learned n)) W3). intros h [= <-]. split; [done|]. cbn. split; [|done]. intros b. case_match; [|done]. by intros [= <-].
  - destruct (n_handlers n !! t) as [h|] eqn:Et; [|done]. by apply proceed_ok.
  - destruct Hn as [W1 W2 W3 W4 W5 W6 W7]. split; try done. intros k e [Hk _]%map_lookup_filter_Some. by apply W4.
Qed.
(** C29: packets are conserved while ARP handlers interleave.  For any number of calls of [send_to_ip], received ARP
    packets and expiries, interleaved in any way between the locks they take (cache, waiting
    packets, request times, interface), each IPv4 packet handed over is, exactly once, on
    the wire, refused by the interface (or too long for a frame), waiting for an address, or in the
    hands of a handler; the IPv4 frames on the wire are exactly the packets that left,
    each to a hardware address that an ARP packet had announced for its next hop. *)
Theorem arp_conserves es : Forall node_event_ok es -> let n := foldl (node_step iface config) node_new es in
  (forall x, cnt x (n_asked n) = cnt x (sent (n_left n)) + cnt x (n_refused n) + waiting x (pending (n_arp n)) + held config x (n_handlers n)) /\
  ipv4_frames (n_frames n) = frame_for iface <$> n_left n /\ (forall k m d, (k, m, d) ∈ n_left n -> (k, m) ∈ n_learned n).
Proof.
  intros He. assert (node_ok iface config node_new) as H0 by (split; try done; intros *; by rewrite ?elem_of_nil). cbv zeta. revert H0. generalize node_new. induction He as [|e es He _ IH]; intros n Hn; cbn [foldl]; [|by apply IH, node_step_ok].
  destruct Hn as [W1 _ _ _ W5 _ W7]. done.
Qed.
End Conservation.
(** ** Examples *)
Definition mac_a : MacAddr := [2; 0; 0; 0; 0; 1].
Definition mac_b : MacAddr := [2; 0; 0; 0; 0; 2].
Definition addr_a : Ipv4Addr := [10; 0; 0; 1].
Definition addr_b : Ipv4Addr := [10; 0; 0; 2].
Definition config_of (a : Ipv4Addr) : Config := mkConfig a [255; 255; 255; 0] [10; 0; 0; 254].
Definition iface_of (m : MacAddr) (a : Ipv4Addr) : Iface := mkIface m a (fun _ => None).
Lemma iface_ok m d : length m = 6%nat -> 0 <= d < 256 -> link_ok (iface_of m [10; 0; 0; d]) (config_of [10; 0; 0; d]).
Proof. intros Hm Hd. split; cbn; try done; (split; [done|]); repeat (constructor; [lia|]); constructor. Qed.
Lemma iface_a_ok : link_ok (iface_of mac_a addr_a) (config_of addr_a).
Proof. by apply iface_ok. Qed.
Lemma iface_b_ok : link_ok (iface_of mac_b addr_b) (config_of addr_b).
Proof. by apply iface_ok. Qed.
(** The loopback interface returns what it was given last: packets come back in reverse order. *)
Lemma loopback_last_first d i : up i = true -> (loop_recv (loop_send d i).1).2 = Some d.
Proof. intros Hu. unfold loop_send, loop_recv. rewrite Hu. cbn [negb fst rx_queue]. by rewrite last_snoc. Qed.
(** A packet sent the way TCP and UDP send theirs is the frame; the receiver takes bytes of the source address for its type and ignores it. *)
Definition accept_out (_ : OutHook) (d : bytes) : res (bytes * bool) := inl (d, true).
Example unframed_packet_ignored : (let p := match build_packet addr_a addr_b TCP [1; 2; 3] 1500 with inl p => p | inr _ => [] end in
  let '(_, l, r) := net_send (Some (iface_of mac_a addr_a)) accept_out accept_out (fun _ => false) p in
  (bool_decide (l = [p]), r, (net_process (Some (iface_of mac_b addr_b)) (config_of addr_b) 0 pass (fun _ => inr InvalidPacket) (fun _ => inr InvalidPacket) p arp_new).2)) = (true, inl tt, inl tt).
Proof. vm_compute. reflexivity. Qed.
(** Anyone can change a known address: a reply is believed whether it was asked for or not. *)
Example unasked_reply_believed : (let s := (add_entry (Some (iface_of mac_a addr_a)) (config_of addr_a) 1 addr_b mac_b arp_new).1 in
  resolve addr_b (arp_process (Some (iface_of mac_a addr_a)) (config_of addr_a) 2 (arp_bytes (new_reply [6; 6; 6; 6; 6; 6] addr_b mac_a addr_a)) s).1.1) = Some [6; 6; 6; 6; 6; 6].
Proof. vm_compute. reflexivity. Qed.
Definition link_events : list LinkEvent := [SendTo 1 addr_b [1]; SendTo 1 addr_b [2]; Learn 2 (arp_bytes (new_reply mac_b addr_b mac_a addr_a)); SendTo 3 addr_b [3]; Expire 2000; SendTo 2001 addr_b [4]].
Lemma arp_fifo_witness : let h := foldl (link_step (iface_of mac_a addr_a) (config_of addr_a)) (mkHist arp_new [] []) link_events in
  for_hop (to_u32 addr_b) (h_left h) = [[1]; [2]; [3]] /\ for_hop (to_u32 addr_b) (h_left h) ++ default [] (pending (h_arp h) !! to_u32 addr_b) = for_hop (to_u32 addr_b) (h_asked h).
Proof.
  split; [vm_compute; reflexivity|]. apply (arp_fifo (iface_of mac_a addr_a) (config_of addr_a) iface_a_ok link_events). repeat (apply Forall_cons; split); try apply Forall_nil; try done; try (split; [apply iface_b_ok|cbn; lia]).
Defined.
Lemma arp_resolves_witness : exists sa1 req, send_to_ip (Some (iface_of mac_a addr_a)) (config_of addr_a) 1 addr_b [1; 2; 3] arp_new = (sa1, [req], inr WouldBlock).
Proof.
  destruct (arp_resolves (iface_of mac_a addr_a) (iface_of mac_b addr_b) (config_of addr_a) (config_of addr_b) iface_a_ok iface_b_ok eq_refl eq_refl 1 2 3 [1; 2; 3] arp_new arp_new) as (sa1 & req & _ & _ & _ & _ & H & _); [cbn; lia|done..|]. by exists sa1, req.
Defined.
Lemma station_a_ok : station_ok (iface_of mac_a addr_a) (config_of addr_a).
Proof. destruct iface_a_ok. by split. Qed.
(** A reply handled between the lookup of an address and the queueing of the packet: the address is known, the
    packet [1] waits all the same, and the later packet [2] overtakes it. *)
Definition race : list NodeEvent := [Call 1 addr_b [1]; Proceed 1 1; Receive 2 (arp_bytes (new_reply mac_b addr_b mac_a addr_a)); Proceed 2 2; Proceed 2 2; Proceed 1 3; Proceed 1 3; Proceed 1 3; Call 3 addr_b [2]; Proceed 3 4; Proceed 3 4].
Example waits_though_known : (let n := foldl (node_step (Some (iface_of mac_a addr_a)) (config_of addr_a)) node_new race in
  (map_to_list (n_handlers n), resolve addr_b (n_arp n), pending (n_arp n) !! to_u32 addr_b, n_left n)) = ([], Some mac_b, Some [[1]], [(to_u32 addr_b, mac_b, [2])]).
Proof. vm_compute. reflexivity. Qed.
Lemma arp_conserves_witness : let n := foldl (node_step (Some (iface_of mac_a addr_a)) (config_of addr_a)) node_new race in
  ipv4_frames (n_frames n) = [mkFrame (mkEth mac_b mac_a ET_IPV4) [2]] /\ forall x, cnt x (n_asked n) = cnt x (sent (n_left n)) + cnt x (n_refused n) + waiting x (pending (n_arp n)) + held (config_of addr_a) x (n_handlers n).
Proof.
  cbv zeta. destruct (arp_conserves (iface_of mac_a addr_a) (config_of addr_a) station_a_ok race) as (H1 & H2 & _).
  - repeat (apply Forall_cons; split); try apply Forall_nil; try done; apply iface_b_ok.
  - split; [rewrite H2; vm_compute; reflexivity|exact H1].
Defined.
End Link.
