(* ===== verification/Udp.v ===== *)
(** * UDP

    Models [src/src/net/udp.rs]: headers and checksums for both versions of IP, sockets, the table of
    bound ports, the choice of an ephemeral port, sending, and the delivery of received datagrams.
    Addresses and the environment (our addresses, what the link returns) are those of [Tcp]; the random
    numbers drawn for a port are a list.

    [udp_delivers]: a datagram arrives at the socket bound to its port with the data and the address of
    its sender, behind those that were there.  [ephemeral_port_exact]: a chosen port is free in both
    families, and the choice fails only when none is.  The examples show what happens when two sockets are
    bound to one port. *)
From S2P Require Import Prelude Checksum Ipv4 TcpWire Tcp.

Module Udp.
Import Ipv4.
Abbreviation SocketAddr := Tcp.SocketAddr.
Abbreviation AddressFamily := Tcp.AddressFamily.
Abbreviation Ipv6Addr := (list Z).
Abbreviation Env := Tcp.Env.
#[export] Existing Instances Tcp.AddressFamily_eq_dec Tcp.AddressFamily_countable Tcp.IpAddr_eq_dec Tcp.SocketAddr_eq_dec.

(** ** Headers *)
Record UdpHeader := mkUdp { src_port : Z; dst_port : Z; udp_length : Z; udp_checksum : Z }.
Definition UDP_SIZE : nat := 8.
Definition udp_parse (data : bytes) : res UdpHeader :=
  if (length data <? UDP_SIZE)%nat then inr InvalidPacket
  else
    let len := be_word data 4 in
    if (len <? 8) || (Z.of_nat (length data) <? len) then inr InvalidPacket
    else inl (mkUdp (be_word data 0) (be_word data 2) len (be_word data 6)).
Definition udp_bytes (h : UdpHeader) : bytes := be16 (src_port h) ++ be16 (dst_port h) ++ be16 (udp_length h) ++ be16 (udp_checksum h).
Definition udp_serialize (h : UdpHeader) (buf : bytes) : res bytes := if (length buf <? UDP_SIZE)%nat then inr BufferFull else inl (blit 0 (udp_bytes h) buf).
Definition udp_header_new (s d len : Z) : UdpHeader := mkUdp s d len 0.

(** ** Checksums *)
(** A checksum of zero is sent as its other form. *)
Definition never_zero (c : Z) : Z := if c =? 0 then 0xFFFF else c.
Definition compute_checksum (s d : Ipv4Addr) (segment : bytes) : Z :=
  let sum := u32_add (u32_add (u32_add (u32_add 0 (be_word s 0)) (be_word s 2)) (be_word d 0)) (be_word d 2) in
  let sum := u32_add (u32_add sum 17) (as_u32 (Z.of_nat (length segment))) in
  never_zero (Checksum.fold_checksum (Checksum.sum_all segment sum)).
Definition verify_checksum (s d : Ipv4Addr) (segment : bytes) : bool :=
  if (8 <=? length segment)%nat && (be_word segment 6 =? 0) then true
  else let v := compute_checksum s d segment in (v =? 0) || (v =? 0xFFFF).
Definition compute_checksum_v6 (s d : Ipv6Addr) (segment : bytes) : Z :=
  let sum := Checksum.add_words d (Checksum.add_words s 0) in
  let len := as_u32 (Z.of_nat (length segment)) in
  let sum := u32_add (u32_add (u32_add sum (Z.shiftr len 16)) (Z.land len 0xFFFF)) 17 in
  never_zero (Checksum.fold_checksum (Checksum.sum_all segment sum)).
Definition verify_checksum_v6 (s d : Ipv6Addr) (segment : bytes) : bool := let v := compute_checksum_v6 s d segment in (v =? 0) || (v =? 0xFFFF).

(** ** Sockets *)
Record UdpSocket := mkSock { sock_id : Z; sock_family : AddressFamily; sock_local : SocketAddr; rx_buffer : list (SocketAddr * bytes) }.
Definition sock_new (id : Z) (f : AddressFamily) : UdpSocket := mkSock id f Tcp.addr_default [].
Definition set_local (a : SocketAddr) (k : UdpSocket) : UdpSocket := mkSock (sock_id k) (sock_family k) a (rx_buffer k).
Definition set_rx (l : list (SocketAddr * bytes)) (k : UdpSocket) : UdpSocket := mkSock (sock_id k) (sock_family k) (sock_local k) l.
(** The packet if the link takes it, and the length of the data. *)
Definition transmit (env : Env) (packet data : bytes) : list bytes * res nat := match Tcp.link env packet with None => ([packet], inl (length data)) | Some e => ([], inr e) end.
Definition sock_send_to (env : Env) (data : bytes) (dst : SocketAddr) (k : UdpSocket) : list bytes * res nat :=
  let len := (UDP_SIZE + length data)%nat in
  if (65535 <? Z.of_nat len) then ([], inr InvalidPacket)
  else match udp_serialize (udp_header_new (Tcp.port (sock_local k)) (Tcp.port dst) (Z.of_nat len)) (replicate len 0) with
    | inr e => ([], inr e)
    | inl buf =>
        let segment := blit UDP_SIZE data buf in
        match Tcp.ip (sock_local k), Tcp.ip dst with
        | Tcp.V4 s, Tcp.V4 d =>
            let s := if is_unspecified s then Tcp.local_ip env else s in
            let segment := blit 6 (be16 (compute_checksum s d segment)) segment in
            match build_packet (Tcp.local_ip env) d UDP segment 1500 with inr e => ([], inr e) | inl p => transmit env p data end
        | Tcp.V6 s, Tcp.V6 d =>
            let s := if bool_decide (s = Tcp.UNSPECIFIED6) then Tcp.local_ipv6 env else s in
            let segment := blit 6 (be16 (compute_checksum_v6 s d segment)) segment in
            transmit env (Tcp.ipv6_packet s d 17 segment) data
        | _, _ => ([], inr InvalidParam)
        end
    end.
(** Reads the first datagram into a buffer of [n] bytes; the rest of it is gone. *)
Definition sock_recv_from (n : nat) (k : UdpSocket) : UdpSocket * res (bytes * SocketAddr) :=
  match rx_buffer k with
  | [] => (k, inr WouldBlock)
  | (s, data) :: l => (set_rx l k, inl (take (Nat.min n (length data)) data, s))
  end.

(** ** The tables *)
Record Udp := mkTables { socks : gmap Z UdpSocket; bindings : gmap (AddressFamily * Z) Z; next_socket : Z }.
Definition udp_new : Udp := mkTables ∅ ∅ 1.
Definition set_socks (m : gmap Z UdpSocket) (t : Udp) : Udp := mkTables m (bindings t) (next_socket t).
Definition set_bindings (m : gmap (AddressFamily * Z) Z) (t : Udp) : Udp := mkTables (socks t) m (next_socket t).
Definition create_socket (f : AddressFamily) (t : Udp) : Udp * Z :=
  let id := next_socket t in (mkTables (<[id := sock_new id f]> (socks t)) (bindings t) (u32_add id 1), id).
Definition EPHEMERAL_PORT_START : Z := 49152.
Definition EPHEMERAL_PORT_END : Z := 65535.
Definition CANDIDATES : nat := Z.to_nat (EPHEMERAL_PORT_END - EPHEMERAL_PORT_START + 1).
Definition port_free (t : Udp) (p : Z) : bool := bool_decide (bindings t !! (Tcp.IPV4, p) = None) && bool_decide (bindings t !! (Tcp.IPV6, p) = None).
Definition ephemeral_ports : list Z := (fun i => EPHEMERAL_PORT_START + Z.of_nat i) <$> seq 0 CANDIDATES.
(** [draws]: the random ports, at most as many as there are ports. *)
Definition allocate_ephemeral_port (draws : list Z) (t : Udp) : res Z :=
  match find (port_free t) (take CANDIDATES draws) with
  | Some p => inl p
  | None => match find (port_free t) ephemeral_ports with Some p => inl p | None => inr AddrNotAvailable end
  end.
Definition bind (draws : list Z) (id : Z) (a : SocketAddr) (t : Udp) : Udp * res unit :=
  match socks t !! id with
  | None => (t, inr ProtocolError)
  | Some k =>
      match (if Tcp.port a =? 0 then match allocate_ephemeral_port draws t with inl p => inl (Tcp.mkAddr (Tcp.ip a) p) | inr e => inr e end else inl a) with
      | inr e => (t, inr e)
      | inl a => (mkTables (<[id := set_local a k]> (socks t)) (<[(sock_family k, Tcp.port a) := id]> (bindings t)) (next_socket t), inl tt)
      end
  end.
(** The packets sent, whether a datagram is counted, and the result. *)
Definition send_to (env : Env) (id : Z) (data : bytes) (dst : SocketAddr) (t : Udp) : list bytes * bool * res nat :=
  match socks t !! id with
  | None => ([], false, inr ProtocolError)
  | Some k => let '(l, r) := sock_send_to env data dst k in (l, match r with inl _ => true | inr _ => false end, r)
  end.
Definition recv_from (id : Z) (n : nat) (t : Udp) : Udp * res (bytes * SocketAddr) :=
  match socks t !! id with
  | None => (t, inr ProtocolError)
  | Some k => let '(k, r) := sock_recv_from n k in (set_socks (<[id := k]> (socks t)) t, r)
  end.
Definition close (id : Z) (t : Udp) : Udp :=
  match socks t !! id with
  | Some k => mkTables (delete id (socks t)) (delete (sock_family k, Tcp.port (sock_local k)) (bindings t)) (next_socket t)
  | None => t
  end.
Definition get_socket (id : Z) (t : Udp) : option UdpSocket := socks t !! id.
Definition get_all_sockets (t : Udp) : list UdpSocket := omap (fun id => socks t !! id) (merge_sort Z.le (elements (dom (socks t)))).
(** The bound ports, sorted by family and port as the map is. *)
Definition list_sockets (t : Udp) : list Z :=
  let ports f := merge_sort Z.le (omap (fun x : AddressFamily * Z => if bool_decide (x.1 = f) then Some x.2 else None) (elements (dom (bindings t)))) in
  ports Tcp.UNSPEC ++ ports Tcp.IPV4 ++ ports Tcp.IPV6 ++ ports Tcp.PACKET.

(** ** Received datagrams *)
Inductive UdpCounter := InDatagrams | InErrors | NoPorts.
(** To the socket bound to the port, if it still exists. *)
Definition deliver (f : AddressFamily) (src : SocketAddr) (port : Z) (data : bytes) (t : Udp) : Udp * list UdpCounter :=
  match bindings t !! (f, port) with
  | None => (t, [NoPorts])
  | Some id => (match socks t !! id with Some k => set_socks (<[id := set_rx (rx_buffer k ++ [(src, data)]) k]> (socks t)) t | None => t end, [])
  end.
Definition receive (f : AddressFamily) (valid : bool) (a : Tcp.IpAddr) (payload : bytes) (t : Udp) : Udp * list UdpCounter * res unit :=
  if negb valid then (t, [InDatagrams; InErrors], inr ChecksumError)
  else match udp_parse payload with
    | inr e => (t, [InDatagrams], inr e)
    | inl h => let '(t, l) := deliver f (Tcp.mkAddr a (src_port h)) (dst_port h) (take (Z.to_nat (udp_length h) - UDP_SIZE) (drop UDP_SIZE payload)) t in (t, InDatagrams :: l, inl tt)
    end.
Definition process_packet (s d : Ipv4Addr) (payload : bytes) : Udp -> Udp * list UdpCounter * res unit := receive Tcp.IPV4 (verify_checksum s d payload) (Tcp.V4 s) payload.
Definition process_ipv6_packet (s d : Ipv6Addr) (payload : bytes) : Udp -> Udp * list UdpCounter * res unit := receive Tcp.IPV6 (verify_checksum_v6 s d payload) (Tcp.V6 s) payload.

(** ** A datagram on the way *)
Lemma udp_bytes_length h : length (udp_bytes h) = 8%nat.
Proof. done. Qed.
Lemma segment_written h data : exists buf, udp_serialize h (replicate (8 + length data) 0) = inl buf /\ blit 8 data buf = udp_bytes h ++ data.
Proof.
  unfold udp_serialize. rewrite length_replicate, (proj2 (Nat.ltb_ge _ _)) by (unfold UDP_SIZE; lia). eexists. split; [reflexivity|]. change (replicate (8 + length data) 0) with ([] ++ replicate (8 + length data) 0). rewrite blit_zeros by done. rewrite app_nil_l, udp_bytes_length. replace (8 + length data - 8)%nat with (length data) by lia. rewrite blit_zeros by done. by rewrite Nat.sub_diag, app_nil_r.
Qed.
Lemma checksum_written c h data : blit 6 (be16 c) (udp_bytes h ++ data) = udp_bytes (mkUdp (src_port h) (dst_port h) (udp_length h) c) ++ data.
Proof. reflexivity. Qed.
Definition pseudo17 (s d : Ipv4Addr) (n : nat) : Z := be_word s 0 + be_word s 2 + be_word d 0 + be_word d 2 + 17 + Z.of_nat n.
Lemma udp_checksum_spec s d seg : Checksum.bytes s -> Checksum.bytes d -> Checksum.bytes seg -> Z.of_nat (length seg) <= 100000 -> 0 <= pseudo17 s d (length seg) /\ compute_checksum s d seg = never_zero (65535 - Checksum.oc (pseudo17 s d (length seg) + Checksum.words seg)).
Proof.
  intros Hs Hd Hb Hl. pose proof (Checksum.be_word_range s 0 Hs). pose proof (Checksum.be_word_range s 2 Hs). pose proof (Checksum.be_word_range d 0 Hd). pose proof (Checksum.be_word_range d 2 Hd). unfold pseudo17. split; [lia|].
  unfold compute_checksum. cbv zeta. assert (as_u32 (Z.of_nat (length seg)) = Z.of_nat (length seg)) as -> by (unfold as_u32; apply Z.mod_small; unfold u32_mod; lia). rewrite !Checksum.u32_add_add. rewrite u32_add_small by (unfold u32_mod; lia). rewrite TcpWire.sum_closed by (done || lia). do 4 f_equal. lia.
Qed.
(** A field that holds the checksum, in either form of zero, makes the sum full. *)
Lemma never_zero_closes P a b : Nat.Even (length a) -> Checksum.bytes a -> Checksum.bytes b -> 0 <= P -> let c := never_zero (65535 - Checksum.oc (P + Checksum.words (a ++ [0; 0] ++ b))) in
  0 < c < 65536 /\ Checksum.oc (P + Checksum.words (a ++ be16 c ++ b)) = 65535.
Proof.
  intros He Ha Hb HP. destruct (TcpWire.field_closes P a b He Ha Hb HP) as [Hr Hc]. cbv zeta. unfold never_zero. destruct (Z.eqb_spec (65535 - Checksum.oc (P + Checksum.words (a ++ [0; 0] ++ b))) 0) as [E|E]; [|split; [lia|done]]. rewrite E in Hc. split; [lia|].
  pose proof (proj1 (Checksum.words_bound a Ha)). pose proof (proj1 (Checksum.words_bound b Hb)). rewrite !words_app_even in * by (try done; by exists 1%nat). change (Checksum.words (be16 0)) with 0 in *. change (Checksum.words (be16 65535)) with 65535. apply Checksum.oc_full in Hc as (H1 & k & Hk); [|lia]. apply Checksum.oc_full; [lia|]. split; [lia|]. exists (k + 1). lia.
Qed.
Lemma segment_arrives s d sp dp data : Checksum.bytes s -> Checksum.bytes d -> 0 <= sp < 65536 -> 0 <= dp < 65536 -> Checksum.bytes data -> Z.of_nat (length data) <= 60000 ->
  let seg c := udp_bytes (mkUdp sp dp (Z.of_nat (8 + length data)) c) ++ data in
  let c := compute_checksum s d (seg 0) in
  verify_checksum s d (seg c) = true /\ udp_parse (seg c) = inl (mkUdp sp dp (Z.of_nat (8 + length data)) c).
Proof.
  intros Hs Hd Hsp Hdp Hda Hn seg c. set (len := Z.of_nat (8 + length data)) in *. set (a := be16 sp ++ be16 dp ++ be16 len). assert (forall x, seg x = a ++ be16 x ++ data) as Es by (intros x; unfold seg, udp_bytes, a; cbn [src_port dst_port udp_length udp_checksum]; by rewrite <-!app_assoc).
  assert (Checksum.bytes a) as Ha by (unfold a; repeat (apply Forall_app; split); apply be16_bytes). assert (forall x, Checksum.bytes (seg x)) as Hb by (intros x; rewrite Es; apply Forall_app; split; [done|]; apply Forall_app; split; [apply be16_bytes|done]). assert (forall x, length (seg x) = 8 + length data)%nat as Ll by done.
  destruct (udp_checksum_spec s d (seg 0) Hs Hd (Hb 0)) as [HP Ec]; [rewrite Ll; lia|]. destruct (never_zero_closes (pseudo17 s d (length (seg 0))) a data) as [H1 H2]; [by exists 3%nat|done|done|done|]. change [0; 0] with (be16 0) in H1, H2. rewrite <-(Es 0), <-Ec in H1, H2. fold c in H1, H2.
  assert (be_word (seg c) 6 = c /\ be_word (seg c) 0 = sp /\ be_word (seg c) 2 = dp /\ be_word (seg c) 4 = len) as (W6 & W0 & W2 & W4).
  { unfold seg, be_word, Checksum.be_word, get, Checksum.get. cbn -[Z.div Z.modulo Z.mul Z.add len]. rewrite !be16_word by (done || unfold len; lia). done. }
  split.
  - unfold verify_checksum. rewrite W6, (proj2 (Z.eqb_neq c 0)) by lia. rewrite andb_false_r. cbv zeta. destruct (udp_checksum_spec s d (seg c) Hs Hd (Hb c)) as [_ ->]; [rewrite Ll; lia|]. rewrite Ll, <-(Ll 0), (Es c), H2. done.
  - unfold udp_parse. rewrite Ll, (proj2 (Nat.ltb_ge _ _)) by (unfold UDP_SIZE; lia). cbv zeta. rewrite W4, W0, W2, W6. rewrite (proj2 (Z.ltb_ge len 8)), (proj2 (Z.ltb_ge _ len)) by (unfold len; lia). done.
Qed.
(** The sender's side: a socket of host [A], bound to its address or to none. *)
Record sender_ok (A : Ipv4Addr) (env : Env) (k : UdpSocket) : Prop := {
  s_addr : addr_ok A;
  s_real : A <> UNSPECIFIED;
  s_env : Tcp.local_ip env = A;
  s_link : forall p, Tcp.link env p = None;
  s_local : exists a, Tcp.ip (sock_local k) = Tcp.V4 a /\ (a = UNSPECIFIED \/ a = A);
  s_port : 0 <= Tcp.port (sock_local k) < 65536 }.
(** The packet a socket sends, as the receiver's IP layer hands it over. *)
Lemma send_arrives A B env k pb data : sender_ok A env k -> addr_ok B -> 0 <= pb < 65536 -> Checksum.bytes data -> (length data <= 1472)%nat ->
  exists p pk, sock_send_to env data (Tcp.mkAddr (Tcp.V4 B) pb) k = ([p], inl (length data)) /\ parse_packet p = inl pk /\ src (header pk) = A /\ dst (header pk) = B /\ protocol (header pk) = UDP /\
    verify_checksum A B (payload pk) = true /\ exists c, udp_parse (payload pk) = inl (mkUdp (Tcp.port (sock_local k)) pb (Z.of_nat (8 + length data)) c) /\ drop 8 (payload pk) = data.
Proof.
  intros [S1 S2 S3 S4 (a & Ea & Ha) S6] HB Hpb Hd Hl. unfold sock_send_to. cbv zeta. unfold UDP_SIZE. rewrite (proj2 (Z.ltb_ge _ _)) by lia. set (len := Z.of_nat (8 + length data)). set (sp := Tcp.port (sock_local k)) in *.
  destruct (segment_written (udp_header_new sp pb len) data) as (buf & Eb & Hbuf). cbn [Tcp.port Tcp.ip]. rewrite Eb, Ea, Hbuf.
  assert ((if is_unspecified a then Tcp.local_ip env else a) = A) as -> by (unfold is_unspecified; destruct Ha as [->| ->]; [by rewrite bool_decide_true|by rewrite bool_decide_false]). rewrite S3, checksum_written. cbn [udp_header_new src_port dst_port udp_length].
  set (seg c := udp_bytes (mkUdp sp pb len c) ++ data). change (udp_bytes (udp_header_new sp pb len) ++ data) with (seg 0). fold (seg (compute_checksum A B (seg 0))).
  destruct (segment_arrives A B sp pb data) as [V P]; [apply S1|apply HB|done|done|done|lia|]. fold len in V, P. fold (seg 0) in V, P. set (c := compute_checksum A B (seg 0)) in *. fold (seg c) in V, P. assert (length (seg c) = 8 + length data)%nat as Ls by done.
  destruct (build_parses A B UDP (seg c) 1500 S1 HB) as (p & -> & _ & _ & Hp); [lia..|]. unfold transmit. rewrite S4. eexists p, _. split; [done|]. split; [exact Hp|]. cbn [header payload]. split; [done|]. split; [done|]. split; [done|]. split; [done|]. exists c. split; [done|]. done.
Qed.
(** C36: What a UDP socket sends, the UDP input takes.  Over IPv4, with at most 1472
    bytes of data, a sender with an address of its own and an interface that
    accepts the packet, [sock_send_to] hands exactly one packet to the interface.
    That packet parses as an IPv4 packet from the sender's address to the
    destination with protocol UDP, and its payload, given to [process_packet] of
    a host where a socket is bound to the port, passes the checksum and is put
    whole behind what that socket has received, with the sender's address and
    port; nothing else changes.  The way between the two hosts is not part of
    this: packets leave without an Ethernet header
    (Link.unframed_packet_ignored), so the payload is handed over directly. *)
Theorem udp_delivers A B env k pb data t id r : sender_ok A env k -> addr_ok B -> 0 <= pb < 65536 -> Checksum.bytes data -> (length data <= 1472)%nat -> bindings t !! (Tcp.IPV4, pb) = Some id -> socks t !! id = Some r ->
  exists p pk, sock_send_to env data (Tcp.mkAddr (Tcp.V4 B) pb) k = ([p], inl (length data)) /\ parse_packet p = inl pk /\ src (header pk) = A /\ dst (header pk) = B /\ protocol (header pk) = UDP /\
    process_packet A B (payload pk) t = (set_socks (<[id := set_rx (rx_buffer r ++ [(Tcp.mkAddr (Tcp.V4 A) (Tcp.port (sock_local k)), data)]) r]> (socks t)) t, [InDatagrams], inl tt).
Proof.
  intros Hs HB Hpb Hd Hl Hb Hr. destruct (send_arrives A B env k pb data Hs HB Hpb Hd Hl) as (p & pk & E & H1 & H2 & H3 & H4 & V & c & P & D). exists p, pk. do 5 (split; [done|]).
  unfold process_packet, receive. rewrite V, P. cbn [negb udp_length src_port dst_port]. unfold deliver, UDP_SIZE. rewrite Hb, Hr, D. replace (Z.to_nat (Z.of_nat (8 + length data)) - 8)%nat with (length data) by lia. by rewrite firstn_all.
Qed.
(** ** Ephemeral ports *)
Lemma ephemeral_ports_range p : p ∈ ephemeral_ports <-> EPHEMERAL_PORT_START <= p <= EPHEMERAL_PORT_END.
Proof.
  unfold ephemeral_ports. rewrite list_elem_of_fmap. split.
  - intros (i & -> & Hi). rewrite elem_of_seq in Hi. unfold CANDIDATES, EPHEMERAL_PORT_START, EPHEMERAL_PORT_END in *. lia.
  - intros Hp. exists (Z.to_nat (p - EPHEMERAL_PORT_START)). rewrite elem_of_seq. unfold CANDIDATES, EPHEMERAL_PORT_START, EPHEMERAL_PORT_END in *. lia.
Qed.
Lemma port_free_spec t p : port_free t p = true <-> forall f, f = Tcp.IPV4 \/ f = Tcp.IPV6 -> bindings t !! (f, p) = None.
Proof. unfold port_free. rewrite andb_true_iff, !bool_decide_eq_true. naive_solver. Qed.
(** Whatever numbers are drawn, the port chosen for a socket bound to port 0 is an ephemeral port that no socket of either family is bound to, and the choice fails exactly when every ephemeral port is taken. *)
Theorem ephemeral_port_exact draws t : Forall (fun p => EPHEMERAL_PORT_START <= p <= EPHEMERAL_PORT_END) draws ->
  match allocate_ephemeral_port draws t with
  | inl p => EPHEMERAL_PORT_START <= p <= EPHEMERAL_PORT_END /\ (forall f, f = Tcp.IPV4 \/ f = Tcp.IPV6 -> bindings t !! (f, p) = None)
  | inr e => e = AddrNotAvailable /\ forall p, EPHEMERAL_PORT_START <= p <= EPHEMERAL_PORT_END -> exists f, (f = Tcp.IPV4 \/ f = Tcp.IPV6) /\ is_Some (bindings t !! (f, p))
  end.
Proof.
  intros Hd. unfold allocate_ephemeral_port. destruct (find _ (take _ _)) as [p|] eqn:E1; [|destruct (find _ ephemeral_ports) as [p|] eqn:E2].
  - apply find_some in E1 as [Hin Hf]. apply list_elem_of_In in Hin. rewrite Forall_forall in Hd. split; [by eapply Hd, subseteq_take|by apply port_free_spec].
  - apply find_some in E2 as [Hin Hf]. apply list_elem_of_In in Hin. split; [by apply ephemeral_ports_range|by apply port_free_spec].
  - split; [done|]. intros p Hp. apply ephemeral_ports_range, list_elem_of_In in Hp. pose proof (find_none _ _ E2 p Hp) as Hn. unfold port_free in Hn. apply andb_false_iff in Hn as [Hn|Hn]; apply bool_decide_eq_false in Hn; [exists Tcp.IPV4|exists Tcp.IPV6]; (split; [auto|]); by apply not_eq_None_Some.
Qed.
(** ** Examples *)
Definition host_a : Ipv4Addr := [10; 0; 0; 1].
Definition host_b : Ipv4Addr := [10; 0; 0; 2].
Definition env_of (a : Ipv4Addr) : Env := Tcp.mkEnv 0 0 a Tcp.UNSPECIFIED6 (fun _ => None).
Definition any (p : Z) : SocketAddr := Tcp.mkAddr (Tcp.V4 UNSPECIFIED) p.
(** Two sockets bound to port 53. *)
Definition two_on_53 : Udp :=
  let '(t, a) := create_socket Tcp.IPV4 udp_new in let '(t, b) := create_socket Tcp.IPV4 t in
  (bind [] b (any 53) (bind [] a (any 53) t).1).1.
Definition datagram : bytes := let seg := udp_bytes (mkUdp 1000 53 11 0) ++ [1; 2; 3] in blit 6 (be16 (compute_checksum host_a host_b seg)) seg.
Definition queue_of (id : Z) (t : Udp) : list bytes := match socks t !! id with Some k => snd <$> rx_buffer k | None => [] end.
(** The second bind is not refused; it takes the datagrams of the first socket. *)
Example second_bind_steals : (fun t => (queue_of 1 t, queue_of 2 t)) (process_packet host_a host_b datagram two_on_53).1.1 = ([], [[1; 2; 3]]).
Proof. vm_compute. reflexivity. Qed.
(** Closing the first socket takes the port away from the second. *)
Example close_unbinds_other : (process_packet host_a host_b datagram (close 1 two_on_53)).1.2 = [InDatagrams; NoPorts].
Proof. vm_compute. reflexivity. Qed.
(** A socket bound again keeps its old port, also after it is closed. *)
Example rebind_leaves_port : (let '(t, a) := create_socket Tcp.IPV4 udp_new in list_sockets (close a (bind [] a (any 54) (bind [] a (any 53) t).1).1)) = [53].
Proof. vm_compute. reflexivity. Qed.
Definition sender : UdpSocket := mkSock 1 Tcp.IPV4 (any 1000) [].
Lemma udp_delivers_witness : exists p, sock_send_to (env_of host_a) [1; 2; 3] (Tcp.mkAddr (Tcp.V4 host_b) 53) sender = ([p], inl 3%nat).
Proof.
  assert (addr_ok host_a /\ addr_ok host_b) as [Ha Hb] by (split; (split; [done|]); repeat (constructor; [lia|]); constructor).
  destruct (udp_delivers host_a host_b (env_of host_a) sender 53 [1; 2; 3] two_on_53 2 (mkSock 2 Tcp.IPV4 (any 53) [])) as (p & pk & E & _); [|done|lia| |cbn; lia|vm_compute; reflexivity|vm_compute; reflexivity|by exists p].
  - split; try done. exists UNSPECIFIED. split; [done|by left].
  - repeat (constructor; [lia|]); constructor.
Defined.
Lemma ephemeral_port_exact_witness : allocate_ephemeral_port [50000; 60000] (bind [] 1 (any 50000) (create_socket Tcp.IPV4 udp_new).1).1 = inl 60000 /\ EPHEMERAL_PORT_START <= 60000 <= EPHEMERAL_PORT_END.
Proof.
  pose proof (ephemeral_port_exact [50000; 60000] (bind [] 1 (any 50000) (create_socket Tcp.IPV4 udp_new).1).1) as H.
  assert (allocate_ephemeral_port [50000; 60000] (bind [] 1 (any 50000) (create_socket Tcp.IPV4 udp_new).1).1 = inl 60000) as E by (vm_compute; reflexivity). rewrite E in H. split; [done|]. apply H. repeat constructor; vm_compute; done.
Defined.
End Udp.
